(* ===== verification/_CoqProject ===== *)
-Q . S2P
Prelude.v
RunGeometry.v
RootPool.v
RootPoolFacts.v
Bitmaps.v
Arena.v
ArenaFacts.v
Heap.v
Marking.v
HeapFacts.v
MarkingFacts.v
Sweep.v
SweepFacts.v
SweepPlan.v
SweepTopology.v
SweepArena.v
SweepSteps.v
SweepSafe.v
SweepCorrect.v
Collection.v
Claim.v
ClaimFacts.v
ClaimRaces.v
Admission.v
AdmissionFacts.v
Alloc.v
AllocFacts.v
AllocClaims.v
Allocators.v
Finalize.v
FinalizeFacts.v
FinalizeRun.v
FinalizeSteps.v
HeapMachine.v
HeapState.v
HeapSteps.v
HeapSafety.v
HeapSamples.v
NetModel.v
Polarity.v
NetBuilder.v
RuntimeGraph.v
Boundary.v
Rewrite.v
Instantiate.v
Calls.v
Evolution.v
WalkCycle.v
FanSites.v
WholeCopy.v
Copies.v
CopyInvariant.v
CopySteps.v
CopyStart.v
WholeCapture.v
WholeInstall.v
WholeSteps.v
Changes.v
CopySamples.v
Compiled.v
CompiledFacts.v
CoreOperators.v
CompiledSamples.v
InterfaceRoute.v
RouteFacts.v
RouteSamples.v
GlamList.v
GlamListFacts.v
GlamListJoin.v
GlamListSamples.v
Conflict.v
DictPaths.v
StoreJournal.v
ReflectionStore.v
StoreFacts.v
StoreHistory.v
StoreSerial.v
StoreSamples.v
Numbers.v
NumberFacts.v
