(* ===== verification/Prelude.v ===== *)
(** * Verification of glam

    glam is a lazily evaluated assembly language whose computations run as
    interaction nets on a precisely collected heap. This library models the
    interaction-net core (building and checking net templates, the runtime
    graph and its rewriting, calls and checkpoints, the copying of one net into
    another, and the compilation of nets that only build values), the operators of
    the language, the persistent lists and the exact numbers of the value language,
    the store of reflection with its transactions, the cycle detector, and the
    collected heap: roots, allocation, marking, sweeping, destructors and the
    admission of threads and collections. Every definition is
    a translation of Rust code under [src/]; the theorems are proved about those
    definitions.

    ** The program and its parts

    A net is described by a template: the builder ([interaction_net/builder.rs])
    collects nodes and wires with tunnels and copies, checks that every port is
    wired ([validate]) and that the signs of the ports are consistent
    ([interaction_net/polarity.rs]), and normalizes the result to an
    [InteractionNet] ([interaction_net/model.rs]). [RuntimeNet::new] turns a
    template into a runtime graph ([interaction_net/runtime/graph.rs]), whose
    active pairs are reduced by the rules of
    [interaction_net/runtime/rewrite.rs]: joining, duplicating, commuting,
    erasing. A pair of a bind and a datum is a call: it is claimed, served
    outside the net and completed, possibly through a callable checkpoint that
    carries a payload across suspensions ([interaction_net/runtime.rs]). A call
    on another net is answered by a copy of it, made node by node through
    remote cursors ([interaction_net/runtime/cursor.rs]) or, when the source
    has no evaluation left, in one step ([interaction_net/runtime/whole_copy.rs]).
    An evaluator asks a net what its interface waits for: the demand is walked
    from the interface to the pair, call or cursor that holds it up, and the walk
    is recorded, so that a later poll resumes it instead of starting over.
    A net without evaluation left that only builds values is compiled to a list of
    steps ([interaction_net/runtime/compiled.rs]); an evaluator runs them in its
    place, applying the operators of [core_net.rs] to operands one at a time
    ([eval/operator.rs]).
    The heap ([crates/glam-gc/src]) allocates runs of slots of one representation,
    whose geometry [run.rs] derives, in an arena of aligned chunks ([arena.rs]).
    A thread enters through an admission word ([admission.rs]) and allocates from
    words of the runs' bitmaps that it leases ([thread_cache.rs], [mutator.rs]);
    values it keeps are roots in pooled slots ([root_pool.rs]). A collection
    ([heap.rs]) runs when no thread is inside: it marks what the roots and the
    ephemerons ([ephemeron.rs]) reach, frees or queues the rest, and opens the
    free words; the destructors that are queued run afterwards, one run at a time,
    while other threads use the heap. Lists ([list.rs]) are ropes of byte slices, value slices and finger
    trees with deferred holes; the evaluator takes them apart and maps them one
    step at a time, without forcing a hole.
    Reflection keeps shared volumes of nested dictionaries in a store
    ([reflection/store.rs]). A transaction works on a journal over a snapshot: it
    records what it read in an index ([reflection/store/conflict.rs]) and its edits in
    order. A commit is refused if the store has since changed what was read; otherwise
    it installs the drafts of the journal, or replays the edits on what is there now,
    and settles the promises it resolves ([reflection/promises.rs]). Concurrent work
    within a transaction runs on branches that merge back. The values of a volume are
    lazy: edits suspend insertions and removals that the dictionary machines run later
    ([eval/dict_machine.rs], [eval/access_machine.rs]). Numbers ([number.rs]) are exact
    rationals, read from literals and printed.

    ** Files

    - [Prelude]: results of Rust code ([outcome]: value, error, panic, or fuel
      exhausted), loops over lists ([foldM], [foldM_inv]), vectors, machine
      integers with checked arithmetic.
    - [RunGeometry] ([crates/glam-gc/src/run.rs]): deriving the slot count of an
      allocation run, slot addressing, the packed run header.
    - [RootPool] ([root_pool.rs] and the root slots of [thread_cache.rs]), with
      [RootPoolFacts]: reference-counted root slots under any interleaving of
      threads and handles.
    - [Bitmaps], [Arena] ([arena.rs]) with [ArenaFacts] ([arena_wf]): chunks, runs,
      headers and bitmaps, the owner of an address, reading and writing a slot's
      bits.
    - [Heap] (classes, batch and lookups of [heap.rs], [class.rs]) with [HeapFacts]
      ([heap_wf]).
    - [Marking] ([MarkAttempt] of [heap.rs], [ephemeron.rs]), [MarkingFacts].
    - [Sweep] ([DeadSetPlan], [FinalizationBatchPlan] and the allocator transition
      of [heap.rs]); [SweepFacts] and [SweepPlan] prove the plan, [SweepTopology],
      [SweepArena] and [SweepSteps] its phases, [SweepSafe] and [SweepCorrect] the
      whole; [Collection] composes marking and sweeping.
    - [Claim] ([claim_allocation_word] and the cursors of [thread_cache.rs]) by
      atomic actions, with [ClaimFacts]; [ClaimRaces] interleaves them.
    - [Admission] ([admission.rs], [admission/gate.rs], entry, exit and collection
      paths of [heap.rs]) by atomic actions, with [AdmissionFacts].
    - [Alloc] (allocators, classes, frontiers and publication of runs in [heap.rs],
      [mutator.rs]); [AllocFacts] (publishing runs, words and objects), [AllocClaims]
      (refilling a cursor) and [Allocators] prove it.
    - [Finalize] (the finalization batch of [heap.rs] once it is published: attempts,
      their completion, the loop over a batch). [FinalizeFacts] proves attempts,
      [FinalizeRun] the completion of one on its run and batch, [FinalizeSteps] on the
      whole heap ([finalized_heap]).
    - [HeapMachine]: one request per operation on the heap, for any number of
      threads. [HeapState] has its invariant [machine_ok], [HeapSteps] proves the
      requests, [HeapSafety] the claims about it, those about destructors included;
      [HeapSamples] runs it.
    - [NetModel] ([interaction_net/model.rs]): nodes, ports (packed in a word),
      signs, fan identities, links, the polarity table.
    - [Polarity] ([interaction_net/polarity.rs]): the union-find with parities
      that assigns signs, the explanation of a conflict, connectivity.
    - [NetBuilder] ([interaction_net/builder.rs]): the builder's operations,
      validation, normalization of tunnels, copies and renumbering.
    - [RuntimeGraph], [Boundary] ([interaction_net/runtime/graph.rs] and the graph
      part of [runtime.rs]): nodes, links, wiring, active pairs and cursor
      obligations; detaching and attaching the boundary of a rewrite.
    - [Rewrite] ([interaction_net/runtime/rewrite.rs]): the rules, [reduce_pair],
      and the invariant [net_wf].
    - [Instantiate] ([RuntimeNet::new]): from templates to runtime nets.
    - [Calls] ([interaction_net/runtime.rs]): claims, the checkpoint protocol as a
      machine with one request per operation, completing calls.
    - [Evolution], [Changes]: the relation [evolves] between a net and a later
      state of it (what was not consumed still waits), and that every operation of
      the runtime, collected in the step relation [net_change], is a step of it; so
      what is once superseded stays so.
    - [WalkCycle] ([src/walk_cycle.rs]): Brent's cycle detection, and the loop
      combinator [walk_while].
    - [FanSites] ([translate_fan_identity] of [cursor.rs]): renaming fan sites.
    - [WholeCopy], [Copies]: the operations of [whole_copy.rs] and [cursor.rs].
      [CopyInvariant], [CopySteps], [CopyStart] prove them for copies through
      cursors, [WholeCapture], [WholeInstall], [WholeSteps] for whole copies;
      [CopySamples] runs them on concrete nets.
    - [InterfaceRoute] (the interface demands of [runtime.rs]): the bounded route
      record, the walk, polls, and the dependencies of cursors. [RouteFacts] proves
      them, [RouteSamples] runs them.
    - [Compiled] ([compiled.rs], [apply_compiled] of [eval/operator.rs]): the
      compiler and the code it makes. [CompiledFacts] proves it against what the
      ports of a net carry ([carries]).
    - [CoreOperators] ([core_net.rs], [eval/operator.rs], [Builtin] of [core.rs]):
      the operators of the language, their application, and eager application of
      compiled code. [CompiledSamples] compiles and runs a net.
    - [GlamList] ([list.rs]): the nodes of a list and its operations.
      [GlamListFacts] relates a list to the sequence of its items and proves
      building, popping and cutting; [GlamListJoin] joining, mapping, traversing
      and comparing; [GlamListSamples] runs them on concrete lists.
    - [Conflict] ([Key] of [core.rs], [reflection/store/conflict.rs]): keys, the key a
      write stores and a read looks up, addresses, the interface [ConflictAnalysis]
      and the three indices that implement it.
    - [DictPaths] (paths of [eval/dict_machine.rs] and [eval/access_machine.rs]):
      evaluated data with reference operations at paths, lazy values with their
      meaning [denote], the machines, and their proof.
    - [StoreJournal] (snapshots, edits and journals of [reflection/store.rs]) and
      [ReflectionStore] (the store, its commits and its promises). [StoreFacts] gives
      the meaning of replayed edits and of [dependency], the invariant of journals
      ([journal_ok]), what the two commit paths install and what a commit changes.
    - [StoreHistory]: the program of a transaction as a tree that goes on from what it
      reads ([Body]), and the store as a step relation ([world_step]) with every past
      version and the invariant [world_inv]. [StoreSerial] proves the claims about
      transactions, branches and promises; [StoreSamples] runs them.
    - [Numbers] ([number.rs]) over the interface [BigRational]; [NumberFacts] proves
      them and implements the interface by canonical rationals.

    ** What the theorems show

    - Templates: [try_finish] accepts exactly the builders that are validly wired,
      connected and have a sign assignment, and what it returns is a normalized,
      well-formed template; the checker decides its constraints and its conflict
      explanation is a real walk that contradicts itself.
    - Reduction: from any finished template, through any sequence of reductions,
      the runtime net stays well formed ([net_wf]: every port wired to a port of
      opposite sign that points back, signs per the polarity table, active pairs
      exactly the principal-principal wires, frontiers and cursors naming each
      other), and every ready pair reduces without a panic, consuming exactly the
      pair.
    - Calls and checkpoints: a payload is never lost or duplicated, whatever the
      sequence of requests; a superseded call is refused, whatever the net does in
      between; completions never panic and leave a well-formed net with the answer in
      place.
    - Copies: the invariant [copy_ok] between a copy and its source (the copied
      part is frozen; cursors stand for distinct source ports and have their
      signs; fan sites are renamed injectively to fresh ones) is established by the
      start of a copy, kept by every cursor step, and survives any reduction of
      the source or of the target. A whole copy is isomorphic to the captured part.
    - Interface demands: a poll names the obligation the interface waits for, and
      a poll that resumes from the record of an earlier one answers what a full
      walk would, whatever operations changed the net in between. A cursor
      dependency is resolved exactly when its cursor is still the one claimed.
    - Compiled nets: compilation succeeds exactly on settled nets whose body builds
      a value from every node, and the code gives the value the body carries. An
      operator takes exactly the operands it announces and yields what it builds
      of all of them.
    - Lists: a list stands for a sequence of bytes, values and holes ([denote]);
      every operation keeps the canonical representation ([list_wf]) and is
      described on the sequence alone. Stepping from either end is total and lazy,
      cuts are exact and panic exactly out of range, joins keep the order, flat
      maps add logarithmic depth; visitors see the items in order, in parts whose cuts
      follow the shape; equality of lists that share no node compares items and, if
      there is a hole, answers no.
    - Transactions: an accepted transaction whose writes are placed could have run
      whole at its commit, with the same reads, edits and outcome, for every conflict
      analysis that misses nothing, which the three do; installing drafts and replaying
      edits agree; a merged branch whose edits are placed is as if it had run at the
      merge. In any history of a store each promise is settled at most once, and a
      transaction that resolves it again is refused from then on. The dictionary
      machines compute the reference operations.
    - Numbers: a printed number parses back to itself; decimal literals, with or without
      fraction, exponent and sign, have the value they spell, and the fast path for short ones never overflows; a remainder is
      smaller than its divisor and has its sign.
    - The collector's geometry is sound and maximal, and its errors are exact.
    - The root pool hands out no slot twice and loses none: a collection offers every
      slot without a handle.
    - The heap is memory safe and collects exactly. Whatever threads, handles,
      stores, collections and destructors do, in whatever order, every request the
      code allows is served without a panic, unless the process has no memory
      left; what a root reaches is an object. Marking marks exactly what is
      reachable, ephemerons included; after a collection the live objects are the
      reachable ones, lost objects are freed or queued for their destructors, and
      freed slots can be handed out again. An allocation returns a slot that held
      no object and changes no other.
    - Destructors run on values nothing reaches, once each; completing an attempt
      removes exactly the values destroyed; the loop over a batch ends, whichever
      destructors panic, and empties the batch when none does.
    - Races: threads that claim words of one run and allocate from them never get
      the same slot, and together get every free one; a thread that holds the
      collection's authority excludes mutators and other collections, and a thread
      that waits for the coordinator is notified.

    ** Modelling choices

    A port is a pair of a node and an index; [NetModel] proves that the packed
    64-bit representation refines it. Node IDs are naturals with the 64-bit bound
    checked where the code checks it; the theorems ask for room (8 free IDs for a
    rewrite or a cursor step, 64 for a whole copy). Hash maps are [gmap]s: no
    modelled code depends on their iteration order. Payload types, their
    duplication and source handles are parameters ([NetSpecialization],
    [PayloadDuplicator]), as they are in the code. Panics are values, so that
    "does not panic" is a theorem. The byte buffers and finger trees of
    third-party crates are classes of operations ([BytesOps], [FingerOps]) with
    their documented laws, which [GlamListSamples] shows plain lists to satisfy;
    where a list operation compares pointers, the answer is an argument. List
    theorems that depend on lengths ask that they fit a [usize]. Polarity checks
    that only a debug build runs, profiling counters, and the edge transitions
    reported to the collector ([*_edge_transition]) are left out.

    The memory of a run is a record of its header and its bitmaps; [RunGeometry]
    proves that they do not overlap. A pointer to a root slot is the position of
    its chunk and of the slot in it. What an object contains is what its [Trace]
    implementation reports, edges and ephemerons; the process's allocator is a
    parameter ([allocator_ok]: chunks are aligned and do not overlap), and so is
    whether a destructor returns or panics. Counters of reports, metrics, and
    reservations of capacity ahead of an operation are left out. Code that threads
    run without a common lock (claims, admission) is cut into its atomic actions,
    which interleave in any order; the operations of [HeapMachine] each run under
    the locks their code takes, so they are its steps, and destructors run between
    the steps of an attempt.

    A volume's ID stands for its managed cell; the collector's finding that cells are
    unreachable is a set, under which their versions read as absent. The values of the
    store are terms over the dictionary operations, access and the application of
    opaque functions; a failure is one value, whatever its message. The revision of a
    store is a 64-bit counter that wraps; the step relation excludes the wrap.
    Serializability asks that the paths of edits are direct (no abstract path nested in
    a list or dictionary key, for which a read looks elsewhere than the write stored)
    and that writes are placed: no path runs through a value that is no dictionary.
    Without the latter it fails: such a write hides a later read of the transaction
    from validation ([misplaced_write_reads_unobserved]), and such a removal makes the
    whole volume a failure ([misplaced_removal_fails_volume]); [StoreSamples] has both.
    The programs of transactions do not create volumes or resolve promises; what
    [promises_settle_once] shows of resolutions holds for every journal and any
    interleaving of commits, publications and changes of the store. Rationals and
    unbounded integers are third-party: [RationalLaws] states what [num_rational] and
    [num_bigint] document, and canonical rationals satisfy it.

    Fuel: [derive] halves its candidate at most 17 times; the union-find's [find]
    and compression and the searches of the polarity checker take at most one turn
    per slot; following tunnels three turns per node; a demand spine
    3 (nodes + 1) + 1 turns, by the bound of the cycle detector; reaching a whole
    copy at most 64 turns; an interface route 3 (nodes + 1) + 1 turns, and
    dropping the missing nodes of a record one turn per recorded node; a walk over
    a list one turn per node, a comparison one per item, balanced concatenation
    fewer rounds than lists. In the heap, draining a word takes at most 64 turns,
    a mark stack one turn per slot and one more, the passes over ephemerons one per
    recorded pair and one more, a claim 130 per word of the lease bitmap and 3 more,
    a search over a class's runs one per run and 2 more, an attempt one turn per
    destructor. The compiler's depth is the code's own bound, the number of nodes;
    [CompiledFacts] proves that it excludes no net. Each function is proved never to run out.

    ** Not modelled

    The evaluator's machines ([src/eval], but for its operators and the walks of
    dictionaries along paths), the coordinator
    and sessions ([src/evaluation]), the machine and requests of reflection
    ([src/reflection], but for its store) and the value language ([src/core], but for
    builtins and keys): they interpret the
    whole language, over values that hold closures, managed cells and handles to
    threads, so that a part of them has no contract of its own that could be stated
    without the rest. The syntax front end ([src/g_syntax]) has for its
    specification the grammar it implements. The API and the command line are I/O.
    The edge transitions of the net runtime are instructions to the collector. Of
    the heap, the bodies of [Trace] and of destructors are user code; the thread
    that runs a destructor may make any request of [HeapMachine] before it is
    recorded. What a value built from operands is, is an operation of [ValueMaker].
    Of numbers, the conversions from and to floating point; of the store's promises,
    the publication of settled values to the evaluation that waits on them. Functions
    compiled only for tests are left out. *)

From stdpp Require Import base option list numbers.
From Stdlib Require Import ZArith Lia.

Declare Scope glam_scope.
Delimit Scope glam_scope with glam.

(** ** Results of Rust code

    [outcome E A] is what a Rust function of type [Result<A, E>] does:
    [Ok], [Err], a panic ([expect], [assert!], an index out of range), or,
    for a loop modelled with fuel, running out of it. A function that
    returns a plain [A] but may panic is polymorphic in [E]. *)
Inductive outcome (E A : Type) : Type :=
  | Ok (a : A)
  | Err (e : E)
  | Panic
  | OutOfFuel.
Arguments Ok {E A} a.
Arguments Err {E A} e.
Arguments Panic {E A}.
Arguments OutOfFuel {E A}.

(** Code without error results: it returns or panics. *)
Notation M := (outcome Empty_set).

#[export] Instance outcome_ret {E} : MRet (outcome E) := fun A a => Ok a.
#[export] Instance outcome_bind {E} : MBind (outcome E) := fun A B k m =>
  match m with
  | Ok a => k a
  | Err e => Err e
  | Panic => Panic
  | OutOfFuel => OutOfFuel
  end.

(** [.expect(..)] and [.unwrap()] on an option. *)
Definition expect {E A} (o : option A) : outcome E A :=
  match o with Some a => Ok a | None => Panic end.

(** [.ok_or(e)?]. *)
Definition ok_or {E A} (o : option A) (e : E) : outcome E A :=
  match o with Some a => Ok a | None => Err e end.

(** [assert!(b)]. *)
Definition rust_assert {E} (b : bool) : outcome E unit :=
  if b then Ok () else Panic.

(** Indexing a slice or a [Vec]: out of range panics. *)
Definition vec_get {E A} (v : list A) (i : nat) : outcome E A := expect (v !! i).

(** Assigning through an index: out of range panics. *)
Definition vec_set {E A} (v : list A) (i : nat) (a : A) : outcome E (list A) :=
  if decide (i < length v) then Ok (<[i := a]> v) else Panic.

(** [.map_err(f)]. *)
Definition map_err {E F A} (f : E -> F) (m : outcome E A) : outcome F A :=
  match m with
  | Ok a => Ok a
  | Err e => Err (f e)
  | Panic => Panic
  | OutOfFuel => OutOfFuel
  end.

(** A loop over a list that threads a state and may panic. *)
Fixpoint foldM {E A T} (f : T -> A -> outcome E T) (s : T) (l : list A) : outcome E T :=
  match l with
  | [] => Ok s
  | a :: l => s' ← f s a; foldM f s' l
  end.

Definition is_ok {E A} (m : outcome E A) : bool :=
  match m with Ok _ => true | _ => false end.

Lemma bind_Ok {E A B} (m : outcome E A) (k : A -> outcome E B) (b : B) :
  (m ≫= k) = Ok b <-> exists a, m = Ok a /\ k a = Ok b.
Proof. destruct m; naive_solver. Qed.

Lemma bind_Err {E A B} (m : outcome E A) (k : A -> outcome E B) (e : E) :
  (m ≫= k) = Err e <-> m = Err e \/ exists a, m = Ok a /\ k a = Err e.
Proof. destruct m; naive_solver. Qed.

Lemma expect_Ok {E A} (o : option A) a : expect (E:=E) o = Ok a <-> o = Some a.
Proof. destruct o; cbn; split; congruence. Qed.

Lemma vec_get_Ok {E A} (v : list A) i a :
  vec_get (E:=E) v i = Ok a <-> v !! i = Some a.
Proof. unfold vec_get, expect. destruct (v !! i); naive_solver. Qed.

Lemma vec_get_Err {E A} (v : list A) i (e : E) : vec_get v i <> Err e.
Proof. unfold vec_get, expect. by destruct (v !! i). Qed.

Lemma vec_set_Ok {E A} (v w : list A) i a :
  vec_set (E:=E) v i a = Ok w <-> i < length v /\ w = <[i := a]> v.
Proof. unfold vec_set. case_decide; naive_solver. Qed.

Lemma vec_get_lt {E A} (v : list A) i :
  i < length v -> exists a, v !! i = Some a /\ vec_get (E:=E) v i = Ok a.
Proof.
  intros Hi. destruct (lookup_lt_is_Some_2 v i Hi) as [a Ha].
  exists a. by rewrite vec_get_Ok.
Qed.

Lemma vec_set_lt {E A} (v : list A) i a :
  i < length v -> vec_set (E:=E) v i a = Ok (<[i := a]> v).
Proof. intros. by rewrite vec_set_Ok. Qed.

(** Decompose a successful monadic computation in the hypotheses. *)
Ltac inv_ok :=
  repeat match goal with
  | H : (_ ≫= _) = Ok _ |- _ =>
      let a := fresh "x" in let H1 := fresh "Hok" in
      apply bind_Ok in H; destruct H as (a & H1 & H)
  | H : Ok _ = Ok _ |- _ => apply (f_equal (fun m => match m with Ok a => Some a | _ => None end)) in H; simplify_eq
  | H : mret _ = Ok _ |- _ => unfold mret, outcome_ret in H
  | H : vec_get _ _ = Ok _ |- _ => apply vec_get_Ok in H
  | H : vec_set _ _ _ = Ok _ |- _ => apply vec_set_Ok in H; destruct H as [? ?]
  | H : Err _ = Ok _ |- _ => discriminate H
  | H : Panic = Ok _ |- _ => discriminate H
  | H : OutOfFuel = Ok _ |- _ => discriminate H
  end.

Lemma assert_bind {E A} (b : bool) (k : unit -> outcome E A) : b = true -> (rust_assert b ≫= k) = k ().
Proof. by intros ->. Qed.

Lemma expect_bind {E A B} (o : option A) (a : A) (k : A -> outcome E B) : o = Some a -> (expect o ≫= k) = k a.
Proof. by intros ->. Qed.

Lemma foldM_app {E A T} (f : T -> A -> outcome E T) s l k :
  foldM f s (l ++ k) = (s' ← foldM f s l; foldM f s' k).
Proof. revert s. induction l as [|a l IH]; intros s; [done|]. cbn. destruct (f s a); naive_solver. Qed.

Lemma foldM_fmap {E A B T} (f : T -> B -> outcome E T) (g : A -> B) s l :
  foldM f s (g <$> l) = foldM (fun s a => f s (g a)) s l.
Proof. revert s. induction l as [|a l IH]; intros s; [done|]. cbn. destruct (f s (g a)); cbn; auto. Qed.

Lemma foldM_bind {E A B T} (f : T -> B -> outcome E T) (g : A -> list B) (l : list A) : forall s,
  foldM f s (l ≫= g) = foldM (fun s a => foldM f s (g a)) s l.
Proof.
  induction l as [|a l IH]; intros s; [done|]. cbn. rewrite foldM_app. destruct (foldM f s (g a)); [|done..]. cbn. apply IH.
Qed.

Lemma foldM_ext {E A T} (f g : T -> A -> outcome E T) (l : list A) : forall s,
  (forall a s, a ∈ l -> f s a = g s a) -> foldM f s l = foldM g s l.
Proof.
  induction l as [|a l IH]; intros s H; [done|]. cbn. rewrite (H a s) by left. destruct (g s a); [|done..]. cbn.
  apply IH. intros b s' Hb. apply H. by right.
Qed.

(** The loop rule: an invariant of the prefix already processed. *)
Lemma foldM_inv {E A T} (f : T -> A -> outcome E T) (I : list A -> T -> Prop) l s :
  I [] s ->
  (forall done a rest s, l = done ++ a :: rest -> I done s ->
     exists s', f s a = Ok s' /\ I (done ++ [a]) s') ->
  exists s', foldM f s l = Ok s' /\ I l s'.
Proof.
  intros H0 Hstep.
  assert (Hgen : forall rest don s, l = don ++ rest -> I don s ->
            exists s', foldM f s rest = Ok s' /\ I l s').
  { induction rest as [|a rest IH]; intros don s1 -> Hs.
    - rewrite app_nil_r in *. by exists s1.
    - destruct (Hstep don a rest s1) as (s' & Hf & Hs'); [done..|].
      cbn [foldM]. rewrite Hf. cbn [mbind outcome_bind].
      apply (IH (don ++ [a])); [|done]. by rewrite <- app_assoc. }
  by apply (Hgen l []).
Qed.

Lemma mapM_total {E A B} (f : A -> outcome E B) (R : A -> B -> Prop) l :
  (forall x, x ∈ l -> exists y, f x = Ok y /\ R x y) -> exists ys, mapM f l = Ok ys /\ Forall2 R l ys.
Proof.
  induction l as [|x l IH]; intros H; [by exists []; split; [|constructor]|].
  destruct (H x) as (y & Hy & HR); [left|]. destruct IH as (ys & Hys & HF); [intros z Hz; apply H; by right|].
  exists (y :: ys). cbn. rewrite Hy. cbn. rewrite Hys. split; [done|by constructor].
Qed.

Lemma mapM_Forall2 {E A B} (f : A -> outcome E B) l ys : Forall2 (fun x y => f x = Ok y) l ys -> mapM f l = Ok ys.
Proof. induction 1 as [|x y l ys Hx _ IH]; [done|]. cbn. rewrite Hx. cbn. by rewrite IH. Qed.

Lemma mapM_app {E A B} (f : A -> outcome E B) l k :
  mapM f (l ++ k) = (a ← mapM f l; b ← mapM f k; Ok (a ++ b)).
Proof.
  induction l as [|x l IH]; cbn; [by destruct (mapM f k)|]. destruct (f x); cbn; [|done..]. rewrite IH.
  destruct (mapM f l); cbn; [|done..]. by destruct (mapM f k).
Qed.

Lemma mapM_fmap {E A B C} (f : B -> outcome E C) (g : A -> B) l : mapM f (g <$> l) = mapM (fun a => f (g a)) l.
Proof. induction l as [|x l IH]; [done|]. cbn. by rewrite IH. Qed.

Lemma mapM_Ok_all {E A B} (f : A -> outcome E B) (P : B -> Prop) l : (forall x y, f x = Ok y -> P y) ->
  match mapM f l with Ok ys => Forall P ys | _ => True end.
Proof.
  intros HP. induction l as [|x l IH]; cbn; [constructor|]. destruct (f x) eqn:E1; cbn; [|done..].
  destruct (mapM f l); cbn; [|done..]. constructor; [by eapply HP|done].
Qed.

Lemma Forall_one {A} (P : A -> Prop) (x : A) : Forall P [x] -> P x.
Proof. by rewrite Forall_singleton. Qed.

(** ** Machine-width integers *)
Local Open Scope Z_scope.

Definition u32_max : Z := 2 ^ 32 - 1.
Definition u64_max : Z := 2 ^ 64 - 1.
Definition i64_max : Z := 2 ^ 63 - 1.
Definition i64_min : Z := - 2 ^ 63.
(** The program's target is 64-bit: [usize] is 64 bits wide. *)
Definition usize_max : Z := u64_max.
Definition isize_max : Z := 2 ^ 63 - 1.

(** Unchecked 64-bit arithmetic, as a release build performs it. *)
Definition wrap64 (z : Z) : Z := z mod 2 ^ 64.

Definition checked_add (a b : Z) : option Z :=
  if a + b <=? usize_max then Some (a + b) else None.
Definition checked_mul (a b : Z) : option Z :=
  if a * b <=? usize_max then Some (a * b) else None.
Definition checked_sub (a b : Z) : option Z :=
  if b <=? a then Some (a - b) else None.

(** Bitwise complement of a 64-bit word. *)
Definition not64 (a : Z) : Z := u64_max - a.

(** Integer division panics on a zero divisor. *)
Definition udiv {E} (a b : Z) : outcome E Z := if b =? 0 then Panic else Ok (a / b).

(** [usize::div_ceil] by a nonzero constant. *)
Definition div_ceil (a b : Z) : Z := (a + b - 1) / b.

Lemma wrap64_small z : 0 <= z < 2 ^ 64 -> wrap64 z = z.
Proof. apply Z.mod_small. Qed.

Lemma checked_add_Some a b c :
  checked_add a b = Some c <-> a + b <= usize_max /\ c = a + b.
Proof. unfold checked_add. destruct (Z.leb_spec (a + b) usize_max); naive_solver lia. Qed.

Lemma checked_mul_Some a b c :
  checked_mul a b = Some c <-> a * b <= usize_max /\ c = a * b.
Proof. unfold checked_mul. destruct (Z.leb_spec (a * b) usize_max); naive_solver lia. Qed.

Lemma checked_sub_Some a b c :
  checked_sub a b = Some c <-> b <= a /\ c = a - b.
Proof. unfold checked_sub. destruct (Z.leb_spec b a); naive_solver lia. Qed.

Lemma checked_add_fits a b : a + b <= usize_max -> checked_add a b = Some (a + b).
Proof. intros. by apply checked_add_Some. Qed.

Lemma checked_mul_fits a b : a * b <= usize_max -> checked_mul a b = Some (a * b).
Proof. intros. by apply checked_mul_Some. Qed.

(** Masking with the complement of [2^k - 1] clears the low [k] bits. *)
Lemma land_not64_pow2 (x k : Z) :
  0 <= k <= 63 -> 0 <= x <= u64_max ->
  Z.land x (not64 (2 ^ k - 1)) = x - x mod 2 ^ k.
Proof.
  intros Hk Hx. unfold not64, u64_max in *.
  assert (Hp : 2 ^ 64 = 2 ^ k * 2 ^ (64 - k)) by (rewrite <- Z.pow_add_r by lia; f_equal; lia).
  assert (Hk0 : 0 < 2 ^ k) by (apply Z.pow_pos_nonneg; lia).
  replace (2 ^ 64 - 1 - (2 ^ k - 1)) with (Z.shiftl (Z.ones (64 - k)) k).
  2:{ rewrite Z.shiftl_mul_pow2, Z.ones_equiv by lia. unfold Z.pred. lia. }
  apply Z.bits_inj'. intros n Hn. rewrite Z.land_spec.
  replace (x - x mod 2 ^ k) with (Z.shiftl (Z.shiftr x k) k).
  2:{ rewrite Z.shiftl_mul_pow2, Z.shiftr_div_pow2 by lia.
      pose proof (Z.div_mod x (2 ^ k) ltac:(lia)). lia. }
  rewrite !Z.shiftl_spec by lia.
  destruct (Z.ltb_spec n k).
  { rewrite !(Z.testbit_neg_r _ (n - k)) by lia. by rewrite andb_false_r. }
  rewrite Z.shiftr_spec by lia. replace (n - k + k) with n by lia.
  destruct (Z.ltb_spec n 64).
  - rewrite Z.ones_spec_low by lia. by rewrite andb_true_r.
  - rewrite Z.ones_spec_high by lia.
    assert (Hbit : Z.testbit x n = false).
    { destruct (Z.eq_dec x 0) as [->|]; [apply Z.testbit_0_l|].
      apply Z.bits_above_log2; [lia|]. apply Z.log2_lt_pow2; [lia|].
      eapply Z.lt_le_trans with (2 ^ 64); [lia|]. apply Z.pow_le_mono_r; lia. }
    by rewrite Hbit.
Qed.

Create HintDb glam.
#[export] Hint Resolve vec_set_lt checked_add_fits checked_mul_fits : glam.
