(* ===== verification/RunGeometry.v ===== *)
(** * Allocation-run geometry of the collector ([crates/glam-gc/src/run.rs])

    A run is 64 KiB: a 64-byte header, three bitmaps (allocation, lease,
    mark), padding, and equally sized slots. [derive] finds the layout with
    the most slots by binary search; [RunHeader] stores it in 32-bit fields
    and reads it back. Sizes are [usize]: mathematical integers with the
    checked operations and the wrap-around of 64-bit arithmetic written out. *)
From stdpp Require Import base option list numbers.
From Stdlib Require Import ZArith Lia.
From S2P Require Import Prelude.
Local Open Scope Z_scope.

(** ** Constants and data *)
Definition RUN_SIZE : Z := 64 * 1024.
Definition RUN_HEADER_SIZE : Z := 64.
Definition METADATA_PAYLOAD_ALIGNMENT : Z := 128.
Definition BITMAP_WORD_BITS : Z := 64.
Definition BITMAP_WORD_SIZE : Z := 8.
Definition RUN_HEADER_MAGIC : Z := 0x474c414d52554e31.

(** [std::alloc::Layout]: a size and an alignment. *)
Record Layout := { size : Z; align : Z }.

Inductive GeometryError :=
  | ZeroSized
  | RequestedSlotTooSmall
  | ArithmeticOverflow
  | NoSlots.

Record BitmapGeometry := { offset : Z; bit_len : Z; word_len : Z }.

Record RunGeometry := {
  slot_stride : Z;
  first_slot_offset : Z;
  slot_count : Z;
  allocation_bitmap : BitmapGeometry;
  lease_bitmap : BitmapGeometry;
  mark_bitmap : BitmapGeometry;
}.

#[export] Instance BitmapGeometry_eq_dec : EqDecision BitmapGeometry.
Proof. solve_decision. Defined.

(** ** Operations *)
Definition byte_len (b : BitmapGeometry) : Z := wrap64 (word_len b * BITMAP_WORD_SIZE).

Definition bitmap_end (b : BitmapGeometry) : Z := wrap64 (offset b + byte_len b).

Definition checked_bitmap_end (b : BitmapGeometry) : option Z :=
  checked_mul (word_len b) BITMAP_WORD_SIZE ≫= fun bytes => checked_add (offset b) bytes.

Definition bitmap_words (bits : Z) : Z := div_ceil bits BITMAP_WORD_BITS.

Definition align_up (value alignment : Z) : option Z :=
  (fun rounded => Z.land rounded (not64 (alignment - 1))) <$> checked_add value (alignment - 1).

Definition for_slot_count (stride payload_alignment count : Z)
    : outcome GeometryError (option RunGeometry) :=
  let allocation_words := bitmap_words count in
  let lease_words := bitmap_words allocation_words in
  let allocation_bitmap :=
    {| offset := RUN_HEADER_SIZE; bit_len := count; word_len := allocation_words |} in
  let lease_bitmap :=
    {| offset := bitmap_end allocation_bitmap; bit_len := allocation_words; word_len := lease_words |} in
  let mark_bitmap :=
    {| offset := bitmap_end lease_bitmap; bit_len := count; word_len := allocation_words |} in
  first ← ok_or (align_up (bitmap_end mark_bitmap)
                   (Z.max payload_alignment METADATA_PAYLOAD_ALIGNMENT)) ArithmeticOverflow;
  slots_end ← ok_or (checked_mul count stride ≫= fun bytes => checked_add first bytes)
                ArithmeticOverflow;
  if RUN_SIZE <? slots_end then Ok None
  else Ok (Some {| slot_stride := stride; first_slot_offset := first; slot_count := count;
                   allocation_bitmap := allocation_bitmap; lease_bitmap := lease_bitmap;
                   mark_bitmap := mark_bitmap |}).

(** The binary search of [derive], one unit of fuel per iteration. *)
Fixpoint derive_loop (fuel : nat) (stride alignment lower upper : Z) (best : option RunGeometry)
    : outcome GeometryError (option RunGeometry) :=
  if lower <=? upper then
    match fuel with
    | O => OutOfFuel
    | S fuel =>
        let candidate := lower + (upper - lower) / 2 in
        r ← for_slot_count stride alignment candidate;
        match r with
        | Some g => derive_loop fuel stride alignment (candidate + 1) upper (Some g)
        | None => derive_loop fuel stride alignment lower (candidate - 1) best
        end
    end
  else Ok best.

(** Enough iterations for any range inside [1 .. RUN_SIZE]. *)
Definition derive_fuel : nat := 17.

Definition derive (payload : Layout) (requested : option Z) : outcome GeometryError RunGeometry :=
  if size payload =? 0 then Err ZeroSized else
  let requested_slot_size := default (size payload) requested in
  if requested_slot_size <? size payload then Err RequestedSlotTooSmall else
  stride ← ok_or (align_up requested_slot_size (align payload)) ArithmeticOverflow;
  maximum_slots ← udiv (RUN_SIZE - RUN_HEADER_SIZE) stride;
  if maximum_slots =? 0 then Err NoSlots else
  best ← derive_loop derive_fuel stride (align payload) 1 maximum_slots None;
  ok_or best NoSlots.

(** [is_multiple_of] of two [usize]: only zero is a multiple of zero. *)
Definition is_multiple_of (a b : Z) : bool := if b =? 0 then a =? 0 else a mod b =? 0.

Definition slot_index (g : RunGeometry) (run_offset : Z) : option Z :=
  slot_off ← checked_sub run_offset (first_slot_offset g);
  if negb (is_multiple_of slot_off (slot_stride g)) then None else
  let index := slot_off / slot_stride g in
  if index <? slot_count g then Some index else None.

Definition slot_offset (g : RunGeometry) (index : Z) : option Z :=
  if slot_count g <=? index then None
  else checked_mul index (slot_stride g) ≫= fun o => checked_add (first_slot_offset g) o.

Definition is_structurally_valid (g : RunGeometry) : bool :=
  if (slot_stride g =? 0) || (slot_count g =? 0) then false else
  let allocation_words := bitmap_words (slot_count g) in
  let lease_words := bitmap_words allocation_words in
  let alloc := {| offset := RUN_HEADER_SIZE; bit_len := slot_count g; word_len := allocation_words |} in
  if negb (bool_decide (allocation_bitmap g = alloc)) then false else
  match checked_bitmap_end alloc with None => false | Some allocation_end =>
  let lease := {| offset := allocation_end; bit_len := allocation_words; word_len := lease_words |} in
  if negb (bool_decide (lease_bitmap g = lease)) then false else
  match checked_bitmap_end lease with None => false | Some lease_end =>
  let mark := {| offset := lease_end; bit_len := slot_count g; word_len := allocation_words |} in
  if negb (bool_decide (mark_bitmap g = mark)) then false else
  match checked_bitmap_end mark with None => false | Some mark_end =>
  if (first_slot_offset g <? mark_end)
     || negb (is_multiple_of (first_slot_offset g) METADATA_PAYLOAD_ALIGNMENT) then false else
  match checked_mul (slot_count g) (slot_stride g) ≫= fun bytes =>
        checked_add (first_slot_offset g) bytes with
  | Some e => e <=? RUN_SIZE
  | None => false
  end end end end.

(** ** The run header *)

(** [AllocationClassId]: a nonzero [u64]. *)
Record AllocationClassId := { class_raw : Z }.

Definition AllocationClassId_new (id : Z) : option AllocationClassId :=
  if id =? 0 then None else Some {| class_raw := id |}.

Record RunHeader := {
  magic : Z;
  h_class_id : Z;
  h_slot_stride : Z;
  h_first_slot_offset : Z;
  h_slot_count : Z;
  allocation_bitmap_offset : Z;
  allocation_bitmap_words : Z;
  lease_bitmap_offset : Z;
  lease_bitmap_words : Z;
  mark_bitmap_offset : Z;
  mark_bitmap_words : Z;
}.

Definition empty : RunHeader :=
  {| magic := RUN_HEADER_MAGIC; h_class_id := 0; h_slot_stride := 0; h_first_slot_offset := 0;
     h_slot_count := 0; allocation_bitmap_offset := 0; allocation_bitmap_words := 0;
     lease_bitmap_offset := 0; lease_bitmap_words := 0; mark_bitmap_offset := 0;
     mark_bitmap_words := 0 |}.

(** [u32::try_from(value).expect(..)]. *)
Definition narrow {E} (value : Z) : outcome E Z := if value <=? u32_max then Ok value else Panic.

(** The [debug_assert!] of the source is a precondition of its callers and
    is not repeated here: [derive_sound] establishes it. *)
Definition initialized {E} (class_id : AllocationClassId) (g : RunGeometry) : outcome E RunHeader :=
  stride ← narrow (slot_stride g);
  first ← narrow (first_slot_offset g);
  count ← narrow (slot_count g);
  ao ← narrow (offset (allocation_bitmap g));
  aw ← narrow (word_len (allocation_bitmap g));
  lo ← narrow (offset (lease_bitmap g));
  lw ← narrow (word_len (lease_bitmap g));
  mo ← narrow (offset (mark_bitmap g));
  mw ← narrow (word_len (mark_bitmap g));
  Ok {| magic := RUN_HEADER_MAGIC; h_class_id := class_raw class_id; h_slot_stride := stride;
        h_first_slot_offset := first; h_slot_count := count; allocation_bitmap_offset := ao;
        allocation_bitmap_words := aw; lease_bitmap_offset := lo; lease_bitmap_words := lw;
        mark_bitmap_offset := mo; mark_bitmap_words := mw |}.

Definition header_is_valid (h : RunHeader) : bool := magic h =? RUN_HEADER_MAGIC.

Definition header_class_id (h : RunHeader) : option AllocationClassId :=
  if negb (header_is_valid h) then None else AllocationClassId_new (h_class_id h).

Definition header_is_empty (h : RunHeader) : bool := header_is_valid h && (h_class_id h =? 0).

Definition header_geometry (h : RunHeader) : option RunGeometry :=
  _ ← header_class_id h;
  let count := h_slot_count h in
  let allocation_words := allocation_bitmap_words h in
  let g :=
    {| slot_stride := h_slot_stride h;
       first_slot_offset := h_first_slot_offset h;
       slot_count := count;
       allocation_bitmap :=
         {| offset := allocation_bitmap_offset h; bit_len := count; word_len := allocation_words |};
       lease_bitmap :=
         {| offset := lease_bitmap_offset h; bit_len := allocation_words;
            word_len := lease_bitmap_words h |};
       mark_bitmap :=
         {| offset := mark_bitmap_offset h; bit_len := count; word_len := mark_bitmap_words h |} |} in
  if is_structurally_valid g then Some g else None.

(** ** Rounding up to an alignment *)

(** Alignments are powers of two that fit a [usize]. *)
Definition is_pow2 (a : Z) : Prop := exists k, 0 <= k <= 63 /\ a = 2 ^ k.

(** What [std::alloc::Layout] guarantees: a power-of-two alignment to which
    the size rounds up without exceeding [isize::MAX]. *)
Definition layout_wf (l : Layout) : Prop :=
  0 <= size l /\ is_pow2 (align l) /\ size l + (align l - 1) <= isize_max.

(** The least multiple of [a] that is at least [v]. *)
Definition ceil_to (v a : Z) : Z := (v + (a - 1)) - (v + (a - 1)) mod a.

Lemma is_pow2_pos a : is_pow2 a -> 0 < a.
Proof. intros (k & ? & ->). apply Z.pow_pos_nonneg; lia. Qed.

Lemma is_pow2_max a b : is_pow2 a -> is_pow2 b -> is_pow2 (Z.max a b).
Proof. intros. destruct (Z.max_dec a b) as [-> | ->]; done. Qed.

Lemma is_pow2_128 : is_pow2 METADATA_PAYLOAD_ALIGNMENT.
Proof. by exists 7. Qed.

(** Of two powers of two, each divides the larger. *)
Lemma pow2_divides_max a b : is_pow2 a -> is_pow2 b -> (a | Z.max a b).
Proof.
  intros (i & Hi & ->) (j & Hj & ->).
  destruct (Z.max_spec (2 ^ i) (2 ^ j)) as [[Hlt ->]|[_ ->]]; [|done].
  assert (i < j) by (apply (Z.pow_lt_mono_r_iff 2); lia).
  exists (2 ^ (j - i)). rewrite <- Z.pow_add_r by lia. f_equal. lia.
Qed.

#[export] Hint Resolve is_pow2_pos is_pow2_max is_pow2_128 : glam.

Lemma align_up_spec v a :
  is_pow2 a -> 0 <= v ->
  align_up v a = if v + (a - 1) <=? usize_max then Some (ceil_to v a) else None.
Proof.
  intros Ha Hv. pose proof (is_pow2_pos _ Ha). destruct Ha as (k & Hk & ->).
  unfold align_up, checked_add, ceil_to. destruct (Z.leb_spec (v + (2 ^ k - 1)) usize_max); [|done].
  cbn [fmap option_fmap option_map]. unfold usize_max in *. rewrite land_not64_pow2; [done|lia|lia].
Qed.

Lemma ceil_to_spec v a :
  0 < a -> v <= ceil_to v a < v + a /\ (a | ceil_to v a).
Proof.
  intros Ha. unfold ceil_to. pose proof (Z.mod_pos_bound (v + (a - 1)) a Ha).
  split; [lia|]. apply Z.mod_divide; [lia|]. rewrite Zminus_mod_idemp_r, Z.sub_diag.
  by apply Z.mod_0_l, Z.neq_sym, Z.lt_neq.
Qed.

(** [ceil_to v a] is the least such multiple. *)
Lemma ceil_to_least v a m : 0 < a -> (a | m) -> v <= m -> ceil_to v a <= m.
Proof.
  intros Ha [q ->] Hm. destruct (ceil_to_spec v a Ha) as [? [p Hp]].
  rewrite Hp in *. apply Z.mul_le_mono_nonneg_r; [lia|].
  assert (Hlt : p * a < (q + 1) * a) by lia. apply Z.mul_lt_mono_pos_r in Hlt; lia.
Qed.

Lemma ceil_to_mono v w a : 0 < a -> v <= w -> ceil_to v a <= ceil_to w a.
Proof.
  intros Ha ?. destruct (ceil_to_spec w a Ha). apply ceil_to_least; [done|done|lia].
Qed.

(** ** The layout for a given slot count, without machine arithmetic *)
Definition meta_end (n : Z) : Z := 64 + 8 * (2 * bitmap_words n + bitmap_words (bitmap_words n)).

Definition first_slot (al n : Z) : Z := ceil_to (meta_end n) (Z.max al METADATA_PAYLOAD_ALIGNMENT).

Definition layout_for (stride al n : Z) : RunGeometry :=
  let aw := bitmap_words n in
  let lw := bitmap_words aw in
  {| slot_stride := stride; first_slot_offset := first_slot al n; slot_count := n;
     allocation_bitmap := {| offset := 64; bit_len := n; word_len := aw |};
     lease_bitmap := {| offset := 64 + 8 * aw; bit_len := aw; word_len := lw |};
     mark_bitmap := {| offset := 64 + 8 * aw + 8 * lw; bit_len := n; word_len := aw |} |}.

(** [n] slots of [stride] bytes fit one run. *)
Definition fits (stride al n : Z) : Prop := first_slot al n + n * stride <= RUN_SIZE.

Lemma bitmap_words_spec n : bitmap_words n = (n + 63) / 64.
Proof. unfold bitmap_words, div_ceil, BITMAP_WORD_BITS. f_equal. lia. Qed.

Lemma bitmap_words_bounds n : 64 * bitmap_words n - 63 <= n <= 64 * bitmap_words n.
Proof. rewrite bitmap_words_spec. Z.to_euclidean_division_equations; lia. Qed.

Lemma bitmap_words_mono n m : n <= m -> bitmap_words n <= bitmap_words m.
Proof. intros. rewrite !bitmap_words_spec. apply Z.div_le_mono; lia. Qed.

Lemma meta_end_mono n m : n <= m -> meta_end n <= meta_end m.
Proof.
  intros H. unfold meta_end. pose proof (bitmap_words_mono _ _ H) as H1.
  pose proof (bitmap_words_mono _ _ H1). lia.
Qed.

Lemma meta_end_bounds n : 1 <= n <= RUN_SIZE -> 88 <= meta_end n <= 20000.
Proof.
  unfold meta_end, RUN_SIZE. intros. pose proof (bitmap_words_bounds n).
  pose proof (bitmap_words_bounds (bitmap_words n)). lia.
Qed.

Lemma fits_mono stride al n m :
  0 < al -> 0 <= stride -> m <= n -> fits stride al n -> fits stride al m.
Proof.
  unfold fits, first_slot. intros Hal ? Hmn Hn.
  pose proof (ceil_to_mono _ _ (Z.max al METADATA_PAYLOAD_ALIGNMENT) ltac:(lia) (meta_end_mono _ _ Hmn)).
  nia.
Qed.

Lemma fits_max stride al n :
  0 < al -> 0 < stride -> 1 <= n -> fits stride al n -> n <= (RUN_SIZE - RUN_HEADER_SIZE) / stride.
Proof.
  unfold fits, first_slot. intros Hal Hs Hn Hf.
  pose proof (ceil_to_spec (meta_end n) (Z.max al METADATA_PAYLOAD_ALIGNMENT) ltac:(lia)).
  apply Z.div_le_lower_bound; [lia|]. unfold RUN_HEADER_SIZE.
  assert (64 <= meta_end n); [|nia].
  unfold meta_end. pose proof (bitmap_words_bounds n). pose proof (bitmap_words_bounds (bitmap_words n)). lia.
Qed.

(** Within a run, [for_slot_count] computes [layout_for] and never fails. *)
Lemma for_slot_count_spec stride al n :
  is_pow2 al -> 0 < stride -> 1 <= n -> n * stride <= RUN_SIZE ->
  for_slot_count stride al n =
    Ok (if RUN_SIZE <? first_slot al n + n * stride then None else Some (layout_for stride al n)).
Proof.
  intros Hal Hs Hn Hb.
  assert (Hpow : is_pow2 (Z.max al METADATA_PAYLOAD_ALIGNMENT)) by auto with glam.
  assert (Hmax : Z.max al METADATA_PAYLOAD_ALIGNMENT <= 2 ^ 63).
  { destruct Hpow as (k & ? & ->). apply Z.pow_le_mono_r; lia. }
  assert (n <= RUN_SIZE) by nia.
  pose proof (meta_end_bounds n ltac:(lia)) as Hm. pose proof (bitmap_words_bounds n).
  pose proof (bitmap_words_bounds (bitmap_words n)).
  unfold for_slot_count, bitmap_end, byte_len, BITMAP_WORD_SIZE, RUN_HEADER_SIZE; cbn [offset word_len].
  unfold RUN_SIZE in *.
  rewrite !(wrap64_small (bitmap_words n * 8)) by lia.
  rewrite !(wrap64_small (bitmap_words (bitmap_words n) * 8)) by lia.
  rewrite !(wrap64_small (64 + bitmap_words n * 8)) by lia.
  rewrite !(wrap64_small (64 + bitmap_words n * 8 + bitmap_words (bitmap_words n) * 8)) by lia.
  rewrite wrap64_small by lia.
  replace (64 + bitmap_words n * 8 + bitmap_words (bitmap_words n) * 8 + bitmap_words n * 8)
    with (meta_end n) by (unfold meta_end; lia).
  rewrite align_up_spec by (done || lia).
  rewrite (proj2 (Z.leb_le _ _)) by (unfold usize_max, u64_max; lia). cbn [ok_or mbind outcome_bind].
  fold (first_slot al n).
  pose proof (ceil_to_spec (meta_end n) (Z.max al METADATA_PAYLOAD_ALIGNMENT) ltac:(auto with glam)) as [? _].
  fold (first_slot al n) in *. rewrite checked_mul_fits by (unfold usize_max, u64_max; lia).
  cbn [mbind option_bind]. rewrite checked_add_fits by (unfold usize_max, u64_max; lia).
  cbn [ok_or mbind outcome_bind]. destruct (_ <? _); [done|].
  unfold layout_for. do 4 f_equal; f_equal; lia.
Qed.

(** ** The binary search *)
Section search.
Context (stride al max : Z).
Hypothesis Hal : is_pow2 al.
Hypothesis Hstride : 0 < stride.
Hypothesis Hmax : max * stride <= RUN_SIZE.

(** [best] is the layout of [lower - 1], the largest count known to fit. *)
Definition best_upto (lower : Z) (best : option RunGeometry) : Prop :=
  (lower = 1 /\ best = None) \/
  (1 < lower /\ fits stride al (lower - 1) /\ best = Some (layout_for stride al (lower - 1))).

Lemma derive_loop_spec fuel lower upper best :
  1 <= lower -> upper <= max -> lower <= upper + 1 ->
  upper - lower + 1 < 2 ^ Z.of_nat fuel ->
  best_upto lower best ->
  (forall n, upper < n <= max -> ~ fits stride al n) ->
  exists last best', derive_loop fuel stride al lower upper best = Ok best' /\
    best_upto last best' /\ 1 <= last <= max + 1 /\
    forall n, last <= n <= max -> ~ fits stride al n.
Proof.
  revert lower upper best. induction fuel as [|fuel IH];
    intros lower upper best Hlo Hup Hle Hfuel Hbest Habove.
  { rewrite Z.pow_0_r in Hfuel. cbn [derive_loop].
    destruct (Z.leb_spec lower upper); [lia|].
    exists lower, best. repeat split; [done|lia|lia|]. intros. apply Habove. lia. }
  cbn [derive_loop]. destruct (Z.leb_spec lower upper).
  2:{ exists lower, best. repeat split; [done|lia|lia|]. intros. apply Habove. lia. }
  rewrite Nat2Z.inj_succ, Z.pow_succ_r in Hfuel by lia.
  set (c := lower + (upper - lower) / 2).
  assert (lower <= c <= upper /\ 2 * (upper - c) <= upper - lower + 1 /\
          2 * (c - lower) <= upper - lower) as (Hc & Hc1 & Hc2).
  { subst c. Z.to_euclidean_division_equations; lia. }
  rewrite for_slot_count_spec by (done || nia). cbn [mbind outcome_bind].
  destruct (Z.ltb_spec RUN_SIZE (first_slot al c + c * stride)) as [Hno|Hyes].
  - apply IH; try lia; [done|]. intros n Hn Hf.
    assert (fits stride al c); [|unfold fits in *; lia].
    apply (fits_mono _ _ n); try lia; auto with glam.
  - apply IH; try lia; [|done]. right. replace (c + 1 - 1) with c by lia. split; [lia|done].
Qed.
End search.

(** ** What [derive] computes *)

(** The requested extent is a [usize]. *)
Definition requested_wf (r : option Z) : Prop := forall n, r = Some n -> 0 <= n <= usize_max.

Definition requested_size (payload : Layout) (r : option Z) : Z := default (size payload) r.
Definition stride_of (payload : Layout) (r : option Z) : Z :=
  ceil_to (requested_size payload r) (align payload).

(** The errors of [derive], each with the condition that causes it, in the
    order in which the code tests them; otherwise the largest layout. *)
Inductive derive_result (payload : Layout) (r : option Z) : outcome GeometryError RunGeometry -> Prop :=
  | derive_zero : size payload = 0 -> derive_result payload r (Err ZeroSized)
  | derive_small : size payload <> 0 -> requested_size payload r < size payload ->
      derive_result payload r (Err RequestedSlotTooSmall)
  | derive_overflow : size payload <> 0 -> size payload <= requested_size payload r ->
      usize_max < requested_size payload r + (align payload - 1) ->
      derive_result payload r (Err ArithmeticOverflow)
  | derive_none : size payload <> 0 -> size payload <= requested_size payload r ->
      requested_size payload r + (align payload - 1) <= usize_max ->
      (forall n, 1 <= n -> ~ fits (stride_of payload r) (align payload) n) ->
      derive_result payload r (Err NoSlots)
  | derive_best n : size payload <> 0 -> size payload <= requested_size payload r ->
      requested_size payload r + (align payload - 1) <= usize_max ->
      1 <= n -> fits (stride_of payload r) (align payload) n ->
      (forall m, n < m -> ~ fits (stride_of payload r) (align payload) m) ->
      derive_result payload r (Ok (layout_for (stride_of payload r) (align payload) n)).

Lemma derive_spec payload r :
  layout_wf payload -> requested_wf r -> derive_result payload r (derive payload r).
Proof.
  intros (Hsz & Hal & Hisz) Hr. pose proof (is_pow2_pos _ Hal) as Hal0. unfold derive.
  destruct (Z.eqb_spec (size payload) 0); [by constructor|].
  fold (requested_size payload r).
  destruct (Z.ltb_spec (requested_size payload r) (size payload)); [by constructor|].
  rewrite align_up_spec by (done || lia).
  destruct (Z.leb_spec (requested_size payload r + (align payload - 1)) usize_max); [|by constructor].
  cbn [ok_or mbind outcome_bind]. fold (stride_of payload r).
  assert (Hst : 0 < stride_of payload r).
  { unfold stride_of. pose proof (ceil_to_spec (requested_size payload r) _ Hal0). lia. }
  unfold udiv. destruct (Z.eqb_spec (stride_of payload r) 0); [lia|]. cbn [mbind outcome_bind].
  set (max := (RUN_SIZE - RUN_HEADER_SIZE) / stride_of payload r).
  assert (Habove : forall n, 1 <= n -> fits (stride_of payload r) (align payload) n -> n <= max).
  { intros. by apply (fits_max _ (align payload)). }
  destruct (Z.eqb_spec max 0) as [Hz|Hz].
  { constructor; [done|done|done|]. intros m Hm Hf. specialize (Habove m Hm Hf). lia. }
  assert (Hm : max * stride_of payload r <= RUN_SIZE - RUN_HEADER_SIZE).
  { rewrite Z.mul_comm. by apply Z.mul_div_le. }
  assert (0 <= max) by (apply Z.div_pos; unfold RUN_SIZE, RUN_HEADER_SIZE; lia).
  destruct (derive_loop_spec (stride_of payload r) (align payload) max Hal Hst
              ltac:(unfold RUN_HEADER_SIZE in *; lia) derive_fuel 1 max None)
    as (last & best & -> & Hb & Hl & Hno); try lia; [| by left | ].
  { assert (max <= RUN_SIZE) by (unfold RUN_SIZE, RUN_HEADER_SIZE in *; nia).
    unfold RUN_SIZE, derive_fuel in *. lia. }
  cbn [mbind outcome_bind]. destruct Hb as [[-> ->] | (Hl1 & Hf & ->)].
  - constructor; [done|done|done|]. intros m Hm1 Hf. apply (Hno m); [|done]. specialize (Habove m Hm1 Hf). lia.
  - cbn [ok_or]. constructor; [done|done|done|lia|done|].
    intros m Hm' Hf'. apply (Hno m); [|done]. specialize (Habove m ltac:(lia) Hf'). lia.
Qed.

Lemma layout_for_valid stride al n :
  is_pow2 al -> 0 < stride -> 1 <= n -> fits stride al n ->
  is_structurally_valid (layout_for stride al n) = true.
Proof.
  intros Hal Hs Hn Hf. pose proof (is_pow2_pos _ Hal).
  pose proof (ceil_to_spec (meta_end n) (Z.max al METADATA_PAYLOAD_ALIGNMENT) ltac:(auto with glam)) as [Hc Hd].
  fold (first_slot al n) in *. unfold fits in Hf.
  pose proof (bitmap_words_bounds n) as Hw1. pose proof (bitmap_words_bounds (bitmap_words n)) as Hw2.
  assert (Hme : 64 <= meta_end n) by (unfold meta_end; lia).
  assert (n * stride <= RUN_SIZE) by nia. unfold RUN_SIZE, usize_max, u64_max in *.
  unfold is_structurally_valid, checked_bitmap_end, layout_for, RUN_HEADER_SIZE, BITMAP_WORD_SIZE, RUN_SIZE.
  cbn [slot_stride slot_count first_slot_offset allocation_bitmap lease_bitmap mark_bitmap offset word_len].
  destruct (Z.eqb_spec stride 0); [lia|]. destruct (Z.eqb_spec n 0); [lia|]. cbn [orb].
  rewrite bool_decide_true by done. cbn [negb].
  rewrite !(checked_mul_fits (bitmap_words n) 8) by (unfold usize_max, u64_max; nia). cbn [mbind option_bind].
  rewrite checked_add_fits by (unfold usize_max, u64_max; nia).
  rewrite bool_decide_true by (f_equal; lia). cbn [negb].
  rewrite !(checked_mul_fits (bitmap_words (bitmap_words n)) 8) by (unfold usize_max, u64_max; nia).
  cbn [mbind option_bind].
  rewrite checked_add_fits by (unfold usize_max, u64_max; nia).
  rewrite bool_decide_true by (f_equal; lia). cbn [negb].
  rewrite checked_add_fits by (unfold usize_max, u64_max; nia).
  destruct (Z.ltb_spec (first_slot al n) (64 + bitmap_words n * 8 + bitmap_words (bitmap_words n) * 8 + bitmap_words n * 8)).
  { unfold meta_end in *. lia. }
  replace (is_multiple_of (first_slot al n) METADATA_PAYLOAD_ALIGNMENT) with true.
  2:{ unfold is_multiple_of. cbn [Z.eqb METADATA_PAYLOAD_ALIGNMENT]. symmetry. apply Z.eqb_eq, Z.mod_divide; [done|].
      etrans; [|apply Hd]. rewrite Z.max_comm. apply pow2_divides_max; auto with glam. }
  cbn [orb negb]. rewrite checked_mul_fits by (unfold usize_max, u64_max; lia). cbn [mbind option_bind].
  rewrite checked_add_fits by (unfold usize_max, u64_max; lia). by apply Z.leb_le.
Qed.

Lemma meta_end_pos n : 1 <= n -> 88 <= meta_end n.
Proof. intros. change 88 with (meta_end 1). by apply meta_end_mono. Qed.

(** The mark bitmap of a layout that fits ends where the metadata ends. *)
Lemma mark_end_layout_for stride al n :
  is_pow2 al -> 0 < stride -> 1 <= n -> fits stride al n ->
  bitmap_end (mark_bitmap (layout_for stride al n)) = meta_end n.
Proof.
  intros Hal Hs Hn Hf. pose proof (is_pow2_pos _ Hal).
  pose proof (fits_max stride al n ltac:(lia) Hs Hn Hf) as Hm.
  assert (n <= 65536).
  { transitivity ((RUN_SIZE - RUN_HEADER_SIZE) / stride); [done|].
    apply Z.div_le_upper_bound; unfold RUN_SIZE, RUN_HEADER_SIZE in *; nia. }
  pose proof (bitmap_words_bounds n). pose proof (bitmap_words_bounds (bitmap_words n)).
  unfold bitmap_end, byte_len, BITMAP_WORD_SIZE. cbn [mark_bitmap layout_for offset word_len].
  rewrite (wrap64_small (bitmap_words n * 8)) by lia. rewrite wrap64_small by lia. unfold meta_end. lia.
Qed.

Lemma slot_index_offset g o i :
  is_structurally_valid g = true -> 0 <= slot_stride g -> 0 <= i -> 0 <= first_slot_offset g ->
  slot_index g o = Some i <-> slot_offset g i = Some o.
Proof.
  intros Hv Hs Hi Hfo.
  assert (Hne : slot_stride g <> 0 /\ first_slot_offset g + slot_count g * slot_stride g <= RUN_SIZE).
  { unfold is_structurally_valid in Hv. destruct (Z.eqb_spec (slot_stride g) 0); [done|].
    split; [done|]. cbn [orb] in Hv. repeat case_match; try done; simplify_option_eq.
    rewrite checked_mul_Some, checked_add_Some in *. lia. }
  destruct Hne as [Hne Hend]. unfold RUN_SIZE in Hend.
  unfold slot_index, slot_offset, is_multiple_of. destruct (Z.eqb_spec (slot_stride g) 0); [done|].
  split.
  - intros H. simplify_option_eq. rewrite checked_sub_Some in *. destruct_and?. subst.
    destruct (Z.eqb_spec ((o - first_slot_offset g) mod slot_stride g) 0) as [Hz|]; [|done].
    cbn [negb] in *. destruct (Z.ltb_spec ((o - first_slot_offset g) / slot_stride g) (slot_count g)); [|done].
    simplify_eq. destruct (Z.leb_spec (slot_count g) ((o - first_slot_offset g) / slot_stride g)); [lia|].
    pose proof (Z.div_mod (o - first_slot_offset g) (slot_stride g) ltac:(lia)).
    rewrite checked_mul_fits by (unfold usize_max, u64_max; nia). cbn [mbind option_bind].
    rewrite checked_add_Some. unfold usize_max, u64_max. split; nia.
  - destruct (Z.leb_spec (slot_count g) i); [done|]. intros H'. simplify_option_eq.
    rewrite checked_mul_Some, checked_add_Some in *. destruct_and?. subst.
    unfold checked_sub. rewrite (proj2 (Z.leb_le _ _)) by nia. cbn [mbind option_bind].
    replace (first_slot_offset g + i * slot_stride g - first_slot_offset g) with (i * slot_stride g) by lia.
    rewrite Z.mod_mul, Z.div_mul by done. cbn. by rewrite (proj2 (Z.ltb_lt _ _)).
Qed.

(** ** Properties *)

Lemma derive_bounds payload r g :
  layout_wf payload -> requested_wf r -> derive payload r = Ok g ->
  is_structurally_valid g = true /\
  size payload <= slot_stride g /\ requested_size payload r <= slot_stride g /\
  (align payload | slot_stride g) /\ (align payload | first_slot_offset g) /\
  (METADATA_PAYLOAD_ALIGNMENT | first_slot_offset g) /\
  RUN_HEADER_SIZE < bitmap_end (mark_bitmap g) <= first_slot_offset g /\
  1 <= slot_count g /\ first_slot_offset g + slot_count g * slot_stride g <= RUN_SIZE.
Proof.
  intros Hl Hr Hg. pose proof (derive_spec _ _ Hl Hr) as Hd. rewrite Hg in Hd.
  inversion Hd as [| | | |n Hz Hle Hfit Hn Hf _]; subst. destruct Hl as (Hsz & Hal & _).
  pose proof (is_pow2_pos _ Hal) as Hal0.
  pose proof (ceil_to_spec (requested_size payload r) _ Hal0) as [Hc Hdiv]. fold (stride_of payload r) in *.
  pose proof (ceil_to_spec (meta_end n) (Z.max (align payload) METADATA_PAYLOAD_ALIGNMENT)
    ltac:(auto with glam)) as [Hc' Hdiv']. fold (first_slot (align payload) n) in *.
  split; [apply layout_for_valid; auto with lia|]. cbn [layout_for slot_stride first_slot_offset slot_count].
  repeat split; try done; try lia.
  - etrans; [|apply Hdiv']. apply pow2_divides_max; auto with glam.
  - etrans; [|apply Hdiv']. rewrite Z.max_comm. apply pow2_divides_max; auto with glam.
  - rewrite (mark_end_layout_for _ (align payload)) by (done || lia).
    pose proof (meta_end_pos n ltac:(lia)). unfold RUN_HEADER_SIZE. lia.
  - rewrite (mark_end_layout_for _ (align payload)) by (done || lia). lia.
Qed.

(** C18. Soundness of the run layout: when [derive] succeeds, the geometry
    passes the structural check, slots hold the payload and the requested
    extent, the stride and the first slot respect the payload's alignment,
    the payload never shares a 128-byte region with the bitmaps, and the
    last slot ends inside the run. *)
Theorem derive_sound payload r g :
  layout_wf payload -> requested_wf r -> derive payload r = Ok g ->
  is_structurally_valid g = true /\
  size payload <= slot_stride g /\ requested_size payload r <= slot_stride g /\
  (align payload | slot_stride g) /\ (align payload | first_slot_offset g) /\
  (METADATA_PAYLOAD_ALIGNMENT | first_slot_offset g) /\
  RUN_HEADER_SIZE < bitmap_end (mark_bitmap g) <= first_slot_offset g /\
  1 <= slot_count g /\ first_slot_offset g + slot_count g * slot_stride g <= RUN_SIZE.
Proof. apply derive_bounds. Qed.

Definition layout24 : Layout := {| size := 24; align := 8 |}.
Lemma layout24_wf : layout_wf layout24.
Proof. repeat split; [done| |done]. by exists 3. Qed.

Definition geometry24 : RunGeometry := layout_for 24 8 2698.
Lemma derive24 : derive layout24 None = Ok geometry24.
Proof. vm_compute. reflexivity. Qed.

Lemma derive_sound_witness :
  derive layout24 None = Ok geometry24 /\
  first_slot_offset geometry24 + slot_count geometry24 * slot_stride geometry24 <= RUN_SIZE.
Proof.
  split; [exact derive24|]. eapply (derive_sound layout24 None); [exact layout24_wf | done | exact derive24].
Defined.

(** The binary search finds the largest run: no layout with more slots
    fits, so [for_slot_count] rejects every larger count. *)
Theorem derive_maximal payload r g :
  layout_wf payload -> requested_wf r -> derive payload r = Ok g ->
  forall m, slot_count g < m -> m * slot_stride g <= RUN_SIZE ->
    for_slot_count (slot_stride g) (align payload) m = Ok None.
Proof.
  intros Hl Hr Hg m Hm Hms. pose proof (derive_spec _ _ Hl Hr) as Hd. rewrite Hg in Hd.
  inversion Hd as [| | | |n Hz Hle Hfit Hn Hf Hno]; subst. destruct Hl as (Hsz & Hal & _).
  cbn [layout_for slot_stride slot_count] in *.
  pose proof (ceil_to_spec (requested_size payload r) _ (is_pow2_pos _ Hal)). fold (stride_of payload r) in *.
  rewrite for_slot_count_spec by (done || lia). specialize (Hno m Hm). unfold fits in Hno.
  by rewrite (proj2 (Z.ltb_lt _ _)) by lia.
Qed.

Lemma derive_maximal_witness :
  derive layout24 None = Ok geometry24 /\ for_slot_count 24 8 2699 = Ok None.
Proof.
  split; [exact derive24|].
  apply (derive_maximal layout24 None geometry24 layout24_wf); [done|exact derive24|done|].
  vm_compute. discriminate.
Defined.

(** [derive] always returns, never panics, and fails exactly when it
    should: a zero-sized payload, a requested extent below the payload's,
    an extent whose rounding overflows [usize], or no single slot that
    fits a run. *)
Theorem derive_failures payload r :
  layout_wf payload -> requested_wf r ->
  let req := requested_size payload r in
  match derive payload r with
  | Ok _ => size payload <> 0 /\ size payload <= req /\ req + (align payload - 1) <= usize_max
  | Err ZeroSized => size payload = 0
  | Err RequestedSlotTooSmall => size payload <> 0 /\ req < size payload
  | Err ArithmeticOverflow => size payload <> 0 /\ size payload <= req /\ usize_max < req + (align payload - 1)
  | Err NoSlots => size payload <> 0 /\ size payload <= req /\
      RUN_SIZE < Z.max (align payload) METADATA_PAYLOAD_ALIGNMENT + stride_of payload r
  | Panic | OutOfFuel => False
  end.
Proof.
  intros Hl Hr req. subst req. destruct (derive_spec _ _ Hl Hr); try done.
  repeat split; try done. specialize (H2 1 ltac:(lia)). unfold fits, first_slot in H2.
  rewrite Z.mul_1_l in H2. change (meta_end 1) with 88 in H2.
  destruct Hl as (_ & Hal & _). pose proof (is_pow2_pos _ Hal).
  assert (ceil_to 88 (Z.max (align payload) METADATA_PAYLOAD_ALIGNMENT) <=
          Z.max (align payload) METADATA_PAYLOAD_ALIGNMENT); [|lia].
  apply ceil_to_least; [lia|done|]. unfold METADATA_PAYLOAD_ALIGNMENT. lia.
Qed.

Lemma derive_failures_witness :
  derive {| size := 1; align := RUN_SIZE |} None = Err NoSlots /\
  RUN_SIZE < Z.max RUN_SIZE METADATA_PAYLOAD_ALIGNMENT + stride_of {| size := 1; align := RUN_SIZE |} None.
Proof.
  assert (Hw : layout_wf {| size := 1; align := RUN_SIZE |}).
  { repeat split; [done| |done]. by exists 16. }
  pose proof (derive_failures {| size := 1; align := RUN_SIZE |} None Hw ltac:(done)) as H.
  assert (E : derive {| size := 1; align := RUN_SIZE |} None = Err NoSlots) by (vm_compute; reflexivity).
  cbv zeta in H. rewrite E in H. split; [exact E | apply H].
Defined.

(** Slot addressing is a bijection: in a structurally valid geometry an
    offset resolves to slot [i] exactly when slot [i] lies at that offset,
    so metadata, padding, slot interiors and the run's end resolve to none. *)
Theorem slot_addressing_roundtrip payload r g o i :
  layout_wf payload -> requested_wf r -> derive payload r = Ok g -> 0 <= i ->
  slot_index g o = Some i <-> slot_offset g i = Some o.
Proof.
  intros Hl Hr Hg Hi. pose proof (derive_spec _ _ Hl Hr) as Hd. rewrite Hg in Hd.
  inversion Hd as [| | | |n Hz Hle Hfit Hn Hf Hno]; subst. destruct Hl as (Hsz & Hal & _).
  pose proof (ceil_to_spec (requested_size payload r) _ (is_pow2_pos _ Hal)) as [? _]. fold (stride_of payload r) in *.
  pose proof (ceil_to_spec (meta_end n) (Z.max (align payload) METADATA_PAYLOAD_ALIGNMENT)
    ltac:(auto with glam)) as [? _]. fold (first_slot (align payload) n) in *.
  pose proof (bitmap_words_bounds n). pose proof (bitmap_words_bounds (bitmap_words n)). unfold meta_end in *.
  apply slot_index_offset; cbn [layout_for slot_stride first_slot_offset]; try lia.
  apply layout_for_valid; auto with lia.
Qed.

Lemma slot_addressing_witness :
  slot_offset geometry24 2 = Some 816 /\ slot_index geometry24 816 = Some 2.
Proof.
  split; [vm_compute; reflexivity|].
  apply (slot_addressing_roundtrip layout24 None geometry24 816 2 layout24_wf);
    [done|exact derive24|done|]. vm_compute. reflexivity.
Defined.

(** Header round trip: storing a derived geometry in a run header never
    panics (every field fits 32 bits), and reading it back gives the same
    geometry and class. *)
Theorem header_roundtrip {E} payload r g id :
  layout_wf payload -> requested_wf r -> derive payload r = Ok g -> class_raw id <> 0 ->
  exists h, initialized (E:=E) id g = Ok h /\ header_is_valid h = true /\
    header_is_empty h = false /\
    header_class_id h = Some id /\ header_geometry h = Some g.
Proof.
  intros Hl Hr Hg Hid. pose proof (derive_spec _ _ Hl Hr) as Hd. rewrite Hg in Hd.
  inversion Hd as [| | | |n Hz Hle Hfit Hn Hf Hno]; subst. destruct Hl as (Hsz & Hal & _).
  pose proof (ceil_to_spec (requested_size payload r) _ (is_pow2_pos _ Hal)) as [? _]. fold (stride_of payload r) in *.
  pose proof (ceil_to_spec (meta_end n) (Z.max (align payload) METADATA_PAYLOAD_ALIGNMENT)
    ltac:(auto with glam)) as [? _]. fold (first_slot (align payload) n) in *.
  pose proof (bitmap_words_bounds n). pose proof (bitmap_words_bounds (bitmap_words n)).
  unfold fits, RUN_SIZE in Hf. unfold meta_end in *.
  assert (Hnar : forall v, v <= 65536 -> narrow (E:=E) v = Ok v).
  { intros v Hv. unfold narrow, u32_max. by rewrite (proj2 (Z.leb_le _ _)) by lia. }
  unfold initialized. cbn [layout_for slot_stride first_slot_offset slot_count allocation_bitmap
    lease_bitmap mark_bitmap offset word_len]. rewrite !Hnar by nia. cbn [mbind outcome_bind].
  eexists. split; [reflexivity|].
  assert (Hc : header_class_id {| magic := RUN_HEADER_MAGIC; h_class_id := class_raw id;
     h_slot_stride := stride_of payload r; h_first_slot_offset := first_slot (align payload) n;
     h_slot_count := n; allocation_bitmap_offset := 64; allocation_bitmap_words := bitmap_words n;
     lease_bitmap_offset := 64 + 8 * bitmap_words n; lease_bitmap_words := bitmap_words (bitmap_words n);
     mark_bitmap_offset := 64 + 8 * bitmap_words n + 8 * bitmap_words (bitmap_words n);
     mark_bitmap_words := bitmap_words n |} = Some id).
  { unfold header_class_id, header_is_valid, AllocationClassId_new. cbn [magic h_class_id].
    rewrite Z.eqb_refl. cbn [negb]. rewrite (proj2 (Z.eqb_neq _ _) Hid). by destruct id. }
  split_and!; [| |exact Hc|].
  - unfold header_is_valid. apply Z.eqb_refl.
  - unfold header_is_empty. cbn [h_class_id]. rewrite (proj2 (Z.eqb_neq _ _) Hid). apply andb_false_r.
  - unfold header_geometry. rewrite Hc. cbn [mbind option_bind h_slot_stride h_first_slot_offset h_slot_count
      allocation_bitmap_offset allocation_bitmap_words lease_bitmap_offset lease_bitmap_words
      mark_bitmap_offset mark_bitmap_words].
    fold (layout_for (stride_of payload r) (align payload) n).
    by rewrite layout_for_valid by (done || lia).
Qed.

Lemma header_roundtrip_witness :
  exists h, initialized (E:=GeometryError) {| class_raw := 7 |} geometry24 = Ok h /\
    header_geometry h = Some geometry24.
Proof.
  destruct (header_roundtrip (E:=GeometryError) layout24 None geometry24 {| class_raw := 7 |}
    layout24_wf) as (h & Hh & _ & _ & _ & Hgeo); [done|exact derive24|done|].
  exists h. split; [exact Hh | exact Hgeo].
Defined.
