(* ===== verification/RootPool.v ===== *)
(** * Pooled root slots of the collector ([crates/glam-gc/src/root_pool.rs])

    A root is a slot of one of its heap's chunks: a reference count and a word.
    The word of a referenced slot is the rooted value, that of a free slot links
    to the next free slot. Each thread takes slots from a private free list
    ([thread_cache.rs]); the pool hands out whole lists and leases the chunk they
    come from, and rebuilds the lists of the chunks nobody leases.

    A pointer to a slot is the position of its chunk in the pool and of the slot
    in the chunk. A word is a null pointer, a link, or a value: the three uses the
    code makes of it. Reading a value as a link, or a link as a value, would be
    undefined behaviour and is a panic here; [RootPoolFacts] proves that it cannot
    happen. Counts of slots are naturals. *)
From stdpp Require Import base option list numbers gmap.
From Stdlib Require Import ZArith Lia.
From S2P Require Import Prelude.

(** ** Data *)
Definition CHUNK_BYTES : Z := 4096.
(** A slot is two words of 8 bytes; the header takes the place of one slot. *)
Definition SLOTS_PER_CHUNK : nat := Z.to_nat (CHUNK_BYTES / 16 - 1).
Definition MAX_REFERENCES : Z := isize_max.

Definition HeapId := Z.

(** [NonNull<RootSlot>] *)
Definition SlotRef : Type := nat * nat.

Inductive SlotWord :=
  | WNull
  | WNext (s : SlotRef)
  | WValue (v : Z).

Record RootSlot := MkSlot { references : Z; word : SlotWord }.

Record RootChunk := MkChunk { chunk_heap : HeapId; slots : list RootSlot }.

Record RootPool := MkPool {
  chunks : list RootChunk;
  free_heads : list (option SlotRef);
  with_free : list nat;
  leased : list bool;
  free_counts : list nat;
  live_at_last_scan : nat;
  handed_out_since_scan : nat;
}.

Definition RootPool_default : RootPool := MkPool [] [] [] [] [] 0 0.

Definition slot_at (P : RootPool) (s : SlotRef) : option RootSlot :=
  chunks P !! s.1 ≫= fun c => slots c !! s.2.

Definition with_chunks (P : RootPool) (cs : list RootChunk) : RootPool :=
  MkPool cs (free_heads P) (with_free P) (leased P) (free_counts P) (live_at_last_scan P) (handed_out_since_scan P).

Definition put_slot (cs : list RootChunk) (s : SlotRef) (x : RootSlot) : list RootChunk :=
  alter (fun c => MkChunk (chunk_heap c) (<[s.2 := x]> (slots c))) s.1 cs.

Definition set_slot (P : RootPool) (s : SlotRef) (x : RootSlot) : RootPool :=
  with_chunks P (put_slot (chunks P) s x).

(** ** Slots *)

(** [RootSlot::free] *)
Definition free_slot : RootSlot := MkSlot 0 WNull.

Definition occupy (P : RootPool) (s : SlotRef) (v : Z) : M RootPool :=
  _ ← expect (slot_at P s);
  Ok (set_slot P s (MkSlot 1 (WValue v))).

Definition next_free (P : RootPool) (s : SlotRef) : M (option SlotRef) :=
  x ← expect (slot_at P s);
  match word x with
  | WNull => Ok None
  | WNext n => Ok (Some n)
  | WValue _ => Panic
  end.

Definition value (P : RootPool) (s : SlotRef) : M Z :=
  x ← expect (slot_at P s);
  match word x with WValue v => Ok v | _ => Panic end.

(** The abort of a clone beyond the bound is a panic. *)
Definition retain (P : RootPool) (s : SlotRef) : M RootPool :=
  x ← expect (slot_at P s);
  if (MAX_REFERENCES <? references x)%Z then Panic
  else Ok (set_slot P s (MkSlot (wrap64 (references x + 1)) (word x))).

Definition release (P : RootPool) (s : SlotRef) : M RootPool :=
  x ← expect (slot_at P s);
  Ok (set_slot P s (MkSlot (wrap64 (references x - 1)) (word x))).

(** [RootSlot::heap]: masking a slot's address finds its chunk. *)
Definition slot_heap (P : RootPool) (s : SlotRef) : M HeapId :=
  k ← expect (chunks P !! s.1); Ok (chunk_heap k).

(** ** Chunks *)

(** The chunk [allocate] makes as the pool's chunk [c]. *)
Definition fresh_slot (c i : nat) : RootSlot :=
  if decide (i + 1 < SLOTS_PER_CHUNK) then MkSlot 0 (WNext (c, i + 1)) else free_slot.

Definition allocate (heap : HeapId) (c : nat) : RootChunk * SlotRef :=
  (MkChunk heap (fresh_slot c <$> seq 0 SLOTS_PER_CHUNK), (c, 0)).

Definition has_references (c : RootChunk) : bool :=
  existsb (fun x => negb (references x =? 0)%Z) (slots c).

(** ** The pool *)

(** The loop of [take_listed], over the stack it pops. *)
Fixpoint take_listed_loop (P : RootPool) (stack : list nat) : M (RootPool * option (SlotRef * nat)) :=
  match stack with
  | [] => Ok (MkPool (chunks P) (free_heads P) [] (leased P) (free_counts P) (live_at_last_scan P) (handed_out_since_scan P), None)
  | index :: stack =>
      l ← vec_get (leased P) index;
      if l : bool then take_listed_loop P stack else
      head ← vec_get (free_heads P) index;
      heads ← vec_set (free_heads P) index None;
      let P1 := MkPool (chunks P) heads (with_free P) (leased P) (free_counts P) (live_at_last_scan P) (handed_out_since_scan P) in
      match head with
      | None => take_listed_loop P1 stack
      | Some head =>
          leases ← vec_set (leased P1) index true;
          count ← vec_get (free_counts P1) index;
          counts ← vec_set (free_counts P1) index 0;
          Ok (MkPool (chunks P1) (free_heads P1) (reverse stack) leases counts (live_at_last_scan P1)
                (handed_out_since_scan P1 + count), Some (head, index))
      end
  end.

(** [with_free] is a stack whose top is last. *)
Definition take_listed (P : RootPool) : M (RootPool * option (SlotRef * nat)) :=
  take_listed_loop P (reverse (with_free P)).

(** [rebuild_chunk]: the slots are visited last first; the new links are
    written into the chunk. Returns the chunk, the head of its list and the
    number of live slots. *)
Definition rebuild_slot (c : nat) (st : list RootSlot * option SlotRef * nat) (i : nat) : list RootSlot * option SlotRef * nat :=
  let '(ss, head, live) := st in
  match ss !! i with
  | Some x =>
      if (references x =? 0)%Z then
        (<[i := MkSlot (references x) (match head with Some h => WNext h | None => WNull end)]> ss, Some (c, i), live)
      else (ss, head, live + 1)
  | None => (ss, head, live)
  end.

Definition rebuild_chunk (c : nat) (k : RootChunk) : RootChunk * option SlotRef * nat :=
  let '(ss, head, live) := foldl (rebuild_slot c) (slots k, None, 0) (reverse (seq 0 SLOTS_PER_CHUNK)) in
  (MkChunk (chunk_heap k) ss, head, live).

(** One turn of the loop of [rebuild_unleased]; the state is the pool with its
    stack of chunks with free slots, and the live count. *)
Definition rebuild_turn (st : RootPool * nat) (index : nat) : M (RootPool * nat) :=
  let '(P, live) := st in
  l ← vec_get (leased P) index;
  if l : bool then Ok (P, live + SLOTS_PER_CHUNK) else
  k ← vec_get (chunks P) index;
  let '(k, head, chunk_live) := rebuild_chunk index k in
  cs ← vec_set (chunks P) index k;
  heads ← vec_set (free_heads P) index head;
  counts ← vec_set (free_counts P) index (SLOTS_PER_CHUNK - chunk_live);
  Ok (MkPool cs heads (match head with Some _ => with_free P ++ [index] | None => with_free P end) (leased P) counts
        (live_at_last_scan P) (handed_out_since_scan P), live + chunk_live).

Definition rebuild_unleased (P : RootPool) : M RootPool :=
  let P0 := MkPool (chunks P) (free_heads P) [] (leased P) (free_counts P) (live_at_last_scan P) (handed_out_since_scan P) in
  st ← foldM rebuild_turn (P0, 0) (reverse (seq 0 (length (chunks P))));
  Ok (MkPool (chunks st.1) (free_heads st.1) (with_free st.1) (leased st.1) (free_counts st.1) st.2 0).

Definition rebuild_free_lists (P : RootPool) : M RootPool :=
  rebuild_unleased (MkPool (chunks P) (free_heads P) (with_free P) ((fun _ => false) <$> leased P) (free_counts P)
                      (live_at_last_scan P) (handed_out_since_scan P)).

(** The last resort of [take_free_list]. *)
Definition add_chunk (P : RootPool) (heap : HeapId) : RootPool * (SlotRef * nat) :=
  let c := length (chunks P) in
  let '(k, head) := allocate heap c in
  (MkPool (chunks P ++ [k]) (free_heads P ++ [None]) (with_free P) (leased P ++ [true]) (free_counts P ++ [0])
     (live_at_last_scan P) (handed_out_since_scan P + SLOTS_PER_CHUNK), (head, c)).

Definition take_free_list (P : RootPool) (heap : HeapId) (returned : option nat) : M (RootPool * (SlotRef * nat)) :=
  leases ← match returned with Some index => vec_set (leased P) index false | None => Ok (leased P) end;
  let P := MkPool (chunks P) (free_heads P) (with_free P) leases (free_counts P) (live_at_last_scan P) (handed_out_since_scan P) in
  r ← take_listed P;
  match r with
  | (P, Some taken) => Ok (P, taken)
  | (P, None) =>
      if decide (Nat.max (live_at_last_scan P) SLOTS_PER_CHUNK <= handed_out_since_scan P) then
        P ← rebuild_unleased P;
        r ← take_listed P;
        match r with
        | (P, Some taken) => Ok (P, taken)
        | (P, None) => Ok (add_chunk P heap)
        end
      else Ok (add_chunk P heap)
  end.

(** [for_each_slot], in the order of the visit. *)
Definition all_slots (P : RootPool) : list (SlotRef * RootSlot) :=
  concat (imap (fun c k => imap (fun i x => ((c, i), x)) (slots k)) (chunks P)).

(** [visit_live]: the values, in the order they are visited. *)
Definition visit_live (P : RootPool) : M (list Z) :=
  mapM (fun e => value P e.1) (filter (fun e => references e.2 <> 0%Z) (all_slots P)).

Definition live_count (P : RootPool) : nat :=
  length (filter (fun e => references e.2 <> 0%Z) (all_slots P)).

(** [Drop]: the chunks freed and those the process-wide list then holds. *)
Definition drop_pool (P : RootPool) (orphaned : list RootChunk) : list RootChunk :=
  filter (fun k => has_references k = true) orphaned ++ filter (fun k => has_references k = true) (chunks P).

(** ** Threads ([thread_cache.rs]) *)

(** The root slots of a thread's record, moved to [ACTIVE_ENTRY] while the
    thread is inside the heap. *)
Record ThreadRoots := MkThread {
  active : bool;
  captured_epoch : nat;
  root_free : option SlotRef;
  root_lease : option nat;
}.

Definition activate (T : ThreadRoots) (current : nat) : ThreadRoots :=
  if decide (captured_epoch T = current) then MkThread true (captured_epoch T) (root_free T) (root_lease T)
  else MkThread true current None None.

Definition deactivate (T : ThreadRoots) : ThreadRoots :=
  MkThread false (captured_epoch T) (root_free T) (root_lease T).

Definition take_root_slot (P : RootPool) (T : ThreadRoots) : M (ThreadRoots * option SlotRef) :=
  match root_free T with
  | None => Ok (T, None)
  | Some slot =>
      next ← next_free P slot;
      Ok (MkThread (active T) (captured_epoch T) next (root_lease T), Some slot)
  end.

Definition install_root_free_list (T : ThreadRoots) (head : SlotRef) (lease : nat) : M ThreadRoots :=
  _ ← rust_assert (active T);
  match root_free T with
  | Some _ => Panic
  | None => Ok (MkThread (active T) (captured_epoch T) (Some head) (Some lease))
  end.

(** [HeapInner::register_proven_root] *)
Definition register_proven_root (P : RootPool) (T : ThreadRoots) (heap : HeapId) (v : Z)
    : M (RootPool * ThreadRoots * SlotRef) :=
  r ← take_root_slot P T;
  match r with
  | (T, Some slot) => P ← occupy P slot v; Ok (P, T, slot)
  | (T, None) =>
      l ← take_free_list P heap (root_lease T);
      let '(P, (head, lease)) := l in
      T ← install_root_free_list T head lease;
      r ← take_root_slot P T;
      match r with
      | (T, Some slot) => P ← occupy P slot v; Ok (P, T, slot)
      | (_, None) => Panic
      end
  end.
