(* ===== verification/RootPoolFacts.v ===== *)
(** * The root pool is safe under any interleaving of its clients

    [RootPool] is driven by threads that enter and leave the heap, register
    roots, and by root handles that are cloned and dropped anywhere; a collection
    runs while no thread is inside. The machine below has one request per
    operation. Its invariant: a slot's count is the number of handles on it, a
    referenced slot holds the value of its handles, and the free lists, those the
    pool keeps and those the threads took, are disjoint chains of free slots. A
    collection lists every slot without a handle again. *)
From stdpp Require Import base option list numbers gmap.
From Stdlib Require Import ZArith Lia.
From S2P Require Import Prelude RootPool.

(** ** Chains of free slots *)

(** [chain_in c ss o l]: from [o], the links of the slots [ss] of chunk [c] run
    through exactly the slots [l], all free. *)
Inductive chain_in (c : nat) (ss : list RootSlot) : option SlotRef -> list nat -> Prop :=
  | chain_end : chain_in c ss None []
  | chain_null i x : ss !! i = Some x -> references x = 0%Z -> word x = WNull -> chain_in c ss (Some (c, i)) [i]
  | chain_link i x j l : ss !! i = Some x -> references x = 0%Z -> word x = WNext (c, j) ->
      chain_in c ss (Some (c, j)) l -> chain_in c ss (Some (c, i)) (i :: l).

Lemma free_chain_fun c ss o l l' : chain_in c ss o l -> chain_in c ss o l' -> l = l'.
Proof.
  intros H. revert l'. induction H as [|i x Hi _ Hw|i x j l Hi _ Hw _ IH]; intros l'; inversion 1; simplify_eq; try congruence.
  f_equal. apply IH. congruence.
Qed.

Lemma free_chain_suffix c ss o l i : chain_in c ss o l -> i ∈ l -> exists l2, chain_in c ss (Some (c, i)) (i :: l2) /\ length (i :: l2) <= length l.
Proof.
  induction 1 as [|k x Hi Hr Hw|k x j l Hi Hr Hw Hc IH]; intros Hin.
  - by apply elem_of_nil in Hin.
  - apply list_elem_of_singleton in Hin as ->. exists []. split; [by eapply chain_null|done].
  - apply elem_of_cons in Hin as [-> |Hin].
    + exists l. split; [by eapply chain_link|done].
    + destruct (IH Hin) as (l2 & H2 & Hl). exists l2. split; [done|cbn in *; lia].
Qed.

Lemma free_chain_nodup c ss o l : chain_in c ss o l -> NoDup l.
Proof.
  induction 1 as [|k x Hi Hr Hw|k x j l Hi Hr Hw Hc IH]; [constructor|apply NoDup_singleton|].
  constructor; [|done]. intros Hin. destruct (free_chain_suffix _ _ _ _ _ Hc Hin) as (l2 & H2 & Hl).
  assert (k :: l = k :: l2) as [= ->] by (eapply free_chain_fun; [by eapply chain_link|done]). cbn in Hl. lia.
Qed.

Lemma chain_free c ss o l i : chain_in c ss o l -> i ∈ l -> exists x, ss !! i = Some x /\ references x = 0%Z.
Proof.
  induction 1; rewrite ?elem_of_cons, ?elem_of_nil; naive_solver.
Qed.

Lemma chain_head c ss s l : chain_in c ss (Some s) l -> exists i l2, s = (c, i) /\ l = i :: l2.
Proof. inversion 1; subst; eauto. Qed.

Lemma chain_frame c ss ss' o l : chain_in c ss o l -> (forall i, i ∈ l -> ss' !! i = ss !! i) -> chain_in c ss' o l.
Proof.
  induction 1 as [|k x Hi Hr Hw|k x j l Hi Hr Hw Hc IH]; intros HF; [constructor| |].
  - eapply chain_null; [rewrite HF; [done|left]|done..].
  - eapply chain_link; [rewrite HF; [done|left]|done..|]. apply IH. intros i Hin. apply HF. by right.
Qed.

(** What follows a chain's head. *)
Lemma chain_next c ss i l : chain_in c ss (Some (c, i)) (i :: l) ->
  exists x o, ss !! i = Some x /\ references x = 0%Z /\ chain_in c ss o l /\
    word x = match o with Some n => WNext n | None => WNull end.
Proof.
  inversion 1; subst.
  - exists x, None. split_and!; [done..|constructor|done].
  - eexists x, _. split_and!; [done..|eassumption|done].
Qed.

(** ** Rebuilding a chunk *)
Definition is_free (ss : list RootSlot) (i : nat) : bool :=
  match ss !! i with Some x => (references x =? 0)%Z | None => false end.

Definition free_from (ss : list RootSlot) (i n : nat) : list nat := filter (fun j => is_free ss j = true) (seq i n).

Lemma free_from_cons ss i n :
  free_from ss i (S n) = if is_free ss i then i :: free_from ss (S i) n else free_from ss (S i) n.
Proof. unfold free_from. cbn [seq]. rewrite filter_cons. by destruct (is_free ss i). Qed.

(** [ss'] is [ss] with the words of free slots rewritten. *)
Definition relinked (ss ss' : list RootSlot) : Prop :=
  length ss' = length ss /\
  forall i x, ss !! i = Some x ->
    exists x', ss' !! i = Some x' /\ references x' = references x /\ (references x <> 0%Z -> x' = x).

Lemma relinked_refl ss : relinked ss ss.
Proof. split; [done|]. intros i x ->. by exists x. Qed.

Lemma relinked_trans s1 s2 s3 : relinked s1 s2 -> relinked s2 s3 -> relinked s1 s3.
Proof.
  intros [L1 H1] [L2 H2]. split; [congruence|]. intros i x Hx. destruct (H1 i x Hx) as (y & Hy & R1 & E1).
  destruct (H2 i y Hy) as (z & Hz & R2 & E2). exists z. split_and!; [done|congruence|]. intros Hne. rewrite E2; [by apply E1|congruence].
Qed.

Lemma rebuild_slots c ss n i : i + n <= length ss ->
  exists ss' head live, foldr (fun j st => rebuild_slot c st j) (ss, None, 0) (seq i n) = (ss', head, live) /\
    relinked ss ss' /\ (forall j, j < i -> ss' !! j = ss !! j) /\
    chain_in c ss' head (free_from ss i n) /\ live + length (free_from ss i n) = n.
Proof.
  revert i. induction n as [|n IH]; intros i Hn.
  { exists ss, None, 0. split_and!; [done|apply relinked_refl|done|constructor|done]. }
  destruct (IH (S i)) as (ss1 & head & live & Hf & HR & Hlow & Hc & Hl); [lia|].
  cbn [seq foldr]. rewrite Hf. cbn [rebuild_slot]. destruct HR as [HL HR].
  destruct (lookup_lt_is_Some_2 ss i) as [x Hx]; [lia|].
  assert (Hx1 : ss1 !! i = Some x) by (rewrite Hlow; [done|lia]). rewrite Hx1.
  rewrite free_from_cons. assert (Hfree : is_free ss i = (references x =? 0)%Z) by (unfold is_free; by rewrite Hx).
  rewrite Hfree. destruct (Z.eqb_spec (references x) 0) as [E|E].
  - eexists _, _, _. split; [done|]. split_and!.
    + split; [by rewrite length_insert|]. intros j y Hy. destruct (decide (i = j)) as [<-|Hne].
      * rewrite list_lookup_insert_eq by lia. simplify_eq. eexists. split_and!; [done|done|congruence].
      * rewrite list_lookup_insert_ne by done. by apply HR.
    + intros j Hj. rewrite list_lookup_insert_ne by lia. apply Hlow. lia.
    + assert (HF : chain_in c (<[i := MkSlot (references x) (match head with Some h => WNext h | None => WNull end)]> ss1) head (free_from ss (S i) n)).
      { eapply chain_frame; [done|]. intros j Hj. apply list_lookup_insert_ne. intros ->.
        unfold free_from in Hj. apply list_elem_of_filter in Hj as [_ Hj]. apply elem_of_seq in Hj. lia. }
      destruct head as [s|].
      * destruct (chain_head _ _ _ _ Hc) as (k & l2 & -> & _).
        eapply chain_link; [apply list_lookup_insert_eq; lia|done|done|done].
      * inversion HF; subst. eapply chain_null; [apply list_lookup_insert_eq; lia|done|done].
    + cbn [length]. lia.
  - eexists _, _, _. split; [done|]. split_and!; [done|intros j Hj; apply Hlow; lia|done|lia].
Qed.

Lemma foldl_reverse {A B} (f : B -> A -> B) b l : foldl f b (reverse l) = foldr (fun a b => f b a) b l.
Proof. induction l as [|a l IH]; [done|]. rewrite reverse_cons, foldl_app, IH. done. Qed.

Lemma rebuild_chunk_spec c k : length (slots k) = SLOTS_PER_CHUNK ->
  exists k' head live, rebuild_chunk c k = (k', head, live) /\ chunk_heap k' = chunk_heap k /\ relinked (slots k) (slots k') /\
    exists l, chain_in c (slots k') head l /\ live + length l = SLOTS_PER_CHUNK /\
      forall i x, slots k' !! i = Some x -> references x = 0%Z -> i ∈ l.
Proof.
  intros HL. unfold rebuild_chunk. rewrite foldl_reverse.
  destruct (rebuild_slots c (slots k) SLOTS_PER_CHUNK 0) as (ss' & head & live & -> & HR & _ & Hc & Hl); [lia|].
  eexists _, _, _. split; [done|]. split; [done|]. split; [done|]. eexists. split; [done|]. split; [done|].
  cbn [slots]. intros i x Hx Hr. destruct HR as [HL' HR]. pose proof (lookup_lt_Some _ _ _ Hx) as Hi.
  destruct (lookup_lt_is_Some_2 (slots k) i) as [y Hy]; [lia|]. destruct (HR i y Hy) as (x' & Hx' & Hrx & _). simplify_eq.
  unfold free_from. apply list_elem_of_filter. split; [|apply elem_of_seq; lia]. unfold is_free. rewrite Hy.
  apply Z.eqb_eq. congruence.
Qed.

(** ** The pool's own invariant *)
Record pool_wf (P : RootPool) : Prop := {
  pw_heads : length (free_heads P) = length (chunks P);
  pw_leased : length (leased P) = length (chunks P);
  pw_counts : length (free_counts P) = length (chunks P);
  pw_full : forall c k, chunks P !! c = Some k -> length (slots k) = SLOTS_PER_CHUNK;
  pw_listed : forall c h, free_heads P !! c = Some (Some h) ->
    leased P !! c = Some false /\
    exists k l, chunks P !! c = Some k /\ chain_in c (slots k) (Some h) l /\ free_counts P !! c = Some (length l);
  pw_stack : forall c, c ∈ with_free P -> c < length (chunks P);
}.

(** What a client of the pool sees of a change of it: references stay, a
    referenced slot keeps its word, a leased chunk is untouched. *)
Definition kept (P P' : RootPool) : Prop :=
  length (chunks P) <= length (chunks P') /\
  (forall c k, chunks P !! c = Some k -> exists k', chunks P' !! c = Some k' /\ chunk_heap k' = chunk_heap k /\
     relinked (slots k) (slots k') /\ (leased P !! c = Some true -> k' = k)) /\
  (forall c k, length (chunks P) <= c -> chunks P' !! c = Some k -> Forall (fun x => references x = 0%Z) (slots k)).

Lemma kept_refl P : kept P P.
Proof.
  split_and!; [done| |].
  - intros c k Hk. exists k. split_and!; [done|done|apply relinked_refl|done].
  - intros c k Hc Hk%lookup_lt_Some. lia.
Qed.

(** Leases taken in between only shrink what a client may rely on. *)
Lemma kept_trans P1 P2 P3 : kept P1 P2 -> kept P2 P3 ->
  (forall c, leased P1 !! c = Some true -> leased P2 !! c = Some true) -> kept P1 P3.
Proof.
  intros (L1 & K1 & N1) (L2 & K2 & N2) HL. split_and!; [lia| |].
  - intros c k Hk. destruct (K1 c k Hk) as (k2 & Hk2 & Hh & HR & HE). destruct (K2 c k2 Hk2) as (k3 & Hk3 & Hh3 & HR3 & HE3).
    exists k3. split_and!; [done|congruence|by eapply relinked_trans|]. intros Hl. rewrite HE3; [by apply HE|by apply HL].
  - intros c k Hc Hk. destruct (decide (length (chunks P2) <= c)) as [H|H]; [by eapply N2|].
    destruct (lookup_lt_is_Some_2 (chunks P2) c) as [k2 Hk2]; [lia|]. pose proof (N1 c k2 Hc Hk2) as HF.
    destruct (K2 c k2 Hk2) as (k3 & Hk3 & _ & [HL3 HR3] & _). simplify_eq.
    apply list.Forall_lookup. intros i x Hx. destruct (lookup_lt_is_Some_2 (slots k2) i) as [y Hy].
    { apply lookup_lt_Some in Hx. lia. }
    destruct (HR3 i y Hy) as (x' & Hx' & Hr & _). simplify_eq. rewrite Hr. by eapply (Forall_lookup_1 _ _ _ _ HF).
Qed.

(** The pool offers slot [s]: it is on the list of its chunk, and the chunk is on the
    stack of chunks with free slots. *)
Definition listed (P : RootPool) (s : SlotRef) : Prop :=
  exists k h l, s.1 ∈ with_free P /\ free_heads P !! s.1 = Some (Some h) /\ chunks P !! s.1 = Some k /\
    chain_in s.1 (slots k) (Some h) l /\ s.2 ∈ l.

(** Every unreferenced slot of chunk [c] is offered. *)
Definition chunk_listed (P : RootPool) (c : nat) : Prop :=
  forall k i x, chunks P !! c = Some k -> slots k !! i = Some x -> references x = 0%Z -> listed P (c, i).

Lemma rebuild_turn_spec P live index : pool_wf P -> index < length (chunks P) ->
  exists P' live', rebuild_turn (P, live) index = Ok (P', live') /\ pool_wf P' /\ kept P P' /\ leased P' = leased P /\
    length (chunks P') = length (chunks P) /\ (leased P !! index = Some false -> chunk_listed P' index) /\
    (forall c, c <> index -> chunk_listed P c -> chunk_listed P' c).
Proof.
  intros [Wh Wl Wc Wf Wk Ws] Hi. cbn [rebuild_turn].
  destruct (lookup_lt_is_Some_2 (leased P) index) as [b Hb]; [lia|]. unfold vec_get. rewrite Hb. cbn [expect mbind outcome_bind].
  destruct b; [exists P, (live + SLOTS_PER_CHUNK); split_and!; [done|by split|apply kept_refl|done..]|].
  destruct (lookup_lt_is_Some_2 (chunks P) index) as [k Hk]; [lia|]. rewrite Hk. cbn [expect mbind outcome_bind].
  destruct (rebuild_chunk_spec index k (Wf _ _ Hk)) as (k' & head & cl & -> & Hhp & HR & l & Hc & Hl & Hall).
  rewrite !vec_set_lt by lia. cbn [mbind outcome_bind]. eexists _, _. split; [done|]. split_and!; [|split_and!|done|..].
  - split; cbn [free_heads chunks leased free_counts with_free]; rewrite ?length_insert; try done.
    + intros c x Hx. destruct (decide (index = c)) as [<-|Hne].
      * rewrite list_lookup_insert_eq in Hx by lia. simplify_eq. destruct HR as [-> _]. by eapply Wf.
      * rewrite list_lookup_insert_ne in Hx by done. by eapply Wf.
    + intros c h Hh. destruct (decide (index = c)) as [<-|Hne].
      * rewrite list_lookup_insert_eq in Hh by lia. split; [done|]. exists k', l.
        rewrite !list_lookup_insert_eq by lia. simplify_eq. split_and!; [done..|]. f_equal. lia.
      * rewrite !list_lookup_insert_ne in * by done. by apply Wk.
    + intros c Hin. destruct head; [|by apply Ws]. apply elem_of_app in Hin as [Hin|Hin%list_elem_of_singleton]; [by apply Ws|by subst].
  - cbn [chunks]. by rewrite length_insert.
  - intros c x Hx. cbn [chunks]. destruct (decide (index = c)) as [<-|Hne].
    + rewrite list_lookup_insert_eq by lia. simplify_eq. exists k'. split_and!; [done..|congruence].
    + rewrite list_lookup_insert_ne by done. exists x. split_and!; [done..|apply relinked_refl|done].
  - cbn [chunks]. intros c x Hc2 Hx. apply lookup_lt_Some in Hx. rewrite length_insert in Hx. lia.
  - cbn [chunks]. by rewrite length_insert.
  - intros _ kc i x Hkc Hx Hr. cbn [chunks] in Hkc. rewrite list_lookup_insert_eq in Hkc by lia. injection Hkc as <-.
    pose proof (Hall i x Hx Hr) as Hin. destruct head as [h|]; [|inversion Hc; subst; by apply elem_of_nil in Hin].
    exists k', h, l. cbn. rewrite !list_lookup_insert_eq by lia. split_and!; [|done..]. apply elem_of_app. right. by left.
  - intros c Hne HC kc i x Hkc Hx Hr. cbn [chunks] in Hkc. rewrite list_lookup_insert_ne in Hkc by done.
    destruct (HC kc i x Hkc Hx Hr) as (k2 & h & l2 & Hin & Hh & Hk2 & Hc2 & Hi2). exists k2, h, l2. cbn in *.
    rewrite !list_lookup_insert_ne by done. split_and!; try done. destruct head; [|done]. apply elem_of_app. by left.
Qed.

Lemma rebuild_unleased_spec P : pool_wf P ->
  exists P', rebuild_unleased P = Ok P' /\ pool_wf P' /\ kept P P' /\ leased P' = leased P /\
    length (chunks P') = length (chunks P) /\ (forall c, leased P !! c = Some false -> chunk_listed P' c).
Proof.
  intros [Wh Wl Wc Wf Wk Ws]. unfold rebuild_unleased.
  set (P0 := MkPool _ _ _ _ _ _ _).
  destruct (foldM_inv (E:=Empty_set) rebuild_turn
    (fun don st => pool_wf st.1 /\ kept P st.1 /\ leased st.1 = leased P /\ length (chunks st.1) = length (chunks P) /\
       (forall c, c ∈ don -> leased P !! c = Some false -> chunk_listed st.1 c))
    (reverse (seq 0 (length (chunks P)))) (P0, 0)) as ([Q live] & -> & HW & HK & HL & Hn & Hall).
  { split_and!; [by split; cbn; try done; intros c Hin; apply elem_of_nil in Hin| |done..|].
    - exact (kept_refl P).
    - intros c Hin. by apply elem_of_nil in Hin. }
  { intros don i rest [Q live] Hd (HW & HK & HL & Hn & Hall). cbn [fst snd] in *.
    assert (i < length (chunks Q)).
    { assert (Hi : i ∈ reverse (seq 0 (length (chunks P)))) by (rewrite Hd; set_solver).
      rewrite elem_of_reverse, elem_of_seq in Hi. lia. }
    destruct (rebuild_turn_spec Q live i HW ltac:(done)) as (Q' & live' & HQ & HW' & HK' & HL' & Hn' & Hi' & Ho').
    exists (Q', live'). cbn [fst]. split_and!; [done|done| |congruence|congruence|].
    - eapply kept_trans; [done..|]. intros c. by rewrite HL.
    - intros c Hin Hc. destruct (decide (c = i)) as [->|Hne]; [by apply Hi'; rewrite HL|].
      apply elem_of_app in Hin as [Hin|Hin%list_elem_of_singleton]; [|done]. apply Ho'; [done|by apply Hall]. }
  cbn [fst snd mbind outcome_bind] in *. eexists. split; [done|]. split_and!; [|exact HK|done..|].
  - destruct HW. by split.
  - intros c Hc k i x Hk Hx Hr. assert (Hin : c ∈ reverse (seq 0 (length (chunks P)))).
    { rewrite elem_of_reverse, elem_of_seq. apply lookup_lt_Some in Hc. lia. }
    exact (Hall c Hin Hc k i x Hk Hx Hr).
Qed.

(** What the pool gives a thread: a chunk that nobody leased, and a list of it. *)
Definition handed (P P' : RootPool) (head : SlotRef) (c : nat) : Prop :=
  pool_wf P' /\ kept P P' /\ leased P !! c <> Some true /\ leased P' !! c = Some true /\
  (forall d, leased P !! d = Some true -> leased P' !! d = Some true) /\
  exists k l, chunks P' !! c = Some k /\ chain_in c (slots k) (Some head) l.

(** A pool whose stack changed. *)
Lemma restack_wf P heads stack n : pool_wf P -> length heads = length (chunks P) ->
  (forall c h, heads !! c = Some (Some h) -> free_heads P !! c = Some (Some h)) ->
  (forall c, c ∈ stack -> c < length (chunks P)) ->
  pool_wf (MkPool (chunks P) heads stack (leased P) (free_counts P) (live_at_last_scan P) n).
Proof. intros [Wh Wl Wc Wf Wk Ws] Hl Hh Hs. split; cbn; try done. intros c h H. by apply Wk, Hh. Qed.

Lemma take_listed_loop_spec stack P : pool_wf P -> (forall c, c ∈ stack -> c < length (chunks P)) ->
  exists P' r, take_listed_loop P stack = Ok (P', r) /\
    match r with
    | Some (head, c) => handed P P' head c
    | None => pool_wf P' /\ chunks P' = chunks P /\ leased P' = leased P
    end.
Proof.
  revert P. induction stack as [|i stack IH]; intros P HW Hs; cbn [take_listed_loop].
  { eexists _, None. split; [done|]. split_and!; [|done..]. apply restack_wf; [done|apply HW|done|]. intros c Hc. by apply elem_of_nil in Hc. }
  assert (Hi : i < length (chunks P)) by (apply Hs; left).
  assert (Hs' : forall c, c ∈ stack -> c < length (chunks P)) by (intros c Hc; apply Hs; by right).
  pose proof HW as [Wh Wl Wc Wf Wk Ws].
  destruct (lookup_lt_is_Some_2 (leased P) i) as [b Hb]; [lia|].
  destruct (lookup_lt_is_Some_2 (free_heads P) i) as [h Hh]; [lia|].
  destruct (lookup_lt_is_Some_2 (free_counts P) i) as [n Hn]; [lia|].
  unfold vec_get. rewrite Hb. cbn [expect mbind outcome_bind]. destruct b; [by apply IH|].
  rewrite Hh, vec_set_lt by lia. cbn [expect mbind outcome_bind leased chunks free_heads free_counts].
  assert (Hheads : forall c x, <[i := None]> (free_heads P) !! c = Some (Some x) -> free_heads P !! c = Some (Some x) /\ c <> i).
  { intros c x Hx. apply list_lookup_insert_Some in Hx as [(_ & [=] & _)|(Hne & Hx)]. done. }
  destruct h as [h|].
  2:{ set (P1 := MkPool _ _ _ _ _ _ _). destruct (IH P1) as (P' & r & HE & HP).
      - apply restack_wf; [done|by rewrite length_insert|intros c x Hx; by apply Hheads|done].
      - done.
      - exists P', r. split; [done|]. by destruct r as [[??]|]. }
  rewrite !vec_set_lt by lia. rewrite Hn. cbn [expect mbind outcome_bind].
  destruct (Wk _ _ Hh) as (_ & k & l & Hk & Hc & _).
  eexists _, (Some (h, i)). split; [done|]. split_and!.
  - split; cbn; rewrite ?length_insert; try done.
    + intros c x Hx. apply Hheads in Hx as [Hx Hne]. rewrite !list_lookup_insert_ne by done. by apply Wk.
    + intros c. rewrite elem_of_reverse. apply Hs'.
  - split_and!; [done| |].
    + cbn. intros c x Hx. exists x. split_and!; [done|done|apply relinked_refl|done].
    + cbn. intros c x Hx Hx2%lookup_lt_Some. lia.
  - by rewrite Hb.
  - cbn. apply list_lookup_insert_eq. lia.
  - cbn. intros d Hd. destruct (decide (i = d)) as [<-|Hne]; [apply list_lookup_insert_eq; lia|by rewrite list_lookup_insert_ne].
  - by exists k, l.
Qed.

Lemma take_listed_spec P : pool_wf P ->
  exists P' r, take_listed P = Ok (P', r) /\
    match r with
    | Some (head, c) => handed P P' head c
    | None => pool_wf P' /\ chunks P' = chunks P /\ leased P' = leased P
    end.
Proof. intros HW. apply take_listed_loop_spec; [done|]. intros c. rewrite elem_of_reverse. apply HW. Qed.

Lemma fresh_chain c ss i n : length ss = SLOTS_PER_CHUNK -> i + S n = SLOTS_PER_CHUNK ->
  (forall j, j < SLOTS_PER_CHUNK -> ss !! j = Some (fresh_slot c j)) -> chain_in c ss (Some (c, i)) (seq i (S n)).
Proof.
  intros HL. revert i. induction n as [|n IH]; intros i Hi HS.
  - eapply chain_null; [apply HS; lia|..]; unfold fresh_slot; rewrite decide_False by lia; done.
  - cbn [seq]. eapply chain_link with (j := S i); [apply HS; lia|..]; unfold fresh_slot.
    + by rewrite decide_True by lia.
    + rewrite decide_True by lia. cbn. do 2 f_equal. lia.
    + apply IH; [lia|done].
Qed.

Lemma add_chunk_spec P heap : pool_wf P ->
  let '(P', (head, c)) := add_chunk P heap in handed P P' head c.
Proof.
  intros [Wh Wl Wc Wf Wk Ws]. unfold add_chunk, allocate. set (k := MkChunk _ _). set (n := length (chunks P)).
  assert (Hlen : length (slots k) = SLOTS_PER_CHUNK) by (cbn [slots k]; by rewrite length_fmap, length_seq).
  assert (Hslots : forall j, j < SLOTS_PER_CHUNK -> slots k !! j = Some (fresh_slot n j)).
  { intros j Hj. cbn [slots k]. by rewrite list_lookup_fmap, lookup_seq_lt by done. }
  split_and!.
  - split; cbn [free_heads chunks leased free_counts with_free]; rewrite ?length_app, ?Wh, ?Wl, ?Wc; try done.
    + intros c x Hx. apply lookup_app_Some in Hx as [Hx|[_ Hx]]; [by eapply Wf|].
      apply list_lookup_singleton_Some in Hx as [_ <-]. done.
    + intros c h Hh. apply lookup_app_Some in Hh as [Hh|[_ Hh]].
      * destruct (Wk _ _ Hh) as (Hl & x & l & Hx & Hc & Hn). split; [by apply lookup_app_l_Some|].
        exists x, l. split_and!; [by apply lookup_app_l_Some|done|by apply lookup_app_l_Some].
      * by apply list_lookup_singleton_Some in Hh as [_ [=]].
    + intros c Hc. specialize (Ws _ Hc). cbn. lia.
  - split_and!; cbn [chunks leased].
    + rewrite length_app. lia.
    + intros c x Hx. exists x. split_and!; [by apply lookup_app_l_Some|done|apply relinked_refl|done].
    + intros c x Hc Hx. apply lookup_app_Some in Hx as [Hx%lookup_lt_Some|[_ Hx]]; [lia|].
      apply list_lookup_singleton_Some in Hx as [_ <-]. apply list.Forall_lookup. intros j y Hy.
      pose proof (lookup_lt_Some _ _ _ Hy). rewrite Hslots in Hy by lia. simplify_eq. unfold fresh_slot. by case_decide.
  - rewrite lookup_ge_None_2; [done|unfold n; lia].
  - cbn. apply list_lookup_middle. unfold n. lia.
  - cbn. intros d Hd. by apply lookup_app_l_Some.
  - exists k, (seq 0 SLOTS_PER_CHUNK). split; [cbn; by apply list_lookup_middle|]. by apply fresh_chain.
Qed.

(** [handed] does not depend on how the pool got to hand out the list. *)
Lemma handed_after P P1 P' head c : kept P P1 -> (forall d, leased P1 !! d = leased P !! d) -> handed P1 P' head c -> handed P P' head c.
Proof.
  intros HK HL (HW & HK' & Hc & Hc' & Hd & HE). split_and!; [done| |by rewrite <- HL|done| |done].
  - eapply kept_trans; [done..|]. intros d. by rewrite HL.
  - intros d. rewrite <- HL. apply Hd.
Qed.

Lemma kept_same P P' : chunks P' = chunks P -> kept P P'.
Proof. intros E. unfold kept. rewrite E. exact (kept_refl P). Qed.

Definition returned_lease (P : RootPool) (index : nat) : RootPool :=
  MkPool (chunks P) (free_heads P) (with_free P) (<[index := false]> (leased P)) (free_counts P) (live_at_last_scan P)
    (handed_out_since_scan P).

Definition give_back (P : RootPool) (returned : option nat) : RootPool :=
  match returned with Some index => returned_lease P index | None => P end.

Lemma give_back_wf P returned : pool_wf P -> pool_wf (give_back P returned).
Proof.
  intros HW. destruct returned as [i|]; [|done]. destruct HW as [Wh Wl Wc Wf Wk Ws].
  split; cbn; rewrite ?length_insert; try done. intros c h Hh. destruct (Wk c h Hh) as (Hl & k & l & Hk & Hc).
  split; [|by exists k, l]. destruct (decide (i = c)) as [<-|Hne].
  - apply list_lookup_insert_eq. by eapply lookup_lt_Some.
  - by rewrite list_lookup_insert_ne.
Qed.

Lemma take_free_list_spec P heap returned : pool_wf P ->
  match returned with Some c => c < length (chunks P) | None => True end ->
  exists P' head c, take_free_list P heap returned = Ok (P', (head, c)) /\ handed (give_back P returned) P' head c.
Proof.
  intros HW Hr. unfold take_free_list.
  assert (E : match returned with Some index => vec_set (leased P) index false | None => Ok (leased P) end
              = Ok (E:=Empty_set) (leased (give_back P returned))).
  { destruct returned as [i|]; [|done]. apply vec_set_lt. by rewrite (pw_leased _ HW). }
  rewrite E. cbn [mbind outcome_bind].
  replace (MkPool _ _ _ _ _ _ _) with (give_back P returned) by (destruct P, returned; done).
  pose proof (give_back_wf P returned HW) as HW'. set (Q := give_back P returned) in *.
  destruct (take_listed_spec Q HW') as (P1 & [[head c]|] & -> & H1); cbn [mbind outcome_bind]; [by eauto 10|].
  destruct H1 as (W1 & E1 & L1).
  assert (Hadd : forall R, pool_wf R -> kept Q R -> leased R = leased Q ->
    exists P' head c, Ok (E:=Empty_set) (add_chunk R heap) = Ok (P', (head, c)) /\ handed Q P' head c).
  { intros R HR HK HL. pose proof (add_chunk_spec R heap HR) as HA. destruct (add_chunk R heap) as [P' [head c]].
    exists P', head, c. split; [done|]. eapply handed_after; [done| |done]. intros d. by rewrite HL. }
  case_decide; [|by apply Hadd; [|apply kept_same|]].
  destruct (rebuild_unleased_spec P1 W1) as (P2 & -> & W2 & K2 & L2 & N2 & _). cbn [mbind outcome_bind].
  assert (KQ : kept Q P2). { eapply kept_trans; [by apply kept_same|done|]. intros d. by rewrite L1. }
  destruct (take_listed_spec P2 W2) as (P3 & [[head c]|] & -> & H3); cbn [mbind outcome_bind].
  - exists P3, head, c. split; [done|]. eapply handed_after; [exact KQ| |done]. intros d. by rewrite L2, L1.
  - destruct H3 as (W3 & E3 & L3). apply Hadd; [done| |congruence].
    eapply kept_trans; [exact KQ|by apply kept_same|]. intros d. by rewrite L2, L1.
Qed.

(** ** Slots across changes of the pool *)
Lemma slot_at_Some P c i x : slot_at P (c, i) = Some x <-> exists k, chunks P !! c = Some k /\ slots k !! i = Some x.
Proof. unfold slot_at. cbn. rewrite bind_Some. done. Qed.

Lemma kept_slot P P' s x : kept P P' -> slot_at P s = Some x ->
  exists x', slot_at P' s = Some x' /\ references x' = references x /\ (references x <> 0%Z -> x' = x).
Proof.
  intros (_ & HK & _). destruct s as [c i]. rewrite slot_at_Some. intros (k & Hk & Hx).
  destruct (HK c k Hk) as (k' & Hk' & _ & [_ HR] & _). destruct (HR i x Hx) as (x' & Hx' & H).
  exists x'. split; [|done]. apply slot_at_Some. eauto.
Qed.

Lemma kept_slot_back P P' s x' : kept P P' -> slot_at P' s = Some x' ->
  (exists x, slot_at P s = Some x) \/ (slot_at P s = None /\ references x' = 0%Z).
Proof.
  intros (_ & HK & HN) H. destruct (slot_at P s) as [x|] eqn:E; [by left; exists x|right; split; [done|]].
  destruct s as [c i]. apply slot_at_Some in H as (k' & Hk' & Hx').
  destruct (chunks P !! c) as [k|] eqn:Hk.
  - destruct (HK c k Hk) as (k2 & Hk2 & _ & [HL _] & _). simplify_eq.
    destruct (lookup_lt_is_Some_2 (slots k) i) as [x Hx]; [rewrite <- HL; by eapply lookup_lt_Some|].
    assert (slot_at P (c, i) = Some x) by (apply slot_at_Some; eauto). congruence.
  - apply lookup_ge_None in Hk. by eapply (Forall_lookup_1 _ _ _ _ (HN c k' Hk Hk')).
Qed.

Lemma set_slot_chunk P s x c : chunks (set_slot P s x) !! c =
  if decide (c = s.1) then (fun k => MkChunk (chunk_heap k) (<[s.2 := x]> (slots k))) <$> chunks P !! c else chunks P !! c.
Proof.
  cbn. unfold put_slot. case_decide as H; [subst; apply list_lookup_alter_eq|by apply list_lookup_alter_ne].
Qed.

Lemma set_slot_at P s x y s' : slot_at P s = Some y ->
  slot_at (set_slot P s x) s' = if decide (s' = s) then Some x else slot_at P s'.
Proof.
  destruct s as [c i], s' as [c' i']. rewrite slot_at_Some. intros (k & Hk & Hy).
  unfold slot_at. rewrite set_slot_chunk. cbn. destruct (decide (c' = c)) as [->|Hc].
  - rewrite Hk. cbn. case_decide as H; simplify_eq.
    + apply list_lookup_insert_eq. by eapply lookup_lt_Some.
    + apply list_lookup_insert_ne. congruence.
  - by rewrite decide_False by congruence.
Qed.

(** A list that avoids the slot survives. *)
Lemma set_slot_chain P s x c k o l : chunks P !! c = Some k -> chain_in c (slots k) o l -> (c = s.1 -> s.2 ∉ l) ->
  exists k', chunks (set_slot P s x) !! c = Some k' /\ chain_in c (slots k') o l.
Proof.
  intros Hk Hc Hs. rewrite set_slot_chunk, Hk. case_decide as H; [|by exists k]. cbn. eexists. split; [done|]. cbn.
  eapply chain_frame; [done|]. intros i Hi. apply list_lookup_insert_ne. intros <-. by apply Hs.
Qed.

Lemma set_slot_wf P s x : pool_wf P ->
  (forall h, free_heads P !! s.1 = Some (Some h) -> exists y, slot_at P s = Some y /\ references y <> 0%Z) ->
  pool_wf (set_slot P s x).
Proof.
  intros [Wh Wl Wc Wf Wk Ws] Hs.
  assert (E : length (chunks (set_slot P s x)) = length (chunks P)) by (cbn; unfold put_slot; apply length_alter).
  split; rewrite ?E; try done.
  - intros c k. rewrite set_slot_chunk. case_decide; [|apply Wf]. intros Hk. apply fmap_Some in Hk as (k0 & H0 & ->).
    cbn. rewrite length_insert. by eapply Wf.
  - intros c h Hh. destruct (Wk c h Hh) as (Hl & k & l & Hk & Hc & Hn). split; [done|].
    destruct (set_slot_chain P s x c k (Some h) l Hk Hc) as (k' & Hk' & Hc'); [|by exists k', l].
    intros ->. intros Hin. destruct (Hs h Hh) as (y & Hy & Hr). destruct s as [c i]. apply slot_at_Some in Hy as (k1 & Hk1 & Hy).
    cbn in *. simplify_eq. destruct (chain_free _ _ _ _ _ Hc Hin) as (z & Hz & Hz0). congruence.
Qed.

(** ** The machine *)
Record Roots := MkRoots {
  pool : RootPool;
  epoch : nat;
  threads : gmap nat ThreadRoots;
  handles : list (SlotRef * Z);
}.

Definition Roots_new : Roots := MkRoots RootPool_default 1 ∅ [].

(** [Enter] admits a thread, [Leave] ends its entry, [Forget] drops its record;
    [Register] roots a value, [Clone] and [Drop] act on a handle; [Collect] is what
    a collection does to the pool. *)
Inductive request :=
  | Enter (t : nat)
  | Leave (t : nat)
  | Forget (t : nat)
  | Register (t : nat) (v : Z)
  | Clone (h : nat)
  | Drop (h : nat)
  | Collect.

(** The handles on a slot. *)
Definition refs (s : SlotRef) (hs : list (SlotRef * Z)) : nat := length (filter (fun h => h.1 = s) hs).
#[global] Arguments refs : simpl never.

(** When a request may be made: what the types and the admission of the code
    enforce. A clone beyond the bound aborts. *)
Definition allowed (R : Roots) (q : request) : Prop :=
  match q with
  | Enter t => forall T, threads R !! t = Some T -> active T = false
  | Leave t | Register t _ => exists T, threads R !! t = Some T /\ active T = true
  | Forget t => exists T, threads R !! t = Some T /\ active T = false
  | Clone h => exists e, handles R !! h = Some e /\ (Z.of_nat (refs e.1 (handles R)) <= MAX_REFERENCES)%Z
  | Drop h => h < length (handles R)
  | Collect => forall t T, threads R !! t = Some T -> active T = false
  end.

Definition serve (heap : HeapId) (R : Roots) (q : request) : M Roots :=
  match q with
  | Enter t =>
      let T := default (MkThread false (epoch R) None None) (threads R !! t) in
      Ok (MkRoots (pool R) (epoch R) (<[t := activate T (epoch R)]> (threads R)) (handles R))
  | Leave t =>
      T ← expect (threads R !! t);
      Ok (MkRoots (pool R) (epoch R) (<[t := deactivate T]> (threads R)) (handles R))
  | Forget t => Ok (MkRoots (pool R) (epoch R) (delete t (threads R)) (handles R))
  | Register t v =>
      T ← expect (threads R !! t);
      r ← register_proven_root (pool R) T heap v;
      let '(P, T, s) := r in
      Ok (MkRoots P (epoch R) (<[t := T]> (threads R)) ((s, v) :: handles R))
  | Clone h =>
      e ← vec_get (handles R) h;
      P ← retain (pool R) e.1;
      Ok (MkRoots P (epoch R) (threads R) (e :: handles R))
  | Drop h =>
      e ← vec_get (handles R) h;
      P ← release (pool R) e.1;
      Ok (MkRoots P (epoch R) (threads R) (delete h (handles R)))
  | Collect =>
      P ← rebuild_free_lists (pool R);
      Ok (MkRoots P (epoch R + 1) (threads R) (handles R))
  end.

(** The list a thread holds. *)
Definition holds_list (P : RootPool) (T : ThreadRoots) : Prop :=
  match root_lease T with
  | None => root_free T = None
  | Some c => leased P !! c = Some true /\ exists k l, chunks P !! c = Some k /\ chain_in c (slots k) (root_free T) l
  end.

(** A slot's count is the number of its handles, and its word their value. *)
Definition handles_ok (P : RootPool) (hs : list (SlotRef * Z)) : Prop :=
  (forall s x, slot_at P s = Some x -> references x = Z.of_nat (refs s hs)) /\
  (forall s v, (s, v) ∈ hs -> exists x, slot_at P s = Some x /\ word x = WValue v).

Record roots_ok (P : RootPool) (e : nat) (ts : gmap nat ThreadRoots) (hs : list (SlotRef * Z)) : Prop := {
  ro_pool : pool_wf P;
  ro_handles : handles_ok P hs;
  ro_bound : forall s, (Z.of_nat (refs s hs) <= MAX_REFERENCES + 1)%Z;
  ro_lists : forall t T, ts !! t = Some T -> captured_epoch T = e -> holds_list P T;
  ro_apart : forall t t' T T' c, ts !! t = Some T -> ts !! t' = Some T' -> captured_epoch T = e -> captured_epoch T' = e ->
    root_lease T = Some c -> root_lease T' = Some c -> t = t';
  ro_epochs : forall t T, ts !! t = Some T -> captured_epoch T <= e /\ (active T = true -> captured_epoch T = e);
}.

Definition roots_inv (R : Roots) : Prop := roots_ok (pool R) (epoch R) (threads R) (handles R).

Lemma refs_pos s v hs : (s, v) ∈ hs -> 0 < refs s hs.
Proof.
  intros H. unfold refs. assert (E : (s, v) ∈ filter (fun h => h.1 = s) hs) by (by apply list_elem_of_filter).
  destruct (filter _ hs); [by apply elem_of_nil in E|cbn; lia].
Qed.

Lemma refs_le s hs : refs s hs <= length hs.
Proof. apply length_filter. Qed.

Lemma refs_cons s e hs : refs s (e :: hs) = (if decide (e.1 = s) then 1 else 0) + refs s hs.
Proof. unfold refs. rewrite filter_cons. by case_decide. Qed.

Lemma refs_delete s h e hs : hs !! h = Some e -> refs s hs = (if decide (e.1 = s) then 1 else 0) + refs s (delete h hs).
Proof.
  intros H. rewrite <- refs_cons. unfold refs. apply Permutation_length, filter_Permutation. by apply delete_Permutation.
Qed.

(** ** Preservation *)

(** A slot on a thread's list is not referenced, and on no list of the pool. *)
Lemma list_slot P e ts hs t T s : roots_ok P e ts hs -> ts !! t = Some T -> captured_epoch T = e -> root_free T = Some s ->
  exists c i k l x next, s = (c, i) /\ root_lease T = Some c /\ leased P !! c = Some true /\ chunks P !! c = Some k /\
    chain_in c (slots k) next l /\ i ∉ l /\ slot_at P s = Some x /\ references x = 0%Z /\ next_free P s = Ok next.
Proof.
  intros HR Ht He Hs. pose proof (ro_lists _ _ _ _ HR t T Ht He) as H. unfold holds_list in H.
  destruct (root_lease T) as [c|]; [|congruence]. destruct H as (Hl & k & l & Hk & Hc). rewrite Hs in Hc.
  destruct (chain_head _ _ _ _ Hc) as (i & l2 & -> & ->). pose proof (free_chain_nodup _ _ _ _ Hc) as [Hi _]%NoDup_cons.
  destruct (chain_next _ _ _ _ Hc) as (x & next & Hx & Hr & Hc2 & Hw).
  assert (Hat : slot_at P (c, i) = Some x) by (apply slot_at_Some; eauto).
  exists c, i, k, l2, x, next. split_and!; try done. unfold next_free. rewrite Hat. cbn. rewrite Hw. by destruct next.
Qed.

Lemma occupied P e ts hs t T s v : roots_ok P e ts hs -> ts !! t = Some T -> captured_epoch T = e -> root_free T = Some s ->
  exists next, next_free P s = Ok next /\ occupy P s v = Ok (set_slot P s (MkSlot 1 (WValue v))) /\ refs s hs = 0 /\
    roots_ok (set_slot P s (MkSlot 1 (WValue v))) e
      (<[t := MkThread (active T) (captured_epoch T) next (root_lease T)]> ts) ((s, v) :: hs).
Proof.
  intros HR Ht He Hs. destruct (list_slot _ _ _ _ _ _ _ HR Ht He Hs) as (c & i & k & l & x & next & -> & HT & Hl & Hk & Hc & Hi & Hx & Hr & Hn).
  exists next. split; [done|]. unfold occupy. rewrite Hx. split; [done|].
  assert (H0 : refs (c, i) hs = 0) by (pose proof (proj1 (ro_handles _ _ _ _ HR) _ _ Hx); lia). split; [done|].
  assert (Hheads : forall h, free_heads P !! c <> Some (Some h)).
  { intros h Hh. destruct (pw_listed _ (ro_pool _ _ _ _ HR) c h Hh). congruence. }
  split.
  - apply set_slot_wf; [apply HR|]. intros h Hh. by apply Hheads in Hh.
  - split.
    + intros s y. rewrite (set_slot_at _ _ _ x) by done. rewrite refs_cons. cbn [fst]. case_decide as Hd.
      * subst. intros [= <-]. rewrite decide_True by done. rewrite H0. done.
      * rewrite decide_False by congruence. apply HR.
    + intros s w. rewrite (set_slot_at _ _ _ x) by done. rewrite elem_of_cons. intros [[= -> ->]|Hin].
      * rewrite decide_True by done. by eexists.
      * rewrite decide_False; [by eapply HR|]. intros ->. apply refs_pos in Hin. lia.
  - intros s. rewrite refs_cons. cbn [fst]. case_decide as Hd; [subst; rewrite H0; done|]. apply HR.
  - intros t' T'. destruct (decide (t' = t)) as [->|Hne].
    + rewrite lookup_insert_eq. intros [= <-] _. unfold holds_list. cbn. rewrite HT. split; [done|].
      destruct (set_slot_chain P (c, i) (MkSlot 1 (WValue v)) c k next l Hk Hc) as (k' & Hk' & Hc'); [done|by exists k', l].
    + rewrite lookup_insert_ne by done. intros Ht' He'. pose proof (ro_lists _ _ _ _ HR t' T' Ht' He') as H.
      unfold holds_list in *. destruct (root_lease T') as [c'|] eqn:HT'; [|done].
      destruct H as (Hl' & k' & l' & Hk' & Hc'). split; [done|].
      destruct (set_slot_chain P (c, i) (MkSlot 1 (WValue v)) c' k' (root_free T') l' Hk' Hc') as (k2 & Hk2 & Hc2); [|by exists k2, l'].
      cbn. intros ->. exfalso. apply Hne. by eapply (ro_apart _ _ _ _ HR t' t).
  - intros t1 t2 T1 T2 d H1 H2 E1 E2 L1 L2.
    destruct (decide (t1 = t)) as [->|N1], (decide (t2 = t)) as [->|N2]; rewrite ?lookup_insert_eq, ?lookup_insert_ne in * by done;
      simplify_eq; cbn in *; try done; by eapply (ro_apart _ _ _ _ HR).
  - intros t' T'. destruct (decide (t' = t)) as [->|Hne].
    + rewrite lookup_insert_eq. intros [= <-]. cbn. by apply (ro_epochs _ _ _ _ HR t T).
    + rewrite lookup_insert_ne by done. apply HR.
Qed.

(** The counts and the values of handles survive what the pool does. *)
Lemma kept_handles P P' hs : handles_ok P hs -> kept P P' -> handles_ok P' hs.
Proof.
  intros [HC HV] HK. split.
  - intros s x' Hx'. destruct (kept_slot_back _ _ _ _ HK Hx') as [[x Hx]|[Hn Hz]].
    + destruct (kept_slot _ _ _ _ HK Hx) as (x2 & Hx2 & Hr & _). simplify_eq. rewrite Hr. by apply HC.
    + rewrite Hz. destruct (decide (refs s hs = 0)) as [->|Hne]; [done|exfalso].
      unfold refs in Hne. destruct (filter (fun h => h.1 = s) hs) as [|[s' v] ?] eqn:E; [done|].
      assert (Hin : (s', v) ∈ filter (fun h => h.1 = s) hs) by (rewrite E; left).
      apply list_elem_of_filter in Hin as [<- Hin]. destruct (HV _ _ Hin) as (x & Hx & _). cbn in Hn. congruence.
  - intros s v Hin. destruct (HV _ _ Hin) as (x & Hx & Hw).
    destruct (kept_slot _ _ _ _ HK Hx) as (x' & Hx' & Hr & HE). exists x'. split; [done|].
    rewrite HE; [done|]. pose proof (HC _ _ Hx). apply refs_pos in Hin. lia.
Qed.

Lemma refill P e ts hs t T heap : roots_ok P e ts hs -> ts !! t = Some T -> captured_epoch T = e -> root_free T = None ->
  exists P' head c, take_free_list P heap (root_lease T) = Ok (P', (head, c)) /\
    roots_ok P' e (<[t := MkThread (active T) (captured_epoch T) (Some head) (Some c)]> ts) hs.
Proof.
  intros HR Ht He Hf.
  destruct (take_free_list_spec P heap (root_lease T)) as (P' & head & c & -> & HW & HK & Hn & Hl & Hleft & k & l & Hk & Hc).
  { apply HR. }
  { pose proof (ro_lists _ _ _ _ HR t T Ht He) as H. unfold holds_list in H. destruct (root_lease T) as [d|]; [|done].
    destruct H as (H & _). rewrite <- (pw_leased _ (ro_pool _ _ _ _ HR)). by eapply lookup_lt_Some. }
  exists P', head, c. split; [done|].
  assert (Hother : forall t' T' d, t' <> t -> ts !! t' = Some T' -> captured_epoch T' = e -> root_lease T' = Some d ->
    leased (give_back P (root_lease T)) !! d = Some true).
  { intros t' T' d Hne Ht' He' HT'. pose proof (ro_lists _ _ _ _ HR t' T' Ht' He') as H. unfold holds_list in H. rewrite HT' in H.
    destruct H as (H & _). destruct (root_lease T) as [d0|] eqn:HT; [|done]. cbn. rewrite list_lookup_insert_ne; [done|].
    intros ->. apply Hne. by eapply (ro_apart _ _ _ _ HR t' t). }
  assert (HH : handles_ok P' hs).
  { eapply kept_handles; [|exact HK]. pose proof (ro_handles _ _ _ _ HR). by destruct (root_lease T). }
  split; [done|done|apply HR| | |].
  - intros t' T'. destruct (decide (t' = t)) as [->|Hne].
    + rewrite lookup_insert_eq. intros [= <-] _. unfold holds_list. cbn. split; [done|]. by exists k, l.
    + rewrite lookup_insert_ne by done. intros Ht' He'. pose proof (ro_lists _ _ _ _ HR t' T' Ht' He') as H.
      unfold holds_list in *. destruct (root_lease T') as [d|] eqn:HT'; [|done]. destruct H as (_ & k' & l' & Hk' & Hc').
      pose proof (Hother t' T' d Hne Ht' He' HT') as Hd. split; [by apply Hleft|].
      destruct HK as (_ & HK & _). destruct (HK d k') as (k2 & Hk2 & _ & _ & HE); [by destruct (root_lease T)|].
      rewrite (HE Hd) in Hk2. by exists k', l'.
  - intros t1 t2 T1 T2 d H1 H2 E1 E2 L1 L2.
    destruct (decide (t1 = t)) as [->|N1], (decide (t2 = t)) as [->|N2]; rewrite ?lookup_insert_eq, ?lookup_insert_ne in * by done;
      simplify_eq; cbn in *; try done; simplify_eq; try (by eapply (ro_apart _ _ _ _ HR)).
    + exfalso. apply Hn. by eapply Hother.
    + exfalso. apply Hn. by eapply Hother.
  - intros t' T'. destruct (decide (t' = t)) as [->|Hne].
    + rewrite lookup_insert_eq. intros [= <-]. cbn. by apply (ro_epochs _ _ _ _ HR t T).
    + rewrite lookup_insert_ne by done. apply HR.
Qed.

(** Changing the count of a referenced slot. *)
Lemma recount P e ts hs hs' s v n : roots_ok P e ts hs -> (s, v) ∈ hs -> Z.of_nat (refs s hs') = n ->
  (forall s', s' <> s -> refs s' hs' = refs s' hs) -> (forall h, h ∈ hs' -> h ∈ hs) -> (n <= MAX_REFERENCES + 1)%Z ->
  roots_ok (set_slot P s (MkSlot n (WValue v))) e ts hs'.
Proof.
  intros HR Hin Hn Hother Hsub Hmax. destruct (ro_handles _ _ _ _ HR) as [HC HV]. destruct (HV _ _ Hin) as (x & Hx & Hw).
  assert (Hpos : references x <> 0%Z) by (rewrite (HC _ _ Hx); apply refs_pos in Hin; lia).
  split.
  - apply set_slot_wf; [apply HR|]. intros h _. by exists x.
  - split.
    + intros s' y. rewrite (set_slot_at _ _ _ x) by done. case_decide; [subst; by intros [= <-]|]. rewrite Hother by done. apply HC.
    + intros s' w Hin'. rewrite (set_slot_at _ _ _ x) by done. case_decide as Hd; [|by apply HV, Hsub].
      subst. destruct (HV _ _ (Hsub _ Hin')) as (y & Hy & Hw'). eexists. split; [done|]. cbn. congruence.
  - intros s'. destruct (decide (s' = s)) as [->|Hne]; [by rewrite Hn|]. rewrite Hother by done. apply HR.
  - intros t T Ht He. pose proof (ro_lists _ _ _ _ HR t T Ht He) as H. unfold holds_list in *. destruct (root_lease T) as [c|]; [|done].
    destruct H as (Hl & k & l & Hk & Hc). split; [done|].
    destruct (set_slot_chain P s (MkSlot n (WValue v)) c k (root_free T) l Hk Hc) as (k' & Hk' & Hc'); [|by exists k', l].
    intros -> Hi. destruct (chain_free _ _ _ _ _ Hc Hi) as (y & Hy & Hr). destruct s as [c i].
    assert (slot_at P (c, i) = Some y) by (apply slot_at_Some; eauto). congruence.
  - apply HR.
  - apply HR.
Qed.

(** Changing a thread's record without its list. *)
Lemma rethread P e ts hs t T : roots_ok P e ts hs -> (captured_epoch T = e -> holds_list P T) ->
  (forall t' T' c, t' <> t -> ts !! t' = Some T' -> captured_epoch T' = e -> captured_epoch T = e ->
     root_lease T' = Some c -> root_lease T = Some c -> False) ->
  captured_epoch T <= e /\ (active T = true -> captured_epoch T = e) -> roots_ok P e (<[t := T]> ts) hs.
Proof.
  intros HR HL HA HE. split; [apply HR|apply HR|apply HR| | |].
  - intros t' T' Ht'. destruct (decide (t' = t)) as [->|Hne]; rewrite ?lookup_insert_eq, ?lookup_insert_ne in Ht' by done; simplify_eq; [done|by eapply (ro_lists _ _ _ _ HR)].
  - intros t1 t2 T1 T2 c H1 H2 E1 E2 L1 L2. destruct (decide (t1 = t)) as [->|N1].
    + rewrite lookup_insert_eq in H1. injection H1 as <-. destruct (decide (t2 = t)) as [->|N2]; [done|].
      rewrite lookup_insert_ne in H2 by done. exfalso. by eapply (HA t2 T2 c).
    + rewrite lookup_insert_ne in H1 by done. destruct (decide (t2 = t)) as [->|N2].
      * rewrite lookup_insert_eq in H2. injection H2 as <-. exfalso. by eapply (HA t1 T1 c).
      * rewrite lookup_insert_ne in H2 by done. by eapply (ro_apart _ _ _ _ HR).
  - intros t' T' Ht'. destruct (decide (t' = t)) as [->|Hne]; rewrite ?lookup_insert_eq, ?lookup_insert_ne in Ht' by done; simplify_eq; [done|by eapply (ro_epochs _ _ _ _ HR)].
Qed.

Lemma rebuild_free_lists_spec P : pool_wf P ->
  exists P', rebuild_free_lists P = Ok P' /\ pool_wf P' /\ (forall hs, handles_ok P hs -> handles_ok P' hs) /\ Forall (eq false) (leased P') /\
    (forall c, chunk_listed P' c).
Proof.
  intros [Wh Wl Wc Wf Wk Ws]. unfold rebuild_free_lists. set (P0 := MkPool _ _ _ _ _ _ _).
  assert (W0 : pool_wf P0).
  { split; cbn; rewrite ?length_fmap; try done.
    intros c h Hh. destruct (Wk c h Hh) as (Hl & H). split; [|done]. by rewrite list_lookup_fmap, Hl. }
  destruct (rebuild_unleased_spec P0 W0) as (P' & -> & W' & K' & L' & Hn' & Hall). exists P'. split_and!; [done|done| | |].
  - intros hs HO. eapply kept_handles; [|exact K']. exact HO.
  - rewrite L'. cbn. apply list.Forall_forall. intros b Hb. apply list_elem_of_fmap in Hb. naive_solver.
  - intros c k i x Hk. apply (Hall c); [|done]. cbn. rewrite list_lookup_fmap. apply lookup_lt_Some in Hk. cbn in Hn'.
    destruct (lookup_lt_is_Some_2 (leased P) c) as [b ->]; [lia|done].
Qed.

Lemma collected P e ts hs : roots_ok P e ts hs -> (forall t T, ts !! t = Some T -> active T = false) ->
  exists P', rebuild_free_lists P = Ok P' /\ roots_ok P' (e + 1) ts hs /\ Forall (eq false) (leased P') /\ (forall c, chunk_listed P' c).
Proof.
  intros HR Hts. destruct (rebuild_free_lists_spec P (ro_pool _ _ _ _ HR)) as (P' & -> & W' & HK & HL & Hall). exists P'. split_and!; [done| |done..].
  split; [done|by apply HK, HR|apply HR| | |].
  - intros t T Ht He. destruct (ro_epochs _ _ _ _ HR t T Ht). lia.
  - intros t t' T T' c Ht Ht' He. destruct (ro_epochs _ _ _ _ HR t T Ht). lia.
  - intros t T Ht. destruct (ro_epochs _ _ _ _ HR t T Ht). rewrite (Hts t T Ht). split; [lia|done].
Qed.

(** ** Visiting the roots *)
Definition slots_of (c : nat) (ss : list RootSlot) : list (SlotRef * RootSlot) := imap (fun i x => ((c, i), x)) ss.
Definition slots_in (cs : list RootChunk) : list (SlotRef * RootSlot) := concat (imap (fun c k => slots_of c (slots k)) cs).

Lemma slots_of_fst c ss : (slots_of c ss).*1 = (fun i => (c, i)) <$> seq 0 (length ss).
Proof.
  induction ss as [|x ss IH] using rev_ind; [done|]. unfold slots_of in *.
  rewrite imap_app, fmap_app, IH, length_app. cbn [length]. rewrite seq_app, fmap_app. cbn. by rewrite Nat.add_0_r.
Qed.

Lemma slots_in_snoc cs k : slots_in (cs ++ [k]) = slots_in cs ++ slots_of (length cs) (slots k).
Proof. unfold slots_in. rewrite imap_app, concat_app. cbn. by rewrite Nat.add_0_r, app_nil_r. Qed.

Lemma elem_of_slots_of c ss s x : (s, x) ∈ slots_of c ss <-> exists i, s = (c, i) /\ ss !! i = Some x.
Proof.
  unfold slots_of. rewrite elem_of_lookup_imap. split; [intros (i & y & [= -> ->] & H); eauto|intros (i & -> & H)]. by exists i, x.
Qed.

Lemma elem_of_slots_in cs s x : (s, x) ∈ slots_in cs <-> exists k, cs !! s.1 = Some k /\ slots k !! s.2 = Some x.
Proof.
  induction cs as [|k cs IH] using rev_ind.
  { split; [intros H; by apply elem_of_nil in H|intros (k & H & _); by rewrite lookup_nil in H]. }
  rewrite slots_in_snoc, elem_of_app, IH, elem_of_slots_of. split.
  - intros [(k' & Hk & Hx)|(i & -> & Hx)].
    + exists k'. split; [by apply lookup_app_l_Some|done].
    + exists k. split; [by apply list_lookup_middle|done].
  - intros (k' & Hk & Hx). apply lookup_app_Some in Hk as [Hk|[Hl Hk]]; [left; eauto|right].
    apply list_lookup_singleton_Some in Hk as [Hl2 ->]. exists s.2. split; [|done]. destruct s as [c i]. cbn in *. f_equal. lia.
Qed.

Lemma slots_in_nodup cs : NoDup (slots_in cs).*1.
Proof.
  induction cs as [|k cs IH] using rev_ind; [constructor|]. rewrite slots_in_snoc, fmap_app. apply NoDup_app. split_and!; [done| |].
  - intros s Hs Hs2. apply list_elem_of_fmap in Hs as ([s1 x] & -> & Hs). apply elem_of_slots_in in Hs as (k1 & Hk1 & _).
    rewrite slots_of_fst in Hs2. apply list_elem_of_fmap in Hs2 as (i & Hi & _). cbn in *. subst. apply lookup_lt_Some in Hk1. cbn in *. lia.
  - rewrite slots_of_fst. apply NoDup_fmap_2; [|apply NoDup_seq]. by intros ?? [= ->].
Qed.

Lemma all_slots_in P : all_slots P = slots_in (chunks P).
Proof. done. Qed.

(** The value roots found in the order of the visit. *)
Definition found_roots (P : RootPool) : list (SlotRef * Z) :=
  omap (fun e => if (references e.2 =? 0)%Z then None else match word e.2 with WValue v => Some (e.1, v) | _ => None end) (all_slots P).

Lemma visit_ok P hs : handles_ok P hs ->
  NoDup (found_roots P).*1 /\ (forall h, h ∈ found_roots P <-> h ∈ hs) /\
  visit_live P = Ok (found_roots P).*2 /\ live_count P = length (found_roots P).
Proof.
  intros [HC HV]. unfold found_roots, visit_live, live_count. rewrite all_slots_in.
  assert (HS : forall s x, (s, x) ∈ slots_in (chunks P) -> slot_at P s = Some x).
  { intros [c i] x H. apply elem_of_slots_in in H. by apply slot_at_Some. }
  assert (HW : forall s x, (s, x) ∈ slots_in (chunks P) -> references x <> 0%Z -> exists v, word x = WValue v /\ (s, v) ∈ hs).
  { intros s x Hin Hr. apply HS in Hin. pose proof (HC _ _ Hin) as Hn.
    destruct (filter (fun h => h.1 = s) hs) as [|[s' v] ?] eqn:E; [unfold refs in Hn; rewrite E in Hn; cbn in Hn; lia|].
    assert (Hf : (s', v) ∈ filter (fun h => h.1 = s) hs) by (rewrite E; left). apply list_elem_of_filter in Hf as [<- Hf].
    exists v. split; [|done]. destruct (HV _ _ Hf) as (y & Hy & Hw). cbn in Hin. congruence. }
  split_and!.
  - assert (Hsub : forall l : list (SlotRef * RootSlot), (omap (fun e => if (references e.2 =? 0)%Z then None else
        match word e.2 with WValue v => Some (e.1, v) | _ => None end) l).*1 `sublist_of` l.*1).
    { induction l as [|[s x] l IH]; [constructor|]. cbn. destruct (references x =? 0)%Z; [by apply sublist_cons|].
      destruct (word x); [by apply sublist_cons..|]. cbn. by apply sublist_skip. }
    eapply sublist_NoDup; [apply slots_in_nodup|apply Hsub].
  - intros [s v]. rewrite list_elem_of_omap. split.
    + intros ([s' x] & Hin & H). cbn in H. destruct (Z.eqb_spec (references x) 0) as [|Hr]; [done|].
      destruct (HW _ _ Hin Hr) as (w & Hw & Hh). rewrite Hw in H. by simplify_eq.
    + intros Hin. destruct (HV _ _ Hin) as (x & Hx & Hw). exists (s, x). split.
      * apply elem_of_slots_in. destruct s as [c i]. by apply slot_at_Some in Hx.
      * cbn. rewrite Hw. destruct (Z.eqb_spec (references x) 0) as [H0|]; [|done].
        pose proof (HC _ _ Hx). apply refs_pos in Hin. lia.
  - apply mapM_Forall2. revert HS HW. generalize (slots_in (chunks P)) as l. induction l as [|[s x] l IH]; intros HS HW; [done|].
    rewrite filter_cons. cbn [fst snd omap list_omap]. destruct (Z.eqb_spec (references x) 0) as [H0|H0].
    + rewrite decide_False by auto. apply IH; intros; [apply HS; by right|eapply HW; [by right|done]].
    + rewrite decide_True by done. destruct (HW s x) as (v & Hw & _); [left|done|]. rewrite Hw. cbn [fmap list_fmap fst snd]. constructor.
      * unfold value. cbn [fst]. rewrite (HS s x) by left. cbn. by rewrite Hw.
      * apply IH; intros; [apply HS; by right|eapply HW; [by right|done]].
  - revert HW. generalize (slots_in (chunks P)) as l. induction l as [|[s x] l IH]; intros HW; [done|].
    rewrite filter_cons. cbn [fst snd omap list_omap]. destruct (Z.eqb_spec (references x) 0) as [H0|H0].
    + rewrite decide_False by auto. apply IH; intros; eapply HW; [by right|done].
    + rewrite decide_True by done. destruct (HW s x) as (v & Hw & _); [left|done|]. rewrite Hw. cbn. f_equal. apply IH; intros; eapply HW; [by right|done].
Qed.

(** ** Every request is served *)
Definition handles_after (R : Roots) (q : request) (hs : list (SlotRef * Z)) : Prop :=
  match q with
  | Register t v => exists s, refs s (handles R) = 0 /\ hs = (s, v) :: handles R
  | Clone h => exists e, handles R !! h = Some e /\ hs = e :: handles R
  | Drop h => hs = delete h (handles R)
  | _ => hs = handles R
  end.

Lemma register_spec heap P e ts hs t T v : roots_ok P e ts hs -> ts !! t = Some T -> active T = true ->
  exists P' T' s, register_proven_root P T heap v = Ok (P', T', s) /\ refs s hs = 0 /\ roots_ok P' e (<[t := T']> ts) ((s, v) :: hs).
Proof.
  intros HR Ht Ha. destruct (ro_epochs _ _ _ _ HR t T Ht) as [_ He]. specialize (He Ha).
  unfold register_proven_root, take_root_slot. destruct (root_free T) as [s|] eqn:Hs.
  - destruct (occupied P e ts hs t T s v HR Ht He Hs) as (next & -> & HO & H0 & HR').
    cbn [mbind outcome_bind]. rewrite HO. cbn. by eauto 10.
  - destruct (refill P e ts hs t T heap HR Ht He Hs) as (P1 & s & c & HT & HR1).
    cbn [mbind outcome_bind]. rewrite HT. cbn [mbind outcome_bind]. unfold install_root_free_list. rewrite Ha, Hs. cbn [rust_assert mbind outcome_bind root_free].
    destruct (occupied P1 e _ hs t _ s v HR1 (lookup_insert_eq _ _ _) He eq_refl) as (next & -> & HO & H0 & HR').
    cbn [mbind outcome_bind]. rewrite HO. cbn. rewrite Ha in HR'. rewrite insert_insert_eq in HR'. by eauto 10.
Qed.

Lemma serve_ok heap R q : roots_inv R -> allowed R q ->
  exists R', serve heap R q = Ok R' /\ roots_inv R' /\ handles_after R q (handles R').
Proof.
  destruct R as [P e ts hs]. intros HR. unfold roots_inv in *. cbn in HR. destruct q as [t|t|t|t v|h|h|]; cbn -[rebuild_free_lists].
  - intros Ha. eexists. split; [done|]. split; [|done]. cbn. unfold activate.
    assert (HN : roots_ok P e (<[t := MkThread true e None None]> ts) hs).
    { apply rethread; [done|by intros|by intros|by split]. }
    destruct (ts !! t) as [T|] eqn:Ht; cbn; case_decide as He; try done.
    eapply rethread; [done|intros _; by apply (ro_lists _ _ _ _ HR t T)| |cbn; split; [by apply (ro_epochs _ _ _ _ HR t T)|done]].
    cbn. intros t' T' c Hne Ht' He' _ HL HL'. apply Hne. by eapply (ro_apart _ _ _ _ HR).
  - intros (T & Ht & Ha). rewrite Ht. cbn. eexists. split; [done|]. split; [|done].
    destruct (ro_epochs _ _ _ _ HR t T Ht) as [Hle He]. apply rethread; [done| | |done].
    + intros E. by apply (ro_lists _ _ _ _ HR t T).
    + cbn. intros t' T' c Hne Ht' He' E HL HL'. apply Hne. by eapply (ro_apart _ _ _ _ HR).
  - intros _. eexists. split; [done|]. split; [|done]. cbn. split; [apply HR|apply HR|apply HR| | |].
    + intros t' T' H. apply lookup_delete_Some in H as [_ H]. by eapply (ro_lists _ _ _ _ HR).
    + intros t1 t2 T1 T2 c H1 H2. apply lookup_delete_Some in H1 as [_ H1]. apply lookup_delete_Some in H2 as [_ H2]. by eapply (ro_apart _ _ _ _ HR).
    + intros t' T' H. apply lookup_delete_Some in H as [_ H]. by eapply (ro_epochs _ _ _ _ HR).
  - intros (T & Ht & Ha). rewrite Ht. cbn [expect mbind outcome_bind].
    destruct (register_spec heap P e ts hs t T v HR Ht Ha) as (P' & T' & s & -> & H0 & HR'). cbn. eexists. split; [done|]. split; [done|]. by exists s.
  - intros ([s v] & He & Hroom). cbn in Hroom. unfold vec_get. rewrite He. cbn [expect mbind outcome_bind].
    pose proof (list_elem_of_lookup_2 _ _ _ He) as Hin. destruct (proj2 (ro_handles _ _ _ _ HR) _ _ Hin) as (x & Hx & Hw).
    pose proof (proj1 (ro_handles _ _ _ _ HR) _ _ Hx) as Hc. pose proof (refs_pos _ _ _ Hin) as Hp.
    unfold retain. cbn [fst]. rewrite Hx. cbn [expect mbind outcome_bind]. destruct (Z.ltb_spec MAX_REFERENCES (references x)); [lia|].
    eexists. split; [done|]. cbn. split; [|by exists (s, v)].
    rewrite Hw. assert (Hwr : wrap64 (references x + 1) = (references x + 1)%Z) by (apply wrap64_small; unfold MAX_REFERENCES, isize_max in *; lia).
    rewrite Hwr. apply (recount P e ts hs _ s v); [done|done| | | |lia].
    + rewrite refs_cons, decide_True by done. lia.
    + intros s' Hne. rewrite refs_cons, decide_False by auto. done.
    + intros h' [-> |]%elem_of_cons; done.
  - intros Hh. destruct (lookup_lt_is_Some_2 hs h Hh) as [[s v] He]. unfold vec_get. rewrite He. cbn [expect mbind outcome_bind].
    pose proof (list_elem_of_lookup_2 _ _ _ He) as Hin. destruct (proj2 (ro_handles _ _ _ _ HR) _ _ Hin) as (x & Hx & Hw).
    pose proof (proj1 (ro_handles _ _ _ _ HR) _ _ Hx) as Hc. pose proof (ro_bound _ _ _ _ HR s) as Hb. pose proof (refs_pos _ _ _ Hin) as Hp.
    unfold release. cbn [fst]. rewrite Hx. cbn [expect mbind outcome_bind]. eexists. split; [done|]. cbn. split; [|done].
    rewrite Hw. assert (Hwr : wrap64 (references x - 1) = (references x - 1)%Z) by (apply wrap64_small; unfold MAX_REFERENCES, isize_max in *; lia).
    rewrite Hwr. apply (recount P e ts hs _ s v); [done|done| | | |lia].
    + rewrite (refs_delete s h _ _ He), decide_True in Hc by done. lia.
    + intros s' Hne. rewrite (refs_delete s' h _ hs He). by rewrite decide_False by auto.
    + intros h' Hin'. rewrite (delete_Permutation hs h _ He). by right.
  - intros Ha. destruct (collected P e ts hs HR Ha) as (P' & -> & HR' & _). cbn. by eauto.
Qed.

(** ** Reachable states *)
Inductive reaches (heap : HeapId) : Roots -> Prop :=
  | reach_new : reaches heap Roots_new
  | reach_step R q R' : reaches heap R -> allowed R q -> serve heap R q = Ok R' -> reaches heap R'.

Lemma new_inv : roots_inv Roots_new.
Proof.
  split; cbn.
  - split; [done..| | |]; intros c; cbn.
    + intros k H. by apply lookup_lt_Some, Nat.nlt_0_r in H.
    + intros h H. by apply lookup_lt_Some, Nat.nlt_0_r in H.
    + intros H. by apply elem_of_nil in H.
  - split; [intros [c i] x H; apply slot_at_Some in H as (k & Hk & _); by apply lookup_lt_Some, Nat.nlt_0_r in Hk|intros s v H; by apply elem_of_nil in H].
  - done.
  - intros t T H. by rewrite lookup_empty in H.
  - intros t t' T T' c H. by rewrite lookup_empty in H.
  - intros t T H. by rewrite lookup_empty in H.
Qed.

Lemma reaches_inv heap R : reaches heap R -> roots_inv R.
Proof.
  induction 1 as [|R q R' _ IH Ha Hs]; [apply new_inv|]. destruct (serve_ok heap R q IH Ha) as (R2 & H2 & HI & _). congruence.
Qed.

(** ** Where the slots are *)

(** Slot [s] is on the list that thread [t] took from the pool since the last
    collection. *)
Definition held (R : Roots) (t : nat) (s : SlotRef) : Prop :=
  exists T k l, threads R !! t = Some T /\ captured_epoch T = epoch R /\ root_lease T = Some s.1 /\
    chunks (pool R) !! s.1 = Some k /\ chain_in s.1 (slots k) (root_free T) l /\ s.2 ∈ l.

Lemma held_on_list R t s : roots_inv R -> held R t s -> leased (pool R) !! s.1 = Some true.
Proof.
  intros HR (T & k & l & Ht & He & HL & _). pose proof (ro_lists _ _ _ _ HR t T Ht He) as HT. unfold holds_list in HT.
  rewrite HL in HT. apply HT.
Qed.

Lemma on_chain_unreferenced R s k o l : roots_inv R -> chunks (pool R) !! s.1 = Some k -> chain_in s.1 (slots k) o l -> s.2 ∈ l ->
  refs s (handles R) = 0.
Proof.
  intros HR Hk Hc Hin. destruct (chain_free _ _ _ _ _ Hc Hin) as (x & Hx & Hr).
  assert (Hs : slot_at (pool R) s = Some x) by (destruct s as [c i]; apply slot_at_Some; by exists k).
  pose proof (proj1 (ro_handles _ _ _ _ HR) _ _ Hs). lia.
Qed.

(** The slots that are offered or held have no handle; no slot is on two lists. *)
Lemma lists_exclusive R : roots_inv R ->
  (forall s, listed (pool R) s -> refs s (handles R) = 0) /\
  (forall t s, held R t s -> refs s (handles R) = 0 /\ ~ listed (pool R) s /\ forall t', held R t' s -> t' = t).
Proof.
  intros HR. split.
  - intros s (k & h & l & _ & _ & Hk & Hc & Hin). exact (on_chain_unreferenced R s k _ l HR Hk Hc Hin).
  - intros t s Hheld. pose proof (held_on_list R t s HR Hheld) as Hlease. destruct Hheld as (T & k & l & Ht & He & HL & Hk & Hc & Hin).
    split; [exact (on_chain_unreferenced R s k _ l HR Hk Hc Hin)|]. split.
    + intros (k' & h & l' & _ & Hh & _). destruct (pw_listed _ (ro_pool _ _ _ _ HR) _ _ Hh) as [Hf _]. congruence.
    + intros t' (T' & k' & l' & Ht' & He' & HL' & _). exact (ro_apart _ _ _ _ HR t' t T' T _ Ht' Ht He' He HL' HL).
Qed.

(** A collection offers every slot without a handle. *)
Lemma collect_lists_all heap R R' : roots_inv R -> allowed R Collect -> serve heap R Collect = Ok R' ->
  forall s x, slot_at (pool R') s = Some x -> refs s (handles R') = 0 -> listed (pool R') s.
Proof.
  destruct R as [P e ts hs]. unfold roots_inv. cbn -[rebuild_free_lists]. intros HR Ha.
  destruct (collected P e ts hs HR Ha) as (P' & -> & HR' & _ & Hall). cbn. intros [= <-] [c i] x Hx Hz. cbn in *.
  pose proof (proj1 (ro_handles _ _ _ _ HR') _ _ Hx) as Hr. apply slot_at_Some in Hx as (k & Hk & Hx). apply (Hall c k i x Hk Hx). lia.
Qed.

(** C26. The root pool is safe under any interleaving of threads and handles. Its
    invariant holds, so a slot's count is the number of its handles. Every allowed
    request is served without a panic, keeps the invariant and has its effect on the
    handles (a registered root gets a slot nobody references), and every handle reads
    back the value it was registered with. No slot is handed out twice: a slot that
    the pool offers, or that a thread holds to hand out, has no handle and is on no
    other list. No slot is lost: a collection offers every slot without a handle. *)
Theorem root_pool_safe heap R : reaches heap R ->
  roots_inv R /\
  (forall q, allowed R q -> exists R', serve heap R q = Ok R' /\ roots_inv R' /\ handles_after R q (handles R') /\
     (q = Collect -> forall s x, slot_at (pool R') s = Some x -> refs s (handles R') = 0 -> listed (pool R') s)) /\
  (forall s v, (s, v) ∈ handles R -> value (pool R) s = Ok v) /\
  (forall s, listed (pool R) s -> refs s (handles R) = 0) /\
  (forall t s, held R t s -> refs s (handles R) = 0 /\ ~ listed (pool R) s /\ forall t', held R t' s -> t' = t).
Proof.
  intros H%reaches_inv. split; [done|]. split; [|split; [|by apply lists_exclusive]].
  - intros q Ha. destruct (serve_ok heap R q H Ha) as (R' & Hs & HR' & Hh). exists R'. split; [done|]. split; [done|]. split; [done|].
    intros ->. exact (collect_lists_all heap R R' H Ha Hs).
  - intros s v Hin. destruct (proj2 (ro_handles _ _ _ _ H) _ _ Hin) as (x & Hx & Hw). unfold value. rewrite Hx. cbn. by rewrite Hw.
Qed.

(** What the collector is told of the roots is exact in any reachable
    state: visiting the pool yields the value of each slot some handle is on,
    once, whatever lists threads hold. *)
Theorem roots_visited_exactly heap R : reaches heap R ->
  exists roots, NoDup roots.*1 /\ (forall h, h ∈ roots <-> h ∈ handles R) /\
    visit_live (pool R) = Ok roots.*2 /\ live_count (pool R) = length roots.
Proof. intros H%reaches_inv. eexists. apply visit_ok. apply H. Qed.

(** ** A concrete run *)
Module RootSample.

(** Thread 1 roots two values and clones the second; thread 2 roots one on its
    own chunk; the first is dropped; a collection rebuilds the lists; thread 1
    comes back and takes the slot that was dropped. *)
Definition requests : list request :=
  [Enter 1; Register 1 100; Register 1 200; Clone 0; Enter 2; Register 2 300; Drop 3; Leave 1; Leave 2; Collect;
   Enter 1; Register 1 400].

Definition run (qs : list request) : M Roots := foldM (serve 7%Z) Roots_new qs.

Definition after (qs : list request) : Roots := match run qs with Ok R => R | _ => Roots_new end.

Example handles_run : handles (after requests) = [((0, 0), 400%Z); ((1, 0), 300%Z); ((0, 1), 200%Z); ((0, 1), 200%Z)].
Proof. vm_compute. reflexivity. Qed.

Definition allowed_b (R : Roots) (q : request) : bool :=
  match q with
  | Enter t => match threads R !! t with Some T => negb (active T) | None => true end
  | Leave t | Register t _ => match threads R !! t with Some T => active T | None => false end
  | Forget t => match threads R !! t with Some T => negb (active T) | None => false end
  | Clone h => match handles R !! h with Some e => (Z.of_nat (refs e.1 (handles R)) <=? MAX_REFERENCES)%Z | None => false end
  | Drop h => h <? length (handles R)
  | Collect => forallb (fun e => negb (active e.2)) (map_to_list (threads R))
  end.

Lemma allowed_b_spec R q : allowed_b R q = true -> allowed R q.
Proof.
  destruct q; cbn.
  1-4: destruct (threads R !! t) as [T|]; intros H; [|done]; try (intros T' [= <-]); try (exists T; split; [done|]); by destruct (active T).
  - destruct (handles R !! h) as [e|]; [|done]. intros H%Z.leb_le. by exists e.
  - apply Nat.ltb_lt.
  - intros H t T HT. rewrite forallb_forall in H. specialize (H (t, T)). cbn in H.
    rewrite <- list_elem_of_In in H. rewrite elem_of_map_to_list in H. specialize (H HT). by destruct (active T).
Qed.

Fixpoint run_b (R : Roots) (qs : list request) : option Roots :=
  match qs with
  | [] => Some R
  | q :: qs => if allowed_b R q then match serve 7%Z R q with Ok R' => run_b R' qs | _ => None end else None
  end.

Lemma run_b_reaches qs R R' : reaches 7%Z R -> run_b R qs = Some R' -> reaches 7%Z R'.
Proof.
  revert R. induction qs as [|q qs IH]; cbn; intros R HR; [by intros [= <-]|].
  destruct (allowed_b R q) eqn:Ha; [|done]. destruct (serve 7%Z R q) as [R1| | |] eqn:Hs; [|done..].
  apply IH. eapply reach_step; [done|by apply allowed_b_spec|done].
Qed.

Definition state : Roots := default Roots_new (run_b Roots_new requests).

Lemma state_reaches : reaches 7%Z state.
Proof.
  apply (run_b_reaches requests Roots_new); [constructor|]. unfold state. destruct (run_b Roots_new requests) eqn:E; [done|].
  exfalso. revert E. vm_compute. discriminate.
Qed.
End RootSample.

Lemma root_pool_safe_witness :
  reaches 7%Z RootSample.state /\ value (pool RootSample.state) (0, 0) = Ok 400%Z /\
  exists R', serve 7%Z RootSample.state (Register 1 500%Z) = Ok R'.
Proof.
  destruct (root_pool_safe 7%Z RootSample.state RootSample.state_reaches) as (_ & H1 & H2 & _).
  split; [exact RootSample.state_reaches|]. split.
  - apply H2. apply list_elem_of_In. vm_compute. left. reflexivity.
  - destruct (H1 (Register 1 500%Z)) as (R' & H & _); [apply RootSample.allowed_b_spec; vm_compute; reflexivity|].
    exists R'. exact H.
Defined.

Lemma roots_visited_witness :
  visit_live (pool RootSample.state) = Ok [400%Z; 200%Z; 300%Z] /\
  exists roots : list (SlotRef * Z), NoDup roots.*1 /\ visit_live (pool RootSample.state) = Ok roots.*2.
Proof.
  split; [vm_compute; reflexivity|].
  destruct (roots_visited_exactly 7%Z RootSample.state RootSample.state_reaches) as (roots & H1 & _ & H2 & _).
  exists roots. split; assumption.
Defined.
