(* ===== verification/Bitmaps.v ===== *)
(** * Bitmaps of 64-bit words

    Allocation, lease and mark bitmaps are vectors of 64-bit words; slot [i] is
    bit [i mod 64] of word [i / 64]. The definitions translate the bit
    operations of [crates/glam-gc/src/arena.rs]; the lemmas read them bit by bit. *)
From stdpp Require Import base option list numbers.
From Stdlib Require Import ZArith Lia.
From S2P Require Import Prelude RunGeometry.
Local Open Scope Z_scope.

(** A 64-bit word. *)
Definition is_word (w : Z) : Prop := 0 <= w < 2 ^ 64.

(** [1_u64 << b] *)
Definition bit (b : Z) : Z := Z.shiftl 1 b.

Definition valid_slot_mask (count : Z) (word_index : nat) : Z :=
  let first := Z.of_nat word_index * 64 in
  let remaining := Z.max 0 (count - first) in
  if 64 <=? remaining then u64_max
  else if remaining =? 0 then 0
  else bit remaining - 1.

(** The word and the bit of a slot; a slot outside the bitmap panics. *)
Definition bitmap_bit {E} (bm : BitmapGeometry) (i : Z) : outcome E (nat * Z) :=
  _ ← rust_assert (i <? bit_len bm);
  Ok (Z.to_nat (i / 64), bit (i mod 64)).

(** [u64::trailing_zeros] and [u64::count_ones]. *)
Fixpoint trailing_zeros_from (fuel : nat) (b w : Z) : Z :=
  match fuel with
  | O => 64
  | S fuel => if Z.testbit w b then b else trailing_zeros_from fuel (b + 1) w
  end.
Definition trailing_zeros (w : Z) : Z := trailing_zeros_from 64 0 w.

Definition bits64 : list Z := seqZ 0 64.

Definition count_ones (w : Z) : nat := length (filter (fun b => Z.testbit w b = true) bits64).

(** Reading and writing a word of a bitmap of the given geometry. *)
Definition read_word {E} (bm : BitmapGeometry) (ws : list Z) (i : nat) : outcome E Z :=
  _ ← rust_assert (Z.of_nat i <? word_len bm);
  vec_get ws i.

Definition write_word {E} (bm : BitmapGeometry) (ws : list Z) (i : nat) (w : Z) : outcome E (list Z) :=
  _ ← rust_assert (Z.of_nat i <? word_len bm);
  vec_set ws i w.

(** ** Reading bits *)
Lemma is_word_bits w b : is_word w -> 64 <= b -> Z.testbit w b = false.
Proof.
  intros [H0 H1] Hb. destruct (Z.eq_dec w 0) as [->|]; [apply Z.testbit_0_l|].
  apply Z.bits_above_log2; [lia|]. apply Z.log2_lt_pow2; [lia|]. eapply Z.lt_le_trans; [done|]. apply Z.pow_le_mono_r; lia.
Qed.

Lemma word_of_bits w : 0 <= w -> (forall b, 64 <= b -> Z.testbit w b = false) -> is_word w.
Proof.
  intros H0 HB. split; [done|]. destruct (Z.eq_dec w 0) as [->|Hne]; [done|].
  apply Z.log2_lt_pow2; [lia|]. destruct (Z.lt_ge_cases (Z.log2 w) 64) as [|Hge]; [done|].
  pose proof (HB _ Hge) as H. rewrite Z.bit_log2 in H by lia. done.
Qed.

Lemma bit_spec b n : 0 <= b -> 0 <= n -> Z.testbit (bit b) n = (n =? b).
Proof.
  intros Hb Hn. unfold bit. rewrite Z.shiftl_spec by done. destruct (Z.eqb_spec n b) as [->|Hne].
  - by rewrite Z.sub_diag.
  - destruct (Z.lt_ge_cases n b); [by rewrite Z.testbit_neg_r by lia|].
    replace 1 with (2 ^ 0) by done. by rewrite Z.pow2_bits_false by lia.
Qed.

Lemma bit_word b : 0 <= b < 64 -> is_word (bit b).
Proof.
  intros H. unfold is_word, bit. rewrite Z.shiftl_mul_pow2 by lia. split; [pose proof (Z.pow_pos_nonneg 2 b); lia|].
  rewrite Z.mul_1_l. apply Z.pow_lt_mono_r; lia.
Qed.

Lemma u64_max_bits n : 0 <= n < 64 -> Z.testbit u64_max n = true.
Proof. intros H. change u64_max with (Z.ones 64). apply Z.ones_spec_low. lia. Qed.

Lemma not64_spec w n : is_word w -> 0 <= n < 64 -> Z.testbit (not64 w) n = negb (Z.testbit w n).
Proof.
  intros Hw Hn. unfold not64. rewrite Z.sub_nocarry_ldiff.
  - by rewrite Z.ldiff_spec, u64_max_bits.
  - apply Z.bits_inj'. intros m Hm. rewrite Z.ldiff_spec, Z.bits_0. destruct (Z.lt_ge_cases m 64).
    + rewrite u64_max_bits by lia. by rewrite andb_false_r.
    + by rewrite is_word_bits.
Qed.

Lemma not64_word w : is_word w -> is_word (not64 w).
Proof. unfold is_word, not64, u64_max. lia. Qed.

Lemma land_word a b : is_word a -> is_word b -> is_word (Z.land a b).
Proof.
  intros Ha Hb. apply word_of_bits; [apply Z.land_nonneg; destruct Ha; lia|].
  intros n Hn. by rewrite Z.land_spec, is_word_bits.
Qed.

Lemma lor_word a b : is_word a -> is_word b -> is_word (Z.lor a b).
Proof.
  intros Ha Hb. apply word_of_bits; [apply Z.lor_nonneg; destruct Ha, Hb; lia|].
  intros n Hn. by rewrite Z.lor_spec, !is_word_bits.
Qed.

Lemma valid_slot_mask_word count i : is_word (valid_slot_mask count i).
Proof.
  unfold valid_slot_mask. destruct (Z.leb_spec 64 (Z.max 0 (count - Z.of_nat i * 64))); [done|].
  destruct (Z.eqb_spec (Z.max 0 (count - Z.of_nat i * 64)) 0); [done|].
  pose proof (bit_word (Z.max 0 (count - Z.of_nat i * 64)) ltac:(lia)) as [? ?].
  unfold is_word. assert (0 < bit (Z.max 0 (count - Z.of_nat i * 64))); [|lia].
  unfold bit. rewrite Z.shiftl_mul_pow2 by lia. pose proof (Z.pow_pos_nonneg 2 (Z.max 0 (count - Z.of_nat i * 64))). lia.
Qed.

(** Bit [b] of word [i] is a slot's exactly when the slot exists. *)
Lemma valid_slot_mask_spec count i b : 0 <= b < 64 ->
  Z.testbit (valid_slot_mask count i) b = (Z.of_nat i * 64 + b <? count).
Proof.
  intros Hb. unfold valid_slot_mask. set (r := Z.max 0 (count - Z.of_nat i * 64)).
  destruct (Z.leb_spec 64 r); [rewrite u64_max_bits by done; symmetry; apply Z.ltb_lt; lia|].
  destruct (Z.eqb_spec r 0) as [|Hr]; [rewrite Z.bits_0; symmetry; apply Z.ltb_ge; lia|].
  replace (bit r - 1) with (Z.ones r).
  - destruct (Z.ltb_spec (Z.of_nat i * 64 + b) count).
    + apply Z.ones_spec_low. lia.
    + apply Z.ones_spec_high. lia.
  - rewrite Z.ones_equiv. unfold bit. rewrite Z.shiftl_mul_pow2 by lia. lia.
Qed.

(** Testing a bit the way the code does. *)
Lemma land_bit w b : 0 <= b -> (negb (Z.land w (bit b) =? 0)) = Z.testbit w b.
Proof.
  intros Hb. destruct (Z.testbit w b) eqn:E.
  - apply negb_true_iff, Z.eqb_neq. intros H. apply (f_equal (fun z => Z.testbit z b)) in H.
    rewrite Z.land_spec, bit_spec, Z.eqb_refl, E, Z.bits_0 in H by lia. done.
  - apply negb_false_iff, Z.eqb_eq. apply Z.bits_inj'. intros n Hn. rewrite Z.land_spec, bit_spec, Z.bits_0 by lia.
    destruct (Z.eqb_spec n b) as [->|]; [by rewrite E|by rewrite andb_false_r].
Qed.

Lemma word_ext a b : is_word a -> is_word b -> (forall n, 0 <= n < 64 -> Z.testbit a n = Z.testbit b n) -> a = b.
Proof.
  intros Ha Hb H. apply Z.bits_inj'. intros n Hn. destruct (Z.lt_ge_cases n 64); [apply H; lia|]. by rewrite !is_word_bits.
Qed.

Lemma word_zero w : is_word w -> w = 0 <-> forall n, 0 <= n < 64 -> Z.testbit w n = false.
Proof.
  intros Hw. split; [intros -> n _; apply Z.bits_0|]. intros H. apply word_ext; [done|done|]. intros n Hn. by rewrite H, Z.bits_0.
Qed.

Lemma elem_of_bits64 b : b ∈ bits64 <-> 0 <= b < 64.
Proof. unfold bits64. rewrite elem_of_seqZ. lia. Qed.

Lemma count_ones_zero w : is_word w -> count_ones w = 0%nat <-> w = 0.
Proof.
  intros Hw. rewrite (word_zero w Hw). unfold count_ones. rewrite length_zero_iff_nil. split.
  - intros H n Hn. destruct (Z.testbit w n) eqn:E; [|done]. exfalso.
    assert (Hin : n ∈ filter (fun b => Z.testbit w b = true) bits64) by (apply list_elem_of_filter; by rewrite elem_of_bits64).
    rewrite H in Hin. by apply elem_of_nil in Hin.
  - intros H. destruct (filter _ _) as [|b l] eqn:E; [done|].
    assert (Hin : b ∈ filter (fun b => Z.testbit w b = true) bits64) by (rewrite E; left).
    apply list_elem_of_filter in Hin as [Hb Hin]. rewrite elem_of_bits64 in Hin. rewrite H in Hb by done. done.
Qed.

Lemma trailing_zeros_from_spec fuel b w : (exists n, b <= n < b + Z.of_nat fuel /\ Z.testbit w n = true) ->
  let t := trailing_zeros_from fuel b w in
  b <= t < b + Z.of_nat fuel /\ Z.testbit w t = true /\ forall m, b <= m < t -> Z.testbit w m = false.
Proof.
  revert b. induction fuel as [|fuel IH]; intros b (n & Hn & Hw); [lia|]. cbn [trailing_zeros_from].
  destruct (Z.testbit w b) eqn:E; [split_and!; [lia|lia|done|intros; lia]|].
  destruct (IH (b + 1)) as (H1 & H2 & H3).
  { exists n. split; [|done]. destruct (Z.eq_dec n b); [congruence|lia]. }
  split_and!; [lia|lia|done|]. intros m Hm. destruct (Z.eq_dec m b); [congruence|apply H3; lia].
Qed.

Lemma trailing_zeros_spec w : is_word w -> w <> 0 ->
  0 <= trailing_zeros w < 64 /\ Z.testbit w (trailing_zeros w) = true /\
  forall m, 0 <= m < trailing_zeros w -> Z.testbit w m = false.
Proof.
  intros Hw Hne. apply (trailing_zeros_from_spec 64 0 w). exists (Z.log2 w).
  destruct Hw as [H0 H1]. pose proof (Z.log2_nonneg w). split; [|apply Z.bit_log2; lia].
  split; [lia|]. apply Z.log2_lt_pow2; lia.
Qed.
