(* ===== verification/Arena.v ===== *)
(** * The arena of the collected heap ([crates/glam-gc/src/arena.rs])

    The arena owns aligned chunks of 8 MiB, each cut into runs of 64 KiB. A run
    starts with a header; an initialized run is typed by an allocation class and
    has three bitmaps: the slots that are allocated, the allocation words leased
    to threads, and the slots the collector marked.

    A run's memory is a record of its header and its three bitmaps: [RunGeometry]
    proves that they are disjoint and apart from the slots. Addresses are
    integers. A word outside a bitmap's vector would be outside the run and
    panics. Payloads are not part of the arena: what a payload refers to is a
    parameter of the marking phase. *)
From stdpp Require Import base option list numbers gmap countable.
From Stdlib Require Import ZArith Lia.
From S2P Require Import Prelude RunGeometry Bitmaps.

(** ** Data *)
Definition ARENA_CHUNK_SIZE : Z := 8 * 1024 * 1024.
Definition RUNS_PER_CHUNK : nat := Z.to_nat (ARENA_CHUNK_SIZE / RUN_SIZE).

Record RunLocation := MkLocation { loc_chunk : nat; loc_run : nat }.

#[export] Instance RunLocation_eq_dec : EqDecision RunLocation.
Proof. solve_decision. Defined.
#[export] Instance RunLocation_countable : Countable RunLocation.
Proof. apply (inj_countable' (fun l => (loc_chunk l, loc_run l)) (fun p => MkLocation p.1 p.2)). by intros []. Defined.
#[export] Instance AllocationClassId_eq_dec : EqDecision AllocationClassId.
Proof. solve_decision. Defined.
#[export] Instance RunGeometry_eq_dec : EqDecision RunGeometry.
Proof. solve_decision. Defined.

(** The memory of one run. *)
Record Run := MkRun { header : RunHeader; allocation : list Z; leases : list Z; marks : list Z }.

Record ArenaChunk := MkArenaChunk { chunk_base : Z; runs : list Run }.

Record Arena := MkArena { arena_chunks : list ArenaChunk; chunk_indices : gmap Z nat }.

Definition Arena_default : Arena := MkArena [] ∅.

Record RunOwner := MkOwner {
  owner_location : RunLocation;
  owner_run : Z;
  owner_class : AllocationClassId;
  owner_geometry : RunGeometry;
  owner_slot : Z;
}.

Record RunClaimTarget := MkTarget { target_location : RunLocation; target_run : Z; target_geometry : RunGeometry }.

#[export] Instance RunClaimTarget_eq_dec : EqDecision RunClaimTarget.
Proof. solve_decision. Defined.

#[export] Instance RunOwner_eq_dec : EqDecision RunOwner.
Proof. solve_decision. Defined.

Inductive RunInitializationError :=
  | MissingChunk
  | MissingRun
  | InvalidHeader
  | InvalidGeometry
  | AlreadyInitialized.

Inductive ArenaError := AllocationFailed | AddressOverlap.

Inductive RunPublicationError :=
  | PublicationArena (e : ArenaError)
  | PublicationInitialization (e : RunInitializationError).

(** [let x = m?;] in code that returns an option and may panic. *)
Notation "x ←? m ; k" := (m ≫= fun o => match o with Some x => k | None => Ok None end)
  (at level 20, m at level 100, k at level 200, only parsing) : stdpp_scope.

(** ** Addresses *)
Definition AddressRange : Type := Z * Z.

Definition AddressRange_new (start : Z) : option AddressRange :=
  if negb (is_multiple_of start ARENA_CHUNK_SIZE) then None
  else (fun e => (start, e)) <$> checked_add start ARENA_CHUNK_SIZE.

Definition contains (r : AddressRange) (a : Z) : bool := (r.1 <=? a)%Z && (a <? r.2)%Z.

Definition run_base (r : AddressRange) (a : Z) : option Z :=
  if negb (contains r a) then None else Some (Z.land a (not64 (RUN_SIZE - 1))).

Section arena.
Context {E : Type}.

Definition chunk_range (c : ArenaChunk) : outcome E AddressRange := expect (AddressRange_new (chunk_base c)).

Definition run_address (c : ArenaChunk) (run : nat) : option Z :=
  if decide (RUNS_PER_CHUNK <= run) then None else Some (chunk_base c + Z.of_nat run * RUN_SIZE)%Z.

Definition run_containing (c : ArenaChunk) (a : Z) : outcome E (option Z) :=
  range ← chunk_range c;
  Ok ((fun b => chunk_base c + (b - range.1))%Z <$> run_base range a).

(** The memory at the start of run address [run] of a chunk. *)
Definition run_at (c : ArenaChunk) (run : Z) : option Run :=
  runs c !! Z.to_nat ((run - chunk_base c) / RUN_SIZE).

Definition header_for (c : ArenaChunk) (run : Z) : outcome E (option RunHeader) :=
  range ← chunk_range c;
  if negb (contains range run) || negb (is_multiple_of run RUN_SIZE) then Ok None
  else r ← expect (run_at c run); Ok (Some (header r)).

Definition chunk_containing (A : Arena) (a : Z) : outcome E (option (nat * ArenaChunk)) :=
  let b := Z.land a (not64 (ARENA_CHUNK_SIZE - 1)) in
  index ←? Ok (chunk_indices A !! b);
  chunk ←? Ok (arena_chunks A !! index);
  range ← chunk_range chunk;
  Ok (if contains range a then Some (index, chunk) else None).

Definition checked_slot_owner (A : Arena) (a : Z) : outcome E (option RunOwner) :=
  found ←? chunk_containing A a;
  let '(chunk_index, chunk) := found : nat * ArenaChunk in
  run ←? run_containing chunk a;
  h ←? header_for chunk run;
  class_id ←? Ok (header_class_id h);
  geometry ←? Ok (header_geometry h);
  slot ←? Ok (slot_index geometry (a - run)%Z);
  range ← chunk_range chunk;
  Ok (Some (MkOwner (MkLocation chunk_index (Z.to_nat ((run - range.1) / RUN_SIZE)%Z)) run class_id geometry slot)).

(** ** The memory of a run *)
Definition put_run (A : Arena) (l : RunLocation) (r : Run) : Arena :=
  MkArena (alter (fun c => MkArenaChunk (chunk_base c) (<[loc_run l := r]> (runs c))) (loc_chunk l) (arena_chunks A)) (chunk_indices A).

(** The chunk and the memory of a run location; the address is checked. *)
Definition resolve_run (A : Arena) (l : RunLocation) (run : Z) : outcome E (ArenaChunk * Run) :=
  chunk ← expect (arena_chunks A !! loc_chunk l);
  address ← expect (run_address chunk (loc_run l));
  _ ← rust_assert (address =? run)%Z;
  r ← expect (runs chunk !! loc_run l);
  Ok (chunk, r).

Definition resolved_owner_run (A : Arena) (o : RunOwner) : outcome E (ArenaChunk * Run) :=
  resolve_run A (owner_location o) (owner_run o).

(** The two assertions on a run's header. *)
Definition header_matches (c : ArenaChunk) (run : Z) (class_id : AllocationClassId) (g : RunGeometry) : outcome E unit :=
  h ← header_for c run;
  _ ← rust_assert (bool_decide (h ≫= header_class_id = Some class_id));
  rust_assert (bool_decide (h ≫= header_geometry = Some g)).

Definition resolved_claim_target (A : Arena) (t : RunClaimTarget) (class_id : AllocationClassId) : outcome E Run :=
  cr ← resolve_run A (target_location t) (target_run t);
  _ ← header_matches cr.1 (target_run t) class_id (target_geometry t);
  Ok cr.2.

Definition validate_run_target (A : Arena) (t : RunClaimTarget) (class_id : AllocationClassId) : outcome E unit :=
  cr ← resolve_run A (target_location t) (target_run t);
  h ← header_for cr.1 (target_run t);
  _ ← expect h;
  header_matches cr.1 (target_run t) class_id (target_geometry t).

Definition run_claim_target (A : Arena) (l : RunLocation) : outcome E (option RunClaimTarget) :=
  chunk ←? Ok (arena_chunks A !! loc_chunk l);
  run ←? Ok (run_address chunk (loc_run l));
  h ←? header_for chunk run;
  geometry ←? Ok (header_geometry h);
  Ok (Some (MkTarget l run geometry)).

(** ** Slots *)
Definition free_mask_for_word (r : Run) (g : RunGeometry) (i : nat) : outcome E Z :=
  w ← read_word (allocation_bitmap g) (allocation r) i;
  Ok (Z.land (not64 w) (valid_slot_mask (slot_count g) i)).

Definition slot_is_allocated (r : Run) (g : RunGeometry) (slot : Z) : outcome E bool :=
  w ← read_word (allocation_bitmap g) (allocation r) (Z.to_nat (slot / 64));
  Ok (negb (Z.land w (bit (slot mod 64)) =? 0)%Z).

Definition slot_is_marked (r : Run) (g : RunGeometry) (slot : Z) : outcome E bool :=
  wb ← bitmap_bit (mark_bitmap g) slot;
  w ← read_word (mark_bitmap g) (marks r) wb.1;
  Ok (negb (Z.land w wb.2 =? 0)%Z).

Definition mark_slot (r : Run) (g : RunGeometry) (slot : Z) : outcome E (Run * bool) :=
  wb ← bitmap_bit (mark_bitmap g) slot;
  prior ← read_word (mark_bitmap g) (marks r) wb.1;
  if negb (Z.land prior wb.2 =? 0)%Z then Ok (r, false)
  else ws ← write_word (mark_bitmap g) (marks r) wb.1 (Z.lor prior wb.2);
       Ok (MkRun (header r) (allocation r) (leases r) ws, true).

Definition owner_slot_is_allocated (A : Arena) (o : RunOwner) : outcome E bool :=
  cr ← resolved_owner_run A o;
  slot_is_allocated cr.2 (owner_geometry o) (owner_slot o).

Definition owner_slot_is_marked (A : Arena) (o : RunOwner) : outcome E bool :=
  cr ← resolved_owner_run A o;
  slot_is_marked cr.2 (owner_geometry o) (owner_slot o).

Definition mark_owner_slot (A : Arena) (o : RunOwner) : outcome E (Arena * bool) :=
  cr ← resolved_owner_run A o;
  rb ← mark_slot cr.2 (owner_geometry o) (owner_slot o);
  Ok (put_run A (owner_location o) rb.1, rb.2).

Definition owner_slot_pointer (A : Arena) (o : RunOwner) : outcome E Z :=
  cr ← resolved_owner_run A o;
  _ ← header_matches cr.1 (owner_run o) (owner_class o) (owner_geometry o);
  off ← expect (slot_offset (owner_geometry o) (owner_slot o));
  Ok (owner_run o + off)%Z.

Definition clear_owner_allocation (A : Arena) (o : RunOwner) : outcome E (Arena * bool) :=
  cr ← resolved_owner_run A o;
  _ ← header_matches cr.1 (owner_run o) (owner_class o) (owner_geometry o);
  wb ← bitmap_bit (allocation_bitmap (owner_geometry o)) (owner_slot o);
  w ← read_word (allocation_bitmap (owner_geometry o)) (allocation cr.2) wb.1;
  ws ← write_word (allocation_bitmap (owner_geometry o)) (allocation cr.2) wb.1 (Z.land w (not64 wb.2));
  Ok (put_run A (owner_location o) (MkRun (header cr.2) ws (leases cr.2) (marks cr.2)), negb (Z.land w wb.2 =? 0)%Z).

Definition release_finalized_allocation_word (A : Arena) (t : RunClaimTarget) (class_id : AllocationClassId) (i : nat) : outcome E Arena :=
  r ← resolved_claim_target A t class_id;
  _ ← rust_assert (Z.of_nat i <? word_len (allocation_bitmap (target_geometry t)))%Z;
  free ← free_mask_for_word r (target_geometry t) i;
  _ ← rust_assert (negb (free =? 0)%Z);
  wb ← bitmap_bit (lease_bitmap (target_geometry t)) (Z.of_nat i);
  previous ← read_word (lease_bitmap (target_geometry t)) (leases r) wb.1;
  ws ← write_word (lease_bitmap (target_geometry t)) (leases r) wb.1 (Z.land previous (not64 wb.2));
  _ ← rust_assert (negb (Z.land previous wb.2 =? 0)%Z);
  Ok (put_run A (target_location t) (MkRun (header r) (allocation r) ws (marks r))).

(** ** Marks and sweeping *)
Definition clear_mark_bitmap (r : Run) (g : RunGeometry) : Run :=
  MkRun (header r) (allocation r) (leases r)
    (imap (fun i w => if (Z.of_nat i <? word_len (mark_bitmap g))%Z then 0%Z else w) (marks r)).

(** One run of [ArenaChunk::clear_assigned_mark_bitmaps]. *)
Definition clear_run_marks (r : Run) : Run :=
  match header_geometry (header r) with Some g => clear_mark_bitmap r g | None => r end.

Definition clear_assigned_mark_bitmaps (A : Arena) : Arena :=
  MkArena ((fun c => MkArenaChunk (chunk_base c) (clear_run_marks <$> runs c)) <$> arena_chunks A) (chunk_indices A).

(** The words a visitor sees: index, allocation word, mark word. *)
Definition visited_word (r : Run) (g : RunGeometry) (i : nat) : outcome E (nat * Z * Z) :=
  allocated ← read_word (allocation_bitmap g) (allocation r) i;
  marked ← read_word (mark_bitmap g) (marks r) i;
  let valid := valid_slot_mask (slot_count g) i in
  Ok (i, Z.land allocated valid, Z.land marked valid).

Definition word_indices (b : BitmapGeometry) : list nat := seq 0 (Z.to_nat (word_len b)).

Definition visit_allocation_mark_words (A : Arena) (t : RunClaimTarget) (class_id : AllocationClassId) : outcome E (list (nat * Z * Z)) :=
  r ← resolved_claim_target A t class_id;
  mapM (visited_word r (target_geometry t)) (word_indices (allocation_bitmap (target_geometry t))).

(** One word of [retain_marked_allocations]. *)
Definition retain_word (g : RunGeometry) (r : Run) (i : nat) : outcome E Run :=
  v ← visited_word r g i;
  ws ← write_word (allocation_bitmap g) (allocation r) i (Z.land v.1.2 v.2);
  Ok (MkRun (header r) ws (leases r) (marks r)).

Definition retain_marked_allocations (A : Arena) (t : RunClaimTarget) (class_id : AllocationClassId) : outcome E Arena :=
  r ← resolved_claim_target A t class_id;
  r ← foldM (retain_word (target_geometry t)) r (word_indices (allocation_bitmap (target_geometry t)));
  Ok (put_run A (target_location t) r).

(** The bits of lease word [j]: its unavailable mask, and whether some word is
    available. *)
Definition lease_bit (reserved : nat -> bool) (r : Run) (g : RunGeometry) (j : nat) (st : Z * bool) (b : Z) : outcome E (Z * bool) :=
  if (Z.land (valid_slot_mask (bit_len (lease_bitmap g)) j) (bit b) =? 0)%Z then Ok st else
  let i := j * 64 + Z.to_nat b in
  unavailable ← (if reserved i then Ok true else free ← free_mask_for_word r g i; Ok (free =? 0)%Z);
  Ok (if unavailable : bool then (Z.lor st.1 (bit b), st.2) else (st.1, true)).

Definition lease_word (reserved : nat -> bool) (g : RunGeometry) (st : Run * bool) (j : nat) : outcome E (Run * bool) :=
  ub ← foldM (lease_bit reserved st.1 g j) (0%Z, st.2) bits64;
  ws ← write_word (lease_bitmap g) (leases st.1) j ub.1;
  Ok (MkRun (header st.1) (allocation st.1) ws (marks st.1), ub.2).

Definition publish_allocation_word_leases (A : Arena) (t : RunClaimTarget) (class_id : AllocationClassId) (reserved : nat -> bool)
    : outcome E (Arena * bool) :=
  r ← resolved_claim_target A t class_id;
  rb ← foldM (lease_word reserved (target_geometry t)) (r, false) (word_indices (lease_bitmap (target_geometry t)));
  Ok (put_run A (target_location t) rb.1, rb.2).

(** ** Typing runs *)

(** [fill_side_metadata] with zero. *)
Definition zero_side_metadata (h : RunHeader) (g : RunGeometry) : Run :=
  let words b := replicate (Z.to_nat (word_len b)) 0%Z in
  MkRun h (words (allocation_bitmap g)) (words (lease_bitmap g)) (words (mark_bitmap g)).

Definition reset_recyclable_run (A : Arena) (t : RunClaimTarget) (class_id : AllocationClassId) : outcome E Arena :=
  _ ← validate_run_target A t class_id;
  Ok (put_run A (target_location t) (zero_side_metadata RunGeometry.empty (target_geometry t))).
End arena.

(** [ArenaChunk::initialize_run] *)
Definition initialize_run_in (c : ArenaChunk) (run : nat) (class_id : AllocationClassId) (g : RunGeometry)
    : outcome RunInitializationError ArenaChunk :=
  _ ← ok_or (run_address c run) MissingRun;
  if negb (is_structurally_valid g) then Err InvalidGeometry else
  r ← expect (runs c !! run);
  if negb (header_is_valid (header r)) then Err InvalidHeader else
  if negb (header_is_empty (header r)) then Err AlreadyInitialized else
  h ← initialized class_id g;
  Ok (MkArenaChunk (chunk_base c) (<[run := zero_side_metadata h g]> (runs c))).

Definition initialize_run (A : Arena) (chunk run : nat) (class_id : AllocationClassId) (g : RunGeometry)
    : outcome RunInitializationError Arena :=
  c ← ok_or (arena_chunks A !! chunk) MissingChunk;
  c ← initialize_run_in c run class_id g;
  Ok (MkArena (<[chunk := c]> (arena_chunks A)) (chunk_indices A)).

(** [ArenaChunk::allocate]: the address the allocator returned, if any. *)
Definition allocate_chunk (allocated : option Z) : outcome ArenaError ArenaChunk :=
  b ← ok_or allocated AllocationFailed;
  Ok (MkArenaChunk b (replicate RUNS_PER_CHUNK (MkRun RunGeometry.empty [] [] []))).

Definition publish_chunk (A : Arena) (candidate : ArenaChunk) : outcome ArenaError (Arena * nat) :=
  range ← chunk_range candidate;
  match chunk_indices A !! range.1 with
  | Some _ => Err AddressOverlap
  | None =>
      let index := length (arena_chunks A) in
      Ok (MkArena (arena_chunks A ++ [candidate]) (<[range.1 := index]> (chunk_indices A)), index)
  end.

Definition first_empty_run (c : ArenaChunk) : option nat :=
  fst <$> list_find (fun r => header_is_empty (header r) = true) (runs c).

(** The loop of [Arena::publish_run] over the chunks it has. *)
Fixpoint publish_in_chunks (cs : list ArenaChunk) (index : nat) (class_id : AllocationClassId) (g : RunGeometry)
    : outcome RunPublicationError (option (list ArenaChunk * RunLocation)) :=
  match cs with
  | [] => Ok None
  | c :: cs =>
      match first_empty_run c with
      | Some run =>
          c ← map_err PublicationInitialization (initialize_run_in c run class_id g);
          Ok (Some (c :: cs, MkLocation index run))
      | None =>
          r ← publish_in_chunks cs (S index) class_id g;
          Ok (match r with Some (cs, l) => Some (c :: cs, l) | None => None end)
      end
  end.

Definition publish_run (A : Arena) (class_id : AllocationClassId) (g : RunGeometry) (allocated : option Z)
    : outcome RunPublicationError (Arena * RunLocation) :=
  if negb (is_structurally_valid g) then Err (PublicationInitialization InvalidGeometry) else
  found ← publish_in_chunks (arena_chunks A) 0 class_id g;
  match found with
  | Some (cs, l) => Ok (MkArena cs (chunk_indices A), l)
  | None =>
      candidate ← map_err PublicationArena (allocate_chunk allocated);
      candidate ← map_err PublicationInitialization (initialize_run_in candidate 0 class_id g);
      r ← map_err PublicationArena (publish_chunk A candidate);
      Ok (r.1, MkLocation r.2 0)
  end.
