(* ===== verification/ArenaFacts.v ===== *)
(** * Facts about the arena

    [arena_wf]: chunks are aligned, indexed by their base, and every run has
    either an empty header or a valid one with bitmaps of the right size. Under
    it an address resolves to at most one slot, and the operations on a slot read
    and write exactly its bits. *)
From stdpp Require Import base option list numbers gmap.
From Stdlib Require Import ZArith Lia.
From S2P Require Import Prelude RunGeometry Bitmaps Arena.
Local Open Scope Z_scope.

(** ** Well-formedness *)

(** The fields of a header are unsigned. *)
Definition geometry_wf (g : RunGeometry) : Prop :=
  is_structurally_valid g = true /\ 0 <= slot_stride g /\ 0 <= slot_count g /\ 0 <= first_slot_offset g.

Definition words_ok (b : BitmapGeometry) (ws : list Z) : Prop :=
  Z.of_nat (length ws) = word_len b /\ Forall is_word ws.

Definition bitmaps_ok (g : RunGeometry) (r : Run) : Prop :=
  words_ok (allocation_bitmap g) (allocation r) /\ words_ok (lease_bitmap g) (leases r) /\ words_ok (mark_bitmap g) (marks r).

Definition run_wf (r : Run) : Prop :=
  header_is_valid (header r) = true /\
  match header_geometry (header r) with
  | None => header_class_id (header r) = None
  | Some g => geometry_wf g /\ bitmaps_ok g r
  end.

Definition run_of (A : Arena) (l : RunLocation) : option Run := arena_chunks A !! loc_chunk l ≫= fun c => runs c !! loc_run l.

Definition address_of (A : Arena) (l : RunLocation) : option Z := arena_chunks A !! loc_chunk l ≫= fun c => run_address c (loc_run l).

Definition chunk_wf (c : ArenaChunk) : Prop :=
  0 < chunk_base c /\ (ARENA_CHUNK_SIZE | chunk_base c) /\ chunk_base c + ARENA_CHUNK_SIZE <= usize_max /\
  length (runs c) = RUNS_PER_CHUNK.

Record arena_wf (A : Arena) : Prop := {
  aw_chunk : forall i c, arena_chunks A !! i = Some c -> chunk_wf c /\ chunk_indices A !! chunk_base c = Some i;
  aw_index : forall b i, chunk_indices A !! b = Some i -> exists c, arena_chunks A !! i = Some c /\ chunk_base c = b;
  aw_run : forall l r, run_of A l = Some r -> run_wf r;
}.

(** The run at [l] is typed by a class and a geometry. *)
Definition typed (A : Arena) (l : RunLocation) (cls : AllocationClassId) (g : RunGeometry) (r : Run) : Prop :=
  run_of A l = Some r /\ header_class_id (header r) = Some cls /\ header_geometry (header r) = Some g.

Definition owner_ok (A : Arena) (o : RunOwner) : Prop :=
  (exists r, typed A (owner_location o) (owner_class o) (owner_geometry o) r) /\
  address_of A (owner_location o) = Some (owner_run o) /\ 0 <= owner_slot o < slot_count (owner_geometry o).

Definition owner_address (o : RunOwner) : Z :=
  owner_run o + (first_slot_offset (owner_geometry o) + owner_slot o * slot_stride (owner_geometry o)).

Definition target_ok (A : Arena) (t : RunClaimTarget) (cls : AllocationClassId) : Prop :=
  (exists r, typed A (target_location t) cls (target_geometry t) r) /\ address_of A (target_location t) = Some (target_run t).

(** The bit of a slot in a bitmap. *)
Definition slot_bit (ws : list Z) (i : Z) : bool :=
  match ws !! Z.to_nat (i / 64) with Some w => Z.testbit w (i mod 64) | None => false end.

(** ** Geometry *)
Lemma geometry_facts g : geometry_wf g ->
  0 < slot_stride g /\ 0 < slot_count g /\ 0 <= first_slot_offset g /\
  first_slot_offset g + slot_count g * slot_stride g <= RUN_SIZE /\
  bit_len (allocation_bitmap g) = slot_count g /\ word_len (allocation_bitmap g) = bitmap_words (slot_count g) /\
  bit_len (lease_bitmap g) = bitmap_words (slot_count g) /\ word_len (lease_bitmap g) = bitmap_words (bitmap_words (slot_count g)) /\
  bit_len (mark_bitmap g) = slot_count g /\ word_len (mark_bitmap g) = bitmap_words (slot_count g).
Proof.
  intros (Hv & H1 & H2 & H3). unfold is_structurally_valid in Hv.
  destruct (Z.eqb_spec (slot_stride g) 0); [done|]. destruct (Z.eqb_spec (slot_count g) 0); [done|]. cbn [orb] in Hv.
  repeat case_match; try done; simplify_option_eq. rewrite checked_mul_Some, checked_add_Some in *.
  repeat match goal with H : negb (bool_decide _) = false |- _ => apply negb_false_iff, bool_decide_eq_true in H; rewrite H end.
  repeat match goal with H : _ = Build_BitmapGeometry _ _ _ |- _ => rewrite H end. cbn. split_and!; lia.
Qed.

Lemma bitmap_index n i : 0 <= i < n -> Z.of_nat (Z.to_nat (i / 64)) < bitmap_words n /\ 0 <= i mod 64 < 64.
Proof.
  intros H. pose proof (bitmap_words_bounds n). assert (0 <= i / 64 < bitmap_words n).
  { split; [apply Z.div_pos; lia|]. apply Z.div_lt_upper_bound; lia. }
  split; [lia|]. apply Z.mod_pos_bound. lia.
Qed.

Lemma index_split i : 0 <= i -> Z.of_nat (Z.to_nat (i / 64)) * 64 + i mod 64 = i.
Proof. intros H. pose proof (Z.div_mod i 64 ltac:(lia)). pose proof (Z.div_pos i 64 H ltac:(lia)). lia. Qed.

Lemma index_join w b : 0 <= b < 64 -> (Z.of_nat w * 64 + b) / 64 = Z.of_nat w /\ (Z.of_nat w * 64 + b) mod 64 = b.
Proof.
  intros Hb. rewrite Z.add_comm. split; [rewrite Z.div_add by lia; rewrite Z.div_small; lia|].
  rewrite Z.mod_add by lia. by apply Z.mod_small.
Qed.

(** ** Words of bitmaps *)
Section words.
Context {E : Type}.

Lemma read_word_ok b ws i : words_ok b ws -> Z.of_nat i < word_len b ->
  exists w, ws !! i = Some w /\ is_word w /\ read_word (E:=E) b ws i = Ok w.
Proof.
  intros [HL HF] Hi. destruct (lookup_lt_is_Some_2 ws i) as [w Hw]; [lia|]. exists w.
  split_and!; [done|by eapply Forall_lookup_1|]. unfold read_word, rust_assert. rewrite (proj2 (Z.ltb_lt _ _)) by done.
  cbn. unfold vec_get. by rewrite Hw.
Qed.

Lemma write_word_ok b ws i w : words_ok b ws -> Z.of_nat i < word_len b -> is_word w ->
  write_word (E:=E) b ws i w = Ok (<[i := w]> ws) /\ words_ok b (<[i := w]> ws).
Proof.
  intros [HL HF] Hi Hw. unfold write_word, rust_assert. rewrite (proj2 (Z.ltb_lt _ _)) by done. cbn.
  rewrite vec_set_lt by lia. split; [done|]. split; [by rewrite length_insert|by apply Forall_insert].
Qed.

Lemma bitmap_bit_ok b i : i < bit_len b -> bitmap_bit (E:=E) b i = Ok (Z.to_nat (i / 64), bit (i mod 64)).
Proof. intros H. unfold bitmap_bit, rust_assert. by rewrite (proj2 (Z.ltb_lt _ _)). Qed.
End words.

(** Setting or clearing one bit of a bitmap. *)
Lemma slot_bit_insert ws i j f : 0 <= i -> 0 <= j -> (Z.to_nat (i / 64) < length ws)%nat ->
  (forall w b, ws !! Z.to_nat (i / 64) = Some w -> 0 <= b < 64 -> Z.testbit (f w) b = if b =? i mod 64 then Z.testbit (f w) b else Z.testbit w b) ->
  slot_bit (alter f (Z.to_nat (i / 64)) ws) j =
    if j =? i then match ws !! Z.to_nat (i / 64) with Some w => Z.testbit (f w) (i mod 64) | None => false end else slot_bit ws j.
Proof.
  intros Hi Hj Hl Hf. unfold slot_bit. destruct (decide (Z.to_nat (j / 64) = Z.to_nat (i / 64))) as [Hw|Hw].
  - rewrite Hw, list_lookup_alter_eq. destruct (ws !! _) as [w|] eqn:Ew; cbn; [|by destruct (j =? i)].
    destruct (Z.eqb_spec j i) as [->|Hne]; [done|]. rewrite Hf; [|done|apply Z.mod_pos_bound; lia].
    destruct (Z.eqb_spec (j mod 64) (i mod 64)) as [Hm|]; [|done]. exfalso. apply Hne.
    rewrite <- (index_split j), <- (index_split i) by done. by rewrite Hw, Hm.
  - rewrite list_lookup_alter_ne by done. destruct (Z.eqb_spec j i) as [->|]; done.
Qed.

Lemma alter_at {A} (f : A -> A) (l : list A) i x : l !! i = Some x -> alter f i l = <[i := f x]> l.
Proof.
  intros H. apply list_eq. intros k. destruct (decide (k = i)) as [->|].
  - rewrite list_lookup_alter_eq, list_lookup_insert_eq, H by (by eapply lookup_lt_Some). done.
  - by rewrite list_lookup_alter_ne, list_lookup_insert_ne.
Qed.

Lemma set_bit_slots ws i j w : 0 <= i -> 0 <= j -> ws !! Z.to_nat (i / 64) = Some w -> is_word w ->
  slot_bit (<[Z.to_nat (i / 64) := Z.lor w (bit (i mod 64))]> ws) j = (j =? i) || slot_bit ws j.
Proof.
  intros Hi Hj Hw Hword. assert (Hm : 0 <= i mod 64 < 64) by (apply Z.mod_pos_bound; lia).
  pose proof (slot_bit_insert ws i j (fun w => Z.lor w (bit (i mod 64))) Hi Hj ltac:(by eapply lookup_lt_Some)) as H.
  rewrite Hw, (alter_at _ _ _ _ Hw) in H.
  rewrite H.
  - rewrite Z.lor_spec, bit_spec, Z.eqb_refl, orb_true_r by lia. by destruct (j =? i).
  - intros w' b [= <-] Hb. rewrite Z.lor_spec, bit_spec by lia. destruct (b =? i mod 64); [done|by rewrite orb_false_r].
Qed.

Lemma clear_bit_slots ws i j w : 0 <= i -> 0 <= j -> ws !! Z.to_nat (i / 64) = Some w -> is_word w ->
  slot_bit (<[Z.to_nat (i / 64) := Z.land w (not64 (bit (i mod 64)))]> ws) j = negb (j =? i) && slot_bit ws j.
Proof.
  intros Hi Hj Hw Hword. assert (Hm : 0 <= i mod 64 < 64) by (apply Z.mod_pos_bound; lia).
  pose proof (slot_bit_insert ws i j (fun w => Z.land w (not64 (bit (i mod 64)))) Hi Hj ltac:(by eapply lookup_lt_Some)) as H.
  rewrite Hw, (alter_at _ _ _ _ Hw) in H.
  pose proof (bit_word _ Hm) as Hbw. rewrite H.
  - rewrite Z.land_spec, not64_spec, bit_spec, Z.eqb_refl, andb_false_r by (done || lia). by destruct (j =? i).
  - intros w' b [= <-] Hb. rewrite Z.land_spec, not64_spec, bit_spec by (done || lia). destruct (b =? i mod 64); [done|by rewrite andb_true_r].
Qed.

(** ** Addresses *)
Lemma arena_chunk_pow : ARENA_CHUNK_SIZE = 2 ^ 23.
Proof. done. Qed.
Lemma run_size_pow : RUN_SIZE = 2 ^ 16.
Proof. done. Qed.
Lemma runs_per_chunk : Z.of_nat RUNS_PER_CHUNK * RUN_SIZE = ARENA_CHUNK_SIZE.
Proof. done. Qed.

Section resolve.
Context {E : Type} (A : Arena) (WA : arena_wf A).
Implicit Types (l : RunLocation) (r : Run) (o : RunOwner) (t : RunClaimTarget).

Lemma chunk_range_ok c : chunk_wf c -> chunk_range (E:=E) c = Ok (chunk_base c, chunk_base c + ARENA_CHUNK_SIZE).
Proof.
  intros (H0 & Hd & Hm & _). unfold chunk_range, AddressRange_new, is_multiple_of.
  destruct (Z.eqb_spec ARENA_CHUNK_SIZE 0) as [?|_]; [done|].
  assert (Hz : chunk_base c mod ARENA_CHUNK_SIZE = 0) by (by apply Z.mod_divide). rewrite Hz. cbn [Z.eqb negb]. by rewrite checked_add_fits.
Qed.

Lemma run_of_Some l r : run_of A l = Some r <-> exists c, arena_chunks A !! loc_chunk l = Some c /\ runs c !! loc_run l = Some r.
Proof. unfold run_of. rewrite bind_Some. done. Qed.

Lemma run_of_bound l r : run_of A l = Some r -> (loc_run l < RUNS_PER_CHUNK)%nat.
Proof.
  intros (c & Hc & Hr)%run_of_Some. destruct (aw_chunk _ WA _ _ Hc) as ((_ & _ & _ & HL) & _).
  rewrite <- HL. by eapply lookup_lt_Some.
Qed.

Lemma run_address_Some c n a : run_address c n = Some a <-> (n < RUNS_PER_CHUNK)%nat /\ a = chunk_base c + Z.of_nat n * RUN_SIZE.
Proof. unfold run_address. case_decide; [split; [done|lia]|]. split; [intros [= <-]; split; lia|intros [_ ->]; done]. Qed.

Lemma address_of_run l r : run_of A l = Some r ->
  exists c a, arena_chunks A !! loc_chunk l = Some c /\ runs c !! loc_run l = Some r /\
    address_of A l = Some a /\ a = chunk_base c + Z.of_nat (loc_run l) * RUN_SIZE.
Proof.
  intros H. pose proof (run_of_bound _ _ H). apply run_of_Some in H as (c & Hc & Hr). exists c. eexists. split_and!; [done|done| |done].
  unfold address_of. rewrite Hc. cbn. by apply run_address_Some.
Qed.

(** The run address is inside its chunk and aligned. *)
Lemma run_address_bounds c n : chunk_wf c -> (n < RUNS_PER_CHUNK)%nat ->
  contains (chunk_base c, chunk_base c + ARENA_CHUNK_SIZE) (chunk_base c + Z.of_nat n * RUN_SIZE) = true /\
  is_multiple_of (chunk_base c + Z.of_nat n * RUN_SIZE) RUN_SIZE = true /\
  Z.to_nat ((chunk_base c + Z.of_nat n * RUN_SIZE - chunk_base c) / RUN_SIZE) = n.
Proof.
  intros (H0 & [q Hq] & Hm & _) Hn. pose proof runs_per_chunk. unfold contains, is_multiple_of. cbn [fst snd].
  assert (0 < RUN_SIZE) by done. split_and!.
  - apply andb_true_iff. rewrite Z.leb_le, Z.ltb_lt. nia.
  - destruct (Z.eqb_spec RUN_SIZE 0) as [?|_]; [done|]. apply Z.eqb_eq, Z.mod_divide; [done|]. rewrite Hq.
    exists (q * 128 + Z.of_nat n). change ARENA_CHUNK_SIZE with (128 * RUN_SIZE). lia.
  - replace (chunk_base c + Z.of_nat n * RUN_SIZE - chunk_base c) with (Z.of_nat n * RUN_SIZE) by lia.
    rewrite Z.div_mul by done. lia.
Qed.

Lemma header_for_ok c n r : chunk_wf c -> runs c !! n = Some r ->
  header_for (E:=E) c (chunk_base c + Z.of_nat n * RUN_SIZE) = Ok (Some (header r)).
Proof.
  intros HW Hr. assert (Hn : (n < RUNS_PER_CHUNK)%nat).
  { destruct HW as (_ & _ & _ & <-). by eapply lookup_lt_Some. }
  destruct (run_address_bounds c n HW Hn) as (Hc & Hm & Hi).
  unfold header_for. rewrite (chunk_range_ok c HW). cbn [mbind outcome_bind]. rewrite Hc, Hm. cbn [negb orb].
  unfold run_at. by rewrite Hi, Hr.
Qed.

Lemma resolve_run_ok l r a : run_of A l = Some r -> address_of A l = Some a ->
  exists c, arena_chunks A !! loc_chunk l = Some c /\ resolve_run (E:=E) A l a = Ok (c, r) /\
    header_for (E:=E) c a = Ok (Some (header r)).
Proof.
  intros Hr Ha. destruct (address_of_run _ _ Hr) as (c & a' & Hc & Hrc & Ha' & ->). rewrite Ha' in Ha. injection Ha as <-.
  exists c. split; [done|]. split; [|apply header_for_ok; [by eapply (aw_chunk _ WA)|done]].
  unfold resolve_run. rewrite Hc. cbn [expect mbind outcome_bind].
  rewrite (proj2 (run_address_Some c _ _) (conj (run_of_bound _ _ Hr) eq_refl)). cbn [expect mbind outcome_bind].
  unfold rust_assert. rewrite Z.eqb_refl. cbn [mbind outcome_bind]. by rewrite Hrc.
Qed.

Lemma header_matches_ok l cls g r a c : typed A l cls g r -> header_for (E:=E) c a = Ok (Some (header r)) ->
  header_matches (E:=E) c a cls g = Ok ().
Proof.
  intros (_ & Hc & Hg) Hh. unfold header_matches. rewrite Hh. cbn [mbind outcome_bind option_bind]. rewrite Hc, Hg.
  by rewrite !bool_decide_true.
Qed.

Lemma resolved_owner_ok o : owner_ok A o ->
  exists c r, typed A (owner_location o) (owner_class o) (owner_geometry o) r /\ resolved_owner_run (E:=E) A o = Ok (c, r) /\
    header_matches (E:=E) c (owner_run o) (owner_class o) (owner_geometry o) = Ok ().
Proof.
  intros ((r & HT) & Ha & _). destruct (resolve_run_ok _ r _ (proj1 HT) Ha) as (c & _ & Hr & Hh).
  exists c, r. split; [done|]. split; [done|]. by eapply header_matches_ok.
Qed.

Lemma claim_target_ok t cls : target_ok A t cls ->
  exists r, typed A (target_location t) cls (target_geometry t) r /\ resolved_claim_target (E:=E) A t cls = Ok r.
Proof.
  intros ((r & HT) & Ha). destruct (resolve_run_ok _ r _ (proj1 HT) Ha) as (c & _ & Hr & Hh). exists r. split; [done|].
  unfold resolved_claim_target. rewrite Hr. cbn [mbind outcome_bind fst]. by rewrite (header_matches_ok _ _ _ _ _ _ HT Hh).
Qed.

Lemma validate_ok t cls : target_ok A t cls -> validate_run_target (E:=E) A t cls = Ok ().
Proof.
  intros ((r & HT) & Ha). destruct (resolve_run_ok _ r _ (proj1 HT) Ha) as (c & _ & Hr & Hh).
  unfold validate_run_target. rewrite Hr. cbn [mbind outcome_bind fst]. rewrite Hh. cbn [mbind outcome_bind expect].
  by rewrite (header_matches_ok _ _ _ _ _ _ HT Hh).
Qed.

Lemma typed_wf l cls g r : typed A l cls g r -> geometry_wf g /\ bitmaps_ok g r.
Proof. intros (Hr & Hc & Hg). destruct (aw_run _ WA _ _ Hr) as (_ & H). by rewrite Hg in H. Qed.

(** An owner's slot lies in its run. *)
Lemma owner_offset o : owner_ok A o -> slot_offset (owner_geometry o) (owner_slot o) = Some (owner_address o - owner_run o) /\
  0 <= owner_address o - owner_run o < RUN_SIZE /\ slot_index (owner_geometry o) (owner_address o - owner_run o) = Some (owner_slot o).
Proof.
  intros ((r & HT) & _ & Hs). destruct (typed_wf _ _ _ _ HT) as [HG _]. pose proof (geometry_facts _ HG) as (Hst & Hn & Hf & Hend & _).
  unfold owner_address. replace (owner_run o + _ - owner_run o) with (first_slot_offset (owner_geometry o) + owner_slot o * slot_stride (owner_geometry o)) by lia.
  assert (Hoff : slot_offset (owner_geometry o) (owner_slot o) = Some (first_slot_offset (owner_geometry o) + owner_slot o * slot_stride (owner_geometry o))).
  { unfold slot_offset. destruct (Z.leb_spec (slot_count (owner_geometry o)) (owner_slot o)); [lia|].
    unfold RUN_SIZE in Hend. rewrite checked_mul_fits by (unfold usize_max, u64_max; nia). cbn [mbind option_bind].
    rewrite checked_add_fits; [done|]. unfold usize_max, u64_max. nia. }
  split; [done|]. split; [nia|]. destruct HG as (Hv & ? & ? & ?). apply slot_index_offset; try done; lia.
Qed.

(** A slot's address resolves to it. *)
Lemma owner_lookup o : owner_ok A o -> checked_slot_owner (E:=E) A (owner_address o) = Ok (Some o) /\ 0 < owner_address o <= usize_max.
Proof.
  intros HO. pose proof (owner_offset _ HO) as (_ & Hoff & Hidx). destruct HO as ((r & HT) & Ha & Hs).
  pose proof HT as (Hr & Hc & Hg). destruct (address_of_run _ _ Hr) as (c & a & Hch & Hrc & Ha' & Hae). rewrite Ha in Ha'. injection Ha' as Ha'.
  subst a. destruct (aw_chunk _ WA _ _ Hch) as (HW & Hi). pose proof HW as (H0 & [q Hq] & Hm & HL).
  pose proof (run_of_bound _ _ Hr) as Hb. pose proof runs_per_chunk as Hrpc. assert (HRS : 0 < RUN_SIZE) by done.
  set (a := owner_address o) in *. assert (Hin : chunk_base c <= a < chunk_base c + ARENA_CHUNK_SIZE) by nia.
  split; [|lia]. unfold checked_slot_owner, chunk_containing.
  rewrite arena_chunk_pow, land_not64_pow2, <- arena_chunk_pow by (unfold usize_max in *; lia).
  assert (Hbase : a - a mod ARENA_CHUNK_SIZE = chunk_base c).
  { replace a with ((a - chunk_base c) + q * ARENA_CHUNK_SIZE) at 2 by lia. rewrite Z.mod_add, Z.mod_small by (done || lia). lia. }
  rewrite Hbase, Hi. cbn [mbind outcome_bind]. rewrite Hch. cbn [mbind outcome_bind]. rewrite ?(chunk_range_ok c HW). cbn [mbind outcome_bind].
  assert (Hcon : contains (chunk_base c, chunk_base c + ARENA_CHUNK_SIZE) a = true).
  { unfold contains. cbn [fst snd]. apply andb_true_iff. rewrite Z.leb_le, Z.ltb_lt. lia. }
  rewrite Hcon. cbn [mbind outcome_bind]. unfold run_containing. rewrite ?(chunk_range_ok c HW). cbn [mbind outcome_bind fst].
  unfold run_base. rewrite Hcon. cbn [negb fmap option_fmap option_map].
  rewrite run_size_pow, land_not64_pow2, <- run_size_pow by (unfold usize_max in *; lia).
  assert (Hrun : chunk_base c + (a - a mod RUN_SIZE - chunk_base c) = owner_run o).
  { replace a with ((a - owner_run o) + (q * 128 + Z.of_nat (loc_run (owner_location o))) * RUN_SIZE) at 2.
    - rewrite Z.mod_add, Z.mod_small by (done || lia). lia.
    - rewrite Hae, Hq. change ARENA_CHUNK_SIZE with (128 * RUN_SIZE). lia. }
  rewrite Hrun. cbn [mbind outcome_bind]. rewrite Hae at 1. rewrite (header_for_ok c _ r HW Hrc). cbn [mbind outcome_bind].
  rewrite Hc. cbn [mbind outcome_bind]. rewrite Hg. cbn [mbind outcome_bind]. rewrite Hidx. cbn [mbind outcome_bind].
  rewrite ?(chunk_range_ok c HW). cbn [mbind outcome_bind fst]. rewrite Hae at 1.
  destruct (run_address_bounds c _ HW Hb) as (_ & _ & ->). by destruct o as [[] ? ? ? ?].
Qed.

(** What an address resolves to is a slot with that address. *)
Lemma lookup_owner a : 0 <= a <= usize_max ->
  exists x, checked_slot_owner (E:=E) A a = Ok x /\ forall o, x = Some o -> owner_ok A o /\ owner_address o = a.
Proof.
  intros Ha. unfold checked_slot_owner, chunk_containing.
  rewrite arena_chunk_pow, land_not64_pow2, <- arena_chunk_pow by (unfold usize_max in *; lia).
  set (b := a - a mod ARENA_CHUNK_SIZE). destruct (chunk_indices A !! b) as [i|] eqn:Hi; cbn [mbind outcome_bind]; [|by exists None].
  destruct (aw_index _ WA _ _ Hi) as (c & Hch & Hb). rewrite Hch. cbn [mbind outcome_bind].
  destruct (aw_chunk _ WA _ _ Hch) as (HW & _). rewrite ?(chunk_range_ok c HW). cbn [mbind outcome_bind].
  destruct (contains _ a) eqn:Hcon; cbn [mbind outcome_bind]; [|by exists None].
  unfold run_containing. rewrite ?(chunk_range_ok c HW). cbn [mbind outcome_bind fst].
  unfold run_base. rewrite Hcon. cbn [negb fmap option_fmap option_map mbind outcome_bind].
  rewrite run_size_pow, land_not64_pow2, <- run_size_pow by (unfold usize_max in *; lia).
  pose proof HW as (H0 & [q Hq] & Hm & HL). pose proof runs_per_chunk as Hrpc. assert (HRS : 0 < RUN_SIZE) by done.
  unfold contains in Hcon. cbn [fst snd] in Hcon. apply andb_true_iff in Hcon as [H1%Z.leb_le H2%Z.ltb_lt].
  set (n := Z.to_nat ((a - chunk_base c) / RUN_SIZE)).
  assert (Hn : Z.of_nat n = (a - chunk_base c) / RUN_SIZE) by (unfold n; rewrite Z2Nat.id; [done|apply Z.div_pos; lia]).
  assert (Hdiv : a - chunk_base c = Z.of_nat n * RUN_SIZE + a mod RUN_SIZE).
  { rewrite Hn. replace (a mod RUN_SIZE) with ((a - chunk_base c) mod RUN_SIZE).
    - pose proof (Z.div_mod (a - chunk_base c) RUN_SIZE ltac:(done)). lia.
    - rewrite Hq. change ARENA_CHUNK_SIZE with (128 * RUN_SIZE). replace (a - q * (128 * RUN_SIZE)) with (a + (- q * 128) * RUN_SIZE) by lia.
      by apply Z.mod_add. }
  pose proof (Z.mod_pos_bound a RUN_SIZE HRS).
  assert (Hnb : (n < RUNS_PER_CHUNK)%nat) by nia.
  replace (chunk_base c + (a - a mod RUN_SIZE - chunk_base c)) with (chunk_base c + Z.of_nat n * RUN_SIZE) by lia.
  destruct (lookup_lt_is_Some_2 (runs c) n) as [r Hr]; [lia|].
  rewrite (header_for_ok c n r HW Hr). cbn [mbind outcome_bind].
  destruct (header_class_id (header r)) as [cls|] eqn:Hcls; cbn [mbind outcome_bind]; [|by exists None].
  destruct (header_geometry (header r)) as [g|] eqn:Hg; cbn [mbind outcome_bind]; [|by exists None].
  destruct (slot_index g _) as [s|] eqn:Hs; cbn [mbind outcome_bind]; [|by exists None].
  eexists. split; [done|]. intros o [= <-].
  assert (Hrun : run_of A (MkLocation i n) = Some r) by (apply run_of_Some; by exists c).
  destruct (run_address_bounds c n HW Hnb) as (_ & _ & ->).
  assert (HT : typed A (MkLocation i n) cls g r) by done. destruct (typed_wf _ _ _ _ HT) as [HG _].
  pose proof (geometry_facts _ HG) as (Hst & Hcn & Hf & _). destruct HG as (Hv & ? & ? & ?).
  assert (Hs0 : 0 <= s).
  { unfold slot_index in Hs. simplify_option_eq. rewrite checked_sub_Some in *. destruct (negb _); [done|].
    repeat case_match; simplify_eq. apply Z.div_pos; lia. }
  pose proof Hs as Hs'. apply slot_index_offset in Hs'; [|done..|lia|lia].
  unfold slot_offset in Hs'. destruct (Z.leb_spec (slot_count g) s); [done|]. simplify_option_eq.
  rewrite checked_mul_Some, checked_add_Some in *. destruct_and?.
  split.
  - split_and!; cbn; [by exists r| |lia|lia]. unfold address_of. cbn. rewrite Hch. cbn. by apply run_address_Some.
  - unfold owner_address. cbn. subst. lia.
Qed.
End resolve.

(** ** Slots by address *)
Definition slot_of (A : Arena) (a : Z) : option RunOwner :=
  match checked_slot_owner (E:=Empty_set) A a with Ok x => x | _ => None end.

Lemma slot_of_Some A a o : arena_wf A -> 0 <= a <= usize_max -> slot_of A a = Some o <-> owner_ok A o /\ owner_address o = a.
Proof.
  intros WA Ha. unfold slot_of. split.
  - destruct (lookup_owner (E:=Empty_set) A WA a Ha) as (x & -> & H). intros ->. by apply H.
  - intros [HO <-]. by destruct (owner_lookup (E:=Empty_set) A WA o HO) as [-> _].
Qed.

Lemma checked_slot_owner_ok {E} A a : arena_wf A -> 0 <= a <= usize_max -> checked_slot_owner (E:=E) A a = Ok (slot_of A a).
Proof.
  intros WA Ha. destruct (lookup_owner (E:=E) A WA a Ha) as (x & Hx & HO). rewrite Hx. f_equal. symmetry.
  destruct x as [o|]; [by apply slot_of_Some; [..|apply HO]|]. destruct (slot_of A a) as [o|] eqn:Ho; [|done].
  apply slot_of_Some in Ho as [Ho <-]; [|done..]. destruct (owner_lookup (E:=E) A WA o Ho). congruence.
Qed.

Lemma owner_inj A o o' : arena_wf A -> owner_ok A o -> owner_ok A o' -> owner_address o = owner_address o' -> o = o'.
Proof.
  intros WA HO HO' H. destruct (owner_lookup (E:=Empty_set) A WA o HO) as [H1 _]. destruct (owner_lookup (E:=Empty_set) A WA o' HO') as [H2 _].
  congruence.
Qed.

(** ** Changing the memory of one run *)
Section put.
Context (A : Arena) (l : RunLocation) (r0 : Run) (H0 : run_of A l = Some r0).

Lemma put_run_chunk r i : arena_chunks (put_run A l r) !! i =
  (fun c => if decide (i = loc_chunk l) then MkArenaChunk (chunk_base c) (<[loc_run l := r]> (runs c)) else c) <$> arena_chunks A !! i.
Proof.
  unfold put_run. cbn. case_decide as H; [subst; by rewrite list_lookup_alter_eq|]. rewrite list_lookup_alter_ne by done.
  by destruct (_ !! i).
Qed.

Lemma run_of_put r l' : run_of (put_run A l r) l' = if decide (l' = l) then Some r else run_of A l'.
Proof.
  pose proof H0 as H. unfold run_of in H. apply bind_Some in H as (c & Hc & Hr). unfold run_of. rewrite put_run_chunk.
  destruct l as [ci ri], l' as [ci' ri']. cbn in *. destruct (decide (ci' = ci)) as [->|Hne].
  - rewrite Hc. cbn. case_decide as Hd; simplify_eq.
    + apply list_lookup_insert_eq. by eapply lookup_lt_Some.
    + apply list_lookup_insert_ne. congruence.
  - rewrite decide_False by congruence. by destruct (_ !! ci').
Qed.

Lemma address_of_put r l' : address_of (put_run A l r) l' = address_of A l'.
Proof.
  unfold address_of. rewrite put_run_chunk. destruct (arena_chunks A !! _) as [c|]; [|done]. cbn. by case_decide.
Qed.

Lemma put_run_wf r : arena_wf A -> run_wf r -> arena_wf (put_run A l r).
Proof.
  intros [Wc Wi Wr] HR. split.
  - intros i c. rewrite put_run_chunk. destruct (arena_chunks A !! i) as [c0|] eqn:E; [|done]. intros [= <-].
    destruct (Wc i c0 E) as ((? & ? & ? & ?) & Hi). case_decide; [|done]. unfold chunk_wf. cbn. by rewrite length_insert.
  - intros b i Hb. destruct (Wi b i Hb) as (c & Hc & <-). rewrite put_run_chunk, Hc. cbn. eexists. split; [done|]. by case_decide.
  - intros l' r'. rewrite run_of_put. case_decide; [by intros [= <-]|apply Wr].
Qed.
End put.

(** ** The bits of an owner *)
Definition slot_allocated (A : Arena) (o : RunOwner) : bool :=
  match run_of A (owner_location o) with Some r => slot_bit (allocation r) (owner_slot o) | None => false end.

Definition slot_marked (A : Arena) (o : RunOwner) : bool :=
  match run_of A (owner_location o) with Some r => slot_bit (marks r) (owner_slot o) | None => false end.

(** Runs keep everything but what [f] forgets. *)
Definition same_runs {T} (f : Run -> T) (A A' : Arena) : Prop :=
  (forall l, f <$> run_of A' l = f <$> run_of A l) /\ (forall l, address_of A' l = address_of A l).

(** Only marks differ. *)
Definition remarked : Arena -> Arena -> Prop := same_runs (fun r => (header r, allocation r, leases r)).

(** Headers and allocation bits agree. *)
Definition same_slots : Arena -> Arena -> Prop := same_runs (fun r => (header r, allocation r)).

(** Headers agree. *)
Definition same_headers : Arena -> Arena -> Prop := same_runs header.

Lemma same_runs_weaken {T U} (f : Run -> T) (g : Run -> U) A A' : (forall r r', f r = f r' -> g r = g r') -> same_runs f A A' -> same_runs g A A'.
Proof.
  intros Hfg [H1 H2]. split; [|done]. intros l. specialize (H1 l). destruct (run_of A' l) as [r'|], (run_of A l) as [r|]; cbn in *; try done.
  f_equal. apply Hfg. congruence.
Qed.

Lemma remarked_slots A A' : remarked A A' -> same_slots A A'.
Proof. apply same_runs_weaken. congruence. Qed.

Lemma same_slots_headers A A' : same_slots A A' -> same_headers A A'.
Proof. apply same_runs_weaken. congruence. Qed.

Lemma remarked_headers A A' : remarked A A' -> same_headers A A'.
Proof. intros H. by apply same_slots_headers, remarked_slots. Qed.

#[export] Instance same_runs_equiv {T} (f : Run -> T) : Equivalence (same_runs f).
Proof.
  split; [done|intros A A' [H1 H2]; by split|]. intros A1 A2 A3 [H1 H2] [H3 H4]. split; intros l; [by rewrite H3|by rewrite H4].
Qed.
#[export] Instance remarked_equiv : Equivalence remarked := same_runs_equiv _.
#[export] Instance same_headers_equiv : Equivalence same_headers := same_runs_equiv _.

Lemma same_headers_typed A A' l cls g : same_headers A A' ->
  (exists r, typed A l cls g r) -> exists r, typed A' l cls g r.
Proof.
  intros [H _] (r & Hr & Hc & Hg). specialize (H l). rewrite Hr in H. destruct (run_of A' l) as [r'|] eqn:E; [|done].
  cbn in H. exists r'. split; [done|]. injection H as ->. done.
Qed.

Lemma same_headers_owner A A' o : same_headers A A' -> owner_ok A o -> owner_ok A' o.
Proof. intros HS (HT & Ha & Hs). split; [by eapply same_headers_typed|]. by rewrite (proj2 HS). Qed.

Lemma same_headers_target A A' t cls : same_headers A A' -> target_ok A t cls -> target_ok A' t cls.
Proof. intros HS (HT & Ha). split; [by eapply same_headers_typed|]. by rewrite (proj2 HS). Qed.

Lemma same_headers_slot A A' a : arena_wf A -> arena_wf A' -> 0 <= a <= usize_max -> same_headers A A' -> slot_of A' a = slot_of A a.
Proof.
  intros W W' Ha HS. destruct (slot_of A a) as [o|] eqn:E.
  - apply slot_of_Some in E as [HO E]; [|done..]. apply slot_of_Some; [done..|]. split; [by eapply same_headers_owner|done].
  - destruct (slot_of A' a) as [o|] eqn:E'; [|done]. apply slot_of_Some in E' as [HO E']; [|done..].
    assert (slot_of A a = Some o) by (apply slot_of_Some; [done..|]; split; [eapply same_headers_owner; [by symmetry|done]|done]). congruence.
Qed.

Lemma same_slots_allocated A A' o : same_slots A A' -> slot_allocated A' o = slot_allocated A o.
Proof.
  intros [H _]. unfold slot_allocated. specialize (H (owner_location o)).
  destruct (run_of A' _), (run_of A _); cbn in H; simplify_eq; congruence.
Qed.

Lemma remarked_allocated A A' o : remarked A A' -> slot_allocated A' o = slot_allocated A o.
Proof. intros H. by apply same_slots_allocated, remarked_slots. Qed.

Section slots.
Context {E : Type} (A : Arena) (WA : arena_wf A).

Lemma slot_is_allocated_ok o : owner_ok A o -> owner_slot_is_allocated (E:=E) A o = Ok (slot_allocated A o).
Proof.
  intros HO. destruct (resolved_owner_ok (E:=E) A WA o HO) as (c & r & HT & HR & _). destruct HO as (_ & _ & Hs).
  destruct (typed_wf A WA _ _ _ _ HT) as (HG & HA & _). pose proof (geometry_facts _ HG) as (_ & _ & _ & _ & Hbl & Hwl & _).
  destruct (bitmap_index _ _ Hs) as [Hi Hm]. unfold owner_slot_is_allocated. rewrite HR. cbn [mbind outcome_bind snd].
  unfold slot_is_allocated, slot_allocated. rewrite (proj1 HT). unfold slot_bit.
  destruct (read_word_ok (E:=E) _ _ (Z.to_nat (owner_slot o / 64)) HA) as (w & Hw & _ & ->); [by rewrite Hwl|].
  cbn [mbind outcome_bind]. rewrite Hw, land_bit by lia. done.
Qed.

Lemma slot_is_marked_ok o : owner_ok A o -> owner_slot_is_marked (E:=E) A o = Ok (slot_marked A o).
Proof.
  intros HO. destruct (resolved_owner_ok (E:=E) A WA o HO) as (c & r & HT & HR & _). destruct HO as (_ & _ & Hs).
  destruct (typed_wf A WA _ _ _ _ HT) as (HG & _ & _ & HM). pose proof (geometry_facts _ HG) as (_ & _ & _ & _ & _ & _ & _ & _ & Hbl & Hwl).
  destruct (bitmap_index _ _ Hs) as [Hi Hm]. unfold owner_slot_is_marked. rewrite HR. cbn [mbind outcome_bind snd].
  unfold slot_is_marked, slot_marked. rewrite (proj1 HT), bitmap_bit_ok by (rewrite Hbl; lia). cbn [mbind outcome_bind fst snd].
  destruct (read_word_ok (E:=E) _ _ (Z.to_nat (owner_slot o / 64)) HM) as (w & Hw & _ & ->); [by rewrite Hwl|].
  unfold slot_bit. cbn [mbind outcome_bind]. rewrite Hw, land_bit by lia. done.
Qed.

(** Owners at one location differ in their slots only. *)
Lemma owner_same_location o o' : owner_ok A o -> owner_ok A o' -> owner_location o = owner_location o' ->
  owner_slot o = owner_slot o' -> o = o'.
Proof.
  intros ((r & Hr & Hc & Hg) & Ha & _) ((r' & Hr' & Hc' & Hg') & Ha' & _) El Es. destruct o, o'. cbn in *. subst. congruence.
Qed.

Lemma mark_owner_slot_ok o : owner_ok A o ->
  exists A', mark_owner_slot (E:=E) A o = Ok (A', negb (slot_marked A o)) /\ arena_wf A' /\ remarked A A' /\
    forall o', owner_ok A o' -> slot_marked A' o' = bool_decide (o' = o) || slot_marked A o'.
Proof.
  intros HO. destruct (resolved_owner_ok (E:=E) A WA o HO) as (c & r & HT & HR & _). pose proof HO as (_ & _ & Hs).
  destruct (typed_wf A WA _ _ _ _ HT) as (HG & HA & HL & HM). pose proof (geometry_facts _ HG) as (_ & _ & _ & _ & _ & _ & _ & _ & Hbl & Hwl).
  destruct (bitmap_index _ _ Hs) as [Hi Hm]. pose proof HT as (Hr & Hcls & Hg). unfold mark_owner_slot. rewrite HR. cbn [mbind outcome_bind snd].
  unfold mark_slot. rewrite bitmap_bit_ok by (rewrite Hbl; lia). cbn [mbind outcome_bind fst snd].
  destruct (read_word_ok (E:=E) _ _ (Z.to_nat (owner_slot o / 64)) HM) as (w & Hw & Hword & ->); [by rewrite Hwl|].
  cbn [mbind outcome_bind]. rewrite land_bit by lia.
  assert (Hmk : slot_marked A o = Z.testbit w (owner_slot o mod 64)) by (unfold slot_marked, slot_bit; by rewrite Hr, Hw).
  rewrite Hmk. destruct (Z.testbit w (owner_slot o mod 64)) eqn:Hbit; cbn [mbind outcome_bind fst snd negb].
  - exists (put_run A (owner_location o) r). split; [done|]. split; [by eapply put_run_wf; [..|apply (aw_run _ WA _ _ Hr)]|].
    assert (Hsame : forall l', run_of (put_run A (owner_location o) r) l' = run_of A l').
    { intros l'. rewrite (run_of_put A _ r Hr). by case_decide; subst. }
    split; [split; intros l'; [by rewrite Hsame|apply address_of_put]|].
    intros o' HO'. unfold slot_marked at 1. rewrite Hsame. fold (slot_marked A o').
    destruct (bool_decide_reflect (o' = o)) as [->|]; [by rewrite Hmk|done].
  - destruct (write_word_ok (E:=E) _ _ (Z.to_nat (owner_slot o / 64)) (Z.lor w (bit (owner_slot o mod 64))) HM) as [-> HM'];
      [by rewrite Hwl|by apply lor_word, bit_word|]. cbn [mbind outcome_bind fst snd].
    set (r' := MkRun _ _ _ _). exists (put_run A (owner_location o) r'). split; [done|]. split.
    { eapply put_run_wf; [done..|]. destruct (aw_run _ WA _ _ Hr) as [Hv _]. split; [done|]. cbn [header r']. by rewrite Hg. }
    split; [split; intros l'; [rewrite (run_of_put A _ r Hr); case_decide; [subst; by rewrite Hr|done]|apply address_of_put]|].
    intros o' HO'. unfold slot_marked. rewrite (run_of_put A _ r Hr). case_decide as Hd.
    + rewrite Hd, Hr. cbn [marks r']. rewrite set_bit_slots; [|lia|destruct HO' as (_ & _ & ?); lia|done|done].
      destruct (Z.eqb_spec (owner_slot o') (owner_slot o)) as [Hse|Hse].
      * rewrite bool_decide_true; [done|by apply owner_same_location].
      * rewrite bool_decide_false; [done|congruence].
    + rewrite bool_decide_false; [done|congruence].
Qed.
End slots.
