(* ===== verification/Heap.v ===== *)
(** * The managed data of the collected heap ([crates/glam-gc/src/heap.rs], [class.rs])

    Allocation classes own runs of one geometry for one Rust representation; the
    finalization batch owns the dead slots whose destructors have not run. This
    file has the data, the operations of a class, the lookup of a slot by its
    address, and the heap invariant. Metrics and reservations of capacity are left
    out; a boxed run record is the record, and the published frontier of a class
    is the record it points to. *)
From stdpp Require Import base option list numbers gmap sets.
From Stdlib Require Import ZArith Lia.
From S2P Require Import Prelude RootPool RunGeometry Bitmaps Arena.

(** ** Data *)

(** A representation is identified by the address of its metadata. *)
Record ObjectMetadata := MkMetadata { meta_id : nat; meta_layout : Layout; requested_slot_size : option Z; needs_drop : bool }.

#[export] Instance Layout_eq_dec : EqDecision Layout.
Proof. solve_decision. Defined.

#[export] Instance ObjectMetadata_eq_dec : EqDecision ObjectMetadata.
Proof. solve_decision. Defined.
#[export] Instance ObjectMetadata_countable : Countable ObjectMetadata.
Proof.
  apply (inj_countable' (fun m => (meta_id m, size (meta_layout m), align (meta_layout m), requested_slot_size m, needs_drop m))
    (fun p => let '(i, s, a, r, d) := p in MkMetadata i {| size := s; align := a |} r d)). by intros [? [] ? ?].
Defined.

Record AllocationClassEntry := MkClass {
  metadata : ObjectMetadata;
  class_geometry : RunGeometry;
  frontier : option RunClaimTarget;
  class_runs : list RunClaimTarget;
  run_locations : gset RunLocation;
  frontier_index : option nat;
}.

Inductive FinalizationRunTarget :=
  | Attached (t : RunClaimTarget)
  | Detached (t : RunClaimTarget).

Record FinalizationRun := MkFinalizationRun {
  fr_target : FinalizationRunTarget;
  fr_class : AllocationClassId;
  fr_metadata : ObjectMetadata;
  fr_pending_slot_count : nat;
  pending_words : gmap nat Z;
}.

Record FinalizationBatch := MkBatch { batch_runs : gmap RunLocation FinalizationRun; batch_pending : nat }.

Record AllocationPressure := MkPressure { assigned_runs : nat; high_water_mark : Z }.

Record ManagedData := MkData {
  arena : Arena;
  classes_by_metadata : gmap ObjectMetadata AllocationClassId;
  classes : list AllocationClassEntry;
  retired_no_drop_runs : list (RunClaimTarget * AllocationClassId);
  finalization_batch : FinalizationBatch;
  running_finalizers : nat;
  free_runs : list RunLocation;
  allocation_pressure : AllocationPressure;
  root_pool : RootPool;
}.

Inductive CollectorLookupError := InvalidAddress | InvalidClass | InvalidRunTopology | Unallocated.

Record CollectorSlot := MkCollectorSlot { slot_owner : RunOwner; slot_metadata : ObjectMetadata }.

(** Updates of one field. *)
Definition with_arena (D : ManagedData) (A : Arena) : ManagedData :=
  MkData A (classes_by_metadata D) (classes D) (retired_no_drop_runs D) (finalization_batch D) (running_finalizers D) (free_runs D) (allocation_pressure D) (root_pool D).
Definition with_classes (D : ManagedData) (cs : list AllocationClassEntry) : ManagedData :=
  MkData (arena D) (classes_by_metadata D) cs (retired_no_drop_runs D) (finalization_batch D) (running_finalizers D) (free_runs D) (allocation_pressure D) (root_pool D).
Definition with_retired (D : ManagedData) (rs : list (RunClaimTarget * AllocationClassId)) : ManagedData :=
  MkData (arena D) (classes_by_metadata D) (classes D) rs (finalization_batch D) (running_finalizers D) (free_runs D) (allocation_pressure D) (root_pool D).
Definition with_batch (D : ManagedData) (b : FinalizationBatch) : ManagedData :=
  MkData (arena D) (classes_by_metadata D) (classes D) (retired_no_drop_runs D) b (running_finalizers D) (free_runs D) (allocation_pressure D) (root_pool D).
Definition with_running (D : ManagedData) (n : nat) : ManagedData :=
  MkData (arena D) (classes_by_metadata D) (classes D) (retired_no_drop_runs D) (finalization_batch D) n (free_runs D) (allocation_pressure D) (root_pool D).
Definition with_free_runs (D : ManagedData) (ls : list RunLocation) : ManagedData :=
  MkData (arena D) (classes_by_metadata D) (classes D) (retired_no_drop_runs D) (finalization_batch D) (running_finalizers D) ls (allocation_pressure D) (root_pool D).
Definition with_pressure (D : ManagedData) (p : AllocationPressure) : ManagedData :=
  MkData (arena D) (classes_by_metadata D) (classes D) (retired_no_drop_runs D) (finalization_batch D) (running_finalizers D) (free_runs D) p (root_pool D).
Definition with_pool (D : ManagedData) (P : RootPool) : ManagedData :=
  MkData (arena D) (classes_by_metadata D) (classes D) (retired_no_drop_runs D) (finalization_batch D) (running_finalizers D) (free_runs D) (allocation_pressure D) P.

(** ** Class identifiers *)
Definition class_index (id : AllocationClassId) : option nat := Z.to_nat <$> checked_sub (class_raw id) 1.

Definition class_id {E} (index : nat) : outcome E AllocationClassId :=
  raw ← expect (checked_add (Z.of_nat index) 1);
  expect (AllocationClassId_new raw).

(** ** Operations of a class *)
Definition AllocationClassEntry_new (m : ObjectMetadata) (g : RunGeometry) : AllocationClassEntry :=
  MkClass m g None [] ∅ None.

Definition contains_run (C : AllocationClassEntry) (l : RunLocation) : bool := bool_decide (l ∈ run_locations C).
Definition contains_target (C : AllocationClassEntry) (t : RunClaimTarget) : bool := existsb (fun r => bool_decide (r = t)) (class_runs C).

Definition frontier_is_withdrawn (C : AllocationClassEntry) : bool :=
  match frontier_index C, frontier C with None, None => true | _, _ => false end.

Definition with_frontier (C : AllocationClassEntry) (f : option RunClaimTarget) (i : option nat) : AllocationClassEntry :=
  MkClass (metadata C) (class_geometry C) f (class_runs C) (run_locations C) i.

Definition publish_frontier {E} (C : AllocationClassEntry) (i : nat) : outcome E AllocationClassEntry :=
  t ← vec_get (class_runs C) i;
  Ok (with_frontier C (Some t) (Some i)).

Definition class_publish_run {E} (C : AllocationClassEntry) (t : RunClaimTarget) : outcome E AllocationClassEntry :=
  _ ← rust_assert (negb (bool_decide (target_location t ∈ run_locations C)));
  let C := MkClass (metadata C) (class_geometry C) (frontier C) (class_runs C ++ [t]) ({[target_location t]} ∪ run_locations C) (frontier_index C) in
  match frontier_index C with None => publish_frontier C 0 | Some _ => Ok C end.

Definition advance_frontier {E} (C : AllocationClassEntry) : outcome E (option AllocationClassEntry) :=
  let next := match frontier_index C with Some i => i + 1 | None => 0 end in
  if decide (next < length (class_runs C)) then C ← publish_frontier C next; Ok (Some C) else Ok None.

Definition activate_last_run {E} (C : AllocationClassEntry) : outcome E AllocationClassEntry :=
  match length (class_runs C) with O => Panic | S last => publish_frontier C last end.

Definition run_position (C : AllocationClassEntry) (t : RunClaimTarget) : option nat := fst <$> list_find (fun r => r = t) (class_runs C).

Definition publish_released_run {E} (C : AllocationClassEntry) (t : RunClaimTarget) : outcome E AllocationClassEntry :=
  i ← expect (run_position C t);
  if match frontier_index C with None => true | Some current => bool_decide (i <= current) end
  then publish_frontier C i else Ok C.

Definition withdraw_frontier (C : AllocationClassEntry) : AllocationClassEntry := with_frontier C None None.

Definition publish_swept_frontier {E} (C : AllocationClassEntry) (i : option nat) : outcome E AllocationClassEntry :=
  _ ← rust_assert (frontier_is_withdrawn C);
  match i with Some i => publish_frontier C i | None => Ok C end.

Definition retire_withdrawn_run_at {E} (C : AllocationClassEntry) (t : RunClaimTarget) : outcome E (AllocationClassEntry * nat) :=
  _ ← rust_assert (frontier_is_withdrawn C);
  i ← expect (run_position C t);
  Ok (MkClass (metadata C) (class_geometry C) (frontier C) (delete i (class_runs C)) (run_locations C ∖ {[target_location t]}) (frontier_index C), i).

(** ** The finalization batch *)
Definition run_target (F : FinalizationRun) : RunClaimTarget := match fr_target F with Attached t | Detached t => t end.
Definition is_detached (F : FinalizationRun) : bool := match fr_target F with Attached _ => false | Detached _ => true end.

Definition contains_owner (F : FinalizationRun) (o : RunOwner) : bool :=
  let t := run_target F in
  if bool_decide (owner_location o = target_location t /\ owner_run o = target_run t /\ owner_class o = fr_class F /\
                  owner_geometry o = target_geometry t)
  then match pending_words F !! Z.to_nat (owner_slot o / 64) with
       | Some w => negb (Z.land w (bit (owner_slot o mod 64)) =? 0)%Z
       | None => false
       end
  else false.

(** The loop over the bits of a pending word, least first. *)
Fixpoint drain_bits (fuel : nat) (w : Z) : list Z :=
  match fuel with
  | O => []
  | S fuel => if (w =? 0)%Z then [] else trailing_zeros w :: drain_bits fuel (Z.land w (w - 1))
  end.

Definition word_slots (i : nat) (w : Z) : list Z := (fun b => Z.of_nat i * 64 + b)%Z <$> drain_bits 64 w.

Definition pending_owner (F : FinalizationRun) (slot : Z) : RunOwner :=
  MkOwner (target_location (run_target F)) (target_run (run_target F)) (fr_class F) (target_geometry (run_target F)) slot.

Definition pending_slots (F : FinalizationRun) : list Z := map_to_list (pending_words F) ≫= fun iw => word_slots iw.1 iw.2.

(** [visit_pending_slots] of a run, with its bound check. *)
Definition run_pending_owners {E} (F : FinalizationRun) : outcome E (list RunOwner) :=
  mapM (fun slot => _ ← rust_assert (slot <? slot_count (target_geometry (run_target F)))%Z; Ok (pending_owner F slot)) (pending_slots F).

Definition visit_pending_slots {E} (b : FinalizationBatch) : outcome E (list RunOwner) :=
  os ← mapM (fun lF => run_pending_owners lF.2) (map_to_list (batch_runs b));
  Ok (concat os).

Definition reserves_word (b : FinalizationBatch) (t : RunClaimTarget) (i : nat) : bool :=
  match batch_runs b !! target_location t with
  | Some F => bool_decide (run_target F = t) &&
      match pending_words F !! i with Some w => negb (w =? 0)%Z | None => false end
  | None => false
  end.

Definition detached_run_count (b : FinalizationBatch) : nat := length (filter (fun lF => is_detached lF.2 = true) (map_to_list (batch_runs b))).

Definition pending_metadata_at (b : FinalizationBatch) (A : Arena) (a : Z) : M (option ObjectMetadata) :=
  o ←? checked_slot_owner A a;
  F ←? Ok (batch_runs b !! owner_location o);
  Ok (if contains_owner F o then Some (fr_metadata F) else None).

(** ** Looking up a slot *)
Definition resolve_slot_topology_in (A : Arena) (cs : list AllocationClassEntry) (a : Z)
    : outcome CollectorLookupError (RunOwner * ObjectMetadata) :=
  found ← checked_slot_owner A a;
  owner ← ok_or found InvalidAddress;
  index ← ok_or (class_index (owner_class owner)) InvalidClass;
  entry ← ok_or (cs !! index) InvalidClass;
  if negb (bool_decide (class_geometry entry = owner_geometry owner)) || negb (contains_run entry (owner_location owner))
  then Err InvalidRunTopology
  else Ok (owner, metadata entry).

Definition collector_slot_in (A : Arena) (cs : list AllocationClassEntry) (a : Z) : outcome CollectorLookupError CollectorSlot :=
  om ← resolve_slot_topology_in A cs a;
  allocated ← owner_slot_is_allocated A om.1;
  if negb allocated then Err Unallocated else Ok (MkCollectorSlot om.1 om.2).

Definition mark_collector_slot_in (A : Arena) (slot : CollectorSlot) : outcome CollectorLookupError (Arena * bool) :=
  mark_owner_slot A (slot_owner slot).

Inductive RootValidationError := ForeignHeap | Representation | RootUnallocated | PendingFinalization.

(** [ok()] of a lookup. *)
Definition resolve_slot_in_state (D : ManagedData) (a : Z) : M (option (ObjectMetadata * bool)) :=
  match resolve_slot_topology_in (arena D) (classes D) a with
  | Ok (owner, m) => allocated ← owner_slot_is_allocated (arena D) owner; Ok (Some (m, allocated))
  | Err _ => Ok None
  | Panic => Panic
  | OutOfFuel => OutOfFuel
  end.

(** Code without errors called by code with them. *)
Definition lift {E A} (m : M A) : outcome E A :=
  match m with Ok a => Ok a | Err e => match e : Empty_set with end | Panic => Panic | OutOfFuel => OutOfFuel end.

Definition validate_rootable_in_state (D : ManagedData) (a : Z) (expected : ObjectMetadata) : outcome RootValidationError unit :=
  pending ← lift (pending_metadata_at (finalization_batch D) (arena D) a);
  match pending with
  | Some actual => if bool_decide (actual = expected) then Err PendingFinalization else Err Representation
  | None =>
      resolved ← lift (resolve_slot_in_state D a);
      ma ← ok_or resolved ForeignHeap;
      if negb (bool_decide (ma.1 = expected)) then Err Representation
      else if negb ma.2 then Err RootUnallocated
      else Ok ()
  end.
