(* ===== verification/Marking.v ===== *)
(** * Marking ([MarkAttempt] of [crates/glam-gc/src/heap.rs], [ephemeron.rs])

    A collection clears the marks, marks the slots whose destructors are pending,
    marks and traces from the roots, and marks the values of ephemerons whose keys
    are marked until nothing changes. What the trace function of a representation
    reports for a payload is a parameter: edges, and ephemerons by the position of
    their pair. The pairs are the only payload memory marking reads or writes; a
    pair is its two words, zero once cleared. The counters of a report are left
    out. Stacks have their top first. *)
From stdpp Require Import base option list numbers gmap sets.
From Stdlib Require Import ZArith Lia.
From S2P Require Import Prelude RootPool RunGeometry Bitmaps Arena Heap.

(** ** What a trace reports *)
Inductive Visit :=
  | VEdge (a : Z)
  | VEphemeron (p : Z).

(** ** Ephemeron pairs *)
Notation Pairs := (gmap Z (Z * Z)).

(** [EphemeronPair::load]; memory outside the pairs must not be read. *)
Definition load_pair (pairs : Pairs) (p : Z) : M (option (Z * Z)) :=
  kv ← expect (pairs !! p);
  if (kv.1 =? 0)%Z then Ok None
  else if (kv.2 =? 0)%Z then Panic else Ok (Some kv).

(** [EphemeronPair::clear] *)
Definition clear_pair (pairs : Pairs) (p : Z) : Pairs := alter (fun _ => (0, 0)%Z) p pairs.

(** ** The attempt *)
Record TraceWork := MkWork { work_value : Z; work_metadata : ObjectMetadata }.

Record MarkAttempt := MkAttempt { worklist : list TraceWork; ephemerons : list Z }.

Definition MarkAttempt_default : MarkAttempt := MkAttempt [] [].

(** The heap and the attempt, which marking threads together. *)
Definition MarkState : Type := ManagedData * MarkAttempt.

(** [error.raise()] *)
Definition raise {E A} (m : outcome E A) : M A :=
  match m with Ok a => Ok a | Err _ => Panic | Panic => Panic | OutOfFuel => OutOfFuel end.

(** [Vec::swap_remove] *)
Definition swap_remove {A} (l : list A) (i : nat) : list A :=
  match last l with Some x => take (length l - 1) (<[i := x]> l) | None => l end.

Definition clear_mark_bitmaps (D : ManagedData) : ManagedData := with_arena D (clear_assigned_mark_bitmaps (arena D)).

Definition push_work (W : MarkAttempt) (w : TraceWork) : MarkAttempt := MkAttempt (w :: worklist W) (ephemerons W).

(** One slot of [retain_pending_finalizers]. *)
Definition retain_pending_slot (A : Arena) (o : RunOwner) : M Arena :=
  allocated ← owner_slot_is_allocated A o;
  _ ← rust_assert allocated;
  Ab ← mark_owner_slot A o;
  _ ← rust_assert Ab.2;
  Ok Ab.1.

Definition retain_pending_finalizers (D : ManagedData) : M ManagedData :=
  os ← visit_pending_slots (finalization_batch D);
  A ← foldM retain_pending_slot (arena D) os;
  Ok (with_arena D A).

Definition discover (st : MarkState) (v : Z) : outcome CollectorLookupError (MarkState * bool) :=
  let '(D, W) := st in
  slot ← collector_slot_in (arena D) (classes D) v;
  Ab ← mark_collector_slot_in (arena D) slot;
  if negb Ab.2 then Ok ((with_arena D Ab.1, W), false)
  else Ok ((with_arena D Ab.1, push_work W (MkWork v (slot_metadata slot))), true).

Definition key_is_marked (D : ManagedData) (key : Z) : outcome CollectorLookupError bool :=
  slot ← collector_slot_in (arena D) (classes D) key;
  owner_slot_is_marked (arena D) (slot_owner slot).

(** An error of one root is raised after the visit of all. *)
Definition seed_root (st : MarkState * option CollectorLookupError) (v : Z) : M (MarkState * option CollectorLookupError) :=
  match st.2 with
  | Some _ => Ok st
  | None =>
      match discover st.1 v with
      | Ok r => Ok (r.1, None)
      | Err e => Ok (st.1, Some e)
      | Panic => Panic
      | OutOfFuel => OutOfFuel
      end
  end.

Definition seed_registered_roots (st : MarkState) : M MarkState :=
  roots ← visit_live (root_pool st.1);
  r ← foldM seed_root (st, None) roots;
  match r.2 with Some _ => Panic | None => Ok r.1 end.

Section marking.
(** The trace function of a representation, applied to the payload at an
    address. *)
Context (trace_of : ObjectMetadata -> Z -> list Visit).

(** ** Tracing *)

(** [MarkingSink::edge] *)
Definition edge (st : MarkState) (v : Z) : M MarkState := r ← raise (discover st v); Ok r.1.

(** [MarkingSink::ephemeron] *)
Definition ephemeron (pairs : Pairs) (st : MarkState) (p : Z) : M MarkState :=
  kv ← load_pair pairs p;
  match kv with
  | None => Ok st
  | Some (key, v) =>
      marked ← raise (key_is_marked st.1 key);
      if marked : bool then edge st v else Ok (st.1, MkAttempt (worklist st.2) (ephemerons st.2 ++ [p]))
  end.

Definition visit (pairs : Pairs) (st : MarkState) (x : Visit) : M MarkState :=
  match x with VEdge a => edge st a | VEphemeron p => ephemeron pairs st p end.

Fixpoint trace_worklist (fuel : nat) (pairs : Pairs) (st : MarkState) : M MarkState :=
  match fuel with
  | O => OutOfFuel
  | S fuel =>
      match worklist st.2 with
      | [] => Ok st
      | work :: rest =>
          st ← foldM (visit pairs) (st.1, MkAttempt rest (ephemerons st.2)) (trace_of (work_metadata work) (work_value work));
          trace_worklist fuel pairs st
      end
  end.

(** The inner loop of [trace_ephemerons]: one pass over the recorded pairs. *)
Fixpoint ephemeron_pass (fuel : nat) (pairs : Pairs) (st : MarkState) (index : nat) (marked : bool) : M (MarkState * bool) :=
  match fuel with
  | O => OutOfFuel
  | S fuel =>
      match ephemerons st.2 !! index with
      | None => Ok (st, marked)
      | Some p =>
          loaded ← load_pair pairs p;
          kv ← expect loaded;
          found ← raise (key_is_marked st.1 kv.1);
          if found : bool then
            r ← raise (discover st kv.2);
            ephemeron_pass fuel pairs (r.1.1, MkAttempt (worklist r.1.2) (swap_remove (ephemerons r.1.2) index)) index (marked || r.2)
          else ephemeron_pass fuel pairs st (index + 1) marked
      end
  end.

(** The outer loop; the pairs of unmarked keys are cleared at its end. *)
Fixpoint trace_ephemerons (fuel : nat) (pairs : Pairs) (st : MarkState) : M (MarkState * Pairs) :=
  match fuel with
  | O => OutOfFuel
  | S fuel' =>
      r ← ephemeron_pass (S (length (ephemerons st.2))) pairs st 0 false;
      let '(st, marked) := r : MarkState * bool in
      if marked then st ← trace_worklist fuel pairs st; trace_ephemerons fuel' pairs st
      else Ok ((st.1, MkAttempt (worklist st.2) []), foldl clear_pair pairs (ephemerons st.2))
  end.

(** Every slot of the arena: a bound on the work. *)
Definition run_owners (A : Arena) (l : RunLocation) : list RunOwner :=
  match arena_chunks A !! loc_chunk l with
  | None => []
  | Some c =>
      match runs c !! loc_run l with
      | None => []
      | Some r =>
          match header_class_id (header r), header_geometry (header r), run_address c (loc_run l) with
          | Some cls, Some g, Some a => (fun s => MkOwner l a cls g s) <$> seqZ 0 (slot_count g)
          | _, _, _ => []
          end
      end
  end.

Definition all_owners (A : Arena) : list RunOwner :=
  c ← seq 0 (length (arena_chunks A)); n ← seq 0 RUNS_PER_CHUNK; run_owners A (MkLocation c n).

Definition mark_fuel (A : Arena) : nat := S (length (all_owners A)).

(** The marking phase of a collection. *)
Definition mark_heap (D : ManagedData) (pairs : Pairs) : M (ManagedData * Pairs) :=
  let fuel := mark_fuel (arena D) in
  D ← retain_pending_finalizers (clear_mark_bitmaps D);
  st ← seed_registered_roots (D, MarkAttempt_default);
  st ← trace_worklist fuel pairs st;
  r ← trace_ephemerons fuel pairs st;
  let '(st, pairs) := r : MarkState * Pairs in
  _ ← rust_assert (match worklist st.2 with [] => true | _ => false end);
  Ok (st.1, pairs).
End marking.
