(* ===== verification/HeapFacts.v ===== *)
(** * The heap invariant

    [heap_wf]: the runs of a class are runs of the arena typed by it, with its
    geometry; no run is in two classes; a pending word names allocated slots of a
    run the finalization batch has, attached to its class or detached from it;
    free runs are untyped; the pressure counts the assigned runs. *)
From stdpp Require Import base option list numbers gmap sets.
From Stdlib Require Import ZArith Lia.
From S2P Require Import Prelude RootPool RunGeometry Bitmaps Arena ArenaFacts Heap.
Local Open Scope Z_scope.

(** ** The bits of a pending word *)

(** [w & (w - 1)] clears the least bit of [w]. *)
Lemma lowest_cleared w n : is_word w -> w <> 0 -> 0 <= n ->
  Z.testbit (Z.land w (w - 1)) n = Z.testbit w n && negb (n =? trailing_zeros w).
Proof.
  intros Hw Hne Hn. destruct (trailing_zeros_spec w Hw Hne) as ([H0 H1] & Ht & Hlow). generalize dependent (trailing_zeros w). intros t H0 H1 Ht Hlow.
  set (v := Z.ldiff w (bit t)).
  assert (Hv : Z.land v (bit t) = 0).
  { apply Z.bits_inj'. intros k Hk. unfold v. rewrite Z.land_spec, Z.ldiff_spec, Z.bits_0. by destruct (Z.testbit w k), (Z.testbit (bit t) k). }
  assert (Hwv : w = v + bit t).
  { rewrite Z.add_nocarry_lxor by done. apply Z.bits_inj'. intros k Hk. unfold v. rewrite Z.lxor_spec, Z.ldiff_spec, bit_spec by lia.
    destruct (Z.eqb_spec k t) as [->|]; [by rewrite Ht|]. by destruct (Z.testbit w k). }
  assert (Hbit : bit t = 2 ^ t) by (unfold bit; rewrite Z.shiftl_mul_pow2; lia).
  assert (Hones : bit t - 1 = Z.ones t) by (rewrite Hbit, Z.ones_equiv; lia).
  assert (Hvo : Z.land v (Z.ones t) = 0).
  { apply Z.bits_inj'. intros k Hk. rewrite Z.land_spec, Z.bits_0. destruct (Z.lt_ge_cases k t).
    - unfold v. rewrite Z.ldiff_spec, Hlow by lia. done.
    - rewrite Z.ones_spec_high by lia. apply andb_false_r. }
  assert (Hw1 : w - 1 = v + Z.ones t) by (rewrite <- Hones, Hwv at 1; ring).
  rewrite Hw1, (Z.add_nocarry_lxor v) by done.
  rewrite Z.land_spec, Z.lxor_spec. unfold v. rewrite Z.ldiff_spec, bit_spec by lia. clear Hw1 Hvo Hones Hbit Hwv Hv v Hne.
  destruct (Z.eqb_spec n t) as [->|Hnt]; cbn [negb].
  - rewrite Ht. cbn. rewrite Z.ones_spec_high by lia. done.
  - rewrite !andb_true_r. destruct (Z.testbit w n) eqn:E; [|done]. cbn. destruct (Z.lt_ge_cases n t); [rewrite Hlow in E by lia; done|].
    by rewrite Z.ones_spec_high by lia.
Qed.

Lemma lowest_word w : is_word w -> w <> 0 -> is_word (Z.land w (w - 1)).
Proof. intros [H0 H1] Hne. apply land_word; split; lia. Qed.

Lemma drain_bits_elem fuel w b : is_word w -> b ∈ drain_bits fuel w -> 0 <= b < 64 /\ Z.testbit w b = true.
Proof.
  revert w. induction fuel as [|fuel IH]; intros w Hw; cbn; [by intros ?%elem_of_nil|].
  destruct (Z.eqb_spec w 0) as [|Hne]; [by intros ?%elem_of_nil|]. destruct (trailing_zeros_spec w Hw Hne) as (Hb & Ht & _).
  intros [->|H]%elem_of_cons; [done|]. apply IH in H as [Hr H]; [|by apply lowest_word]. split; [done|].
  rewrite lowest_cleared in H by (done || lia). by apply andb_true_iff in H as [].
Qed.

Lemma drain_bits_nodup fuel w : is_word w -> NoDup (drain_bits fuel w).
Proof.
  revert w. induction fuel as [|fuel IH]; intros w Hw; cbn; [constructor|]. destruct (Z.eqb_spec w 0) as [|Hne]; [constructor|].
  pose proof (lowest_word w Hw Hne) as Hl. constructor; [|by apply IH]. intros H. apply drain_bits_elem in H as [Hr H]; [|done].
  rewrite lowest_cleared, Z.eqb_refl, andb_false_r in H by (done || lia). done.
Qed.

(** Turn [t] of the loop has drained the bits below [t] at least. *)
Lemma drain_bits_complete fuel w b k : is_word w -> (forall n, 0 <= n < k -> Z.testbit w n = false) -> 64 <= k + Z.of_nat fuel -> 0 <= k ->
  0 <= b < 64 -> Z.testbit w b = true -> b ∈ drain_bits fuel w.
Proof.
  revert w k. induction fuel as [|fuel IH]; intros w k Hw Hlow Hf Hk Hb Ht.
  { rewrite Hlow in Ht by lia. done. }
  assert (Hne : w <> 0) by (intros ->; by rewrite Z.bits_0 in Ht). cbn. rewrite (proj2 (Z.eqb_neq w 0)) by done.
  destruct (trailing_zeros_spec w Hw Hne) as (Hr & Htz & Hz). destruct (Z.eq_dec b (trailing_zeros w)) as [->|Hbt]; [left|right].
  assert (Hkt : k <= trailing_zeros w).
  { destruct (Z.lt_ge_cases (trailing_zeros w) k); [|done]. rewrite Hlow in Htz by lia. done. }
  apply (IH _ (trailing_zeros w + 1)); [by apply lowest_word| |lia|lia|done|].
  - intros n Hn. rewrite lowest_cleared by (done || lia). destruct (Z.eqb_spec n (trailing_zeros w)); [by rewrite andb_false_r|].
    rewrite Hz by lia. done.
  - rewrite lowest_cleared, Ht by (done || lia). cbn. apply negb_true_iff, Z.eqb_neq. done.
Qed.

#[global] Arguments drain_bits : simpl never.
#[global] Arguments word_slots : simpl never.
#[global] Arguments trailing_zeros : simpl never.

Lemma drain_bits_spec w : is_word w -> drain_bits 64 w ≡ₚ filter (fun b => Z.testbit w b = true) bits64.
Proof.
  intros Hw. apply NoDup_Permutation; [by apply drain_bits_nodup|apply NoDup_filter, NoDup_seqZ|].
  intros b. rewrite list_elem_of_filter, elem_of_bits64. split.
  - intros H. apply drain_bits_elem in H; tauto.
  - intros [H1 H2]. apply (drain_bits_complete 64 w b 0); [done| |lia|lia|done|done]. intros; lia.
Qed.

Lemma drain_bits_count w : is_word w -> length (drain_bits 64 w) = count_ones w.
Proof. intros Hw. apply Permutation_length, drain_bits_spec, Hw. Qed.

Lemma elem_of_drain w b : is_word w -> b ∈ drain_bits 64 w <-> 0 <= b < 64 /\ Z.testbit w b = true.
Proof. intros Hw. rewrite drain_bits_spec, list_elem_of_filter, elem_of_bits64 by done. tauto. Qed.

Lemma elem_of_word_slots i w s : is_word w -> s ∈ word_slots i w <-> 0 <= s /\ s / 64 = Z.of_nat i /\ Z.testbit w (s mod 64) = true.
Proof.
  intros Hw. unfold word_slots. rewrite list_elem_of_fmap. split.
  - intros (b & -> & Hb). apply elem_of_drain in Hb as [Hb Ht]; [|done]. destruct (index_join i b Hb) as [-> ->]. split; [lia|done].
  - intros (H0 & Hd & Ht). exists (s mod 64). split; [pose proof (Z.div_mod s 64); lia|]. apply elem_of_drain; [done|].
    split; [apply Z.mod_pos_bound; lia|done].
Qed.

(** ** Pending slots of a run *)
Definition words_of (pending : gmap nat Z) : Prop := forall i w, pending !! i = Some w -> is_word w /\ w <> 0.

Definition pending_bit (pending : gmap nat Z) (s : Z) : bool :=
  match pending !! Z.to_nat (s / 64) with Some w => Z.testbit w (s mod 64) | None => false end.

Lemma elem_of_pending_slots F s : words_of (pending_words F) ->
  s ∈ pending_slots F <-> 0 <= s /\ pending_bit (pending_words F) s = true.
Proof.
  intros HW. unfold pending_slots, pending_bit. rewrite list_elem_of_bind. split.
  - intros ([i w] & Hs & Hin). apply elem_of_map_to_list in Hin. destruct (HW i w Hin) as [Hw _]. cbn in Hs.
    apply elem_of_word_slots in Hs as (H0 & Hd & Ht); [|done]. by rewrite Hd, Nat2Z.id, Hin.
  - intros [H0 Hb]. destruct (pending_words F !! _) as [w|] eqn:E; [|done]. destruct (HW _ w E) as [Hw _].
    exists (Z.to_nat (s / 64), w). split; [|by apply elem_of_map_to_list]. cbn. apply elem_of_word_slots; [done|].
    split_and!; [done| |done]. rewrite Z2Nat.id; [done|]. apply Z.div_pos; lia.
Qed.

Lemma NoDup_bind {A B} (f : A -> list B) (l : list A) : NoDup l -> (forall x, x ∈ l -> NoDup (f x)) ->
  (forall x y b, x ∈ l -> y ∈ l -> b ∈ f x -> b ∈ f y -> x = y) -> NoDup (l ≫= f).
Proof.
  induction 1 as [|x l Hx Hl IH]; intros Hf Hd; [constructor|]. cbn. apply NoDup_app. split_and!.
  - apply Hf. left.
  - intros b Hb (y & Hby & Hy)%list_elem_of_bind. assert (x = y) as -> by (apply (Hd x y b); [left|by right|done|done]). done.
  - apply IH; [intros; apply Hf; by right|]. intros y z b Hy Hz. apply Hd; by right.
Qed.

Lemma pending_slots_nodup F : words_of (pending_words F) -> NoDup (pending_slots F).
Proof.
  intros HW. apply NoDup_bind; [apply NoDup_map_to_list| |].
  - intros [i w] Hin%elem_of_map_to_list. apply NoDup_fmap_2; [intros ? ? ?; lia|]. apply drain_bits_nodup. by apply (HW i w).
  - intros [i w] [j v] s Hi%elem_of_map_to_list Hj%elem_of_map_to_list. cbn. intros Hs Ht.
    apply elem_of_word_slots in Hs as (_ & Hs & _); [|by apply (HW i w)]. apply elem_of_word_slots in Ht as (_ & Ht & _); [|by apply (HW j v)].
    assert (i = j) as -> by lia. congruence.
Qed.

(** ** The invariant *)

(** The identifier of the class at an index. *)
Definition cid (i : nat) : AllocationClassId := Build_AllocationClassId (Z.of_nat i + 1).

Lemma class_index_cid i : class_index (cid i) = Some i.
Proof. unfold class_index, checked_sub. cbn. destruct (Z.leb_spec 1 (Z.of_nat i + 1)); [|lia]. cbn. f_equal. lia. Qed.

Lemma cid_inj i j : cid i = cid j -> i = j.
Proof. unfold cid. intros [= H]. lia. Qed.

Lemma class_id_ok {E} i : Z.of_nat i < usize_max -> class_id (E:=E) i = Ok (cid i).
Proof.
  intros H. unfold class_id. rewrite checked_add_fits by lia. cbn. unfold AllocationClassId_new. by destruct (Z.eqb_spec (Z.of_nat i + 1) 0); [lia|].
Qed.

Definition class_wf (A : Arena) (i : nat) (C : AllocationClassEntry) : Prop :=
  (forall t, t ∈ class_runs C -> target_ok A t (cid i) /\ target_geometry t = class_geometry C) /\
  (forall l, l ∈ run_locations C <-> exists t, t ∈ class_runs C /\ target_location t = l) /\
  NoDup (target_location <$> class_runs C) /\
  match frontier_index C, frontier C with
  | None, None => True
  | Some k, Some t => class_runs C !! k = Some t
  | _, _ => False
  end.

(** What a class keeps for good. *)
Definition class_key (C : AllocationClassEntry) : ObjectMetadata * RunGeometry := (metadata C, class_geometry C).

Record batch_run_wf (A : Arena) (cs : list AllocationClassEntry) (l : RunLocation) (F : FinalizationRun) : Prop := {
  bf_location : target_location (run_target F) = l;
  bf_target : target_ok A (run_target F) (fr_class F);
  bf_class : exists i C, fr_class F = cid i /\ cs !! i = Some C /\ metadata C = fr_metadata F /\ needs_drop (fr_metadata F) = true /\
    class_geometry C = target_geometry (run_target F) /\
    (if is_detached F then l ∉ run_locations C else run_target F ∈ class_runs C);
  bf_words : words_of (pending_words F);
  bf_pending : forall s, s ∈ pending_slots F -> s < slot_count (target_geometry (run_target F)) /\ slot_allocated A (pending_owner F s) = true;
  bf_count : fr_pending_slot_count F = length (pending_slots F);
  bf_nonempty : pending_words F <> ∅;
  bf_detached : is_detached F = true -> forall s, 0 <= s < slot_count (target_geometry (run_target F)) ->
    slot_allocated A (pending_owner F s) = true -> s ∈ pending_slots F;
}.

Definition pending_list (b : FinalizationBatch) : list RunOwner :=
  map_to_list (batch_runs b) ≫= fun lF => pending_owner lF.2 <$> pending_slots lF.2.

(** The slot waits for its destructor. *)
Definition is_pending (D : ManagedData) (o : RunOwner) : bool :=
  match batch_runs (finalization_batch D) !! owner_location o with Some F => contains_owner F o | None => false end.

Definition class_run_count (cs : list AllocationClassEntry) : nat := sum_list_with (fun C => length (class_runs C)) cs.

Record heap_wf (D : ManagedData) : Prop := {
  hw_arena : arena_wf (arena D);
  hw_ids : Z.of_nat (length (classes D)) < usize_max;
  hw_class : forall i C, classes D !! i = Some C -> class_wf (arena D) i C;
  hw_retired : retired_no_drop_runs D = [];
  hw_batch : forall l F, batch_runs (finalization_batch D) !! l = Some F -> batch_run_wf (arena D) (classes D) l F;
  hw_total : batch_pending (finalization_batch D) = length (pending_list (finalization_batch D));
  hw_running : (running_finalizers D <= batch_pending (finalization_batch D))%nat;
  hw_free_nodup : NoDup (free_runs D);
  hw_free : forall l, l ∈ free_runs D -> exists r, run_of (arena D) l = Some r /\ header_is_empty (header r) = true;
  hw_assigned : assigned_runs (allocation_pressure D) = (class_run_count (classes D) + detached_run_count (finalization_batch D))%nat;
}.

(** ** Pending slots *)
Lemma pending_slot_range F s : words_of (pending_words F) -> s ∈ pending_slots F -> 0 <= s.
Proof. intros HW Hs. by apply elem_of_pending_slots in Hs as []. Qed.

Lemma batch_owner_ok A cs l F s : batch_run_wf A cs l F -> s ∈ pending_slots F -> owner_ok A (pending_owner F s) /\ slot_allocated A (pending_owner F s) = true.
Proof.
  intros HF Hs. destruct (bf_pending _ _ _ _ HF s Hs) as [Hlt Hal]. split; [|done]. destruct (bf_target _ _ _ _ HF) as [HT Ha].
  split_and!; [done|done| |done]. apply (pending_slot_range F); [apply HF|done].
Qed.

Lemma contains_owner_iff F o : words_of (pending_words F) -> 0 <= owner_slot o ->
  contains_owner F o = true <-> exists s, s ∈ pending_slots F /\ o = pending_owner F s.
Proof.
  intros HW H0. unfold contains_owner. split.
  - case_bool_decide as Hd; [|done]. destruct Hd as (Hl & Hr & Hc & Hg). intros Hw. exists (owner_slot o). split.
    + apply elem_of_pending_slots; [done|]. split; [done|]. unfold pending_bit. destruct (pending_words F !! _) as [w|] eqn:E; [|done].
      rewrite land_bit in Hw by (apply Z.mod_pos_bound; lia). done.
    + unfold pending_owner. destruct o. cbn in *. by subst.
  - intros (s & Hs & ->). cbn. rewrite bool_decide_true by done. apply elem_of_pending_slots in Hs as [Hs Hb]; [|done].
    unfold pending_bit in Hb. destruct (pending_words F !! _) as [w|]; [|done]. rewrite land_bit by (apply Z.mod_pos_bound; lia). done.
Qed.

Section heap.
Context (D : ManagedData) (HW : heap_wf D).

Lemma visit_pending_ok {E} : visit_pending_slots (E:=E) (finalization_batch D) = Ok (pending_list (finalization_batch D)).
Proof.
  unfold visit_pending_slots, pending_list.
  assert (Hm : mapM (M:=outcome E) (fun lF => run_pending_owners lF.2) (map_to_list (batch_runs (finalization_batch D))) =
               Ok ((fun lF => pending_owner lF.2 <$> pending_slots lF.2) <$> map_to_list (batch_runs (finalization_batch D)))).
  { apply mapM_Forall2, Forall2_fmap_r, Forall_Forall2_diag, list.Forall_forall. intros [l F] Hin%elem_of_map_to_list.
    pose proof (hw_batch _ HW l F Hin) as HF. unfold run_pending_owners. cbn [snd]. apply mapM_Forall2, Forall2_fmap_r, Forall_Forall2_diag, list.Forall_forall.
    intros s Hs. destruct (bf_pending _ _ _ _ HF s Hs) as [Hlt _]. rewrite (proj2 (Z.ltb_lt _ _) Hlt). done. }
  rewrite Hm. cbn [mbind outcome_bind]. f_equal.
  generalize (map_to_list (batch_runs (finalization_batch D))). induction l as [|[l F] m IH]; [done|]. cbn. by rewrite IH.
Qed.

Lemma elem_of_pending_list o : o ∈ pending_list (finalization_batch D) <-> 0 <= owner_slot o /\ is_pending D o = true.
Proof.
  unfold pending_list, is_pending. rewrite list_elem_of_bind. split.
  - intros ([l F] & (s & -> & Hs)%list_elem_of_fmap & Hin%elem_of_map_to_list). cbn [snd] in *. pose proof (hw_batch _ HW l F Hin) as HF.
    pose proof (pending_slot_range F s (bf_words _ _ _ _ HF) Hs) as H0. split; [done|]. cbn [owner_location pending_owner].
    rewrite (bf_location _ _ _ _ HF), Hin. apply contains_owner_iff; [apply HF|done|]. by exists s.
  - intros [H0 Hp]. destruct (batch_runs (finalization_batch D) !! owner_location o) as [F|] eqn:E; [|done].
    apply contains_owner_iff in Hp as (s & Hs & Ho); [|apply (hw_batch _ HW _ _ E)|done].
    exists (owner_location o, F). split; [cbn; rewrite Ho; by apply list_elem_of_fmap_2|by apply elem_of_map_to_list].
Qed.

Lemma pending_list_nodup : NoDup (pending_list (finalization_batch D)).
Proof.
  apply NoDup_bind; [apply NoDup_map_to_list| |].
  - intros [l F] Hin%elem_of_map_to_list. cbn [snd]. apply NoDup_fmap_2; [intros s s' H; by injection H|].
    apply pending_slots_nodup, (hw_batch _ HW l F Hin).
  - intros [l F] [l' F'] o H1%elem_of_map_to_list H2%elem_of_map_to_list (s & -> & _)%list_elem_of_fmap (s' & Ho & _)%list_elem_of_fmap.
    cbn [snd] in *. assert (l = l') as ->.
    { rewrite <- (bf_location _ _ _ _ (hw_batch _ HW _ _ H1)), <- (bf_location _ _ _ _ (hw_batch _ HW _ _ H2)). by injection Ho. }
    rewrite H1 in H2. by injection H2 as ->.
Qed.

Lemma pending_owner_ok o : o ∈ pending_list (finalization_batch D) -> owner_ok (arena D) o /\ slot_allocated (arena D) o = true.
Proof.
  intros ([l F] & (s & -> & Hs)%list_elem_of_fmap & Hin%elem_of_map_to_list)%list_elem_of_bind. cbn [snd] in *.
  eapply batch_owner_ok; [by apply (hw_batch _ HW)|done].
Qed.

(** Runs of distinct classes are distinct. *)
Lemma class_disjoint i j C C' t t' : classes D !! i = Some C -> classes D !! j = Some C' -> t ∈ class_runs C -> t' ∈ class_runs C' ->
  target_location t = target_location t' -> i = j /\ t = t'.
Proof.
  intros HC HC' Ht Ht' Hl. destruct (hw_class _ HW i C HC) as (HT & _ & HN & _). destruct (hw_class _ HW j C' HC') as (HT' & _).
  destruct (HT t Ht) as [((r & Hr & Hc & Hg) & Ha) _]. destruct (HT' t' Ht') as [((r' & Hr' & Hc' & Hg') & Ha') _].
  rewrite Hl in Hr, Ha. assert (i = j) as -> by (apply cid_inj; congruence). split; [done|].
  destruct t, t'. cbn in *. subst. congruence.
Qed.

Lemma class_targets_ok i C t : classes D !! i = Some C -> t ∈ class_runs C ->
  target_ok (arena D) t (cid i) /\ target_geometry t = class_geometry C.
Proof. intros HC Ht. destruct (hw_class _ HW i C HC) as (HT & _). by apply HT. Qed.

Lemma class_run_in i C t : classes D !! i = Some C -> t ∈ class_runs C -> contains_run C (target_location t) = true.
Proof. intros HC Ht. destruct (hw_class _ HW i C HC) as (_ & HL & _). apply bool_decide_eq_true, HL. by exists t. Qed.
End heap.

(** The slot of a run. *)
Definition run_owner (t : RunClaimTarget) (cls : AllocationClassId) (s : Z) : RunOwner :=
  MkOwner (target_location t) (target_run t) cls (target_geometry t) s.

Lemma run_owner_ok A t cls s : target_ok A t cls -> 0 <= s < slot_count (target_geometry t) -> owner_ok A (run_owner t cls s).
Proof. intros [HT Ha] Hs. by split; [|split]. Qed.

(** ** Classes without some of their runs *)
Definition remove_runs (R : gset RunLocation) (C : AllocationClassEntry) : AllocationClassEntry :=
  MkClass (metadata C) (class_geometry C) None (filter (fun t => target_location t ∉ R) (class_runs C)) (run_locations C ∖ R) None.

Lemma list_find_eq {A} `{!EqDecision A} (l : list A) i x : NoDup l -> l !! i = Some x -> list_find (fun y => y = x) l = Some (i, x).
Proof.
  intros HN Hi. apply list_find_Some. split_and!; [done|done|]. intros j y Hj Hlt ->. pose proof (NoDup_lookup _ _ _ _ HN Hi Hj). lia.
Qed.

Lemma filter_lookup_pos {A} (P : A -> Prop) `{!forall x, Decision (P x)} (l : list A) k x : l !! k = Some x -> P x ->
  filter P l !! length (filter P (take k l)) = Some x.
Proof.
  revert k. induction l as [|y l IH]; intros [|k] Hk HP; cbn in Hk; [done|done| |].
  - injection Hk as ->. cbn. by rewrite decide_True.
  - cbn [take]. rewrite !filter_cons. destruct (decide (P y)); cbn; by apply IH.
Qed.

Lemma filter_ext {A} (P Q : A -> Prop) `{!forall x, Decision (P x), !forall x, Decision (Q x)} (l : list A) :
  (forall x, x ∈ l -> P x <-> Q x) -> filter P l = filter Q l.
Proof.
  induction l as [|y l IH]; intros Hiff; [done|]. rewrite !filter_cons, IH by (intros; apply Hiff; by right).
  pose proof (Hiff y ltac:(left)). destruct (decide (P y)), (decide (Q y)); tauto.
Qed.

Lemma delete_filter {A B} `{!EqDecision B, !Countable B} (f : A -> B) (R : gset B) (l : list A) k x : NoDup (f <$> l) -> l !! k = Some x -> f x ∉ R ->
  delete (length (filter (fun y => f y ∉ R) (take k l))) (filter (fun y => f y ∉ R) l) = filter (fun y => f y ∉ {[f x]} ∪ R) l.
Proof.
  intros HN Hk Hx. rewrite <- (take_drop_middle _ _ _ Hk) at 2 3. pose proof HN as HN'. rewrite <- (take_drop_middle _ _ _ Hk), fmap_app, fmap_cons in HN'.
  apply NoDup_app in HN' as (_ & H1 & [H2 _]%NoDup_cons). rewrite !filter_app, !filter_cons.
  rewrite (decide_True (P:=f x ∉ R)) by done. rewrite (decide_False (P:=f x ∉ {[f x]} ∪ R)) by set_solver.
  rewrite delete_middle. f_equal; apply filter_ext; intros y Hy.
  - assert (f y <> f x). { intros He. apply (H1 (f y)); [by apply list_elem_of_fmap_2|]. rewrite He. left. } set_solver.
  - assert (f y <> f x). { intros He. apply H2. rewrite <- He. by apply list_elem_of_fmap_2. } set_solver.
Qed.

(** ** Marks and leases are not part of the invariant *)
Lemma class_wf_slots A A' i C : same_slots A A' -> class_wf A i C -> class_wf A' i C.
Proof.
  intros HR (HT & H). split; [|done]. intros t Ht. destruct (HT t Ht) as [? ?]. split; [|done].
  eapply same_headers_target; [by apply same_slots_headers|done].
Qed.

Lemma batch_run_wf_slots A A' cs l F : same_slots A A' -> batch_run_wf A cs l F -> batch_run_wf A' cs l F.
Proof.
  intros HR [H1 H2 H3 H4 H5 H6 H7 H8]. split; try done.
  - eapply same_headers_target; [by apply same_slots_headers|done].
  - intros s Hs. rewrite (same_slots_allocated _ _ _ HR). by apply H5.
  - intros Hd s Hs. rewrite (same_slots_allocated _ _ _ HR). by apply H8.
Qed.

Lemma heap_wf_slots D A' : heap_wf D -> arena_wf A' -> same_slots (arena D) A' -> heap_wf (with_arena D A').
Proof.
  intros [H1 H2 H3 H4 H5 H6 H7 H8 H9 H10] W' HR. split; cbn; try done.
  - intros i C HC. eapply class_wf_slots; [done|by apply H3].
  - intros l F HF. eapply batch_run_wf_slots; [done|by apply H5].
  - intros l Hl. destruct (H9 l Hl) as (r & Hr & He). pose proof (proj1 (same_slots_headers _ _ HR) l) as E. rewrite Hr in E. cbn in E.
    destruct (run_of A' l) as [r'|]; [|done]. exists r'. split; [done|]. cbn in E. injection E as ->. done.
Qed.
