(* ===== verification/MarkingFacts.v ===== *)
(** * Marking reaches exactly the reachable objects

    [reach] is reachability from the roots through traced edges and through
    ephemerons whose keys are reachable. Marking ends, does not panic, marks the
    reachable objects and the slots whose destructors are pending and nothing
    else, and clears exactly the reached ephemerons whose keys are not reachable. *)
From stdpp Require Import base option list numbers gmap sets.
From Stdlib Require Import ZArith Lia.
From S2P Require Import Prelude RootPool RunGeometry Bitmaps Arena ArenaFacts Heap Marking.

(** ** [swap_remove] *)
Lemma swap_remove_last {A} (l : list A) x i : swap_remove (l ++ [x]) i = take (length l) (<[i := x]> (l ++ [x])).
Proof. unfold swap_remove. rewrite last_snoc, length_app. cbn. by rewrite Nat.add_sub. Qed.

Lemma swap_remove_perm {A} (l : list A) i p : l !! i = Some p -> l ≡ₚ p :: swap_remove l i.
Proof.
  destruct l as [|x l _] using rev_ind; [done|]. intros Hi. rewrite swap_remove_last. pose proof (lookup_lt_Some _ _ _ Hi) as Hl.
  rewrite length_app in Hl. cbn in Hl. destruct (decide (i = length l)) as [->|Hne].
  - rewrite lookup_app_r, Nat.sub_diag in Hi by lia. injection Hi as ->.
    rewrite insert_app_r_alt, Nat.sub_diag by lia. cbn. rewrite take_app_length. by rewrite Permutation_app_comm.
  - rewrite lookup_app_l in Hi by lia. rewrite insert_app_l, take_app_length' by (rewrite ?length_insert; lia).
    rewrite (Permutation_app_comm l [x]). cbn. rewrite (Permutation_cons_append _ p).
    rewrite <- (take_drop_middle _ _ _ Hi) at 1. rewrite insert_take_drop by lia. solve_Permutation.
Qed.

Lemma swap_remove_before {A} (l : list A) i j : (i < length l)%nat -> (j < i)%nat -> swap_remove l i !! j = l !! j.
Proof.
  destruct l as [|x l _] using rev_ind; [done|]. rewrite length_app. cbn. intros Hi Hj. rewrite swap_remove_last.
  rewrite lookup_take_lt, list_lookup_insert_ne by lia. done.
Qed.

(** ** Objects *)
Definition in_range (a : Z) : Prop := (0 <= a <= usize_max)%Z.

(** The address of an allocated slot of a run its class has. *)
Definition object (D : ManagedData) (a : Z) (o : RunOwner) (m : ObjectMetadata) : Prop :=
  in_range a /\ slot_of (arena D) a = Some o /\ slot_allocated (arena D) o = true /\
  exists index C, class_index (owner_class o) = Some index /\ classes D !! index = Some C /\
    class_geometry C = owner_geometry o /\ contains_run C (owner_location o) = true /\ metadata C = m.

Lemma object_owner D a o m : arena_wf (arena D) -> object D a o m -> owner_ok (arena D) o /\ owner_address o = a.
Proof. intros WA (Hr & Ho & _). by apply slot_of_Some. Qed.

Lemma object_unique D a o m o' m' : object D a o m -> object D a o' m' -> o' = o /\ m' = m.
Proof. intros (_ & H1 & _ & i & C & H2 & H3 & _ & _ & <-) (_ & H4 & _ & i' & C' & H5 & H6 & _ & _ & <-). simplify_eq. done. Qed.

Lemma object_lookup D a o m : arena_wf (arena D) -> object D a o m ->
  collector_slot_in (arena D) (classes D) a = Ok (MkCollectorSlot o m).
Proof.
  intros WA HOb. pose proof (object_owner _ _ _ _ WA HOb) as [HO _]. destruct HOb as (Hr & Ho & Hal & i & C & Hi & HC & Hg & Hc & Hm).
  unfold collector_slot_in, resolve_slot_topology_in. rewrite checked_slot_owner_ok by done. rewrite Ho. cbn [mbind outcome_bind ok_or].
  rewrite Hi. cbn [mbind outcome_bind ok_or]. rewrite HC. cbn [mbind outcome_bind ok_or].
  rewrite Hg, bool_decide_true, Hc, Hm by done. cbn [negb orb mbind outcome_bind fst snd].
  rewrite slot_is_allocated_ok, Hal by done. done.
Qed.

Lemma object_slots D A' a o m : arena_wf (arena D) -> arena_wf A' -> same_slots (arena D) A' -> object (with_arena D A') a o m <-> object D a o m.
Proof.
  intros W W' HR. unfold object. cbn [arena classes with_arena]. split; intros (Hr & Ho & Hal & H).
  - rewrite (same_headers_slot (arena D) A') in Ho by (done || by apply same_slots_headers). by rewrite (same_slots_allocated _ _ _ HR) in Hal.
  - rewrite (same_headers_slot (arena D) A') by (done || by apply same_slots_headers). by rewrite (same_slots_allocated _ _ _ HR).
Qed.

(** ** The bound on the work *)
Lemma owner_in_all A o : arena_wf A -> owner_ok A o -> o ∈ all_owners A.
Proof.
  intros WA ((r & Hr & Hc & Hg) & Ha & Hs). pose proof (run_of_bound A WA _ _ Hr) as Hb. destruct (address_of_run A WA _ _ Hr) as (c & a & Hch & Hrc & Ha' & _).
  rewrite Ha in Ha'. injection Ha' as <-. unfold all_owners. apply list_elem_of_bind. exists (loc_chunk (owner_location o)). split.
  2:{ apply elem_of_seq. split; [lia|]. cbn. by eapply lookup_lt_Some. }
  apply list_elem_of_bind. exists (loc_run (owner_location o)). split; [|apply elem_of_seq; lia].
  destruct o as [l a cls g s]. cbn in *. destruct l as [ci ri]. cbn in *. unfold run_owners. cbn. rewrite Hch, Hrc, Hc, Hg.
  unfold address_of in Ha. cbn in Ha. rewrite Hch in Ha. cbn in Ha. rewrite Ha. apply list_elem_of_fmap. exists s. split; [done|]. apply elem_of_seqZ. lia.
Qed.

Lemma all_owners_ok A o : arena_wf A -> o ∈ all_owners A -> owner_ok A o.
Proof.
  intros WA (ci & (ri & Ho & Hri)%list_elem_of_bind & Hci)%list_elem_of_bind. unfold run_owners in Ho. cbn in Ho.
  destruct (arena_chunks A !! ci) as [c|] eqn:Hc; [|by apply elem_of_nil in Ho].
  destruct (runs c !! ri) as [r|] eqn:Hr; [|by apply elem_of_nil in Ho].
  destruct (header_class_id (header r)) as [cls|] eqn:Hcls; [|by apply elem_of_nil in Ho].
  destruct (header_geometry (header r)) as [g|] eqn:Hg; [|by apply elem_of_nil in Ho].
  destruct (run_address c ri) as [a|] eqn:Ha; [|by apply elem_of_nil in Ho].
  apply list_elem_of_fmap in Ho as (s & -> & Hs%elem_of_seqZ). split_and!; cbn; [|by unfold address_of; cbn; rewrite Hc|lia|lia].
  exists r. split; [|done]. apply run_of_Some. by exists c.
Qed.

Lemma filter_shrinks {A} (P Q : A -> Prop) `{!forall x, Decision (P x), !forall x, Decision (Q x)} l :
  (forall y, y ∈ l -> Q y -> P y) -> (length (filter Q l) <= length (filter P l))%nat.
Proof.
  induction l as [|z k IH]; intros Hsub; [done|]. rewrite !filter_cons. pose proof (Hsub z ltac:(left)).
  specialize (IH ltac:(intros; apply Hsub; [by right|done])). destruct (decide (Q z)), (decide (P z)); cbn; lia || tauto.
Qed.

Lemma filter_decreases {A} (P Q : A -> Prop) `{!forall x, Decision (P x), !forall x, Decision (Q x)} l x :
  (forall y, y ∈ l -> Q y -> P y) -> x ∈ l -> P x -> ~ Q x -> (length (filter Q l) < length (filter P l))%nat.
Proof.
  intros HQP Hx HP HQ. apply list_elem_of_split in Hx as (l1 & l2 & ->). rewrite !filter_app, !length_app, !filter_cons.
  rewrite (decide_True _ _ HP), (decide_False _ _ HQ). cbn.
  pose proof (filter_shrinks P Q l1 ltac:(intros; apply HQP; [set_solver|done])).
  pose proof (filter_shrinks P Q l2 ltac:(intros; apply HQP; [set_solver|done])). lia.
Qed.

Section marking.
Context (trace_of : ObjectMetadata -> Z -> list Visit) (D0 : ManagedData) (pairs : Pairs) (roots : list Z) (pending : list RunOwner).
Notation A0 := (arena D0).

(** ** Reachability *)
Inductive reach : Z -> Prop :=
  | reach_root a : a ∈ roots -> reach a
  | reach_edge a o m b : reach a -> object D0 a o m -> VEdge b ∈ trace_of m a -> reach b
  | reach_ephemeron a o m p key v : reach a -> object D0 a o m -> VEphemeron p ∈ trace_of m a ->
      load_pair pairs p = Ok (Some (key, v)) -> reach key -> reach v.

(** A pair held by a reachable object. *)
Definition held (p : Z) : Prop := exists a o m, reach a /\ object D0 a o m /\ VEphemeron p ∈ trace_of m a.

Definition referenced (a : Z) : Prop :=
  reach a \/ exists p key v, held p /\ load_pair pairs p = Ok (Some (key, v)) /\ (a = key \/ a = v).

(** Every reference leads to an object that waits for no destructor, and the
    pairs held are pairs. *)
Record references_ok : Prop := {
  ref_live : forall a, referenced a -> exists o m, object D0 a o m /\ o ∉ pending;
  ref_pair : forall p, held p -> exists kv, load_pair pairs p = Ok kv;
}.

Definition pending_ok : Prop := NoDup pending /\ forall o, o ∈ pending -> owner_ok A0 o /\ slot_allocated A0 o = true.

Context (WA : arena_wf A0) (HR : references_ok) (HP : pending_ok).

(** ** States of the marking phase *)
Definition extends (st : MarkState) : Prop :=
  st.1 = with_arena D0 (arena st.1) /\ arena_wf (arena st.1) /\ remarked A0 (arena st.1).

(** The slot at address [a] is marked. *)
Definition marked (st : MarkState) (a : Z) : bool := match slot_of A0 a with Some o => slot_marked (arena st.1) o | None => false end.

Definition unmarked (st : MarkState) : nat := length (filter (fun o => slot_marked (arena st.1) o = false) (all_owners A0)).

Definition work_left (st : MarkState) : nat := unmarked st + length (worklist st.2).

Definition settled (st : MarkState) (x : Visit) : Prop :=
  match x with
  | VEdge b => marked st b = true
  | VEphemeron p => forall key v, load_pair pairs p = Ok (Some (key, v)) ->
      (marked st key = true /\ marked st v = true) \/ p ∈ ephemerons st.2
  end.

Definition recorded (p : Z) : Prop := held p /\ exists key v, load_pair pairs p = Ok (Some (key, v)).

Record marking_inv (seeded current : list Z) (st : MarkState) : Prop := {
  mi_extends : extends st;
  mi_sound : forall o, owner_ok A0 o -> slot_marked (arena st.1) o = true -> o ∈ pending \/ reach (owner_address o);
  mi_pending : forall o, o ∈ pending -> slot_marked (arena st.1) o = true;
  mi_work : forall w, w ∈ worklist st.2 -> reach (work_value w) /\ exists o, object D0 (work_value w) o (work_metadata w);
  mi_scanned : forall a o m, reach a -> object D0 a o m -> marked st a = true ->
    MkWork a m ∈ worklist st.2 \/ a ∈ current \/ forall x, x ∈ trace_of m a -> settled st x;
  mi_recorded : forall p, p ∈ ephemerons st.2 -> recorded p;
  mi_seeded : forall a, a ∈ seeded -> marked st a = true;
}.

(** Later states mark more and forget no pair. *)
Definition grows (st st' : MarkState) : Prop :=
  (forall a, in_range a -> marked st a = true -> marked st' a = true) /\ (forall p, p ∈ ephemerons st.2 -> p ∈ ephemerons st'.2).

Lemma marks_grow_refl st : grows st st.
Proof. done. Qed.

Lemma marks_grow_trans st1 st2 st3 : grows st1 st2 -> grows st2 st3 -> grows st1 st3.
Proof. intros [H1 H2] [H3 H4]. split; auto. Qed.

Lemma referenced_range a : referenced a -> in_range a.
Proof. intros H. destruct (ref_live HR a H) as (o & m & (Hr & _) & _). done. Qed.

Lemma roots_range a : a ∈ roots -> in_range a.
Proof. intros H. apply referenced_range. left. by apply reach_root. Qed.

Lemma held_referenced p key v : held p -> load_pair pairs p = Ok (Some (key, v)) -> referenced key /\ referenced v.
Proof. intros Hh Hl. split; right; exists p, key, v; auto. Qed.

Lemma settled_grows st st' x a o m : reach a -> object D0 a o m -> x ∈ trace_of m a -> grows st st' -> settled st x -> settled st' x.
Proof.
  intros Ha Ho Hx [G1 G2]. destruct x as [b|p]; cbn.
  - apply G1. apply referenced_range. left. by eapply reach_edge.
  - assert (Hh : held p) by (exists a, o, m; auto). intros H key v Hl. destruct (held_referenced p key v Hh Hl) as [Hk Hv].
    apply referenced_range in Hk, Hv. destruct (H key v Hl) as [[? ?]|]; [left; auto|right; auto].
Qed.

(** An object stays one when marks change. *)
Lemma object_extends st a o m : extends st -> object D0 a o m -> object st.1 a o m.
Proof.
  intros (E & W & RM) (Hr & Ho & Hal & H). rewrite E. cbn. split; [done|]. split.
  - by rewrite (same_headers_slot A0) by (done || by apply remarked_headers).
  - split; [by rewrite (remarked_allocated A0)|done].
Qed.

Lemma lookup_extends st a o m : extends st -> object D0 a o m ->
  collector_slot_in (arena st.1) (classes st.1) a = Ok (MkCollectorSlot o m).
Proof. intros HE HO. apply object_lookup; [apply HE|]. by apply object_extends. Qed.

Lemma object_range a o m : object D0 a o m -> in_range a.
Proof. by intros []. Qed.

Lemma marked_object st a o m : object D0 a o m -> marked st a = slot_marked (arena st.1) o.
Proof. intros (_ & Ho & _). unfold marked. by rewrite Ho. Qed.

Lemma key_is_marked_ok st a o m : extends st -> object D0 a o m -> key_is_marked st.1 a = Ok (marked st a).
Proof.
  intros HE HO. unfold key_is_marked. rewrite (lookup_extends st a o m HE HO). cbn [mbind outcome_bind slot_owner].
  rewrite slot_is_marked_ok.
  - by rewrite (marked_object st a o m).
  - apply HE.
  - eapply same_headers_owner; [apply remarked_headers, HE|]. by apply (object_owner D0 a o m).
Qed.

(** ** Discovering an object *)
Lemma discover_ok st a o m : extends st -> object D0 a o m ->
  exists D', discover st a = Ok ((D', if marked st a then st.2 else push_work st.2 (MkWork a m)), negb (marked st a)) /\
    extends (D', st.2) /\
    (forall o', owner_ok A0 o' -> slot_marked (arena D') o' = bool_decide (o' = o) || slot_marked (arena st.1) o').
Proof.
  destruct st as [D W]. intros HE HO. pose proof (object_owner D0 a o m WA HO) as [HOo _]. unfold discover.
  pose proof (lookup_extends (D, W) a o m HE HO) as HL. cbn [fst] in HL. rewrite HL. cbn [mbind outcome_bind]. unfold mark_collector_slot_in. cbn [slot_owner].
  pose proof HE as (E & WD & RM). cbn in E, WD, RM.
  assert (HOo' : owner_ok (arena D) o) by (eapply same_headers_owner; [by apply remarked_headers|done]).
  destruct (mark_owner_slot_ok (E:=CollectorLookupError) (arena D) WD o HOo') as (A' & HM & WA' & RM' & Hmarks).
  rewrite HM. cbn [mbind outcome_bind fst snd slot_metadata]. rewrite (marked_object _ a o m HO). cbn [fst snd].
  exists (with_arena D A'). split; [by destruct (slot_marked (arena D) o)|]. split.
  - split_and!; cbn; [by rewrite E|done|by etrans].
  - cbn. intros o' HO'. apply Hmarks. eapply same_headers_owner; [by apply remarked_headers|done].
Qed.

Lemma marked_discover st D' a o m : object D0 a o m ->
  (forall o', owner_ok A0 o' -> slot_marked (arena D') o' = bool_decide (o' = o) || slot_marked (arena st.1) o') ->
  forall W b, in_range b -> marked (D', W) b = bool_decide (b = a) || marked st b.
Proof.
  intros HO HM W b Hb. unfold marked. cbn [fst]. destruct (object_owner D0 a o m WA HO) as [HOo Haddr].
  destruct (slot_of A0 b) as [o'|] eqn:Ho'.
  - apply slot_of_Some in Ho' as [HO' Hb']; [|done..]. rewrite HM by done. f_equal. apply bool_decide_ext.
    split; [intros ->; congruence|]. intros ->. apply (owner_inj A0 o' o WA HO' HOo). congruence.
  - destruct HO as (_ & Ho & _). destruct (bool_decide_reflect (b = a)); [congruence|done].
Qed.

Lemma unmarked_same st st' : (forall o, owner_ok A0 o -> slot_marked (arena st'.1) o = slot_marked (arena st.1) o) -> unmarked st' = unmarked st.
Proof.
  intros H. unfold unmarked. apply Nat.le_antisymm; apply filter_shrinks; intros o Ho; rewrite H by (by apply all_owners_ok); done.
Qed.

(** Marking an object pays for its place on the worklist. *)
Lemma unmarked_discover st D' W a o m : object D0 a o m -> slot_marked (arena st.1) o = false ->
  (forall o', owner_ok A0 o' -> slot_marked (arena D') o' = bool_decide (o' = o) || slot_marked (arena st.1) o') ->
  (unmarked (D', W) < unmarked st)%nat.
Proof.
  intros HOb Hu HM. destruct (object_owner D0 a o m WA HOb) as [HO _]. apply filter_decreases with o; cbn.
  - intros o' Ho'. rewrite HM by (by apply all_owners_ok). by intros [_ ?]%orb_false_iff.
  - by apply owner_in_all.
  - done.
  - rewrite HM, bool_decide_true by done. done.
Qed.

(** [discover] on a referenced address, as a step of the invariant. *)
Lemma discover_inv seeded current st a o m : (forall b, b ∈ seeded -> in_range b) -> marking_inv seeded current st -> reach a -> object D0 a o m ->
  exists st', discover st a = Ok (st', negb (marked st a)) /\ marking_inv seeded current st' /\ grows st st' /\ marked st' a = true /\
    (work_left st' <= work_left st)%nat /\ ephemerons st'.2 = ephemerons st.2 /\
    (if marked st a then worklist st'.2 = worklist st.2 /\ (forall b, in_range b -> marked st' b = marked st b) /\ unmarked st' = unmarked st
     else worklist st'.2 = MkWork a m :: worklist st.2).
Proof.
  intros HS HI Ha HO. pose proof (mi_extends _ _ _ HI) as HE. destruct (discover_ok st a o m HE HO) as (D' & Hd & HE' & HM).
  set (W' := if marked st a then st.2 else push_work st.2 (MkWork a m)) in *. exists (D', W').
  assert (Hmk : forall W b, in_range b -> marked (D', W) b = bool_decide (b = a) || marked st b) by (by eapply marked_discover).
  assert (Hra : in_range a) by (by eapply object_range).
  assert (Hep : ephemerons W' = ephemerons st.2) by (unfold W'; by case_match).
  assert (Hmo : marked st a = slot_marked (arena st.1) o) by (by eapply marked_object).
  assert (HG : grows st (D', W')).
  { split; [intros b Hb Hm; rewrite Hmk by done; rewrite Hm; by rewrite orb_true_r|]. intros p. cbn [snd]. by rewrite Hep. }
  split_and!; [done| |done|by rewrite Hmk, bool_decide_true| |done|].
  - split.
    + destruct HE' as (? & ? & ?). by split_and!.
    + intros o' HO' Hm. cbn [fst] in Hm. rewrite HM in Hm by done. destruct (bool_decide_reflect (o' = o)) as [->|Hne].
      * right. destruct (object_owner D0 a o m WA HO) as [_ ->]. done.
      * by apply (mi_sound _ _ _ HI).
    + intros o' Hp. cbn [fst]. rewrite HM by (by apply HP). rewrite (mi_pending _ _ _ HI) by done. apply orb_true_r.
    + intros w. cbn [snd]. unfold W'. destruct (marked st a); [apply (mi_work _ _ _ HI)|]. cbn. intros [->|Hw]%elem_of_cons; [by eauto|].
      by apply (mi_work _ _ _ HI).
    + intros b o' m' Hb Hob Hm. rewrite Hmk in Hm by (by eapply object_range). cbn [snd].
      destruct (marked st b) eqn:Emb.
      * destruct (mi_scanned _ _ _ HI b o' m' Hb Hob Emb) as [Hw|[Hc|Hs]]; [left; unfold W'; case_match; [done|by right]|by right; left|].
        right; right. intros x Hx. eapply settled_grows; [done..|]. by apply Hs.
      * rewrite orb_false_r in Hm. apply bool_decide_eq_true in Hm as ->. left. unfold W'. rewrite Emb. cbn.
        destruct (object_unique _ _ _ _ _ _ HO Hob) as [-> ->]. left.
    + intros p. cbn [snd]. rewrite Hep. apply (mi_recorded _ _ _ HI).
    + intros b Hb. pose proof (mi_seeded _ _ _ HI b Hb) as Hmb. rewrite Hmk, Hmb; [by rewrite orb_true_r|].
      by apply HS.
  - unfold work_left. cbn [snd]. unfold W'. destruct (marked st a) eqn:Em.
    + rewrite (unmarked_same st); [done|]. intros o' HO'. cbn [fst]. rewrite HM by done. destruct (bool_decide_reflect (o' = o)) as [->|]; [by rewrite <- Hmo|done].
    + cbn. pose proof (unmarked_discover st D' (push_work st.2 (MkWork a m)) a o m HO ltac:(congruence) HM). lia.
  - unfold W'. destruct (marked st a) eqn:Em; [|done]. split_and!; [done| |].
    + intros b Hb. rewrite Hmk by done. destruct (bool_decide_reflect (b = a)) as [->|]; [by rewrite Em|done].
    + apply unmarked_same. intros o' HO'. cbn [fst]. rewrite HM by done. destruct (bool_decide_reflect (o' = o)) as [->|]; [by rewrite <- Hmo|done].
Qed.

(** One visit of a trace settles it. *)
Lemma visit_inv a o m st x : marking_inv roots [a] st -> reach a -> object D0 a o m -> x ∈ trace_of m a ->
  exists st', visit pairs st x = Ok st' /\ marking_inv roots [a] st' /\ grows st st' /\ settled st' x /\ (work_left st' <= work_left st)%nat.
Proof.
  intros HI Ha HO Hx.
  assert (Hedge : forall b, reach b -> exists st', edge st b = Ok st' /\ marking_inv roots [a] st' /\ grows st st' /\ marked st' b = true /\ (work_left st' <= work_left st)%nat).
  { intros b Hb. destruct (ref_live HR b ltac:(by left)) as (ob & mb & HOb & _).
    destruct (discover_inv roots [a] st b ob mb roots_range HI Hb HOb) as (st' & Hd & HI' & HG & Hm & Hw & _). exists st'. unfold edge. rewrite Hd. done. }
  destruct x as [b|p]; cbn [visit].
  - destruct (Hedge b ltac:(by eapply reach_edge)) as (st' & ? & ? & ? & ? & ?). by exists st'.
  - assert (Hh : held p) by (exists a, o, m; auto). unfold ephemeron. destruct (ref_pair HR p Hh) as ([[key v]|] & Hl); rewrite Hl; cbn [mbind outcome_bind].
    2:{ exists st. split_and!; [done|done|apply marks_grow_refl| |done]. cbn. intros key v H. congruence. }
    destruct (held_referenced p key v Hh Hl) as [Hk Hv]. destruct (ref_live HR key Hk) as (ok & mk & HOk & Hnp).
    rewrite (key_is_marked_ok st key ok mk (mi_extends _ _ _ HI) HOk). cbn [raise mbind outcome_bind].
    destruct (marked st key) eqn:Em.
    + assert (Hrk : reach key).
      { rewrite (marked_object st key ok mk HOk) in Em. destruct (object_owner D0 key ok mk WA HOk) as [HOok <-].
        by destruct (mi_sound _ _ _ HI ok HOok Em). }
      destruct (Hedge v (reach_ephemeron a o m p key v Ha HO Hx Hl Hrk)) as (st' & ? & ? & HG & Hm & ?). exists st'. split_and!; [done..| |done].
      cbn. intros key' v' Hl'. rewrite Hl in Hl'. injection Hl' as <- <-. left. split; [|done]. apply HG; [by eapply object_range|done].
    + set (st' := (st.1, MkAttempt (worklist st.2) (ephemerons st.2 ++ [p]))). exists st'.
      assert (HG : grows st st') by (split; [done|]; intros q; cbn; set_solver).
      split_and!; [done| |done| |done].
      * split; [apply HI|apply HI|apply HI|apply HI| | |apply HI].
        -- intros b ob mb Hb HOb Hmb. destruct (mi_scanned _ _ _ HI b ob mb Hb HOb Hmb) as [?|[?|Hs]]; [by left|by right; left|].
           right; right. intros x Hx'. eapply settled_grows; [done..|]. by apply Hs.
        -- intros q. cbn. intros [Hq| ->%list_elem_of_singleton]%elem_of_app; [by apply (mi_recorded _ _ _ HI)|]. split; [done|]. by exists key, v.
      * cbn. intros key' v' _. right. set_solver.
Qed.

(** A whole trace. *)
Lemma trace_inv a o m st : marking_inv roots [a] st -> reach a -> object D0 a o m ->
  exists st', foldM (visit pairs) st (trace_of m a) = Ok st' /\ marking_inv roots [] st' /\ (work_left st' <= work_left st)%nat.
Proof.
  intros HI Ha HO.
  destruct (foldM_inv (visit pairs) (fun don s => marking_inv roots [a] s /\ (work_left s <= work_left st)%nat /\ forall x, x ∈ don -> settled s x)
    (trace_of m a) st) as (st' & Hf & HI' & Hw & Hs).
  - split_and!; [done|done|]. intros x Hx. by apply elem_of_nil in Hx.
  - intros don x rest s Heq (HIs & Hws & Hss). assert (Hsub : forall y, y ∈ don \/ y = x -> y ∈ trace_of m a) by (rewrite Heq; set_solver).
    destruct (visit_inv a o m s x HIs Ha HO) as (s' & Hv & HI' & HG & Hx & Hw); [apply Hsub; by right|].
    exists s'. split; [done|]. split_and!; [done|lia|]. intros y [Hy| ->%list_elem_of_singleton]%elem_of_app; [|done].
    eapply settled_grows; [done|done|apply Hsub; by left|done|by apply Hss].
  - exists st'. split; [done|]. split; [|done]. destruct HI' as [? ? ? ? Hsc ? ?]. split; [done..| |done|done].
    intros b ob mb Hb HOb Hmb. destruct (Hsc b ob mb Hb HOb Hmb) as [?|[->%list_elem_of_singleton|?]]; [by left| |by right; right].
    destruct (object_unique _ _ _ _ _ _ HO HOb) as [-> ->]. right; right. done.
Qed.

(** Draining the worklist. *)
Lemma trace_worklist_inv fuel st : marking_inv roots [] st -> (work_left st < fuel)%nat ->
  exists st', trace_worklist trace_of fuel pairs st = Ok st' /\ marking_inv roots [] st' /\ worklist st'.2 = [] /\
    (work_left st' + (if worklist st.2 then 0 else 1) <= work_left st)%nat.
Proof.
  revert st. induction fuel as [|fuel IH]; intros st HI Hw; [lia|]. cbn [trace_worklist].
  destruct (worklist st.2) as [|[a m] rest] eqn:Ew.
  - exists st. split_and!; [done|done|done|lia].
  - destruct (mi_work _ _ _ HI (MkWork a m)) as (Ha & o & HO); [rewrite Ew; left|]. cbn [work_value work_metadata] in *.
    set (st1 := (st.1, MkAttempt rest (ephemerons st.2))).
    assert (HI1 : marking_inv roots [a] st1).
    { destruct HI as [? ? ? Hwk Hsc ? ?]. split; [assumption..| | |assumption|assumption].
      - intros w Hin. apply Hwk. rewrite Ew. by right.
      - intros b ob mb Hb HOb Hmb. destruct (Hsc b ob mb Hb HOb Hmb) as [Hin|[Hin|Hs]]; [|by apply elem_of_nil in Hin|by right; right].
        rewrite Ew in Hin. apply elem_of_cons in Hin as [[= -> ->]|Hin]; [right; left; left|by left]. }
    destruct (trace_inv a o m st1 HI1 Ha HO) as (st2 & Hf & HI2 & Hw2).
    assert (Hlt : (S (work_left st1) <= work_left st)%nat) by (unfold work_left, unmarked, st1; rewrite Ew; cbn; lia).
    fold st1. rewrite Hf. cbn [mbind outcome_bind]. destruct (IH st2 HI2) as (st3 & Ht & HI3 & Hnil & Hw3); [lia|].
    exists st3. split_and!; [done..|lia].
Qed.

(** ** The rounds over recorded ephemerons *)
Lemma settled_remove st index p key v x : ephemerons st.2 !! index = Some p -> load_pair pairs p = Ok (Some (key, v)) ->
  marked st key = true -> marked st v = true -> settled st x ->
  settled (st.1, MkAttempt (worklist st.2) (swap_remove (ephemerons st.2) index)) x.
Proof.
  intros Hp Hl Hk Hv. destruct x as [b|q]; [done|]. cbn. intros H key' v' Hl'. destruct (H key' v' Hl') as [?|Hq]; [by left|].
  rewrite (swap_remove_perm _ _ _ Hp) in Hq. apply elem_of_cons in Hq as [->|]; [|by right].
  rewrite Hl in Hl'. injection Hl' as <- <-. by left.
Qed.

Lemma remove_inv st index p key v : marking_inv roots [] st -> ephemerons st.2 !! index = Some p -> load_pair pairs p = Ok (Some (key, v)) ->
  marked st key = true -> marked st v = true ->
  marking_inv roots [] (st.1, MkAttempt (worklist st.2) (swap_remove (ephemerons st.2) index)).
Proof.
  intros HI Hp Hl Hk Hv. pose proof HI as [? ? ? ? Hsc Hrec ?]. split; [assumption..| | |assumption].
  - intros b ob mb Hb HOb Hmb. destruct (Hsc b ob mb Hb HOb Hmb) as [?|[?|Hs]]; [by left|by right; left|].
    right; right. intros x Hx. eapply settled_remove; [done..|]. by apply Hs.
  - intros q Hq. apply Hrec. rewrite (swap_remove_perm _ _ _ Hp). by right.
Qed.

(** The keys of the recorded pairs before [index] are not marked. *)
Definition keys_unmarked (st : MarkState) (index : nat) : Prop :=
  forall i p key v, (i < index)%nat -> ephemerons st.2 !! i = Some p -> load_pair pairs p = Ok (Some (key, v)) -> marked st key = false.

Lemma recorded_pair st i p : marking_inv roots [] st -> ephemerons st.2 !! i = Some p ->
  exists key v, held p /\ load_pair pairs p = Ok (Some (key, v)) /\ (exists o m, object D0 key o m /\ o ∉ pending) /\
    (exists o m, object D0 v o m).
Proof.
  intros HI Hp. destruct (mi_recorded _ _ _ HI p) as (Hh & key & v & Hl); [by eapply list_elem_of_lookup_2|].
  exists key, v. destruct (held_referenced p key v Hh Hl) as [Hk Hv]. split_and!; [done|done|by apply (ref_live HR)|].
  destruct (ref_live HR v Hv) as (o & m & ? & _). by exists o, m.
Qed.

Lemma reach_marked_key st key o m : marking_inv roots [] st -> object D0 key o m -> o ∉ pending -> marked st key = true -> reach key.
Proof.
  intros HI HO Hn Hm. rewrite (marked_object st key o m HO) in Hm. destruct (object_owner D0 key o m WA HO) as [HOo <-].
  by destruct (mi_sound _ _ _ HI o HOo Hm).
Qed.

Lemma ephemeron_pass_inv fuel st index (found : bool) : marking_inv roots [] st ->
  (length (ephemerons st.2) - index < fuel)%nat -> (index <= length (ephemerons st.2))%nat ->
  (if found then worklist st.2 <> [] else worklist st.2 = [] /\ keys_unmarked st index) ->
  exists st' (found' : bool), ephemeron_pass fuel pairs st index found = Ok (st', found') /\ marking_inv roots [] st' /\ (work_left st' <= work_left st)%nat /\
    (if found' then worklist st'.2 <> [] else worklist st'.2 = [] /\ keys_unmarked st' (length (ephemerons st'.2))).
Proof.
  revert st index found. induction fuel as [|fuel IH]; intros st index found HI Hfuel Hidx Hfound; [lia|]. cbn [ephemeron_pass].
  destruct (ephemerons st.2 !! index) as [p|] eqn:Hp.
  2:{ apply lookup_ge_None in Hp. exists st, found. split_and!; [done|done|done|]. destruct found; [done|].
      by replace (length (ephemerons st.2)) with index by lia. }
  pose proof (lookup_lt_Some _ _ _ Hp) as Hlt.
  destruct (recorded_pair st index p HI Hp) as (key & v & Hh & Hl & (ok & mk & HOk & Hnk) & (ov & mv & HOv)).
  rewrite Hl. cbn [mbind outcome_bind expect fst snd]. rewrite (key_is_marked_ok st key ok mk (mi_extends _ _ _ HI) HOk). cbn [raise mbind outcome_bind].
  destruct (marked st key) eqn:Ek.
  2:{ apply IH; [done|lia|lia|]. destruct found; [done|]. destruct Hfound as [? Hf]. split; [done|].
      intros i q key' v' Hi Hq Hl'. destruct (decide (i = index)) as [->|]; [|by apply (Hf i q key' v'); [lia|..]].
      rewrite Hp in Hq. injection Hq as <-. congruence. }
  assert (Hrk : reach key) by (by eapply reach_marked_key). assert (Hrv : reach v) by (destruct Hh as (a & o & m & Ha & HO & Hx); exact (reach_ephemeron a o m p key v Ha HO Hx Hl Hrk)).
  destruct (discover_inv roots [] st v ov mv roots_range HI Hrv HOv) as (st1 & Hd & HI1 & HG & Hv1 & Hw1 & He1 & Hcase).
  rewrite Hd. cbn [raise mbind outcome_bind fst snd].
  assert (Hk1 : marked st1 key = true) by (apply HG; [by eapply object_range|done]).
  assert (Hp1 : ephemerons st1.2 !! index = Some p) by (by rewrite He1).
  set (st2 := (st1.1, MkAttempt (worklist st1.2) (swap_remove (ephemerons st1.2) index))).
  assert (HI2 : marking_inv roots [] st2) by (by apply (remove_inv st1 index p key v)).
  assert (Hlen : length (ephemerons st.2) = S (length (ephemerons st2.2))).
  { rewrite <- He1. apply (Permutation_length (swap_remove_perm _ _ _ Hp1)). }
  destruct (IH st2 index (found || negb (marked st v))) as (st' & found' & Hpass & HI' & Hw' & Hr); [done|lia|lia| |].
  - destruct found; cbn [orb].
    + change (worklist st1.2 <> []). destruct (marked st v); [destruct Hcase as (-> & _); done|by rewrite Hcase].
    + destruct Hfound as [Hnil Hun]. destruct (marked st v); cbn [negb]; [|change (worklist st1.2 <> []); by rewrite Hcase]. destruct Hcase as (Hwl & Hsame & _).
      split; [cbn; congruence|]. intros i q key' v' Hi Hq Hl'. cbn in Hq. rewrite He1, swap_remove_before in Hq by lia.
      change (marked st1 key' = false). destruct (recorded_pair st i q HI Hq) as (key2 & v2 & _ & Hl2 & (o2 & m2 & HO2 & _) & _).
      rewrite Hl' in Hl2. injection Hl2 as -> ->. rewrite Hsame by (by eapply object_range). by apply (Hun i q key2 v2).
  - exists st', found'. split_and!; [done|done| |done]. unfold work_left, unmarked, st2 in Hw'. cbn in Hw'. unfold work_left, unmarked in *. lia.
Qed.

(** The state when marking ends. *)
Record marked_all (st : MarkState) : Prop := {
  ma_inv : marking_inv roots [] st;
  ma_drained : worklist st.2 = [];
  ma_keys : keys_unmarked st (length (ephemerons st.2));
}.

Lemma trace_ephemerons_inv fuel st : marking_inv roots [] st -> worklist st.2 = [] -> (work_left st < fuel)%nat ->
  exists st', trace_ephemerons trace_of fuel pairs st =
    Ok ((st'.1, MkAttempt (worklist st'.2) []), foldl clear_pair pairs (ephemerons st'.2)) /\ marked_all st'.
Proof.
  revert st. induction fuel as [|fuel IH]; intros st HI Hnil Hw; [lia|]. cbn [trace_ephemerons].
  destruct (ephemeron_pass_inv (S (length (ephemerons st.2))) st 0 false HI) as (st1 & found & Hp & HI1 & Hw1 & Hr); [lia|lia|split; [done|intros ? **; lia]|].
  rewrite Hp. cbn [mbind outcome_bind]. destruct found.
  - destruct (trace_worklist_inv (S fuel) st1 HI1) as (st2 & Ht & HI2 & Hn2 & Hw2); [lia|]. rewrite Ht. cbn [mbind outcome_bind].
    destruct (worklist st1.2) as [|w1 wl1] eqn:E1; [done|]. apply IH; [done|done|lia].
  - exists st1. split; [done|]. by destruct Hr.
Qed.

Lemma marked_all_reach st a : marked_all st -> reach a -> marked st a = true.
Proof.
  intros [HI Hnil Hk] Ha.
  assert (Hset : forall a o m x, reach a -> marked st a = true -> object D0 a o m -> x ∈ trace_of m a -> settled st x).
  { intros b o m x Hb Hm HO Hx. destruct (mi_scanned _ _ _ HI b o m Hb HO Hm) as [Hw|[Hc|Hs]]; [|by apply elem_of_nil in Hc|by apply Hs].
    rewrite Hnil in Hw. by apply elem_of_nil in Hw. }
  induction Ha as [a Ha|a o m b Ha IH HO Hx|a o m p key v Ha IH HO Hx Hl Hrk IHk].
  - by apply (mi_seeded _ _ _ HI).
  - exact (Hset a o m (VEdge b) Ha IH HO Hx).
  - destruct (Hset a o m (VEphemeron p) Ha IH HO Hx key v Hl) as [[_ ?]|Hin]; [done|].
    apply list_elem_of_lookup in Hin as (i & Hi). pose proof (Hk i p key v (lookup_lt_Some _ _ _ Hi) Hi Hl). congruence.
Qed.

Lemma marked_all_ephemerons st p : marked_all st ->
  p ∈ ephemerons st.2 <-> held p /\ exists key v, load_pair pairs p = Ok (Some (key, v)) /\ ~ reach key.
Proof.
  intros HM. pose proof HM as [HI Hnil Hk]. split.
  - intros Hin. apply list_elem_of_lookup in Hin as (i & Hi). destruct (recorded_pair st i p HI Hi) as (key & v & Hh & Hl & _).
    split; [done|]. exists key, v. split; [done|]. intros Hr%(marked_all_reach st key HM).
    pose proof (Hk i p key v (lookup_lt_Some _ _ _ Hi) Hi Hl). congruence.
  - intros ((a & o & m & Ha & HO & Hx) & key & v & Hl & Hn). pose proof (marked_all_reach st a HM Ha) as Hm.
    destruct (mi_scanned _ _ _ HI a o m Ha HO Hm) as [Hw|[Hc|Hs]]; [rewrite Hnil in Hw; by apply elem_of_nil in Hw|by apply elem_of_nil in Hc|].
    destruct (Hs _ Hx key v Hl) as [[Hmk _]|]; [|done]. exfalso. apply Hn.
    destruct (held_referenced p key v ltac:(by exists a, o, m) Hl) as [Hkr _]. destruct (ref_live HR key Hkr) as (ok & mk & HOk & Hnp).
    by apply (reach_marked_key st key ok mk).
Qed.

(** ** Seeding *)
Lemma seed_inv st : marking_inv [] [] st -> visit_live (root_pool st.1) = Ok roots ->
  exists st', seed_registered_roots st = Ok st' /\ marking_inv roots [] st' /\ (work_left st' <= work_left st)%nat.
Proof.
  intros HI Hv. unfold seed_registered_roots. rewrite Hv. cbn [mbind outcome_bind].
  destruct (foldM_inv seed_root (fun don s => s.2 = None /\ marking_inv don [] s.1 /\ (work_left s.1 <= work_left st)%nat) roots (st, None))
    as ([st' e] & Hf & He & HI' & Hw).
  - done.
  - intros don a rest [s e] Heq (He & HIs & Hws). cbn [fst snd] in *. subst e. unfold seed_root. cbn [fst snd].
    assert (Ha : a ∈ roots) by (rewrite Heq; set_solver). pose proof (reach_root _ Ha) as Hra. destruct (ref_live HR a ltac:(by left)) as (o & m & HO & _).
    destruct (discover_inv don [] s a o m) as (s' & Hd & HI' & HG & Hm & Hw & _); [|done..|].
    { intros b Hb. apply roots_range. rewrite Heq. set_solver. }
    rewrite Hd. eexists. split; [done|]. cbn [fst snd]. split_and!; [done| |lia].
    destruct HI' as [? ? ? ? ? ? Hse]. split; [done..|]. intros b [Hb| ->%list_elem_of_singleton]%elem_of_app; [by apply Hse|done].
  - rewrite Hf. cbn [mbind outcome_bind fst snd] in *. rewrite He. by exists st'.
Qed.
End marking.

(** ** Clearing marks and retaining pending slots *)
Lemma run_of_clear A l : run_of (clear_assigned_mark_bitmaps A) l = clear_run_marks <$> run_of A l.
Proof.
  unfold run_of, clear_assigned_mark_bitmaps. cbn. rewrite list_lookup_fmap. destruct (arena_chunks A !! loc_chunk l) as [c|]; [|done].
  cbn. by rewrite list_lookup_fmap.
Qed.

Lemma clear_run_marks_header r : header (clear_run_marks r) = header r /\ allocation (clear_run_marks r) = allocation r /\ leases (clear_run_marks r) = leases r.
Proof. unfold clear_run_marks. by case_match. Qed.

Lemma clear_run_marks_wf r : run_wf r -> run_wf (clear_run_marks r).
Proof.
  intros [Hv H]. unfold run_wf. destruct (clear_run_marks_header r) as (-> & _). split; [done|].
  unfold clear_run_marks. destruct (header_geometry (header r)) as [g|] eqn:Hg; [|done].
  destruct H as (HG & HA & HL & HM1 & HM2). split; [done|]. split_and!; [done|done|]. split; cbn.
  - by rewrite length_imap.
  - apply Forall_lookup. intros i w. rewrite list_lookup_imap. destruct (marks r !! i) as [w'|] eqn:Hw; [|done]. cbn. intros [= <-].
    case_match; [done|]. by eapply Forall_lookup_1.
Qed.

Lemma clear_marks_ok A : arena_wf A ->
  arena_wf (clear_assigned_mark_bitmaps A) /\ remarked A (clear_assigned_mark_bitmaps A) /\
  forall o, owner_ok A o -> slot_marked (clear_assigned_mark_bitmaps A) o = false.
Proof.
  intros WA. set (A' := clear_assigned_mark_bitmaps A).
  assert (Hc : forall i, arena_chunks A' !! i = (fun c => MkArenaChunk (chunk_base c) (clear_run_marks <$> runs c)) <$> arena_chunks A !! i)
    by (intros i; apply list_lookup_fmap).
  split_and!.
  - split.
    + intros i c. rewrite Hc. destruct (arena_chunks A !! i) as [c0|] eqn:E; [|done]. intros [= <-].
      destruct (aw_chunk _ WA i c0 E) as ((? & ? & ? & ?) & Hi). unfold chunk_wf. cbn. by rewrite length_fmap.
    + intros b i Hb. destruct (aw_index _ WA b i Hb) as (c & Hch & <-). rewrite Hc, Hch. by eexists.
    + intros l r. unfold A'. rewrite run_of_clear. destruct (run_of A l) as [r0|] eqn:E; [|done]. intros [= <-].
      apply clear_run_marks_wf. by apply (aw_run _ WA l).
  - split; intros l.
    + unfold A'. rewrite run_of_clear. destruct (run_of A l) as [r|]; [|done]. cbn. by destruct (clear_run_marks_header r) as (-> & -> & ->).
    + unfold address_of. rewrite Hc. by destruct (arena_chunks A !! loc_chunk l).
  - intros o ((r & HT) & _ & Hs). destruct (typed_wf A WA _ _ _ _ HT) as (HG & _ & _ & HM1 & _).
    pose proof (geometry_facts _ HG) as (_ & _ & _ & _ & _ & _ & _ & _ & _ & Hwl). destruct (bitmap_index _ _ Hs) as [Hi _].
    destruct HT as (Hr & _ & Hg). unfold slot_marked, A'. rewrite run_of_clear, Hr. cbn. unfold clear_run_marks. rewrite Hg. cbn.
    unfold slot_bit. rewrite list_lookup_imap. destruct (marks r !! _) as [w|]; [|done]. cbn.
    rewrite (proj2 (Z.ltb_lt _ _)) by lia. apply Z.bits_0.
Qed.

Lemma retain_pending_ok D pending : arena_wf (arena D) -> visit_pending_slots (E:=Empty_set) (finalization_batch D) = Ok pending -> pending_ok D pending ->
  (forall o, owner_ok (arena D) o -> slot_marked (arena D) o = false) ->
  exists A', retain_pending_finalizers D = Ok (with_arena D A') /\ arena_wf A' /\ remarked (arena D) A' /\
    forall o, owner_ok (arena D) o -> slot_marked A' o = true <-> o ∈ pending.
Proof.
  intros WA Hv [Hnd HP] H0. unfold retain_pending_finalizers. rewrite Hv. cbn [mbind outcome_bind].
  destruct (foldM_inv retain_pending_slot (fun don A => arena_wf A /\ remarked (arena D) A /\
      forall o, owner_ok (arena D) o -> slot_marked A o = true <-> o ∈ don) pending (arena D)) as (A' & Hf & W' & RM & HM).
  - split_and!; [done|done|]. intros o HO. rewrite H0 by done. split; [done|]. intros H. by apply elem_of_nil in H.
  - intros don o rest A Heq (WA1 & RM & HM). assert (Hin : o ∈ pending) by (rewrite Heq; set_solver). destruct (HP o Hin) as [HO Hal].
    assert (HO1 : owner_ok A o) by (eapply same_headers_owner; [by apply remarked_headers|done]).
    unfold retain_pending_slot. rewrite slot_is_allocated_ok by done. rewrite (remarked_allocated _ _ _ RM), Hal. cbn [mbind outcome_bind rust_assert].
    destruct (mark_owner_slot_ok (E:=Empty_set) A WA1 o HO1) as (A1 & Hmk & WA2 & RM1 & Hm1). rewrite Hmk. cbn [mbind outcome_bind fst snd].
    assert (Hno : slot_marked A o = false).
    { apply not_true_iff_false. rewrite HM by done. intros Hd. rewrite Heq in Hnd. apply NoDup_app in Hnd as (_ & Hnd & _). apply (Hnd o Hd). left. }
    rewrite Hno. cbn. exists A1. split; [done|]. split_and!; [done|by etrans|]. intros o' HO'.
    rewrite Hm1 by (eapply same_headers_owner; [by apply remarked_headers|done]). rewrite orb_true_iff, bool_decide_eq_true, HM by done.
    rewrite elem_of_app, list_elem_of_singleton. tauto.
  - rewrite Hf. by exists A'.
Qed.

Lemma clear_pairs_lookup es pairs p : foldl clear_pair pairs es !! p = if decide (p ∈ es) then (fun _ => (0, 0)%Z) <$> pairs !! p else pairs !! p.
Proof.
  revert pairs. induction es as [|q es IH]; intros pairs; [done|]. cbn [foldl]. rewrite IH. unfold clear_pair.
  destruct (decide (p = q)) as [->|Hne].
  - rewrite fin_maps.lookup_alter_eq. rewrite (decide_True (P:=q ∈ q :: es)) by left. case_decide; by destruct (pairs !! q).
  - rewrite fin_maps.lookup_alter_ne by done. assert (Hiff : p ∈ q :: es <-> p ∈ es) by (rewrite elem_of_cons; naive_solver).
    destruct (decide (p ∈ es)), (decide (p ∈ q :: es)); tauto || done.
Qed.

(** ** The marking phase *)
Section mark_heap.
Context (trace_of : ObjectMetadata -> Z -> list Visit) (D : ManagedData) (pairs : Pairs) (roots : list Z) (pending : list RunOwner).
Notation reach := (reach trace_of D pairs roots).
Notation held := (held trace_of D pairs roots).

Record markable : Prop := {
  mk_arena : arena_wf (arena D);
  mk_roots : visit_live (root_pool D) = Ok roots;
  mk_visit : visit_pending_slots (E:=Empty_set) (finalization_batch D) = Ok pending;
  mk_pending : pending_ok D pending;
  mk_references : references_ok trace_of D pairs roots pending;
}.

(** A reached ephemeron whose key is not. *)
Definition key_lost (p : Z) : Prop := held p /\ exists key v, load_pair pairs p = Ok (Some (key, v)) /\ ~ reach key.

Lemma mark_heap_spec : markable ->
  exists D' pairs', mark_heap trace_of D pairs = Ok (D', pairs') /\
    D' = with_arena D (arena D') /\ arena_wf (arena D') /\ remarked (arena D) (arena D') /\
    (forall o, owner_ok (arena D) o -> slot_marked (arena D') o = true <-> reach (owner_address o) \/ o ∈ pending) /\
    (forall p, key_lost p -> pairs' !! p = Some (0, 0)%Z) /\ (forall p, ~ key_lost p -> pairs' !! p = pairs !! p).
Proof.
  intros [WA Hroots Hvis HP HR]. unfold mark_heap. destruct (clear_marks_ok _ WA) as (WA1 & RM1 & HM1). set (D1 := clear_mark_bitmaps D).
  assert (HO1 : forall o, owner_ok (arena D) o <-> owner_ok (arena D1) o).
  { intros o. split; apply same_headers_owner; [|symmetry]; by apply remarked_headers. }
  destruct (retain_pending_ok D1 pending) as (A2 & Hret & WA2 & RM2 & HM2); [done|done| |intros o HO; apply HM1; by apply HO1|].
  { split; [apply HP|]. intros o Ho. rewrite <- HO1. cbn. rewrite (remarked_allocated _ _ o RM1). by apply HP. }
  fold D1. rewrite Hret. cbn [mbind outcome_bind]. set (st := (with_arena D1 A2, MarkAttempt_default)).
  assert (HI : marking_inv trace_of D pairs roots pending [] [] st).
  { assert (Hsl : forall o, owner_ok (arena D) o -> slot_marked A2 o = true <-> o ∈ pending) by (intros o HO; apply HM2; by apply HO1).
    split; [split_and!; [done|done|by etrans]| | | | | |]; cbn.
    - intros o HO Hm. left. by apply Hsl.
    - intros o Ho. apply Hsl; [by apply HP|done].
    - intros w Hw. by apply elem_of_nil in Hw.
    - intros a o m Ha HO Hm. exfalso. rewrite (marked_object D st a o m HO) in Hm.
      destruct (ref_live _ _ _ _ _ HR a ltac:(by left)) as (o' & m' & HO' & Hn). destruct (object_unique _ _ _ _ _ _ HO HO') as [-> _].
      apply Hn. apply Hsl; [by apply (object_owner D a o m)|done].
    - intros p Hp. by apply elem_of_nil in Hp.
    - intros a Ha. by apply elem_of_nil in Ha. }
  assert (Hw : (work_left D st < mark_fuel (arena D))%nat).
  { unfold work_left, mark_fuel. cbn. pose proof (length_filter (fun o => slot_marked (arena st.1) o = false) (all_owners (arena D))).
    unfold unmarked. lia. }
  destruct (seed_inv trace_of D pairs roots pending WA HR HP st HI Hroots) as (st1 & Hseed & HI1 & Hw1). rewrite Hseed. cbn [mbind outcome_bind].
  destruct (trace_worklist_inv trace_of D pairs roots pending WA HR HP (mark_fuel (arena D)) st1 HI1) as (st2 & Ht & HI2 & Hnil & Hw2); [lia|].
  rewrite Ht. cbn [mbind outcome_bind].
  destruct (trace_ephemerons_inv trace_of D pairs roots pending WA HR HP (mark_fuel (arena D)) st2 HI2 Hnil) as (st3 & He & HA); [lia|].
  rewrite He. cbn [mbind outcome_bind snd worklist]. pose proof HA as [HI3 Hnil3 _]. rewrite Hnil3. cbn [rust_assert mbind outcome_bind fst].
  destruct (mi_extends _ _ _ _ _ _ _ _ HI3) as (E3 & WA3 & RM3). eexists _, _. split; [done|]. split_and!; [done|done|done| | |].
  - intros o HO. split.
    + intros Hm. destruct (mi_sound _ _ _ _ _ _ _ _ HI3 o HO Hm); auto.
    + intros [Ha|Hp]; [|by apply (mi_pending _ _ _ _ _ _ _ _ HI3)].
      destruct (ref_live _ _ _ _ _ HR _ ltac:(by left)) as (o' & m' & HO' & Hn). destruct (object_owner D _ o' m' WA HO') as [HOo Haddr].
      rewrite <- (owner_inj _ _ _ WA HOo HO Haddr), <- (marked_object D st3 _ o' m' HO').
      by apply (marked_all_reach trace_of D pairs roots pending).
  - intros p Hp. rewrite clear_pairs_lookup, decide_True by (by apply (marked_all_ephemerons trace_of D pairs roots pending WA HR)).
    destruct Hp as (_ & key & v & Hl & _). unfold load_pair in Hl. by destruct (pairs !! p).
  - intros p Hp. rewrite clear_pairs_lookup, decide_False; [done|]. intros Hin. apply Hp. by apply (marked_all_ephemerons trace_of D pairs roots pending WA HR) in Hin.
Qed.
End mark_heap.
