(* ===== verification/Sweep.v ===== *)
(** * Sweeping ([DeadSetPlan], [FinalizationBatchPlan] and the transition of
    [ManagedData] in [crates/glam-gc/src/heap.rs])

    After marking, a collection lists the runs with dead slots or without live
    ones, plans which slots wait for their destructors, checks the plan against
    the classes, and then changes the topology: runs without live slots leave
    their classes, dead slots with destructors enter the finalization batch, dead
    slots without are freed, and the words with free slots are published for
    allocation. The counters of a report are left out, except where the code
    computes with them. *)
From stdpp Require Import base option list numbers gmap sets.
From Stdlib Require Import ZArith Lia.
From S2P Require Import Prelude RootPool RunGeometry Bitmaps Arena Heap.

(** ** Data *)
Inductive DeadSlotDisposition := NoDrop | DropRequired.

#[export] Instance DeadSlotDisposition_eq_dec : EqDecision DeadSlotDisposition.
Proof. solve_decision. Defined.

(** [DeadBitmapWord] *)
Record DeadWord := MkDeadWord { word_index : nat; dead_mask : Z }.

Record DeadRunPlan := MkDeadRun {
  dr_target : RunClaimTarget;
  class_run_index : nat;
  dr_class : AllocationClassId;
  dr_metadata : ObjectMetadata;
  disposition : DeadSlotDisposition;
  live_slots : nat;
  dead_slots : nat;
  dead_range : nat * nat;
}.

Record DeadSetPlan := MkDeadSet { no_drop_dead_slots : nat; dead_runs : list DeadRunPlan; dead_words : list DeadWord }.

Definition DeadSetPlan_default : DeadSetPlan := MkDeadSet 0 [] [].

Record PlannedFinalizationRun := MkPlanned { planned_run : FinalizationRun; detach_from_index : option nat }.

Record FinalizationBatchPlan := MkBatchPlan { plan_runs : gmap RunLocation PlannedFinalizationRun; install_order : list RunLocation }.

(** [slice.get(range)] *)
Definition slice {A} (l : list A) (r : nat * nat) : option (list A) :=
  if bool_decide (r.1 <= r.2 /\ r.2 <= length l) then Some (take (r.2 - r.1) (drop r.1 l)) else None.

(** ** Classifying *)

(** What the visitor adds up over the words of one run: live slots, dead slots,
    and the dead words. *)
Definition classify_word (st : nat * nat * list DeadWord) (v : nat * Z * Z) : nat * nat * list DeadWord :=
  let '(live_count, dead_count, words) := st in
  let '(i, allocated, marked) := v in
  let live := Z.land allocated marked in
  let dead := Z.land allocated (not64 marked) in
  (live_count + count_ones live, dead_count + count_ones dead,
   if (dead =? 0)%Z then words else words ++ [MkDeadWord i dead]).

Definition class_disposition (m : ObjectMetadata) : DeadSlotDisposition := if needs_drop m then DropRequired else NoDrop.

Definition classify_run {E} (A : Arena) (C : AllocationClassEntry) (cls : AllocationClassId) (plan : DeadSetPlan) (it : nat * RunClaimTarget)
    : outcome E DeadSetPlan :=
  let '(index, target) := it in
  _ ← rust_assert (bool_decide (target_geometry target = class_geometry C));
  vs ← visit_allocation_mark_words A target cls;
  let '(live, dead, words) := foldl classify_word (0, 0, dead_words plan) vs in
  let range := (length (dead_words plan), length words) in
  if bool_decide (live = 0 /\ dead = 0) then
    Ok (MkDeadSet (no_drop_dead_slots plan)
          (dead_runs plan ++ [MkDeadRun target index cls (metadata C) NoDrop 0 0 range]) words)
  else if bool_decide (dead = 0) then Ok (MkDeadSet (no_drop_dead_slots plan) (dead_runs plan) words)
  else
    Ok (MkDeadSet (match class_disposition (metadata C) with NoDrop => no_drop_dead_slots plan + dead | DropRequired => no_drop_dead_slots plan end)
          (dead_runs plan ++ [MkDeadRun target index cls (metadata C) (class_disposition (metadata C)) live dead range]) words).

Definition enumerate {A} (l : list A) : list (nat * A) := imap pair l.

Definition classify_class {E} (A : Arena) (plan : DeadSetPlan) (it : nat * AllocationClassEntry) : outcome E DeadSetPlan :=
  cls ← class_id it.1;
  foldM (classify_run A it.2 cls) plan (enumerate (class_runs it.2)).

Definition classify {E} (D : ManagedData) : outcome E DeadSetPlan :=
  foldM (classify_class (arena D)) DeadSetPlan_default (enumerate (classes D)).

(** ** The plan of destructors *)
Definition is_retired (r : DeadRunPlan) : bool := bool_decide (disposition r = NoDrop /\ live_slots r = 0).
Definition is_swept (r : DeadRunPlan) : bool := bool_decide (disposition r = NoDrop /\ live_slots r <> 0 /\ dead_slots r <> 0).
Definition requires_drop (r : DeadRunPlan) : bool := bool_decide (disposition r = DropRequired).

Definition plan_word {E} (pending : gmap nat Z) (w : DeadWord) : outcome E (gmap nat Z) :=
  _ ← rust_assert (negb (dead_mask w =? 0)%Z);
  _ ← rust_assert (match pending !! word_index w with None => true | Some _ => false end);
  Ok (<[word_index w := dead_mask w]> pending).

(** The retired runs of [r]'s class before it. *)
Definition retired_before (dead : DeadSetPlan) (r : DeadRunPlan) : nat :=
  length (filter (fun prior => bool_decide (dr_class prior = dr_class r) && bool_decide (class_run_index prior < class_run_index r)
                                 && is_retired prior = true) (dead_runs dead)).

Definition plan_run {E} (dead : DeadSetPlan) (b : FinalizationBatchPlan) (r : DeadRunPlan) : outcome E FinalizationBatchPlan :=
  _ ← rust_assert (needs_drop (dr_metadata r));
  _ ← rust_assert (bool_decide (dead_slots r <> 0));
  words ← expect (slice (dead_words dead) (dead_range r));
  pending ← foldM plan_word ∅ words;
  detach ← (if decide (live_slots r = 0) then
              if decide (retired_before dead r <= class_run_index r) then Ok (Some (class_run_index r - retired_before dead r)) else Panic
            else Ok None);
  let planned := MkPlanned (MkFinalizationRun (Attached (dr_target r)) (dr_class r) (dr_metadata r) (dead_slots r) pending) detach in
  _ ← rust_assert (match plan_runs b !! target_location (dr_target r) with None => true | Some _ => false end);
  Ok (MkBatchPlan (<[target_location (dr_target r) := planned]> (plan_runs b)) (install_order b ++ [target_location (dr_target r)])).

Definition FinalizationBatchPlan_new {E} (dead : DeadSetPlan) : outcome E FinalizationBatchPlan :=
  foldM (plan_run dead) (MkBatchPlan ∅ []) (filter (fun r => requires_drop r = true) (dead_runs dead)).

(** ** Checking the plan *)

(** The plan's runs left after the runs of the classes, in their order. *)
Definition skip_planned (rest : list DeadRunPlan) (t : RunClaimTarget) : list DeadRunPlan :=
  match rest with r :: rest' => if bool_decide (dr_target r = t) then rest' else rest | [] => [] end.

Definition check_class_run {E} (A : Arena) (C : AllocationClassEntry) (cls : AllocationClassId) (t : RunClaimTarget) : outcome E unit :=
  _ ← rust_assert (bool_decide (target_geometry t = class_geometry C));
  validate_run_target A t cls.

Definition check_class {E} (A : Arena) (it : nat * AllocationClassEntry) : outcome E unit :=
  cls ← class_id it.1;
  _ ← mapM (check_class_run A it.2 cls) (class_runs it.2);
  Ok ().

Definition check_dead_run {E} (D : ManagedData) (dead : DeadSetPlan) (r : DeadRunPlan) : outcome E unit :=
  index ← expect (class_index (dr_class r));
  C ← expect (classes D !! index);
  _ ← rust_assert (bool_decide (metadata C = dr_metadata r));
  _ ← rust_assert (bool_decide (class_geometry C = target_geometry (dr_target r)));
  _ ← rust_assert (contains_target C (dr_target r));
  t ← vec_get (class_runs C) (class_run_index r);
  _ ← rust_assert (bool_decide (t = dr_target r));
  _ ← match batch_runs (finalization_batch D) !! target_location (dr_target r) with
      | Some pending =>
          _ ← rust_assert (bool_decide (run_target pending = dr_target r));
          _ ← rust_assert (negb (is_detached pending));
          rust_assert (bool_decide (live_slots r <> 0))
      | None => Ok ()
      end;
  _ ← validate_run_target (arena D) (dr_target r) (dr_class r);
  words ← expect (slice (dead_words dead) (dead_range r));
  _ ← rust_assert (forallb (fun w => negb (dead_mask w =? 0)%Z &&
        (Z.of_nat (word_index w) <? word_len (allocation_bitmap (target_geometry (dr_target r))))%Z) words);
  _ ← rust_assert (bool_decide (disposition r =
        if bool_decide (dead_slots r = 0) || negb (needs_drop (dr_metadata r)) then NoDrop else DropRequired));
  if is_retired r then rust_assert (forallb (fun l => negb (bool_decide (l = target_location (dr_target r)))) (free_runs D)) else Ok ().

Definition prepare_swept_allocator_transition {E} (D : ManagedData) (dead : DeadSetPlan) : outcome E FinalizationBatchPlan :=
  _ ← rust_assert (match retired_no_drop_runs D with [] => true | _ => false end);
  batch ← FinalizationBatchPlan_new dead;
  _ ← mapM (fun lp => match batch_runs (finalization_batch D) !! lp.1 with
                      | Some existing => rust_assert (negb (is_detached existing))
                      | None => Ok ()
                      end) (map_to_list (plan_runs batch));
  _ ← mapM (check_class (arena D)) (enumerate (classes D));
  _ ← rust_assert (match foldl skip_planned (dead_runs dead) (classes D ≫= class_runs) with [] => true | _ => false end);
  _ ← mapM (check_dead_run D dead) (dead_runs dead);
  Ok batch.

(** ** Changing the topology *)
Definition withdraw_allocator_frontiers (D : ManagedData) : ManagedData := with_classes D (withdraw_frontier <$> classes D).

Definition retire_run {E} (D : ManagedData) (r : DeadRunPlan) : outcome E ManagedData :=
  index ← expect (class_index (dr_class r));
  C ← vec_get (classes D) index;
  Ci ← retire_withdrawn_run_at C (dr_target r);
  cs ← vec_set (classes D) index Ci.1;
  Ok (with_retired (with_classes D cs) (retired_no_drop_runs D ++ [(dr_target r, dr_class r)])).

Definition retire_wholly_dead_no_drop_runs {E} (D : ManagedData) (dead : DeadSetPlan) : outcome E ManagedData :=
  foldM retire_run D (filter (fun r => is_retired r = true) (dead_runs dead)).

Definition recycle_run {E} (D : ManagedData) (tc : RunClaimTarget * AllocationClassId) : outcome E ManagedData :=
  A ← reset_recyclable_run (arena D) tc.1 tc.2;
  match assigned_runs (allocation_pressure D) with
  | O => Panic
  | S n => Ok (with_free_runs (with_pressure (with_arena D A) (MkPressure n (high_water_mark (allocation_pressure D))))
                 (free_runs D ++ [target_location tc.1]))
  end.

Definition recycle_retired_no_drop_runs {E} (D : ManagedData) : outcome E ManagedData :=
  foldM recycle_run (with_retired D []) (retired_no_drop_runs D).

Definition merge_word {E} (pending : gmap nat Z) (iw : nat * Z) : outcome E (gmap nat Z) :=
  _ ← rust_assert (negb (iw.2 =? 0)%Z);
  let old := default 0%Z (pending !! iw.1) in
  _ ← rust_assert (Z.land old iw.2 =? 0)%Z;
  Ok (<[iw.1 := Z.lor old iw.2]> pending).

Definition merge_pending_words {E} (F : FinalizationRun) (additional : gmap nat Z) (slots : nat) : outcome E FinalizationRun :=
  words ← foldM merge_word (pending_words F) (map_to_list additional);
  Ok (MkFinalizationRun (fr_target F) (fr_class F) (fr_metadata F) (fr_pending_slot_count F + slots) words).

Definition install_run {E} (st : ManagedData * gmap RunLocation PlannedFinalizationRun) (l : RunLocation)
    : outcome E (ManagedData * gmap RunLocation PlannedFinalizationRun) :=
  let '(D, planned_runs) := st in
  planned ← expect (planned_runs !! l);
  let planned_runs := delete l planned_runs in
  let run := planned_run planned in
  let target := run_target run in
  let b := finalization_batch D in
  let total := batch_pending b + fr_pending_slot_count run in
  _ ← rust_assert (bool_decide (target_location target = l));
  match batch_runs b !! l with
  | Some existing =>
      existing ← merge_pending_words existing (pending_words run) (fr_pending_slot_count run);
      Ok (with_batch D (MkBatch (<[l := existing]> (batch_runs b)) total), planned_runs)
  | None =>
      index ← expect (class_index (fr_class run));
      C ← expect (classes D !! index);
      _ ← rust_assert (frontier_is_withdrawn C);
      r ← match detach_from_index planned with
          | Some former =>
              Ci ← retire_withdrawn_run_at C target;
              _ ← rust_assert (bool_decide (Ci.2 <= former));
              cs ← vec_set (classes D) index Ci.1;
              Ok (with_classes D cs, MkFinalizationRun (Detached target) (fr_class run) (fr_metadata run) (fr_pending_slot_count run) (pending_words run))
          | None => _ ← rust_assert (contains_target C target); Ok (D, run)
          end;
      Ok (with_batch r.1 (MkBatch (<[l := r.2]> (batch_runs b)) total), planned_runs)
  end.

Definition install_finalization_batch {E} (D : ManagedData) (b : FinalizationBatchPlan) : outcome E ManagedData :=
  st ← foldM install_run (D, plan_runs b) (install_order b);
  _ ← rust_assert (bool_decide (st.2 = ∅));
  Ok st.1.

Definition sweep_run {E} (D : ManagedData) (r : DeadRunPlan) : outcome E ManagedData :=
  A ← retain_marked_allocations (arena D) (dr_target r) (dr_class r);
  Ok (with_arena D A).

Definition sweep_partial_no_drop_runs {E} (D : ManagedData) (dead : DeadSetPlan) : outcome E ManagedData :=
  foldM sweep_run D (filter (fun r => is_swept r = true) (dead_runs dead)).

(** ** Publishing the swept heap *)
Definition publish_run_words {E} (b : FinalizationBatch) (cls : AllocationClassId) (st : Arena * option nat) (it : nat * RunClaimTarget)
    : outcome E (Arena * option nat) :=
  r ← publish_allocation_word_leases st.1 it.2 cls (reserves_word b it.2);
  Ok (r.1, if r.2 && (match st.2 with None => true | Some _ => false end) then Some it.1 else st.2).

Definition publish_class_view {E} (D : ManagedData) (index : nat) : outcome E ManagedData :=
  C ← vec_get (classes D) index;
  cls ← class_id index;
  r ← foldM (publish_run_words (finalization_batch D) cls) (arena D, None) (enumerate (class_runs C));
  C ← publish_swept_frontier C r.2;
  Ok (with_classes (with_arena D r.1) (<[index := C]> (classes D))).

Definition publish_swept_allocator_view {E} (D : ManagedData) : outcome E ManagedData :=
  foldM publish_class_view D (seq 0 (length (classes D))).

(** The sweep of a collection, after marking. *)
Definition sweep_heap (D : ManagedData) : M ManagedData :=
  dead ← classify D;
  batch ← prepare_swept_allocator_transition D dead;
  D ← retire_wholly_dead_no_drop_runs (withdraw_allocator_frontiers D) dead;
  D ← install_finalization_batch D batch;
  D ← recycle_retired_no_drop_runs D;
  D ← sweep_partial_no_drop_runs D dead;
  D ← publish_swept_allocator_view D;
  P ← rebuild_free_lists (root_pool D);
  Ok (with_pool D P).
