(* ===== verification/SweepFacts.v ===== *)
(** * The plan of a sweep

    What [classify] finds: the runs with a dead slot or without a live one, in the
    order of the classes, each with the exact words of its dead slots. The plan of
    destructors built from it is consistent, and every check passes. *)
From stdpp Require Import base option list numbers gmap sets.
From Stdlib Require Import ZArith Lia.
From S2P Require Import Prelude RootPool RunGeometry Bitmaps Arena ArenaFacts Heap HeapFacts Sweep.
Local Open Scope Z_scope.

(** ** Live and dead slots of a run *)
Definition live_at (A : Arena) (l : RunLocation) (s : Z) : bool :=
  match run_of A l with Some r => slot_bit (allocation r) s && slot_bit (marks r) s | None => false end.
Definition dead_at (A : Arena) (l : RunLocation) (s : Z) : bool :=
  match run_of A l with Some r => slot_bit (allocation r) s && negb (slot_bit (marks r) s) | None => false end.

Lemma live_at_owner A o : live_at A (owner_location o) (owner_slot o) = slot_allocated A o && slot_marked A o.
Proof. unfold live_at, slot_allocated, slot_marked. by case_match. Qed.
Lemma dead_at_owner A o : dead_at A (owner_location o) (owner_slot o) = slot_allocated A o && negb (slot_marked A o).
Proof. unfold dead_at, slot_allocated, slot_marked. by case_match. Qed.

Definition run_slots (t : RunClaimTarget) : list Z := seqZ 0 (slot_count (target_geometry t)).
Definition has_live (A : Arena) (t : RunClaimTarget) : bool := existsb (live_at A (target_location t)) (run_slots t).
Definition has_dead (A : Arena) (t : RunClaimTarget) : bool := existsb (dead_at A (target_location t)) (run_slots t).

(** A run the plan lists. *)
Definition listed (A : Arena) (t : RunClaimTarget) : bool := has_dead A t || negb (has_live A t).

Lemma existsb_slots (p : Z -> bool) t : existsb p (run_slots t) = true <-> exists s, 0 <= s < slot_count (target_geometry t) /\ p s = true.
Proof.
  rewrite existsb_exists. unfold run_slots. setoid_rewrite <- list_elem_of_In. split.
  - intros (s & Hs%elem_of_seqZ & Hp). exists s. split; [lia|done].
  - intros (s & Hs & Hp). exists s. split; [apply elem_of_seqZ; lia|done].
Qed.

Lemma existsb_slots_false (p : Z -> bool) t : existsb p (run_slots t) = false <-> forall s, 0 <= s < slot_count (target_geometry t) -> p s = false.
Proof.
  rewrite <- not_true_iff_false, existsb_slots. split.
  - intros H s Hs. apply not_true_iff_false. intros Hp. apply H. by exists s.
  - intros H (s & Hs & Hp). by rewrite H in Hp.
Qed.

(** ** The words of a run *)
Definition word_bits (w : Z) (i : nat) (p : Z -> bool) (n : Z) : Prop :=
  is_word w /\ forall b, 0 <= b < 64 -> Z.testbit w b = (Z.of_nat i * 64 + b <? n) && p (Z.of_nat i * 64 + b).

Lemma visited_bits ws i w n : ws !! i = Some w -> is_word w -> word_bits (Z.land w (valid_slot_mask n i)) i (slot_bit ws) n.
Proof.
  intros Hw Hword. split; [apply land_word; [done|apply valid_slot_mask_word]|]. intros b Hb.
  rewrite Z.land_spec, valid_slot_mask_spec, andb_comm by done. f_equal. unfold slot_bit.
  destruct (index_join i b Hb) as [-> ->]. by rewrite Nat2Z.id, Hw.
Qed.

Lemma elem_of_word_indices b i : i ∈ word_indices b <-> Z.of_nat i < word_len b.
Proof. unfold word_indices. rewrite elem_of_seq. lia. Qed.

Section classify.
Context (A : Arena) (WA : arena_wf A).

Definition visited (t : RunClaimTarget) (v : nat * Z * Z) : Prop :=
  let n := slot_count (target_geometry t) in
  exists r, run_of A (target_location t) = Some r /\ word_bits v.1.2 v.1.1 (slot_bit (allocation r)) n /\ word_bits v.2 v.1.1 (slot_bit (marks r)) n.

Lemma visit_words_ok {E} t cls : target_ok A t cls ->
  exists vs, visit_allocation_mark_words (E:=E) A t cls = Ok vs /\ (fun v => v.1.1) <$> vs = word_indices (allocation_bitmap (target_geometry t)) /\
    forall v, v ∈ vs -> visited t v.
Proof.
  intros HT. destruct (claim_target_ok (E:=E) A WA t cls HT) as (r & Hty & Hres). unfold visit_allocation_mark_words. rewrite Hres. cbn [mbind outcome_bind].
  destruct (typed_wf A WA _ _ _ _ Hty) as (HG & HA & _ & HM). pose proof (geometry_facts _ HG) as (_ & _ & _ & _ & _ & Hwl & _ & _ & _ & Hml).
  destruct (mapM_total (E:=E) (visited_word r (target_geometry t)) (fun i v => v.1.1 = i /\ visited t v) (word_indices (allocation_bitmap (target_geometry t))))
    as (vs & Hvs & HF).
  - intros i Hi%elem_of_word_indices. unfold visited_word. destruct (read_word_ok (E:=E) _ _ i HA Hi) as (w & Hw & Hword & ->). cbn [mbind outcome_bind].
    destruct (read_word_ok (E:=E) _ _ i HM ltac:(lia)) as (m & Hm & Hmw & ->). cbn [mbind outcome_bind]. eexists. split; [done|]. split; [done|].
    exists r. split; [apply Hty|]. cbn. split; by apply visited_bits.
  - exists vs. split; [done|]. split.
    + clear Hvs. induction HF as [|i v l vs' [Hi _] _ IH]; [done|]. cbn. by rewrite Hi, IH.
    + intros v Hv. apply list_elem_of_lookup in Hv as (k & Hk). destruct (Forall2_lookup_r _ _ _ _ _ HF Hk) as (i & _ & _ & ?). done.
Qed.

Definition live_word (v : nat * Z * Z) : Z := Z.land v.1.2 v.2.
Definition dead_word (v : nat * Z * Z) : Z := Z.land v.1.2 (not64 v.2).
Definition dead_list (vs : list (nat * Z * Z)) : list DeadWord :=
  omap (fun v => if dead_word v =? 0 then None else Some (MkDeadWord v.1.1 (dead_word v))) vs.
Definition live_total (vs : list (nat * Z * Z)) : nat := sum_list_with (fun v => count_ones (live_word v)) vs.
Definition dead_total (vs : list (nat * Z * Z)) : nat := sum_list_with (fun v => count_ones (dead_word v)) vs.

Lemma classify_words l d ws vs : foldl classify_word (l, d, ws) vs = ((l + live_total vs)%nat, (d + dead_total vs)%nat, ws ++ dead_list vs).
Proof.
  revert l d ws. induction vs as [|[[i a] m] vs IH]; intros l d ws.
  { unfold live_total, dead_total. cbn. by rewrite !Nat.add_0_r, app_nil_r. }
  cbn [foldl classify_word]. rewrite IH. unfold live_total, dead_total, dead_list, live_word, dead_word. cbn [sum_list_with omap list_omap fst snd].
  rewrite !Nat.add_assoc. f_equal. destruct (Z.land a (not64 m) =? 0); [done|]. by rewrite <- app_assoc.
Qed.

Lemma live_word_bits t v : visited t v -> word_bits (live_word v) v.1.1 (live_at A (target_location t)) (slot_count (target_geometry t)).
Proof.
  intros (r & Hr & [Ha Hab] & [Hm Hmb]). split; [by apply land_word|]. intros b Hb. unfold live_word, live_at.
  rewrite Z.land_spec, Hab, Hmb, Hr by done. by destruct (_ <? _), (slot_bit (allocation r) _), (slot_bit (marks r) _).
Qed.

Lemma dead_word_bits t v : visited t v -> word_bits (dead_word v) v.1.1 (dead_at A (target_location t)) (slot_count (target_geometry t)).
Proof.
  intros (r & Hr & [Ha Hab] & [Hm Hmb]). split; [apply land_word; [done|by apply not64_word]|]. intros b Hb. unfold dead_word, dead_at.
  rewrite Z.land_spec, not64_spec, Hab, Hmb, Hr by done. by destruct (_ <? _), (slot_bit (allocation r) _), (slot_bit (marks r) _).
Qed.

Lemma sum_zero {T} (f : T -> nat) l : sum_list_with f l = 0%nat <-> forall x, x ∈ l -> f x = 0%nat.
Proof.
  induction l as [|x l IH]; cbn; [split; [by intros _ ? ?%elem_of_nil|done]|]. split.
  - intros H y [->|Hy]%elem_of_cons; [lia|apply IH; [lia|done]].
  - intros H. pose proof (H x ltac:(left)). rewrite (proj2 IH); [lia|]. intros y Hy. apply H. by right.
Qed.

(** A total over the words is zero when no slot has the bit. *)
Lemma total_zero t cls vs (f : nat * Z * Z -> Z) (p : Z -> bool) : target_ok A t cls ->
  (fun v => v.1.1) <$> vs = word_indices (allocation_bitmap (target_geometry t)) ->
  (forall v, v ∈ vs -> word_bits (f v) v.1.1 p (slot_count (target_geometry t))) ->
  sum_list_with (fun v => count_ones (f v)) vs = 0%nat <-> existsb p (run_slots t) = false.
Proof.
  intros ((r & HT) & _) Hidx Hbits. destruct (typed_wf A WA _ _ _ _ HT) as (HG & _). pose proof (geometry_facts _ HG) as (_ & _ & _ & _ & _ & Hwl & _).
  rewrite sum_zero, existsb_slots_false. split.
  - intros H s Hs. destruct (bitmap_index _ _ Hs) as [Hi Hm].
    assert (Hin : Z.to_nat (s / 64) ∈ (fun v => v.1.1) <$> vs) by (rewrite Hidx; apply elem_of_word_indices; lia).
    apply list_elem_of_fmap in Hin as (v & Hv & Hin). destruct (Hbits v Hin) as [Hw Hb]. pose proof (H v Hin) as H0. apply count_ones_zero in H0; [|done].
    specialize (Hb (s mod 64) Hm). rewrite <- Hv, index_split in Hb by lia. rewrite H0, Z.bits_0, (proj2 (Z.ltb_lt _ _)) in Hb by lia. done.
  - intros H v Hv. destruct (Hbits v Hv) as [Hw Hb]. apply count_ones_zero; [done|]. apply word_zero; [done|]. intros b Hb'. rewrite Hb by done.
    destruct (Z.ltb_spec (Z.of_nat v.1.1 * 64 + b) (slot_count (target_geometry t))); [|done]. apply H. lia.
Qed.

(** The dead words of a run: each names a dead slot, and all dead slots are
    named. *)
Record dead_words_ok (t : RunClaimTarget) (ws : list DeadWord) : Prop := {
  dw_nodup : NoDup (word_index <$> ws);
  dw_word : forall w, w ∈ ws -> dead_mask w <> 0 /\ is_word (dead_mask w) /\ Z.of_nat (word_index w) < word_len (allocation_bitmap (target_geometry t));
  dw_bits : forall s, 0 <= s -> (exists w, w ∈ ws /\ word_index w = Z.to_nat (s / 64) /\ Z.testbit (dead_mask w) (s mod 64) = true) <->
    s < slot_count (target_geometry t) /\ dead_at A (target_location t) s = true;
}.

Lemma elem_of_dead_list vs w : w ∈ dead_list vs <-> exists v, v ∈ vs /\ dead_word v <> 0 /\ w = MkDeadWord v.1.1 (dead_word v).
Proof.
  unfold dead_list. rewrite list_elem_of_omap. split; intros (v & Hv & H); exists v; (split; [done|]).
  - destruct (Z.eqb_spec (dead_word v) 0); by simplify_eq.
  - destruct H as [Hn ->]. by rewrite (proj2 (Z.eqb_neq _ _)).
Qed.

Lemma dead_list_total vs : dead_total vs = sum_list_with (fun w => count_ones (dead_mask w)) (dead_list vs).
Proof.
  unfold dead_total, dead_list. induction vs as [|v vs IH]; [done|]. cbn [sum_list_with omap list_omap]. rewrite IH.
  destruct (Z.eqb_spec (dead_word v) 0) as [->|]; [done|]. done.
Qed.

Lemma dead_list_ok t cls vs : target_ok A t cls -> (fun v => v.1.1) <$> vs = word_indices (allocation_bitmap (target_geometry t)) ->
  (forall v, v ∈ vs -> visited t v) -> dead_words_ok t (dead_list vs).
Proof.
  intros ((r & HT) & _) Hidx Hv. destruct (typed_wf A WA _ _ _ _ HT) as (HG & _). pose proof (geometry_facts _ HG) as (_ & _ & _ & _ & _ & Hwl & _). split.
  - assert (HN : NoDup ((fun v : nat * Z * Z => v.1.1) <$> vs)) by (rewrite Hidx; apply NoDup_seq). eapply sublist_NoDup; [exact HN|].
    clear. unfold dead_list. induction vs as [|v vs IH]; [constructor|]. cbn. destruct (dead_word v =? 0); cbn; by constructor.
  - intros w (v & Hin & Hne & ->)%elem_of_dead_list. cbn. split; [done|]. split; [by eapply dead_word_bits, Hv|].
    apply elem_of_word_indices. rewrite <- Hidx. by apply (list_elem_of_fmap_2 (fun v => v.1.1)).
  - intros s Hs. split.
    + intros (w & (v & Hin & Hne & ->)%elem_of_dead_list & Hi & Hb). cbn in *. destruct (dead_word_bits t v (Hv v Hin)) as [_ Hbits].
      rewrite Hbits, Hi, index_split in Hb by (done || (apply Z.mod_pos_bound; lia)). apply andb_true_iff in Hb as [?%Z.ltb_lt ?]. done.
    + intros [Hlt Hd]. destruct (bitmap_index _ _ (conj Hs Hlt)) as [Hi Hm].
      assert (Hin : Z.to_nat (s / 64) ∈ (fun v => v.1.1) <$> vs) by (rewrite Hidx; apply elem_of_word_indices; lia).
      apply list_elem_of_fmap in Hin as (v & Hvi & Hin). destruct (dead_word_bits t v (Hv v Hin)) as [_ Hbits].
      specialize (Hbits (s mod 64) Hm). rewrite <- Hvi, index_split, Hd, (proj2 (Z.ltb_lt _ _)) in Hbits by lia.
      exists (MkDeadWord v.1.1 (dead_word v)). split; [|by rewrite Hvi]. apply elem_of_dead_list. exists v. split; [done|]. split; [|done].
      intros H0. by rewrite H0, Z.bits_0 in Hbits.
Qed.
End classify.

(** ** The plan *)
Lemma slice_app {T} (l k : list T) r x : slice l r = Some x -> slice (l ++ k) r = Some x.
Proof.
  unfold slice. case_bool_decide as H; [|done]. intros [= <-]. rewrite bool_decide_true by (rewrite length_app; lia).
  f_equal. rewrite drop_app_le, take_app_le by (rewrite ?length_drop; lia). done.
Qed.

Lemma slice_last {T} (l k : list T) : slice (l ++ k) (length l, length (l ++ k)) = Some k.
Proof.
  unfold slice. cbn. rewrite bool_decide_true by (rewrite length_app; lia). rewrite drop_app_length, length_app. f_equal.
  apply take_ge. lia.
Qed.

Lemma enumerate_snd {T} (l : list T) : (enumerate l).*2 = l.
Proof.
  unfold enumerate. rewrite fmap_imap. apply list_eq. intros i. rewrite list_lookup_imap. by destruct (l !! i).
Qed.

Lemma enumerate_lookup {T} (l : list T) don p rest : enumerate l = don ++ p :: rest -> p.1 = length don /\ l !! p.1 = Some p.2.
Proof.
  intros H. unfold enumerate in H. assert (Hp : imap pair l !! length don = Some p) by (rewrite H; by apply list_lookup_middle).
  rewrite list_lookup_imap in Hp. apply fmap_Some in Hp as (x & Hx & ->). done.
Qed.

Section plan.
Context (D : ManagedData) (HW : heap_wf D).
Notation A := (arena D).

(** One entry of the plan. *)
Record dead_run_ok (words : list DeadWord) (r : DeadRunPlan) (i : nat) (C : AllocationClassEntry) (ws : list DeadWord) : Prop := {
  dro_class : classes D !! i = Some C;
  dro_run : class_runs C !! class_run_index r = Some (dr_target r);
  dro_id : dr_class r = cid i;
  dro_metadata : dr_metadata r = metadata C;
  dro_slice : slice words (dead_range r) = Some ws;
  dro_words : dead_words_ok A (dr_target r) ws;
  dro_total : dead_slots r = sum_list_with (fun w => count_ones (dead_mask w)) ws;
  dro_live : live_slots r = 0%nat <-> has_live A (dr_target r) = false;
  dro_dead : dead_slots r = 0%nat <-> has_dead A (dr_target r) = false;
  dro_disposition : disposition r = if bool_decide (dead_slots r = 0%nat) || negb (needs_drop (dr_metadata r)) then NoDrop else DropRequired;
}.

Definition planned (words : list DeadWord) (r : DeadRunPlan) : Prop := exists i C ws, dead_run_ok words r i C ws.

Definition plan_ok (plan : DeadSetPlan) (done : list RunClaimTarget) : Prop :=
  Forall (planned (dead_words plan)) (dead_runs plan) /\ dr_target <$> dead_runs plan = filter (fun t => listed A t = true) done.

Lemma planned_app words more r : planned words r -> planned (words ++ more) r.
Proof. intros (i & C & ws & []). exists i, C, ws. split; try done. by apply slice_app. Qed.

Lemma classify_run_ok {E} i C k t plan don : classes D !! i = Some C -> class_runs C !! k = Some t -> plan_ok plan don ->
  exists plan', classify_run (E:=E) A C (cid i) plan (k, t) = Ok plan' /\ plan_ok plan' (don ++ [t]).
Proof.
  intros HC Ht [HF Heq]. assert (Hin : t ∈ class_runs C) by (by eapply list_elem_of_lookup_2).
  destruct (class_targets_ok D HW i C t HC Hin) as [HT Hg]. unfold classify_run. rewrite bool_decide_true by done. cbn [rust_assert mbind outcome_bind].
  destruct (visit_words_ok (E:=E) A (hw_arena _ HW) t (cid i) HT) as (vs & Hvs & Hidx & Hvis). rewrite Hvs. cbn [mbind outcome_bind].
  rewrite classify_words, !Nat.add_0_l.
  pose proof (total_zero A (hw_arena _ HW) t (cid i) vs live_word _ HT Hidx (fun v Hv => live_word_bits A t v (Hvis v Hv))) as HL.
  pose proof (total_zero A (hw_arena _ HW) t (cid i) vs dead_word _ HT Hidx (fun v Hv => dead_word_bits A t v (Hvis v Hv))) as HD.
  fold (live_total vs) in HL. fold (dead_total vs) in HD. fold (has_live A t) in HL. fold (has_dead A t) in HD.
  pose proof (dead_list_ok A (hw_arena _ HW) t (cid i) vs HT Hidx Hvis) as HDW. pose proof (dead_list_total vs) as Htot.
  set (words := dead_words plan ++ dead_list vs).
  assert (HF' : Forall (planned words) (dead_runs plan)) by (eapply Forall_impl; [exact HF|]; intros; by apply planned_app).
  assert (Hnew : forall disp live dead, disp = (if bool_decide (dead_total vs = 0%nat) || negb (needs_drop (metadata C)) then NoDrop else DropRequired) ->
      live = live_total vs -> dead = dead_total vs -> planned words (MkDeadRun t k (cid i) (metadata C) disp live dead (length (dead_words plan), length words))).
  { intros disp live dead -> -> ->. exists i, C, (dead_list vs). split; cbn; try done. apply slice_last. }
  assert (Hsnoc : filter (fun t => listed A t = true) (don ++ [t]) = filter (fun t => listed A t = true) don ++ if listed A t then [t] else [])
    by (rewrite filter_app, filter_cons, filter_nil; by destruct (listed A t)).
  unfold plan_ok. rewrite Hsnoc. clear Hsnoc. assert (Hls : listed A t = has_dead A t || negb (has_live A t)) by done. rewrite Hls. clear Hls.
  destruct (bool_decide_reflect (live_total vs = 0%nat /\ dead_total vs = 0%nat)) as [H0|H0]; [|destruct (bool_decide_reflect (dead_total vs = 0%nat)) as [H1|H1]].
  - eexists. split; [done|]. destruct H0 as [Hl0 Hd0]. split; cbn.
    + apply Forall_app. split; [done|]. apply Forall_singleton. apply Hnew; [by rewrite Hd0|done|done].
    + rewrite fmap_app, Heq, (proj1 HL Hl0), orb_true_r. done.
  - eexists. split; [done|]. split; cbn; [done|]. rewrite Heq, (proj1 HD H1). cbn. destruct (has_live A t) eqn:El; cbn; [by rewrite app_nil_r|]. exfalso. apply H0. split; [by apply HL|done].
  - eexists. split; [done|]. split; cbn.
    + apply Forall_app. split; [done|]. apply Forall_singleton. apply Hnew; [|done|done]. unfold class_disposition. by destruct (needs_drop _).
    + rewrite fmap_app, Heq. destruct (has_dead A t) eqn:Ed; [done|]. exfalso. by apply H1, HD.
Qed.

Lemma classify_class_ok {E} i C plan don : classes D !! i = Some C -> plan_ok plan don ->
  exists plan', classify_class (E:=E) A plan (i, C) = Ok plan' /\ plan_ok plan' (don ++ class_runs C).
Proof.
  intros HC HP. unfold classify_class. rewrite class_id_ok by (apply lookup_lt_Some in HC; pose proof (hw_ids _ HW); cbn; lia). cbn [mbind outcome_bind fst snd].
  destruct (foldM_inv (classify_run (E:=E) A C (cid i)) (fun d p => plan_ok p (don ++ d.*2)) (enumerate (class_runs C)) plan) as (plan' & Hf & HP').
  - by rewrite app_nil_r.
  - intros d [k t] rest p Heq Hp. destruct (enumerate_lookup _ _ _ _ Heq) as (Hk & Ht). cbn in Hk, Ht.
    destruct (classify_run_ok (E:=E) i C k t p (don ++ d.*2) HC Ht Hp) as (p' & Hc & Hp'). exists p'. split; [done|].
    by rewrite fmap_app, app_assoc.
  - exists plan'. split; [done|]. by rewrite enumerate_snd in HP'.
Qed.

Lemma classify_ok {E} : exists plan, classify (E:=E) D = Ok plan /\ plan_ok plan (classes D ≫= class_runs).
Proof.
  unfold classify. destruct (foldM_inv (classify_class (E:=E) A) (fun d p => plan_ok p (d.*2 ≫= class_runs)) (enumerate (classes D)) DeadSetPlan_default)
    as (plan & Hf & HP).
  - split; [constructor|done].
  - intros d [i C] rest p Heq Hp. destruct (enumerate_lookup _ _ _ _ Heq) as (Hi & HC). cbn in Hi, HC.
    destruct (classify_class_ok (E:=E) i C p _ HC Hp) as (p' & Hc & Hp'). exists p'. split; [done|].
    rewrite fmap_app, bind_app. cbn. by rewrite app_nil_r.
  - exists plan. split; [done|]. by rewrite enumerate_snd in HP.
Qed.
End plan.
