(* ===== verification/SweepPlan.v ===== *)
(** * The checks before the first irreversible step

    The plan of destructors is built without a panic, describes exactly the dead
    slots whose type needs a destructor, and passes every check of
    [prepare_swept_allocator_transition]. *)
From stdpp Require Import base option list numbers gmap sets.
From Stdlib Require Import ZArith Lia.
From S2P Require Import Prelude RootPool RunGeometry Bitmaps Arena ArenaFacts Heap HeapFacts Sweep SweepFacts.

(** ** Lists *)
Lemma NoDup_bind_lookup {A B} (f : A -> list B) (l : list A) :
  (forall i x, l !! i = Some x -> NoDup (f x)) ->
  (forall i j x y b, l !! i = Some x -> l !! j = Some y -> b ∈ f x -> b ∈ f y -> i = j) -> NoDup (l ≫= f).
Proof.
  induction l as [|x l IH]; intros Hf Hd; [constructor|]. cbn. apply NoDup_app. split_and!.
  - by apply (Hf 0).
  - intros b Hb (y & Hby & Hy)%list_elem_of_bind. apply list_elem_of_lookup in Hy as (j & Hj).
    by specialize (Hd 0 (S j) x y b eq_refl Hj Hb Hby).
  - apply IH; [intros i y Hy; by apply (Hf (S i))|]. intros i j y z b Hy Hz Hby Hbz.
    specialize (Hd (S i) (S j) y z b Hy Hz Hby Hbz). lia.
Qed.

Lemma bind_fmap_out {A B C} (f : A -> list B) (g : B -> C) (l : list A) : g <$> (l ≫= f) = l ≫= fun x => g <$> f x.
Proof. induction l as [|x l IH]; [done|]. cbn. by rewrite fmap_app, IH. Qed.

Lemma NoDup_bounded (l : list nat) k : NoDup l -> (forall i, i ∈ l -> i < k) -> length l <= k.
Proof.
  intros HN Hb. rewrite <- (length_seq k 0). apply submseteq_length, NoDup_submseteq; [done|]. intros i Hi. apply elem_of_seq. specialize (Hb i Hi). lia.
Qed.

Lemma NoDup_fmap_on {A B} (f : A -> B) (l : list A) : (forall x y, x ∈ l -> y ∈ l -> f x = f y -> x = y) -> NoDup l -> NoDup (f <$> l).
Proof.
  intros Hf HN. induction HN as [|x l Hx HN IH]; [constructor|]. cbn. constructor.
  - intros (y & Hxy & Hy)%list_elem_of_fmap. apply Hx. rewrite (Hf x y); [done|left|by right|done].
  - apply IH. intros y z Hy Hz. apply Hf; by right.
Qed.

Lemma NoDup_fmap_inj_on {A B} (f : A -> B) (l : list A) x y : NoDup (f <$> l) -> x ∈ l -> y ∈ l -> f x = f y -> x = y.
Proof.
  intros HN Hx Hy Hf. apply list_elem_of_lookup in Hx as (i & Hi). apply list_elem_of_lookup in Hy as (j & Hj).
  assert (i = j) as ->; [|congruence]. eapply (NoDup_lookup (f <$> l)); [done| |]; rewrite list_lookup_fmap; [by rewrite Hi|rewrite Hj; cbn; congruence].
Qed.

Section plan.
Context (D : ManagedData) (HW : heap_wf D).
Notation A := (arena D).

Lemma flat_nodup : NoDup (target_location <$> (classes D ≫= class_runs)).
Proof.
  rewrite bind_fmap_out. apply NoDup_bind_lookup.
  - intros i C HC. destruct (hw_class _ HW i C HC) as (_ & _ & HN & _). done.
  - intros i j C C' l HC HC' (t & -> & Ht)%list_elem_of_fmap (t' & Hl & Ht')%list_elem_of_fmap.
    by destruct (class_disjoint D HW i j C C' t t' HC HC' Ht Ht' Hl).
Qed.

Lemma elem_of_flat t : t ∈ classes D ≫= class_runs <-> exists i C, classes D !! i = Some C /\ t ∈ class_runs C.
Proof.
  rewrite list_elem_of_bind. split.
  - intros (C & Ht & HC). apply list_elem_of_lookup in HC as (i & HC). by exists i, C.
  - intros (i & C & HC & Ht). exists C. split; [done|]. by eapply list_elem_of_lookup_2.
Qed.

(** A run of a class in the batch is attached. *)
Lemma batch_attached i C t F : classes D !! i = Some C -> t ∈ class_runs C -> batch_runs (finalization_batch D) !! target_location t = Some F ->
  is_detached F = false /\ run_target F = t /\ fr_class F = cid i /\ fr_metadata F = metadata C /\ needs_drop (metadata C) = true.
Proof.
  intros HC Ht HF. pose proof (hw_batch _ HW _ _ HF) as HB. destruct (bf_class _ _ _ _ HB) as (j & C' & Hj & HC' & Hm & Hn & Hg & Hd).
  destruct (bf_target _ _ _ _ HB) as [(r & Hr & Hc & Hgr) Ha]. rewrite (bf_location _ _ _ _ HB) in Hr, Ha.
  destruct (class_targets_ok D HW i C t HC Ht) as [((r' & Hr' & Hc' & Hgr') & Ha') _].
  assert (i = j) as <- by (apply cid_inj; congruence). assert (C' = C) as -> by congruence.
  destruct (is_detached F) eqn:Ed.
  - exfalso. apply Hd. destruct (hw_class _ HW i C HC) as (_ & HL & _). apply HL. by exists t.
  - split_and!; [done| |done|done|congruence]. pose proof (bf_location _ _ _ _ HB) as Hloc. apply (class_disjoint D HW i i C C _ t HC HC Hd Ht Hloc).
Qed.

Context (plan : DeadSetPlan) (HP : plan_ok D plan (classes D ≫= class_runs)).

Definition location (r : DeadRunPlan) : RunLocation := target_location (dr_target r).

Lemma dead_planned r : r ∈ dead_runs plan -> planned D (dead_words plan) r.
Proof. intros Hr. destruct HP as [HF _]. rewrite list.Forall_forall in HF. by apply HF. Qed.

Lemma dead_nodup : NoDup (location <$> dead_runs plan).
Proof.
  destruct HP as [_ Heq]. unfold location. rewrite (list_fmap_compose dr_target target_location), Heq.
  eapply sublist_NoDup; [apply flat_nodup|]. apply fmap_sublist, sublist_filter.
Qed.

Lemma dead_location_inj r r' : r ∈ dead_runs plan -> r' ∈ dead_runs plan -> location r = location r' -> r = r'.
Proof. apply NoDup_fmap_inj_on, dead_nodup. Qed.

Lemma dead_listed i C t : classes D !! i = Some C -> t ∈ class_runs C -> listed A t = true -> exists r, r ∈ dead_runs plan /\ dr_target r = t.
Proof.
  intros HC Ht Hl. destruct HP as [_ Heq]. assert (Hin : t ∈ dr_target <$> dead_runs plan).
  { rewrite Heq. apply list_elem_of_filter. split; [done|]. apply elem_of_flat. by exists i, C. }
  apply list_elem_of_fmap in Hin as (r & -> & Hr). by exists r.
Qed.

(** ** The plan of destructors *)
Definition words_at (r : DeadRunPlan) : list DeadWord := default [] (slice (dead_words plan) (dead_range r)).
Definition pending_map (ws : list DeadWord) : gmap nat Z := list_to_map ((fun w => (word_index w, dead_mask w)) <$> ws).

Definition planned_of (r : DeadRunPlan) : PlannedFinalizationRun :=
  MkPlanned (MkFinalizationRun (Attached (dr_target r)) (dr_class r) (dr_metadata r) (dead_slots r) (pending_map (words_at r)))
    (if decide (live_slots r = 0) then Some (class_run_index r - retired_before plan r) else None).

Definition drops : list DeadRunPlan := filter (fun r => requires_drop r = true) (dead_runs plan).

Lemma elem_of_drops r : r ∈ drops <-> r ∈ dead_runs plan /\ disposition r = DropRequired.
Proof. unfold drops. rewrite list_elem_of_filter. unfold requires_drop. rewrite bool_decide_eq_true. tauto. Qed.

Lemma pending_map_fst ws : ((fun w => (word_index w, dead_mask w)) <$> ws).*1 = word_index <$> ws.
Proof. rewrite <- list_fmap_compose. done. Qed.

Lemma plan_words_ok {E} ws : NoDup (word_index <$> ws) -> (forall w, w ∈ ws -> dead_mask w <> 0%Z) ->
  foldM (plan_word (E:=E)) ∅ ws = Ok (pending_map ws).
Proof.
  intros HN Hz. destruct (foldM_inv (plan_word (E:=E)) (fun d m => m = pending_map d) ws ∅) as (m & -> & ->); [done| |done].
  intros d w rest m Heq ->. unfold plan_word. rewrite (proj2 (Z.eqb_neq (dead_mask w) 0)) by (apply Hz; rewrite Heq; set_solver). cbn [negb rust_assert mbind outcome_bind].
  rewrite Heq, fmap_app in HN. apply NoDup_app in HN as (_ & Hd & _).
  assert (Hni : word_index w ∉ ((fun w => (word_index w, dead_mask w)) <$> d).*1).
  { rewrite pending_map_fst. intros Hin. apply (Hd _ Hin). left. }
  assert (Hnone : pending_map d !! word_index w = None) by (by apply not_elem_of_list_to_map).
  rewrite Hnone. cbn [rust_assert mbind outcome_bind]. eexists. split; [done|].
  unfold pending_map. rewrite fmap_app. cbn. by rewrite list_to_map_snoc.
Qed.

(** The retired runs of the class before a run are before it in the class. *)
Definition priors (r : DeadRunPlan) : list DeadRunPlan :=
  filter (fun prior => bool_decide (dr_class prior = dr_class r) && bool_decide (class_run_index prior < class_run_index r) && is_retired prior = true) (dead_runs plan).

Lemma elem_of_priors r p : p ∈ priors r <->
  p ∈ dead_runs plan /\ dr_class p = dr_class r /\ class_run_index p < class_run_index r /\ is_retired p = true.
Proof. unfold priors. rewrite list_elem_of_filter, !andb_true_iff, !bool_decide_eq_true. tauto. Qed.

Lemma priors_nodup r : NoDup (priors r).
Proof. apply NoDup_filter. eapply (NoDup_fmap_1 location), dead_nodup. Qed.

Lemma retired_before_le r : retired_before plan r <= class_run_index r.
Proof.
  change (length (priors r) <= class_run_index r). rewrite <- (length_fmap class_run_index). apply NoDup_bounded.
  - apply NoDup_fmap_on; [|apply priors_nodup]. intros p q (Hp & Hpc & _)%elem_of_priors (Hq & Hqc & _)%elem_of_priors Hi.
    destruct (dead_planned p Hp) as (i & C & ws & HPp). destruct (dead_planned q Hq) as (j & C' & ws' & HPq).
    apply dead_location_inj; [done|done|]. unfold location.
    assert (i = j) as <- by (apply cid_inj; rewrite <- (dro_id _ _ _ _ _ _ HPp), <- (dro_id _ _ _ _ _ _ HPq); congruence).
    pose proof (dro_class _ _ _ _ _ _ HPp) as E1. rewrite (dro_class _ _ _ _ _ _ HPq) in E1. injection E1 as ->.
    pose proof (dro_run _ _ _ _ _ _ HPp) as E2. rewrite Hi, (dro_run _ _ _ _ _ _ HPq) in E2. injection E2 as ->. done.
  - intros i (p & -> & Hp)%list_elem_of_fmap. by apply elem_of_priors in Hp as (_ & _ & ? & _).
Qed.

Definition batch_plan : FinalizationBatchPlan := MkBatchPlan (list_to_map ((fun r => (location r, planned_of r)) <$> drops)) (location <$> drops).

Lemma drops_fst : ((fun r => (location r, planned_of r)) <$> drops).*1 = location <$> drops.
Proof. rewrite <- list_fmap_compose. done. Qed.

Lemma drops_nodup : NoDup (location <$> drops).
Proof.
  eapply sublist_NoDup; [apply dead_nodup|]. apply fmap_sublist, sublist_filter.
Qed.

Lemma batch_plan_ok {E} : FinalizationBatchPlan_new (E:=E) plan = Ok batch_plan.
Proof.
  unfold FinalizationBatchPlan_new. fold drops.
  destruct (foldM_inv (plan_run (E:=E) plan) (fun d b => b = MkBatchPlan (list_to_map ((fun r => (location r, planned_of r)) <$> d)) (location <$> d))
    drops (MkBatchPlan ∅ [])) as (b & -> & ->); [done| |done].
  intros d r rest b Heq ->. assert (Hr : r ∈ drops) by (rewrite Heq; set_solver). apply elem_of_drops in Hr as [Hr Hdisp].
  destruct (dead_planned r Hr) as (i & C & ws & HPr). unfold plan_run.
  pose proof (dro_disposition _ _ _ _ _ _ HPr) as Hd. rewrite Hdisp in Hd.
  destruct (bool_decide_reflect (dead_slots r = 0)) as [|Hne]; [done|]. destruct (needs_drop (dr_metadata r)); [|done].
  cbn [rust_assert mbind outcome_bind]. rewrite bool_decide_true by done. cbn [rust_assert mbind outcome_bind].
  rewrite (dro_slice _ _ _ _ _ _ HPr). cbn [expect mbind outcome_bind]. pose proof (dro_words _ _ _ _ _ _ HPr) as HDW.
  rewrite plan_words_ok by (apply HDW || (intros w Hw; by apply (dw_word _ _ _ HDW))). cbn [mbind outcome_bind].
  rewrite (decide_True (P:=retired_before plan r <= class_run_index r)) by apply retired_before_le.
  pose proof drops_nodup as HN. rewrite Heq, fmap_app in HN. apply NoDup_app in HN as (_ & Hd' & _).
  assert (Hni : location r ∉ ((fun r => (location r, planned_of r)) <$> d).*1).
  { rewrite <- list_fmap_compose. intros Hin. apply (Hd' (location r)); [done|left]. }
  assert (Hpl : planned_of r = MkPlanned (MkFinalizationRun (Attached (dr_target r)) (dr_class r) (dr_metadata r) (dead_slots r) (pending_map ws))
      (if decide (live_slots r = 0) then Some (class_run_index r - retired_before plan r) else None)).
  { unfold planned_of, words_at. by rewrite (dro_slice _ _ _ _ _ _ HPr). }
  assert (Hdet : (if decide (live_slots r = 0) then Ok (Some (class_run_index r - retired_before plan r)) else Ok None) =
    Ok (E:=E) (if decide (live_slots r = 0) then Some (class_run_index r - retired_before plan r) else None)) by (by case_decide).
  rewrite Hdet. cbn [mbind outcome_bind plan_runs install_order]. fold (location r).
  rewrite (proj1 (not_elem_of_list_to_map _ _) Hni). cbn [rust_assert mbind outcome_bind]. eexists. split; [done|].
  rewrite !fmap_app. cbn. rewrite list_to_map_snoc by done. by rewrite Hpl.
Qed.

Lemma batch_plan_lookup l p : plan_runs batch_plan !! l = Some p <-> exists r, r ∈ drops /\ location r = l /\ p = planned_of r.
Proof.
  cbn. rewrite <- elem_of_list_to_map by (rewrite drops_fst; apply drops_nodup). rewrite list_elem_of_fmap. split.
  - intros (r & [= -> ->] & Hr). by exists r.
  - intros (r & Hr & <- & ->). by exists r.
Qed.

(** ** The checks *)
Lemma mapM_unit {E T} (f : T -> outcome E unit) l : (forall x, x ∈ l -> f x = Ok ()) -> mapM f l = Ok (const () <$> l).
Proof. intros H. apply mapM_Forall2, Forall2_fmap_r, Forall_Forall2_diag, list.Forall_forall. done. Qed.

Lemma skip_planned_all l rest : dr_target <$> rest = filter (fun t => listed A t = true) l -> foldl skip_planned rest l = [].
Proof.
  revert rest. induction l as [|t l IH]; intros rest Heq; [by apply fmap_nil_inv in Heq|]. cbn [foldl]. apply IH.
  rewrite filter_cons in Heq. case_decide as Hl.
  - destruct rest as [|r rest]; [done|]. cbn in *. injection Heq as -> Heq. by rewrite bool_decide_true.
  - destruct rest as [|r rest]; [done|]. unfold skip_planned. rewrite bool_decide_false; [done|]. intros <-. apply Hl.
    assert (Hin : dr_target r ∈ filter (fun t => listed A t = true) l) by (rewrite <- Heq; left). by apply list_elem_of_filter in Hin as [].
Qed.

Context (HM : forall o, o ∈ pending_list (finalization_batch D) -> slot_marked A o = true).

(** A run with a pending slot has a live slot. *)
Lemma pending_has_live i C t F : classes D !! i = Some C -> t ∈ class_runs C -> batch_runs (finalization_batch D) !! target_location t = Some F ->
  has_live A t = true.
Proof.
  intros HC Ht HF. destruct (batch_attached i C t F HC Ht HF) as (_ & HT & _). pose proof (hw_batch _ HW _ _ HF) as HB.
  destruct (map_choose _ (bf_nonempty _ _ _ _ HB)) as (j & w & Hw). destruct (bf_words _ _ _ _ HB j w Hw) as [Hword Hne].
  destruct (trailing_zeros_spec w Hword Hne) as (Hr & Hb & _). set (s := (Z.of_nat j * 64 + trailing_zeros w)%Z).
  assert (Hs : s ∈ pending_slots F).
  { apply elem_of_pending_slots; [apply HB|]. split; [lia|]. unfold pending_bit, s. destruct (index_join j (trailing_zeros w) Hr) as [-> ->].
    by rewrite Nat2Z.id, Hw. }
  destruct (bf_pending _ _ _ _ HB s Hs) as [Hlt Hal]. rewrite HT in Hlt. apply existsb_slots. exists s. split; [lia|].
  assert (Hin : pending_owner F s ∈ pending_list (finalization_batch D)).
  { unfold pending_list. apply list_elem_of_bind. exists (target_location t, F). split; [by apply list_elem_of_fmap_2|by apply elem_of_map_to_list]. }
  pose proof (live_at_owner A (pending_owner F s)) as HL. rewrite (HM _ Hin), Hal in HL.
  change (live_at A (target_location (run_target F)) s = true) in HL. by rewrite HT in HL.
Qed.

Lemma header_not_empty h cls : header_class_id h = Some cls -> header_is_empty h = false.
Proof.
  unfold header_class_id, header_is_empty, AllocationClassId_new. destruct (header_is_valid h); [|done]. cbn. by destruct (Z.eqb_spec (h_class_id h) 0).
Qed.

Lemma class_run_not_free i C t : classes D !! i = Some C -> t ∈ class_runs C -> target_location t ∉ free_runs D.
Proof.
  intros HC Ht Hin. destruct (hw_free _ HW _ Hin) as (r & Hr & He). destruct (class_targets_ok D HW i C t HC Ht) as [((r' & Hr' & Hc' & _) & _) _].
  apply header_not_empty in Hc'. congruence.
Qed.

Lemma check_dead_run_ok {E} r : r ∈ dead_runs plan -> check_dead_run (E:=E) D plan r = Ok ().
Proof.
  intros Hr. destruct (dead_planned r Hr) as (i & C & ws & HPr). pose proof (dro_class _ _ _ _ _ _ HPr) as HC.
  pose proof (dro_run _ _ _ _ _ _ HPr) as Hk. assert (Hin : dr_target r ∈ class_runs C) by (by eapply list_elem_of_lookup_2).
  destruct (class_targets_ok D HW i C _ HC Hin) as [HT Hg]. pose proof (dro_words _ _ _ _ _ _ HPr) as HDW. unfold check_dead_run.
  rewrite (dro_id _ _ _ _ _ _ HPr), class_index_cid. cbn [expect mbind outcome_bind]. rewrite HC. cbn [expect mbind outcome_bind].
  rewrite (bool_decide_true (metadata C = dr_metadata r)) by (symmetry; apply HPr). cbn [rust_assert mbind outcome_bind].
  rewrite (bool_decide_true (class_geometry C = target_geometry (dr_target r))) by done. cbn [rust_assert mbind outcome_bind].
  assert (Hct : contains_target C (dr_target r) = true).
  { apply existsb_exists. exists (dr_target r). split; [by apply list_elem_of_In|by apply bool_decide_true]. }
  rewrite Hct. cbn [rust_assert mbind outcome_bind]. unfold vec_get at 1. rewrite Hk. cbn [expect mbind outcome_bind].
  rewrite (bool_decide_true (dr_target r = dr_target r)) by done. cbn [rust_assert mbind outcome_bind].
  assert (Hpend : match batch_runs (finalization_batch D) !! target_location (dr_target r) with
      | Some pending => _ ← rust_assert (bool_decide (run_target pending = dr_target r)); _ ← rust_assert (negb (is_detached pending));
                        rust_assert (bool_decide (live_slots r <> 0))
      | None => Ok ()
      end = Ok (E:=E) ()).
  { destruct (batch_runs _ !! _) as [F|] eqn:EF; [|done]. destruct (batch_attached i C _ F HC Hin EF) as (Hd & Ht & _).
    rewrite (bool_decide_true (run_target F = dr_target r)) by done. rewrite Hd. cbn. rewrite bool_decide_true; [done|]. intros H0%(dro_live _ _ _ _ _ _ HPr).
    by rewrite (pending_has_live i C _ F HC Hin EF) in H0. }
  rewrite Hpend. cbn [mbind outcome_bind]. rewrite (validate_ok A (hw_arena _ HW)) by done. cbn [mbind outcome_bind].
  rewrite (dro_slice _ _ _ _ _ _ HPr). cbn [expect mbind outcome_bind].
  assert (Hfa : forallb (fun w => negb (dead_mask w =? 0)%Z && (Z.of_nat (word_index w) <? word_len (allocation_bitmap (target_geometry (dr_target r))))%Z) ws = true).
  { apply forallb_forall. intros w Hw%list_elem_of_In. destruct (dw_word _ _ _ HDW w Hw) as (Hn & _ & Hlt).
    by rewrite (proj2 (Z.eqb_neq _ _) Hn), (proj2 (Z.ltb_lt _ _) Hlt). }
  rewrite Hfa. cbn [rust_assert mbind outcome_bind]. rewrite (bool_decide_true (disposition r = _)) by apply HPr. cbn [rust_assert mbind outcome_bind].
  destruct (is_retired r); [|done]. assert (Hfr : forallb (fun l => negb (bool_decide (l = target_location (dr_target r)))) (free_runs D) = true); [|by rewrite Hfr].
  apply forallb_forall. intros l Hl%list_elem_of_In. rewrite bool_decide_false; [done|]. intros ->. by apply (class_run_not_free i C _ HC Hin).
Qed.

Lemma check_class_ok {E} i C : classes D !! i = Some C -> check_class (E:=E) A (i, C) = Ok ().
Proof.
  intros HC. unfold check_class. cbn [fst snd]. rewrite class_id_ok by (apply lookup_lt_Some in HC; pose proof (hw_ids _ HW); lia). cbn [mbind outcome_bind].
  rewrite mapM_unit; [done|]. intros t Ht. destruct (class_targets_ok D HW i C t HC Ht) as [HT Hg]. unfold check_class_run.
  rewrite bool_decide_true by done. cbn [rust_assert mbind outcome_bind]. by apply (validate_ok A (hw_arena _ HW)).
Qed.

Lemma prepare_ok {E} : prepare_swept_allocator_transition (E:=E) D plan = Ok batch_plan.
Proof.
  unfold prepare_swept_allocator_transition. rewrite (hw_retired _ HW). cbn [rust_assert mbind outcome_bind]. rewrite batch_plan_ok. cbn [mbind outcome_bind].
  rewrite (mapM_unit _ (map_to_list (plan_runs batch_plan))).
  2:{ intros [l p] Hin%elem_of_map_to_list. cbn [fst]. destruct (batch_runs (finalization_batch D) !! l) as [F|] eqn:EF; [|done].
      apply batch_plan_lookup in Hin as (r & [Hr _]%elem_of_drops & <- & _). destruct (dead_planned r Hr) as (i & C & ws & HPr).
      destruct (batch_attached i C (dr_target r) F (dro_class _ _ _ _ _ _ HPr)) as (-> & _); [|done|done].
      eapply list_elem_of_lookup_2. by eapply dro_run. }
  cbn [mbind outcome_bind]. rewrite (mapM_unit _ (enumerate (classes D))).
  2:{ intros [i C] Hin. apply list_elem_of_lookup in Hin as (k & Hk). unfold enumerate in Hk. rewrite list_lookup_imap in Hk.
      apply fmap_Some in Hk as (C' & HC & [= -> ->]). by apply check_class_ok. }
  cbn [mbind outcome_bind]. rewrite skip_planned_all by apply HP. cbn [rust_assert mbind outcome_bind].
  rewrite (mapM_unit _ (dead_runs plan)) by (intros; by apply check_dead_run_ok). done.
Qed.
End plan.
