(* ===== verification/SweepTopology.v ===== *)
(** * Runs leave their classes, dead slots enter the finalization batch

    Retiring and installing the plan change the classes by removing exactly the
    runs without live slots, and the batch by adding exactly the dead slots of the
    plan to what was pending. No step of it panics. *)
From stdpp Require Import base option list numbers gmap sets.
From Stdlib Require Import ZArith Lia.
From S2P Require Import Prelude RootPool RunGeometry Bitmaps Arena ArenaFacts Heap HeapFacts Sweep SweepFacts SweepPlan.

(** ** Removing runs *)
Lemma remove_none C : remove_runs ∅ C = withdraw_frontier C.
Proof.
  unfold remove_runs, withdraw_frontier, with_frontier. f_equal; [|set_solver].
  induction (class_runs C) as [|t l IH]; [done|]. rewrite filter_cons, IH, decide_True by set_solver. done.
Qed.

Lemma retire_at {E} C k t (R : gset RunLocation) : NoDup (target_location <$> class_runs C) -> class_runs C !! k = Some t -> target_location t ∉ R ->
  retire_withdrawn_run_at (E:=E) (remove_runs R C) t =
    Ok (remove_runs ({[target_location t]} ∪ R) C, length (filter (fun t => target_location t ∉ R) (take k (class_runs C)))).
Proof.
  intros HN Hk Ht. unfold retire_withdrawn_run_at, run_position. cbn [frontier_is_withdrawn remove_runs frontier_index frontier rust_assert mbind outcome_bind class_runs].
  rewrite (list_find_eq (filter (fun t => target_location t ∉ R) (class_runs C)) (length (filter (fun t => target_location t ∉ R) (take k (class_runs C)))) t).
  - cbn [fmap option_fmap option_map expect mbind outcome_bind fst]. f_equal. f_equal. unfold remove_runs. cbn [metadata class_geometry frontier class_runs run_locations frontier_index].
    f_equal; [by apply delete_filter|]. apply set_eq. intros l. set_solver.
  - apply NoDup_filter. by apply NoDup_fmap_1 in HN.
  - by apply (filter_lookup_pos (fun t => target_location t ∉ R)).
Qed.

(** ** Merging pending words *)
Definition merged (m a : gmap nat Z) : gmap nat Z := union_with (fun x y => Some (Z.lor x y)) m a.

Lemma merge_words_ok {E} (m : gmap nat Z) l : NoDup l.*1 -> (forall i w, (i, w) ∈ l -> w <> 0%Z /\ Z.land (default 0%Z (m !! i)) w = 0%Z) ->
  foldM (merge_word (E:=E)) m l = Ok (merged m (list_to_map l)).
Proof.
  intros HN Hok. destruct (foldM_inv (merge_word (E:=E)) (fun d x => x = merged m (list_to_map d)) l m) as (x & -> & ->); [|  |done].
  - unfold merged. symmetry. apply (right_id_L _ _).
  - intros d [i w] rest x Heq ->. destruct (Hok i w) as [Hne Hz]; [rewrite Heq; set_solver|]. unfold merge_word. cbn [fst snd].
    rewrite (proj2 (Z.eqb_neq _ _) Hne). cbn [negb rust_assert mbind outcome_bind].
    rewrite Heq, fmap_app in HN. apply NoDup_app in HN as (_ & Hd & _).
    assert (Hni : i ∉ d.*1) by (intros Hin; apply (Hd i Hin); left). apply not_elem_of_list_to_map in Hni as Hnone.
    assert (Hsame : merged m (list_to_map d) !! i = m !! i) by (unfold merged; rewrite lookup_union_with, Hnone; by destruct (m !! i)).
    rewrite Hsame, Hz. cbn [rust_assert mbind outcome_bind Z.eqb]. eexists. split; [done|]. rewrite list_to_map_snoc by done.
    apply map_eq. intros j. unfold merged. destruct (decide (j = i)) as [->|Hj].
    + rewrite lookup_insert_eq, lookup_union_with, lookup_insert_eq. destruct (m !! i); [done|]. cbn. by rewrite Z.lor_0_l.
    + rewrite lookup_insert_ne, !lookup_union_with, lookup_insert_ne by done. done.
Qed.

(** ** Locations of plan entries *)
Definition locations (l : list DeadRunPlan) : gset RunLocation := list_to_set (location <$> l).

Lemma elem_of_locations l x : x ∈ locations l <-> exists r, r ∈ l /\ location r = x.
Proof. unfold locations. rewrite elem_of_list_to_set, list_elem_of_fmap. split; intros (r & ? & ?); by exists r. Qed.

Lemma locations_snoc l r : locations (l ++ [r]) = {[location r]} ∪ locations l.
Proof. unfold locations. rewrite fmap_app, list_to_set_app_L. cbn. set_solver. Qed.

Section topology.
Context (D : ManagedData) (HW : heap_wf D) (plan : DeadSetPlan) (HP : plan_ok D plan (classes D ≫= class_runs)).
Context (HM : forall o, o ∈ pending_list (finalization_batch D) -> slot_marked (arena D) o = true).
Notation A := (arena D).
Notation planned_of := (planned_of plan).
Notation words_at := (words_at plan).
Notation drops := (drops plan).

(** The heap with runs removed, runs retired and another batch. *)
Definition topology (R : gset RunLocation) (retired : list (RunClaimTarget * AllocationClassId)) (b : FinalizationBatch) : ManagedData :=
  with_batch (with_retired (with_classes D (remove_runs R <$> classes D)) retired) b.

Lemma remove_class i C t R : classes D !! i = Some C -> t ∈ class_runs C ->
  <[i := remove_runs ({[target_location t]} ∪ R) C]> (remove_runs R <$> classes D) = remove_runs ({[target_location t]} ∪ R) <$> classes D.
Proof.
  intros HC Ht. apply list_eq. intros j. rewrite list_lookup_fmap. destruct (decide (j = i)) as [->|Hj].
  { rewrite list_lookup_insert_eq by (rewrite length_fmap; by eapply lookup_lt_Some). by rewrite HC. }
  rewrite list_lookup_insert_ne, list_lookup_fmap by done. destruct (classes D !! j) as [C'|] eqn:HC'; [|done]. cbn. f_equal.
  assert (Hout : forall t', t' ∈ class_runs C' -> target_location t' <> target_location t).
  { intros t' Ht' Hl. destruct (class_disjoint D HW j i C' C t' t HC' HC Ht' Ht Hl). done. }
  unfold remove_runs. f_equal.
  - apply filter_ext. intros t' Ht'. specialize (Hout t' Ht'). set_solver.
  - destruct (hw_class _ HW j C' HC') as (_ & HL & _). apply set_eq. intros l. rewrite !elem_of_difference, elem_of_union, elem_of_singleton.
    split; [intros [H1 H2]; split; [done|]|tauto]. intros [->|]; [|done]. apply HL in H1 as (t' & Ht' & Hl). by apply (Hout t').
Qed.

Definition retired_runs : list DeadRunPlan := filter (fun r => is_retired r = true) (dead_runs plan).
(** The class run of an entry of the plan. *)
Lemma dead_run_facts r : r ∈ dead_runs plan -> exists i C ws, dead_run_ok D (dead_words plan) r i C ws /\ dr_target r ∈ class_runs C /\
  NoDup (target_location <$> class_runs C).
Proof.
  intros Hr. destruct (dead_planned D plan HP r Hr) as (i & C & ws & HPr). exists i, C, ws. split; [done|]. split.
  - eapply list_elem_of_lookup_2. by eapply dro_run.
  - by destruct (hw_class _ HW i C (dro_class _ _ _ _ _ _ HPr)) as (_ & _ & HN & _).
Qed.

(** Entries of a list without repetition: an entry is not among those before it. *)
Lemma location_fresh (l : list DeadRunPlan) d r rest : (forall x, x ∈ l -> x ∈ dead_runs plan) -> NoDup l -> l = d ++ r :: rest ->
  forall x, x ∈ d \/ x ∈ rest -> location x <> location r.
Proof.
  intros Hsub HN -> x Hx Hl. assert (x = r) as ->.
  { apply (dead_location_inj D HW plan HP); [apply Hsub; set_solver|apply Hsub; set_solver|done]. }
  apply NoDup_app in HN as (_ & Hd & [Hr _]%NoDup_cons). destruct Hx as [Hx|Hx]; [|done]. apply (Hd r Hx). left.
Qed.

Lemma retire_ok {E} : retire_wholly_dead_no_drop_runs (E:=E) (withdraw_allocator_frontiers D) plan =
  Ok (topology (locations retired_runs) ((fun r => (dr_target r, dr_class r)) <$> retired_runs) (finalization_batch D)).
Proof.
  unfold retire_wholly_dead_no_drop_runs. fold retired_runs.
  assert (Hsub : forall x, x ∈ retired_runs -> x ∈ dead_runs plan) by (intros x [_ Hx]%list_elem_of_filter; done).
  assert (HN : NoDup retired_runs) by (apply NoDup_filter; eapply (NoDup_fmap_1 location), (dead_nodup D HW plan HP)).
  destruct (foldM_inv (retire_run (E:=E)) (fun d s => s = topology (locations d) ((fun r => (dr_target r, dr_class r)) <$> d) (finalization_batch D))
    retired_runs (withdraw_allocator_frontiers D)) as (s & -> & ->); [| |done].
  - unfold topology, withdraw_allocator_frontiers, with_batch, with_retired, with_classes. cbn. rewrite (hw_retired _ HW). f_equal.
    apply list_fmap_ext. intros i C _. by rewrite <- remove_none.
  - intros d r rest s Heq ->. assert (Hr : r ∈ retired_runs) by (rewrite Heq; set_solver).
    destruct (dead_run_facts r (Hsub r Hr)) as (i & C & ws & HPr & Hin & HNC). pose proof (dro_class _ _ _ _ _ _ HPr) as HC.
    unfold retire_run. rewrite (dro_id _ _ _ _ _ _ HPr), class_index_cid. cbn [expect mbind outcome_bind topology with_batch with_retired with_classes classes].
    unfold vec_get. rewrite list_lookup_fmap, HC. cbn [fmap option_fmap option_map expect mbind outcome_bind].
    rewrite (retire_at C (class_run_index r) (dr_target r)) by (apply HPr || done || (rewrite elem_of_locations; intros (x & Hx & Hl); apply (location_fresh retired_runs d r rest Hsub HN Heq x); auto)).
    cbn [mbind outcome_bind fst]. rewrite vec_set_lt by (rewrite length_fmap; by eapply lookup_lt_Some). cbn [mbind outcome_bind].
    eexists. split; [done|]. fold (location r). rewrite (remove_class i C (dr_target r) _ HC Hin), fmap_app, locations_snoc. cbn. by rewrite (dro_id _ _ _ _ _ _ HPr).
Qed.

(** ** Installing *)
Definition installed (old : option FinalizationRun) (r : DeadRunPlan) : FinalizationRun :=
  match old with
  | Some F => MkFinalizationRun (fr_target F) (fr_class F) (fr_metadata F) (fr_pending_slot_count F + dead_slots r)
                (merged (pending_words F) (pending_map (words_at r)))
  | None => MkFinalizationRun (if decide (live_slots r = 0) then Detached (dr_target r) else Attached (dr_target r)) (dr_class r) (dr_metadata r)
              (dead_slots r) (pending_map (words_at r))
  end.

Definition install_in (b : FinalizationBatch) (r : DeadRunPlan) : FinalizationBatch :=
  MkBatch (<[location r := installed (batch_runs b !! location r) r]> (batch_runs b)) (batch_pending b + dead_slots r).

Definition installs (d : list DeadRunPlan) : FinalizationBatch := foldl install_in (finalization_batch D) d.

Lemma installs_snoc d r : installs (d ++ [r]) = install_in (installs d) r.
Proof. unfold installs. by rewrite foldl_app. Qed.

Lemma installs_fresh d l : l ∉ locations d -> batch_runs (installs d) !! l = batch_runs (finalization_batch D) !! l.
Proof.
  induction d as [|r d IH] using rev_ind; [done|]. rewrite locations_snoc, installs_snoc. intros Hl. cbn.
  rewrite lookup_insert_ne by set_solver. apply IH. set_solver.
Qed.

Lemma installs_lookup d r : NoDup (location <$> d) -> r ∈ d ->
  batch_runs (installs d) !! location r = Some (installed (batch_runs (finalization_batch D) !! location r) r).
Proof.
  induction d as [|x d IH] using rev_ind; [by intros _ ?%elem_of_nil|]. rewrite fmap_app, installs_snoc. cbn.
  intros (HN & Hd & _)%NoDup_app [Hr| ->%list_elem_of_singleton]%elem_of_app.
  - rewrite lookup_insert_ne; [by apply IH|]. intros Hl. apply (Hd (location r)); [by apply list_elem_of_fmap_2|]. rewrite <- Hl. left.
  - rewrite lookup_insert_eq, installs_fresh; [done|]. intros (y & Hy & Hl)%elem_of_locations. apply (Hd (location y)); [by apply list_elem_of_fmap_2|].
    rewrite Hl. left.
Qed.

Lemma installs_total d : batch_pending (installs d) = batch_pending (finalization_batch D) + sum_list_with dead_slots d.
Proof.
  induction d as [|r d IH] using rev_ind; [cbn; lia|]. rewrite installs_snoc, sum_list_with_app. cbn. lia.
Qed.

(** The runs an installation detaches. *)
Definition detached_in (d : list DeadRunPlan) : list DeadRunPlan := filter (fun r => live_slots r = 0) d.

Lemma detached_snoc d r : detached_in (d ++ [r]) = detached_in d ++ if decide (live_slots r = 0) then [r] else [].
Proof. unfold detached_in. rewrite filter_app, filter_cons, filter_nil. by case_decide. Qed.

(** Retired runs before a run have left its class. *)
Lemma detach_index r i C ws (R : gset RunLocation) : r ∈ dead_runs plan -> dead_run_ok D (dead_words plan) r i C ws ->
  locations retired_runs ⊆ R ->
  length (filter (fun t => target_location t ∉ R) (take (class_run_index r) (class_runs C))) <= class_run_index r - retired_before plan r.
Proof.
  intros Hr HPr HR. set (k := class_run_index r). set (pre := take k (class_runs C)).
  assert (Hsum : length (filter (fun t => target_location t ∉ R) pre) + length (filter (fun t => target_location t ∈ R) pre) = k).
  { pose proof (lookup_lt_Some _ _ _ (dro_run _ _ _ _ _ _ HPr)). assert (Hpre : length pre = k) by (unfold pre; rewrite length_take; fold k in H; lia).
    rewrite <- Hpre. clear. induction pre as [|t l IH]; [done|]. rewrite !filter_cons. cbn [length]. rewrite <- IH.
    destruct (decide (target_location t ∈ R)).
    - rewrite decide_False by tauto. cbn. lia.
    - rewrite decide_True by done. cbn. lia. }
  enough (retired_before plan r <= length (filter (fun t => target_location t ∈ R) pre)) by lia.
  change (length (priors plan r) <= length (filter (fun t => target_location t ∈ R) pre)). rewrite <- (length_fmap dr_target).
  apply submseteq_length, NoDup_submseteq.
  - apply NoDup_fmap_on; [|by apply (priors_nodup D HW plan HP)]. intros p q (Hp & _)%elem_of_priors (Hq & _)%elem_of_priors Hpq.
    apply (dead_location_inj D HW plan HP); [done|done|]. unfold location. by rewrite Hpq.
  - intros t (p & -> & (Hp & Hc & Hlt & Hret)%elem_of_priors)%list_elem_of_fmap. apply list_elem_of_filter. split.
    + apply HR, elem_of_locations. exists p. split; [|done]. apply list_elem_of_filter. done.
    + destruct (dead_planned D plan HP p Hp) as (j & C' & ws' & HPp).
      assert (i = j) as <- by (apply cid_inj; rewrite <- (dro_id _ _ _ _ _ _ HPp), <- (dro_id _ _ _ _ _ _ HPr); congruence).
      pose proof (dro_class _ _ _ _ _ _ HPp) as HC. rewrite (dro_class _ _ _ _ _ _ HPr) in HC. injection HC as ->.
      unfold pre. apply (list_elem_of_lookup_2 _ (class_run_index p)). rewrite lookup_take_lt by done. apply HPp.
Qed.

(** What was pending in a run of the plan is disjoint from its dead slots. *)
Lemma merge_disjoint r F i w : r ∈ drops -> batch_runs (finalization_batch D) !! location r = Some F ->
  (i, w) ∈ map_to_list (pending_map (words_at r)) -> w <> 0%Z /\ Z.land (default 0%Z (pending_words F !! i)) w = 0%Z.
Proof.
  intros [Hr Hdisp]%elem_of_drops HF Hin%elem_of_map_to_list. destruct (dead_run_facts r Hr) as (ci & C & ws & HPr & Hrun & _).
  pose proof (dro_words _ _ _ _ _ _ HPr) as HDW. unfold SweepPlan.words_at in Hin. rewrite (dro_slice _ _ _ _ _ _ HPr) in Hin. cbn in Hin.
  apply elem_of_list_to_map in Hin; [|rewrite pending_map_fst; apply HDW]. apply list_elem_of_fmap in Hin as (dw & [= -> ->] & Hdw).
  destruct (dw_word _ _ _ HDW dw Hdw) as (Hne & Hword & Hlt). split; [done|].
  destruct (pending_words F !! word_index dw) as [v|] eqn:Ev; [|apply Z.land_0_l]. cbn.
  pose proof (hw_batch _ HW _ _ HF) as HB. destruct (bf_words _ _ _ _ HB _ _ Ev) as [Hvw _].
  destruct (batch_attached D HW ci C (dr_target r) F (dro_class _ _ _ _ _ _ HPr) Hrun HF) as (_ & HT & _).
  apply word_zero; [by apply land_word|]. intros n Hn. rewrite Z.land_spec. destruct (Z.testbit v n) eqn:Ebv; [|done]. destruct (Z.testbit (dead_mask dw) n) eqn:Ebd; [|done].
  exfalso. set (s := (Z.of_nat (word_index dw) * 64 + n)%Z). destruct (index_join (word_index dw) n Hn) as [Hdiv Hmod].
  assert (Hs : s ∈ pending_slots F).
  { apply elem_of_pending_slots; [apply HB|]. split; [lia|]. unfold pending_bit, s. by rewrite Hdiv, Hmod, Nat2Z.id, Ev. }
  assert (Hdead : dead_at A (target_location (dr_target r)) s = true).
  { eapply (dw_bits _ _ _ HDW); [lia|]. exists dw. unfold s. by rewrite Hdiv, Hmod, Nat2Z.id. }
  assert (Ho : pending_owner F s ∈ pending_list (finalization_batch D)).
  { unfold pending_list. apply list_elem_of_bind. exists (location r, F). split; [by apply list_elem_of_fmap_2|by apply elem_of_map_to_list]. }
  pose proof (dead_at_owner A (pending_owner F s)) as HDo. rewrite (HM _ Ho), andb_false_r in HDo.
  change (dead_at A (target_location (run_target F)) s = false) in HDo. rewrite HT in HDo. congruence.
Qed.

Lemma drops_of_plan x : x ∈ drops -> x ∈ dead_runs plan.
Proof. by intros [? _]%elem_of_drops. Qed.

Lemma drops_list_nodup : NoDup drops.
Proof. eapply (NoDup_fmap_1 location), (drops_nodup D HW plan HP). Qed.

Lemma drop_not_retired x y : x ∈ drops -> y ∈ retired_runs -> location x <> location y.
Proof.
  intros [Hx Hd]%elem_of_drops [Hy Hyd]%list_elem_of_filter Hl. assert (x = y) as -> by (by apply (dead_location_inj D HW plan HP)).
  unfold is_retired in Hy. apply bool_decide_eq_true in Hy as [Hn _]. congruence.
Qed.

Definition planned_map (d : list DeadRunPlan) : gmap RunLocation PlannedFinalizationRun := list_to_map ((fun r => (location r, planned_of r)) <$> d).

(** One installation. *)
Lemma install_run_ok {E} d r rest retired : drops = d ++ r :: rest ->
  install_run (E:=E) (topology (locations retired_runs ∪ locations (detached_in d)) retired (installs d), planned_map (r :: rest)) (location r) =
  Ok (topology (locations retired_runs ∪ locations (detached_in (d ++ [r]))) retired (installs (d ++ [r])), planned_map rest).
Proof.
  intros Heq. assert (Hr : r ∈ drops) by (rewrite Heq; set_solver). pose proof (location_fresh drops d r rest drops_of_plan drops_list_nodup Heq) as Hfresh.
  destruct (dead_run_facts r (drops_of_plan r Hr)) as (i & C & ws & HPr & Hin & HNC). pose proof (dro_class _ _ _ _ _ _ HPr) as HC.
  unfold install_run, planned_map. cbn [fmap list_fmap list_to_map foldr uncurry fst snd]. rewrite lookup_insert_eq. cbn [expect mbind outcome_bind].
  rewrite delete_insert_id.
  2:{ apply not_elem_of_list_to_map. rewrite <- list_fmap_compose. intros (x & Hl & Hx)%list_elem_of_fmap. by apply (Hfresh x); [right|]. }
  cbn [SweepPlan.planned_of planned_run run_target fr_target]. rewrite (bool_decide_true (target_location (dr_target r) = location r)) by done. cbn [rust_assert mbind outcome_bind].
  assert (Hnew : location r ∉ locations d) by (rewrite elem_of_locations; intros (x & Hx & Hl); by apply (Hfresh x); [left|]).
  change (finalization_batch (topology _ _ _)) with (installs d). rewrite (installs_fresh d _ Hnew).
  destruct (batch_runs (finalization_batch D) !! location r) as [F|] eqn:EF.
  - unfold merge_pending_words. cbn [pending_words fr_pending_slot_count]. rewrite merge_words_ok; [|apply NoDup_fst_map_to_list|by intros; apply (merge_disjoint r F)].
    rewrite list_to_map_to_list. cbn [mbind outcome_bind]. rewrite installs_snoc, detached_snoc.
    assert (Hl0 : live_slots r <> 0).
    { intros H0%(dro_live _ _ _ _ _ _ HPr). by rewrite (pending_has_live D HW HM i C _ F HC Hin EF) in H0. }
    rewrite decide_False, app_nil_r by done. unfold install_in. rewrite (installs_fresh d _ Hnew), EF. done.
  - cbn [fr_class fr_metadata fr_pending_slot_count pending_words]. rewrite (dro_id _ _ _ _ _ _ HPr), class_index_cid. cbn [expect mbind outcome_bind].
    change (classes (topology _ _ _)) with (remove_runs (locations retired_runs ∪ locations (detached_in d)) <$> classes D).
    rewrite list_lookup_fmap, HC. cbn [fmap option_fmap option_map expect mbind outcome_bind frontier_is_withdrawn remove_runs frontier_index frontier rust_assert].
    set (R := locations retired_runs ∪ locations (detached_in d)).
    assert (HrR : target_location (dr_target r) ∉ R).
    { intros [(x & Hx & Hl)%elem_of_locations|(x & [_ Hx]%list_elem_of_filter & Hl)%elem_of_locations]%elem_of_union.
      - by apply (drop_not_retired r x).
      - by apply (Hfresh x); [left|]. }
    rewrite installs_snoc, detached_snoc. unfold install_in. rewrite (installs_fresh d _ Hnew), EF. unfold installed.
    change (detach_from_index (planned_of r)) with (if decide (live_slots r = 0) then Some (class_run_index r - retired_before plan r) else None).
    destruct (decide (live_slots r = 0)) as [Hl0|Hl0].
    + rewrite (retire_at C (class_run_index r) (dr_target r)) by (apply HPr || done). cbn [mbind outcome_bind fst snd].
      rewrite (bool_decide_true (_ <= class_run_index r - retired_before plan r)) by (eapply (detach_index r i C ws); [by apply drops_of_plan|done|apply union_subseteq_l]). cbn [rust_assert mbind outcome_bind].
      rewrite vec_set_lt by (rewrite length_fmap; by eapply lookup_lt_Some). cbn [mbind outcome_bind fst snd].
      rewrite (remove_class i C (dr_target r) _ HC Hin), locations_snoc. fold (location r).
      replace (locations retired_runs ∪ ({[location r]} ∪ locations (detached_in d))) with ({[location r]} ∪ R) by (unfold R; set_solver).
      rewrite (dro_id _ _ _ _ _ _ HPr). done.
    + assert (Hct : contains_target (remove_runs R C) (dr_target r) = true).
      { apply existsb_exists. exists (dr_target r). split; [apply list_elem_of_In, list_elem_of_filter; by split|by apply bool_decide_true]. }
      fold R. rewrite Hct. cbn [rust_assert mbind outcome_bind fst snd]. rewrite app_nil_r. rewrite (dro_id _ _ _ _ _ _ HPr). done.
Qed.

Lemma foldM_inv_rest {E T U} (f : U -> T -> outcome E U) (I : list T -> list T -> U -> Prop) l s :
  I [] l s ->
  (forall d x rest s, l = d ++ x :: rest -> I d (x :: rest) s -> exists s', f s x = Ok s' /\ I (d ++ [x]) rest s') ->
  exists s', foldM f s l = Ok s' /\ I l [] s'.
Proof.
  intros H0 Hstep. assert (Hgen : forall rest d s, l = d ++ rest -> I d rest s -> exists s', foldM f s rest = Ok s' /\ I l [] s').
  { induction rest as [|x rest IH]; intros d s1 -> Hs; [rewrite app_nil_r in *; by exists s1|].
    destruct (Hstep d x rest s1 eq_refl Hs) as (s' & Hf & Hs'). cbn [foldM]. rewrite Hf. cbn [mbind outcome_bind].
    apply (IH (d ++ [x])); [by rewrite <- app_assoc|done]. }
  by apply (Hgen l []).
Qed.

(** The locations of the runs that leave their classes. *)
Definition gone : gset RunLocation := locations retired_runs ∪ locations (detached_in drops).

Lemma install_ok {E} retired : install_finalization_batch (E:=E) (topology (locations retired_runs) retired (finalization_batch D)) (batch_plan plan) =
  Ok (topology gone retired (installs drops)).
Proof.
  unfold install_finalization_batch. cbn [batch_plan plan_runs install_order]. rewrite foldM_fmap.
  destruct (foldM_inv_rest (fun s r => install_run (E:=E) s (location r))
    (fun d rest s => s = (topology (locations retired_runs ∪ locations (detached_in d)) retired (installs d), planned_map rest)) drops
    (topology (locations retired_runs) retired (finalization_batch D), planned_map drops)) as (s & Hf & ->).
  - change (locations (detached_in [])) with (∅ : gset RunLocation). by rewrite (right_id_L ∅ (∪)).
  - intros d r rest s Heq ->. eexists. split; [|done]. by apply install_run_ok.
  - unfold planned_map in Hf. rewrite Hf. cbn [mbind outcome_bind snd fst]. by rewrite bool_decide_true.
Qed.

Lemma gone_iff i C t : classes D !! i = Some C -> t ∈ class_runs C -> target_location t ∈ gone <-> has_live A t = false.
Proof.
  intros HC Ht. unfold gone. rewrite elem_of_union, !elem_of_locations. split.
  - assert (Hboth : forall r, r ∈ dead_runs plan -> live_slots r = 0 -> location r = target_location t -> has_live A t = false).
    { intros r Hr H0 Hl. destruct (dead_run_facts r Hr) as (j & C' & ws & HPr & Hin & _).
      destruct (class_disjoint D HW j i C' C _ t (dro_class _ _ _ _ _ _ HPr) HC Hin Ht Hl) as [_ <-]. by apply HPr. }
    intros [(r & [Hret Hr]%list_elem_of_filter & Hl)|(r & [H0 [Hr _]%elem_of_drops]%list_elem_of_filter & Hl)]; [|by apply (Hboth r)].
    unfold is_retired in Hret. apply bool_decide_eq_true in Hret as [_ H0]. by apply (Hboth r).
  - intros Hl. destruct (dead_listed D plan HP i C t HC Ht) as (r & Hr & Htr); [unfold listed; by rewrite Hl, orb_true_r|].
    destruct (dead_run_facts r Hr) as (j & C' & ws & HPr & _). assert (H0 : live_slots r = 0) by (apply HPr; by rewrite Htr).
    assert (Hloc : location r = target_location t) by (unfold location; by rewrite Htr).
    destruct (disposition r) eqn:Ed.
    + left. exists r. split; [|done]. apply list_elem_of_filter. split; [|done]. unfold is_retired. by apply bool_decide_eq_true.
    + right. exists r. split; [|done]. apply list_elem_of_filter. split; [done|]. by apply elem_of_drops.
Qed.
End topology.
