(* ===== verification/SweepArena.v ===== *)
(** * What a sweep does to the memory of a run

    Resetting a run makes it untyped; retaining the marked allocations of a run
    clears exactly the dead ones; publishing the lease words makes a word
    available exactly when it is not reserved and has a free slot. *)
From stdpp Require Import base option list numbers gmap.
From Stdlib Require Import ZArith Lia.
From S2P Require Import Prelude RunGeometry Bitmaps Arena ArenaFacts HeapFacts SweepFacts.
Local Open Scope Z_scope.

(** [A'] is [A] with another run at [l]. *)
Definition replaced (A A' : Arena) (l : RunLocation) (r : Run) : Prop :=
  arena_wf A' /\ (forall l', run_of A' l' = if decide (l' = l) then Some r else run_of A l') /\ (forall l', address_of A' l' = address_of A l').

Lemma put_replaced A l r0 r : arena_wf A -> run_of A l = Some r0 -> run_wf r -> replaced A (put_run A l r) l r.
Proof.
  intros WA H0 Hr. split_and!; [by eapply put_run_wf|by eapply run_of_put|]. intros l'. apply address_of_put.
Qed.

Section run.
Context {E : Type} (A : Arena) (WA : arena_wf A) (t : RunClaimTarget) (cls : AllocationClassId) (HT : target_ok A t cls).
Notation g := (target_geometry t).

Lemma reset_ok : exists A', reset_recyclable_run (E:=E) A t cls = Ok A' /\ replaced A A' (target_location t) (zero_side_metadata RunGeometry.empty g).
Proof.
  unfold reset_recyclable_run. rewrite (validate_ok A WA) by done. cbn [mbind outcome_bind]. eexists. split; [done|].
  destruct HT as [(r & Hr & _) _]. by eapply put_replaced.
Qed.

(** ** Retaining the marked allocations *)
Lemma retain_ok r : run_of A (target_location t) = Some r ->
  exists A' r', retain_marked_allocations (E:=E) A t cls = Ok A' /\ replaced A A' (target_location t) r' /\
    header r' = header r /\ marks r' = marks r /\
    forall s, 0 <= s < slot_count g -> slot_bit (allocation r') s = slot_bit (allocation r) s && slot_bit (marks r) s.
Proof.
  intros Hr. destruct (claim_target_ok (E:=E) A WA t cls HT) as (r1 & Hty & Hres). assert (r1 = r) as -> by (destruct Hty; congruence).
  unfold retain_marked_allocations. rewrite Hres. cbn [mbind outcome_bind].
  destruct (typed_wf A WA _ _ _ _ Hty) as (HG & HA & HL & HM). pose proof (geometry_facts _ HG) as (_ & _ & _ & _ & _ & Hwl & _ & _ & _ & Hml).
  destruct (foldM_inv (retain_word (E:=E) g) (fun d x => header x = header r /\ marks x = marks r /\ leases x = leases r /\
      words_ok (allocation_bitmap g) (allocation x) /\ (forall i, i ∉ d -> allocation x !! i = allocation r !! i) /\
      (forall i, i ∈ d -> forall b, 0 <= b < 64 -> Z.of_nat i * 64 + b < slot_count g ->
         slot_bit (allocation x) (Z.of_nat i * 64 + b) = slot_bit (allocation r) (Z.of_nat i * 64 + b) && slot_bit (marks r) (Z.of_nat i * 64 + b)))
    (word_indices (allocation_bitmap g)) r) as (r' & Hf & Hh & Hm & Hl & HA' & _ & Hbits).
  - do 3 (split; [done|]). split; [exact HA|]. split; [done|]. intros i Hi. by apply elem_of_nil in Hi.
  - intros d i rest x Heq (Hh & Hm & Hl & HAx & Hout & Hin). assert (Hi : Z.of_nat i < word_len (allocation_bitmap g)).
    { apply elem_of_word_indices. rewrite Heq. set_solver. }
    assert (Hid : i ∉ d). { pose proof (NoDup_seq 0 (Z.to_nat (word_len (allocation_bitmap g)))) as HN. unfold word_indices in Heq. rewrite Heq in HN.
      apply NoDup_app in HN as (_ & HN & _). intros Hc. apply (HN i Hc). left. }
    unfold retain_word, visited_word. destruct (read_word_ok (E:=E) _ _ i HAx Hi) as (w & Hw & Hword & ->). cbn [mbind outcome_bind].
    rewrite Hm. destruct (read_word_ok (E:=E) _ _ i HM ltac:(lia)) as (m & Hmw & Hmword & ->). cbn [mbind outcome_bind fst snd].
    set (n := slot_count g). set (v := Z.land (Z.land w (valid_slot_mask n i)) (Z.land m (valid_slot_mask n i))).
    assert (Hv : is_word v) by (apply land_word; apply land_word; done || apply valid_slot_mask_word).
    destruct (write_word_ok (E:=E) _ _ i v HAx Hi Hv) as [-> HA2]. cbn [mbind outcome_bind]. eexists. split; [done|]. cbn.
    do 3 (split; [done|]). split; [exact HA2|]. split.
    + intros j Hj. rewrite list_lookup_insert_ne by set_solver. apply Hout. set_solver.
    + assert (Hlt : (i < length (allocation x))%nat) by (by eapply lookup_lt_Some). pose proof (Hout i Hid) as Hwr. rewrite Hw in Hwr.
      intros j [Hj| ->%list_elem_of_singleton]%elem_of_app b Hb Hs; unfold slot_bit; destruct (index_join j b Hb) as [-> ->] || destruct (index_join i b Hb) as [-> ->]; rewrite Nat2Z.id.
      * rewrite list_lookup_insert_ne by (intros ->; done). specialize (Hin j Hj b Hb Hs). unfold slot_bit in Hin. destruct (index_join j b Hb) as [E1 E2].
        rewrite E1, E2, Nat2Z.id in Hin. done.
      * rewrite list_lookup_insert_eq, <- Hwr, Hmw by done. unfold v. rewrite !Z.land_spec, valid_slot_mask_spec by done.
        rewrite (proj2 (Z.ltb_lt _ _) Hs). by rewrite !andb_true_r.
  - rewrite Hf. cbn [mbind outcome_bind]. exists (put_run A (target_location t) r'), r'. split; [done|]. split.
    + eapply put_replaced; [done|exact Hr|]. destruct (aw_run _ WA _ _ Hr) as [Hv _]. split; [by rewrite Hh|]. rewrite Hh.
      destruct Hty as (_ & _ & Hg). rewrite Hg. split; [done|]. unfold bitmaps_ok. by rewrite Hl, Hm.
    + split_and!; [done|done|]. intros s Hs. destruct (bitmap_index _ _ Hs) as [Hi Hb]. specialize (Hbits (Z.to_nat (s / 64))).
      rewrite <- (index_split s) by lia. apply Hbits; [apply elem_of_word_indices; lia|done|rewrite index_split; lia].
Qed.
End run.

(** ** Publishing the lease words *)

(** Word [i] of the allocation bitmap has a slot that is not allocated. *)
Definition word_has_free (r : Run) (g : RunGeometry) (i : nat) : bool :=
  existsb (fun b => (Z.of_nat i * 64 + b <? slot_count g) && negb (slot_bit (allocation r) (Z.of_nat i * 64 + b))) bits64.

(** The bit of allocation word [i] in the lease bitmap. *)
Definition leased_word (r : Run) (i : nat) : bool := slot_bit (leases r) (Z.of_nat i).

Definition available (reserved : nat -> bool) (r : Run) (g : RunGeometry) (i : nat) : bool := negb (reserved i) && word_has_free r g i.

Lemma existsb_elem {T} (p : T -> bool) l : existsb p l = true <-> exists x, x ∈ l /\ p x = true.
Proof. rewrite existsb_exists. by setoid_rewrite <- list_elem_of_In. Qed.

Lemma free_mask_ok {E} g r i : words_ok (allocation_bitmap g) (allocation r) -> Z.of_nat i < word_len (allocation_bitmap g) ->
  exists m, free_mask_for_word (E:=E) r g i = Ok m /\ is_word m /\ (m =? 0) = negb (word_has_free r g i) /\
    forall b, 0 <= b < 64 -> Z.testbit m b = (Z.of_nat i * 64 + b <? slot_count g) && negb (slot_bit (allocation r) (Z.of_nat i * 64 + b)).
Proof.
  intros HA Hi. unfold free_mask_for_word. destruct (read_word_ok (E:=E) _ _ i HA Hi) as (w & Hw & Hword & ->). cbn [mbind outcome_bind].
  eexists. split; [done|]. set (m := Z.land _ _).
  assert (Hm : is_word m) by (apply land_word; [by apply not64_word|apply valid_slot_mask_word]).
  assert (Hbits : forall b, 0 <= b < 64 -> Z.testbit m b = (Z.of_nat i * 64 + b <? slot_count g) && negb (slot_bit (allocation r) (Z.of_nat i * 64 + b))).
  { intros b Hb. unfold m. rewrite Z.land_spec, not64_spec, valid_slot_mask_spec, andb_comm by done. f_equal. unfold slot_bit.
    destruct (index_join i b Hb) as [-> ->]. by rewrite Nat2Z.id, Hw. }
  split_and!; [done| |done]. apply eq_true_iff_eq. rewrite Z.eqb_eq, (word_zero m Hm), negb_true_iff, <- not_true_iff_false. unfold word_has_free. rewrite existsb_elem. split.
  - intros H (b & Hb%elem_of_bits64 & Hp). rewrite <- Hbits, H in Hp by done. done.
  - intros H b Hb. rewrite Hbits by done. apply not_true_iff_false. intros Hp. apply H. exists b. by rewrite elem_of_bits64.
Qed.

Section leases.
Context {E : Type} (A : Arena) (WA : arena_wf A) (t : RunClaimTarget) (cls : AllocationClassId) (HT : target_ok A t cls) (reserved : nat -> bool).
Notation g := (target_geometry t).
Notation words := (word_len (allocation_bitmap g)).

(** The lease bits of word [j]. *)
Definition lease_index (j : nat) (b : Z) : nat := (j * 64 + Z.to_nat b)%nat.

Lemma lease_bits_ok r j flag : words_ok (allocation_bitmap g) (allocation r) -> bit_len (lease_bitmap g) = words ->
  exists ub, foldM (lease_bit (E:=E) reserved r g j) (0, flag) bits64 = Ok ub /\ is_word ub.1 /\
    (forall b, 0 <= b < 64 -> Z.of_nat (lease_index j b) < words -> Z.testbit ub.1 b = negb (available reserved r g (lease_index j b))) /\
    (ub.2 = true <-> flag = true \/ exists b, 0 <= b < 64 /\ Z.of_nat (lease_index j b) < words /\ available reserved r g (lease_index j b) = true).
Proof.
  intros HA Hlen.
  destruct (foldM_inv (lease_bit (E:=E) reserved r g j) (fun d st => is_word st.1 /\
      (forall b, 0 <= b < 64 -> Z.testbit st.1 b = bool_decide (b ∈ d) && (Z.of_nat (lease_index j b) <? words) && negb (available reserved r g (lease_index j b))) /\
      (st.2 = true <-> flag = true \/ exists b, b ∈ d /\ Z.of_nat (lease_index j b) < words /\ available reserved r g (lease_index j b) = true))
    bits64 (0, flag)) as (ub & Hf & Hw & Hb & Hflag).
  - split; [done|]. split; [intros b Hb; cbn [fst]; rewrite Z.bits_0, bool_decide_false by apply not_elem_of_nil; done|]. cbn. split; [by left|].
    intros [?|(b & Hb & _)]; [done|by apply elem_of_nil in Hb].
  - intros d b rest [m f] Heq (Hw & Hbits & Hfl). cbn [fst snd] in *. assert (Hb : 0 <= b < 64) by (apply elem_of_bits64; rewrite Heq; set_solver).
    assert (Hi : Z.of_nat j * 64 + b = Z.of_nat (lease_index j b)) by (unfold lease_index; lia).
    pose proof (land_bit (valid_slot_mask (bit_len (lease_bitmap g)) j) b ltac:(lia)) as Hv. rewrite valid_slot_mask_spec, Hlen, Hi in Hv by done.
    unfold lease_bit. cbn [fst snd]. rewrite Hlen. fold (lease_index j b).
    assert (Hstep : forall m' f', is_word m' ->
        (forall b', 0 <= b' < 64 -> Z.testbit m' b' = ((b' =? b) && (Z.of_nat (lease_index j b) <? words) && negb (available reserved r g (lease_index j b))) || Z.testbit m b') ->
        (f' = true <-> f = true \/ (Z.of_nat (lease_index j b) < words /\ available reserved r g (lease_index j b) = true)) ->
        is_word m' /\
        (forall b', 0 <= b' < 64 -> Z.testbit m' b' = bool_decide (b' ∈ d ++ [b]) && (Z.of_nat (lease_index j b') <? words) && negb (available reserved r g (lease_index j b'))) /\
        (f' = true <-> flag = true \/ exists b', b' ∈ d ++ [b] /\ Z.of_nat (lease_index j b') < words /\ available reserved r g (lease_index j b') = true)).
    { intros m' f' Hm' Hb' Hf'. split; [exact Hm'|]. split.
      - intros b' Hr. rewrite Hb', Hbits by done. rewrite (bool_decide_ext (b' ∈ d ++ [b]) (b' = b \/ b' ∈ d)) by set_solver.
        rewrite bool_decide_or. destruct (Z.eqb_spec b' b) as [->|Hne]; [rewrite (bool_decide_true (b = b)) by done|rewrite (bool_decide_false (b' = b)) by done].
        + by destruct (bool_decide (b ∈ d)), (Z.of_nat (lease_index j b) <? words), (available reserved r g (lease_index j b)).
        + done.
      - rewrite Hf', Hfl. setoid_rewrite elem_of_app. setoid_rewrite list_elem_of_singleton. naive_solver. }
    destruct (Z.land (valid_slot_mask words j) (bit b) =? 0) eqn:Ez.
    + cbn in Hv. eexists. split; [done|]. cbn [fst snd]. apply Hstep; [done| |].
      * intros b' _. by rewrite <- Hv, andb_false_r.
      * symmetry in Hv. apply Z.ltb_ge in Hv. naive_solver lia.
    + cbn in Hv. symmetry in Hv. pose proof Hv as Hlt. apply Z.ltb_lt in Hlt. destruct (free_mask_ok (E:=E) g r (lease_index j b) HA Hlt) as (fm & Hfm & _ & Hz & _).
      assert (Hun : (if reserved (lease_index j b) then Ok true else free ← free_mask_for_word r g (lease_index j b); Ok (free =? 0)) =
                    Ok (E:=E) (negb (available reserved r g (lease_index j b)))).
      { unfold available. destruct (reserved _); [done|]. rewrite Hfm. cbn. by rewrite Hz. }
      rewrite Hun. cbn [mbind outcome_bind]. eexists. split; [done|].
      destruct (available reserved r g (lease_index j b)) eqn:Eav; cbn [negb fst snd].
      * apply Hstep; [done| |naive_solver]. intros b' _. cbn. by rewrite andb_false_r.
      * apply Hstep; [apply lor_word; [done|by apply bit_word]| |naive_solver]. intros b' Hb'. rewrite Z.lor_spec, bit_spec, Hv by lia. cbn.
        by rewrite !andb_true_r, orb_comm.
  - exists ub. split; [done|]. split; [done|]. split.
    + intros b Hr Hlt. rewrite Hb by done. rewrite bool_decide_true by (by apply elem_of_bits64). by rewrite (proj2 (Z.ltb_lt _ _) Hlt).
    + rewrite Hflag. setoid_rewrite elem_of_bits64. done.
Qed.

Lemma index_of_lease i : lease_index (i / 64) (Z.of_nat i mod 64) = i.
Proof. unfold lease_index. pose proof (Nat.div_mod i 64 ltac:(lia)). rewrite (Z2Nat.inj_mod (Z.of_nat i) 64), Nat2Z.id by lia. change (Z.to_nat 64) with 64%nat. lia. Qed.

Lemma word_index_nat i : Z.to_nat (Z.of_nat i / 64) = (i / 64)%nat.
Proof. change 64 with (Z.of_nat 64) at 1. by rewrite <- Nat2Z.inj_div, Nat2Z.id. Qed.

Lemma publish_leases_ok r : run_of A (target_location t) = Some r ->
  exists A' r' flag, publish_allocation_word_leases (E:=E) A t cls reserved = Ok (A', flag) /\ replaced A A' (target_location t) r' /\
    header r' = header r /\ marks r' = marks r /\ allocation r' = allocation r /\
    (forall i, Z.of_nat i < words -> leased_word r' i = negb (available reserved r g i)) /\
    (flag = true <-> exists i, Z.of_nat i < words /\ available reserved r g i = true).
Proof.
  intros Hr. destruct (claim_target_ok (E:=E) A WA t cls HT) as (r1 & Hty & Hres). assert (r1 = r) as -> by (destruct Hty; congruence).
  unfold publish_allocation_word_leases. rewrite Hres. cbn [mbind outcome_bind].
  destruct (typed_wf A WA _ _ _ _ Hty) as (HG & HA & HL & HM). pose proof (geometry_facts _ HG) as (_ & Hpos & _ & _ & _ & Hwl & Hll & Hlw & _ & _).
  assert (Hlen : bit_len (lease_bitmap g) = words) by lia.
  destruct (foldM_inv (lease_word (E:=E) reserved g) (fun d st => header st.1 = header r /\ marks st.1 = marks r /\ allocation st.1 = allocation r /\
      words_ok (lease_bitmap g) (leases st.1) /\
      (forall j, j ∈ d -> forall b, 0 <= b < 64 -> Z.of_nat (lease_index j b) < words ->
         (match leases st.1 !! j with Some w => Z.testbit w b | None => false end) = negb (available reserved r g (lease_index j b))) /\
      (st.2 = true <-> exists j b, j ∈ d /\ 0 <= b < 64 /\ Z.of_nat (lease_index j b) < words /\ available reserved r g (lease_index j b) = true))
    (word_indices (lease_bitmap g)) (r, false)) as ([r' flag] & Hf & Hh & Hm & Ha & HL' & Hbits & Hfl).
  - do 3 (split; [done|]). split; [exact HL|]. split; [intros j Hj; by apply elem_of_nil in Hj|]. cbn. split; [done|].
    intros (j & b & Hj & _). by apply elem_of_nil in Hj.
  - intros d j rest [x f] Heq (Hh & Hm & Ha & HLx & Hin & Hfl). cbn [fst snd] in *.
    assert (Hj : Z.of_nat j < word_len (lease_bitmap g)) by (apply elem_of_word_indices; rewrite Heq; set_solver).
    assert (Hid : j ∉ d). { pose proof (NoDup_seq 0 (Z.to_nat (word_len (lease_bitmap g)))) as HN. unfold word_indices in Heq. rewrite Heq in HN.
      apply NoDup_app in HN as (_ & HN & _). intros Hc. apply (HN j Hc). left. }
    assert (Hav : forall i, available reserved x g i = available reserved r g i) by (intros i; unfold available, word_has_free; by rewrite Ha).
    destruct (lease_bits_ok x j f) as ([u f2] & Hfold & Hword & Hu & Hf2); [by rewrite Ha|done|]. cbn [fst snd] in *.
    unfold lease_word. cbn [fst snd]. rewrite Hfold. cbn [mbind outcome_bind fst snd].
    destruct (write_word_ok (E:=E) _ _ j u HLx Hj Hword) as [-> HL2]. cbn [mbind outcome_bind]. eexists. split; [done|]. cbn [fst snd header marks allocation leases].
    do 3 (split; [done|]). split; [exact HL2|]. split.
    + intros k [Hk| ->%list_elem_of_singleton]%elem_of_app b Hb Hlt.
      * rewrite list_lookup_insert_ne by (intros ->; done). by apply Hin.
      * rewrite list_lookup_insert_eq by (destruct HLx; lia). rewrite Hu, Hav by done. done.
    + rewrite Hf2, Hfl. setoid_rewrite Hav. setoid_rewrite elem_of_app. setoid_rewrite list_elem_of_singleton. split.
      * intros [(k & b & Hk & H)|(b & H)]; [exists k, b|exists j, b]; tauto.
      * intros (k & b & [Hk| ->] & H); [left; exists k, b; done|right; exists b; done].
  - rewrite Hf. cbn [mbind outcome_bind fst snd] in *. exists (put_run A (target_location t) r'), r', flag. split; [done|]. split; [|split_and!; [done..| |]].
    + eapply put_replaced; [done|exact Hr|]. destruct (aw_run _ WA _ _ Hr) as [Hv _]. split; [by rewrite Hh|]. rewrite Hh.
      destruct Hty as (_ & _ & Hg). rewrite Hg. split; [done|]. unfold bitmaps_ok. by rewrite Ha, Hm.
    + intros i Hi. assert (Hir : 0 <= Z.of_nat i < word_len (allocation_bitmap g)) by lia. rewrite Hwl in Hir. destruct (bitmap_index _ _ Hir) as [Hj Hb].
      rewrite word_index_nat in Hj. specialize (Hbits (i / 64)%nat ltac:(apply elem_of_word_indices; lia) (Z.of_nat i mod 64) Hb). rewrite index_of_lease in Hbits. specialize (Hbits Hi). rewrite <- Hbits. unfold leased_word, slot_bit.
      by rewrite word_index_nat.
    + rewrite Hfl. split.
      * intros (j & b & _ & _ & Hlt & Hv). by exists (lease_index j b).
      * intros (i & Hi & Hv). assert (Hir : 0 <= Z.of_nat i < word_len (allocation_bitmap g)) by lia. rewrite Hwl in Hir. destruct (bitmap_index _ _ Hir) as [Hj Hb].
        rewrite word_index_nat in Hj. exists (i / 64)%nat, (Z.of_nat i mod 64). rewrite index_of_lease. split; [|done]. apply elem_of_word_indices. lia.
Qed.
End leases.
