(* ===== verification/SweepSteps.v ===== *)
(** * The memory phases of a sweep

    Recycling, sweeping and publishing each change the memory of one set of runs;
    [runs_changed] states what becomes of them and that nothing else changes. *)
From stdpp Require Import base option list numbers gmap sets.
From Stdlib Require Import ZArith Lia.
From S2P Require Import Prelude RootPool RunGeometry Bitmaps Arena ArenaFacts Heap HeapFacts Sweep SweepFacts SweepPlan SweepTopology SweepArena.

(** [Q] relates the old and the new memory of every run of [L]; the other runs
    are the same. *)
Record runs_changed (A A' : Arena) (L : gset RunLocation) (Q : RunLocation -> Run -> Run -> Prop) : Prop := {
  rc_wf : arena_wf A';
  rc_other : forall l, l ∉ L -> run_of A' l = run_of A l;
  rc_run : forall l, l ∈ L -> exists x x', run_of A l = Some x /\ run_of A' l = Some x' /\ Q l x x';
  rc_address : forall l, address_of A' l = address_of A l;
}.

Lemma runs_changed_none A Q : arena_wf A -> runs_changed A A ∅ Q.
Proof. intros WA. split; [done|done|intros l Hl; set_solver|done]. Qed.

Lemma runs_changed_step A A1 A2 L Q l x x' : runs_changed A A1 L Q -> l ∉ L -> run_of A l = Some x -> replaced A1 A2 l x' -> Q l x x' ->
  runs_changed A A2 ({[l]} ∪ L) Q.
Proof.
  intros [W H1 H2 H3] Hl Hx (W2 & Hr & Ha) HQ. split; [done| | |intros l'; by rewrite Ha].
  - intros l' Hl'. rewrite Hr, decide_False by set_solver. apply H1. set_solver.
  - intros l' Hl'. rewrite Hr. case_decide as Hd; [subst; by exists x, x'|]. apply H2. set_solver.
Qed.

Lemma changed_target A A' L Q t cls : runs_changed A A' L Q -> (target_location t ∈ L -> forall x x', Q (target_location t) x x' -> header x' = header x) ->
  target_ok A t cls -> target_ok A' t cls.
Proof.
  intros [_ H1 H2 H3] HQ [(r & Hr & Hc & Hg) Ha]. split; [|by rewrite H3]. destruct (decide (target_location t ∈ L)) as [Hin|Hout].
  - destruct (H2 _ Hin) as (x & x' & Hx & Hx' & Hq). apply HQ in Hq; [|done]. exists x'. assert (x = r) as -> by congruence. by rewrite <- Hq in Hc, Hg.
  - exists r. split; [by rewrite H1|done].
Qed.

Lemma class_run_count_flat cs : class_run_count cs = length (cs ≫= class_runs).
Proof. unfold class_run_count. induction cs as [|C l IH]; [done|]. cbn. rewrite length_app. by f_equal. Qed.

Section steps.
Context (D : ManagedData) (HW : heap_wf D) (plan : DeadSetPlan) (HP : plan_ok D plan (classes D ≫= class_runs)).
Context (HM : forall o, o ∈ pending_list (finalization_batch D) -> slot_marked (arena D) o = true).
Notation A := (arena D).
Notation drops := (drops plan).
Notation retired_runs := (retired_runs plan).

Lemma plan_target r : r ∈ dead_runs plan -> exists i C, classes D !! i = Some C /\ dr_target r ∈ class_runs C /\ dr_class r = cid i /\
  dr_metadata r = metadata C /\ target_ok A (dr_target r) (dr_class r).
Proof.
  intros Hr. destruct (dead_run_facts D HW plan HP r Hr) as (i & C & ws & HPr & Hin & _). exists i, C. pose proof (dro_class _ _ _ _ _ _ HPr) as HC.
  split_and!; [done|done|apply HPr|apply HPr|]. rewrite (dro_id _ _ _ _ _ _ HPr). by apply (class_targets_ok D HW i C).
Qed.

(** A loop over distinct runs of the plan, each changing the run it is at. *)
Lemma foldM_runs {E} (f : ManagedData -> DeadRunPlan -> outcome E ManagedData) (l : list DeadRunPlan) (Q : RunLocation -> Run -> Run -> Prop)
    (after : list DeadRunPlan -> Arena -> ManagedData) A0 :
  arena_wf A0 -> (forall r, r ∈ l -> r ∈ dead_runs plan) -> NoDup l ->
  (forall d r rest A1 x, l = d ++ r :: rest -> runs_changed A0 A1 (locations d) Q -> run_of A0 (location r) = Some x -> run_of A1 (location r) = Some x ->
     exists A2 x', f (after d A1) r = Ok (after (d ++ [r]) A2) /\ replaced A1 A2 (location r) x' /\ Q (location r) x x') ->
  (forall r, r ∈ l -> exists x, run_of A0 (location r) = Some x) ->
  exists A', foldM f (after [] A0) l = Ok (after l A') /\ runs_changed A0 A' (locations l) Q.
Proof.
  intros W0 Hsub HN Hstep Hex.
  destruct (foldM_inv f (fun d s => exists A1, s = after d A1 /\ runs_changed A0 A1 (locations d) Q) l (after [] A0)) as (s & Hf & A' & -> & HR).
  - exists A0. split; [done|]. by apply runs_changed_none.
  - intros d r rest s Heq (A1 & -> & HR). assert (Hr : r ∈ l) by (rewrite Heq; set_solver). destruct (Hex r Hr) as (x & Hx).
    assert (Hl : location r ∉ locations d).
    { rewrite elem_of_locations. intros (y & Hy & Hyl). by apply (location_fresh D HW plan HP HM l d r rest Hsub HN Heq y); [left|]. }
    destruct (Hstep d r rest A1 x Heq HR Hx) as (A2 & x' & Hf & Hrep & HQ); [by rewrite (rc_other _ _ _ _ HR)|].
    exists (after (d ++ [r]) A2). split; [done|]. exists A2. split; [done|]. rewrite locations_snoc. by eapply runs_changed_step.
  - exists A'. done.
Qed.

(** ** Recycling *)
Definition recycled (l : RunLocation) (x x' : Run) : Prop := header_is_empty (header x') = true.

Lemma retired_of_plan x : x ∈ retired_runs -> x ∈ dead_runs plan.
Proof. by intros [_ ?]%list_elem_of_filter. Qed.

Lemma retired_nodup : NoDup retired_runs.
Proof. apply NoDup_filter. eapply (NoDup_fmap_1 location), (dead_nodup D HW plan HP). Qed.

Lemma run_count_flat : class_run_count (classes D) = length (classes D ≫= class_runs).
Proof. apply class_run_count_flat. Qed.

Lemma retired_count : (length retired_runs <= assigned_runs (allocation_pressure D))%nat.
Proof.
  rewrite (hw_assigned _ HW), run_count_flat. etrans; [|apply Nat.le_add_r]. rewrite <- (length_fmap location), <- (length_fmap target_location).
  apply submseteq_length, NoDup_submseteq.
  - eapply sublist_NoDup; [apply (dead_nodup D HW plan HP)|]. apply fmap_sublist, sublist_filter.
  - intros l (r & -> & Hr%retired_of_plan)%list_elem_of_fmap. destruct (plan_target r Hr) as (i & C & HC & Hin & _).
    apply (list_elem_of_fmap_2 target_location). apply elem_of_flat. by exists i, C.
Qed.

Lemma plan_run_of r : r ∈ dead_runs plan -> exists x, run_of A (location r) = Some x.
Proof. intros Hr. destruct (plan_target r Hr) as (i & C & _ & _ & _ & _ & [(x & Hx & _) _]). by exists x. Qed.

Lemma empty_run_is_empty g : header_is_empty (header (zero_side_metadata RunGeometry.empty g)) = true.
Proof. done. Qed.

(** The heap after [d] was recycled. *)
Definition after_recycle (d : list DeadRunPlan) (A' : Arena) : ManagedData :=
  with_free_runs (with_pressure (with_arena (topology D (gone plan) [] (installs D plan drops)) A')
    (MkPressure (assigned_runs (allocation_pressure D) - length d) (high_water_mark (allocation_pressure D)))) (free_runs D ++ (location <$> d)).

Lemma recycle_ok {E} : exists A', recycle_retired_no_drop_runs (E:=E)
    (topology D (gone plan) ((fun r => (dr_target r, dr_class r)) <$> retired_runs) (installs D plan drops)) = Ok (after_recycle retired_runs A') /\
  runs_changed A A' (locations retired_runs) recycled.
Proof.
  unfold recycle_retired_no_drop_runs. change (retired_no_drop_runs (topology _ _ _ _)) with ((fun r => (dr_target r, dr_class r)) <$> retired_runs).
  rewrite foldM_fmap.
  assert (Hstart : with_retired (topology D (gone plan) ((fun r => (dr_target r, dr_class r)) <$> retired_runs) (installs D plan drops)) [] = after_recycle [] A).
  { unfold after_recycle, topology. cbn. rewrite Nat.sub_0_r, app_nil_r.
    assert (Hp : MkPressure (assigned_runs (allocation_pressure D)) (high_water_mark (allocation_pressure D)) = allocation_pressure D) by (by destruct (allocation_pressure D)).
    by rewrite Hp. }
  rewrite Hstart. apply (foldM_runs (fun s r => recycle_run s (dr_target r, dr_class r)) retired_runs recycled after_recycle A (hw_arena _ HW) retired_of_plan retired_nodup).
  - intros d r rest A1 x Heq HR Hx Hx1. assert (Hr : r ∈ retired_runs) by (rewrite Heq; set_solver).
    destruct (plan_target r (retired_of_plan r Hr)) as (i & C & _ & _ & _ & _ & HT).
    assert (Hl : location r ∉ locations d).
    { rewrite elem_of_locations. intros (y & Hy & Hyl). by apply (location_fresh D HW plan HP HM retired_runs d r rest retired_of_plan retired_nodup Heq y); [left|]. }
    assert (HT1 : target_ok A1 (dr_target r) (dr_class r)) by (eapply changed_target; [done|intros Hin; by apply Hl in Hin|done]).
    destruct (reset_ok (E:=E) A1 (rc_wf _ _ _ _ HR) (dr_target r) (dr_class r) HT1) as (A2 & Hres & Hrep).
    exists A2. eexists. split; [|by split]. unfold recycle_run. cbn [after_recycle arena with_free_runs with_pressure with_arena fst snd]. rewrite Hres.
    cbn [mbind outcome_bind allocation_pressure assigned_runs after_recycle with_free_runs with_pressure].
    pose proof retired_count as Hcount. rewrite Heq, length_app in Hcount. cbn in Hcount.
    destruct (assigned_runs (allocation_pressure D) - length d) as [|n] eqn:En; [lia|]. unfold after_recycle. rewrite length_app, fmap_app, app_assoc. cbn.
    replace (assigned_runs (allocation_pressure D) - (length d + 1)) with n by lia. done.
  - intros r Hr. by apply plan_run_of, retired_of_plan.
Qed.

(** ** Sweeping *)
Definition swept_runs : list DeadRunPlan := filter (fun r => is_swept r = true) (dead_runs plan).

Definition swept (l : RunLocation) (x x' : Run) : Prop :=
  header x' = header x /\ marks x' = marks x /\
  forall g, header_geometry (header x) = Some g -> forall s, (0 <= s < slot_count g)%Z ->
    slot_bit (allocation x') s = slot_bit (allocation x) s && slot_bit (marks x) s.

Lemma swept_not_retired r r' : r ∈ swept_runs -> r' ∈ retired_runs -> location r <> location r'.
Proof.
  intros [Hs Hr]%list_elem_of_filter [Hs' Hr']%list_elem_of_filter Hl. assert (r = r') as -> by (by apply (dead_location_inj D HW plan HP)).
  unfold is_swept in Hs. unfold is_retired in Hs'. apply bool_decide_eq_true in Hs, Hs'. tauto.
Qed.

Lemma sweep_ok {E} (B : ManagedData) A0 : runs_changed A A0 (locations retired_runs) recycled ->
  exists A', sweep_partial_no_drop_runs (E:=E) (with_arena B A0) plan = Ok (with_arena B A') /\ runs_changed A0 A' (locations swept_runs) swept.
Proof.
  intros HR0. unfold sweep_partial_no_drop_runs. fold swept_runs.
  assert (Hsub : forall r, r ∈ swept_runs -> r ∈ dead_runs plan) by (by intros r [_ ?]%list_elem_of_filter).
  assert (HN : NoDup swept_runs) by (apply NoDup_filter; eapply (NoDup_fmap_1 location), (dead_nodup D HW plan HP)).
  assert (Hnot : forall r, r ∈ swept_runs -> location r ∉ locations retired_runs).
  { intros r Hr (r' & Hr' & Hl)%elem_of_locations. by apply (swept_not_retired r r'). }
  apply (foldM_runs (sweep_run (E:=E)) swept_runs swept (fun _ A1 => with_arena B A1) A0 (rc_wf _ _ _ _ HR0) Hsub HN).
  - intros d r rest A1 x Heq HR Hx Hx1. assert (Hr : r ∈ swept_runs) by (rewrite Heq; set_solver).
    destruct (plan_target r (Hsub r Hr)) as (i & C & _ & _ & _ & _ & HT).
    assert (HT0 : target_ok A0 (dr_target r) (dr_class r)) by (eapply changed_target; [done|intros Hin; by apply Hnot in Hin|done]).
    assert (HT1 : target_ok A1 (dr_target r) (dr_class r)) by (eapply changed_target; [done|intros _ y y' (Hh & _); exact Hh|done]).
    destruct (retain_ok (E:=E) A1 (rc_wf _ _ _ _ HR) (dr_target r) (dr_class r) HT1 x Hx1) as (A2 & x' & Hret & Hrep & Hh & Hm & Hb).
    exists A2, x'. split; [|split; [done|]].
    + unfold sweep_run. cbn [arena with_arena]. rewrite Hret. done.
    + split_and!; [done|done|]. destruct HT1 as [(y & Hy & _ & Hg) _]. unfold location in Hx1. assert (y = x) as -> by congruence.
      intros g Hg'. assert (g = target_geometry (dr_target r)) as -> by congruence. done.
  - intros r Hr. destruct (plan_run_of r (Hsub r Hr)) as (x & Hx). exists x. by rewrite (rc_other _ _ _ _ HR0) by (by apply Hnot).
Qed.
End steps.

Lemma runs_changed_trans A0 A1 A2 L1 L2 Q : runs_changed A0 A1 L1 Q -> runs_changed A1 A2 L2 Q -> L1 ## L2 -> runs_changed A0 A2 (L2 ∪ L1) Q.
Proof.
  intros [W1 O1 R1 D1] [W2 O2 R2 D2] Hd. split; [done| | |intros l; by rewrite D2].
  - intros l Hl. rewrite O2, O1 by set_solver. done.
  - intros l [Hl|Hl]%elem_of_union.
    + destruct (R2 l Hl) as (x & x' & Hx & Hx' & HQ). exists x, x'. split_and!; [|done|done]. rewrite <- Hx. symmetry. apply O1. set_solver.
    + destruct (R1 l Hl) as (x & x' & Hx & Hx' & HQ). exists x, x'. split_and!; [done| |done]. rewrite O2; [done|]. set_solver.
Qed.

(** ** Publishing *)
Section publish.
Context (b : FinalizationBatch) (all_runs : list RunClaimTarget).

Definition published (l : RunLocation) (x x' : Run) : Prop :=
  header x' = header x /\ marks x' = marks x /\ allocation x' = allocation x /\
  exists t, t ∈ all_runs /\ target_location t = l /\ forall i, (Z.of_nat i < word_len (allocation_bitmap (target_geometry t)))%Z ->
    leased_word x' i = negb (available (reserves_word b t) x (target_geometry t) i).

Definition has_available (A : Arena) (t : RunClaimTarget) : bool :=
  match run_of A (target_location t) with
  | Some r => existsb (available (reserves_word b t) r (target_geometry t)) (word_indices (allocation_bitmap (target_geometry t)))
  | None => false
  end.

(** The first run with an available word. *)
Definition first_available (A : Arena) (ts : list RunClaimTarget) : option nat := fst <$> list_find (fun t => has_available A t = true) ts.

Lemma first_available_snoc A ts t : first_available A (ts ++ [t]) =
  match first_available A ts with Some k => Some k | None => if has_available A t then Some (length ts) else None end.
Proof.
  unfold first_available. destruct (list_find _ ts) as [[k x]|] eqn:E; cbn.
  - by rewrite (list_find_app_l _ _ _ _ _ E).
  - rewrite list_find_app_r by done. cbn. destruct (has_available A t); cbn; rewrite ?Nat.add_0_r; done.
Qed.

Definition run_set (ts : list RunClaimTarget) : gset RunLocation := list_to_set (target_location <$> ts).

Lemma elem_of_run_set ts l : l ∈ run_set ts <-> exists t, t ∈ ts /\ target_location t = l.
Proof. unfold run_set. rewrite elem_of_list_to_set, list_elem_of_fmap. split; intros (t & ? & ?); by exists t. Qed.

Lemma run_set_snoc ts t : run_set (ts ++ [t]) = {[target_location t]} ∪ run_set ts.
Proof. unfold run_set. rewrite fmap_app, list_to_set_app_L. cbn. set_solver. Qed.

Lemma publish_runs_ok {E} A0 cls ts : arena_wf A0 -> NoDup (target_location <$> ts) -> (forall t, t ∈ ts -> target_ok A0 t cls /\ t ∈ all_runs) ->
  exists A', foldM (publish_run_words (E:=E) b cls) (A0, None) (enumerate ts) = Ok (A', first_available A0 ts) /\ runs_changed A0 A' (run_set ts) published.
Proof.
  intros W0 HN HT.
  destruct (foldM_inv (publish_run_words (E:=E) b cls) (fun d st => st.2 = first_available A0 d.*2 /\ runs_changed A0 st.1 (run_set d.*2) published)
    (enumerate ts) (A0, None)) as ([A' first] & Hf & Hfst & HR).
  - split; [done|]. by apply runs_changed_none.
  - intros d [k t] rest [A1 first] Heq [Hfst HR]. cbn [fst snd] in *. destruct (enumerate_lookup _ _ _ _ Heq) as [Hk Ht]. cbn in Hk, Ht.
    assert (Hin : t ∈ ts) by (by eapply list_elem_of_lookup_2). destruct (HT t Hin) as [HT0 Hall].
    assert (Hts : ts = d.*2 ++ t :: rest.*2) by (by rewrite <- (enumerate_snd ts), Heq, fmap_app).
    assert (Hl : target_location t ∉ run_set d.*2).
    { rewrite elem_of_run_set. intros (t' & Ht' & Hl). rewrite Hts, fmap_app in HN. apply NoDup_app in HN as (_ & HN & _).
      apply (HN (target_location t')); [by apply list_elem_of_fmap_2|]. rewrite Hl. left. }
    assert (HT1 : target_ok A1 t cls) by (eapply changed_target; [done|intros Hc; by apply Hl in Hc|done]).
    pose proof HT0 as [(r & Hr & _ & Hg) _]. assert (Hr1 : run_of A1 (target_location t) = Some r) by (by rewrite (rc_other _ _ _ _ HR)).
    destruct (publish_leases_ok (E:=E) A1 (rc_wf _ _ _ _ HR) t cls HT1 (reserves_word b t) r Hr1) as (A2 & r' & flag & Hpub & Hrep & Hh & Hm & Ha & Hlw & Hflag).
    unfold publish_run_words. cbn [fst snd]. rewrite Hpub. cbn [mbind outcome_bind fst snd]. eexists. split; [done|]. cbn [fst snd]. rewrite fmap_app. cbn [fmap list_fmap snd]. split.
    + rewrite first_available_snoc, <- Hfst, length_fmap, <- Hk. assert (Hav : has_available A0 t = flag).
      { unfold has_available. rewrite Hr. apply eq_true_iff_eq. rewrite existsb_elem, Hflag. by setoid_rewrite elem_of_word_indices. }
      rewrite Hav. by destruct first, flag.
    + rewrite run_set_snoc. eapply runs_changed_step; [done|done|done|done|]. split_and!; [done..|]. exists t. split; [|split]; [done..|]. done.
  - rewrite enumerate_snd in *. cbn [fst snd] in *. exists A'. split; [by rewrite Hf, Hfst|done].
Qed.

(** A class with its frontier published. *)
Definition fronted (C : AllocationClassEntry) (k : option nat) : AllocationClassEntry := with_frontier C (k ≫= fun i => class_runs C !! i) k.

Lemma publish_swept_frontier_ok {E} A C : frontier_is_withdrawn C = true ->
  publish_swept_frontier (E:=E) C (first_available A (class_runs C)) = Ok (fronted C (first_available A (class_runs C))).
Proof.
  intros HC. unfold publish_swept_frontier. rewrite HC. cbn [rust_assert mbind outcome_bind].
  destruct (first_available A (class_runs C)) as [k|] eqn:Ek.
  - unfold first_available in Ek. apply fmap_Some in Ek as ([i t] & Hf & ->). apply list_find_Some in Hf as (Hi & _). unfold publish_frontier. cbn.
    unfold vec_get. rewrite Hi. cbn. unfold fronted. cbn. by rewrite Hi.
  - unfold frontier_is_withdrawn in HC. unfold fronted, with_frontier. cbn. destruct C. cbn in *. by destruct frontier_index, frontier.
Qed.
End publish.

Lemma foldM_eq {E T U} (f g : U -> T -> outcome E U) s l : (forall s x, f s x = g s x) -> foldM f s l = foldM g s l.
Proof. intros H. revert s. induction l as [|x l IH]; intros s; [done|]. cbn. rewrite H. destruct (g s x); cbn; auto. Qed.

Section publish_all.
Context (B : ManagedData) (WB : arena_wf (arena B)) (HI : (Z.of_nat (length (classes B)) < usize_max)%Z).
Context (HW : forall i C, classes B !! i = Some C -> frontier_is_withdrawn C = true /\ NoDup (target_location <$> class_runs C) /\
  forall t, t ∈ class_runs C -> target_ok (arena B) t (cid i)).
Notation batch := (finalization_batch B).
Notation all_runs := (classes B ≫= class_runs).

Definition fronted_classes (n : nat) : list AllocationClassEntry :=
  imap (fun j C => if decide (j < n) then fronted C (first_available batch (arena B) (class_runs C)) else C) (classes B).

Definition first_runs (n : nat) : list RunClaimTarget := take n (classes B) ≫= class_runs.

Lemma first_runs_S n C : classes B !! n = Some C -> first_runs (S n) = first_runs n ++ class_runs C.
Proof. intros HC. unfold first_runs. rewrite (take_S_r _ _ C), bind_app by done. cbn. by rewrite app_nil_r. Qed.

Lemma class_runs_disjoint n C : classes B !! n = Some C -> run_set (first_runs n) ## run_set (class_runs C).
Proof.
  intros HC l (t & Ht & Hl)%elem_of_run_set (t' & Ht' & Hl')%elem_of_run_set. unfold first_runs in Ht.
  apply list_elem_of_bind in Ht as (C' & Ht & HC'). apply list_elem_of_lookup in HC' as (j & Hj). apply lookup_take_Some in Hj as [Hj Hlt].
  destruct (HW j C' Hj) as (_ & _ & HT). destruct (HW n C HC) as (_ & _ & HT'). destruct (HT t Ht) as [(r & Hr & Hc & _) _].
  destruct (HT' t' Ht') as [(r' & Hr' & Hc' & _) _]. rewrite Hl in Hr. rewrite Hl' in Hr'.
  assert (j = n) by (apply cid_inj; congruence). lia.
Qed.

Lemma publish_view_ok {E} : exists A', publish_swept_allocator_view (E:=E) B = Ok (with_classes (with_arena B A') (fronted_classes (length (classes B)))) /\
  runs_changed (arena B) A' (run_set all_runs) (published batch all_runs).
Proof.
  unfold publish_swept_allocator_view.
  destruct (foldM_inv (publish_class_view (E:=E)) (fun d s => exists A1, s = with_classes (with_arena B A1) (fronted_classes (length d)) /\
      runs_changed (arena B) A1 (run_set (first_runs (length d))) (published batch all_runs)) (seq 0 (length (classes B))) B) as (s & Hf & A' & -> & HR).
  - exists (arena B). split; [|by apply runs_changed_none]. assert (Hc : fronted_classes 0 = classes B).
    { unfold fronted_classes. apply list_eq. intros j. rewrite list_lookup_imap. destruct (classes B !! j); [|done]. cbn. by rewrite decide_False by lia. }
    cbn [length]. rewrite Hc. by destruct B.
  - intros d i rest s Heq (A1 & -> & HR). assert (Hi : i = length d).
    { assert (Hl : seq 0 (length (classes B)) !! length d = Some i) by (rewrite Heq; by apply list_lookup_middle). apply lookup_seq in Hl as [-> _]. done. }
    assert (Hlt : i < length (classes B)). { assert (Hin : i ∈ seq 0 (length (classes B))) by (rewrite Heq; set_solver). apply elem_of_seq in Hin. lia. }
    destruct (lookup_lt_is_Some_2 (classes B) i Hlt) as [C HC]. destruct (HW i C HC) as (Hwd & HN & HT).
    assert (HCd : fronted_classes (length d) !! i = Some C).
    { unfold fronted_classes. rewrite list_lookup_imap, HC. cbn. by rewrite decide_False by lia. }
    unfold publish_class_view. cbn [classes with_classes with_arena]. unfold vec_get. rewrite HCd. cbn [expect mbind outcome_bind].
    rewrite class_id_ok by lia. cbn [mbind outcome_bind finalization_batch with_classes with_arena arena].
    assert (Hsame : forall t, t ∈ class_runs C -> run_of A1 (target_location t) = run_of (arena B) (target_location t)).
    { intros t Ht. apply (rc_other _ _ _ _ HR). rewrite <- Hi. intros Hin. apply (class_runs_disjoint i C HC (target_location t) Hin), elem_of_run_set. by exists t. }
    destruct (publish_runs_ok (E:=E) batch all_runs A1 (cid i) (class_runs C) (rc_wf _ _ _ _ HR) HN) as (A2 & Hpub & HR2).
    { intros t Ht. split; [|apply list_elem_of_bind; exists C; split; [done|by eapply list_elem_of_lookup_2]].
      destruct (HT t Ht) as [(r & Hr & Hty) Ha]. split; [exists r; split; [by rewrite Hsame|done]|by rewrite (rc_address _ _ _ _ HR)]. }
    assert (Hfst : first_available batch A1 (class_runs C) = first_available batch (arena B) (class_runs C)).
    { unfold first_available. f_equal. clear -Hsame. induction (class_runs C) as [|t l IH]; [done|]. cbn.
      assert (Ht : has_available batch A1 t = has_available batch (arena B) t) by (unfold has_available; by rewrite Hsame by left).
      rewrite Ht, IH by (intros; apply Hsame; by right). done. }
    rewrite Hpub, Hfst. cbn [mbind outcome_bind fst snd]. rewrite publish_swept_frontier_ok by done. cbn [mbind outcome_bind]. eexists. split; [done|].
    exists A2. rewrite length_app. cbn [length]. rewrite Nat.add_1_r, <- Hi, (first_runs_S i C HC). split.
    + unfold with_classes, with_arena. cbn. f_equal. unfold fronted_classes. apply list_eq. intros j. rewrite list_lookup_imap.
      destruct (decide (j = i)) as [->|Hj].
      * rewrite list_lookup_insert_eq by (rewrite length_imap; done). rewrite HC. cbn. by rewrite decide_True by lia.
      * rewrite list_lookup_insert_ne, list_lookup_imap by done. destruct (classes B !! j); [|done]. cbn.
        destruct (decide (j < i)); [by rewrite decide_True by lia|by rewrite decide_False by lia].
    + assert (Hset : run_set (first_runs i ++ class_runs C) = run_set (class_runs C) ∪ run_set (first_runs i)).
      { unfold run_set. rewrite fmap_app, list_to_set_app_L. set_solver. }
      rewrite Hset. rewrite <- Hi in HR. eapply runs_changed_trans; [done|done|by apply class_runs_disjoint].
  - rewrite length_seq in *. exists A'. split; [done|]. unfold first_runs in HR. by rewrite take_ge in HR.
Qed.
End publish_all.
