(* ===== verification/SweepSafe.v ===== *)
(** * A sweep is safe and exact

    After a sweep the heap invariant holds, the objects are exactly the marked
    ones, the dead ones with destructors are pending and nothing else became
    pending, and a word is open for allocation exactly when it has a free slot and
    none that is pending. *)
From stdpp Require Import base option list numbers gmap sets.
From Stdlib Require Import ZArith Lia.
From S2P Require Import Prelude RootPool RunGeometry Bitmaps Arena ArenaFacts Heap HeapFacts Marking MarkingFacts.
From S2P Require Import Sweep SweepFacts SweepPlan SweepTopology SweepArena SweepSteps.

(** ** Sums over the batch *)
Definition msum {K} `{Countable K} {T} (f : T -> nat) (m : gmap K T) : nat := sum_list_with (fun kx => f kx.2) (map_to_list m).

Section msum.
Context {K : Type} `{Countable K} {T : Type} (f : T -> nat).
Implicit Types m : gmap K T.

Lemma sum_perm {B} (g : B -> nat) l k : l ≡ₚ k -> sum_list_with g l = sum_list_with g k.
Proof. induction 1; cbn; lia. Qed.

Lemma msum_new m k x : m !! k = None -> msum f (<[k := x]> m) = f x + msum f m.
Proof. intros Hk. unfold msum. by rewrite (sum_perm _ _ _ (map_to_list_insert m k x Hk)). Qed.

Lemma msum_old m k x y : m !! k = Some y -> msum f (<[k := x]> m) + f y = f x + msum f m.
Proof.
  intros Hk. rewrite <- (insert_delete_id m k y Hk) at 2. rewrite <- insert_delete_eq. rewrite !msum_new by apply lookup_delete_eq. lia.
Qed.
End msum.

Lemma length_bind {A B} (f : A -> list B) l : length (l ≫= f) = sum_list_with (fun x => length (f x)) l.
Proof. induction l as [|x l IH]; [done|]. cbn. rewrite length_app. f_equal. exact IH. Qed.

Lemma pending_list_count b : length (pending_list b) = msum (fun F => length (pending_slots F)) (batch_runs b).
Proof.
  unfold pending_list, msum. rewrite length_bind. induction (map_to_list (batch_runs b)) as [|[l F] m IH]; [done|].
  cbn [sum_list_with snd]. by rewrite length_fmap, IH.
Qed.

Lemma detached_count b : detached_run_count b = msum (fun F => if is_detached F then 1 else 0) (batch_runs b).
Proof.
  unfold detached_run_count, msum. induction (map_to_list (batch_runs b)) as [|[l F] m IH]; [done|]. rewrite filter_cons. cbn [sum_list_with snd].
  destruct (is_detached F); [rewrite decide_True by done; cbn; by rewrite IH|rewrite decide_False by done; by rewrite IH].
Qed.

(** ** The slots of planned words *)
Section planned_words.
Context (A : Arena) (t : RunClaimTarget) (ws : list DeadWord) (HD : dead_words_ok A t ws).

Lemma pending_map_lookup i w : pending_map ws !! i = Some w <-> exists dw, dw ∈ ws /\ word_index dw = i /\ dead_mask dw = w.
Proof.
  unfold pending_map. rewrite <- elem_of_list_to_map by (rewrite pending_map_fst; apply HD). rewrite list_elem_of_fmap.
  split; [intros (dw & [= -> ->] & Hin); by exists dw|intros (dw & Hin & <- & <-); by exists dw].
Qed.

Lemma pending_map_words : words_of (pending_map ws).
Proof. intros i w (dw & Hin & _ & <-)%pending_map_lookup. destruct (dw_word _ _ _ HD dw Hin) as (? & ? & _). done. Qed.

Lemma pending_map_bit s : (0 <= s)%Z -> pending_bit (pending_map ws) s = true <-> (s < slot_count (target_geometry t))%Z /\ dead_at A (target_location t) s = true.
Proof.
  intros Hs. rewrite <- (dw_bits _ _ _ HD s Hs). unfold pending_bit. split.
  - destruct (pending_map ws !! Z.to_nat (s / 64)) as [w|] eqn:E; [|done]. apply pending_map_lookup in E as (dw & Hin & Hi & <-). by exists dw.
  - intros (dw & Hin & Hi & Hb). by rewrite (proj2 (pending_map_lookup _ (dead_mask dw))) by (by exists dw).
Qed.

Lemma slots_count F : pending_words F = pending_map ws -> length (pending_slots F) = sum_list_with (fun w => count_ones (dead_mask w)) ws.
Proof.
  intros HF. unfold pending_slots. rewrite HF, length_bind. unfold pending_map.
  rewrite (sum_perm _ _ _ (map_to_list_to_map _ ltac:(rewrite pending_map_fst; apply HD))).
  assert (Hsub : forall w, w ∈ ws -> is_word (dead_mask w)) by (intros w Hw; by apply (dw_word _ _ _ HD)).
  clear -Hsub. induction ws as [|w l IH]; [done|]. cbn [fmap list_fmap sum_list_with fst snd]. rewrite IH by (intros; apply Hsub; by right).
  f_equal. unfold word_slots. rewrite length_fmap. apply drain_bits_count, Hsub. left.
Qed.
End planned_words.

Lemma land_zero_bits a b n : Z.land a b = 0%Z -> Z.testbit a n = true -> Z.testbit b n = false.
Proof. intros H Ha. apply (f_equal (fun z => Z.testbit z n)) in H. rewrite Z.land_spec, Ha, Z.bits_0 in H. done. Qed.

Lemma lor_nonzero a b : is_word a -> is_word b -> a <> 0%Z -> Z.lor a b <> 0%Z.
Proof. intros Ha Hb Hne [H _]%Z.lor_eq_0_iff. done. Qed.

Lemma merged_words m a : words_of m -> words_of a -> words_of (merged m a).
Proof.
  intros Hm Ha i w. unfold merged. rewrite lookup_union_with. destruct (m !! i) as [x|] eqn:Ex, (a !! i) as [y|] eqn:Ey; cbn; intros [= <-].
  - destruct (Hm i x Ex), (Ha i y Ey). split; [by apply lor_word|by apply lor_nonzero].
  - by apply (Hm i).
  - by apply (Ha i).
Qed.

Lemma merged_bit m a s : pending_bit (merged m a) s = pending_bit m s || pending_bit a s.
Proof.
  unfold pending_bit, merged. rewrite lookup_union_with. destruct (m !! _), (a !! _); cbn; [by rewrite Z.lor_spec|by rewrite orb_false_r|done|done].
Qed.

Lemma merged_slots F G H : pending_words H = merged (pending_words F) (pending_words G) -> words_of (pending_words F) -> words_of (pending_words G) ->
  (forall s, s ∈ pending_slots F -> s ∉ pending_slots G) -> pending_slots H ≡ₚ pending_slots F ++ pending_slots G.
Proof.
  intros HH HF HG Hd. assert (HWH : words_of (pending_words H)) by (rewrite HH; by apply merged_words). apply NoDup_Permutation.
  - by apply pending_slots_nodup.
  - apply NoDup_app. split_and!; [by apply pending_slots_nodup|done|by apply pending_slots_nodup].
  - intros s. rewrite elem_of_app, !elem_of_pending_slots by done. rewrite HH, merged_bit, orb_true_iff. tauto.
Qed.

Section safe.
Context (D : ManagedData) (HW : heap_wf D) (plan : DeadSetPlan) (HP : plan_ok D plan (classes D ≫= class_runs)).
Context (HM : forall o, o ∈ pending_list (finalization_batch D) -> slot_marked (arena D) o = true).
Notation A := (arena D).
Notation drops := (drops plan).
Notation retired_runs := (retired_runs plan).
Notation batch := (finalization_batch D).
Notation batch' := (installs D plan drops).

(** ** The batch after the installation *)
Definition old_slots (l : RunLocation) : list Z := match batch_runs batch !! l with Some F => pending_slots F | None => [] end.

Record installed_ok (r : DeadRunPlan) (i : nat) (C : AllocationClassEntry) (F : FinalizationRun) : Prop := {
  io_target : run_target F = dr_target r;
  io_class : fr_class F = cid i;
  io_metadata : fr_metadata F = metadata C;
  io_drop : needs_drop (metadata C) = true;
  io_detached : is_detached F = negb (has_live A (dr_target r));
  io_words : words_of (pending_words F);
  io_slots : forall s, s ∈ pending_slots F <-> s ∈ old_slots (location r) \/
    ((0 <= s < slot_count (target_geometry (dr_target r)))%Z /\ dead_at A (location r) s = true);
  io_count : length (pending_slots F) = length (old_slots (location r)) + dead_slots r;
  io_sum : fr_pending_slot_count F = length (pending_slots F);
}.

Lemma drop_facts r : r ∈ drops -> exists i C ws, dead_run_ok D (dead_words plan) r i C ws /\ dr_target r ∈ class_runs C /\
  needs_drop (metadata C) = true /\ dead_slots r <> 0 /\ words_at plan r = ws.
Proof.
  intros [Hr Hd]%elem_of_drops. destruct (dead_run_facts D HW plan HP r Hr) as (i & C & ws & HPr & Hin & _). exists i, C, ws.
  pose proof (dro_disposition _ _ _ _ _ _ HPr) as Hdisp. rewrite Hd, (dro_metadata _ _ _ _ _ _ HPr) in Hdisp.
  split; [done|]. split; [done|]. destruct (bool_decide_reflect (dead_slots r = 0)); [done|]. destruct (needs_drop (metadata C)); [|done].
  split; [done|]. split; [done|]. unfold words_at. by rewrite (dro_slice _ _ _ _ _ _ HPr).
Qed.

Lemma pending_is_live F s : batch_runs batch !! target_location (run_target F) = Some F -> s ∈ pending_slots F ->
  slot_allocated A (pending_owner F s) = true /\ dead_at A (target_location (run_target F)) s = false.
Proof.
  intros HF Hs. pose proof (hw_batch _ HW _ _ HF) as HB. destruct (bf_pending _ _ _ _ HB s Hs) as [_ Hal]. split; [done|].
  assert (Ho : pending_owner F s ∈ pending_list batch).
  { unfold pending_list. apply list_elem_of_bind. exists (target_location (run_target F), F). split; [by apply list_elem_of_fmap_2|by apply elem_of_map_to_list]. }
  pose proof (dead_at_owner A (pending_owner F s)) as HDo. by rewrite (HM _ Ho), andb_false_r in HDo.
Qed.

Lemma installed_facts r : r ∈ drops -> exists i C ws, dead_run_ok D (dead_words plan) r i C ws /\ dr_target r ∈ class_runs C /\
  installed_ok r i C (installed plan (batch_runs batch !! location r) r).
Proof.
  intros Hr. destruct (drop_facts r Hr) as (i & C & ws & HPr & Hin & Hdrop & Hne & Hws). exists i, C, ws. split; [done|]. split; [done|].
  pose proof (dro_words _ _ _ _ _ _ HPr) as HDW. pose proof (dro_class _ _ _ _ _ _ HPr) as HC.
  assert (Hbits : forall F s, pending_words F = pending_map ws -> s ∈ pending_slots F <->
      (0 <= s < slot_count (target_geometry (dr_target r)))%Z /\ dead_at A (location r) s = true).
  { intros F s HF. rewrite elem_of_pending_slots by (rewrite HF; by eapply pending_map_words). rewrite HF. split.
    - intros [H0 Hb]. apply (pending_map_bit A _ _ HDW s H0) in Hb as [? ?]. done.
    - intros [[H0 Hlt] Hd]. split; [done|]. by apply (pending_map_bit A _ _ HDW s H0). }
  unfold installed. destruct (batch_runs batch !! location r) as [F|] eqn:EF.
  - assert (Hos : old_slots (location r) = pending_slots F) by (unfold old_slots; by rewrite EF). destruct (batch_attached D HW i C (dr_target r) F HC Hin EF) as (Hdet & HT & Hcls & Hmeta & _). pose proof (hw_batch _ HW _ _ EF) as HB.
    set (G := MkFinalizationRun (Attached (dr_target r)) (dr_class r) (dr_metadata r) (dead_slots r) (pending_map ws)).
    set (H := MkFinalizationRun (fr_target F) (fr_class F) (fr_metadata F) (fr_pending_slot_count F + dead_slots r) (merged (pending_words F) (pending_map (words_at plan r)))).
    assert (Hdisj : forall s, s ∈ pending_slots F -> s ∉ pending_slots G).
    { intros s Hs [_ Hd]%(Hbits G s eq_refl). assert (EF' : batch_runs batch !! target_location (run_target F) = Some F) by (by rewrite HT).
      destruct (pending_is_live F s EF' Hs) as [_ Hnd]. rewrite HT in Hnd. unfold location in Hd. congruence. }
    assert (HH : pending_words H = merged (pending_words F) (pending_words G)) by (cbn; by rewrite Hws).
    assert (HWG : words_of (pending_words G)) by (by eapply pending_map_words).
    pose proof (merged_slots F G H HH (bf_words _ _ _ _ HB) HWG Hdisj) as Hperm.
    assert (Hlen : length (pending_slots H) = length (pending_slots F) + dead_slots r).
    { rewrite Hperm, length_app. f_equal. rewrite (slots_count A _ ws HDW G eq_refl). symmetry. apply HPr. }
    split; [exact HT|exact Hcls|exact Hmeta|done| | | |by rewrite Hos|].
    + change (is_detached H) with (is_detached F). by rewrite Hdet, (pending_has_live D HW HM i C _ F HC Hin EF).
    + rewrite HH. apply merged_words; [apply HB|done].
    + intros s. fold H. rewrite Hperm, elem_of_app, (Hbits G s eq_refl), Hos. done.
    + fold H. rewrite Hlen. cbn. by rewrite (bf_count _ _ _ _ HB).
  - assert (Hos : old_slots (location r) = []) by (unfold old_slots; by rewrite EF). rewrite Hws. set (G := MkFinalizationRun _ _ _ _ _). assert (Hlen : length (pending_slots G) = dead_slots r).
    { rewrite (slots_count A _ ws HDW G eq_refl). symmetry. apply HPr. }
    assert (Hrt : run_target G = dr_target r) by (unfold run_target, G; cbn; by case_decide). split; [exact Hrt|apply HPr|apply HPr|done| | | |by rewrite Hlen, Hos|by rewrite Hlen].
    + unfold is_detached, G. cbn. case_decide as H0.
      * by rewrite (proj1 (dro_live _ _ _ _ _ _ HPr) H0).
      * destruct (has_live A (dr_target r)) eqn:El; [done|]. exfalso. by apply H0, HPr.
    + by eapply pending_map_words.
    + intros s. rewrite (Hbits G s eq_refl), Hos. split; [by right|]. intros [Hc|]; [by apply elem_of_nil in Hc|done].
Qed.

Lemma batch_cases l F : batch_runs batch' !! l = Some F ->
  (exists r i C ws, r ∈ drops /\ location r = l /\ dead_run_ok D (dead_words plan) r i C ws /\ dr_target r ∈ class_runs C /\ installed_ok r i C F) \/
  (l ∉ locations drops /\ batch_runs batch !! l = Some F).
Proof.
  intros HF. destruct (decide (l ∈ locations drops)) as [(r & Hr & <-)%elem_of_locations|Hn].
  - rewrite (installs_lookup D HW plan HP HM drops r (drops_nodup D HW plan HP) Hr) in HF. injection HF as <-.
    destruct (installed_facts r Hr) as (i & C & ws & ? & ? & ?). left. by exists r, i, C, ws.
  - right. split; [done|]. by rewrite (installs_fresh D HW plan HP HM) in HF.
Qed.

(** A run that was in the batch and is not installed is not in the plan. *)
Lemma old_not_planned l F : batch_runs batch !! l = Some F -> l ∉ locations drops -> l ∉ locations (dead_runs plan).
Proof.
  intros HF Hn (r & Hr & <-)%elem_of_locations. destruct (dead_run_facts D HW plan HP r Hr) as (i & C & ws & HPr & Hin & _).
  pose proof (dro_class _ _ _ _ _ _ HPr) as HC. destruct (batch_attached D HW i C _ F HC Hin HF) as (_ & _ & _ & _ & Hdrop).
  pose proof (pending_has_live D HW HM i C _ F HC Hin HF) as Hl. apply Hn, elem_of_locations. exists r. split; [|done]. apply elem_of_drops. split; [done|].
  rewrite (dro_disposition _ _ _ _ _ _ HPr), (dro_metadata _ _ _ _ _ _ HPr), Hdrop.
  destruct (bool_decide_reflect (dead_slots r = 0)) as [H0|]; [|done]. exfalso.
  assert (Hin' : dr_target r ∈ dr_target <$> dead_runs plan) by (by apply list_elem_of_fmap_2). destruct HP as [_ Heq]. rewrite Heq in Hin'.
  apply list_elem_of_filter in Hin' as [Hls _]. unfold listed in Hls. rewrite Hl, orb_false_r in Hls. apply (dro_dead _ _ _ _ _ _ HPr) in H0. congruence.
Qed.

(** What is pending after the installation. *)
Lemma pending_after o : owner_ok A o ->
  (match batch_runs batch' !! owner_location o with Some F => contains_owner F o | None => false end) = true <->
  is_pending D o = true \/ exists i C, owner_class o = cid i /\ classes D !! i = Some C /\ owner_geometry o = class_geometry C /\
    contains_run C (owner_location o) = true /\ needs_drop (metadata C) = true /\ slot_allocated A o = true /\ slot_marked A o = false.
Proof.
  intros HO. pose proof HO as (_ & _ & Hs). unfold is_pending. destruct (decide (owner_location o ∈ locations drops)) as [(r & Hr & Hl)%elem_of_locations|Hn].
  - rewrite <- Hl, (installs_lookup D HW plan HP HM drops r (drops_nodup D HW plan HP) Hr). destruct (installed_facts r Hr) as (i & C & ws & HPr & Hin & HI).
    pose proof (dro_class _ _ _ _ _ _ HPr) as HC. destruct (class_targets_ok D HW i C _ HC Hin) as [HT Hg].
    assert (Ho : o = run_owner (dr_target r) (cid i) (owner_slot o)).
    { destruct HO as [(x & Hx & Hc & Hgeo) [Ha _]]. destruct HT as [(x' & Hx' & Hc' & Hgeo') Ha']. unfold location in Hl. rewrite Hl in Hx', Ha'.
      unfold run_owner. rewrite Hl. destruct o. cbn in *. congruence. }
    assert (Hsame : forall F s, run_target F = dr_target r -> fr_class F = cid i -> pending_owner F s = run_owner (dr_target r) (cid i) s).
    { intros F s H1 H2. unfold pending_owner, run_owner. by rewrite H1, H2. }
    assert (Hold : match batch_runs batch !! location r with Some F => contains_owner F o | None => false end = true <-> owner_slot o ∈ old_slots (location r)).
    { unfold old_slots. destruct (batch_runs batch !! location r) as [F|] eqn:EF; [|split; [done|by intros ?%elem_of_nil]].
      pose proof (hw_batch _ HW _ _ EF) as HB. destruct (batch_attached D HW i C _ F HC Hin EF) as (_ & HTF & Hcls & _).
      rewrite contains_owner_iff by (apply HB || lia). split.
      - intros (s & Hsl & Hos). by rewrite Hos.
      - intros Hsl. exists (owner_slot o). split; [done|]. rewrite (Hsame F) by done. done. }
    rewrite Hold, contains_owner_iff by (apply HI || lia). split.
    + intros (s & Hsl & Hos). rewrite (Hsame _ s (io_target _ _ _ _ HI) (io_class _ _ _ _ HI)) in Hos. assert (Hso : owner_slot o = s) by (by rewrite Hos).
      apply (io_slots _ _ _ _ HI) in Hsl as [Hsl|[_ Hd]]; [left; by rewrite Hso|]. right. exists i, C.
      pose proof (dead_at_owner A o) as HDo. rewrite <- Hl, Hso, Hd in HDo. symmetry in HDo. apply andb_true_iff in HDo as [Hal Hmk%negb_true_iff].
      split; [by rewrite Ho|]. split; [done|]. split; [by rewrite Ho|].
      split; [by eapply (class_run_in D HW)|]. split; [apply HI|done].
    + intros Hor. exists (owner_slot o). split; [|by rewrite (Hsame _ _ (io_target _ _ _ _ HI) (io_class _ _ _ _ HI))]. apply (io_slots _ _ _ _ HI).
      destruct Hor as [?|(j & C' & _ & _ & _ & _ & _ & Hal & Hmk)]; [by left|right]. split; [rewrite Ho in Hs; exact Hs|].
      rewrite Hl, dead_at_owner, Hal, Hmk. done.
  - rewrite (installs_fresh D HW plan HP HM) by done. split; [by left|]. intros [?|(i & C & Hcls & HC & Hg & Hrun & Hdrop & Hal & Hmk)]; [done|]. exfalso.
    apply bool_decide_eq_true in Hrun. destruct (hw_class _ HW i C HC) as (_ & HL & _). apply HL in Hrun as (t & Ht & Hloc).
    destruct (class_targets_ok D HW i C t HC Ht) as [_ Hgt].
    assert (Hdead : has_dead A t = true).
    { apply existsb_slots. exists (owner_slot o). split; [by rewrite Hgt, <- Hg|]. rewrite Hloc, dead_at_owner, Hal, Hmk. done. }
    destruct (dead_listed D plan HP i C t HC Ht) as (r & Hr & Htr); [unfold listed; by rewrite Hdead|].
    destruct (dead_run_facts D HW plan HP r Hr) as (j & C' & ws & HPr & Hin & _).
    destruct (class_disjoint D HW j i C' C _ t (dro_class _ _ _ _ _ _ HPr) HC Hin Ht ltac:(by rewrite Htr)) as [-> _].
    pose proof (dro_class _ _ _ _ _ _ HPr) as E. rewrite HC in E. injection E as <-.
    apply Hn, elem_of_locations. exists r. split; [|unfold location; congruence]. apply elem_of_drops. split; [done|].
    rewrite (dro_disposition _ _ _ _ _ _ HPr), (dro_metadata _ _ _ _ _ _ HPr), Hdrop.
    destruct (bool_decide_reflect (dead_slots r = 0)) as [H0|]; [|done]. apply (dro_dead _ _ _ _ _ _ HPr) in H0. rewrite Htr in H0. congruence.
Qed.

(** ** The memory after the sweep *)
Notation swept_runs := (swept_runs plan).
Notation gone := (gone plan).
Notation kept_runs := ((remove_runs gone <$> classes D) ≫= class_runs).

Context (A3 A4 A5 : Arena) (H3 : runs_changed A A3 (locations retired_runs) recycled)
  (H4 : runs_changed A3 A4 (locations swept_runs) swept) (H5 : runs_changed A4 A5 (run_set kept_runs) (published batch' kept_runs)).

Lemma elem_of_kept t : t ∈ kept_runs <-> exists i C, classes D !! i = Some C /\ t ∈ class_runs C /\ target_location t ∉ gone.
Proof.
  rewrite list_elem_of_bind. split.
  - intros (C' & Ht & HC'). apply list_elem_of_fmap in HC' as (C & -> & HC). apply list_elem_of_lookup in HC as (i & HC). cbn in Ht.
    apply list_elem_of_filter in Ht as [Hg Ht]. by exists i, C.
  - intros (i & C & HC & Ht & Hg). exists (remove_runs gone C). split; [cbn; by apply list_elem_of_filter|].
    apply list_elem_of_fmap_2. by eapply list_elem_of_lookup_2.
Qed.

Lemma retired_gone l : l ∈ locations retired_runs -> l ∈ gone.
Proof. intros Hl. apply elem_of_union. by left. Qed.

Lemma kept_not_gone l : l ∈ run_set kept_runs -> l ∉ gone.
Proof. intros (t & Ht & <-)%elem_of_run_set. by apply elem_of_kept in Ht as (_ & _ & _ & _ & ?). Qed.

Lemma swept_not_retired_set l : l ∈ locations swept_runs -> l ∉ locations retired_runs.
Proof. intros (r & Hr & <-)%elem_of_locations (r' & Hr' & Hl)%elem_of_locations. by apply (swept_not_retired D HW plan HP r r'). Qed.

Lemma run_after l x : l ∉ locations retired_runs -> run_of A l = Some x ->
  exists x', run_of A5 l = Some x' /\ header x' = header x /\ marks x' = marks x /\ (l ∉ locations swept_runs -> allocation x' = allocation x) /\
    (l ∈ locations swept_runs -> forall g, header_geometry (header x) = Some g -> forall s, (0 <= s < slot_count g)%Z ->
       slot_bit (allocation x') s = slot_bit (allocation x) s && slot_bit (marks x) s).
Proof.
  intros Hr Hx. rewrite <- (rc_other _ _ _ _ H3) in Hx by done.
  assert (Hmid : exists y, run_of A4 l = Some y /\ header y = header x /\ marks y = marks x /\ (l ∉ locations swept_runs -> allocation y = allocation x) /\
    (l ∈ locations swept_runs -> forall g, header_geometry (header x) = Some g -> forall s, (0 <= s < slot_count g)%Z ->
       slot_bit (allocation y) s = slot_bit (allocation x) s && slot_bit (marks x) s)).
  { destruct (decide (l ∈ locations swept_runs)) as [Hs|Hs].
    - destruct (rc_run _ _ _ _ H4 l Hs) as (x1 & y & Hx1 & Hy & Hh & Hm & Hb). assert (x1 = x) as -> by congruence. by exists y.
    - exists x. rewrite (rc_other _ _ _ _ H4) by done. done. }
  destruct Hmid as (y & Hy & Hh & Hm & Ha & Hb). destruct (decide (l ∈ run_set kept_runs)) as [Hk|Hk].
  - destruct (rc_run _ _ _ _ H5 l Hk) as (y1 & x' & Hy1 & Hx' & Hh' & Hm' & Ha' & _). assert (y1 = y) as -> by congruence.
    exists x'. rewrite Hh', Hm', Ha'. done.
  - exists y. rewrite (rc_other _ _ _ _ H5) by done. done.
Qed.

Lemma run_after_retired l : l ∈ locations retired_runs -> exists x', run_of A5 l = Some x' /\ header_is_empty (header x') = true.
Proof.
  intros Hl. destruct (rc_run _ _ _ _ H3 l Hl) as (x & x' & _ & Hx' & He). exists x'. split; [|done].
  rewrite (rc_other _ _ _ _ H5), (rc_other _ _ _ _ H4); [done| |].
  - intros Hs. by apply swept_not_retired_set in Hs.
  - intros Hk%kept_not_gone. by apply Hk, retired_gone.
Qed.

Lemma run_after_none l : run_of A l = None -> run_of A5 l = None.
Proof.
  intros Hn. assert (Hr : forall rs, (forall r, r ∈ rs -> r ∈ dead_runs plan) -> l ∉ locations rs).
  { intros rs Hsub (r & Hr & <-)%elem_of_locations. destruct (plan_run_of D HW plan HP r (Hsub r Hr)) as (x & Hx). congruence. }
  rewrite (rc_other _ _ _ _ H5), (rc_other _ _ _ _ H4), (rc_other _ _ _ _ H3); [done|apply Hr..|].
  - by intros r [_ ?]%list_elem_of_filter.
  - by intros r [_ ?]%list_elem_of_filter.
  - intros (t & Ht & <-)%elem_of_run_set. apply elem_of_kept in Ht as (i & C & HC & Hin & _).
    destruct (class_targets_ok D HW i C t HC Hin) as [[(x & Hx & _) _] _]. congruence.
Qed.

Lemma address_after l : address_of A5 l = address_of A l.
Proof. by rewrite (rc_address _ _ _ _ H5), (rc_address _ _ _ _ H4), (rc_address _ _ _ _ H3). Qed.

Lemma typed_after l cls g : (exists x', typed A5 l cls g x') <-> (exists x, typed A l cls g x) /\ l ∉ locations retired_runs.
Proof.
  split.
  - intros (x' & Hx' & Hc & Hg). destruct (decide (l ∈ locations retired_runs)) as [Hr|Hr].
    + destruct (run_after_retired l Hr) as (y & Hy & He). apply header_not_empty in Hc. congruence.
    + split; [|done]. destruct (run_of A l) as [x|] eqn:Hx; [|apply run_after_none in Hx; congruence].
      destruct (run_after l x Hr Hx) as (y & Hy & Hh & _). exists x. split; [done|]. rewrite <- Hh. by simplify_eq.
  - intros [(x & Hx & Hc & Hg) Hr]. destruct (run_after l x Hr Hx) as (x' & Hx' & Hh & _). exists x'. split; [done|]. by rewrite Hh.
Qed.

Lemma target_after t cls : target_ok A5 t cls <-> target_ok A t cls /\ target_location t ∉ locations retired_runs.
Proof. unfold target_ok. rewrite typed_after, address_after. tauto. Qed.

Lemma owner_after o : owner_ok A5 o <-> owner_ok A o /\ owner_location o ∉ locations retired_runs.
Proof. unfold owner_ok. rewrite typed_after, address_after. tauto. Qed.

(** Slots of runs that are not swept keep their allocation bits. *)
Lemma allocated_same o : owner_location o ∉ locations retired_runs -> owner_location o ∉ locations swept_runs -> slot_allocated A5 o = slot_allocated A o.
Proof.
  intros Hr Hs. unfold slot_allocated. destruct (run_of A (owner_location o)) as [x|] eqn:Hx.
  - destruct (run_after _ _ Hr Hx) as (x' & -> & _ & _ & Ha & _). by rewrite Ha.
  - by rewrite (run_after_none _ Hx).
Qed.

(** Slots of the runs that stay in their class. *)
Lemma allocated_after i C t o : classes D !! i = Some C -> t ∈ class_runs C -> target_location t ∉ gone -> owner_ok A o ->
  owner_location o = target_location t -> slot_allocated A5 o = slot_allocated A o && (needs_drop (metadata C) || slot_marked A o).
Proof.
  intros HC Ht Hg HO Hl. assert (Hr : owner_location o ∉ locations retired_runs) by (rewrite Hl; intros Hc; by apply Hg, retired_gone).
  destruct (class_targets_ok D HW i C t HC Ht) as [HT Hgeo]. pose proof HT as [(x & Hx & Hcls & Hgx) Ha]. pose proof HO as [(x0 & Hx0 & Hcls0 & Hgx0) [Ha0 Hs]].
  rewrite Hl in *. assert (x0 = x) as -> by congruence. assert (Hog : owner_geometry o = target_geometry t) by congruence. rewrite Hog in Hs.
  assert (Hcase : forall r, r ∈ dead_runs plan -> location r = target_location t -> dr_target r = t /\ dr_metadata r = metadata C).
  { intros r Hrd Hlr. destruct (dead_run_facts D HW plan HP r Hrd) as (j & C' & ws & HPr & Hin & _).
    destruct (class_disjoint D HW j i C' C _ t (dro_class _ _ _ _ _ _ HPr) HC Hin Ht Hlr) as [-> Heq]. split; [done|].
    rewrite (dro_metadata _ _ _ _ _ _ HPr). pose proof (dro_class _ _ _ _ _ _ HPr). congruence. }
  destruct (decide (target_location t ∈ locations swept_runs)) as [Hsw|Hsw].
  - pose proof Hsw as (r & Hrs & Hlr)%elem_of_locations. apply list_elem_of_filter in Hrs as [Hsw' Hrd]. destruct (Hcase r Hrd Hlr) as [Htr Hmr].
    destruct (dead_planned D plan HP r Hrd) as (j & C' & ws & HPr). unfold is_swept in Hsw'. apply bool_decide_eq_true in Hsw' as (Hnd & Hlive & Hdead).
    rewrite (dro_disposition _ _ _ _ _ _ HPr), Hmr in Hnd. destruct (bool_decide_reflect (dead_slots r = 0)); [done|]. destruct (needs_drop (metadata C)); [done|]. cbn.
    destruct (run_after _ _ Hr Hx) as (x' & Hx' & _ & _ & _ & Hb). unfold slot_allocated, slot_marked. rewrite Hl, Hx, Hx'. by apply (Hb Hsw (target_geometry t)).
  - rewrite allocated_same by (by rewrite ?Hl). destruct (needs_drop (metadata C)) eqn:Ed; [by rewrite andb_true_r|]. cbn.
    destruct (slot_allocated A o) eqn:Eal; [|done]. cbn. destruct (slot_marked A o) eqn:Em; [done|]. exfalso.
    assert (Hdead : has_dead A t = true).
    { apply existsb_slots. exists (owner_slot o). split; [done|]. rewrite <- Hl, dead_at_owner, Eal, Em. done. }
    destruct (dead_listed D plan HP i C t HC Ht) as (r & Hrd & Htr); [unfold listed; by rewrite Hdead|].
    destruct (dead_planned D plan HP r Hrd) as (j & C' & ws & HPr). assert (Hlr : location r = target_location t) by (unfold location; by rewrite Htr).
    destruct (Hcase r Hrd Hlr) as [_ Hmr]. apply Hsw, elem_of_locations. exists r. split; [|done]. apply list_elem_of_filter. split; [|done].
    unfold is_swept. apply bool_decide_eq_true. rewrite (dro_disposition _ _ _ _ _ _ HPr), Hmr, Ed, orb_true_r. split; [done|].
    rewrite (dro_live _ _ _ _ _ _ HPr), (dro_dead _ _ _ _ _ _ HPr), Htr, Hdead. split; [|done].
    rewrite <- (gone_iff D HW plan HP i C t HC Ht). done.
Qed.
End safe.
