(* ===== verification/SweepCorrect.v ===== *)
(** * The heap after a sweep

    The heap invariant holds again; the live objects are those that were live and
    marked; the dead objects with destructors are the new pending slots. *)
From stdpp Require Import base option list numbers gmap sets.
From Stdlib Require Import ZArith Lia.
From S2P Require Import Prelude RootPool RunGeometry Bitmaps Arena ArenaFacts Heap HeapFacts Marking MarkingFacts.
From S2P Require Import Sweep SweepFacts SweepPlan SweepTopology SweepArena SweepSteps SweepSafe.

(** An object that waits for no destructor. *)
Definition live_object (D : ManagedData) (a : Z) (o : RunOwner) (m : ObjectMetadata) : Prop := object D a o m /\ is_pending D o = false.

(** Some slot of allocation word [i] waits for its destructor. *)
Definition word_pending (D : ManagedData) (t : RunClaimTarget) (cls : AllocationClassId) (i : nat) : Prop :=
  exists s, (0 <= s < slot_count (target_geometry t))%Z /\ Z.to_nat (s / 64) = i /\ is_pending D (run_owner t cls s) = true.

(** Some slot of allocation word [i] is not allocated. *)
Definition word_free (D : ManagedData) (t : RunClaimTarget) (cls : AllocationClassId) (i : nat) : Prop :=
  exists s, (0 <= s < slot_count (target_geometry t))%Z /\ Z.to_nat (s / 64) = i /\ slot_allocated (arena D) (run_owner t cls s) = false.

(** The word can be claimed: its lease bit is clear. *)
Definition word_open (D : ManagedData) (t : RunClaimTarget) (i : nat) : Prop :=
  exists r, run_of (arena D) (target_location t) = Some r /\ leased_word r i = false.

Section final.
Context (D : ManagedData) (HW : heap_wf D) (plan : DeadSetPlan) (HP : plan_ok D plan (classes D ≫= class_runs)).
Context (HM : forall o, o ∈ pending_list (finalization_batch D) -> slot_marked (arena D) o = true).
Notation A := (arena D).
Notation drops := (drops plan).
Notation retired_runs := (retired_runs plan).
Notation swept_runs := (swept_runs plan).
Notation gone := (gone plan).
Notation batch := (finalization_batch D).
Notation batch' := (installs D plan drops).
Notation kept_runs := ((remove_runs gone <$> classes D) ≫= class_runs).
Context (A3 A4 A5 : Arena) (H3 : runs_changed A A3 (locations retired_runs) recycled)
  (H4 : runs_changed A3 A4 (locations swept_runs) swept) (H5 : runs_changed A4 A5 (run_set kept_runs) (published batch' kept_runs)).

(** The heap when the leases are published, and at the end. *)
Definition before_publish : ManagedData := after_recycle D plan retired_runs A4.
Definition after_sweep (P : RootPool) : ManagedData :=
  with_pool (with_classes (with_arena before_publish A5) (fronted_classes before_publish (length (classes before_publish)))) P.

Lemma class_after P i C' : classes (after_sweep P) !! i = Some C' <->
  exists C, classes D !! i = Some C /\ C' = fronted (remove_runs gone C) (first_available batch' A4 (class_runs (remove_runs gone C))).
Proof.
  change (classes (after_sweep P)) with (fronted_classes before_publish (length (classes before_publish))).
  unfold fronted_classes. rewrite list_lookup_imap. change (classes before_publish) with (remove_runs gone <$> classes D).
  rewrite list_lookup_fmap. destruct (classes D !! i) as [C|] eqn:HC; cbn.
  - rewrite decide_True by (rewrite length_fmap; by eapply lookup_lt_Some). split; [intros [= <-]; by exists C|by intros (C1 & [= <-] & ->)].
  - split; [done|by intros (C1 & ? & _)].
Qed.

Lemma not_gone_retired l : l ∉ gone -> l ∉ locations retired_runs.
Proof. intros H Hr. by apply H, (retired_gone plan). Qed.

Lemma class_wf_after P i C' : classes (after_sweep P) !! i = Some C' -> class_wf A5 i C'.
Proof.
  intros (C & HC & ->)%class_after. destruct (hw_class _ HW i C HC) as (HT & HL & HN & _). unfold class_wf. cbn [fronted with_frontier class_runs class_geometry run_locations frontier_index frontier remove_runs].
  split_and!.
  - intros t [Hg Ht]%list_elem_of_filter. destruct (HT t Ht) as [HTt Hgeo]. split; [|done].
    apply (target_after D HW plan HP A3 A4 A5 H3 H4 H5). split; [done|by apply not_gone_retired].
  - intros l. rewrite elem_of_difference, HL. split.
    + intros [(t & Ht & <-) Hg]. exists t. split; [by apply list_elem_of_filter|done].
    + intros (t & [Hg Ht]%list_elem_of_filter & <-). split; [by exists t|done].
  - eapply sublist_NoDup; [exact HN|]. apply fmap_sublist, sublist_filter.
  - destruct (first_available _ _ _) as [k|] eqn:Ek; [|done]. cbn. unfold first_available in Ek. apply fmap_Some in Ek as ([k' t] & Hf & ->).
    apply list_find_Some in Hf as (Hk & _). cbn in Hk |- *. by rewrite Hk.
Qed.

Lemma contains_after P i C C' l : classes D !! i = Some C -> classes (after_sweep P) !! i = Some C' ->
  contains_run C' l = contains_run C l && negb (bool_decide (l ∈ gone)) /\ metadata C' = metadata C /\ class_geometry C' = class_geometry C.
Proof.
  intros HC (C1 & HC1 & ->)%class_after. assert (C1 = C) as -> by congruence. split; [|done]. unfold contains_run. cbn.
  rewrite <- bool_decide_not, <- bool_decide_and. apply bool_decide_ext. by rewrite elem_of_difference.
Qed.

(** Runs of the batch are neither retired nor swept. *)
Lemma batch_untouched l F : batch_runs batch' !! l = Some F -> l ∉ locations retired_runs /\ l ∉ locations swept_runs.
Proof.
  intros [(r & i & C & ws & Hr & <- & HPr & Hin & HI)|[Hn HF]]%(batch_cases D HW plan HP HM).
  - split; intros (r' & [Hr' Hp']%list_elem_of_filter & Hl)%elem_of_locations; pose proof Hr as [Hp Hd]%elem_of_drops;
      assert (r' = r) as -> by (by apply (dead_location_inj D HW plan HP)).
    + unfold is_retired in Hr'. apply bool_decide_eq_true in Hr' as [Hr' _]. congruence.
    + unfold is_swept in Hr'. apply bool_decide_eq_true in Hr' as [Hr' _]. congruence.
  - pose proof (old_not_planned D HW plan HP HM l F HF Hn) as Hnp. split; intros (r' & [_ Hp']%list_elem_of_filter & Hl)%elem_of_locations;
      apply Hnp, elem_of_locations; by exists r'.
Qed.

Lemma installed_gone r i C F : r ∈ drops -> classes D !! i = Some C -> dr_target r ∈ class_runs C -> installed_ok D r i C F ->
  location r ∈ gone <-> is_detached F = true.
Proof. intros Hr HC Hin HI. unfold location. rewrite (gone_iff D HW plan HP i C _ HC Hin), (io_detached _ _ _ _ _ HI), negb_true_iff. done. Qed.

Lemma old_not_gone l F : batch_runs batch !! l = Some F -> l ∉ locations drops -> l ∉ gone.
Proof.
  intros HF Hn Hg. pose proof (old_not_planned D HW plan HP HM l F HF Hn) as Hnp. apply Hnp, elem_of_locations.
  apply elem_of_union in Hg as [(r & [_ Hr]%list_elem_of_filter & Hl)%elem_of_locations|(r & [_ [Hr _]%elem_of_drops]%list_elem_of_filter & Hl)%elem_of_locations]; by exists r.
Qed.

Lemma batch_wf_after P l F : batch_runs batch' !! l = Some F -> batch_run_wf A5 (classes (after_sweep P)) l F.
Proof.
  intros HF. destruct (batch_untouched l F HF) as [Hnr Hns]. apply (batch_cases D HW plan HP HM) in HF as [(r & i & C & ws & Hr & Hl & HPr & Hin & HI)|[Hn HF]].
  - pose proof (dro_class _ _ _ _ _ _ HPr) as HC. destruct (class_targets_ok D HW i C _ HC Hin) as [HT Hgeo]. pose proof (io_target _ _ _ _ _ HI) as Htg.
    assert (Hloc : target_location (run_target F) = l) by (by rewrite Htg).
    assert (Hold : forall s, s ∈ old_slots D (location r) -> slot_allocated A (run_owner (dr_target r) (cid i) s) = true /\ (s < slot_count (target_geometry (dr_target r)))%Z).
    { unfold old_slots. intros s Hs. destruct (batch_runs batch !! location r) as [F0|] eqn:EF; [|by apply elem_of_nil in Hs].
      destruct (batch_attached D HW i C _ F0 HC Hin EF) as (_ & HT0 & Hc0 & _). destruct (bf_pending _ _ _ _ (hw_batch _ HW _ _ EF) s Hs) as [Hlt Hal].
      unfold pending_owner in Hal. rewrite HT0, Hc0 in Hal. rewrite HT0 in Hlt. done. }
    assert (Hpo : forall s, pending_owner F s = run_owner (dr_target r) (cid i) s) by (intros s; unfold pending_owner, run_owner; by rewrite Htg, (io_class _ _ _ _ _ HI)).
    assert (Halloc : forall s, slot_allocated A5 (pending_owner F s) = slot_allocated A (pending_owner F s)).
    { intros s. apply (allocated_same D HW plan HP A3 A4 A5 H3 H4 H5); cbn; by rewrite Hloc. }
    assert (Hgone := installed_gone r i C F Hr HC Hin HI). split.
    + done.
    + rewrite Htg, (io_class _ _ _ _ _ HI). apply (target_after D HW plan HP A3 A4 A5 H3 H4 H5). split; [done|]. by rewrite <- Htg, Hloc.
    + eexists i, _. split; [apply HI|]. split; [apply class_after; by exists C|]. rewrite (io_metadata _ _ _ _ _ HI), Htg.
      split; [done|]. split; [apply HI|]. split; [done|]. cbn. destruct (is_detached F) eqn:Ed.
      * rewrite elem_of_difference. rewrite <- Hl. tauto.
      * apply list_elem_of_filter. split; [|done]. change (location r ∉ gone). rewrite Hgone. done.
    + apply HI.
    + intros s Hs. rewrite Halloc, Hpo, Htg. apply (io_slots _ _ _ _ _ HI) in Hs as [Hs|[Hs Hd]]; [by destruct (Hold s Hs)|].
      split; [lia|]. pose proof (dead_at_owner A (run_owner (dr_target r) (cid i) s)) as HDo. change (dead_at A (location r) s = slot_allocated A (run_owner (dr_target r) (cid i) s) && negb (slot_marked A (run_owner (dr_target r) (cid i) s))) in HDo.
      rewrite Hd in HDo. symmetry in HDo. by apply andb_true_iff in HDo as [].
    + apply HI.
    + intros He. pose proof (io_count _ _ _ _ _ HI) as Hc. unfold pending_slots in Hc at 1. rewrite He, map_to_list_empty in Hc. cbn in Hc.
      destruct (drop_facts D HW plan HP r Hr) as (_ & _ & _ & _ & _ & _ & Hne & _). lia.
    + intros Hdet s Hs. rewrite Halloc, Hpo. intros Hal. rewrite Htg in Hs. apply (io_slots _ _ _ _ _ HI). right. split; [done|].
      pose proof (dead_at_owner A (run_owner (dr_target r) (cid i) s)) as HDo. change (dead_at A (location r) s = slot_allocated A (run_owner (dr_target r) (cid i) s) && negb (slot_marked A (run_owner (dr_target r) (cid i) s))) in HDo.
      rewrite HDo, Hal. cbn. rewrite (io_detached _ _ _ _ _ HI), negb_true_iff in Hdet. unfold has_live in Hdet. rewrite existsb_slots_false in Hdet.
      specialize (Hdet s Hs). pose proof (live_at_owner A (run_owner (dr_target r) (cid i) s)) as HLo. change (live_at A (target_location (dr_target r)) s = slot_allocated A (run_owner (dr_target r) (cid i) s) && slot_marked A (run_owner (dr_target r) (cid i) s)) in HLo.
      rewrite Hdet, Hal in HLo. cbn in HLo. by rewrite <- HLo.
  - pose proof (hw_batch _ HW _ _ HF) as HB. pose proof (bf_location _ _ _ _ HB) as Hloc. pose proof (old_not_gone l F HF Hn) as Hg.
    assert (Halloc : forall s, slot_allocated A5 (pending_owner F s) = slot_allocated A (pending_owner F s)).
    { intros s. apply (allocated_same D HW plan HP A3 A4 A5 H3 H4 H5); cbn; by rewrite Hloc. }
    split; [done| | |apply HB| |apply HB|apply HB|].
    + apply (target_after D HW plan HP A3 A4 A5 H3 H4 H5). split; [apply HB|by rewrite Hloc].
    + destruct (bf_class _ _ _ _ HB) as (i & C & Hc & HC & Hm & Hd & Hgeo & Hcase). eexists i, _. split; [done|]. split; [apply class_after; by exists C|].
      split; [done|]. split; [done|]. split; [done|]. cbn. destruct (is_detached F); [set_solver|]. apply list_elem_of_filter. split; [by rewrite Hloc|done].
    + intros s Hs. rewrite Halloc. by apply (bf_pending _ _ _ _ HB).
    + intros Hdet s. rewrite Halloc. by apply (bf_detached _ _ _ _ HB).
Qed.

(** ** Counting *)
Lemma total_after : batch_pending batch' = length (pending_list batch').
Proof.
  rewrite pending_list_count.
  assert (Hd : forall d rest, drops = d ++ rest -> msum (fun F => length (pending_slots F)) (batch_runs (installs D plan d)) =
      msum (fun F => length (pending_slots F)) (batch_runs batch) + sum_list_with dead_slots d).
  { induction d as [|r d IH] using rev_ind; intros rest Heq; [cbn; lia|]. rewrite <- app_assoc in Heq. cbn in Heq.
    rewrite installs_snoc, sum_list_with_app. cbn [sum_list_with]. rewrite Nat.add_0_r.
    assert (Hr : r ∈ drops) by (rewrite Heq; set_solver). destruct (installed_facts D HW plan HP HM r Hr) as (i & C & ws & _ & _ & HI).
    assert (Hfresh : batch_runs (installs D plan d) !! location r = batch_runs batch !! location r).
    { apply (installs_fresh D HW plan HP HM). rewrite elem_of_locations. intros (x & Hx & Hl). pose proof (drops_nodup D HW plan HP) as HN.
      rewrite Heq, fmap_app in HN. apply NoDup_app in HN as (_ & HN & _). apply (HN (location x)); [by apply list_elem_of_fmap_2|]. rewrite Hl. left. }
    unfold install_in. cbn [batch_runs]. rewrite Hfresh. pose proof (io_count _ _ _ _ _ HI) as Hc. unfold old_slots in Hc. specialize (IH _ Heq).
    destruct (batch_runs batch !! location r) as [F0|] eqn:EF.
    - pose proof (msum_old (fun F => length (pending_slots F)) _ (location r) (installed plan (Some F0) r) F0 Hfresh). cbn beta in *. lia.
    - pose proof (msum_new (fun F => length (pending_slots F)) _ (location r) (installed plan None r) Hfresh). cbn [length] in Hc. cbn beta in *. lia. }
  rewrite (Hd drops [] ltac:(by rewrite app_nil_r)), installs_total, (hw_total _ HW), pending_list_count. done.
Qed.

Lemma detached_after : detached_run_count batch' = detached_run_count batch + length (detached_in drops).
Proof.
  rewrite !detached_count.
  assert (Hd : forall d rest, drops = d ++ rest -> msum (fun F => if is_detached F then 1 else 0) (batch_runs (installs D plan d)) =
      msum (fun F => if is_detached F then 1 else 0) (batch_runs batch) + length (detached_in d)).
  { induction d as [|r d IH] using rev_ind; intros rest Heq; [cbn; lia|]. rewrite <- app_assoc in Heq. cbn in Heq.
    rewrite installs_snoc, detached_snoc, length_app. assert (Hr : r ∈ drops) by (rewrite Heq; set_solver).
    destruct (installed_facts D HW plan HP HM r Hr) as (i & C & ws & HPr & Hin & HI). pose proof (dro_class _ _ _ _ _ _ HPr) as HC.
    assert (Hfresh : batch_runs (installs D plan d) !! location r = batch_runs batch !! location r).
    { apply (installs_fresh D HW plan HP HM). rewrite elem_of_locations. intros (x & Hx & Hl). pose proof (drops_nodup D HW plan HP) as HN.
      rewrite Heq, fmap_app in HN. apply NoDup_app in HN as (_ & HN & _). apply (HN (location x)); [by apply list_elem_of_fmap_2|]. rewrite Hl. left. }
    unfold install_in. cbn [batch_runs]. rewrite Hfresh. specialize (IH _ Heq). pose proof (io_detached _ _ _ _ _ HI) as Hdet. pose proof (dro_live _ _ _ _ _ _ HPr) as Hlive.
    destruct (batch_runs batch !! location r) as [F0|] eqn:EF.
    - pose proof (msum_old (fun F => if is_detached F then 1 else 0) _ (location r) (installed plan (Some F0) r) F0 Hfresh) as Hm. cbn beta in *.
      destruct (batch_attached D HW i C _ F0 HC Hin EF) as (Hd0 & _). pose proof (pending_has_live D HW HM i C _ F0 HC Hin EF) as Hl.
      rewrite Hl in Hdet, Hlive. rewrite decide_False by (intros H0; by apply Hlive in H0). rewrite Hdet, Hd0 in Hm. cbn in *. lia.
    - pose proof (msum_new (fun F => if is_detached F then 1 else 0) _ (location r) (installed plan None r) Hfresh) as Hm. cbn beta in *.
      rewrite Hdet in Hm. destruct (has_live A (dr_target r)).
      + rewrite decide_False by (intros H0; by apply Hlive in H0). cbn in *. lia.
      + rewrite decide_True by (by apply Hlive). cbn in *. lia. }
  by rewrite (Hd drops [] ltac:(by rewrite app_nil_r)).
Qed.

Lemma filter_split {T} (P : T -> Prop) `{!forall x, Decision (P x)} l : length (filter P l) + length (filter (fun x => ~ P x) l) = length l.
Proof.
  induction l as [|x l IH]; [done|]. rewrite !filter_cons. destruct (decide (P x)).
  - rewrite decide_False by tauto. cbn. lia.
  - rewrite decide_True by done. cbn. lia.
Qed.

Lemma remove_flat R (cs : list AllocationClassEntry) : (remove_runs R <$> cs) ≫= class_runs = filter (fun t => target_location t ∉ R) (cs ≫= class_runs).
Proof. induction cs as [|C cs IH]; [done|]. cbn. rewrite filter_app. f_equal. exact IH. Qed.

Lemma gone_count : length (filter (fun t => target_location t ∈ gone) (classes D ≫= class_runs)) = length retired_runs + length (detached_in drops).
Proof.
  rewrite <- length_app, <- (length_fmap dr_target). apply Permutation_length, NoDup_Permutation.
  - apply NoDup_filter. eapply (NoDup_fmap_1 target_location), (flat_nodup D HW).
  - apply (NoDup_fmap_1 target_location). rewrite <- list_fmap_compose. change (NoDup (location <$> (retired_runs ++ detached_in drops))).
    rewrite fmap_app. apply NoDup_app. split_and!.
    + eapply sublist_NoDup; [apply (dead_nodup D HW plan HP)|]. apply fmap_sublist, sublist_filter.
    + intros l (x & -> & Hx)%list_elem_of_fmap (y & Hl & [_ Hy]%list_elem_of_filter)%list_elem_of_fmap. by apply (drop_not_retired D HW plan HP y x).
    + eapply sublist_NoDup; [apply (drops_nodup D HW plan HP)|]. apply fmap_sublist, sublist_filter.
  - intros t. rewrite list_elem_of_filter, list_elem_of_fmap. split.
    + intros [Hg Ht]. apply elem_of_flat in Ht as (i & C & HC & Hin). apply elem_of_union in Hg as [(r & Hr & Hl)%elem_of_locations|(r & Hr & Hl)%elem_of_locations].
      * exists r. split; [|set_solver]. apply list_elem_of_filter in Hr as [_ Hr]. destruct (plan_target D HW plan HP r Hr) as (j & C' & HC' & Hin' & _).
        by destruct (class_disjoint D HW i j C C' t _ HC HC' Hin Hin').
      * exists r. split; [|set_solver]. apply list_elem_of_filter in Hr as [_ [Hr _]%elem_of_drops]. destruct (plan_target D HW plan HP r Hr) as (j & C' & HC' & Hin' & _).
        by destruct (class_disjoint D HW i j C C' t _ HC HC' Hin Hin').
    + intros (r & -> & Hr). assert (Hrp : r ∈ dead_runs plan).
      { apply elem_of_app in Hr as [[_ ?]%list_elem_of_filter|[_ [? _]%elem_of_drops]%list_elem_of_filter]; done. }
      destruct (plan_target D HW plan HP r Hrp) as (i & C & HC & Hin & _). split; [|apply elem_of_flat; by exists i, C].
      apply elem_of_union. apply elem_of_app in Hr as [Hr|Hr]; [left|right]; apply elem_of_locations; by exists r.
Qed.

Lemma fronted_count P : class_run_count (classes (after_sweep P)) = class_run_count (remove_runs gone <$> classes D).
Proof.
  rewrite !class_run_count_flat. f_equal. change (classes (after_sweep P)) with (fronted_classes before_publish (length (classes before_publish))).
  unfold fronted_classes. change (classes before_publish) with (remove_runs gone <$> classes D). generalize (length (remove_runs gone <$> classes D)) as n.
  generalize (remove_runs gone <$> classes D) as cs. intros cs n. generalize (finalization_batch before_publish) (arena before_publish). intros b B.
  assert (Hf : forall k, (imap (fun j C => if decide (k + j < n) then fronted C (first_available b B (class_runs C)) else C) cs) ≫= class_runs = cs ≫= class_runs).
  { induction cs as [|C cs IH]; intros k; [done|]. cbn [imap]. rewrite !bind_cons. f_equal; [by destruct (decide (k + 0 < n))|].
    rewrite <- (IH (S k)). f_equal. apply imap_ext. intros j C' _. cbn. by rewrite Nat.add_succ_r. }
  apply (Hf 0).
Qed.

Lemma assigned_after P : assigned_runs (allocation_pressure (after_sweep P)) = class_run_count (classes (after_sweep P)) + detached_run_count batch'.
Proof.
  rewrite fronted_count, detached_after, class_run_count_flat, remove_flat. change (assigned_runs (allocation_pressure (after_sweep P))) with (assigned_runs (allocation_pressure D) - length retired_runs).
  rewrite (hw_assigned _ HW), class_run_count_flat. pose proof (filter_split (fun t => target_location t ∈ gone) (classes D ≫= class_runs)) as Hs. rewrite gone_count in Hs. lia.
Qed.

(** ** The invariant *)
Lemma free_after l : l ∈ free_runs D ++ (location <$> retired_runs) -> exists r, run_of A5 l = Some r /\ header_is_empty (header r) = true.
Proof.
  intros [Hl|(r & -> & Hr)%list_elem_of_fmap]%elem_of_app.
  - destruct (hw_free _ HW l Hl) as (x & Hx & He).
    assert (Hnr : l ∉ locations retired_runs).
    { intros (r & Hr & <-)%elem_of_locations. apply list_elem_of_filter in Hr as [_ Hr]. destruct (plan_target D HW plan HP r Hr) as (i & C & HC & Hin & _).
      by apply (class_run_not_free D HW i C _ HC Hin). }
    destruct (run_after D plan A3 A4 A5 H3 H4 H5 l x Hnr Hx) as (x' & Hx' & Hh & _). exists x'. by rewrite Hh.
  - apply (run_after_retired D HW plan HP A3 A4 A5 H3 H4 H5). apply elem_of_locations. by exists r.
Qed.

Lemma heap_wf_after P : heap_wf (after_sweep P).
Proof.
  split.
  - apply (rc_wf _ _ _ _ H5).
  - change (classes (after_sweep P)) with (fronted_classes before_publish (length (classes before_publish))). unfold fronted_classes. rewrite length_imap.
    change (classes before_publish) with (remove_runs gone <$> classes D). rewrite length_fmap. apply (hw_ids _ HW).
  - intros i C'. apply class_wf_after.
  - done.
  - intros l F. apply batch_wf_after.
  - apply total_after.
  - change (running_finalizers D <= batch_pending batch'). rewrite installs_total. pose proof (hw_running _ HW). lia.
  - change (NoDup (free_runs D ++ (location <$> retired_runs))). apply NoDup_app. split_and!; [apply (hw_free_nodup _ HW)| |].
    + intros l Hl (r & -> & [_ Hr]%list_elem_of_filter)%list_elem_of_fmap. destruct (plan_target D HW plan HP r Hr) as (i & C & HC & Hin & _).
      by apply (class_run_not_free D HW i C _ HC Hin).
    + eapply sublist_NoDup; [apply (dead_nodup D HW plan HP)|]. apply fmap_sublist, sublist_filter.
  - intros l Hl. by apply free_after.
  - apply assigned_after.
Qed.

(** ** Objects *)
Lemma is_pending_after P o : owner_ok A o -> is_pending (after_sweep P) o = true <->
  is_pending D o = true \/ exists a m, object D a o m /\ needs_drop m = true /\ slot_marked A o = false.
Proof.
  intros HO. unfold is_pending at 1. change (finalization_batch (after_sweep P)) with batch'. rewrite (pending_after D HW plan HP HM o HO). split.
  - intros [?|(i & C & Hc & HC & Hg & Hrun & Hdrop & Hal & Hmk)]; [by left|right]. exists (owner_address o), (metadata C). split; [|done].
    pose proof (owner_lookup (E:=Empty_set) A (hw_arena _ HW) o HO) as [_ Hr]. assert (Hrange : in_range (owner_address o)) by (unfold in_range; lia).
    split; [done|]. split; [by apply slot_of_Some; [apply HW|..]|]. split; [done|]. exists i, C. split_and!; [by rewrite Hc, class_index_cid|done..].
  - intros [?|(a & m & (Hr & Ho & Hal & i & C & Hi & HC & Hg & Hrun & <-) & Hdrop & Hmk)]; [by left|right]. exists i, C.
    destruct (hw_class _ HW i C HC) as (_ & HL & _). pose proof Hrun as Hrun'. apply bool_decide_eq_true in Hrun' as (t & Ht & Hl)%HL.
    destruct (class_targets_ok D HW i C t HC Ht) as [[(x & Hx & Hcx & _) _] _]. destruct HO as [(x' & Hx' & Hcx' & _) _]. rewrite Hl in Hx.
    split; [congruence|]. split; [done|]. split; [done|]. split; [done|]. split; [done|done].
Qed.

(** The class and the run of an object. *)
Lemma object_run a o m : object D a o m -> owner_ok A o /\ owner_address o = a /\ slot_allocated A o = true /\
  exists i C t, classes D !! i = Some C /\ t ∈ class_runs C /\ target_location t = owner_location o /\ owner_class o = cid i /\
    owner_geometry o = class_geometry C /\ target_geometry t = class_geometry C /\ metadata C = m /\ contains_run C (owner_location o) = true.
Proof.
  intros HOb. destruct (object_owner D a o m (hw_arena _ HW) HOb) as [HO Ha]. destruct HOb as (Hr & Ho & Hal & i & C & Hi & HC & Hg & Hrun & <-).
  split; [done|]. split; [done|]. split; [done|]. destruct (hw_class _ HW i C HC) as (_ & HL & _). pose proof Hrun as Hrun'. apply bool_decide_eq_true in Hrun' as (t & Ht & Hl)%HL.
  destruct (class_targets_ok D HW i C t HC Ht) as [[(x & Hx & Hcx & _) _] Hgt]. destruct HO as [(x' & Hx' & Hcx' & _) _]. rewrite Hl in Hx.
  exists i, C, t. split_and!; [done|done|done|congruence|done|done|done|done].
Qed.

Lemma live_after P a o m : live_object (after_sweep P) a o m <-> live_object D a o m /\ slot_marked A o = true.
Proof.
  pose proof (heap_wf_after P) as HW'. split.
  - intros [HOb Hnp]. pose proof (object_owner _ a o m (hw_arena _ HW') HOb) as [HO' Ha]. change (arena (after_sweep P)) with A5 in HO'.
    apply (owner_after D HW plan HP A3 A4 A5 H3 H4 H5) in HO' as [HO Hnr]. destruct HOb as (Hr & _ & Hal & i & C' & Hi & HC' & Hg & Hrun & <-).
    pose proof HC' as (C & HC & _)%class_after. destruct (contains_after P i C C' (owner_location o) HC HC') as (Hcon & -> & Hgeo).
    rewrite Hcon in Hrun. apply andb_true_iff in Hrun as [Hrun Hng]. apply negb_true_iff, bool_decide_eq_false in Hng.
    destruct (hw_class _ HW i C HC) as (_ & HL & _). pose proof Hrun as Hrun'. apply bool_decide_eq_true in Hrun' as (t & Ht & Hl)%HL.
    change (slot_allocated A5 o = true) in Hal. rewrite (allocated_after D HW plan HP A3 A4 A5 H3 H4 H5 i C t o HC Ht) in Hal by (done || by rewrite Hl).
    apply andb_true_iff in Hal as [Hal Hdm].
    assert (HObj : object D a o (metadata C)).
    { split; [done|]. split; [by apply slot_of_Some; [apply HW|..]|]. split; [done|]. exists i, C. split_and!; [done|done|by rewrite <- Hgeo|done|done]. }
    assert (Hmk : slot_marked A o = true).
    { destruct (slot_marked A o) eqn:Em; [done|]. rewrite orb_false_r in Hdm. exfalso. apply not_true_iff_false in Hnp. apply Hnp.
      apply is_pending_after; [done|]. right. by exists a, (metadata C). }
    split; [|done]. split; [done|]. apply not_true_iff_false. intros Hp. apply not_true_iff_false in Hnp. apply Hnp, is_pending_after; [done|by left].
  - intros [[HOb Hnp] Hmk]. destruct (object_run a o m HOb) as (HO & Ha & Hal & i & C & t & HC & Ht & Hl & Hc & Hg & Hgt & <- & Hrun).
    assert (Hng : target_location t ∉ gone).
    { rewrite (gone_iff D HW plan HP i C t HC Ht). apply not_false_iff_true, existsb_slots. exists (owner_slot o). split; [destruct HO as (_ & _ & ?); by rewrite Hgt, <- Hg|].
      by rewrite Hl, live_at_owner, Hal, Hmk. }
    assert (HO' : owner_ok A5 o).
    { apply (owner_after D HW plan HP A3 A4 A5 H3 H4 H5). split; [done|]. rewrite <- Hl. by apply not_gone_retired. }
    split.
    + split; [apply HOb|]. split; [apply slot_of_Some; [apply HW'|apply HOb|done]|]. split.
      * change (slot_allocated A5 o = true). rewrite (allocated_after D HW plan HP A3 A4 A5 H3 H4 H5 i C t o HC Ht) by done. by rewrite Hal, Hmk, orb_true_r.
      * eexists i, _. split; [by rewrite Hc, class_index_cid|]. split; [apply class_after; by exists C|]. split; [done|]. split; [|done].
        rewrite <- Hl in Hrun |- *. unfold contains_run in *. cbn. apply bool_decide_eq_true. apply bool_decide_eq_true in Hrun. set_solver.
    + apply not_true_iff_false. intros [Hp|(a' & m' & _ & _ & Hmk')]%(is_pending_after P o HO); congruence.
Qed.

(** ** Words open for allocation *)
Lemma reserves_pending P i C t w : classes D !! i = Some C -> t ∈ class_runs C -> target_location t ∉ gone ->
  (Z.of_nat w < word_len (allocation_bitmap (target_geometry t)))%Z -> reserves_word batch' t w = true <-> word_pending (after_sweep P) t (cid i) w.
Proof.
  intros HC Ht Hng Hw. unfold reserves_word, word_pending, is_pending. change (finalization_batch (after_sweep P)) with batch'.
  destruct (batch_runs batch' !! target_location t) as [F|] eqn:EF.
  2:{ split; [done|]. intros (s & _ & _ & Hp). cbn in Hp. by rewrite EF in Hp. }
  pose proof (batch_wf_after P _ _ EF) as HB. destruct (bf_class _ _ _ _ HB) as (j & C' & Hj & HC' & _ & _ & Hgeo & Hcase).
  assert (HTF : run_target F = t /\ fr_class F = cid i).
  { apply (batch_cases D HW plan HP HM) in EF as [(r & k & C1 & ws & Hr & Hl & HPr & Hin & HI)|[_ EF]].
    - destruct (class_disjoint D HW k i C1 C _ t (dro_class _ _ _ _ _ _ HPr) HC Hin Ht Hl) as [-> Heq]. rewrite (io_target _ _ _ _ _ HI). split; [done|apply HI].
    - destruct (batch_attached D HW i C t F HC Ht EF) as (_ & ? & ? & _). done. }
  destruct HTF as [HTF Hcls]. rewrite bool_decide_true by done. cbn [andb].
  assert (Hiff : forall s, (0 <= s)%Z -> contains_owner F (run_owner t (cid i) s) = true <-> s ∈ pending_slots F).
  { intros s Hs. rewrite contains_owner_iff by (apply HB || done). unfold pending_owner, run_owner. rewrite HTF, Hcls. split; [by intros (s' & Hs' & [= ->])|by exists s]. }
  split.
  - destruct (pending_words F !! w) as [v|] eqn:Ev; [|done]. intros Hne%negb_true_iff%Z.eqb_neq. destruct (bf_words _ _ _ _ HB w v Ev) as [Hword _].
    destruct (trailing_zeros_spec v Hword Hne) as (Hr & Hb & _). set (s := (Z.of_nat w * 64 + trailing_zeros v)%Z). destruct (index_join w (trailing_zeros v) Hr) as [Hd Hm].
    assert (Hs : s ∈ pending_slots F).
    { apply elem_of_pending_slots; [apply HB|]. split; [lia|]. unfold pending_bit, s. by rewrite Hd, Hm, Nat2Z.id, Ev. }
    exists s. destruct (bf_pending _ _ _ _ HB s Hs) as [Hlt _]. rewrite HTF in Hlt. split; [lia|]. split; [unfold s; by rewrite Hd, Nat2Z.id|].
    cbn [owner_location run_owner]. rewrite EF. apply Hiff; [lia|done].
  - intros (s & Hs & <- & Hp). cbn [owner_location run_owner] in Hp. rewrite EF in Hp. apply Hiff in Hp; [|lia]. apply elem_of_pending_slots in Hp as [_ Hb]; [|apply HB].
    unfold pending_bit in Hb. destruct (pending_words F !! Z.to_nat (s / 64)) as [v|] eqn:Ev; [|done]. by destruct (bf_words _ _ _ _ HB _ _ Ev) as [_ ->%Z.eqb_neq].
Qed.

Lemma open_after P i C' t w : classes (after_sweep P) !! i = Some C' -> t ∈ class_runs C' -> (Z.of_nat w < word_len (allocation_bitmap (target_geometry t)))%Z ->
  word_open (after_sweep P) t w <-> word_free (after_sweep P) t (cid i) w /\ ~ word_pending (after_sweep P) t (cid i) w.
Proof.
  intros (C & HC & ->)%class_after [Hng Ht]%list_elem_of_filter Hw.
  assert (Hk : target_location t ∈ run_set kept_runs) by (apply elem_of_run_set; exists t; split; [apply elem_of_kept; by exists i, C|done]).
  destruct (rc_run _ _ _ _ H5 _ Hk) as (y & x' & Hy & Hx' & Hh & Hm & Ha & t' & Ht' & Hl' & Hlease).
  assert (t' = t) as ->.
  { apply elem_of_kept in Ht' as (j & C1 & HC1 & Ht' & _). by destruct (class_disjoint D HW j i C1 C t' t HC1 HC Ht' Ht Hl'). }
  specialize (Hlease w Hw). unfold word_open. change (arena (after_sweep P)) with A5. rewrite Hx'.
  assert (Hres := reserves_pending P i C t w HC Ht Hng Hw).
  assert (Hfree : word_has_free y (target_geometry t) w = true <-> word_free (after_sweep P) t (cid i) w).
  { unfold word_has_free, word_free, slot_allocated. change (arena (after_sweep P)) with A5. cbn [owner_location owner_slot run_owner]. rewrite Hx', Ha, existsb_elem. split.
    - intros (b & Hb%elem_of_bits64 & [Hlt%Z.ltb_lt Hf%negb_true_iff]%andb_true_iff). exists (Z.of_nat w * 64 + b)%Z. destruct (index_join w b Hb) as [-> _]. rewrite Nat2Z.id. split; [lia|done].
    - intros (s & Hs & <- & Hf). exists (s mod 64)%Z. rewrite elem_of_bits64, index_split by lia. split; [apply Z.mod_pos_bound; lia|]. by rewrite (proj2 (Z.ltb_lt _ _)), Hf by lia. }
  split.
  - intros (r & [= <-] & Hl). rewrite Hl in Hlease. symmetry in Hlease. apply negb_false_iff, andb_true_iff in Hlease as [Hnr%negb_true_iff Hf].
    split; [by apply Hfree|]. rewrite <- Hres, Hnr. done.
  - intros [Hf Hnp]. exists x'. split; [done|]. rewrite Hlease. apply negb_false_iff, andb_true_iff. split; [|by apply Hfree].
    apply negb_true_iff, not_true_iff_false. by rewrite Hres.
Qed.
End final.
