(* ===== verification/Collection.v ===== *)
(** * A collection ([run_synthetic_collection_with_mark_work] of
    [crates/glam-gc/src/heap.rs], up to the finalizers)

    [sweep_correct] states what a sweep does; [collection_correct] composes it
    with marking: after a collection the live objects are exactly the reachable
    ones, and the heap is ready for the next collection. *)
From stdpp Require Import base option list numbers gmap sets.
From Stdlib Require Import ZArith Lia.
From S2P Require Import Prelude RootPool RootPoolFacts RunGeometry Bitmaps Arena ArenaFacts Heap HeapFacts Marking MarkingFacts.
From S2P Require Import Sweep SweepFacts SweepPlan SweepTopology SweepArena SweepSteps SweepSafe SweepCorrect.

(** The data side of a collection: marking, then sweeping. *)
Definition collect_heap (trace_of : ObjectMetadata -> Z -> list Visit) (D : ManagedData) (pairs : Pairs) : M (ManagedData * Pairs) :=
  marked ← mark_heap trace_of D pairs;
  swept ← sweep_heap marked.1;
  Ok (swept, marked.2).

(** ** The sweep as a whole *)
Lemma sweep_heap_ok D P : heap_wf D -> (forall o, o ∈ pending_list (finalization_batch D) -> slot_marked (arena D) o = true) ->
  rebuild_free_lists (root_pool D) = Ok P ->
  exists plan A3 A4 A5, plan_ok D plan (classes D ≫= class_runs) /\
    runs_changed (arena D) A3 (locations (retired_runs plan)) recycled /\
    runs_changed A3 A4 (locations (swept_runs plan)) swept /\
    runs_changed A4 A5 (run_set ((remove_runs (gone plan) <$> classes D) ≫= class_runs))
      (published (installs D plan (drops plan)) ((remove_runs (gone plan) <$> classes D) ≫= class_runs)) /\
    sweep_heap D = Ok (after_sweep D plan A4 A5 P).
Proof.
  intros HW HM HPool. destruct (classify_ok (E:=Empty_set) D HW) as (plan & Hcl & HP). exists plan.
  destruct (recycle_ok (E:=Empty_set) D HW plan HP HM) as (A3 & Hrec & H3).
  destruct (sweep_ok (E:=Empty_set) D HW plan HP HM (after_recycle D plan (retired_runs plan) A3) A3 H3) as (A4 & Hsw & H4).
  set (B := before_publish D plan A4).
  assert (Hret : forall l, l ∉ gone plan -> l ∉ locations (retired_runs plan)) by (intros l; apply not_gone_retired).
  assert (Hids : (Z.of_nat (length (classes B)) < usize_max)%Z).
  { change (classes B) with (remove_runs (gone plan) <$> classes D). rewrite length_fmap. apply (hw_ids _ HW). }
  assert (HWB : forall i C, classes B !! i = Some C -> frontier_is_withdrawn C = true /\ NoDup (target_location <$> class_runs C) /\
      forall t, t ∈ class_runs C -> target_ok (arena B) t (cid i)).
  { intros i C'. change (classes B) with (remove_runs (gone plan) <$> classes D). rewrite list_lookup_fmap. destruct (classes D !! i) as [C|] eqn:HC; [|done].
    intros [= <-]. split; [done|]. destruct (hw_class _ HW i C HC) as (HT & _ & HN & _). split.
    - eapply sublist_NoDup; [exact HN|]. apply fmap_sublist, sublist_filter.
    - intros t [Hg Ht]%list_elem_of_filter. change (arena B) with A4. eapply changed_target; [exact H4|by intros _ x x' (? & _)|].
      eapply changed_target; [exact H3|intros Hin; by apply Hret in Hg|]. by apply HT. }
  destruct (publish_view_ok B (rc_wf _ _ _ _ H4) Hids HWB (E:=Empty_set)) as (A5 & Hpub & H5).
  exists A3, A4, A5. split; [done|]. split; [done|]. split; [done|]. split; [exact H5|]. unfold sweep_heap. rewrite Hcl. cbn [mbind outcome_bind].
    rewrite (prepare_ok (E:=Empty_set) D HW plan HP HM). cbn [mbind outcome_bind]. rewrite (retire_ok (E:=Empty_set) D HW plan HP HM). cbn [mbind outcome_bind].
    rewrite (install_ok (E:=Empty_set) D HW plan HP HM). cbn [mbind outcome_bind]. rewrite Hrec. cbn [mbind outcome_bind].
    change (after_recycle D plan (retired_runs plan) A3) with (with_arena (after_recycle D plan (retired_runs plan) A3) A3). rewrite Hsw. cbn [mbind outcome_bind].
    change (with_arena (after_recycle D plan (retired_runs plan) A3) A4) with B. rewrite Hpub. cbn [mbind outcome_bind].
    change (root_pool (with_classes (with_arena B A5) (fronted_classes B (length (classes B))))) with (root_pool D). rewrite HPool. done.
Qed.

(** The frontier of a class is its first run with an open word. *)
Definition frontier_ok (D : ManagedData) (C : AllocationClassEntry) : Prop :=
  let open t := exists w, (Z.of_nat w < word_len (allocation_bitmap (target_geometry t)))%Z /\ word_open D t w in
  match frontier_index C with
  | Some k => exists t, frontier C = Some t /\ class_runs C !! k = Some t /\ open t /\ forall j t', j < k -> class_runs C !! j = Some t' -> ~ open t'
  | None => frontier C = None /\ forall t, t ∈ class_runs C -> ~ open t
  end.

(** The slot can be handed out again: its run is free, or the slot is free and
    its word can be claimed. *)
Definition reusable (D : ManagedData) (o : RunOwner) : Prop :=
  owner_location o ∈ free_runs D \/
  exists i C t, classes D !! i = Some C /\ t ∈ class_runs C /\ target_location t = owner_location o /\
    slot_allocated (arena D) o = false /\ word_open D t (Z.to_nat (owner_slot o / 64)).

(** What a sweep does to a heap whose root pool becomes [P]. *)
Record swept_heap (D D' : ManagedData) (P : RootPool) : Prop := {
  sh_wf : heap_wf D';
  sh_pool : root_pool D' = P;
  sh_keys : class_key <$> classes D' = class_key <$> classes D;
  sh_metadata : classes_by_metadata D' = classes_by_metadata D;
  sh_running : running_finalizers D' = running_finalizers D;
  sh_live : forall a o m, live_object D' a o m <-> live_object D a o m /\ slot_marked (arena D) o = true;
  sh_pending : forall o, owner_ok (arena D) o -> is_pending D' o = true <->
    is_pending D o = true \/ exists a m, object D a o m /\ needs_drop m = true /\ slot_marked (arena D) o = false;
  sh_open : forall i C t w, classes D' !! i = Some C -> t ∈ class_runs C -> (Z.of_nat w < word_len (allocation_bitmap (target_geometry t)))%Z ->
    word_open D' t w <-> word_free D' t (cid i) w /\ ~ word_pending D' t (cid i) w;
  sh_frontier : forall i C, classes D' !! i = Some C -> frontier_ok D' C;
  sh_owner : forall o, owner_ok (arena D') o -> owner_ok (arena D) o;
  sh_reclaimed : forall a o m, object D a o m -> needs_drop m = false -> slot_marked (arena D) o = false -> reusable D' o;
}.

Lemma frontier_after D plan A3 A4 A5 P i C' : heap_wf D -> plan_ok D plan (classes D ≫= class_runs) ->
  runs_changed A4 A5 (run_set ((remove_runs (gone plan) <$> classes D) ≫= class_runs))
    (published (installs D plan (drops plan)) ((remove_runs (gone plan) <$> classes D) ≫= class_runs)) ->
  runs_changed (arena D) A3 (locations (retired_runs plan)) recycled ->
  classes (after_sweep D plan A4 A5 P) !! i = Some C' -> frontier_ok (after_sweep D plan A4 A5 P) C'.
Proof.
  intros HW HP H5 H3 (C & HC & ->)%class_after. set (b := installs D plan (drops plan)) in *. set (ts := class_runs (remove_runs (gone plan) C)).
  assert (Hav : forall t, t ∈ ts -> has_available b A4 t = true <->
      exists w, (Z.of_nat w < word_len (allocation_bitmap (target_geometry t)))%Z /\ word_open (after_sweep D plan A4 A5 P) t w).
  { intros t [Hg Ht]%list_elem_of_filter.
    assert (Hk : target_location t ∈ run_set ((remove_runs (gone plan) <$> classes D) ≫= class_runs)).
    { apply elem_of_run_set. exists t. split; [apply elem_of_kept; by exists i, C|done]. }
    destruct (rc_run _ _ _ _ H5 _ Hk) as (y & x' & Hy & Hx' & _ & _ & _ & t' & Ht' & Hl' & Hlease).
    assert (t' = t) as ->. { apply elem_of_kept in Ht' as (j & C1 & HC1 & Ht' & _). by destruct (class_disjoint D HW j i C1 C t' t HC1 HC Ht' Ht Hl'). }
    unfold has_available, word_open. change (arena (after_sweep D plan A4 A5 P)) with A5. rewrite Hy, Hx', existsb_elem. setoid_rewrite elem_of_word_indices. split.
    - intros (w & Hw & Ha). exists w. split; [done|]. exists x'. split; [done|]. rewrite (Hlease w Hw), Ha. done.
    - intros (w & Hw & r & [= <-] & Hl). exists w. split; [done|]. rewrite (Hlease w Hw) in Hl. by apply negb_false_iff in Hl. }
  unfold frontier_ok. cbn [fronted with_frontier frontier_index frontier class_runs]. fold ts. unfold first_available.
  destruct (list_find (fun t => has_available b A4 t = true) ts) as [[k t]|] eqn:Ef; cbn.
  - apply list_find_Some in Ef as (Hk & Ht & Hbefore). exists t. split; [done|]. split; [done|]. split; [apply Hav; [by eapply list_elem_of_lookup_2|done]|].
    intros j t' Hj Ht' Ho. apply (Hbefore j t' Ht' Hj). apply Hav; [by eapply list_elem_of_lookup_2|done].
  - split; [done|]. intros t Ht Ho. apply list_find_None in Ef. rewrite list.Forall_forall in Ef. apply (Ef t Ht). by apply Hav.
Qed.

(** The slots of a class whose values need no destructor are never pending. *)
Lemma no_drop_not_pending D i C t s : heap_wf D -> classes D !! i = Some C -> t ∈ class_runs C -> needs_drop (metadata C) = false ->
  is_pending D (run_owner t (cid i) s) = false.
Proof.
  intros HW HC Ht Hm. unfold is_pending. cbn [run_owner owner_location]. destruct (batch_runs (finalization_batch D) !! target_location t) as [F|] eqn:EF; [|done].
  destruct (batch_attached D HW i C t F HC Ht EF) as (_ & _ & _ & _ & Hn). congruence.
Qed.

Lemma reclaimed_after D plan A3 A4 A5 P a o m : heap_wf D -> plan_ok D plan (classes D ≫= class_runs) ->
  (forall o, o ∈ pending_list (finalization_batch D) -> slot_marked (arena D) o = true) ->
  runs_changed (arena D) A3 (locations (retired_runs plan)) recycled ->
  runs_changed A3 A4 (locations (swept_runs plan)) swept ->
  runs_changed A4 A5 (run_set ((remove_runs (gone plan) <$> classes D) ≫= class_runs))
    (published (installs D plan (drops plan)) ((remove_runs (gone plan) <$> classes D) ≫= class_runs)) ->
  object D a o m -> needs_drop m = false -> slot_marked (arena D) o = false -> reusable (after_sweep D plan A4 A5 P) o.
Proof.
  intros HW HP HM H3 H4 H5 HOb Hnd Hmk. pose proof (object_owner _ _ _ _ (hw_arena _ HW) HOb) as [HO _].
  destruct HOb as (_ & _ & _ & j & C & Hi & HC & Hg & Hrun & <-). apply bool_decide_eq_true in Hrun.
  destruct (hw_class _ HW j C HC) as (HT & HL & _). apply HL in Hrun as (t & Ht & Hloc). destruct (HT t Ht) as [HTt Hgeo].
  assert (Ho : o = run_owner t (cid j) (owner_slot o)).
  { destruct HTt as [(r & Hr & Hc & Hgr) Ha]. destruct HO as [(r' & Hr' & Hc' & Hgr') [Ha' _]]. rewrite Hloc in Hr, Ha. unfold run_owner.
    destruct o. cbn in *. congruence. }
  destruct (decide (target_location t ∈ gone plan)) as [Hgn|Hgn].
  - left. unfold gone in Hgn. apply elem_of_union in Hgn as [(r & Hr & Hl)%elem_of_locations|(r & Hr & Hl)%elem_of_locations].
    + change (owner_location o ∈ free_runs D ++ (location <$> retired_runs plan)). apply elem_of_app. right. apply list_elem_of_fmap. exists r. split; [congruence|done].
    + exfalso. apply list_elem_of_filter in Hr as [_ [Hr Hdr]%elem_of_drops]. destruct (dead_run_facts D HW plan HP r Hr) as (i & C' & ws & HPr & Hin & _).
      destruct (class_disjoint D HW i j C' C _ t (dro_class _ _ _ _ _ _ HPr) HC Hin Ht Hl) as [-> _].
      pose proof (dro_class _ _ _ _ _ _ HPr) as E. rewrite HC in E. injection E as <-.
      rewrite (dro_disposition _ _ _ _ _ _ HPr), (dro_metadata _ _ _ _ _ _ HPr), Hnd, orb_true_r in Hdr. done.
  - right. set (D' := after_sweep D plan A4 A5 P). assert (HW' : heap_wf D') by (by apply (heap_wf_after D HW plan HP HM A3 A4 A5)).
    set (C' := fronted (remove_runs (gone plan) C) (first_available (installs D plan (drops plan)) A4 (class_runs (remove_runs (gone plan) C)))).
    assert (HC' : classes D' !! j = Some C') by (apply class_after; by exists C).
    assert (Ht' : t ∈ class_runs C') by (by apply list_elem_of_filter).
    assert (Hal : slot_allocated (arena D') o = false).
    { change (slot_allocated A5 o = false). rewrite (allocated_after D HW plan HP A3 A4 A5 H3 H4 H5 j C t o) by done. by rewrite Hnd, Hmk, andb_false_r. }
    exists j, C', t. split_and!; [done..|]. pose proof HO as (_ & _ & Hs). rewrite Ho in Hs. cbn in Hs.
    pose proof (hw_arena _ HW) as WA. destruct HTt as [(r & Hr) _]. destruct (typed_wf (arena D) WA _ _ _ _ Hr) as [HG _].
    pose proof (geometry_facts _ HG) as (_ & _ & _ & _ & _ & Hwl & _). destruct (bitmap_index _ _ Hs) as [Hw _].
    apply (open_after D HW plan HP HM A3 A4 A5 H3 H4 H5 P j C' t); [done|done|lia|]. split.
    + exists (owner_slot o). split; [done|]. split; [done|]. fold D'. by rewrite <- Ho.
    + intros (s & _ & _ & Hpend). fold D' in Hpend. rewrite (no_drop_not_pending D' j C' t s HW' HC' Ht' Hnd) in Hpend. done.
Qed.

Lemma keys_after D plan A4 A5 P : class_key <$> classes (after_sweep D plan A4 A5 P) = class_key <$> classes D.
Proof.
  apply list_eq. intros i. rewrite !list_lookup_fmap. destruct (classes D !! i) as [C|] eqn:HC.
  - rewrite (proj2 (class_after D plan A4 A5 P i _) (ex_intro _ C (conj HC eq_refl))). done.
  - destruct (classes (after_sweep D plan A4 A5 P) !! i) as [C'|] eqn:HC'; [|done]. apply class_after in HC' as (C & HC1 & _). congruence.
Qed.

Lemma sweep_spec D P : heap_wf D -> (forall o, o ∈ pending_list (finalization_batch D) -> slot_marked (arena D) o = true) ->
  rebuild_free_lists (root_pool D) = Ok P -> exists D', sweep_heap D = Ok D' /\ swept_heap D D' P.
Proof.
  intros HW HM HPool. destruct (sweep_heap_ok D P HW HM HPool) as (plan & A3 & A4 & A5 & HP & H3 & H4 & H5 & Hs). eexists. split; [exact Hs|]. split.
  - by eapply heap_wf_after.
  - done.
  - by apply keys_after.
  - done.
  - done.
  - intros a o m. by eapply live_after.
  - intros o Ho. by eapply is_pending_after.
  - intros i C t w. by eapply open_after.
  - intros i C HC. by eapply frontier_after.
  - intros o Ho. by eapply owner_after in Ho as [].
  - intros a o m. by eapply reclaimed_after.
Qed.

(** ** Collections *)

(** The roots a collection starts from: the values of the registered roots. *)
Definition root_values (D : ManagedData) : list Z := (found_roots (root_pool D)).*2.

Section collection.
Context (trace_of : ObjectMetadata -> Z -> list Visit).

Definition reachable (D : ManagedData) (pairs : Pairs) : Z -> Prop := reach trace_of D pairs (root_values D).

(** A heap on which a collection may run: it is well formed, its roots are the
    handles [hs], and whatever tracing can reach is an object that waits for no
    destructor. *)
Record collectable (D : ManagedData) (pairs : Pairs) (hs : list (SlotRef * Z)) : Prop := {
  cl_heap : heap_wf D;
  cl_pool : pool_wf (root_pool D);
  cl_handles : handles_ok (root_pool D) hs;
  cl_refs : references_ok trace_of D pairs (root_values D) (pending_list (finalization_batch D));
}.

Lemma collectable_markable D pairs hs : collectable D pairs hs ->
  markable trace_of D pairs (root_values D) (pending_list (finalization_batch D)).
Proof.
  intros [HW HP HH HR]. split; [by apply HW|by apply (visit_ok _ hs)|by apply visit_pending_ok| |done].
  split; [by apply pending_list_nodup|]. intros o Ho. by apply (pending_owner_ok D HW).
Qed.

Lemma reachable_live D pairs hs a : collectable D pairs hs -> reachable D pairs a -> exists o m, live_object D a o m.
Proof.
  intros HC Ha. destruct (ref_live _ _ _ _ _ (cl_refs _ _ _ HC) a ltac:(by left)) as (o & m & HO & Hn). exists o, m. split; [done|].
  apply not_true_iff_false. intros Hp. apply Hn, (elem_of_pending_list D (cl_heap _ _ _ HC)). split; [|done].
  destruct (object_owner D a o m (hw_arena _ (cl_heap _ _ _ HC)) HO) as [(_ & _ & Hs) _]. lia.
Qed.

(** What a collection does to a heap. *)
Record collected_heap (D D' : ManagedData) (pairs pairs' : Pairs) : Prop := {
  ch_live : forall a o m, live_object D' a o m <-> live_object D a o m /\ reachable D pairs a;
  ch_pending : forall o, owner_ok (arena D) o -> is_pending D' o = true <->
    is_pending D o = true \/ exists a m, object D a o m /\ needs_drop m = true /\ ~ reachable D pairs a;
  ch_cleared : forall p, key_lost trace_of D pairs (root_values D) p -> pairs' !! p = Some (0, 0)%Z;
  ch_pairs : forall p, ~ key_lost trace_of D pairs (root_values D) p -> pairs' !! p = pairs !! p;
  ch_reclaimed : forall a o m, object D a o m -> needs_drop m = false -> ~ reachable D pairs a -> reusable D' o;
  ch_open : forall i C t w, classes D' !! i = Some C -> t ∈ class_runs C -> (Z.of_nat w < word_len (allocation_bitmap (target_geometry t)))%Z ->
    word_open D' t w <-> word_free D' t (cid i) w /\ ~ word_pending D' t (cid i) w;
  ch_frontier : forall i C, classes D' !! i = Some C -> frontier_ok D' C;
  ch_keys : class_key <$> classes D' = class_key <$> classes D;
  ch_metadata : classes_by_metadata D' = classes_by_metadata D;
  ch_running : running_finalizers D' = running_finalizers D;
}.

Lemma collect_heap_spec D pairs hs : collectable D pairs hs ->
  exists D' pairs' P, collect_heap trace_of D pairs = Ok (D', pairs') /\ heap_wf D' /\ root_pool D' = P /\ pool_wf P /\ handles_ok P hs /\
    rebuild_free_lists (root_pool D) = Ok P /\ collected_heap D D' pairs pairs' /\ (forall a o m, live_object D a o m -> reachable D pairs a \/ ~ reachable D pairs a).
Proof.
  intros HC. pose proof HC as [HW HP HH HR]. destruct (mark_heap_spec _ _ _ _ _ (collectable_markable _ _ _ HC)) as (D1 & pairs' & Hmark & HD1 & WA1 & RM & HM & Hlost & Hkeep).
  assert (HW1 : heap_wf D1) by (rewrite HD1; by apply heap_wf_slots, remarked_slots).
  assert (Hob : forall a o m, object D1 a o m <-> object D a o m) by (intros a o m; rewrite HD1; apply object_slots; [by apply HW|done|by apply remarked_slots]).
  assert (Hbatch : finalization_batch D1 = finalization_batch D) by (by rewrite HD1).
  assert (Hpend : forall o, is_pending D1 o = is_pending D o) by (intros o; unfold is_pending; by rewrite Hbatch).
  assert (Hown : forall o, owner_ok (arena D) o -> owner_ok (arena D1) o) by (intros o; apply same_headers_owner; by apply remarked_headers).
  assert (Hmarks : forall a o m, object D a o m -> slot_marked (arena D1) o = true <-> reachable D pairs a \/ o ∈ pending_list (finalization_batch D)).
  { intros a o m HO. destruct (object_owner D a o m (hw_arena _ HW) HO) as [HOo <-]. by apply HM. }
  destruct (rebuild_free_lists_spec (root_pool D) HP) as (P & HPool & WP & HK & _).
  destruct (sweep_spec D1 P) as (D' & Hsweep & HS); [done| |by rewrite HD1|].
  { intros o Ho. rewrite Hbatch in Ho. apply HM; [by apply (pending_owner_ok D HW)|by right]. }
  exists D', pairs', P. unfold collect_heap. rewrite Hmark. cbn [mbind outcome_bind fst snd]. rewrite Hsweep. cbn [mbind outcome_bind].
  split; [done|]. split; [apply HS|]. split; [apply HS|]. split; [done|]. split; [by apply HK|]. split; [done|].
  assert (Hunmarked : forall a o m, object D a o m -> ~ reachable D pairs a -> is_pending D o = true \/ slot_marked (arena D1) o = false).
  { intros a o m HO Hn. destruct (slot_marked (arena D1) o) eqn:Em; [|by right]. left. apply (Hmarks a o m HO) in Em as [?|Hin]; [done|].
    by apply (elem_of_pending_list D HW) in Hin as [_ ?]. }
  split.
  - split.
    + intros a o m. rewrite (sh_live _ _ _ HS). unfold live_object. rewrite Hob, Hpend. split.
      * intros [[HO Hp] Hm]. split; [done|]. apply (Hmarks a o m HO) in Hm as [?|Hin]; [done|].
        apply (elem_of_pending_list D HW) in Hin as [_ Hin]. congruence.
      * intros [[HO Hp] Hr]. split; [done|]. apply (Hmarks a o m HO). by left.
    + intros o HO. rewrite (sh_pending _ _ _ HS) by auto. rewrite Hpend. split.
      * intros [?|(a & m & HOb & Hd & Hm)]; [by left|right]. exists a, m. rewrite Hob in HOb. split; [done|]. split; [done|].
        intros Hr. assert (slot_marked (arena D1) o = true) by (apply (Hmarks a o m HOb); by left). congruence.
      * intros [?|(a & m & HOb & Hd & Hr)]; [by left|]. destruct (Hunmarked a o m HOb Hr) as [?|Hm]; [by left|right]. exists a, m. by rewrite Hob.
    + done.
    + done.
    + intros a o m HO Hd Hr. apply (sh_reclaimed _ _ _ HS a o m); [by apply Hob|done|]. destruct (Hunmarked a o m HO Hr) as [Hp|]; [|done]. exfalso.
      pose proof HO as (_ & _ & _ & j & C & Hi & HCl & Hg & Hrun & <-). apply bool_decide_eq_true in Hrun.
      destruct (hw_class _ HW j C HCl) as (_ & HL & _). apply HL in Hrun as (t & Ht & Hloc). unfold is_pending in Hp. rewrite <- Hloc in Hp.
      destruct (batch_runs (finalization_batch D) !! target_location t) as [F|] eqn:EF; [|done].
      destruct (batch_attached D HW j C t F HCl Ht EF) as (_ & _ & _ & _ & Hn). congruence.
    + apply HS.
    + apply HS.
    + rewrite (sh_keys _ _ _ HS). by rewrite HD1.
    + rewrite (sh_metadata _ _ _ HS). by rewrite HD1.
    + rewrite (sh_running _ _ _ HS). by rewrite HD1.
  - intros a o m [HO Hp]. destruct (slot_marked (arena D1) o) eqn:Em.
    + left. apply (Hmarks a o m HO) in Em as [?|Hin]; [done|]. apply (elem_of_pending_list D HW) in Hin as [_ Hin]. congruence.
    + right. intros Ha. assert (slot_marked (arena D1) o = true) by (apply (Hmarks a o m HO); by left). congruence.
Qed.

(** Collected heaps keep what can be reached. *)
Lemma collected_reachable D D' pairs pairs' hs : collectable D pairs hs -> collected_heap D D' pairs pairs' ->
  (forall a, a ∈ root_values D' <-> a ∈ root_values D) -> forall a, reachable D' pairs' a <-> reachable D pairs a.
Proof.
  intros HC HK Hroots.
  assert (Hob : forall a o m, reachable D pairs a -> object D' a o m <-> object D a o m).
  { intros a o m Ha. destruct (reachable_live D pairs hs a HC Ha) as (o1 & m1 & HL). pose proof (proj2 (ch_live _ _ _ _ HK a o1 m1) (conj HL Ha)) as [HO' _].
    destruct HL as [HO _]. split; intros H.
    - by destruct (object_unique _ _ _ _ _ _ HO' H) as [-> ->].
    - by destruct (object_unique _ _ _ _ _ _ HO H) as [-> ->]. }
  intros a. split; induction 1 as [a Ha|a o m b Hra IH HO Hx|a o m p key v Hra IH HO Hx Hl Hrk IHk].
  - apply reach_root. by apply Hroots.
  - eapply reach_edge; [exact IH|by apply Hob|done].
  - assert (HO0 : object D a o m) by (by apply Hob). assert (Hh : held trace_of D pairs (root_values D) p) by (exists a, o, m; done).
    eapply reach_ephemeron; [exact IH|done..| |exact IHk].
    unfold load_pair in *. rewrite (ch_pairs _ _ _ _ HK p) in Hl; [done|]. intros Hlost. pose proof Hlost as (_ & k & v' & Hl' & Hk).
    rewrite (ch_cleared _ _ _ _ HK p Hlost) in Hl. done.
  - apply reach_root. by apply Hroots.
  - eapply reach_edge; [exact IH|by apply Hob|done].
  - eapply reach_ephemeron; [exact IH|by apply Hob|done| |exact IHk].
    unfold load_pair. rewrite (ch_pairs _ _ _ _ HK p); [done|]. intros (_ & k & v' & Hl' & Hk). rewrite Hl in Hl'. by simplify_eq.
Qed.

Lemma root_values_same D D' hs : handles_ok (root_pool D) hs -> handles_ok (root_pool D') hs -> forall a, a ∈ root_values D' <-> a ∈ root_values D.
Proof.
  intros H H' a. destruct (visit_ok _ _ H) as (_ & HV & _). destruct (visit_ok _ _ H') as (_ & HV' & _). unfold root_values.
  rewrite !list_elem_of_fmap. split; intros (h & -> & Hh); exists h; (split; [done|]); [apply HV, HV'|apply HV', HV]; done.
Qed.

Lemma collected_collectable D D' pairs pairs' hs : collectable D pairs hs -> collected_heap D D' pairs pairs' ->
  (forall a o m, live_object D a o m -> reachable D pairs a \/ ~ reachable D pairs a) ->
  heap_wf D' -> pool_wf (root_pool D') -> handles_ok (root_pool D') hs -> collectable D' pairs' hs.
Proof.
  intros HC HK HDec HW' HP' HH'. pose proof (collected_reachable D D' pairs pairs' hs HC HK (root_values_same D D' hs (cl_handles _ _ _ HC) HH')) as Hiff.
  assert (Hheld : forall p, held trace_of D' pairs' (root_values D') p -> held trace_of D pairs (root_values D) p).
  { intros p (a & o & m & Ha & HO & Hx). exists a, o, m. apply Hiff in Ha. split; [done|]. split; [|done].
    destruct (reachable_live D pairs hs a HC Ha) as (o1 & m1 & HL). destruct (proj2 (ch_live _ _ _ _ HK a o1 m1) (conj HL Ha)) as [HO' _].
    destruct (object_unique _ _ _ _ _ _ HO' HO) as [-> ->]. apply HL. }
  assert (Hkept : forall p, held trace_of D pairs (root_values D) p ->
    load_pair pairs' p = Ok None \/ (load_pair pairs' p = load_pair pairs p /\ forall key v, load_pair pairs p = Ok (Some (key, v)) -> reachable D pairs key)).
  { intros p Hp. destruct (ref_pair _ _ _ _ _ (cl_refs _ _ _ HC) p Hp) as ([[key v]|] & Hl).
    - assert (Hkey : referenced trace_of D pairs (root_values D) key) by (right; exists p, key, v; auto).
      destruct (ref_live _ _ _ _ _ (cl_refs _ _ _ HC) key Hkey) as (o & m & HO & Hn).
      assert (Hlive : live_object D key o m).
      { split; [done|]. apply not_true_iff_false. intros Hpd. apply Hn, (elem_of_pending_list D (cl_heap _ _ _ HC)). split; [|done].
        destruct (object_owner D key o m (hw_arena _ (cl_heap _ _ _ HC)) HO) as [(_ & _ & Hs) _]. lia. }
      destruct (HDec key o m Hlive) as [Hr|Hr].
      + right. split; [|intros k v' H; congruence]. unfold load_pair. rewrite (ch_pairs _ _ _ _ HK p); [done|].
        intros (_ & k & v' & Hl' & Hk). rewrite Hl in Hl'; by simplify_eq.
      + left. assert (Hlost : key_lost trace_of D pairs (root_values D) p) by (split; [done|]; exists key, v; done).
        unfold load_pair. by rewrite (ch_cleared _ _ _ _ HK p Hlost).
    - right. split; [|intros k v' H; congruence]. unfold load_pair. rewrite (ch_pairs _ _ _ _ HK p); [done|].
      intros (_ & k & v' & Hl' & Hk). congruence. }
  split; [done..|]. split.
  - intros a Ha. assert (Hr : reachable D pairs a).
    { destruct Ha as [Ha|(p & key & v & Hp & Hl & Hor)]; [by apply Hiff|]. pose proof (Hheld p Hp) as Hp0. destruct (Hkept p Hp0) as [Hn|[Hs Hk]]; [by rewrite Hn in Hl|].
      rewrite Hs in Hl. pose proof (Hk _ _ Hl) as Hrk. destruct Hor as [-> | ->]; [done|]. destruct Hp0 as (b & o & m & Hb & HO & Hx). eapply (reach_ephemeron _ _ _ _ b o m p key v); done. }
    destruct (reachable_live D pairs hs a HC Hr) as (o & m & HL). destruct (proj2 (ch_live _ _ _ _ HK a o m) (conj HL Hr)) as [HO' Hp']. exists o, m.
    split; [done|]. intros Hin. apply (elem_of_pending_list D' HW') in Hin as [_ Hin]. congruence.
  - intros p Hp. apply Hheld in Hp. destruct (Hkept p Hp) as [Hn|[Hs _]]; [by exists None|]. rewrite Hs. by apply (ref_pair _ _ _ _ _ (cl_refs _ _ _ HC)).
Qed.

(** Marking ends without a panic; it marks the slots of the reachable
    objects and of those whose destructors are pending and no other, changes
    nothing else of the heap, and clears exactly the reached ephemerons whose
    keys are not reachable. *)
Theorem marking_correct D pairs hs : collectable D pairs hs ->
  exists D' pairs', mark_heap trace_of D pairs = Ok (D', pairs') /\ D' = with_arena D (arena D') /\ remarked (arena D) (arena D') /\
    (forall o, owner_ok (arena D) o -> slot_marked (arena D') o = true <->
       reachable D pairs (owner_address o) \/ o ∈ pending_list (finalization_batch D)) /\
    (forall p, key_lost trace_of D pairs (root_values D) p -> pairs' !! p = Some (0, 0)%Z) /\
    (forall p, ~ key_lost trace_of D pairs (root_values D) p -> pairs' !! p = pairs !! p).
Proof.
  intros HC. destruct (mark_heap_spec _ _ _ _ _ (collectable_markable _ _ _ HC)) as (D' & pairs' & H1 & H2 & _ & H3). by exists D', pairs'.
Qed.

(** C9. A collection ends without a panic on a heap that is well formed and
    referentially closed, and leaves it so: exactly the reachable objects stay
    live, the dead ones wait for their destructor or, needing none, are freed,
    and the free words of each class are open for allocation. *)
Theorem collection_correct D pairs hs : collectable D pairs hs ->
  exists D' pairs', collect_heap trace_of D pairs = Ok (D', pairs') /\ collectable D' pairs' hs /\ collected_heap D D' pairs pairs' /\
    forall a, reachable D' pairs' a <-> reachable D pairs a.
Proof.
  intros HC. destruct (collect_heap_spec D pairs hs HC) as (D' & pairs' & P & Hcol & HW' & <- & HP' & HH' & _ & HK & HDec). exists D', pairs'.
  split; [done|]. split; [by eapply collected_collectable|]. split; [done|].
  apply (collected_reachable D D' pairs pairs' hs HC HK). by apply (root_values_same D D' hs); [apply HC|].
Qed.

(** C30. What a collection finds dead is reclaimed: an unreachable object stays
    unreachable; if it has a destructor it waits for it, and otherwise its slot
    can be handed out again and no object lives at its address. *)
Theorem garbage_reclaimed D pairs hs a o m : collectable D pairs hs -> object D a o m -> ~ reachable D pairs a ->
  exists D' pairs', collect_heap trace_of D pairs = Ok (D', pairs') /\ ~ reachable D' pairs' a /\
    (if needs_drop m then is_pending D' o = true else reusable D' o /\ ~ exists o' m', live_object D' a o' m').
Proof.
  intros HC HO Hn. destruct (collect_heap_spec D pairs hs HC) as (D' & pairs' & P & Hcol & HW' & <- & HP' & HH' & _ & HK & HDec). exists D', pairs'.
  split; [done|]. split.
  - rewrite (collected_reachable D D' pairs pairs' hs HC HK); [done|]. by apply (root_values_same D D' hs); [apply HC|].
  - destruct (needs_drop m) eqn:Em.
    + apply (ch_pending _ _ _ _ HK); [by apply (object_owner D a o m (hw_arena _ (cl_heap _ _ _ HC)))|]. right. by exists a, m.
    + split; [by eapply (ch_reclaimed _ _ _ _ HK)|]. intros (o' & m' & [_ Hr]%(ch_live _ _ _ _ HK)). done.
Qed.
End collection.
