(* ===== verification/Claim.v ===== *)
(** * Claiming and using an allocation word
    ([RunClaimTarget::claim_allocation_word] of [crates/glam-gc/src/arena.rs],
    [AllocationCursor] of [thread_cache.rs])

    A thread leases one word of a run's allocation bitmap with a compare-exchange
    on the lease bitmap, then hands out the free slots of the word without
    synchronization. [claim_step] and [cursor_step] are the atomic actions: a load
    or a compare-exchange of one word, which may fail spuriously, or a store.
    [claim_allocation_word] and [try_allocate] run them without interference. A
    run's memory is found at the location of the claim's target. *)
From stdpp Require Import base option list numbers.
From Stdlib Require Import ZArith Lia.
From S2P Require Import Prelude RunGeometry Bitmaps Arena.
Local Open Scope Z_scope.

(** ** Data *)
Record ClaimedAllocationWord := MkClaimed {
  claimed_location : RunLocation;
  claimed_run : Z;
  claimed_geometry : RunGeometry;
  claimed_word : nat;
  claimed_mask : Z;
}.

Record AllocationCursor := MkCursor {
  cursor_class : AllocationClassId;
  cursor_location : RunLocation;
  cursor_run : Z;
  cursor_geometry : RunGeometry;
  cursor_word : nat;
  free_mask : Z;
}.

Definition allocation_cursor (cls : AllocationClassId) (c : ClaimedAllocationWord) : AllocationCursor :=
  MkCursor cls (claimed_location c) (claimed_run c) (claimed_geometry c) (claimed_word c) (claimed_mask c).

(** ** Claiming *)

(** Where a claim is: before the load of lease word [j]; with the word it
    observed; with the word [i] it leased, before the load of its free mask; at
    its end. *)
Inductive ClaimState :=
  | ClaimLoad (j : nat)
  | ClaimTry (j : nat) (observed : Z)
  | ClaimMask (j : nat) (observed : Z) (i : nat)
  | ClaimFound (i : nat) (free : Z)
  | ClaimNone.

Definition with_leases (r : Run) (ws : list Z) : Run := MkRun (header r) (allocation r) ws (marks r).
Definition with_allocation (r : Run) (ws : list Z) : Run := MkRun (header r) ws (leases r) (marks r).

Section claim.
Context (g : RunGeometry).

Definition claim_step {E} (spurious : bool) (r : Run) (st : ClaimState) : outcome E (Run * ClaimState) :=
  match st with
  | ClaimLoad j =>
      if (Z.of_nat j <? word_len (lease_bitmap g))%Z then
        observed ← read_word (lease_bitmap g) (leases r) j;
        Ok (r, ClaimTry j observed)
      else Ok (r, ClaimNone)
  | ClaimTry j observed =>
      let candidates := not64 observed in
      if candidates =? 0 then Ok (r, ClaimLoad (S j)) else
      let b := trailing_zeros candidates in
      let i := (j * 64 + Z.to_nat b)%nat in
      if bit_len (lease_bitmap g) <=? Z.of_nat i then Ok (r, ClaimLoad (S j)) else
      actual ← read_word (lease_bitmap g) (leases r) j;
      if (actual =? observed) && negb spurious then
        ws ← write_word (lease_bitmap g) (leases r) j (Z.lor observed (bit b));
        Ok (with_leases r ws, ClaimMask j (Z.lor observed (bit b)) i)
      else Ok (r, ClaimTry j actual)
  | ClaimMask j observed i =>
      free ← free_mask_for_word r g i;
      if free =? 0 then Ok (r, ClaimTry j observed) else Ok (r, ClaimFound i free)
  | ClaimFound _ _ | ClaimNone => Ok (r, st)
  end.

Fixpoint claim_loop {E} (fuel : nat) (r : Run) (st : ClaimState) : outcome E (Run * option (nat * Z)) :=
  match fuel with
  | O => OutOfFuel
  | S fuel =>
      match st with
      | ClaimFound i free => Ok (r, Some (i, free))
      | ClaimNone => Ok (r, None)
      | _ => rs ← claim_step false r st; claim_loop fuel rs.1 rs.2
      end
  end.

(** A lease word takes a load, at most 64 exchanges with their masks, and a last
    look. *)
Definition claim_fuel : nat := Z.to_nat (word_len (lease_bitmap g)) * 130 + 3.

Definition claim_in_run {E} (r : Run) : outcome E (Run * option (nat * Z)) := claim_loop claim_fuel r (ClaimLoad 0).

(** ** Allocating from a cursor *)

(** Before the load of the allocation word; before the store. *)
Inductive CursorState :=
  | CursorReady
  | CursorStore (current : Z).

(** One action of [try_allocate_with] for a payload of the given layout, on word
    [i] with free mask [mask]: [None] when the mask is empty, otherwise the next
    state and mask, with the slot once its bit is published. *)
Definition cursor_step {E} (payload : Layout) (run : Z) (r : Run) (i : nat) (mask : Z) (st : CursorState)
    : outcome E (option (Run * Z * CursorState * option Z)) :=
  if mask =? 0 then Ok None else
  let b := trailing_zeros mask in
  let slot := Z.of_nat i * 64 + b in
  match st with
  | CursorReady =>
      offset ← expect (slot_offset g slot);
      _ ← rust_assert (size payload <=? slot_stride g);
      _ ← rust_assert ((run + offset) mod align payload =? 0);
      current ← read_word (allocation_bitmap g) (allocation r) i;
      _ ← rust_assert (Z.land current (bit b) =? 0);
      Ok (Some (r, mask, CursorStore current, None))
  | CursorStore current =>
      ws ← write_word (allocation_bitmap g) (allocation r) i (Z.lor current (bit b));
      Ok (Some (with_allocation r ws, Z.land mask (not64 (bit b)), CursorReady, Some slot))
  end.

Definition allocate_in_run {E} (payload : Layout) (run : Z) (r : Run) (i : nat) (mask : Z) : outcome E (option (Run * Z * Z)) :=
  loaded ← cursor_step payload run r i mask CursorReady;
  match loaded with
  | None => Ok None
  | Some (r, mask, st, _) =>
      stored ← cursor_step payload run r i mask st;
      match stored with
      | Some (r, mask, _, Some slot) => Ok (Some (r, mask, slot))
      | _ => Panic
      end
  end.
End claim.

(** ** On the arena *)
Definition target_memory {E} (A : Arena) (l : RunLocation) : outcome E Run :=
  c ← expect (arena_chunks A !! loc_chunk l);
  expect (runs c !! loc_run l).

Definition claim_allocation_word {E} (A : Arena) (t : RunClaimTarget) : outcome E (Arena * option ClaimedAllocationWord) :=
  r ← target_memory A (target_location t);
  rc ← claim_in_run (target_geometry t) r;
  Ok (put_run A (target_location t) rc.1,
      match rc.2 with
      | Some (i, free) => Some (MkClaimed (target_location t) (target_run t) (target_geometry t) i free)
      | None => None
      end).

(** [AllocationCursor::try_allocate]: the address of the slot, if the cursor has
    one left. *)
Definition try_allocate {E} (payload : Layout) (A : Arena) (c : AllocationCursor) : outcome E (Arena * AllocationCursor * option Z) :=
  r ← target_memory A (cursor_location c);
  allocated ← allocate_in_run (cursor_geometry c) payload (cursor_run c) r (cursor_word c) (free_mask c);
  match allocated with
  | None => Ok (A, c, None)
  | Some (r, mask, slot) =>
      offset ← expect (slot_offset (cursor_geometry c) slot);
      Ok (put_run A (cursor_location c) r,
          MkCursor (cursor_class c) (cursor_location c) (cursor_run c) (cursor_geometry c) (cursor_word c) mask,
          Some (cursor_run c + offset))
  end.
