(* ===== verification/ClaimFacts.v ===== *)
(** * Claims lease each word once, cursors hand out each slot once

    Without interference a claim leases the first word that is not leased and has
    a free slot, and the words it passes are full. Under any interleaving of
    threads that claim words of one run and allocate from them, no slot is handed
    out twice. *)
From stdpp Require Import base option list numbers.
From Stdlib Require Import ZArith Lia.
From S2P Require Import Prelude RunGeometry Bitmaps Arena ArenaFacts HeapFacts SweepFacts SweepArena Claim.
Local Open Scope Z_scope.

(** ** Lease words *)
Section lease.
Context (g : RunGeometry) (HG : geometry_wf g).
Notation n := (word_len (allocation_bitmap g)).

Lemma lease_geometry : bit_len (lease_bitmap g) = n /\ word_len (lease_bitmap g) = bitmap_words n /\ 0 < n /\ n = bitmap_words (slot_count g).
Proof.
  pose proof (geometry_facts g HG) as (_ & H1 & _ & _ & _ & H2 & H3 & H4 & _). rewrite H3, H4, H2. split_and!; [done..| |done].
  pose proof (bitmap_words_bounds (slot_count g)). lia.
Qed.

Lemma lease_index_of i : Z.of_nat i < n -> Z.of_nat (i / 64) < word_len (lease_bitmap g) /\ Z.to_nat (Z.of_nat i / 64) = (i / 64)%nat /\
  Z.of_nat i mod 64 = Z.of_nat (i mod 64) /\ 0 <= Z.of_nat i mod 64 < 64.
Proof.
  intros Hi. destruct lease_geometry as (_ & -> & Hn & _). destruct (bitmap_index n (Z.of_nat i) ltac:(lia)) as [H1 H2].
  assert (E : Z.of_nat i / 64 = Z.of_nat (i / 64)) by (rewrite Nat2Z.inj_div; done). rewrite E, Nat2Z.id in *.
  split_and!; [done|done| |lia..]. by rewrite Nat2Z.inj_mod.
Qed.

Lemma leased_word_at r i w : leases r !! (i / 64)%nat = Some w -> leased_word r i = Z.testbit w (Z.of_nat (i mod 64)).
Proof.
  intros Hw. unfold leased_word, slot_bit. change 64 with (Z.of_nat 64). rewrite <- Nat2Z.inj_div, Nat2Z.id, <- Nat2Z.inj_mod. by rewrite Hw.
Qed.

(** The candidate of a claim: the lowest clear bit. *)
Lemma candidate_spec observed : is_word observed -> not64 observed <> 0 ->
  let b := trailing_zeros (not64 observed) in
  0 <= b < 64 /\ Z.testbit observed b = false /\ forall m, 0 <= m < b -> Z.testbit observed m = true.
Proof.
  intros Hw Hne. destruct (trailing_zeros_spec (not64 observed)) as (H1 & H2 & H3); [by apply not64_word|done|].
  split; [done|]. rewrite not64_spec in H2 by done. split; [by apply negb_true_iff|]. intros m Hm. specialize (H3 m Hm).
  rewrite not64_spec in H3 by (done || lia). by apply negb_false_iff.
Qed.

Lemma no_candidate observed : is_word observed -> not64 observed = 0 -> forall m, 0 <= m < 64 -> Z.testbit observed m = true.
Proof. intros Hw H m Hm. pose proof (not64_spec observed m Hw Hm) as E. rewrite H, Z.bits_0 in E. by destruct (Z.testbit observed m). Qed.

Lemma word_of_index j b : 0 <= b < 64 -> ((j * 64 + Z.to_nat b) / 64 = j /\ (j * 64 + Z.to_nat b) mod 64 = Z.to_nat b)%nat.
Proof.
  intros Hb. rewrite (Nat.add_comm (j * 64)). split; [rewrite Nat.div_add by lia; rewrite Nat.div_small; lia|].
  rewrite Nat.Div0.mod_add. apply Nat.mod_small. lia.
Qed.

(** Leasing the candidate of word [j]. *)
Lemma lease_word_ok {E} r j w b : bitmaps_ok g r -> leases r !! j = Some w -> 0 <= b < 64 -> Z.of_nat (j * 64 + Z.to_nat b) < n ->
  exists ws, write_word (E:=E) (lease_bitmap g) (leases r) j (Z.lor w (bit b)) = Ok ws /\ bitmaps_ok g (with_leases r ws) /\
    ws !! j = Some (Z.lor w (bit b)) /\
    forall k, leased_word (with_leases r ws) k = leased_word r k || (k =? j * 64 + Z.to_nat b)%nat.
Proof.
  intros (HA & HL & HM) Hw Hb Hi. destruct (word_of_index j b Hb) as [Hd Hm]. destruct (lease_index_of _ Hi) as (Hlt & Hto & Hmod & _). rewrite Hd in *.
  assert (Hword : is_word w) by (eapply Forall_lookup_1; [apply HL|done]).
  destruct (write_word_ok (E:=E) _ _ j (Z.lor w (bit b)) HL Hlt) as [Hwr HL']; [by apply lor_word, bit_word|]. eexists. split; [exact Hwr|].
  split; [done|]. pose proof (lookup_lt_Some _ _ _ Hw) as Hlen. split; [by apply list_lookup_insert_eq|].
  intros k. unfold leased_word. cbn [leases with_leases].
  pose proof (set_bit_slots (leases r) (Z.of_nat (j * 64 + Z.to_nat b)) (Z.of_nat k) w ltac:(lia) ltac:(lia)) as H. rewrite Hto, Hmod, Hm, Z2Nat.id in H by lia.
  rewrite (H Hw Hword), orb_comm. f_equal. destruct (Z.eqb_spec (Z.of_nat k) (Z.of_nat (j * 64 + Z.to_nat b))), (Nat.eqb_spec k (j * 64 + Z.to_nat b)); lia || done.
Qed.

(** ** A claim without interference *)

(** [r] is [r0] with the words below [p] leased. *)
Record leased_below (r0 r : Run) (p : nat) : Prop := {
  lb_bitmaps : bitmaps_ok g r;
  lb_header : header r = header r0;
  lb_allocation : allocation r = allocation r0;
  lb_marks : marks r = marks r0;
  lb_leases : forall k, Z.of_nat k < n -> leased_word r k = leased_word r0 k || (k <? p)%nat;
}.

(** The words below [p] offer nothing. *)
Definition exhausted (r : Run) (p : nat) : Prop := forall k, (k < p)%nat -> Z.of_nat k < n -> leased_word r k = true \/ word_has_free r g k = false.

Definition claim_result {E} (r0 r : Run) (res : option (nat * Z)) : Prop :=
  match res with
  | Some (i, free) => Z.of_nat i < n /\ leased_word r0 i = false /\ word_has_free r0 g i = true /\ free_mask_for_word (E:=E) r0 g i = Ok free /\
      exhausted r0 i /\ leased_below r0 r (S i)
  | None => exhausted r0 (Z.to_nat n) /\ leased_below r0 r (Z.to_nat n)
  end.

Lemma leased_below_ext r0 r p q : leased_below r0 r p -> (p <= q)%nat ->
  (forall k, Z.of_nat k < n -> (p <= k < q)%nat -> leased_word r0 k = true) -> leased_below r0 r q.
Proof.
  intros [H1 H2 H3 H4 H5] Hpq Hq. split; try done. intros k Hk. rewrite H5 by done. specialize (Hq k Hk).
  destruct (Nat.ltb_spec k p), (Nat.ltb_spec k q); try done; try lia. rewrite Hq by lia. done.
Qed.

Lemma exhausted_mono r p q : exhausted r p -> (forall k, (p <= k < q)%nat -> Z.of_nat k < n -> leased_word r k = true \/ word_has_free r g k = false) -> exhausted r q.
Proof. intros HE H k Hk Hn. destruct (decide (k < p)%nat); [by apply HE|]. apply H; [lia|done]. Qed.

(** The fuel a claim needs from a state. *)
Definition claim_needs (st : ClaimState) (p : nat) : nat :=
  match st with
  | ClaimLoad j => (Z.to_nat (word_len (lease_bitmap g)) - j) * 130 + 2
  | ClaimTry j _ => (Z.to_nat (word_len (lease_bitmap g)) - S j) * 130 + 3 + 2 * (S j * 64 - p)
  | _ => 1
  end.

Definition claim_at (r : Run) (st : ClaimState) (p : nat) : Prop :=
  match st with
  | ClaimLoad j => p = (j * 64)%nat /\ Z.of_nat j <= word_len (lease_bitmap g)
  | ClaimTry j observed => leases r !! j = Some observed /\ (j * 64 <= p <= S j * 64)%nat
  | _ => False
  end.

(** What passing a lease word without a candidate says. *)
Lemma pass_word r0 r j observed p : leased_below r0 r p -> exhausted r0 p -> leases r !! j = Some observed -> (j * 64 <= p <= S j * 64)%nat ->
  (forall k, Z.of_nat k < n -> (j * 64 <= k < S j * 64)%nat -> Z.testbit observed (Z.of_nat (k mod 64)) = true) ->
  leased_below r0 r (S j * 64) /\ exhausted r0 (S j * 64).
Proof.
  intros HB HX Hobs Hp Hset.
  assert (Hall : forall k, Z.of_nat k < n -> (p <= k < S j * 64)%nat -> leased_word r0 k = true).
  { intros k Hk Hr. pose proof (lb_leases _ _ _ HB k Hk) as HL. assert (Hd : (k / 64)%nat = j).
    { symmetry. apply (Nat.div_unique k 64 j (k - j * 64)); lia. }
    rewrite (leased_word_at r k observed) in HL by (by rewrite Hd). rewrite Hset in HL by (done || lia).
    destruct (Nat.ltb_spec k p); [lia|]. by rewrite orb_false_r in HL. }
  split.
  - eapply leased_below_ext; [done|lia|]. intros k Hk Hr. by apply Hall.
  - eapply exhausted_mono; [done|]. intros k Hk Hn. left. by apply Hall.
Qed.

Lemma claim_loop_ok {E} r0 fuel r st p : leased_below r0 r p -> exhausted r0 p -> claim_at r st p -> (claim_needs st p <= fuel)%nat ->
  exists r' res, claim_loop (E:=E) g fuel r st = Ok (r', res) /\ claim_result (E:=E) r0 r' res.
Proof.
  destruct lease_geometry as (Hbl & Hwl & Hn0 & _). pose proof (bitmap_words_bounds n) as Hbw. rewrite <- Hwl in Hbw.
  revert r st p. induction fuel as [fuel IH] using lt_wf_ind. intros r st p HB HX HAt Hfuel. pose proof (lb_bitmaps _ _ _ HB) as HBM. pose proof HBM as (HA & HL & _).
  destruct st as [j|j observed| | |]; [| |by destruct HAt..]; cbn [claim_needs] in Hfuel; (destruct fuel as [|fuel]; [lia|]); cbn [claim_loop claim_step].
  - destruct HAt as [-> Hj]. destruct (Z.ltb_spec (Z.of_nat j) (word_len (lease_bitmap g))) as [Hlt|Hge].
    + destruct (read_word_ok (E:=E) _ _ j HL Hlt) as (w & Hw & _ & ->). cbn [mbind outcome_bind fst snd].
      apply (IH fuel ltac:(lia) r (ClaimTry j w) (j * 64)%nat); [done..|split; [done|lia]|cbn [claim_needs]; lia].
    + cbn [mbind outcome_bind fst snd]. destruct fuel as [|fuel]; [lia|]. cbn [claim_loop]. exists r, None. split; [done|].
      assert (Hend : (Z.to_nat n <= j * 64)%nat) by lia. split.
      * intros k Hk Hkn. apply HX; [lia|done].
      * destruct HB as [B1 B2 B3 B4 B5]. split; try done. intros k Hk. rewrite B5 by done. f_equal.
        destruct (Nat.ltb_spec k (j * 64)), (Nat.ltb_spec k (Z.to_nat n)); lia || done.
  - destruct HAt as [Hobs Hp]. assert (Hj : Z.of_nat j < word_len (lease_bitmap g)).
    { apply lookup_lt_Some in Hobs. destruct HL as [HL _]. lia. }
    assert (Hword : is_word observed) by (eapply Forall_lookup_1; [apply HL|done]).
    assert (Hpass : (forall k, Z.of_nat k < n -> (j * 64 <= k < S j * 64)%nat -> Z.testbit observed (Z.of_nat (k mod 64)) = true) ->
      exists r' res, claim_loop (E:=E) g fuel r (ClaimLoad (S j)) = Ok (r', res) /\ claim_result (E:=E) r0 r' res).
    { intros Hset. destruct (pass_word r0 r j observed p HB HX Hobs Hp Hset) as [HB' HX'].
      apply (IH fuel ltac:(lia) r (ClaimLoad (S j)) (S j * 64)%nat); [done..|split; [done|lia]|cbn [claim_needs]; lia]. }
    destruct (Z.eqb_spec (not64 observed) 0) as [Hz|Hnz].
    { cbn [mbind outcome_bind fst snd]. apply Hpass. intros k _ _. apply no_candidate; [done|done|]. pose proof (Nat.mod_upper_bound k 64 ltac:(lia)). lia. }
    destruct (candidate_spec observed Hword Hnz) as (Hb & Hclear & Hlow). set (b := trailing_zeros (not64 observed)) in *.
    set (i := (j * 64 + Z.to_nat b)%nat) in *. destruct (word_of_index j b Hb) as [Hdiv Hmod]. fold i in Hdiv, Hmod. rewrite Hbl.
    destruct (Z.leb_spec n (Z.of_nat i)) as [Hout|Hin].
    { cbn [mbind outcome_bind fst snd]. apply Hpass. intros k Hk Hr. apply Hlow.
      assert (k / 64 = j)%nat by (symmetry; apply (Nat.div_unique k 64 j (k - j * 64)); lia). pose proof (Nat.div_mod_eq k 64). lia. }
    assert (Hvec : read_word (E:=E) (lease_bitmap g) (leases r) j = Ok observed).
    { destruct (read_word_ok (E:=E) _ _ j HL Hj) as (w & Hw & _ & Hr). rewrite Hr. congruence. }
    rewrite Hvec. cbn [mbind outcome_bind]. rewrite Z.eqb_refl. cbn [andb negb].
    destruct (lease_word_ok (E:=E) r j observed b HBM Hobs Hb Hin) as (ws & -> & HBM' & Hws & Hlw). fold i in Hlw. cbn [mbind outcome_bind fst snd].
    assert (Hfree : leased_word r i = false).
    { rewrite (leased_word_at r i observed) by (by rewrite Hdiv). rewrite Hmod, Z2Nat.id by lia. done. }
    pose proof (lb_leases _ _ _ HB i Hin) as Hli. rewrite Hfree in Hli. symmetry in Hli. apply orb_false_iff in Hli as [Hl0 Hip%Nat.ltb_ge].
    (* The words between are leased already. *)
    assert (Hbetween : forall k, Z.of_nat k < n -> (p <= k < i)%nat -> leased_word r0 k = true).
    { intros k Hk Hr. pose proof (lb_leases _ _ _ HB k Hk) as E1. assert (Hd : (k / 64)%nat = j).
      { symmetry. apply (Nat.div_unique k 64 j (k - j * 64)); lia. }
      pose proof (Nat.div_mod_eq k 64) as Ek. rewrite (leased_word_at r k observed) in E1 by (by rewrite Hd). rewrite Hlow in E1 by lia.
      destruct (Nat.ltb_spec k p); [lia|]. by rewrite orb_false_r in E1. }
    assert (HXi : exhausted r0 i).
    { eapply exhausted_mono; [done|]. intros k Hk Hkn. left. by apply Hbetween. }
    assert (HB' : leased_below r0 (with_leases r ws) (S i)).
    { destruct HB as [B1 B2 B3 B4 B5]. split; [done..|]. intros k Hk. rewrite Hlw, B5 by done.
      destruct (Nat.ltb_spec k p), (Nat.eqb_spec k i), (Nat.ltb_spec k (S i)); try lia; try (by rewrite ?orb_true_r).
      - rewrite Hbetween by (done || lia). done.
      - by rewrite !orb_false_r. }
    destruct fuel as [|fuel]; [lia|]. cbn [claim_loop claim_step].
    assert (Hm : free_mask_for_word (E:=E) (with_leases r ws) g i = free_mask_for_word (E:=E) r0 g i).
    { unfold free_mask_for_word. cbn [allocation with_leases]. by rewrite (lb_allocation _ _ _ HB). }
    rewrite Hm. rewrite (lb_allocation _ _ _ HB) in HA. destruct (free_mask_ok (E:=E) g r0 i HA Hin) as (m & Hfm & Hmw & Hmz & _). rewrite Hfm. cbn [mbind outcome_bind].
    destruct (Z.eqb_spec m 0) as [Hm0|Hm0]; cbn [mbind outcome_bind fst snd]; symmetry in Hmz.
    + apply negb_true_iff in Hmz. apply (IH fuel ltac:(lia) (with_leases r ws) _ (S i)); [done| |split; [done|lia]|cbn [claim_needs]; lia].
      eapply exhausted_mono; [exact HXi|]. intros k Hk _. right. by assert (k = i) as -> by lia.
    + apply negb_false_iff in Hmz. destruct fuel as [|fuel]; [lia|]. cbn [claim_loop]. exists (with_leases r ws), (Some (i, m)). split; [done|]. done.
Qed.

Lemma claim_in_run_ok {E} r : bitmaps_ok g r -> exists r' res, claim_in_run (E:=E) g r = Ok (r', res) /\ claim_result (E:=E) r r' res.
Proof.
  intros HB. apply (claim_loop_ok r (claim_fuel g) r (ClaimLoad 0) 0).
  - split; [done..|]. intros k _. destruct (Nat.ltb_spec k 0); [lia|by rewrite orb_false_r].
  - intros k Hk. lia.
  - destruct lease_geometry as (_ & Hwl & Hn & _). pose proof (bitmap_words_bounds n). split; [done|lia].
  - unfold claim_needs, claim_fuel. lia.
Qed.
End lease.
