(* ===== verification/ClaimRaces.v ===== *)
(** * Threads that race for the words of a run

    Each worker claims a word, allocates from it until it is used up, and claims
    the next. Their atomic actions interleave in any order, and any
    compare-exchange may fail spuriously. [race_safe]: no slot is handed out
    twice, and once every worker found nothing, every slot that was available has
    been handed out. *)
From stdpp Require Import base option list numbers.
From Stdlib Require Import ZArith Lia.
From S2P Require Import Prelude RunGeometry Bitmaps Arena ArenaFacts HeapFacts SweepFacts SweepArena Claim ClaimFacts.
Local Open Scope Z_scope.

(** ** The machine *)
Inductive Worker :=
  | Claiming (st : ClaimState)
  | Using (i : nat) (mask : Z) (st : CursorState)
  | Finished.

Record Race := MkRace { memory : Run; workers : list Worker; handed : list Z }.

Section race.
Context (g : RunGeometry) (payload : Layout) (run : Z).

Definition worker_step (spurious : bool) (r : Run) (w : Worker) : M (Run * Worker * option Z) :=
  match w with
  | Claiming (ClaimFound i free) => Ok (r, Using i free CursorReady, None)
  | Claiming ClaimNone => Ok (r, Finished, None)
  | Claiming st => rs ← claim_step g spurious r st; Ok (rs.1, Claiming rs.2, None)
  | Using i mask st =>
      allocated ← cursor_step g payload run r i mask st;
      match allocated with
      | None => Ok (r, Claiming (ClaimLoad 0), None)
      | Some (r, mask, st, slot) => Ok (r, Using i mask st, slot)
      end
  | Finished => Ok (r, Finished, None)
  end.

Definition Race_new (r : Run) (n : nat) : Race := MkRace r (replicate n (Claiming (ClaimLoad 0))) [].

(** Worker [k] takes its next action. *)
Definition race_step (R : Race) (kb : nat * bool) : M Race :=
  w ← vec_get (workers R) kb.1;
  x ← worker_step kb.2 (memory R) w;
  let '(r, w, slot) := x in
  Ok (MkRace r (<[kb.1 := w]> (workers R)) (match slot with Some s => s :: handed R | None => handed R end)).

Inductive races (r0 : Run) (m : nat) : Race -> Prop :=
  | race_start : races r0 m (Race_new r0 m)
  | race_next R kb R' : races r0 m R -> race_step R kb = Ok R' -> races r0 m R'.

(** ** The invariant *)
Context (HG : geometry_wf g).
Notation n := (word_len (allocation_bitmap g)).

(** The payload fits the slots. *)
Definition payload_fits : Prop :=
  size payload <= slot_stride g /\ 0 < align payload /\ (align payload | run + first_slot_offset g) /\ (align payload | slot_stride g).

Context (HF : payload_fits).

Definition passed (r : Run) (j : nat) : Prop := forall k, (k < j * 64)%nat -> Z.of_nat k < n -> leased_word r k = true.

Definition seen (r : Run) (j : nat) (observed : Z) : Prop :=
  is_word observed /\ Z.of_nat j < word_len (lease_bitmap g) /\
  forall k, Z.of_nat k < n -> (k / 64)%nat = j -> Z.testbit observed (Z.of_nat (k mod 64)) = true -> leased_word r k = true.

Definition owns (r : Run) (i : nat) : Prop := Z.of_nat i < n /\ leased_word r i = true.

Definition mask_ok (r : Run) (i : nat) (m : Z) : Prop :=
  is_word m /\ forall b, 0 <= b < 64 -> Z.testbit m b = (Z.of_nat i * 64 + b <? slot_count g) && negb (slot_bit (allocation r) (Z.of_nat i * 64 + b)).

Definition worker_ok (r : Run) (w : Worker) : Prop :=
  match w with
  | Claiming (ClaimLoad j) => passed r j
  | Claiming (ClaimTry j observed) => passed r j /\ seen r j observed
  | Claiming (ClaimMask j observed i) => passed r j /\ seen r j observed /\ owns r i
  | Claiming (ClaimFound i free) => owns r i /\ mask_ok r i free
  | Claiming ClaimNone | Finished => forall k, Z.of_nat k < n -> leased_word r k = true
  | Using i mask st => owns r i /\ mask_ok r i mask /\
      match st with CursorReady => True | CursorStore current => mask <> 0 /\ allocation r !! i = Some current end
  end.

Definition owned (w : Worker) : option nat :=
  match w with
  | Claiming (ClaimMask _ _ i) | Claiming (ClaimFound i _) | Using i _ _ => Some i
  | _ => None
  end.

(** What one action does. *)
Inductive effect (r : Run) (w : Worker) : Run -> Worker -> option Z -> Prop :=
  | effect_none w' : owned w' = owned w -> effect r w r w' None
  | effect_drop i w' : owned w = Some i -> owned w' = None -> word_has_free r g i = false -> effect r w r w' None
  | effect_lease i r' w' : owned w = None -> owned w' = Some i -> Z.of_nat i < n -> leased_word r i = false ->
      allocation r' = allocation r -> (forall k, leased_word r' k = leased_word r k || (k =? i)%nat) -> effect r w r' w' None
  | effect_hand i r' w' s : owned w = Some i -> owned w' = Some i -> 0 <= s < slot_count g -> Z.to_nat (s / 64) = i ->
      slot_bit (allocation r) s = false -> leases r' = leases r ->
      (forall j, j <> i -> allocation r' !! j = allocation r !! j) ->
      (forall s', 0 <= s' -> slot_bit (allocation r') s' = (s' =? s) || slot_bit (allocation r) s') -> effect r w r' w' (Some s).

Lemma mask_zero r i m : mask_ok r i m -> m = 0 -> word_has_free r g i = false.
Proof.
  intros [Hw Hm] ->. apply not_true_iff_false. unfold word_has_free. rewrite existsb_elem. intros (b & Hb%elem_of_bits64 & Hp).
  rewrite <- Hm, Z.bits_0 in Hp by done. done.
Qed.

Lemma passed_all r j : passed r j -> ~ Z.of_nat j < word_len (lease_bitmap g) -> forall k, Z.of_nat k < n -> leased_word r k = true.
Proof.
  intros HP Hj k Hk. destruct (lease_geometry g HG) as (_ & Hwl & _). pose proof (bitmap_words_bounds n). apply HP; [|done]. lia.
Qed.

Lemma passed_next r j observed : passed r j -> seen r j observed ->
  (forall k, Z.of_nat k < n -> (k / 64)%nat = j -> Z.testbit observed (Z.of_nat (k mod 64)) = true) -> passed r (S j).
Proof.
  intros HP (_ & _ & HS) Hset k Hk Hn. destruct (decide (k < j * 64)%nat); [by apply HP|].
  assert (Hd : (k / 64)%nat = j) by (symmetry; apply (Nat.div_unique k 64 j (k - j * 64)); lia). by apply HS; [|done|apply Hset].
Qed.

Lemma seen_actual r j : bitmaps_ok g r -> Z.of_nat j < word_len (lease_bitmap g) -> exists w, read_word (E:=Empty_set) (lease_bitmap g) (leases r) j = Ok w /\
  leases r !! j = Some w /\ seen r j w.
Proof.
  intros (_ & HL & _) Hj. destruct (read_word_ok (E:=Empty_set) _ _ j HL Hj) as (w & Hw & Hword & Hr). exists w. split_and!; [done|done|].
  split; [done|]. split; [done|]. intros k Hk Hd Hb. by rewrite (leased_word_at r k w) by (by rewrite Hd).
Qed.

Local Ltac quiet := split; [done|]; split; [done|]; split; [|split; [done|by apply effect_none]].

(** A claim's action. *)
Lemma claim_step_ok spurious r st : bitmaps_ok g r -> worker_ok r (Claiming st) ->
  match st with ClaimFound _ _ | ClaimNone => False | _ => True end ->
  exists r' st', claim_step (E:=Empty_set) g spurious r st = Ok (r', st') /\ bitmaps_ok g r' /\ worker_ok r' (Claiming st') /\
    header r' = header r /\ effect r (Claiming st) r' (Claiming st') None.
Proof.
  intros HB HW Hst. destruct (lease_geometry g HG) as (Hbl & Hwl & _). destruct st as [j|j observed|j observed i| |]; [| | |done..]; cbn [claim_step].
  - destruct (Z.ltb_spec (Z.of_nat j) (word_len (lease_bitmap g))) as [Hj|Hj].
    + destruct (seen_actual r j HB Hj) as (w & -> & _ & Hs). cbn. exists r, (ClaimTry j w). quiet. by split.
    + exists r, ClaimNone. quiet. cbn. apply (passed_all r j); [done|lia].
  - destruct HW as [HP HS]. pose proof HS as (Hword & Hj & HS').
    destruct (Z.eqb_spec (not64 observed) 0) as [Hz|Hnz].
    { exists r, (ClaimLoad (S j)). quiet. apply (passed_next r j observed HP HS).
      intros k _ _. apply no_candidate; [done|done|]. pose proof (Nat.mod_upper_bound k 64 ltac:(lia)). lia. }
    destruct (candidate_spec observed Hword Hnz) as (Hb & Hclear & Hlow). set (b := trailing_zeros (not64 observed)) in *.
    set (i := (j * 64 + Z.to_nat b)%nat) in *. destruct (word_of_index j b Hb) as [Hdiv Hmod]. fold i in Hdiv, Hmod. rewrite Hbl.
    destruct (Z.leb_spec n (Z.of_nat i)) as [Hout|Hin].
    { exists r, (ClaimLoad (S j)). quiet. apply (passed_next r j observed HP HS).
      intros k Hk Hd. apply Hlow. pose proof (Nat.div_mod_eq k 64). lia. }
    destruct (seen_actual r j HB Hj) as (w & -> & Hw & Hs). cbn [mbind outcome_bind].
    destruct (Z.eqb_spec w observed) as [->|_], spurious; cbn [andb negb];
      try (exists r, (ClaimTry j w); quiet; by split);
      try (exists r, (ClaimTry j observed); quiet; by split).
    destruct (lease_word_ok g HG (E:=Empty_set) r j observed b HB Hw Hb Hin) as (ws & -> & HB' & Hws & Hlw). fold i in Hlw. cbn [mbind outcome_bind].
    eexists _, _. split; [done|]. split; [done|]. split; [|split; [done|]].
    + split; [intros k Hk Hkn; rewrite Hlw, HP by done; done|]. split; [|split; [done|rewrite Hlw, Nat.eqb_refl, orb_true_r; done]].
      split; [by apply lor_word, bit_word|]. split; [done|]. intros k Hk Hd Ht.
      rewrite (leased_word_at _ k (Z.lor observed (bit b))); [done|]. rewrite Hd. exact Hws.
    + apply (effect_lease r (Claiming (ClaimTry j observed)) i); [done|done|done| |done|done]. rewrite (leased_word_at r i observed) by (by rewrite Hdiv). by rewrite Hmod, Z2Nat.id by lia.
  - destruct HW as (HP & HS & Ho). pose proof Ho as [Hi _]. destruct HB as (HA & HL & HM).
    destruct (free_mask_ok (E:=Empty_set) g r i HA Hi) as (m & -> & Hmw & Hmz & Hmb). cbn [mbind outcome_bind].
    destruct (Z.eqb_spec m 0) as [->|Hm]; symmetry in Hmz.
    + exists r, (ClaimTry j observed). split; [done|]; split; [done|]; split; [by split|]; split; [done|]. apply (effect_drop r (Claiming (ClaimMask j observed i)) i); [done..|by apply negb_true_iff].
    + exists r, (ClaimFound i m). quiet. by split.
Qed.

Lemma slot_fits s : 0 <= s < slot_count g -> slot_offset g s = Some (first_slot_offset g + s * slot_stride g) /\
  (run + (first_slot_offset g + s * slot_stride g)) mod align payload = 0.
Proof.
  intros Hs. destruct HF as (_ & Ha & [p Hp] & [q Hq]). pose proof (geometry_facts g HG) as (Hst & Hn & Hf & Hend & _). split.
  - unfold slot_offset. destruct (Z.leb_spec (slot_count g) s); [lia|]. assert (Hlt : s * slot_stride g < slot_count g * slot_stride g) by (apply Z.mul_lt_mono_pos_r; lia).
    assert (Hmax : RUN_SIZE <= usize_max) by done. assert (H0 : 0 <= s * slot_stride g) by (apply Z.mul_nonneg_nonneg; lia).
    rewrite checked_mul_fits by lia. cbn. apply checked_add_fits. lia.
  - apply Z.mod_divide; [lia|]. exists (p + s * q). rewrite Z.add_assoc, Hp, Hq. ring.
Qed.

(** A cursor's action. *)
Lemma cursor_step_ok r i mask st : bitmaps_ok g r -> worker_ok r (Using i mask st) ->
  (mask = 0 /\ cursor_step (E:=Empty_set) g payload run r i mask st = Ok None) \/
  exists r' mask' st' slot, cursor_step (E:=Empty_set) g payload run r i mask st = Ok (Some (r', mask', st', slot)) /\ bitmaps_ok g r' /\
    header r' = header r /\ worker_ok r' (Using i mask' st') /\ effect r (Using i mask st) r' (Using i mask' st') slot.
Proof.
  intros HB (Ho & HM & Hst). pose proof HB as (HA & HL & HMk). pose proof HM as [Hmw Hmb]. pose proof Ho as [Hi Hl]. unfold cursor_step.
  destruct (Z.eqb_spec mask 0) as [->|Hne]; [by left|right]. destruct (trailing_zeros_spec mask Hmw Hne) as (Hb & Ht & _). set (b := trailing_zeros mask) in *.
  pose proof Ht as Hv. rewrite Hmb in Hv by done. apply andb_true_iff in Hv as [Hlt%Z.ltb_lt Hfree%negb_true_iff]. set (s := Z.of_nat i * 64 + b) in *.
  destruct (index_join i b Hb) as [Hsd Hsm]. fold s in Hsd, Hsm.
  assert (Hs : 0 <= s < slot_count g) by lia. destruct (read_word_ok (E:=Empty_set) _ _ i HA Hi) as (w & Hw & Hword & Hrd).
  destruct st as [|current].
  - destruct (slot_fits s Hs) as [-> Hmod]. cbn [expect mbind outcome_bind]. destruct HF as (Hsz & _). rewrite (proj2 (Z.leb_le _ _) Hsz), (proj2 (Z.eqb_eq _ _) Hmod). cbn [rust_assert mbind outcome_bind].
    rewrite Hrd. cbn [mbind outcome_bind]. pose proof (land_bit w b ltac:(lia)) as Hlb.
    assert (Htw : Z.testbit w b = false). { unfold slot_bit in Hfree. rewrite Hsd, Hsm, Nat2Z.id, Hw in Hfree. done. }
    rewrite Htw in Hlb. apply negb_false_iff in Hlb. rewrite Hlb. cbn [rust_assert mbind outcome_bind].
    exists r, mask, (CursorStore w), None. split_and!; [done..| |by apply effect_none]. split; [done|]. split; [done|]. done.
  - destruct Hst as [_ Hcur]. assert (current = w) as -> by congruence.
    destruct (write_word_ok (E:=Empty_set) _ _ i (Z.lor w (bit b)) HA Hi) as [-> HA']; [by apply lor_word, bit_word|]. cbn [mbind outcome_bind].
    set (ws := <[i := Z.lor w (bit b)]> (allocation r)) in *.
    assert (Hslots : forall s', 0 <= s' -> slot_bit ws s' = (s' =? s) || slot_bit (allocation r) s').
    { intros s' Hs'. pose proof (set_bit_slots (allocation r) s s' w ltac:(lia) Hs') as H. rewrite Hsd, Hsm, Nat2Z.id in H. by apply H. }
    eexists _, _, _, _. split; [done|]. split; [done|]. split; [done|]. split.
    + split; [done|]. split; [|done]. split; [apply land_word; [done|by apply not64_word, bit_word]|].
      intros c Hc. cbn [allocation with_allocation]. rewrite Z.land_spec, not64_spec, bit_spec, Hmb, Hslots by (done || lia || by apply bit_word).
      replace (Z.of_nat i * 64 + c =? s) with (c =? b) by (unfold s; destruct (Z.eqb_spec c b), (Z.eqb_spec (Z.of_nat i * 64 + c) (Z.of_nat i * 64 + b)); lia || done).
      destruct (c =? b), (slot_bit (allocation r) (Z.of_nat i * 64 + c)), (Z.of_nat i * 64 + c <? slot_count g); done.
    + apply (effect_hand r (Using i mask (CursorStore w)) i _ _ s); [done|done|done|by rewrite Hsd, Nat2Z.id|done|done| |done].
      intros j Hj. cbn. unfold ws. by rewrite list_lookup_insert_ne.
Qed.

Lemma worker_step_ok spurious r w : bitmaps_ok g r -> worker_ok r w ->
  exists r' w' slot, worker_step spurious r w = Ok (r', w', slot) /\ bitmaps_ok g r' /\ header r' = header r /\ worker_ok r' w' /\ effect r w r' w' slot.
Proof.
  intros HB HW. destruct w as [st|i mask st|].
  - destruct st as [j|j o|j o i|i free|]; cbn [worker_step].
    1-3: destruct (claim_step_ok spurious r _ HB HW I) as (r' & st' & Hcs & HB' & HW' & Hh & HE); rewrite Hcs; cbn; eauto 10.
    + eexists _, _, _. split; [done|]. split; [done|]. split; [done|]. split; [|by apply effect_none]. destruct HW. by split.
    + eexists _, _, _. split; [done|]. split; [done|]. split; [done|]. split; [done|by apply effect_none].
  - cbn [worker_step]. destruct (cursor_step_ok r i mask st HB HW) as [[-> Hcs]|(r' & mask' & st' & slot & Hcs & HB' & Hh & HW' & HE)]; rewrite Hcs; cbn [mbind outcome_bind].
    + eexists _, _, _. split; [done|]. split; [done|]. split; [done|]. split; [intros k Hk; lia|]. destruct HW as (_ & HM & _).
      apply (effect_drop r (Using i 0 st) i); [done|done|by apply (mask_zero r i 0)].
    + eauto 10.
  - eexists _, _, _. split; [done|]. split; [done|]. split; [done|]. split; [done|by apply effect_none].
Qed.

(** ** The race as a whole *)
Lemma worker_ok_frame r r' w : (forall k, leased_word r k = true -> leased_word r' k = true) ->
  (forall i, owned w = Some i -> allocation r' !! i = allocation r !! i) -> worker_ok r w -> worker_ok r' w.
Proof.
  intros HL HA HW.
  assert (HM : forall i m, owned w = Some i -> mask_ok r i m -> mask_ok r' i m).
  { intros i m Hi [Hw Hm]. split; [done|]. intros b Hb. rewrite Hm by done. unfold slot_bit. destruct (index_join i b Hb) as [-> _]. by rewrite Nat2Z.id, HA. }
  destruct w as [[j|j o|j o i|i free|]|i mask [|current]|]; cbn [worker_ok owned] in *; unfold passed, seen, owns in *.
  all: destruct_and?; split_and?; eauto 6.
  rewrite HA; done.
Qed.

Lemma has_free_mono r r' i : (forall s, 0 <= s -> slot_bit (allocation r) s = true -> slot_bit (allocation r') s = true) ->
  word_has_free r g i = false -> word_has_free r' g i = false.
Proof.
  intros HA. unfold word_has_free. rewrite <- !not_true_iff_false, !existsb_elem. intros H (b & Hb & [Hlt Hf%negb_true_iff]%andb_true_iff). apply H. exists b. split; [done|].
  rewrite Hlt. cbn. apply negb_true_iff, not_true_iff_false. intros Ha. rewrite HA in Hf; [done| |done]. apply elem_of_bits64 in Hb. lia.
Qed.

Record race_inv (r0 : Run) (R : Race) : Prop := {
  ri_bitmaps : bitmaps_ok g (memory R);
  ri_worker : forall k w, workers R !! k = Some w -> worker_ok (memory R) w;
  ri_open : forall k w i, workers R !! k = Some w -> owned w = Some i -> leased_word r0 i = false;
  ri_apart : forall k k' w w' i, workers R !! k = Some w -> workers R !! k' = Some w' -> owned w = Some i -> owned w' = Some i -> k = k';
  ri_leases : forall k, leased_word r0 k = true -> leased_word (memory R) k = true;
  ri_cover : forall i, Z.of_nat i < n -> leased_word (memory R) i = true ->
    leased_word r0 i = true \/ (exists k w, workers R !! k = Some w /\ owned w = Some i) \/ word_has_free (memory R) g i = false;
  ri_nodup : NoDup (handed R);
  ri_handed : forall s, s ∈ handed R -> 0 <= s < slot_count g /\ slot_bit (allocation r0) s = false /\ leased_word r0 (Z.to_nat (s / 64)) = false;
  ri_allocated : forall s, 0 <= s -> slot_bit (allocation (memory R)) s = slot_bit (allocation r0) s || bool_decide (s ∈ handed R);
}.

Lemma race_start_inv r0 m : bitmaps_ok g r0 -> race_inv r0 (Race_new r0 m).
Proof.
  intros HB. assert (Hw : forall k w, workers (Race_new r0 m) !! k = Some w -> w = Claiming (ClaimLoad 0)).
  { intros k w H. cbn in H. by apply lookup_replicate in H as [-> _]. }
  split; cbn.
  - done.
  - intros k w ->%Hw k' Hk'. lia.
  - by intros k w i ->%Hw.
  - by intros k k' w w' i ->%Hw.
  - done.
  - intros i _ H. by left.
  - constructor.
  - intros s Hs. by apply elem_of_nil in Hs.
  - intros s _. rewrite bool_decide_false by apply not_elem_of_nil. by rewrite orb_false_r.
Qed.

Lemma race_step_inv r0 R kb : race_inv r0 R -> (exists w, workers R !! kb.1 = Some w) -> exists R', race_step R kb = Ok R' /\ race_inv r0 R'.
Proof.
  intros [HB HW HO HAp HLs HC HN HH HAl] (w & Hk). destruct kb as [k b]. cbn in Hk. destruct R as [r ws hd]. cbn in *.
  destruct (worker_step_ok b r w HB (HW k w Hk)) as (r' & w' & slot & Hs & HB' & _ & HW' & HE). unfold race_step, vec_get. cbn. rewrite Hk. cbn [expect mbind outcome_bind].
  rewrite Hs. cbn [mbind outcome_bind]. eexists. split; [done|].
  assert (Hmono : forall i, leased_word r i = true -> leased_word r' i = true).
  { destruct HE as [| |i r' w' _ _ _ _ _ Hl|i r' w' s _ _ _ _ _ Hl]; [done..| |]; intros k' Hk'; [by rewrite Hl, Hk'|]. unfold leased_word in *. by rewrite Hl. }
  assert (Hamono : forall s, 0 <= s -> slot_bit (allocation r) s = true -> slot_bit (allocation r') s = true).
  { destruct HE as [| |i r' w' _ _ _ _ Ha _|i r' w' s _ _ _ _ _ _ _ Ha]; [done..| |]; intros s' Hs' Hb; [by rewrite Ha|]. rewrite Ha, Hb by done. by rewrite orb_true_r. }
  assert (Hlt : (k < length ws)%nat) by (by eapply lookup_lt_Some).
  assert (Hlook : forall k' v, <[k := w']> ws !! k' = Some v -> (k' = k /\ v = w') \/ (k' <> k /\ ws !! k' = Some v)).
  { intros k' v Hv. destruct (decide (k' = k)) as [->|Hne]; [left|right]; [rewrite list_lookup_insert_eq in Hv by done; by simplify_eq|by rewrite list_lookup_insert_ne in Hv by done]. }
  (* A worker owns what it owned, or a word that was open. *)
  assert (Hown : forall i, owned w' = Some i -> owned w = Some i \/ (Z.of_nat i < n /\ leased_word r i = false)).
  { intros i Hi. destruct HE as [w' E|i' w' E E'|i' r' w' E E' ? ?|i' r' w' s E E']; [left; congruence|congruence|right|left; congruence].
    rewrite E' in Hi. by injection Hi as <-. }
  assert (Hleased : forall k' v i, ws !! k' = Some v -> owned v = Some i -> leased_word r i = true).
  { intros k' v i Hv Hi. specialize (HW k' v Hv). destruct v as [[]|? ? []|]; cbn in *; simplify_eq; unfold owns in *; tauto. }
  split; cbn [memory workers handed].
  - done.
  - intros k' v [[-> ->]|[Hne Hv]]%Hlook; [done|]. eapply worker_ok_frame; [exact Hmono| |by eapply HW].
    intros i Hi. destruct HE as [| |i' r' w' _ _ _ _ Ha|i' r' w' s E _ _ _ _ _ Ha _]; [done..|by rewrite Ha|]. apply Ha. intros ->.
    by apply Hne, (HAp k' k v w i').
  - intros k' v i [[-> ->]|[Hne Hv]]%Hlook Hi; [|by eapply HO]. destruct (Hown i Hi) as [Hi'|[_ Hl]]; [by eapply HO|].
    apply not_true_iff_false. intros H. apply HLs in H. congruence.
  - intros k1 k2 v1 v2 i [[-> ->]|[Hne1 Hv1]]%Hlook [[-> ->]|[Hne2 Hv2]]%Hlook Hi1 Hi2; [done| | |by eapply HAp].
    + destruct (Hown i Hi1) as [Hi'|[_ Hl]]; [by eapply HAp|]. rewrite (Hleased k2 v2 i) in Hl by done. done.
    + destruct (Hown i Hi2) as [Hi'|[_ Hl]]; [by eapply HAp|]. rewrite (Hleased k1 v1 i) in Hl by done. done.
  - intros i Hi. by apply Hmono, HLs.
  - intros i Hi Hl. assert (Hcase : leased_word r i = true \/ owned w' = Some i).
    { destruct HE as [| |i' r' w' _ E _ _ _ Hl'|i' r' w' s _ _ _ _ _ Hl']; [by left..| |left; unfold leased_word in *; congruence].
      rewrite Hl' in Hl. apply orb_true_iff in Hl as [?|Hl%Nat.eqb_eq]; [by left|right]. congruence. }
    destruct Hcase as [Hl0|Hi']; [|right; left; exists k, w'; by rewrite list_lookup_insert_eq].
    destruct (HC i Hi Hl0) as [?|[(k' & v & Hv & Hi')|Hf]]; [by left| |right; right; by eapply has_free_mono].
    destruct (decide (k' = k)) as [->|Hne]; [|right; left; exists k', v; by rewrite list_lookup_insert_ne].
    assert (v = w) as -> by congruence. right. destruct HE as [w' E|i' w' E _ Hf|i' r' w' E|i' r' w' s E E'].
    + left. exists k, w'. rewrite list_lookup_insert_eq by done. by rewrite E.
    + right. congruence.
    + congruence.
    + left. exists k, w'. rewrite list_lookup_insert_eq by done. split; congruence.
  - destruct HE as [| | |i r' w' s E E' Hs' Hw Hfree _ _ _]; [done..|]. constructor; [|done]. intros Hin. rewrite HAl, bool_decide_true, orb_true_r in Hfree by (done || lia). done.
  - destruct HE as [| | |i r' w' s E E' Hs' Hw Hfree _ _ _]; [done..|]. intros s' [-> |Hin]%elem_of_cons; [|by apply HH]. split; [done|].
    rewrite HAl in Hfree by lia. apply orb_false_iff in Hfree as [Hf _]. split; [done|]. rewrite Hw. by eapply HO.
  - intros s' Hs'. destruct HE as [| |i r' w' _ _ _ _ Ha _|i r' w' s _ _ _ _ _ _ _ Ha]; [by apply HAl..|by rewrite Ha; apply HAl|]. rewrite Ha, HAl by done.
    rewrite (bool_decide_ext (s' ∈ s :: hd) (s' = s \/ s' ∈ hd)) by apply elem_of_cons. rewrite bool_decide_or.
    destruct (Z.eqb_spec s' s) as [->|Hne]; [by rewrite (bool_decide_true (s = s)), orb_true_r|]. by rewrite (bool_decide_false (s' = s)).
Qed.

Lemma races_inv r0 m R : bitmaps_ok g r0 -> races r0 m R -> race_inv r0 R /\ length (workers R) = m.
Proof.
  intros HB. induction 1 as [|R kb R' _ [IH HL] Hs]; [split; [by apply race_start_inv|apply length_replicate]|].
  assert (Hw : exists w, workers R !! kb.1 = Some w).
  { unfold race_step, vec_get in Hs. destruct (workers R !! kb.1) as [w|]; [by exists w|done]. }
  destruct (race_step_inv r0 R kb IH Hw) as (R2 & H2 & HI). assert (R2 = R') as -> by congruence. split; [done|].
  rewrite <- HL. destruct Hw as (w & Hw). unfold race_step, vec_get in Hs. rewrite Hw in Hs. cbn in Hs.
  destruct (worker_step kb.2 (memory R) w) as [[[r' w'] slot]| | |]; [|done..]. cbn in Hs. injection Hs as <-. cbn. apply length_insert.
Qed.
End race.

(** C27. Claims and allocations of any number of threads on one run, interleaved
    action by action and with spurious failures of the exchange, never panic and
    hand out each slot at most once, and only slots that were free in words nobody
    had leased; the allocation bitmap gains exactly these. When every thread
    found nothing left, all of them have been handed out. *)
Theorem race_safe g payload run r0 m R : geometry_wf g -> bitmaps_ok g r0 -> payload_fits g payload run -> races g payload run r0 m R ->
  (forall k spurious, (k < m)%nat -> exists R', race_step g payload run R (k, spurious) = Ok R') /\
  NoDup (handed R) /\
  (forall s, s ∈ handed R -> 0 <= s < slot_count g /\ slot_bit (allocation r0) s = false /\ leased_word r0 (Z.to_nat (s / 64)) = false) /\
  (forall s, 0 <= s -> slot_bit (allocation (memory R)) s = slot_bit (allocation r0) s || bool_decide (s ∈ handed R)) /\
  ((0 < m)%nat -> Forall (eq Finished) (workers R) -> forall s, 0 <= s < slot_count g -> slot_bit (allocation r0) s = false ->
     leased_word r0 (Z.to_nat (s / 64)) = false -> s ∈ handed R).
Proof.
  intros HG HB HF HR. destruct (races_inv g payload run HG HF r0 m R HB HR) as [HI HL]. split_and!; [| |by apply (ri_handed _ _ _ HI)|by apply (ri_allocated _ _ _ HI)|].
  - intros k b Hk. destruct (race_step_inv g payload run HG HF r0 R (k, b) HI) as (R' & H & _); [|by exists R']. apply lookup_lt_is_Some_2. cbn. lia.
  - apply (ri_nodup _ _ _ HI).
  - intros Hm Hfin s Hs Hfree Hopen. destruct (lookup_lt_is_Some_2 (workers R) 0) as [w Hw]; [lia|].
    pose proof (Forall_lookup_1 _ _ _ _ Hfin Hw) as <-. pose proof (ri_worker _ _ _ HI 0%nat Finished Hw) as Hall. cbn in Hall.
    pose proof (geometry_facts g HG) as (_ & _ & _ & _ & _ & Hwl & _). destruct (bitmap_index _ _ Hs) as [Hi Hb]. rewrite <- Hwl in Hi.
    destruct (ri_cover _ _ _ HI _ Hi (Hall _ Hi)) as [Hc|[(k & v & Hv & Hov)|Hf]]; [congruence| |].
    + pose proof (Forall_lookup_1 _ _ _ _ Hfin Hv) as <-. done.
    + destruct (decide (s ∈ handed R)) as [|Hn]; [done|exfalso]. pose proof (ri_allocated _ _ _ HI s ltac:(lia)) as Ha. rewrite Hfree, bool_decide_false in Ha by done.
      unfold word_has_free in Hf. apply not_true_iff_false in Hf. apply Hf, existsb_elem. exists (s mod 64). split; [by apply elem_of_bits64|].
      rewrite index_split, Ha by lia. rewrite (proj2 (Z.ltb_lt _ _)) by lia. done.
Qed.

(** ** A concrete race *)
Module RaceSample.

(** Two workers on an empty run of 24-byte slots. *)
Definition sample_run : Run := zero_side_metadata RunGeometry.empty geometry24.
Definition base : Z := 8 * 1024 * 1024.

(** Worker 1's first exchange fails, worker 0 takes word 0, worker 1 word 1;
    both allocate. *)
Definition schedule : list (nat * bool) :=
  [(0, false); (1, false); (1, true); (0, false); (1, false); (1, false); (0, false); (1, false); (0, false); (1, false);
   (0, false); (0, false); (1, false); (1, false); (0, false); (0, false)]%nat.

Definition state : M Race := foldM (race_step geometry24 layout24 base) (Race_new sample_run 2) schedule.

Definition end_state : Race := match state with Ok R => R | _ => Race_new sample_run 2 end.

Example handed_out : handed end_state = [1; 64; 0].
Proof. vm_compute. reflexivity. Qed.

Lemma foldM_races qs R R' : races geometry24 layout24 base sample_run 2 R -> foldM (race_step geometry24 layout24 base) R qs = Ok R' ->
  races geometry24 layout24 base sample_run 2 R'.
Proof.
  revert R. induction qs as [|q qs IH]; intros R HR; cbn; [by intros [= <-]|].
  destruct (race_step geometry24 layout24 base R q) as [R1| | |] eqn:E; [|done..]. cbn. apply IH. by eapply race_next.
Qed.

Lemma geometry24_wf : geometry_wf geometry24.
Proof. split; [vm_compute; reflexivity|]. split_and!; vm_compute; discriminate. Qed.

Lemma sample_bitmaps : bitmaps_ok geometry24 sample_run.
Proof.
  split; [|split]; (split; [vm_compute; reflexivity|apply Forall_replicate; done]).
Qed.

Lemma sample_fits : payload_fits geometry24 layout24 base.
Proof.
  split; [vm_compute; discriminate|]. split; [vm_compute; reflexivity|]. split; apply Z.mod_divide; vm_compute; (discriminate || reflexivity).
Qed.

Lemma end_state_races : races geometry24 layout24 base sample_run 2 end_state.
Proof.
  apply (foldM_races schedule (Race_new sample_run 2)); [constructor|]. unfold end_state. fold state. destruct state eqn:E; [done|..]; exfalso; revert E; vm_compute; discriminate.
Qed.
End RaceSample.

Lemma race_safe_witness :
  handed RaceSample.end_state = [1; 64; 0] /\ NoDup (handed RaceSample.end_state) /\
  exists R', race_step geometry24 layout24 RaceSample.base RaceSample.end_state (0%nat, false) = Ok R'.
Proof.
  destruct (race_safe geometry24 layout24 RaceSample.base RaceSample.sample_run 2 RaceSample.end_state RaceSample.geometry24_wf
    RaceSample.sample_bitmaps RaceSample.sample_fits RaceSample.end_state_races) as (H1 & H2 & _).
  split; [vm_compute; reflexivity|]. split; [exact H2|]. apply H1. lia.
Defined.
