(* ===== verification/Admission.v ===== *)
(** * Admission of mutators and the collection coordinator
    ([crates/glam-gc/src/admission.rs], [admission/gate.rs], and the entry, exit
    and collection paths of [heap.rs])

    One atomic word holds the number of active outer mutators and a bit that sends
    entries and exits to the coordinator's lock. The machine below interleaves any
    number of threads that enter, leave, request collections, wait for them and
    run them; an action of a thread is one operation on the word or on a flag, a
    lock or unlock, or the work between two of these on the state the lock guards.
    The collection's own work is an action that succeeds, fails with the heap
    intact, or fails and poisons it. Time is left out, as are reports but for their
    epochs. *)
From stdpp Require Import base option list numbers.
From Stdlib Require Import ZArith Lia.
From S2P Require Import Prelude.
Local Open Scope Z_scope.

(** ** The coordinator *)
Inductive AdmissionPhase := Ordinary | Exclusive | Finalizing | Poisoned.

#[export] Instance AdmissionPhase_eq_dec : EqDecision AdmissionPhase.
Proof. solve_decision. Defined.

(** Epochs are nonzero 64-bit integers. *)
Record MutatorCoordinator := MkCoordinator {
  phase : AdmissionPhase;
  active_collection : option Z;
  completed_collection_epoch : Z;
  latest_report : option Z;
}.

Definition MutatorCoordinator_default : MutatorCoordinator := MkCoordinator Ordinary None 0 None.

(** [CollectionEpoch::after] *)
Definition epoch_after (completed : Z) : M Z := if completed =? u64_max then Panic else Ok (completed + 1).

Definition coordinates_mutators (S : MutatorCoordinator) : bool := negb (bool_decide (phase S = Ordinary)).

Definition request_synchronous_collection (S : MutatorCoordinator) : M (Z * bool) :=
  match phase S with
  | Ordinary => e ← epoch_after (completed_collection_epoch S); Ok (e, true)
  | Exclusive | Finalizing => e ← expect (active_collection S); Ok (e, false)
  | Poisoned => Panic
  end.

(** ** The word of the gate *)
Definition COORDINATED : Z := 2 ^ 63.
Definition ACTIVE : Z := 2 ^ 63 - 1.

(** ** Threads *)

(** The two loops under the lock: of an entry, and of a synchronous collection
    with its target epoch. *)
Inductive LockLoop := LAdmit | LSync (target : Z).

(** Where a thread is. A collection carries its epoch and, unless its thread
    continues as a mutator, the target its thread waits for. [Settling] and
    [Unlocking] end a guard. *)
Inductive PC :=
  | Idle
  | Failed
  | Requesting
  | EnterLoad
  | EnterCheck (w : Z)
  | EnterCas (w : Z)
  | Active
  | Exiting (next : PC)
  | Locking (n : Locked)
  | Holding (n : Locked)
  | Settling (next : PC)
  | Unlocking (next : PC)
  | Waiting (l : LockLoop)
  | Woken (l : LockLoop)
  | Collecting (epoch : Z) (sync : option Z)
  | Finalizer (epoch : Z) (sync : option Z)
  | Abandoning (epoch : Z)
(** What a thread does under the lock. *)
with Locked :=
  | NRequest
  | NLoop (l : LockLoop)
  | NWait (l : LockLoop)
  | NBlock (l : LockLoop)
  | NCount (begins : bool) (next : PC)
  | NAdd (begins : bool) (next : PC)
  | NExit (next : PC)
  | NCheck (epoch : Z) (sync : option Z)
  | NBegin (epoch : Z) (sync : option Z)
  | NComplete (epoch : Z) (sync : option Z)
  | NAbandon (epoch : Z)
  | NPoison (epoch : Z) (next : PC).

Record Gate := MkGate {
  gate_word : Z;
  holder : option nat;
  waiters : nat;
  coordinator : MutatorCoordinator;
  collection_requested : bool;
  poisoned : bool;
  threads : list PC;
}.

Definition Gate_new (n : nat) : Gate := MkGate 0 None 0 MutatorCoordinator_default false false (replicate n Idle).

(** ** Updates *)
Definition at_pc (G : Gate) (t : nat) (p : PC) : Gate :=
  MkGate (gate_word G) (holder G) (waiters G) (coordinator G) (collection_requested G) (poisoned G) (<[t := p]> (threads G)).
Definition with_word (G : Gate) (w : Z) : Gate :=
  MkGate w (holder G) (waiters G) (coordinator G) (collection_requested G) (poisoned G) (threads G).
Definition with_holder (G : Gate) (h : option nat) : Gate :=
  MkGate (gate_word G) h (waiters G) (coordinator G) (collection_requested G) (poisoned G) (threads G).
Definition with_waiters (G : Gate) (n : nat) : Gate :=
  MkGate (gate_word G) (holder G) n (coordinator G) (collection_requested G) (poisoned G) (threads G).
Definition with_coordinator (G : Gate) (S : MutatorCoordinator) : Gate :=
  MkGate (gate_word G) (holder G) (waiters G) S (collection_requested G) (poisoned G) (threads G).
Definition with_requested (G : Gate) (b : bool) : Gate :=
  MkGate (gate_word G) (holder G) (waiters G) (coordinator G) b (poisoned G) (threads G).
Definition with_poisoned (G : Gate) (b : bool) : Gate :=
  MkGate (gate_word G) (holder G) (waiters G) (coordinator G) (collection_requested G) b (threads G).

(** The effect of [active_outer_mutators] on the word, and its result. *)
Definition read_active (G : Gate) : Gate * Z :=
  (with_word G (Z.lor (gate_word G) COORDINATED), Z.land (gate_word G) ACTIVE).

Definition wake (p : PC) : PC := match p with Waiting l => Woken l | p => p end.

(** [notify]: every waiter, if any, wakes. *)
Definition notify (G : Gate) : Gate :=
  if decide (waiters G = 0%nat) then G
  else MkGate (gate_word G) (holder G) (waiters G) (coordinator G) (collection_requested G) (poisoned G) (wake <$> threads G).

(** [elect_idle_collection] *)
Definition elect_idle_collection (G : Gate) (requested : bool) : M (Gate * option Z) :=
  let S := coordinator G in
  if negb (bool_decide (phase S = Ordinary)) || negb requested then Ok (G, None) else
  let '(G, active) := read_active G in
  if negb (active =? 0) then Ok (G, None) else
  e ← epoch_after (completed_collection_epoch S);
  Ok (notify (with_coordinator G (MkCoordinator Exclusive (Some e) (completed_collection_epoch S) (latest_report S))), Some e).

Section gate.
(** Whether the policy lets an entry collect. *)
Context (automatic : bool).

(** ** Work under the lock *)
Definition locked_step (G : Gate) (t : nat) (n : Locked) : M Gate :=
  let S := coordinator G in
  match n with
  | NRequest =>
      if poisoned G then Ok (at_pc G t (Settling Idle)) else
      r ← request_synchronous_collection S;
      Ok (at_pc (with_requested G (collection_requested G || r.2)) t (Settling (Locking (NLoop (LSync r.1)))))
  | NLoop LAdmit =>
      if poisoned G then Ok (at_pc G t (Settling Failed)) else
      match phase S with
      | Ordinary =>
          r ← elect_idle_collection G (automatic && collection_requested G);
          match r with
          | (G, Some e) => Ok (at_pc G t (Settling (Locking (NCheck e None))))
          | (G, None) => Ok (at_pc G t (Holding (NCount false Active)))
          end
      | Finalizing => Ok (at_pc G t (Holding (NCount false Active)))
      | Exclusive => Ok (at_pc G t (Holding (NWait LAdmit)))
      | Poisoned => Ok (at_pc G t (Settling Failed))
      end
  | NLoop (LSync target) =>
      if poisoned G then Ok (at_pc G t (Settling Idle)) else
      if target <=? completed_collection_epoch S then
        report ← expect (latest_report S);
        _ ← rust_assert (report =? completed_collection_epoch S);
        _ ← rust_assert (target <=? report);
        Ok (at_pc G t (Settling Idle))
      else
        r ← elect_idle_collection G (collection_requested G);
        match r with
        | (G, Some e) => Ok (at_pc G t (Settling (Locking (NCheck e (Some target)))))
        | (G, None) => Ok (at_pc G t (Holding (NWait (LSync target))))
        end
  | NWait l => Ok (at_pc (with_word (with_waiters G (waiters G + 1)) (Z.lor (gate_word G) COORDINATED)) t (Holding (NBlock l)))
  | NBlock l => Ok (at_pc (with_holder G None) t (Waiting l))
  | NCount b p =>
      let '(G, active) := read_active G in
      _ ← rust_assert (negb (active =? ACTIVE));
      Ok (at_pc G t (Holding (NAdd b p)))
  | NAdd b p =>
      let G := with_word G (wrap64 (gate_word G + 1)) in
      Ok (at_pc (if b : bool then notify G else G) t (Settling p))
  | NExit p =>
      let '(G, active) := read_active G in
      Ok (at_pc (if active =? 0 then notify G else G) t (Settling p))
  | NCheck e sync =>
      let '(G, active) := read_active G in
      _ ← rust_assert (bool_decide (active_collection S = Some e));
      _ ← rust_assert (bool_decide (phase S = Exclusive));
      _ ← rust_assert (active =? 0);
      Ok (at_pc G t (Settling (Collecting e sync)))
  | NBegin e sync =>
      let '(G, active) := read_active G in
      _ ← rust_assert (bool_decide (phase S = Exclusive));
      _ ← rust_assert (active =? 0);
      _ ← rust_assert (bool_decide (active_collection S = Some e));
      Ok (at_pc (with_coordinator G (MkCoordinator Finalizing (active_collection S) (completed_collection_epoch S) (latest_report S))) t
            (Holding (NCount true (Finalizer e sync))))
  | NComplete e sync =>
      _ ← rust_assert (bool_decide (phase S = Finalizing));
      _ ← rust_assert (bool_decide (active_collection S = Some e));
      Ok (at_pc (notify (with_coordinator G (MkCoordinator Ordinary None e (Some e)))) t
            (Settling (match sync with None => Active | Some target => Exiting (Locking (NLoop (LSync target))) end)))
  | NAbandon e =>
      let S' := if bool_decide (active_collection S = Some e) then MkCoordinator Ordinary None (completed_collection_epoch S) (latest_report S) else S in
      Ok (at_pc (notify (with_coordinator G S')) t (Settling Failed))
  | NPoison e p =>
      let a := if bool_decide (active_collection S = Some e) then None else active_collection S in
      Ok (at_pc (notify (with_coordinator (with_requested (with_poisoned G true) false)
             (MkCoordinator Poisoned a (completed_collection_epoch S) (latest_report S)))) t (Settling p))
  end.

(** ** One action of thread [t] *)
Inductive Choice :=
  | CGo | CSpurious
  | CEnter | CSync | CRequest | CExit
  | CFail | CPoison.

(** [None]: the thread cannot take this action now. *)
Definition step (G : Gate) (t : nat) (c : Choice) : M (option Gate) :=
  p ← vec_get (threads G) t;
  match p, c with
  | Idle, CEnter => Ok (Some (at_pc G t EnterLoad))
  | Idle, CSync => Ok (Some (at_pc G t (Locking NRequest)))
  | Idle, CRequest => if poisoned G then Ok (Some (at_pc G t Failed)) else Ok (Some (at_pc (with_requested G true) t Requesting))
  | Requesting, CGo => if poisoned G then Ok (Some (at_pc (with_requested G false) t Failed)) else Ok (Some (at_pc G t Idle))
  | EnterLoad, CGo => Ok (Some (at_pc G t (EnterCheck (gate_word G))))
  | EnterCheck w, CGo =>
      if negb (Z.land w COORDINATED =? 0) || (w =? ACTIVE) || ((w =? 0) && automatic && collection_requested G)
      then Ok (Some (at_pc G t (Locking (NLoop LAdmit))))
      else Ok (Some (at_pc G t (EnterCas w)))
  | EnterCas w, CGo =>
      if gate_word G =? w then Ok (Some (at_pc (with_word G (w + 1)) t Active))
      else Ok (Some (at_pc G t (EnterCheck (gate_word G))))
  | EnterCas w, CSpurious => Ok (Some (at_pc G t (EnterCheck (gate_word G))))
  | Active, CRequest => Ok (Some (with_requested G true))
  | Active, CExit => Ok (Some (at_pc G t (Exiting Idle)))
  | Exiting p, CGo =>
      let prior := gate_word G in
      _ ← rust_assert (negb (Z.land prior ACTIVE =? 0));
      let G := with_word G (wrap64 (prior - 1)) in
      if Z.land prior COORDINATED =? 0 then Ok (Some (at_pc G t p)) else Ok (Some (at_pc G t (Locking (NExit p))))
  | Locking n, CGo =>
      match holder G with None => Ok (Some (at_pc (with_holder G (Some t)) t (Holding n))) | Some _ => Ok None end
  | Holding n, CGo => G ← locked_step G t n; Ok (Some G)
  | Settling p, CGo =>
      let w := if negb (waiters G =? 0)%nat || coordinates_mutators (coordinator G)
               then Z.lor (gate_word G) COORDINATED else Z.land (gate_word G) ACTIVE in
      Ok (Some (at_pc (with_word G w) t (Unlocking p)))
  | Unlocking p, CGo => Ok (Some (at_pc (with_holder G None) t p))
  | Waiting l, CSpurious => Ok (Some (at_pc G t (Woken l)))
  | Woken l, CGo =>
      match holder G with
      | None => Ok (Some (at_pc (with_waiters (with_holder G (Some t)) (waiters G - 1)) t (Holding (NLoop l))))
      | Some _ => Ok None
      end
  | Collecting e sync, CGo => Ok (Some (at_pc G t (Locking (NBegin e sync))))
  | Collecting e sync, CFail => Ok (Some (at_pc G t (Abandoning e)))
  | Collecting e sync, CPoison => Ok (Some (at_pc G t (Locking (NPoison e Failed))))
  | Finalizer e sync, CRequest => Ok (Some (with_requested G true))
  | Finalizer e sync, CGo => Ok (Some (at_pc (with_requested G false) t (Locking (NComplete e sync))))
  | Finalizer e sync, CFail => Ok (Some (at_pc G t (Exiting (Abandoning e))))
  | Finalizer e sync, CPoison => Ok (Some (at_pc G t (Locking (NPoison e (Exiting Failed)))))
  | Abandoning e, CGo => Ok (Some (at_pc (with_requested G true) t (Locking (NAbandon e))))
  | _, _ => Ok None
  end.

(** ** Runs of the machine *)
Inductive runs_to (n : nat) : Gate -> Prop :=
  | runs_start : runs_to n (Gate_new n)
  | runs_step G t c G' : runs_to n G -> step G t c = Ok (Some G') -> runs_to n G'.
End gate.
