(* ===== verification/AdmissionFacts.v ===== *)
(** * A collection is exclusive, and no wake-up is missed

    [admission_exclusive]: while a thread holds exclusive authority no mutator is
    active, and only one thread collects. [admission_live]: whenever a thread waits
    for the coordinator, another one is at work that will notify it. Neither
    depends on how the threads' actions interleave. *)
From stdpp Require Import base option list numbers.
From Stdlib Require Import ZArith Lia.
From S2P Require Import Prelude Admission.
Local Open Scope Z_scope.

(** ** What a thread's place says *)
Definition holding (p : PC) : bool := match p with Holding _ | Settling _ | Unlocking _ => true | _ => false end.

(** The thread is one of the active mutators. *)
Fixpoint counted (p : PC) : bool :=
  match p with
  | Active | Exiting _ | Finalizer _ _ => true
  | Settling p | Unlocking p => counted p
  | Locking n | Holding n => counted_locked n
  | _ => false
  end
with counted_locked (n : Locked) : bool :=
  match n with NComplete _ _ => true | NPoison _ p => counted p | _ => false end.

(** The epoch of the collection the thread has authority for. *)
Fixpoint authority (p : PC) : option Z :=
  match p with
  | Collecting e _ | Finalizer e _ | Abandoning e => Some e
  | Exiting p | Settling p | Unlocking p => authority p
  | Locking n | Holding n => authority_locked n
  | _ => None
  end
with authority_locked (n : Locked) : option Z :=
  match n with
  | NCheck e _ | NBegin e _ | NComplete e _ | NAbandon e | NPoison e _ => Some e
  | NCount _ p | NAdd _ p | NExit p => authority p
  | _ => None
  end.

(** The phases a collecting thread relies on. *)
Fixpoint exclusive_stage (p : PC) : bool :=
  match p with
  | Collecting _ _ | Locking (NCheck _ _) | Locking (NBegin _ _) | Holding (NCheck _ _) | Holding (NBegin _ _) => true
  | Settling p | Unlocking p => exclusive_stage p
  | _ => false
  end.

Fixpoint finalizing_stage (p : PC) : bool :=
  match p with
  | Finalizer _ _ | Locking (NComplete _ _) | Holding (NComplete _ _) | Holding (NCount true _) | Holding (NAdd true _) => true
  | Settling p | Unlocking p => finalizing_stage p
  | _ => false
  end.

(** The target of the synchronous collection the thread is in. *)
Fixpoint sync_of (p : PC) : option Z :=
  match p with
  | Collecting _ s | Finalizer _ s => s
  | Waiting l | Woken l => match l with LSync t => Some t | LAdmit => None end
  | Exiting p | Settling p | Unlocking p => sync_of p
  | Locking n | Holding n => sync_locked n
  | _ => None
  end
with sync_locked (n : Locked) : option Z :=
  match n with
  | NLoop l | NWait l | NBlock l => match l with LSync t => Some t | LAdmit => None end
  | NCheck _ s | NBegin _ s | NComplete _ s => s
  | NCount _ p | NAdd _ p | NExit p | NPoison _ p => sync_of p
  | _ => None
  end.

Definition has_authority (p : PC) : bool := match authority p with Some _ => true | None => false end.
Definition exit_pending (p : PC) : bool := match p with Locking (NExit _) | Holding (NExit _) => true | _ => false end.
Definition beginning (p : PC) : bool := match p with Holding (NCount true _) | Holding (NAdd true _) => true | _ => false end.
Definition admitting (p : PC) : bool := match p with Holding (NCount false _) | Holding (NAdd false _) => true | _ => false end.
Definition before_wait (p : PC) : bool := match p with Holding (NWait _) => true | _ => false end.
(** Counted in [waiters]. *)
Definition waits (p : PC) : bool := match p with Waiting _ | Woken _ | Holding (NBlock _) => true | _ => false end.
Definition reason (p : PC) : option LockLoop := match p with Waiting l | Holding (NWait l) | Holding (NBlock l) => Some l | _ => None end.
Definition abandoning (p : PC) : bool := match p with Locking (NAbandon _) | Holding (NAbandon _) => true | _ => false end.

(** Where an exit may lead. *)
Definition exits_to (p : PC) : bool :=
  match p with Idle | Failed | Abandoning _ | Locking (NLoop (LSync _)) => true | _ => false end.

(** Where a guard may lead. *)
Definition settles_to (p : PC) : bool :=
  match p with
  | Active | Locking (NCheck _ _) | Collecting _ _ | Finalizer _ _ => true
  | Exiting p => exits_to p
  | p => exits_to p
  end.

Definition locked_wf (n : Locked) : bool :=
  match n with
  | NCount false p | NAdd false p => match p with Active => true | _ => false end
  | NCount true p | NAdd true p => match p with Finalizer _ _ => true | _ => false end
  | NExit p => exits_to p
  | NPoison _ p => match p with Failed | Exiting Failed => true | _ => false end
  | _ => true
  end.

Definition pc_wf (p : PC) : bool :=
  match p with
  | Exiting p => exits_to p
  | Settling p | Unlocking p => settles_to p
  | Holding n => locked_wf n
  | Locking n => match n with NCount _ _ | NAdd _ _ | NWait _ | NBlock _ => false | n => locked_wf n end
  | _ => true
  end.

(** ** Counting threads *)
Definition count (f : PC -> bool) (l : list PC) : nat := sum_list_with (fun p => Nat.b2n (f p)) l.

Lemma count_cons f q l : count f (q :: l) = (Nat.b2n (f q) + count f l)%nat.
Proof. done. Qed.

Lemma count_insert f l t p p' : l !! t = Some p -> (count f (<[t := p']> l) + Nat.b2n (f p) = count f l + Nat.b2n (f p'))%nat.
Proof.
  revert t. induction l as [|q l IH]; intros [|t] H; [done|done| |].
  - injection H as ->. change (<[0%nat := p']> (p :: l)) with (p' :: l). rewrite !count_cons. lia.
  - change (<[S t := p']> (q :: l)) with (q :: <[t := p']> l). rewrite !count_cons. specialize (IH t H). lia.
Qed.

Lemma count_fmap f g l : (forall p, f (g p) = f p) -> count f (g <$> l) = count f l.
Proof. intros H. induction l as [|q l IH]; [done|]. rewrite fmap_cons, !count_cons. by rewrite H, IH. Qed.

Lemma count_pos f l t p : l !! t = Some p -> f p = true -> (0 < count f l)%nat.
Proof.
  revert t. induction l as [|q l IH]; intros [|t] H Hf; [done|done| |]; rewrite count_cons.
  - injection H as ->. rewrite Hf. cbn. lia.
  - specialize (IH t H Hf). lia.
Qed.

Lemma count_pos_inv f l : (0 < count f l)%nat -> exists t p, l !! t = Some p /\ f p = true.
Proof.
  induction l as [|q l IH]; [intros H; by apply Nat.lt_irrefl in H|]. rewrite count_cons. destruct (f q) eqn:E; [by exists 0%nat, q|]. cbn. intros H.
  destruct (IH H) as (t & p & Hp & Hf). by exists (S t), p.
Qed.

Lemma count_unique f l t t' p p' : (count f l <= 1)%nat -> l !! t = Some p -> l !! t' = Some p' -> f p = true -> f p' = true -> t = t'.
Proof.
  revert t t'. induction l as [|q l IH]; intros [|t] [|t'] HC H H' Hf Hf'; try done;
    rewrite count_cons in HC; cbn in H, H'.
  - injection H as ->. rewrite Hf in HC. cbn in HC. pose proof (count_pos f l t' p' H' Hf'). lia.
  - injection H' as ->. rewrite Hf' in HC. cbn in HC. pose proof (count_pos f l t p H Hf). lia.
  - f_equal. eapply IH; try done. lia.
Qed.

Lemma count_le f l : (count f l <= length l)%nat.
Proof. induction l as [|q l IH]; [done|]. rewrite count_cons. cbn. destruct (f q); cbn; lia. Qed.

(** ** The bits of the word *)
Definition word_of (c : bool) (n : nat) : Z := (if c then COORDINATED else 0) + Z.of_nat n.

Section word.
Context (c : bool) (n : nat) (Hn : Z.of_nat n < ACTIVE).

Lemma word_low : 0 <= Z.of_nat n < 2 ^ 63.
Proof. unfold ACTIVE in Hn. lia. Qed.

Lemma word_active : Z.land (word_of c n) ACTIVE = Z.of_nat n.
Proof.
  pose proof word_low. unfold word_of, COORDINATED. change ACTIVE with (Z.ones 63). rewrite Z.land_ones by lia.
  destruct c; [|rewrite Z.add_0_l; apply Z.mod_small; lia].
  rewrite <- (Z.mul_1_l (2 ^ 63)) at 1. rewrite Z.add_comm, Z.mod_add by lia. apply Z.mod_small. lia.
Qed.

Lemma word_bit : Z.testbit (word_of c n) 63 = c.
Proof.
  pose proof word_low as [H0 H1]. unfold word_of. rewrite Z.testbit_eqb by lia. unfold COORDINATED.
  destruct c.
  - rewrite <- (Z.mul_1_l (2 ^ 63)) at 1. rewrite Z.add_comm, Z.div_add by lia. rewrite Z.div_small by lia. done.
  - rewrite Z.add_0_l, Z.div_small by lia. done.
Qed.

Lemma land_coordinated w : Z.land w COORDINATED = if Z.testbit w 63 then COORDINATED else 0.
Proof.
  apply Z.bits_inj'. intros m Hm. rewrite Z.land_spec. unfold COORDINATED. rewrite Z.pow2_bits_eqb by lia.
  destruct (Z.eqb_spec 63 m) as [<-|Hne].
  - rewrite andb_true_r. destruct (Z.testbit w 63); [by rewrite Z.pow2_bits_true by lia|by rewrite Z.bits_0].
  - rewrite andb_false_r. destruct (Z.testbit w 63); [by rewrite Z.pow2_bits_false by lia|by rewrite Z.bits_0].
Qed.

Lemma word_coordinated : Z.land (word_of c n) COORDINATED = if c then COORDINATED else 0.
Proof. by rewrite land_coordinated, word_bit. Qed.

Lemma word_set : Z.lor (word_of c n) COORDINATED = word_of true n.
Proof.
  pose proof word_low as [H0 H1].
  assert (Hs : Z.lor (Z.of_nat n) COORDINATED = word_of true n).
  { assert (Hd : Z.land COORDINATED (Z.of_nat n) = 0).
    { rewrite Z.land_comm, land_coordinated, Z.testbit_eqb, Z.div_small by lia. done. }
    unfold word_of. rewrite <- Z.lxor_lor by (by rewrite Z.land_comm). rewrite Z.lxor_comm. by rewrite <- Z.add_nocarry_lxor. }
  destruct c; [|by unfold word_of at 1; rewrite Z.add_0_l]. rewrite <- Hs, <- Z.lor_assoc. by rewrite Z.lor_diag.
Qed.
End word.

(** ** The invariant *)
Notation phase_of G := (phase (coordinator G)).
Notation completed G := (completed_collection_epoch (coordinator G)).

(** What holds of a thread; [c] is the bit of the word. *)
Record thread_ok (G : Gate) (c : bool) (t : nat) (p : PC) : Prop := {
  to_wf : pc_wf p = true;
  to_holding : holding p = true <-> holder G = Some t;
  to_authority : forall e, authority p = Some e -> active_collection (coordinator G) = Some e;
  to_exclusive : exclusive_stage p = true -> phase_of G = Exclusive;
  to_finalizing : finalizing_stage p = true -> phase_of G = Finalizing;
  to_before_wait : before_wait p = true -> c = true;
  to_admit : admitting p = true -> phase_of G = Ordinary \/ phase_of G = Finalizing;
  to_sync : forall T, sync_of p = Some T -> 1 <= T <= completed G + 1 /\ (phase_of G = Ordinary -> completed G < T -> collection_requested G = true);
  to_admit_reason : reason p = Some LAdmit -> phase_of G = Exclusive \/ count beginning (threads G) <> 0%nat;
  to_sync_reason : forall T, reason p = Some (LSync T) -> completed G < T /\ phase_of G <> Poisoned /\
    (phase_of G = Ordinary -> count counted (threads G) <> 0%nat \/ count exit_pending (threads G) <> 0%nat);
  to_abandoning : abandoning p = true -> collection_requested G = true;
  to_cas : forall w, p = EnterCas w -> Z.land w COORDINATED = 0 /\ w <> ACTIVE;
}.

Record gate_ok (G : Gate) (c : bool) : Prop := {
  go_word : gate_word G = word_of c (count counted (threads G));
  go_bound : Z.of_nat (length (threads G)) < ACTIVE;
  go_waiters : waiters G = count waits (threads G);
  go_ordinary : c = false -> phase_of G = Ordinary /\ waiters G = 0%nat;
  go_authority : count has_authority (threads G) = match phase_of G with Exclusive | Finalizing => 1%nat | _ => 0%nat end;
  go_active : active_collection (coordinator G) = match phase_of G with Exclusive | Finalizing => Some (completed G + 1) | _ => None end;
  go_exclusive : phase_of G = Exclusive -> count counted (threads G) = 0%nat;
  go_poisoned : poisoned G = bool_decide (phase_of G = Poisoned);
  go_completed : 0 <= completed G;
  go_report : completed G <> 0 -> latest_report (coordinator G) = Some (completed G);
  go_thread : forall t p, threads G !! t = Some p -> thread_ok G c t p;
}.

(** Who else has authority while a thread has. *)
Lemma authority_alone G c t p t' q : gate_ok G c -> threads G !! t = Some p -> has_authority p = true ->
  threads G !! t' = Some q -> t' <> t -> authority q = None.
Proof.
  intros HG Hp Ha Hq Hne. destruct (authority q) eqn:E; [|done]. exfalso. apply Hne.
  apply (count_unique has_authority (threads G) t' t q p); try done; [|unfold has_authority; by rewrite E].
  rewrite (go_authority _ _ HG). destruct (phase_of G); lia.
Qed.

(** Only one thread holds the lock. *)
Lemma holder_alone G c t p t' q : gate_ok G c -> threads G !! t = Some p -> holding p = true ->
  threads G !! t' = Some q -> t' <> t -> holding q = false.
Proof.
  intros HG Hp Hh Hq Hne. apply not_true_iff_false. intros Hq'. apply (to_holding _ _ _ _ (go_thread _ _ HG _ _ Hp)) in Hh.
  apply (to_holding _ _ _ _ (go_thread _ _ HG _ _ Hq)) in Hq'. congruence.
Qed.

Lemma wake_pc f : (forall l, f (Waiting l) = f (Woken l)) -> forall p : PC, (f (wake p) : bool) = f p.
Proof. intros H p. destruct p; cbn; rewrite ?H; done. Qed.

(** Waking everyone. *)
Definition woken (G : Gate) : Gate :=
  MkGate (gate_word G) (holder G) (waiters G) (coordinator G) (collection_requested G) (poisoned G) (wake <$> threads G).

Lemma notify_eq G : waiters G = count waits (threads G) -> notify G = woken G.
Proof.
  intros Hw. unfold notify, woken. case_decide as H0; [|done].
  assert (Hid : wake <$> threads G = threads G); [|rewrite Hid; by destruct G].
  apply list_eq. intros i. rewrite list_lookup_fmap. destruct (threads G !! i) as [p|] eqn:E; [|done]. cbn. f_equal.
  destruct p; try done. exfalso. pose proof (count_pos waits (threads G) i _ E eq_refl). lia.
Qed.

(** ** Changes of one thread

    A thread that moves changes its own place, and leaves what the others rely
    on, or wakes them. *)
Definition moved (G G' : Gate) (t : nat) (p' : PC) (notified : bool) : Prop :=
  threads G' = <[t := p']> (if notified then wake <$> threads G else threads G).

Record undisturbed (G G' : Gate) (c c' : bool) (t : nat) (p : PC) (notified : bool) : Prop := {
  un_holder : holder G' = holder G \/ (holding p = true /\ holder G' = None) \/ (holder G = None /\ holder G' = Some t);
  un_bit : c = true -> c' = true \/ holding p = true;
  un_requested : collection_requested G = true -> collection_requested G' = true \/ (has_authority p = true \/ phase_of G = Poisoned) /\ phase_of G' <> Ordinary;
  un_state : phase_of G' = phase_of G /\ active_collection (coordinator G') = active_collection (coordinator G) /\ completed G' = completed G \/
    holding p = true /\ (has_authority p = true \/ phase_of G = Ordinary) /\ completed G <= completed G' /\
      (phase_of G' = Ordinary -> completed G < completed G' \/ collection_requested G' = true);
  un_reason : notified = true /\ holding p = true \/
    completed G' = completed G /\ (phase_of G = Exclusive -> phase_of G' = Exclusive \/ count beginning (threads G') <> 0%nat) /\
    (count beginning (threads G) <> 0%nat -> count beginning (threads G') <> 0%nat) /\ (phase_of G' = Poisoned -> phase_of G = Poisoned) /\
    (c = true -> phase_of G' = Ordinary -> phase_of G = Ordinary /\
       (count counted (threads G) <> 0%nat \/ count exit_pending (threads G) <> 0%nat -> count counted (threads G') <> 0%nat \/ count exit_pending (threads G') <> 0%nat));
}.

Lemma stage_authority p : pc_wf p = true -> exclusive_stage p = true \/ finalizing_stage p = true -> has_authority p = true.
Proof.
  assert (H : forall p, settles_to p = true -> exclusive_stage p = true \/ finalizing_stage p = true -> has_authority p = true).
  { intros q Hw [He|He]; destruct q as [| | | | | | |q|[]| |q|q| | | | |]; try done; cbn in *; try done; by destruct q as [| | | | | | | |[]| | | | | | | |]. }
  intros Hw. destruct p as [| | | | | | |p|n|n|p|p| | | | |]; try (intros [?|?]; done).
  - intros [He|He]; destruct n as [| | | |[]|[]| | | | | |]; done.
  - intros [He|He]; destruct n as [| | | |[] q|[] q| | | | | |]; try done; by destruct q.
  - exact (H p Hw).
  - exact (H p Hw).
Qed.

Lemma reason_bit G c t p l : gate_ok G c -> threads G !! t = Some p -> reason p = Some l -> c = true.
Proof.
  intros HG Hp Hr. destruct c; [done|exfalso]. destruct (go_ordinary _ _ HG eq_refl) as [_ H0]. rewrite (go_waiters _ _ HG) in H0.
  assert (Hw : waits p = true \/ before_wait p = true) by (destruct p as [| | | | | | | | |[]| | | | | | |]; try done; by (left + right)).
  destruct Hw as [Hw|Hw]; [pose proof (count_pos _ _ _ _ Hp Hw); lia|]. by apply (to_before_wait _ _ _ _ (go_thread _ _ HG _ _ Hp)) in Hw.
Qed.

Lemma wait_lock p : before_wait p = true \/ admitting p = true -> holding p = true.
Proof. intros [H|H]; destruct p as [| | | | | | | | |[]| | | | | | |]; try done. Qed.

Lemma others_ok G G' c c' t p notified t' q : gate_ok G c -> threads G !! t = Some p -> undisturbed G G' c c' t p notified ->
  threads G !! t' = Some q -> t' <> t -> thread_ok G' c' t' (if notified then wake q else q).
Proof.
  intros HG Hp [U1 U2 U3 U4 U5] Hq Hne. pose proof (go_thread _ _ HG _ _ Hq) as HT. destruct HT as [T1 T2 T3 T4 T5 T6 T7 T8 T9 T10 T11 T12].
  pose proof (fun Ha => authority_alone G c t p t' q HG Hp Ha Hq Hne) as Hauth. pose proof (fun Hh => holder_alone G c t p t' q HG Hp Hh Hq Hne) as Hhold.
  assert (Hauth' : has_authority p = true \/ phase_of G = Ordinary \/ phase_of G = Poisoned -> authority q = None).
  { intros [?|Ho]; [auto|]. destruct (authority q) eqn:E; [|done]. exfalso. assert (Hpos : (0 < count has_authority (threads G))%nat).
    { eapply count_pos; [exact Hq|]. unfold has_authority. by rewrite E. } rewrite (go_authority _ _ HG) in Hpos. destruct Ho as [Ho|Ho]; rewrite Ho in Hpos; lia. }
  pose proof (stage_authority q T1) as Hstage. unfold has_authority in Hstage.
  pose proof (wait_lock q) as Hwl.
  assert (Hholder : holding q = true <-> holder G' = Some t').
  { rewrite T2. destruct U1 as [->|[[Hh ->]|[-> ->]]]; [done| |split; [done|congruence]]. split; [|done]. intros H. apply T2 in H. rewrite Hhold in H by done. done. }
  assert (Hex : exclusive_stage q = true -> phase_of G' = Exclusive).
  { intros H. destruct U4 as [(-> & _)|(_ & Hor & _)]; [auto|]. rewrite Hauth' in Hstage by tauto. discriminate Hstage. by left. }
  assert (Hfi : finalizing_stage q = true -> phase_of G' = Finalizing).
  { intros H. destruct U4 as [(-> & _)|(_ & Hor & _)]; [auto|]. rewrite Hauth' in Hstage by tauto. discriminate Hstage. by right. }
  assert (Hau : forall e, authority q = Some e -> active_collection (coordinator G') = Some e).
  { intros e He. destruct U4 as [(_ & -> & _)|(_ & Hor & _)]; [auto|]. rewrite Hauth' in He by tauto. done. }
  assert (Hbw : before_wait q = true -> c' = true).
  { intros H. destruct (U2 (T6 H)) as [|Hh]; [done|]. rewrite Hhold in Hwl by done. discriminate Hwl. by left. }
  assert (Had : admitting q = true -> phase_of G' = Ordinary \/ phase_of G' = Finalizing).
  { intros H. destruct U4 as [(-> & _)|(Hh & _)]; [auto|]. rewrite Hhold in Hwl by done. discriminate Hwl. by right. }
  assert (Hsy : forall T, sync_of q = Some T -> 1 <= T <= completed G' + 1 /\ (phase_of G' = Ordinary -> completed G' < T -> collection_requested G' = true)).
  { intros T HT. destruct (T8 T HT) as [H1 H2]. destruct U4 as [(E1 & _ & E3)|(_ & _ & Hle & Hor)].
    - rewrite E1, E3. split; [done|]. intros Ho Hlt. destruct (U3 (H2 Ho Hlt)) as [|[_ Hn]]; [done|]. congruence.
    - split; [lia|]. intros Ho Hlt. destruct (Hor Ho); [lia|done]. }
  assert (Hab : abandoning q = true -> collection_requested G' = true).
  { intros H. destruct (U3 (T11 H)) as [|[Ha _]]; [done|]. assert (authority q <> None) by (destruct q as [| | | | | | | |[]|[]| | | | | | |]; done). rewrite Hauth' in H0 by tauto. done. }
  destruct U5 as [[-> Hh]|(E1 & E2 & E3 & E4 & E5)].
  - assert (Hr : reason (wake q) = None).
    { specialize (Hhold Hh). destruct q as [| | | | | | | | |[]| | | | | | |]; done. }
    split; rewrite ?(wake_pc holding), ?(wake_pc exclusive_stage), ?(wake_pc finalizing_stage), ?(wake_pc before_wait), ?(wake_pc admitting), ?(wake_pc abandoning), ?Hr by done; try done.
    + by destruct q.
    + intros e He. apply Hau. by destruct q.
    + intros T HT. apply Hsy. by destruct q.
    + intros w Hw. apply T12. by destruct q.
  - assert (Hnr : thread_ok G' c' t' q).
    { split; try done.
      - intros Hr. destruct (T9 Hr) as [Hx|Hx]; [auto|right; auto].
      - intros T Hr. destruct (T10 T Hr) as (H1 & H2 & H3). rewrite E1. split; [done|]. split; [auto|]. intros Ho.
        destruct (E5 (reason_bit G c t' q _ HG Hq Hr) Ho) as [Ho' Hc]. auto. }
    destruct notified; [|done]. destruct Hnr as [N1 N2 N3 N4 N5 N6 N7 N8 N9 N10 N11 N12].
    split; rewrite ?(wake_pc holding), ?(wake_pc exclusive_stage), ?(wake_pc finalizing_stage), ?(wake_pc before_wait), ?(wake_pc admitting), ?(wake_pc abandoning) by done; try done.
    + by destruct q.
    + intros e He. apply N3. by destruct q.
    + intros T HT. apply N8. by destruct q.
    + intros Hr. apply N9. by destruct q.
    + intros T Hr. apply N10. by destruct q.
    + intros w Hw. apply N12. by destruct q.
Qed.

(** The counts of the thread's move. *)
Lemma moved_count f G G' t p p' notified : (forall l, f (Waiting l) = f (Woken l)) -> threads G !! t = Some p -> moved G G' t p' notified ->
  (count f (threads G') + Nat.b2n (f p) = count f (threads G) + Nat.b2n (f p'))%nat.
Proof.
  intros Hf Hp ->. destruct notified; [|by apply count_insert].
  rewrite <- (count_fmap f wake (threads G)) by (by apply (wake_pc f Hf)). rewrite <- (wake_pc f Hf p). apply count_insert. by rewrite list_lookup_fmap, Hp.
Qed.

Lemma move_ok G G' c c' t p p' notified : gate_ok G c -> threads G !! t = Some p -> moved G G' t p' notified -> undisturbed G G' c c' t p notified ->
  thread_ok G' c' t p' ->
  gate_word G' = word_of c' (count counted (threads G')) ->
  waiters G' = count waits (threads G') ->
  (c' = false -> phase_of G' = Ordinary /\ waiters G' = 0%nat) ->
  count has_authority (threads G') = match phase_of G' with Exclusive | Finalizing => 1%nat | _ => 0%nat end ->
  active_collection (coordinator G') = match phase_of G' with Exclusive | Finalizing => Some (completed G' + 1) | _ => None end ->
  (phase_of G' = Exclusive -> count counted (threads G') = 0%nat) ->
  poisoned G' = bool_decide (phase_of G' = Poisoned) -> 0 <= completed G' ->
  (completed G' <> 0 -> latest_report (coordinator G') = Some (completed G')) -> gate_ok G' c'.
Proof.
  intros HG Hp HM HU HT Hw Hwt Hord Ha Hac Hex Hpo Hc Hr. split; try done.
  - rewrite HM, length_insert. destruct notified; rewrite ?length_fmap; apply (go_bound _ _ HG).
  - intros t' q Hq. rewrite HM in Hq. destruct (decide (t' = t)) as [->|Hne].
    + rewrite list_lookup_insert_eq in Hq; [by injection Hq as <-|]. pose proof (lookup_lt_Some _ _ _ Hp). destruct notified; rewrite ?length_fmap; done.
    + rewrite list_lookup_insert_ne in Hq by done. assert (Hq' : exists q0, threads G !! t' = Some q0 /\ q = if notified then wake q0 else q0).
      { destruct notified; [|by exists q]. rewrite list_lookup_fmap in Hq. destruct (threads G !! t') as [q0|]; [|done]. exists q0. split; [done|]. by injection Hq as <-. }
      destruct Hq' as (q0 & Hq0 & ->). by apply (others_ok G G' c c' t p notified t' q0).
Qed.

(** ** Every action keeps the invariant *)
Section steps.
Context (automatic : bool) (G : Gate) (c : bool) (HG : gate_ok G c) (t : nat) (p : PC) (Hp : threads G !! t = Some p).

Lemma count_bound : Z.of_nat (count counted (threads G)) < ACTIVE.
Proof. pose proof (go_bound _ _ HG). pose proof (count_le counted (threads G)). lia. Qed.

Lemma gate_word_active : Z.land (gate_word G) ACTIVE = Z.of_nat (count counted (threads G)).
Proof. rewrite (go_word _ _ HG). apply word_active, count_bound. Qed.

Lemma gate_word_coordinated : Z.land (gate_word G) COORDINATED = if c then COORDINATED else 0.
Proof. rewrite (go_word _ _ HG). apply word_coordinated, count_bound. Qed.

Lemma gate_word_set : Z.lor (gate_word G) COORDINATED = word_of true (count counted (threads G)).
Proof. rewrite (go_word _ _ HG). apply word_set, count_bound. Qed.
End steps.

Ltac gate_simpl :=
  cbn [at_pc with_word with_holder with_waiters with_coordinator with_requested with_poisoned woken gate_word holder waiters coordinator
       collection_requested poisoned threads phase active_collection completed_collection_epoch latest_report] in *.

Ltac pc_simpl :=
  cbn [holding counted counted_locked has_authority authority authority_locked exclusive_stage finalizing_stage sync_of sync_locked exit_pending beginning
       admitting before_wait waits reason abandoning Nat.b2n pc_wf locked_wf] in *.

(** Pose the counts of a move to place [p'] of gate [G']. *)
Ltac pose_counts G' HM :=
  match type of HM with moved ?G _ ?t ?p' ?nf =>
    match goal with Hp : threads G !! t = Some ?p |- _ =>
      pose proof (moved_count counted G G' t p p' nf (fun _ => eq_refl) Hp HM) as Ccounted;
      pose proof (moved_count waits G G' t p p' nf (fun _ => eq_refl) Hp HM) as Cwaits;
      pose proof (moved_count has_authority G G' t p p' nf (fun _ => eq_refl) Hp HM) as Cauthority;
      pose proof (moved_count exit_pending G G' t p p' nf (fun _ => eq_refl) Hp HM) as Cexit;
      pose proof (moved_count beginning G G' t p p' nf (fun _ => eq_refl) Hp HM) as Cbeginning
    end
  end.

Section local.
Context (G : Gate) (c : bool) (HG : gate_ok G c) (t : nat) (p : PC) (Hp : threads G !! t = Some p).

(** A move that changes nothing but the thread's place. *)
Lemma local_ok p' : counted p' = counted p -> waits p' = waits p -> authority p' = authority p -> exit_pending p' = exit_pending p ->
  beginning p' = beginning p -> thread_ok (at_pc G t p') c t p' -> gate_ok (at_pc G t p') c.
Proof.
  intros E1 E2 E3 E4 E5 HT. set (G' := at_pc G t p') in *. assert (HM : moved G G' t p' false) by done. pose_counts G' HM.
  unfold has_authority in Cauthority. rewrite E3 in Cauthority. rewrite E1 in Ccounted. rewrite E2 in Cwaits. rewrite E4 in Cexit. rewrite E5 in Cbeginning.
  destruct HG. eapply (move_ok G G' c c t p p' false HG Hp HM); unfold G' in *; gate_simpl; try done; try lia.
  - split; gate_simpl; try (by left); try tauto.
    right. split; [done|]. split; [auto|]. split; [lia|]. split; [auto|]. intros _ Ho. split; [done|]. lia.
  - rewrite go_word0. f_equal. lia.
  - rewrite <- go_authority0. unfold has_authority. lia.
  - intros Hx. specialize (go_exclusive0 Hx). lia.
Qed.
End local.

(** The new place of a thread: what is left is settled by its old place. *)
Ltac place := split; pc_simpl; gate_simpl; try done; try tauto; try (intros; discriminate); try (intros; simplify_eq; tauto).

(** A move that keeps the others' reasons to wait. *)
Ltac quiet G' :=
  unfold G' in *; split; gate_simpl; try (by left); try tauto;
  (right; split; [done|]; split; [tauto|]; split; [lia|]; split; [tauto|]; intros; (split; [tauto|]); (tauto || lia)).

(** The gate after a move. *)
Ltac settle HG HU HN G' :=
  match type of HU with undisturbed ?G _ ?c ?c' ?t ?p ?nf =>
    match goal with Hp : threads G !! t = Some p, HM : moved G _ t ?p' nf, HW : gate_word _ = _ |- _ =>
      apply (move_ok G G' c c' t p p' nf HG Hp HM HU HN HW); clear HU HN HW; destruct HG; unfold G', has_authority in *; gate_simpl; pc_simpl;
      (try done); (try lia); (try congruence);
      (try (let Hx := fresh in intros Hx; match goal with H : _ = Exclusive -> _ |- _ => specialize (H Hx) end; lia))
    end
  end.

Section moves.
Context (G : Gate) (c : bool) (HG : gate_ok G c) (t : nat).

Lemma requested_ok p b : threads G !! t = Some p -> (b = true \/ phase_of G = Poisoned \/ has_authority p = true /\ phase_of G <> Ordinary) ->
  thread_ok (with_requested G b) c t p -> gate_ok (with_requested G b) c.
Proof.
  intros Hp Hb HT. set (G' := with_requested G b) in *. assert (HM : moved G G' t p false).
  { unfold moved. cbn. by rewrite list_insert_id. }
  destruct HG. eapply (move_ok G G' c c t p p false HG Hp HM); unfold G' in *; gate_simpl; try done.
  split; gate_simpl; try (by left); try tauto.
  intros Hr. destruct Hb as [->|[Hph|[Ha Hn]]]; [by left|right..]; [|auto]. split; [by right|]. by rewrite Hph.
Qed.

(** Where [at_pc] keeps the place. *)
Lemma at_same p : threads G !! t = Some p -> at_pc G t p = G.
Proof. intros H. destruct G. unfold at_pc. cbn in *. by rewrite list_insert_id. Qed.
End moves.

Section entry.
Context (automatic : bool) (G : Gate) (c : bool) (HG : gate_ok G c) (t : nat).

(** A lock-free entry. *)
Lemma enter_ok w : threads G !! t = Some (EnterCas w) -> gate_word G = w -> gate_ok (at_pc (with_word G (w + 1)) t Active) c.
Proof.
  intros Hp Hw. pose proof (go_thread _ _ HG _ _ Hp) as HT. destruct (to_cas _ _ _ _ HT w eq_refl) as [Hc _].
  rewrite <- Hw, (gate_word_coordinated G c HG) in Hc. destruct c; [done|]. destruct (go_ordinary _ _ HG eq_refl) as [Ho Hwt].
  set (G' := at_pc (with_word G (w + 1)) t Active). assert (HM : moved G G' t Active false) by done. pose_counts G' HM. pc_simpl.
  assert (HU : undisturbed G G' false false t (EnterCas w) false) by (quiet G').
  assert (HN : thread_ok G' false t Active) by (destruct HT; unfold G'; place).
  assert (HW : gate_word G' = word_of false (count counted (threads G'))).
  { unfold G' in *. gate_simpl. rewrite <- Hw, (go_word _ _ HG). unfold word_of. lia. }
  settle HG HU HN G'.
Qed.

(** An exit, which the lock sees if the bit is set. *)
Lemma exit_ok p : threads G !! t = Some (Exiting p) -> gate_ok (at_pc (with_word G (wrap64 (gate_word G - 1))) t (if c then Locking (NExit p) else p)) c.
Proof.
  intros Hp. pose proof (go_thread _ _ HG _ _ Hp) as HT. pose proof (count_pos counted _ _ _ Hp eq_refl) as Hpos.
  assert (Hwf : exits_to p = true) by apply HT. set (p' := if c then _ else _).
  set (G' := at_pc _ t p'). assert (HM : moved G G' t p' false) by done. pose_counts G' HM.
  assert (Hf : counted p' = false /\ waits p' = false /\ authority p' = authority p /\ beginning p' = false /\ (c = true -> exit_pending p' = true) /\ sync_of p' = sync_of p).
  { unfold p'. by destruct c, p as [| | | | | | | |[| [] | | | | | | | | | |]| | | | | | | |]. }
  destruct Hf as (F1 & F2 & F3 & F4 & F5 & F6). unfold has_authority in Cauthority. rewrite F1 in Ccounted. rewrite F2 in Cwaits. rewrite F3 in Cauthority. rewrite F4 in Cbeginning. pc_simpl.
  assert (Hc1 : c = true -> count exit_pending (threads G') <> 0%nat) by (intros Hc; rewrite F5 in Cexit by done; pc_simpl; lia).
  assert (HU : undisturbed G G' c c t (Exiting p) false) by (quiet G').
  assert (HN : thread_ok G' c t p').
  { destruct HT. unfold G'. split; gate_simpl; rewrite ?F3, ?F6; try done; pc_simpl; try tauto; unfold p';
      destruct c, p as [| | | | | | | |[| [] | | | | | | | | | |]| | | | | | | |]; try done. }
  assert (HW : gate_word G' = word_of c (count counted (threads G'))).
  { pose proof (count_bound G c HG) as Hb. unfold ACTIVE in Hb. unfold G'. gate_simpl. rewrite (go_word _ _ HG). unfold word_of, COORDINATED.
    rewrite wrap64_small; unfold G' in Ccounted; gate_simpl; destruct c; lia. }
  settle HG HU HN G'.
Qed.

(** Taking the lock. *)
Lemma lock_ok n : threads G !! t = Some (Locking n) -> holder G = None -> gate_ok (at_pc (with_holder G (Some t)) t (Holding n)) c.
Proof.
  intros Hp Hh. pose proof (go_thread _ _ HG _ _ Hp) as HT. set (p' := Holding n).
  set (G' := at_pc _ t p'). assert (HM : moved G G' t p' false) by done. pose_counts G' HM.
  assert (Hf : waits p' = false /\ beginning p' = false /\ reason p' = None /\ before_wait p' = false /\ admitting p' = false /\
    exclusive_stage p' = exclusive_stage (Locking n) /\ finalizing_stage p' = finalizing_stage (Locking n) /\ abandoning p' = abandoning (Locking n) /\ pc_wf p' = true).
  { pose proof (to_wf _ _ _ _ HT) as Hwf. unfold p'. by destruct n. }
  destruct Hf as (F1 & F2 & F3 & F4 & F5 & F6 & F7 & F8 & F9). rewrite F1 in Cwaits. rewrite F2 in Cbeginning. unfold p' in Ccounted, Cauthority, Cexit. pc_simpl.
  assert (HU : undisturbed G G' c c t (Locking n) false).
  { unfold has_authority in Cauthority. quiet G'. }
  assert (HN : thread_ok G' c t p').
  { destruct HT. unfold G'. split; gate_simpl; rewrite ?F3, ?F4, ?F5, ?F6, ?F7, ?F8; try done; unfold p'; pc_simpl; try done; try tauto. }
  assert (HW : gate_word G' = word_of c (count counted (threads G'))).
  { unfold G'. gate_simpl. rewrite (go_word _ _ HG). f_equal. unfold G' in Ccounted. gate_simpl. lia. }
  settle HG HU HN G'.
Qed.

(** Settling the bit at the end of a guard. *)
Lemma settle_ok p : threads G !! t = Some (Settling p) ->
  let c' := negb (waiters G =? 0)%nat || coordinates_mutators (coordinator G) in
  let w := if c' then Z.lor (gate_word G) COORDINATED else Z.land (gate_word G) ACTIVE in
  gate_ok (at_pc (with_word G w) t (Unlocking p)) c'.
Proof.
  intros Hp c' w. pose proof (go_thread _ _ HG _ _ Hp) as HT.
  set (G' := at_pc _ t (Unlocking p)). assert (HM : moved G G' t (Unlocking p) false) by done. pose_counts G' HM. pc_simpl.
  assert (HU : undisturbed G G' c c' t (Settling p) false) by (quiet G').
  assert (HN : thread_ok G' c' t (Unlocking p)) by (destruct HT; unfold G'; place).
  assert (HW : gate_word G' = word_of c' (count counted (threads G'))).
  { unfold G' in *. gate_simpl. unfold w. destruct c'; [rewrite (gate_word_set G c HG)|rewrite (gate_word_active G c HG)]; unfold word_of; lia. }
  settle HG HU HN G'. intros Hc. unfold c', coordinates_mutators in Hc. apply orb_false_iff in Hc as [H1 H2].
  apply negb_false_iff, Nat.eqb_eq in H1. apply negb_false_iff, bool_decide_eq_true in H2. done.
Qed.

Lemma unlock_ok p : threads G !! t = Some (Unlocking p) -> gate_ok (at_pc (with_holder G None) t p) c.
Proof.
  intros Hp. pose proof (go_thread _ _ HG _ _ Hp) as HT. assert (Hwf : settles_to p = true) by apply HT.
  set (G' := at_pc _ t p). assert (HM : moved G G' t p false) by done. pose_counts G' HM.
  assert (Hf : holding p = false /\ waits p = false /\ beginning p = false /\ exit_pending p = false /\ reason p = None /\ before_wait p = false /\
    admitting p = false /\ abandoning p = false /\ pc_wf p = true /\ forall w, p <> EnterCas w).
  { by destruct p as [| | | | | | |[| | | | | | | |[| [] | | | | | | | | | |]| | | | | | | |]|[| [] | | | | | | | | | |]| | | | | | | |]. }
  destruct Hf as (F0 & F1 & F2 & F3 & F4 & F5 & F6 & F7 & F8 & F9). rewrite F1 in Cwaits. rewrite F2 in Cbeginning. rewrite F3 in Cexit. pc_simpl.
  assert (HU : undisturbed G G' c c t (Unlocking p) false).
  { unfold has_authority in Cauthority. quiet G'. }
  assert (HN : thread_ok G' c t p).
  { destruct HT. unfold G'. split; gate_simpl; rewrite ?F0, ?F4, ?F5, ?F6, ?F7; try done. intros w Hw. by apply F9 in Hw. }
  assert (HW : gate_word G' = word_of c (count counted (threads G'))).
  { unfold G'. gate_simpl. rewrite (go_word _ _ HG). f_equal. unfold G' in Ccounted. gate_simpl. lia. }
  settle HG HU HN G'.
Qed.

(** A waiter takes the lock back. *)
Lemma woken_ok l : threads G !! t = Some (Woken l) -> holder G = None ->
  gate_ok (at_pc (with_waiters (with_holder G (Some t)) (waiters G - 1)) t (Holding (NLoop l))) c.
Proof.
  intros Hp Hh. pose proof (go_thread _ _ HG _ _ Hp) as HT. pose proof (count_pos waits _ _ _ Hp eq_refl) as Hpos. rewrite <- (go_waiters _ _ HG) in Hpos.
  set (p' := Holding (NLoop l)). set (G' := at_pc _ t p'). assert (HM : moved G G' t p' false) by done. pose_counts G' HM. unfold p' in *. pc_simpl.
  assert (HU : undisturbed G G' c c t (Woken l) false) by (quiet G').
  assert (HN : thread_ok G' c t (Holding (NLoop l))) by (destruct HT; unfold G'; place).
  assert (HW : gate_word G' = word_of c (count counted (threads G'))).
  { unfold G' in *. gate_simpl. rewrite (go_word _ _ HG). f_equal. lia. }
  settle HG HU HN G'. intros Hc. destruct (go_ordinary0 Hc). lia.
Qed.
End entry.

(** A waiter's reason stands while the counts do. *)
Ltac reasons :=
  match goal with
  | H : reason _ = Some LAdmit -> _ |- reason _ = Some LAdmit -> _ => let Hr := fresh in intros Hr; destruct (H Hr); [by left|right; lia]
  | H : forall T, Some ?l = Some (LSync T) -> _ |- forall T, _ =>
      let T := fresh in let Hr := fresh in intros T Hr; destruct (H T Hr) as (? & ? & Hor); (split; [done|]); (split; [done|]); intros Ho;
      destruct (Hor Ho); [left; lia|right; lia]
  | H : Some ?l = Some LAdmit -> _ |- Some _ = Some LAdmit -> _ => let Hr := fresh in intros Hr; destruct (H Hr); [by left|right; lia]
  end.

Section locked.
Context (automatic : bool) (G : Gate) (c : bool) (HG : gate_ok G c) (t : nat).

(** Reading the count sets the bit. *)
Lemma read_ok p : threads G !! t = Some p -> holding p = true -> gate_ok (with_word G (Z.lor (gate_word G) COORDINATED)) true.
Proof.
  intros Hp Hh. pose proof (go_thread _ _ HG _ _ Hp) as HT. set (G' := with_word _ _). assert (HM : moved G G' t p false).
  { unfold moved. cbn. by rewrite list_insert_id. }
  assert (HU : undisturbed G G' c true t p false) by (quiet G').
  assert (HN : thread_ok G' true t p) by (destruct HT; unfold G'; by split).
  assert (HW : gate_word G' = word_of true (count counted (threads G'))) by (unfold G'; gate_simpl; apply (gate_word_set G c HG)).
  apply (move_ok G G' c true t p p false HG Hp HM HU HN HW); destruct HG; unfold G'; gate_simpl; done.
Qed.

Lemma wait_ok l : threads G !! t = Some (Holding (NWait l)) ->
  gate_ok (at_pc (with_word (with_waiters G (waiters G + 1)) (Z.lor (gate_word G) COORDINATED)) t (Holding (NBlock l))) true.
Proof.
  intros Hp. pose proof (go_thread _ _ HG _ _ Hp) as HT. set (p' := Holding (NBlock l)). set (G' := at_pc _ t p').
  assert (HM : moved G G' t p' false) by done. pose_counts G' HM. unfold p' in *. pc_simpl.
  assert (HU : undisturbed G G' c true t (Holding (NWait l)) false) by (quiet G').
  assert (HN : thread_ok G' true t (Holding (NBlock l))).
  { destruct HT; unfold G' in *; place; reasons. }
  assert (HW : gate_word G' = word_of true (count counted (threads G'))).
  { unfold G' in *. gate_simpl. rewrite (gate_word_set G c HG). f_equal. lia. }
  settle HG HU HN G'.
Qed.

Lemma block_ok l : threads G !! t = Some (Holding (NBlock l)) -> gate_ok (at_pc (with_holder G None) t (Waiting l)) c.
Proof.
  intros Hp. pose proof (go_thread _ _ HG _ _ Hp) as HT. set (p' := Waiting l). set (G' := at_pc _ t p').
  assert (HM : moved G G' t p' false) by done. pose_counts G' HM. unfold p' in *. pc_simpl.
  assert (HU : undisturbed G G' c c t (Holding (NBlock l)) false) by (quiet G').
  assert (HN : thread_ok G' c t (Waiting l)).
  { destruct HT; unfold G' in *; place; reasons. }
  assert (HW : gate_word G' = word_of c (count counted (threads G'))).
  { unfold G' in *. gate_simpl. rewrite (go_word _ _ HG). f_equal. lia. }
  settle HG HU HN G'.
Qed.

(** An entry under the lock. *)
Lemma add_ok b q : threads G !! t = Some (Holding (NAdd b q)) ->
  gate_ok (at_pc (if b then notify (with_word G (wrap64 (gate_word G + 1))) else with_word G (wrap64 (gate_word G + 1))) t (Settling q)) c.
Proof.
  intros Hp. pose proof (go_thread _ _ HG _ _ Hp) as HT. assert (Hwf : locked_wf (NAdd b q) = true) by apply HT.
  assert (Hq : counted q = true /\ waits q = false /\ has_authority q = b /\ sync_of q = sync_of (Holding (NAdd b q)) /\ authority q = authority (Holding (NAdd b q)) /\
    settles_to q = true /\ exclusive_stage q = false /\ finalizing_stage q = b) by (by destruct b, q).
  destruct Hq as (F1 & F2 & F3 & F4 & F5 & F6 & F7 & F8).
  rewrite (notify_eq (with_word G _)) by apply (go_waiters _ _ HG). set (G' := at_pc _ t (Settling q)).
  assert (HM : moved G G' t (Settling q) b) by (by destruct b). pose_counts G' HM. unfold has_authority in Cauthority, F3. pc_simpl. rewrite F1 in Ccounted. cbn [Nat.b2n] in Ccounted.
  assert (HU : undisturbed G G' c c t (Holding (NAdd b q)) b).
  { unfold G' in *. destruct b; gate_simpl; pc_simpl; split; gate_simpl; try (by left); try tauto. right. split; [done|]. split; [tauto|]. split; [lia|]. split; [tauto|].
    intros _ Ho. split; [done|]. lia. }
  assert (Hst : phase_of G = if b then Finalizing else phase_of G). { destruct b; [|done]. by apply (to_finalizing _ _ _ _ HT). }
  assert (HN : thread_ok G' c t (Settling q)).
  { destruct HT; unfold G' in *; destruct b; place; gate_simpl; rewrite ?F7, ?F8; try done. }
  assert (HW : gate_word G' = word_of c (count counted (threads G'))).
  { pose proof (count_bound G c HG) as Hb. unfold ACTIVE in Hb. unfold G' in *. destruct b; gate_simpl; rewrite (go_word _ _ HG); unfold word_of, COORDINATED;
      rewrite wrap64_small; destruct c; lia. }
  assert (Hex : phase_of G <> Exclusive).
  { destruct b; [congruence|]. destruct (to_admit _ _ _ _ HT eq_refl); congruence. }
  destruct b; settle HG HU HN G'.
Qed.

(** The last mutator's exit wakes the waiters. *)
Lemma exited_ok q : threads G !! t = Some (Holding (NExit q)) ->
  gate_ok (at_pc (if Z.of_nat (count counted (threads G)) =? 0 then notify G else G) t (Settling q)) c.
Proof.
  intros Hp. pose proof (go_thread _ _ HG _ _ Hp) as HT. assert (Hwf : exits_to q = true) by apply HT.
  assert (Hq : counted q = false /\ waits q = false /\ settles_to q = true /\ exclusive_stage q = false /\ finalizing_stage q = false).
  { by destruct q as [| | | | | | | |[| [] | | | | | | | | | |]| | | | | | | |]. }
  destruct Hq as (F1 & F2 & F3 & F4 & F5). rewrite (notify_eq G) by apply (go_waiters _ _ HG). set (b := Z.of_nat (count counted (threads G)) =? 0). set (G' := at_pc _ t (Settling q)).
  assert (HM : moved G G' t (Settling q) b) by (by destruct b). pose_counts G' HM. unfold has_authority in Cauthority. pc_simpl. rewrite F1 in Ccounted. cbn [Nat.b2n] in Ccounted.
  assert (HU : undisturbed G G' c c t (Holding (NExit q)) b).
  { destruct (Z.eqb_spec (Z.of_nat (count counted (threads G))) 0) as [H0|H0]; subst b; unfold G' in *; gate_simpl; split; gate_simpl; try (by left); try tauto.
    right. split; [done|]. split; [tauto|]. split; [lia|]. split; [tauto|]. intros _ Ho. split; [done|]. lia. }
  assert (HN : thread_ok G' c t (Settling q)).
  { destruct HT; unfold G' in *; destruct b; place; gate_simpl; rewrite ?F4, ?F5; try done. }
  assert (HW : gate_word G' = word_of c (count counted (threads G'))).
  { unfold G' in *. destruct b; gate_simpl; rewrite (go_word _ _ HG); f_equal; lia. }
  destruct b; settle HG HU HN G'.
Qed.
End locked.

Section handover.
Context (G : Gate) (HG : gate_ok G true) (t : nat).

(** A change of the coordinator's state, after which everyone wakes. *)
Lemma handover_ok p p' S r po : threads G !! t = Some p -> holding p = true -> has_authority p = true \/ phase_of G = Ordinary ->
  counted p' = counted p -> waits p = false -> waits p' = false ->
  let G' := at_pc (notify (MkGate (gate_word G) (holder G) (waiters G) S r po (threads G))) t p' in
  completed G <= completed_collection_epoch S -> (phase S = Ordinary -> completed G < completed_collection_epoch S \/ r = true) ->
  (collection_requested G = true -> r = true \/ has_authority p = true /\ phase S <> Ordinary) ->
  has_authority p' = (match phase S with Exclusive | Finalizing => true | _ => false end) ->
  active_collection S = match phase S with Exclusive | Finalizing => Some (completed_collection_epoch S + 1) | _ => None end ->
  (phase S = Exclusive -> count counted (threads G) = 0%nat) -> po = bool_decide (phase S = Poisoned) ->
  (completed_collection_epoch S <> 0 -> latest_report S = Some (completed_collection_epoch S)) ->
  thread_ok G' true t p' -> gate_ok G' true.
Proof.
  intros Hp Hh Ha E1 E2 E3 G' Hle Ho Hr HA Hac Hex Hpo Hrep HN.
  assert (EN : G' = at_pc (woken (MkGate (gate_word G) (holder G) (waiters G) S r po (threads G))) t p').
  { unfold G'. by rewrite notify_eq by apply (go_waiters _ _ HG). }
  rewrite EN in *. clear EN G'. set (G' := at_pc _ t p') in *. assert (HM : moved G G' t p' true) by done. pose_counts G' HM.
  rewrite E1 in Ccounted. rewrite E2, E3 in Cwaits. cbn [Nat.b2n] in Cwaits.
  assert (Hcount : count has_authority (threads G) = Nat.b2n (has_authority p)).
  { pose proof (count_pos has_authority _ _ _ Hp) as Hpos. rewrite (go_authority _ _ HG) in *. destruct (has_authority p).
    - specialize (Hpos eq_refl). by destruct (phase_of G); try lia.
    - destruct Ha as [|Ho']; [done|]. by rewrite Ho'. }
  assert (HU : undisturbed G G' true true t p true).
  { unfold G' in *. split; gate_simpl; try (by left); try tauto. }
  assert (HW : gate_word G' = word_of true (count counted (threads G'))).
  { unfold G' in *. gate_simpl. rewrite (go_word _ _ HG). f_equal. lia. }
  pose proof (go_waiters _ _ HG). pose proof (go_completed _ _ HG).
  apply (move_ok G G' true true t p p' true HG Hp HM HU HN HW); unfold G' in *; gate_simpl; try done; try lia.
  - rewrite HA in Cauthority. destruct (phase S); cbn [Nat.b2n] in Cauthority; lia.
  - intros Hx. specialize (Hex Hx). lia.
Qed.

(** The elected thread gets exclusive authority. *)
Lemma elected_ok p sync : threads G !! t = Some p -> holding p = true -> counted p = false -> waits p = false -> phase_of G = Ordinary -> count counted (threads G) = 0%nat ->
  (forall T, sync = Some T -> 1 <= T <= completed G + 1) ->
  gate_ok (at_pc (notify (with_coordinator G (MkCoordinator Exclusive (Some (completed G + 1)) (completed G) (latest_report (coordinator G))))) t
    (Settling (Locking (NCheck (completed G + 1) sync)))) true.
Proof.
  intros Hp Hh Hc Hw Ho H0 HS. pose proof (go_thread _ _ HG _ _ Hp) as HT. apply (to_holding _ _ _ _ HT) in Hh as Hhold.
  apply (handover_ok p); cbn; try done; try tauto; try lia.
  - rewrite (go_poisoned _ _ HG), Ho. done.
  - apply (go_report _ _ HG).
  - rewrite notify_eq by apply (go_waiters _ _ HG). place. intros T HT'. split; [by apply HS|]. done.
Qed.

Lemma complete_ok e sync : threads G !! t = Some (Holding (NComplete e sync)) -> active_collection (coordinator G) = Some e -> phase_of G = Finalizing ->
  gate_ok (at_pc (notify (with_coordinator G (MkCoordinator Ordinary None e (Some e)))) t
    (Settling (match sync with None => Active | Some target => Exiting (Locking (NLoop (LSync target))) end))) true.
Proof.
  intros Hp Ha Hf. pose proof (go_thread _ _ HG _ _ Hp) as HT. pose proof (go_active _ _ HG) as Hac. rewrite Hf, Ha in Hac. injection Hac as ->.
  assert (Hhold : holder G = Some t) by (by apply (to_holding _ _ _ _ HT)). pose proof (go_completed _ _ HG).
  apply (handover_ok (Holding (NComplete (completed G + 1) sync))); cbn; try done; try tauto; try lia; try (by destruct sync).
  - rewrite (go_poisoned _ _ HG), Hf. done.
  - rewrite notify_eq by apply (go_waiters _ _ HG). destruct HT. destruct sync as [T|]; place. intros T' [= <-]. destruct (to_sync0 T eq_refl). lia.
Qed.

Lemma abandon_ok e : threads G !! t = Some (Holding (NAbandon e)) -> active_collection (coordinator G) = Some e ->
  gate_ok (at_pc (notify (with_coordinator G (MkCoordinator Ordinary None (completed G) (latest_report (coordinator G))))) t (Settling Failed)) true.
Proof.
  intros Hp Ha. pose proof (go_thread _ _ HG _ _ Hp) as HT. assert (Hhold : holder G = Some t) by (by apply (to_holding _ _ _ _ HT)).
  assert (Hreq : collection_requested G = true) by (by apply (to_abandoning _ _ _ _ HT)).
  assert (Hn : phase_of G <> Poisoned). { intros H. pose proof (go_active _ _ HG) as Hac. rewrite H in Hac. congruence. }
  apply (handover_ok (Holding (NAbandon e))); cbn; try done; try tauto; try lia.
  - rewrite (go_poisoned _ _ HG). by rewrite bool_decide_false.
  - apply (go_report _ _ HG).
  - rewrite notify_eq by apply (go_waiters _ _ HG). place.
Qed.

Lemma poison_ok e q : threads G !! t = Some (Holding (NPoison e q)) ->
  gate_ok (at_pc (notify (with_coordinator (with_requested (with_poisoned G true) false) (MkCoordinator Poisoned None (completed G) (latest_report (coordinator G))))) t (Settling q)) true.
Proof.
  intros Hp. pose proof (go_thread _ _ HG _ _ Hp) as HT. assert (Hhold : holder G = Some t) by (by apply (to_holding _ _ _ _ HT)).
  assert (Hq : q = Failed \/ q = Exiting Failed). { pose proof (to_wf _ _ _ _ HT) as Hwf. destruct q as [| | | | | | |[]| | | | | | | | |]; try done; auto. }
  apply (handover_ok (Holding (NPoison e q))); cbn; try done; try tauto; try lia; try (by destruct Hq as [-> | ->]).
  - intros _. by right.
  - apply (go_report _ _ HG).
  - rewrite notify_eq by apply (go_waiters _ _ HG). destruct Hq as [-> | ->]; place.
Qed.

(** The collector becomes the finalizing mutator. *)
Lemma begin_ok e sync : threads G !! t = Some (Holding (NBegin e sync)) -> phase_of G = Exclusive ->
  gate_ok (at_pc (with_coordinator G (MkCoordinator Finalizing (active_collection (coordinator G)) (completed G) (latest_report (coordinator G)))) t
    (Holding (NCount true (Finalizer e sync)))) true.
Proof.
  intros Hp Hx. pose proof (go_thread _ _ HG _ _ Hp) as HT. set (p' := Holding (NCount true (Finalizer e sync))). set (G' := at_pc _ t p').
  assert (HM : moved G G' t p' false) by done. pose_counts G' HM. unfold p' in *. pc_simpl. cbn [Nat.b2n] in *.
  assert (HU : undisturbed G G' true true t (Holding (NBegin e sync)) false).
  { unfold G' in *. split; gate_simpl; try (by left); try tauto.
    - right. split; [done|]. split; [by left|]. split; [lia|done].
    - right. split; [done|]. split; [intros _; right; lia|]. split; [lia|]. split; [done|]. done. }
  assert (HN : thread_ok G' true t (Holding (NCount true (Finalizer e sync)))).
  { destruct HT; unfold G' in *; place. intros T HT'. split; [by apply to_sync0|done]. }
  assert (HW : gate_word G' = word_of true (count counted (threads G'))).
  { unfold G' in *. gate_simpl. rewrite (go_word _ _ HG). f_equal. lia. }
  pose proof (go_waiters _ _ HG). pose proof (go_active _ _ HG) as Hac. rewrite Hx in Hac. pose proof (go_authority _ _ HG) as Hau. rewrite Hx in Hau.
  apply (move_ok G G' true true t _ p' false HG Hp HM HU HN HW); unfold G' in *; gate_simpl; try done; try lia.
  - rewrite (go_poisoned _ _ HG), Hx. done.
  - apply (go_completed _ _ HG).
  - apply (go_report _ _ HG).
Qed.
End handover.

(** ** Every action *)
Section all_steps.
Context (automatic : bool) (G : Gate) (c : bool) (HG : gate_ok G c) (t : nat).

(** An action that succeeds in a gate that is well formed again, or finds the
    epochs used up. *)
Definition fine (m : M Gate) : Prop := (exists G' c', m = Ok G' /\ gate_ok G' c') \/ completed G = u64_max /\ m = Panic.

Lemma fine_ok G' c' : gate_ok G' c' -> fine (Ok G').
Proof. intros H. left. by exists G', c'. Qed.

Lemma elect_ok l b : threads G !! t = Some (Holding (NLoop l)) -> completed G = u64_max /\ elect_idle_collection G b = Panic \/
  exists G1 r, elect_idle_collection G b = Ok (G1, r) /\
    match r with
    | None => threads G1 = threads G /\ coordinator G1 = coordinator G /\ exists c1, gate_ok G1 c1 /\
        (phase_of G <> Ordinary \/ b = false \/ c1 = true /\ count counted (threads G) <> 0%nat)
    | Some e => forall sync, (forall T, sync = Some T -> 1 <= T <= completed G + 1) -> gate_ok (at_pc G1 t (Settling (Locking (NCheck e sync)))) true
    end.
Proof.
  intros Hp. unfold elect_idle_collection. destruct (bool_decide_reflect (phase_of G = Ordinary)) as [Ho|Ho]; cbn [negb orb].
  2:{ right. exists G, None. split; [done|]. split; [done|]. split; [done|]. exists c. split; [done|by left]. }
  destruct b; cbn [negb].
  2:{ right. exists G, None. split; [done|]. split; [done|]. split; [done|]. exists c. split; [done|]. right. by left. }
  unfold read_active. rewrite (gate_word_active G c HG). pose proof (read_ok G c HG t _ Hp eq_refl) as H1. set (G1 := with_word G _) in *.
  destruct (Z.eqb_spec (Z.of_nat (count counted (threads G))) 0) as [H0|H0]; cbn [negb].
  - unfold epoch_after. destruct (Z.eqb_spec (completed G) u64_max) as [Hmax|Hmax]; [by left|right]. cbn [mbind outcome_bind]. eexists _, _. split; [done|]. intros sync HS.
    apply (elected_ok G1 H1 t (Holding (NLoop l)) sync); try done. change (count counted (threads G) = 0%nat). lia.
  - right. exists G1, None. split; [done|]. split; [done|]. split; [done|]. exists true. split; [done|]. right. right. split; [done|lia].
Qed.

Lemma loop_ok l : threads G !! t = Some (Holding (NLoop l)) -> fine (locked_step automatic G t (NLoop l)).
Proof.
  intros Hp. pose proof (go_thread _ _ HG _ _ Hp) as HT. assert (Hhold : holder G = Some t) by (by apply (to_holding _ _ _ _ HT)). cbn [locked_step].
  pose proof (go_poisoned _ _ HG) as Hpo. destruct l as [|T].
  - destruct (poisoned G) eqn:EP; [eapply fine_ok; apply (local_ok G c HG t _ Hp); try done; place|].
    symmetry in Hpo. apply bool_decide_eq_false in Hpo. destruct (phase_of G) eqn:Eph; [| | |done].
    + destruct (elect_ok LAdmit (automatic && collection_requested G) Hp) as [[Hmax ->]|(G1 & r & -> & Hr)]; [by right|]. cbn [mbind outcome_bind]. destruct r as [e|].
      * eapply fine_ok. apply Hr. done.
      * destruct Hr as (Et & Ec & c1 & H1 & _). rewrite <- Et in Hp. pose proof (go_thread _ _ H1 _ _ Hp) as HT1. eapply fine_ok. apply (local_ok G1 c1 H1 t _ Hp); try done.
        destruct HT1; place; intros _; left; by rewrite Ec.
    + eapply fine_ok. apply (local_ok G c HG t _ Hp); try done. assert (c = true) as ->. { destruct c; [done|]. destruct (go_ordinary _ _ HG eq_refl). congruence. }
      place; intros _; by left.
    + eapply fine_ok. apply (local_ok G c HG t _ Hp); try done; place; intros _; by right.
  - destruct (poisoned G) eqn:EP; [eapply fine_ok; apply (local_ok G c HG t _ Hp); try done; place|].
    symmetry in Hpo. apply bool_decide_eq_false in Hpo. destruct (to_sync _ _ _ _ HT T eq_refl) as [HT1 HT2].
    destruct (Z.leb_spec T (completed G)) as [Hle|Hlt].
    + rewrite (go_report _ _ HG) by lia. cbn [expect mbind outcome_bind]. rewrite Z.eqb_refl, (proj2 (Z.leb_le _ _) Hle). cbn [rust_assert mbind outcome_bind].
      eapply fine_ok. apply (local_ok G c HG t _ Hp); try done; place.
    + destruct (elect_ok (LSync T) (collection_requested G) Hp) as [[Hmax ->]|(G1 & r & -> & Hr)]; [by right|]. cbn [mbind outcome_bind]. destruct r as [e|].
      * eapply fine_ok. apply Hr. by intros T' [= <-].
      * destruct Hr as (Et & Ec & c1 & H1 & Hwhy). rewrite <- Et in Hp. pose proof (go_thread _ _ H1 _ _ Hp) as HT3. eapply fine_ok. apply (local_ok G1 c1 H1 t _ Hp); try done.
        assert (Hnw : phase_of G = Ordinary -> count counted (threads G) <> 0%nat).
        { intros Ho. destruct Hwhy as [?|[Hreq|[_ ?]]]; [done| |done]. rewrite HT2 in Hreq; done. }
        assert (c1 = true) as ->.
        { destruct Hwhy as [Hn|[Hreq|[? _]]]; [| |done].
          - destruct c1; [done|]. destruct (go_ordinary _ _ H1 eq_refl) as [Ho _]. rewrite Ec in Ho. done.
          - destruct (decide (phase_of G = Ordinary)) as [Ho|Hn]; [rewrite HT2 in Hreq; done|]. destruct c1; [done|]. destruct (go_ordinary _ _ H1 eq_refl) as [Ho _]. rewrite Ec in Ho. done. }
        destruct HT3; place. intros T' [= <-]. rewrite Ec. split; [done|]. split; [done|]. intros Ho. left. specialize (Hnw Ho).
        pose proof (count_insert counted (threads G1) t _ (Holding (NWait (LSync T))) Hp) as Hci. rewrite Et in Hci |- *. pc_simpl. lia.
Qed.

Lemma request_ok : threads G !! t = Some (Holding NRequest) -> fine (locked_step automatic G t NRequest).
Proof.
  intros Hp. pose proof (go_thread _ _ HG _ _ Hp) as HT. assert (Hhold : holder G = Some t) by (by apply (to_holding _ _ _ _ HT)).
  pose proof (go_poisoned _ _ HG) as Hpo. cbn [locked_step]. destruct (poisoned G) eqn:EP; [eapply fine_ok; apply (local_ok G c HG t _ Hp); try done; place|].
  symmetry in Hpo. apply bool_decide_eq_false in Hpo. pose proof (go_completed _ _ HG). pose proof (go_active _ _ HG) as Hac.
  assert (Hr : completed G = u64_max /\ request_synchronous_collection (coordinator G) = Panic \/
    exists b, request_synchronous_collection (coordinator G) = Ok (completed G + 1, b) /\ (phase_of G = Ordinary -> b = true)).
  { unfold request_synchronous_collection, epoch_after. destruct (phase_of G) eqn:Eph; [| | |done].
    - destruct (Z.eqb_spec (completed G) u64_max); [by left|right; by exists true].
    - right. rewrite Hac. by exists false.
    - right. rewrite Hac. by exists false. }
  destruct Hr as [[Hmax ->]|(b & -> & Hb)]; [by right|]. cbn [mbind outcome_bind fst snd].
  assert (H1 : gate_ok (with_requested G (collection_requested G || b)) c).
  { destruct (collection_requested G || b) eqn:E.
    - apply (requested_ok G c HG t _ true Hp); [by left|]. destruct HT; place.
    - apply orb_false_iff in E as [E _]. replace (with_requested G false) with G; [done|]. destruct G. cbn in *. by subst. }
  eapply fine_ok. apply (local_ok _ c H1 t (Holding NRequest) Hp); try done. place. intros T [= <-]. split; [lia|]. intros Ho _. by rewrite Hb, orb_true_r.
Qed.

Lemma coordinated_phase : phase_of G <> Ordinary -> c = true.
Proof. intros Hn. destruct c; [done|]. by destruct (go_ordinary _ _ HG eq_refl). Qed.

Lemma authority_active p : threads G !! t = Some p -> forall e, authority p = Some e -> active_collection (coordinator G) = Some e /\ phase_of G <> Ordinary /\ phase_of G <> Poisoned /\ c = true.
Proof.
  intros Hp e He. pose proof (to_authority _ _ _ _ (go_thread _ _ HG _ _ Hp) e He) as Ha. pose proof (go_active _ _ HG) as Hac. rewrite Ha in Hac.
  assert (phase_of G <> Ordinary /\ phase_of G <> Poisoned) as [H1 H2] by (by destruct (phase_of G)). split_and!; [done..|by apply coordinated_phase].
Qed.

Lemma count_ok b q : threads G !! t = Some (Holding (NCount b q)) -> fine (locked_step automatic G t (NCount b q)).
Proof.
  intros Hp. cbn [locked_step read_active]. pose proof (read_ok G c HG t _ Hp eq_refl) as H1. rewrite (gate_word_active G c HG).
  pose proof (count_bound G c HG) as Hb. destruct (Z.eqb_spec (Z.of_nat (count counted (threads G))) ACTIVE); [lia|]. cbn [negb rust_assert mbind outcome_bind].
  set (G1 := with_word G _) in *. assert (Hp1 : threads G1 !! t = Some (Holding (NCount b q))) by done. pose proof (go_thread _ _ H1 _ _ Hp1) as HT.
  eapply fine_ok. apply (local_ok G1 true H1 t _ Hp1); try done; try (by destruct b). destruct HT; destruct b; place.
Qed.

Lemma exit_read_ok q : threads G !! t = Some (Holding (NExit q)) -> fine (locked_step automatic G t (NExit q)).
Proof.
  intros Hp. cbn [locked_step read_active]. pose proof (read_ok G c HG t _ Hp eq_refl) as H1. rewrite (gate_word_active G c HG).
  set (G1 := with_word G _) in *. eapply fine_ok. by apply (exited_ok G1 true H1).
Qed.

(** The collector checks its authority. *)
Lemma check_ok e sync : threads G !! t = Some (Holding (NCheck e sync)) -> fine (locked_step automatic G t (NCheck e sync)).
Proof.
  intros Hp. destruct (authority_active _ Hp e eq_refl) as (Ha & _). cbn [locked_step read_active]. pose proof (read_ok G c HG t _ Hp eq_refl) as H1. rewrite (gate_word_active G c HG).
  assert (Hx : phase_of G = Exclusive) by (by apply (to_exclusive _ _ _ _ (go_thread _ _ HG _ _ Hp))).
  rewrite Ha, Hx, !bool_decide_true by done. rewrite (go_exclusive _ _ HG Hx). cbn [rust_assert mbind outcome_bind Z.of_nat Z.eqb].
  set (G1 := with_word G _) in *. assert (Hp1 : threads G1 !! t = Some (Holding (NCheck e sync))) by done. pose proof (go_thread _ _ H1 _ _ Hp1) as HT.
  eapply fine_ok. apply (local_ok G1 true H1 t _ Hp1); try done. destruct HT; place.
Qed.

Lemma begins_ok e sync : threads G !! t = Some (Holding (NBegin e sync)) -> fine (locked_step automatic G t (NBegin e sync)).
Proof.
  intros Hp. destruct (authority_active _ Hp e eq_refl) as (Ha & _). cbn [locked_step read_active]. pose proof (read_ok G c HG t _ Hp eq_refl) as H1. rewrite (gate_word_active G c HG).
  assert (Hx : phase_of G = Exclusive) by (by apply (to_exclusive _ _ _ _ (go_thread _ _ HG _ _ Hp))).
  rewrite Hx, (go_exclusive _ _ HG Hx). rewrite (bool_decide_true (Exclusive = Exclusive)) by done. cbn [rust_assert mbind outcome_bind Z.of_nat Z.eqb].
  rewrite (bool_decide_true _ Ha). cbn [rust_assert mbind outcome_bind]. set (G1 := with_word G _) in *. eapply fine_ok. by apply (begin_ok G1 H1 t e sync).
Qed.

Lemma locked_ok n : threads G !! t = Some (Holding n) -> fine (locked_step automatic G t n).
Proof.
  intros Hp. pose proof (go_thread _ _ HG _ _ Hp) as HT.
  destruct n as [|l|l|l|b q|b q|q|e sync|e sync|e sync|e|e q].
  - by apply request_ok.
  - by apply loop_ok.
  - eapply fine_ok. by apply (wait_ok G c HG).
  - eapply fine_ok. by apply (block_ok G c HG).
  - by apply count_ok.
  - eapply fine_ok. by apply (add_ok G c HG).
  - by apply exit_read_ok.
  - by apply check_ok.
  - by apply begins_ok.
  - destruct (authority_active _ Hp e eq_refl) as (Ha & _ & _ & Hc). rewrite Hc in HG. cbn [locked_step].
    assert (Hf : phase_of G = Finalizing) by (by apply (to_finalizing _ _ _ _ HT)). rewrite (bool_decide_true _ Hf). cbn [rust_assert mbind outcome_bind]. rewrite (bool_decide_true _ Ha). cbn [rust_assert mbind outcome_bind]. eapply fine_ok. by apply complete_ok.
  - destruct (authority_active _ Hp e eq_refl) as (Ha & _ & _ & Hc). rewrite Hc in HG. cbn [locked_step]. rewrite (bool_decide_true _ Ha). eapply fine_ok. by apply (abandon_ok G HG t e).
  - destruct (authority_active _ Hp e eq_refl) as (Ha & _ & _ & Hc). rewrite Hc in HG. cbn [locked_step]. rewrite (bool_decide_true _ Ha). eapply fine_ok. by apply (poison_ok G HG t e).
Qed.

(** A choice the thread does not have leaves it as it is. *)
Definition next_ok (m : M (option Gate)) : Prop :=
  (exists r, m = Ok r /\ forall G', r = Some G' -> exists c', gate_ok G' c') \/ completed G = u64_max /\ m = Panic.

Lemma next_none : next_ok (Ok None).
Proof. left. by exists None. Qed.

Lemma next_some G' c' : gate_ok G' c' -> next_ok (Ok (Some G')).
Proof. intros H. left. exists (Some G'). split; [done|]. intros ? [= <-]. by exists c'. Qed.

(** A request, and a step after it. *)
Lemma requested_next p p' b : threads G !! t = Some p -> (b = true \/ phase_of G = Poisoned \/ has_authority p = true /\ phase_of G <> Ordinary) ->
  counted p' = counted p -> waits p' = waits p -> authority p' = authority p -> exit_pending p' = exit_pending p -> beginning p' = beginning p ->
  thread_ok (with_requested G b) c t p -> (forall G1, G1 = with_requested G b -> thread_ok (at_pc G1 t p') c t p') ->
  next_ok (Ok (Some (at_pc (with_requested G b) t p'))).
Proof.
  intros Hp Hb E1 E2 E3 E4 E5 HT HN. pose proof (requested_ok G c HG t p b Hp Hb HT) as H1. eapply next_some.
  apply (local_ok _ c H1 t p Hp); auto.
Qed.

Lemma step_ok p ch : threads G !! t = Some p -> next_ok (step automatic G t ch).
Proof.
  intros Hp. pose proof (go_thread _ _ HG _ _ Hp) as HT. unfold step, vec_get. rewrite Hp. cbn [expect mbind outcome_bind].
  assert (Hloc : forall p', counted p' = counted p -> waits p' = waits p -> authority p' = authority p -> exit_pending p' = exit_pending p ->
    beginning p' = beginning p -> thread_ok (at_pc G t p') c t p' -> next_ok (Ok (Some (at_pc G t p')))).
  { intros p' E1 E2 E3 E4 E5 HN. eapply next_some. by apply (local_ok G c HG t p Hp). }
  pose proof (go_poisoned _ _ HG) as Hpo.
  destruct p as [| | | |w|w| |q|n|n|q|q|l|l|e s|e s|e], ch; try apply next_none.
  - apply Hloc; try done. destruct HT; place.
  - apply Hloc; try done. destruct HT; place.
  - destruct (poisoned G) eqn:EP.
    + apply Hloc; try done. destruct HT; place.
    + apply (requested_next Idle); try done; [by left| |intros G1 ->]; destruct HT; place.
  - destruct (poisoned G) eqn:EP.
    + symmetry in Hpo. apply bool_decide_eq_true in Hpo.
      apply (requested_next Requesting); try done; [by right; left| |intros G1 ->]; destruct HT; place.
    + apply Hloc; try done. destruct HT; place.
  - apply Hloc; try done. destruct HT; place.
  - destruct (_ || _ || _) eqn:E; (apply Hloc; try done; destruct HT; place).
    intros w' [= <-]. apply orb_false_iff in E as [E _]. apply orb_false_iff in E as [E1 E2].
    apply negb_false_iff, Z.eqb_eq in E1. by apply Z.eqb_neq in E2.
  - destruct (Z.eqb_spec (gate_word G) w) as [Hw|Hw].
    + eapply next_some. by apply (enter_ok G c HG).
    + apply Hloc; try done. destruct HT; place.
  - apply Hloc; try done. destruct HT; place.
  - eapply next_some. apply (requested_ok G c HG t Active true Hp); [by left|]. destruct HT; place.
  - apply Hloc; try done. destruct HT; place.
  - pose proof (count_pos counted _ _ _ Hp eq_refl) as Hpos. rewrite (gate_word_active G c HG), (gate_word_coordinated G c HG).
    rewrite (proj2 (Z.eqb_neq (Z.of_nat _) 0)) by lia. cbn [negb rust_assert mbind outcome_bind]. pose proof (exit_ok G c HG t q Hp) as Hex.
    destruct c; by eapply next_some.
  - destruct (holder G) eqn:Eh; [apply next_none|]. eapply next_some. by apply (lock_ok G c HG).
  - destruct (locked_ok n Hp) as [(G' & c' & -> & H')|[Hmax ->]]; [by eapply next_some|by right].
  - eapply next_some. by apply (settle_ok G c HG).
  - eapply next_some. by apply (unlock_ok G c HG).
  - apply Hloc; try done. destruct HT; place.
  - destruct (holder G) eqn:Eh; [apply next_none|]. eapply next_some. by apply (woken_ok G c HG).
  - apply Hloc; try done. destruct HT; place.
  - apply Hloc; try done. destruct HT; place.
  - apply Hloc; try done. destruct HT; place.
  - destruct (authority_active _ Hp e eq_refl) as (_ & Hno & _).
    apply (requested_next (Finalizer e s)); try done; [by right; right| |intros G1 ->]; destruct HT; place; intros T HT'; (split; [by apply to_sync0|done]).
  - destruct (authority_active _ Hp e eq_refl) as (_ & Hno & _). eapply next_some. apply (requested_ok G c HG t _ true Hp); [by left|]. destruct HT; place; intros T HT'; (split; [by apply to_sync0|done]).
  - apply Hloc; try done. destruct HT; place.
  - apply Hloc; try done. destruct HT; place.
  - apply (requested_next (Abandoning e)); try done; [by left| |intros G1 ->]; destruct HT; place.
Qed.
End all_steps.

(** ** Reachable gates *)
Lemma start_ok n : Z.of_nat n < ACTIVE -> gate_ok (Gate_new n) false.
Proof.
  intros Hn. assert (Hc : forall f, f Idle = false -> count f (replicate n Idle) = 0%nat).
  { intros f Hf. clear Hn. induction n as [|n IH]; [done|]. cbn [replicate]. rewrite count_cons, Hf, IH. done. }
  split; unfold Gate_new; gate_simpl; cbn; rewrite ?Hc by done; try done.
  - by rewrite length_replicate.
  - intros t p Hp. apply lookup_replicate in Hp as [-> _]. by split.
Qed.

Section reachable.
Context (automatic : bool) (n : nat) (Hn : Z.of_nat n < ACTIVE).

Lemma runs_ok G : runs_to automatic n G -> exists c, gate_ok G c.
Proof.
  induction 1 as [|G t ch G' _ (c & HG) Hs]; [exists false; by apply start_ok|].
  destruct (threads G !! t) as [p|] eqn:Hp; [|unfold step, vec_get in Hs; by rewrite Hp in Hs].
  destruct (step_ok automatic G c HG t p ch Hp) as [(r & Hr & H')|[_ Hr]]; rewrite Hs in Hr; [|done]. injection Hr as <-. by apply H'.
Qed.

(** The lock is held by one of the threads. *)
Definition kept (G G' : Gate) (t : nat) : Prop :=
  length (threads G') = length (threads G) /\ (holder G' = holder G \/ holder G' = None \/ holder G' = Some t).

Lemma notify_kept G : length (threads (notify G)) = length (threads G) /\ holder (notify G) = holder G.
Proof. unfold notify. case_decide; [done|]. cbn. by rewrite length_fmap. Qed.

Lemma elect_kept G b G' r : elect_idle_collection G b = Ok (G', r) -> length (threads G') = length (threads G) /\ holder G' = holder G.
Proof.
  unfold elect_idle_collection, read_active. destruct (_ || _); [by intros [= <- _]|]. destruct (negb _); [by intros [= <- _]|].
  intros H. inv_ok. apply (notify_kept (MkGate _ _ _ _ _ _ _)).
Qed.

Lemma at_pc_kept G G' t p' : length (threads G') = length (threads G) /\ holder G' = holder G -> kept G (at_pc G' t p') t.
Proof. intros [E1 E2]. split; cbn; [by rewrite length_insert|by left]. Qed.

Lemma locked_kept G t l G' : locked_step automatic G t l = Ok G' -> kept G G' t.
Proof.
  destruct l as [|[|T]|l|l|b q|b q|q|e sync|e sync|e sync|e|e q]; cbn [locked_step read_active]; intros H;
    repeat match type of H with
    | (if ?b then _ else _) = _ => destruct b
    | (match ?x with _ => _ end) = _ => destruct x eqn:?
    | mbind _ _ = _ => inv_ok
    end; inv_ok; try done;
    try (apply at_pc_kept; first [by eapply elect_kept|apply (notify_kept (MkGate _ _ _ _ _ _ _))|done]).
  - split; [cbn; by rewrite length_insert|]. by right; left.
  - destruct b; apply at_pc_kept; [apply (notify_kept (MkGate _ _ _ _ _ _ _))|done].
  - apply at_pc_kept. destruct (_ =? 0); [apply (notify_kept (MkGate _ _ _ _ _ _ _))|done].
Qed.

Lemma step_kept G t ch G' : step automatic G t ch = Ok (Some G') -> kept G G' t.
Proof.
  intros H. unfold step in H. inv_ok. rename Hok into Hp.
  destruct x as [| | | |w|w| |q|l|l|q|q|l|l|e s|e s|e], ch; inv_ok; try done; try (by apply at_pc_kept);
    try (destruct (poisoned G); inv_ok; by apply at_pc_kept); try (split; [done|by left]).
  - destruct (_ || _ || _); inv_ok; by apply at_pc_kept.
  - destruct (_ =? _); inv_ok; by apply at_pc_kept.
  - destruct (Z.land _ COORDINATED =? 0); inv_ok; by apply at_pc_kept.
  - destruct (holder G); inv_ok. split; [cbn; by rewrite length_insert|]. by right; right.
  - by eapply locked_kept.
  - split; [cbn; by rewrite length_insert|]. by right; left.
  - destruct (holder G); inv_ok. split; [cbn; by rewrite length_insert|]. by right; right.
Qed.

Lemma runs_holder G : runs_to automatic n G -> forall h, holder G = Some h -> is_Some (threads G !! h).
Proof.
  induction 1 as [|G t ch G' _ IH Hs]; [done|]. destruct (step_kept _ _ _ _ Hs) as [HL Hh]. intros h Eh. apply lookup_lt_is_Some_2. rewrite HL. apply lookup_lt_is_Some_1.
  destruct Hh as [E|[E|E]]; rewrite E in Eh; [by apply IH|done|]. injection Eh as <-. unfold step in Hs. inv_ok. by eexists.
Qed.

(** ** Progress *)

(** A thread that is at work: it will notify, or make another notify. *)
Definition at_work (p : PC) : bool := has_authority p || counted p || exit_pending p.

Definition next_choice (p : PC) : Choice := match p with Active => CExit | _ => CGo end.

Lemma next_moves G t p r : threads G !! t = Some p -> at_work p = true \/ holding p = true -> holder G = None \/ holding p = true ->
  step automatic G t (next_choice p) = Ok r -> r <> None.
Proof.
  intros Hp Hw Hh H. unfold step, vec_get in H. rewrite Hp in H. cbn [expect mbind outcome_bind] in H.
  destruct p as [| | | |w|w| |q|l|l|q|q|l|l|e s|e s|e]; cbn [next_choice] in H; inv_ok; try done; try (by destruct Hw).
  - by destruct (Z.land _ COORDINATED =? 0); inv_ok.
  - destruct Hh as [Hh|]; [|done]. rewrite Hh in H. by inv_ok.
Qed.

Lemma someone_moves G t p : runs_to automatic n G -> threads G !! t = Some p -> at_work p = true ->
  completed G = u64_max \/ exists t' ch G', (ch = CGo \/ ch = CExit) /\ step automatic G t' ch = Ok (Some G').
Proof.
  intros HR Hp Hw. destruct (runs_ok G HR) as (c & HG).
  assert (Hx : exists t' q, threads G !! t' = Some q /\ (at_work q = true \/ holding q = true) /\ (holder G = None \/ holding q = true)).
  { destruct (holder G) as [h|] eqn:Eh; [|exists t, p; auto]. destruct (runs_holder G HR h Eh) as [q Hq]. exists h, q.
    assert (holding q = true) by (by apply (to_holding _ _ _ _ (go_thread _ _ HG _ _ Hq))). auto. }
  destruct Hx as (t' & q & Hq & H1 & H2). destruct (step_ok automatic G c HG t' q (next_choice q) Hq) as [(r & Hr & _)|[Hmax _]]; [right|by left].
  pose proof (next_moves G t' q r Hq H1 H2 Hr) as Hsome. destruct r as [G'|]; [|done]. exists t', (next_choice q), G'. split; [|done]. destruct q; auto.
Qed.

End reachable.

(** What a waiter waits for. *)
Lemma waiter_served G c t l : gate_ok G c -> threads G !! t = Some (Waiting l) ->
  phase_of G <> Poisoned /\ exists t' q, threads G !! t' = Some q /\ at_work q = true.
Proof.
  intros HG Hp. pose proof (go_thread _ _ HG _ _ Hp) as HT. pose proof (go_authority _ _ HG) as Ha.
  assert (Hsome : forall f, (forall q, f q = true -> at_work q = true) -> (count f (threads G) <> 0)%nat -> exists t' q, threads G !! t' = Some q /\ at_work q = true).
  { intros f Hf Hc. destruct (count_pos_inv f (threads G)) as (t' & q & Hq & Hfq); [lia|]. exists t', q. auto. }
  assert (Hau : count has_authority (threads G) <> 0%nat -> phase_of G <> Poisoned /\ exists t' q, threads G !! t' = Some q /\ at_work q = true).
  { intros Hc. split; [intros Ho; rewrite Ho in Ha; lia|]. apply (Hsome has_authority); [|done]. intros q Hq. unfold at_work. by rewrite Hq. }
  destruct l as [|T].
  - apply Hau. destruct (to_admit_reason _ _ _ _ HT eq_refl) as [Hx|Hb]; [rewrite Ha, Hx; lia|].
    destruct (count_pos_inv beginning (threads G)) as (t' & q & Hq & Hb'); [lia|]. pose proof (to_wf _ _ _ _ (go_thread _ _ HG _ _ Hq)) as Hwf.
    pose proof (stage_authority q Hwf) as Hs. assert (has_authority q = true) as Hauth.
    { apply Hs. right. by destruct q as [| | | | | | | | |[| | | |[]|[]| | | | | |]| | | | | | |]. }
    pose proof (count_pos has_authority _ _ _ Hq Hauth). lia.
  - destruct (to_sync_reason _ _ _ _ HT T eq_refl) as (_ & Hno & Ho). destruct (phase_of G) eqn:Eph; [|apply Hau; lia|apply Hau; lia|done].
    split; [done|]. destruct (Ho eq_refl) as [Hc|Hc].
    + apply (Hsome counted); [|done]. intros q Hq. unfold at_work. by rewrite Hq, orb_true_r.
    + apply (Hsome exit_pending); [|done]. intros q Hq. unfold at_work. by rewrite Hq, orb_true_r.
Qed.

(** ** The claims *)

(** C28. Admission is exclusive. In every run of fewer than [ACTIVE] threads, with
    any interleaving, no assertion fails until the epochs are used up; the word
    counts the threads inside; while a thread holds exclusive authority (from its
    election until its collection is committed, abandoned or poisons the heap) no
    thread is inside; and no two threads have collection authority, the one that
    has it collecting for the epoch after the last completed one. *)
Theorem admission_exclusive automatic n G : Z.of_nat n < ACTIVE -> runs_to automatic n G ->
  (forall t p ch, threads G !! t = Some p -> completed G <> u64_max -> exists r, step automatic G t ch = Ok r) /\
  Z.land (gate_word G) ACTIVE = Z.of_nat (count counted (threads G)) /\
  (forall t p, threads G !! t = Some p -> exclusive_stage p = true -> forall t' q, threads G !! t' = Some q -> counted q = false) /\
  (forall t p e, threads G !! t = Some p -> authority p = Some e ->
     e = completed G + 1 /\ forall t' q, threads G !! t' = Some q -> t' <> t -> authority q = None).
Proof.
  intros Hn HR. destruct (runs_ok automatic n Hn G HR) as (c & HG). split; [|split; [|split]].
  - intros t p ch Hp Hmax. destruct (step_ok automatic G c HG t p ch Hp) as [(r & Hr & _)|[? _]]; [by exists r|done].
  - apply (gate_word_active G c HG).
  - intros t p Hp Hx t' q Hq. pose proof (to_exclusive _ _ _ _ (go_thread _ _ HG _ _ Hp) Hx) as Ho. apply (go_exclusive _ _ HG) in Ho.
    destruct (counted q) eqn:E; [|done]. pose proof (count_pos _ _ _ _ Hq E). lia.
  - intros t p e Hp Ha. split.
    + destruct (authority_active G c HG t p Hp e Ha) as (Hac & Ho & Hpo & _). pose proof (go_active _ _ HG) as H. rewrite Hac in H. destruct (phase_of G); [done|congruence|congruence|done].
    + intros t' q Hq Hne. eapply (authority_alone G c t p t' q HG Hp); [|done|done]. unfold has_authority. by rewrite Ha.
Qed.

(** C29. No wake-up is missed. In every run, while a thread is blocked in the
    coordinator's condition variable the heap is not poisoned; some other thread
    is inside as a mutator, is on its way out, or has collection authority, so
    that it will notify; and, with no spurious wake-up, some thread can take its
    next action. A waiter is never left alone with idle, failed and waiting
    threads. *)
Theorem admission_live automatic n G t l : Z.of_nat n < ACTIVE -> runs_to automatic n G -> threads G !! t = Some (Waiting l) ->
  phase_of G <> Poisoned /\
  (exists t' q, threads G !! t' = Some q /\ t' <> t /\ at_work q = true) /\
  (completed G = u64_max \/ exists t' ch G', (ch = CGo \/ ch = CExit) /\ step automatic G t' ch = Ok (Some G')).
Proof.
  intros Hn HR Hp. destruct (runs_ok automatic n Hn G HR) as (c & HG). destruct (waiter_served G c t l HG Hp) as (Hpo & t' & q & Hq & Hw).
  split; [done|]. split; [|by apply (someone_moves automatic n Hn G t' q)]. exists t', q. split; [done|]. split; [|done]. intros ->. rewrite Hp in Hq. by injection Hq as <-.
Qed.

(** ** Sample runs *)
Fixpoint play (automatic : bool) (G : Gate) (l : list (nat * Choice)) : option Gate :=
  match l with
  | [] => Some G
  | (t, c) :: l => match step automatic G t c with Ok (Some G') => play automatic G' l | _ => None end
  end.

Lemma play_runs automatic n l G G' : runs_to automatic n G -> play automatic G l = Some G' -> runs_to automatic n G'.
Proof.
  revert G. induction l as [|[t c] l IH]; intros G HR H; cbn in H; [by injection H as <-|].
  destruct (step automatic G t c) as [[G1|]| | |] eqn:E; try done. apply (IH G1); [|done]. by eapply runs_step.
Qed.

(** A mutator is inside; a second thread asks for a collection and waits; the
    mutator leaves; the second thread is elected and collects. *)
Definition sample_wait : list (nat * Choice) :=
  [(0, CEnter); (0, CGo); (0, CGo); (0, CGo); (1, CSync); (1, CGo); (1, CGo); (1, CGo); (1, CGo); (1, CGo); (1, CGo); (1, CGo); (1, CGo)]%nat.
Definition sample_collect : list (nat * Choice) :=
  [(0, CExit); (0, CGo); (0, CGo); (0, CGo); (0, CGo); (0, CGo); (1, CGo); (1, CGo); (1, CGo); (1, CGo); (1, CGo); (1, CGo); (1, CGo); (1, CGo)]%nat.

Lemma admission_live_witness : exists G, play false (Gate_new 2) sample_wait = Some G /\ threads G !! 1%nat = Some (Waiting (LSync 1)) /\
  phase_of G <> Poisoned /\
  (exists t' q, threads G !! t' = Some q /\ t' <> 1%nat /\ at_work q = true) /\
  (completed G = u64_max \/ exists t' ch G', (ch = CGo \/ ch = CExit) /\ step false G t' ch = Ok (Some G')).
Proof.
  eexists. split; [vm_compute; reflexivity|]. split; [reflexivity|].
  apply (admission_live false 2 _ 1 (LSync 1)); [reflexivity| |reflexivity]. apply (play_runs false 2 sample_wait (Gate_new 2)); [constructor|vm_compute; reflexivity].
Defined.

Lemma admission_exclusive_witness : exists G, play false (Gate_new 2) (sample_wait ++ sample_collect) = Some G /\ threads G !! 1%nat = Some (Collecting 1 (Some 1)) /\
  (forall t p ch, threads G !! t = Some p -> completed G <> u64_max -> exists r, step false G t ch = Ok r) /\
  Z.land (gate_word G) ACTIVE = Z.of_nat (count counted (threads G)) /\
  (forall t p, threads G !! t = Some p -> exclusive_stage p = true -> forall t' q, threads G !! t' = Some q -> counted q = false) /\
  (forall t p e, threads G !! t = Some p -> authority p = Some e ->
     e = completed G + 1 /\ forall t' q, threads G !! t' = Some q -> t' <> t -> authority q = None).
Proof.
  eexists. split; [vm_compute; reflexivity|]. split; [reflexivity|].
  apply (admission_exclusive false 2); [reflexivity|]. apply (play_runs false 2 (sample_wait ++ sample_collect) (Gate_new 2)); [constructor|vm_compute; reflexivity].
Defined.
