(* ===== verification/Alloc.v ===== *)
(** * Allocation ([crates/glam-gc/src/heap.rs], [mutator.rs], [thread_cache.rs])

    A thread resolves a representation to an allocation class, and allocates from
    the cursor its cache has for the class. An empty cursor is replaced: the class
    is asked for a word of its frontier, the frontier advances over the class's
    runs, and at the end of the runs a new one is published, from the free runs or
    from the arena. Each operation runs under the locks its code takes; the words
    two of them may race for are those of [ClaimRaces]. The table of class keys in
    front of a thread's class map and the metrics are left out; the process's
    allocator is a parameter. *)
From stdpp Require Import base option list numbers gmap.
From Stdlib Require Import ZArith Lia.
From S2P Require Import Prelude RootPool RunGeometry Bitmaps Arena Heap Claim.

(** ** Allocation pressure *)
Definition FIXED_SURVIVOR_RUN_HEADROOM : Z := (Z.of_nat RUNS_PER_CHUNK * 7 / 8)%Z.
Definition SURVIVOR_GROWTH_NUMERATOR : Z := 1%Z.
Definition SURVIVOR_GROWTH_DENOMINATOR : Z := 2%Z.

Definition AllocationPressure_default : AllocationPressure := MkPressure 0 FIXED_SURVIVOR_RUN_HEADROOM.

(** The new pressure, and whether a collection is due. *)
Definition record_run_assignment (p : AllocationPressure) : AllocationPressure * bool :=
  let n := if (Z.of_nat (assigned_runs p) <? usize_max)%Z then S (assigned_runs p) else assigned_runs p in
  (MkPressure n (high_water_mark p), (high_water_mark p <=? Z.of_nat n)%Z).

Definition survivor_run_high_water_mark {E} (survivors growth_numerator growth_denominator : Z) : outcome E Z :=
  _ ← rust_assert (negb (growth_denominator =? 0)%Z);
  let growth :=
    match (product ← checked_mul survivors growth_numerator; checked_add product (growth_denominator - 1)) with
    | Some rounded => (rounded / growth_denominator)%Z
    | None => usize_max
    end in
  Ok (default usize_max (target ← checked_add survivors FIXED_SURVIVOR_RUN_HEADROOM; checked_add target growth)).

Definition publish_survivor_baseline {E} (p : AllocationPressure) (n : nat) : outcome E AllocationPressure :=
  _ ← rust_assert (assigned_runs p =? n);
  mark ← survivor_run_high_water_mark (Z.of_nat n) SURVIVOR_GROWTH_NUMERATOR SURVIVOR_GROWTH_DENOMINATOR;
  Ok (MkPressure (assigned_runs p) mark).

Definition run_capacity {E} (A : Arena) : outcome E Z := expect (checked_mul (Z.of_nat (length (arena_chunks A))) (Z.of_nat RUNS_PER_CHUNK)).

Definition publish_survivor_pressure_baseline {E} (D : ManagedData) : outcome E ManagedData :=
  total ← foldM (fun total C => expect (checked_add total (Z.of_nat (length (class_runs C))))) 0%Z (classes D);
  total ← expect (checked_add total (Z.of_nat (detached_run_count (finalization_batch D))));
  capacity ← run_capacity (arena D);
  _ ← rust_assert (total <=? capacity)%Z;
  p ← publish_survivor_baseline (allocation_pressure D) (Z.to_nat total);
  Ok (with_pressure D p).

Definition ManagedData_default : ManagedData :=
  MkData Arena_default ∅ [] [] (MkBatch ∅ 0) 0 [] AllocationPressure_default RootPool_default.

(** ** Classes *)
Record AllocationClass := MkAllocationClass { ac_metadata : ObjectMetadata; ac_id : AllocationClassId }.

Definition discover_class (D : ManagedData) (m : ObjectMetadata) (g : RunGeometry) : M (ManagedData * AllocationClass) :=
  match classes_by_metadata D !! m with
  | Some id =>
      index ← expect (class_index id);
      _ ← vec_get (classes D) index;
      Ok (D, MkAllocationClass m id)
  | None =>
      next ← class_id (length (classes D));
      let cs := classes D ++ [AllocationClassEntry_new m g] in
      index ← expect (class_index next);
      _ ← vec_get cs index;
      Ok (MkData (arena D) (<[m := next]> (classes_by_metadata D)) cs (retired_no_drop_runs D) (finalization_batch D) (running_finalizers D)
            (free_runs D) (allocation_pressure D) (root_pool D), MkAllocationClass m next)
  end.

Section allocation.
(** The address the process's allocator returns, given the chunks in use. *)
Context (allocate_memory : list Z -> option Z).

Definition chunk_bases (A : Arena) : list Z := chunk_base <$> arena_chunks A.

(** ** Runs *)
Definition heap_publish_run (D : ManagedData) (index : nat) (cls : AllocationClassId) (g : RunGeometry)
    : outcome RunPublicationError (ManagedData * bool) :=
  _ ← vec_get (classes D) index;
  Dl ← match last (free_runs D) with
       | Some l =>
           A ← map_err PublicationInitialization (initialize_run (arena D) (loc_chunk l) (loc_run l) cls g);
           Ok (with_free_runs (with_arena D A) (removelast (free_runs D)), l)
       | None =>
           Al ← publish_run (arena D) cls g (allocate_memory (chunk_bases (arena D)));
           Ok (with_arena D Al.1, Al.2)
       end;
  let '(D, l) := Dl in
  found ← run_claim_target (arena D) l;
  t ← expect found;
  C ← vec_get (classes D) index;
  C ← class_publish_run C t;
  let '(p, pressed) := record_run_assignment (allocation_pressure D) in
  Ok (with_pressure (with_classes D (<[index := C]> (classes D))) p, pressed).

(** ** Claims *)

(** [claim_frontier] *)
Definition claim_frontier (A : Arena) (C : AllocationClassEntry) : M (Arena * option ClaimedAllocationWord) :=
  match frontier C with
  | None => Ok (A, None)
  | Some t => claim_allocation_word A t
  end.

(** [.unwrap_or_else(|error| panic!(..))] *)
Definition unwrap {E A} (m : outcome E A) : M A :=
  match m with Ok a => Ok a | Err _ => Panic | Panic => Panic | OutOfFuel => OutOfFuel end.

(** Publishing entry [C] of class [index], whose frontier is claimed. *)
Definition claim_at_frontier (D : ManagedData) (index : nat) (C : AllocationClassEntry) : M (ManagedData * option ClaimedAllocationWord) :=
  t ← expect (frontier C);
  Ac ← claim_allocation_word (arena D) t;
  Ok (with_arena (with_classes D (<[index := C]> (classes D))) Ac.1, Ac.2).

(** The loop over the class's runs; the flag is set when a collection is due. *)
Fixpoint claim_runs (fuel : nat) (D : ManagedData) (index : nat) (cls : AllocationClassId) (g : RunGeometry) (requested : bool)
    : M (ManagedData * bool * AllocationCursor) :=
  match fuel with
  | O => OutOfFuel
  | S fuel =>
      C ← vec_get (classes D) index;
      advanced ← advance_frontier C;
      match advanced with
      | Some C =>
          Dc ← claim_at_frontier D index C;
          match Dc.2 with
          | Some c => Ok (Dc.1, requested, allocation_cursor cls c)
          | None => claim_runs fuel Dc.1 index cls g requested
          end
      | None =>
          Dp ← unwrap (heap_publish_run D index cls g);
          C ← vec_get (classes Dp.1) index;
          C ← activate_last_run C;
          Dc ← claim_at_frontier Dp.1 index C;
          match Dc.2 with
          | Some c => Ok (Dc.1, requested || Dp.2, allocation_cursor cls c)
          | None => claim_runs fuel Dc.1 index cls g (requested || Dp.2)
          end
      end
  end.

Definition claim_allocation_cursor (D : ManagedData) (class : AllocationClass) : M (ManagedData * bool * AllocationCursor) :=
  index ← expect (class_index (ac_id class));
  C ← vec_get (classes D) index;
  Ac ← claim_frontier (arena D) C;
  let D := with_arena D Ac.1 in
  match Ac.2 with
  | Some c => Ok (D, false, allocation_cursor (ac_id class) c)
  | None =>
      C ← vec_get (classes D) index;
      _ ← rust_assert (bool_decide (metadata C = ac_metadata class));
      Ac ← claim_frontier (arena D) C;
      let D := with_arena D Ac.1 in
      match Ac.2 with
      | Some c => Ok (D, false, allocation_cursor (ac_id class) c)
      | None => claim_runs (length (class_runs C) + 2) D index (ac_id class) (class_geometry C) false
      end
  end.

(** ** A thread's cache *)
Definition CACHED_CLASS_SLOTS : Z := 64%Z.

Definition ClassCursorCache : Type := list (option AllocationCursor).

Definition ClassCursorCache_default : ClassCursorCache := replicate (Z.to_nat CACHED_CLASS_SLOTS) None.

Definition cursor_slot (cls : AllocationClassId) : nat := Z.to_nat ((class_raw cls - 1) mod CACHED_CLASS_SLOTS).

Definition get_mut (cache : ClassCursorCache) (cls : AllocationClassId) : M (option AllocationCursor) :=
  entry ← vec_get cache (cursor_slot cls);
  Ok (match entry with Some c => if bool_decide (cursor_class c = cls) then Some c else None | None => None end).

(** [ClassCursorCache::clear] *)
Definition clear (cache : ClassCursorCache) : ClassCursorCache := (fun _ => None) <$> cache.

Definition insert (cache : ClassCursorCache) (c : AllocationCursor) : M ClassCursorCache := vec_set cache (cursor_slot (cursor_class c)) (Some c).

(** [ThreadCacheHandle::try_allocate]: the cursor in the cache is updated. *)
Definition cached_try_allocate (payload : Layout) (A : Arena) (cache : ClassCursorCache) (cls : AllocationClassId)
    : M (Arena * ClassCursorCache * option Z) :=
  found ← get_mut cache cls;
  match found with
  | None => Ok (A, cache, None)
  | Some c =>
      r ← try_allocate payload A c;
      let '(A, c, a) := r in
      cache ← vec_set cache (cursor_slot cls) (Some c);
      Ok (A, cache, a)
  end.

(** [Allocator::alloc]: the address of the new object, and whether a collection
    is due. *)
Definition alloc (D : ManagedData) (cache : ClassCursorCache) (class : AllocationClass) : M (ManagedData * ClassCursorCache * bool * Z) :=
  let payload := meta_layout (ac_metadata class) in
  r ← cached_try_allocate payload (arena D) cache (ac_id class);
  match r with
  | (A, cache, Some a) => Ok (with_arena D A, cache, false, a)
  | (A, cache, None) =>
      claimed ← claim_allocation_cursor (with_arena D A) class;
      let '(D, pressed, c) := claimed in
      cache ← insert cache c;
      r ← cached_try_allocate payload (arena D) cache (ac_id class);
      match r with
      | (A, cache, Some a) => Ok (with_arena D A, cache, pressed, a)
      | (_, _, None) => Panic
      end
  end.
End allocation.

(** [MutatorAccess::allocator] for a representation the thread has not resolved. *)
Definition allocator (D : ManagedData) (m : ObjectMetadata) : outcome GeometryError (ManagedData * AllocationClass) :=
  g ← derive (meta_layout m) (requested_slot_size m);
  lift (discover_class D m g).
