(* ===== verification/AllocFacts.v ===== *)
(** * Publishing runs in the arena

    [initialize_run] and [publish_run] type an empty run, the first of the arena
    or of a new chunk, with clear bitmaps, and leave every other run as it is. *)
From stdpp Require Import base option list numbers gmap sets.
From Stdlib Require Import ZArith Lia.
From S2P Require Import Prelude RunGeometry Bitmaps Arena ArenaFacts SweepArena RootPool Heap HeapFacts Marking.
From S2P Require Import MarkingFacts SweepFacts SweepPlan SweepSteps SweepCorrect Claim ClaimFacts ClaimRaces.
From S2P Require Import Alloc.

Local Open Scope Z_scope.

(** A geometry that some layout derives. *)
Definition derived (g : RunGeometry) : Prop := exists payload r, layout_wf payload /\ requested_wf r /\ derive payload r = Ok g.

Lemma derived_wf g : derived g -> geometry_wf g.
Proof.
  intros (payload & r & HL & Hr & Hd). destruct (derive_bounds _ _ _ HL Hr Hd) as (H1 & H2 & _ & _ & _ & _ & [H3 H4] & H5 & _). destruct HL as (H0 & _).
  unfold RUN_HEADER_SIZE in *. repeat split; [done|lia..].
Qed.

(** A run typed and empty of slots. *)
Definition opened (r : Run) (cls : AllocationClassId) (g : RunGeometry) : Prop :=
  header_class_id (header r) = Some cls /\ header_geometry (header r) = Some g /\ run_wf r /\
  (forall s, slot_bit (allocation r) s = false) /\ forall i, leased_word r i = false.

Lemma zero_bits n s : slot_bit (replicate n 0) s = false.
Proof. unfold slot_bit. destruct (replicate n 0 !! Z.to_nat (s / 64)) as [w|] eqn:E; [|done]. apply lookup_replicate in E as [-> _]. apply Z.bits_0. Qed.

Lemma zero_words b : 0 <= word_len b -> words_ok b (replicate (Z.to_nat (word_len b)) 0).
Proof. intros H. split; [rewrite length_replicate; lia|]. by apply Forall_replicate. Qed.

Lemma opened_zero {E} g cls : derived g -> class_raw cls <> 0 ->
  exists h, initialized (E:=E) cls g = Ok h /\ opened (zero_side_metadata h g) cls g.
Proof.
  intros HD Hcls. pose proof (derived_wf g HD) as HG. destruct HD as (payload & r & HL & Hr & Hd).
  destruct (header_roundtrip (E:=E) _ _ _ cls HL Hr Hd Hcls) as (h & Hi & Hv & He & Hc & Hg). exists h. split; [done|].
  pose proof (geometry_facts g HG) as (_ & Hn & _ & _ & _ & H1 & _ & H2 & _ & H3). pose proof (bitmap_words_bounds (slot_count g)).
  pose proof (bitmap_words_bounds (bitmap_words (slot_count g))).
  split; [done|]. split; [done|]. split.
  - split; [done|]. cbn [header zero_side_metadata]. rewrite Hg. split; [done|].
    split; [|split]; cbn [allocation leases marks zero_side_metadata]; apply zero_words; lia.
  - split; [intros s; apply zero_bits|]. intros i. apply zero_bits.
Qed.

Lemma empty_untyped r : header_is_empty (header r) = true -> header_class_id (header r) = None.
Proof.
  unfold header_is_empty, header_class_id. intros [-> Hz]%andb_true_iff. cbn. apply Z.eqb_eq in Hz. unfold AllocationClassId_new. by rewrite Hz.
Qed.

(** What publishing a run at [l] does to the arena. *)
Record run_published (A A' : Arena) (l : RunLocation) (cls : AllocationClassId) (g : RunGeometry) : Prop := {
  rp_wf : arena_wf A';
  rp_new : exists r, run_of A' l = Some r /\ opened r cls g;
  rp_empty : forall r, run_of A l = Some r -> header_is_empty (header r) = true;
  rp_old : forall l' r, run_of A l' = Some r -> l' <> l -> run_of A' l' = Some r;
  rp_back : forall l' r, run_of A' l' = Some r -> l' <> l -> run_of A l' = Some r \/ header_is_empty (header r) = true;
  rp_address : forall l' r, run_of A l' = Some r -> address_of A' l' = address_of A l';
  rp_chunks : (length (arena_chunks A) <= length (arena_chunks A'))%nat;
}.

Section publish.
Context (cls : AllocationClassId) (g : RunGeometry) (HD : derived g) (Hcls : class_raw cls <> 0).

Lemma initialize_in_ok c run r : chunk_wf c -> runs c !! run = Some r -> header_is_empty (header r) = true ->
  exists r', initialize_run_in c run cls g = Ok (MkArenaChunk (chunk_base c) (<[run := r']> (runs c))) /\ opened r' cls g.
Proof.
  intros (_ & _ & _ & HL) Hr He. destruct (opened_zero (E:=RunInitializationError) g cls HD Hcls) as (h & Hh & HO). exists (zero_side_metadata h g). split; [|done].
  unfold initialize_run_in. rewrite (proj2 (run_address_Some c run _)) by (split; [apply lookup_lt_Some in Hr; lia|done]). cbn [ok_or mbind outcome_bind].
  destruct (derived_wf g HD) as (-> & _). cbn [negb]. rewrite Hr. cbn [expect mbind outcome_bind].
  pose proof He as He'. unfold header_is_empty in He'. apply andb_true_iff in He' as [-> _]. rewrite He. cbn [negb]. by rewrite Hh.
Qed.

Lemma put_published A l r r' : arena_wf A -> run_of A l = Some r -> header_is_empty (header r) = true -> opened r' cls g -> run_published A (put_run A l r') l cls g.
Proof.
  intros WA Hr He HO. pose proof HO as (_ & _ & HW & _). destruct (put_replaced A l r r' WA Hr HW) as (W' & HR & HA). split; [done| | | | | |].
  - exists r'. rewrite HR, decide_True by done. done.
  - intros x Hx. congruence.
  - intros l' x Hx Hne. by rewrite HR, decide_False.
  - intros l' x Hx Hne. rewrite HR, decide_False in Hx by done. by left.
  - intros. apply HA.
  - cbn. by rewrite length_alter.
Qed.

Lemma initialize_run_ok A l r : arena_wf A -> run_of A l = Some r -> header_is_empty (header r) = true ->
  exists A', initialize_run A (loc_chunk l) (loc_run l) cls g = Ok A' /\ run_published A A' l cls g.
Proof.
  intros WA Hr He. pose proof Hr as (c & Hc & Hrc)%run_of_Some. destruct (aw_chunk _ WA _ _ Hc) as [HW _].
  destruct (initialize_in_ok c _ r HW Hrc He) as (r' & Hi & HO). exists (put_run A l r'). split; [|by eapply put_published].
  unfold initialize_run. rewrite Hc. cbn [ok_or mbind outcome_bind]. rewrite Hi. cbn [mbind outcome_bind]. unfold put_run. f_equal. f_equal.
  by rewrite (alter_at _ _ _ _ Hc).
Qed.

Lemma publish_in_chunks_ok cs k : Forall chunk_wf cs ->
  (publish_in_chunks cs k cls g = Ok None) \/
  exists j c run r r', cs !! j = Some c /\ runs c !! run = Some r /\ header_is_empty (header r) = true /\ opened r' cls g /\
    publish_in_chunks cs k cls g = Ok (Some (<[j := MkArenaChunk (chunk_base c) (<[run := r']> (runs c))]> cs, MkLocation (k + j) run)).
Proof.
  intros HW. revert k. induction HW as [|c cs Hc HW IH]; intros k; cbn [publish_in_chunks]; [by left|].
  unfold first_empty_run. destruct (list_find _ (runs c)) as [[run r]|] eqn:Ef; cbn [fmap option_fmap option_map fst].
  - right. apply list_find_Some in Ef as (Hr & He & _). destruct (initialize_in_ok c run r Hc Hr He) as (r' & Hi & HO). exists 0%nat, c, run, r, r'.
    rewrite Hi. cbn. rewrite Nat.add_0_r. done.
  - destruct (IH (S k)) as [->|(j & c' & run & r & r' & Hj & Hr & He & HO & ->)]; [by left|right]. exists (S j), c', run, r, r'. cbn. rewrite Nat.add_succ_r. done.
Qed.

Lemma runs_per_chunk_pos : (0 < RUNS_PER_CHUNK)%nat.
Proof. apply Nat.ltb_lt. reflexivity. Qed.

(** A base the allocator may return. *)
Definition fresh_base (A : Arena) (b : Z) : Prop :=
  0 < b /\ (ARENA_CHUNK_SIZE | b) /\ b + ARENA_CHUNK_SIZE <= usize_max /\ b ∉ chunk_base <$> arena_chunks A.

Lemma empty_run_wf : run_wf (MkRun RunGeometry.empty [] [] []).
Proof. done. Qed.

(** The arena with a new chunk whose first run is typed. *)
Lemma appended_published A b r' : arena_wf A -> fresh_base A b -> opened r' cls g ->
  let c := MkArenaChunk b (<[0%nat := r']> (replicate RUNS_PER_CHUNK (MkRun RunGeometry.empty [] [] []))) in
  run_published A (MkArena (arena_chunks A ++ [c]) (<[b := length (arena_chunks A)]> (chunk_indices A))) (MkLocation (length (arena_chunks A)) 0) cls g.
Proof.
  intros WA (Hb & Hd & Hm & Hf) HO c. set (A' := MkArena _ _). set (l := MkLocation _ _). pose proof HO as (_ & _ & HW & _).
  assert (Hnew : forall n x, runs c !! n = Some x -> (n = 0%nat /\ x = r') \/ (n <> 0%nat /\ x = MkRun RunGeometry.empty [] [] [])).
  { intros n x Hx. cbn in Hx. destruct (decide (n = 0%nat)) as [->|Hn]; [left|right].
    - rewrite list_lookup_insert_eq in Hx by (rewrite length_replicate; apply runs_per_chunk_pos). split; congruence.
    - rewrite list_lookup_insert_ne in Hx by done. by apply lookup_replicate in Hx as [-> _]. }
  assert (Hrun : forall l' x, run_of A' l' = Some x -> run_of A l' = Some x \/ (loc_chunk l' = length (arena_chunks A) /\ runs c !! loc_run l' = Some x)).
  { intros l' x (c' & Hc' & Hx)%run_of_Some. cbn in Hc'. apply lookup_app_Some in Hc' as [Hc'|[Hge Hc']]; [left; apply run_of_Some; by exists c'|right].
    apply list_lookup_singleton_Some in Hc' as [Hz <-]. split; [lia|done]. }
  assert (Hold : forall i c', arena_chunks A !! i = Some c' -> arena_chunks A' !! i = Some c') by (intros i c' Hc'; cbn; by apply lookup_app_l_Some).
  split.
  - split.
    + intros i c' Hc'. cbn in Hc'. apply lookup_app_Some in Hc' as [Hc'|[Hge Hc']].
      * destruct (aw_chunk _ WA _ _ Hc') as [HWc Hi]. split; [done|]. cbn. rewrite lookup_insert_ne; [done|]. intros ->. apply Hf. by apply list_elem_of_fmap_2, list_elem_of_lookup_2 with i.
      * apply list_lookup_singleton_Some in Hc' as [Hz <-]. assert (i = length (arena_chunks A)) as -> by lia. split; [|cbn; by rewrite lookup_insert_eq].
        split; [done|]. split; [done|]. split; [done|]. cbn [runs c]. by rewrite length_insert, length_replicate.
    + intros b' i Hi. cbn in Hi. apply lookup_insert_Some in Hi as [[<- <-]|[Hne Hi]].
      * exists c. split; [cbn; by rewrite lookup_app_r, Nat.sub_diag|done].
      * destruct (aw_index _ WA _ _ Hi) as (c' & Hc' & Hbase). exists c'. auto.
    + intros l' x [Hx|[_ Hx]]%Hrun; [by eapply (aw_run _ WA)|]. apply Hnew in Hx as [[_ ->]|[_ ->]]; [done|apply empty_run_wf].
  - exists r'. split; [|done]. apply run_of_Some. exists c. split; [cbn; by rewrite lookup_app_r, Nat.sub_diag|]. cbn. apply list_lookup_insert_eq. rewrite length_replicate. apply runs_per_chunk_pos.
  - intros x (c' & Hc' & _)%run_of_Some. apply lookup_lt_Some in Hc'. cbn in Hc'. lia.
  - intros l' x (c' & Hc' & Hx)%run_of_Some Hne. apply run_of_Some. exists c'. auto.
  - intros l' x [Hx|[Hl Hx]]%Hrun Hne; [by left|right]. apply Hnew in Hx as [[Hz _]|[_ ->]]; [|done]. exfalso. apply Hne. destruct l'. cbn in *. by subst.
  - intros l' x (c' & Hc' & _)%run_of_Some. unfold address_of. by rewrite Hc', (Hold _ _ Hc').
  - cbn. rewrite length_app. lia.
Qed.

(** [publish_run] fails only when it needs memory and gets none. *)
Lemma publish_run_ok A allocated : arena_wf A -> (forall b, allocated = Some b -> fresh_base A b) ->
  (allocated = None /\ publish_run A cls g allocated = Err (PublicationArena AllocationFailed)) \/
  exists A' l, publish_run A cls g allocated = Ok (A', l) /\ run_published A A' l cls g.
Proof.
  intros WA HF. unfold publish_run. destruct (derived_wf g HD) as (-> & _). cbn [negb].
  assert (HC : Forall chunk_wf (arena_chunks A)). { apply Forall_lookup_2. intros i c Hc. by apply (aw_chunk _ WA i c). }
  destruct (publish_in_chunks_ok _ 0 HC) as [->|(j & c & run & r & r' & Hc & Hr & He & HO & ->)]; cbn [mbind outcome_bind].
  2:{ right. eexists _, _. split; [done|]. assert (Hrun : run_of A (MkLocation j run) = Some r) by (apply run_of_Some; by exists c).
      pose proof (put_published A _ r r' WA Hrun He HO) as HP. unfold put_run in HP. cbn [loc_chunk loc_run] in HP. by rewrite (alter_at _ _ _ _ Hc) in HP. }
  destruct allocated as [b|]; [right|by left]. specialize (HF b eq_refl). cbn [allocate_chunk ok_or map_err mbind outcome_bind].
  set (c := MkArenaChunk b _). pose proof HF as (Hb & Hd & Hm & Hn).
  assert (HWc : chunk_wf c) by (split; [done|]; split; [done|]; split; [done|]; apply length_replicate).
  destruct (initialize_in_ok c 0 (MkRun RunGeometry.empty [] [] [])) as (r' & -> & HO); [done| |done|].
  { apply lookup_replicate. split; [done|]. apply runs_per_chunk_pos. }
  cbn [map_err mbind outcome_bind]. set (c' := MkArenaChunk (chunk_base c) _).
  assert (HWc' : chunk_wf c'). { split; [done|]. split; [done|]. split; [done|]. cbn. by rewrite length_insert, length_replicate. }
  unfold publish_chunk. rewrite (chunk_range_ok c' HWc'). cbn [mbind outcome_bind fst].
  assert (Hi : chunk_indices A !! chunk_base c' = None).
  { destruct (chunk_indices A !! chunk_base c') as [i|] eqn:E; [exfalso|done]. destruct (aw_index _ WA _ _ E) as (x & Hx & Hbase). apply Hn.
    apply list_elem_of_fmap. exists x. split; [done|]. by eapply list_elem_of_lookup_2. }
  rewrite Hi. cbn [map_err mbind outcome_bind fst snd]. eexists _, _. split; [done|]. by apply (appended_published A b r').
Qed.
End publish.

(** * Allocation words and objects

    A claim keeps the heap's headers and allocation bits; a cursor owns the free
    slots of a leased word, and an allocation from it adds one object and changes
    no other. [heap_grown] states what allocation leaves of a heap: its classes,
    runs and objects. *)

(** ** Growth *)

(** The memory typed in [A] is so typed in [A'], with the leases of [A]; the
    allocation words outside [touched] are the same. *)
Record arena_grown (touched : RunLocation -> nat -> Prop) (A A' : Arena) : Prop := {
  ag_run : forall l cls g r, typed A l cls g r -> exists r', typed A' l cls g r' /\
    (forall k, Z.of_nat k < word_len (allocation_bitmap g) -> leased_word r k = true -> leased_word r' k = true) /\
    forall k, ~ touched l k -> allocation r' !! k = allocation r !! k;
  ag_address : forall l cls g r, typed A l cls g r -> address_of A' l = address_of A l;
}.

#[export] Instance arena_grown_preorder touched : PreOrder (arena_grown touched).
Proof.
  split.
  - intros A. split; [|done]. intros l cls g r HT. by exists r.
  - intros A1 A2 A3 [H1 H2] [H3 H4]. split; intros l cls g r HT; destruct (H1 l cls g r HT) as (r2 & HT2 & HL2 & HA2).
    + destruct (H3 l cls g r2 HT2) as (r3 & HT3 & HL3 & HA3). exists r3. split; [done|]. split; [auto|]. intros k Hk. by rewrite HA3, HA2.
    + rewrite (H4 l cls g r2 HT2). by eapply H2.
Qed.

Lemma arena_grown_weaken (T1 T2 : RunLocation -> nat -> Prop) A A' : (forall l k, T1 l k -> T2 l k) -> arena_grown T1 A A' -> arena_grown T2 A A'.
Proof.
  intros HT [H1 H2]. split; [|done]. intros l cls g r Hr. destruct (H1 l cls g r Hr) as (r' & ? & ? & HA). exists r'. split; [done|]. split; [done|].
  intros k Hk. apply HA. auto.
Qed.

Lemma grown_target T A A' t cls : arena_grown T A A' -> target_ok A t cls -> target_ok A' t cls.
Proof.
  intros [H1 H2] [(r & HT) Ha]. destruct (H1 _ _ _ _ HT) as (r' & HT' & _). split; [by exists r'|]. by rewrite (H2 _ _ _ _ HT).
Qed.

Lemma grown_owner T A A' o : arena_grown T A A' -> owner_ok A o -> owner_ok A' o.
Proof.
  intros [H1 H2] ((r & HT) & Ha & Hs). destruct (H1 _ _ _ _ HT) as (r' & HT' & _). split; [by exists r'|]. split; [|done]. by rewrite (H2 _ _ _ _ HT).
Qed.

(** Replacing the memory of one typed run. *)
Lemma replaced_grown (T : RunLocation -> nat -> Prop) A A' l cls g r r' : typed A l cls g r -> replaced A A' l r' -> header r' = header r ->
  (forall k, Z.of_nat k < word_len (allocation_bitmap g) -> leased_word r k = true -> leased_word r' k = true) -> (forall k, ~ T l k -> allocation r' !! k = allocation r !! k) -> arena_grown T A A'.
Proof.
  intros (Hr & _ & Hgr) (_ & HR & HA) Hh HL HAl. split; [|intros l' c' g' x _; apply HA]. intros l' c' g' x (Hx & Hc & Hg). destruct (decide (l' = l)) as [->|Hne].
  - assert (x = r) as -> by congruence. assert (g' = g) as -> by congruence. exists r'. split; [|done]. unfold typed. rewrite HR, decide_True, Hh by done. done.
  - exists x. split; [|done]. unfold typed. rewrite HR, decide_False by done. done.
Qed.

(** The classes, objects and the rest of [D] are in [D']. *)
Record heap_grown (T : RunLocation -> nat -> Prop) (D D' : ManagedData) : Prop := {
  hg_arena : arena_grown T (arena D) (arena D');
  hg_class : forall i C, classes D !! i = Some C -> exists C', classes D' !! i = Some C' /\ metadata C' = metadata C /\
    class_geometry C' = class_geometry C /\ class_runs C ⊆ class_runs C';
  hg_object : forall a o m, object D a o m -> object D' a o m;
  hg_batch : finalization_batch D' = finalization_batch D;
  hg_pool : root_pool D' = root_pool D;
  hg_running : running_finalizers D' = running_finalizers D;
}.

#[export] Instance heap_grown_preorder T : PreOrder (heap_grown T).
Proof.
  split.
  - intros D. split; [reflexivity| |done..]. intros i C HC. by exists C.
  - intros D1 D2 D3 [A1 C1 O1 B1 P1 R1] [A2 C2 O2 B2 P2 R2]. split; [by transitivity (arena D2)| |auto|congruence..].
    intros i C HC. destruct (C1 i C HC) as (C' & HC' & Hm & Hg & Hs). destruct (C2 i C' HC') as (C'' & HC'' & Hm' & Hg' & Hs'). exists C''.
    split; [done|]. split; [congruence|]. split; [congruence|]. by transitivity (class_runs C').
Qed.

Lemma heap_grown_weaken (T1 T2 : RunLocation -> nat -> Prop) D D' : (forall l k, T1 l k -> T2 l k) -> heap_grown T1 D D' -> heap_grown T2 D D'.
Proof. intros HT [H1 H2 H3 H4 H5 H6]. split; try done. by eapply arena_grown_weaken. Qed.

(** Nothing is touched. *)
Notation untouched := (fun (_ : RunLocation) (_ : nat) => False).

(** The objects are the same. *)
Definition same_objects (D D' : ManagedData) : Prop := forall a o m, object D' a o m <-> object D a o m.

#[export] Instance same_objects_equiv : Equivalence same_objects.
Proof. split; [done|intros ? ? H a o m; by symmetry|]. intros D1 D2 D3 H1 H2 a o m. by rewrite (H2 a o m), (H1 a o m). Qed.

(** ** Claiming a word *)
Lemma target_memory_ok {E} A l r : run_of A l = Some r -> target_memory (E:=E) A l = Ok r.
Proof. intros (c & Hc & Hr)%run_of_Some. unfold target_memory. rewrite Hc. cbn. by rewrite Hr. Qed.

(** Word [i] of the run at [l] is leased. *)
Definition word_leased (A : Arena) (l : RunLocation) (i : nat) : Prop := exists r, run_of A l = Some r /\ leased_word r i = true.

Lemma grown_leased T A A' l cls g r i : arena_grown T A A' -> typed A l cls g r -> Z.of_nat i < word_len (allocation_bitmap g) -> leased_word r i = true -> word_leased A' l i.
Proof. intros [H1 _] HT Hi Hl. destruct (H1 _ _ _ _ HT) as (r' & (Hr' & _) & HL & _). exists r'. auto. Qed.

(** The word [i] of [t] is leased for a mask of its free slots. *)
Definition word_held (A : Arena) (t : RunClaimTarget) (i : nat) (mask : Z) : Prop :=
  exists r, run_of A (target_location t) = Some r /\ owns (target_geometry t) r i /\ mask_ok (target_geometry t) r i mask.

Definition claim_outcome (A A' : Arena) (t : RunClaimTarget) (res : option ClaimedAllocationWord) : Prop :=
  match res with
  | Some c => claimed_location c = target_location t /\ claimed_run c = target_run t /\ claimed_geometry c = target_geometry t /\
      ~ word_leased A (target_location t) (claimed_word c) /\ word_held A' t (claimed_word c) (claimed_mask c) /\ claimed_mask c <> 0
  | None => forall r k, run_of A (target_location t) = Some r -> Z.of_nat k < word_len (allocation_bitmap (target_geometry t)) ->
      leased_word r k = true \/ word_has_free r (target_geometry t) k = false
  end.

Definition claimed_of (t : RunClaimTarget) (c : nat * Z) : ClaimedAllocationWord :=
  MkClaimed (target_location t) (target_run t) (target_geometry t) c.1 c.2.

Lemma claim_word_ok {E} A t cls : arena_wf A -> target_ok A t cls ->
  exists A' res, claim_allocation_word (E:=E) A t = Ok (A', res) /\ arena_wf A' /\ same_slots A A' /\ arena_grown untouched A A' /\ claim_outcome A A' t res.
Proof.
  intros WA [(r & HT) Ha]. destruct (typed_wf A WA _ _ _ _ HT) as [HG HB]. pose proof HT as (Hr & Hc & Hg).
  destruct (claim_in_run_ok (target_geometry t) HG (E:=E) r HB) as (r' & res & Hcl & Hres).
  assert (HLB : exists p, leased_below (target_geometry t) r r' p) by (destruct res as [[i free]|]; [by eexists; apply Hres|by eexists; apply Hres]).
  destruct HLB as (p & HLB). pose proof HLB as [HB' Hh HAl HMk HLs].
  assert (Hwf : run_wf r') by (split; rewrite Hh; [by apply (aw_run _ WA _ _ Hr)|by rewrite Hg]).
  pose proof (put_replaced A _ r r' WA Hr Hwf) as HRep.
  exists (put_run A (target_location t) r'), (claimed_of t <$> res). split.
  { unfold claim_allocation_word. rewrite (target_memory_ok _ _ r Hr). cbn [mbind outcome_bind]. rewrite Hcl. cbn [mbind outcome_bind fst snd]. by destruct res as [[]|]. }
  split; [apply HRep|]. split; [|split].
  - split; [|apply HRep]. intros l. destruct HRep as (_ & -> & _). case_decide as Hd; [subst; rewrite Hr; cbn; congruence|done].
  - eapply replaced_grown; [exact HT|exact HRep|done| |]. 
    + intros k Hk Hl. by rewrite HLs, Hl.
    + intros k _. by rewrite HAl.
  - destruct res as [[i free]|]; cbn.
    + destruct Hres as (Hi & Hu & Hf & Hfm & _ & HLB'). do 3 (split; [done|]). destruct HB as (HBa & _). destruct (free_mask_ok (E:=E) (target_geometry t) r i HBa Hi) as (m & Hm & Hmw & Hmz & Hmb).
      assert (m = free) as -> by congruence. split; [intros (x & Hx & Hl); congruence|]. split.
      * exists r'. split; [destruct HRep as (_ & -> & _); by rewrite decide_True|]. split.
        -- split; [done|]. rewrite (lb_leases _ _ _ _ HLB') by done. rewrite (proj2 (Nat.ltb_lt i (S i))) by lia. apply orb_true_r.
        -- split; [done|]. intros b Hb. rewrite Hmb by done. by rewrite HAl.
      * intros ->. rewrite Hf in Hmz. done.
    + intros x k Hx Hk. destruct Hres as [HX _]. assert (x = r) as -> by congruence. apply HX; [lia|done].
Qed.

(** ** Allocating a slot of a held word *)
Section slot.
Context (g : RunGeometry) (HG : geometry_wf g) (payload : Layout) (run : Z) (HF : payload_fits g payload run).

Lemma ready_step {E} r i mask x : cursor_step (E:=E) g payload run r i mask CursorReady = Ok (Some x) -> exists current, x = (r, mask, CursorStore current, None).
Proof.
  unfold cursor_step. destruct (mask =? 0); [done|]. intros H. repeat (apply bind_Ok in H as (? & _ & H)). injection H as <-. by eexists.
Qed.

Lemma store_step {E} r i mask current x : cursor_step (E:=E) g payload run r i mask (CursorStore current) = Ok (Some x) ->
  exists r' mask' s, x = (r', mask', CursorReady, Some s).
Proof.
  unfold cursor_step. destruct (mask =? 0); [done|]. intros H. apply bind_Ok in H as (ws & _ & H). injection H as <-. by eexists _, _, _.
Qed.

Lemma allocate_in_run_ok r i mask : bitmaps_ok g r -> owns g r i -> mask_ok g r i mask -> mask <> 0 ->
  exists r' mask' s, allocate_in_run (E:=Empty_set) g payload run r i mask = Ok (Some (r', mask', s)) /\ bitmaps_ok g r' /\ header r' = header r /\
    leases r' = leases r /\ mask_ok g r' i mask' /\ 0 <= s < slot_count g /\ Z.to_nat (s / 64) = i /\ slot_bit (allocation r) s = false /\
    (forall j, j <> i -> allocation r' !! j = allocation r !! j) /\
    forall s', 0 <= s' -> slot_bit (allocation r') s' = (s' =? s) || slot_bit (allocation r) s'.
Proof.
  intros HB HO HM Hne. unfold allocate_in_run.
  assert (HW0 : worker_ok g r (Using i mask CursorReady)) by (split; [done|by split]).
  destruct (cursor_step_ok g payload run HG HF r i mask CursorReady HB HW0) as [[? _]|(r1 & m1 & st1 & s1 & H1 & _ & _ & HW1 & _)]; [done|].
  rewrite H1. apply ready_step in H1 as (current & [= -> -> -> ->]). cbn [mbind outcome_bind].
  destruct (cursor_step_ok g payload run HG HF r i mask (CursorStore current) HB HW1) as [[? _]|(r2 & m2 & st2 & s2 & H2 & HB2 & Hh2 & HW2 & HE)]; [done|].
  rewrite H2. apply store_step in H2 as (? & ? & s & [= <- <- -> ->]). cbn [mbind outcome_bind]. exists r2, m2, s. split; [done|].
  destruct HW2 as (_ & HM2 & _).
  inversion HE as [| | |j ? ? ? Hj _ Hs Hd Hfree Hl Ha Hb]; subst. injection Hj as Hj. rewrite <- Hj in Ha. split_and!; done || tauto || lia.
Qed.
End slot.

(** ** Cursors *)

(** A cursor holds a word of a run its class has, with the word's free slots. *)
Definition cursor_ok (D : ManagedData) (c : AllocationCursor) : Prop :=
  exists i C t, cursor_class c = cid i /\ classes D !! i = Some C /\ t ∈ class_runs C /\ cursor_location c = target_location t /\
    cursor_run c = target_run t /\ cursor_geometry c = target_geometry t /\ word_held (arena D) t (cursor_word c) (free_mask c).

(** A class has the geometry its representation derives. *)
Definition class_typed (C : AllocationClassEntry) : Prop :=
  layout_wf (meta_layout (metadata C)) /\ requested_wf (requested_slot_size (metadata C)) /\
  derive (meta_layout (metadata C)) (requested_slot_size (metadata C)) = Ok (class_geometry C).

Lemma class_derived C : class_typed C -> derived (class_geometry C).
Proof. intros (H1 & H2 & H3). by eexists _, _. Qed.

Lemma pow2_divides_run a : is_pow2 a -> a <= RUN_SIZE -> (a | RUN_SIZE).
Proof.
  intros (k & Hk & ->) Hle. change RUN_SIZE with (2 ^ 16) in *. assert (k <= 16) by (by apply (Z.pow_le_mono_r_iff 2)).
  exists (2 ^ (16 - k)). rewrite <- Z.pow_add_r by lia. f_equal. lia.
Qed.

Lemma class_fits A t cls C : arena_wf A -> target_ok A t cls -> class_typed C -> target_geometry t = class_geometry C ->
  payload_fits (target_geometry t) (meta_layout (metadata C)) (target_run t).
Proof.
  intros WA [(r & HT) Ha] (HL & HR & HD) Hg. rewrite Hg. destruct (derive_bounds _ _ _ HL HR HD) as (_ & Hs & _ & Hst & Hf & _ & [Hb1 Hb2] & Hn & Hend).
  pose proof HL as (_ & Hal & _). pose proof (is_pow2_pos _ Hal) as Hpos. split; [done|]. split; [done|]. split; [|done]. apply Z.divide_add_r; [|done].
  destruct (address_of_run A WA _ _ (proj1 HT)) as (c & a & Hc & _ & Ha' & Hrun). rewrite Ha in Ha'. injection Ha' as <-. subst.
  destruct (aw_chunk _ WA _ _ Hc) as [(_ & Hdiv & _) _]. unfold RUN_HEADER_SIZE in *.
  assert (Hle : align (meta_layout (metadata C)) <= RUN_SIZE).
  { apply Z.divide_pos_le in Hf; [|lia]. destruct (derived_wf (class_geometry C)) as (_ & H1 & H2 & _); [by eexists _, _|].
    pose proof (Z.mul_nonneg_nonneg _ _ H2 H1). lia. }
  pose proof (pow2_divides_run _ Hal Hle) as Hrs. rewrite Hrun. apply Z.divide_add_r.
  - etrans; [exact Hrs|]. etrans; [|exact Hdiv]. by exists 128.
  - by apply Z.divide_mul_r.
Qed.

(** ** One object more *)

(** [D'] has the objects of [D] and one at [a], where [D] has none. *)
Definition one_more (D D' : ManagedData) (a : Z) (o : RunOwner) (m : ObjectMetadata) : Prop :=
  0 < a /\ (forall o' m', ~ object D a o' m') /\ is_pending D' o = false /\
  forall a' o' m', object D' a' o' m' <-> object D a' o' m' \/ a' = a /\ o' = o /\ m' = m.

Lemma one_more_after D D1 D' a o m : same_objects D D1 -> one_more D1 D' a o m -> one_more D D' a o m.
Proof.
  intros HS (H1 & H2 & H3 & H4). split; [done|]. split; [intros o' m' H; by apply (H2 o' m'), HS|]. split; [done|]. intros a' o' m'. by rewrite H4, (HS a' o' m').
Qed.

Section set_slot.
Context (D : ManagedData) (HW : heap_wf D) (i : nat) (C : AllocationClassEntry) (HC : classes D !! i = Some C).
Context (t : RunClaimTarget) (Ht : t ∈ class_runs C) (r r' : Run) (Hr : run_of (arena D) (target_location t) = Some r).
Context (HB : bitmaps_ok (target_geometry t) r') (Hh : header r' = header r) (s : Z) (Hs : 0 <= s < slot_count (target_geometry t)).
Context (Hfree : slot_bit (allocation r) s = false).
Context (Hset : forall s', 0 <= s' -> slot_bit (allocation r') s' = (s' =? s) || slot_bit (allocation r) s').
Notation A' := (put_run (arena D) (target_location t) r').
Notation o := (run_owner t (cid i) s).

Lemma set_target : target_ok (arena D) t (cid i) /\ target_geometry t = class_geometry C.
Proof. by apply (class_targets_ok D HW i C). Qed.

Lemma set_typed : typed (arena D) (target_location t) (cid i) (target_geometry t) r.
Proof. destruct set_target as [[(x & HT) _] _]. pose proof HT as (Hx & _). assert (x = r) as -> by congruence. done. Qed.

Lemma set_replaced : replaced (arena D) A' (target_location t) r'.
Proof.
  apply (put_replaced _ _ r); [apply HW|done|]. destruct (aw_run _ (hw_arena _ HW) _ _ Hr) as [Hv _]. split; [by rewrite Hh|]. rewrite Hh.
  pose proof set_typed as HT. pose proof HT as (_ & _ & ->). split; [|done]. by eapply (typed_wf _ (hw_arena _ HW)).
Qed.

Lemma set_headers : same_headers (arena D) A'.
Proof.
  destruct set_replaced as (_ & HR & HA). split; [|done]. intros l. rewrite HR. case_decide as Hd; [subst; rewrite Hr; cbn; by rewrite Hh|done].
Qed.

Lemma set_allocated o' : owner_ok (arena D) o' -> slot_allocated A' o' = bool_decide (o' = o) || slot_allocated (arena D) o'.
Proof.
  intros HO. destruct set_replaced as (_ & HR & _). unfold slot_allocated. rewrite HR. case_decide as Hd.
  - rewrite Hd, Hr, Hset by apply HO. f_equal. apply eq_true_iff_eq. rewrite Z.eqb_eq, bool_decide_eq_true. split; [|by intros ->]. intros Hsl.
    eapply owner_same_location; [exact HO|apply run_owner_ok; [apply set_target|done]|done|done].
  - rewrite (bool_decide_false (o' = o)); [done|]. by intros ->.
Qed.

Lemma set_object a' o' m' : object (with_arena D A') a' o' m' <-> object D a' o' m' \/ a' = owner_address o /\ o' = o /\ m' = metadata C.
Proof.
  pose proof (hw_arena _ HW) as WA. pose proof set_replaced as (WA' & _). pose proof set_headers as HH. destruct set_target as [HT Hg].
  pose proof (run_owner_ok _ _ _ s HT Hs) as HO. destruct (owner_lookup (E:=Empty_set) (arena D) WA o HO) as [_ Hrng].
  assert (Hcl : exists index C0, class_index (owner_class o) = Some index /\ classes D !! index = Some C0 /\
      class_geometry C0 = owner_geometry o /\ contains_run C0 (owner_location o) = true /\ metadata C0 = metadata C).
  { exists i, C. split; [apply class_index_cid|]. split; [done|]. split; [done|]. split; [by apply (class_run_in D HW i)|done]. }
  unfold object. cbn [arena classes with_arena]. split.
  - intros (Hrg & Hsl & Hal & HX). rewrite (same_headers_slot (arena D) A') in Hsl by done. pose proof Hsl as [HOo Ha]%slot_of_Some; [|done..].
    rewrite set_allocated in Hal by done. apply orb_true_iff in Hal as [->%bool_decide_eq_true|Hal]; [right|by left].
    split; [done|]. split; [done|]. destruct HX as (j & Cj & Hj & HCj & _ & _ & <-). cbn in Hj. rewrite class_index_cid in Hj. congruence.
  - intros [(Hrg & Hsl & Hal & HX)|(-> & -> & ->)].
    + split; [done|]. rewrite (same_headers_slot (arena D) A') by done. split; [done|]. split; [|done]. apply slot_of_Some in Hsl as [HOo _]; [|done..].
      rewrite set_allocated, Hal by done. apply orb_true_r.
    + assert (Hrg : in_range (owner_address o)) by (unfold in_range; lia). split; [done|]. rewrite (same_headers_slot (arena D) A') by done.
      split; [by apply slot_of_Some|]. split; [|done]. rewrite set_allocated, bool_decide_true by done. done.
Qed.

(** The slot is in no pending word. *)
Lemma set_not_pending : is_pending D o = false.
Proof.
  apply not_true_iff_false. intros Hp. assert (Hin : o ∈ pending_list (finalization_batch D)) by (apply elem_of_pending_list; [done|]; split; [cbn; lia|done]).
  apply (pending_owner_ok D HW) in Hin as [_ Hal]. unfold slot_allocated in Hal. cbn in Hal. rewrite Hr in Hal. congruence.
Qed.

Lemma set_heap_wf : heap_wf (with_arena D A').
Proof.
  pose proof set_replaced as (WA' & _). pose proof set_headers as HH. pose proof HW as [H1 H2 H3 H4 H5 H6 H7 H8 H9 H10]. split; cbn; try done.
  - intros j Cj HCj. destruct (H3 j Cj HCj) as (HTj & Hrest). split; [|done]. intros t' Ht'. destruct (HTj t' Ht') as [? ?]. split; [by eapply same_headers_target|done].
  - intros l F HF. pose proof (H5 l F HF) as HBF. pose proof HBF as [B1 B2 B3 B4 B5 B6 B7 B8]. split; try done.
    + by eapply same_headers_target.
    + intros s' Hs'. destruct (B5 s' Hs') as [Hlt Hal]. split; [done|]. rewrite set_allocated by (by eapply batch_owner_ok). rewrite Hal. apply orb_true_r.
    + intros Hd s' Hs' Hal. apply B8; [done|done|]. assert (HO : owner_ok (arena D) (pending_owner F s')) by (destruct B2 as [HT Ha]; by split; [|split]).
      rewrite set_allocated in Hal by done. apply orb_true_iff in Hal as [Heq%bool_decide_eq_true|Hal]; [exfalso|done].
      (* The run of a detached entry is in no class. *)
      destruct B3 as (j & Cj & Hj & HCj & _ & _ & _ & Hout). rewrite Hd in Hout. apply Hout.
      assert (Hcls : fr_class F = cid i) by (by injection Heq). assert (j = i) as -> by (apply cid_inj; congruence). assert (Cj = C) as -> by congruence.
      destruct (H3 i C HC) as (_ & HL & _). apply HL. exists t. split; [done|]. rewrite <- B1. by injection Heq.
  - intros l Hl. destruct (H9 l Hl) as (x & Hx & He). pose proof (proj1 HH l) as Hhl. rewrite Hx in Hhl. cbn in Hhl.
    destruct (run_of A' l) as [x'|]; [|done]. exists x'. split; [done|]. cbn in Hhl. injection Hhl as ->. done.
Qed.

Lemma set_one_more : one_more D (with_arena D A') (owner_address o) o (metadata C).
Proof.
  destruct set_target as [HT _]. pose proof (run_owner_ok _ _ _ s HT Hs) as HO. destruct (owner_lookup (E:=Empty_set) (arena D) (hw_arena _ HW) o HO) as [_ Hrng].
  split; [lia|]. split; [|split; [apply set_not_pending|apply set_object]]. intros o' m' HOb.
  pose proof HOb as (_ & _ & Hal & _). apply (object_owner _ _ _ _ (hw_arena _ HW)) in HOb as [HO' He]. apply (owner_inj _ _ _ (hw_arena _ HW) HO' HO) in He as ->.
  unfold slot_allocated in Hal. cbn in Hal. rewrite Hr in Hal. congruence.
Qed.
End set_slot.

(** ** On the heap *)
Lemma slots_heap D A' : heap_wf D -> arena_wf A' -> same_slots (arena D) A' -> arena_grown untouched (arena D) A' ->
  heap_wf (with_arena D A') /\ heap_grown untouched D (with_arena D A') /\ same_objects D (with_arena D A').
Proof.
  intros HW WA' HS HG. pose proof (hw_arena _ HW) as WA. assert (HO : same_objects D (with_arena D A')) by (intros a o m; by apply object_slots).
  split; [by apply heap_wf_slots|]. split; [|done]. split; [done| |intros a o m; apply HO|done..]. intros i C HC. by exists C.
Qed.

(** Where a cursor is. *)
Definition same_cursor (c c' : AllocationCursor) : Prop :=
  cursor_class c' = cursor_class c /\ cursor_location c' = cursor_location c /\ cursor_run c' = cursor_run c /\
  cursor_geometry c' = cursor_geometry c /\ cursor_word c' = cursor_word c.

(** The word of a cursor. *)
Definition at_cursor (c : AllocationCursor) (l : RunLocation) (k : nat) : Prop := l = cursor_location c /\ k = cursor_word c.

Lemma word_held_grown T A A' t cls i mask : arena_grown T A A' -> target_ok A t cls -> ~ T (target_location t) i -> word_held A t i mask -> word_held A' t i mask.
Proof.
  intros HG [(r0 & HT) _] Hn (r & Hr & [Hi Hl] & Hw & Hm). assert (r0 = r) as -> by (destruct HT; congruence).
  destruct (ag_run _ _ _ HG _ _ _ _ HT) as (r' & (Hr' & _) & HL & HA). exists r'. split; [done|]. split; [split; [done|by apply HL]|]. split; [done|].
  intros b Hb. rewrite Hm by done. unfold slot_bit. destruct (index_join i b Hb) as [-> _]. by rewrite Nat2Z.id, HA.
Qed.

Lemma cursor_ok_grown T D D' c : heap_wf D -> heap_grown T D D' -> ~ T (cursor_location c) (cursor_word c) -> cursor_ok D c -> cursor_ok D' c.
Proof.
  intros HW HG Hn (i & C & t & Hid & HC & Ht & Hl & Hr & Hg & Hh). destruct (hg_class _ _ _ HG i C HC) as (C' & HC' & _ & _ & Hsub).
  exists i, C', t. split; [done|]. split; [done|]. split; [by apply Hsub|]. do 3 (split; [done|]). rewrite Hl in Hn.
  eapply word_held_grown; [apply HG|by apply (class_targets_ok D HW i C)|done|done].
Qed.

Lemma try_allocate_ok D c m : heap_wf D -> (forall i C, classes D !! i = Some C -> class_typed C) -> cursor_ok D c ->
  (forall i C, cursor_class c = cid i -> classes D !! i = Some C -> metadata C = m) ->
  exists A' c' res, try_allocate (E:=Empty_set) (meta_layout m) (arena D) c = Ok (A', c', res) /\ same_cursor c c' /\
    match res with
    | None => A' = arena D /\ c' = c /\ free_mask c = 0
    | Some a => heap_wf (with_arena D A') /\ heap_grown (at_cursor c) D (with_arena D A') /\ cursor_ok (with_arena D A') c' /\
        exists o, one_more D (with_arena D A') a o m
    end.
Proof.
  intros HW HTy (i & C & t & Hid & HC & Ht & Hl & Hrn & Hg & (r & Hr & HOw & HM)) Hm. specialize (Hm i C Hid HC) as <-.
  destruct (class_targets_ok D HW i C t HC Ht) as [HT Hgeo]. pose proof (hw_arena _ HW) as WA. pose proof HT as [(r0 & HTy0) _].
  assert (r0 = r) as -> by (destruct HTy0; congruence). destruct (typed_wf _ WA _ _ _ _ HTy0) as [HG HB].
  unfold try_allocate. rewrite Hl, (target_memory_ok _ _ r Hr), Hg, Hrn. cbn [mbind outcome_bind].
  destruct (decide (free_mask c = 0)) as [Hz|Hz].
  { exists (arena D), c, None. split; [|done]. unfold allocate_in_run, cursor_step. rewrite Hz. done. }
  pose proof (class_fits _ _ _ C WA HT (HTy i C HC) Hgeo) as HF.
  destruct (allocate_in_run_ok _ HG _ _ HF r _ _ HB HOw HM Hz) as (r' & mask' & s & -> & HB' & Hh & HL & HM' & Hs & Hsw & Hfree & Hout & Hset).
  cbn [mbind outcome_bind]. destruct (slot_fits _ _ _ HG HF s Hs) as [-> _]. cbn [expect mbind outcome_bind].
  eexists _, _, _. split; [done|]. split; [done|].
  pose proof (set_replaced D HW i C HC t Ht r r' Hr HB' Hh) as HRep.
  pose proof (set_one_more D HW i C HC t Ht r r' Hr HB' Hh s Hs Hfree Hset) as HO.
  set (A' := put_run (arena D) (target_location t) r') in *.
  assert (HAG : arena_grown (at_cursor c) (arena D) A').
  { eapply replaced_grown; [exact HTy0|exact HRep|done| |].
    - intros k _. unfold leased_word. by rewrite HL.
    - intros k Hk. apply Hout. intros ->. apply Hk. by split. }
  split; [by apply (set_heap_wf D HW i C HC t Ht r r' Hr HB' Hh s Hs Hset)|]. split; [|split].
  - split; [done| | |done..]; [intros j Cj HCj; by exists Cj|]. intros a o m HOb. apply HO. by left.
  - exists i, C, t. split; [done|]. split; [done|]. split; [done|]. do 3 (split; [done|]). exists r'. split; [destruct HRep as (_ & -> & _); by rewrite decide_True|].
    split; [|done]. destruct HOw as [? Hlw]. split; [done|]. unfold leased_word. by rewrite HL.
  - exists (run_owner t (cid i) s). exact HO.
Qed.
