(* ===== verification/AllocClaims.v ===== *)
(** * Publishing a run in the heap

    The assigned runs are distinct runs of the arena, so their count is bounded by
    the arena's capacity. [publish_run] gives a class an empty run that no other
    class has, from the free runs or from the arena, and keeps every object. *)
From stdpp Require Import base option list numbers gmap sets.
From Stdlib Require Import ZArith Lia.
From S2P Require Import Prelude RootPool RunGeometry Bitmaps Arena ArenaFacts Heap HeapFacts Marking.
From S2P Require Import MarkingFacts SweepFacts SweepPlan SweepArena SweepSteps SweepSafe SweepCorrect Claim.
From S2P Require Import ClaimFacts ClaimRaces Alloc AllocFacts.

(** ** The capacity of the arena *)
Lemma NoDup_bounded_Z (l : list Z) n : NoDup l -> (forall z, z ∈ l -> (0 <= z < n)%Z) -> (Z.of_nat (length l) <= Z.max 0 n)%Z.
Proof.
  intros HN Hb. assert (length (Z.to_nat <$> l) <= Z.to_nat n) as H; [|rewrite length_fmap in H; lia]. apply NoDup_bounded.
  - apply NoDup_fmap_on; [|done]. intros x y Hx Hy He. apply Hb in Hx, Hy. lia.
  - intros i (z & -> & Hz)%list_elem_of_fmap. apply Hb in Hz. lia.
Qed.

Section capacity.
Context (A : Arena) (WA : arena_wf A).

Lemma bases_nodup : NoDup (chunk_base <$> arena_chunks A).
Proof.
  apply NoDup_alt. intros i j b Hi Hj. apply list_lookup_fmap_Some in Hi as (c & -> & Hc), Hj as (c' & Hb & Hc').
  destruct (aw_chunk _ WA _ _ Hc) as [_ H1], (aw_chunk _ WA _ _ Hc') as [_ H2]. rewrite <- Hb, H1 in H2. by injection H2.
Qed.

Lemma chunk_count : (Z.of_nat (length (arena_chunks A)) <= 2 ^ 41)%Z.
Proof.
  assert (H : (Z.of_nat (length ((fun b => b / ARENA_CHUNK_SIZE)%Z <$> (chunk_base <$> arena_chunks A))) <= Z.max 0 (2 ^ 41))%Z); [|rewrite !length_fmap in H; lia].
  assert (HB : forall b, b ∈ chunk_base <$> arena_chunks A -> (0 < b <= usize_max /\ (ARENA_CHUNK_SIZE | b))%Z).
  { intros b (c & -> & [i Hc]%list_elem_of_lookup)%list_elem_of_fmap. destruct (aw_chunk _ WA _ _ Hc) as [(H0 & Hd & Hm & _) _]. split; [|done].
    unfold ARENA_CHUNK_SIZE in *. lia. }
  apply NoDup_bounded_Z.
  - apply NoDup_fmap_on; [|apply bases_nodup]. intros x y [_ [p ->]]%HB [_ [q ->]]%HB. rewrite !Z.div_mul by done. congruence.
  - intros z (b & -> & [[H0 H1] [q ->]]%HB)%list_elem_of_fmap. rewrite Z.div_mul by done. change ARENA_CHUNK_SIZE with (2 ^ 23)%Z in *. unfold usize_max, u64_max in H1. lia.
Qed.

(** Distinct runs of the arena. *)
Lemma locations_bound (ls : list RunLocation) : NoDup ls -> (forall l, l ∈ ls -> exists r, run_of A l = Some r) ->
  length ls <= length (arena_chunks A) * RUNS_PER_CHUNK.
Proof.
  intros HN Hin. rewrite <- (length_fmap (fun l => loc_chunk l * RUNS_PER_CHUNK + loc_run l) ls). apply NoDup_bounded.
  - apply NoDup_fmap_on; [|done]. intros x y (r & Hr)%Hin (r' & Hr')%Hin He. pose proof (run_of_bound A WA _ _ Hr). pose proof (run_of_bound A WA _ _ Hr').
    destruct x as [c n], y as [c' n']. cbn in *. assert (c = c') as -> by nia. f_equal. lia.
  - intros i (l & -> & (r & Hr)%Hin)%list_elem_of_fmap. pose proof (run_of_bound A WA _ _ Hr). apply run_of_Some in Hr as (c & Hc%lookup_lt_Some & _). nia.
Qed.
End capacity.

Section assigned.
Context (D : ManagedData) (HW : heap_wf D).

(** The runs of the classes and the detached ones. *)
Definition assigned_locations : list RunLocation :=
  (target_location <$> (classes D ≫= class_runs)) ++ (filter (fun lF => is_detached lF.2 = true) (map_to_list (batch_runs (finalization_batch D)))).*1.

Lemma assigned_nodup : NoDup assigned_locations.
Proof.
  apply NoDup_app. split; [by apply flat_nodup|]. split.
  - intros l (t & -> & (i & C & HC & Ht)%(elem_of_flat D))%list_elem_of_fmap ([l' F] & Hl & [Hd Hin%elem_of_map_to_list]%list_elem_of_filter)%list_elem_of_fmap.
    cbn in *. subst. destruct (batch_attached D HW i C t F HC Ht Hin) as (Hn & _). congruence.
  - eapply sublist_NoDup; [apply (NoDup_fst_map_to_list (batch_runs (finalization_batch D)))|]. apply fmap_sublist, sublist_filter.
Qed.

Lemma assigned_in l : l ∈ assigned_locations -> exists cls g r, typed (arena D) l cls g r.
Proof.
  intros [(t & -> & (i & C & HC & Ht)%(elem_of_flat D))%list_elem_of_fmap|([l' F] & -> & [Hd Hin%elem_of_map_to_list]%list_elem_of_filter)%list_elem_of_fmap]%elem_of_app.
  - destruct (class_targets_ok D HW i C t HC Ht) as [[(r & HT) _] _]. by eexists _, _, _.
  - cbn in *. destruct (bf_target _ _ _ _ (hw_batch _ HW _ _ Hin)) as [(r & HT) _]. rewrite (bf_location _ _ _ _ (hw_batch _ HW _ _ Hin)) in HT. by eexists _, _, _.
Qed.

Lemma assigned_count : length assigned_locations = assigned_runs (allocation_pressure D).
Proof.
  rewrite (hw_assigned _ HW), class_run_count_flat. unfold assigned_locations, detached_run_count. by rewrite length_app, !length_fmap.
Qed.

Lemma assigned_capacity : assigned_runs (allocation_pressure D) <= length (arena_chunks (arena D)) * RUNS_PER_CHUNK.
Proof.
  rewrite <- assigned_count. apply (locations_bound _ (hw_arena _ HW)); [apply assigned_nodup|]. intros l (cls & g & r & Hr & _)%assigned_in. by exists r.
Qed.

Lemma assigned_bound : (Z.of_nat (assigned_runs (allocation_pressure D)) < 2 ^ 50)%Z.
Proof.
  pose proof assigned_capacity. pose proof (chunk_count _ (hw_arena _ HW)). assert (RUNS_PER_CHUNK = 128) by reflexivity. nia.
Qed.

(** ** The pressure after a collection *)
Lemma sum_runs_ok {E} (cs : list AllocationClassEntry) n : (Z.of_nat (n + class_run_count cs) < 2 ^ 50)%Z ->
  foldM (E:=E) (fun total C => expect (checked_add total (Z.of_nat (length (class_runs C))))) (Z.of_nat n) cs = Ok (Z.of_nat (n + class_run_count cs)).
Proof.
  revert n. induction cs as [|C cs IH]; intros n Hn; cbn [foldM]; [unfold class_run_count; cbn; by rewrite Nat.add_0_r|].
  assert (Hc : class_run_count (C :: cs) = length (class_runs C) + class_run_count cs) by done. rewrite Hc in *.
  rewrite checked_add_fits by (unfold usize_max, u64_max; lia). cbn [expect mbind outcome_bind]. rewrite <- Nat2Z.inj_add, IH by lia. do 2 f_equal. lia.
Qed.

Lemma baseline_ok {E} : exists p, publish_survivor_pressure_baseline (E:=E) D = Ok (with_pressure D p) /\
  assigned_runs p = assigned_runs (allocation_pressure D).
Proof.
  pose proof assigned_bound as Hb. pose proof assigned_capacity as Hcap. pose proof (hw_assigned _ HW) as Ha. pose proof (chunk_count _ (hw_arena _ HW)) as Hch.
  assert (HR : Z.of_nat RUNS_PER_CHUNK = 128%Z) by reflexivity.
  unfold publish_survivor_pressure_baseline. rewrite (sum_runs_ok (classes D) 0) by lia. cbn [mbind outcome_bind].
  rewrite checked_add_fits by (unfold usize_max, u64_max; lia). cbn [expect mbind outcome_bind]. unfold run_capacity.
  rewrite checked_mul_fits by (unfold usize_max, u64_max; lia). cbn [expect mbind outcome_bind]. rewrite (proj2 (Z.leb_le _ _)) by lia. cbn [rust_assert mbind outcome_bind].
  unfold publish_survivor_baseline. rewrite (proj2 (Nat.eqb_eq _ _)) by lia. cbn [rust_assert mbind outcome_bind]. unfold survivor_run_high_water_mark.
  cbn [negb SURVIVOR_GROWTH_DENOMINATOR Z.eqb rust_assert mbind outcome_bind]. by eexists.
Qed.
End assigned.

(** ** A run more *)
Lemma run_claim_target_ok {E} A l cls g r : arena_wf A -> typed A l cls g r ->
  exists t, run_claim_target (E:=E) A l = Ok (Some t) /\ target_location t = l /\ target_geometry t = g /\ target_ok A t cls.
Proof.
  intros WA HT. pose proof HT as (Hr & Hc & Hg). destruct (address_of_run A WA _ _ Hr) as (c & a & Hch & Hrc & Ha & Hae). exists (MkTarget l a g).
  split; [|split; [done|]; split; [done|]; split; [by exists r|done]]. unfold run_claim_target. rewrite Hch. cbn [mbind outcome_bind].
  rewrite (proj2 (run_address_Some c _ a) (conj (run_of_bound A WA _ _ Hr) Hae)). cbn [mbind outcome_bind]. rewrite Hae.
  rewrite (header_for_ok c _ r) by (done || apply (aw_chunk _ WA _ _ Hch)). cbn [mbind outcome_bind]. by rewrite Hg.
Qed.

Definition added_run (C : AllocationClassEntry) (t : RunClaimTarget) (f : option RunClaimTarget) (k : option nat) : AllocationClassEntry :=
  MkClass (metadata C) (class_geometry C) f (class_runs C ++ [t]) ({[target_location t]} ∪ run_locations C) k.

Section published.
Context (D : ManagedData) (HW : heap_wf D) (i : nat) (C : AllocationClassEntry) (HC : classes D !! i = Some C).
Context (A' : Arena) (l : RunLocation) (HP : run_published (arena D) A' l (cid i) (class_geometry C)).
Context (t : RunClaimTarget) (Htl : target_location t = l) (Htg : target_geometry t = class_geometry C) (Hto : target_ok A' t (cid i)).
Context (f : option RunClaimTarget) (k : option nat).
Notation C' := (added_run C t f k).
Context (Hf : match k, f with None, None => True | Some k, Some t' => class_runs C' !! k = Some t' | _, _ => False end).
Context (fr : list RunLocation) (Hfr : NoDup fr) (Hsub : fr ⊆ free_runs D) (Hout : l ∉ fr).
Notation D' := (MkData A' (classes_by_metadata D) (<[i := C']> (classes D)) (retired_no_drop_runs D) (finalization_batch D) (running_finalizers D) fr
  (MkPressure (S (assigned_runs (allocation_pressure D))) (high_water_mark (allocation_pressure D))) (root_pool D)).

Lemma typed_not_new l' cls g r : typed (arena D) l' cls g r -> l' <> l.
Proof. intros (Hr & Hc & _) ->. apply (rp_empty _ _ _ _ _ HP) in Hr. apply header_not_empty in Hc. congruence. Qed.

Lemma published_grown : arena_grown untouched (arena D) A'.
Proof.
  split; intros l' cls g r HT; pose proof (typed_not_new _ _ _ _ HT) as Hne; pose proof HT as (Hr & _).
  - exists r. split; [|done]. destruct HT as (_ & H). split; [by apply (rp_old _ _ _ _ _ HP)|done].
  - by apply (rp_address _ _ _ _ _ HP l' r).
Qed.

Lemma published_owner o : owner_ok A' o -> owner_location o <> l -> owner_ok (arena D) o.
Proof.
  intros ((r & Hr & Hc & Hg) & Ha & Hs) Hne. apply (rp_back _ _ _ _ _ HP) in Hr as [Hr|He]; [|by apply header_not_empty in Hc; congruence|done].
  split; [by exists r|]. split; [|done]. by rewrite <- (rp_address _ _ _ _ _ HP _ _ Hr).
Qed.

Lemma published_allocated o : owner_ok (arena D) o -> slot_allocated A' o = slot_allocated (arena D) o.
Proof.
  intros ((r & HT) & _). pose proof (typed_not_new _ _ _ _ HT) as Hne. destruct HT as (Hr & _). unfold slot_allocated.
  by rewrite (rp_old _ _ _ _ _ HP _ _ Hr Hne), Hr.
Qed.

Lemma new_not_allocated o : owner_location o = l -> slot_allocated A' o = false.
Proof. intros Ho. destruct (rp_new _ _ _ _ _ HP) as (r & Hr & _ & _ & _ & HA & _). unfold slot_allocated. by rewrite Ho, Hr. Qed.

Lemma new_location j Cj : classes D !! j = Some Cj -> l ∉ run_locations Cj.
Proof.
  intros HCj. destruct (hw_class _ HW j Cj HCj) as (HT & HL & _). intros (t' & Ht' & Hl')%HL. destruct (HT t' Ht') as [[(r & Hty) _] _].
  apply typed_not_new in Hty. done.
Qed.

Lemma published_class : class_wf A' i C'.
Proof.
  destruct (hw_class _ HW i C HC) as (HT & HL & HN & _). split; [|split; [|split; [|exact Hf]]].
  - intros t' [Ht'| ->%list_elem_of_singleton]%elem_of_app; [|done]. destruct (HT t' Ht') as [? ?]. split; [|done]. eapply grown_target; [apply published_grown|done].
  - intros l'. cbn. rewrite elem_of_union, elem_of_singleton, HL. setoid_rewrite elem_of_app. setoid_rewrite list_elem_of_singleton. rewrite Htl. split.
    + intros [->|(t' & ? & ?)]; [exists t; auto|exists t'; auto].
    + intros (t' & [?| ->] & <-); [right; by exists t'|by left].
  - cbn. rewrite fmap_app. apply NoDup_app. split; [done|]. split; [|apply NoDup_singleton].
    intros l' (t' & -> & Ht')%list_elem_of_fmap Hl'%list_elem_of_singleton. apply (new_location i C HC). apply HL. exists t'. split; [done|]. congruence.
Qed.

Lemma published_batch l' F : batch_run_wf (arena D) (classes D) l' F -> batch_run_wf A' (<[i := C']> (classes D)) l' F.
Proof.
  intros [B1 B2 B3 B4 B5 B6 B7 B8]. pose proof published_grown as HG. split; try done.
  - by eapply grown_target.
  - destruct B3 as (j & Cj & Hj & HCj & Hm & Hn & Hg & Hd). exists j. destruct (decide (j = i)) as [->|Hne].
    + exists C'. rewrite list_lookup_insert_eq by (by eapply lookup_lt_Some). assert (Cj = C) as -> by congruence. do 5 (split; [done|]).
      destruct (is_detached F); cbn; [|by apply elem_of_app; left]. intros [->%elem_of_singleton|?]%elem_of_union; [|done].
      destruct B2 as [(r & HT) _]. apply typed_not_new in HT. congruence.
    + exists Cj. by rewrite list_lookup_insert_ne.
  - intros s Hs. destruct (B5 s Hs) as [Hlt Hal]. split; [done|]. rewrite published_allocated; [done|]. destruct B2 as [HT Ha]. split; [done|]. split; [done|].
    split; [|done]. by eapply pending_slot_range.
  - intros Hd s Hs Hal. apply B8; [done..|]. rewrite published_allocated in Hal; [done|]. destruct B2 as [HT Ha]. by split; [|split].
Qed.

Lemma published_count : class_run_count (<[i := C']> (classes D)) = S (class_run_count (classes D)).
Proof.
  unfold class_run_count. rewrite insert_take_drop by (by eapply lookup_lt_Some). rewrite <- (take_drop_middle _ _ _ HC) at 3.
  rewrite !sum_list_with_app. cbn. rewrite length_app. cbn. lia.
Qed.

Lemma published_wf : heap_wf D'.
Proof.
  pose proof HW as [H1 H2 H3 H4 H5 H6 H7 H8 H9 H10]. split; cbn -[class_run_count]; try done.
  - apply HP.
  - by rewrite length_insert.
  - intros j Cj [(<- & <- & _)|[Hne HCj]]%list_lookup_insert_Some; [apply published_class|]. destruct (H3 j Cj HCj) as (HT & Hrest). split; [|done].
    intros t' Ht'. destruct (HT t' Ht') as [? ?]. split; [|done]. eapply grown_target; [apply published_grown|done].
  - intros l' F HF. by apply published_batch, H5.
  - intros l' Hl'. destruct (H9 l') as (r & Hr & He); [by apply Hsub|]. exists r. split; [|done]. apply (rp_old _ _ _ _ _ HP); [done|]. by intros ->.
  - rewrite published_count, H10. lia.
Qed.

Lemma published_objects : same_objects D D'.
Proof.
  pose proof (hw_arena _ HW) as WA. pose proof (rp_wf _ _ _ _ _ HP) as WA'. intros a o m. unfold object. cbn [arena classes]. split.
  - intros (Hrg & Hsl & Hal & j & Cj & Hj & HCj & Hg & Hct & Hm). split; [done|]. apply slot_of_Some in Hsl as [HO Ha]; [|done..].
    assert (Hne : owner_location o <> l) by (intros Hl; rewrite new_not_allocated in Hal by done; done). pose proof (published_owner o HO Hne) as HO0.
    split; [by apply slot_of_Some|]. split; [by rewrite published_allocated in Hal|]. exists j. apply list_lookup_insert_Some in HCj as [(-> & <- & _)|[? HCj]]; [|by exists Cj].
    exists C. do 3 (split; [done|]). split; [|done]. apply bool_decide_eq_true in Hct. apply bool_decide_eq_true. cbn in Hct. set_solver.
  - intros (Hrg & Hsl & Hal & j & Cj & Hj & HCj & Hg & Hct & Hm). split; [done|]. apply slot_of_Some in Hsl as [HO Ha]; [|done..].
    split; [apply slot_of_Some; [done..|]; split; [by eapply grown_owner; [apply published_grown|]|done]|]. split; [by rewrite published_allocated|]. exists j.
    destruct (decide (j = i)) as [->|Hne]; [|exists Cj; by rewrite list_lookup_insert_ne]. exists C'. rewrite list_lookup_insert_eq by (by eapply lookup_lt_Some).
    assert (Cj = C) as -> by congruence. do 3 (split; [done|]). split; [|done]. apply bool_decide_eq_true in Hct. apply bool_decide_eq_true. cbn. set_solver.
Qed.

Lemma published_heap_grown : heap_grown untouched D D'.
Proof.
  split; [apply published_grown| |by intros; apply published_objects|done..]. intros j Cj HCj. cbn. destruct (decide (j = i)) as [->|Hne].
  - exists C'. rewrite list_lookup_insert_eq by (by eapply lookup_lt_Some). assert (Cj = C) as -> by congruence. do 3 (split; [done|]). cbn. set_solver.
  - exists Cj. by rewrite list_lookup_insert_ne.
Qed.
End published.

(** * Refilling a cursor

    [claim_allocation_cursor] finds a word with a free slot: at the frontier of the
    class, at a later run, or in a run it publishes. It fails only when it needs
    memory and gets none; the word it leases is no other cursor's. *)

(** The heap keeps everything an allocation relies on; its objects are the same. *)
Record heap_kept (D D' : ManagedData) : Prop := {
  hk_grown : heap_grown untouched D D';
  hk_objects : same_objects D D';
  hk_keys : class_key <$> classes D' = class_key <$> classes D;
  hk_metadata : classes_by_metadata D' = classes_by_metadata D;
}.

#[export] Instance heap_kept_preorder : PreOrder heap_kept.
Proof.
  split; [by split|]. intros D1 D2 D3 [H1 H2 H3 H4] [H5 H6 H7 H8]. split; [by transitivity D2|by transitivity D2|congruence|congruence].
Qed.

Lemma kept_class D D' i C : heap_kept D D' -> classes D' !! i = Some C -> exists C0, classes D !! i = Some C0 /\ class_key C0 = class_key C.
Proof.
  intros HK HC. assert (E : (class_key <$> classes D') !! i = Some (class_key C)) by (by rewrite list_lookup_fmap, HC).
  rewrite (hk_keys _ _ HK), list_lookup_fmap in E. destruct (classes D !! i) as [C0|]; [|done]. exists C0. split; [done|]. cbn in E. congruence.
Qed.

Definition classes_typed (D : ManagedData) : Prop := forall i C, classes D !! i = Some C -> class_typed C.

Lemma kept_typed D D' : heap_kept D D' -> classes_typed D -> classes_typed D'.
Proof.
  intros HK HT i C HC. destruct (kept_class D D' i C HK HC) as (C0 & HC0 & He). injection He as Hm Hg. unfold class_typed. rewrite <- Hm, <- Hg. by apply (HT i).
Qed.

Lemma insert_keys (cs : list AllocationClassEntry) i C C' : cs !! i = Some C -> class_key C' = class_key C -> class_key <$> <[i := C']> cs = class_key <$> cs.
Proof. intros HC He. rewrite list_fmap_insert, He. apply list_insert_id. by rewrite list_lookup_fmap, HC. Qed.

(** ** Moving a frontier *)
Section frontier.
Context (D : ManagedData) (HW : heap_wf D) (i : nat) (C : AllocationClassEntry) (HC : classes D !! i = Some C).
Context (k : nat) (t : RunClaimTarget) (Hk : class_runs C !! k = Some t).
Notation C' := (with_frontier C (Some t) (Some k)).
Notation D' := (with_classes D (<[i := C']> (classes D))).

Lemma frontier_lookup j Cj : <[i := C']> (classes D) !! j = Some Cj -> exists C0, classes D !! j = Some C0 /\ metadata Cj = metadata C0 /\
  class_geometry Cj = class_geometry C0 /\ class_runs Cj = class_runs C0 /\ run_locations Cj = run_locations C0.
Proof. intros [(<- & <- & _)|[_ HCj]]%list_lookup_insert_Some; [by exists C|by exists Cj]. Qed.

Lemma frontier_lookup_2 j C0 : classes D !! j = Some C0 -> exists Cj, <[i := C']> (classes D) !! j = Some Cj /\ metadata Cj = metadata C0 /\
  class_geometry Cj = class_geometry C0 /\ class_runs Cj = class_runs C0 /\ run_locations Cj = run_locations C0.
Proof.
  intros H0. destruct (decide (j = i)) as [->|Hne]; [|exists C0; by rewrite list_lookup_insert_ne]. exists C'.
  rewrite list_lookup_insert_eq by (by eapply lookup_lt_Some). assert (C0 = C) as -> by congruence. done.
Qed.

Lemma frontier_wf : heap_wf D'.
Proof.
  pose proof HW as [H1 H2 H3 H4 H5 H6 H7 H8 H9 H10]. split; cbn -[class_run_count]; try done.
  - by rewrite length_insert.
  - intros j Cj [(<- & <- & _)|[Hne HCj]]%list_lookup_insert_Some; [|by apply H3]. destruct (H3 i C HC) as (HT & HL & HN & _). done.
  - intros l F HF. destruct (H5 l F HF) as [B1 B2 (j & Cj & Hj & HCj & Hm & Hn & Hg & Hd) B4 B5 B6 B7 B8]. split; try done.
    destruct (frontier_lookup_2 j Cj HCj) as (Cj' & HCj' & Em & Eg & Er & El). exists j, Cj'. rewrite Em, Eg, Er, El. done.
  - rewrite H10. f_equal. unfold class_run_count. rewrite insert_take_drop by (by eapply lookup_lt_Some). rewrite <- (take_drop_middle _ _ _ HC) at 1.
    by rewrite !sum_list_with_app.
Qed.

Lemma frontier_kept : heap_kept D D'.
Proof.
  split; [split; [reflexivity| |intros a o m|done..]|intros a o m|by eapply insert_keys|done].
  - intros j Cj HCj. destruct (frontier_lookup_2 j Cj HCj) as (Cj' & HCj' & Em & Eg & Er & _). exists Cj'. by rewrite Er.
  - intros (Hr & Hs & Ha & j & Cj & Hj & HCj & Hg & Hc & Hm). split; [done|]. split; [done|]. split; [done|].
    destruct (frontier_lookup_2 j Cj HCj) as (Cj' & HCj' & Em & Eg & Er & El). exists j, Cj'. unfold contains_run in *. by rewrite El, Eg, Em.
  - split; intros (Hr & Hs & Ha & j & Cj & Hj & HCj & Hg & Hc & Hm); (split; [done|]; split; [done|]; split; [done|]).
    + destruct (frontier_lookup j Cj HCj) as (Cj' & HCj' & Em & Eg & Er & El). exists j, Cj'. unfold contains_run in *. by rewrite <- El, <- Eg, <- Em.
    + destruct (frontier_lookup_2 j Cj HCj) as (Cj' & HCj' & Em & Eg & Er & El). exists j, Cj'. unfold contains_run in *. by rewrite El, Eg, Em.
Qed.
End frontier.

(** ** A claim on the heap *)

(** Word [k] of the class run at [l] is leased. *)
Definition leased_in (D : ManagedData) (l : RunLocation) (k : nat) : Prop :=
  exists i C t r, classes D !! i = Some C /\ t ∈ class_runs C /\ target_location t = l /\
    (Z.of_nat k < word_len (allocation_bitmap (target_geometry t)))%Z /\ run_of (arena D) l = Some r /\ leased_word r k = true.

Lemma cursor_leased D c : cursor_ok D c -> leased_in D (cursor_location c) (cursor_word c).
Proof.
  intros (i & C & t & _ & HC & Ht & Hl & _ & _ & (r & Hr & [Hk Hlw] & _)). exists i, C, t, r. by rewrite Hl.
Qed.

Lemma leased_grown T D D' l k : heap_wf D -> heap_grown T D D' -> leased_in D l k -> leased_in D' l k.
Proof.
  intros HW HG (i & C & t & r & HC & Ht & <- & Hk & Hr & Hl). destruct (hg_class _ _ _ HG i C HC) as (C' & HC' & _ & _ & Hsub).
  destruct (class_targets_ok D HW i C t HC Ht) as [[(r0 & HT) _] _]. assert (r0 = r) as -> by (destruct HT; congruence).
  destruct (ag_run _ _ _ (hg_arena _ _ _ HG) _ _ _ _ HT) as (r' & (Hr' & _) & HL & _). exists i, C', t, r'. split; [done|]. split; [by apply Hsub|]. split; [done|].
  split; [done|]. split; [done|]. by apply HL.
Qed.

(** A cursor that was claimed. *)
Record refilled (D D' : ManagedData) (i : nat) (c : AllocationCursor) : Prop := {
  rf_wf : heap_wf D';
  rf_kept : heap_kept D D';
  rf_cursor : cursor_ok D' c;
  rf_class : cursor_class c = cid i;
  rf_mask : free_mask c <> 0%Z;
  rf_fresh : ~ leased_in D (cursor_location c) (cursor_word c);
}.

Lemma kept_cursor D D' c : heap_wf D -> heap_kept D D' -> cursor_ok D c -> cursor_ok D' c.
Proof. intros HW HK. apply (cursor_ok_grown untouched); [done|apply HK|auto]. Qed.

Lemma refilled_after D D1 D' i c : heap_wf D -> heap_kept D D1 -> refilled D1 D' i c -> refilled D D' i c.
Proof.
  intros HW HK [R1 R2 R3 R4 R5 R6]. split; [done|by transitivity D1|done..|]. intros Hl. apply R6. apply (leased_grown untouched D D1); [done|apply HK|done].
Qed.

(** Claiming a word of the run [t] of class [i]. *)
Lemma claim_run_ok D i C t : heap_wf D -> classes D !! i = Some C -> t ∈ class_runs C ->
  exists A' res, claim_allocation_word (E:=Empty_set) (arena D) t = Ok (A', res) /\ heap_wf (with_arena D A') /\ heap_kept D (with_arena D A') /\
    match res with
    | Some w => refilled D (with_arena D A') i (allocation_cursor (cid i) w)
    | None => forall r k, run_of (arena D) (target_location t) = Some r -> (Z.of_nat k < word_len (allocation_bitmap (target_geometry t)))%Z ->
        leased_word r k = true \/ word_has_free r (target_geometry t) k = false
    end.
Proof.
  intros HW HC Ht. destruct (class_targets_ok D HW i C t HC Ht) as [HT _].
  destruct (claim_word_ok (E:=Empty_set) (arena D) t (cid i) (hw_arena _ HW) HT) as (A' & res & Hcl & WA' & HS & HG & HO). exists A', res.
  destruct (slots_heap D A' HW WA' HS HG) as (HW' & HHG & HOb). assert (HK : heap_kept D (with_arena D A')) by (by split).
  split; [done|]. split; [done|]. split; [done|]. destruct res as [w|]; [|exact HO]. destruct HO as (Hl & Hr & Hg & Hn & Hh & Hz).
  split; [done|done| |done|done|].
  - exists i, C, t. do 6 (split; [done|]). exact Hh.
  - intros (j & Cj & t' & r & _ & _ & _ & _ & Hrun & Hlw). apply Hn. exists r. cbn in Hrun, Hlw. by rewrite <- Hl.
Qed.

(** ** Publishing and claiming *)
Section memory.
Context (allocate_memory : list Z -> option Z).

(** The allocator returns memory that is not in use, aligned as asked. *)
Definition allocator_ok : Prop := forall bs b, allocate_memory bs = Some b ->
  (0 < b)%Z /\ (ARENA_CHUNK_SIZE | b)%Z /\ (b + ARENA_CHUNK_SIZE <= usize_max)%Z /\ b ∉ bs.

Context (HM : allocator_ok).

Definition out_of_memory (D : ManagedData) : Prop := allocate_memory (chunk_bases (arena D)) = None.

Lemma heap_publish_run_ok D i C : heap_wf D -> classes D !! i = Some C -> class_typed C ->
  (out_of_memory D /\ heap_publish_run allocate_memory D i (cid i) (class_geometry C) = Err (PublicationArena AllocationFailed)) \/
  exists D' t f k pressed r, heap_publish_run allocate_memory D i (cid i) (class_geometry C) = Ok (D', pressed) /\ heap_wf D' /\ heap_kept D D' /\
    classes D' !! i = Some (added_run C t f k) /\ run_of (arena D') (target_location t) = Some r /\ opened r (cid i) (class_geometry C) /\
    target_geometry t = class_geometry C.
Proof.
  intros HW HC HTy. pose proof (class_derived C HTy) as HD. pose proof (hw_arena _ HW) as WA.
  assert (Hcls : class_raw (cid i) <> 0%Z) by (cbn; lia).
  unfold heap_publish_run. rewrite (proj2 (vec_get_Ok _ _ _) HC). cbn [mbind outcome_bind].
  set (Dl := match last (free_runs D) with Some l => _ | None => _ end).
  assert (HDl : (out_of_memory D /\ Dl = Err (PublicationArena AllocationFailed)) \/
    exists A' l fr, Dl = Ok (with_free_runs (with_arena D A') fr, l) /\ run_published (arena D) A' l (cid i) (class_geometry C) /\
      NoDup fr /\ fr ⊆ free_runs D /\ l ∉ fr).
  { unfold Dl. destruct (last (free_runs D)) as [l|] eqn:El.
    - right. apply last_Some in El as [fr Efr]. pose proof (hw_free_nodup _ HW) as HN. rewrite Efr in HN. apply NoDup_app in HN as (HN & Hd & _).
      destruct (hw_free _ HW l) as (r & Hr & He); [rewrite Efr; set_solver|]. destruct (initialize_run_ok _ _ HD Hcls (arena D) l r WA Hr He) as (A' & -> & HP).
      cbn [map_err mbind outcome_bind]. exists A', l, fr. cbn. rewrite Efr, removelast_last. split; [done|]. split; [done|]. split; [done|]. split; [set_solver|].
      intros Hin. apply (Hd l Hin). left.
    - apply last_None in El. destruct (publish_run_ok _ _ HD Hcls (arena D) (allocate_memory (chunk_bases (arena D))) WA) as [[Hn ->]|(A' & l & -> & HP)].
      + intros b Hb. destruct (HM _ _ Hb) as (? & ? & ? & ?). done.
      + by left.
      + right. cbn [mbind outcome_bind fst snd]. exists A', l, []. split; [by destruct D; cbn in *; subst|]. split; [done|]. split; [constructor|]. split; [set_solver|].
        apply not_elem_of_nil. }
  destruct HDl as [[Hn ->]|(A' & l & fr & -> & HP & Hfr & Hsub & Hout)]; [by left|right]. cbn [mbind outcome_bind arena with_arena with_free_runs].
  destruct (rp_new _ _ _ _ _ HP) as (r & Hr & HO). pose proof HO as (Hc & Hg & _).
  destruct (run_claim_target_ok (E:=RunPublicationError) A' l (cid i) (class_geometry C) r (rp_wf _ _ _ _ _ HP)) as (t & -> & Htl & Htg & Hto); [done|].
  cbn [expect mbind outcome_bind classes with_free_runs with_arena]. rewrite (proj2 (vec_get_Ok _ _ _) HC). cbn [mbind outcome_bind].
  unfold class_publish_run. rewrite Htl. pose proof (new_location D HW i C A' l HP i C HC) as Hnl. rewrite (bool_decide_false _ Hnl). cbn [negb rust_assert mbind outcome_bind].
  assert (HCp : exists f k, (match frontier_index C with None => publish_frontier (E:=RunPublicationError) (MkClass (metadata C) (class_geometry C) (frontier C) (class_runs C ++ [t]) ({[l]} ∪ run_locations C) (frontier_index C)) 0
      | Some _ => Ok (MkClass (metadata C) (class_geometry C) (frontier C) (class_runs C ++ [t]) ({[l]} ∪ run_locations C) (frontier_index C)) end) = Ok (added_run C t f k) /\
      match k, f with None, None => True | Some n, Some t' => class_runs (added_run C t f k) !! n = Some t' | _, _ => False end).
  { destruct (hw_class _ HW i C HC) as (_ & _ & _ & Hfr0). destruct (frontier_index C) as [k|] eqn:Ek.
    - exists (frontier C), (Some k). unfold added_run. rewrite Htl. split; [done|]. destruct (frontier C); [|done]. cbn. by apply lookup_app_l_Some.
    - destruct (lookup_lt_is_Some_2 (class_runs C ++ [t]) 0) as [t0 Ht0]; [rewrite length_app; cbn; lia|]. exists (Some t0), (Some 0).
      unfold publish_frontier. cbn [class_runs]. rewrite (proj2 (vec_get_Ok _ _ _) Ht0). cbn. unfold with_frontier, added_run. cbn. by rewrite Htl. }
  destruct HCp as (f & k & HCp & Hfk). cbn [frontier_index] in *. rewrite HCp. cbn [mbind outcome_bind].
  unfold record_run_assignment. cbn [allocation_pressure with_free_runs with_arena].
  pose proof (assigned_bound D HW) as Hb. rewrite (proj2 (Z.ltb_lt _ _)) by (unfold usize_max, u64_max; lia).
  pose proof (published_wf D HW i C HC A' l HP t Htl Htg Hto f k Hfk fr Hfr Hsub Hout) as HW'.
  pose proof (published_heap_grown D HW i C HC A' l HP t Htl Htg Hto f k Hfk fr Hfr Hsub Hout) as HG.
  pose proof (published_objects D HW i C HC A' l HP t Htl Htg Hto f k Hfk fr Hfr Hsub Hout) as HOb.
  eexists _, t, f, k, _, r. split; [done|]. split; [exact HW'|]. split; [split; [exact HG|exact HOb|by eapply insert_keys|done]|]. cbn.
  rewrite list_lookup_insert_eq by (by eapply lookup_lt_Some). by rewrite Htl.
Qed.

(** An empty run has a word to claim. *)
Lemma opened_has_free r cls g : geometry_wf g -> opened r cls g -> word_has_free r g 0 = true /\ leased_word r 0 = false /\ (Z.of_nat 0 < word_len (allocation_bitmap g))%Z.
Proof.
  intros HG (_ & _ & _ & HA & HL). pose proof (geometry_facts g HG) as (_ & Hn & _ & _ & _ & Hwl & _). pose proof (bitmap_words_bounds (slot_count g)).
  split; [|split; [apply HL|rewrite Hwl; lia]]. apply existsb_elem. exists 0%Z. split; [by apply elem_of_bits64|]. rewrite HA. apply andb_true_iff. split; [by apply Z.ltb_lt|done].
Qed.

Lemma claim_at_ok D i C k t : heap_wf D -> classes D !! i = Some C -> class_runs C !! k = Some t ->
  exists D' res, claim_at_frontier D i (with_frontier C (Some t) (Some k)) = Ok (D', res) /\ heap_wf D' /\ heap_kept D D' /\
    classes D' !! i = Some (with_frontier C (Some t) (Some k)) /\
    match res with
    | Some w => refilled D D' i (allocation_cursor (cid i) w)
    | None => forall r n, run_of (arena D) (target_location t) = Some r -> (Z.of_nat n < word_len (allocation_bitmap (target_geometry t)))%Z ->
        leased_word r n = true \/ word_has_free r (target_geometry t) n = false
    end.
Proof.
  intros HW HC Hk. set (C1 := with_frontier C (Some t) (Some k)). set (D1 := with_classes D (<[i := C1]> (classes D))).
  assert (HC1 : classes D1 !! i = Some C1) by (cbn; by rewrite list_lookup_insert_eq by (by eapply lookup_lt_Some)).
  pose proof (frontier_wf D HW i C HC k t Hk) as HW1. pose proof (frontier_kept D i C HC k t) as HK1. fold C1 D1 in HW1, HK1.
  destruct (claim_run_ok D1 i C1 t HW1 HC1) as (A' & res & Hcl & HW' & HK' & HO); [by eapply list_elem_of_lookup_2|].
  unfold claim_at_frontier. cbn [frontier with_frontier C1 expect mbind outcome_bind]. change (arena D) with (arena D1). rewrite Hcl. cbn [mbind outcome_bind fst snd].
  exists (with_arena D1 A'), res. split; [done|]. split; [done|]. split; [by transitivity D1|]. split; [done|].
  destruct res; [by apply (refilled_after D D1)|done].
Qed.

(** The runs of the class after its frontier. *)
Definition runs_left (C : AllocationClassEntry) : nat := length (class_runs C) - match frontier_index C with Some k => S k | None => 0 end.

Lemma claim_runs_ok fuel D i C requested : heap_wf D -> classes_typed D -> classes D !! i = Some C -> runs_left C + 1 <= fuel ->
  (exists D', heap_kept D D' /\ out_of_memory D' /\ claim_runs allocate_memory fuel D i (cid i) (class_geometry C) requested = Panic) \/
  exists D' pressed c, claim_runs allocate_memory fuel D i (cid i) (class_geometry C) requested = Ok (D', pressed, c) /\ refilled D D' i c.
Proof.
  revert D C requested. induction fuel as [|fuel IH]; intros D C requested HW HTy HC Hfuel; [lia|]. cbn [claim_runs].
  rewrite (proj2 (vec_get_Ok _ _ _) HC). cbn [mbind outcome_bind]. unfold advance_frontier.
  set (next := match frontier_index C with Some k => k + 1 | None => 0 end).
  assert (Hleft : runs_left C = length (class_runs C) - next) by (unfold runs_left, next; destruct (frontier_index C); lia).
  destruct (decide (next < length (class_runs C))) as [Hlt|Hge].
  - destruct (lookup_lt_is_Some_2 _ _ Hlt) as [t Ht]. unfold publish_frontier. rewrite (proj2 (vec_get_Ok _ _ _) Ht). cbn [mbind outcome_bind].
    destruct (claim_at_ok D i C next t HW HC Ht) as (D' & [w|] & -> & HW' & HK' & HC' & HO); cbn [mbind outcome_bind fst snd].
    + right. by eexists _, _, _.
    + destruct (IH D' _ requested HW' (kept_typed _ _ HK' HTy) HC') as [(D2 & HK2 & Ho & He)|(D2 & p & c & He & HR)].
      * unfold runs_left. cbn. lia.
      * left. exists D2. split; [by transitivity D'|done].
      * right. exists D2, p, c. split; [done|]. by apply (refilled_after D D').
  - cbn [mbind outcome_bind]. destruct (heap_publish_run_ok D i C HW HC (HTy i C HC)) as [[Ho ->]|(D1 & t & f & k & pressed & r & -> & HW1 & HK1 & HC1 & Hr & HOp & Htg)].
    { left. by exists D. }
    cbn [unwrap mbind outcome_bind fst snd]. rewrite (proj2 (vec_get_Ok _ _ _) HC1). cbn [mbind outcome_bind]. unfold activate_last_run. cbn [class_runs added_run].
    rewrite length_app, Nat.add_1_r. unfold publish_frontier. cbn [class_runs].
    assert (Hlast : class_runs (added_run C t f k) !! length (class_runs C) = Some t) by (cbn; by rewrite lookup_app_r, Nat.sub_diag).
    change (class_runs C ++ [t]) with (class_runs (added_run C t f k)). rewrite (proj2 (vec_get_Ok _ _ _) Hlast). cbn [mbind outcome_bind].
    destruct (claim_at_ok D1 i _ _ t HW1 HC1 Hlast) as (D' & [w|] & Heq & HW' & HK' & HC' & HO); unfold added_run in Heq |- *; rewrite Heq; cbn [mbind outcome_bind fst snd].
    + right. eexists _, _, _. split; [done|]. by apply (refilled_after D D1).
    + exfalso. destruct (opened_has_free r (cid i) (class_geometry C)) as (H1 & H2 & H3); [by apply derived_wf, class_derived, (HTy i)|done|].
      rewrite Htg in HO. destruct (HO r 0 Hr H3); congruence.
Qed.

Lemma claim_frontier_ok D i C : heap_wf D -> classes D !! i = Some C ->
  exists A' res, claim_frontier (arena D) C = Ok (A', res) /\ heap_wf (with_arena D A') /\ heap_kept D (with_arena D A') /\
    forall w, res = Some w -> refilled D (with_arena D A') i (allocation_cursor (cid i) w).
Proof.
  intros HW HC. unfold claim_frontier. destruct (frontier C) as [t|] eqn:Ef.
  - destruct (hw_class _ HW i C HC) as (_ & _ & _ & Hf). rewrite Ef in Hf. destruct (frontier_index C) as [k|]; [|done].
    destruct (claim_run_ok D i C t HW HC) as (A' & res & Hcl & HW' & HK & HO); [by eapply list_elem_of_lookup_2|]. exists A', res.
    split; [done|]. split; [done|]. split; [done|]. by intros w ->.
  - exists (arena D), None. split; [done|]. by destruct D.
Qed.

Lemma claim_cursor_ok D i C class : heap_wf D -> classes_typed D -> classes D !! i = Some C -> class = MkAllocationClass (metadata C) (cid i) ->
  (exists D', heap_kept D D' /\ out_of_memory D' /\ claim_allocation_cursor allocate_memory D class = Panic) \/
  exists D' pressed c, claim_allocation_cursor allocate_memory D class = Ok (D', pressed, c) /\ refilled D D' i c.
Proof.
  intros HW HTy HC ->. unfold claim_allocation_cursor. cbn [ac_id ac_metadata]. rewrite class_index_cid. cbn [expect mbind outcome_bind].
  rewrite (proj2 (vec_get_Ok _ _ _) HC). cbn [mbind outcome_bind].
  destruct (claim_frontier_ok D i C HW HC) as (A1 & [w|] & -> & HW1 & HK1 & HO1); cbn [mbind outcome_bind fst snd].
  { right. eexists _, _, _. split; [done|]. by apply HO1. }
  change (classes (with_arena D A1)) with (classes D). rewrite (proj2 (vec_get_Ok _ _ _) HC). cbn [mbind outcome_bind].
  rewrite (bool_decide_true _ eq_refl). cbn [rust_assert mbind outcome_bind].
  destruct (claim_frontier_ok (with_arena D A1) i C HW1 HC) as (A2 & [w|] & -> & HW2 & HK2 & HO2); cbn [mbind outcome_bind fst snd].
  { right. eexists _, _, _. split; [done|]. apply (refilled_after D (with_arena D A1)); [done..|]. by apply HO2. }
  assert (HK : heap_kept D (with_arena (with_arena D A1) A2)) by (by transitivity (with_arena D A1)).
  destruct (claim_runs_ok (length (class_runs C) + 2) (with_arena (with_arena D A1) A2) i C false HW2 (kept_typed _ _ HK HTy) HC) as [(D' & HK' & Ho & He)|(D' & p & c & He & HR)].
  - unfold runs_left. lia.
  - left. exists D'. split; [by transitivity (with_arena (with_arena D A1) A2)|done].
  - right. exists D', p, c. split; [done|]. by apply (refilled_after D (with_arena (with_arena D A1) A2)).
Qed.
End memory.
