(* ===== verification/Allocators.v ===== *)
(** * Allocating through a thread's cache

    [alloc] returns the address of an object that was not there, adds nothing else
    and takes its slot from the cursor in the thread's cache or from a word that no
    cursor had. [allocator] resolves a representation to its class, one class for
    each. *)
From stdpp Require Import base option list numbers gmap sets.
From Stdlib Require Import ZArith Lia.
From S2P Require Import Prelude RootPool RunGeometry Bitmaps Arena ArenaFacts Heap HeapFacts Marking.
From S2P Require Import MarkingFacts SweepFacts SweepPlan SweepArena SweepSteps SweepCorrect Claim ClaimFacts.
From S2P Require Import ClaimRaces Alloc AllocFacts AllocClaims.

(** ** Caches *)
Record cache_ok (D : ManagedData) (cache : ClassCursorCache) : Prop := {
  ca_length : length cache = Z.to_nat CACHED_CLASS_SLOTS;
  ca_cursor : forall k c, cache !! k = Some (Some c) -> cursor_ok D c /\ cursor_slot (cursor_class c) = k;
}.

Lemma cursor_slot_bound cls : cursor_slot cls < Z.to_nat CACHED_CLASS_SLOTS.
Proof. unfold cursor_slot. pose proof (Z.mod_pos_bound (class_raw cls - 1) CACHED_CLASS_SLOTS ltac:(done)). unfold CACHED_CLASS_SLOTS in *. lia. Qed.

Lemma default_cache_ok D : cache_ok D ClassCursorCache_default.
Proof. split; [apply length_replicate|]. intros k c Hk. by apply lookup_replicate in Hk as [? _]. Qed.

Lemma cache_entry D cache cls : cache_ok D cache -> exists e, cache !! cursor_slot cls = Some e.
Proof. intros [HL _]. apply lookup_lt_is_Some_2. rewrite HL. apply cursor_slot_bound. Qed.

(** The cursor the cache has for a class. *)
Definition cached (cache : ClassCursorCache) (cls : AllocationClassId) (c : AllocationCursor) : Prop :=
  cache !! cursor_slot cls = Some (Some c) /\ cursor_class c = cls.

Lemma get_mut_ok D cache cls : cache_ok D cache -> exists found, get_mut cache cls = Ok found /\ forall c, found = Some c <-> cached cache cls c.
Proof.
  intros HC. destruct (cache_entry D cache cls HC) as [e He]. unfold get_mut, cached. rewrite (proj2 (vec_get_Ok _ _ _) He). cbn [mbind outcome_bind].
  eexists. split; [done|]. intros c. rewrite He. destruct e as [c0|]; [|naive_solver]. case_bool_decide; naive_solver.
Qed.

Lemma insert_cursor D D' cache c : cache_ok D cache -> (forall k c', cache !! k = Some (Some c') -> k <> cursor_slot (cursor_class c) -> cursor_ok D' c') ->
  cursor_ok D' c -> vec_set (E:=Empty_set) cache (cursor_slot (cursor_class c)) (Some c) = Ok (<[cursor_slot (cursor_class c) := Some c]> cache) /\
    cache_ok D' (<[cursor_slot (cursor_class c) := Some c]> cache).
Proof.
  intros [HL HC] Hold Hc. split; [apply vec_set_lt; rewrite HL; apply cursor_slot_bound|]. split; [by rewrite (length_insert (A:=option AllocationCursor))|].
  intros k c' [(<- & [= <-] & _)|[Hne Hk]]%list_lookup_insert_Some; [done|]. split; [by eapply Hold|by apply HC].
Qed.

Lemma same_cursor_at c c' l k : same_cursor c c' -> at_cursor c' l k <-> at_cursor c l k.
Proof. intros (_ & El & _ & _ & Ew). unfold at_cursor. by rewrite El, Ew. Qed.

(** An allocation from the cursor the cache has. *)
Lemma cached_try_ok D cache i m : heap_wf D -> classes_typed D -> cache_ok D cache ->
  (forall C, classes D !! i = Some C -> metadata C = m) ->
  (exists r, cached_try_allocate (meta_layout m) (arena D) cache (cid i) = Ok (arena D, r, None) /\ r = cache /\
     forall c, cached cache (cid i) c -> free_mask c = 0%Z) \/
  exists A' c c' a o, cached_try_allocate (meta_layout m) (arena D) cache (cid i) = Ok (A', <[cursor_slot (cid i) := Some c']> cache, Some a) /\
    cached cache (cid i) c /\ same_cursor c c' /\ heap_wf (with_arena D A') /\ heap_grown (at_cursor c) D (with_arena D A') /\
    cursor_ok (with_arena D A') c' /\ one_more D (with_arena D A') a o m.
Proof.
  intros HW HTy HC Hm. destruct (get_mut_ok D cache (cid i) HC) as (found & Hf & Hiff). unfold cached_try_allocate. rewrite Hf. cbn [mbind outcome_bind].
  destruct found as [c|]; [|left; eexists; split; [done|]; split; [done|]; intros c Hc; by apply Hiff in Hc].
  pose proof (proj1 (Hiff c) eq_refl) as Hc. destruct Hc as [Hk Hcl]. destruct (ca_cursor _ _ HC _ _ Hk) as [Hok Hslot].
  destruct (try_allocate_ok D c m HW HTy Hok) as (A' & c' & [a|] & -> & HS & Hres).
  { intros j C Hj HCj. apply Hm. rewrite Hcl in Hj. by apply cid_inj in Hj as ->. }
  - destruct Hres as (HW' & HG & Hok' & o & HO). right. exists A', c, c', a, o. cbn [mbind outcome_bind].
    rewrite vec_set_lt by (rewrite (ca_length _ _ HC); apply cursor_slot_bound). cbn. split; [done|]. split; [done|]. split; [done|]. split; [done|]. split; [done|]. by split.
  - destruct Hres as (-> & -> & Hz). left. cbn [mbind outcome_bind]. rewrite vec_set_lt by (rewrite (ca_length _ _ HC); apply cursor_slot_bound). cbn.
    rewrite list_insert_id by done. eexists. split; [done|]. split; [done|]. intros c1 [Hk1 _]. by rewrite Hk in Hk1; simplify_eq.
Qed.

(** ** Allocation *)
Section memory.
Context (allocate_memory : list Z -> option Z) (HM : allocator_ok allocate_memory).

(** What an allocation for class [i] does to the heap and to the thread's cache. *)
Record allocated (D D' : ManagedData) (cache cache' : ClassCursorCache) (i : nat) (m : ObjectMetadata) (a : Z) : Prop := {
  al_wf : heap_wf D';
  al_object : exists o, one_more D D' a o m;
  al_keys : class_key <$> classes D' = class_key <$> classes D;
  al_metadata : classes_by_metadata D' = classes_by_metadata D;
  al_cursor : exists c, cache' = <[cursor_slot (cid i) := Some c]> cache /\ cursor_class c = cid i /\ cursor_ok D' c /\ heap_grown (at_cursor c) D D' /\
    ((exists c0, cached cache (cid i) c0 /\ same_cursor c0 c) \/ ~ leased_in D (cursor_location c) (cursor_word c));
}.

Lemma alloc_ok D cache i C class : heap_wf D -> classes_typed D -> cache_ok D cache -> classes D !! i = Some C ->
  class = MkAllocationClass (metadata C) (cid i) ->
  (exists D', heap_kept D D' /\ out_of_memory allocate_memory D' /\ alloc allocate_memory D cache class = Panic) \/
  exists D' cache' pressed a, alloc allocate_memory D cache class = Ok (D', cache', pressed, a) /\ allocated D D' cache cache' i (metadata C) a.
Proof.
  intros HW HTy HC HCl ->. unfold alloc. cbn [ac_metadata ac_id].
  assert (Hm : forall C', classes D !! i = Some C' -> metadata C' = metadata C) by congruence.
  destruct (cached_try_ok D cache i (metadata C) HW HTy HC Hm) as [(? & -> & -> & Hz)|(A' & c & c' & a & o & -> & Hc & HS & HW' & HG & Hok & HO)]; cbn [mbind outcome_bind].
  2:{ right. eexists _, _, _, _. split; [done|]. split; [done|by exists o|done..|]. exists c'. split; [done|]. split; [destruct HS as (-> & _); apply Hc|].
      split; [done|]. split; [|left; by exists c]. eapply heap_grown_weaken; [|exact HG]. intros l k H. by apply (same_cursor_at c c'). }
  replace (with_arena D (arena D)) with D by (by destruct D).
  destruct (claim_cursor_ok allocate_memory HM D i C _ HW HTy HCl eq_refl) as [(D1 & HK & Ho & ->)|(D1 & pressed & c & -> & [HW1 HK HOk Hcls Hmask Hfresh])].
  { left. by exists D1. }
  right. cbn [mbind outcome_bind]. unfold insert.
  destruct (insert_cursor D D1 cache c HC) as [-> HC1]; [intros k c' Hk _; apply (kept_cursor D D1); [done|done|by apply (ca_cursor _ _ HC) in Hk as []]|done|].
  cbn [mbind outcome_bind]. set (cache1 := <[_ := _]> cache) in *.
  assert (Hm1 : forall C', classes D1 !! i = Some C' -> metadata C' = metadata C).
  { intros C' HC'. destruct (kept_class D D1 i C' HK HC') as (C0 & HC0 & He). assert (C0 = C) as -> by congruence. by injection He. }
  assert (Hcc : cached cache1 (cid i) c).
  { split; [|done]. unfold cache1. rewrite Hcls. apply list_lookup_insert_eq. rewrite (ca_length _ _ HC). apply cursor_slot_bound. }
  destruct (cached_try_ok D1 cache1 i (metadata C) HW1 (kept_typed _ _ HK HTy) HC1 Hm1) as [(? & _ & _ & Hz')|(A' & c2 & c' & a & o & -> & Hc2 & HS & HW' & HG & Hok & HO)].
  { by apply Hz' in Hcc. }
  assert (c2 = c) as -> by (destruct Hc2, Hcc; congruence). cbn [mbind outcome_bind]. eexists _, _, _, _. split; [done|].
  assert (HG' : heap_grown (at_cursor c) D (with_arena D1 A')).
  { transitivity D1; [|exact HG]. eapply heap_grown_weaken; [|apply HK]. by intros. }
  split; [done|exists o; eapply one_more_after; [apply HK|done]|apply HK|apply HK|]. exists c'.
  split; [unfold cache1; rewrite Hcls; apply (list_insert_insert_eq (A:=option AllocationCursor))|]. destruct HS as (Ecl & El & Er & Eg & Ew). split; [by rewrite Ecl|]. split; [done|].
  split; [eapply heap_grown_weaken; [|exact HG']; intros l k H; by apply (same_cursor_at c c')|right]. by rewrite El, Ew.
Qed.
End memory.

(** ** Resolving a representation *)

(** The heap has one class for each representation it has met. *)
Definition metadata_ok (D : ManagedData) : Prop :=
  forall m id, classes_by_metadata D !! m = Some id <-> exists i C, id = cid i /\ classes D !! i = Some C /\ metadata C = m.

Lemma keys_metadata D D' : class_key <$> classes D' = class_key <$> classes D -> classes_by_metadata D' = classes_by_metadata D ->
  metadata_ok D -> metadata_ok D'.
Proof.
  intros HK HM HD m id. rewrite HM, (HD m id).
  assert (HL : forall i, class_key <$> classes D' !! i = class_key <$> classes D !! i) by (intros i; by rewrite <- !list_lookup_fmap, HK).
  split; intros (i & C & -> & HC & <-); specialize (HL i); rewrite HC in HL.
  - destruct (classes D' !! i) as [C'|] eqn:HC'; [|done]. exists i, C'. split; [done|]. split; [done|]. unfold class_key in HL. cbn in HL. congruence.
  - destruct (classes D !! i) as [C'|] eqn:HC'; [|done]. exists i, C'. split; [done|]. split; [done|]. unfold class_key in HL. cbn in HL. congruence.
Qed.

Lemma keys_typed D D' : class_key <$> classes D' = class_key <$> classes D -> classes_typed D -> classes_typed D'.
Proof.
  intros HK HT i C HC. assert (HL : class_key <$> classes D' !! i = class_key <$> classes D !! i) by (by rewrite <- !list_lookup_fmap, HK).
  rewrite HC in HL. destruct (classes D !! i) as [C0|] eqn:HC0; [|done]. unfold class_key in HL. cbn in HL. injection HL as Hm Hg. unfold class_typed. rewrite Hm, Hg. by apply (HT i).
Qed.

(** The class of [m] in a heap that has resolved it. *)
Definition resolved (D : ManagedData) (m : ObjectMetadata) (class : AllocationClass) : Prop :=
  exists i C, classes D !! i = Some C /\ metadata C = m /\ class = MkAllocationClass m (cid i).

Section new_class.
Context (D : ManagedData) (HW : heap_wf D) (m : ObjectMetadata) (g : RunGeometry) (Hn : (Z.of_nat (S (length (classes D))) < usize_max)%Z).
Notation D' := (MkData (arena D) (<[m := cid (length (classes D))]> (classes_by_metadata D)) (classes D ++ [AllocationClassEntry_new m g]) (retired_no_drop_runs D)
  (finalization_batch D) (running_finalizers D) (free_runs D) (allocation_pressure D) (root_pool D)).

Lemma new_class_lookup j C : (classes D ++ [AllocationClassEntry_new m g]) !! j = Some C ->
  classes D !! j = Some C \/ j = length (classes D) /\ C = AllocationClassEntry_new m g.
Proof. intros [?|[? HC]]%lookup_app_Some; [by left|right]. apply list_lookup_singleton_Some in HC as [? <-]. clear HW Hn. split; [lia|done]. Qed.

Lemma new_class_wf : heap_wf D'.
Proof.
  pose proof HW as [H1 H2 H3 H4 H5 H6 H7 H8 H9 H10]. split; cbn -[class_run_count]; try done.
  - rewrite length_app. cbn. lia.
  - intros j C [HC|[-> ->]]%new_class_lookup; [by apply H3|]. split; [by intros t ?%elem_of_nil|]. split; [|split; [constructor|done]].
    intros l. cbn. split; [by intros ?%elem_of_empty|]. by intros (t & ?%elem_of_nil & _).
  - intros l F HF. destruct (H5 l F HF) as [B1 B2 (j & Cj & Hj & HCj & Hrest) B4 B5 B6 B7 B8]. split; try done. exists j, Cj. split; [done|]. split; [|done].
    by apply lookup_app_l_Some.
  - rewrite H10. f_equal. unfold class_run_count. rewrite sum_list_with_app. cbn. lia.
Qed.

Lemma new_class_objects : same_objects D D'.
Proof.
  intros a o m'. unfold object. cbn [arena classes]. split; intros (Hr & Hs & Ha & j & C & Hj & HC & Hg & Hc & Hm); (split; [done|]; split; [done|]; split; [done|]; exists j, C; split; [done|]).
  - apply new_class_lookup in HC as [HC|[-> ->]]; [done|]. unfold contains_run in Hc. apply bool_decide_eq_true in Hc. by apply elem_of_empty in Hc.
  - split; [by apply lookup_app_l_Some|done].
Qed.

Lemma new_class_grown : heap_grown untouched D D'.
Proof.
  split; [reflexivity| |intros; by apply new_class_objects|done..]. intros j C HC. exists C. split; [by apply lookup_app_l_Some|done].
Qed.
End new_class.

Lemma discover_class_ok D m g : heap_wf D -> classes_typed D -> metadata_ok D -> layout_wf (meta_layout m) -> requested_wf (requested_slot_size m) ->
  derive (meta_layout m) (requested_slot_size m) = Ok g -> (Z.of_nat (S (length (classes D))) < usize_max)%Z ->
  exists D' class, discover_class D m g = Ok (D', class) /\ resolved D' m class /\ heap_wf D' /\ classes_typed D' /\ metadata_ok D' /\
    heap_grown untouched D D' /\ same_objects D D' /\ classes_by_metadata D ⊆ classes_by_metadata D'.
Proof.
  intros HW HT HM HL HR Hd Hn. unfold discover_class. destruct (classes_by_metadata D !! m) as [id|] eqn:Em.
  - apply HM in Em as (i & C & -> & HC & Hm). rewrite class_index_cid. cbn [expect mbind outcome_bind]. rewrite (proj2 (vec_get_Ok _ _ _) HC). cbn [mbind outcome_bind].
    eexists _, _. split; [done|]. split; [by exists i, C|]. by split_and!.
  - rewrite class_id_ok by lia. cbn [mbind outcome_bind]. rewrite class_index_cid. cbn [expect mbind outcome_bind].
    assert (HC : (classes D ++ [AllocationClassEntry_new m g]) !! length (classes D) = Some (AllocationClassEntry_new m g)) by (by rewrite lookup_app_r, Nat.sub_diag).
    rewrite (proj2 (vec_get_Ok _ _ _) HC). cbn [mbind outcome_bind]. eexists _, _. split; [done|].
    split; [exists (length (classes D)), (AllocationClassEntry_new m g); by split_and!|]. split; [by apply new_class_wf|]. split; [|split; [|split; [|split]]].
    + intros j C HCj. cbn in HCj. apply new_class_lookup in HCj as [HCj|[-> ->]]; [by apply (HT j)|done].
    + intros m' id. cbn [classes_by_metadata classes]. rewrite lookup_insert_Some, (HM m' id). split.
      * intros [[<- <-]|[Hne (i & C & -> & HCi & <-)]]; [by exists (length (classes D)), (AllocationClassEntry_new m g)|].
        exists i, C. split; [done|]. split; [by apply lookup_app_l_Some|done].
      * intros (i & C & -> & HCi & <-). apply new_class_lookup in HCi as [HCi|[-> ->]]; [right|by left]. split; [|by exists i, C]. intros He.
        assert (classes_by_metadata D !! m = Some (cid i)) by (apply HM; by exists i, C). congruence.
    + by apply new_class_grown.
    + apply new_class_objects.
    + cbn. by apply insert_subseteq.
Qed.

(** An unsupported layout changes nothing. *)
Lemma allocator_result D m : heap_wf D -> classes_typed D -> metadata_ok D -> layout_wf (meta_layout m) -> requested_wf (requested_slot_size m) ->
  (Z.of_nat (S (length (classes D))) < usize_max)%Z ->
  (exists e, allocator D m = Err e /\ derive (meta_layout m) (requested_slot_size m) = Err e) \/
  exists D' class, allocator D m = Ok (D', class) /\ resolved D' m class /\ heap_wf D' /\ classes_typed D' /\ metadata_ok D' /\
    heap_grown untouched D D' /\ same_objects D D' /\ classes_by_metadata D ⊆ classes_by_metadata D'.
Proof.
  intros HW HT HM HL HR Hn. unfold allocator. pose proof (derive_spec _ _ HL HR) as Hspec. destruct (derive (meta_layout m) (requested_slot_size m)) as [g|e| |] eqn:Ed; [right|left|inversion Hspec..].
  - destruct (discover_class_ok D m g HW HT HM HL HR Ed Hn) as (D' & class & Hd & H). exists D', class. split; [|done]. cbn [mbind outcome_bind]. by rewrite Hd.
  - by exists e.
Qed.
