(* ===== verification/Finalize.v ===== *)
(** * Running destructors ([crates/glam-gc/src/heap.rs])

    Dead slots with destructors wait in the finalization batch. A run's pending
    slots are claimed by an attempt, which is local to the collector; each
    destructor that has run clears its slot's bit in the attempt, whether it
    returned or panicked; completing the attempt clears the allocation bits of the
    finalized slots, opens the words that have none left, and recycles a detached
    run that is empty. Destructors run between these steps with no lock held; the
    steps are the operations of this file. *)
From stdpp Require Import base option list numbers gmap sets.
From Stdlib Require Import ZArith Lia.
From S2P Require Import Prelude RootPool RunGeometry Bitmaps Arena Heap.

(** ** Data *)
Record FinalizationWordAttempt := MkWordAttempt { wa_index : nat; original_mask : Z; remaining_mask : Z }.

Record FinalizationWork := MkWork {
  work_attempt_index : nat;
  work_word_index : nat;
  work_bit : Z;
  work_owner : RunOwner;
  work_value : Z;
  work_metadata : ObjectMetadata;
}.

Record RunFinalizationAttempt := MkAttempt {
  at_location : RunLocation;
  at_target : RunClaimTarget;
  at_class : AllocationClassId;
  at_metadata : ObjectMetadata;
  at_words : list FinalizationWordAttempt;
  at_work : list FinalizationWork;
  next_work_index : nat;
}.

Record CompletedDetachedRun := MkCompletedDetached { cd_target : RunClaimTarget; cd_class : AllocationClassId }.

Record FinalizationCompletion := MkCompletion {
  co_target : RunClaimTarget;
  co_class : AllocationClassId;
  co_detached : bool;
  co_words : list FinalizationWordAttempt;
  completed_detached_run : option CompletedDetachedRun;
}.

Record HeapActivity := MkActivity { queued_finalizers : nat; ha_running_finalizers : nat }.

(** ** Claiming a run *)
Definition dispatch_snapshot (b : FinalizationBatch) : list RunLocation := (map_to_list (batch_runs b)).*1.

(** Slot [bit] of word [i], checked. *)
Definition word_slot {E} (i : nat) (b : Z) : outcome E Z :=
  start ← expect (checked_mul (Z.of_nat i) 64);
  expect (checked_add start b).

(** One bit of a pending word. *)
Definition prepare_slot (A : Arena) (F : FinalizationRun) (attempt_index i : nat) (b : Z) : M FinalizationWork :=
  slot ← word_slot i b;
  _ ← rust_assert (slot <? slot_count (target_geometry (run_target F)))%Z;
  let owner := pending_owner F slot in
  allocated ← owner_slot_is_allocated A owner;
  _ ← rust_assert allocated;
  pointer ← owner_slot_pointer A owner;
  Ok (MkWork attempt_index i (bit b) owner pointer (fr_metadata F)).

(** One pending word. *)
Definition prepare_word (A : Arena) (F : FinalizationRun) (st : list FinalizationWordAttempt * list FinalizationWork) (iw : nat * Z)
    : M (list FinalizationWordAttempt * list FinalizationWork) :=
  _ ← rust_assert (negb (iw.2 =? 0)%Z);
  work ← mapM (prepare_slot A F (length st.1) iw.1) (drain_bits 64 iw.2);
  Ok (st.1 ++ [MkWordAttempt iw.1 iw.2 iw.2], st.2 ++ work).

Definition prepare_run_attempt (b : FinalizationBatch) (A : Arena) (l : RunLocation) : M RunFinalizationAttempt :=
  F ← expect (batch_runs b !! l);
  let target := run_target F in
  _ ← rust_assert (bool_decide (target_location target = l));
  ww ← foldM (prepare_word A F) ([], []) (map_to_list (pending_words F));
  _ ← rust_assert (bool_decide (length ww.2 = fr_pending_slot_count F));
  Ok (MkAttempt l target (fr_class F) (fr_metadata F) ww.1 ww.2 0).

Definition prepare_finalization_run (D : ManagedData) (l : RunLocation) : M (ManagedData * RunFinalizationAttempt) :=
  _ ← rust_assert (bool_decide (running_finalizers D = 0));
  a ← prepare_run_attempt (finalization_batch D) (arena D) l;
  Ok (with_running D (length (at_work a)), a).

(** ** The work of an attempt *)
Definition next_work (a : RunFinalizationAttempt) : option FinalizationWork := at_work a !! next_work_index a.

(** The destructor of [work] has run. *)
Definition complete_terminal (a : RunFinalizationAttempt) (work : FinalizationWork) : M RunFinalizationAttempt :=
  _ ← rust_assert (bool_decide (work_value <$> at_work a !! next_work_index a = Some (work_value work)));
  word ← expect (at_words a !! work_attempt_index work);
  _ ← rust_assert (bool_decide (wa_index word = work_word_index work));
  let owner := work_owner work in
  _ ← rust_assert (bool_decide (owner_location owner = at_location a));
  _ ← rust_assert (owner_run owner =? target_run (at_target a))%Z;
  _ ← rust_assert (bool_decide (owner_class owner = at_class a));
  _ ← rust_assert (bool_decide (owner_geometry owner = target_geometry (at_target a)));
  _ ← rust_assert (owner_slot owner / 64 =? Z.of_nat (work_word_index work))%Z;
  _ ← rust_assert (negb (Z.land (remaining_mask word) (work_bit work) =? 0)%Z);
  let word := MkWordAttempt (wa_index word) (original_mask word) (Z.land (remaining_mask word) (not64 (work_bit work))) in
  Ok (MkAttempt (at_location a) (at_target a) (at_class a) (at_metadata a) (<[work_attempt_index work := word]> (at_words a)) (at_work a)
        (S (next_work_index a))).

(** ** Completing an attempt *)
Definition remaining_slot_count (a : RunFinalizationAttempt) : nat := sum_list_with (fun w => count_ones (remaining_mask w)) (at_words a).

(** The slots of a word that were finalized. *)
Definition completed_mask (w : FinalizationWordAttempt) : Z := Z.land (original_mask w) (not64 (remaining_mask w)).

Definition attempt_owner (a : RunFinalizationAttempt) (slot : Z) : RunOwner :=
  MkOwner (at_location a) (target_run (at_target a)) (at_class a) (target_geometry (at_target a)) slot.

Definition clear_completed_slot (a : RunFinalizationAttempt) (i : nat) (A : Arena) (b : Z) : M Arena :=
  slot ← word_slot i b;
  Ac ← clear_owner_allocation A (attempt_owner a slot);
  _ ← rust_assert Ac.2;
  Ok Ac.1.

Definition clear_completed_word (a : RunFinalizationAttempt) (A : Arena) (w : FinalizationWordAttempt) : M Arena :=
  foldM (clear_completed_slot a (wa_index w)) A (drain_bits 64 (completed_mask w)).

(** A word's pending mask becomes what remains of it. *)
Definition retire_word (words : gmap nat Z) (w : FinalizationWordAttempt) : M (gmap nat Z) :=
  _ ← rust_assert (bool_decide (words !! wa_index w = Some (original_mask w)));
  Ok (if (remaining_mask w =? 0)%Z then delete (wa_index w) words else <[wa_index w := remaining_mask w]> words).

Definition complete_run_attempt (b : FinalizationBatch) (A : Arena) (a : RunFinalizationAttempt)
    : M (FinalizationBatch * Arena * FinalizationCompletion) :=
  let l := at_location a in
  let remaining := remaining_slot_count a in
  F ← expect (batch_runs b !! l);
  _ ← rust_assert (bool_decide (run_target F = at_target a));
  _ ← rust_assert (bool_decide (fr_class F = at_class a));
  _ ← rust_assert (bool_decide (fr_metadata F = at_metadata a));
  _ ← rust_assert (bool_decide (length (map_to_list (pending_words F)) = length (at_words a)));
  _ ← rust_assert (bool_decide (fr_pending_slot_count F = length (at_work a)));
  _ ← rust_assert (forallb (fun w => bool_decide (pending_words F !! wa_index w = Some (original_mask w))) (at_words a));
  A ← foldM (clear_completed_word a) A (at_words a);
  completed ← expect (if decide (remaining <= length (at_work a)) then Some (length (at_work a) - remaining) else None);
  words ← foldM retire_word (pending_words F) (at_words a);
  let run := MkFinalizationRun (fr_target F) (fr_class F) (fr_metadata F) remaining words in
  _ ← rust_assert (Bool.eqb (bool_decide (words = ∅)) (remaining =? 0));
  total ← expect (if decide (completed <= batch_pending b) then Some (batch_pending b - completed) else None);
  let runs := if remaining =? 0 then delete l (batch_runs b) else <[l := run]> (batch_runs b) in
  let done := if remaining =? 0
    then match fr_target F with Attached _ => None | Detached target => Some (MkCompletedDetached target (at_class a)) end
    else None in
  Ok (MkBatch runs total, A, MkCompletion (at_target a) (at_class a) (is_detached F) (at_words a) done).

(** [record_run_release] *)
Definition record_run_release (p : AllocationPressure) : M AllocationPressure :=
  match assigned_runs p with O => Panic | S n => Ok (MkPressure n (high_water_mark p)) end.

(** A word of an attached run that has no destructor left is opened. *)
Definition release_completed_word (index : nat) (c : FinalizationCompletion) (D : ManagedData) (w : FinalizationWordAttempt) : M ManagedData :=
  if negb (remaining_mask w =? 0)%Z then Ok D else
  A ← release_finalized_allocation_word (arena D) (co_target c) (co_class c) (wa_index w);
  C ← vec_get (classes D) index;
  C ← publish_released_run C (co_target c);
  Ok (with_classes (with_arena D A) (<[index := C]> (classes D))).

Definition complete_finalization_run (D : ManagedData) (a : RunFinalizationAttempt) : M (ManagedData * bool) :=
  _ ← rust_assert (bool_decide (running_finalizers D = length (at_work a)));
  r ← complete_run_attempt (finalization_batch D) (arena D) a;
  let '(b, A, c) := r in
  let D := with_running (with_batch (with_arena D A) b) 0 in
  D ← (if co_detached c then Ok D else
       index ← expect (class_index (co_class c));
       foldM (release_completed_word index c) D (co_words c));
  match completed_detached_run c with
  | Some done =>
      A ← reset_recyclable_run (arena D) (cd_target done) (cd_class done);
      p ← record_run_release (allocation_pressure D);
      Ok (with_free_runs (with_pressure (with_arena D A) p) (free_runs D ++ [target_location (cd_target done)]), true)
  | None => Ok (D, false)
  end.

(** ** The loop of a batch *)
Record FinalizationSummary := MkSummary { finalized_slots : nat; reclaimed_runs : nat }.

Definition count_run (s : FinalizationSummary) (slots : nat) (reclaimed_run : bool) : FinalizationSummary :=
  MkSummary (finalized_slots s + slots) (if reclaimed_run then S (reclaimed_runs s) else reclaimed_runs s).

Section batch.
(** Whether a destructor returns; it panics otherwise. *)
Context (drop_in_place : FinalizationWork -> bool).

(** The destructors of an attempt, until one panics. *)
Fixpoint run_destructors (fuel : nat) (a : RunFinalizationAttempt) : M (RunFinalizationAttempt * bool) :=
  match next_work a with
  | None => Ok (a, false)
  | Some work =>
      match fuel with
      | O => OutOfFuel
      | S fuel => completed ← complete_terminal a work; if drop_in_place work then run_destructors fuel completed else Ok (completed, true)
      end
  end.

(** The runs of the snapshot, the last one first; a panic is resumed once its run
    is completed. *)
Fixpoint finalize_runs (ls : list RunLocation) (D : ManagedData) (s : FinalizationSummary) : M (ManagedData * FinalizationSummary * bool) :=
  match ls with
  | [] => Ok (D, s, false)
  | l :: ls =>
      Da ← prepare_finalization_run D l;
      ap ← run_destructors (length (at_work Da.2)) Da.2;
      Dr ← complete_finalization_run Da.1 ap.1;
      let s := count_run s (next_work_index ap.1) Dr.2 in
      if (ap : RunFinalizationAttempt * bool).2 then Ok (Dr.1, s, true) else finalize_runs ls Dr.1 s
  end.

Definition run_finalization_batch (D : ManagedData) : M (ManagedData * FinalizationSummary * bool) :=
  finalize_runs (rev (dispatch_snapshot (finalization_batch D))) D (MkSummary 0 0).
End batch.

(** [activity] *)
Definition activity (D : ManagedData) : M HeapActivity :=
  if decide (running_finalizers D <= batch_pending (finalization_batch D))
  then Ok (MkActivity (batch_pending (finalization_batch D) - running_finalizers D) (running_finalizers D)) else Panic.
