(* ===== verification/FinalizeFacts.v ===== *)
(** * Facts about running destructors

    [attempt_ok F n a]: the attempt [a] claims the pending slots of the run [F] and
    the destructors of its first [n] slots have run. Claiming a run gives such an
    attempt with [n = 0]; every destructor adds one; completing it finalizes
    exactly those slots. *)
From stdpp Require Import base option list numbers gmap sets.
From Stdlib Require Import ZArith Lia.
From S2P Require Import Prelude RootPool RunGeometry Bitmaps Arena ArenaFacts Heap HeapFacts Finalize.
Local Open Scope Z_scope.

Lemma slots_small A l cls g r : arena_wf A -> typed A l cls g r -> 0 < slot_count g <= RUN_SIZE.
Proof.
  intros WA HT. destruct (typed_wf A WA _ _ _ _ HT) as [HG _]. pose proof (geometry_facts _ HG) as (Hst & Hn & Hf & Hend & _). split; [done|]. nia.
Qed.

Lemma owner_pointer_ok {E} A o : arena_wf A -> owner_ok A o -> owner_slot_pointer (E:=E) A o = Ok (owner_address o).
Proof.
  intros WA HO. destruct (resolved_owner_ok (E:=E) A WA o HO) as (c & r & HT & HR & HH). unfold owner_slot_pointer. rewrite HR. cbn [mbind outcome_bind fst].
  rewrite HH. cbn [mbind outcome_bind]. destruct (owner_offset A WA o HO) as [-> _]. cbn. f_equal. lia.
Qed.

(** What the work on slot [s] of [F] is. *)
Record work_ok (F : FinalizationRun) (s : Z) (x : FinalizationWork) : Prop := {
  wo_owner : work_owner x = pending_owner F s;
  wo_value : work_value x = owner_address (pending_owner F s);
  wo_word : work_word_index x = Z.to_nat (s / 64);
  wo_bit : work_bit x = bit (s mod 64);
  wo_metadata : work_metadata x = fr_metadata F;
  wo_attempt : exists w, map_to_list (pending_words F) !! work_attempt_index x = Some (Z.to_nat (s / 64), w);
}.

(** What remains of a pending word when the slots of [done] are finalized. *)
Definition word_remains (iw : nat * Z) (done : list Z) (w : FinalizationWordAttempt) : Prop :=
  wa_index w = iw.1 /\ original_mask w = iw.2 /\ is_word (remaining_mask w) /\
  forall b, 0 <= b < 64 -> Z.testbit (remaining_mask w) b = Z.testbit iw.2 b && negb (bool_decide (Z.of_nat iw.1 * 64 + b ∈ done)).

Record attempt_ok (F : FinalizationRun) (n : nat) (a : RunFinalizationAttempt) : Prop := {
  ao_location : at_location a = target_location (run_target F);
  ao_target : at_target a = run_target F;
  ao_class : at_class a = fr_class F;
  ao_metadata : at_metadata a = fr_metadata F;
  ao_next : next_work_index a = n;
  ao_bound : (n <= length (pending_slots F))%nat;
  ao_work : Forall2 (work_ok F) (pending_slots F) (at_work a);
  ao_words : Forall2 (fun iw => word_remains iw (take n (pending_slots F))) (map_to_list (pending_words F)) (at_words a);
}.

Lemma attempt_work_length F n a : attempt_ok F n a -> length (at_work a) = length (pending_slots F).
Proof. intros HA. symmetry. by eapply Forall2_length, HA. Qed.

Lemma word_slot_ok {E} i b : 0 <= b -> Z.of_nat i * 64 + b <= usize_max -> word_slot (E:=E) i b = Ok (Z.of_nat i * 64 + b).
Proof. intros Hb H. unfold word_slot. rewrite checked_mul_fits by lia. cbn [expect mbind outcome_bind]. by rewrite checked_add_fits. Qed.

(** ** Claiming *)
Section claim.
Context (A : Arena) (WA : arena_wf A) (cs : list AllocationClassEntry) (l : RunLocation) (F : FinalizationRun) (HF : batch_run_wf A cs l F).

Lemma slot_facts s : s ∈ pending_slots F -> owner_ok A (pending_owner F s) /\ slot_allocated A (pending_owner F s) = true /\
  0 <= s < slot_count (target_geometry (run_target F)) /\ s <= usize_max.
Proof.
  intros Hs. destruct (batch_owner_ok A cs l F s HF Hs) as [HO Ha]. pose proof HO as ((r & HT) & _ & Hr). cbn in Hr.
  pose proof (slots_small A _ _ _ _ WA HT) as Hsm. cbn in Hsm. unfold RUN_SIZE, usize_max, u64_max in *. split; [done|]. split; [done|]. lia.
Qed.

Lemma prepare_slot_ok ai i b w : map_to_list (pending_words F) !! ai = Some (i, w) -> 0 <= b < 64 -> Z.testbit w b = true ->
  exists x, prepare_slot A F ai i b = Ok x /\ work_ok F (Z.of_nat i * 64 + b) x.
Proof.
  intros Hai Hb Ht. assert (Hin : pending_words F !! i = Some w) by (apply elem_of_map_to_list; by eapply list_elem_of_lookup_2).
  destruct (index_join i b Hb) as [Hd Hm].
  assert (Hs : Z.of_nat i * 64 + b ∈ pending_slots F).
  { apply elem_of_pending_slots; [apply HF|]. split; [lia|]. unfold pending_bit. by rewrite Hd, Hm, Nat2Z.id, Hin. }
  destruct (slot_facts _ Hs) as (HO & Hal & Hr & Hu). unfold prepare_slot. rewrite word_slot_ok by lia. cbn [mbind outcome_bind].
  rewrite (proj2 (Z.ltb_lt _ _)) by lia. cbn [rust_assert mbind outcome_bind]. rewrite (slot_is_allocated_ok A WA) by done. rewrite Hal. cbn [rust_assert mbind outcome_bind].
  rewrite (owner_pointer_ok A) by done. cbn [mbind outcome_bind]. eexists. split; [done|]. split; cbn; try done.
  - by rewrite Hd, Nat2Z.id.
  - by rewrite Hm.
  - exists w. by rewrite Hd, Nat2Z.id.
Qed.

Lemma prepare_slots_ok ai i w bs : map_to_list (pending_words F) !! ai = Some (i, w) -> (forall b, b ∈ bs -> 0 <= b < 64 /\ Z.testbit w b = true) ->
  exists xs, mapM (prepare_slot A F ai i) bs = Ok xs /\ Forall2 (work_ok F) ((fun b => Z.of_nat i * 64 + b) <$> bs) xs.
Proof.
  intros Hai. induction bs as [|b bs IH]; intros Hbs; [by exists []; split; [|constructor]|].
  destruct (Hbs b ltac:(left)) as [Hb Ht]. destruct (prepare_slot_ok ai i b w Hai Hb Ht) as (x & Hx & Hok).
  destruct IH as (xs & Hxs & Hall); [intros; apply Hbs; by right|]. exists (x :: xs). cbn. rewrite Hx. cbn [mbind outcome_bind].
  change (mapM (prepare_slot A F ai i) bs) with (mapM (M:=M) (prepare_slot A F ai i) bs) in Hxs. rewrite Hxs. split; [done|]. by constructor.
Qed.

Lemma prepare_word_ok ws xs i w : map_to_list (pending_words F) !! length ws = Some (i, w) ->
  exists xs', prepare_word A F (ws, xs) (i, w) = Ok (ws ++ [MkWordAttempt i w w], xs ++ xs') /\ Forall2 (work_ok F) (word_slots i w) xs'.
Proof.
  intros Hai. assert (Hin : pending_words F !! i = Some w) by (apply elem_of_map_to_list; by eapply list_elem_of_lookup_2). destruct (bf_words _ _ _ _ HF i w Hin) as [Hword Hne].
  destruct (prepare_slots_ok (length ws) i w (drain_bits 64 w) Hai) as (xs' & Hm & Hxs'); [intros b Hb; by apply elem_of_drain in Hb|].
  exists xs'. split; [|exact Hxs']. apply bind_Ok. exists tt. split; [cbn [snd]; by rewrite (proj2 (Z.eqb_neq _ _) Hne)|]. apply bind_Ok. exists xs'. split; [exact Hm|reflexivity].
Qed.

Lemma prepare_words_ok : exists ww, foldM (prepare_word A F) ([], []) (map_to_list (pending_words F)) = Ok ww /\
  ww.1 = (fun iw => MkWordAttempt iw.1 iw.2 iw.2) <$> map_to_list (pending_words F) /\ Forall2 (work_ok F) (pending_slots F) ww.2.
Proof.
  apply (foldM_inv (prepare_word A F) (fun d ww => ww.1 = (fun iw => MkWordAttempt iw.1 iw.2 iw.2) <$> d /\ Forall2 (work_ok F) (d ≫= fun iw => word_slots iw.1 iw.2) ww.2)).
  - split; [done|constructor].
  - intros d [i w] rest [ws xs] Heq [Hw Hx]. cbn [fst snd] in *.
    destruct (prepare_word_ok ws xs i w) as (xs' & -> & Hxs'); [by rewrite Hw, length_fmap, Heq, list_lookup_middle|].
    eexists. split; [reflexivity|]. cbn [fst snd]. rewrite fmap_app, Hw. split; [done|]. rewrite bind_app, bind_singleton. by apply Forall2_app.
Qed.

Lemma prepare_attempt_ok b : batch_runs b !! l = Some F -> exists a, prepare_run_attempt b A l = Ok a /\ attempt_ok F 0 a.
Proof.
  intros Hb. unfold prepare_run_attempt. rewrite Hb. cbn [expect mbind outcome_bind]. rewrite bool_decide_true by apply HF. cbn [rust_assert mbind outcome_bind].
  destruct prepare_words_ok as (ww & -> & Hws & Hxs). cbn [mbind outcome_bind]. rewrite bool_decide_true by (rewrite (bf_count _ _ _ _ HF); symmetry; by eapply Forall2_length).
  cbn [rust_assert mbind outcome_bind]. eexists. split; [done|]. split; cbn; try done; [symmetry; apply HF|lia|].
  rewrite Hws. apply Forall2_fmap_r, Forall_Forall2_diag, list.Forall_forall. intros [i w] Hin%elem_of_map_to_list. destruct (bf_words _ _ _ _ HF i w Hin) as [Hword Hne].
  split; [done|]. split; [done|]. split; [done|]. intros b' Hb'. cbn. rewrite bool_decide_false by (apply not_elem_of_nil). by rewrite andb_true_r.
Qed.

(** ** A destructor has run *)
Lemma next_destructor_ok n a : attempt_ok F n a -> (n < length (pending_slots F))%nat -> exists s x, pending_slots F !! n = Some s /\ next_work a = Some x /\ work_ok F s x.
Proof.
  intros HA Hn. destruct (lookup_lt_is_Some_2 _ _ Hn) as [s Hs]. destruct (Forall2_lookup_l _ _ _ _ _ (ao_work _ _ _ HA) Hs) as (x & Hx & Hok).
  exists s, x. split; [done|]. unfold next_work. by rewrite (ao_next _ _ _ HA).
Qed.

Lemma next_work_none n a : attempt_ok F n a -> next_work a = None <-> n = length (pending_slots F).
Proof.
  intros HA. unfold next_work. rewrite (ao_next _ _ _ HA), lookup_ge_None, (attempt_work_length F n a HA). pose proof (ao_bound _ _ _ HA). lia.
Qed.

Lemma pending_slot_split s : 0 <= s -> Z.of_nat (Z.to_nat (s / 64)) * 64 + s mod 64 = s.
Proof. apply index_split. Qed.

Lemma word_unique k k' i w w' : map_to_list (pending_words F) !! k = Some (i, w) -> map_to_list (pending_words F) !! k' = Some (i, w') -> k = k'.
Proof.
  intros H H'. apply (NoDup_lookup ((map_to_list (pending_words F)).*1) k k' i); [apply NoDup_fst_map_to_list|rewrite list_lookup_fmap, H; done|rewrite list_lookup_fmap, H'; done].
Qed.

(** Clearing the bit of slot [n] in its word. *)
Lemma terminal_words n s ai w wa ws : pending_slots F !! n = Some s -> map_to_list (pending_words F) !! ai = Some (Z.to_nat (s / 64), w) -> ws !! ai = Some wa ->
  Forall2 (fun iw => word_remains iw (take n (pending_slots F))) (map_to_list (pending_words F)) ws ->
  Forall2 (fun iw => word_remains iw (take (S n) (pending_slots F))) (map_to_list (pending_words F))
    (<[ai := MkWordAttempt (Z.to_nat (s / 64)) (original_mask wa) (Z.land (remaining_mask wa) (not64 (bit (s mod 64))))]> ws).
Proof.
  intros Hs Hai Hwa Hws. assert (H0 : 0 <= s) by (apply (pending_slot_range F); [apply HF|by eapply list_elem_of_lookup_2]).
  assert (Hmod : 0 <= s mod 64 < 64) by (apply Z.mod_pos_bound; lia). pose proof (bit_word _ Hmod) as Hbw. pose proof (Forall2_length _ _ _ Hws) as Hlen.
  apply Forall2_same_length_lookup_2; [by rewrite length_insert|]. intros k [i v] y Hk Hy. destruct (decide (k = ai)) as [->|Hne].
  - rewrite list_lookup_insert_eq in Hy by (by eapply lookup_lt_Some). injection Hy as <-. rewrite Hai in Hk. injection Hk as <- <-.
    destruct (Forall2_lookup_lr _ _ _ _ _ _ Hws Hai Hwa) as (Hi & Ho & Hrw & Hrem). split; [done|]. split; [done|]. cbn [fst snd remaining_mask] in *.
    split; [apply land_word; [done|by apply not64_word]|]. intros b Hb. rewrite Z.land_spec, Hrem, not64_spec, bit_spec by (done || lia). rewrite (take_S_r _ _ _ Hs).
    destruct (Z.eqb_spec b (s mod 64)) as [->|Hbs].
    + rewrite index_split by lia. rewrite (bool_decide_true (s ∈ _ ++ _)) by set_solver. cbn. by rewrite !andb_false_r.
    + cbn. rewrite andb_true_r. do 2 f_equal. apply bool_decide_ext. rewrite elem_of_app, list_elem_of_singleton. split; [by left|]. intros [?|He]; [done|]. exfalso. apply Hbs.
      rewrite <- He. symmetry. by apply index_join.
  - rewrite list_lookup_insert_ne in Hy by done. destruct (Forall2_lookup_lr _ _ _ _ _ _ Hws Hk Hy) as (Hi & Ho & Hrw & Hrem). split; [done|]. split; [done|]. split; [done|].
    intros b Hb. rewrite Hrem by done. do 2 f_equal. apply bool_decide_ext. rewrite (take_S_r _ _ _ Hs), elem_of_app, list_elem_of_singleton. split; [by left|]. intros [?|He]; [done|].
    exfalso. apply Hne. cbn [fst] in He. destruct (index_join i b Hb) as [Hd _]. rewrite He in Hd. rewrite Hd, Nat2Z.id in Hai. by eapply word_unique.
Qed.

Lemma terminal_ok n a x : attempt_ok F n a -> next_work a = Some x -> exists a', complete_terminal a x = Ok a' /\ attempt_ok F (S n) a' /\ at_work a' = at_work a.
Proof.
  intros HA Hx. assert (Hn : (n < length (pending_slots F))%nat).
  { pose proof (ao_bound _ _ _ HA). destruct (decide (n = length (pending_slots F))) as [He|]; [|lia]. apply (next_work_none n a HA) in He. congruence. }
  destruct (next_destructor_ok n a HA Hn) as (s & x' & Hs & Hx' & Hok). rewrite Hx in Hx'. injection Hx' as <-.
  assert (Hin : s ∈ pending_slots F) by (by eapply list_elem_of_lookup_2). destruct (slot_facts s Hin) as (HO & Hal & Hr & Hu).
  pose proof HA as [Hloc Htar Hcls Hmeta Hnext Hbound Hwork Hwords]. pose proof Hok as [Ho Hv Hw Hb Hm (w & Hw')].
  destruct (Forall2_lookup_l _ _ _ _ _ Hwords Hw') as (wa & Hwa & (Hi & Horig & Hrw & Hrem)). cbn [fst snd] in *.
  assert (Hmod : 0 <= s mod 64 < 64) by (apply Z.mod_pos_bound; lia).
  assert (Hset : Z.testbit w (s mod 64) = true).
  { apply elem_of_pending_slots in Hin as [_ Hin]; [|apply HF]. unfold pending_bit in Hin. apply list_elem_of_lookup_2, elem_of_map_to_list in Hw'. by rewrite Hw' in Hin. }
  assert (Hnot : s ∉ take n (pending_slots F)).
  { intros (k & Hk)%list_elem_of_lookup. apply lookup_take_Some in Hk as [Hk Hlt]. pose proof (NoDup_lookup _ _ _ _ (pending_slots_nodup F (bf_words _ _ _ _ HF)) Hs Hk). lia. }
  unfold complete_terminal. unfold next_work in Hx. rewrite Hx.
  rewrite assert_bind by (by apply bool_decide_eq_true). rewrite (expect_bind _ _ _ Hwa). rewrite Hi, Hw, Ho, Hb, Hloc, Htar, Hcls.
  cbn [owner_location owner_run owner_class owner_geometry owner_slot pending_owner]. rewrite assert_bind by (by apply bool_decide_eq_true).
  rewrite assert_bind by (by apply bool_decide_eq_true). rewrite assert_bind by (apply Z.eqb_refl). do 2 rewrite assert_bind by (by apply bool_decide_eq_true).
  rewrite assert_bind by (rewrite Z2Nat.id by (apply Z.div_pos; lia); apply Z.eqb_refl).
  rewrite assert_bind by (by rewrite land_bit, Hrem, index_split, Hset, bool_decide_false by (done || lia)).
  eexists. split; [done|]. split; [|done].
  split; cbn; [done..|by rewrite Hnext|lia|done|]. by eapply terminal_words.
Qed.
End claim.

Lemma complete_terminal_location a x a' : complete_terminal a x = Ok a' -> at_location a' = at_location a.
Proof. unfold complete_terminal. intros H. repeat (apply bind_Ok in H as (? & _ & H)). by injection H as <-. Qed.

Lemma run_destructors_location drop_in_place fuel : forall a a' p, run_destructors drop_in_place fuel a = Ok (a', p) -> at_location a' = at_location a.
Proof.
  induction fuel as [|fuel IH]; intros a a' p; cbn [run_destructors]; destruct (next_work a) as [x|]; [done|by intros [= <- _]| |by intros [= <- _]].
  intros (a1 & Ha1 & H)%bind_Ok. rewrite <- (complete_terminal_location a x a1 Ha1). destruct (drop_in_place x); [by eapply IH|by injection H as <- _].
Qed.

