(* ===== verification/FinalizeRun.v ===== *)
(** * The memory of a run whose destructors have run

    Completing an attempt clears the allocation bits of the finalized slots and of
    no other, and leaves the rest of the memory as it is. *)
From stdpp Require Import base option list numbers gmap sets.
From Stdlib Require Import ZArith Lia.
From S2P Require Import Prelude RootPool RunGeometry Bitmaps Arena ArenaFacts Heap HeapFacts SweepArena.
From S2P Require Import Finalize FinalizeFacts.

Local Open Scope Z_scope.

(** ** Clearing one slot *)
Lemma clear_owner_ok {E} A o r : arena_wf A -> owner_ok A o -> run_of A (owner_location o) = Some r ->
  exists A' r', clear_owner_allocation (E:=E) A o = Ok (A', slot_bit (allocation r) (owner_slot o)) /\ replaced A A' (owner_location o) r' /\
    header r' = header r /\ leases r' = leases r /\ marks r' = marks r /\
    forall s, 0 <= s -> slot_bit (allocation r') s = negb (s =? owner_slot o) && slot_bit (allocation r) s.
Proof.
  intros WA HO Hr. destruct (resolved_owner_ok (E:=E) A WA o HO) as (c & r0 & HT & HR & HH). assert (r0 = r) as -> by (destruct HT; congruence).
  pose proof HO as (_ & _ & Hs). destruct (typed_wf A WA _ _ _ _ HT) as (HG & HA & HL & HM). pose proof (geometry_facts _ HG) as (_ & _ & _ & _ & Hbl & Hwl & _).
  destruct (bitmap_index _ _ Hs) as [Hi Hm]. unfold clear_owner_allocation. rewrite HR. cbn [mbind outcome_bind fst snd]. rewrite HH. cbn [mbind outcome_bind].
  rewrite bitmap_bit_ok by (rewrite Hbl; lia). cbn [mbind outcome_bind fst snd].
  destruct (read_word_ok (E:=E) _ _ (Z.to_nat (owner_slot o / 64)) HA) as (w & Hw & Hword & ->); [by rewrite Hwl|]. cbn [mbind outcome_bind].
  pose proof (bit_word _ Hm) as Hbw. destruct (write_word_ok (E:=E) _ _ (Z.to_nat (owner_slot o / 64)) (Z.land w (not64 (bit (owner_slot o mod 64)))) HA) as [-> HA'];
    [by rewrite Hwl|by apply land_word, not64_word|]. cbn [mbind outcome_bind]. rewrite land_bit by lia.
  eexists _, _. split; [unfold slot_bit; by rewrite Hw|]. split.
  - eapply put_replaced; [done|exact Hr|]. destruct (aw_run _ WA _ _ Hr) as [Hv _]. destruct HT as (_ & _ & Hg). split; [done|]. cbn [header]. by rewrite Hg.
  - cbn. split_and!; try done. intros s H0. apply clear_bit_slots; done || lia.
Qed.

(** [A'] is [A] with the slots [d] of the run at [l] cleared. *)
Definition cleared (A A' : Arena) (l : RunLocation) (d : list Z) : Prop :=
  exists r r', run_of A l = Some r /\ replaced A A' l r' /\ header r' = header r /\ leases r' = leases r /\ marks r' = marks r /\
    forall s, 0 <= s -> slot_bit (allocation r') s = slot_bit (allocation r) s && negb (bool_decide (s ∈ d)).

Lemma cleared_headers A A' l d : cleared A A' l d -> same_headers A A'.
Proof.
  intros (r & r' & Hr & (_ & HR & HA) & Hh & _). split; [|done]. intros l'. rewrite HR. case_decide as Hd; [subst; rewrite Hr; cbn; by rewrite Hh|done].
Qed.

Lemma cleared_wf A A' l d : cleared A A' l d -> arena_wf A'.
Proof. by intros (r & r' & _ & (? & _) & _). Qed.

Lemma cleared_allocated A A' l d o : cleared A A' l d -> 0 <= owner_slot o ->
  slot_allocated A' o = slot_allocated A o && negb (bool_decide (owner_location o = l /\ owner_slot o ∈ d)).
Proof.
  intros (r & r' & Hr & (_ & HR & _) & _ & _ & _ & Hbits) H0. unfold slot_allocated. rewrite HR. case_decide as Hl.
  - rewrite Hl, Hr, Hbits by done. do 2 f_equal. apply bool_decide_ext. naive_solver.
  - rewrite bool_decide_false by naive_solver. by rewrite andb_true_r.
Qed.

(** A list of distinct allocated slots is cleared. *)
Lemma clear_slots_ok A l (owner : Z -> RunOwner) (f : Arena -> Z -> M Arena) ss : arena_wf A -> (exists r, run_of A l = Some r) ->
  (forall s, owner_location (owner s) = l /\ owner_slot (owner s) = s) -> NoDup ss ->
  (forall s, s ∈ ss -> owner_ok A (owner s) /\ slot_allocated A (owner s) = true) ->
  (forall A' s, s ∈ ss -> f A' s = (Ac ← clear_owner_allocation A' (owner s); _ ← rust_assert Ac.2; Ok Ac.1)) ->
  exists A', foldM f A ss = Ok A' /\ cleared A A' l ss.
Proof.
  intros WA (r & Hr) Hown HN Hok Hf. apply (foldM_inv f (fun d A' => cleared A A' l d)).
  - exists r, r. split; [done|]. split; [split_and!; [done| |done]; intros l'; case_decide; by subst|]. split_and!; try done. intros s _. rewrite bool_decide_false by apply not_elem_of_nil. by rewrite andb_true_r.
  - intros d s rest A1 Heq HC. assert (Hs : s ∈ ss) by (rewrite Heq; set_solver). destruct (Hok s Hs) as [HO Hal]. destruct (Hown s) as [El Es].
    pose proof HC as (r0 & r1 & Hr0 & (W1 & HR1 & HA1) & Hh & Hle & Hm & Hbits). assert (r0 = r) as -> by congruence.
    assert (Hr1 : run_of A1 (owner_location (owner s)) = Some r1) by (rewrite HR1, decide_True; done).
    assert (HO1 : owner_ok A1 (owner s)) by (eapply same_headers_owner; [by eapply cleared_headers|done]).
    destruct (clear_owner_ok (E:=Empty_set) A1 (owner s) r1 W1 HO1 Hr1) as (A2 & r2 & Hc & (W2 & HR2 & HA2) & Hh2 & Hl2 & Hm2 & Hb2).
    assert (H0 : 0 <= s) by (destruct HO as (_ & _ & H); lia).
    assert (Hbit : slot_bit (allocation r1) (owner_slot (owner s)) = true).
    { rewrite Es, Hbits by done. unfold slot_allocated in Hal. rewrite El, Es, Hr in Hal. rewrite Hal, bool_decide_false; [done|].
      rewrite Heq in HN. apply NoDup_app in HN as (_ & Hd & _). intros Hin. apply (Hd s Hin). left. }
    rewrite Hf, Hc by done. cbn [mbind outcome_bind snd]. rewrite Hbit. exists A2. split; [done|]. exists r, r2. split; [done|]. split.
    { split_and!; [done| |intros l'; by rewrite HA2, HA1]. intros l'. rewrite HR2, HR1, El. by case_decide. }
    split_and!; [congruence..|]. intros s' H'. rewrite Hb2, Hbits, Es by done. rewrite (bool_decide_ext (s' ∈ d ++ [s]) (s' ∈ d \/ s' = s)) by set_solver. rewrite bool_decide_or.
    destruct (Z.eqb_spec s' s) as [->|Hne]; [rewrite (bool_decide_true (s = s)) by done|rewrite (bool_decide_false (s' = s)) by done].
    + by rewrite orb_true_r, andb_false_r.
    + by rewrite orb_false_r.
Qed.

(** ** Slots of a list of words *)
Definition mask_slots (m : list (nat * Z)) : list Z := m ≫= fun iw => word_slots iw.1 iw.2.

Lemma elem_of_mask_slots m s : Forall (fun iw => is_word iw.2) m ->
  s ∈ mask_slots m <-> 0 <= s /\ exists i w, (i, w) ∈ m /\ s / 64 = Z.of_nat i /\ Z.testbit w (s mod 64) = true.
Proof.
  intros HW. rewrite list.Forall_forall in HW. unfold mask_slots. rewrite list_elem_of_bind. split.
  - intros ([i w] & Hs & Hin). pose proof (HW _ Hin) as Hw. apply elem_of_word_slots in Hs as (H0 & Hd & Ht); [|done]. split; [done|]. by exists i, w.
  - intros (H0 & i & w & Hin & Hd & Ht). exists (i, w). split; [|done]. by apply elem_of_word_slots; [apply (HW _ Hin)|].
Qed.

Lemma mask_slots_nodup m : Forall (fun iw => is_word iw.2) m -> NoDup m.*1 -> NoDup (mask_slots m).
Proof.
  intros HW HN. rewrite list.Forall_forall in HW. apply NoDup_bind; [by eapply NoDup_fmap_1| |].
  - intros [i w] Hin. apply NoDup_fmap_2; [intros ? ? ?; lia|]. by apply drain_bits_nodup, (HW _ Hin).
  - intros [i w] [j v] s Hi Hj Hs Ht. apply elem_of_word_slots in Hs as (_ & Hs & _); [|by apply (HW _ Hi)]. apply elem_of_word_slots in Ht as (_ & Ht & _); [|by apply (HW _ Hj)].
    assert (i = j) as -> by (cbn in *; lia). apply list_elem_of_lookup in Hi as (k & Hk), Hj as (k' & Hk').
    assert (k = k') as -> by (eapply (NoDup_lookup m.*1); [done|rewrite list_lookup_fmap, Hk|rewrite list_lookup_fmap, Hk']; done). congruence.
Qed.

Lemma mask_slots_count m : Forall (fun iw => is_word iw.2) m -> length (mask_slots m) = sum_list_with (fun iw => count_ones iw.2) m.
Proof.
  induction 1 as [|[i w] m Hw _ IH]; [done|]. unfold mask_slots in *. cbn [mbind list_bind]. rewrite length_app, IH. cbn. f_equal. unfold word_slots. rewrite length_fmap. by apply drain_bits_count.
Qed.

(** * Completing an attempt

    [complete_run_attempt] finalizes exactly the slots whose destructors have run:
    their allocation bits are cleared, they leave the batch, and a run that has no
    other leaves it too. None of its assertions fails. *)

(** [F'] is [F] without its first [n] pending slots. *)
Record run_remains (F F' : FinalizationRun) (n : nat) : Prop := {
  rr_target : fr_target F' = fr_target F;
  rr_class : fr_class F' = fr_class F;
  rr_metadata : fr_metadata F' = fr_metadata F;
  rr_words : words_of (pending_words F');
  rr_slots : pending_slots F' ≡ₚ drop n (pending_slots F);
  rr_count : fr_pending_slot_count F' = length (pending_slots F');
  rr_empty : pending_words F' = ∅ <-> n = length (pending_slots F);
}.

Lemma and_iff_compat_l_in (P Q R : Prop) : (P -> Q <-> R) -> P /\ Q <-> P /\ R.
Proof. tauto. Qed.

Lemma elem_of_drop {A} (l : list A) n x : NoDup l -> x ∈ drop n l <-> x ∈ l /\ x ∉ take n l.
Proof.
  intros HN. rewrite <- (take_drop n l) in HN at 1. apply NoDup_app in HN as (_ & Hd & _). rewrite <- (take_drop n l) at 2. rewrite elem_of_app. split; [|tauto].
  intros Hx. split; [by right|]. intros Ht. by apply (Hd x).
Qed.

Section complete.
Context (A : Arena) (WA : arena_wf A) (cs : list AllocationClassEntry) (l : RunLocation) (F : FinalizationRun) (HF : batch_run_wf A cs l F).
Context (n : nat) (a : RunFinalizationAttempt) (HA : attempt_ok F n a).
Notation finalized := (take n (pending_slots F)).

Lemma attempt_words_at w : w ∈ at_words a -> exists iw, iw ∈ map_to_list (pending_words F) /\ word_remains iw finalized w.
Proof.
  intros (k & Hk)%list_elem_of_lookup. destruct (Forall2_lookup_r _ _ _ _ _ (ao_words _ _ _ HA) Hk) as (iw & Hiw & H). exists iw. split; [by eapply list_elem_of_lookup_2|done].
Qed.

Lemma attempt_word_of i w : pending_words F !! i = Some w -> exists wa, wa ∈ at_words a /\ word_remains (i, w) finalized wa.
Proof.
  intros Hi. apply elem_of_map_to_list, list_elem_of_lookup in Hi as (k & Hk). destruct (Forall2_lookup_l _ _ _ _ _ (ao_words _ _ _ HA) Hk) as (wa & Hwa & H).
  exists wa. split; [by eapply list_elem_of_lookup_2|done].
Qed.

Lemma attempt_indices : wa_index <$> at_words a = (map_to_list (pending_words F)).*1.
Proof. pose proof (ao_words _ _ _ HA) as H. induction H as [|iw w m ws (Hi & _) _ IH]; [done|]. cbn. by rewrite Hi, IH. Qed.

Lemma attempt_indices_nodup : NoDup (wa_index <$> at_words a).
Proof. rewrite attempt_indices. apply NoDup_fst_map_to_list. Qed.

(** The slots of a mask of each word. *)
Definition attempt_masks (f : FinalizationWordAttempt -> Z) : list (nat * Z) := (fun w => (wa_index w, f w)) <$> at_words a.

(** [f] selects the pending slots that satisfy [P]. *)
Definition selects (f : FinalizationWordAttempt -> Z) (P : Z -> bool) : Prop := forall iw w, word_remains iw finalized w -> is_word iw.2 ->
  is_word (f w) /\ forall b, 0 <= b < 64 -> Z.testbit (f w) b = Z.testbit iw.2 b && P (Z.of_nat iw.1 * 64 + b).

Lemma masks_words f P : selects f P -> Forall (fun iw => is_word iw.2) (attempt_masks f).
Proof.
  intros Hf. apply list.Forall_forall. intros x (w & -> & Hw)%list_elem_of_fmap. destruct (attempt_words_at w Hw) as ([i v] & Hin%elem_of_map_to_list & H).
  cbn. by apply (Hf (i, v)); [|by apply (bf_words _ _ _ _ HF i)].
Qed.

Lemma masks_nodup f P : selects f P -> NoDup (mask_slots (attempt_masks f)).
Proof.
  intros Hf. apply mask_slots_nodup; [by eapply masks_words|]. unfold attempt_masks. rewrite <- list_fmap_compose. apply attempt_indices_nodup.
Qed.

Lemma masks_elem f P s : selects f P -> s ∈ mask_slots (attempt_masks f) <-> s ∈ pending_slots F /\ P s = true.
Proof.
  intros Hf. rewrite elem_of_mask_slots by (by eapply masks_words). rewrite elem_of_pending_slots by apply HF. unfold pending_bit. split.
  - intros (H0 & i & v & (w & [= -> ->] & Hw)%list_elem_of_fmap & Hd & Ht). destruct (attempt_words_at w Hw) as ([i v] & Hin%elem_of_map_to_list & H).
    pose proof H as (Hi & _). cbn in Hi. rewrite Hi in Hd. destruct (Hf _ _ H) as [_ Hb]; [by apply (bf_words _ _ _ _ HF i)|]. rewrite Hb in Ht by (apply Z.mod_pos_bound; lia).
    cbn [fst snd] in Ht. apply andb_true_iff in Ht as [Ht HP]. rewrite Hd, Nat2Z.id, Hin. split; [done|]. rewrite <- (index_split s H0), Hd, Nat2Z.id. done.
  - intros [[H0 Hb] HP]. split; [done|]. destruct (pending_words F !! Z.to_nat (s / 64)) as [v|] eqn:E; [|done]. destruct (attempt_word_of _ _ E) as (w & Hw & H).
    pose proof H as (Hi & _). exists (wa_index w), (f w). split; [apply list_elem_of_fmap; by exists w|]. cbn in Hi. split; [rewrite Hi, Z2Nat.id; [done|apply Z.div_pos; lia]|].
    destruct (Hf _ _ H) as [_ Hf']; [by apply (bf_words _ _ _ _ HF _ _ E)|]. rewrite Hf' by (apply Z.mod_pos_bound; lia). cbn [fst snd]. by rewrite index_split, Hb, HP.
Qed.

Lemma remaining_selects : selects remaining_mask (fun s => negb (bool_decide (s ∈ finalized))).
Proof. intros iw w (_ & _ & Hw & Hb) _. by split. Qed.

Lemma completed_selects : selects completed_mask (fun s => bool_decide (s ∈ finalized)).
Proof.
  intros iw w (_ & Ho & Hw & Hb) Hiw. unfold completed_mask. rewrite Ho. split; [by apply land_word, not64_word|]. intros b Hr. rewrite Z.land_spec, not64_spec, Hb by done.
  by destruct (Z.testbit iw.2 b), (bool_decide _).
Qed.

Lemma remaining_slots : mask_slots (attempt_masks remaining_mask) ≡ₚ drop n (pending_slots F).
Proof.
  pose proof (pending_slots_nodup F (bf_words _ _ _ _ HF)) as HN. apply NoDup_Permutation; [by eapply masks_nodup, remaining_selects|eapply sublist_NoDup; [exact HN|apply sublist_drop]|].
  intros s. rewrite (masks_elem _ _ s remaining_selects), elem_of_drop, negb_true_iff, bool_decide_eq_false by done. done.
Qed.

Lemma completed_slots s : s ∈ mask_slots (attempt_masks completed_mask) <-> s ∈ finalized.
Proof.
  rewrite (masks_elem _ _ s completed_selects), bool_decide_eq_true. split; [by intros [_ ?]|]. intros H. split; [|done]. rewrite <- (take_drop n (pending_slots F)), elem_of_app. by left.
Qed.

Lemma remaining_count : remaining_slot_count a = (length (pending_slots F) - n)%nat.
Proof.
  rewrite <- length_drop, <- remaining_slots, mask_slots_count by (by eapply masks_words, remaining_selects). unfold remaining_slot_count, attempt_masks.
  induction (at_words a) as [|w ws IH]; [done|]. cbn. by rewrite IH.
Qed.

(** ** The memory *)
Lemma clear_words_ok : at_location a = l -> exists A', foldM (clear_completed_word a) A (at_words a) = Ok A' /\ cleared A A' l finalized.
Proof.
  intros Hl. pose proof (bf_location _ _ _ _ HF) as Hloc. set (masks := attempt_masks completed_mask).
  assert (Hflat : foldM (clear_completed_word a) A (at_words a) =
    foldM (fun A' s => Ac ← clear_owner_allocation A' (attempt_owner a s); _ ← rust_assert Ac.2; Ok Ac.1) A (mask_slots masks)).
  { unfold mask_slots, masks, attempt_masks. rewrite foldM_bind, foldM_fmap. apply foldM_ext. intros w A1 Hw. unfold clear_completed_word, word_slots. cbn [fst snd].
    rewrite foldM_fmap. apply foldM_ext. intros b A2 Hb. unfold clear_completed_slot.
    assert (Hs : Z.of_nat (wa_index w) * 64 + b ∈ mask_slots masks).
    { unfold mask_slots. apply list_elem_of_bind. exists (wa_index w, completed_mask w). split; [|apply list_elem_of_fmap; by exists w]. by apply list_elem_of_fmap_2. }
    apply completed_slots in Hs. assert (Hin : Z.of_nat (wa_index w) * 64 + b ∈ pending_slots F) by (rewrite <- (take_drop n (pending_slots F)), elem_of_app; by left).
    destruct (slot_facts A WA cs l F HF _ Hin) as (_ & _ & _ & Hu). rewrite word_slot_ok; [done| |done].
    destruct (attempt_words_at w Hw) as ([i v] & Hiv%elem_of_map_to_list & H). destruct (completed_selects _ _ H) as [Hcw _]; [by apply (bf_words _ _ _ _ HF i)|].
    apply elem_of_drain in Hb as [? _]; [lia|done]. }
  rewrite Hflat. assert (Howner : forall s, attempt_owner a s = pending_owner F s).
  { intros s. unfold attempt_owner, pending_owner. by rewrite (ao_location _ _ _ HA), (ao_target _ _ _ HA), (ao_class _ _ _ HA). }
  destruct (clear_slots_ok A l (attempt_owner a) (fun A' s => Ac ← clear_owner_allocation A' (attempt_owner a s); _ ← rust_assert Ac.2; Ok Ac.1) (mask_slots masks)) as (A' & Hf & HC); [done| | | | |by intros|].
  - destruct (bf_target _ _ _ _ HF) as [(r & Hr & _) _]. exists r. by rewrite <- Hloc.
  - intros s. by rewrite <- Hl.
  - by eapply masks_nodup, completed_selects.
  - intros s Hs%completed_slots. rewrite Howner. assert (Hin : s ∈ pending_slots F) by (rewrite <- (take_drop n (pending_slots F)), elem_of_app; by left).
    destruct (slot_facts A WA cs l F HF _ Hin) as (? & ? & _). done.
  - exists A'. split; [exact Hf|]. destruct HC as (r & r' & H1 & H2 & H3 & H4 & H5 & H6). exists r, r'. do 5 (split; [done|]). intros s H0. rewrite H6 by done. do 2 f_equal. apply bool_decide_ext, completed_slots.
Qed.

(** ** The pending words *)
Lemma retire_words_ok : exists m, foldM retire_word (pending_words F) (at_words a) = Ok m /\
  (forall w, w ∈ at_words a -> m !! wa_index w = if remaining_mask w =? 0 then None else Some (remaining_mask w)) /\
  (forall i, i ∉ wa_index <$> at_words a -> m !! i = None).
Proof.
  destruct (foldM_inv retire_word (fun d m => (forall w, w ∈ d -> m !! wa_index w = if remaining_mask w =? 0 then None else Some (remaining_mask w)) /\
    (forall i, i ∉ wa_index <$> d -> m !! i = pending_words F !! i)) (at_words a) (pending_words F)) as (m & Hm & H1 & H2).
  - split; [by intros w ?%elem_of_nil|done].
  - intros d w rest m Heq [H1 H2]. assert (Hw : w ∈ at_words a) by (rewrite Heq; set_solver). destruct (attempt_words_at w Hw) as ([i v] & Hiv%elem_of_map_to_list & (Hi & Ho & _)).
    cbn in Hi, Ho. pose proof attempt_indices_nodup as HN. rewrite Heq, fmap_app in HN. apply NoDup_app in HN as (_ & Hd & _).
    assert (Hni : wa_index w ∉ wa_index <$> d) by (intros Hin; apply (Hd _ Hin); left).
    unfold retire_word. rewrite assert_bind by (apply bool_decide_eq_true; rewrite H2, Hi, Ho; done). eexists. split; [done|]. split.
    + intros w' [Hw'| ->%list_elem_of_singleton]%elem_of_app.
      * assert (Hne : wa_index w <> wa_index w') by (intros He; apply Hni; rewrite He; by apply list_elem_of_fmap_2).
        destruct (remaining_mask w =? 0); [rewrite lookup_delete_ne by done|rewrite lookup_insert_ne by done]; by apply H1.
      * destruct (remaining_mask w =? 0); [apply lookup_delete_eq|apply lookup_insert_eq].
    + intros j Hj. rewrite fmap_app in Hj. assert (Hne : wa_index w <> j) by (intros <-; apply Hj; set_solver).
      destruct (remaining_mask w =? 0); [rewrite lookup_delete_ne by done|rewrite lookup_insert_ne by done]; apply H2; set_solver.
  - exists m. split; [done|]. split; [done|]. intros i Hi. rewrite H2 by done. rewrite attempt_indices in Hi. destruct (pending_words F !! i) as [w|] eqn:E; [|done].
    exfalso. apply Hi, list_elem_of_fmap. exists (i, w). split; [done|]. by apply elem_of_map_to_list.
Qed.

Lemma retired_remains m : (forall w, w ∈ at_words a -> m !! wa_index w = if remaining_mask w =? 0 then None else Some (remaining_mask w)) ->
  (forall i, i ∉ wa_index <$> at_words a -> m !! i = None) ->
  run_remains F (MkFinalizationRun (fr_target F) (fr_class F) (fr_metadata F) (remaining_slot_count a) m) n.
Proof.
  intros H1 H2.
  assert (Hm : forall i v, m !! i = Some v <-> exists w, w ∈ at_words a /\ wa_index w = i /\ remaining_mask w = v /\ v <> 0).
  { intros i v. split.
    - intros Hi. destruct (decide (i ∈ wa_index <$> at_words a)) as [(w & -> & Hw)%list_elem_of_fmap|Hn]; [|rewrite H2 in Hi by done; done].
      exists w. rewrite (H1 w Hw) in Hi. destruct (Z.eqb_spec (remaining_mask w) 0); [done|]. injection Hi as <-. done.
    - intros (w & Hw & <- & <- & Hne). rewrite (H1 w Hw). by destruct (Z.eqb_spec (remaining_mask w) 0). }
  assert (HW : words_of m).
  { intros i v (w & Hw & _ & <- & Hne)%Hm. destruct (attempt_words_at w Hw) as (iw & _ & (_ & _ & Hword & _)). done. }
  set (F' := MkFinalizationRun _ _ _ _ _).
  assert (Hperm : pending_slots F' ≡ₚ drop n (pending_slots F)).
  { rewrite <- remaining_slots. apply NoDup_Permutation; [by apply pending_slots_nodup|by eapply masks_nodup, remaining_selects|]. intros s.
    rewrite elem_of_pending_slots by done. rewrite elem_of_mask_slots by (by eapply masks_words, remaining_selects). apply and_iff_compat_l_in. intros H0. unfold pending_bit. cbn [pending_words F'].
    assert (Hdiv : Z.of_nat (Z.to_nat (s / 64)) = s / 64) by (apply Z2Nat.id, Z.div_pos; lia). split.
    - destruct (m !! Z.to_nat (s / 64)) as [v|] eqn:E; [|done]. intros Ht. apply Hm in E as (w & Hw & Hi & <- & _). exists (wa_index w), (remaining_mask w).
      split; [apply list_elem_of_fmap; by exists w|]. by rewrite Hi.
    - intros (i & v & (w & [= -> ->] & Hw)%list_elem_of_fmap & Hd & Ht). rewrite Hd, Nat2Z.id.
      rewrite (proj2 (Hm _ (remaining_mask w))); [done|]. exists w. split; [done|]. split; [done|]. split; [done|]. intros Hz. by rewrite Hz, Z.bits_0 in Ht. }
  split; [done..|exact Hperm| |].
  - rewrite Hperm, length_drop. by apply remaining_count.
  - assert (He : pending_words F' = ∅ <-> pending_slots F' = []).
    { unfold pending_slots. split; [intros ->; by rewrite map_to_list_empty|]. intros Hnil. apply map_empty. intros i. destruct (m !! i) as [v|] eqn:E; [|done]. exfalso.
      destruct (HW i v E) as [Hv Hne]. destruct (trailing_zeros_spec v Hv Hne) as (Hr & Ht & _). assert (Hin : Z.of_nat i * 64 + trailing_zeros v ∈ pending_slots F').
      { apply elem_of_pending_slots; [done|]. split; [lia|]. unfold pending_bit. destruct (index_join i _ Hr) as [-> ->]. cbn. by rewrite Nat2Z.id, E. }
      unfold pending_slots in Hin. rewrite Hnil in Hin. by apply elem_of_nil in Hin. }
    rewrite He. pose proof (ao_bound _ _ _ HA). split.
    + intros Hnil. rewrite Hnil in Hperm. apply Permutation_nil_l in Hperm. apply (f_equal length) in Hperm. rewrite length_drop in Hperm. cbn in Hperm. lia.
    + intros ->. rewrite drop_all in Hperm. by apply Permutation_nil_r.
Qed.

(** What the completion of an attempt says of its run. *)
Definition completion_of : FinalizationCompletion :=
  MkCompletion (run_target F) (fr_class F) (is_detached F) (at_words a)
    (if decide (n = length (pending_slots F)) then match fr_target F with Attached _ => None | Detached t => Some (MkCompletedDetached t (fr_class F)) end else None).

(** The batch with [F'] in the place of [F], or without it. *)
Definition completed_batch (b : FinalizationBatch) (F' : FinalizationRun) : FinalizationBatch :=
  MkBatch (if decide (n = length (pending_slots F)) then delete l (batch_runs b) else <[l := F']> (batch_runs b)) (batch_pending b - n).

Lemma complete_run_ok b : batch_runs b !! l = Some F -> (n <= batch_pending b)%nat ->
  exists F' A', run_remains F F' n /\ cleared A A' l finalized /\ complete_run_attempt b A a = Ok (completed_batch b F', A', completion_of).
Proof.
  intros Hb Hn. pose proof (bf_location _ _ _ _ HF) as Hloc. pose proof (ao_bound _ _ _ HA) as Hbound. pose proof HA as [Hal Hat Hac Ham _ _ Hwork Hwords].
  destruct clear_words_ok as (A' & Hclear & HC); [congruence|]. destruct retire_words_ok as (m & Hm & H1 & H2). pose proof (retired_remains m H1 H2) as HR.
  set (F' := MkFinalizationRun _ _ _ _ m) in HR. exists F', A'. split; [done|]. split; [done|].
  assert (Hlen : length (at_work a) = length (pending_slots F)) by (symmetry; by eapply Forall2_length). pose proof remaining_count as Hrem.
  unfold complete_run_attempt. rewrite Hal, Hloc. rewrite (expect_bind _ _ _ Hb).
  rewrite assert_bind by (by apply bool_decide_eq_true). rewrite assert_bind by (by apply bool_decide_eq_true). rewrite assert_bind by (by apply bool_decide_eq_true).
  rewrite assert_bind by (apply bool_decide_eq_true; by eapply Forall2_length).
  rewrite assert_bind by (apply bool_decide_eq_true; rewrite Hlen; apply HF).
  rewrite assert_bind by (apply forallb_forall; intros w Hw%list_elem_of_In; apply bool_decide_eq_true;
    destruct (attempt_words_at w Hw) as ([i v] & Hiv%elem_of_map_to_list & (-> & -> & _)); exact Hiv).
  rewrite Hclear. cbn [mbind outcome_bind]. rewrite decide_True by lia. cbn [expect mbind outcome_bind]. rewrite Hm. cbn [mbind outcome_bind].
  assert (Hz : (remaining_slot_count a =? 0)%nat = bool_decide (n = length (pending_slots F))).
  { rewrite Hrem. apply eq_true_iff_eq. rewrite Nat.eqb_eq, bool_decide_eq_true. lia. }
  rewrite assert_bind.
  2: { rewrite Hz. rewrite (bool_decide_ext (m = ∅) (n = length (pending_slots F)) (rr_empty _ _ _ HR)). apply Bool.eqb_reflx. }
  replace (length (at_work a) - remaining_slot_count a)%nat with n by lia. rewrite decide_True by done. cbn [expect mbind outcome_bind].
  rewrite Hz. unfold completed_batch, completion_of. rewrite Hac, Hat. by case_bool_decide; case_decide.
Qed.
End complete.
