(* ===== verification/FinalizeSteps.v ===== *)
(** * The heap after destructors have run

    Completing an attempt keeps the heap invariant: the finalized slots are no
    objects any more and are not pending, everything else is as it was. The words
    of an attached run without pending slots are opened for allocation; a detached
    run without pending slots becomes a free run. *)
From stdpp Require Import base option list numbers gmap sets.
From Stdlib Require Import ZArith Lia.
From S2P Require Import Prelude RootPool RunGeometry Bitmaps Arena ArenaFacts Heap HeapFacts Marking.
From S2P Require Import MarkingFacts Sweep SweepFacts SweepPlan SweepArena SweepSafe SweepCorrect Collection.
From S2P Require Import Claim ClaimFacts ClaimRaces Alloc AllocFacts AllocClaims Finalize FinalizeFacts.
From S2P Require Import FinalizeRun.

(** ** Sums over a batch that changes at one run *)
Lemma msum_deleted {K} `{Countable K} {T} (f : T -> nat) (m : gmap K T) k x : m !! k = Some x -> msum f m = f x + msum f (delete k m).
Proof. intros Hk. rewrite <- (insert_delete_id m k x Hk) at 1. by rewrite msum_new by apply lookup_delete_eq. Qed.

(** A batch run whose memory is the same. *)
Lemma batch_run_wf_same A A' cs l F : run_of A' l = run_of A l -> address_of A' l = address_of A l -> batch_run_wf A cs l F -> batch_run_wf A' cs l F.
Proof.
  intros Hr Ha [H1 H2 H3 H4 H5 H6 H7 H8].
  assert (Hal : forall s, slot_allocated A' (pending_owner F s) = slot_allocated A (pending_owner F s)) by (intros s; unfold slot_allocated; cbn [owner_location pending_owner]; by rewrite H1, Hr).
  split; try done.
  - destruct H2 as [(r & Hx) Hy]. unfold target_ok, typed. rewrite H1 in *. rewrite Hr, Ha. split; [by exists r|done].
  - intros s Hs. rewrite Hal. by apply H5.
  - intros Hd s Hs. rewrite Hal. by apply H8.
Qed.

Section complete.
Context (D : ManagedData) (HW : heap_wf D) (l : RunLocation) (F : FinalizationRun) (HF : batch_runs (finalization_batch D) !! l = Some F).
Context (n : nat) (a : RunFinalizationAttempt) (HA : attempt_ok F n a).
Notation A := (arena D).
Notation finalized := (take n (pending_slots F)).
Notation total := (length (pending_slots F)).

Lemma run_wf_of : batch_run_wf A (classes D) l F.
Proof. by apply (hw_batch _ HW). Qed.

Lemma run_facts : target_location (run_target F) = l /\ target_ok A (run_target F) (fr_class F).
Proof. split; apply run_wf_of. Qed.

(** The slots whose destructors have run. *)
Definition finalized_owners : list RunOwner := pending_owner F <$> finalized.

Lemma finalized_in s : s ∈ finalized -> s ∈ pending_slots F.
Proof. intros Hs. rewrite <- (take_drop n (pending_slots F)), elem_of_app. by left. Qed.

Lemma total_pending : total <= batch_pending (finalization_batch D).
Proof. rewrite (hw_total _ HW), pending_list_count, (msum_deleted _ _ _ _ HF). lia. Qed.

(** The owners of the run. *)
Lemma run_owner_of o : owner_ok A o -> owner_location o = l -> o = pending_owner F (owner_slot o).
Proof.
  intros HO Hl. destruct run_facts as [Hloc HT]. apply (owner_same_location A); [done| |cbn; congruence|done]. destruct HT as [HT Ha]. split; [done|]. split; [done|].
  cbn. destruct HT as (r & _ & Hc & Hg). destruct HO as ((r' & Hr' & Hc' & Hg') & _ & Hs). destruct run_facts as [_ [(r1 & Hr1 & _ & Hg1) _]].
  rewrite Hl in Hr'. rewrite Hloc in Hr1. assert (r' = r1) as -> by congruence. assert (owner_geometry o = target_geometry (run_target F)) as <- by congruence. done.
Qed.

Lemma elem_of_finalized o : owner_ok A o -> o ∈ finalized_owners <-> owner_location o = l /\ owner_slot o ∈ finalized.
Proof.
  intros HO. unfold finalized_owners. rewrite list_elem_of_fmap. destruct run_facts as [Hloc _]. split.
  - intros (s & -> & Hs). by rewrite <- Hloc.
  - intros [Hl Hs]. exists (owner_slot o). split; [by apply run_owner_of|done].
Qed.

Lemma finalized_not_live o : o ∈ finalized_owners -> is_pending D o = true.
Proof.
  intros (s & -> & Hs%finalized_in)%list_elem_of_fmap. destruct run_facts as [Hloc _]. unfold is_pending. cbn [owner_location pending_owner]. rewrite Hloc, HF.
  apply contains_owner_iff; [apply run_wf_of|cbn; eapply pending_slot_range; [apply run_wf_of|done]|by exists s].
Qed.

(** ** The memory is cleared, the batch updated *)
Context (A' : Arena) (HC : cleared A A' l finalized) (F' : FinalizationRun) (HR : run_remains F F' n).
Notation batch' := (completed_batch l F n (finalization_batch D) F').

Lemma cleared_slots o : owner_ok A o -> slot_allocated A' o = slot_allocated A o && negb (bool_decide (o ∈ finalized_owners)).
Proof.
  intros HO. rewrite (cleared_allocated A A' l finalized) by (done || apply HO). do 2 f_equal. apply bool_decide_ext. by rewrite elem_of_finalized.
Qed.

Lemma cleared_run l' : l' <> l -> run_of A' l' = run_of A l'.
Proof. intros Hl. destruct HC as (r & r' & _ & (_ & HRun & _) & _). by rewrite HRun, decide_False. Qed.

Lemma cleared_address l' : address_of A' l' = address_of A l'.
Proof. destruct HC as (r & r' & _ & (_ & _ & HAd) & _). apply HAd. Qed.

Lemma remaining_target : run_target F' = run_target F /\ is_detached F' = is_detached F /\ forall s, pending_owner F' s = pending_owner F s.
Proof.
  assert (Ht : run_target F' = run_target F) by (unfold run_target; by rewrite (rr_target _ _ _ HR)).
  split; [done|]. split; [unfold is_detached; by rewrite (rr_target _ _ _ HR)|]. intros s. unfold pending_owner. by rewrite Ht, (rr_class _ _ _ HR).
Qed.

Lemma remaining_in s : s ∈ pending_slots F' <-> s ∈ pending_slots F /\ s ∉ finalized.
Proof. rewrite (rr_slots _ _ _ HR). apply elem_of_drop, pending_slots_nodup, run_wf_of. Qed.

(** What stays in the batch. *)
Lemma remaining_wf : n < total -> batch_run_wf A' (classes D) l F'.
Proof.
  intros Hn. pose proof run_wf_of as [H1 H2 H3 H4 H5 H6 H7 H8]. destruct remaining_target as (Ht & Hd & Ho). pose proof (cleared_headers _ _ _ _ HC) as HH.
  assert (Hslot : forall s, s ∈ pending_slots F -> slot_allocated A' (pending_owner F s) = negb (bool_decide (s ∈ finalized))).
  { intros s Hs. destruct (batch_owner_ok A (classes D) l F s run_wf_of Hs) as [HO Hal]. rewrite (cleared_allocated A A' l finalized) by (done || apply HO).
    rewrite Hal. cbn. f_equal. apply bool_decide_ext. cbn. naive_solver. }
  split.
  - by rewrite Ht.
  - rewrite Ht, (rr_class _ _ _ HR). by eapply same_headers_target.
  - rewrite Ht, Hd, (rr_class _ _ _ HR), (rr_metadata _ _ _ HR). done.
  - apply HR.
  - intros s [Hs Hn']%remaining_in. rewrite Ht, Ho, Hslot, bool_decide_false by done. split; [by apply H5|done].
  - apply HR.
  - intros He. apply (rr_empty _ _ _ HR) in He. lia.
  - rewrite Hd, Ht. intros Hdet s Hs Hal. rewrite Ho in Hal. apply remaining_in.
    assert (HO : owner_ok A (pending_owner F s)) by (destruct H2 as [? ?]; by split).
    rewrite (cleared_allocated A A' l finalized) in Hal by (done || apply HO). apply andb_true_iff in Hal as [Hal Hnf%negb_true_iff%bool_decide_eq_false].
    split; [by apply H8|]. intros Hf. apply Hnf. by split.
Qed.

Lemma batch_lookup l' : batch_runs batch' !! l' = if decide (l' = l) then (if decide (n = total) then None else Some F') else batch_runs (finalization_batch D) !! l'.
Proof.
  unfold completed_batch. cbn. destruct (decide (n = total)), (decide (l' = l)) as [->|]; [apply lookup_delete_eq|by rewrite lookup_delete_ne|apply lookup_insert_eq|by rewrite lookup_insert_ne].
Qed.

Lemma completed_total : batch_pending batch' = length (pending_list batch').
Proof.
  pose proof (ao_bound _ _ _ HA) as Hb. pose proof (rr_slots _ _ _ HR) as Hp. apply Permutation_length in Hp. rewrite length_drop in Hp.
  pose proof (hw_total _ HW) as Ht. rewrite pending_list_count in Ht |- *. unfold completed_batch. cbn. case_decide as Hn.
  - rewrite Ht, (msum_deleted _ _ _ _ HF). lia.
  - pose proof (msum_old (fun F => length (pending_slots F)) _ _ F' _ HF). lia.
Qed.

Lemma completed_detached : detached_run_count batch' = detached_run_count (finalization_batch D) - (if decide (n = total) then if is_detached F then 1 else 0 else 0) /\
  (is_detached F = true -> 0 < detached_run_count (finalization_batch D)).
Proof.
  destruct remaining_target as (_ & Hd & _). rewrite !detached_count. split.
  - unfold completed_batch. cbn. case_decide as Hn.
    + rewrite (msum_deleted _ _ _ _ HF). destruct (is_detached F); lia.
    + pose proof (msum_old (fun F => if is_detached F then 1 else 0) _ _ F' _ HF) as H. cbv beta in H. rewrite Hd in H. destruct (is_detached F); lia.
  - intros Hdet. rewrite (msum_deleted _ _ _ _ HF), Hdet. lia.
Qed.

(** The heap with the cleared memory and the updated batch. *)
Definition cleared_heap : ManagedData := with_running (with_batch (with_arena D A') batch') 0.

Lemma cleared_heap_wf : (is_detached F = true -> n < total) -> heap_wf cleared_heap.
Proof.
  intros Hn. pose proof (ao_bound _ _ _ HA) as Hb. pose proof (cleared_headers _ _ _ _ HC) as HH.
  pose proof HW as [H1 H2 H3 H4 H5 H6 H7 H8 H9 H10]. split; cbn -[class_run_count completed_batch]; try done.
  - by eapply cleared_wf.
  - intros i C HCl. destruct (H3 i C HCl) as (HT & H). split; [|done]. intros t Ht. destruct (HT t Ht) as [? ?]. split; [|done]. by eapply same_headers_target.
  - intros l' G. rewrite batch_lookup. case_decide as Hl; [case_decide; [done|]|].
    + intros [= <-]. subst. apply remaining_wf. lia.
    + intros HG. eapply batch_run_wf_same; [by apply cleared_run|apply cleared_address|by apply H5].
  - apply completed_total.
  - lia.
  - intros l' Hl'. destruct (H9 l' Hl') as (r & Hr & He). pose proof (proj1 HH l') as E. rewrite Hr in E. cbn in E. destruct (run_of A' l') as [r'|]; [|done].
    exists r'. split; [done|]. cbn in E. injection E as ->. done.
  - rewrite H10. destruct completed_detached as [-> Hd]. destruct (decide (n = total)); [|lia]. destruct (is_detached F); [|lia]. specialize (Hn eq_refl). lia.
Qed.

(** Its objects and what is pending in it. *)
Lemma cleared_objects x o m : object cleared_heap x o m <-> object D x o m /\ o ∉ finalized_owners.
Proof.
  pose proof (cleared_headers _ _ _ _ HC) as HH. pose proof (hw_arena _ HW) as WA. pose proof (cleared_wf _ _ _ _ HC) as WA'. unfold object. cbn [arena classes cleared_heap with_running with_batch with_arena].
  split.
  - intros (Hr & Hs & Hal & H). rewrite (same_headers_slot A A') in Hs by done. assert (HO : owner_ok A o) by (by apply slot_of_Some in Hs as []).
    rewrite cleared_slots in Hal by done. apply andb_true_iff in Hal as [Hal Hn%negb_true_iff%bool_decide_eq_false]. done.
  - intros [(Hr & Hs & Hal & H) Hn]. assert (HO : owner_ok A o) by (by apply slot_of_Some in Hs as []). rewrite (same_headers_slot A A'), cleared_slots, bool_decide_false by done.
    by rewrite Hal.
Qed.

Lemma cleared_pending o : owner_ok A o -> is_pending cleared_heap o = true <-> is_pending D o = true /\ o ∉ finalized_owners.
Proof.
  intros HO. pose proof HO as (_ & _ & Hs). rewrite elem_of_finalized by done. unfold is_pending. change (finalization_batch cleared_heap) with batch'. rewrite batch_lookup.
  case_decide as Hl; [|naive_solver]. rewrite Hl, HF. rewrite (contains_owner_iff F) by (apply run_wf_of || lia).
  assert (Hin : (exists s, s ∈ pending_slots F /\ o = pending_owner F s) <-> owner_slot o ∈ pending_slots F).
  { split; [by intros (s & Hin & ->)|]. intros Hin. exists (owner_slot o). split; [done|by apply run_owner_of]. }
  rewrite Hin. case_decide as Hn.
  - split; [done|]. intros [Hp Hnf]. exfalso. apply Hnf. split; [done|]. by rewrite Hn, firstn_all.
  - destruct remaining_target as (_ & _ & Ho). rewrite contains_owner_iff by (apply HR || lia). setoid_rewrite Ho. split.
    + intros (s & [Hp Hnf]%remaining_in & ->). split; [done|]. by intros [_ ?].
    + intros [Hp Hnf]. exists (owner_slot o). split; [|by apply run_owner_of]. apply remaining_in. split; [done|]. intros Hf. by apply Hnf.
Qed.
End complete.

(** * Opening words and recycling runs

    After the slots of an attached run are finalized, the words without a pending
    slot are opened for allocation and the frontier of the class moves back to the
    run; a detached run without pending slots is reset. *)

(** ** Opening one word *)
Lemma release_word_ok {E} A t cls r k : arena_wf A -> target_ok A t cls -> run_of A (target_location t) = Some r ->
  (Z.of_nat k < word_len (allocation_bitmap (target_geometry t)))%Z -> leased_word r k = true -> word_has_free r (target_geometry t) k = true ->
  exists A' r', release_finalized_allocation_word (E:=E) A t cls k = Ok A' /\ replaced A A' (target_location t) r' /\
    header r' = header r /\ allocation r' = allocation r /\ marks r' = marks r /\ forall j, leased_word r' j = leased_word r j && negb (bool_decide (j = k)).
Proof.
  intros WA HT Hr Hk Hl Hf. destruct (claim_target_ok (E:=E) A WA t cls HT) as (r0 & Hty & Hres). assert (r0 = r) as -> by (destruct Hty; congruence).
  destruct (typed_wf A WA _ _ _ _ Hty) as (HG & HBa & HBl & HBm). pose proof (geometry_facts _ HG) as (_ & _ & _ & _ & _ & Hwl & Hll & Hlw & _).
  unfold release_finalized_allocation_word. rewrite Hres. cbn [mbind outcome_bind]. rewrite assert_bind by (by apply Z.ltb_lt).
  destruct (free_mask_ok (E:=E) (target_geometry t) r k HBa Hk) as (m & -> & _ & Hz & _). cbn [mbind outcome_bind]. rewrite assert_bind by (by rewrite Hz, Hf).
  assert (Hkr : (0 <= Z.of_nat k < bitmap_words (slot_count (target_geometry t)))%Z) by lia. destruct (bitmap_index _ _ Hkr) as [Hj Hb].
  rewrite bitmap_bit_ok by lia. cbn [mbind outcome_bind fst snd].
  destruct (read_word_ok (E:=E) _ _ (Z.to_nat (Z.of_nat k / 64)) HBl) as (w & Hw & Hword & ->); [lia|]. cbn [mbind outcome_bind].
  pose proof (bit_word _ Hb) as Hbw. destruct (write_word_ok (E:=E) _ _ (Z.to_nat (Z.of_nat k / 64)) (Z.land w (not64 (bit (Z.of_nat k mod 64)))) HBl) as [-> HB'];
    [lia|by apply land_word, not64_word|]. cbn [mbind outcome_bind].
  rewrite assert_bind by (rewrite land_bit by lia; unfold leased_word, slot_bit in Hl; by rewrite Hw in Hl). eexists _, _. split; [done|]. split.
  { eapply put_replaced; [done|exact Hr|]. destruct (aw_run _ WA _ _ Hr) as [Hv _]. destruct Hty as (_ & _ & Hg). split; [done|]. cbn [header]. by rewrite Hg. }
  split; [done|]. split; [done|]. split; [done|]. intros j. unfold leased_word. cbn [leases]. rewrite clear_bit_slots by (done || lia). rewrite andb_comm. do 2 f_equal.
  apply eq_true_iff_eq. rewrite Z.eqb_eq, bool_decide_eq_true. lia.
Qed.

(** What identifies a class and its runs. *)
Definition class_body (C : AllocationClassEntry) : ObjectMetadata * RunGeometry * list RunClaimTarget * gset RunLocation :=
  (metadata C, class_geometry C, class_runs C, run_locations C).

(** The fields opening a word does not change. *)
Definition rest_of (D : ManagedData) := (classes_by_metadata D, finalization_batch D, running_finalizers D, free_runs D, allocation_pressure D, root_pool D).

(** [D2] is [D1] with the words [ks] of the run at [l] opened. *)
Record words_opened (D1 D2 : ManagedData) (l : RunLocation) (ks : list nat) : Prop := {
  op_wf : heap_wf D2;
  op_slots : same_slots (arena D1) (arena D2);
  op_leases : forall l' r1, run_of (arena D1) l' = Some r1 -> exists r2, run_of (arena D2) l' = Some r2 /\
    forall k, leased_word r2 k = leased_word r1 k && negb (bool_decide (l' = l /\ k ∈ ks));
  op_bodies : class_body <$> classes D2 = class_body <$> classes D1;
  op_rest : rest_of D2 = rest_of D1;
}.

Lemma opened_none D l : heap_wf D -> words_opened D D l [].
Proof.
  intros HW. split; [done|reflexivity| |done..]. intros l' r1 Hr. exists r1. split; [done|]. intros k. rewrite bool_decide_false; [by rewrite andb_true_r|].
  intros [_ ?%elem_of_nil]. done.
Qed.

Lemma opened_trans D1 D2 D3 l ks k : words_opened D1 D2 l ks -> words_opened D2 D3 l [k] -> words_opened D1 D3 l (ks ++ [k]).
Proof.
  intros [W1 S1 L1 B1 R1] [W2 S2 L2 B2 R2]. split; [done|by transitivity (arena D2)| |congruence|congruence].
  intros l' r1 Hr. destruct (L1 l' r1 Hr) as (r2 & Hr2 & H2). destruct (L2 l' r2 Hr2) as (r3 & Hr3 & H3). exists r3. split; [done|]. intros j. rewrite H3, H2, <- andb_assoc, <- negb_orb, <- bool_decide_or.
  do 2 f_equal. apply bool_decide_ext. rewrite elem_of_app, list_elem_of_singleton. tauto.
Qed.

Lemma body_lookup D1 D2 i C : class_body <$> classes D2 = class_body <$> classes D1 -> classes D1 !! i = Some C ->
  exists C', classes D2 !! i = Some C' /\ class_body C' = class_body C.
Proof.
  intros HB HC. assert (E : (class_body <$> classes D2) !! i = Some (class_body C)) by (by rewrite HB, list_lookup_fmap, HC). rewrite list_lookup_fmap in E.
  destruct (classes D2 !! i) as [C'|]; [|done]. exists C'. split; [done|]. by apply (inj Some) in E.
Qed.

Section open.
Context (D : ManagedData) (HW : heap_wf D) (i : nat) (C : AllocationClassEntry) (HC : classes D !! i = Some C) (t : RunClaimTarget) (Ht : t ∈ class_runs C).
Notation l := (target_location t).

(** The frontier moves back to a released run. *)
Lemma publish_released_ok {E} : exists C', publish_released_run (E:=E) C t = Ok C' /\ (C' = C \/ exists k, class_runs C !! k = Some t /\ C' = with_frontier C (Some t) (Some k)).
Proof.
  destruct (hw_class _ HW i C HC) as (_ & _ & HN & _). apply NoDup_fmap_1 in HN. pose proof Ht as (k & Hk)%list_elem_of_lookup.
  unfold publish_released_run, run_position. rewrite (list_find_eq _ k t) by done. cbn [fmap option_fmap option_map expect mbind outcome_bind fst].
  destruct (match frontier_index C with None => true | Some current => _ end).
  - unfold publish_frontier. rewrite (proj2 (vec_get_Ok _ _ _) Hk). cbn [mbind outcome_bind]. eexists. split; [done|]. right. by exists k.
  - exists C. split; [done|by left].
Qed.

Lemma released_class C' : (C' = C \/ exists k, class_runs C !! k = Some t /\ C' = with_frontier C (Some t) (Some k)) ->
  heap_wf (with_classes D (<[i := C']> (classes D))) /\ class_body <$> <[i := C']> (classes D) = class_body <$> classes D.
Proof.
  intros [->|(k & Hk & ->)].
  - rewrite list_insert_id by done. split; [by destruct D|done].
  - split; [by apply frontier_wf|]. rewrite list_fmap_insert. apply list_insert_id. by rewrite list_lookup_fmap, HC.
Qed.
End open.

Lemma open_word_ok D i C t k r : heap_wf D -> classes D !! i = Some C -> t ∈ class_runs C -> run_of (arena D) (target_location t) = Some r ->
  (Z.of_nat k < word_len (allocation_bitmap (target_geometry t)))%Z -> leased_word r k = true -> word_has_free r (target_geometry t) k = true ->
  exists A' C', release_finalized_allocation_word (E:=Empty_set) (arena D) t (cid i) k = Ok A' /\ publish_released_run (E:=Empty_set) C t = Ok C' /\
    words_opened D (with_classes (with_arena D A') (<[i := C']> (classes D))) (target_location t) [k].
Proof.
  intros HW HC Ht Hr Hk Hl Hf. destruct (class_targets_ok D HW i C t HC Ht) as [HT _].
  destruct (release_word_ok (E:=Empty_set) (arena D) t (cid i) r k (hw_arena _ HW) HT Hr Hk Hl Hf) as (A' & r' & Hrel & (WA' & HRun & HAd) & Hh & Hal & _ & Hls).
  destruct (publish_released_ok (E:=Empty_set) D HW i C HC t Ht) as (C' & Hpub & HC'). exists A', C'. split; [done|]. split; [done|].
  assert (HS : same_slots (arena D) A') by (split; [|done]; intros l'; rewrite HRun; case_decide; [subst; rewrite Hr; cbn; by rewrite Hh, Hal|done]).
  pose proof (heap_wf_slots D A' HW WA' HS) as HW'. destruct (released_class (with_arena D A') HW' i C HC t C' HC') as [HW2 HB].
  split; [exact HW2|exact HS| |exact HB|done]. intros l' r1 Hr1. cbn [arena with_classes with_arena]. rewrite HRun. case_decide as Hd.
  - subst. assert (r1 = r) as -> by congruence. exists r'. split; [done|]. intros j. rewrite Hls. do 2 f_equal. apply bool_decide_ext. rewrite list_elem_of_singleton. tauto.
  - exists r1. split; [done|]. intros j. rewrite bool_decide_false by naive_solver. by rewrite andb_true_r.
Qed.

(** Opening the words of [ws] that have nothing left. *)
Definition opened_indices (ws : list FinalizationWordAttempt) : list nat := wa_index <$> filter (fun w => remaining_mask w = 0%Z) ws.

Lemma opened_indices_snoc ws w : opened_indices (ws ++ [w]) = opened_indices ws ++ if decide (remaining_mask w = 0%Z) then [wa_index w] else [].
Proof. unfold opened_indices. rewrite filter_app, fmap_app, filter_cons, filter_nil. by case_decide. Qed.

Lemma open_words_ok D i C t r c ws : heap_wf D -> classes D !! i = Some C -> t ∈ class_runs C -> run_of (arena D) (target_location t) = Some r ->
  co_target c = t -> co_class c = cid i -> NoDup (wa_index <$> ws) ->
  (forall w, w ∈ ws -> remaining_mask w = 0%Z -> (Z.of_nat (wa_index w) < word_len (allocation_bitmap (target_geometry t)))%Z /\
     leased_word r (wa_index w) = true /\ word_has_free r (target_geometry t) (wa_index w) = true) ->
  exists D', foldM (release_completed_word i c) D ws = Ok D' /\ words_opened D D' (target_location t) (opened_indices ws).
Proof.
  intros HW HC Ht Hr Hct Hcc HN Hok. apply (foldM_inv (release_completed_word i c) (fun d D' => words_opened D D' (target_location t) (opened_indices d))).
  { by apply opened_none. }
  intros d w rest D1 Heq HO. assert (Hw : w ∈ ws) by (rewrite Heq; set_solver). unfold release_completed_word. rewrite opened_indices_snoc.
  destruct (Z.eqb_spec (remaining_mask w) 0) as [Hz|Hz]; cbn [negb]; [rewrite decide_True by done|rewrite decide_False by done; rewrite app_nil_r; by exists D1].
  destruct (Hok w Hw Hz) as (Hk & Hl & Hf). destruct (body_lookup D D1 i C (op_bodies _ _ _ _ HO) HC) as (C1 & HC1 & Hb). unfold class_body in Hb. injection Hb as _ _ Hruns _.
  destruct (op_leases _ _ _ _ HO _ r Hr) as (r1 & Hr1 & Hls). pose proof (proj1 (op_slots _ _ _ _ HO) (target_location t)) as Hsame. rewrite Hr, Hr1 in Hsame. cbn in Hsame. injection Hsame as Hh Hal.
  destruct (open_word_ok D1 i C1 t (wa_index w) r1) as (A' & C' & Hrel & Hpub & HO'); [apply HO|done|by rewrite Hruns|done|done| |by unfold word_has_free; rewrite Hal|].
  { rewrite Hls, Hl, bool_decide_false; [done|]. intros [_ (w' & He & [_ Hw']%list_elem_of_filter)%list_elem_of_fmap].
    rewrite Heq, fmap_app in HN. apply NoDup_app in HN as (_ & Hd & _). apply (Hd (wa_index w)); [rewrite He; by apply list_elem_of_fmap_2|left]. }
  rewrite Hct, Hcc, Hrel. cbn [mbind outcome_bind]. rewrite (proj2 (vec_get_Ok _ _ _) HC1). cbn [mbind outcome_bind]. rewrite Hpub. cbn [mbind outcome_bind].
  eexists. split; [done|]. by eapply opened_trans.
Qed.

(** Opened words change no object. *)
Lemma opened_objects D D' l ks : heap_wf D -> words_opened D D' l ks -> same_objects D D'.
Proof.
  intros HW [HW' HS _ HB _] a o m. pose proof (hw_arena _ HW) as WA. pose proof (hw_arena _ HW') as WA'. unfold object.
  assert (Hcls : forall D1 D2, class_body <$> classes D2 = class_body <$> classes D1 ->
    (exists index C, class_index (owner_class o) = Some index /\ classes D1 !! index = Some C /\ class_geometry C = owner_geometry o /\ contains_run C (owner_location o) = true /\ metadata C = m) ->
    exists index C, class_index (owner_class o) = Some index /\ classes D2 !! index = Some C /\ class_geometry C = owner_geometry o /\ contains_run C (owner_location o) = true /\ metadata C = m).
  { intros D1 D2 HB12 (j & C & Hj & HCj & Hg & Hc & Hm). destruct (body_lookup D1 D2 j C HB12 HCj) as (C' & HC' & [= E1 E2 E3 E4]). exists j, C'.
    unfold contains_run in *. by rewrite E1, E2, E4. }
  split; intros (Hr & Hs & Hal & H); (split; [done|]).
  - rewrite (same_headers_slot (arena D) (arena D')) in Hs by (done || by apply same_slots_headers). rewrite (same_slots_allocated _ _ _ HS) in Hal. split; [done|]. split; [done|]. by apply (Hcls D' D).
  - rewrite (same_headers_slot (arena D) (arena D')) by (done || by apply same_slots_headers). rewrite (same_slots_allocated _ _ _ HS). split; [done|]. split; [done|]. by apply (Hcls D D').
Qed.

(** The words not opened stay leased. *)
Lemma opened_leased D D' l ks l' k : words_opened D D' l ks -> ~ (l' = l /\ k ∈ ks) -> leased_in D l' k -> leased_in D' l' k.
Proof.
  intros HO Hn (i & C & t & r & HC & Ht & Hl & Hk & Hr & Hls). destruct (body_lookup D D' i C (op_bodies _ _ _ _ HO) HC) as (C' & HC' & [= _ _ Er _]).
  destruct (op_leases _ _ _ _ HO _ r Hr) as (r' & Hr' & Hl'). exists i, C', t, r'. rewrite Er. do 5 (split; [done|]). by rewrite Hl', Hls, bool_decide_false.
Qed.

Lemma opened_cursor D D' l ks c : words_opened D D' l ks -> ~ (cursor_location c = l /\ cursor_word c ∈ ks) -> cursor_ok D c -> cursor_ok D' c.
Proof.
  intros HO Hn (i & C & t & Hid & HC & Ht & Hl & Hrn & Hg & (r & Hr & [Hk Hls] & HM)). destruct (body_lookup D D' i C (op_bodies _ _ _ _ HO) HC) as (C' & HC' & [= _ _ Er _]).
  destruct (op_leases _ _ _ _ HO _ r Hr) as (r' & Hr' & Hl'). pose proof (proj1 (op_slots _ _ _ _ HO) (target_location t)) as Hsame. rewrite Hr, Hr' in Hsame. cbn in Hsame. injection Hsame as Hh Hal.
  exists i, C', t. rewrite Er. do 6 (split; [done|]). exists r'. split; [done|]. split; [split; [done|]|unfold mask_ok in *; by rewrite Hal]. rewrite Hl', Hls, bool_decide_false; [done|]. by rewrite <- Hl.
Qed.

(** * The whole of a completion

    [complete_finalization_ok]: completing an attempt never panics, and [finalized_heap] says
    what it leaves: the invariant, the objects and pending slots without the
    finalized ones, leases and cursors of the other words, and slots that can be
    handed out again. *)

(** Word [k] of [F] has a pending slot after the first [n]. *)
Definition word_left (F : FinalizationRun) (n k : nat) : Prop := exists s, s ∈ drop n (pending_slots F) /\ Z.to_nat (s / 64) = k.

Record finalized_heap (D D' : ManagedData) (l : RunLocation) (F : FinalizationRun) (n : nat) : Prop := {
  fz_wf : heap_wf D';
  fz_objects : forall x o m, object D' x o m <-> object D x o m /\ o ∉ finalized_owners F n;
  fz_pending : forall o, owner_ok (arena D) o -> is_pending D' o = true <-> is_pending D o = true /\ o ∉ finalized_owners F n;
  fz_batch : forall l', l' <> l -> batch_runs (finalization_batch D') !! l' = batch_runs (finalization_batch D) !! l';
  fz_run : if decide (n = length (pending_slots F)) then batch_runs (finalization_batch D') !! l = None
    else exists F', batch_runs (finalization_batch D') !! l = Some F' /\ run_remains F F' n;
  fz_running : running_finalizers D' = 0;
  fz_total : batch_pending (finalization_batch D') = batch_pending (finalization_batch D) - n;
  fz_keys : class_key <$> classes D' = class_key <$> classes D;
  fz_metadata : classes_by_metadata D' = classes_by_metadata D;
  fz_pool : root_pool D' = root_pool D;
  fz_leased : forall l' k, leased_in D l' k -> (l' = l -> is_Some (pending_words F !! k) -> word_left F n k) -> leased_in D' l' k;
  fz_cursor : forall c, cursor_ok D c -> (cursor_location c = l -> pending_words F !! cursor_word c = None) -> cursor_ok D' c;
  fz_reusable : forall s, s ∈ take n (pending_slots F) ->
    (if is_detached F then n = length (pending_slots F) else ~ word_left F n (Z.to_nat (s / 64))) -> reusable D' (pending_owner F s);
}.

Lemma body_keys (cs cs' : list AllocationClassEntry) : class_body <$> cs' = class_body <$> cs -> class_key <$> cs' = class_key <$> cs.
Proof.
  intros H. apply list_eq. intros i. rewrite !list_lookup_fmap. pose proof (f_equal (fun k => k !! i) H) as E. cbv beta in E. rewrite !list_lookup_fmap in E.
  destruct (cs !! i) as [C|], (cs' !! i) as [C'|]; cbn in *; [|done..]. unfold class_body, class_key in *. congruence.
Qed.

Section complete.
Context (D : ManagedData) (HW : heap_wf D) (l : RunLocation) (F : FinalizationRun) (HF : batch_runs (finalization_batch D) !! l = Some F).
Context (n : nat) (a : RunFinalizationAttempt) (HA : attempt_ok F n a).
Notation A := (arena D).
Notation finalized := (take n (pending_slots F)).
Notation total := (length (pending_slots F)).
Context (A' : Arena) (HC : cleared A A' l finalized) (F' : FinalizationRun) (HR : run_remains F F' n).
Notation D1 := (cleared_heap D l F n A' F').

(** A run of a class at another location, or at [l] when the run is attached. *)
Lemma cleared_class_run i C t r : classes D !! i = Some C -> t ∈ class_runs C -> run_of A (target_location t) = Some r ->
  exists r', run_of A' (target_location t) = Some r' /\ header r' = header r /\ leases r' = leases r /\
    forall k, (target_location t = l -> pending_words F !! k = None) -> forall b, (0 <= b < 64)%Z ->
      slot_bit (allocation r') (Z.of_nat k * 64 + b) = slot_bit (allocation r) (Z.of_nat k * 64 + b).
Proof.
  intros HCl Ht Hr. destruct (decide (target_location t = l)) as [Hl|Hl].
  - destruct HC as (r0 & r' & Hr0 & (_ & HRun & _) & Hh & Hle & _ & Hbits). rewrite <- Hl in Hr0. assert (r0 = r) as -> by congruence.
    exists r'. rewrite HRun, decide_True by done. do 3 (split; [done|]). intros k Hk b Hb. rewrite Hbits, bool_decide_false; [by rewrite andb_true_r| |lia].
    intros Hs%finalized_in. apply elem_of_pending_slots in Hs as [_ Hs]; [|apply (run_wf_of D HW l F HF)]. unfold pending_bit in Hs. destruct (index_join k b Hb) as [Hd _].
    by rewrite Hd, Nat2Z.id, Hk in Hs.
  - exists r. rewrite (cleared_run D l F n A' HC) by done. done.
Qed.

Lemma cleared_leased l' k : leased_in D l' k -> leased_in D1 l' k.
Proof.
  intros (i & C & t & r & HCl & Ht & <- & Hk & Hr & Hl). destruct (cleared_class_run i C t r HCl Ht Hr) as (r' & Hr' & _ & Hle & _).
  exists i, C, t, r'. split; [exact HCl|]. split; [done|]. split; [done|]. split; [done|]. split; [exact Hr'|]. unfold leased_word in *. by rewrite Hle.
Qed.

Lemma cleared_cursor c : cursor_ok D c -> (cursor_location c = l -> pending_words F !! cursor_word c = None) -> cursor_ok D1 c.
Proof.
  intros (i & C & t & Hid & HCl & Ht & Hl & Hrn & Hg & (r & Hr & [Hk Hls] & Hw & HM)) Hp. destruct (cleared_class_run i C t r HCl Ht Hr) as (r' & Hr' & _ & Hle & Hbits).
  exists i, C, t. split; [done|]. split; [exact HCl|]. do 4 (split; [done|]). exists r'. split; [exact Hr'|]. split; [split; [done|]; unfold leased_word in *; by rewrite Hle|].
  split; [done|]. intros b Hb. rewrite HM by done. do 2 f_equal. symmetry. apply Hbits; [|done]. by rewrite <- Hl.
Qed.

(** A slot that stays pending is in a word that stays. *)
Lemma left_word k v : pending_words F' !! k = Some v -> word_left F n k.
Proof.
  intros Hk. destruct (rr_words _ _ _ HR k v Hk) as [Hv Hne]. destruct (trailing_zeros_spec v Hv Hne) as (Hr & Ht & _). exists (Z.of_nat k * 64 + trailing_zeros v)%Z.
  destruct (index_join k _ Hr) as [Hd Hm]. split; [|by rewrite Hd, Nat2Z.id]. rewrite <- (rr_slots _ _ _ HR). apply elem_of_pending_slots; [apply HR|]. split; [lia|].
  unfold pending_bit. by rewrite Hd, Hm, Nat2Z.id, Hk.
Qed.

(** A part of a detached run is finalized. *)
Lemma detached_part : is_detached F = true -> n < total -> finalized_heap D D1 l F n.
Proof.
  intros Hd Hn. pose proof (cleared_heap_wf D HW l F HF n a HA A' HC F' HR (fun _ => Hn)) as HW1. split; [done| | | | |done|done|done|done|done| | |].
  - intros x o m. by apply (cleared_objects D HW l F HF n A' HC F').
  - intros o HO. by apply (cleared_pending D HW l F HF n A' F' HR).
  - intros l' Hl. change (finalization_batch D1) with (completed_batch l F n (finalization_batch D) F'). by rewrite (batch_lookup D l F n F'), decide_False.
  - rewrite decide_False by lia. exists F'. split; [|done]. change (finalization_batch D1) with (completed_batch l F n (finalization_batch D) F').
    by rewrite (batch_lookup D l F n F'), decide_True, decide_False by (done || lia).
  - intros l' k Hl _. by apply cleared_leased.
  - apply cleared_cursor.
  - intros s _. rewrite Hd. lia.
Qed.

(** ** An attached run *)
Section attached.
Context (HD : is_detached F = false) (HL : forall k, is_Some (pending_words F !! k) -> leased_in D l k).

Lemma attached_class : exists i C, fr_class F = cid i /\ classes D !! i = Some C /\ run_target F ∈ class_runs C.
Proof.
  destruct (bf_class _ _ _ _ (run_wf_of D HW l F HF)) as (i & C & Hi & HCl & _ & _ & _ & Hd). rewrite HD in Hd. by exists i, C.
Qed.

(** A word is opened when no slot of it is left. *)
Lemma word_done w : w ∈ at_words a -> remaining_mask w = 0%Z <-> ~ word_left F n (wa_index w).
Proof.
  intros Hw. destruct (attempt_words_at F n a HA w Hw) as ([i v] & Hiv%elem_of_map_to_list & (Hi & _ & Hword & Hrem)). cbn [fst snd] in *. rewrite Hi.
  pose proof (run_wf_of D HW l F HF) as HB. destruct (bf_words _ _ _ _ HB i v Hiv) as [Hv Hne].
  assert (Hbit : forall b, (0 <= b < 64)%Z -> Z.testbit (remaining_mask w) b = true <-> (Z.of_nat i * 64 + b)%Z ∈ drop n (pending_slots F)).
  { intros b Hb. rewrite Hrem, elem_of_drop by (done || apply pending_slots_nodup, HB). rewrite andb_true_iff, negb_true_iff, bool_decide_eq_false.
    apply and_iff_compat_r. rewrite elem_of_pending_slots by apply HB. unfold pending_bit. destruct (index_join i b Hb) as [-> ->]. rewrite Nat2Z.id, Hiv. split; [split; [lia|done]|by intros []]. }
  rewrite (word_zero _ Hword). split.
  - intros Hz (s & Hs & Hsi). assert (H0 : (0 <= s)%Z). { eapply pending_slot_range; [apply HB|]. apply elem_of_drop in Hs as [? _]; [done|apply pending_slots_nodup, HB]. }
    assert (Hm : (0 <= s mod 64 < 64)%Z) by (apply Z.mod_pos_bound; lia). rewrite <- (index_split s H0), Hsi in Hs. apply Hbit in Hs; [|done]. by rewrite Hz in Hs.
  - intros Hn b Hb. apply not_true_iff_false. intros Hs. apply Hbit in Hs; [|done]. apply Hn. eexists. split; [exact Hs|]. destruct (index_join i b Hb) as [-> _]. by rewrite Nat2Z.id.
Qed.

Lemma opened_index k : k ∈ opened_indices (at_words a) <-> is_Some (pending_words F !! k) /\ ~ word_left F n k.
Proof.
  unfold opened_indices. rewrite list_elem_of_fmap. setoid_rewrite list_elem_of_filter. split.
  - intros (w & -> & Hz & Hw). split; [|by apply word_done]. destruct (attempt_words_at F n a HA w Hw) as ([i v] & Hiv%elem_of_map_to_list & (-> & _)). by exists v.
  - intros [(v & Hv) Hn]. destruct (attempt_word_of F n a HA k v Hv) as (w & Hw & (Hi & _)). cbn in Hi. exists w. rewrite Hi. split; [done|]. split; [|done]. apply word_done; [done|]. by rewrite Hi.
Qed.

(** The words to open are leased and have a free slot. *)
Lemma word_ready i C r w : classes D !! i = Some C -> run_target F ∈ class_runs C -> run_of A' l = Some r -> w ∈ at_words a -> remaining_mask w = 0%Z ->
  (Z.of_nat (wa_index w) < word_len (allocation_bitmap (target_geometry (run_target F))))%Z /\ leased_word r (wa_index w) = true /\
  word_has_free r (target_geometry (run_target F)) (wa_index w) = true.
Proof.
  intros HCl Ht Hr Hw Hz. pose proof (run_wf_of D HW l F HF) as HB. pose proof (bf_location _ _ _ _ HB) as Hloc.
  destruct (attempt_words_at F n a HA w Hw) as ([k v] & Hiv%elem_of_map_to_list & (Hi & _ & _ & Hrem)). cbn [fst snd] in *. rewrite Hi.
  destruct (HL k) as (j & Cj & t & r0 & HCj & Htj & Hlj & Hk & Hr0 & Hls); [by exists v|].
  assert (t = run_target F) as -> by (destruct (class_disjoint D HW j i Cj C t (run_target F) HCj HCl Htj Ht); [congruence|done]).
  rewrite <- Hloc in Hr0. destruct (cleared_class_run i C (run_target F) r0 HCl Ht Hr0) as (r' & Hr' & _ & Hle & _). rewrite Hloc in Hr'. assert (r' = r) as -> by congruence.
  split; [done|]. split; [unfold leased_word in *; by rewrite Hle|]. destruct (bf_words _ _ _ _ HB k v Hiv) as [Hv Hne]. destruct (trailing_zeros_spec v Hv Hne) as (Hb & Hbv & _).
  set (b := trailing_zeros v) in *. unfold word_has_free. apply existsb_elem. exists b. split; [by apply elem_of_bits64|].
  specialize (Hrem b Hb). rewrite Hz, Z.bits_0, Hbv in Hrem. cbn in Hrem. symmetry in Hrem. apply negb_false_iff, bool_decide_eq_true in Hrem.
  destruct (bf_pending _ _ _ _ HB _ (finalized_in F n _ Hrem)) as [Hlt _]. rewrite (proj2 (Z.ltb_lt _ _) Hlt). cbn.
  destruct HC as (r1 & r2 & _ & (_ & HRun & _) & _ & _ & _ & Hbits). rewrite HRun, decide_True in Hr by done. injection Hr as <-. rewrite Hbits by lia. by rewrite bool_decide_true, andb_false_r.
Qed.

Lemma attached_ok c : co_target c = run_target F -> co_class c = fr_class F -> co_words c = at_words a ->
  exists index D', class_index (fr_class F) = Some index /\ foldM (release_completed_word index c) D1 (co_words c) = Ok D' /\ finalized_heap D D' l F n.
Proof.
  intros Hct Hcc Hcw. destruct attached_class as (i & C & Hi & HCl & Ht). pose proof (run_wf_of D HW l F HF) as HB. pose proof (bf_location _ _ _ _ HB) as Hloc.
  assert (HW1 : heap_wf D1) by (apply (cleared_heap_wf D HW l F HF n a HA A' HC F' HR); congruence).
  destruct (bf_target _ _ _ _ HB) as [(r0 & Hr0 & _) _]. destruct (cleared_class_run i C (run_target F) r0 HCl Ht Hr0) as (r & Hr & _).
  exists i. rewrite Hi, class_index_cid, Hcw.
  destruct (open_words_ok D1 i C (run_target F) r c (at_words a) HW1 HCl Ht Hr Hct) as (D' & Hfold & HO); [congruence|by apply (attempt_indices_nodup F n)| |].
  { intros w Hw Hz. apply (word_ready i C r w HCl Ht); [by rewrite <- Hloc|done|done]. }
  exists D'. split; [done|]. split; [exact Hfold|]. pose proof (op_rest _ _ _ _ HO) as Hrest. unfold rest_of in Hrest. injection Hrest as Emd Eb Ern Efr Epr Epl. rewrite Hloc in HO.
  assert (Hob : forall x o m, object D' x o m <-> object D x o m /\ o ∉ finalized_owners F n).
  { intros x o m. rewrite (opened_objects _ _ _ _ HW1 HO x o m). by apply (cleared_objects D HW l F HF n A' HC F'). }
  split; [apply HO|exact Hob| | | |done|by rewrite Eb| |done|done| | |].
  - intros o HOw. unfold is_pending. rewrite Eb. by apply (cleared_pending D HW l F HF n A' F' HR).
  - intros l' Hl. rewrite Eb. by rewrite (batch_lookup D l F n F'), decide_False.
  - rewrite Eb, (batch_lookup D l F n F'), (decide_True (P:=l = l)) by done. case_decide; [done|by exists F'].
  - by apply (body_keys (classes D1)), HO.
  - intros l' k Hl Hk. apply (opened_leased D1 D' l (opened_indices (at_words a))); [done| |by apply cleared_leased]. intros [-> [Hs Hn]%opened_index]. by apply Hn, Hk.
  - intros x Hx Hp. apply (opened_cursor D1 D' l (opened_indices (at_words a))); [done| |by apply cleared_cursor]. intros [Hl [[v Hv] _]%opened_index]. rewrite Hp in Hv by done. done.
  - intros s Hs. rewrite HD. intros Hn. right. destruct (body_lookup D1 D' i C (op_bodies _ _ _ _ HO) HCl) as (C' & HC' & [= _ _ Eruns _]). exists i, C', (run_target F).
    pose proof (finalized_in F n s Hs) as Hin. destruct (batch_owner_ok A (classes D) l F s HB Hin) as [HOw _]. rewrite Eruns. split; [done|]. split; [done|]. split; [done|].
    assert (Hfin : pending_owner F s ∈ finalized_owners F n) by (by apply list_elem_of_fmap_2). split.
    + rewrite (same_slots_allocated _ _ _ (op_slots _ _ _ _ HO)). change (slot_allocated A' (pending_owner F s) = false).
      rewrite (cleared_slots D HW l F HF n A' HC) by done. by rewrite (bool_decide_true _ Hfin), andb_false_r.
    + destruct (op_leases _ _ _ _ HO _ r Hr) as (r2 & Hr2 & Hl2). exists r2. split; [done|]. cbn [owner_slot pending_owner]. rewrite Hl2, bool_decide_true; [by rewrite andb_false_r|].
      split; [done|]. apply opened_index. split; [|done]. apply elem_of_pending_slots in Hin as [_ Hin]; [|apply HB]. unfold pending_bit in Hin. by destruct (pending_words F !! _).
Qed.
End attached.

(** ** A detached run with nothing left *)
Section recycle.
Context (HD : is_detached F = true) (Hn : n = total) (A2 : Arena) (HA2 : replaced A' A2 l (zero_side_metadata RunGeometry.empty (target_geometry (run_target F)))).
Context (p : nat) (Hp : assigned_runs (allocation_pressure D) = S p).
Notation D2 := (with_free_runs (with_pressure (with_arena D1 A2) (MkPressure p (high_water_mark (allocation_pressure D)))) (free_runs D ++ [l])).

Lemma recycled_run l' : l' <> l -> run_of A2 l' = run_of A l'.
Proof. intros Hl. destruct HA2 as (_ & HRun & _). by rewrite HRun, decide_False, (cleared_run D l F n A' HC). Qed.

Lemma recycled_address l' : address_of A2 l' = address_of A l'.
Proof. destruct HA2 as (_ & _ & HAd). by rewrite HAd, (cleared_address D l F n A' HC). Qed.

Lemma recycled_empty r : run_of A2 l = Some r -> header_is_empty (header r) = true.
Proof. destruct HA2 as (_ & HRun & _). rewrite HRun, decide_True by done. by intros [= <-]. Qed.

(** No class has the run. *)
Lemma detached_class i C t : classes D !! i = Some C -> t ∈ class_runs C -> target_location t <> l.
Proof.
  intros HCl Ht Hl. rewrite <- Hl in HF. destruct (batch_attached D HW i C t F HCl Ht HF) as (Hd & _). congruence.
Qed.

Lemma detached_object x o m : object D x o m -> owner_location o <> l.
Proof.
  intros (_ & _ & _ & i & C & _ & HCl & _ & Hc & _) Hl. apply bool_decide_eq_true in Hc. destruct (hw_class _ HW i C HCl) as (_ & HL & _).
  apply HL in Hc as (t & Ht & Hlt). apply (detached_class i C t HCl Ht). congruence.
Qed.

Lemma recycled_owner o : owner_ok A2 o <-> owner_ok A o /\ owner_location o <> l.
Proof.
  unfold owner_ok. rewrite recycled_address. split.
  - intros ((r & Hr & Hc & Hg) & H). assert (Hl : owner_location o <> l).
    { intros Hl. rewrite Hl in Hr. apply recycled_empty in Hr. apply header_not_empty in Hc. congruence. }
    split; [|done]. split; [|done]. exists r. split; [by rewrite <- recycled_run|done].
  - intros [((r & Hr & Hc & Hg) & H) Hl]. split; [|done]. exists r. split; [by rewrite recycled_run|done].
Qed.

Lemma recycled_objects x o m : object D2 x o m <-> object D x o m.
Proof.
  pose proof (hw_arena _ HW) as WA. destruct HA2 as (WA2 & _).
  assert (Hslot : forall o, owner_location o <> l -> slot_allocated A2 o = slot_allocated A o) by (intros o' Hl; unfold slot_allocated; by rewrite recycled_run).
  split.
  - intros (Hr & Hs & Hal & H). cbn [arena with_free_runs with_pressure with_arena] in Hs, Hal. apply slot_of_Some in Hs as [HO Hx]; [|done|unfold in_range in Hr; lia].
    apply recycled_owner in HO as [HO Hl]. rewrite Hslot in Hal by done. split; [done|]. split; [by apply slot_of_Some|]. done.
  - intros HOb. pose proof (detached_object x o m HOb) as Hl. destruct HOb as (Hr & Hs & Hal & H). split; [done|]. cbn [arena with_free_runs with_pressure with_arena].
    apply slot_of_Some in Hs as [HO Hx]; [|done|unfold in_range in Hr; lia]. rewrite Hslot by done. split; [apply slot_of_Some; [done|unfold in_range in Hr; lia|]|done].
    split; [by apply recycled_owner|done].
Qed.

Lemma recycled_wf : heap_wf D2.
Proof.
  pose proof HW as [H1 H2 H3 H4 H5 H6 H7 H8 H9 H10]. destruct HA2 as (WA2 & HRun & _).
  assert (Hbr : forall l', batch_runs (completed_batch l F n (finalization_batch D) F') !! l' = if decide (l' = l) then None else batch_runs (finalization_batch D) !! l').
  { intros l'. rewrite (batch_lookup D l F n F'). case_decide; [by rewrite decide_True|done]. }
  split; cbn -[class_run_count completed_batch]; try done.
  - intros i C HCl. destruct (H3 i C HCl) as (HT & H). split; [|done]. intros t Ht. destruct (HT t Ht) as [[(r & Hr & Hc & Hg) Ha] ?]. pose proof (detached_class i C t HCl Ht) as Hl.
    split; [|done]. split; [exists r; split; [by rewrite recycled_run|done]|by rewrite recycled_address].
  - intros l' G. rewrite Hbr. case_decide as Hl; [done|]. intros HG. eapply batch_run_wf_same; [by apply recycled_run|apply recycled_address|by apply H5].
  - by apply (completed_total D HW l F HF n a HA F' HR).
  - lia.
  - apply NoDup_app. split; [done|]. split; [|apply NoDup_singleton]. intros l' Hl' ->%list_elem_of_singleton. destruct (H9 l Hl') as (r & Hr & He).
    pose proof (run_wf_of D HW l F HF) as HB. destruct (bf_target _ _ _ _ HB) as [(r' & Hr' & Hc' & _) _]. rewrite (bf_location _ _ _ _ HB) in Hr'. apply header_not_empty in Hc'. congruence.
  - intros l' [Hl'| ->%list_elem_of_singleton]%elem_of_app; [|eexists; split; [by rewrite HRun, decide_True|done]].
    destruct (H9 l' Hl') as (r & Hr & He). destruct (decide (l' = l)) as [->|Hl]; [eexists; split; [by rewrite HRun, decide_True|done]|]. exists r. by rewrite recycled_run.
  - destruct (completed_detached D l F HF n F' HR) as [-> Hpos]. rewrite decide_True, HD by done. rewrite Hp in H10. specialize (Hpos HD). lia.
Qed.

Lemma recycled_ok : finalized_heap D D2 l F n.
Proof.
  pose proof recycled_wf as HW2.
  assert (Hfin : forall x o m, object D x o m -> o ∉ finalized_owners F n).
  { intros x o m HOb Hin. apply (elem_of_finalized D HW l F HF n) in Hin as [Hl _]; [by apply (detached_object x o m)|]. by apply (object_owner D x o m (hw_arena _ HW)). }
  split; [done| | | | |done|done|done|done|done| | |].
  - intros x o m. rewrite recycled_objects. split; [|by intros []]. intros HOb. split; [done|by eapply Hfin].
  - intros o HO. by apply (cleared_pending D HW l F HF n A' F' HR).
  - intros l' Hl. change (finalization_batch D2) with (completed_batch l F n (finalization_batch D) F'). by rewrite (batch_lookup D l F n F'), decide_False.
  - rewrite decide_True by done. change (finalization_batch D2) with (completed_batch l F n (finalization_batch D) F'). by rewrite (batch_lookup D l F n F'), decide_True, decide_True.
  - intros l' k (i & C & t & r & HCl & Ht & <- & Hk & Hr & Hl) _. exists i, C, t, r. do 4 (split; [done|]). split; [|done]. cbn [arena with_free_runs with_pressure with_arena].
    by rewrite recycled_run by (by eapply detached_class).
  - intros c (i & C & t & Hid & HCl & Ht & Hl & Hrn & Hg & (r & Hr & HO)) _. exists i, C, t. do 6 (split; [done|]). exists r. split; [|done]. cbn [arena with_free_runs with_pressure with_arena].
    by rewrite recycled_run by (by eapply detached_class).
  - intros s _ _. left. cbn [free_runs with_free_runs owner_location pending_owner]. rewrite (bf_location _ _ _ _ (run_wf_of D HW l F HF)). set_solver.
Qed.
End recycle.
End complete.

(** ** Completing *)
Lemma complete_finalization_ok D l F n a : heap_wf D -> batch_runs (finalization_batch D) !! l = Some F -> attempt_ok F n a -> running_finalizers D = length (at_work a) ->
  (is_detached F = false -> forall k, is_Some (pending_words F !! k) -> leased_in D l k) ->
  exists D' recycled, complete_finalization_run D a = Ok (D', recycled) /\ finalized_heap D D' l F n /\
    recycled = is_detached F && bool_decide (n = length (pending_slots F)).
Proof.
  intros HW HF HA Hrun HL. pose proof (run_wf_of D HW l F HF) as HB. pose proof (ao_bound _ _ _ HA) as Hbound. pose proof (total_pending D HW l F HF) as Htot.
  destruct (complete_run_ok (arena D) (hw_arena _ HW) (classes D) l F HB n a HA (finalization_batch D) HF) as (F' & A' & HR & HC & Hcomp); [lia|].
  unfold complete_finalization_run. rewrite assert_bind by (by apply bool_decide_eq_true). rewrite Hcomp. cbn [mbind outcome_bind].
  change (with_running (with_batch (with_arena D A') (completed_batch l F n (finalization_batch D) F')) 0) with (cleared_heap D l F n A' F').
  pose proof (eq_refl : co_detached (completion_of F n a) = is_detached F) as Hcd.
  pose proof (eq_refl : completed_detached_run (completion_of F n a) = if decide (n = length (pending_slots F)) then match fr_target F with Attached _ => None | Detached t => Some (MkCompletedDetached t (fr_class F)) end else None) as Hcr.
  rewrite Hcd, Hcr. change (co_class (completion_of F n a)) with (fr_class F). destruct (is_detached F) eqn:Hd; cbn [mbind outcome_bind andb].
  - assert (Htgt : exists t, fr_target F = Detached t /\ run_target F = t) by (unfold is_detached, run_target in *; destruct (fr_target F) as [|t]; [done|by exists t]). destruct Htgt as (t & Et & Ert). rewrite Et.
    case_decide as Hn; [|eexists _, _; split; [done|]; split; [apply (detached_part D HW l F HF n a HA A' HC F' HR Hd); lia|by rewrite bool_decide_false]].
    assert (HT : target_ok A' t (fr_class F)) by (rewrite <- Ert; eapply same_headers_target; [by eapply cleared_headers|apply HB]).
    destruct (reset_ok (E:=Empty_set) A' (cleared_wf _ _ _ _ HC) t (fr_class F) HT) as (A2 & Hreset & HA2). cbn [cd_target cd_class]. change (arena (cleared_heap D l F n A' F')) with A'. rewrite Hreset.
    cbn [mbind outcome_bind]. change (allocation_pressure (cleared_heap D l F n A' F')) with (allocation_pressure D).
    pose proof (hw_assigned _ HW) as Has. destruct (completed_detached D l F HF n F' HR) as [_ Hpos]. specialize (Hpos Hd).
    unfold record_run_release. destruct (assigned_runs (allocation_pressure D)) as [|p] eqn:Ep; [lia|]. cbn [mbind outcome_bind].
    eexists _, _. split; [done|]. split; [|by rewrite bool_decide_true]. assert (Hloc : target_location t = l) by (rewrite <- Ert; apply HB). rewrite Hloc in HA2 |- *.
    apply (recycled_ok D HW l F HF n a HA A' HC F' HR Hd Hn A2); [by rewrite Ert|done].
  - destruct (attached_ok D HW l F HF n a HA A' HC F' HR Hd (HL eq_refl) (completion_of F n a) eq_refl eq_refl eq_refl) as (index & D' & Hi & Hfold & HFz).
    rewrite Hi. cbn [expect mbind outcome_bind]. rewrite Hfold. cbn [mbind outcome_bind].
    unfold is_detached in Hd. exists D', false. split; [|done]. destruct (fr_target F); [|done]. by destruct (decide (n = length (pending_slots F))).
Qed.
