(* ===== verification/HeapMachine.v ===== *)
(** * The collected heap as a machine

    Threads enter the heap, resolve representations, allocate, root and store
    values; handles are cloned and dropped; a collection runs while no thread is
    inside; destructors run while others use the heap. Each request is the operation of the code under the locks it takes; a
    thread's record has the cursors and the root slots it took in one lease epoch.
    The contents of an object are what its [Trace] implementation reports; the
    allocator of the process is a parameter. *)
From stdpp Require Import base option list numbers gmap sets.
From Stdlib Require Import ZArith Lia.
From S2P Require Import Prelude RootPool RootPoolFacts RunGeometry Bitmaps Arena Heap HeapFacts Marking Sweep SweepCorrect Collection Claim Alloc Finalize.

(** ** Threads ([ThreadHeapState]) *)
Record ThreadHeapState := MkHeapThread {
  thread_roots : ThreadRoots;
  cursors : ClassCursorCache;
  thread_classes : gmap ObjectMetadata AllocationClassId;
}.

Definition ThreadHeapState_new (current : nat) : ThreadHeapState :=
  MkHeapThread (MkThread false current None None) ClassCursorCache_default ∅.

Definition thread_activate (T : ThreadHeapState) (current : nat) : ThreadHeapState :=
  MkHeapThread (activate (thread_roots T) current)
    (if decide (captured_epoch (thread_roots T) = current) then cursors T else clear (cursors T)) (thread_classes T).

Definition thread_deactivate (T : ThreadHeapState) : ThreadHeapState :=
  MkHeapThread (deactivate (thread_roots T)) (cursors T) (thread_classes T).

Definition with_roots (T : ThreadHeapState) (R : ThreadRoots) : ThreadHeapState := MkHeapThread R (cursors T) (thread_classes T).
Definition with_cursors (T : ThreadHeapState) (c : ClassCursorCache) : ThreadHeapState := MkHeapThread (thread_roots T) c (thread_classes T).

(** [remember_class] *)
Definition remember_class (T : ThreadHeapState) (class : AllocationClass) : ThreadHeapState :=
  MkHeapThread (thread_roots T) (cursors T) (<[ac_metadata class := ac_id class]> (thread_classes T)).

(** [MutatorAccess::allocator]: the class a thread has resolved, or resolves. *)
Definition thread_allocator (D : ManagedData) (T : ThreadHeapState) (m : ObjectMetadata)
    : outcome GeometryError (ManagedData * ThreadHeapState * AllocationClass) :=
  match thread_classes T !! m with
  | Some id => Ok (D, T, MkAllocationClass m id)
  | None =>
      Dc ← allocator D m;
      Ok (Dc.1, remember_class T Dc.2, Dc.2)
  end.

(** [MutatorAccess::root] of a value, up to the handle. *)
Definition register_root (heap : HeapId) (D : ManagedData) (T : ThreadHeapState) (v : Z) : M (ManagedData * ThreadHeapState * SlotRef) :=
  r ← register_proven_root (root_pool D) (thread_roots T) heap v;
  let '(P, R, s) := r in
  Ok (with_pool D P, with_roots T R, s).

(** [next_allocation_lease_epoch] *)
Definition next_epoch (e : nat) : M nat := next ← expect (checked_add (Z.of_nat e) 1); Ok (Z.to_nat next).

(** ** The machine *)

(** What [run_finalization_batch] holds: the runs to dispatch and the attempt on
    the run it is at. *)
Record Finalizing := MkFinalizing { dispatch : list RunLocation; attempt : option RunFinalizationAttempt }.

Record Machine := MkMachine {
  data : ManagedData;
  lease_epoch : nat;
  states : gmap nat ThreadHeapState;
  roots_held : list (SlotRef * Z);
  contents : gmap Z (list Visit);
  pairs : Pairs;
  requested : bool;
  finalizing : Finalizing;
}.

Definition Machine_new : Machine := MkMachine ManagedData_default 1 ∅ [] ∅ ∅ false (MkFinalizing [] None).

Definition with_finalizing (R : Machine) (D : ManagedData) (f : Finalizing) : Machine :=
  MkMachine D (lease_epoch R) (states R) (roots_held R) (contents R) (pairs R) (requested R) f.

(** What tracing an object reports. *)
Definition trace_of (contents : gmap Z (list Visit)) (_ : ObjectMetadata) (a : Z) : list Visit := default [] (contents !! a).

Inductive heap_request :=
  | HEnter (t : nat)
  | HLeave (t : nat)
  | HForget (t : nat)
  | HAllocator (t : nat) (m : ObjectMetadata)
  | HAlloc (t : nat) (m : ObjectMetadata) (edges : list Visit)
  | HStore (a : Z) (edges : list Visit)
  | HPair (p key value : Z)
  | HRoot (t : nat) (a : Z)
  | HClone (h : nat)
  | HDrop (h : nat)
  | HCollect
  | HBaseline
  | HDispatch
  | HPrepare
  | HDestroy
  | HComplete.

Section serve.
Context (allocate_memory : list Z -> option Z) (heap : HeapId).

Definition heap_serve (R : Machine) (q : heap_request) : M Machine :=
  match q with
  | HEnter t =>
      let T := default (ThreadHeapState_new (lease_epoch R)) (states R !! t) in
      Ok (MkMachine (data R) (lease_epoch R) (<[t := thread_activate T (lease_epoch R)]> (states R)) (roots_held R) (contents R) (pairs R) (requested R) (finalizing R))
  | HLeave t =>
      T ← expect (states R !! t);
      Ok (MkMachine (data R) (lease_epoch R) (<[t := thread_deactivate T]> (states R)) (roots_held R) (contents R) (pairs R) (requested R) (finalizing R))
  | HForget t => Ok (MkMachine (data R) (lease_epoch R) (delete t (states R)) (roots_held R) (contents R) (pairs R) (requested R) (finalizing R))
  | HAllocator t m =>
      T ← expect (states R !! t);
      match thread_allocator (data R) T m with
      | Ok (D, T, _) => Ok (MkMachine D (lease_epoch R) (<[t := T]> (states R)) (roots_held R) (contents R) (pairs R) (requested R) (finalizing R))
      | Err _ => Ok R
      | Panic => Panic
      | OutOfFuel => OutOfFuel
      end
  | HAlloc t m edges =>
      T ← expect (states R !! t);
      id ← expect (thread_classes T !! m);
      r ← alloc allocate_memory (data R) (cursors T) (MkAllocationClass m id);
      let '(D, c, pressed, a) := r in
      Ok (MkMachine D (lease_epoch R) (<[t := with_cursors T c]> (states R)) (roots_held R) (<[a := edges]> (contents R)) (pairs R) (requested R || pressed) (finalizing R))
  | HStore a edges => Ok (MkMachine (data R) (lease_epoch R) (states R) (roots_held R) (<[a := edges]> (contents R)) (pairs R) (requested R) (finalizing R))
  | HPair p key value => Ok (MkMachine (data R) (lease_epoch R) (states R) (roots_held R) (contents R) (<[p := (key, value)]> (pairs R)) (requested R) (finalizing R))
  | HRoot t a =>
      T ← expect (states R !! t);
      r ← register_root heap (data R) T a;
      let '(D, T, s) := r in
      Ok (MkMachine D (lease_epoch R) (<[t := T]> (states R)) ((s, a) :: roots_held R) (contents R) (pairs R) (requested R) (finalizing R))
  | HClone h =>
      e ← vec_get (roots_held R) h;
      P ← retain (root_pool (data R)) e.1;
      Ok (MkMachine (with_pool (data R) P) (lease_epoch R) (states R) (e :: roots_held R) (contents R) (pairs R) (requested R) (finalizing R))
  | HDrop h =>
      e ← vec_get (roots_held R) h;
      P ← release (root_pool (data R)) e.1;
      Ok (MkMachine (with_pool (data R) P) (lease_epoch R) (states R) (delete h (roots_held R)) (contents R) (pairs R) (requested R) (finalizing R))
  | HCollect =>
      next ← next_epoch (lease_epoch R);
      Dp ← collect_heap (trace_of (contents R)) (data R) (pairs R);
      Ok (MkMachine Dp.1 next (states R) (roots_held R) (contents R) Dp.2 (requested R) (MkFinalizing [] None))
  | HBaseline =>
      D ← publish_survivor_pressure_baseline (data R);
      Ok (MkMachine D (lease_epoch R) (states R) (roots_held R) (contents R) (pairs R) false (finalizing R))
  | HDispatch => Ok (with_finalizing R (data R) (MkFinalizing (dispatch_snapshot (finalization_batch (data R))) None))
  | HPrepare =>
      l ← expect (last (dispatch (finalizing R)));
      Da ← prepare_finalization_run (data R) l;
      Ok (with_finalizing R Da.1 (MkFinalizing (removelast (dispatch (finalizing R))) (Some Da.2)))
  | HDestroy =>
      a ← expect (attempt (finalizing R));
      work ← expect (next_work a);
      a ← complete_terminal a work;
      Ok (with_finalizing R (data R) (MkFinalizing (dispatch (finalizing R)) (Some a)))
  | HComplete =>
      a ← expect (attempt (finalizing R));
      Dr ← complete_finalization_run (data R) a;
      Ok (with_finalizing R Dr.1 (MkFinalizing (dispatch (finalizing R)) None))
  end.

(** ** Which requests are made *)
Definition live_at (D : ManagedData) (a : Z) : Prop := exists o m, live_object D a o m.

(** An edge to a live object; a pair the heap has. *)
Definition edge_ok (R : Machine) (x : Visit) : Prop :=
  match x with VEdge b => live_at (data R) b | VEphemeron p => exists kv, pairs R !! p = Some kv /\
    (kv.1 = 0%Z \/ live_at (data R) kv.1 /\ live_at (data R) kv.2) end.

Definition inside (R : Machine) (t : nat) (T : ThreadHeapState) : Prop := states R !! t = Some T /\ active (thread_roots T) = true.

(** What the types of the code and its admission enforce: a thread acts while it
    is inside, on values it can reach; a collection runs while none is. The thread that
    runs destructors is inside, so no collection runs during an attempt; a
    destructor may make any other request before it is recorded. *)
Definition heap_allowed (R : Machine) (q : heap_request) : Prop :=
  match q with
  | HEnter t => forall T, states R !! t = Some T -> active (thread_roots T) = false
  | HLeave t => exists T, inside R t T
  | HForget t => exists T, states R !! t = Some T /\ active (thread_roots T) = false
  | HAllocator t m => (exists T, inside R t T) /\ layout_wf (meta_layout m) /\ requested_wf (requested_slot_size m) /\
      (Z.of_nat (S (length (classes (data R)))) < usize_max)%Z
  | HAlloc t m edges => (exists T, inside R t T /\ is_Some (thread_classes T !! m)) /\ forall x, x ∈ edges -> edge_ok R x
  | HStore a edges => live_at (data R) a /\ forall x, x ∈ edges -> edge_ok R x
  | HPair p key value => pairs R !! p = None /\ live_at (data R) key /\ live_at (data R) value
  | HRoot t a => (exists T, inside R t T) /\ live_at (data R) a
  | HClone h => exists e, roots_held R !! h = Some e /\ (Z.of_nat (refs e.1 (roots_held R)) <= MAX_REFERENCES)%Z
  | HDrop h => h < length (roots_held R)
  | HCollect => (forall t T, states R !! t = Some T -> active (thread_roots T) = false) /\ attempt (finalizing R) = None /\ (Z.of_nat (lease_epoch R) < u64_max)%Z
  | HBaseline => True
  | HDispatch => attempt (finalizing R) = None
  | HPrepare => attempt (finalizing R) = None /\ dispatch (finalizing R) <> []
  | HDestroy => exists a work, attempt (finalizing R) = Some a /\ next_work a = Some work
  | HComplete => is_Some (attempt (finalizing R))
  end.

Inductive heap_reaches : Machine -> Prop :=
  | heap_reach_new : heap_reaches Machine_new
  | heap_reach_step R q R' : heap_reaches R -> heap_allowed R q -> heap_serve R q = Ok R' -> heap_reaches R'.
End serve.
