(* ===== verification/HeapState.v ===== *)
(** * The invariant of the heap machine

    [machine_ok]: the heap is well formed, its roots are the handles, every edge of
    a live object leads to a live object, the words of the threads' cursors are
    theirs alone, and the destructors that run are those of an attempt on a run of
    the finalization batch, whose words no thread allocates from. *)
From stdpp Require Import base option list numbers gmap sets.
From Stdlib Require Import ZArith Lia.
From S2P Require Import Prelude RootPool RootPoolFacts RunGeometry Bitmaps Arena ArenaFacts Heap HeapFacts.
From S2P Require Import Marking MarkingFacts Sweep SweepFacts SweepPlan SweepArena SweepSteps SweepSafe.
From S2P Require Import SweepCorrect Collection Claim ClaimFacts ClaimRaces Alloc AllocFacts AllocClaims.
From S2P Require Import Allocators Finalize FinalizeFacts HeapMachine.

(** Two cursors at one word. *)
Definition same_word (c c' : AllocationCursor) : Prop := at_cursor c (cursor_location c') (cursor_word c').

(** The cursors of the threads whose records are of the current epoch. *)
Definition current_cursor (ts : gmap nat ThreadHeapState) (e : nat) (t k : nat) (c : AllocationCursor) : Prop :=
  exists T, ts !! t = Some T /\ captured_epoch (thread_roots T) = e /\ cursors T !! k = Some (Some c).

Record cursors_ok (D : ManagedData) (e : nat) (ts : gmap nat ThreadHeapState) : Prop := {
  cu_length : forall t T, ts !! t = Some T -> length (cursors T) = Z.to_nat CACHED_CLASS_SLOTS;
  cu_cache : forall t T, ts !! t = Some T -> captured_epoch (thread_roots T) = e -> cache_ok D (cursors T);
  cu_apart : forall t t' k k' c c', current_cursor ts e t k c -> current_cursor ts e t' k' c' -> same_word c c' -> t = t' /\ k = k';
  cu_classes : forall t T m id, ts !! t = Some T -> thread_classes T !! m = Some id -> classes_by_metadata D !! m = Some id;
}.

(** The destructors that run, and the runs left to dispatch. An attached pending
    word is leased and no current cursor is at it, so a slot stays as it is until
    its destructor has run. *)
Record finalizing_ok (D : ManagedData) (e : nat) (ts : gmap nat ThreadHeapState) (Z : Finalizing) : Prop := {
  fi_running : running_finalizers D = match attempt Z with Some a => length (at_work a) | None => 0 end;
  fi_attempt : forall a, attempt Z = Some a -> exists l F n, batch_runs (finalization_batch D) !! l = Some F /\ attempt_ok F n a /\ l ∉ dispatch Z;
  fi_nodup : NoDup (dispatch Z);
  fi_dispatch : forall l, l ∈ dispatch Z -> is_Some (batch_runs (finalization_batch D) !! l);
  fi_leased : forall l F k, batch_runs (finalization_batch D) !! l = Some F -> is_detached F = false -> is_Some (pending_words F !! k) -> leased_in D l k;
  fi_cursors : forall t k c F, current_cursor ts e t k c -> batch_runs (finalization_batch D) !! cursor_location c = Some F ->
    pending_words F !! cursor_word c = None;
}.

(** The edges of the object at an address. *)
Definition edges_at (R : Machine) (a : Z) : list Visit := default [] (contents R !! a).

Record machine_ok (R : Machine) : Prop := {
  mo_heap : heap_wf (data R);
  mo_typed : classes_typed (data R);
  mo_metadata : metadata_ok (data R);
  mo_roots : roots_ok (root_pool (data R)) (lease_epoch R) (thread_roots <$> states R) (roots_held R);
  mo_live : forall s v, (s, v) ∈ roots_held R -> live_at (data R) v;
  mo_edges : forall a x, live_at (data R) a -> x ∈ edges_at R a -> edge_ok R x;
  mo_cursors : cursors_ok (data R) (lease_epoch R) (states R);
  mo_final : finalizing_ok (data R) (lease_epoch R) (states R) (finalizing R);
}.

(** ** Live objects *)
Lemma live_positive D a : heap_wf D -> live_at D a -> (0 < a)%Z /\ in_range a.
Proof.
  intros HW (o & m & HO & _). destruct (object_owner _ _ _ _ (hw_arena _ HW) HO) as [HOo <-].
  destruct (owner_lookup (E:=Empty_set) _ (hw_arena _ HW) o HOo) as [_ H]. unfold in_range. lia.
Qed.

Lemma live_grown T D D' a : heap_grown T D D' -> live_at D a -> live_at D' a.
Proof.
  intros HG (o & m & HO & Hp). exists o, m. split; [by eapply hg_object|]. unfold is_pending in *. by rewrite (hg_batch _ _ _ HG).
Qed.

Lemma live_same D D' a : same_objects D D' -> finalization_batch D' = finalization_batch D -> live_at D' a <-> live_at D a.
Proof.
  intros HS HB. unfold live_at, live_object, is_pending. rewrite HB. split; intros (o & m & HO & Hp); exists o, m; (split; [by apply HS|done]).
Qed.

(** An edge stays good while live objects and pairs stay. *)
Lemma edge_ok_mono R R' x : (forall a, live_at (data R) a -> live_at (data R') a) -> pairs R ⊆ pairs R' -> edge_ok R x -> edge_ok R' x.
Proof.
  intros HL HP. destruct x as [b|p]; cbn; [apply HL|]. intros (kv & Hp & H). exists kv. split; [by eapply lookup_weaken|]. destruct H as [?|[? ?]]; [by left|right; auto].
Qed.

(** The memory the handles keep: a collection may run on it. *)
Lemma edges_reach R : machine_ok R -> forall a, reachable (trace_of (contents R)) (data R) (pairs R) a -> live_at (data R) a.
Proof.
  intros [HW _ _ HR HL HE _ _] a Ha. destruct (visit_ok _ _ (ro_handles _ _ _ _ HR)) as (_ & Hf & _).
  induction Ha as [a Hr|a o m b Ha IH HO Hb|a o m p key v Ha IH HO Hp Hl Hk IHk].
  - apply list_elem_of_fmap in Hr as ([s v] & -> & Hs). by apply (HL s), Hf.
  - by apply (HE a (VEdge b)).
  - destruct (HE a (VEphemeron p) IH Hp) as ([k0 v0] & Hpk & Hor). unfold load_pair in Hl. rewrite Hpk in Hl. cbn in Hl.
    destruct (Z.eqb_spec k0 0) as [?|Hne]; [done|]. destruct (v0 =? 0)%Z; [done|]. injection Hl as <- <-. by destruct Hor as [?|[_ ?]].
Qed.

Lemma machine_collectable R : machine_ok R -> collectable (trace_of (contents R)) (data R) (pairs R) (roots_held R).
Proof.
  intros HR. pose proof (edges_reach R HR) as Hreach. pose proof HR as [HW _ _ HRo HL HE _]. split; [done|apply HRo|apply HRo|].
  assert (Hheld : forall p, held (trace_of (contents R)) (data R) (pairs R) (root_values (data R)) p -> edge_ok R (VEphemeron p)).
  { intros p (a & o & m & Ha & HO & Hp). by apply (HE a); [apply Hreach|]. }
  split.
  - intros a Ha. assert (Hlive : live_at (data R) a).
    { destruct Ha as [Ha|(p & key & v & Hp & Hl & Hor)]; [by apply Hreach|]. destruct (Hheld p Hp) as ([k0 v0] & Hpk & H). unfold load_pair in Hl. rewrite Hpk in Hl. cbn in Hl.
      destruct (Z.eqb_spec k0 0) as [?|Hne]; [done|]. destruct (v0 =? 0)%Z; [done|]. injection Hl as <- <-. destruct H as [?|[? ?]]; [done|]. by destruct Hor as [-> | ->]. }
    destruct Hlive as (o & m & HO & Hp). exists o, m. split; [done|]. intros Hin. apply (elem_of_pending_list _ HW) in Hin as [_ Hin]. congruence.
  - intros p Hp. destruct (Hheld p Hp) as ([k0 v0] & Hpk & H). unfold load_pair. rewrite Hpk. cbn. destruct (Z.eqb_spec k0 0) as [?|Hne]; [by exists None|].
    destruct H as [?|[_ Hv]]; [done|]. apply (live_positive _ _ HW) in Hv as [Hv _]. cbn in Hv. destruct (Z.eqb_spec v0 0); [lia|]. by eexists.
Qed.

(** ** Cursors *)
Lemma same_word_sym c c' : same_word c c' -> same_word c' c.
Proof. intros [H1 H2]. by split. Qed.

Lemma cursors_update D D' e ts t T : cursors_ok D e ts -> classes_by_metadata D ⊆ classes_by_metadata D' ->
  (forall t' k c, t' <> t -> current_cursor ts e t' k c -> cursor_ok D' c) ->
  length (cursors T) = Z.to_nat CACHED_CLASS_SLOTS -> (captured_epoch (thread_roots T) = e -> cache_ok D' (cursors T)) ->
  (captured_epoch (thread_roots T) = e -> forall k c, cursors T !! k = Some (Some c) ->
     (forall t' k' c', t' <> t -> current_cursor ts e t' k' c' -> ~ same_word c c') /\
     (forall k' c', cursors T !! k' = Some (Some c') -> same_word c c' -> k = k')) ->
  (forall m id, thread_classes T !! m = Some id -> classes_by_metadata D' !! m = Some id) -> cursors_ok D' e (<[t := T]> ts).
Proof.
  intros [C1 C2 C3 C4] HM Hold HL HT HA HC.
  assert (Hcur : forall t' k c, current_cursor (<[t := T]> ts) e t' k c -> (t' = t /\ captured_epoch (thread_roots T) = e /\ cursors T !! k = Some (Some c)) \/ (t' <> t /\ current_cursor ts e t' k c)).
  { intros t' k c (T' & [[<- <-]|[Hne HT']]%lookup_insert_Some & He & Hk); [by left|right]. split; [done|]. by exists T'. }
  split.
  - intros t' T' [[<- <-]|[Hne HT']]%lookup_insert_Some; [done|by eapply C1].
  - intros t' T' [[<- <-]|[Hne HT']]%lookup_insert_Some He; [by apply HT|]. destruct (C2 t' T' HT' He) as [H1 H2]. split; [done|].
    intros k c Hk. split; [|by apply H2]. apply (Hold t' k); [done|]. by exists T'.
  - intros t1 t2 k1 k2 c1 c2 [(-> & He & H1)|[N1 H1]]%Hcur [(-> & He' & H2)|[N2 H2]]%Hcur HS.
    + split; [done|]. by apply (proj2 (HA He k1 c1 H1) k2 c2).
    + exfalso. by apply (proj1 (HA He k1 c1 H1) t2 k2 c2 N2 H2).
    + exfalso. apply (proj1 (HA He' k2 c2 H2) t1 k1 c1 N1 H1). by apply same_word_sym.
    + by eapply C3.
  - intros t' T' m id [[<- <-]|[Hne HT']]%lookup_insert_Some Hm; [by apply HC|]. eapply lookup_weaken; [|exact HM]. by eapply C4.
Qed.

(** Nothing the current cursors rely on has changed. *)
Lemma cursors_reframe D D' e ts : cursors_ok D e ts -> (forall t k c, current_cursor ts e t k c -> cursor_ok D' c) ->
  classes_by_metadata D ⊆ classes_by_metadata D' -> cursors_ok D' e ts.
Proof.
  intros [C1 C2 C3 C4] HC HM. split; [done| |done|].
  - intros t T HT He. destruct (C2 t T HT He) as [H1 H2]. split; [done|]. intros k c Hk. split; [apply (HC t k); by exists T|by apply (H2 k)].
  - intros t T m id HT Hm. eapply lookup_weaken; [|exact HM]. by eapply C4.
Qed.

Lemma cursors_frame D D' e ts : cursors_ok D e ts -> (forall c, cursor_ok D c -> cursor_ok D' c) -> classes_by_metadata D ⊆ classes_by_metadata D' -> cursors_ok D' e ts.
Proof.
  intros HC HK. apply cursors_reframe; [done|]. intros t k c (T & HT & He & Hk). destruct (cu_cache _ _ _ HC t T HT He) as [_ H]. by apply HK, (H k).
Qed.

Lemma clear_lookup cache k c : clear cache !! k = Some (Some c) -> False.
Proof.
  intros H. pose proof (eq_trans (eq_sym (list_lookup_fmap (fun _ => None) cache k)) H) as E. by destruct ((cache : list (option AllocationCursor)) !! k).
Qed.

Lemma current_cursor_ok D e ts t k c : cursors_ok D e ts -> current_cursor ts e t k c -> cursor_ok D c.
Proof. intros HC (T & HT & He & Hk). by apply (ca_cursor _ _ (cu_cache _ _ _ HC t T HT He) k). Qed.

(** ** Destructors *)

(** The cursors are the old ones, or at words that were not leased. *)
Definition cursors_from (D : ManagedData) (e : nat) (ts ts' : gmap nat ThreadHeapState) : Prop := forall t k c, current_cursor ts' e t k c ->
  (exists t0 k0 c0, current_cursor ts e t0 k0 c0 /\ same_word c c0) \/ ~ leased_in D (cursor_location c) (cursor_word c).

Lemma cursors_from_old D e ts ts' : (forall t k c, current_cursor ts' e t k c -> current_cursor ts e t k c) -> cursors_from D e ts ts'.
Proof. intros H t k c Hc. left. exists t, k, c. split; [by apply H|done]. Qed.

Lemma finalizing_kept D D' e ts ts' Z : finalizing_ok D e ts Z -> heap_wf D' -> cursors_ok D' e ts' ->
  finalization_batch D' = finalization_batch D -> running_finalizers D' = running_finalizers D -> (forall l k, leased_in D l k -> leased_in D' l k) ->
  cursors_from D e ts ts' -> finalizing_ok D' e ts' Z.
Proof.
  intros [F1 F2 F3 F4 F5 F6] HW' HC' HB HRu HL HF. split; rewrite ?HB, ?HRu; try done.
  - intros l F k HlF Hd Hk. by apply HL, (F5 l F).
  - intros t k c F Hc HlF. destruct (HF t k c Hc) as [(t0 & k0 & c0 & Hc0 & [El Ew])|Hn].
    + rewrite <- El in HlF. rewrite <- Ew. by apply (F6 t0 k0 c0).
    + destruct (pending_words F !! cursor_word c) as [w|] eqn:Ew; [|done]. exfalso. apply Hn. apply (F5 _ F); [done| |by exists w].
      destruct (current_cursor_ok _ _ _ _ _ _ HC' Hc) as (i & C & t' & _ & HCl & Ht & Hl & _). rewrite <- HB, Hl in HlF.
      by apply (batch_attached _ HW' i C t').
Qed.
