(* ===== verification/HeapSteps.v ===== *)
(** * The requests that keep the heap's objects, allocate, and collect

    Each allowed request of a thread, a handle or a collection is served and keeps
    [machine_ok]. *)
From stdpp Require Import base option list numbers gmap sets.
From Stdlib Require Import ZArith Lia.
From S2P Require Import Prelude RootPool RootPoolFacts RunGeometry Bitmaps Arena ArenaFacts Heap HeapFacts.
From S2P Require Import Marking MarkingFacts Sweep SweepFacts SweepPlan SweepArena SweepSteps SweepSafe.
From S2P Require Import SweepCorrect Collection Claim ClaimFacts ClaimRaces Alloc AllocFacts AllocClaims.
From S2P Require Import Allocators Finalize FinalizeFacts HeapMachine HeapState FinalizeRun FinalizeSteps.

(** ** Requests *)
Section requests.
Context (allocate_memory : list Z -> option Z) (HA : allocator_ok allocate_memory) (heap : HeapId).
Context (R : Machine) (HR : machine_ok R).

Lemma thread_root t T : states R !! t = Some T -> (thread_roots <$> states R) !! t = Some (thread_roots T).
Proof. intros HT. by rewrite lookup_fmap, HT. Qed.

Lemma inside_current t T : inside R t T -> captured_epoch (thread_roots T) = lease_epoch R.
Proof. intros [HT Ha]. apply (ro_epochs _ _ _ _ (mo_roots _ HR) t); [by apply thread_root|done]. Qed.

(** Changes of the pool, the threads and the handles only. *)
Lemma pool_heap D P : heap_wf D -> heap_wf (with_pool D P).
Proof. intros [H1 H2 H3 H4 H5 H6 H7 H8 H9 H10]. by split. Qed.

Lemma pool_ok P ts hs : roots_ok P (lease_epoch R) (thread_roots <$> ts) hs -> cursors_ok (data R) (lease_epoch R) ts ->
  cursors_from (data R) (lease_epoch R) (states R) ts -> (forall s v, (s, v) ∈ hs -> live_at (data R) v) ->
  machine_ok (MkMachine (with_pool (data R) P) (lease_epoch R) ts hs (contents R) (pairs R) (requested R) (finalizing R)).
Proof.
  intros HP HC HFr HL. pose proof HR as [HW HT HM _ _ HE _ HFi].
  assert (HC' : cursors_ok (with_pool (data R) P) (lease_epoch R) ts) by (by apply (cursors_frame (data R))).
  split; cbn [data lease_epoch states roots_held]; [by apply pool_heap|done|done|done|done| |done|].
  - intros a x Ha Hx. exact (HE a x Ha Hx).
  - by eapply finalizing_kept; [exact HFi|apply pool_heap|..].
Qed.

(** The request the root pool sees. *)
Definition roots_of (R : Machine) : Roots := MkRoots (root_pool (data R)) (lease_epoch R) (thread_roots <$> states R) (roots_held R).

Lemma pool_same : with_pool (data R) (root_pool (data R)) = data R.
Proof. by destruct (data R). Qed.

(** *** Threads *)
Lemma rethread_ok t T : roots_ok (root_pool (data R)) (lease_epoch R) (thread_roots <$> <[t := T]> (states R)) (roots_held R) ->
  cursors_ok (data R) (lease_epoch R) (<[t := T]> (states R)) -> cursors_from (data R) (lease_epoch R) (states R) (<[t := T]> (states R)) ->
  machine_ok (MkMachine (data R) (lease_epoch R) (<[t := T]> (states R)) (roots_held R) (contents R) (pairs R) (requested R) (finalizing R)).
Proof. intros H1 H2 H3. rewrite <- pool_same. apply pool_ok; [done|done|done|]. apply (mo_live _ HR). Qed.

Lemma default_roots t : thread_roots (default (ThreadHeapState_new (lease_epoch R)) (states R !! t)) =
  default (MkThread false (lease_epoch R) None None) ((thread_roots <$> states R) !! t).
Proof. rewrite lookup_fmap. by destruct (states R !! t). Qed.

Lemma cursors_same t T T' : states R !! t = Some T -> thread_classes T' = thread_classes T -> length (cursors T') = Z.to_nat CACHED_CLASS_SLOTS ->
  (forall k c, cursors T' !! k = Some (Some c) -> captured_epoch (thread_roots T') = lease_epoch R ->
     captured_epoch (thread_roots T) = lease_epoch R /\ cursors T !! k = Some (Some c)) ->
  cursors_ok (data R) (lease_epoch R) (<[t := T']> (states R)) /\ cursors_from (data R) (lease_epoch R) (states R) (<[t := T']> (states R)).
Proof.
  intros HT HCl HL HC. pose proof (mo_cursors _ HR) as HCu. pose proof HCu as [C1 C2 C3 C4].
  assert (Hcur : forall k c, captured_epoch (thread_roots T') = lease_epoch R -> cursors T' !! k = Some (Some c) -> current_cursor (states R) (lease_epoch R) t k c).
  { intros k c He Hk. destruct (HC k c Hk He). by exists T. }
  split; [|apply cursors_from_old; intros t' k c (T1 & [[<- <-]|[Hne HT1]]%lookup_insert_Some & H1 & H2); [by apply Hcur|by exists T1]].
  eapply cursors_update; [exact HCu|done| |done| | |].
  - intros t' k c _ Hc. by eapply current_cursor_ok.
  - intros He. split; [done|]. intros k c Hk. destruct (HC k c Hk He) as [He' Hk']. by apply (C2 t T HT He').
  - intros He k c Hk. split.
    + intros t' k' c' Hne Hc' HS. destruct (C3 t t' k k' c c' (Hcur k c He Hk) Hc' HS). congruence.
    + intros k' c' Hk' HS. by destruct (C3 t t k k' c c' (Hcur k c He Hk) (Hcur k' c' He Hk') HS).
  - intros m id. rewrite HCl. by apply (C4 t T).
Qed.

Lemma enter_cursors t : let T := default (ThreadHeapState_new (lease_epoch R)) (states R !! t) in
  let ts := <[t := thread_activate T (lease_epoch R)]> (states R) in
  cursors_ok (data R) (lease_epoch R) ts /\ cursors_from (data R) (lease_epoch R) (states R) ts.
Proof.
  intros T. pose proof (mo_cursors _ HR) as HCu. destruct (states R !! t) as [T0|] eqn:HT.
  - change T with T0. apply (cursors_same t T0); [done|done| |]; cbn.
    + pose proof (cu_length _ _ _ HCu t T0 HT). case_decide; [done|]. unfold clear. by rewrite length_fmap.
    + intros k c Hk _. case_decide; [done|]. by apply clear_lookup in Hk.
  - change T with (ThreadHeapState_new (lease_epoch R)). unfold thread_activate. cbn [thread_roots captured_epoch ThreadHeapState_new]. rewrite decide_True by done.
    assert (Hno : forall k c, ClassCursorCache_default !! k = Some (Some c) -> False) by (intros k c Hk; by apply lookup_replicate in Hk as [? _]).
    split.
    + eapply cursors_update; [exact HCu|done| |apply length_replicate| | |].
      * intros t' k c _ Hc. by eapply current_cursor_ok.
      * intros _. apply default_cache_ok.
      * intros _ k c Hk. by apply Hno in Hk.
      * intros m id Hm. cbn in Hm. by apply lookup_empty_Some in Hm.
    + apply cursors_from_old. intros t' k c (T1 & [[<- <-]|[Hne HT1]]%lookup_insert_Some & H1 & H2); [by apply Hno in H2|by exists T1].
Qed.

Lemma enter_step t : heap_allowed R (HEnter t) -> exists R', heap_serve allocate_memory heap R (HEnter t) = Ok R' /\ machine_ok R'.
Proof.
  intros Ha. cbn in Ha |- *. eexists. split; [done|]. set (T := default _ _). apply rethread_ok.
  - destruct (serve_ok heap (roots_of R) (Enter t) (mo_roots _ HR)) as (R' & Hs & HI & _).
    { intros T0. cbn. rewrite lookup_fmap. intros (T1 & HT & ->)%fmap_Some. by apply Ha. }
    cbn in Hs. injection Hs as <-. cbn in HI. unfold roots_inv in HI. cbn in HI. rewrite fmap_insert. cbn. unfold T. by rewrite default_roots.
  - apply enter_cursors.
  - apply enter_cursors.
Qed.
Lemma leave_cursors t T : states R !! t = Some T -> let ts := <[t := thread_deactivate T]> (states R) in
  cursors_ok (data R) (lease_epoch R) ts /\ cursors_from (data R) (lease_epoch R) (states R) ts.
Proof. intros HT. apply (cursors_same t T); [done|done|exact (cu_length _ _ _ (mo_cursors _ HR) t T HT)|done]. Qed.

Lemma leave_ok t : heap_allowed R (HLeave t) -> exists R', heap_serve allocate_memory heap R (HLeave t) = Ok R' /\ machine_ok R'.
Proof.
  intros (T & HT & Ha). cbn. rewrite HT. cbn. eexists. split; [done|]. apply rethread_ok.
  - destruct (serve_ok heap (roots_of R) (Leave t) (mo_roots _ HR)) as (R' & Hs & HI & _); [exists (thread_roots T); split; [by apply thread_root|done]|].
    cbn in Hs. rewrite (thread_root t T HT) in Hs. cbn in Hs. injection Hs as <-. by rewrite fmap_insert.
  - by apply (leave_cursors t T).
  - by apply (leave_cursors t T).
Qed.

Lemma forget_cursor t t' k c : current_cursor (delete t (states R)) (lease_epoch R) t' k c -> current_cursor (states R) (lease_epoch R) t' k c.
Proof. intros (T' & [_ HT']%lookup_delete_Some & H). by exists T'. Qed.

Lemma forget_ok t : heap_allowed R (HForget t) -> exists R', heap_serve allocate_memory heap R (HForget t) = Ok R' /\ machine_ok R'.
Proof.
  intros (T & HT & Ha). cbn. eexists. split; [done|]. rewrite <- pool_same. apply pool_ok; [| | |apply (mo_live _ HR)].
  - destruct (serve_ok heap (roots_of R) (Forget t) (mo_roots _ HR)) as (R' & Hs & HI & _); [exists (thread_roots T); split; [by apply thread_root|done]|].
    cbn in Hs. injection Hs as <-. by rewrite fmap_delete.
  - destruct (mo_cursors _ HR) as [C1 C2 C3 C4]. pose proof (forget_cursor t) as Hcur.
    split; [intros t' T' [_ H]%lookup_delete_Some; by eapply C1|intros t' T' [_ H]%lookup_delete_Some; by eapply C2| |intros t' T' m id [_ H]%lookup_delete_Some; by eapply C4].
    intros t1 t2 k1 k2 c1 c2 H1%Hcur H2%Hcur. by eapply C3.
  - apply cursors_from_old, forget_cursor.
Qed.

(** *** Handles *)
Lemma root_cursors t T T' : inside R t T -> let ts := <[t := with_roots T T']> (states R) in
  cursors_ok (data R) (lease_epoch R) ts /\ cursors_from (data R) (lease_epoch R) (states R) ts.
Proof.
  intros [HT Ha]. apply (cursors_same t T); [done|done|exact (cu_length _ _ _ (mo_cursors _ HR) t T HT)|]. intros k c Hk _. split; [by eapply inside_current|done].
Qed.

Lemma root_ok t a : heap_allowed R (HRoot t a) -> exists R' s, heap_serve allocate_memory heap R (HRoot t a) = Ok R' /\ machine_ok R' /\
  roots_held R' = (s, a) :: roots_held R /\ refs s (roots_held R) = 0.
Proof.
  intros ((T & HT & Ha) & Hl). cbn. rewrite HT. cbn [expect mbind outcome_bind]. unfold register_root.
  destruct (register_spec heap _ _ _ _ t (thread_roots T) a (mo_roots _ HR)) as (P & T' & s & -> & H0 & HP); [by apply thread_root|done|].
  cbn [mbind outcome_bind]. eexists _, s. split; [done|]. split; [|done]. apply pool_ok.
  - by rewrite fmap_insert.
  - by apply (root_cursors t T).
  - by apply (root_cursors t T).
  - intros s' v [[= -> ->]|Hin]%elem_of_cons; [done|by eapply (mo_live _ HR)].
Qed.

Lemma clone_ok h : heap_allowed R (HClone h) -> exists R', heap_serve allocate_memory heap R (HClone h) = Ok R' /\ machine_ok R'.
Proof.
  intros (e & He & Hroom). destruct (serve_ok heap (roots_of R) (Clone h) (mo_roots _ HR)) as (R' & Hs & HI & _); [by exists e|].
  cbn in Hs |- *. rewrite (proj2 (vec_get_Ok _ _ _) He) in Hs |- *. cbn [mbind outcome_bind] in Hs |- *.
  destruct (retain _ _) as [P| | |]; [|done..]. cbn in Hs |- *. injection Hs as <-. eexists. split; [done|]. apply pool_ok; [exact HI|apply (mo_cursors _ HR)|by apply cursors_from_old|].
  intros s v [<-|Hin]%elem_of_cons; [eapply (mo_live _ HR s); by eapply list_elem_of_lookup_2|by eapply (mo_live _ HR)].
Qed.

Lemma drop_ok h : heap_allowed R (HDrop h) -> exists R', heap_serve allocate_memory heap R (HDrop h) = Ok R' /\ machine_ok R'.
Proof.
  intros Hh. destruct (serve_ok heap (roots_of R) (Drop h) (mo_roots _ HR)) as (R' & Hs & HI & _); [done|].
  cbn in Hs |- *. destruct (lookup_lt_is_Some_2 _ _ Hh) as [e He]. rewrite (proj2 (vec_get_Ok _ _ _) He) in Hs |- *. cbn [mbind outcome_bind] in Hs |- *.
  destruct (release _ _) as [P| | |]; [|done..]. cbn in Hs |- *. injection Hs as <-. eexists. split; [done|]. apply pool_ok; [exact HI|apply (mo_cursors _ HR)|by apply cursors_from_old|].
  intros s v Hin. apply (mo_live _ HR s). rewrite (delete_Permutation _ _ _ He). by right.
Qed.

(** *** Contents *)
Lemma store_ok a edges : heap_allowed R (HStore a edges) -> exists R', heap_serve allocate_memory heap R (HStore a edges) = Ok R' /\ machine_ok R'.
Proof.
  intros [Hl He]. cbn. eexists. split; [done|]. pose proof HR as [HW HT HM HRo HL HE HC HFi]. split; cbn [data lease_epoch states roots_held]; try done.
  intros b x Hb Hx. assert (edge_ok R x); [|by destruct x]. unfold edges_at in Hx. cbn [contents] in Hx. destruct (decide (b = a)) as [->|Hne].
  - rewrite lookup_insert_eq in Hx. by apply He.
  - rewrite lookup_insert_ne in Hx by done. by apply (HE b).
Qed.

Lemma pair_ok p key value : heap_allowed R (HPair p key value) -> exists R', heap_serve allocate_memory heap R (HPair p key value) = Ok R' /\ machine_ok R'.
Proof.
  intros (Hn & Hk & Hv). cbn. eexists. split; [done|]. pose proof HR as [HW HT HM HRo HL HE HC HFi]. split; cbn [data lease_epoch states roots_held]; try done.
  intros b x Hb Hx. eapply edge_ok_mono; [| |by apply (HE b)]; [done|]. by apply insert_subseteq.
Qed.

(** *** Allocation *)

(** A thread has resolved a class. *)
Lemma classed_cursor t T T' : states R !! t = Some T -> thread_roots T' = thread_roots T -> cursors T' = cursors T ->
  forall t' k c, current_cursor (<[t := T']> (states R)) (lease_epoch R) t' k c -> current_cursor (states R) (lease_epoch R) t' k c.
Proof.
  intros HT Er Ec t' k c (T1 & [[<- <-]|[Hne HT1]]%lookup_insert_Some & H1 & H2); [exists T|by exists T1]. by rewrite <- Er, <- Ec.
Qed.

Lemma classed_cursors D t T T' : cursors_ok D (lease_epoch R) (states R) -> states R !! t = Some T -> thread_roots T' = thread_roots T -> cursors T' = cursors T ->
  (forall m id, thread_classes T' !! m = Some id -> classes_by_metadata D !! m = Some id) -> cursors_ok D (lease_epoch R) (<[t := T']> (states R)).
Proof.
  intros [C1 C2 C3 C4] HT Er Ec Hcl. pose proof (classed_cursor t T T' HT Er Ec) as Hcur. split.
  - intros t' T1 [[<- <-]|[Hne HT1]]%lookup_insert_Some; [rewrite Ec; by apply (C1 t T)|by apply (C1 t' T1)].
  - intros t' T1 [[<- <-]|[Hne HT1]]%lookup_insert_Some He; [rewrite Ec; apply (C2 t T); [done|by rewrite <- Er]|by apply (C2 t' T1)].
  - intros t1 t2 k1 k2 c1 c2 H1%Hcur H2%Hcur. by eapply C3.
  - intros t' T1 m id [[<- <-]|[Hne HT1]]%lookup_insert_Some; [apply Hcl|by apply (C4 t' T1)].
Qed.

(** A heap with the objects of [data R]. *)
Lemma grown_ok D t T : heap_wf D -> classes_typed D -> metadata_ok D -> heap_grown untouched (data R) D -> same_objects (data R) D ->
  classes_by_metadata (data R) ⊆ classes_by_metadata D -> states R !! t = Some T -> forall T', thread_roots T' = thread_roots T -> cursors T' = cursors T ->
  (forall m id, thread_classes T' !! m = Some id -> classes_by_metadata D !! m = Some id) ->
  machine_ok (MkMachine D (lease_epoch R) (<[t := T']> (states R)) (roots_held R) (contents R) (pairs R) (requested R) (finalizing R)).
Proof.
  intros HW HT HM HG HS Hsub HTt T' Er Ec Hcl. pose proof HR as [HW0 HT0 HM0 HRo HL HE HC HFi].
  assert (Hlive : forall a, live_at (data R) a <-> live_at D a) by (intros a; symmetry; by apply live_same, HG).
  split; cbn [data lease_epoch states roots_held]; try done.
  - rewrite (hg_pool _ _ _ HG), fmap_insert, Er, insert_id by (by apply thread_root). done.
  - intros s v Hin. apply Hlive. by eapply HL.
  - intros a x Ha Hx. eapply edge_ok_mono; [| |apply (HE a x); [by apply Hlive|exact Hx]]; [|done]. intros b. apply Hlive.
  - assert (Hco : forall c, cursor_ok (data R) c -> cursor_ok D c) by (intros c; apply (cursor_ok_grown untouched); auto).
    by apply (classed_cursors D t T T' (cursors_frame _ D _ _ HC Hco Hsub)).
  - eapply finalizing_kept; [exact HFi|done| |by apply HG|by apply HG| |].
    + assert (Hco : forall c, cursor_ok (data R) c -> cursor_ok D c) by (intros c; apply (cursor_ok_grown untouched); auto).
      by apply (classed_cursors D t T T' (cursors_frame _ D _ _ HC Hco Hsub)).
    + intros l k. by apply (leased_grown untouched).
    + by apply cursors_from_old, (classed_cursor t T).
Qed.

Lemma allocator_ok_step t m : heap_allowed R (HAllocator t m) -> exists R', heap_serve allocate_memory heap R (HAllocator t m) = Ok R' /\ machine_ok R'.
Proof.
  intros ((T & HT & Ha) & HL & Hr & Hn). cbn. rewrite HT. cbn [expect mbind outcome_bind]. unfold thread_allocator.
  pose proof HR as [HW HTy HM _ _ _ HC _].
  destruct (thread_classes T !! m) as [id|] eqn:Em.
  - eexists. split; [done|]. apply (grown_ok (data R) t T); try done. intros m' id'. by apply (cu_classes _ _ _ HC t T).
  - destruct (allocator_result (data R) m HW HTy HM HL Hr Hn) as [(e & -> & _)|(D & class & -> & (i & C & HCi & Hm & ->) & HW' & HT' & HM' & HG & HS & Hsub)]; cbn [mbind outcome_bind fst snd].
    + by exists R.
    + eexists. split; [done|]. apply (grown_ok D t T); try done. intros m' id' Hm'. cbn in Hm'. apply lookup_insert_Some in Hm' as [[<- <-]|[Hne Hm']].
      * apply HM'. by exists i, C.
      * eapply lookup_weaken; [|exact Hsub]. by apply (cu_classes _ _ _ HC t T).
Qed.

(** The thread's cursor for a class is now [c], whose word it had or nobody leased. *)
Lemma allocated_cursors t T cls c D' : inside R t T -> cursor_class c = cls -> cursor_ok D' c -> heap_grown (at_cursor c) (data R) D' ->
  (exists c0, cached (cursors T) cls c0 /\ same_cursor c0 c) \/ ~ leased_in (data R) (cursor_location c) (cursor_word c) ->
  classes_by_metadata D' = classes_by_metadata (data R) -> let ts := <[t := with_cursors T (<[cursor_slot cls := Some c]> (cursors T))]> (states R) in
  cursors_ok D' (lease_epoch R) ts /\ cursors_from (data R) (lease_epoch R) (states R) ts.
Proof.
  intros HI Hcl Hcok HG Hwhere HMd. pose proof HI as [HT Ha]. pose proof (inside_current t T HI) as Hep.
  pose proof HR as [HW _ _ _ _ _ HC _]. pose proof HC as [C1 C2 C3 C4]. pose proof (C2 t T HT Hep) as HCa.
  (* The word of the cursor is no other cursor's. *)
  assert (Hown : forall t' k' c', current_cursor (states R) (lease_epoch R) t' k' c' -> same_word c c' -> t' = t /\ k' = cursor_slot cls).
  { intros t' k' c' Hc' [El Ew]. destruct Hwhere as [(c0 & [Hk0 _] & (_ & El0 & _ & _ & Ew0))|Hn].
    - apply (C3 t' t k' (cursor_slot cls) c' c0); [done|by exists T|]. split; congruence.
    - exfalso. apply Hn. rewrite <- El, <- Ew. by eapply cursor_leased, current_cursor_ok. }
  assert (Hold : forall t' k' c', current_cursor (states R) (lease_epoch R) t' k' c' -> (t' <> t \/ k' <> cursor_slot cls) -> cursor_ok D' c').
  { intros t' k' c' Hc' Hne. apply (cursor_ok_grown (at_cursor c) (data R)); [done|done| |by eapply current_cursor_ok].
    intros [El Ew]. destruct (Hown t' k' c' Hc'); [by split|]. naive_solver. }
  assert (Hcache : forall k c', <[cursor_slot cls := Some c]> (cursors T) !! k = Some (Some c') -> (k = cursor_slot cls /\ c' = c) \/ (k <> cursor_slot cls /\ cursors T !! k = Some (Some c'))).
  { intros k c' [(<- & [= <-] & _)|[Hne Hk]]%list_lookup_insert_Some; [by left|by right]. }
  split.
  - eapply cursors_update; [exact HC|by rewrite HMd| | | | |].
    + intros t' k' c' Hne Hc'. eapply Hold; [done|by left].
    + cbn. rewrite (length_insert (A:=option AllocationCursor)). by apply (C1 t T).
    + intros _. cbn. split; [rewrite (length_insert (A:=option AllocationCursor)); by apply (C1 t T)|]. intros k c' [[-> ->]|[Hne Hk]]%Hcache; [by rewrite Hcl|].
      split; [eapply Hold; [by exists T|by right]|by apply (ca_cursor _ _ HCa)].
    + intros _ k c1 [[-> ->]|[Hne Hk]]%Hcache; split.
      * intros t' k' c' Hne Hc' HS. by destruct (Hown t' k' c' Hc' HS).
      * intros k' c' [[-> ->]|[Hne Hk']]%Hcache HS; [done|]. destruct (Hown t k' c'); [by exists T|done|done].
      * intros t' k' c' Hnt Hc' HS. destruct (C3 t t' k k' c1 c'); [by exists T|done|done|done].
      * intros k' c' [[-> ->]|[Hne' Hk']]%Hcache HS; [|by destruct (C3 t t k k' c1 c'); [exists T|exists T|..]].
        exfalso. apply Hne. by destruct (Hown t k c1); [exists T|apply same_word_sym|].
    + intros m' id' Hm'. rewrite HMd. by apply (C4 t T).
  - intros t' k c' (T1 & [[<- <-]|[Hne HT1]]%lookup_insert_Some & He & Hk); [|left; by exists t', k, c'; split; [exists T1|]].
    apply Hcache in Hk as [[-> ->]|[Hne Hk]]; [|left; by exists t, k, c'; split; [exists T|]].
    destruct Hwhere as [(c0 & [Hk0 _] & (_ & El0 & _ & _ & Ew0))|Hn]; [left|by right]. exists t, (cursor_slot cls), c0. split; [by exists T|]. by split.
Qed.

(** What an allocation returns. *)
Definition alloc_result (m : ObjectMetadata) (edges : list Visit) (R' : Machine) : Prop :=
  exists a o, one_more (data R) (data R') a o m /\ is_pending (data R') o = false /\ contents R' = <[a := edges]> (contents R) /\
    pairs R' = pairs R /\ roots_held R' = roots_held R.

Lemma alloc_step t m edges : heap_allowed R (HAlloc t m edges) ->
  (exists D', out_of_memory allocate_memory D' /\ heap_kept (data R) D' /\ heap_serve allocate_memory heap R (HAlloc t m edges) = Panic) \/
  exists R', heap_serve allocate_memory heap R (HAlloc t m edges) = Ok R' /\ machine_ok R' /\ alloc_result m edges R'.
Proof.
  intros [(T & HI & [id Hid]) He]. pose proof HI as [HT Ha]. pose proof (inside_current t T HI) as Hep. cbn. rewrite HT. cbn [expect mbind outcome_bind]. rewrite Hid. cbn [expect mbind outcome_bind].
  pose proof HR as [HW HTy HM HRo HL HE HC HFi]. pose proof HC as [C1 C2 C3 C4]. pose proof (C4 t T m id HT Hid) as Hm. apply HM in Hm as (i & C & -> & HCi & <-).
  pose proof (C2 t T HT Hep) as HCa.
  destruct (alloc_ok allocate_memory HA (data R) (cursors T) i C _ HW HTy HCa HCi eq_refl) as [(D' & HK & Ho & ->)|(D' & cache' & pressed & a & -> & [HW' (o & HO) HK HMd Hcur])].
  { left. by exists D'. }
  right. cbn [mbind outcome_bind]. destruct Hcur as (c & -> & Hcl & Hcok & HG & Hwhere). pose proof HO as (Ha0 & Hfree & Hnp & Hobj).
  assert (Hmono : forall b, live_at (data R) b -> live_at D' b) by (intros b; by eapply live_grown).
  assert (Hback : forall b, live_at D' b -> live_at (data R) b \/ b = a).
  { intros b (o' & m' & [Hob|(-> & _)]%Hobj & Hp); [left|by right]. exists o', m'. split; [done|]. unfold is_pending in *. by rewrite <- (hg_batch _ _ _ HG). }
  assert (Hsub : classes_by_metadata (data R) ⊆ classes_by_metadata D') by (by rewrite HMd).
  destruct (allocated_cursors t T (cid i) c D' (conj HT Ha)) as [HC' HFr]; [done..|by rewrite HMd|].
  eexists. split; [done|]. split; [|by exists a, o].
  split; cbn [data lease_epoch states roots_held]; [done|by eapply keys_typed|by eapply keys_metadata| | | |done|].
  - rewrite (hg_pool _ _ _ HG), fmap_insert. cbn. rewrite insert_id by (by apply thread_root). done.
  - intros s v Hin. apply Hmono. by eapply HL.
  - intros b x Hb Hx. unfold edges_at in Hx. cbn [contents data] in Hx, Hb. eapply (edge_ok_mono R); [exact Hmono|done|]. destruct (decide (b = a)) as [->|Hne].
    + rewrite lookup_insert_eq in Hx. by apply He.
    + rewrite lookup_insert_ne in Hx by done. apply (HE b); [|done]. by destruct (Hback b Hb).
  - eapply finalizing_kept; [exact HFi|done|done|by apply HG|by apply HG| |done]. intros l k. by eapply leased_grown.
Qed.

(** *** Collections *)
Lemma next_epoch_ok e : (Z.of_nat e < u64_max)%Z -> next_epoch e = Ok (e + 1).
Proof. intros He. unfold next_epoch. rewrite checked_add_fits by (unfold usize_max; lia). cbn. f_equal. lia. Qed.

Definition collect_result (R' : Machine) : Prop :=
  collected_heap (trace_of (contents R)) (data R) (data R') (pairs R) (pairs R') /\ contents R' = contents R /\ roots_held R' = roots_held R.

(** After a collection no thread's record is current. *)
Lemma old_records t T : states R !! t = Some T -> captured_epoch (thread_roots T) <> lease_epoch R + 1.
Proof. intros HT He. destruct (ro_epochs _ _ _ _ (mo_roots _ HR) t (thread_roots T)) as [Hle _]; [by apply thread_root|]. lia. Qed.

(** A collection leaves the words with pending slots leased. *)
Lemma collected_leased trace_of D D' ps ps' l F k : heap_wf D' -> collected_heap trace_of D D' ps ps' -> batch_runs (finalization_batch D') !! l = Some F ->
  is_detached F = false -> is_Some (pending_words F !! k) -> leased_in D' l k.
Proof.
  intros HW HK HF Hd [w Hw]. pose proof (hw_batch _ HW _ _ HF) as HB. destruct (bf_class _ _ _ _ HB) as (i & C & Hi & HCl & _ & _ & _ & Ht). rewrite Hd in Ht.
  destruct (bf_target _ _ _ _ HB) as [(r & HT) _]. pose proof HT as (Hr & _). destruct (typed_wf _ (hw_arena _ HW) _ _ _ _ HT) as [HG _]. destruct (bf_words _ _ _ _ HB k w Hw) as [Hword Hne]. destruct (trailing_zeros_spec w Hword Hne) as (Hb & Hbit & _).
  set (b := trailing_zeros w) in *. destruct (index_join k b Hb) as [Hdiv Hmod].
  assert (Hs : (Z.of_nat k * 64 + b)%Z ∈ pending_slots F).
  { apply elem_of_pending_slots; [apply HB|]. split; [lia|]. unfold pending_bit. by rewrite Hdiv, Hmod, Nat2Z.id, Hw. }
  destruct (bf_pending _ _ _ _ HB _ Hs) as [Hlt Hal].
  assert (Hlen : (Z.of_nat k < word_len (allocation_bitmap (target_geometry (run_target F))))%Z).
  { destruct (geometry_facts _ HG) as (_ & _ & _ & _ & _ & -> & _). assert (Hr0 : (0 <= Z.of_nat k * 64 + b < slot_count (target_geometry (run_target F)))%Z) by lia. destruct (bitmap_index _ _ Hr0) as [H _]. by rewrite Hdiv, Nat2Z.id in H. }
  exists i, C, (run_target F), r. split; [done|]. split; [done|]. split; [apply HB|]. split; [done|]. rewrite (bf_location _ _ _ _ HB) in Hr. split; [done|].
  apply not_false_iff_true. intros Hfree. destruct (proj1 (ch_open _ _ _ _ _ HK i C (run_target F) k HCl Ht Hlen)) as [_ Hnp].
  - exists r. by rewrite (bf_location _ _ _ _ HB).
  - apply Hnp. exists (Z.of_nat k * 64 + b)%Z. split; [lia|]. split; [by rewrite Hdiv, Nat2Z.id|].
    unfold is_pending. cbn [owner_location run_owner]. rewrite (bf_location _ _ _ _ HB), HF. apply contains_owner_iff; [apply HB|cbn; lia|].
    eexists. split; [exact Hs|]. unfold run_owner, pending_owner. do 2 f_equal. by rewrite Hi.
Qed.

Lemma collect_step : heap_allowed R HCollect -> exists R', heap_serve allocate_memory heap R HCollect = Ok R' /\ machine_ok R' /\ collect_result R'.
Proof.
  intros (Hin & Hno & Hep). cbn -[collect_heap]. rewrite next_epoch_ok by done. cbn [mbind outcome_bind].
  pose proof (machine_collectable R HR) as HCo. pose proof HR as [HW HTy HM HRo HL HE HC HFi].
  destruct (collect_heap_spec _ _ _ _ HCo) as (D' & pairs' & P & -> & HW' & HP & _ & _ & Hreb & HK & HDec). cbn [mbind outcome_bind fst snd].
  eexists. split; [done|]. split; [|done].
  assert (Hlive : forall a, live_at D' a <-> live_at (data R) a /\ reachable (trace_of (contents R)) (data R) (pairs R) a).
  { intros a. unfold live_at. setoid_rewrite (ch_live _ _ _ _ _ HK). naive_solver. }
  destruct (collected _ _ _ _ HRo) as (P' & HP' & HRo' & _); [intros t T (T1 & <- & HT1)%lookup_fmap_Some; by eapply Hin|].
  assert (P' = P) as -> by congruence.
  split; cbn [data lease_epoch states roots_held]; [done|eapply keys_typed; [apply HK|done]|eapply keys_metadata; [apply HK|apply HK|done]| | | | |].
  - by rewrite HP.
  - intros s v Hs. apply Hlive. split; [by apply (HL s)|]. apply reach_root. unfold root_values. apply list_elem_of_fmap. exists (s, v). split; [done|].
    by apply (visit_ok _ _ (ro_handles _ _ _ _ HRo)).
  - intros a x [Ha Hr]%Hlive Hx. change (x ∈ edges_at R a) in Hx. pose proof (HE a x Ha Hx) as Hok. destruct Ha as (o & m & HO & Hp). destruct x as [b|p]; cbn in Hok |- *.
    + apply Hlive. split; [done|]. by eapply reach_edge.
    + destruct Hok as ([k v] & Hpk & Hor). cbn in Hor.
      assert (Hheld : held (trace_of (contents R)) (data R) (pairs R) (root_values (data R)) p) by (by exists a, o, m).
      destruct Hor as [Hz|[Hk Hv]].
      * exists (k, v). split; [|by left]. rewrite (ch_pairs _ _ _ _ _ HK); [done|]. intros (_ & key & v' & Hl & _). unfold load_pair in Hl. rewrite Hpk in Hl. cbn in Hl. by rewrite (proj2 (Z.eqb_eq _ _) Hz) in Hl.
      * assert (Hload : load_pair (pairs R) p = Ok (Some (k, v))).
        { apply (live_positive _ _ HW) in Hk as [Hk0 _], Hv as [Hv0 _]. unfold load_pair. rewrite Hpk. cbn. destruct (Z.eqb_spec k 0); [lia|]. destruct (Z.eqb_spec v 0); [lia|done]. }
        pose proof Hk as (ok & mk & HOk). destruct (HDec k ok mk HOk) as [Hrk|Hnk].
        -- exists (k, v). split; [|right; cbn; rewrite !Hlive; split; [done|split; [done|by apply (reach_ephemeron _ _ _ _ a o m p k v)]]]. rewrite (ch_pairs _ _ _ _ _ HK); [done|].
           intros (_ & key & v' & Hl & Hnk). rewrite Hload in Hl. injection Hl as <- <-. done.
        -- exists (0, 0)%Z. split; [|by left]. apply (ch_cleared _ _ _ _ _ HK). split; [done|]. by exists k, v.
  - destruct HC as [C1 C2 C3 C4].
    split; [done|intros t T HT He; by apply old_records in HT|intros t1 t2 k1 k2 c1 c2 (T & HT & He & _); by apply old_records in HT|].
    intros t T m id HT Hm. rewrite (ch_metadata _ _ _ _ _ HK). by apply (C4 t T).
  - split; cbn [attempt dispatch]; [|done|constructor|by intros l Hl%elem_of_nil| |].
    + rewrite (ch_running _ _ _ _ _ HK), (fi_running _ _ _ _ HFi). by rewrite Hno.
    + intros l F k. by apply (collected_leased (trace_of (contents R)) (data R) D' (pairs R) pairs').
    + intros t k c F (T & HT & He & _). by apply old_records in HT.
Qed.

Lemma baseline_step : exists R', heap_serve allocate_memory heap R HBaseline = Ok R' /\ machine_ok R'.
Proof.
  pose proof HR as [HW HTy HM HRo HL HE HC HFi]. cbn. destruct (baseline_ok (E:=Empty_set) (data R) HW) as (p & -> & Hp). cbn [mbind outcome_bind]. eexists. split; [done|].
  split; cbn [data lease_epoch states roots_held]; try done.
  - destruct HW as [H1 H2 H3 H4 H5 H6 H7 H8 H9 H10]. split; try done. cbn -[class_run_count]. by rewrite Hp.
  - by apply (cursors_frame (data R)).
  - destruct HFi as [F1 F2 F3 F4 F5 F6]. by split.
Qed.
End requests.

(** * The requests that run destructors

    A snapshot of the batch is taken, its runs are claimed one at a time, each
    destructor that has run is recorded, and the attempt is completed. Each of
    these requests is served when it is allowed and keeps [machine_ok]; only a
    completion changes the heap, as [finalized_heap] says. *)

Lemma elem_of_snapshot b l : l ∈ dispatch_snapshot b <-> is_Some (batch_runs b !! l).
Proof.
  unfold dispatch_snapshot. rewrite list_elem_of_fmap. split.
  - intros ([l' F] & -> & H%elem_of_map_to_list). by exists F.
  - intros [F HF]. exists (l, F). split; [done|]. by apply elem_of_map_to_list.
Qed.

Lemma snapshot_nodup b : NoDup (dispatch_snapshot b).
Proof. apply NoDup_fst_map_to_list. Qed.

(** The number of running destructors is all that changes. *)
Lemma running_wf D n : heap_wf D -> n <= batch_pending (finalization_batch D) -> heap_wf (with_running D n).
Proof. intros [H1 H2 H3 H4 H5 H6 H7 H8 H9 H10] Hn. by split. Qed.

Section requests.
Context (allocate_memory : list Z -> option Z) (heap : HeapId) (R : Machine) (HR : machine_ok R).
Notation D := (data R).
Notation e := (lease_epoch R).

Lemma running_ok n Z : n <= batch_pending (finalization_batch D) -> finalizing_ok (with_running D n) e (states R) Z ->
  machine_ok (with_finalizing R (with_running D n) Z).
Proof.
  intros Hn HZ. pose proof HR as [HW HT HM HRo HL HE HC HFi]. split; cbn [data lease_epoch states roots_held finalizing with_finalizing]; try done.
  - by apply running_wf.
  - by apply (cursors_frame D).
Qed.

Lemma same_running : with_running D (running_finalizers D) = D.
Proof. by destruct D. Qed.

(** The state of [Z] is the only change. *)
Lemma finalizing_changed n Z : finalizing_ok D e (states R) (finalizing R) -> n = match attempt Z with Some a => length (at_work a) | None => 0 end ->
  (forall a, attempt Z = Some a -> exists l F n, batch_runs (finalization_batch D) !! l = Some F /\ attempt_ok F n a /\ l ∉ dispatch Z) ->
  NoDup (dispatch Z) -> (forall l, l ∈ dispatch Z -> is_Some (batch_runs (finalization_batch D) !! l)) ->
  finalizing_ok (with_running D n) e (states R) Z.
Proof. intros [F1 F2 F3 F4 F5 F6] Hn HA HN HD. by split. Qed.

Lemma dispatch_step : heap_allowed R HDispatch ->
  exists R', heap_serve allocate_memory heap R HDispatch = Ok R' /\ machine_ok R' /\ R' = with_finalizing R D (MkFinalizing (dispatch_snapshot (finalization_batch D)) None).
Proof.
  intros Hno. cbn in Hno. cbn [heap_serve]. eexists. split; [done|]. split; [|done]. pose proof (mo_final _ HR) as HFi. pose proof (fi_running _ _ _ _ HFi) as Hrun. rewrite Hno in Hrun.
  rewrite <- same_running at 1. apply running_ok; [apply (mo_heap _ HR)|]. apply finalizing_changed; [done|done|done|apply snapshot_nodup|].
  intros l. apply elem_of_snapshot.
Qed.

Lemma prepare_step ls l : attempt (finalizing R) = None -> dispatch (finalizing R) = ls ++ [l] ->
  exists F a, batch_runs (finalization_batch D) !! l = Some F /\ attempt_ok F 0 a /\ prepare_finalization_run D l = Ok (with_running D (length (at_work a)), a) /\
    let R' := with_finalizing R (with_running D (length (at_work a))) (MkFinalizing ls (Some a)) in
    heap_serve allocate_memory heap R HPrepare = Ok R' /\ machine_ok R'.
Proof.
  intros Hno Hls. pose proof HR as [HW _ _ _ _ _ _ HFi]. pose proof (fi_nodup _ _ _ _ HFi) as HN. rewrite Hls in HN.
  destruct (fi_dispatch _ _ _ _ HFi l) as [F HF]; [rewrite Hls; set_solver|]. pose proof (fi_running _ _ _ _ HFi) as Hrun. rewrite Hno in Hrun.
  destruct (prepare_attempt_ok (arena D) (hw_arena _ HW) (classes D) l F (hw_batch _ HW _ _ HF) (finalization_batch D) HF) as (a & Ha & HA).
  assert (Hp : prepare_finalization_run D l = Ok (with_running D (length (at_work a)), a)).
  { unfold prepare_finalization_run. rewrite assert_bind by (by apply bool_decide_eq_true). rewrite Ha. done. }
  exists F, a. split; [done|]. split; [done|]. split; [done|]. cbn zeta. cbn [heap_serve]. rewrite Hls, last_snoc. cbn [expect mbind outcome_bind]. rewrite Hp. cbn [mbind outcome_bind fst snd].
  rewrite removelast_last. split; [done|]. apply running_ok.
  - rewrite (attempt_work_length F 0 a HA). by apply (total_pending D HW l F HF).
  - apply NoDup_app in HN as (HN & Hd & _). apply finalizing_changed; [done|done| |done|].
    + intros a' [= <-]. exists l, F, 0. split; [done|]. split; [done|]. intros Hin. apply (Hd l Hin). set_solver.
    + intros l' Hl'. apply (fi_dispatch _ _ _ _ HFi). rewrite Hls. cbn in Hl'. set_solver.
Qed.

Lemma destroy_step a x : attempt (finalizing R) = Some a -> next_work a = Some x ->
  exists a', complete_terminal a x = Ok a' /\ at_work a' = at_work a /\ next_work_index a' = S (next_work_index a) /\
    let R' := with_finalizing R D (MkFinalizing (dispatch (finalizing R)) (Some a')) in
    heap_serve allocate_memory heap R HDestroy = Ok R' /\ machine_ok R'.
Proof.
  intros Ha Hx. pose proof HR as [HW _ _ _ _ _ _ HFi]. destruct (fi_attempt _ _ _ _ HFi a Ha) as (l & F & n & HF & HA & Hl).
  destruct (terminal_ok (arena D) (hw_arena _ HW) (classes D) l F (hw_batch _ HW _ _ HF) n a x HA Hx) as (a' & Ha' & HA' & Hw).
  exists a'. split; [done|]. split; [done|]. split; [by rewrite (ao_next _ _ _ HA'), (ao_next _ _ _ HA)|]. cbn zeta. cbn [heap_serve]. rewrite Ha. cbn [expect mbind outcome_bind].
  rewrite Hx. cbn [expect mbind outcome_bind]. rewrite Ha'. cbn [mbind outcome_bind]. split; [done|]. pose proof (fi_running _ _ _ _ HFi) as Hrun. rewrite Ha in Hrun.
  rewrite <- same_running at 1. apply running_ok; [apply HW|]. apply finalizing_changed; [done|cbn; congruence| |apply HFi|apply HFi].
  intros a'' [= <-]. by exists l, F, (S n).
Qed.
(** *** A completion *)
Lemma destroyed_live D' l F n a : batch_runs (finalization_batch D) !! l = Some F -> finalized_heap D D' l F n -> live_at D' a <-> live_at D a.
Proof.
  intros HF HZ. pose proof (mo_heap _ HR) as HW.
  assert (Hown : forall x o m, object D x o m -> owner_ok (arena D) o) by (intros x o m HO; by apply (object_owner D x o m (hw_arena _ HW))).
  split; intros (o & m & HO & Hp); exists o, m.
  - apply (fz_objects _ _ _ _ _ HZ) in HO as [HO Hn]. split; [done|]. destruct (is_pending D o) eqn:E; [|done]. rewrite <- Hp. symmetry. apply (fz_pending _ _ _ _ _ HZ); [by eapply Hown|done].
  - assert (Hn : o ∉ finalized_owners F n) by (intros Hin; apply (finalized_not_live D HW l F HF n) in Hin; congruence).
    split; [by apply (fz_objects _ _ _ _ _ HZ)|]. destruct (is_pending D' o) eqn:E; [|done]. apply (fz_pending _ _ _ _ _ HZ) in E as [E _]; [congruence|by eapply Hown].
Qed.

(** What is left of a run, when something is. *)
Lemma left_run D' l F n F' : finalized_heap D D' l F n -> batch_runs (finalization_batch D') !! l = Some F' -> run_remains F F' n.
Proof.
  intros HZ HF'. pose proof (fz_run _ _ _ _ _ HZ) as Hr. destruct (decide _) in Hr; [congruence|]. destruct Hr as (F2 & HF2 & H). congruence.
Qed.

Lemma left_pending l F F' n k : batch_runs (finalization_batch D) !! l = Some F -> run_remains F F' n -> is_Some (pending_words F' !! k) ->
  is_Some (pending_words F !! k) /\ word_left F n k.
Proof.
  intros HF HRe [w Hw]. pose proof (left_word F n F' HRe k w Hw) as HL. split; [|done]. destruct HL as (s & Hs & <-).
  assert (Hin : s ∈ pending_slots F) by (rewrite <- (take_drop n (pending_slots F)), elem_of_app; by right).
  pose proof (hw_batch _ (mo_heap _ HR) _ _ HF) as HB. apply elem_of_pending_slots in Hin as [_ Hb]; [|apply HB]. unfold pending_bit in Hb. by destruct (pending_words F !! _).
Qed.

Lemma destroyed_ok D' l F n : batch_runs (finalization_batch D) !! l = Some F -> l ∉ dispatch (finalizing R) -> finalized_heap D D' l F n ->
  machine_ok (with_finalizing R D' (MkFinalizing (dispatch (finalizing R)) None)).
Proof.
  intros HF Hl HZ. pose proof HR as [HW HT HM HRo HL HE HC HFi]. pose proof HFi as [F1 F2 F3 F4 F5 F6]. pose proof HZ as [Z1 Z2 Z3 Z4 Z5 Z6 _ Z7 Z8 Z9 Z10 Z11 Z12].
  assert (Hlive : forall a, live_at D' a <-> live_at D a) by (intros a; by apply (destroyed_live D' l F n)).
  split; cbn [data lease_epoch states roots_held finalizing with_finalizing]; [done|by eapply keys_typed|by eapply keys_metadata|by rewrite Z9| | | |].
  - intros s v Hs. by eapply Hlive, HL.
  - intros a x Ha Hx. apply (edge_ok_mono R); [by intros b; apply Hlive|done|]. apply (HE a); [by apply Hlive|exact Hx].
  - apply (cursors_reframe D); [done| |by rewrite Z8]. intros t k c Hc. apply Z11; [by apply (current_cursor_ok D e (states R) t k)|]. intros Hcl. apply (F6 t k c F Hc). by rewrite Hcl.
  - split; cbn [attempt dispatch]; [done|done|done| | |].
    + intros l' Hl'. rewrite Z4 by (intros ->; done). by apply F4.
    + intros l' F' k HF' Hd Hk. destruct (decide (l' = l)) as [->|Hne].
      * pose proof (left_run D' l F n F' HZ HF') as HRe. destruct (left_pending l F F' n k HF HRe Hk) as [HkF Hlk]. apply Z10; [|done].
        apply (F5 l F); [done| |done]. unfold is_detached in *. by rewrite <- (rr_target _ _ _ HRe).
      * rewrite Z4 in HF' by done. apply Z10; [by apply (F5 l' F')|done].
    + intros t k c F' Hc HF'. destruct (decide (cursor_location c = l)) as [El|Hne].
      * rewrite El in HF'. pose proof (left_run D' l F n F' HZ HF') as HRe. destruct (pending_words F' !! cursor_word c) as [w|] eqn:Ew; [|done].
        destruct (left_pending l F F' n (cursor_word c) HF HRe) as [[w' Hw'] _]; [by exists w|]. rewrite <- El in HF. by rewrite (F6 t k c F Hc HF) in Hw'.
      * rewrite Z4 in HF' by done. by apply (F6 t k c F').
Qed.

Lemma complete_step a : attempt (finalizing R) = Some a -> exists D' recycled l F n, batch_runs (finalization_batch D) !! l = Some F /\ attempt_ok F n a /\
  complete_finalization_run D a = Ok (D', recycled) /\ finalized_heap D D' l F n /\ recycled = is_detached F && bool_decide (n = length (pending_slots F)) /\
  let R' := with_finalizing R D' (MkFinalizing (dispatch (finalizing R)) None) in
  heap_serve allocate_memory heap R HComplete = Ok R' /\ machine_ok R'.
Proof.
  intros Ha. pose proof HR as [HW _ _ _ _ _ _ HFi]. destruct (fi_attempt _ _ _ _ HFi a Ha) as (l & F & n & HF & HA & Hl). pose proof (fi_running _ _ _ _ HFi) as Hrun. rewrite Ha in Hrun.
  destruct (complete_finalization_ok D l F n a HW HF HA Hrun) as (D' & recycled & Hc & HZ & Hrec); [intros Hd k; by apply (fi_leased _ _ _ _ HFi l F)|].
  exists D', recycled, l, F, n. do 5 (split; [done|]). cbn zeta. cbn [heap_serve]. rewrite Ha. cbn [expect mbind outcome_bind]. rewrite Hc. split; [done|]. by apply (destroyed_ok D' l F n).
Qed.
End requests.
