(* ===== verification/HeapSafety.v ===== *)
(** * The machine keeps its heap safe

    Every allowed request is served and keeps [machine_ok], so every reachable
    machine has it. *)
From stdpp Require Import base option list numbers gmap sets.
From Stdlib Require Import ZArith Lia.
From S2P Require Import Prelude RootPool RootPoolFacts RunGeometry Bitmaps Arena ArenaFacts Heap HeapFacts.
From S2P Require Import Marking MarkingFacts Sweep SweepFacts SweepPlan SweepArena SweepSteps SweepSafe.
From S2P Require Import SweepCorrect Collection Claim ClaimFacts ClaimRaces Alloc AllocFacts AllocClaims.
From S2P Require Import Allocators Finalize FinalizeFacts FinalizeRun FinalizeSteps HeapMachine HeapState.
From S2P Require Import HeapSteps.

(** ** Every request is served *)
Section machine.
Context (allocate_memory : list Z -> option Z) (HA : allocator_ok allocate_memory) (heap : HeapId).

Lemma dispatch_last (ls : list RunLocation) : ls <> [] -> exists ls' l, ls = ls' ++ [l].
Proof. induction ls as [|l ls' _] using rev_ind; [done|]. intros _. by exists ls', l. Qed.

Lemma heap_serve_ok R q : machine_ok R -> heap_allowed R q ->
  (exists R', heap_serve allocate_memory heap R q = Ok R' /\ machine_ok R') \/
  (exists t m edges D', q = HAlloc t m edges /\ heap_kept (data R) D' /\ out_of_memory allocate_memory D' /\ heap_serve allocate_memory heap R q = Panic).
Proof.
  intros HR Hq. destruct q as [t|t|t|t m|t m edges|a edges|p k v|t a|h|h| | | | | |].
  - left. by apply enter_step.
  - left. by apply leave_ok.
  - left. by apply forget_ok.
  - left. by apply allocator_ok_step.
  - destruct (alloc_step allocate_memory HA heap R HR t m edges Hq) as [(D' & Ho & HK & Hs)|(R' & Hs & HR' & _)]; [right; eauto 10|left; eauto].
  - left. by apply store_ok.
  - left. by apply pair_ok.
  - left. destruct (root_ok allocate_memory heap R HR t a Hq) as (R' & s & Hs & HR' & _). eauto.
  - left. by apply clone_ok.
  - left. by apply drop_ok.
  - left. destruct (collect_step allocate_memory heap R HR Hq) as (R' & Hs & HR' & _). eauto.
  - left. by apply baseline_step.
  - left. destruct (dispatch_step allocate_memory heap R HR Hq) as (R' & Hs & HR' & _). eauto.
  - left. destruct Hq as [Hno Hd]. destruct (dispatch_last (dispatch (finalizing R)) Hd) as (ls & l & Hls).
    destruct (prepare_step allocate_memory heap R HR ls l Hno Hls) as (F & a & _ & _ & _ & Hs & HR'). eauto.
  - left. destruct Hq as (a & x & Ha & Hx). destruct (destroy_step allocate_memory heap R HR a x Ha Hx) as (a' & _ & _ & _ & Hs & HR'). eauto.
  - left. destruct Hq as [a Ha]. destruct (complete_step allocate_memory heap R HR a Ha) as (D' & recycled & l & F & n & _ & _ & _ & _ & _ & Hs & HR'). eauto.
Qed.

Lemma new_machine_ok : machine_ok Machine_new.
Proof.
  split.
  - split; cbn; try done.
    + constructor.
    + by intros l Hl; apply elem_of_nil in Hl.
  - by intros i C HC.
  - intros m id. cbn. split; [by intros H; apply lookup_empty_Some in H|by intros (i & C & _ & HC & _)].
  - cbn. rewrite fmap_empty. apply new_inv.
  - by intros s v H; apply elem_of_nil in H.
  - intros a x _ Hx. unfold edges_at in Hx. cbn in Hx. rewrite lookup_empty in Hx. by apply elem_of_nil in Hx.
  - split; [by intros t T HT|by intros t T HT|by intros t t' k k' c c' (T & HT & _)|by intros t T m id HT].
  - split; cbn; [done|done|constructor|by intros l Hl%elem_of_nil|done|done].
Qed.

Lemma reaches_ok R : heap_reaches allocate_memory heap R -> machine_ok R.
Proof.
  induction 1 as [|R q R' _ IH Ha Hs]; [apply new_machine_ok|]. destruct (heap_serve_ok R q IH Ha) as [(R2 & H2 & H)|(t & m & edges & D' & _ & _ & _ & H)]; congruence.
Qed.
End machine.

(** C8. The heap is memory safe. Whatever threads, handles and collections do
    and in whatever order, every request the code allows is served without a
    panic, unless an allocation needs memory the process cannot give; everything
    the registered roots reach, through edges and through ephemerons whose keys
    they reach, is an allocated object whose destructor is not due; and a
    collection may run whenever no thread is inside. *)
Theorem heap_machine_safe allocate_memory heap R : allocator_ok allocate_memory -> heap_reaches allocate_memory heap R ->
  (forall q, heap_allowed R q -> (exists R', heap_serve allocate_memory heap R q = Ok R') \/
     (exists t m edges D', q = HAlloc t m edges /\ heap_kept (data R) D' /\ out_of_memory allocate_memory D' /\ heap_serve allocate_memory heap R q = Panic)) /\
  (forall s v, (s, v) ∈ roots_held R -> reachable (trace_of (contents R)) (data R) (pairs R) v) /\
  (forall a, reachable (trace_of (contents R)) (data R) (pairs R) a -> live_at (data R) a) /\
  collectable (trace_of (contents R)) (data R) (pairs R) (roots_held R).
Proof.
  intros HA HR%reaches_ok; [|done]. split; [|split; [|split]].
  - intros q Hq. destruct (heap_serve_ok allocate_memory HA heap R q HR Hq) as [(R' & H & _)|H]; [left; by exists R'|by right].
  - intros s v Hs. apply reach_root, list_elem_of_fmap. exists (s, v). split; [done|]. by apply (visit_ok _ _ (ro_handles _ _ _ _ (mo_roots _ HR))).
  - by apply edges_reach.
  - by apply machine_collectable.
Qed.

(** Allocation is exact. In any reachable state an allocation returns the
    address of a slot that holds no object, live or awaiting its destructor; the
    heap then has that object, of the type asked for, and the objects it had; no
    handle, edge or pair changes. *)
Theorem allocation_exact allocate_memory heap R t m edges : allocator_ok allocate_memory -> heap_reaches allocate_memory heap R ->
  heap_allowed R (HAlloc t m edges) ->
  (exists R' a o, heap_serve allocate_memory heap R (HAlloc t m edges) = Ok R' /\ (0 < a)%Z /\ live_object (data R') a o m /\
     (forall o' m', ~ object (data R) a o' m') /\
     (forall a' o' m', object (data R') a' o' m' <-> object (data R) a' o' m' \/ a' = a /\ o' = o /\ m' = m) /\
     contents R' = <[a := edges]> (contents R) /\ pairs R' = pairs R /\ roots_held R' = roots_held R) \/
  (exists D', heap_kept (data R) D' /\ out_of_memory allocate_memory D' /\ heap_serve allocate_memory heap R (HAlloc t m edges) = Panic).
Proof.
  intros HA HR%reaches_ok Hq; [|done]. destruct (alloc_step allocate_memory HA heap R HR t m edges Hq) as [(D' & Ho & HK & Hs)|(R' & Hs & _ & (a & o & (Ha & Hf & Hp & Hob) & _ & H))].
  - right. by exists D'.
  - left. exists R', a, o. split; [done|]. split; [done|]. split; [split; [apply Hob; by right|done]|]. done.
Qed.

(** * Destructors run once, on garbage, and all of them run

    While an attempt is open, the values left to destroy are allocated slots no
    thread can reach or allocate; completing it removes exactly the slots whose
    destructors have run; the loop over a batch ends, whatever destructors panic. *)

(** ** One destructor *)
Lemma next_work_slot D l F n a x : heap_wf D -> batch_runs (finalization_batch D) !! l = Some F -> attempt_ok F n a -> next_work a = Some x ->
  exists s, pending_slots F !! n = Some s /\ work_ok F s x.
Proof.
  intros HW HF HA Hx. unfold next_work in Hx. rewrite (ao_next _ _ _ HA) in Hx. by destruct (Forall2_lookup_r _ _ _ _ _ (ao_work _ _ _ HA) Hx) as (s & Hs & Hok); exists s.
Qed.

(** The owners of the first [k] pieces of work. *)
Lemma work_owners F n a k : attempt_ok F n a -> work_owner <$> take k (at_work a) = pending_owner F <$> take k (pending_slots F).
Proof.
  intros HA. apply list_eq_Forall2, Forall2_fmap, Forall2_flip. eapply Forall2_impl; [apply Forall2_take, HA|]. intros s x Hok. cbn. by rewrite (wo_owner _ _ _ Hok).
Qed.

Lemma pending_slot_facts D l F s : heap_wf D -> batch_runs (finalization_batch D) !! l = Some F -> s ∈ pending_slots F -> let o := pending_owner F s in
  owner_ok (arena D) o /\ in_range (owner_address o) /\ slot_of (arena D) (owner_address o) = Some o /\ slot_allocated (arena D) o = true /\ is_pending D o = true.
Proof.
  intros HW HF Hs. cbn zeta. pose proof (hw_batch _ HW _ _ HF) as HB. destruct (batch_owner_ok _ _ _ _ _ HB Hs) as [HO Hal]. split; [done|].
  destruct (owner_lookup (E:=Empty_set) _ (hw_arena _ HW) _ HO) as [_ Hr]. assert (Hin : in_range (owner_address (pending_owner F s))) by (unfold in_range; lia).
  split; [done|]. split; [apply slot_of_Some; [by apply HW|unfold in_range in Hin; lia|done]|]. split; [done|].
  unfold is_pending. cbn [owner_location pending_owner]. rewrite (bf_location _ _ _ _ HB), HF. apply contains_owner_iff; [apply HB|cbn; eapply pending_slot_range; [apply HB|done]|by exists s].
Qed.

(** A slot that is pending is no live object, whatever type it has. *)
Lemma pending_dead D o : heap_wf D -> slot_of (arena D) (owner_address o) = Some o -> is_pending D o = true -> ~ live_at D (owner_address o).
Proof.
  intros HW Hs Hp (o' & m & HO & Hp'). destruct HO as (_ & Hs' & _). assert (o' = o) as -> by congruence. congruence.
Qed.

Lemma values_distinct D l F n a : heap_wf D -> batch_runs (finalization_batch D) !! l = Some F -> attempt_ok F n a -> NoDup (work_value <$> at_work a).
Proof.
  intros HW HF HA. pose proof (hw_batch _ HW _ _ HF) as HB.
  assert (Hv : work_value <$> at_work a = (fun s => owner_address (pending_owner F s)) <$> pending_slots F).
  { apply list_eq_Forall2, Forall2_fmap, Forall2_flip. eapply Forall2_impl; [apply HA|]. intros s x Hok. cbn. by rewrite (wo_value _ _ _ Hok). }
  rewrite Hv. apply NoDup_fmap_2_strong; [|apply pending_slots_nodup, HB]. intros s s' Hs Hs' Heq.
  destruct (pending_slot_facts D l F s HW HF Hs) as (_ & _ & H1 & _). destruct (pending_slot_facts D l F s' HW HF Hs') as (_ & _ & H2 & _). rewrite Heq in H1.
  pose proof (eq_trans (eq_sym H1) H2) as E. by injection E.
Qed.

(** C31. A destructor runs on garbage of its own type. In any reachable state the
    value the open attempt destroys next is an allocated slot of the class with
    the destructor's metadata, which has a destructor; the slot waits for it; it is
    no live object and nothing reaches it, so no thread holds it and no allocation
    returns it; and no two destructors of an attempt have the same value. *)
Theorem destructor_safe allocate_memory heap R a x : allocator_ok allocate_memory -> heap_reaches allocate_memory heap R ->
  attempt (finalizing R) = Some a -> next_work a = Some x ->
  (slot_of (arena (data R)) (work_value x) = Some (work_owner x) /\ slot_allocated (arena (data R)) (work_owner x) = true) /\
  is_pending (data R) (work_owner x) = true /\ needs_drop (work_metadata x) = true /\
  (exists i C, owner_class (work_owner x) = cid i /\ classes (data R) !! i = Some C /\ metadata C = work_metadata x) /\
  ~ live_at (data R) (work_value x) /\ ~ reachable (trace_of (contents R)) (data R) (pairs R) (work_value x) /\ NoDup (work_value <$> at_work a).
Proof.
  intros HA HR%reaches_ok Ha Hx; [|done]. pose proof HR as [HW _ _ _ _ _ _ HFi]. destruct (fi_attempt _ _ _ _ HFi a Ha) as (l & F & n & HF & HAt & _).
  destruct (next_work_slot _ _ _ _ _ _ HW HF HAt Hx) as (s & Hs & [Ho Hv _ _ Hm _]). pose proof (hw_batch _ HW _ _ HF) as HB.
  destruct (pending_slot_facts _ _ _ s HW HF) as (_ & _ & Hsl & Hal & Hp); [by eapply list_elem_of_lookup_2|]. destruct (bf_class _ _ _ _ HB) as (i & C & Hi & HCl & HmC & Hn & _).
  rewrite Ho, Hv, Hm. assert (Hdead : ~ live_at (data R) (owner_address (pending_owner F s))) by (by apply pending_dead).
  split; [done|]. split; [done|]. split; [done|]. split; [by exists i, C|]. split; [done|]. split; [|by eapply values_distinct]. intros Hr. by apply Hdead, edges_reach.
Qed.

(** C32. Completing an attempt is exact. It never panics; the slots whose
    destructors have run hold no object any more and wait for nothing, and every
    other object and waiting slot is as it was; the live objects, the handles and
    the pairs are the same; and when every destructor of the attempt has run, each
    of its slots can be handed out again. *)
Theorem finalization_exact allocate_memory heap R a : allocator_ok allocate_memory -> heap_reaches allocate_memory heap R -> attempt (finalizing R) = Some a ->
  let destroyed := work_owner <$> take (next_work_index a) (at_work a) in
  exists R', heap_serve allocate_memory heap R HComplete = Ok R' /\
    (forall v o m, object (data R') v o m <-> object (data R) v o m /\ o ∉ destroyed) /\
    (forall o, owner_ok (arena (data R)) o -> is_pending (data R') o = true <-> is_pending (data R) o = true /\ o ∉ destroyed) /\
    (forall v, live_at (data R') v <-> live_at (data R) v) /\ roots_held R' = roots_held R /\ pairs R' = pairs R /\ contents R' = contents R /\
    (next_work a = None -> forall x, x ∈ at_work a -> reusable (data R') (work_owner x)).
Proof.
  intros HA HR%reaches_ok Ha; [|done]. destruct (complete_step allocate_memory heap R HR a Ha) as (D' & recycled & l & F & n & HF & HAt & _ & HZ & _ & Hs & _).
  eexists. split; [exact Hs|]. cbn [data roots_held pairs contents with_finalizing]. rewrite (ao_next _ _ _ HAt), (work_owners F n a n HAt). change (pending_owner F <$> take n (pending_slots F)) with (finalized_owners F n).
  split; [apply HZ|]. split; [apply HZ|]. split; [intros v; by apply (destroyed_live R HR D' l F n)|]. do 3 (split; [done|]).
  intros Hnone x Hx. apply (next_work_none F n a HAt) in Hnone. apply list_elem_of_lookup in Hx as [k Hk]. destruct (Forall2_lookup_r _ _ _ _ _ (ao_work _ _ _ HAt) Hk) as (s & Hsl & Hok).
  rewrite (wo_owner _ _ _ Hok). apply (fz_reusable _ _ _ _ _ HZ); [rewrite Hnone, take_ge by done; by eapply list_elem_of_lookup_2|].
  destruct (is_detached F); [done|]. intros (s' & Hs' & _). rewrite Hnone, drop_all in Hs'. by apply elem_of_nil in Hs'.
Qed.

(** ** The loop of a batch *)
Section batch.
Context (allocate_memory : list Z -> option Z) (HA : allocator_ok allocate_memory) (heap : HeapId) (drop_in_place : FinalizationWork -> bool).
Notation reaches := (heap_reaches allocate_memory heap).

Lemma same_finalizing R : with_finalizing R (data R) (finalizing R) = R.
Proof. by destruct R. Qed.

(** What the destructors of an attempt leave: all have run, or the last one that
    ran panicked. *)
Record destructors_run (a a' : RunFinalizationAttempt) (panicked : bool) : Prop := {
  dr_work : at_work a' = at_work a;
  dr_index : next_work_index a <= next_work_index a';
  dr_end : if panicked then next_work_index a < next_work_index a' /\ exists x, x ∈ at_work a /\ drop_in_place x = false else next_work a' = None;
}.

Lemma run_destructors_ok fuel : forall R a, reaches R -> attempt (finalizing R) = Some a -> length (at_work a) <= next_work_index a + fuel ->
  exists a' panicked, run_destructors drop_in_place fuel a = Ok (a', panicked) /\ destructors_run a a' panicked /\
    reaches (with_finalizing R (data R) (MkFinalizing (dispatch (finalizing R)) (Some a'))).
Proof.
  induction fuel as [|fuel IH]; intros R a HR Ha Hf; cbn [run_destructors]; destruct (next_work a) as [x|] eqn:Hx.
  - apply lookup_lt_Some in Hx. lia.
  - exists a, false. split; [done|]. split; [by split|]. destruct R as [? ? ? ? ? ? ? [ds ?]]. cbn in *. by subst.
  - pose proof (reaches_ok allocate_memory HA heap R HR) as HM. destruct (destroy_step allocate_memory heap R HM a x Ha Hx) as (a1 & Hc & Hw & Hn & Hs & _).
    rewrite Hc. cbn [mbind outcome_bind]. cbn zeta in Hs. set (R1 := with_finalizing _ _ _) in Hs. assert (HR1 : reaches R1) by (apply (heap_reach_step _ _ R HDestroy); [done|by exists a, x|done]).
    destruct (drop_in_place x) eqn:Hd.
    + destruct (IH R1 a1 HR1 eq_refl) as (a' & p & Hrun & [D1 D2 D3] & HR'); [rewrite Hw; lia|]. exists a', p. split; [done|]. split; [|done].
      split; [congruence|lia|]. destruct p; [|done]. rewrite Hw in D3. split; [lia|apply D3].
    + exists a1, true. split; [done|]. split; [|done]. split; [done|lia|]. split; [lia|]. exists x. split; [by eapply list_elem_of_lookup_2|done].
  - exists a, false. split; [done|]. split; [by split|]. destruct R as [? ? ? ? ? ? ? [ds ?]]. cbn in *. by subst.
Qed.

(** What the loop over runs leaves of a batch. *)
Record batch_run (D D' : ManagedData) (s s' : FinalizationSummary) (ls : list RunLocation) (panicked : bool) : Prop := {
  br_live : forall v, live_at D' v <-> live_at D v;
  br_total : finalized_slots s' + batch_pending (finalization_batch D') = finalized_slots s + batch_pending (finalization_batch D);
  br_gone : forall l, batch_runs (finalization_batch D) !! l = None -> batch_runs (finalization_batch D') !! l = None;
  br_done : panicked = false -> forall l, l ∈ ls -> batch_runs (finalization_batch D') !! l = None;
  br_panic : panicked = true -> finalized_slots s < finalized_slots s' /\ exists x, drop_in_place x = false;
}.

(** One run: claimed, destroyed, completed. *)
Lemma finalize_run_ok R ls l : reaches R -> attempt (finalizing R) = None -> dispatch (finalizing R) = ls ++ [l] ->
  exists Da a' p D' recycled, prepare_finalization_run (data R) l = Ok Da /\ run_destructors drop_in_place (length (at_work Da.2)) Da.2 = Ok (a', p) /\
    complete_finalization_run Da.1 a' = Ok (D', recycled) /\ reaches (with_finalizing R D' (MkFinalizing ls None)) /\
    forall s, batch_run (data R) D' s (count_run s (next_work_index a') recycled) [l] p.
Proof.
  intros HR Hno Hls. pose proof (reaches_ok allocate_memory HA heap R HR) as HM.
  destruct (prepare_step allocate_memory heap R HM ls l Hno Hls) as (F & a & HF & HAt & Hp & Hs & _). cbn zeta in Hs. set (R1 := with_finalizing _ _ _) in Hs.
  assert (HR1 : reaches R1). { apply (heap_reach_step _ _ R HPrepare); [exact HR| |exact Hs]. split; [done|]. rewrite Hls. by destruct ls. }
  destruct (run_destructors_ok (length (at_work a)) R1 a HR1 eq_refl) as (a' & p & Hrun & [Dw Di De] & HR2); [rewrite (ao_next _ _ _ HAt); lia|].
  set (R2 := with_finalizing R1 _ _) in HR2. pose proof (reaches_ok allocate_memory HA heap R2 HR2) as HM2.
  destruct (complete_step allocate_memory heap R2 HM2 a' eq_refl) as (D' & recycled & l2 & F2 & n & HF2 & HAt2 & Hc & HZ & _ & Hs3 & _).
  assert (HR3 : reaches (with_finalizing R D' (MkFinalizing ls None))) by (apply (heap_reach_step _ _ R2 HComplete); [exact HR2|by exists a'|exact Hs3]).
  exists (with_running (data R) (length (at_work a)), a), a', p, D', recycled. split; [done|]. split; [done|]. split; [exact Hc|]. split; [done|].
  (* The completed attempt is of the run that was claimed. *)
  assert (Hl2 : l2 = l).
  { pose proof (mo_final _ HM2) as HFi2. rewrite <- (bf_location _ _ _ _ (hw_batch _ (mo_heap _ HM2) _ _ HF2)), <- (ao_location _ _ _ HAt2).
    rewrite (run_destructors_location drop_in_place _ _ _ _ Hrun), (ao_location _ _ _ HAt). apply (bf_location _ _ _ _ (hw_batch _ (mo_heap _ HM) _ _ HF)). }
  subst l2. assert (F2 = F) as -> by (change (batch_runs (finalization_batch (data R)) !! l = Some F2) in HF2; congruence).
  pose proof (total_pending _ (mo_heap _ HM2) l F HF2) as Htot. pose proof (ao_bound _ _ _ HAt2) as Hb. pose proof (ao_next _ _ _ HAt2) as Hn. pose proof (fz_total _ _ _ _ _ HZ) as Ht.
  change (finalization_batch (data R2)) with (finalization_batch (data R)) in *. intros s. split; cbn [finalized_slots count_run].
  - intros v. rewrite (destroyed_live R2 HM2 D' l F n) by done. done.
  - lia.
  - intros l' Hl'. destruct (decide (l' = l)) as [->|Hne]; [congruence|]. by rewrite (fz_batch _ _ _ _ _ HZ l' Hne).
  - intros -> l' ->%list_elem_of_singleton. apply (next_work_none F n a' HAt2) in De. pose proof (fz_run _ _ _ _ _ HZ) as Hr. by rewrite decide_True in Hr.
  - intros ->. destruct De as [Hlt (x & _ & Hx)]. split; [lia|by exists x].
Qed.

Lemma finalize_runs_ok ls : forall R s, reaches R -> attempt (finalizing R) = None -> dispatch (finalizing R) = rev ls ->
  exists D' s' p Z, finalize_runs drop_in_place ls (data R) s = Ok (D', s', p) /\ reaches (with_finalizing R D' Z) /\ attempt Z = None /\ batch_run (data R) D' s s' ls p.
Proof.
  induction ls as [|l ls IH]; intros R s HR Hno Hls; cbn [finalize_runs].
  - exists (data R), s, false, (finalizing R). split; [done|]. rewrite same_finalizing. split; [done|]. split; [done|]. split; try done. by intros _ l Hl%elem_of_nil.
  - cbn in Hls. destruct (finalize_run_ok R (rev ls) l HR Hno Hls) as (Da & a' & p & D' & recycled & -> & Hrun & Hc & HR' & HB). cbn [mbind outcome_bind]. rewrite Hrun. cbn [mbind outcome_bind fst snd].
    rewrite Hc. cbn [mbind outcome_bind fst snd]. specialize (HB s). destruct p.
    + eexists _, _, true, _. split; [done|]. split; [exact HR'|]. split; [done|]. destruct HB as [B1 B2 B3 _ B5]. by split.
    + set (R' := with_finalizing R D' _) in HR'. destruct (IH R' (count_run s (next_work_index a') recycled) HR' eq_refl eq_refl) as (D2 & s2 & p2 & Z & Hr & HR2 & HZ & HB2).
      exists D2, s2, p2, Z. split; [done|]. split; [exact HR2|]. split; [done|]. destruct HB as [B1 B2 B3 B4 _], HB2 as [C1 C2 C3 C4 C5]. change (data R') with D' in *. split.
      * intros v. by rewrite C1, B1.
      * lia.
      * intros l' Hl'. by apply C3, B3.
      * intros Hp l' [->|Hl']%elem_of_cons; [apply C3, B4; [done|by left]|by apply C4].
      * intros Hp. destruct (C5 Hp) as [Hlt Hx]. split; [|done]. cbn [finalized_slots count_run] in Hlt. lia.
Qed.
End batch.

Lemma empty_batch D : heap_wf D -> (forall l, batch_runs (finalization_batch D) !! l = None) -> batch_pending (finalization_batch D) = 0.
Proof.
  intros HW H. rewrite (hw_total _ HW). unfold pending_list. assert (batch_runs (finalization_batch D) = ∅) as -> by (by apply map_empty). by rewrite map_to_list_empty.
Qed.

Lemma idle_activity D : running_finalizers D = 0 -> activity D = Ok (MkActivity (batch_pending (finalization_batch D)) 0).
Proof. intros H. unfold activity. rewrite H, decide_True by lia. do 2 f_equal. lia. Qed.

(** C33. Every destructor runs. In any reachable state with no attempt open, the
    loop over the batch ends without a failed assertion, whichever destructors
    panic; it takes the heap to a reachable state; the slots it reports as
    finalized are those the batch has lost, live objects are the same, and the
    activity is what is left. When no destructor panics the batch is empty; when
    one does, the loop has finalized a slot, so running it again comes to an end. *)
Theorem finalization_completes allocate_memory heap drop_in_place R : allocator_ok allocate_memory -> heap_reaches allocate_memory heap R ->
  attempt (finalizing R) = None ->
  exists D' s panicked Z, run_finalization_batch drop_in_place (data R) = Ok (D', s, panicked) /\
    heap_reaches allocate_memory heap (with_finalizing R D' Z) /\ attempt Z = None /\
    finalized_slots s + batch_pending (finalization_batch D') = batch_pending (finalization_batch (data R)) /\
    activity D' = Ok (MkActivity (batch_pending (finalization_batch D')) 0) /\ (forall v, live_at D' v <-> live_at (data R) v) /\
    (if panicked then 0 < finalized_slots s /\ exists x, drop_in_place x = false
     else batch_pending (finalization_batch D') = 0 /\ forall o, is_pending D' o = false).
Proof.
  intros HA HR Hno. pose proof (reaches_ok allocate_memory HA heap R HR) as HM. destruct (dispatch_step allocate_memory heap R HM Hno) as (R1 & Hs & _ & ->).
  set (R1 := with_finalizing _ _ _) in Hs. assert (HR1 : heap_reaches allocate_memory heap R1) by (by apply (heap_reach_step _ _ R HDispatch)).
  destruct (finalize_runs_ok allocate_memory HA heap drop_in_place (rev (dispatch_snapshot (finalization_batch (data R)))) R1 (MkSummary 0 0) HR1 eq_refl)
    as (D' & s & p & Z & Hrun & HR2 & HZ & [B1 B2 B3 B4 B5]); [by rewrite rev_involutive|]. change (data R1) with (data R) in *.
  pose proof (reaches_ok allocate_memory HA heap _ HR2) as HM2. pose proof (fi_running _ _ _ _ (mo_final _ HM2)) as Hr. cbn in Hr. rewrite HZ in Hr.
  exists D', s, p, Z. split; [exact Hrun|]. split; [exact HR2|]. split; [done|]. split; [cbn in B2; lia|]. split; [by apply idle_activity|]. split; [done|].
  destruct p; [by apply B5|]. assert (Hgone : forall l, batch_runs (finalization_batch D') !! l = None).
  { intros l. destruct (batch_runs (finalization_batch (data R)) !! l) as [F|] eqn:E; [|by apply B3]. apply B4; [done|]. apply list_elem_of_In. rewrite <- in_rev.
    apply list_elem_of_In, elem_of_snapshot. by exists F. }
  split; [apply empty_batch; [apply (mo_heap _ HM2)|done]|]. intros o. unfold is_pending. by rewrite Hgone.
Qed.
