(* ===== verification/HeapSamples.v ===== *)
(** * Runs of the heap machine

    One thread builds a list, an ephemeron and garbage with and without
    destructors, roots the list and leaves; a collection runs, and then the
    destructor of the lost file. The requests are checked by [allowed_b], so the
    states are reachable. *)
From stdpp Require Import base option list numbers gmap sets.
From Stdlib Require Import ZArith Lia.
From S2P Require Import Prelude RootPool RootPoolFacts RunGeometry Bitmaps Arena ArenaFacts Heap HeapFacts.
From S2P Require Import Marking MarkingFacts SweepCorrect Collection Claim Alloc AllocClaims Allocators.
From S2P Require Import Finalize FinalizeFacts HeapMachine HeapState HeapSteps HeapSafety.
Local Open Scope Z_scope.

(** ** Checking a request *)
Definition live_b (D : ManagedData) (a : Z) : bool :=
  (0 <=? a) && (a <=? usize_max) && match collector_slot_in (arena D) (classes D) a with Ok s => negb (is_pending D (slot_owner s)) | _ => false end.

Lemma live_b_spec D a : heap_wf D -> live_b D a = true -> live_at D a.
Proof.
  intros HW [[H0%Z.leb_le H1%Z.leb_le]%andb_true_iff H]%andb_true_iff. pose proof (hw_arena _ HW) as WA. unfold collector_slot_in, resolve_slot_topology_in in H.
  rewrite checked_slot_owner_ok in H by done. cbn [mbind outcome_bind] in H. destruct (slot_of (arena D) a) as [o|] eqn:Eo; [|done]. cbn [ok_or mbind outcome_bind] in H.
  destruct (class_index (owner_class o)) as [i|] eqn:Ei; [|done]. cbn [ok_or mbind outcome_bind] in H. destruct (classes D !! i) as [C|] eqn:HC; [|done]. cbn [ok_or mbind outcome_bind] in H.
  destruct (bool_decide_reflect (class_geometry C = owner_geometry o)) as [Hg|]; [|done]. destruct (contains_run C (owner_location o)) eqn:Er; [|done].
  cbn [negb orb mbind outcome_bind fst snd] in H. pose proof Eo as [HO _]%slot_of_Some; [|done..]. rewrite slot_is_allocated_ok in H by done. cbn [mbind outcome_bind] in H.
  destruct (slot_allocated (arena D) o) eqn:Ea; [|done]. cbn in H. apply negb_true_iff in H. exists o, (metadata C). split; [|done].
  split; [done|]. split; [done|]. split; [done|]. by exists i, C.
Qed.

Definition edge_b (R : Machine) (x : Visit) : bool :=
  match x with
  | VEdge b => live_b (data R) b
  | VEphemeron p => match pairs R !! p with Some kv => (kv.1 =? 0) || (live_b (data R) kv.1 && live_b (data R) kv.2) | None => false end
  end.

Lemma edge_b_spec R x : heap_wf (data R) -> edge_b R x = true -> edge_ok R x.
Proof.
  intros HW. destruct x as [b|p]; cbn; [by apply live_b_spec|]. destruct (pairs R !! p) as [kv|]; [|done]. intros H. exists kv. split; [done|].
  apply orb_true_iff in H as [Hz%Z.eqb_eq|[H1 H2]%andb_true_iff]; [by left|right]. split; by apply live_b_spec.
Qed.

Definition inside_b (R : Machine) (t : nat) : bool := match states R !! t with Some T => active (thread_roots T) | None => false end.
Definition outside_b (R : Machine) (t : nat) : bool := match states R !! t with Some T => negb (active (thread_roots T)) | None => false end.

Definition open_b (R : Machine) : bool := match attempt (finalizing R) with Some _ => true | None => false end.

Lemma open_b_spec R : if open_b R then is_Some (attempt (finalizing R)) else attempt (finalizing R) = None.
Proof. unfold open_b. by destruct (attempt (finalizing R)). Qed.

Definition node_metadata : ObjectMetadata := MkMetadata 1 layout24 None false.
Definition file_metadata : ObjectMetadata := MkMetadata 2 layout24 None true.

Definition allowed_b (R : Machine) (q : heap_request) : bool :=
  match q with
  | HEnter t => match states R !! t with Some T => negb (active (thread_roots T)) | None => true end
  | HLeave t => inside_b R t
  | HForget t => outside_b R t
  | HAllocator t m => inside_b R t && bool_decide (m = node_metadata \/ m = file_metadata) && (Z.of_nat (S (length (classes (data R)))) <? usize_max)
  | HAlloc t m edges => inside_b R t && match states R !! t with Some T => bool_decide (is_Some (thread_classes T !! m)) | None => false end && forallb (edge_b R) edges
  | HStore a edges => live_b (data R) a && forallb (edge_b R) edges
  | HPair p k v => bool_decide (pairs R !! p = None) && live_b (data R) k && live_b (data R) v
  | HRoot t a => inside_b R t && live_b (data R) a
  | HClone h => match roots_held R !! h with Some e => Z.of_nat (refs e.1 (roots_held R)) <=? MAX_REFERENCES | None => false end
  | HDrop h => (h <? length (roots_held R))%nat
  | HCollect => forallb (fun e => negb (active (thread_roots e.2))) (map_to_list (states R)) && negb (open_b R) && (Z.of_nat (lease_epoch R) <? u64_max)
  | HBaseline => true
  | HDispatch => negb (open_b R)
  | HPrepare => negb (open_b R) && negb (length (dispatch (finalizing R)) =? 0)%nat
  | HDestroy => match attempt (finalizing R) with Some a => match next_work a with Some _ => true | None => false end | None => false end
  | HComplete => open_b R
  end.

Lemma forallb_elem {A} (p : A -> bool) l x : forallb p l = true -> x ∈ l -> p x = true.
Proof. rewrite forallb_forall. intros H Hx. apply H. by apply list_elem_of_In. Qed.

Lemma inside_b_spec R t : inside_b R t = true -> exists T, inside R t T.
Proof. unfold inside_b, inside. destruct (states R !! t) as [T|]; [|done]. by exists T. Qed.

Lemma heap_allowed_b_spec R q : heap_wf (data R) -> allowed_b R q = true -> heap_allowed R q.
Proof.
  intros HW. pose proof (open_b_spec R) as Ho. destruct q as [t|t|t|t m|t m edges|a edges|p k v|t a|h|h| | | | | |]; cbn [allowed_b heap_allowed].
  - destruct (states R !! t) as [T|] eqn:E; [|done]. intros H T' [= <-]. by apply negb_true_iff in H.
  - apply inside_b_spec.
  - unfold outside_b. destruct (states R !! t) as [T|]; [|done]. intros H%negb_true_iff. by exists T.
  - intros [[H1%inside_b_spec H2%bool_decide_eq_true]%andb_true_iff H3%Z.ltb_lt]%andb_true_iff. split; [done|].
    split; [destruct H2 as [-> | ->]; apply layout24_wf|]. split; [by destruct H2 as [-> | ->]|done].
  - intros [[(T & HT & Ha)%inside_b_spec H2]%andb_true_iff H3]%andb_true_iff. rewrite HT in H2. apply bool_decide_eq_true in H2. split; [by exists T|].
    intros x Hx. apply edge_b_spec; [done|]. by eapply forallb_elem.
  - intros [H1 H2]%andb_true_iff. split; [by apply live_b_spec|]. intros x Hx. apply edge_b_spec; [done|]. by eapply forallb_elem.
  - intros [[H1%bool_decide_eq_true H2]%andb_true_iff H3]%andb_true_iff. split; [done|]. split; by apply live_b_spec.
  - intros [H1%inside_b_spec H2]%andb_true_iff. split; [done|by apply live_b_spec].
  - destruct (roots_held R !! h) as [e|]; [|done]. intros H%Z.leb_le. by exists e.
  - apply Nat.ltb_lt.
  - intros [[H1 H3%negb_true_iff]%andb_true_iff H2%Z.ltb_lt]%andb_true_iff. rewrite H3 in Ho. split; [|done]. intros t T HT. apply elem_of_map_to_list in HT. pose proof (forallb_elem _ _ _ H1 HT) as H. by apply negb_true_iff in H.
  - done.
  - intros H%negb_true_iff. by rewrite H in Ho.
  - intros [H%negb_true_iff Hd%negb_true_iff%Nat.eqb_neq]%andb_true_iff. rewrite H in Ho. split; [done|]. intros Hn. by rewrite Hn in Hd.
  - destruct (attempt (finalizing R)) as [a|]; [|done]. destruct (next_work a) as [x|] eqn:E; [|done]. intros _. by exists a, x.
  - intros H. by rewrite H in Ho.
Qed.

(** ** An allocator *)

(** The chunk after all that are in use, while there is room. *)
Definition bump (bs : list Z) : option Z :=
  let b := (foldr Z.max 0 bs / ARENA_CHUNK_SIZE + 1) * ARENA_CHUNK_SIZE in
  if b + ARENA_CHUNK_SIZE <=? usize_max then Some b else None.

Lemma foldr_max_bound bs x : x ∈ bs -> x <= foldr Z.max 0 bs.
Proof. induction bs as [|b bs IH]; [by intros H%elem_of_nil|]. intros [->|Hx%IH]%elem_of_cons; cbn; lia. Qed.

Lemma foldr_max_nonneg bs : 0 <= foldr Z.max 0 bs.
Proof. induction bs; cbn; lia. Qed.

Lemma bump_ok : allocator_ok bump.
Proof.
  intros bs b. unfold bump. set (n := foldr Z.max 0 bs). pose proof (foldr_max_nonneg bs) as Hn. pose proof (foldr_max_bound bs) as Hmax. fold n in Hn, Hmax.
  pose proof (Z.div_mod n ARENA_CHUNK_SIZE ltac:(done)). pose proof (Z.mod_pos_bound n ARENA_CHUNK_SIZE ltac:(done)). pose proof (Z.div_pos n ARENA_CHUNK_SIZE Hn ltac:(done)).
  destruct (Z.leb_spec ((n / ARENA_CHUNK_SIZE + 1) * ARENA_CHUNK_SIZE + ARENA_CHUNK_SIZE) usize_max); [|done]. intros [= <-].
  assert (0 < ARENA_CHUNK_SIZE) by done. split; [nia|]. split; [by exists (n / ARENA_CHUNK_SIZE + 1)|]. split; [done|]. intros Hin. apply Hmax in Hin. nia.
Qed.

(** ** Running requests *)
Fixpoint run_b (R : Machine) (qs : list heap_request) : option Machine :=
  match qs with
  | [] => Some R
  | q :: qs => if allowed_b R q then match heap_serve bump 7 R q with Ok R' => run_b R' qs | _ => None end else None
  end.

Lemma heap_run_b_reaches qs R R' : heap_reaches bump 7 R -> run_b R qs = Some R' -> heap_reaches bump 7 R'.
Proof.
  revert R. induction qs as [|q qs IH]; cbn [run_b]; intros R HR; [by intros [= <-]|].
  destruct (allowed_b R q) eqn:Ha; [|done]. destruct (heap_serve bump 7 R q) as [R1| | |] eqn:Hs; [|done..].
  apply IH. eapply heap_reach_step; [done| |done]. apply heap_allowed_b_spec; [|done]. by apply (mo_heap _ (reaches_ok bump bump_ok 7 R HR)).
Qed.

(** The first slot of the first run, and slot [i]. *)
Definition node_at (i : Z) : Z := ARENA_CHUNK_SIZE + 768 + i * 24.
(** Slot [i] of the second run. *)
Definition file_at (i : Z) : Z := ARENA_CHUNK_SIZE + RUN_SIZE + 768 + i * 24.

(** Thread 1 allocates two linked nodes, a node nobody reaches and two files, one
    of them reached; it pairs the lost node with the lost file, and holds the pair
    in the second node, which is rooted. *)
Definition building : list heap_request :=
  [HEnter 1; HAllocator 1 node_metadata; HAlloc 1 node_metadata []; HAllocator 1 file_metadata; HAlloc 1 file_metadata [];
   HAlloc 1 node_metadata [VEdge (node_at 0); VEdge (file_at 0)]; HAlloc 1 node_metadata []; HAlloc 1 file_metadata [];
   HPair 100 (node_at 2) (file_at 1); HStore (node_at 1) [VEdge (node_at 0); VEdge (file_at 0); VEphemeron 100];
   HRoot 1 (node_at 1); HLeave 1].

Definition state_of (qs : list heap_request) : Machine := default Machine_new (run_b Machine_new qs).

Definition built : Machine := state_of building.
Definition collected_state : Machine := state_of (building ++ [HCollect; HEnter 1]).

Example built_objects : live_b (data built) (node_at 0) && live_b (data built) (node_at 1) && live_b (data built) (node_at 2) &&
  live_b (data built) (file_at 0) && live_b (data built) (file_at 1) = true.
Proof. vm_compute. reflexivity. Qed.

(** The list and the file it reaches stay; the lost node is freed, the lost file
    waits for its destructor, and the pair is cleared. *)
Example collected_objects :
  (live_b (data collected_state) <$> [node_at 0; node_at 1; file_at 0; node_at 2; file_at 1]) = [true; true; true; false; false] /\
  pairs collected_state !! 100 = Some (0, 0).
Proof. vm_compute. done. Qed.

(** ** The states are reachable *)
Lemma live_b_complete D a : heap_wf D -> live_at D a -> live_b D a = true.
Proof.
  intros HW Ha. destruct (live_positive _ _ HW Ha) as [H0 [_ H1]]. destruct Ha as (o & m & HO & Hp).
  unfold live_b. rewrite (object_lookup D a o m) by (try apply HW; done). cbn [slot_owner]. rewrite Hp.
  by rewrite (proj2 (Z.leb_le _ _)), (proj2 (Z.leb_le _ _)) by lia.
Qed.

Lemma state_of_reaches qs : (if run_b Machine_new qs then true else false) = true -> heap_reaches bump 7 (state_of qs).
Proof.
  unfold state_of. destruct (run_b Machine_new qs) as [R|] eqn:E; [|done]. intros _. cbn. by apply (heap_run_b_reaches qs Machine_new); [constructor|].
Qed.

Lemma built_reaches : heap_reaches bump 7 built.
Proof. apply state_of_reaches. vm_compute. reflexivity. Qed.

Lemma collected_reaches : heap_reaches bump 7 collected_state.
Proof. apply state_of_reaches. vm_compute. reflexivity. Qed.

Lemma built_ok : machine_ok built.
Proof. apply (reaches_ok bump bump_ok 7), built_reaches. Qed.

Definition built_trace := trace_of (contents built).

Lemma built_collectable : collectable built_trace (data built) (pairs built) (roots_held built).
Proof. apply machine_collectable, built_ok. Qed.

Lemma built_object a : live_b (data built) a = true -> exists o m, object (data built) a o m.
Proof. intros H. destruct (live_b_spec _ _ (mo_heap _ built_ok) H) as (o & m & HO & _). eauto. Qed.

(** What is not live after a collection was not reachable. *)
Lemma lost_unreachable R a : machine_ok R -> live_b (data R) a = true ->
  match collect_heap (trace_of (contents R)) (data R) (pairs R) with Ok r => live_b r.1 a = false | _ => False end ->
  ~ reachable (trace_of (contents R)) (data R) (pairs R) a.
Proof.
  intros HR Hl Hn Hr. pose proof (machine_collectable R HR) as HC.
  destruct (collect_heap_spec _ _ _ _ HC) as (D' & pairs' & P & Hc & HW' & _ & _ & _ & _ & HK & _). rewrite Hc in Hn. cbn in Hn.
  rewrite live_b_complete in Hn; [done|done|]. destruct (live_b_spec _ _ (mo_heap _ HR) Hl) as (o & m & HO).
  exists o, m. by apply (ch_live _ _ _ _ _ HK).
Qed.

Lemma node_2_lost : ~ reachable built_trace (data built) (pairs built) (node_at 2).
Proof. apply lost_unreachable; [apply built_ok|vm_compute; reflexivity..]. Qed.

Lemma file_1_lost : ~ reachable built_trace (data built) (pairs built) (file_at 1).
Proof. apply lost_unreachable; [apply built_ok|vm_compute; reflexivity..]. Qed.

(** ** Witnesses *)
Lemma marking_correct_witness : exists D' pairs', mark_heap built_trace (data built) (pairs built) = Ok (D', pairs') /\
  D' = with_arena (data built) (arena D') /\ remarked (arena (data built)) (arena D') /\
  (forall o, owner_ok (arena (data built)) o -> slot_marked (arena D') o = true <->
     reachable built_trace (data built) (pairs built) (owner_address o) \/ o ∈ pending_list (finalization_batch (data built))) /\
  (forall p, key_lost built_trace (data built) (pairs built) (root_values (data built)) p -> pairs' !! p = Some (0, 0)) /\
  (forall p, ~ key_lost built_trace (data built) (pairs built) (root_values (data built)) p -> pairs' !! p = pairs built !! p).
Proof. apply (marking_correct built_trace (data built) (pairs built) (roots_held built)). apply built_collectable. Defined.

Lemma collection_correct_witness : exists D' pairs', collect_heap built_trace (data built) (pairs built) = Ok (D', pairs') /\
  collectable built_trace D' pairs' (roots_held built) /\ collected_heap built_trace (data built) D' (pairs built) pairs' /\
  forall a, reachable built_trace D' pairs' a <-> reachable built_trace (data built) (pairs built) a.
Proof. apply (collection_correct built_trace (data built) (pairs built) (roots_held built)). apply built_collectable. Defined.

(** The lost node's slot can be handed out again. *)
Lemma garbage_reclaimed_witness : exists o m, ~ reachable built_trace (data built) (pairs built) (node_at 2) /\
  exists D' pairs', collect_heap built_trace (data built) (pairs built) = Ok (D', pairs') /\ ~ reachable built_trace D' pairs' (node_at 2) /\
    (if needs_drop m then is_pending D' o = true else reusable D' o /\ ~ exists o' m', live_object D' (node_at 2) o' m').
Proof.
  destruct (built_object (node_at 2)) as (o & m & HO); [vm_compute; reflexivity|]. exists o, m. split; [apply node_2_lost|].
  apply (garbage_reclaimed built_trace (data built) (pairs built) (roots_held built)); [apply built_collectable|exact HO|apply node_2_lost].
Defined.

Lemma heap_machine_safe_witness : 
  (forall q, heap_allowed collected_state q -> (exists R', heap_serve bump 7 collected_state q = Ok R') \/
     (exists t m edges D', q = HAlloc t m edges /\ heap_kept (data collected_state) D' /\ out_of_memory bump D' /\ heap_serve bump 7 collected_state q = Panic)) /\
  (forall s v, (s, v) ∈ roots_held collected_state ->
     reachable (trace_of (contents collected_state)) (data collected_state) (pairs collected_state) v) /\
  (forall a, reachable (trace_of (contents collected_state)) (data collected_state) (pairs collected_state) a -> live_at (data collected_state) a) /\
  collectable (trace_of (contents collected_state)) (data collected_state) (pairs collected_state) (roots_held collected_state).
Proof. apply (heap_machine_safe bump 7 collected_state bump_ok). apply collected_reaches. Defined.

(** After the collection a node is allocated. *)
Definition again : heap_request := HAlloc 1 node_metadata [VEdge (node_at 1)].

Lemma again_allowed : heap_allowed collected_state again.
Proof. apply heap_allowed_b_spec; [|vm_compute; reflexivity]. apply (reaches_ok bump bump_ok 7), collected_reaches. Qed.

Lemma allocation_exact_witness : heap_allowed collected_state again /\
  ((exists R' a o, heap_serve bump 7 collected_state again = Ok R' /\ 0 < a /\ live_object (data R') a o node_metadata /\
     (forall o' m', ~ object (data collected_state) a o' m') /\
     (forall a' o' m', object (data R') a' o' m' <-> object (data collected_state) a' o' m' \/ a' = a /\ o' = o /\ m' = node_metadata) /\
     contents R' = <[a := [VEdge (node_at 1)]]> (contents collected_state) /\ pairs R' = pairs collected_state /\ roots_held R' = roots_held collected_state) \/
  (exists D', heap_kept (data collected_state) D' /\ out_of_memory bump D' /\ heap_serve bump 7 collected_state again = Panic)).
Proof.
  split; [apply again_allowed|]. apply (allocation_exact bump 7 collected_state 1 node_metadata [VEdge (node_at 1)] bump_ok).
  - apply collected_reaches.
  - apply again_allowed.
Defined.

Example again_served : match heap_serve bump 7 collected_state again with Ok R => live_b (data R) (node_at 2) | _ => false end = true.
Proof. vm_compute. reflexivity. Qed.

(** ** The destructor of the lost file *)
Definition claimed_state : Machine := state_of (building ++ [HCollect; HEnter 1; HDispatch; HPrepare]).
Definition destroyed_state : Machine := state_of (building ++ [HCollect; HEnter 1; HDispatch; HPrepare; HDestroy]).

Definition no_attempt : RunFinalizationAttempt := MkAttempt (MkLocation 0 0) (MkTarget (MkLocation 0 0) 0 geometry24) (cid 0) file_metadata [] [] 0.
Definition attempt_of (R : Machine) : RunFinalizationAttempt := default no_attempt (attempt (finalizing R)).

Lemma claimed_reaches : heap_reaches bump 7 claimed_state.
Proof. apply state_of_reaches. vm_compute. reflexivity. Qed.

Lemma destroyed_reaches : heap_reaches bump 7 destroyed_state.
Proof. apply state_of_reaches. vm_compute. reflexivity. Qed.

Definition no_work : FinalizationWork := MkWork 0 0 0 (MkOwner (MkLocation 0 0) 0 (cid 0) geometry24 0) 0 file_metadata.

(** The destructor that runs is the lost file's. *)
Definition file_work : FinalizationWork := default no_work (next_work (attempt_of claimed_state)).

Lemma destructor_safe_witness : work_value file_work = file_at 1 /\
  (slot_of (arena (data claimed_state)) (work_value file_work) = Some (work_owner file_work) /\ slot_allocated (arena (data claimed_state)) (work_owner file_work) = true) /\
  is_pending (data claimed_state) (work_owner file_work) = true /\ needs_drop (work_metadata file_work) = true /\
  (exists i C, owner_class (work_owner file_work) = cid i /\ classes (data claimed_state) !! i = Some C /\ metadata C = work_metadata file_work) /\
  ~ live_at (data claimed_state) (work_value file_work) /\
  ~ reachable (trace_of (contents claimed_state)) (data claimed_state) (pairs claimed_state) (work_value file_work) /\
  NoDup (work_value <$> at_work (attempt_of claimed_state)).
Proof.
  split; [vm_compute; reflexivity|]. apply (destructor_safe bump 7 claimed_state (attempt_of claimed_state) file_work bump_ok).
  - apply claimed_reaches.
  - vm_compute. reflexivity.
  - vm_compute. reflexivity.
Defined.

Lemma finalization_exact_witness :
  let a := attempt_of destroyed_state in let destroyed := work_owner <$> take (next_work_index a) (at_work a) in
  next_work_index a = 1%nat /\
  exists R', heap_serve bump 7 destroyed_state HComplete = Ok R' /\
    (forall v o m, object (data R') v o m <-> object (data destroyed_state) v o m /\ o ∉ destroyed) /\
    (forall o, owner_ok (arena (data destroyed_state)) o -> is_pending (data R') o = true <-> is_pending (data destroyed_state) o = true /\ o ∉ destroyed) /\
    (forall v, live_at (data R') v <-> live_at (data destroyed_state) v) /\ roots_held R' = roots_held destroyed_state /\
    pairs R' = pairs destroyed_state /\ contents R' = contents destroyed_state /\
    (next_work a = None -> forall x, x ∈ at_work a -> reusable (data R') (work_owner x)).
Proof.
  split; [vm_compute; reflexivity|]. apply (finalization_exact bump 7 destroyed_state (attempt_of destroyed_state) bump_ok).
  - apply destroyed_reaches.
  - vm_compute. reflexivity.
Defined.

(** The file's slot is handed out again once its destructor has run. *)
Definition recycled_file : Machine := state_of (building ++ [HCollect; HEnter 1; HDispatch; HPrepare; HDestroy; HComplete; HAlloc 1 file_metadata []]).

Example file_reused : live_b (data recycled_file) (file_at 1) = true.
Proof. vm_compute. reflexivity. Qed.

(** The loop over the batch, with a destructor that panics. *)
Lemma finalization_completes_witness : exists D' s panicked Z, run_finalization_batch (fun _ => false) (data collected_state) = Ok (D', s, panicked) /\
  heap_reaches bump 7 (with_finalizing collected_state D' Z) /\ attempt Z = None /\
  (finalized_slots s + batch_pending (finalization_batch D') = batch_pending (finalization_batch (data collected_state)))%nat /\
  activity D' = Ok (MkActivity (batch_pending (finalization_batch D')) 0) /\ (forall v, live_at D' v <-> live_at (data collected_state) v) /\
  (if panicked then (0 < finalized_slots s)%nat /\ exists x, (fun _ : FinalizationWork => false) x = false
   else batch_pending (finalization_batch D') = 0%nat /\ forall o, is_pending D' o = false).
Proof.
  apply (finalization_completes bump 7 (fun _ => false) collected_state bump_ok).
  - apply collected_reaches.
  - vm_compute. reflexivity.
Defined.

Example batch_run_sample : match run_finalization_batch (fun _ => true) (data collected_state) with
  | Ok (D, s, panicked) => (finalized_slots s, batch_pending (finalization_batch D), panicked) = (1, 0, false)%nat
  | _ => False
  end.
Proof. vm_compute. reflexivity. Qed.
