(* ===== verification/NetModel.v ===== *)
(** * Interaction-net vocabulary ([src/interaction_net/model.rs])

    [Module Packed] models the 64-bit words the program stores: node IDs,
    ports and signed links, with their range checks. The rest of the
    development uses the logical view, [Port] (a zero-based node and a port
    index) and [SignedPort]; [port_refinement] and [link_roundtrip] show
    that the words represent it faithfully, order included. *)
From stdpp Require Import base option list numbers gmap.
From Stdlib Require Import ZArith Lia.
From S2P Require Import Prelude.

(** ** Signs and logical ports *)
Inductive Sign := Provides | Consumes.

#[export] Instance Sign_eq_dec : EqDecision Sign.
Proof. solve_decision. Defined.

Definition opposite (s : Sign) : Sign :=
  match s with Provides => Consumes | Consumes => Provides end.

Record Port := MkPort { node : nat; index : nat }.

#[export] Instance Port_eq_dec : EqDecision Port.
Proof. solve_decision. Defined.
#[export] Instance Port_countable : Countable Port :=
  inj_countable' (fun p => (node p, index p)) (fun '(n, i) => MkPort n i) ltac:(by intros []).

#[export] Instance MkPort_inj n : Inj (=) (=) (MkPort n).
Proof. by intros ? ? [= ->]. Qed.

Definition principal (n : nat) : Port := MkPort n 0.

(** [Port::auxiliary], whose assertion admits indices 1 and 2 only. *)
Definition auxiliary {E} (n i : nat) : outcome E Port :=
  if decide (1 <= i <= 2) then Ok (MkPort n i) else Panic.

Definition is_principal (p : Port) : bool := bool_decide (index p = 0).

Record SignedPort := MkSignedPort { port : Port; sign : Sign }.

(** The order derived on packed ports, on the logical view. *)
Definition port_lt (p q : Port) : bool :=
  (node p <? node q)%nat || ((node p =? node q)%nat && (index p <? index q)%nat).

Record Wire := MkWire { left : Port; right : Port }.

(** ** Fan identities *)
Record FanSite := MkFanSite { site_raw : Z }.

#[export] Instance FanSite_eq_dec : EqDecision FanSite.
Proof. solve_decision. Defined.

#[export] Instance FanSite_countable : Countable FanSite :=
  inj_countable' site_raw MkFanSite ltac:(by intros []).

(** [FanIdentity] and [DuplicationStep] are mutually recursive in the
    source; a step is the pair of the identity it went through and the
    branch it took. *)
Inductive FanIdentity := MkFan (site : FanSite) (context : list (FanIdentity * Z)).

Definition fan_site (f : FanIdentity) : FanSite := match f with MkFan s _ => s end.
Definition fan_context (f : FanIdentity) : list (FanIdentity * Z) := match f with MkFan _ c => c end.

(** Structural equality of identities, as derived in the source. *)
Fixpoint fan_eqb (f g : FanIdentity) : bool :=
  match f, g with
  | MkFan s c, MkFan s' c' =>
      bool_decide (s = s') &&
      (fix steps_eqb (c c' : list (FanIdentity * Z)) : bool :=
         match c, c' with
         | [], [] => true
         | (t, b) :: c, (t', b') :: c' => fan_eqb t t' && (b =? b')%Z && steps_eqb c c'
         | _, _ => false
         end) c c'
  end.

Lemma opposite_opposite s : opposite (opposite s) = s.
Proof. by destruct s. Qed.

Lemma opposite_ne s : opposite s <> s.
Proof. by destruct s. Qed.

Lemma principal_inj n m : principal n = principal m <-> n = m.
Proof. unfold principal. naive_solver. Qed.

Lemma is_principal_spec p : is_principal p = true <-> p = principal (node p).
Proof. destruct p as [n i]. unfold is_principal, principal. rewrite bool_decide_eq_true. cbn. naive_solver. Qed.

Lemma fan_eqb_spec : forall f g, fan_eqb f g = true <-> f = g.
Proof.
  fix IH 1. intros [s c] [s' c']. cbn [fan_eqb]. rewrite andb_true_iff, bool_decide_eq_true.
  match goal with |- _ /\ ?b = true <-> _ => enough (Hc : b = true <-> c = c') end.
  { rewrite Hc. split; [intros [-> ->]|intros [= -> ->]]; done. }
  revert c'. induction c as [|[t b] c IHc]; intros [|[t' b'] c']; try (split; congruence).
  rewrite !andb_true_iff, Z.eqb_eq, (IH t t'), (IHc c'). split.
  - intros [[-> ->] ->]. done.
  - intros [= -> -> ->]. done.
Qed.

#[export] Instance FanIdentity_eq_dec : EqDecision FanIdentity.
Proof. refine (fun f g => cast_if (decide (fan_eqb f g = true))); by rewrite <- fan_eqb_spec. Defined.

Definition root (s : FanSite) : FanIdentity := MkFan s [].

Definition residual (self through : FanIdentity) (branch : Z) : FanIdentity :=
  MkFan (fan_site self) (fan_context self ++ [(through, branch)]).

(** ** Nodes *)
Inductive Node (Data Operator : Type) :=
  | Bind
  | Fan (site : FanSite)
  | Erase
  | DataNode (d : Data)
  | OperatorNode (o : Operator).
Arguments Bind {_ _}.
Arguments Fan {_ _} site.
Arguments Erase {_ _}.
Arguments DataNode {_ _} d.
Arguments OperatorNode {_ _} o.

Definition port_count {D O} (n : Node D O) : nat :=
  match n with
  | Bind | Fan _ => 3
  | OperatorNode _ => 2
  | Erase | DataNode _ => 1
  end.

Record CallableCheckpoint (C : Type) := { generation : Z; payload : option C }.
Arguments generation {C}. Arguments payload {C}.

Inductive RuntimeNode (Data Operator Checkpoint : Type) :=
  | RBind
  | RFan (identity : FanIdentity)
  | RErase
  | RData (d : Data)
  | ROperator (o : Operator)
  | RCallableCheckpoint (c : CallableCheckpoint Checkpoint)
  | RInterface
  | RRemoteCursor (copy : Z) (remote : Port).
Arguments RBind {_ _ _}.
Arguments RFan {_ _ _} identity.
Arguments RErase {_ _ _}.
Arguments RData {_ _ _} d.
Arguments ROperator {_ _ _} o.
Arguments RCallableCheckpoint {_ _ _} c.
Arguments RInterface {_ _ _}.
Arguments RRemoteCursor {_ _ _} copy remote.

Definition runtime_port_count {D O C} (n : RuntimeNode D O C) : nat :=
  match n with
  | RBind | RFan _ => 3
  | ROperator _ | RInterface => 2
  | RErase | RData _ | RCallableCheckpoint _ | RRemoteCursor _ _ => 1
  end.

(** The polarity table; the source's [unreachable!] is a panic. *)
Definition auxiliary_sign {E D O C} (n : RuntimeNode D O C) (principal : Sign) (i : nat)
    : outcome E Sign :=
  match n, i with
  | RBind, 1 => Ok Consumes
  | RBind, 2 => Ok Provides
  | RFan _, 1 | RFan _, 2 => Ok (opposite principal)
  | ROperator _, 1 => Ok Provides
  | _, _ => Panic
  end.

(** [duplicate_copyable] with the specialization's payload duplicator. *)
Definition duplicate_copyable {D O C} (duplicate_data : D -> D) (duplicate_operator : O -> O)
    (n : RuntimeNode D O C) : option (RuntimeNode D O C) :=
  match n with
  | RBind => Some RBind
  | RFan identity => Some (RFan identity)
  | RErase => Some RErase
  | RData d => Some (RData (duplicate_data d))
  | ROperator o => Some (ROperator (duplicate_operator o))
  | RInterface => Some RInterface
  | RRemoteCursor copy remote => Some (RRemoteCursor copy remote)
  | RCallableCheckpoint _ => None
  end.

(** [ActivePairKey::new]: the lower-numbered endpoint. *)
Definition active_pair_key (l r : nat) : nat := Nat.min l r.

Record InteractionNet (D O : Type) := MkNet {
  net_nodes : list (Node D O);
  net_wires : list Wire;
  net_exposed : Port;
}.
Arguments MkNet {D O}. Arguments net_nodes {D O}. Arguments net_wires {D O}. Arguments net_exposed {D O}.

(** ** Packed words *)
Module Packed.
Local Open Scope Z_scope.

Definition PORT_BITS : Z := 2.
Definition PORT_MASK : Z := Z.shiftl 1 PORT_BITS - 1.
Definition SIGN_BIT : Z := Z.shiftl 1 PORT_BITS.
Definition NODE_SHIFT : Z := PORT_BITS + 1.

(** [NodeId] is a nonzero [u64], one more than the zero-based index. *)
Definition from_zero_based {E} (idx : Z) : outcome E Z := expect (checked_add idx 1).

Definition node_get (id : Z) : Z := id - 1.

(** [Port::new] on the node ID's word. *)
Definition port_new {E} (id idx : Z) : outcome E Z :=
  let max_node := Z.shiftr (u64_max - SIGN_BIT - idx - 1) NODE_SHIFT in
  _ ← rust_assert (node_get id <=? max_node);
  Ok (wrap64 (Z.shiftl (node_get id) NODE_SHIFT + idx + 1)).

(** [NonZeroU64::new]. *)
Definition from_raw (raw : Z) : option Z := if raw =? 0 then None else Some raw.

Definition port_node {E} (raw : Z) : outcome E Z := from_zero_based (Z.shiftr (raw - 1) NODE_SHIFT).

Definition port_index (raw : Z) : Z := Z.land (raw - 1) PORT_MASK.

Definition link_to (raw : Z) (s : Sign) : Z :=
  Z.lor raw (match s with Provides => 0 | Consumes => SIGN_BIT end).

Definition link_peer {E} (link : Z) : outcome E (Z * Sign) :=
  p ← expect (from_raw (Z.land link (not64 SIGN_BIT)));
  Ok (p, if Z.land link SIGN_BIT =? 0 then Provides else Consumes).

(** A logical port packed: the node ID's word, then the port's. *)
Definition pack {E} (p : Port) : outcome E Z :=
  id ← from_zero_based (Z.of_nat (node p));
  port_new id (Z.of_nat (index p)).

(** The largest node every one of whose ports packs. *)
Definition MAX_NODE : Z := 2 ^ 61 - 2.

(** A port the program can hold: index at most 2, node in range. *)
Definition packable (p : Port) : Prop := (index p <= 2)%nat /\ Z.of_nat (node p) <= MAX_NODE.

Lemma shiftr_add_pow2 (n i k : Z) : 0 <= k -> 0 <= i < 2 ^ k -> Z.shiftr (n * 2 ^ k + i) k = n.
Proof.
  intros. rewrite Z.shiftr_div_pow2 by lia. rewrite Z.div_add_l by lia.
  rewrite Z.div_small by lia. lia.
Qed.

Lemma pack_spec {E} p : packable p ->
  pack (E:=E) p = Ok (8 * Z.of_nat (node p) + Z.of_nat (index p) + 1).
Proof.
  intros [Hi Hn]. unfold pack, from_zero_based, MAX_NODE in *.
  rewrite checked_add_fits by (unfold usize_max, u64_max; lia). cbn [expect mbind outcome_bind].
  unfold port_new, node_get. replace (Z.of_nat (node p) + 1 - 1) with (Z.of_nat (node p)) by lia.
  assert (Hm : Z.of_nat (node p) <= Z.shiftr (u64_max - SIGN_BIT - Z.of_nat (index p) - 1) NODE_SHIFT).
  { rewrite Z.shiftr_div_pow2 by (vm_compute; discriminate). change (2 ^ NODE_SHIFT) with 8. change SIGN_BIT with 4. unfold u64_max.
    apply Z.div_le_lower_bound; lia. }
  rewrite (proj2 (Z.leb_le _ _) Hm). cbn [rust_assert mbind outcome_bind]. f_equal.
  rewrite Z.shiftl_mul_pow2 by (vm_compute; discriminate). change (2 ^ NODE_SHIFT) with 8.
  rewrite wrap64_small; lia.
Qed.

Lemma pack_node {E} p w : packable p -> pack (E:=E) p = Ok w ->
  port_node (E:=E) w = Ok (Z.of_nat (node p) + 1).
Proof.
  intros Hp Hw. rewrite pack_spec in Hw by done. simplify_eq. destruct Hp as [Hi Hn]. unfold MAX_NODE in *.
  unfold port_node, from_zero_based.
  replace (8 * Z.of_nat (node p) + Z.of_nat (index p) + 1 - 1)
    with (Z.of_nat (node p) * 2 ^ NODE_SHIFT + Z.of_nat (index p)) by (change (2 ^ NODE_SHIFT) with 8; lia).
  rewrite shiftr_add_pow2 by (change (2 ^ NODE_SHIFT) with 8; unfold NODE_SHIFT, PORT_BITS; lia).
  by rewrite checked_add_fits by (unfold usize_max, u64_max; lia).
Qed.

Lemma pack_index {E} p w : packable p -> pack (E:=E) p = Ok w -> port_index w = Z.of_nat (index p).
Proof.
  intros Hp Hw. rewrite pack_spec in Hw by done. simplify_eq. destruct Hp as [Hi Hn].
  unfold port_index, PORT_MASK. change (Z.shiftl 1 PORT_BITS - 1) with (Z.ones 2).
  rewrite Z.land_ones by lia. change (2 ^ 2) with 4.
  replace (8 * Z.of_nat (node p) + Z.of_nat (index p) + 1 - 1)
    with (Z.of_nat (index p) + (2 * Z.of_nat (node p)) * 4) by lia.
  rewrite Z.mod_add by lia. apply Z.mod_small. lia.
Qed.

(** Bit 2 of a packed port, the sign bit, is clear. *)
Lemma land_sign_bit_form n i : 0 <= n -> 0 < i <= 3 -> Z.land (8 * n + i) SIGN_BIT = 0.
Proof.
  intros Hn Hi. apply Z.bits_inj'. intros b Hb. rewrite Z.land_spec, Z.bits_0.
  unfold SIGN_BIT. change (Z.shiftl 1 PORT_BITS) with (2 ^ 2).
  destruct (Z.eq_dec b 2) as [->|Hne].
  - rewrite Z.pow2_bits_true by lia. rewrite andb_true_r.
    apply not_true_iff_false. rewrite Z.testbit_true by lia. change (2 ^ 2) with 4.
    replace (8 * n + i) with (i + (2 * n) * 4) by lia. rewrite Z.div_add by lia.
    rewrite Z.div_small by lia. rewrite Z.add_0_l, Z.mul_comm, Z.mod_mul by lia. lia.
  - rewrite Z.pow2_bits_false by lia. apply andb_false_r.
Qed.

(** Setting and clearing the sign bit of a packed port. *)
Lemma lor_sign_bit n i : 0 <= n -> 0 < i <= 3 -> Z.lor (8 * n + i) SIGN_BIT = 8 * n + i + 4.
Proof.
  intros. pose proof (Z.add_nocarry_lxor _ _ (land_sign_bit_form n i ltac:(lia) ltac:(lia))) as Hx.
  rewrite <- Z.lxor_lor by (apply land_sign_bit_form; lia). rewrite <- Hx. reflexivity.
Qed.

Lemma land_not_sign_bit w : 0 <= w <= u64_max -> Z.land w (not64 SIGN_BIT) = Z.ldiff w SIGN_BIT.
Proof.
  intros Hw. apply Z.bits_inj'. intros b Hb. rewrite Z.land_spec, Z.ldiff_spec.
  destruct (Z.ltb_spec b 64).
  - f_equal. replace (not64 SIGN_BIT) with (Z.ldiff (Z.ones 64) SIGN_BIT) by reflexivity.
    rewrite Z.ldiff_spec, Z.ones_spec_low by lia. done.
  - destruct (Z.testbit w b) eqn:E; [|done]. exfalso. revert E. apply not_true_iff_false.
    destruct (Z.eq_dec w 0) as [->|]; [apply Z.testbit_0_l|].
    apply Z.bits_above_log2; [lia|]. unfold u64_max in *. apply Z.log2_lt_pow2; [lia|].
    eapply Z.lt_le_trans with (2 ^ 64); [lia|]. apply Z.pow_le_mono_r; lia.
Qed.

Lemma ldiff_disjoint a b : Z.land a b = 0 -> Z.ldiff a b = a.
Proof.
  intros H. apply Z.bits_inj'. intros n Hn. rewrite Z.ldiff_spec.
  apply (f_equal (fun z => Z.testbit z n)) in H. rewrite Z.land_spec, Z.bits_0 in H.
  by destruct (Z.testbit a n), (Z.testbit b n).
Qed.

Lemma ldiff_lor_disjoint a b : Z.land a b = 0 -> Z.ldiff (Z.lor a b) b = a.
Proof.
  intros H. apply Z.bits_inj'. intros n Hn. rewrite Z.ldiff_spec, Z.lor_spec.
  apply (f_equal (fun z => Z.testbit z n)) in H. rewrite Z.land_spec, Z.bits_0 in H.
  by destruct (Z.testbit a n), (Z.testbit b n).
Qed.

Lemma link_peer_to {E} p w s :
  packable p -> pack (E:=E) p = Ok w -> link_peer (E:=E) (link_to w s) = Ok (w, s).
Proof.
  intros Hp Hw. rewrite pack_spec in Hw by done. simplify_eq. destruct Hp as [Hi Hn].
  unfold MAX_NODE in *. set (n := Z.of_nat (node p)) in *.
  replace (8 * n + Z.of_nat (index p) + 1) with (8 * n + (Z.of_nat (index p) + 1)) by lia.
  assert (0 <= n) by (subst n; lia).
  assert (0 < Z.of_nat (index p) + 1 <= 3) by lia. generalize dependent (Z.of_nat (index p) + 1). intros i Hi3.
  clearbody n. clear Hi.
  pose proof (land_sign_bit_form n i ltac:(lia) ltac:(lia)) as Hl.
  unfold link_peer, link_to. destruct s.
  - rewrite Z.lor_0_r, Hl, land_not_sign_bit by (unfold u64_max; lia).
    replace (Z.ldiff (8 * n + i) SIGN_BIT) with (8 * n + i).
    2:{ symmetry. by apply ldiff_disjoint. }
    unfold from_raw. destruct (Z.eqb_spec (8 * n + i) 0); [lia|done].
  - rewrite lor_sign_bit by lia. rewrite land_not_sign_bit by (unfold u64_max; lia).
    replace (Z.land (8 * n + i + 4) SIGN_BIT) with SIGN_BIT.
    2:{ rewrite <- lor_sign_bit by lia. rewrite Z.land_lor_distr_l, Hl. reflexivity. }
    replace (Z.ldiff (8 * n + i + 4) SIGN_BIT) with (8 * n + i).
    2:{ rewrite <- lor_sign_bit by lia. symmetry. by apply ldiff_lor_disjoint. }
    unfold from_raw. destruct (Z.eqb_spec (8 * n + i) 0); [lia|done].
Qed.
End Packed.

(** ** Properties *)

(** C19. Packed ports refine logical ports: every port with an index up to 2
    and a node up to [2^61 - 2] packs into a nonzero 64-bit word without a
    panic, unpacking recovers its node ID and index, and the order derived
    on the words is the lexicographic order on ports, so distinct ports
    have distinct words. *)
Theorem port_refinement {E} p q :
  Packed.packable p -> Packed.packable q ->
  exists wp wq, Packed.pack (E:=E) p = Ok wp /\ Packed.pack (E:=E) q = Ok wq /\
    (0 < wp <= u64_max)%Z /\
    Packed.port_node (E:=E) wp = Ok (Z.of_nat (node p) + 1)%Z /\
    Packed.port_index wp = Z.of_nat (index p) /\
    (wp <? wq)%Z = port_lt p q /\ (wp = wq <-> p = q).
Proof.
  intros Hp Hq. pose proof (Packed.pack_spec (E:=E) p Hp) as Hwp.
  pose proof (Packed.pack_spec (E:=E) q Hq) as Hwq.
  eexists _, _. split; [exact Hwp|]. split; [exact Hwq|].
  split; [destruct Hp; unfold Packed.MAX_NODE, u64_max in *; lia|].
  split; [by apply Packed.pack_node|]. split; [by eapply Packed.pack_index|].
  destruct Hp as [Hpi Hpn], Hq as [Hqi Hqn], p as [pn pi], q as [qn qi]; cbn [node index] in *. split.
  - unfold port_lt; cbn [node index]. apply Bool.eq_iff_eq_true.
    rewrite Z.ltb_lt, orb_true_iff, andb_true_iff, !Nat.ltb_lt, Nat.eqb_eq. lia.
  - split; [|naive_solver]. intros. assert (pn = qn) by lia. assert (pi = qi) by lia. congruence.
Qed.

Lemma port_refinement_witness :
  exists wp wq, Packed.pack (E:=Empty_set) (MkPort 5 2) = Ok wp /\
    Packed.pack (E:=Empty_set) (MkPort 6 0) = Ok wq /\ (wp <? wq)%Z = true.
Proof.
  destruct (port_refinement (E:=Empty_set) (MkPort 5 2) (MkPort 6 0)) as (wp & wq & Hp & Hq & _ & _ & _ & Hlt & _);
    [split; [cbn; lia|vm_compute; discriminate] | split; [cbn; lia|vm_compute; discriminate]|].
  exists wp, wq. split; [exact Hp|]. split; [exact Hq|]. rewrite Hlt. reflexivity.
Defined.

(** A runtime link packs a peer port with its sign in one word: reading
    the link back gives exactly that port's word and sign, and two links
    are equal only when both agree. *)
Theorem link_roundtrip {E} p q s t :
  Packed.packable p -> Packed.packable q ->
  exists wp wq, Packed.pack (E:=E) p = Ok wp /\ Packed.pack (E:=E) q = Ok wq /\
    Packed.link_peer (E:=E) (Packed.link_to wp s) = Ok (wp, s) /\
    (Packed.link_to wp s = Packed.link_to wq t -> p = q /\ s = t).
Proof.
  intros Hp Hq. pose proof (Packed.pack_spec (E:=E) p Hp) as Hwp.
  pose proof (Packed.pack_spec (E:=E) q Hq) as Hwq.
  eexists _, _. split; [exact Hwp|]. split; [exact Hwq|]. split; [exact (Packed.link_peer_to (E:=E) p _ s Hp Hwp)|].
  intros Heq. pose proof (Packed.link_peer_to (E:=E) p _ s Hp Hwp) as H1.
  pose proof (Packed.link_peer_to (E:=E) q _ t Hq Hwq) as H2. rewrite Heq, H2 in H1. simplify_eq.
  destruct Hp as [Hpi Hpn], Hq as [Hqi Hqn], p as [pn pi], q as [qn qi]; cbn [node index] in *.
  assert (pn = qn) by lia. assert (pi = qi) by lia. subst. done.
Qed.

Lemma link_roundtrip_witness :
  exists w, Packed.pack (E:=Empty_set) (MkPort 3 1) = Ok w /\
    Packed.link_peer (E:=Empty_set) (Packed.link_to w Consumes) = Ok (w, Consumes).
Proof.
  destruct (link_roundtrip (E:=Empty_set) (MkPort 3 1) (MkPort 3 1) Consumes Consumes)
    as (w & _ & Hw & _ & Hl & _); [split; [cbn; lia|vm_compute; discriminate] | split; [cbn; lia|vm_compute; discriminate]|].
  exists w. split; [exact Hw | exact Hl].
Defined.

(** The polarity table is total exactly on a node's own auxiliary
    ports: a sign is defined for each auxiliary of every node but the
    evaluator-only interface, and never for a port the node lacks; a bind
    fixes both signs whatever its role, a fan flips its principal's. *)
Theorem auxiliary_sign_table {E D O C} (n : RuntimeNode D O C) s i :
  (is_ok (auxiliary_sign (E:=E) n s i) = true <->
     1 <= i < runtime_port_count n /\ n <> RInterface) /\
  (forall t, auxiliary_sign (E:=E) n s i = Ok t ->
     auxiliary_sign (E:=E) n (opposite s) i =
       Ok (match n with RFan _ => opposite t | _ => t end)).
Proof.
  split; [destruct n, i as [|[|[|i]]]; cbn; naive_solver lia|].
  intros t. destruct n, i as [|[|[|i]]]; cbn; intros; simplify_eq; try done.
Qed.
