(* ===== verification/Polarity.v ===== *)
(** * Port polarity of interaction-net templates
    ([src/interaction_net/polarity.rs])

    The checker solves one sign equation per node rule, wire and exposed
    port with a union-find that records parities, explains a conflict by a
    breadth-first path of earlier equations, and requires every node to be
    reachable from the exposed port. Loops carry fuel; the theorems show it
    suffices on every topology whose ports exist. *)
From stdpp Require Import base option list numbers sets relations.
From Stdlib Require Import Lia.
From S2P Require Import Prelude NetModel.

(** ** Data *)
Inductive NodeRule :=
  | DataProvides
  | OperatorConsumesInput
  | OperatorProvidesResult
  | BindFirstAuxiliaryConsumes
  | BindSecondAuxiliaryProvides
  | FanPrincipalOpposesBranches
  | FanBranchesAgree
  | TunnelPassesThrough.

Inductive PolarityRule :=
  | RuleWire (l r : Port)
  | RuleExposed (p : Port)
  | RuleNode (p : Port) (r : NodeRule).

Inductive PolarityViolation :=
  | Conflict (closing : PolarityRule) (forced_by : list PolarityRule)
  | Disconnected (n : nat).

Inductive Shape := ShBind | ShFan | ShErase | ShData | ShOperator | ShTunnel.

Definition shape_of {D O} (n : Node D O) : Shape :=
  match n with
  | Bind => ShBind
  | Fan _ => ShFan
  | Erase => ShErase
  | DataNode _ => ShData
  | OperatorNode _ => ShOperator
  end.

Record TemplateChecks := { check_sign : bool; check_conn : bool }.
Definition ALL : TemplateChecks := {| check_sign := true; check_conn := true |}.

Record Topology := { shapes : list Shape; wires : list Wire; exposed : Port }.

(** One sign equation; [c_right = None] is the [+] anchor. *)
Record Constraint := {
  c_left : Port;
  c_right : option Port;
  c_opposite : bool;
  c_rule : PolarityRule;
}.

(** ** The equations *)
Definition fixed (p : Port) (consumes : bool) (r : NodeRule) : Constraint :=
  {| c_left := p; c_right := None; c_opposite := consumes; c_rule := RuleNode p r |}.

Definition related (l r : Port) (opposite : bool) (rule : NodeRule) : Constraint :=
  {| c_left := l; c_right := Some r; c_opposite := opposite; c_rule := RuleNode l rule |}.

Definition node_constraints (id : nat) (s : Shape) : list Constraint :=
  let p := MkPort id 0 in
  let a1 := MkPort id 1 in
  let a2 := MkPort id 2 in
  match s with
  | ShData => [fixed p false DataProvides]
  | ShOperator => [fixed p true OperatorConsumesInput; fixed a1 false OperatorProvidesResult]
  | ShBind => [fixed a1 true BindFirstAuxiliaryConsumes; fixed a2 false BindSecondAuxiliaryProvides]
  | ShFan => [related p a1 true FanPrincipalOpposesBranches; related a1 a2 false FanBranchesAgree]
  | ShTunnel => [related p a1 true TunnelPassesThrough]
  | ShErase => []
  end.

Definition wire_constraint (w : Wire) : Constraint :=
  {| c_left := left w; c_right := Some (right w); c_opposite := true;
     c_rule := RuleWire (left w) (right w) |}.

Definition exposed_constraint (t : Topology) : Constraint :=
  {| c_left := exposed t; c_right := None; c_opposite := false; c_rule := RuleExposed (exposed t) |}.

Definition constraints (t : Topology) : list Constraint :=
  concat (imap node_constraints (shapes t)) ++ map wire_constraint (wires t) ++ [exposed_constraint t].

Definition anchor (t : Topology) : nat := length (shapes t) * 3.

Definition port_slot (p : Port) : nat := node p * 3 + index p.

Definition slot (t : Topology) (p : option Port) : nat :=
  match p with None => anchor t | Some p => port_slot p end.

(** ** Union-find with parities *)
Record Signs := { parent : list nat; flipped : list bool }.

Definition Signs_new (slots : nat) : Signs :=
  {| parent := seq 0 slots; flipped := replicate slots false |}.

(** The first loop of [find]: walk to the root, accumulating the parity. *)
Fixpoint find_root {E} (fuel : nat) (s : Signs) (r : nat) (fl : bool) : outcome E (nat * bool) :=
  p ← vec_get (parent s) r;
  if decide (p = r) then Ok (r, fl) else
  match fuel with
  | O => OutOfFuel
  | S fuel => f ← vec_get (flipped s) r; find_root fuel s p (xorb fl f)
  end.

(** The second loop: point every slot on the path at the root. *)
Fixpoint compress {E} (fuel : nat) (s : Signs) (r current : nat) (cf : bool) : outcome E Signs :=
  next ← vec_get (parent s) current;
  if decide (next = current) then Ok s else
  match fuel with
  | O => OutOfFuel
  | S fuel =>
      f ← vec_get (flipped s) current;
      let next_flipped := xorb cf f in
      parent' ← vec_set (parent s) current r;
      flipped' ← vec_set (flipped s) current cf;
      compress fuel {| parent := parent'; flipped := flipped' |} r next next_flipped
  end.

Definition find {E} (s : Signs) (x : nat) : outcome E (Signs * (nat * bool)) :=
  '(r, fl) ← find_root (length (parent s)) s x false;
  s' ← compress (length (parent s)) s r x fl;
  Ok (s', (r, fl)).

Definition join {E} (s : Signs) (l r : nat) (opp : bool) : outcome E (Signs * bool) :=
  '(s, (left_root, left_flipped)) ← find s l;
  '(s, (right_root, right_flipped)) ← find s r;
  let fl := xorb (xorb left_flipped right_flipped) opp in
  if decide (left_root = right_root) then Ok (s, negb fl) else
  parent' ← vec_set (parent s) left_root right_root;
  flipped' ← vec_set (flipped s) left_root fl;
  Ok ({| parent := parent'; flipped := flipped' |}, true).

(** ** Explaining a conflict *)
Definition Edges := list (list (nat * nat)).

(** [edges[v].push(x)]. *)
Definition push_edge {E X} (es : list (list X)) (v : nat) (x : X) : outcome E (list (list X)) :=
  l ← vec_get es v; vec_set es v (l ++ [x]).

Fixpoint build_edges {E} (t : Topology) (i : nat) (cs : list Constraint) (es : Edges)
    : outcome E Edges :=
  match cs with
  | [] => Ok es
  | c :: cs =>
      let l := slot t (Some (c_left c)) in
      let r := slot t (c_right c) in
      es ← push_edge es l (r, i);
      es ← push_edge es r (l, i);
      build_edges t (S i) cs es
  end.

Record Search := { visited : list bool; reached_by : list (option (nat * nat)); pending : list nat }.

(** The body of the search for one popped slot: discover its neighbours. *)
Fixpoint discover {E} (here : nat) (ns : list (nat * nat)) (st : Search) : outcome E Search :=
  match ns with
  | [] => Ok st
  | (next, c) :: ns =>
      seen ← vec_get (visited st) next;
      if (seen : bool) then discover here ns st else
      visited' ← vec_set (visited st) next true;
      reached' ← vec_set (reached_by st) next (Some (here, c));
      discover here ns {| visited := visited'; reached_by := reached'; pending := pending st ++ [next] |}
  end.

Fixpoint search {E} (fuel : nat) (es : Edges) (to : nat) (st : Search) : outcome E Search :=
  match pending st with
  | [] => Ok st
  | here :: rest =>
      if decide (here = to) then Ok {| visited := visited st; reached_by := reached_by st; pending := rest |}
      else match fuel with
      | O => OutOfFuel
      | S fuel =>
          ns ← vec_get es here;
          st' ← discover here ns
                  {| visited := visited st; reached_by := reached_by st; pending := rest |};
          search fuel es to st'
      end
  end.

(** Walk back from the target; the source reverses the path at the end. *)
Fixpoint walk_back {E} (fuel : nat) (earlier : list Constraint) (rb : list (option (nat * nat)))
    (x : nat) (path : list PolarityRule) : outcome E (list PolarityRule) :=
  step ← vec_get rb x;
  match step with
  | None => Ok path
  | Some (previous, c) =>
      match fuel with
      | O => OutOfFuel
      | S fuel => k ← vec_get earlier c; walk_back fuel earlier rb previous (c_rule k :: path)
      end
  end.

Definition explain {E} (t : Topology) (closing from to : nat) : outcome E (list PolarityRule) :=
  let slots := anchor t + 1 in
  let earlier := take closing (constraints t) in
  edges ← build_edges t 0 earlier (replicate slots []);
  visited ← vec_set (replicate slots false) from true;
  st ← search slots edges to
         {| visited := visited; reached_by := replicate slots None; pending := [from] |};
  walk_back slots earlier (reached_by st) to [].

(** ** The checks *)
Fixpoint join_all (t : Topology) (i : nat) (cs : list Constraint) (s : Signs)
    : outcome PolarityViolation Signs :=
  match cs with
  | [] => Ok s
  | c :: cs =>
      let l := slot t (Some (c_left c)) in
      let r := slot t (c_right c) in
      '(s, ok) ← join s l r (c_opposite c);
      if (ok : bool) then join_all t (S i) cs s
      else forced ← explain t i l r; Err (Conflict (c_rule c) forced)
  end.

Fixpoint read_signs {E} (ar : nat) (af : bool) (todo : list nat) (s : Signs) : outcome E (list Sign) :=
  match todo with
  | [] => Ok []
  | x :: todo =>
      '(s, (r, fl)) ← find s x;
      let root_consumes := bool_decide (r = ar) && af in
      rest ← read_signs ar af todo s;
      Ok ((if xorb root_consumes fl then Consumes else Provides) :: rest)
  end.

Definition check_signs (t : Topology) : outcome PolarityViolation (list Sign) :=
  s ← join_all t 0 (constraints t) (Signs_new (anchor t + 1));
  '(s, (anchor_root, anchor_flipped)) ← find s (anchor t);
  read_signs anchor_root anchor_flipped (seq 0 (anchor t)) s.

Definition solved_sign {E} (signs : list Sign) (p : Port) : outcome E Sign :=
  vec_get signs (node p * 3 + index p).

Fixpoint build_neighbors {E} (ws : list Wire) (ns : list (list nat)) : outcome E (list (list nat)) :=
  match ws with
  | [] => Ok ns
  | w :: ws =>
      ns ← push_edge ns (node (left w)) (node (right w));
      ns ← push_edge ns (node (right w)) (node (left w));
      build_neighbors ws ns
  end.

(** Mark the unreached neighbours of one node and push them on the stack,
    whose top is the head of the list. *)
Fixpoint mark {E} (ns : list nat) (reached : list bool) (stack : list nat)
    : outcome E (list bool * list nat) :=
  match ns with
  | [] => Ok (reached, stack)
  | n :: ns =>
      seen ← vec_get reached n;
      if (seen : bool) then mark ns reached stack else
      reached' ← vec_set reached n true;
      mark ns reached' (n :: stack)
  end.

Fixpoint flood {E} (fuel : nat) (neighbors : list (list nat)) (reached : list bool) (stack : list nat)
    : outcome E (list bool) :=
  match stack with
  | [] => Ok reached
  | n :: stack =>
      match fuel with
      | O => OutOfFuel
      | S fuel =>
          ns ← vec_get neighbors n;
          '(reached, stack) ← mark ns reached stack;
          flood fuel neighbors reached stack
      end
  end.

(** [reached.iter().position(|reached| !reached)]. *)
Definition first_unreached (reached : list bool) : option nat :=
  fst <$> list_find (fun b : bool => b = false) reached.

Definition check_connected (t : Topology) : outcome PolarityViolation unit :=
  let n := length (shapes t) in
  neighbors ← build_neighbors (wires t) (replicate n []);
  reached ← vec_set (replicate n false) (node (exposed t)) true;
  reached ← flood n neighbors reached [node (exposed t)];
  match first_unreached reached with
  | Some i => Err (Disconnected i)
  | None => Ok ()
  end.

Definition check (t : Topology) (checks : TemplateChecks)
    : outcome PolarityViolation (option (list Sign)) :=
  signs ← (if check_sign checks then s ← check_signs t; Ok (Some s) else Ok None);
  _ ← (if check_conn checks then check_connected t else Ok ());
  Ok signs.

(** ** Union-find: semantics *)

(** [chain s x l r b]: following parents from [x] visits [l] and ends at the
    root [r]; [b] is the parity of the path. *)
Inductive chain (s : Signs) : nat -> list nat -> nat -> bool -> Prop :=
  | chain_root r : parent s !! r = Some r -> chain s r [] r false
  | chain_step x y f l r b :
      parent s !! x = Some y -> y <> x -> flipped s !! x = Some f ->
      chain s y l r b -> chain s x (x :: l) r (xorb f b).

(** Every slot has a root; the vectors agree in length. *)
Definition forest (n : nat) (s : Signs) : Prop :=
  length (parent s) = n /\ length (flipped s) = n /\
  forall x, x < n -> exists l r b, chain s x l r b.

Definition sem (s : Signs) (x r : nat) (b : bool) : Prop := exists l, chain s x l r b.

Lemma chain_fun s x l1 r1 b1 :
  chain s x l1 r1 b1 -> forall l2 r2 b2, chain s x l2 r2 b2 -> l1 = l2 /\ r1 = r2 /\ b1 = b2.
Proof.
  induction 1 as [|x y f l r b Hp Hne Hf Hc IH]; intros l2 r2 b2 Hc2; inversion Hc2; simplify_eq; [done|].
  edestruct IH as (? & ? & ?); [done|]. by subst.
Qed.

Lemma sem_fun s x r1 b1 r2 b2 : sem s x r1 b1 -> sem s x r2 b2 -> r1 = r2 /\ b1 = b2.
Proof. intros [l1 H1] [l2 H2]. destruct (chain_fun _ _ _ _ _ H1 _ _ _ H2) as (? & ? & ?). done. Qed.

Lemma chain_end s x l r b : chain s x l r b -> parent s !! r = Some r.
Proof. by induction 1. Qed.

Lemma sem_root s r : parent s !! r = Some r -> sem s r r false.
Proof. intros. exists []. by constructor. Qed.

Lemma sem_end s x r b : sem s x r b -> parent s !! r = Some r.
Proof. intros [l H]. by eapply chain_end. Qed.

Lemma chain_suffix s x l r b y :
  chain s x l r b -> y ∈ l -> exists l' b', chain s y l' r b' /\ length l' <= length l.
Proof.
  induction 1 as [|x z f l r b Hp Hne Hf Hc IH]; [by intros ?%elem_of_nil|].
  intros [-> | Hy]%elem_of_cons.
  - eexists (x :: l), _. split; [by econstructor|done].
  - destruct (IH Hy) as (l' & b' & ? & ?). exists l', b'. split; [done|simpl; lia].
Qed.

Lemma chain_nodup s x l r b : chain s x l r b -> NoDup l.
Proof.
  induction 1 as [|x y f l r b Hp Hne Hf Hc IH]; constructor; [|done].
  intros Hx. destruct (chain_suffix _ _ _ _ _ _ Hc Hx) as (l' & b' & Hc' & Hlen).
  assert (Hfull : chain s x (x :: l) r (xorb f b)) by (by econstructor).
  destruct (chain_fun _ _ _ _ _ Hfull _ _ _ Hc') as (<- & _). simpl in Hlen. lia.
Qed.

Lemma chain_range s x l r b : chain s x l r b -> Forall (fun y => y < length (parent s)) l.
Proof. induction 1; constructor; [by eapply lookup_lt_Some|done]. Qed.

(** A list of distinct numbers below [n] has at most [n] elements. *)
Lemma nodup_bounded (l : list nat) n : NoDup l -> Forall (fun y => y < n) l -> length l <= n.
Proof.
  intros Hd Hb. rewrite <- (length_seq n 0). apply submseteq_length, NoDup_submseteq; [done|].
  intros x Hx. rewrite Forall_forall in Hb. apply elem_of_seq. specialize (Hb x Hx). lia.
Qed.

Lemma chain_length s x l r b : chain s x l r b -> length l <= length (parent s).
Proof. intros H. apply nodup_bounded; [by eapply chain_nodup|by eapply chain_range]. Qed.

Lemma find_root_chain {E} s x l r b :
  chain s x l r b -> forall fuel acc, length l <= fuel ->
  find_root (E:=E) fuel s x acc = Ok (r, xorb acc b).
Proof.
  induction 1 as [r Hr|x y f l r b Hp Hne Hf Hc IH]; intros fuel acc Hfuel.
  - destruct fuel; cbn [find_root]; unfold vec_get; rewrite Hr; cbn [expect mbind outcome_bind];
      rewrite decide_True by done; by rewrite xorb_false_r.
  - destruct fuel as [|fuel]; [simpl in Hfuel; lia|]. cbn [find_root]. unfold vec_get.
    rewrite Hp; cbn [expect mbind outcome_bind]. rewrite decide_False by done.
    rewrite Hf; cbn [expect mbind outcome_bind]. rewrite IH by (simpl in Hfuel; lia).
    by rewrite xorb_assoc.
Qed.

(** Pointing one slot straight at its root changes no slot's root or
    parity. *)
Lemma redirect_sem s x l r b :
  chain s x l r b -> x <> r -> x < length (flipped s) ->
  forall y l' r' b', chain s y l' r' b' ->
  sem {| parent := <[x := r]> (parent s); flipped := <[x := b]> (flipped s) |} y r' b'.
Proof.
  intros Hx Hne Hlen y l' r' b' Hy. pose proof (chain_end _ _ _ _ _ Hx) as Hr.
  assert (Hxl : x < length (parent s)).
  { inversion Hx; simplify_eq; by eapply lookup_lt_Some. }
  assert (Hbase : sem {| parent := <[x := r]> (parent s); flipped := <[x := b]> (flipped s) |} x r b).
  { exists [x]. rewrite <- (xorb_false_r b). econstructor; cbn [parent flipped].
    - by rewrite list_lookup_insert_eq.
    - done.
    - rewrite list_lookup_insert_eq by done. by rewrite xorb_false_r.
    - constructor. cbn [parent]. by rewrite list_lookup_insert_ne. }
  induction Hy as [r' Hr'|y z f l' r' b' Hp Hyz Hf Hc IH].
  - destruct (decide (x = r')) as [<-|].
    { assert (chain s x [] x false) as Hxx by (by constructor).
      destruct (chain_fun _ _ _ _ _ Hx _ _ _ Hxx) as (_ & -> & _). done. }
    apply sem_root. cbn [parent]. by rewrite list_lookup_insert_ne.
  - destruct (decide (x = y)) as [<-|].
    { assert (chain s x (x :: l') r' (xorb f b')) as Hxx by (by econstructor).
      destruct (chain_fun _ _ _ _ _ Hx _ _ _ Hxx) as (_ & -> & ->). done. }
    destruct IH as [l'' IH]. exists (y :: l''). apply (chain_step _ y z); cbn [parent flipped]; [|done| |done];
      by rewrite list_lookup_insert_ne.
Qed.

(** A path that avoids the changed slot is unaffected. *)
Lemma chain_avoid s x p f y l r b :
  chain s y l r b -> x ∉ l -> x <> r ->
  chain {| parent := <[x := p]> (parent s); flipped := <[x := f]> (flipped s) |} y l r b.
Proof.
  induction 1 as [|y z g l r b Hp Hne Hf Hc IH]; intros Hx Hr.
  - constructor. cbn [parent]. by rewrite list_lookup_insert_ne.
  - apply not_elem_of_cons in Hx as [Hxy Hx].
    apply (chain_step _ y z); cbn [parent flipped]; [|done| |by apply IH]; by rewrite list_lookup_insert_ne.
Qed.

(** [s'] gives every slot the same root and parity as [s]. *)
Definition same_sem (n : nat) (s s' : Signs) : Prop :=
  forest n s' /\ forall x r b, sem s x r b <-> sem s' x r b.

#[export] Instance same_sem_trans n : Transitive (same_sem n).
Proof.
  intros s1 s2 s3 [H1 H2] [H3 H4]. split; [done|]. intros. rewrite H2. apply H4.
Qed.

Lemma forest_sem n s x : forest n s -> x < n -> exists r b, sem s x r b.
Proof. intros (_ & _ & H) Hx. destruct (H x Hx) as (l & r & b & ?). exists r, b. by exists l. Qed.

Lemma sem_lt n s x r b : forest n s -> sem s x r b -> x < n /\ r < n.
Proof.
  intros (Hn & _ & _) [l H]. pose proof (chain_end _ _ _ _ _ H). split.
  - rewrite <- Hn. inversion H; simplify_eq; by eapply lookup_lt_Some.
  - rewrite <- Hn. by eapply lookup_lt_Some.
Qed.

(** Preserving semantics in one direction is enough: both are functions on
    the slots below [n]. *)
Lemma same_sem_intro n s s' :
  forest n s -> length (parent s') = n -> length (flipped s') = n ->
  (forall x r b, sem s x r b -> sem s' x r b) -> same_sem n s s'.
Proof.
  intros Hf Hp Hl H. assert (Hf' : forest n s').
  { split_and!; [done|done|]. intros x Hx. destruct (forest_sem _ _ _ Hf Hx) as (r & b & Hs).
    destruct (H _ _ _ Hs) as [l ?]. eauto. }
  split; [done|]. intros x r b. split; [apply H|]. intros Hs'.
  destruct (sem_lt _ _ _ _ _ Hf' Hs') as [Hx _]. destruct (forest_sem _ _ _ Hf Hx) as (r0 & b0 & Hs).
  destruct (sem_fun _ _ _ _ _ _ (H _ _ _ Hs) Hs') as [<- <-]. done.
Qed.

Lemma compress_spec {E} n fuel s r l x b :
  forest n s -> chain s x l r b -> length l <= fuel ->
  exists s', compress (E:=E) fuel s r x b = Ok s' /\ same_sem n s s'.
Proof.
  intros Hfs Hx Hlen.
  revert s l x b Hfs Hx Hlen. induction fuel as [|fuel IH]; intros s l x b Hfs Hx Hlen.
  all: inversion Hx as [? Hr|? y f l' ? b' Hp Hne Hf Hc]; simplify_eq; simpl in Hlen; try lia.
  1,2: exists s; cbn [compress]; unfold vec_get; rewrite Hr; cbn [expect mbind outcome_bind];
       rewrite decide_True by done; split; [done|by split].
  pose proof Hfs as (Hn1 & Hn2 & _).
  assert (Hxn : x < n) by (rewrite <- Hn1; by eapply lookup_lt_Some).
  cbn [compress]. unfold vec_get. rewrite Hp; cbn [expect mbind outcome_bind].
  rewrite decide_False by done. rewrite Hf; cbn [expect mbind outcome_bind].
  rewrite !vec_set_lt by lia. cbn [mbind outcome_bind].
  assert (Hxr : x <> r).
  { intros ->. assert (chain s r [] r false) by (constructor; by eapply chain_end).
    destruct (chain_fun _ _ _ _ _ Hx _ _ _ H) as (? & _). done. }
  set (s1 := {| parent := <[x := r]> (parent s); flipped := <[x := xorb f b']> (flipped s) |}).
  assert (Hss : same_sem n s s1).
  { apply same_sem_intro; [done|subst s1; simpl; by rewrite length_insert..|].
    intros z rz bz [lz Hz]. by eapply redirect_sem; [| |lia|]. }
  replace (xorb (xorb f b') f) with b' by (by destruct f, b').
  assert (Hy1 : chain s1 y l' r b').
  { apply chain_avoid; [done| |done].
    pose proof (chain_nodup _ _ _ _ _ Hx) as Hnd. by inversion Hnd. }
  destruct (IH s1 l' y b' (proj1 Hss) Hy1 ltac:(lia)) as (s' & -> & Hs'). exists s'. split; [done|].
  by etrans.
Qed.

Lemma find_spec {E} n s x :
  forest n s -> x < n ->
  exists s' r b, find (E:=E) s x = Ok (s', (r, b)) /\ sem s x r b /\ same_sem n s s'.
Proof.
  intros Hf Hx. pose proof Hf as (Hn & _ & Hall). destruct (Hall x Hx) as (l & r & b & Hc).
  unfold find. rewrite Hn, (find_root_chain _ _ _ _ _ Hc) by (pose proof (chain_length _ _ _ _ _ Hc); lia).
  cbn [mbind outcome_bind]. rewrite xorb_false_l.
  destruct (compress_spec (E:=E) n n s r l x b Hf Hc) as (s' & -> & Hs).
  { pose proof (chain_length _ _ _ _ _ Hc). lia. }
  exists s', r, b. split; [done|]. split; [by exists l|done].
Qed.

(** Linking root [lr] below root [rr]. *)
Definition link (s : Signs) (lr rr : nat) (fl : bool) : Signs :=
  {| parent := <[lr := rr]> (parent s); flipped := <[lr := fl]> (flipped s) |}.

Lemma link_sem n s lr rr fl x r b :
  forest n s -> parent s !! lr = Some lr -> parent s !! rr = Some rr -> lr <> rr ->
  sem s x r b ->
  sem (link s lr rr fl) x (if decide (r = lr) then rr else r) (if decide (r = lr) then xorb b fl else b).
Proof.
  intros (Hn1 & Hn2 & _) Hl Hr Hne [l Hc].
  pose proof (lookup_lt_Some _ _ _ Hl) as Hlt.
  induction Hc as [r Hrr|x y f l r b Hp Hxy Hf Hc IH].
  - case_decide as Hd; [subst r|].
    + exists [lr]. rewrite xorb_false_l, <- (xorb_false_r fl). apply (chain_step _ lr rr); unfold link; cbn [parent flipped].
      * by rewrite list_lookup_insert_eq.
      * done.
      * rewrite list_lookup_insert_eq by lia. by rewrite xorb_false_r.
      * constructor. cbn [parent]. by rewrite list_lookup_insert_ne.
    + apply sem_root. unfold link; cbn [parent]. by rewrite list_lookup_insert_ne by congruence.
  - assert (lr <> x) by congruence. destruct IH as [l' IH]. exists (x :: l').
    destruct (decide (r = lr)); [rewrite xorb_assoc|];
    apply (chain_step _ x y); unfold link; cbn [parent flipped]; try done; by rewrite list_lookup_insert_ne.
Qed.

Lemma link_forest n s lr rr fl :
  forest n s -> parent s !! lr = Some lr -> parent s !! rr = Some rr -> lr <> rr ->
  forest n (link s lr rr fl).
Proof.
  intros Hf Hl Hr Hne. pose proof Hf as (Hn1 & Hn2 & Hall). unfold link.
  split_and!; cbn [parent flipped]; [by rewrite length_insert..|].
  intros x Hx. destruct (forest_sem _ _ _ Hf Hx) as (r & b & Hs).
  destruct (link_sem n s lr rr fl x r b Hf Hl Hr Hne Hs) as [l Hc]. by eauto.
Qed.

(** The two outcomes of [join], by whether the roots already agree. *)
Lemma join_spec {E} n s l r opp :
  forest n s -> l < n -> r < n ->
  exists lr lb rr rb s', sem s l lr lb /\ sem s r rr rb /\
    (lr = rr /\ same_sem n s s' /\
       join (E:=E) s l r opp = Ok (s', negb (xorb (xorb lb rb) opp)) \/
     lr <> rr /\ forest n s' /\ join (E:=E) s l r opp = Ok (s', true) /\
       forall x r0 b, sem s x r0 b ->
         sem s' x (if decide (r0 = lr) then rr else r0)
                  (if decide (r0 = lr) then xorb b (xorb (xorb lb rb) opp) else b)).
Proof.
  intros Hf Hl Hr. unfold join.
  destruct (find_spec (E:=E) n s l Hf Hl) as (s1 & lr & lb & -> & Hsl & Hs1). cbn [mbind outcome_bind].
  destruct (find_spec (E:=E) n s1 r (proj1 Hs1) Hr) as (s2 & rr & rb & -> & Hsr & Hs2).
  cbn [mbind outcome_bind]. pose proof (transitivity Hs1 Hs2) as H02.
  exists lr, lb, rr, rb.
  assert (Hsr0 : sem s r rr rb) by (by apply (proj2 Hs1)).
  case_decide as Heq.
  { exists s2. split; [done|]. split; [done|]. left. done. }
  pose proof (proj1 H02) as Hf2. pose proof Hf2 as (Hn1 & Hn2 & _).
  assert (Hsl2 : sem s2 l lr lb) by (by apply (proj2 H02)).
  assert (Hsr2 : sem s2 r rr rb) by (by apply (proj2 H02)).
  destruct (sem_lt _ _ _ _ _ Hf2 Hsl2) as [_ Hlr].
  rewrite !vec_set_lt by lia. cbn [mbind outcome_bind].
  fold (link s2 lr rr (xorb (xorb lb rb) opp)).
  exists (link s2 lr rr (xorb (xorb lb rb) opp)). split; [done|]. split; [done|]. right. split; [done|].
  pose proof (sem_end _ _ _ _ Hsl2). pose proof (sem_end _ _ _ _ Hsr2).
  split; [by apply link_forest|]. split; [done|].
  intros x r0 b Hx. eapply link_sem; try done. by apply (proj2 H02).
Qed.

(** ** Solutions *)

(** A solution assigns each slot whether it consumes. *)
Definition models (sg : nat -> bool) (s : Signs) : Prop :=
  forall x r b, sem s x r b -> sg x = xorb b (sg r).

Definition eqn (sg : nat -> bool) (l r : nat) (opp : bool) : Prop := sg l = xorb opp (sg r).

Lemma same_sem_models n s s' sg : same_sem n s s' -> models sg s <-> models sg s'.
Proof. intros [_ H]. unfold models. by setoid_rewrite H. Qed.

(** Joining adds exactly one equation, or refutes it. *)
Lemma join_models {E} n s l r opp :
  forest n s -> l < n -> r < n ->
  exists s' ok, join (E:=E) s l r opp = Ok (s', ok) /\ forest n s' /\
    (forall sg, (models sg s /\ eqn sg l r opp) -> ok = true /\ models sg s') /\
    (ok = true -> forall sg, models sg s' -> models sg s /\ eqn sg l r opp).
Proof.
  intros Hf Hl Hr. destruct (join_spec (E:=E) n s l r opp Hf Hl Hr)
    as (lr & lb & rr & rb & s' & Hsl & Hsr & [(<- & Hss & Hj)|(Hne & Hf' & Hj & Hsem)]).
  - exists s', (negb (xorb (xorb lb rb) opp)). split; [done|]. split; [apply Hss|]. split.
    + intros sg [Hm He]. rewrite <- (same_sem_models _ _ _ _ Hss). split; [|done].
      unfold eqn in He. rewrite (Hm _ _ _ Hsl), (Hm _ _ _ Hsr) in He.
      destruct lb, rb, opp, (sg lr); naive_solver.
    + intros Hok sg Hm. rewrite <- (same_sem_models _ _ _ _ Hss) in Hm. split; [done|].
      unfold eqn. rewrite (Hm _ _ _ Hsl), (Hm _ _ _ Hsr). destruct lb, rb, opp, (sg lr); naive_solver.
  - exists s', true. split; [done|]. split; [done|]. split.
    + intros sg [Hm He]. split; [done|]. intros x r1 b1 Hx'.
      destruct (sem_lt _ _ _ _ _ Hf' Hx') as [Hx _].
      destruct (forest_sem _ _ _ Hf Hx) as (r0 & b0 & Hx0).
      destruct (sem_fun _ _ _ _ _ _ (Hsem _ _ _ Hx0) Hx') as [<- <-].
      rewrite (Hm _ _ _ Hx0). unfold eqn in He. rewrite (Hm _ _ _ Hsl), (Hm _ _ _ Hsr) in He.
      case_decide; [subst|done]. destruct b0, lb, rb, opp, (sg lr), (sg rr); naive_solver.
    + intros _ sg Hm.
      assert (Hlr : sg lr = xorb (xorb (xorb lb rb) opp) (sg rr)).
      { pose proof (Hsem _ _ _ (sem_root _ _ (sem_end _ _ _ _ Hsl))) as H. rewrite !decide_True in H by done.
        rewrite (Hm _ _ _ H). by rewrite xorb_false_l. }
      assert (Hms : models sg s).
      { intros x r0 b0 Hx0. specialize (Hm _ _ _ (Hsem _ _ _ Hx0)). rewrite Hm.
        case_decide; [subst|done]. rewrite Hlr. destruct b0, lb, rb, opp, (sg rr); done. }
      split; [done|]. unfold eqn. rewrite (Hms _ _ _ Hsl), (Hms _ _ _ Hsr), Hlr.
      destruct lb, rb, opp, (sg rr); done.
Qed.

(** The slot assignment read from a solved list of signs; the anchor, one
    past the end, provides. *)
Definition sg_of (signs : list Sign) (x : nat) : bool := bool_decide (signs !! x = Some Consumes).

Lemma read_signs_spec {E} n ar af todo s :
  forest n s -> Forall (fun x => x < n) todo ->
  exists out, read_signs (E:=E) ar af todo s = Ok out /\
    Forall2 (fun x sg => exists r b, sem s x r b /\
      sg = if xorb (bool_decide (r = ar) && af) b then Consumes else Provides) todo out.
Proof.
  intros Hf Hall. revert s Hf. induction Hall as [|x todo Hx Hall IH]; intros s Hf; [by exists []|].
  cbn [read_signs]. destruct (find_spec (E:=E) n s x Hf Hx) as (s1 & r & b & -> & Hs & Hss).
  cbn [mbind outcome_bind]. destruct (IH s1 (proj1 Hss)) as (out & -> & Hout). cbn [mbind outcome_bind].
  eexists. split; [done|]. constructor; [by exists r, b|].
  eapply Forall2_impl; [exact Hout|]. intros y sg (r' & b' & Hs' & ->). exists r', b'. split; [|done].
  by apply (proj2 Hss).
Qed.

(** What [check_signs] reads off a forest is a solution of it in which the
    anchor provides. *)
Lemma read_signs_models {E} k s ar af :
  forest (k + 1) s -> sem s k ar af ->
  exists out, read_signs (E:=E) ar af (seq 0 k) s = Ok out /\ length out = k /\ models (sg_of out) s.
Proof.
  intros Hf Ha. destruct (read_signs_spec (E:=E) (k + 1) ar af (seq 0 k) s Hf) as (out & Ho & Hout).
  { apply Forall_forall. intros x Hx%elem_of_seq. lia. }
  exists out. split; [done|]. pose proof (Forall2_length _ _ _ Hout) as Hlen. rewrite length_seq in Hlen.
  split; [done|].
  assert (Hval : forall x r b, sem s x r b -> sg_of out x = xorb (bool_decide (r = ar) && af) b).
  { intros x r b Hx. destruct (sem_lt _ _ _ _ _ Hf Hx) as [Hxk _]. unfold sg_of.
    destruct (decide (x = k)) as [->|].
    - destruct (sem_fun _ _ _ _ _ _ Ha Hx) as [<- <-]. rewrite (lookup_ge_None_2 out) by lia.
      rewrite (bool_decide_true (ar = ar)) by done. by destruct af.
    - destruct (Forall2_lookup_l _ _ _ x x Hout) as (sg & Hsg & r' & b' & Hx' & ->).
      { apply lookup_seq. split; lia. }
      destruct (sem_fun _ _ _ _ _ _ Hx Hx') as [<- <-]. rewrite Hsg.
      by destruct (xorb _ _). }
  intros x r b Hx. rewrite (Hval _ _ _ Hx), (Hval _ _ _ (sem_root _ _ (sem_end _ _ _ _ Hx))).
  rewrite xorb_false_r. apply xorb_comm.
Qed.

(** Every forest has a solution: the equations joined so far are
    consistent. *)
Lemma forest_consistent k s : forest (k + 1) s -> exists sg, models sg s /\ sg k = false.
Proof.
  intros Hf. destruct (forest_sem _ _ k Hf ltac:(lia)) as (ar & af & Ha).
  destruct (read_signs_models (E:=unit) k s ar af Hf Ha) as (out & _ & Hlen & Hm).
  exists (sg_of out). split; [done|]. unfold sg_of. rewrite (lookup_ge_None_2 out) by lia. reflexivity.
Qed.

(** ** Sign assignments to ports *)

(** A constraint holds of a sign assignment to ports; the anchor provides. *)
Definition holds (sg : Port -> Sign) (c : Constraint) : Prop :=
  let r := match c_right c with None => Provides | Some p => sg p end in
  sg (c_left c) = if c_opposite c then opposite r else r.

Definition polarized_by (t : Topology) (sg : Port -> Sign) : Prop :=
  Forall (holds sg) (constraints t).

Definition port_ok (t : Topology) (p : Port) : Prop := node p < length (shapes t) /\ index p < 3.

(** Ports of wires and the exposed port exist. *)
Definition topology_ok (t : Topology) : Prop :=
  Forall (fun w => port_ok t (left w) /\ port_ok t (right w)) (wires t) /\ port_ok t (exposed t).

Definition constraint_ok (t : Topology) (c : Constraint) : Prop :=
  port_ok t (c_left c) /\ forall p, c_right c = Some p -> port_ok t p.

Lemma node_constraints_ok t id sh c :
  id < length (shapes t) -> c ∈ node_constraints id sh -> constraint_ok t c.
Proof.
  intros Hid Hc. unfold constraint_ok, port_ok.
  destruct sh; cbn in Hc; repeat (apply elem_of_cons in Hc as [->|Hc]); try (by apply elem_of_nil in Hc);
    cbn; split; naive_solver lia.
Qed.

Lemma constraints_ok t : topology_ok t -> Forall (constraint_ok t) (constraints t).
Proof.
  intros [Hw He]. unfold constraints. rewrite !Forall_app. split_and!.
  - apply Forall_forall. intros c Hc. apply list_elem_of_In, in_concat in Hc as (l & Hl & Hc).
    apply list_elem_of_In, elem_of_lookup_imap in Hl as (id & sh & -> & Hl).
    eapply node_constraints_ok; [by eapply lookup_lt_Some|by apply list_elem_of_In].
  - apply Forall_map. eapply Forall_impl; [exact Hw|]. intros w [? ?]. split; [done|]. naive_solver.
  - constructor; [|done]. split; [done|]. naive_solver.
Qed.

Definition c_slots (t : Topology) (c : Constraint) : nat * nat :=
  (slot t (Some (c_left c)), slot t (c_right c)).

Lemma port_slot_lt t p : port_ok t p -> port_slot p < anchor t.
Proof. intros [? ?]. unfold port_slot, anchor. lia. Qed.

Lemma c_slots_lt t c :
  constraint_ok t c -> (c_slots t c).1 < anchor t + 1 /\ (c_slots t c).2 < anchor t + 1.
Proof.
  intros [Hl Hr]. unfold c_slots; cbn. split; [pose proof (port_slot_lt _ _ Hl); lia|].
  destruct (c_right c) as [p|]; cbn; [|lia]. pose proof (port_slot_lt t p (Hr p eq_refl)). lia.
Qed.

Definition c_eqn (t : Topology) (sg : nat -> bool) (c : Constraint) : Prop :=
  eqn sg (c_slots t c).1 (c_slots t c).2 (c_opposite c).

(** Signs of ports and of slots correspond. *)
Definition sign_of_bool (b : bool) : Sign := if b then Consumes else Provides.
Definition bool_of_sign (s : Sign) : bool := match s with Consumes => true | Provides => false end.
Definition port_of_slot (x : nat) : Port := MkPort (x / 3) (x mod 3).

Lemma port_of_port_slot p : index p < 3 -> port_of_slot (port_slot p) = p.
Proof.
  destruct p as [n i]; cbn. intros. unfold port_of_slot, port_slot; cbn [node index].
  f_equal; [symmetry; apply (Nat.div_unique _ _ _ i) | symmetry; apply (Nat.mod_unique _ _ n)]; lia.
Qed.

Lemma holds_eqn t sg c :
  sg (anchor t) = false -> c_eqn t sg c <-> holds (fun p => sign_of_bool (sg (port_slot p))) c.
Proof.
  intros Ha. unfold c_eqn, eqn, holds, c_slots; cbn. destruct (c_right c) as [p|]; cbn.
  - destruct (sg (port_slot (c_left c))), (c_opposite c), (sg (port_slot p)); naive_solver.
  - rewrite Ha. destruct (sg (port_slot (c_left c))), (c_opposite c); naive_solver.
Qed.

(** A sign assignment to ports, as one on slots. *)
Definition slot_signs (t : Topology) (sg : Port -> Sign) (x : nat) : bool :=
  if decide (x < anchor t) then bool_of_sign (sg (port_of_slot x)) else false.

Lemma holds_slot_signs t sg c :
  constraint_ok t c -> holds sg c -> c_eqn t (slot_signs t sg) c.
Proof.
  intros [Hl Hr] Hh. unfold c_eqn, eqn, c_slots, slot_signs; cbn.
  rewrite decide_True by (by apply port_slot_lt). rewrite port_of_port_slot by apply Hl.
  unfold holds in Hh. destruct (c_right c) as [p|]; cbn.
  - rewrite decide_True by (apply port_slot_lt; naive_solver). rewrite port_of_port_slot by naive_solver.
    rewrite Hh. destruct (c_opposite c), (sg p); done.
  - rewrite decide_False by lia. rewrite Hh. by destruct (c_opposite c).
Qed.

(** ** Adjacency lists *)
Definition has {X} (es : list (list X)) (v : nat) (x : X) : Prop := exists l, es !! v = Some l /\ x ∈ l.

Lemma push_edge_spec {E X} (es : list (list X)) v x :
  v < length es -> exists es', push_edge (E:=E) es v x = Ok es' /\ length es' = length es /\
    forall h y, has es' h y <-> has es h y \/ (h = v /\ y = x).
Proof.
  intros Hv. unfold push_edge. destruct (vec_get_lt (E:=E) es v Hv) as (l & Hl & ->).
  cbn [mbind outcome_bind]. rewrite vec_set_lt by done. eexists. split; [done|].
  split; [apply length_insert|]. intros h y. unfold has. destruct (decide (h = v)) as [->|Hne].
  - rewrite list_lookup_insert_eq by done. rewrite Hl. split.
    + intros (l' & [= <-] & [Hy|Hy%list_elem_of_singleton]%elem_of_app); eauto.
    + intros [(l' & [= <-] & Hy)|[_ ->]]; eexists; (split; [done|]); apply elem_of_app; [by left|].
      right. by apply list_elem_of_singleton.
  - rewrite list_lookup_insert_ne by done. naive_solver.
Qed.

Lemma has_replicate_nil {X} n v (x : X) : ~ has (replicate n []) v x.
Proof. intros (l & Hl & Hx). apply lookup_replicate in Hl as [-> _]. by apply elem_of_nil in Hx. Qed.

(** [k] equates slots [x] and [y], in either order. *)
Definition joins (t : Topology) (k : Constraint) (x y : nat) : Prop :=
  c_slots t k = (x, y) \/ c_slots t k = (y, x).

Lemma joins_sym t k x y : joins t k x y -> joins t k y x.
Proof. unfold joins. tauto. Qed.

Lemma build_edges_spec {E} t cs i es :
  Forall (constraint_ok t) cs -> length es = anchor t + 1 ->
  exists es', build_edges (E:=E) t i cs es = Ok es' /\ length es' = anchor t + 1 /\
    forall h m c, has es' h (m, c) <->
      has es h (m, c) \/ exists k, i <= c /\ cs !! (c - i) = Some k /\ joins t k h m.
Proof.
  intros Hok. revert i es. induction Hok as [|k cs Hk Hok IH]; intros i es Hlen; cbn [build_edges].
  { exists es. split; [done|]. split; [done|]. intros. split; [by left|]. intros [?|(k & _ & Hk & _)]; [done|].
    by rewrite lookup_nil in Hk. }
  destruct (c_slots_lt t k Hk) as [Hl Hr]. cbn in Hl, Hr.
  destruct (push_edge_spec (E:=E) es (slot t (Some (c_left k))) (slot t (c_right k), i)) as (e1 & He1 & L1 & H1);
    [cbn; lia|]. rewrite He1. cbn [mbind outcome_bind].
  destruct (push_edge_spec (E:=E) e1 (slot t (c_right k)) (slot t (Some (c_left k)), i)) as (e2 & He2 & L2 & H2);
    [lia|]. rewrite He2. cbn [mbind outcome_bind].
  destruct (IH (S i) e2 ltac:(lia)) as (es' & -> & L3 & H3). exists es'. split; [done|]. split; [done|].
  intros h m c. rewrite H3, H2, H1. split.
  - intros [[[?|(-> & [= -> ->])]|(-> & [= -> ->])]|(k' & Hc & Hk' & Hj)]; [by left|right..].
    + exists k. rewrite Nat.sub_diag. split; [lia|]. split; [done|]. by left.
    + exists k. rewrite Nat.sub_diag. split; [lia|]. split; [done|]. by right.
    + exists k'. split; [lia|]. replace (c - i) with (S (c - S i)) by lia. done.
  - intros [?|(k' & Hc & Hk' & Hj)]; [by do 3 left|]. destruct (decide (c = i)) as [->|].
    + rewrite Nat.sub_diag in Hk'. simplify_eq/=. left. destruct Hj as [[= <- <-]|[= <- <-]]; naive_solver.
    + right. exists k'. replace (c - i) with (S (c - S i)) in Hk' by lia. split; [lia|]. done.
Qed.

(** ** The breadth-first search *)
Section bfs.
Context (t : Topology) (earlier : list Constraint) (from : nat).
Let n := anchor t + 1.

(** [found order rb x ks]: the back-pointers lead from [x] to [from]
    through [ks], all within the discovered slots [order]. *)
Inductive found (order : list nat) (rb : list (option (nat * nat))) : nat -> list Constraint -> Prop :=
  | found_from : rb !! from = Some None -> from ∈ order -> found order rb from []
  | found_step x p c k ks :
      rb !! x = Some (Some (p, c)) -> x ∈ order -> earlier !! c = Some k -> joins t k p x ->
      found order rb p ks -> found order rb x (ks ++ [k]).

Lemma found_mono order rb x ks z v new :
  found order rb x ks -> z ∉ order -> found (order ++ new) (<[z := v]> rb) x ks.
Proof.
  intros Hf Hz. induction Hf.
  - constructor; [|apply elem_of_app; by left]. rewrite list_lookup_insert_ne; [done|congruence].
  - econstructor; [| apply elem_of_app; by left | done | done | done].
    rewrite list_lookup_insert_ne; [done|congruence].
Qed.

(** Invariant of the search: [order] lists the visited slots. *)
Record discovered (st : Search) (order : list nat) : Prop := {
  d_vis_len : length (visited st) = n;
  d_rb_len : length (reached_by st) = n;
  d_nodup : NoDup order;
  d_range : Forall (fun x => x < n) order;
  d_vis : forall x b, visited st !! x = Some b -> b = bool_decide (x ∈ order);
  d_path : forall x, x ∈ order -> exists ks, found order (reached_by st) x ks /\ length ks < length order;
}.

Definition good_edges (here : nat) (ns : list (nat * nat)) : Prop :=
  Forall (fun '(m, c) => m < n /\ exists k, earlier !! c = Some k /\ joins t k here m) ns.

Lemma discover_spec {E} here ns st order :
  good_edges here ns -> discovered st order -> here ∈ order ->
  exists st' new, discover (E:=E) here ns st = Ok st' /\ discovered st' (order ++ new) /\
    pending st' = pending st ++ new /\ Forall (fun '(m, _) => m ∈ order ++ new) ns.
Proof.
  intros Hg. revert st order. induction Hg as [|[m c] ns [Hm (k & Hk & Hj)] Hg IH]; intros st order Hd Hh.
  { exists st, []. rewrite !app_nil_r. done. }
  cbn [discover]. destruct (vec_get_lt (E:=E) (visited st) m) as (b & Hb & ->).
  { by rewrite (d_vis_len _ _ Hd). }
  cbn [mbind outcome_bind]. pose proof (d_vis _ _ Hd _ _ Hb) as ->.
  destruct (decide (m ∈ order)) as [Hin|Hout].
  { rewrite bool_decide_true by done. destruct (IH st order Hd Hh) as (st' & new & -> & Hd' & Hp & Hns).
    exists st', new. split; [done|]. split; [done|]. split; [done|]. constructor; [|done].
    apply elem_of_app. by left. }
  rewrite bool_decide_false by done.
  rewrite !vec_set_lt by (rewrite ?(d_vis_len _ _ Hd), ?(d_rb_len _ _ Hd); done). cbn [mbind outcome_bind].
  set (st1 := {| visited := <[m := true]> (visited st);
                 reached_by := <[m := Some (here, c)]> (reached_by st);
                 pending := pending st ++ [m] |}).
  assert (Hd1 : discovered st1 (order ++ [m])).
  { destruct Hd as [D1 D2 D3 D4 D5 D6]. constructor; subst st1; cbn [visited reached_by pending].
    - by rewrite length_insert.
    - by rewrite length_insert.
    - apply NoDup_app. split; [done|]. split; [|apply NoDup_singleton].
      intros x Hx ->%list_elem_of_singleton. done.
    - apply Forall_app. split; [done|]. by constructor.
    - intros x b. destruct (decide (x = m)) as [->|].
      + rewrite list_lookup_insert_eq by lia. intros [= <-]. rewrite bool_decide_true; [done|set_solver].
      + rewrite list_lookup_insert_ne by done. intros Hx. rewrite (D5 _ _ Hx).
        apply bool_decide_ext. set_solver.
    - intros x [Hx| ->%list_elem_of_singleton]%elem_of_app.
      + destruct (D6 x Hx) as (ks & Hks & Hl). exists ks. split; [by apply found_mono|].
        rewrite length_app. simpl. lia.
      + destruct (D6 here Hh) as (ks & Hks & Hl). exists (ks ++ [k]). split.
        * eapply found_step; [|set_solver|done|done|by apply found_mono].
          apply list_lookup_insert_eq. lia.
        * rewrite !length_app. simpl. lia. }
  destruct (IH st1 (order ++ [m]) Hd1 ltac:(set_solver)) as (st' & new & -> & Hd' & Hp & Hns).
  exists st', (m :: new). rewrite <- app_assoc in Hd'. split; [done|]. split; [done|]. split.
  - rewrite Hp. subst st1; cbn [pending]. by rewrite <- app_assoc.
  - rewrite <- app_assoc in Hns. constructor; [set_solver|]. done.
Qed.

Lemma search_spec {E} fuel es to st order processed :
  length es = n -> (forall h ns, es !! h = Some ns -> good_edges h ns) ->
  discovered st order -> order = processed ++ pending st ->
  (forall h m c, h ∈ processed -> has es h (m, c) -> m ∈ order) ->
  n <= length processed + fuel ->
  exists st' order', search (E:=E) fuel es to st = Ok st' /\ discovered st' order' /\
    (forall x, x ∈ order -> x ∈ order') /\
    (to ∈ order' \/ forall h m c, h ∈ order' -> has es h (m, c) -> m ∈ order').
Proof.
  intros Hlen Hes. revert st order processed. induction fuel as [|fuel IH];
    intros st order processed Hd Ho Hcl Hfuel; cbn [search]; destruct (pending st) as [|here rest] eqn:Hp.
  all: try (exists st, order; rewrite app_nil_r in Ho; subst processed; split; [done|]; split; [done|];
    split; [done|]; by right).
  { exfalso. pose proof (nodup_bounded _ _ (d_nodup _ _ Hd) (d_range _ _ Hd)) as Hb.
    rewrite Ho, length_app in Hb. simpl in Hb. lia. }
  assert (Hhere : here ∈ order) by (rewrite Ho; set_solver).
  case_decide as Hto.
  { subst here. eexists _, order. split; [done|]. destruct Hd; split; [by constructor|].
    split; [done|]. by left. }
  assert (Hhn : here < length es).
  { rewrite Hlen. exact (proj1 (Forall_forall _ _) (d_range _ _ Hd) _ Hhere). }
  destruct (vec_get_lt (E:=E) es here Hhn) as (ns & Hns & ->). cbn [mbind outcome_bind].
  destruct (discover_spec (E:=E) here ns {| visited := visited st; reached_by := reached_by st; pending := rest |}
    order (Hes _ _ Hns)) as (st1 & new & -> & Hd1 & Hp1 & Hn1); [destruct Hd; by constructor|done|].
  cbn [mbind outcome_bind pending] in *.
  destruct (IH st1 (order ++ new) (processed ++ [here]) Hd1) as (st' & order' & Hs & Hd' & Hsub & Hor).
  - rewrite Hp1, Ho, <- !app_assoc. done.
  - intros h m c [Hh| ->%list_elem_of_singleton]%elem_of_app Hm; apply elem_of_app.
    + left. eapply Hcl; [|exact Hm]. done.
    + apply elem_of_app. destruct Hm as (ns' & Hns' & Hm). simplify_eq.
      rewrite Forall_forall in Hn1. by apply (Hn1 (m, c)).
  - rewrite length_app. simpl. lia.
  - exists st', order'. split; [done|]. split; [done|]. split; [|done].
    intros x Hx. apply Hsub, elem_of_app. by left.
Qed.
End bfs.

(** A walk along constraints from one slot to another. *)
Inductive walk (t : Topology) (x : nat) : list Constraint -> nat -> Prop :=
  | walk_nil : walk t x [] x
  | walk_snoc ks y k z : walk t x ks y -> joins t k y z -> walk t x (ks ++ [k]) z.

Lemma found_walk t earlier from order rb x ks :
  found t earlier from order rb x ks -> walk t from ks x /\ Forall (fun k => k ∈ earlier) ks.
Proof.
  induction 1 as [|x p c k ks Hrb Hx Hk Hj Hf [IH1 IH2]]; [split; constructor|].
  split; [by econstructor|]. apply Forall_app. split; [done|]. constructor; [|done].
  by eapply list_elem_of_lookup_2.
Qed.

Lemma walk_back_spec {E} t earlier from order rb x ks :
  found t earlier from order rb x ks -> forall fuel path, length ks <= fuel ->
  walk_back (E:=E) fuel earlier rb x path = Ok (map c_rule ks ++ path).
Proof.
  induction 1 as [Hrb|x p c k ks Hrb Hx Hk Hj Hf IH]; intros fuel path Hfuel.
  - destruct fuel; cbn [walk_back]; unfold vec_get; by rewrite Hrb.
  - rewrite length_app in Hfuel; simpl in Hfuel. destruct fuel as [|fuel]; [lia|].
    cbn [walk_back]. unfold vec_get. rewrite Hrb. cbn [expect mbind outcome_bind].
    rewrite Hk. cbn [expect mbind outcome_bind]. rewrite IH by lia. by rewrite map_app, <- app_assoc.
Qed.

Definition adjacent (t : Topology) (cs : list Constraint) (x y : nat) : Prop :=
  exists k, k ∈ cs /\ joins t k x y.

Definition linked (t : Topology) (cs : list Constraint) : nat -> nat -> Prop := rtc (adjacent t cs).

Lemma linked_sym t cs x y : linked t cs x y -> linked t cs y x.
Proof.
  unfold linked. induction 1 as [|x y z (k & Hk & Hj) _ IH]; [done|].
  eapply rtc_r; [exact IH|]. exists k. split; [done|by apply joins_sym].
Qed.

Lemma linked_mono t cs cs' x y : cs ⊆ cs' -> linked t cs x y -> linked t cs' x y.
Proof.
  intros Hs. unfold linked. apply rtc_subrel. intros a b (k & Hk & Hj). exists k. split; [by apply Hs|done].
Qed.

(** [explain] finds a walk whenever the slots are linked. *)
Lemma explain_spec {E} t closing from to :
  topology_ok t -> from < anchor t + 1 -> to < anchor t + 1 ->
  linked t (take closing (constraints t)) from to ->
  exists ks, explain (E:=E) t closing from to = Ok (map c_rule ks) /\
    walk t from ks to /\ Forall (fun k => k ∈ take closing (constraints t)) ks.
Proof.
  intros Hok Hfrom Hto Hlink. unfold explain. set (earlier := take closing (constraints t)) in *.
  assert (Hck : Forall (constraint_ok t) earlier) by (apply Forall_take; by apply constraints_ok).
  destruct (build_edges_spec (E:=E) t earlier 0 (replicate (anchor t + 1) []) Hck) as (es & -> & Hlen & Hes);
    [apply length_replicate|]. cbn [mbind outcome_bind].
  rewrite vec_set_lt by (rewrite length_replicate; lia). cbn [mbind outcome_bind].
  assert (Hes' : forall h m c, has es h (m, c) <-> exists k, earlier !! c = Some k /\ joins t k h m).
  { intros. rewrite Hes. setoid_rewrite Nat.sub_0_r. split.
    - intros [Hn|(k & _ & ?)]; [by apply has_replicate_nil in Hn|eauto].
    - intros (k & ? & ?). right. exists k. split; [lia|done]. }
  destruct (search_spec t earlier from (E:=E) (anchor t + 1) es to
    {| visited := <[from := true]> (replicate (anchor t + 1) false);
       reached_by := replicate (anchor t + 1) None; pending := [from] |} [from] [] Hlen)
    as (st & order & -> & Hd & Hsub & Hor).
  - intros h ns Hns. apply Forall_forall. intros [m c] Hm.
    destruct (proj1 (Hes' h m c)) as (k & Hk & Hj); [by exists ns|]. split; [|eauto].
    pose proof (proj1 (Forall_forall _ _) Hck k ltac:(by eapply list_elem_of_lookup_2)) as Hkok.
    destruct (c_slots_lt t k Hkok). destruct Hj as [Hj|Hj]; rewrite Hj in *; cbn in *; lia.
  - constructor; cbn [visited reached_by].
    + by rewrite length_insert, length_replicate.
    + apply length_replicate.
    + apply NoDup_singleton.
    + by constructor.
    + intros x b. destruct (decide (x = from)) as [->|].
      * rewrite list_lookup_insert_eq by (rewrite length_replicate; lia). intros [= <-].
        by rewrite bool_decide_true by set_solver.
      * rewrite list_lookup_insert_ne by done. intros [-> _]%lookup_replicate.
        by rewrite bool_decide_false by set_solver.
    + intros x ->%list_elem_of_singleton. exists []. split; [|simpl; lia].
      constructor; [|set_solver]. apply lookup_replicate. split; [done|lia].
  - done.
  - intros h m c Hh. by apply elem_of_nil in Hh.
  - simpl. lia.
  - cbn [mbind outcome_bind].
    assert (Hto' : to ∈ order).
    { destruct Hor as [|Hcl]; [done|]. assert (Hf : from ∈ order) by (apply Hsub; set_solver).
      clear -Hlink Hcl Hf Hes'. revert Hf. unfold linked in Hlink. induction Hlink as [|x y z (k & Hk & Hj) _ IH]; [done|].
      intros Hx. apply IH. apply list_elem_of_lookup_1 in Hk as [c Hc].
      apply (Hcl x y c Hx). apply Hes'. eauto. }
    destruct (d_path _ _ _ _ _ Hd to Hto') as (ks & Hf & Hl).
    pose proof (nodup_bounded _ _ (d_nodup _ _ _ _ _ Hd) (d_range _ _ _ _ _ Hd)).
    rewrite (walk_back_spec _ _ _ _ _ _ _ Hf) by lia. rewrite app_nil_r. exists ks. split; [done|].
    by eapply found_walk.
Qed.

(** ** Processing the equations in order *)

(** The forest represents exactly the equations [cs], and joins only slots
    they link. *)
Record represents (t : Topology) (cs : list Constraint) (s : Signs) : Prop := {
  rep_forest : forest (anchor t + 1) s;
  rep_models : forall sg, models sg s <-> Forall (c_eqn t sg) cs;
  rep_linked : forall x r b, sem s x r b -> linked t cs x r;
}.

Lemma Signs_new_sem k x r b : sem (Signs_new k) x r b -> r = x /\ b = false.
Proof.
  intros [l Hc]. inversion Hc as [|? y f l' ? b' Hp Hne]; simplify_eq; [done|].
  unfold Signs_new in Hp; cbn [parent] in Hp. apply lookup_seq in Hp as [-> _]. simpl in Hne. lia.
Qed.

Lemma Signs_new_represents t : represents t [] (Signs_new (anchor t + 1)).
Proof.
  constructor.
  - unfold Signs_new. split_and!; cbn [parent flipped]; [apply length_seq|apply length_replicate|].
    intros x Hx. exists [], x, false. constructor. apply lookup_seq. split; [done|lia].
  - intros sg. split; [done|]. intros _ x r b [-> ->]%Signs_new_sem. by rewrite xorb_false_l.
  - intros x r b [-> ->]%Signs_new_sem. apply rtc_refl.
Qed.

Lemma join_linked t cs c s s' ok {E} :
  constraint_ok t c -> represents t cs s ->
  join (E:=E) s (c_slots t c).1 (c_slots t c).2 (c_opposite c) = Ok (s', ok) ->
  forall x r b, sem s' x r b -> linked t (cs ++ [c]) x r.
Proof.
  intros Hc [Hf _ Hl] Hj x r b Hx. destruct (c_slots_lt t c Hc) as [Hl1 Hl2].
  destruct (join_spec (E:=E) _ s _ _ (c_opposite c) Hf Hl1 Hl2)
    as (lr & lb & rr & rb & s1 & Hsl & Hsr & [(<- & Hss & Hj')|(Hne & Hf' & Hj' & Hsem)]);
    rewrite Hj in Hj'; simplify_eq.
  - eapply linked_mono; [|apply (Hl _ _ b)]; [set_solver|]. by apply (proj2 Hss).
  - destruct (sem_lt _ _ _ _ _ Hf' Hx) as [Hxn _]. destruct (forest_sem _ _ _ Hf Hxn) as (r0 & b0 & Hx0).
    destruct (sem_fun _ _ _ _ _ _ (Hsem _ _ _ Hx0) Hx) as [<- _].
    assert (Hx0l : linked t (cs ++ [c]) x r0) by (eapply linked_mono; [|by eapply Hl]; set_solver).
    case_decide; [subst r0|done]. unfold linked in *. etrans; [exact Hx0l|].
    assert (H1 : linked t (cs ++ [c]) lr (c_slots t c).1).
    { apply linked_sym. eapply linked_mono; [|by eapply Hl]. set_solver. }
    assert (H2 : linked t (cs ++ [c]) (c_slots t c).2 rr).
    { eapply linked_mono; [|by eapply Hl]. set_solver. }
    unfold linked in *. etrans; [exact H1|]. eapply rtc_l; [|exact H2].
    exists c. split; [set_solver|]. left. by destruct (c_slots t c).
Qed.

(** Two solutions of the constraints of a walk relate its ends alike. *)
Lemma walk_parity t x ks y sg1 sg2 :
  walk t x ks y -> Forall (c_eqn t sg1) ks -> Forall (c_eqn t sg2) ks ->
  xorb (sg1 x) (sg1 y) = xorb (sg2 x) (sg2 y).
Proof.
  induction 1 as [|ks y k z Hw IH Hj]; intros H1 H2; [by rewrite !xorb_nilpotent|].
  apply Forall_app in H1 as [H1 K1], H2 as [H2 K2]. specialize (IH H1 H2).
  apply Forall_one in K1, K2. unfold c_eqn, eqn in K1, K2.
  destruct Hj as [Hj|Hj]; rewrite Hj in K1, K2; cbn in K1, K2.
  - rewrite K1, K2 in IH. revert IH. destruct (sg1 x), (sg2 x), (c_opposite k), (sg1 z), (sg2 z); done.
  - rewrite K1, K2. revert IH. destruct (sg1 x), (sg2 x), (c_opposite k), (sg1 y), (sg2 y); done.
Qed.

(** How [join_all] ends: all equations joined, or the first one that
    contradicts the earlier ones, with a walk of earlier equations that
    already contradicts it. *)
Lemma join_all_spec t cs pre s :
  topology_ok t -> constraints t = pre ++ cs -> represents t pre s ->
  (exists s', join_all t (length pre) cs s = Ok s' /\ represents t (constraints t) s') \/
  (exists pre' c post ks, constraints t = pre' ++ c :: post /\
     join_all t (length pre) cs s = Err (Conflict (c_rule c) (map c_rule ks)) /\
     walk t (c_slots t c).1 ks (c_slots t c).2 /\ Forall (fun k => k ∈ pre') ks /\
     (exists sg, sg (anchor t) = false /\ Forall (c_eqn t sg) pre') /\
     forall sg, ~ Forall (c_eqn t sg) (ks ++ [c])).
Proof.
  intros Hok. revert pre s. induction cs as [|c cs IH]; intros pre s Heq Hrep; cbn [join_all].
  { left. exists s. rewrite app_nil_r in Heq. by rewrite Heq. }
  assert (Hcok : constraint_ok t c).
  { pose proof (constraints_ok t Hok) as H. rewrite Heq in H. apply Forall_app in H as [_ H]. by inversion H. }
  destruct (c_slots_lt t c Hcok) as [Hl1 Hl2].
  destruct (join_models (E:=PolarityViolation) _ s _ _ (c_opposite c) (rep_forest _ _ _ Hrep) Hl1 Hl2)
    as (s' & ok & Hj & Hf' & Hm1 & Hm2).
  pose proof Hj as Hj0. cbn [c_slots fst snd] in Hj0. rewrite Hj0. cbn [mbind outcome_bind]. destruct ok.
  - assert (Hrep' : represents t (pre ++ [c]) s').
    { constructor; [done| |by eapply join_linked].
      intros sg. rewrite Forall_app, <- (rep_models _ _ _ Hrep). split.
      - intros Hm. destruct (Hm2 eq_refl sg Hm). split; [done|]. by constructor.
      - intros [Hm He]. apply Hm1. split; [done|]. by apply Forall_one in He. }
    specialize (IH (pre ++ [c]) s'). rewrite length_app, Nat.add_1_r in IH. apply IH; [|done].
    by rewrite <- app_assoc.
  - right. destruct (join_spec (E:=PolarityViolation) _ s _ _ (c_opposite c) (rep_forest _ _ _ Hrep) Hl1 Hl2)
      as (lr & lb & rr & rb & s1 & Hsl & Hsr & [(<- & Hss & Hj')|(Hne & _ & Hj' & _)]);
      rewrite Hj in Hj'; [|discriminate].
    assert (Htake : take (length pre) (constraints t) = pre) by (by rewrite Heq, take_app_length).
    destruct (explain_spec (E:=PolarityViolation) t (length pre) (c_slots t c).1 (c_slots t c).2 Hok Hl1 Hl2)
      as (ks & He & Hw & Hks).
    { rewrite Htake. pose proof (rep_linked _ _ _ Hrep) as Hlk. unfold linked. etrans; [by eapply Hlk|].
      apply linked_sym. by eapply Hlk. }
    rewrite Htake in Hks. cbn [c_slots fst snd] in He. rewrite He. cbn [mbind outcome_bind].
    destruct (forest_consistent (anchor t) s (rep_forest _ _ _ Hrep)) as (sg0 & Hsg0 & Ha).
    exists pre, c, cs, ks. split; [done|]. split; [done|]. split; [done|]. split; [done|].
    assert (Hpre0 : Forall (c_eqn t sg0) pre) by (by apply (rep_models _ _ _ Hrep)).
    split; [by exists sg0|]. intros sg [H1 H2%Forall_one]%Forall_app.
    assert (Hks0 : Forall (c_eqn t sg0) ks).
    { eapply Forall_impl; [exact Hks|]. intros k Hk. rewrite Forall_forall in Hpre0. by apply Hpre0. }
    pose proof (walk_parity _ _ _ _ _ _ Hw H1 Hks0) as Hpar.
    destruct (Hm1 sg0) as [? _]; [|done]. split; [done|]. unfold c_eqn, eqn in *.
    revert Hpar. rewrite H2. clear. generalize (sg0 (c_slots t c).1), (sg0 (c_slots t c).2), (sg (c_slots t c).2).
    intros a b d. destruct (c_opposite c), a, b, d; done.
Qed.

(** ** Connectivity *)

(** Two nodes share a wire. *)
Definition wired (t : Topology) (a b : nat) : Prop :=
  exists w, w ∈ wires t /\
    (node (left w) = a /\ node (right w) = b \/ node (right w) = a /\ node (left w) = b).

Definition reachable (t : Topology) : nat -> nat -> Prop := rtc (wired t).

Lemma build_neighbors_spec {E} n ws ns :
  Forall (fun w => node (left w) < n /\ node (right w) < n) ws -> length ns = n ->
  exists ns', build_neighbors (E:=E) ws ns = Ok ns' /\ length ns' = n /\
    forall a b, has ns' a b <-> has ns a b \/ exists w, w ∈ ws /\
      (node (left w) = a /\ node (right w) = b \/ node (right w) = a /\ node (left w) = b).
Proof.
  intros Hw. revert ns. induction Hw as [|w ws [Hl Hr] Hw IH]; intros ns Hlen; cbn [build_neighbors].
  { exists ns. split; [done|]. split; [done|]. intros. split; [by left|].
    intros [?|(w & Hin & _)]; [done|]. by apply elem_of_nil in Hin. }
  destruct (push_edge_spec (E:=E) ns (node (left w)) (node (right w)) ltac:(lia)) as (n1 & -> & L1 & H1).
  cbn [mbind outcome_bind].
  destruct (push_edge_spec (E:=E) n1 (node (right w)) (node (left w)) ltac:(lia)) as (n2 & -> & L2 & H2).
  cbn [mbind outcome_bind]. destruct (IH n2 ltac:(lia)) as (ns' & -> & L3 & H3).
  exists ns'. split; [done|]. split; [done|]. intros a b. rewrite H3, H2, H1. split.
  - intros [[[?|[-> ->]]|[-> ->]]|(w' & Hin & Hj)]; [by left|right..].
    + exists w. split; [constructor|]. by left.
    + exists w. split; [constructor|]. by right.
    + exists w'. split; [by constructor|done].
  - intros [?|(w' & [->|Hin]%elem_of_cons & Hj)]; [by do 3 left| |by right; exists w'].
    left. destruct Hj as [[<- <-]|[<- <-]]; naive_solver.
Qed.

(** [reached] marks exactly the nodes of [order]. *)
Record marks (n : nat) (reached : list bool) (order : list nat) : Prop := {
  m_len : length reached = n;
  m_nodup : NoDup order;
  m_range : Forall (fun x => x < n) order;
  m_marks : forall x b, reached !! x = Some b -> b = bool_decide (x ∈ order);
}.

Lemma marks_push n reached order m :
  marks n reached order -> m < n -> m ∉ order -> marks n (<[m := true]> reached) (m :: order).
Proof.
  intros [M1 M2 M3 M4] Hm Hout. constructor.
  - by rewrite length_insert.
  - by constructor.
  - by constructor.
  - intros x b. destruct (decide (x = m)) as [->|].
    + rewrite list_lookup_insert_eq by lia. intros [= <-]. by rewrite bool_decide_true by set_solver.
    + rewrite list_lookup_insert_ne by done. intros Hx. rewrite (M4 _ _ Hx).
      apply bool_decide_ext. set_solver.
Qed.

Lemma mark_spec {E} n ns reached stack order :
  Forall (fun x => x < n) ns -> marks n reached order ->
  exists reached' new, mark (E:=E) ns reached stack = Ok (reached', new ++ stack) /\
    marks n reached' (new ++ order) /\ (forall m, m ∈ ns -> m ∈ new ++ order) /\ forall m, m ∈ new -> m ∈ ns.
Proof.
  intros Hn. revert reached stack order. induction Hn as [|m ns Hm Hn IH]; intros reached stack order Hmk.
  { exists reached, []. split; [done|]. split; [done|]. set_solver. }
  cbn [mark]. destruct (vec_get_lt (E:=E) reached m) as (b & Hb & ->); [by rewrite (m_len _ _ _ Hmk)|].
  cbn [mbind outcome_bind]. rewrite (m_marks _ _ _ Hmk _ _ Hb).
  destruct (decide (m ∈ order)) as [Hin|Hout].
  - rewrite bool_decide_true by done. destruct (IH reached stack order Hmk) as (r' & new & -> & Hmk' & Hall & Hnew).
    exists r', new. split; [done|]. split; [done|]. set_solver.
  - rewrite bool_decide_false by done. rewrite vec_set_lt by (by rewrite (m_len _ _ _ Hmk)).
    cbn [mbind outcome_bind].
    destruct (IH (<[m := true]> reached) (m :: stack) (m :: order)) as (r' & new & -> & Hmk' & Hall & Hnew);
      [by apply marks_push|].
    exists r', (new ++ [m]). rewrite <- !app_assoc. split; [done|]. split; [done|]. set_solver.
Qed.

Lemma flood_spec {E} n neighbors fuel reached stack processed :
  length neighbors = n -> (forall a b, has neighbors a b -> b < n) ->
  forall order, marks n reached order -> order ≡ₚ stack ++ processed ->
  (forall a b, a ∈ processed -> has neighbors a b -> b ∈ order) ->
  n <= length processed + fuel ->
  exists reached' order', flood (E:=E) fuel neighbors reached stack = Ok reached' /\
    marks n reached' order' /\ (forall x, x ∈ order -> x ∈ order') /\
    (forall a b, a ∈ order' -> has neighbors a b -> b ∈ order') /\
    (forall x, x ∈ order' -> exists y, y ∈ order /\ rtc (has neighbors) y x).
Proof.
  intros Hlen Hnb. revert reached stack processed. induction fuel as [|fuel IH];
    intros reached stack processed order Hmk Hperm Hcl Hfuel; destruct stack as [|x stack]; cbn [flood].
  1,3: exists reached, order; split; [done|]; split; [done|]; split; [done|]; split;
       [intros a b Ha; apply Hcl; by rewrite Hperm in Ha | intros y Hy; exists y; split; [done|apply rtc_refl]].
  { exfalso. pose proof (nodup_bounded _ _ (m_nodup _ _ _ Hmk) (m_range _ _ _ Hmk)) as Hb.
    rewrite (Permutation_length Hperm) in Hb. simpl in Hb. rewrite length_app in Hb. lia. }
  assert (Hx : x ∈ order) by (rewrite Hperm; set_solver).
  assert (Hxn : x < length neighbors).
  { rewrite Hlen. exact (proj1 (Forall_forall _ _) (m_range _ _ _ Hmk) _ Hx). }
  destruct (vec_get_lt (E:=E) neighbors x Hxn) as (ns & Hns & ->). cbn [mbind outcome_bind].
  destruct (mark_spec (E:=E) n ns reached stack order) as (r1 & new & -> & Hmk1 & Hall & Hnew); [|done|].
  { apply Forall_forall. intros m Hm. apply (Hnb x). by exists ns. }
  cbn [mbind outcome_bind].
  destruct (IH r1 (new ++ stack) (x :: processed) (new ++ order) Hmk1) as (r' & o' & Hfl & Hmk' & Hsub & Hcl' & Hsnd).
  - rewrite Hperm, <- app_assoc. apply Permutation_app_head. simpl. apply Permutation_middle.
  - intros a b [->|Ha]%elem_of_cons Hab.
    + apply Hall. destruct Hab as (ns' & Hns' & Hb). by simplify_eq.
    + apply elem_of_app. right. by apply (Hcl a).
  - simpl. lia.
  - exists r', o'. split; [done|]. split; [done|]. split; [set_solver|]. split; [done|].
    intros y Hy. destruct (Hsnd y Hy) as (z & [Hz|Hz]%elem_of_app & Hzy); [|by exists z].
    exists x. split; [done|]. eapply rtc_l; [|exact Hzy]. exists ns. split; [done|]. by apply Hnew.
Qed.

(** [check_connected] decides reachability and reports the first node that
    cannot be reached. *)
Lemma check_connected_spec t :
  topology_ok t ->
  (check_connected t = Ok () /\ forall i, i < length (shapes t) -> reachable t (node (exposed t)) i) \/
  (exists i, check_connected t = Err (Disconnected i) /\ i < length (shapes t) /\
     ~ reachable t (node (exposed t)) i /\ forall j, j < i -> reachable t (node (exposed t)) j).
Proof.
  intros [Hw [He _]]. unfold check_connected. set (n := length (shapes t)) in *.
  destruct (build_neighbors_spec (E:=PolarityViolation) n (wires t) (replicate n []))
    as (nb & -> & Hlen & Hnb).
  { eapply Forall_impl; [exact Hw|]. intros w [[? _] [? _]]. done. }
  { apply length_replicate. }
  assert (Hnb' : forall a b, has nb a b <-> wired t a b).
  { intros a b. rewrite Hnb. split; [|by right]. intros [Hn|?]; [by apply has_replicate_nil in Hn|done]. }
  cbn [mbind outcome_bind]. rewrite vec_set_lt by (rewrite length_replicate; lia). cbn [mbind outcome_bind].
  destruct (flood_spec (E:=PolarityViolation) n nb n (<[node (exposed t) := true]> (replicate n false))
    [node (exposed t)] [] Hlen) with (order := [node (exposed t)])
    as (reached & order & -> & Hmk & Hsub & Hcl & Hsnd).
  - intros a b (w & Hin & Hj)%Hnb'. rewrite Forall_forall in Hw. destruct (Hw w Hin) as [[? _] [? _]].
    subst n. lia.
  - apply (marks_push n (replicate n false) []); [|done|set_solver]. constructor.
    + apply length_replicate.
    + constructor.
    + constructor.
    + intros x b [-> _]%lookup_replicate. by rewrite bool_decide_false by set_solver.
  - done.
  - set_solver.
  - simpl. lia.
  - cbn [mbind outcome_bind].
    assert (Hreach : forall i, i < n -> i ∈ order <-> reachable t (node (exposed t)) i).
    { intros i Hi. split.
      - intros Hin. destruct (Hsnd i Hin) as (y & ->%list_elem_of_singleton & Hr).
        unfold reachable. eapply rtc_subrel; [|exact Hr]. intros a b. by rewrite Hnb'.
      - intros Hr. assert (H0 : node (exposed t) ∈ order) by (apply Hsub; set_solver).
        clear -Hr H0 Hcl Hnb'. unfold reachable in Hr. induction Hr as [|a b c Hab _ IH]; [done|].
        apply IH, (Hcl a); [done|]. by apply Hnb'. }
    assert (Hget : forall i, i < n -> reached !! i = Some (bool_decide (i ∈ order))).
    { intros i Hi. destruct (lookup_lt_is_Some_2 reached i) as [b Hb]; [by rewrite (m_len _ _ _ Hmk)|].
      by rewrite Hb, (m_marks _ _ _ Hmk _ _ Hb). }
    unfold first_unreached. destruct (list_find _ reached) as [[i b]|] eqn:Hfind; cbn [fmap option_fmap option_map fst].
    + right. apply list_find_Some in Hfind as (Hib & -> & Hbefore). exists i.
      assert (Hi : i < n) by (rewrite <- (m_len _ _ _ Hmk); by eapply lookup_lt_Some).
      split; [done|]. split; [done|]. split.
      * rewrite <- Hreach by done. rewrite Hget in Hib by done. intros Hin.
        rewrite bool_decide_true in Hib by done. done.
      * intros j Hj. apply Hreach; [lia|]. destruct (decide (j ∈ order)) as [|Hout]; [done|].
        exfalso. apply (Hbefore j false); [|done|done]. rewrite Hget by lia. by rewrite bool_decide_false.
    + left. split; [done|]. intros i Hi. apply Hreach; [done|].
      apply list_find_None in Hfind. rewrite Forall_forall in Hfind.
      destruct (decide (i ∈ order)) as [|Hout]; [done|]. exfalso.
      apply (Hfind false); [|done]. apply list_elem_of_lookup. exists i. rewrite Hget by done.
      by rewrite bool_decide_false.
Qed.

Lemma check_signs_cases t :
  topology_ok t ->
  (exists signs, check_signs t = Ok signs /\ length signs = anchor t /\
     Forall (c_eqn t (sg_of signs)) (constraints t)) \/
  (exists pre c post ks, constraints t = pre ++ c :: post /\
     check_signs t = Err (Conflict (c_rule c) (map c_rule ks)) /\
     walk t (c_slots t c).1 ks (c_slots t c).2 /\ Forall (fun k => k ∈ pre) ks /\
     (exists sg, sg (anchor t) = false /\ Forall (c_eqn t sg) pre) /\
     forall sg, ~ Forall (c_eqn t sg) (ks ++ [c])).
Proof.
  intros Hok. unfold check_signs.
  destruct (join_all_spec t (constraints t) [] _ Hok eq_refl (Signs_new_represents t))
    as [(s & Hj & Hrep)|(pre & c & post & ks & Heq & Hj & Hrest)]; cbn [length] in Hj; rewrite Hj;
    cbn [mbind outcome_bind].
  - left. destruct (find_spec (E:=PolarityViolation) (anchor t + 1) s (anchor t) (rep_forest _ _ _ Hrep) ltac:(lia))
      as (s' & ar & af & -> & Hs & Hss). cbn [mbind outcome_bind].
    destruct (read_signs_models (E:=PolarityViolation) (anchor t) s' ar af (proj1 Hss)) as (out & -> & Hlen & Hm).
    { by apply (proj2 Hss). }
    exists out. split; [done|]. split; [done|]. apply (rep_models _ _ _ Hrep). by rewrite same_sem_models.
  - right. by exists pre, c, post, ks.
Qed.

Lemma Forall_holds_eqn t sg cs :
  sg (anchor t) = false -> Forall (c_eqn t sg) cs ->
  Forall (holds (fun p => sign_of_bool (sg (port_slot p)))) cs.
Proof. intros Ha H. eapply Forall_impl; [exact H|]. intros c. by apply holds_eqn. Qed.

Lemma Forall_holds_slots t sg cs :
  Forall (constraint_ok t) cs -> Forall (holds sg) cs -> Forall (c_eqn t (slot_signs t sg)) cs.
Proof.
  intros Hok Hh. rewrite Forall_forall in *. intros c Hc. apply holds_slot_signs; [by apply Hok|by apply Hh].
Qed.

(** What holds of all equations holds of a conflict's cause and closing. *)
Lemma Forall_conflict (P : Constraint -> Prop) pre c post ks :
  Forall P (pre ++ c :: post) -> Forall (fun k => k ∈ pre) ks -> Forall P (ks ++ [c]).
Proof.
  intros [H1 H2]%Forall_app Hks. apply Forall_app. inversion H2; subst. split; [|by constructor].
  rewrite Forall_forall in *. intros k Hk. by apply H1, Hks.
Qed.

(** ** Properties *)

(** C16. The sign checker decides polarization: on a topology whose ports
    exist it always returns (its fuel suffices and no index is out of
    range); [Ok] carries one sign per port slot and those signs satisfy
    every node rule, wire and the exposed port; [Err] is a conflict, and
    then no sign assignment at all satisfies the rules. *)
Theorem check_signs_decides t :
  topology_ok t ->
  match check_signs t with
  | Ok signs => length signs = 3 * length (shapes t) /\
      exists sg, polarized_by t sg /\
        forall p, port_ok t p -> solved_sign (E:=Empty_set) signs p = Ok (sg p)
  | Err (Conflict _ _) => forall sg, ~ polarized_by t sg
  | _ => False
  end.
Proof.
  intros Hok. destruct (check_signs_cases t Hok)
    as [(signs & -> & Hlen & He)|(pre & c & post & ks & Heq & -> & Hw & Hks & _ & Hno)].
  - split; [rewrite Hlen; unfold anchor; lia|].
    exists (fun p => sign_of_bool (sg_of signs (port_slot p))). split.
    + apply (Forall_holds_eqn t); [|done]. unfold sg_of. rewrite (lookup_ge_None_2 signs) by lia. reflexivity.
    + intros p Hp. unfold solved_sign. apply vec_get_Ok. fold (port_slot p).
      pose proof (port_slot_lt t p Hp). destruct (lookup_lt_is_Some_2 signs (port_slot p)) as [x Hx]; [lia|].
      unfold sg_of. rewrite Hx. by destruct x.
  - intros sg Hp. apply (Hno (slot_signs t sg)). unfold polarized_by in Hp.
    pose proof (constraints_ok t Hok) as Hcok. rewrite Heq in Hp, Hcok.
    eapply Forall_conflict; [|done]. by apply Forall_holds_slots.
Qed.

(** A datum feeding an operator, whose result is exposed. *)
Definition good_topology : Topology :=
  {| shapes := [ShData; ShOperator]; wires := [MkWire (MkPort 0 0) (MkPort 1 0)]; exposed := MkPort 1 1 |}.

(** Two data nodes wired together, one eraser exposed. *)
Definition bad_topology : Topology :=
  {| shapes := [ShData; ShData; ShErase];
     wires := [MkWire (MkPort 0 0) (MkPort 1 0)]; exposed := MkPort 2 0 |}.

Ltac solve_topology :=
  repeat split; repeat constructor; cbn; lia.

Lemma good_topology_ok : topology_ok good_topology.
Proof. solve_topology. Qed.
Lemma bad_topology_ok : topology_ok bad_topology.
Proof. solve_topology. Qed.

Lemma check_signs_decides_witness :
  check_signs good_topology = Ok [Provides; Provides; Provides; Consumes; Provides; Provides] /\
  forall sg, ~ polarized_by bad_topology sg.
Proof.
  split; [vm_compute; reflexivity|].
  pose proof (check_signs_decides bad_topology bad_topology_ok) as H.
  replace (check_signs bad_topology) with
    (@Err PolarityViolation (list Sign) (Conflict (RuleWire (MkPort 0 0) (MkPort 1 0))
      [RuleNode (MkPort 0 0) DataProvides; RuleNode (MkPort 1 0) DataProvides])) in H
    by (vm_compute; reflexivity).
  exact H.
Defined.

(** C17. A reported conflict is a genuine one: the closing rule is the
    first equation that contradicts the earlier ones (those before it are
    satisfiable), and the rules listed as its cause are earlier equations
    that form a path between the closing rule's two ends and by themselves
    already contradict it. *)
Theorem conflict_explanation t closing forced :
  topology_ok t -> check_signs t = Err (Conflict closing forced) ->
  exists pre c post ks, constraints t = pre ++ c :: post /\ closing = c_rule c /\
    forced = map c_rule ks /\ Forall (fun k => k ∈ pre) ks /\
    walk t (slot t (Some (c_left c))) ks (slot t (c_right c)) /\
    (exists sg, Forall (holds sg) pre) /\
    forall sg, ~ Forall (holds sg) (ks ++ [c]).
Proof.
  intros Hok Herr. destruct (check_signs_cases t Hok)
    as [(signs & Hs & _)|(pre & c & post & ks & Heq & Hs & Hw & Hks & (sg0 & Ha & Hpre) & Hno)];
    rewrite Herr in Hs; simplify_eq.
  exists pre, c, post, ks. split; [done|]. split; [done|]. split; [done|]. split; [done|]. split; [done|].
  split; [exists (fun p => sign_of_bool (sg0 (port_slot p))); by apply (Forall_holds_eqn t)|].
  intros sg Hall. apply (Hno (slot_signs t sg)). apply Forall_holds_slots; [|done].
  pose proof (constraints_ok t Hok) as Hcok. rewrite Heq in Hcok. by eapply Forall_conflict.
Qed.

Lemma conflict_explanation_witness :
  exists ks, map c_rule ks =
    [RuleNode (MkPort 0 0) DataProvides; RuleNode (MkPort 1 0) DataProvides] /\
    exists c, forall sg, ~ Forall (holds sg) (ks ++ [c]).
Proof.
  destruct (conflict_explanation bad_topology (RuleWire (MkPort 0 0) (MkPort 1 0))
    [RuleNode (MkPort 0 0) DataProvides; RuleNode (MkPort 1 0) DataProvides] bad_topology_ok)
    as (pre & c & post & ks & _ & _ & Hks & _ & _ & _ & Hno); [vm_compute; reflexivity|].
  exists ks. split; [symmetry; exact Hks|]. exists c. exact Hno.
Defined.

(** Connectivity is decided exactly: the check succeeds when wires
    lead from the exposed port's node to every node, and otherwise names
    the lowest-numbered node that cannot be reached; it always returns. *)
Theorem check_connected_decides t :
  topology_ok t ->
  match check_connected t with
  | Ok _ => forall i, i < length (shapes t) -> reachable t (node (exposed t)) i
  | Err (Disconnected i) => i < length (shapes t) /\ ~ reachable t (node (exposed t)) i /\
      forall j, j < i -> reachable t (node (exposed t)) j
  | _ => False
  end.
Proof.
  intros Hok. destruct (check_connected_spec t Hok) as [[-> H]|(i & -> & H)]; done.
Qed.

Lemma check_connected_witness :
  check_connected bad_topology = Err (Disconnected 0) /\
  ~ reachable bad_topology 2 0 /\ (forall i, i < 2 -> reachable good_topology 1 i).
Proof.
  split; [vm_compute; reflexivity|]. split.
  - pose proof (check_connected_decides bad_topology bad_topology_ok) as H.
    replace (check_connected bad_topology) with (@Err PolarityViolation unit (Disconnected 0)) in H
      by (vm_compute; reflexivity). apply H.
  - pose proof (check_connected_decides good_topology good_topology_ok) as H.
    replace (check_connected good_topology) with (@Ok PolarityViolation unit ()) in H
      by (vm_compute; reflexivity). exact H.
Defined.

(** The whole template check never panics and accepts exactly the
    topologies that are polarized and connected. *)
Theorem check_accepts t :
  topology_ok t ->
  (exists signs, check t ALL = Ok (Some signs)) <->
  ((exists sg, polarized_by t sg) /\ forall i, i < length (shapes t) -> reachable t (node (exposed t)) i).
Proof.
  intros Hok. unfold check, ALL; cbn [check_sign check_conn].
  pose proof (check_connected_spec t Hok) as Hc.
  destruct (check_signs_cases t Hok)
    as [(signs & -> & Hlen & He)|(pre & c & post & ks & Heq & -> & Hw & Hks & _ & Hno)]; cbn [mbind outcome_bind].
  - destruct Hc as [[-> H]|(i & -> & Hi & Hn & _)]; cbn [mbind outcome_bind].
    + split; [|by eauto]. intros _. split; [|done].
      exists (fun p => sign_of_bool (sg_of signs (port_slot p))).
      apply (Forall_holds_eqn t); [|done]. unfold sg_of. rewrite (lookup_ge_None_2 signs) by lia. reflexivity.
    + split; [by intros [? ?]|]. intros [_ H]. by destruct Hn; apply H.
  - split; [by intros [? ?]|]. intros [[sg Hp] _]. exfalso. apply (Hno (slot_signs t sg)).
    apply Forall_holds_slots.
    + pose proof (constraints_ok t Hok) as Hcok. rewrite Heq in Hcok. by eapply Forall_conflict.
    + unfold polarized_by in Hp. rewrite Heq in Hp. by eapply Forall_conflict.
Qed.

Lemma check_accepts_witness :
  exists signs, check good_topology ALL = Ok (Some signs).
Proof.
  apply (check_accepts good_topology good_topology_ok). split.
  - exists (fun p => match p with MkPort 1 0 => Consumes | _ => Provides end). repeat constructor.
  - intros i Hi. cbn in Hi. destruct i as [|[|i]]; [| apply rtc_refl | lia].
    apply rtc_once. exists (MkWire (MkPort 0 0) (MkPort 1 0)). split; [constructor|]. right. split; reflexivity.
Defined.
