(* ===== verification/NetBuilder.v ===== *)
(** * The interaction-net builder ([src/interaction_net/builder.rs])

    A builder collects nodes, wires and builder-only tunnels; finishing it
    validates the wiring, checks polarity on the topology as built, and
    splices the tunnels out. Operations pass the builder explicitly; a
    [Result] or a panic of the source is an [outcome]. *)
From stdpp Require Import base option list numbers gmap sets relations.
From Stdlib Require Import Lia ZArith.
From S2P Require Import Prelude NetModel Polarity.

(** ** State *)
Inductive BuilderNode (D O : Type) := Runtime (n : Node D O) | Tunnel.
Arguments Runtime {D O} n.
Arguments Tunnel {D O}.

Definition builder_port_count {D O} (n : BuilderNode D O) : nat :=
  match n with Runtime n => port_count n | Tunnel => 2 end.

Definition is_tunnel {D O} (n : BuilderNode D O) : bool :=
  match n with Tunnel => true | Runtime _ => false end.

Record NetBuilder (D O : Type) := MkBuilder {
  nodes : list (BuilderNode D O);
  bwires : list Wire;
  wired_ports : gset Port;
  next_fan_site : Z;
}.
Arguments MkBuilder {D O}.
Arguments nodes {D O}.
Arguments bwires {D O}.
Arguments wired_ports {D O}.
Arguments next_fan_site {D O}.

Record CopyPorts := { copy_input : Port; copy_outputs : list Port }.
Record BindSpine := { spine_input : Port; spine_arguments : list Port; spine_result : Port }.

Inductive NetBuildError :=
  | InvalidPort (p : Port)
  | InvalidExposedPort (p : Port)
  | SelfWire (p : Port)
  | PortAlreadyWired (p : Port)
  | ExposedPortWired (p : Port)
  | PortUnwired (p : Port)
  | TunnelCycle
  | PolarityError (v : PolarityViolation).

Section builder.
Context {D O : Type}.
Implicit Types b : NetBuilder D O.

Definition builder_new : NetBuilder D O := MkBuilder [] [] ∅ 0.

(** ** Adding nodes *)
Definition push_node b (n : BuilderNode D O) : NetBuilder D O * nat :=
  (MkBuilder (nodes b ++ [n]) (bwires b) (wired_ports b) (next_fan_site b), length (nodes b)).

Definition push b (n : Node D O) : NetBuilder D O * nat := push_node b (Runtime n).

(** [[principal, auxiliary 1, auxiliary 2]]. *)
Definition bind b : NetBuilder D O * (Port * Port * Port) :=
  let '(b, n) := push b Bind in (b, (MkPort n 0, MkPort n 1, MkPort n 2)).

(** [[function, argument, result]]: the auxiliaries in the other order. *)
Definition function_bind b : NetBuilder D O * (Port * Port * Port) :=
  let '(b, (function, result, argument)) := bind b in (b, (function, argument, result)).

Definition valid_port b (p : Port) : bool :=
  match nodes b !! node p with
  | Some n => (index p <? builder_port_count n)%nat
  | None => false
  end.

Definition port_is_wired b (p : Port) : bool := bool_decide (p ∈ wired_ports b).

Definition try_wire b (l r : Port) : outcome NetBuildError (NetBuilder D O) :=
  if negb (valid_port b l) then Err (InvalidPort l) else
  if port_is_wired b l then Err (PortAlreadyWired l) else
  if negb (valid_port b r) then Err (InvalidPort r) else
  if port_is_wired b r then Err (PortAlreadyWired r) else
  if decide (l = r) then Err (SelfWire l) else
  Ok (MkBuilder (nodes b) (bwires b ++ [MkWire l r]) ({[r]} ∪ ({[l]} ∪ wired_ports b)) (next_fan_site b)).

(** [.expect(..)] on a [Result]. *)
Definition wire {E} b (l r : Port) : outcome E (NetBuilder D O) :=
  match try_wire b l r with Ok b => Ok b | Err _ | Panic => Panic | OutOfFuel => OutOfFuel end.

(** [(0..arity).map(|_| bind(self)).collect()]. *)
Fixpoint spine_binds (mk : NetBuilder D O -> NetBuilder D O * (Port * Port * Port)) (arity : nat) b
    : NetBuilder D O * list (Port * Port * Port) :=
  match arity with
  | 0 => (b, [])
  | S arity =>
      let '(b, x) := mk b in
      let '(b, xs) := spine_binds mk arity b in
      (b, x :: xs)
  end.

Definition bind_input (x : Port * Port * Port) : Port := x.1.1.
Definition bind_argument (x : Port * Port * Port) : Port := x.1.2.
Definition bind_result (x : Port * Port * Port) : Port := x.2.

(** [for pair in binds.windows(2) { self.wire(pair[0][2], pair[1][0]) }]. *)
Fixpoint spine_wires {E} b (binds : list (Port * Port * Port)) : outcome E (NetBuilder D O) :=
  match binds with
  | x :: ((y :: _) as rest) => b ← wire b (bind_result x) (bind_input y); spine_wires b rest
  | _ => Ok b
  end.

Definition spine {E} b (arity : nat) (mk : NetBuilder D O -> NetBuilder D O * (Port * Port * Port))
    : outcome E (NetBuilder D O * BindSpine) :=
  _ ← rust_assert (bool_decide (0 < arity));
  let '(b, binds) := spine_binds mk arity b in
  b ← spine_wires b binds;
  first ← vec_get binds 0;
  last ← expect (last binds);
  Ok (b, {| spine_input := bind_input first; spine_arguments := map bind_argument binds;
            spine_result := bind_result last |}).

Definition function_spine {E} b (arity : nat) : outcome E (NetBuilder D O * BindSpine) :=
  spine b arity function_bind.

Definition data b (d : D) : NetBuilder D O * Port :=
  let '(b, n) := push b (DataNode d) in (b, MkPort n 0).

Definition operator b (o : O) : NetBuilder D O * (Port * Port) :=
  let '(b, n) := push b (OperatorNode o) in (b, (MkPort n 0, MkPort n 1)).

Definition unary_operator {E} b (o : O) : outcome E (NetBuilder D O * Port) :=
  let '(b, (function, argument, result)) := function_bind b in
  let '(b, (input, output)) := operator b o in
  b ← wire b argument input;
  b ← wire b result output;
  Ok (b, function).

Definition push_fan {E} b : outcome E (NetBuilder D O * nat) :=
  let site := MkFanSite (next_fan_site b) in
  next ← expect (checked_add (next_fan_site b) 1);
  Ok (push (MkBuilder (nodes b) (bwires b) (wired_ports b) next) (Fan site)).

(** The recursion halves [outputs]; it is called with at least one. *)
Fixpoint copy_branch {E} (fuel : nat) b (branch : Port) (outputs : nat) (leaves : list Port)
    : outcome E (NetBuilder D O * list Port) :=
  if decide (outputs = 1) then Ok (b, leaves ++ [branch]) else
  match fuel with
  | 0 => OutOfFuel
  | S fuel =>
      '(b, fan) ← push_fan b;
      b ← wire b branch (MkPort fan 0);
      let half := outputs / 2 in
      '(b, leaves) ← copy_branch fuel b (MkPort fan 1) half leaves;
      copy_branch fuel b (MkPort fan 2) (outputs - half) leaves
  end.

Definition copy {E} b (outputs : nat) : outcome E (NetBuilder D O * CopyPorts) :=
  match outputs with
  | 0 =>
      let '(b, erase) := push b Erase in
      Ok (b, {| copy_input := MkPort erase 0; copy_outputs := [] |})
  | 1 =>
      let '(b, tunnel) := push_node b Tunnel in
      Ok (b, {| copy_input := MkPort tunnel 0; copy_outputs := [MkPort tunnel 1] |})
  | _ =>
      '(b, root) ← push_fan b;
      let half := outputs / 2 in
      '(b, leaves) ← copy_branch outputs b (MkPort root 1) half [];
      '(b, leaves) ← copy_branch outputs b (MkPort root 2) (outputs - half) leaves;
      Ok (b, {| copy_input := MkPort root 0; copy_outputs := leaves |})
  end.

Definition node_count b : nat := length (nodes b).

(** ** Finishing *)

Definition builder_shape (n : BuilderNode D O) : Shape :=
  match n with Runtime n => shape_of n | Tunnel => ShTunnel end.

Definition topology_of b (exposed : Port) : Topology :=
  {| shapes := map builder_shape (nodes b); wires := bwires b; exposed := exposed |}.

Definition check_polarity b (exposed : Port) : outcome NetBuildError (option (list Sign)) :=
  map_err PolarityError (check (topology_of b exposed) ALL).

(** Mark one end of a wire in the table of wired ports. *)
Definition validate_port (exposed p : Port) (table : list (list bool))
    : outcome NetBuildError (list (list bool)) :=
  if decide (p = exposed) then Err (ExposedPortWired p) else
  match table !! node p with
  | None => Err (InvalidPort p)
  | Some ports =>
      match ports !! index p with
      | None => Err (InvalidPort p)
      | Some true => Err (PortAlreadyWired p)
      | Some false => Ok (<[node p := <[index p := true]> ports]> table)
      end
  end.

Fixpoint validate_wires (exposed : Port) (ws : list Wire) (table : list (list bool))
    : outcome NetBuildError (list (list bool)) :=
  match ws with
  | [] => Ok table
  | w :: ws =>
      table ← validate_port exposed (left w) table;
      table ← validate_port exposed (right w) table;
      validate_wires exposed ws table
  end.

(** The first port, in order, that is neither wired nor exposed. *)
Definition first_unwired (exposed : Port) (table : list (list bool)) : option Port :=
  snd <$> list_find (fun p => p <> exposed)
    (concat (imap (fun n ports => omap (fun ib => if ib.2 : bool then None else Some (MkPort n ib.1))
       (imap (fun i x => (i, x)) ports)) table)).

Definition validate b (exposed : Port) : outcome NetBuildError unit :=
  if negb (valid_port b exposed) then Err (InvalidExposedPort exposed) else
  table ← validate_wires exposed (bwires b)
            (map (fun n => replicate (builder_port_count n) false) (nodes b));
  match first_unwired exposed table with
  | Some p => Err (PortUnwired p)
  | None => Ok ()
  end.

(** [.collect::<TrustedHashMap>()]: a later pair replaces an earlier one. *)
Definition links_of (ws : list Wire) : gmap Port Port :=
  fold_left (fun m w => <[right w := left w]> (<[left w := right w]> m)) ws ∅.

(** The other end of a tunnel. *)
Definition tunnel_other (p : Port) : Port :=
  if decide (index p = 0) then MkPort (node p) 1 else MkPort (node p) 0.

Fixpoint follow_tunnels (fuel : nat) (links : gmap Port Port) (tunnels : list bool) (exposed : Port)
    (path : gset Port) (visited : gset nat) (p : Port) : outcome NetBuildError (Port * gset nat) :=
  match tunnels !! node p with
  | None => Err (InvalidPort p)
  | Some false => Ok (p, visited)
  | Some true =>
      if decide (p ∈ path) then Err TunnelCycle else
      let visited := {[node p]} ∪ visited in
      let other := tunnel_other p in
      if decide (other = exposed) then Err TunnelCycle else
      match links !! other with
      | None => Err (PortUnwired other)
      | Some p' =>
          match fuel with
          | 0 => OutOfFuel
          | S fuel => follow_tunnels fuel links tunnels exposed ({[p]} ∪ path) visited p'
          end
      end
  end.

Definition remap_port {E} (node_map : list (option nat)) (p : Port) : outcome E Port :=
  m ← vec_get node_map (node p);
  n ← expect m;
  Ok (MkPort n (index p)).

(** Runtime nodes in order, and each old node's new number. *)
Fixpoint renumber (ns : list (BuilderNode D O)) (next : nat) : list (Node D O) * list (option nat) :=
  match ns with
  | [] => ([], [])
  | Runtime n :: ns => let '(rt, m) := renumber ns (S next) in (n :: rt, Some next :: m)
  | Tunnel :: ns => let '(rt, m) := renumber ns next in (rt, None :: m)
  end.

(** What [normalize] reads while it builds the wires. *)
Record NormalizeEnv := {
  e_links : gmap Port Port;
  e_tunnels : list bool;
  e_map : list (option nat);
  e_exposed : Port;
  e_exposed_runtime : Port;
  e_signs : option (list Sign);
  e_fuel : nat;
}.

(** One port of one runtime node. *)
Definition normalize_port (env : NormalizeEnv) (old local : Port) (visited : gset nat) (acc : list Wire)
    : outcome NetBuildError (gset nat * list Wire) :=
  if decide (local = e_exposed_runtime env) then Ok (visited, acc) else
  neighbor ← expect (e_links env !! old);
  '(terminal, visited) ← follow_tunnels (e_fuel env) (e_links env) (e_tunnels env) (e_exposed env)
                            ∅ visited neighbor;
  remote ← remap_port (e_map env) terminal;
  if decide (local = remote) then Err (SelfWire local) else
  keep ← (match e_signs env with
          | Some signs => s ← solved_sign signs old; Ok (bool_decide (s = Provides))
          | None => Ok (port_lt local remote)
          end);
  Ok (visited, if (keep : bool) then acc ++ [MkWire local remote] else acc).

Fixpoint normalize_ports (env : NormalizeEnv) (ps : list (Port * Port)) (visited : gset nat)
    (acc : list Wire) : outcome NetBuildError (gset nat * list Wire) :=
  match ps with
  | [] => Ok (visited, acc)
  | (old, local) :: ps =>
      '(visited, acc) ← normalize_port env old local visited acc;
      normalize_ports env ps visited acc
  end.

(** The ports the loops of [normalize] visit, old and new, in order. *)
Fixpoint runtime_ports (ns : list (BuilderNode D O)) (old next : nat) : list (Port * Port) :=
  match ns with
  | [] => []
  | Runtime n :: ns =>
      map (fun i => (MkPort old i, MkPort next i)) (seq 0 (port_count n)) ++ runtime_ports ns (S old) (S next)
  | Tunnel :: ns => runtime_ports ns (S old) next
  end.

(** The exposed port's new name, following a tunnel to its far end. *)
Definition normalize_exposed (fuel : nat) (links : gmap Port Port) (tunnels : list bool)
    (node_map : list (option nat)) (exposed : Port) : outcome NetBuildError (Port * gset nat) :=
  exposed_is_tunnel ← vec_get tunnels (node exposed);
  if (exposed_is_tunnel : bool) then
    '(terminal, visited) ← follow_tunnels fuel links tunnels exposed ∅ ∅ exposed;
    p ← remap_port node_map terminal;
    Ok (p, visited)
  else p ← remap_port node_map exposed; Ok (p, ∅).

Definition normalize b (exposed : Port) (signs : option (list Sign))
    : outcome NetBuildError (InteractionNet D O) :=
  let tunnels := map is_tunnel (nodes b) in
  let tunnel_count := length (filter (fun t : bool => t = true) tunnels) in
  let links := links_of (bwires b) in
  let '(runtime_nodes, node_map) := renumber (nodes b) 0 in
  let fuel := 3 * length (nodes b) in
  '(exposed_runtime, visited) ← normalize_exposed fuel links tunnels node_map exposed;
  let env := {| e_links := links; e_tunnels := tunnels; e_map := node_map; e_exposed := exposed;
                e_exposed_runtime := exposed_runtime; e_signs := signs; e_fuel := fuel |} in
  '(visited, wires) ← normalize_ports env (runtime_ports (nodes b) 0 0) visited [];
  if decide (size visited = tunnel_count) then Ok (MkNet runtime_nodes wires exposed_runtime)
  else Err TunnelCycle.

Definition try_finish b (exposed : Port) : outcome NetBuildError (InteractionNet D O) :=
  _ ← validate b exposed;
  signs ← check_polarity b exposed;
  normalize b exposed signs.

(** [finish]: the [Result] unwrapped with [expect]. *)
Definition finish {E} b (exposed : Port) : outcome E (InteractionNet D O) :=
  match try_finish b exposed with Ok n => Ok n | Err _ | Panic => Panic | OutOfFuel => OutOfFuel end.
End builder.

(** ** Validation *)
Definition endpoints (ws : list Wire) : list Port := concat (map (fun w => [left w; right w]) ws).

Lemma endpoints_app ws1 ws2 : endpoints (ws1 ++ ws2) = endpoints ws1 ++ endpoints ws2.
Proof. unfold endpoints. by rewrite map_app, concat_app. Qed.

Section validation.
Context {D O : Type}.
Implicit Types b : NetBuilder D O.

(** The exposed port and the wire ends enumerate every port exactly once. *)
Definition closed_by b (exposed : Port) : Prop :=
  NoDup (exposed :: endpoints (bwires b)) /\
  forall p, valid_port b p = true <-> p ∈ exposed :: endpoints (bwires b).

Definition table_get (table : list (list bool)) (p : Port) : option bool :=
  table !! node p ≫= fun ports => ports !! index p.

(** The table marks exactly the ports of [S] among those of [b]. *)
Definition table_marks b (S : list Port) (table : list (list bool)) : Prop :=
  forall p, table_get table p = if valid_port b p then Some (bool_decide (p ∈ S)) else None.

Lemma table_get_set table p q x :
  is_Some (table_get table p) ->
  table_get (<[node p := <[index p := x]> (default [] (table !! node p))]> table) q =
    if decide (q = p) then Some x else table_get table q.
Proof.
  unfold table_get. intros [y Hy]. destruct (table !! node p) as [ports|] eqn:Hp; [|done]. cbn in *.
  pose proof (lookup_lt_Some _ _ _ Hp). pose proof (lookup_lt_Some _ _ _ Hy).
  destruct (decide (node q = node p)) as [Hn|Hn].
  - rewrite Hn, list_lookup_insert_eq by done. cbn. rewrite Hp. cbn.
    case_decide as Hd.
    + subst. by rewrite list_lookup_insert_eq.
    + rewrite list_lookup_insert_ne; [done|]. intros ?. apply Hd. destruct p, q; cbn in *. congruence.
  - rewrite list_lookup_insert_ne by done. rewrite decide_False by congruence. done.
Qed.

Lemma validate_port_spec b S table exposed p :
  table_marks b S table ->
  if bool_decide (p <> exposed /\ valid_port b p = true /\ p ∉ S)
  then exists table', validate_port exposed p table = Ok table' /\ table_marks b (p :: S) table'
  else exists e, validate_port exposed p table = Err e.
Proof.
  intros Hm. unfold validate_port. case_decide as Hpe; [rewrite bool_decide_false by tauto; eauto|].
  pose proof (Hm p) as Hp. unfold table_get in Hp.
  destruct (table !! node p) as [ports|] eqn:Ht; cbn in Hp.
  2:{ destruct (valid_port b p) eqn:Hv; [done|]. rewrite bool_decide_false by naive_solver. eauto. }
  destruct (ports !! index p) as [x|] eqn:Hx.
  2:{ destruct (valid_port b p) eqn:Hv; [done|]. rewrite bool_decide_false by naive_solver. eauto. }
  destruct (valid_port b p) eqn:Hv; [|done]. injection Hp as ->.
  destruct (decide (p ∈ S)) as [Hin|Hout].
  { rewrite (bool_decide_false (_ /\ _)) by tauto. rewrite bool_decide_true by done. eauto. }
  rewrite (bool_decide_true (_ /\ _)) by tauto. rewrite bool_decide_false by done.
  eexists. split; [done|]. intros q.
  pose proof (table_get_set table p q true) as Hs. rewrite Ht in Hs. cbn [default] in Hs. unfold id in Hs. rewrite Hs.
  2:{ unfold table_get. rewrite Ht. cbn. by rewrite Hx. }
  case_decide as Hq.
  - subst. rewrite Hv, bool_decide_true by set_solver. done.
  - rewrite Hm. destruct (valid_port b q); [|done]. f_equal. apply bool_decide_ext. set_solver.
Qed.

Fixpoint validate_ports (exposed : Port) (ps : list Port) (table : list (list bool))
    : outcome NetBuildError (list (list bool)) :=
  match ps with [] => Ok table | p :: ps => table ← validate_port exposed p table; validate_ports exposed ps table end.

Lemma validate_wires_ports exposed ws table :
  validate_wires exposed ws table = validate_ports exposed (endpoints ws) table.
Proof.
  revert table. induction ws as [|w ws IH]; intros table; [done|]. cbn.
  destruct (validate_port exposed (left w) table) as [t1| | |]; try done. cbn.
  destruct (validate_port exposed (right w) t1) as [t2| | |]; try done. cbn. apply IH.
Qed.

Definition ports_fresh b exposed (S ps : list Port) : Prop :=
  NoDup ps /\ forall p, p ∈ ps -> p <> exposed /\ valid_port b p = true /\ p ∉ S.

Lemma validate_ports_spec b exposed ps S table :
  table_marks b S table ->
  (ports_fresh b exposed S ps /\
     exists table', validate_ports exposed ps table = Ok table' /\ table_marks b (reverse ps ++ S) table') \/
  (~ ports_fresh b exposed S ps /\ exists e, validate_ports exposed ps table = Err e).
Proof.
  revert S table. induction ps as [|p ps IH]; intros S table Hm; cbn [validate_ports].
  { left. split; [|by exists table]. split; [constructor|]. intros p Hp. by apply elem_of_nil in Hp. }
  pose proof (validate_port_spec b S table exposed p Hm) as Hp. case_bool_decide as Hc.
  - destruct Hp as (t1 & -> & Hm1). cbn [mbind outcome_bind].
    destruct (IH (p :: S) t1 Hm1) as [[[Hnd Hall] (t2 & -> & Hm2)]|[Hno (e & ->)]].
    + left. split.
      * split; [constructor; [|done]; intros Hin; destruct (Hall p Hin) as (_ & _ & Hn); set_solver|].
        intros q [->|Hq]%elem_of_cons; [tauto|]. destruct (Hall q Hq) as (? & ? & ?). set_solver.
      * exists t2. split; [done|]. rewrite reverse_cons, <- app_assoc. done.
    + right. split; [|eauto]. intros [Hnd Hall]. apply Hno. inversion Hnd; subst. split; [done|].
      intros q Hq. destruct (Hall q) as (? & ? & ?); [by constructor|]. split; [done|]. split; [done|].
      rewrite not_elem_of_cons. split; [|done]. intros ->. done.
  - destruct Hp as (e & ->). cbn [mbind outcome_bind]. right. split; [|eauto]. intros [_ Hall]. apply Hc.
    destruct (Hall p) as (? & ? & ?); [by constructor|]. done.
Qed.

Lemma first_unwired_spec b exposed S table :
  table_marks b S table ->
  first_unwired exposed table = None <->
  forall p, valid_port b p = true -> p = exposed \/ p ∈ S.
Proof.
  intros Hm. unfold first_unwired.
  set (unwired := concat _).
  assert (Hu : forall p, p ∈ unwired <-> table_get table p = Some false).
  { intros p. subst unwired. unfold table_get. rewrite list_elem_of_In, in_concat. split.
    - intros (l & Hl%list_elem_of_In & Hp%list_elem_of_In).
      apply elem_of_lookup_imap in Hl as (n & ports & -> & Hn).
      apply list_elem_of_omap in Hp as ([i x] & Hix & Hp). cbn in Hp. destruct x; [done|]. injection Hp as <-.
      apply elem_of_lookup_imap in Hix as (i' & x' & [= -> ->] & Hi). cbn. rewrite Hn. cbn. done.
    - destruct (table !! node p) as [ports|] eqn:Hn; [|done]. cbn. intros Hi.
      eexists. split; apply list_elem_of_In.
      + apply elem_of_lookup_imap. eexists _, _. split; [done|exact Hn].
      + apply list_elem_of_omap. exists (index p, false). split; [|destruct p; done].
        apply elem_of_lookup_imap. eexists _, _. split; [done|exact Hi]. }
  assert (Hnone : snd <$> list_find (fun p => p <> exposed) unwired = None <->
    forall p, p ∈ unwired -> p = exposed).
  { rewrite fmap_None, list_find_None, Forall_forall.
    split; intros H p Hp; specialize (H p Hp); [by apply dec_stable|tauto]. }
  rewrite Hnone. split.
  - intros H p Hv. destruct (decide (p ∈ S)) as [|Hn]; [by right|]. left. apply H, Hu.
    by rewrite Hm, Hv, bool_decide_false.
  - intros H p Hp%Hu. rewrite Hm in Hp. destruct (valid_port b p) eqn:Hv; [|done].
    injection Hp as Hp%bool_decide_eq_false. naive_solver.
Qed.

Lemma table_marks_init b :
  table_marks b [] (map (fun n => replicate (builder_port_count n) false) (nodes b)).
Proof.
  intros p. unfold table_get, valid_port. rewrite list_lookup_fmap.
  destruct (nodes b !! node p) as [n|]; cbn [fmap option_fmap option_map mbind option_bind]; [|done].
  destruct (Nat.ltb_spec (index p) (builder_port_count n)).
  - apply lookup_replicate. split; [|done]. by rewrite bool_decide_false by set_solver.
  - apply lookup_replicate_None. lia.
Qed.

(** [validate] accepts exactly the closed builders, and never panics. *)
Lemma validate_cases b exposed :
  (validate b exposed = Ok () /\ closed_by b exposed) \/
  (exists e, validate b exposed = Err e /\ ~ closed_by b exposed).
Proof.
  unfold validate. destruct (valid_port b exposed) eqn:Hv; cbn [negb].
  2:{ right. eexists. split; [done|]. intros [_ H]. rewrite (proj2 (H exposed)) in Hv; [done|]. constructor. }
  rewrite validate_wires_ports.
  destruct (validate_ports_spec b exposed (endpoints (bwires b)) [] _ (table_marks_init b))
    as [[[Hnd Hall] (t & -> & Hm)]|[Hno (e & ->)]]; cbn [mbind outcome_bind].
  - rewrite app_nil_r in Hm. pose proof (first_unwired_spec b exposed _ t Hm) as Hf.
    destruct (first_unwired exposed t) as [p|].
    + right. eexists. split; [done|]. intros [_ H]. discriminate (proj2 Hf).
      intros q Hq%H. apply elem_of_cons in Hq as [|Hq]; [by left|right; by apply elem_of_reverse].
    + left. split; [done|]. split.
      * constructor; [|done]. intros Hin. by destruct (Hall _ Hin).
      * intros p. split.
        -- intros Hp. destruct (proj1 Hf eq_refl p Hp) as [->|Hin]; [constructor|].
           constructor. by apply elem_of_reverse.
        -- intros [->|Hin]%elem_of_cons; [done|]. by destruct (Hall _ Hin) as (_ & ? & _).
  - right. eexists. split; [done|]. intros [Hnd H]. apply Hno. inversion Hnd; subst. split; [done|].
    intros p Hp. split; [congruence|]. split; [apply H; by constructor|set_solver].
Qed.
End validation.

(** ** The wire map *)
Lemma endpoints_elem ws p : p ∈ endpoints ws <-> exists w, w ∈ ws /\ (p = left w \/ p = right w).
Proof.
  unfold endpoints. rewrite list_elem_of_In, in_concat. split.
  - intros (l & Hl & Hp). apply in_map_iff in Hl as (w & <- & Hw). exists w.
    split; [by apply list_elem_of_In|]. cbn in Hp. naive_solver.
  - intros (w & Hw & Hp). exists [left w; right w]. split; [apply in_map_iff; exists w; split; [done|by apply list_elem_of_In]|].
    cbn. naive_solver.
Qed.

Lemma links_of_snoc ws w :
  links_of (ws ++ [w]) = <[right w := left w]> (<[left w := right w]> (links_of ws)).
Proof. unfold links_of. by rewrite fold_left_app. Qed.

(** Wire ends are distinct, so the map pairs the two ends of each wire. *)
Lemma links_of_spec ws p q :
  NoDup (endpoints ws) ->
  links_of ws !! p = Some q <->
  exists w, w ∈ ws /\ (left w = p /\ right w = q \/ right w = p /\ left w = q).
Proof.
  induction ws as [|w ws IH] using rev_ind; intros Hnd.
  { split; [done|]. intros (w & Hw & _). by apply elem_of_nil in Hw. }
  rewrite endpoints_app in Hnd. apply NoDup_app in Hnd as (Hnd & Hdis & Hw). cbn in Hw, Hdis.
  apply NoDup_cons in Hw as [Hlr _]. rewrite not_elem_of_cons in Hlr. destruct Hlr as [Hlr _].
  specialize (IH Hnd).
  assert (Hout : forall w', w' ∈ ws -> left w' <> left w /\ left w' <> right w /\
    right w' <> left w /\ right w' <> right w).
  { intros w' Hw'. assert (Hin : left w' ∈ endpoints ws /\ right w' ∈ endpoints ws).
    { rewrite !endpoints_elem. naive_solver. }
    destruct Hin as [H1 H2]. pose proof (Hdis _ H1). pose proof (Hdis _ H2). set_solver. }
  rewrite links_of_snoc. setoid_rewrite elem_of_app. setoid_rewrite list_elem_of_singleton.
  destruct (decide (p = right w)) as [->|Hr].
  { rewrite lookup_insert_eq. split.
    - intros [= <-]. exists w. tauto.
    - intros (w' & [Hw'| ->] & Hj); [specialize (Hout w' Hw'); naive_solver|naive_solver]. }
  rewrite lookup_insert_ne by done. destruct (decide (p = left w)) as [->|Hl].
  { rewrite lookup_insert_eq. split.
    - intros [= <-]. exists w. tauto.
    - intros (w' & [Hw'| ->] & Hj); [specialize (Hout w' Hw'); naive_solver|naive_solver]. }
  rewrite lookup_insert_ne by done. rewrite IH. split.
  - intros (w' & Hw' & Hj). exists w'. tauto.
  - intros (w' & [Hw'| ->] & Hj); [by exists w'|naive_solver].
Qed.

(** ** Renumbering *)
Section renumbering.
Context {D O : Type}.
Implicit Types ns : list (BuilderNode D O).

Definition new_nodes ns next : list (Node D O) := (renumber ns next).1.
Definition new_map ns next : list (option nat) := (renumber ns next).2.

Lemma new_map_cons n ns next :
  new_map (n :: ns) next =
    match n with Runtime _ => Some next :: new_map ns (S next) | Tunnel => None :: new_map ns next end.
Proof. unfold new_map. cbn [renumber]. destruct n; destruct (renumber ns _); done. Qed.

Lemma new_nodes_cons n ns next :
  new_nodes (n :: ns) next =
    match n with Runtime r => r :: new_nodes ns (S next) | Tunnel => new_nodes ns next end.
Proof. unfold new_nodes. cbn [renumber]. destruct n; destruct (renumber ns _); done. Qed.

(** New numbers are the positions among the runtime nodes. *)
Lemma new_map_spec ns next i a :
  new_map ns next !! i = Some (Some a) <->
  exists n j, ns !! i = Some (Runtime n) /\ a = next + j /\ new_nodes ns next !! j = Some n /\
    j = length (filter (fun n => is_tunnel n = false) (take i ns)).
Proof.
  revert next i. induction ns as [|n ns IH]; intros next i.
  { unfold new_map; cbn. split; [done|]. intros (? & ? & ? & _). done. }
  rewrite new_map_cons, new_nodes_cons. destruct n as [r|], i as [|i]; cbn [take lookup list_lookup].
  - split.
    + intros [= <-]. exists r, 0. split_and!; [done|lia|done|done].
    + intros (n & j & [= <-] & -> & _ & ->). cbn. f_equal. f_equal. lia.
  - rewrite IH. rewrite filter_cons_True by done. cbn [length]. split.
    + intros (n & j & ? & -> & ? & Hj). exists n, (S j). split_and!; [done|lia|done|lia].
    + intros (n & j & ? & -> & Hn & Hj). destruct j as [|j]; [lia|]. exists n, j.
      split_and!; [done|lia|done|lia].
  - split; [done|]. intros (n & j & ? & _). done.
  - rewrite IH. rewrite filter_cons_False by done. done.
Qed.

Lemma new_map_tunnel ns next i : ns !! i = Some Tunnel -> new_map ns next !! i = Some None.
Proof.
  revert next i. induction ns as [|n ns IH]; intros next i; [done|]. rewrite new_map_cons.
  destruct i; cbn; [by intros [= ->]|]. destruct n; apply IH.
Qed.

Lemma filter_take_lt ns i j n :
  i < j -> ns !! i = Some n -> is_tunnel n = false ->
  length (filter (fun n => is_tunnel n = false) (take i ns)) <
  length (filter (fun n => is_tunnel n = false) (take j ns)).
Proof.
  intros Hij Hi Hn. replace j with (i + (1 + (j - i - 1))) by lia.
  rewrite <- take_take_drop, filter_app, length_app. rewrite (drop_S _ n i Hi). cbn [Nat.add take].
  rewrite filter_cons_True by done. cbn [length]. lia.
Qed.

Lemma new_map_inj ns next i j a :
  new_map ns next !! i = Some (Some a) -> new_map ns next !! j = Some (Some a) -> i = j.
Proof.
  intros (n & k & Hi & -> & _ & ->)%new_map_spec (n' & k' & Hj & Ha & _ & ->)%new_map_spec.
  destruct (Nat.lt_trichotomy i j) as [Hlt|[?|Hlt]]; [|done|].
  - pose proof (filter_take_lt ns i j _ Hlt Hi eq_refl). lia.
  - pose proof (filter_take_lt ns j i _ Hlt Hj eq_refl). lia.
Qed.

(** Every new node comes from an old one. *)
Lemma new_nodes_surj ns next j n :
  new_nodes ns next !! j = Some n ->
  exists i, ns !! i = Some (Runtime n) /\ new_map ns next !! i = Some (Some (next + j)).
Proof.
  revert next j. induction ns as [|m ns IH]; intros next j; [done|].
  rewrite new_nodes_cons, new_map_cons. destruct m as [r|].
  - destruct j as [|j]; cbn.
    + intros [= ->]. exists 0. cbn. split; [done|]. f_equal. f_equal. lia.
    + intros (i & ? & Hm)%IH. exists (S i). split; [done|]. etrans; [exact Hm|]. do 2 f_equal. lia.
  - intros (i & ? & ?)%IH. by exists (S i).
Qed.

(** The ports the loops visit: each port of each runtime node, with its
    new name, once. *)
Lemma runtime_ports_spec ns old next p q :
  (p, q) ∈ runtime_ports ns old next <->
  exists i n a, ns !! i = Some (Runtime n) /\ new_map ns next !! i = Some (Some a) /\
    index p < port_count n /\ node p = old + i /\ q = MkPort a (index p).
Proof.
  revert old next. induction ns as [|m ns IH]; intros old next; cbn [runtime_ports].
  { split; [intros Hp; by apply elem_of_nil in Hp|]. intros (? & ? & ? & ? & _). done. }
  rewrite new_map_cons. destruct m as [r|].
  - rewrite elem_of_app, IH. split.
    + intros [Hp|(i & n & a & ? & ? & ? & ? & ?)].
      * apply list_elem_of_In, in_map_iff in Hp as (x & [= <- <-] & Hx%in_seq).
        exists 0, r, next. cbn. split_and!; [done|done|lia|lia|done].
      * exists (S i), n, a. split_and!; [done|done|done|lia|done].
    + intros (i & n & a & Hi & Ha & Hx & Hn & ->). destruct i as [|i]; cbn in Hi, Ha.
      * left. injection Hi as <-. injection Ha as <-. apply list_elem_of_In, in_map_iff.
        exists (index p). split; [|apply in_seq; lia]. destruct p; cbn in *. do 2 f_equal. lia.
      * right. exists i, n, a. split_and!; [done|done|done|lia|done].
  - rewrite IH. split.
    + intros (i & n & a & ? & ? & ? & ? & ?). exists (S i), n, a. split_and!; [done|done|done|lia|done].
    + intros (i & n & a & Hi & Ha & Hx & Hn & ->). destruct i as [|i]; [done|].
      exists i, n, a. split_and!; [done|done|done|lia|done].
Qed.

Lemma runtime_ports_ge ns old next p q :
  (p, q) ∈ runtime_ports ns old next -> old <= node p /\ next <= node q.
Proof.
  intros (i & n & a & _ & Ha & _ & Hn & ->)%runtime_ports_spec. split; [lia|].
  apply new_map_spec in Ha as (? & ? & _ & -> & _). cbn. lia.
Qed.

Lemma runtime_ports_nodup ns old next : NoDup (map snd (runtime_ports ns old next)).
Proof.
  revert old next. induction ns as [|m ns IH]; intros old next; cbn [runtime_ports]; [constructor|].
  destruct m as [r|]; [|apply IH]. rewrite map_app. apply NoDup_app. split_and!; [| |apply IH].
  - rewrite map_map. cbn. apply (NoDup_fmap_2_strong (fun i => MkPort next i)); [by intros; simplify_eq|].
    apply NoDup_seq.
  - intros q Hq Hq'. apply list_elem_of_In, in_map_iff in Hq as ([p1 q1] & Hq1 & Hin). cbn in Hq1. subst q1.
    apply in_map_iff in Hin as (x & [= <- <-] & _).
    apply list_elem_of_In, in_map_iff in Hq' as ([p2 q2] & Hq2 & Hin2). cbn in Hq2. subst q2.
    apply list_elem_of_In, runtime_ports_ge in Hin2. cbn in Hin2. lia.
Qed.
End renumbering.

(** ** Following tunnels *)
Section strands.
Context {D O : Type} (b : NetBuilder D O) (exposed : Port) (sg : Port -> Sign).
Hypothesis Hclosed : closed_by b exposed.
Hypothesis Hsigns : polarized_by (topology_of b exposed) sg.

Let links := links_of (bwires b).
Let tunnels := map is_tunnel (nodes b).

Definition tun (p : Port) : Prop := nodes b !! node p = Some Tunnel.
Definition run (p : Port) : Prop := exists n, nodes b !! node p = Some (Runtime n).

Lemma ends_nodup : NoDup (endpoints (bwires b)).
Proof. destruct Hclosed as [H _]. by inversion H. Qed.

Lemma links_sym p q : links !! p = Some q -> links !! q = Some p.
Proof.
subst links. rewrite !links_of_spec by apply ends_nodup. intros (w & ? & ?). exists w. tauto.
Qed.

Lemma links_inj p p' q : links !! p = Some q -> links !! p' = Some q -> p = p'.
Proof. intros H1%links_sym H2%links_sym. congruence. Qed.

Lemma links_valid p q : links !! p = Some q -> valid_port b p = true /\ p <> exposed.
Proof.
intros Hl. assert (Hin : p ∈ endpoints (bwires b)).
{ subst links. rewrite links_of_spec in Hl by apply ends_nodup. destruct Hl as (w & Hw & Hj).
  apply endpoints_elem. exists w. naive_solver. }
destruct Hclosed as [Hnd Hv]. split; [apply Hv; by constructor|].
intros ->. apply NoDup_cons in Hnd. naive_solver.
Qed.

Lemma links_total p : valid_port b p = true -> p <> exposed -> exists q, links !! p = Some q.
Proof.
intros Hv Hne. destruct Hclosed as [_ H]. apply H in Hv. apply elem_of_cons in Hv as [|Hin]; [done|].
apply endpoints_elem in Hin as (w & Hw & Hp). subst links.
destruct Hp as [->| ->]; eexists; (apply links_of_spec; [apply ends_nodup|]); exists w; naive_solver.
Qed.

Lemma exposed_valid : valid_port b exposed = true.
Proof. destruct Hclosed as [_ H]. apply H. constructor. Qed.

Lemma valid_tun_or_run p : valid_port b p = true -> tun p \/ run p.
Proof. unfold valid_port, tun, run. destruct (nodes b !! node p) as [[n|]|]; naive_solver. Qed.

Lemma tun_run p : tun p -> run p -> False.
Proof. unfold tun, run. naive_solver. Qed.

Lemma tun_tunnels p : tun p -> tunnels !! node p = Some true.
Proof. unfold tun. intros H. subst tunnels. by rewrite list_lookup_fmap, H. Qed.

Lemma run_tunnels p : run p -> tunnels !! node p = Some false.
Proof. unfold run. intros [n H]. subst tunnels. by rewrite list_lookup_fmap, H. Qed.

Lemma tunnel_other_node p : node (tunnel_other p) = node p.
Proof. unfold tunnel_other. by case_decide. Qed.

Lemma tunnel_other_tun p : tun p -> tun (tunnel_other p).
Proof. unfold tun. by rewrite tunnel_other_node. Qed.

Lemma tun_index p : tun p -> valid_port b p = true -> index p < 2.
Proof. unfold tun, valid_port. intros ->. cbn [builder_port_count]. by rewrite Nat.ltb_lt. Qed.

Lemma tunnel_other_invol p : index p < 2 -> tunnel_other (tunnel_other p) = p.
Proof. destruct p as [n [|[|i]]]; intros H; [done|done|cbn in H; lia]. Qed.

Lemma tunnel_other_valid p : tun p -> valid_port b (tunnel_other p) = true.
Proof.
intros H. unfold valid_port. rewrite tunnel_other_node. unfold tun in H. rewrite H.
unfold tunnel_other. by case_decide.
Qed.

Lemma tunnel_other_cases p x : tun p -> valid_port b p = true -> valid_port b x = true ->
node x = node p -> x = p \/ x = tunnel_other p.
Proof.
intros Ht Hp Hx Hn. assert (Htx : tun x) by (unfold tun in *; by rewrite Hn).
pose proof (tun_index _ Ht Hp). pose proof (tun_index _ Htx Hx).
unfold tunnel_other. destruct p as [n i], x as [m j]; cbn in *. subst m.
case_decide; destruct i as [|[|i]], j as [|[|j]]; naive_solver lia.
Qed.

Lemma sign_exposed : sg exposed = Provides.
Proof.
unfold polarized_by, constraints in Hsigns. rewrite !Forall_app in Hsigns.
destruct Hsigns as (_ & _ & H). apply Forall_one in H. exact H.
Qed.

Lemma sign_link p q : links !! p = Some q -> sg p = opposite (sg q).
Proof.
subst links. rewrite links_of_spec by apply ends_nodup. intros (w & Hw & Hj).
unfold polarized_by, constraints in Hsigns. rewrite !Forall_app in Hsigns.
destruct Hsigns as (_ & H & _). rewrite Forall_map, Forall_forall in H. specialize (H w Hw).
unfold holds in H; cbn in H. destruct Hj as [[<- <-]|[<- <-]]; rewrite H; [done|].
by destruct (sg (right w)).
Qed.

Lemma sign_tunnel p : tun p -> valid_port b p = true -> sg (tunnel_other p) = opposite (sg p).
Proof.
intros Ht Hv. pose proof (tun_index _ Ht Hv) as Hi.
assert (Hc : holds sg (related (MkPort (node p) 0) (MkPort (node p) 1) true TunnelPassesThrough)).
{ unfold polarized_by, constraints in Hsigns. rewrite !Forall_app in Hsigns.
  destruct Hsigns as (H & _ & _). rewrite Forall_forall in H. apply H.
  apply list_elem_of_In, in_concat. exists (node_constraints (node p) ShTunnel). split; [|by left].
  apply list_elem_of_In, elem_of_lookup_imap. exists (node p), ShTunnel. split; [done|].
  cbn [shapes topology_of]. unfold tun in Ht. by rewrite list_lookup_fmap, Ht. }
unfold holds in Hc; cbn in Hc. destruct p as [n i]; cbn in *. unfold tunnel_other; cbn [index node].
case_decide as Hd.
- subst i. rewrite Hc. by destruct (sg (MkPort n 1)).
- replace i with 1 by lia. exact Hc.
Qed.

(** [strand p q]: following tunnels from [p] arrives at the runtime port
  [q] without passing the exposed port. *)
Inductive strand : Port -> Port -> Prop :=
| strand_here p : run p -> strand p p
| strand_step p p' q :
    tun p -> valid_port b p = true -> tunnel_other p <> exposed ->
    links !! tunnel_other p = Some p' -> strand p' q -> strand p q.

Lemma strand_fun p q q' : strand p q -> strand p q' -> q = q'.
Proof.
intros H. revert q'. induction H as [p Hr|p p' q Ht Hv Ho Hl Hs IH]; intros q' H'.
- inversion H'; subst; [done|]. by destruct (tun_run p).
- inversion H'; subst; [by destruct (tun_run q')|]. apply IH. congruence.
Qed.

Lemma strand_run p q : strand p q -> run q.
Proof. by induction 1. Qed.

(** Signs do not change along a strand. *)
Lemma strand_sign p q : strand p q -> sg q = sg p.
Proof.
induction 1 as [|p p' q Ht Hv Ho Hl Hs IH]; [done|]. rewrite IH.
pose proof (sign_link _ _ Hl) as H1. pose proof (sign_tunnel _ Ht Hv) as H2. rewrite H1 in H2.
by destruct (sg p'), (sg p).
Qed.

(** ** Correctness of [follow_tunnels] *)

(** Nodes visited so far are closed under wires, except that a wire may lead
  to the port about to be visited. *)
Definition vclosed (V : gset nat) (except : Port -> Prop) : Prop :=
forall x y, tun x -> node x ∈ V -> links !! x = Some y -> run y \/ node y ∈ V \/ except y.

(** The port at the near end of the wire into [p] was visited. *)
Definition near (V : gset nat) (p : Port) : Prop :=
forall x, links !! p = Some x -> run x \/ node x ∈ V.

(** [P] lists the tunnel ports passed since [start], newest first. *)
Record passed (start : Port) (P : list Port) (p : Port) : Prop := {
pa_nodup : NoDup (p :: P);
pa_ports : Forall (fun x => tun x /\ valid_port b x = true) P;
pa_head : match P with
          | [] => p = start
          | h :: _ => links !! tunnel_other h = Some p
          end;
pa_older : forall pre x post, P = pre ++ x :: post ->
             match post with [] => x = start | y :: _ => links !! tunnel_other y = Some x end;
}.

(** Nothing steps onto the start. *)
Definition no_predecessor (start : Port) : Prop :=
forall y, tun y -> valid_port b y = true -> links !! tunnel_other y <> Some start.

Lemma tunnel_other_inj x y : index x < 2 -> index y < 2 -> tunnel_other x = tunnel_other y -> x = y.
Proof.
intros Hx Hy H. rewrite <- (tunnel_other_invol x Hx), <- (tunnel_other_invol y Hy). by f_equal.
Qed.

Lemma passed_step start P p p' :
no_predecessor start -> passed start P p -> tun p -> valid_port b p = true ->
links !! tunnel_other p = Some p' -> passed start (p :: P) p'.
Proof.
intros Hnp [Hnd Hps Hhd Hold] Ht Hv Hl.
assert (Hold' : forall pre x post, p :: P = pre ++ x :: post ->
  match post with [] => x = start | y :: _ => links !! tunnel_other y = Some x end).
{ intros pre x post Heq. destruct pre as [|z pre]; cbn in Heq; simplify_eq.
  - destruct post; [by subst|done].
  - by apply (Hold pre). }
assert (Hall : Forall (fun x => tun x /\ valid_port b x = true) (p :: P)) by (by constructor).
constructor; [|done|done|done]. apply NoDup_cons. split; [|done]. intros Hin.
apply list_elem_of_split in Hin as (pre & post & Heq). specialize (Hold' _ _ _ Heq).
destruct post as [|y post].
- subst p'. by apply (Hnp p).
- assert (Hy : tun y /\ valid_port b y = true).
  { rewrite Heq in Hall. apply Forall_app in Hall as [_ H]. inversion H as [|? ? _ H']. by inversion H'. }
  destruct Hy as [Hty Hvy].
  assert (y = p) as ->.
  { apply tunnel_other_inj; [by apply tun_index|by apply tun_index|]. by eapply links_inj. }
  rewrite Heq in Hnd. destruct pre as [|z pre]; cbn in Heq; simplify_eq.
  + cbn in Hnd. apply NoDup_cons in Hnd as [Hn _]. set_solver.
  + cbn in Hnd. apply NoDup_cons in Hnd as [Hn _]. set_solver.
Qed.

Lemma passed_length start P p :
passed start P p -> valid_port b p = true -> length P < 3 * length (nodes b).
Proof.
intros [Hnd Hps _ _] Hv.
assert (Hb : length (map port_slot (p :: P)) <= 3 * length (nodes b)).
{ assert (Hvalid : Forall (fun x => node x < length (nodes b) /\ index x < 3) (p :: P)).
  { assert (Hp : forall x, valid_port b x = true -> node x < length (nodes b) /\ index x < 3).
    { intros x. unfold valid_port. destruct (nodes b !! node x) as [n|] eqn:Hn; [|done].
      intros Hi%Nat.ltb_lt. split; [by eapply lookup_lt_Some|].
      destruct n as [[]|]; cbn in Hi; lia. }
    constructor; [by apply Hp|]. eapply Forall_impl; [exact Hps|]. intros x [_ ?]. by apply Hp. }
  apply nodup_bounded.
  - clear -Hnd Hvalid. induction Hnd as [|x l Hx Hnd IH]; cbn; [constructor|].
    inversion Hvalid as [|? ? [? ?] Hvl]; subst. constructor; [|by apply IH].
    intros Hin. apply list_elem_of_In, in_map_iff in Hin as (y & Hy & Hyl%list_elem_of_In).
    rewrite Forall_forall in Hvl. destruct (Hvl y Hyl). apply Hx.
    rewrite <- (port_of_port_slot x), <- Hy, port_of_port_slot by done. done.
  - apply Forall_map. eapply Forall_impl; [exact Hvalid|]. unfold port_slot. intros x [? ?]. lia. }
rewrite length_map in Hb. cbn in Hb. lia.
Qed.

Definition tunnels_only (V : gset nat) : Prop := forall n, n ∈ V -> nodes b !! n = Some Tunnel.

Section follow.
(** An invariant of the ports on the way that keeps it off the exposed
    port. *)
Context (I : Port -> Prop).
Hypothesis I_avoids : forall p, I p -> tun p -> valid_port b p = true -> tunnel_other p <> exposed.
Hypothesis I_step : forall p p', I p -> tun p -> valid_port b p = true ->
  links !! tunnel_other p = Some p' -> I p'.

Lemma follow_spec start :
  no_predecessor start -> forall fuel P V p,
  passed start P p -> valid_port b p = true -> I p ->
  tunnels_only V -> near V p -> vclosed V (eq p) -> 3 * length (nodes b) <= length P + fuel ->
  exists q V', follow_tunnels fuel links tunnels exposed (list_to_set P) V p = Ok (q, V') /\
    strand p q /\ I q /\ valid_port b q = true /\ tunnels_only V' /\ near V' q /\
    vclosed V' (fun _ => False) /\ V ⊆ V' /\ (tun p -> node p ∈ V').
Proof.
  intros Hnp fuel. induction fuel as [|fuel IH]; intros P V p Hpa Hv HI Hto Hnear Hvc Hfuel.
  { pose proof (passed_length _ _ _ Hpa Hv). lia. }
  cbn [follow_tunnels]. destruct (valid_tun_or_run p Hv) as [Ht|Hr].
  2:{ rewrite (run_tunnels p Hr). exists p, V. split; [done|]. split; [by constructor|].
      split; [done|]. split; [done|]. split; [done|]. split; [done|]. split; [|split; [done|]].
      - intros x y Hx Hxv Hl. destruct (Hvc x y Hx Hxv Hl) as [|[| <-]]; eauto.
      - intros Ht. by destruct (tun_run p). }
  rewrite (tun_tunnels p Ht). rewrite decide_False.
  2:{ intros Hin. apply elem_of_list_to_set in Hin. pose proof (pa_nodup _ _ _ Hpa) as Hnd.
      apply NoDup_cons in Hnd. naive_solver. }
  rewrite decide_False by (by apply I_avoids).
  destruct (links_total (tunnel_other p)) as [p' Hl]; [by apply tunnel_other_valid|by apply I_avoids|].
  rewrite Hl. change ({[p]} ∪ list_to_set P) with (list_to_set (C := gset Port) (p :: P)).
  assert (Hnode : node (tunnel_other p) = node p) by apply tunnel_other_node.
  destruct (IH (p :: P) ({[node p]} ∪ V) p') as (q & V' & -> & Hs & HIq & Hvq & Hto' & Hn' & Hvc' & Hsub & _).
  - by apply passed_step.
  - by apply links_sym, links_valid in Hl as [? _].
  - by eapply I_step.
  - intros n [->%elem_of_singleton|Hn]%elem_of_union; [exact Ht|by apply Hto].
  - intros x Hx. apply links_sym in Hl. replace x with (tunnel_other p) by congruence.
    right. rewrite Hnode. set_solver.
  - intros x y Hx Hxv Hxy. destruct (decide (node x = node p)) as [Heq|Hne].
    + destruct (links_valid _ _ Hxy) as [Hvx _].
      destruct (tunnel_other_cases p x Ht Hv Hvx Heq) as [->| ->].
      * destruct (Hnear y Hxy) as [|]; [by left|]. right. left. set_solver.
      * right. right. congruence.
    + destruct (Hvc x y Hx ltac:(set_solver) Hxy) as [|[| <-]]; [by left|right; left; set_solver|].
      right. left. set_solver.
  - cbn [length]. lia.
  - exists q, V'. split; [done|]. split; [eapply strand_step; eauto|].
    split; [done|]. split; [done|]. split; [done|]. split; [done|]. split; [done|].
    split; [set_solver|]. intros _. apply Hsub. set_solver.
Qed.
End follow.

Lemma passed_nil start : passed start [] start.
Proof.
constructor; [apply NoDup_singleton|constructor|done|].
intros pre x post Heq. by destruct pre.
Qed.

(** From the exposed port of a tunnel. *)
Lemma follow_exposed fuel :
tun exposed -> 3 * length (nodes b) <= fuel ->
exists q V, follow_tunnels fuel links tunnels exposed ∅ ∅ exposed = Ok (q, V) /\
  strand exposed q /\ valid_port b q = true /\ sg q = Provides /\ tunnels_only V /\ near V q /\
  vclosed V (fun _ => False) /\ node exposed ∈ V.
Proof.
intros Ht Hfuel. pose proof exposed_valid as Hv.
destruct (follow_spec (fun p => sg p = sg exposed)) with (start := exposed) (fuel := fuel)
  (P := @nil Port) (V := ∅ : gset nat) (p := exposed)
  as (q & V & Hf & Hs & HI & Hvq & Hto & Hn & Hvc & _ & Hin); try done.
- intros p HI Htp Hvp Heq. pose proof (sign_tunnel p Htp Hvp) as H. rewrite Heq, HI in H.
  by destruct (sg exposed).
- intros p p' HI Htp Hvp Hl. pose proof (sign_tunnel p Htp Hvp) as H1. pose proof (sign_link _ _ Hl) as H2.
  rewrite H2, HI in H1. by destruct (sg p'), (sg exposed).
- intros y _ _ Hl. apply links_sym, links_valid in Hl as [_ Hne]. done.
- apply passed_nil.
- intros x Hx. apply links_valid in Hx as [_ Hne]. done.
- exists q, V. split; [done|]. split; [done|]. split; [done|].
  split; [by rewrite HI, sign_exposed|]. split; [done|]. split; [done|]. split; [done|]. by apply Hin.
Qed.

(** From the neighbour of a runtime port that is not where the exposed
  port's strand ends. *)
Lemma follow_runtime fuel V old p :
run old -> links !! old = Some p -> ~ strand exposed old ->
tunnels_only V -> vclosed V (fun _ => False) -> 3 * length (nodes b) <= fuel ->
exists q V', follow_tunnels fuel links tunnels exposed ∅ V p = Ok (q, V') /\
  strand p q /\ valid_port b q = true /\ (exists x, links !! q = Some x /\ strand x old) /\
  tunnels_only V' /\ vclosed V' (fun _ => False) /\ V ⊆ V' /\ (tun p -> node p ∈ V').
Proof.
intros Hr Hl Hno Hto Hvc Hfuel.
destruct (follow_spec (fun p => exists x, links !! p = Some x /\ strand x old))
  with (start := p) (fuel := fuel) (P := @nil Port) (V := V) (p := p)
  as (q & V' & Hf & Hs & HI & Hvq & Hto' & Hn & Hvc' & Hsub & Hin); try done.
- intros x (y & Hy & Hsy) Htx Hvx Heq. apply Hno.
  assert (Hinv : tunnel_other exposed = x) by (rewrite <- Heq; apply tunnel_other_invol; by apply tun_index).
  destruct (links_valid _ _ Hy) as [_ Hxe].
  eapply strand_step; [rewrite <- Heq; by apply tunnel_other_tun|apply exposed_valid| |by rewrite Hinv|done].
  by rewrite Hinv.
- intros x x' (y & Hy & Hsy) Htx Hvx Hx. exists (tunnel_other x). split; [by apply links_sym|].
  destruct (links_valid _ _ Hy) as [_ Hxe].
  assert (Hinv : tunnel_other (tunnel_other x) = x) by (apply tunnel_other_invol; by apply tun_index).
  eapply strand_step; [by apply tunnel_other_tun|by apply tunnel_other_valid| |by rewrite Hinv|done].
  by rewrite Hinv.
- intros y Hty Hvy Hy. assert (tunnel_other y = old) as <- by (by eapply links_inj).
  by eapply tun_run; [apply tunnel_other_tun|].
- apply passed_nil.
- by apply links_sym, links_valid in Hl as [? _].
- exists old. split; [by apply links_sym|by constructor].
- intros x Hx. left. apply links_sym in Hl. by replace x with old by congruence.
- intros x y Hx Hxv Hxy. destruct (Hvc x y Hx Hxv Hxy) as [|[|]]; [by left|right; by left|done].
- exists q, V'. split; [done|]. split; [done|]. split; [done|]. done.
Qed.

(** ** The spliced wires *)
Let rmap := new_map (nodes b) 0.

(** [ren p q]: the runtime port [p] is called [q] in the template. *)
Definition ren (p q : Port) : Prop := exists a, rmap !! node p = Some (Some a) /\ q = MkPort a (index p).

Lemma remap_port_ren {E} p q : remap_port (E:=E) rmap p = Ok q <-> ren p q.
Proof.
unfold remap_port, ren. split.
- intros H. inv_ok. destruct x as [a|]; [|done]. cbn in *. inv_ok. eauto.
- intros (a & Ha & ->). unfold vec_get. by rewrite Ha.
Qed.

Lemma ren_inj p p' q : ren p q -> ren p' q -> p = p'.
Proof.
intros (a & Ha & ->) (a' & Ha' & Heq). simplify_eq.
assert (node p = node p') by (by eapply new_map_inj). destruct p, p'; cbn in *; congruence.
Qed.

Lemma ren_fun p q q' : ren p q -> ren p q' -> q = q'.
Proof. intros (a & Ha & ->) (a' & Ha' & ->). congruence. Qed.

Lemma run_ren p : run p -> exists q, ren p q.
Proof.
intros [n Hn]. destruct (rmap !! node p) as [[a|]|] eqn:Hm; [by eexists _, a| |].
all: exfalso; assert (Hex : exists a, rmap !! node p = Some (Some a)); [|destruct Hex; congruence].
all: clear Hm; subst rmap; clear -Hn; revert Hn; generalize (node p) 0.
all: induction (nodes b) as [|m ns IH]; intros i next Hi; [done|]; rewrite new_map_cons.
all: destruct i as [|i]; cbn in Hi; [injection Hi as ->; by eexists|].
all: destruct m; by apply IH.
Qed.

Lemma runtime_ports_ren p q :
(p, q) ∈ runtime_ports (nodes b) 0 0 <-> run p /\ valid_port b p = true /\ ren p q.
Proof.
rewrite runtime_ports_spec. unfold ren, run, valid_port. split.
- intros (i & n & a & Hi & Ha & Hx & Hn & ->). cbn in Hn. subst i. rewrite Hi.
  split; [by eexists|]. split; [by apply Nat.ltb_lt|]. by eexists.
- intros ([n Hn] & Hv & a & Ha & ->). rewrite Hn in Hv. apply Nat.ltb_lt in Hv.
  exists (node p), n, a. done.
Qed.

Context (signs : list Sign) (eo exr : Port).
Hypothesis Hsolved : forall p, valid_port b p = true -> solved_sign (E:=NetBuildError) signs p = Ok (sg p).
(** The exposed port's strand ends at [eo], called [exr] in the template. *)
Hypothesis Heo : strand exposed eo.
Hypothesis Heov : valid_port b eo = true.
Hypothesis Hexr : ren eo exr.

(** The far end of the spliced wire at a runtime port. *)
Definition far (old q : Port) : Prop := exists p, links !! old = Some p /\ strand p q.

Lemma far_sign old q : far old q -> sg q = opposite (sg old).
Proof.
intros (p & Hl & Hs). rewrite (strand_sign _ _ Hs), (sign_link _ _ Hl). by destruct (sg p).
Qed.

Lemma far_fun old q q' : far old q -> far old q' -> q = q'.
Proof. intros (p & Hl & Hs) (p' & Hl' & Hs'). simplify_eq. by eapply strand_fun. Qed.

Let env : NormalizeEnv :=
{| e_links := links; e_tunnels := tunnels; e_map := rmap; e_exposed := exposed;
   e_exposed_runtime := exr; e_signs := Some signs; e_fuel := 3 * length (nodes b) |}.

Definition vstate (V : gset nat) : Prop := tunnels_only V /\ vclosed V (fun _ => False).

Lemma not_exposed old : run old -> valid_port b old = true -> old <> eo -> exists p, links !! old = Some p.
Proof.
intros Hr Hv Hne. apply links_total; [done|]. intros ->. apply Hne.
eapply strand_fun; [by apply strand_here|done].
Qed.

Lemma normalize_port_spec old local V acc :
run old -> valid_port b old = true -> ren old local -> vstate V ->
exists V', vstate V' /\ V ⊆ V' /\
  (old = eo /\ normalize_port env old local V acc = Ok (V', acc) \/
   old <> eo /\ exists q remote, far old q /\ far q old /\ valid_port b q = true /\ ren q remote /\
     normalize_port env old local V acc =
       Ok (V', if decide (sg old = Provides) then acc ++ [MkWire local remote] else acc) /\
     forall p, links !! old = Some p -> tun p -> node p ∈ V').
Proof.
intros Hr Hv Hren [Hto Hvc]. unfold normalize_port; cbn [e_exposed_runtime env].
case_decide as Hloc.
{ exists V. split; [done|]. split; [done|]. left. split; [|done]. subst local. by eapply ren_inj. }
assert (Hne : old <> eo) by (intros ->; apply Hloc; by eapply ren_fun).
destruct (not_exposed old Hr Hv Hne) as [p Hp]. cbn [e_links env]. rewrite Hp. cbn [expect mbind outcome_bind].
destruct (follow_runtime (3 * length (nodes b)) V old p)
  as (q & V' & Hf & Hs & Hvq & (x & Hx & Hxs) & Hto' & Hvc' & Hsub & Hin); try done.
{ intros Hs. apply Hne. by eapply strand_fun. }
cbn [e_fuel e_tunnels e_exposed env]. rewrite Hf. cbn [mbind outcome_bind].
destruct (run_ren q (strand_run _ _ Hs)) as [remote Hrem].
cbn [e_map env]. rewrite (proj2 (remap_port_ren q remote) Hrem). cbn [mbind outcome_bind].
assert (Hfar : far old q) by (by exists p).
rewrite decide_False.
2:{ intros ->. assert (q = old) as -> by (by eapply ren_inj). pose proof (far_sign _ _ Hfar).
    by destruct (sg old). }
cbn [e_signs env]. rewrite Hsolved by done. cbn [mbind outcome_bind].
exists V'. split; [done|]. split; [done|]. right. split; [done|]. exists q, remote.
split; [done|]. split; [by exists x|]. split; [done|]. split; [done|]. split.
- case_bool_decide; [by rewrite decide_True|by rewrite decide_False].
- intros p' Hp'. by replace p' with p by congruence.
Qed.

(** The wires a list of ports contributes. *)
Inductive built : list (Port * Port) -> list Wire -> Prop :=
| built_nil : built [] []
| built_skip old local ps ws : old = eo \/ sg old = Consumes -> built ps ws -> built ((old, local) :: ps) ws
| built_keep old local q remote ps ws :
    old <> eo -> sg old = Provides -> far old q -> far q old -> valid_port b q = true -> ren q remote ->
    built ps ws -> built ((old, local) :: ps) (MkWire local remote :: ws).

Lemma normalize_ports_spec ps V acc :
Forall (fun '(old, local) => run old /\ valid_port b old = true /\ ren old local) ps -> vstate V ->
exists V' ws, normalize_ports env ps V acc = Ok (V', acc ++ ws) /\ vstate V' /\ V ⊆ V' /\ built ps ws /\
  Forall (fun '(old, _) => old <> eo -> forall p, links !! old = Some p -> tun p -> node p ∈ V') ps.
Proof.
intros Hps. revert V acc. induction Hps as [|[old local] ps (Hr & Hv & Hren) Hps IH]; intros V acc HV.
{ exists V, []. rewrite app_nil_r. split; [done|]. split; [done|]. split; [done|]. split; constructor. }
cbn [normalize_ports].
destruct (normalize_port_spec old local V acc Hr Hv Hren HV)
  as (V1 & HV1 & Hsub1 & [[-> ->]|(Hne & q & remote & Hf & Hf' & Hvq & Hrem & -> & Hcov)]);
  cbn [mbind outcome_bind].
- destruct (IH V1 acc HV1) as (V' & ws & -> & HV' & Hsub & Hb & Hall). exists V', ws.
  split; [done|]. split; [done|]. split; [set_solver|].
  split; [constructor; [by left|done]|]. constructor; [done|done].
- destruct (IH V1 (if decide (sg old = Provides) then acc ++ [MkWire local remote] else acc) HV1)
    as (V' & ws & -> & HV' & Hsub & Hb & Hall).
  case_decide as Hsg.
  + exists V', (MkWire local remote :: ws). rewrite <- app_assoc. split; [done|]. split; [done|].
    split; [set_solver|]. split; [by eapply built_keep|]. constructor; [|done].
    intros _ p Hp Ht. apply Hsub. by eapply Hcov.
  + exists V', ws. split; [done|]. split; [done|]. split; [set_solver|].
    split; [constructor; [right; by destruct (sg old)|done]|]. constructor; [|done].
    intros _ p Hp Ht. apply Hsub. by eapply Hcov.
Qed.

Lemma built_elem ps ws w :
built ps ws ->
w ∈ ws <-> exists old q, (old, left w) ∈ ps /\ old <> eo /\ sg old = Provides /\ far old q /\ ren q (right w).
Proof.
induction 1 as [|old local ps ws Hskip Hb IH|old local q remote ps ws Hne Hsg Hf Hf' Hvq Hren Hb IH].
- split; [intros H; by apply elem_of_nil in H|]. intros (? & ? & H & _). by apply elem_of_nil in H.
- rewrite IH. split.
  + intros (o & q & Hin & Hrest). exists o, q. split; [by constructor|done].
  + intros (o & q & [[= -> ->]|Hin]%elem_of_cons & Hne & Hsg & Hrest).
    * destruct Hskip; [done|congruence].
    * exists o, q. done.
- rewrite elem_of_cons, IH. split.
  + intros [->|(o & q' & Hin & Hrest)]; cbn [left right].
    * exists old, q. split; [constructor|done].
    * exists o, q'. split; [by constructor|done].
  + intros (o & q' & [[= -> Hl]|Hin]%elem_of_cons & Hne' & Hsg' & Hf2 & Hren').
    * left. destruct w as [l r]; cbn in *. subst l. assert (q' = q) as -> by (by eapply far_fun).
      f_equal. by eapply ren_fun.
    * right. by exists o, q'.
Qed.

Lemma built_lefts ps ws : built ps ws -> map left ws `sublist_of` map snd ps.
Proof. induction 1; cbn; [constructor|by constructor|by constructor]. Qed.

Lemma built_back ps ws w : built ps ws -> w ∈ ws -> exists old q, ren q (right w) /\ far q old /\
(old, left w) ∈ ps /\ valid_port b q = true /\ far old q.
Proof.
induction 1 as [|old local ps ws Hskip Hb IH|old local q remote ps ws Hne Hsg Hf Hf' Hvq Hren Hb IH].
- intros H. by apply elem_of_nil in H.
- intros (o & q & ? & ? & ? & ? & ?)%IH. exists o, q. split_and!; try done. by constructor.
- intros [->|(o & q' & ? & ? & ? & ? & ?)%IH]%elem_of_cons.
  + exists old, q. cbn [left right]. split_and!; try done. constructor.
  + exists o, q'. split_and!; try done. by constructor.
Qed.

(** Walking back along a strand. *)
Lemma strand_back p q z :
strand p q -> (exists x, links !! q = Some x /\ strand x z) -> exists y, links !! p = Some y /\ strand y z.
Proof.
induction 1 as [|p p' q Ht Hv Ho Hl Hs IH]; [done|]. intros Hq.
destruct (IH Hq) as (y & Hy & Hsy). apply links_sym in Hl. simplify_eq.
inversion Hsy as [? Hr|? y' ? Ht' Hv' Ho' Hl' Hs']; subst.
{ by destruct (tun_run (tunnel_other p)); [apply tunnel_other_tun|]. }
rewrite tunnel_other_invol in Hl' by (by apply tun_index). eauto.
Qed.

Lemma eo_no_far q : far eo q -> False.
Proof.
intros (x & Hx & Hs). destruct (strand_back exposed eo q Heo) as (y & Hy & _); [eauto|].
by destruct (links_valid _ _ Hy).
Qed.

Lemma far_exists old :
run old -> valid_port b old = true -> old <> eo ->
exists q, far old q /\ far q old /\ valid_port b q = true /\ q <> eo /\ run q.
Proof.
intros Hr Hv Hne. destruct (not_exposed old Hr Hv Hne) as [p Hp].
destruct (follow_runtime (3 * length (nodes b)) ∅ old p)
  as (q & V' & _ & Hs & Hvq & (x & Hx & Hxs) & _); try done.
{ intros Hs. apply Hne. by eapply strand_fun. }
assert (Hf' : far q old) by (by exists x).
exists q. split; [by exists p|]. split; [done|]. split; [done|]. split; [|by eapply strand_run].
intros ->. by eapply eo_no_far.
Qed.

(** Wires of the template, and its exposed port, name every port once. *)
Lemma built_closed ws :
built (runtime_ports (nodes b) 0 0) ws ->
NoDup (exr :: endpoints ws) /\
forall p, p ∈ exr :: endpoints ws <-> exists po, run po /\ valid_port b po = true /\ ren po p.
Proof.
intros Hb.
assert (Hw : forall w, w ∈ ws -> exists old q, run old /\ valid_port b old = true /\ ren old (left w) /\
  run q /\ valid_port b q = true /\ ren q (right w) /\ far old q /\ far q old /\
  old <> eo /\ sg old = Provides).
{ intros w Hin. pose proof (built_elem _ _ w Hb) as Hel.
  destruct (proj1 Hel Hin) as (old & q & Hin' & Hne & Hsg & Hf & Hren).
  apply runtime_ports_ren in Hin' as (Hr & Hv & Hren').
  destruct (far_exists old Hr Hv Hne) as (q' & Hf1 & Hf2 & Hvq & _ & Hrq).
  assert (q' = q) as -> by (by eapply far_fun). exists old, q. done. }
assert (Hnd : NoDup (map left ws)).
{ eapply sublist_NoDup; [apply (runtime_ports_nodup (nodes b) 0 0)|]. by apply built_lefts. }
split.
- apply NoDup_cons. split.
  + intros (w & Hin & He)%endpoints_elem. destruct (Hw w Hin) as (old & q & _ & _ & Hl & _ & _ & Hr & _ & Hf' & Hne & _).
    destruct He as [He|He]; rewrite <- He in *.
    * apply Hne. by eapply ren_inj.
    * assert (q = eo) as -> by (by eapply ren_inj). by eapply eo_no_far.
  + assert (Hperm : endpoints ws ≡ₚ map left ws ++ map right ws).
    { clear. induction ws as [|w ws IH]; [done|]. change (endpoints (w :: ws)) with (left w :: right w :: endpoints ws).
      cbn. rewrite IH. by rewrite Permutation_middle. }
    rewrite Hperm. apply NoDup_app. split; [done|]. split.
    * intros x Hl Hr. apply list_elem_of_In, in_map_iff in Hl as (w1 & <- & H1%list_elem_of_In).
      apply list_elem_of_In, in_map_iff in Hr as (w2 & Heq & H2%list_elem_of_In).
      destruct (Hw w1 H1) as (o1 & q1 & _ & _ & Hl1 & _ & _ & _ & _ & _ & _ & Hs1).
      destruct (Hw w2 H2) as (o2 & q2 & _ & _ & _ & _ & _ & Hr2 & Hf2 & _ & _ & Hs2).
      rewrite Heq in Hr2. assert (q2 = o1) as -> by (by eapply ren_inj).
      pose proof (far_sign _ _ Hf2). rewrite Hs1, Hs2 in *. done.
    * apply (NoDup_fmap_2_strong right); [|by eapply NoDup_fmap_1].
      intros w1 w2 H1 H2 Heq.
      destruct (Hw w1 H1) as (o1 & q1 & _ & _ & Hl1 & _ & _ & Hr1 & _ & Hf1 & _).
      destruct (Hw w2 H2) as (o2 & q2 & _ & _ & Hl2 & _ & _ & Hr2 & _ & Hf2 & _).
      rewrite Heq in Hr1. assert (q2 = q1) as -> by (by eapply ren_inj).
      assert (o2 = o1) as -> by (by eapply far_fun).
      destruct w1 as [l1 r1], w2 as [l2 r2]; cbn in *. subst. f_equal. by eapply ren_fun.
- intros p. rewrite elem_of_cons, endpoints_elem. split.
  + intros [->|(w & Hin & He)].
    * exists eo. split; [by eapply strand_run|done].
    * destruct (Hw w Hin) as (old & q & ? & ? & ? & ? & ? & ? & _). destruct He as [->| ->]; eauto.
  + intros (po & Hr & Hv & Hren). destruct (decide (po = eo)) as [->|Hne].
    { left. by eapply ren_fun. }
    right. destruct (far_exists po Hr Hv Hne) as (q & Hf & Hf' & Hvq & Hqe & Hrq).
    destruct (run_ren q Hrq) as [r Hrr]. pose proof (far_sign _ _ Hf) as Hsq.
    destruct (sg po) eqn:Hsg.
    * exists (MkWire p r). split; [|by left]. apply (built_elem _ _ _ Hb). exists po, q.
      split; [|done]. by apply runtime_ports_ren.
    * exists (MkWire r p). split; [|by right]. apply (built_elem _ _ _ Hb). exists q, po.
      split; [|done]. by apply runtime_ports_ren.
Qed.

(** The old node a template node comes from. *)
Definition old_node (n : nat) : nat :=
match list_find (fun m => m = Some n) rmap with Some (i, _) => i | None => 0 end.

Definition new_sign (q : Port) : Sign := sg (MkPort (old_node (node q)) (index q)).

Lemma new_sign_ren p q : ren p q -> new_sign q = sg p.
Proof.
intros (a & Ha & ->). unfold new_sign, old_node; cbn [node index].
destruct (list_find _ rmap) as [[i x]|] eqn:Hf.
- apply list_find_Some in Hf as (Hi & -> & _). assert (i = node p) as -> by (by eapply new_map_inj).
  by destruct p.
- apply list_find_None in Hf. rewrite Forall_forall in Hf. exfalso. eapply Hf; [|done].
  by eapply list_elem_of_lookup_2.
Qed.
End strands.

(** ** Finished templates *)
Section finished.
Context {D O : Type}.
Implicit Types b : NetBuilder D O.

Definition net_valid_port (net : InteractionNet D O) (p : Port) : Prop :=
  exists n, net_nodes net !! node p = Some n /\ index p < port_count n.

Definition net_topology (net : InteractionNet D O) : Topology :=
  {| shapes := map shape_of (net_nodes net); wires := net_wires net; exposed := net_exposed net |}.

(** A well-formed template: its wires and exposed port name every port of
    every node exactly once, its ports have signs that obey the polarity
    table, and each wire is stored from its provider to its consumer. *)
Definition template_ok (net : InteractionNet D O) : Prop :=
  NoDup (net_exposed net :: endpoints (net_wires net)) /\
  (forall p, net_valid_port net p <-> p ∈ net_exposed net :: endpoints (net_wires net)) /\
  exists sg, polarized_by (net_topology net) sg /\
    Forall (fun w => sg (left w) = Provides /\ sg (right w) = Consumes) (net_wires net).

Lemma tunnel_count_spec (ns : list (BuilderNode D O)) (V : gset nat) :
  (forall n, n ∈ V <-> ns !! n = Some Tunnel) ->
  size V = length (filter (fun t : bool => t = true) (map is_tunnel ns)).
Proof.
  revert V. induction ns as [|m ns IH] using rev_ind; intros V HV.
  { replace V with (∅ : gset nat) by set_solver. done. }
  assert (HV0 : forall n, n ∈ V ∖ {[length ns]} <-> ns !! n = Some Tunnel).
  { intros n. rewrite elem_of_difference, HV, elem_of_singleton. split.
    - intros [Hn Hne]. pose proof (lookup_lt_Some _ _ _ Hn) as Hlt. rewrite length_app in Hlt. cbn in Hlt.
      by rewrite lookup_app_l in Hn by lia.
    - intros Hn. pose proof (lookup_lt_Some _ _ _ Hn). rewrite lookup_app_l by done. split; [done|lia]. }
  rewrite map_app, filter_app, length_app, <- (IH _ HV0). cbn [map].
  assert (Hlast : length ns ∈ V <-> m = Tunnel).
  { rewrite HV, lookup_app_r, Nat.sub_diag by lia. cbn. split; [by intros [= ->]|by intros ->]. }
  destruct m as [r|]; cbn [is_tunnel].
  - rewrite filter_cons_False, filter_nil by done. cbn. rewrite Nat.add_0_r. f_equal.
    assert (length ns ∉ V) by (rewrite Hlast; done). set_solver.
  - rewrite filter_cons_True, filter_nil by done. cbn [length].
    rewrite <- (size_singleton (C := gset nat) (length ns)), <- size_union by set_solver.
    f_equal. assert (length ns ∈ V) by (by rewrite Hlast).
    apply leibniz_equiv. intros x. destruct (decide (x = length ns)); set_solver.
Qed.

(** All tunnels were visited: the visited set is closed under wires and
    every node is reachable. *)
Lemma all_visited b exposed eo V :
  closed_by b exposed -> strand b exposed exposed eo -> tunnels_only b V -> vclosed b V (fun _ => False) ->
  near b V eo -> (tun b exposed -> node exposed ∈ V) ->
  (forall i, i < length (nodes b) -> reachable (topology_of b exposed) (node exposed) i) ->
  Forall (fun '(old, _) => old <> eo ->
    forall p, links_of (bwires b) !! old = Some p -> tun b p -> node p ∈ V) (runtime_ports (nodes b) 0 0) ->
  forall n, n ∈ V <-> nodes b !! n = Some Tunnel.
Proof.
  intros Hcl Heo Hto Hvc Hnear Hex Hconn Hcov n. split; [apply Hto|]. intros Hn.
  pose proof (Hconn n (lookup_lt_Some _ _ _ Hn)) as Hr. unfold reachable in Hr.
  assert (Hinv : (exists r, nodes b !! n = Some (Runtime r)) \/ n ∈ V); [|naive_solver].
  clear Hn. revert n Hr.
  apply (rtc_ind_r (fun n => (exists r, nodes b !! n = Some (Runtime r)) \/ n ∈ V)); [|intros a c Hr Hac IH].
  { destruct (valid_tun_or_run b exposed (exposed_valid b exposed Hcl)) as [Ht|Hrun]; [right; by apply Hex|by left]. }
  destruct Hac as (w & Hw & Hj).
  assert (Hxy : exists x y, links_of (bwires b) !! x = Some y /\ node x = a /\ node y = c).
  { cbn in Hw. destruct Hj as [[<- <-]|[<- <-]];
      [exists (left w), (right w)|exists (right w), (left w)]; (split; [|done]);
      apply links_of_spec; try apply (ends_nodup b exposed Hcl); exists w; naive_solver. }
  destruct Hxy as (x & y & Hl & <- & <-).
  destruct (links_valid b exposed Hcl x y Hl) as [Hvx Hxe].
  destruct (valid_tun_or_run b x Hvx) as [Htx|Hrx].
  - destruct IH as [Hrx|Hin]; [by destruct (tun_run b x)|].
    destruct (Hvc x y Htx Hin Hl) as [|[|]]; [by left|by right|done].
  - destruct (decide (x = eo)) as [->|Hne]; [by apply Hnear|].
    destruct (run_ren b x Hrx) as [q Hq].
    rewrite Forall_forall in Hcov. specialize (Hcov (x, q)). cbn in Hcov.
    pose proof (links_sym b exposed Hcl _ _ Hl) as Hl'. destruct (links_valid b exposed Hcl y x Hl') as [Hvy _].
    destruct (valid_tun_or_run b y Hvy) as [Hty|Hry]; [right|by left].
    apply Hcov; [|done|done|done]. by apply runtime_ports_ren.
Qed.

Lemma holds_node_transfer sg sg' i j sh :
  (forall k, sg' (MkPort j k) = sg (MkPort i k)) ->
  Forall (holds sg) (node_constraints i sh) -> Forall (holds sg') (node_constraints j sh).
Proof.
  intros Heq H. destruct sh; cbn in *; repeat constructor;
    repeat match goal with H : Forall _ (_ :: _) |- _ => inversion H; clear H; subst end;
    unfold holds in *; cbn in *; rewrite !Heq; assumption.
Qed.

Lemma normalize_exposed_spec b exposed sg :
  closed_by b exposed -> polarized_by (topology_of b exposed) sg ->
  exists eo exr V,
    normalize_exposed (3 * length (nodes b)) (links_of (bwires b)) (map is_tunnel (nodes b))
      (new_map (nodes b) 0) exposed = Ok (exr, V) /\
    strand b exposed exposed eo /\ valid_port b eo = true /\ ren b eo exr /\ vstate b V /\
    near b V eo /\ (tun b exposed -> node exposed ∈ V).
Proof.
  intros Hcl Hpol. pose proof (exposed_valid b exposed Hcl) as Hev. unfold normalize_exposed, vec_get.
  destruct (valid_tun_or_run b exposed Hev) as [Ht|Hr].
  - destruct (follow_exposed b exposed sg Hcl Hpol (3 * length (nodes b)) Ht (Nat.le_refl _))
      as (q & V & Hf & Hs & Hvq & _ & Hto & Hn & Hvc & Hin).
    destruct (run_ren b q (strand_run _ _ _ _ Hs)) as [exr Hexr].
    exists q, exr, V. split; [|done].
    rewrite (tun_tunnels b exposed Ht). cbn [expect mbind outcome_bind].
    rewrite Hf. cbn [mbind outcome_bind]. by rewrite (proj2 (remap_port_ren b q exr) Hexr).
  - destruct (run_ren b exposed Hr) as [exr Hexr]. exists exposed, exr, ∅. split.
    + rewrite (run_tunnels b exposed Hr). cbn [expect mbind outcome_bind].
      by rewrite (proj2 (remap_port_ren b exposed exr) Hexr).
    + split; [by constructor|]. split; [done|]. split; [done|].
      split; [split; [intros n Hn; set_solver|intros x y _ Hn; set_solver]|]. split.
      * intros x Hx. by destruct (links_valid b exposed Hcl _ _ Hx).
      * intros Ht. by destruct (tun_run b exposed).
Qed.

(** The rules of a node hold of the template's signs. *)
Lemma new_node_rules b exposed sg c :
  polarized_by (topology_of b exposed) sg ->
  c ∈ concat (imap node_constraints (map shape_of (new_nodes (nodes b) 0))) -> holds (new_sign b sg) c.
Proof.
  intros Hpol Hc. apply list_elem_of_In, in_concat in Hc as (l & Hl & Hc).
  apply list_elem_of_In, elem_of_lookup_imap in Hl as (j & sh & -> & Hl).
  rewrite list_lookup_fmap in Hl. apply fmap_Some in Hl as (n & Hn & ->).
  apply new_nodes_surj in Hn as (i & Hi & Hm).
  assert (Hold : Forall (holds sg) (node_constraints i (shape_of n))).
  { unfold polarized_by, constraints in Hpol. rewrite !Forall_app in Hpol. destruct Hpol as (H & _ & _).
    rewrite Forall_forall in *. intros k Hk. apply H. apply list_elem_of_In, in_concat.
    exists (node_constraints i (shape_of n)). split; [|by apply list_elem_of_In].
    apply list_elem_of_In, elem_of_lookup_imap. exists i, (shape_of n). split; [done|].
    cbn [shapes topology_of]. by rewrite list_lookup_fmap, Hi. }
  assert (Hk : forall k, new_sign b sg (MkPort j k) = sg (MkPort i k)).
  { intros k. apply new_sign_ren. by eexists. }
  pose proof (holds_node_transfer sg (new_sign b sg) i j (shape_of n) Hk Hold) as Htr.
  rewrite Forall_forall in Htr. by apply Htr, list_elem_of_In.
Qed.

Lemma net_valid_ren b ws exr p :
  net_valid_port (MkNet (new_nodes (nodes b) 0) ws exr) p <->
  exists po, run b po /\ valid_port b po = true /\ ren b po p.
Proof.
  unfold net_valid_port; cbn [net_nodes]. split.
  - intros (n & Hn & Hi). apply new_nodes_surj in Hn as (i & Hi' & Hm). exists (MkPort i (index p)).
    split; [by eexists|]. split.
    + unfold valid_port; cbn [node index]. rewrite Hi'. by apply Nat.ltb_lt.
    + eexists. split; [exact Hm|]. by destruct p.
  - intros (po & [n Hn] & Hv & a & Ha & ->). cbn [node index].
    apply new_map_spec in Ha as (n' & j & Hn' & -> & Hj & _).
    unfold valid_port in Hv. rewrite Hn in Hv. apply Nat.ltb_lt in Hv. simplify_eq. by exists n.
Qed.

Lemma built_template_ok b exposed sg eo exr ws :
  closed_by b exposed -> polarized_by (topology_of b exposed) sg ->
  strand b exposed exposed eo -> valid_port b eo = true -> ren b eo exr ->
  built b exposed sg eo (runtime_ports (nodes b) 0 0) ws ->
  template_ok (MkNet (new_nodes (nodes b) 0) ws exr).
Proof.
  intros Hcl Hpol Heo Heov Hexr Hb.
  destruct (built_closed b exposed sg Hcl Hpol eo exr Heo Heov Hexr ws Hb) as [Hnd Hports].
  split; [done|]. split; [intros p; by rewrite net_valid_ren, <- Hports|].
  assert (Hws : forall w, w ∈ ws -> new_sign b sg (left w) = Provides /\ new_sign b sg (right w) = Consumes).
  { intros w Hw. apply (built_elem b exposed sg eo _ _ w Hb) in Hw as (old & q & Hin & _ & Hsg & Hf & Hren).
    apply runtime_ports_ren in Hin as (_ & _ & Hren').
    rewrite (new_sign_ren _ _ _ _ Hren), (new_sign_ren _ _ _ _ Hren').
    rewrite (far_sign b exposed sg Hcl Hpol _ _ Hf), Hsg. done. }
  exists (new_sign b sg). split; [|by apply Forall_forall].
  unfold polarized_by, constraints.
  cbn [net_topology shapes wires Polarity.exposed net_nodes net_wires net_exposed].
  apply Forall_app. split; [|apply Forall_app; split].
  - apply Forall_forall. intros c Hc. by eapply new_node_rules.
  - apply Forall_map, Forall_forall. intros w Hw. unfold holds; cbn.
    destruct (Hws w Hw) as [-> ->]. done.
  - constructor; [|done]. unfold holds; cbn. rewrite (new_sign_ren _ _ _ _ Hexr).
    by rewrite (strand_sign b exposed sg Hcl Hpol _ _ Heo), (sign_exposed b exposed sg Hpol).
Qed.

Lemma normalize_spec b exposed sg signs :
  closed_by b exposed -> polarized_by (topology_of b exposed) sg ->
  (forall p, valid_port b p = true -> solved_sign (E:=NetBuildError) signs p = Ok (sg p)) ->
  (forall i, i < length (nodes b) -> reachable (topology_of b exposed) (node exposed) i) ->
  exists net, normalize b exposed (Some signs) = Ok net /\
    net_nodes net = new_nodes (nodes b) 0 /\ template_ok net.
Proof.
  intros Hcl Hpol Hsolved Hconn.
  destruct (normalize_exposed_spec b exposed sg Hcl Hpol)
    as (eo & exr & V & Hexp & Heo & Heov & Hexr & HV & Hnear & Hex).
  destruct (normalize_ports_spec b exposed sg Hcl Hpol signs eo exr Hsolved Heo Heov Hexr
    (runtime_ports (nodes b) 0 0) V []) as (V' & ws & Hnp & [Hto' Hvc'] & Hsub & Hb & Hcov); [|done|].
  { apply Forall_forall. intros [old local] Hin. by apply runtime_ports_ren. }
  assert (Hall : forall n, n ∈ V' <-> nodes b !! n = Some Tunnel).
  { apply (all_visited b exposed eo V' Hcl Heo Hto' Hvc'); [| |done|done].
    - intros x Hx. destruct (Hnear x Hx); [by left|right; set_solver].
    - intros Ht. specialize (Hex Ht). set_solver. }
  exists (MkNet (new_nodes (nodes b) 0) ws exr). split; [|split; [done|by eapply built_template_ok]].
  unfold normalize. unfold new_nodes, new_map in *. destruct (renumber (nodes b) 0) as [rt m] eqn:Hrn.
  cbn [fst snd] in *. rewrite Hexp. cbn [mbind outcome_bind]. cbn [app] in Hnp. rewrite Hnp.
  cbn [mbind outcome_bind]. by rewrite decide_True by (by apply tunnel_count_spec).
Qed.
End finished.

(** ** Builder operations *)
Section operations.
Context {D O : Type}.
Implicit Types b : NetBuilder D O.

Definition node_site (n : BuilderNode D O) : option Z :=
  match n with Runtime (Fan s) => Some (site_raw s) | _ => None end.
Definition fan_sites b : list Z := omap node_site (nodes b).

(** Wire ends exist and are distinct, the set of wired ports is exact, and
    fan sites are distinct and below the next one. *)
Record builder_ok b : Prop := {
  ok_nodup : NoDup (endpoints (bwires b));
  ok_valid : forall p, p ∈ endpoints (bwires b) -> valid_port b p = true;
  ok_wired : forall p, p ∈ wired_ports b <-> p ∈ endpoints (bwires b);
  ok_sites : NoDup (fan_sites b);
  ok_next : Forall (fun s => 0 <= s < next_fan_site b)%Z (fan_sites b) /\ (0 <= next_fan_site b)%Z;
}.

(** A port that exists and has no wire yet. *)
Definition open b (p : Port) : Prop := valid_port b p = true /\ p ∉ endpoints (bwires b).

Lemma builder_new_ok : builder_ok builder_new.
Proof. constructor; cbn; try (constructor; fail); [set_solver..|]. split; [constructor|lia]. Qed.

Lemma valid_port_push b n p :
  valid_port (push_node b n).1 p = true <->
  valid_port b p = true \/ (node p = length (nodes b) /\ index p < builder_port_count n).
Proof.
  unfold valid_port, push_node; cbn [fst nodes].
  destruct (Nat.lt_trichotomy (node p) (length (nodes b))) as [Hlt|[Heq|Hgt]].
  - rewrite lookup_app_l by done. split; [by left|]. intros [?|[? _]]; [done|lia].
  - rewrite (lookup_ge_None_2 (nodes b)) by lia. rewrite lookup_app_r, Heq, Nat.sub_diag by lia.
    cbn [lookup list_lookup]. rewrite Nat.ltb_lt. naive_solver.
  - rewrite !lookup_ge_None_2; [naive_solver lia|lia|rewrite length_app; cbn; lia].
Qed.

Lemma valid_port_lt b p : valid_port b p = true -> node p < length (nodes b).
Proof. unfold valid_port. destruct (nodes b !! node p) eqn:H; [|done]. intros _. by eapply lookup_lt_Some. Qed.

Lemma open_push b n p :
  builder_ok b ->
  open (push_node b n).1 p <-> open b p \/ (node p = length (nodes b) /\ index p < builder_port_count n).
Proof.
  intros Hok. unfold open. rewrite valid_port_push. cbn [push_node fst bwires]. split; [naive_solver|].
  intros [[? ?]|[Hn Hi]]; [naive_solver|]. split; [by right|]. intros Hin.
  pose proof (valid_port_lt _ _ (ok_valid _ Hok p Hin)). lia.
Qed.

(** The ports of one node, listed. *)
Lemma ports_of_1 p m : (node p = m /\ index p < 1) <-> p = MkPort m 0.
Proof. destruct p as [n [|i]]; cbn; split; intros H; try lia; naive_solver lia. Qed.

Lemma ports_of_2 p m : (node p = m /\ index p < 2) <-> p = MkPort m 0 \/ p = MkPort m 1.
Proof. destruct p as [n [|[|i]]]; cbn; split; intros H; try lia; naive_solver lia. Qed.

Lemma ports_of_3 p m :
  (node p = m /\ index p < 3) <-> p = MkPort m 0 \/ p = MkPort m 1 \/ p = MkPort m 2.
Proof. destruct p as [n [|[|[|i]]]]; cbn; split; intros H; try lia; naive_solver lia. Qed.

(** Adding a node that is not a fan. *)
Lemma push_node_ok b n : builder_ok b -> node_site n = None -> builder_ok (push_node b n).1.
Proof.
  intros [H1 H2 H3 H4 H5] Hs.
  assert (Hfs : fan_sites (push_node b n).1 = fan_sites b).
  { unfold fan_sites, push_node; cbn [fst nodes]. rewrite omap_app. cbn. rewrite Hs. apply app_nil_r. }
  constructor; rewrite ?Hfs; try done. intros p Hp. apply valid_port_push. left. by apply H2.
Qed.

Lemma push_fan_ok {E} b :
  builder_ok b -> (next_fan_site b < u64_max)%Z ->
  exists b', push_fan (E:=E) b = Ok (b', length (nodes b)) /\ builder_ok b' /\
    bwires b' = bwires b /\ next_fan_site b' = (next_fan_site b + 1)%Z /\
    nodes b' = nodes b ++ [Runtime (Fan (MkFanSite (next_fan_site b)))] /\
    forall p, open b' p <-> open b p \/ (node p = length (nodes b) /\ index p < 3).
Proof.
  intros Hok Hn. unfold push_fan. rewrite checked_add_fits by (unfold usize_max; lia).
  cbn [expect mbind outcome_bind]. unfold push, push_node; cbn [nodes bwires wired_ports next_fan_site].
  eexists. split; [done|].
  pose proof (open_push b (Runtime (Fan (MkFanSite (next_fan_site b))))) as Hopen.
  destruct Hok as [H1 H2 H3 H4 [H5 H6]]. split; [|split_and!; try done].
  - constructor; cbn [bwires wired_ports next_fan_site]; try done.
    + intros p Hp. apply (valid_port_push b). left. by apply H2.
    + unfold fan_sites; cbn [nodes]. rewrite omap_app. cbn. apply NoDup_app. split; [exact H4|].
      split; [|apply NoDup_singleton]. intros s Hs ->%list_elem_of_singleton.
      rewrite Forall_forall in H5. specialize (H5 _ Hs). cbn in H5. lia.
    + unfold fan_sites; cbn [nodes]. rewrite omap_app. cbn. split; [|lia]. apply Forall_app. split.
      * eapply Forall_impl; [exact H5|]. cbn. lia.
      * constructor; [lia|constructor].
  - intros p. apply Hopen. by constructor.
Qed.

(** [try_wire] succeeds exactly on two distinct open ports, which it closes. *)
Lemma try_wire_open b l r :
  builder_ok b -> open b l -> open b r -> l <> r ->
  exists b', try_wire b l r = Ok b' /\ builder_ok b' /\ nodes b' = nodes b /\
    next_fan_site b' = next_fan_site b /\ bwires b' = bwires b ++ [MkWire l r] /\
    forall p, open b' p <-> open b p /\ p <> l /\ p <> r.
Proof.
  intros Hok [Hvl Hl] [Hvr Hr] Hne. unfold try_wire, port_is_wired. rewrite Hvl, Hvr. cbn [negb].
  rewrite !bool_decide_false by (by rewrite (ok_wired _ Hok)). rewrite decide_False by done.
  eexists. split; [done|]. destruct Hok as [H1 H2 H3 H4 H5]. split; [|split_and!; try done].
  - constructor; cbn [bwires wired_ports]; try done.
    + rewrite endpoints_app. apply NoDup_app. split; [done|]. split.
      * intros p Hp. cbn. rewrite !elem_of_cons. intros [->|[->|Hn]]; [done|done|by apply elem_of_nil in Hn].
      * cbn. repeat constructor; set_solver.
    + intros p. rewrite endpoints_app, elem_of_app. intros [?|Hp]; [by apply H2|].
      cbn in Hp. rewrite !elem_of_cons in Hp. destruct Hp as [->|[->|Hn]]; [done|done|by apply elem_of_nil in Hn].
    + intros p. rewrite endpoints_app, elem_of_app, !elem_of_union, !elem_of_singleton, H3. cbn.
      rewrite !elem_of_cons, elem_of_nil. tauto.
  - intros p. unfold open; cbn [bwires]. rewrite endpoints_app, elem_of_app. cbn.
    rewrite !elem_of_cons, elem_of_nil. unfold valid_port; cbn [nodes]. tauto.
Qed.

Lemma try_wire_not_open b l r :
  builder_ok b -> ~ (open b l /\ open b r /\ l <> r) -> exists e, try_wire b l r = Err e.
Proof.
  intros Hok Hno. unfold try_wire, port_is_wired.
  destruct (valid_port b l) eqn:Hvl; cbn [negb]; [|by eexists].
  case_bool_decide as Hl; [by eexists|]. destruct (valid_port b r) eqn:Hvr; cbn [negb]; [|by eexists].
  case_bool_decide as Hr; [by eexists|]. case_decide; [by eexists|]. exfalso. apply Hno.
  unfold open. rewrite <- !(ok_wired _ Hok). done.
Qed.

Lemma wire_open {E} b l r :
  builder_ok b -> open b l -> open b r -> l <> r ->
  exists b', wire (E:=E) b l r = Ok b' /\ builder_ok b' /\ nodes b' = nodes b /\
    next_fan_site b' = next_fan_site b /\ bwires b' = bwires b ++ [MkWire l r] /\
    forall p, open b' p <-> open b p /\ p <> l /\ p <> r.
Proof.
  intros Hok Hl Hr Hne. destruct (try_wire_open b l r Hok Hl Hr Hne) as (b' & H & Hrest).
  exists b'. unfold wire. by rewrite H.
Qed.

(** ** Copies *)

(** What a balanced fan tree adds: it trades one open port for [outputs]
    new ones, using one fan fewer. *)
Lemma copy_branch_spec {E} fuel b branch outputs leaves :
  builder_ok b -> open b branch -> 1 <= outputs <= fuel ->
  (next_fan_site b + Z.of_nat outputs <= u64_max)%Z ->
  exists b' new, copy_branch (E:=E) fuel b branch outputs leaves = Ok (b', leaves ++ new) /\
    builder_ok b' /\ length new = outputs /\ NoDup new /\
    length (nodes b') = length (nodes b) + (outputs - 1) /\
    next_fan_site b' = (next_fan_site b + Z.of_nat (outputs - 1))%Z /\
    (forall p, p ∈ new -> p = branch \/ length (nodes b) <= node p) /\
    (forall p, open b' p <-> (open b p /\ p <> branch) \/ p ∈ new).
Proof.
  revert b branch outputs leaves. induction fuel as [|fuel IH]; intros b branch outputs leaves Hok Hop Hout Hsite; [lia|].
  cbn [copy_branch]. case_decide as H1.
  { subst outputs. exists b, [branch]. cbn [length Nat.sub]. rewrite Nat.add_0_r, Z.add_0_r.
    split; [done|]. split; [done|]. split; [done|]. split; [apply NoDup_singleton|].
    split; [done|]. split; [done|]. split; [set_solver|]. intros p. rewrite list_elem_of_singleton.
    destruct (decide (p = branch)); naive_solver. }
  destruct (push_fan_ok (E:=E) b Hok ltac:(lia)) as (b1 & -> & Hok1 & _ & Hnx1 & Hn1 & Hop1).
  cbn [mbind outcome_bind]. set (fan := length (nodes b)).
  assert (Hbf : node branch < fan) by (apply valid_port_lt, Hop).
  destruct (wire_open (E:=E) b1 branch (MkPort fan 0)) as (b2 & -> & Hok2 & Hn2 & Hnx2 & _ & Hop2).
  { done. }
  { apply Hop1. by left. }
  { apply Hop1. right. cbn. lia. }
  { intros ->. cbn in Hbf. lia. }
  cbn [mbind outcome_bind]. rewrite Hn1 in Hn2. set (half := outputs / 2).
  assert (Hh : 1 <= half /\ 1 <= outputs - half /\ half < outputs /\ outputs - half < outputs).
  { subst half. pose proof (Nat.div_mod_eq outputs 2). pose proof (Nat.mod_upper_bound outputs 2). lia. }
  destruct (IH b2 (MkPort fan 1) half leaves) as (b3 & new1 & -> & Hok3 & Hl1 & Hnd1 & Hn3 & Hnx3 & Hnew1 & Hop3).
  { done. }
  { apply Hop2. split; [apply Hop1; right; cbn; lia|]. split; [intros <-; cbn in Hbf; lia|done]. }
  { lia. }
  { rewrite Hnx2, Hnx1. lia. }
  cbn [mbind outcome_bind].
  destruct (IH b3 (MkPort fan 2) (outputs - half) (leaves ++ new1))
    as (b4 & new2 & -> & Hok4 & Hl2 & Hnd2 & Hn4 & Hnx4 & Hnew2 & Hop4).
  { done. }
  { apply Hop3. left. split; [|done]. apply Hop2. split; [apply Hop1; right; cbn; lia|].
    split; [intros <-; cbn in Hbf; lia|done]. }
  { lia. }
  { rewrite Hnx3, Hnx2, Hnx1. lia. }
  assert (Hlen2 : length (nodes b2) = fan + 1) by (rewrite Hn2, length_app; done).
  assert (Hopen : forall p, open b4 p <-> (open b p /\ p <> branch) \/ p ∈ new1 ++ new2).
  { intros p. rewrite Hop4, Hop3, Hop2, Hop1, elem_of_app. split.
    - intros [[[[Hx ?]|?] ?]|?]; [|tauto..]. left. destruct Hx as [[Hx|[Hx1 Hx2]] [Hx3 Hx4]]; [tauto|].
      exfalso. destruct p as [pn pi]; cbn in *. subst pn.
      destruct pi as [|[|[|pi]]]; [by apply Hx4|done|done|lia].
    - intros [[Hx ?]|[Hin|Hin]]; [| |by right].
      + left. pose proof (valid_port_lt _ _ (proj1 Hx)) as Hlt. split; [|intros ->; cbn in Hlt; lia].
        left. split; [|intros ->; cbn in Hlt; lia]. split; [by left|]. split; [done|]. intros ->. cbn in Hlt. lia.
      + left. split; [by right|]. intros ->. destruct (Hnew1 _ Hin) as [[=]|Hge]. cbn in Hge. lia. }
  exists b4, (new1 ++ new2). rewrite app_assoc. split; [done|]. split; [done|].
  split; [rewrite length_app; lia|]. split.
  { apply NoDup_app. split; [done|]. split; [|done]. intros p Hp1 Hp2.
    pose proof (proj2 (Hop3 p) (or_intror Hp1)) as Ho3. pose proof (valid_port_lt _ _ (proj1 Ho3)) as Hlt.
    destruct (Hnew2 p Hp2) as [->|Hge]; [|lia].
    destruct (Hnew1 _ Hp1) as [[=]|Hge]. cbn in Hge. lia. }
  split; [lia|]. split; [rewrite Hnx4, Hnx3, Hnx2, Hnx1; lia|]. split; [|done].
  intros p [Hp|Hp]%elem_of_app.
  - destruct (Hnew1 p Hp) as [->|?]; right; cbn; lia.
  - destruct (Hnew2 p Hp) as [->|?]; right; cbn; lia.
Qed.

Lemma copy_spec {E} b outputs :
  builder_ok b -> (next_fan_site b + Z.of_nat outputs <= u64_max)%Z ->
  exists b' ports, copy (E:=E) b outputs = Ok (b', ports) /\ builder_ok b' /\
    length (copy_outputs ports) = outputs /\ NoDup (copy_input ports :: copy_outputs ports) /\
    length (nodes b') = length (nodes b) + Nat.max 1 (outputs - 1) /\
    (forall p, p ∈ copy_input ports :: copy_outputs ports -> ~ open b p) /\
    (forall p, open b' p <-> open b p \/ p ∈ copy_input ports :: copy_outputs ports).
Proof.
  intros Hok Hsite.
  assert (Hfresh : forall p, length (nodes b) <= node p -> ~ open b p).
  { intros p Hp [Hv _]. apply valid_port_lt in Hv. lia. }
  destruct outputs as [|[|k]].
  - cbn [copy]. pose proof (open_push b (Runtime Erase)) as Hop. pose proof (push_node_ok b (Runtime Erase) Hok eq_refl).
    unfold push. cbn. eexists _, _. split; [done|]. cbn [copy_input copy_outputs]. split; [done|]. split; [done|].
    split; [apply NoDup_singleton|]. split; [cbn [nodes]; rewrite length_app; cbn; lia|].
    split; [intros p ->%list_elem_of_singleton; apply Hfresh; cbn; lia|].
    intros p. rewrite Hop by done. cbn [builder_port_count port_count]. by rewrite list_elem_of_singleton, ports_of_1.
  - cbn [copy]. pose proof (open_push b Tunnel) as Hop. pose proof (push_node_ok b Tunnel Hok eq_refl).
    cbn. eexists _, _. split; [done|]. cbn [copy_input copy_outputs]. split; [done|]. split; [done|].
    split; [repeat constructor; set_solver|]. split; [cbn [nodes]; rewrite length_app; cbn; lia|].
    split; [intros p [->| ->%list_elem_of_singleton]%elem_of_cons; apply Hfresh; cbn; lia|].
    intros p. rewrite Hop by done. cbn [builder_port_count].
    by rewrite elem_of_cons, list_elem_of_singleton, ports_of_2.
  - set (outputs := S (S k)) in *. assert (2 <= outputs) by (subst outputs; lia).
    cbn [copy]. fold outputs.
    destruct (push_fan_ok (E:=E) b Hok ltac:(lia)) as (b1 & Hpf & Hok1 & _ & Hnx1 & Hn1 & Hop1).
    subst outputs. cbn [copy]. rewrite Hpf. cbn [mbind outcome_bind]. set (outputs := S (S k)) in *.
    set (fan := length (nodes b)). set (half := outputs / 2).
    assert (Hh : 1 <= half /\ 1 <= outputs - half /\ half <= outputs /\ outputs - half <= outputs).
    { subst half. pose proof (Nat.div_mod_eq outputs 2). pose proof (Nat.mod_upper_bound outputs 2). lia. }
    assert (Hlen1 : length (nodes b1) = fan + 1) by (rewrite Hn1, length_app; done).
    destruct (copy_branch_spec (E:=E) outputs b1 (MkPort fan 1) half [])
      as (b2 & l1 & -> & Hok2 & Hl1 & Hnd1 & Hn2 & Hnx2 & Hnew1 & Hop2); [done|apply Hop1; right; cbn; lia|lia|lia|].
    cbn [mbind outcome_bind app].
    destruct (copy_branch_spec (E:=E) outputs b2 (MkPort fan 2) (outputs - half) l1)
      as (b3 & l2 & -> & Hok3 & Hl2 & Hnd2 & Hn3 & Hnx3 & Hnew2 & Hop3);
      [done|apply Hop2; left; split; [apply Hop1; right; cbn; lia|done]|lia|lia|].
    cbn [mbind outcome_bind]. eexists _, _. split; [done|]. cbn [copy_input copy_outputs]. split; [done|].
    assert (Hge : forall p, p ∈ l1 ++ l2 -> fan <= node p /\ p <> MkPort fan 0).
    { intros p [Hp|Hp]%elem_of_app.
      - destruct (Hnew1 p Hp) as [->|?]; [by cbn; split; [lia|]|]. split; [lia|]. intros ->. cbn in *. lia.
      - destruct (Hnew2 p Hp) as [->|?]; [by cbn; split; [lia|]|]. split; [lia|]. intros ->. cbn in *. lia. }
    split; [rewrite length_app; lia|]. split.
    { apply NoDup_cons. split; [intros Hin; by destruct (Hge _ Hin)|]. apply NoDup_app. split; [done|]. split; [|done].
      intros p Hp1 Hp2. pose proof (valid_port_lt _ _ (proj1 (proj2 (Hop2 p) (or_intror Hp1)))).
      destruct (Hnew2 p Hp2) as [->|?]; [|lia]. destruct (Hnew1 _ Hp1) as [[=]|Hg]. cbn in Hg. lia. }
    split; [lia|]. split.
    { intros p [->|Hp]%elem_of_cons; apply Hfresh; [cbn; lia|]. by apply Hge. }
    intros p. rewrite Hop3, Hop2, Hop1, elem_of_cons, elem_of_app. split.
    + intros [[[[[?|[Hx Hi]] ?]|?] ?]|?]; try tauto. right. left. destruct p as [pn pi]; cbn in *. subst pn.
      destruct pi as [|[|[|pi]]]; [done|done|done|lia].
    + intros [Hx|[->|[Hin|Hin]]]; [| | |by right].
      * pose proof (valid_port_lt _ _ (proj1 Hx)) as Hlt. left. split; [|intros ->; cbn in Hlt; lia].
        left. split; [by left|]. intros ->. cbn in Hlt. lia.
      * left. split; [|done]. left. split; [|done]. right. cbn. lia.
      * left. split; [by right|]. intros ->. destruct (Hnew1 _ Hin) as [[=]|Hg]. cbn in Hg. lia.
Qed.

(** ** Spines and operators *)
Lemma function_bind_spec b :
  builder_ok b ->
  exists b' f a r, function_bind b = (b', (f, a, r)) /\ builder_ok b' /\
    length (nodes b') = S (length (nodes b)) /\ next_fan_site b' = next_fan_site b /\
    f = MkPort (length (nodes b)) 0 /\ a = MkPort (length (nodes b)) 2 /\ r = MkPort (length (nodes b)) 1 /\
    forall p, open b' p <-> open b p \/ p ∈ [f; a; r].
Proof.
  intros Hok. pose proof (open_push b (Runtime Bind)) as Hop.
  pose proof (push_node_ok b (Runtime Bind) Hok eq_refl).
  unfold function_bind, bind, push. cbn. eexists _, _, _, _. split; [done|]. split; [done|].
  split; [cbn [nodes]; rewrite length_app; cbn; lia|]. split; [done|]. split; [done|]. split; [done|]. split; [done|].
  intros p. rewrite Hop by done. cbn [builder_port_count port_count]. rewrite !elem_of_cons, elem_of_nil, ports_of_3. tauto.
Qed.

Lemma operator_spec b o :
  builder_ok b ->
  exists b' i r, operator b o = (b', (i, r)) /\ builder_ok b' /\
    i = MkPort (length (nodes b)) 0 /\ r = MkPort (length (nodes b)) 1 /\
    forall p, open b' p <-> open b p \/ p ∈ [i; r].
Proof.
  intros Hok. pose proof (open_push b (Runtime (OperatorNode o))) as Hop.
  pose proof (push_node_ok b (Runtime (OperatorNode o)) Hok eq_refl).
  unfold operator, push. cbn. eexists _, _, _. split; [done|]. split; [done|]. split; [done|]. split; [done|].
  intros p. rewrite Hop by done. cbn [builder_port_count port_count]. rewrite !elem_of_cons, elem_of_nil, ports_of_2. tauto.
Qed.

(** Ports of one fresh bind. *)
Definition bind_ports (x : Port * Port * Port) : list Port := [bind_input x; bind_argument x; bind_result x].

Lemma spine_binds_spec arity b :
  builder_ok b ->
  exists b' binds, spine_binds function_bind arity b = (b', binds) /\ builder_ok b' /\ length binds = arity /\
    (forall i x, binds !! i = Some x ->
       x = (MkPort (length (nodes b) + i) 0, MkPort (length (nodes b) + i) 2, MkPort (length (nodes b) + i) 1)) /\
    forall p, open b' p <-> open b p \/ p ∈ concat (map bind_ports binds).
Proof.
  revert b. induction arity as [|arity IH]; intros b Hok; cbn [spine_binds].
  { exists b, []. split; [done|]. split; [done|]. split; [done|]. split; [done|]. cbn. set_solver. }
  destruct (function_bind_spec b Hok) as (b1 & f & a & r & -> & Hok1 & Hlen1 & _ & -> & -> & -> & Hop1).
  destruct (IH b1 Hok1) as (b2 & binds & -> & Hok2 & Hlen & Hshape & Hop2).
  eexists _, _. split; [done|]. split; [done|]. split; [cbn; lia|]. split.
  - intros [|i] x Hx; cbn in Hx.
    + injection Hx as <-. by rewrite Nat.add_0_r.
    + rewrite (Hshape i x Hx), Hlen1. rewrite !Nat.add_succ_r. done.
  - intros p. rewrite Hop2, Hop1. cbn [map concat]. rewrite elem_of_app. unfold bind_ports at 2.
    unfold bind_input, bind_argument, bind_result; cbn [fst snd]. tauto.
Qed.

(** Wiring consecutive binds never fails and closes exactly their joints. *)
Lemma spine_wires_spec {E} binds x b :
  builder_ok b -> NoDup (bind_result x :: concat (map bind_ports binds)) ->
  (forall p, p ∈ bind_result x :: concat (map bind_ports binds) -> open b p) ->
  exists b', spine_wires (E:=E) b (x :: binds) = Ok b' /\ builder_ok b' /\
    forall p, open b' p <-> open b p /\
      p ∉ map bind_input binds /\ p ∉ map bind_result (removelast (x :: binds)).
Proof.
  revert x b. induction binds as [|y binds IH]; intros x b Hok Hnd Hopen.
  { exists b. split; [done|]. split; [done|]. intros p. cbn. set_solver. }
  change (concat (map bind_ports (y :: binds)))
    with (bind_input y :: bind_argument y :: bind_result y :: concat (map bind_ports binds)) in *.
  change (spine_wires (E:=E) b (x :: y :: binds))
    with (b ← wire b (bind_result x) (bind_input y); spine_wires (E:=E) b (y :: binds)).
  rewrite !NoDup_cons in Hnd. destruct Hnd as (Hx & Hyi & Hya & Hyr & Hnd).
  destruct (wire_open (E:=E) b (bind_result x) (bind_input y)) as (b1 & -> & Hok1 & _ & _ & _ & Hop1).
  { done. }
  { apply Hopen. set_solver. }
  { apply Hopen. set_solver. }
  { set_solver. }
  cbn [mbind outcome_bind].
  destruct (IH y b1 Hok1) as (b2 & -> & Hok2 & Hop2).
  { by apply NoDup_cons. }
  { intros p Hp. apply Hop1. split; [apply Hopen; set_solver|]. split; intros ->; set_solver. }
  exists b2. split; [done|]. split; [done|]. intros p. rewrite Hop2, Hop1.
  change (removelast (x :: y :: binds)) with (x :: removelast (y :: binds)). cbn [map]. set_solver.
Qed.

Lemma bind_ports_nodup base binds :
  (forall i x, binds !! i = Some x -> x = (MkPort (base + i) 0, MkPort (base + i) 2, MkPort (base + i) 1)) ->
  NoDup (concat (map bind_ports binds)) /\
  forall p, p ∈ concat (map bind_ports binds) -> base <= node p.
Proof.
  revert base. induction binds as [|x binds IH]; intros base Hs; [split; [constructor|set_solver]|].
  destruct (IH (S base)) as [Hnd Hge].
  { intros i y Hy. rewrite (Hs (S i) y Hy). by rewrite !Nat.add_succ_r. }
  assert (Hx : bind_ports x = [MkPort base 0; MkPort base 2; MkPort base 1]).
  { rewrite (Hs 0 x eq_refl), Nat.add_0_r. done. }
  cbn [map concat]. rewrite Hx. split.
  - apply NoDup_app. split; [repeat constructor; set_solver|]. split; [|done].
    intros p Hp Hp'. apply Hge in Hp'. rewrite !elem_of_cons, elem_of_nil in Hp.
    destruct Hp as [->|[->|[->|[]]]]; cbn in Hp'; lia.
  - intros p [Hp|Hp]%elem_of_app; [|apply Hge in Hp; lia].
    rewrite !elem_of_cons, elem_of_nil in Hp. destruct Hp as [->|[->|[->|[]]]]; cbn; lia.
Qed.

Lemma bind_ports_elem binds p :
  p ∈ concat (map bind_ports binds) <->
  p ∈ map bind_input binds \/ p ∈ map bind_argument binds \/ p ∈ map bind_result binds.
Proof.
  induction binds as [|x binds IH]; cbn [map concat]; [set_solver|].
  rewrite elem_of_app, IH. unfold bind_ports. rewrite !elem_of_cons, elem_of_nil. tauto.
Qed.

(** Ports of the binds of a spine, by their position. *)
Lemma bind_shape_index base binds :
  (forall i x, binds !! i = Some x -> x = (MkPort (base + i) 0, MkPort (base + i) 2, MkPort (base + i) 1)) ->
  (forall p, p ∈ map bind_input binds -> index p = 0) /\
  (forall p, p ∈ map bind_argument binds -> index p = 2) /\
  (forall p, p ∈ map bind_result binds -> index p = 1) /\
  NoDup (map bind_input binds) /\ NoDup (map bind_result binds).
Proof.
  intros Hs.
  assert (Hm : forall (f : Port * Port * Port -> Port) k, (forall m, f (MkPort m 0, MkPort m 2, MkPort m 1) = MkPort m k) ->
    (forall p, p ∈ map f binds -> index p = k) /\ NoDup (map f binds)).
  { intros f k Hf. split.
    - intros p Hp. apply list_elem_of_lookup_1 in Hp as [i Hi]. rewrite list_lookup_fmap in Hi.
      apply fmap_Some in Hi as (x & Hx & ->). rewrite (Hs i x Hx), Hf. done.
    - apply NoDup_alt. intros i j p Hi Hj. rewrite list_lookup_fmap in Hi, Hj.
      apply fmap_Some in Hi as (x & Hx & ->), Hj as (y & Hy & Heq).
      rewrite (Hs i x Hx), (Hs j y Hy), !Hf in Heq. injection Heq. lia. }
  destruct (Hm bind_input 0) as [? ?]; [done|]. destruct (Hm bind_argument 2) as [? ?]; [done|].
  destruct (Hm bind_result 1) as [? ?]; [done|]. done.
Qed.

Lemma function_spine_spec {E} b arity :
  builder_ok b -> 0 < arity ->
  exists b' sp, function_spine (E:=E) b arity = Ok (b', sp) /\ builder_ok b' /\
    length (spine_arguments sp) = arity /\
    forall p, open b' p <-> open b p \/ p ∈ spine_input sp :: spine_result sp :: spine_arguments sp.
Proof.
  intros Hok Har. unfold function_spine, spine. rewrite bool_decide_true by done. cbn [rust_assert mbind outcome_bind].
  destruct (spine_binds_spec arity b Hok) as (b1 & binds & -> & Hok1 & Hlen & Hshape & Hop1).
  destruct binds as [|x rest]; [cbn in Hlen; lia|].
  destruct (bind_ports_nodup _ _ Hshape) as [Hnd Hge].
  destruct (bind_shape_index _ _ Hshape) as (Hi & Ha & Hr & Hni & Hnr).
  change (concat (map bind_ports (x :: rest)))
    with (bind_input x :: bind_argument x :: bind_result x :: concat (map bind_ports rest)) in Hnd.
  rewrite !NoDup_cons in Hnd. destruct Hnd as (_ & _ & Hnx & Hnd).
  destruct (spine_wires_spec (E:=E) rest x b1 Hok1) as (b2 & -> & Hok2 & Hop2).
  { by apply NoDup_cons. }
  { intros p Hp. apply Hop1. right. cbn [map concat]. apply elem_of_cons in Hp as [->|Hp]; apply elem_of_app;
      [left; unfold bind_ports; set_solver|by right]. }
  destruct (exists_last (l := x :: rest)) as (front & z & Hz); [done|].
  cbn [mbind outcome_bind vec_get lookup list_lookup expect].
  assert (Hlast : last (x :: rest) = Some z) by (rewrite Hz; apply last_snoc). rewrite Hlast.
  cbn [expect mbind outcome_bind]. eexists _, _. split; [done|]. cbn [spine_input spine_arguments spine_result].
  split; [done|]. split; [by rewrite length_map|].
  assert (Hrl : removelast (x :: rest) = front) by (rewrite Hz; apply removelast_last).
  intros p. rewrite Hop2, Hop1, Hrl, bind_ports_elem. rewrite !elem_of_cons.
  rewrite Hz in Hr, Hnr. rewrite map_app in Hr, Hnr. cbn [map] in Hr, Hnr.
  apply NoDup_app in Hnr as (_ & Hnr & _). cbn [map] in Hi, Hni. apply NoDup_cons in Hni as [Hni _].
  assert (Hold : open b p -> p ∉ concat (map bind_ports (x :: rest))).
  { intros [Hv%valid_port_lt _] Hin. apply Hge in Hin. lia. }
  rewrite bind_ports_elem in Hold.
  assert (Hres : p ∈ map bind_result (x :: rest) <-> p ∈ map bind_result front \/ p = bind_result z).
  { rewrite Hz, map_app, elem_of_app. cbn [map]. by rewrite list_elem_of_singleton. }
  assert (Hinp : p ∈ map bind_input (x :: rest) <-> p = bind_input x \/ p ∈ map bind_input rest).
  { cbn [map]. apply elem_of_cons. }
  rewrite Hres, Hinp in *. split; [tauto|].
  intros [Hx|[ ->|[ ->|Hx]]].
  - specialize (Hold Hx). tauto.
  - split; [tauto|]. split; [done|]. intros Hin. assert (index (bind_input x) = 1) by (apply Hr; set_solver).
    rewrite (Hi (bind_input x)) in * by set_solver. done.
  - split; [tauto|]. assert (Hiz : index (bind_result z) = 1) by (apply Hr; set_solver). split.
    + intros Hin. rewrite (Hi (bind_result z)) in Hiz by set_solver. done.
    + intros Hin. apply (Hnr _ Hin). set_solver.
  - specialize (Ha p Hx). split; [tauto|]. split.
    + intros Hin. rewrite (Hi p) in Ha by set_solver. done.
    + intros Hin. rewrite (Hr p) in Ha by set_solver. done.
Qed.

Lemma unary_operator_spec {E} b o :
  builder_ok b ->
  exists b' f, unary_operator (E:=E) b o = Ok (b', f) /\ builder_ok b' /\ ~ open b f /\
    forall p, open b' p <-> open b p \/ p = f.
Proof.
  intros Hok. unfold unary_operator.
  destruct (function_bind_spec b Hok) as (b1 & f & a & r & -> & Hok1 & Hlen & _ & -> & -> & -> & Hop1).
  destruct (operator_spec b1 o Hok1) as (b2 & i & t & -> & Hok2 & -> & -> & Hop2).
  set (n := length (nodes b)) in *. rewrite Hlen in *.
  assert (Hfresh : forall k p, open b p -> p <> MkPort n k /\ p <> MkPort (S n) k).
  { intros k p [Hv%valid_port_lt _]. split; intros ->; cbn in Hv; lia. }
  destruct (wire_open (E:=E) b2 (MkPort n 2) (MkPort (S n) 0)) as (b3 & -> & Hok3 & _ & _ & _ & Hop3).
  { done. }
  { apply Hop2. left. apply Hop1. set_solver. }
  { apply Hop2. set_solver. }
  { intros [=]; lia. }
  cbn [mbind outcome_bind].
  destruct (wire_open (E:=E) b3 (MkPort n 1) (MkPort (S n) 1)) as (b4 & -> & Hok4 & _ & _ & _ & Hop4).
  { done. }
  { apply Hop3. split; [apply Hop2; left; apply Hop1; set_solver|]. split; intros [=]; lia. }
  { apply Hop3. split; [apply Hop2; set_solver|]. split; intros [=]; lia. }
  { intros [=]; lia. }
  cbn [mbind outcome_bind]. exists b4, (MkPort n 0). split; [done|]. split; [done|].
  split; [intros H; by destruct (Hfresh 0 _ H)|].
  intros p. rewrite Hop4, Hop3, Hop2, Hop1, !elem_of_cons, elem_of_nil. split; [tauto|].
  intros [Hx| ->].
  - destruct (Hfresh 0 p Hx), (Hfresh 1 p Hx), (Hfresh 2 p Hx). tauto.
  - split; [|split; intros [=]; lia]. split; [tauto|]. split; intros [=]; lia.
Qed.
End operations.

(** ** Finishing a builder *)
Section finishing.
Context {D O : Type}.
Implicit Types b : NetBuilder D O.

Definition runtime_node (n : BuilderNode D O) : option (Node D O) :=
  match n with Runtime r => Some r | Tunnel => None end.

Lemma new_nodes_omap (ns : list (BuilderNode D O)) next : new_nodes ns next = omap runtime_node ns.
Proof.
  revert next. induction ns as [|n ns IH]; intros next; [done|]. rewrite new_nodes_cons.
  destruct n; cbn; by rewrite IH.
Qed.

Lemma valid_port_ok b exposed p : valid_port b p = true -> port_ok (topology_of b exposed) p.
Proof.
  intros Hv. split; cbn [shapes topology_of]; [rewrite length_map; by apply valid_port_lt|].
  unfold valid_port in Hv. destruct (nodes b !! node p) as [n|]; [|done]. apply Nat.ltb_lt in Hv.
  destruct n as [[]|]; cbn in Hv; lia.
Qed.

Lemma closed_topology_ok b exposed : closed_by b exposed -> topology_ok (topology_of b exposed).
Proof.
  intros [Hnd Hv]. split; cbn [wires topology_of Polarity.exposed].
  - apply Forall_forall. intros w Hw.
    split; apply valid_port_ok, Hv; constructor; apply endpoints_elem; exists w; tauto.
  - apply valid_port_ok, Hv. constructor.
Qed.

(** Template acceptance: closed wiring, a sign assignment, connectivity. *)
Definition acceptable b (exposed : Port) : Prop :=
  closed_by b exposed /\ (exists sg, polarized_by (topology_of b exposed) sg) /\
  forall i, i < length (nodes b) -> reachable (topology_of b exposed) (node exposed) i.

Lemma try_finish_cases b exposed :
  (acceptable b exposed /\ exists net, try_finish b exposed = Ok net /\
     net_nodes net = omap runtime_node (nodes b) /\ template_ok net) \/
  (~ closed_by b exposed /\ exists e, try_finish b exposed = Err e /\ validate b exposed = Err e) \/
  (closed_by b exposed /\ ~ acceptable b exposed /\ exists v, try_finish b exposed = Err (PolarityError v)).
Proof.
  unfold try_finish. destruct (validate_cases b exposed) as [[-> Hcl]|(e & -> & Hno)]; cbn [mbind outcome_bind].
  2:{ right. left. eauto. }
  pose proof (closed_topology_ok b exposed Hcl) as Hok. unfold check_polarity, check, ALL; cbn [check_sign check_conn].
  destruct (check_signs_cases _ Hok) as [(signs & -> & Hlen & He)|(pre & c & post & ks & Heq & -> & Hw & Hks & _ & Hno)];
    cbn [mbind outcome_bind map_err].
  2:{ right. right. split; [done|]. split; [|eauto]. intros (_ & [sg Hp] & _). apply (Hno (slot_signs (topology_of b exposed) sg)).
      pose proof (constraints_ok _ Hok) as Hcok. unfold polarized_by in Hp. rewrite Heq in Hp, Hcok.
      eapply Forall_conflict; [|done]. by apply Forall_holds_slots. }
  set (sg := fun p => sign_of_bool (sg_of signs (port_slot p))).
  assert (Hpol : polarized_by (topology_of b exposed) sg).
  { apply (Forall_holds_eqn (topology_of b exposed) (sg_of signs)); [|done].
    unfold sg_of. rewrite (lookup_ge_None_2 signs) by lia. done. }
  destruct (check_connected_spec _ Hok) as [[-> Hconn]|(i & -> & Hi & Hn & _)]; cbn [mbind outcome_bind map_err].
  2:{ right. right. split; [done|]. split; [|eauto]. intros (_ & _ & H). apply Hn.
      apply H. cbn [shapes topology_of] in Hi. by rewrite length_map in Hi. }
  cbn [shapes topology_of] in Hconn. rewrite length_map in Hconn.
  destruct (normalize_spec b exposed sg signs Hcl Hpol) as (net & Hnet & Hnodes & Htok); [|done|].
  - intros p Hp. unfold solved_sign. apply vec_get_Ok. fold (port_slot p).
    pose proof (port_slot_lt _ _ (valid_port_ok b exposed p Hp)).
    destruct (lookup_lt_is_Some_2 signs (port_slot p)) as [x Hx]; [lia|].
    rewrite Hx. subst sg. cbv beta. unfold sg_of. rewrite Hx. by destruct x.
  - left. split; [split; [done|split; [by exists sg|done]]|]. exists net. split; [done|].
    by rewrite <- (new_nodes_omap _ 0).
Qed.
End finishing.

(** ** Properties *)

(** C14. A finished template is well formed: its nodes are the builder's
    runtime nodes in order, with every tunnel spliced out; its wires and
    exposed port name every port of every node exactly once; its ports have
    signs that obey the polarity table; and every wire is stored from its
    providing to its consuming port. *)
Theorem finished_template_well_formed {D O} (b : NetBuilder D O) exposed net :
  try_finish b exposed = Ok net ->
  net_nodes net = omap runtime_node (nodes b) /\ template_ok net.
Proof.
  intros H. destruct (try_finish_cases b exposed) as [(_ & net' & H' & Hn & Ht)|[(_ & e & H' & _)|(_ & _ & v & H')]];
    rewrite H in H'; simplify_eq. done.
Qed.

(** An operator applied to a datum through a tunnel. *)
Definition sample_builder : NetBuilder Z Z :=
  MkBuilder [Runtime (DataNode 7%Z); Tunnel; Runtime (OperatorNode 9%Z)]
    [MkWire (MkPort 0 0) (MkPort 1 0); MkWire (MkPort 2 0) (MkPort 1 1)]
    {[MkPort 0 0; MkPort 1 0; MkPort 2 0; MkPort 1 1]} 0.

Definition sample_net : InteractionNet Z Z :=
  MkNet [DataNode 7%Z; OperatorNode 9%Z] [MkWire (MkPort 0 0) (MkPort 1 0)] (MkPort 1 1).

Lemma finished_template_witness :
  try_finish sample_builder (MkPort 2 1) = Ok sample_net /\ template_ok sample_net.
Proof.
  assert (H : try_finish sample_builder (MkPort 2 1) = Ok sample_net) by (vm_compute; reflexivity).
  split; [exact H | exact (proj2 (finished_template_well_formed _ _ _ H))].
Defined.

(** C15. Finishing succeeds exactly when it should: every port but the
    exposed one is wired exactly once, some assignment of signs obeys the
    polarity rules, and every node can be reached from the exposed port. It
    never panics or diverges; it fails with the validation error or a
    polarity violation, so the tunnel-cycle and self-wire errors of the
    splicing phase cannot occur. *)
Theorem try_finish_decides {D O} (b : NetBuilder D O) exposed :
  match try_finish b exposed with
  | Ok _ => acceptable b exposed
  | Err (PolarityError _) => closed_by b exposed /\ ~ acceptable b exposed
  | Err e => ~ closed_by b exposed /\ validate b exposed = Err e
  | Panic | OutOfFuel => False
  end.
Proof.
  destruct (try_finish_cases b exposed) as [(Ha & net & -> & _)|[(Hn & e & -> & Hv)|(Hc & Hn & v & ->)]]; [done| |done].
  destruct e; try done. exfalso.
  unfold validate in Hv. destruct (negb (valid_port b exposed)); [done|].
  rewrite validate_wires_ports in Hv.
  assert (Hp : forall ps table e, validate_ports exposed ps table = Err e -> forall v, e <> PolarityError v).
  { clear. induction ps as [|p ps IH]; intros table e; cbn [validate_ports]; [done|].
    rewrite bind_Err. intros [H|(t & _ & H)]; [|by eapply IH]. unfold validate_port in H.
    repeat case_match; by simplify_eq. }
  apply bind_Err in Hv as [Hv|(t & _ & Hv)]; [by eapply Hp|]. by destruct (first_unwired exposed t).
Qed.

(** Wiring two ports: it succeeds exactly when both exist, neither is
    wired and they differ, and then closes exactly those two ports; the
    builder's invariant (distinct existing wire ends, an exact set of wired
    ports, distinct fan sites) is kept. *)
Theorem try_wire_correct {D O} (b : NetBuilder D O) l r :
  builder_ok b ->
  match try_wire b l r with
  | Ok b' => open b l /\ open b r /\ l <> r /\ builder_ok b' /\
      forall p, open b' p <-> open b p /\ p <> l /\ p <> r
  | Err _ => ~ (open b l /\ open b r /\ l <> r)
  | Panic | OutOfFuel => False
  end.
Proof.
  intros Hok.
  assert (Hdec : (open b l /\ open b r /\ l <> r) \/ ~ (open b l /\ open b r /\ l <> r)).
  { assert (Hd : forall p, Decision (open b p)) by (intros p; unfold open; apply _).
    destruct (decide (open b l /\ open b r /\ l <> r)); [by left|by right]. }
  destruct Hdec as [(Hl & Hr & Hne)|Hno].
  - destruct (try_wire_open b l r Hok Hl Hr Hne) as (b' & -> & Hok' & _ & _ & _ & Hop). done.
  - destruct (try_wire_not_open b l r Hok Hno) as (e & ->). done.
Qed.

Lemma try_wire_witness :
  exists b', try_wire (D:=Z) (O:=Z) (fst (push (fst (push builder_new (DataNode 1%Z))) Erase))
    (MkPort 0 0) (MkPort 1 0) = Ok b' /\ builder_ok b'.
Proof.
  set (b := fst (push (fst (push (D:=Z) (O:=Z) builder_new (DataNode 1%Z))) Erase)).
  assert (Hok : builder_ok b).
  { apply push_node_ok; [|reflexivity]. apply push_node_ok; [apply builder_new_ok|reflexivity]. }
  pose proof (try_wire_correct b (MkPort 0 0) (MkPort 1 0) Hok) as H.
  destruct (try_wire b (MkPort 0 0) (MkPort 1 0)) as [b'|e| |] eqn:E; [|exfalso; vm_compute in E; discriminate E..].
  exists b'. split; [reflexivity|]. apply H.
Defined.

(** An [n]-way copy: for every [n] it returns without a panic one
    input and exactly [n] outputs, all distinct fresh ports, and leaves
    exactly those ports (and the ones open before) open; it adds an eraser,
    a tunnel, or [n - 1] fans. *)
Theorem copy_correct {D O E} (b : NetBuilder D O) n :
  builder_ok b -> (next_fan_site b + Z.of_nat n <= u64_max)%Z ->
  exists b' ports, copy (E:=E) b n = Ok (b', ports) /\ builder_ok b' /\
    length (copy_outputs ports) = n /\ NoDup (copy_input ports :: copy_outputs ports) /\
    length (nodes b') = length (nodes b) + Nat.max 1 (n - 1) /\
    (forall p, p ∈ copy_input ports :: copy_outputs ports -> ~ open b p) /\
    (forall p, open b' p <-> open b p \/ p ∈ copy_input ports :: copy_outputs ports).
Proof. apply copy_spec. Qed.

Lemma copy_witness :
  exists b' ports, copy (D:=Z) (O:=Z) (E:=Empty_set) builder_new 5 = Ok (b', ports) /\
    length (copy_outputs ports) = 5.
Proof.
  destruct (copy_correct (E:=Empty_set) (D:=Z) (O:=Z) builder_new 5 builder_new_ok) as (b' & ports & H & _ & Hl & _).
  { vm_compute. discriminate. }
  exists b', ports. split; [exact H | exact Hl].
Defined.

(** The composite constructors never fail on a sound builder: a
    function spine of any positive arity leaves open its input, its result
    and one argument per bind, and a unary operator leaves open only its
    function port; both keep the builder's invariant. *)
Theorem composite_constructors {D O E} (b : NetBuilder D O) arity o :
  builder_ok b -> 0 < arity ->
  (exists b' sp, function_spine (E:=E) b arity = Ok (b', sp) /\ builder_ok b' /\
     length (spine_arguments sp) = arity /\
     forall p, open b' p <-> open b p \/ p ∈ spine_input sp :: spine_result sp :: spine_arguments sp) /\
  (exists b' f, unary_operator (E:=E) b o = Ok (b', f) /\ builder_ok b' /\ ~ open b f /\
     forall p, open b' p <-> open b p \/ p = f).
Proof. intros Hok Har. split; [by apply function_spine_spec|by apply unary_operator_spec]. Qed.

Lemma composite_witness :
  exists b' sp, function_spine (D:=Z) (O:=Z) (E:=Empty_set) builder_new 3 = Ok (b', sp) /\
    length (spine_arguments sp) = 3.
Proof.
  destruct (composite_constructors (E:=Empty_set) (D:=Z) (O:=Z) builder_new 3 0%Z builder_new_ok ltac:(lia))
    as [(b' & sp & H & _ & Hl & _) _].
  exists b', sp. split; [exact H | exact Hl].
Defined.
