(* ===== verification/RuntimeGraph.v ===== *)
(** * The runtime graph ([src/interaction_net/runtime/graph.rs], data of [runtime.rs])

    A runtime net is a map from node IDs to nodes with three link slots
    each, the states of its active pairs (principal-to-principal wires), the
    logical copies it is making of other nets, and the cursor obligations of
    demanded cursors outside any pair. This file models the data, the graph
    operations, and the boundary that every rewrite detaches and reattaches.

    Node IDs are the zero-based IDs of [NetModel], ports and links their
    logical view; the 64-bit limits of the ID counters are kept. *)
From stdpp Require Import base option list numbers gmap tactics.
From Stdlib Require Import ZArith Lia.
From S2P Require Import Prelude NetModel.

(** ** Client semantics (the traits of [model.rs] and [runtime.rs]) *)

(** [NetSpecialization]: the opaque payload types. *)
Class NetSpecialization := {
  Data : Type;
  Operator : Type;
  RuntimeSource : Type;
  WaitToken : Type;
  SpecStuckReason : Type;
  Checkpoint : Type;
  WaitToken_eq_dec :: EqDecision WaitToken;
}.

(** [RuntimeNetPayloadDuplicator]. *)
Class PayloadDuplicator (S : NetSpecialization) := {
  duplicate_data : Data -> Data;
  duplicate_operator : Operator -> Operator;
}.

Section data.
Context {S : NetSpecialization}.

(** ** Data *)
Inductive DemandEndpoint := EpCursor (cursor : nat) | EpActivePair (pair : nat).

#[export] Instance DemandEndpoint_eq_dec : EqDecision DemandEndpoint.
Proof. solve_decision. Defined.

Record FrontierObservation := MkObservation {
  obs_source : RuntimeSource;
  observed_topology : Z;
  obs_endpoint : DemandEndpoint;
}.

Inductive CursorDependency :=
  | LocalCursor (cursor : nat)
  | SourceCursor (observation : FrontierObservation)
  | SourceFrontierDep (observation : FrontierObservation).

Inductive PairlessCursorState :=
  | PcReady
  | PcClaimed
  | PcBlocked (dependency : CursorDependency)
  | PcStable.

Definition pc_is_claimed (s : PairlessCursorState) : bool :=
  match s with PcClaimed => true | _ => false end.

Record PairlessCursorObligation := MkObligation {
  ob_cursor : nat;
  ob_state : PairlessCursorState;
}.

Inductive CursorBlockage := BlDependency (dependency : CursorDependency) | BlStable.

Inductive StuckReason := NoRule | Specialization (reason : SpecStuckReason).

Inductive ActivePairState :=
  | ApReady
  | ApClaimed
  | ApBlockedCheckpoint (generation : Z) (wait : WaitToken)
  | ApBlockedCursor (cursor : nat) (blockage : CursorBlockage)
  | ApStuck (reason : StuckReason).

Definition ap_is_ready (s : ActivePairState) : bool :=
  match s with ApReady => true | _ => false end.
Definition ap_is_claimed (s : ActivePairState) : bool :=
  match s with ApClaimed => true | _ => false end.

Record CopyState := MkCopyState {
  copy_source : RuntimeSource;
  frontiers : gmap Port nat;
  fan_sites : gmap FanSite FanSite;
}.

(** A node with its three link slots: each wired port's typed reference to
    its peer. *)
Record RuntimeEntry := MkEntry {
  entry_node : RuntimeNode Data Operator Checkpoint;
  links : list (option SignedPort);
}.

Definition entry_new (n : RuntimeNode Data Operator Checkpoint) : RuntimeEntry :=
  MkEntry n [None; None; None].

Record RuntimeNet := MkRuntimeNet {
  next_node_id : nat;
  next_fan_site : Z;
  rt_exposed : option Port;
  rt_nodes : gmap nat RuntimeEntry;
  next_copy_id : Z;
  copies : gmap Z CopyState;
  cursor_obligations : gmap nat PairlessCursorObligation;
  active : gmap nat ActivePairState;
}.

Definition empty_net : RuntimeNet :=
  MkRuntimeNet 0 0 None ∅ 0 ∅ ∅ ∅.

Definition with_nodes (N : RuntimeNet) ns : RuntimeNet :=
  MkRuntimeNet (next_node_id N) (next_fan_site N) (rt_exposed N) ns (next_copy_id N) (copies N)
    (cursor_obligations N) (active N).
Definition with_active (N : RuntimeNet) a : RuntimeNet :=
  MkRuntimeNet (next_node_id N) (next_fan_site N) (rt_exposed N) (rt_nodes N) (next_copy_id N)
    (copies N) (cursor_obligations N) a.
Definition with_obligations (N : RuntimeNet) o : RuntimeNet :=
  MkRuntimeNet (next_node_id N) (next_fan_site N) (rt_exposed N) (rt_nodes N) (next_copy_id N)
    (copies N) o (active N).

(** ** Reading the graph *)
Definition node_at (N : RuntimeNet) (n : nat) : option (RuntimeNode Data Operator Checkpoint) :=
  entry_node <$> rt_nodes N !! n.

(** The typed reference stored at a port: its peer and the peer's sign. *)
Definition reference (N : RuntimeNet) (p : Port) : option SignedPort :=
  entry ← rt_nodes N !! node p;
  if decide (runtime_port_count (entry_node entry) <= index p) then None
  else mjoin (links entry !! index p).

Definition neighbor (N : RuntimeNet) (p : Port) : option Port := port <$> reference N p.

(** A port with its own sign, the opposite of its stored reference's. *)
Definition signed (N : RuntimeNet) (p : Port) : option SignedPort :=
  (fun peer => MkSignedPort p (opposite (sign peer))) <$> reference N p.

Definition rt_valid_port (N : RuntimeNet) (p : Port) : bool :=
  match rt_nodes N !! node p with
  | Some entry => bool_decide (index p < runtime_port_count (entry_node entry))
  | None => false
  end.

Definition rt_active_pair_key (N : RuntimeNet) (n : nat) : option nat :=
  q ← neighbor N (principal n);
  if is_principal q then Some (active_pair_key n (node q)) else None.

Definition pair_nodes (N : RuntimeNet) (pair : nat) : option (nat * nat) :=
  right ← neighbor N (principal pair);
  if negb (is_principal right) || bool_decide (node right <= pair) then None
  else Some (pair, node right).

Definition assert_interface (N : RuntimeNet) (interface : Port) : M unit :=
  _ ← rust_assert (bool_decide (index interface = 1));
  rust_assert (match node_at N (node interface) with Some RInterface => true | _ => false end).

(** ** Changing the graph *)

(** Fresh node IDs: both counters are checked 64-bit additions. *)
Definition add_node (N : RuntimeNet) (n : RuntimeNode Data Operator Checkpoint) : M (RuntimeNet * nat) :=
  let id := next_node_id N in
  _ ← expect (checked_add (Z.of_nat id) 1);
  _ ← rust_assert (bool_decide (rt_nodes N !! id = None));
  Ok (MkRuntimeNet (id + 1) (next_fan_site N) (rt_exposed N) (<[id := entry_new n]> (rt_nodes N))
        (next_copy_id N) (copies N) (cursor_obligations N) (active N), id).

Definition remove_node (N : RuntimeNet) (n : nat) : M (RuntimeNet * RuntimeNode Data Operator Checkpoint) :=
  let N := with_obligations N (delete n (cursor_obligations N)) in
  entry ← expect (rt_nodes N !! n);
  _ ← rust_assert (forallb (fun l => negb (bool_decide (is_Some l))) (links entry));
  Ok (with_nodes N (delete n (rt_nodes N)), entry_node entry).

Definition unschedule_node (N : RuntimeNet) (n : nat) : RuntimeNet :=
  match rt_active_pair_key N n with
  | None => N
  | Some key => with_active N (delete key (active N))
  end.

(** [nodes.get_mut(&port.node()).expect(..).links[port.index()] = link]. *)
Definition set_link (ns : gmap nat RuntimeEntry) (p : Port) (link : option SignedPort)
    : M (gmap nat RuntimeEntry) :=
  entry ← expect (ns !! node p);
  ls ← vec_set (links entry) (index p) link;
  Ok (<[node p := MkEntry (entry_node entry) ls]> ns).

Definition disconnect (N : RuntimeNet) (p : Port) : M (RuntimeNet * option Port) :=
  match neighbor N p with
  | None => Ok (N, None)
  | Some q =>
      ns ← set_link (rt_nodes N) p None;
      ns ← set_link ns q None;
      Ok (with_nodes N ns, Some q)
  end.

Definition take_reference (N : RuntimeNet) (p : Port) : M (RuntimeNet * option SignedPort) :=
  match reference N p with
  | None => Ok (N, None)
  | Some peer => '(N, _) ← disconnect N p; Ok (N, Some peer)
  end.

(** The cursor obligation that a new principal-to-principal wire takes over,
    with the obligations left. *)
Definition transfer_cursor (N : RuntimeNet) (l r : Port)
    : M (option (nat * PairlessCursorState) * gmap nat PairlessCursorObligation) :=
  if is_principal l && is_principal r then
    let left_owned := bool_decide (is_Some (cursor_obligations N !! node l)) in
    let right_owned := bool_decide (is_Some (cursor_obligations N !! node r)) in
    _ ← rust_assert (negb (left_owned && right_owned));
    match (if left_owned then Some (node l) else if right_owned then Some (node r) else None) with
    | None => Ok (None, cursor_obligations N)
    | Some cursor =>
        obligation ← expect (cursor_obligations N !! cursor);
        _ ← rust_assert (negb (pc_is_claimed (ob_state obligation)));
        Ok (Some (cursor, ob_state obligation), delete cursor (cursor_obligations N))
    end
  else Ok (None, cursor_obligations N).

Definition transferred_state (t : nat * PairlessCursorState) : M ActivePairState :=
  match t with
  | (_, PcReady) => Ok ApReady
  | (cursor, PcBlocked dependency) => Ok (ApBlockedCursor cursor (BlDependency dependency))
  | (cursor, PcStable) => Ok (ApBlockedCursor cursor BlStable)
  | (_, PcClaimed) => Panic
  end.

(** The state a new active pair gets. *)
Definition activate (a : gmap nat ActivePairState) (pair : nat)
    (transferred : option (nat * PairlessCursorState)) : M (gmap nat ActivePairState) :=
  state ← match transferred with
          | None => Ok None
          | Some t => s ← transferred_state t; Ok (Some s)
          end;
  match a !! pair with
  | None => Ok (<[pair := default ApReady state]> a)
  | Some old =>
      if ap_is_claimed old && negb (bool_decide (is_Some state)) then Ok (<[pair := ApReady]> a) else Panic
  end.

(** Writes one wire: each port's slot references the other, typed by the
    other's sign. *)
Definition rt_wire (N : RuntimeNet) (l r : SignedPort) : M RuntimeNet :=
  _ ← rust_assert (bool_decide (port l <> port r));
  _ ← rust_assert (rt_valid_port N (port l) && rt_valid_port N (port r));
  _ ← rust_assert (bool_decide (neighbor N (port l) = None) && bool_decide (neighbor N (port r) = None));
  '(transferred, obligations) ← transfer_cursor N (port l) (port r);
  ns ← set_link (rt_nodes N) (port l) (Some r);
  ns ← set_link ns (port r) (Some l);
  let N := with_nodes (with_obligations N obligations) ns in
  if is_principal (port l) && is_principal (port r) then
    a ← activate (active N) (active_pair_key (node (port l)) (node (port r))) transferred;
    Ok (with_active N a)
  else Ok N.

Definition connect_provider (N : RuntimeNet) (provider consumer : Port) : M RuntimeNet :=
  rt_wire N (MkSignedPort provider Provides) (MkSignedPort consumer Consumes).

(** Binds an unwired port to a typed reference; the port takes the opposite
    sign. *)
Definition bind_reference (N : RuntimeNet) (p : Port) (ref : SignedPort) : M RuntimeNet :=
  rt_wire N (MkSignedPort p (opposite (sign ref))) ref.

Definition add_interface (N : RuntimeNet) (target : Port) : M (RuntimeNet * Port) :=
  '(N, interface) ← add_node N RInterface;
  p ← auxiliary interface 1;
  N ← connect_provider N target p;
  Ok (N, p).

(** ** Rewrite boundaries *)
Inductive BoundaryLink := BLPort (peer : SignedPort) | BLSocket (socket : nat) (s : Sign).

Definition link_socket_sign (l : BoundaryLink) : Sign :=
  match l with BLPort peer => opposite (sign peer) | BLSocket _ s => opposite s end.

(** [RewriteBoundary]: the recorded links of its sockets. *)
Notation RewriteBoundary := (list BoundaryLink).

Inductive BoundaryReplacement := RPort (p : Port) | RSocket (socket : nat) | REraser.

Inductive BoundaryEndpoint := EPort (p : SignedPort) | EErase.

Definition auxiliary_ports (n count : nat) : M (list Port) := mapM (auxiliary n) (seq 1 count).

Definition socket_sign (b : RewriteBoundary) (socket : nat) : M Sign :=
  l ← vec_get b socket; Ok (link_socket_sign l).

(** The position of a port among the sockets. *)
Definition position (ports : list Port) (p : Port) : option nat :=
  fst <$> list_find (fun socket => socket = p) ports.

Definition boundary_link (N : RuntimeNet) (ports : list Port) (p : Port) : M BoundaryLink :=
  peer ← expect (reference N p);
  Ok (match position ports (port peer) with
      | Some socket => BLSocket socket (sign peer)
      | None => BLPort peer
      end).

Definition detach_boundary (N : RuntimeNet) (ports : list Port) : M (RuntimeNet * RewriteBoundary) :=
  b ← mapM (boundary_link N ports) ports;
  N ← foldM (fun N p => '(N, _) ← disconnect N p; Ok N) N ports;
  Ok (N, b).

Definition join_boundary_endpoints (N : RuntimeNet) (first last : BoundaryEndpoint) : M RuntimeNet :=
  match first, last with
  | EPort first, EPort last => rt_wire N first last
  | EPort p, EErase | EErase, EPort p =>
      '(N, erase) ← add_node N RErase;
      bind_reference N (principal erase) p
  | EErase, EErase => Ok N
  end.

(** What a socket's recorded link and its replacement lead to: an end of the
    path, or another socket. *)
Definition recorded (b : RewriteBoundary) (socket : nat) : M (BoundaryEndpoint + nat) :=
  l ← vec_get b socket;
  Ok (match l with BLPort peer => inl (EPort peer) | BLSocket other _ => inr other end).

Definition replaced (b : RewriteBoundary) (rs : list BoundaryReplacement) (socket : nat)
    : M (BoundaryEndpoint + nat) :=
  r ← vec_get rs socket;
  match r with
  | RPort p => s ← socket_sign b socket; Ok (inl (EPort (MkSignedPort p s)))
  | REraser => Ok (inl EErase)
  | RSocket other => Ok (inr other)
  end.

Definition side (b : RewriteBoundary) (rs : list BoundaryReplacement) (by_replacement : bool) (socket : nat)
    : M (BoundaryEndpoint + nat) :=
  if by_replacement then replaced b rs socket else recorded b socket.

(** The inner loop: follow links and replacements alternately to an end,
    marking the sockets passed. *)
Fixpoint boundary_path (fuel : nat) (b : RewriteBoundary) (rs : list BoundaryReplacement)
    (visited : list bool) (socket : nat) (leave_by_replacement : bool)
    : M (BoundaryEndpoint * list bool) :=
  match fuel with
  | 0 => OutOfFuel
  | Datatypes.S fuel =>
      visited ← vec_set visited socket true;
      next ← side b rs leave_by_replacement socket;
      match next with
      | inl endpoint => Ok (endpoint, visited)
      | inr other => boundary_path fuel b rs visited other (negb leave_by_replacement)
      end
  end.

(** One iteration of the inner [for]: a start socket entered by one side. *)
Definition attach_from (b : RewriteBoundary) (rs : list BoundaryReplacement) (start : nat)
    (st : RuntimeNet * list bool) (enter_by_replacement : bool) : M (RuntimeNet * list bool) :=
  let '(N, visited) := st in
  seen ← vec_get visited start;
  if (seen : bool) then Ok (N, visited)
  else
    entry ← side b rs enter_by_replacement start;
    match entry with
    | inr _ => Ok (N, visited)
    | inl first =>
        '(last, visited) ← boundary_path (length b) b rs visited start (negb enter_by_replacement);
        N ← join_boundary_endpoints N first last;
        Ok (N, visited)
    end.

Definition attach_boundary (N : RuntimeNet) (b : RewriteBoundary) (rs : list BoundaryReplacement)
    : M RuntimeNet :=
  _ ← rust_assert (bool_decide (length b = length rs));
  '(N, _) ← foldM (fun st start => foldM (attach_from b rs start) st [false; true])
               (N, replicate (length b) false) (seq 0 (length b));
  Ok N.

End data.

(** ** The graph invariant *)
Section invariant.
Context {S : NetSpecialization}.
Implicit Types (N : RuntimeNet) (p q : Port) (n : nat).

(** Three slots per node, none wired beyond the node's ports. *)
Definition slots_ok (ns : gmap nat RuntimeEntry) : Prop :=
  forall n e, ns !! n = Some e -> length (links e) = 3 /\
    forall i sp, links e !! i = Some (Some sp) -> i < runtime_port_count (entry_node e).

Record graph_ok N : Prop := {
  go_slots : slots_ok (rt_nodes N);
  go_fresh : forall n, is_Some (node_at N n) -> n < next_node_id N;
  (** Links are symmetric and join opposite signs. *)
  go_sym : forall p q s, reference N p = Some (MkSignedPort q s) ->
    reference N q = Some (MkSignedPort p (opposite s));
  (** An obligated node is a remote cursor outside any active pair. *)
  go_obligations : forall c o, cursor_obligations N !! c = Some o ->
    ob_cursor o = c /\ (exists copy remote, node_at N c = Some (RRemoteCursor copy remote)) /\
    rt_active_pair_key N c = None;
}.

(** A principal-to-principal wire, by its lower end. *)
Definition pwire N (k : nat) : Prop :=
  exists m s, reference N (principal k) = Some (MkSignedPort (principal m) s) /\ k < m.

(** The active map holds exactly the principal-to-principal wires, and the
    pair being rewritten. *)
Definition active_ok N (pending : option nat) : Prop :=
  forall k, is_Some (active N !! k) <-> pending = Some k \/ pwire N k.

(** What graph edits leave alone. *)
Record same_rest N N' : Prop := {
  sr_exposed : rt_exposed N' = rt_exposed N;
  sr_fan : next_fan_site N' = next_fan_site N;
  sr_copy : next_copy_id N' = next_copy_id N;
  sr_copies : copies N' = copies N;
}.

Lemma same_rest_refl N : same_rest N N.
Proof. by split. Qed.

Lemma same_rest_trans N1 N2 N3 : same_rest N1 N2 -> same_rest N2 N3 -> same_rest N1 N3.
Proof. intros [] []. split; congruence. Qed.

Definition valid N p : Prop :=
  exists k, node_at N (node p) = Some k /\ index p < runtime_port_count k.

Lemma rt_valid_port_spec N p : rt_valid_port N p = true <-> valid N p.
Proof.
  unfold rt_valid_port, valid, node_at. destruct (rt_nodes N !! node p) as [e|]; cbn.
  - rewrite bool_decide_eq_true. naive_solver.
  - naive_solver.
Qed.

Lemma reference_valid N p (sp : SignedPort) : reference N p = Some sp -> valid N p.
Proof.
  unfold reference, valid, node_at. destruct (rt_nodes N !! node p) as [e|]; cbn; [|done].
  case_decide; [done|]. intros _. exists (entry_node e). split; [done|lia].
Qed.

Lemma reference_invalid N p : ~ valid N p -> reference N p = None.
Proof. intros Hp. destruct (reference N p) eqn:E; [|done]. by apply reference_valid in E. Qed.

Lemma neighbor_None N p : neighbor N p = None <-> reference N p = None.
Proof. unfold neighbor. destruct (reference N p); naive_solver. Qed.

Lemma sym_not_self N p s : graph_ok N -> reference N p <> Some (MkSignedPort p s).
Proof. intros G H. pose proof (go_sym _ G _ _ _ H) as H'. rewrite H in H'. injection H'. by destruct s. Qed.

(** [reference] reads the node map only. *)
Definition ref_of (ns : gmap nat RuntimeEntry) (p : Port) : option SignedPort :=
  entry ← ns !! node p;
  if decide (runtime_port_count (entry_node entry) <= index p) then None
  else mjoin (links entry !! index p).

Lemma set_link_spec ns p v e :
  slots_ok ns -> ns !! node p = Some e -> index p < runtime_port_count (entry_node e) ->
  exists ns', set_link ns p v = Ok ns' /\ slots_ok ns' /\
    (forall n, entry_node <$> ns' !! n = entry_node <$> ns !! n) /\
    (forall q, ref_of ns' q = if decide (q = p) then v else ref_of ns q).
Proof.
  intros Hok He Hi. destruct (Hok _ _ He) as [Hlen Hrange].
  assert (Hc : runtime_port_count (entry_node e) <= 3) by (destruct (entry_node e); cbn; lia).
  unfold set_link. rewrite He. cbn [expect mbind outcome_bind].
  rewrite vec_set_lt by lia. cbn [mbind outcome_bind]. eexists. split; [done|]. split; [|split].
  - intros n e' He'. apply lookup_insert_Some in He' as [[<- <-]|[_ He']]; [|by apply Hok in He'].
    cbn. rewrite length_insert. split; [done|]. intros i sp Hl.
    apply list_lookup_insert_Some in Hl as [(<- & _ & _)|[_ Hl]]; [done|by eapply Hrange].
  - intros n. destruct (decide (n = node p)) as [->|].
    + rewrite lookup_insert_eq, He. done.
    + by rewrite lookup_insert_ne.
  - intros [m j]. unfold ref_of. cbn [node index]. destruct (decide (m = node p)) as [->|Hm].
    + rewrite lookup_insert_eq, He. cbn [mbind option_bind entry_node links].
      destruct p as [pn pi]. cbn [node index] in *.
      destruct (decide (MkPort pn j = MkPort pn pi)) as [[= ->]|Hj].
      * rewrite decide_False by lia. rewrite list_lookup_insert_eq by lia. by destruct v.
      * rewrite list_lookup_insert_ne by congruence. done.
    + rewrite lookup_insert_ne by done. rewrite decide_False; [done|]. intros <-. by apply Hm.
Qed.

(** Editing links keeps the graph invariant as long as the result is
    symmetric and obligated cursors stay out of pairs. *)
Definition relinked N N' (ref : Port -> option SignedPort) : Prop :=
  (forall n, node_at N' n = node_at N n) /\ (forall p, reference N' p = ref p) /\
  next_node_id N' = next_node_id N /\ same_rest N N'.

Lemma disconnect_spec N p (q : SignedPort) :
  graph_ok N -> reference N p = Some q ->
  exists N', disconnect N p = Ok (N', Some (port q)) /\ graph_ok N' /\
    relinked N N' (fun x => if decide (x = p \/ x = port q) then None else reference N x) /\
    active N' = active N /\ cursor_obligations N' = cursor_obligations N.
Proof.
  intros G Hp. destruct q as [q s]. pose proof (go_sym _ G _ _ _ Hp) as Hq.
  unfold disconnect, neighbor. rewrite Hp. cbn [fmap option_fmap option_map port].
  destruct (reference_valid _ _ _ Hp) as (k & Hk & Hi). destruct (reference_valid _ _ _ Hq) as (k' & Hk' & Hi').
  unfold node_at in Hk, Hk'. apply fmap_Some in Hk as (e & He & ->). apply fmap_Some in Hk' as (e' & He' & ->).
  destruct (set_link_spec _ p None e (go_slots _ G) He Hi) as (ns & -> & Hs & Hn & Hr).
  cbn [mbind outcome_bind].
  assert (exists e2, ns !! node q = Some e2 /\ entry_node e2 = entry_node e') as (e2 & He2 & Hee).
  { specialize (Hn (node q)). rewrite He' in Hn. cbn in Hn. apply fmap_Some in Hn as (e2 & ? & ?). by exists e2. }
  destruct (set_link_spec ns q None e2 Hs He2) as (ns' & -> & Hs' & Hn' & Hr'); [by rewrite Hee|].
  cbn [mbind outcome_bind]. eexists. split; [done|].
  assert (Href : forall x, reference (with_nodes N ns') x =
            if decide (x = p \/ x = q) then None else reference N x).
  { intros x. change (ref_of ns' x = if decide (x = p \/ x = q) then None else ref_of (rt_nodes N) x).
    rewrite Hr', Hr. repeat case_decide; naive_solver. }
  assert (Hnode : forall n, node_at (with_nodes N ns') n = node_at N n).
  { intros n. unfold node_at. cbn [with_nodes rt_nodes]. by rewrite Hn', Hn. }
  split; [split|split; [split|]]; try done.
  - intros n. rewrite Hnode. apply (go_fresh _ G).
  - intros x y sy. rewrite !Href. case_decide as Hx; [done|]. intros Hxy.
    pose proof (go_sym _ G _ _ _ Hxy) as Hyx. rewrite decide_False; [done|].
    intros [-> | ->]; [rewrite Hp in Hyx|rewrite Hq in Hyx]; apply Hx; injection Hyx; naive_solver.
  - intros c o Ho. destruct (go_obligations _ G c o Ho) as (? & ? & Hk). rewrite Hnode. split; [done|]. split; [done|].
    revert Hk. unfold rt_active_pair_key, neighbor. rewrite Href. case_decide; [done|]. done.
Qed.

Lemma add_node_spec N k :
  graph_ok N -> (Z.of_nat (next_node_id N) < u64_max)%Z ->
  exists N', add_node N k = Ok (N', next_node_id N) /\ graph_ok N' /\
    (forall n, node_at N' n = if decide (n = next_node_id N) then Some k else node_at N n) /\
    (forall p, reference N' p = reference N p) /\ next_node_id N' = next_node_id N + 1 /\
    same_rest N N' /\ active N' = active N /\ cursor_obligations N' = cursor_obligations N.
Proof.
  intros G Hroom. unfold add_node.
  rewrite checked_add_fits by (unfold usize_max, u64_max in *; lia). cbn [expect mbind outcome_bind].
  assert (Hfree : rt_nodes N !! next_node_id N = None).
  { destruct (rt_nodes N !! next_node_id N) eqn:E; [|done].
    pose proof (go_fresh _ G (next_node_id N)) as H. unfold node_at in H. rewrite E in H. cbn in H.
    specialize (H ltac:(done)). lia. }
  rewrite bool_decide_true by done. cbn [rust_assert mbind outcome_bind]. eexists. split; [done|].
  set (N' := MkRuntimeNet _ _ _ _ _ _ _ _).
  assert (Hnode : forall n, node_at N' n = if decide (n = next_node_id N) then Some k else node_at N n).
  { intros n. unfold node_at, N'. cbn [rt_nodes]. case_decide; [subst; by rewrite lookup_insert_eq|by rewrite lookup_insert_ne]. }
  assert (Href : forall p, reference N' p = reference N p).
  { intros [n i]. unfold reference, N'. cbn [rt_nodes node index]. destruct (decide (n = next_node_id N)) as [->|].
    - rewrite lookup_insert_eq, Hfree. cbn [mbind option_bind entry_new entry_node links].
      case_decide; [done|]. by destruct i as [|[|[|i]]].
    - by rewrite lookup_insert_ne. }
  split; [split|repeat split; done].
  - intros n e He. unfold N' in He. cbn [rt_nodes] in He.
    apply lookup_insert_Some in He as [[<- <-]|[_ He]]; [|by apply (go_slots _ G) in He].
    split; [done|]. intros [|[|[|i]]] sp; done.
  - intros n. rewrite Hnode. cbn [N' next_node_id]. case_decide; [lia|]. intros Hn%(go_fresh _ G). lia.
  - intros p q s. rewrite !Href. apply (go_sym _ G).
  - intros c o Ho. destruct (go_obligations _ G c o Ho) as (? & (cp & rm & Hc) & Hk).
    split; [done|]. split; [|unfold rt_active_pair_key, neighbor in *; by rewrite Href].
    exists cp, rm. rewrite Hnode. case_decide as Hcn; [|done]. unfold node_at in Hc. by rewrite Hcn, Hfree in Hc.
Qed.

Lemma unwired_links N n e :
  slots_ok (rt_nodes N) -> rt_nodes N !! n = Some e -> (forall i, reference N (MkPort n i) = None) ->
  forall i sp, links e !! i <> Some (Some sp).
Proof.
  intros Hok He Hun i sp Hl. destruct (Hok _ _ He) as [_ Hr]. specialize (Hr _ _ Hl).
  specialize (Hun i). unfold reference in Hun. cbn [node index] in Hun. rewrite He in Hun. cbn in Hun.
  rewrite decide_False in Hun by lia. by rewrite Hl in Hun.
Qed.

Lemma remove_node_spec N n k :
  graph_ok N -> node_at N n = Some k -> (forall i, reference N (MkPort n i) = None) ->
  exists N', remove_node N n = Ok (N', k) /\ graph_ok N' /\
    (forall m, node_at N' m = if decide (m = n) then None else node_at N m) /\
    (forall p, reference N' p = reference N p) /\ next_node_id N' = next_node_id N /\
    same_rest N N' /\ active N' = active N /\ cursor_obligations N' = delete n (cursor_obligations N).
Proof.
  intros G Hk Hun. unfold node_at in Hk. apply fmap_Some in Hk as (e & He & ->). unfold remove_node.
  cbn [with_obligations rt_nodes]. rewrite He. cbn [expect mbind outcome_bind].
  pose proof (unwired_links N n e (go_slots _ G) He Hun) as Hnone.
  match goal with |- context [rust_assert ?b] => assert (b = true) as -> end.
  { apply forallb_forall. intros l Hl%list_elem_of_In%list_elem_of_lookup. destruct Hl as [i Hi].
    destruct l as [sp|]; [by destruct (Hnone i sp)|]. rewrite bool_decide_false by by intros [? ?]. done. }
  cbn [rust_assert mbind outcome_bind]. eexists. split; [done|]. set (N' := with_nodes _ _).
  assert (Hnode : forall m, node_at N' m = if decide (m = n) then None else node_at N m).
  { intros m. unfold node_at, N'. cbn. case_decide; [subst; by rewrite lookup_delete_eq|by rewrite lookup_delete_ne]. }
  assert (Href : forall p, reference N' p = reference N p).
  { intros [m i]. destruct (decide (m = n)) as [->|]; [rewrite Hun|]; unfold reference, N'; cbn.
    - by rewrite lookup_delete_eq.
    - by rewrite lookup_delete_ne. }
  split; [split|repeat split; done].
  - intros m e'. unfold N'. cbn. intros [_ He']%lookup_delete_Some. by apply (go_slots _ G) in He'.
  - intros m. rewrite Hnode. case_decide; [by intros [? ?]|]. apply (go_fresh _ G).
  - intros p q s. rewrite !Href. apply (go_sym _ G).
  - cbn [N' with_nodes with_obligations cursor_obligations]. intros c o [Hne Ho]%lookup_delete_Some.
    destruct (go_obligations _ G c o Ho) as (? & ? & Hk).
    split; [done|]. rewrite Hnode, decide_False by done. split; [done|].
    unfold rt_active_pair_key, neighbor in *; by rewrite Href.
Qed.

(** When a wire may be written: two distinct valid unwired ports of opposite
    signs; a new active pair takes over at most one unclaimed obligation. *)
Definition both_principal (l r : SignedPort) : bool := is_principal (port l) && is_principal (port r).

Definition obligated N n : Prop := is_Some (cursor_obligations N !! n).

Definition unclaimed N n : Prop :=
  forall o, cursor_obligations N !! n = Some o -> pc_is_claimed (ob_state o) = false.

Record wirable N (l r : SignedPort) : Prop := {
  wb_ne : port l <> port r;
  wb_left : valid N (port l);
  wb_right : valid N (port r);
  wb_left_free : reference N (port l) = None;
  wb_right_free : reference N (port r) = None;
  wb_sign : sign l = opposite (sign r);
  wb_cursor : both_principal l r = true ->
    unclaimed N (node (port l)) /\ unclaimed N (node (port r)) /\
    ~ (obligated N (node (port l)) /\ obligated N (node (port r)));
  wb_pair : both_principal l r = true ->
    let old := active N !! active_pair_key (node (port l)) (node (port r)) in
    old = None \/
    old = Some ApClaimed /\ ~ obligated N (node (port l)) /\ ~ obligated N (node (port r));
}.

(** The outcome of the cursor bookkeeping of a wire. *)
Lemma transfer_cursor_spec N l r :
  wirable N l r ->
  exists t, transfer_cursor N (port l) (port r) =
      Ok (t, if both_principal l r
             then delete (node (port l)) (delete (node (port r)) (cursor_obligations N))
             else cursor_obligations N) /\
    (t = None <-> both_principal l r = false \/
       ~ obligated N (node (port l)) /\ ~ obligated N (node (port r))) /\
    (forall c st, t = Some (c, st) -> pc_is_claimed st = false).
Proof.
  intros W. unfold transfer_cursor. fold (both_principal l r).
  destruct (both_principal l r) eqn:Eb; [|exists None; naive_solver].
  destruct (wb_cursor _ _ _ W Eb) as (Hl & Hr & Hnb). unfold obligated, unclaimed in *.
  destruct (cursor_obligations N !! node (port l)) as [o|] eqn:El.
  - destruct (cursor_obligations N !! node (port r)) as [o'|] eqn:Er; [by destruct Hnb|].
    cbn. rewrite El. cbn. rewrite (Hl o) by done. cbn. eexists. split; [|split].
    + rewrite (delete_id _ (node (port r))) by done. done.
    + split; [done|]. intros [?|[[] _]]; naive_solver.
    + intros c st [= <- <-]. by apply Hl.
  - destruct (cursor_obligations N !! node (port r)) as [o'|] eqn:Er; cbn.
    + rewrite Er. cbn. rewrite (Hr o') by done. cbn. eexists. split; [|split].
      * rewrite (delete_id (delete _ _)); [done|]. rewrite lookup_delete_None. by right.
      * split; [done|]. intros [?|[_ []]]; naive_solver.
      * intros c st [= <- <-]. by apply Hr.
    + exists None. rewrite (delete_id _ (node (port r))), delete_id by done. split; [done|]. split; [|done].
      split; [|done]. intros _. right. split; intros [? ?]; done.
Qed.

Lemma activate_spec a k t :
  (a !! k = None \/ a !! k = Some ApClaimed /\ t = None) ->
  (forall c st, t = Some (c, st) -> pc_is_claimed st = false) ->
  exists st, activate a k t = Ok (<[k := st]> a) /\ ap_is_claimed st = false /\ (t = None -> st = ApReady).
Proof.
  intros Ha Ht. unfold activate. destruct t as [[c st]|].
  - destruct Ha as [Ha|[_ ?]]; [|done]. specialize (Ht c st eq_refl).
    destruct st; cbn [transferred_state mbind outcome_bind]; rewrite ?Ha; try done; eexists; split; naive_solver.
  - cbn [mbind outcome_bind]. destruct Ha as [Ha|[Ha _]]; rewrite Ha; cbn; eexists; split; naive_solver.
Qed.

(** Whether a wire reaches a cursor that is obligated. *)
Lemma pair_key_relinked N N' l r :
  relinked N N' (fun x => if decide (x = port l) then Some r else
                          if decide (x = port r) then Some l else reference N x) ->
  forall c, node (port l) <> c \/ both_principal l r = false ->
            node (port r) <> c \/ both_principal l r = false ->
  rt_active_pair_key N c = None -> rt_active_pair_key N' c = None.
Proof.
  intros (_ & Href & _) c Hl Hr Hk. unfold rt_active_pair_key, neighbor in *. rewrite Href.
  unfold both_principal in *.
  destruct (decide (principal c = port l)) as [El|]; [|destruct (decide (principal c = port r)) as [Er|]; [|done]].
  - cbn. rewrite <- El in Hl. cbn in Hl. destruct Hl as [?|Hl]; [done|].
    change (is_principal (principal c)) with true in Hl. cbn in Hl. by rewrite Hl.
  - cbn. rewrite <- Er in Hr. cbn in Hr. destruct Hr as [?|Hr]; [done|].
    change (is_principal (principal c)) with true in Hr. rewrite andb_true_r in Hr. by rewrite Hr.
Qed.

Lemma rt_wire_spec N l r :
  graph_ok N -> wirable N l r ->
  exists N' st, rt_wire N l r = Ok N' /\ graph_ok N' /\
    relinked N N' (fun x => if decide (x = port l) then Some r else
                            if decide (x = port r) then Some l else reference N x) /\
    active N' = (if both_principal l r
                 then <[active_pair_key (node (port l)) (node (port r)) := st]> (active N)
                 else active N) /\
    cursor_obligations N' = (if both_principal l r
                 then delete (node (port l)) (delete (node (port r)) (cursor_obligations N))
                 else cursor_obligations N) /\
    ap_is_claimed st = false /\
    (~ obligated N (node (port l)) -> ~ obligated N (node (port r)) -> st = ApReady).
Proof.
  intros G W. destruct (wb_left _ _ _ W) as (k & Hk & Hi). destruct (wb_right _ _ _ W) as (k' & Hk' & Hi').
  unfold rt_wire. rewrite (bool_decide_true (port l <> port r)) by apply W.
  rewrite !(proj2 (rt_valid_port_spec _ _)) by apply W.
  rewrite !(bool_decide_true (neighbor _ _ = None)) by (apply neighbor_None; apply W). cbn [andb rust_assert mbind outcome_bind].
  destruct (transfer_cursor_spec N l r W) as (t & -> & Ht & Htc). cbn [mbind outcome_bind].
  unfold node_at in Hk, Hk'. apply fmap_Some in Hk as (e & He & ->). apply fmap_Some in Hk' as (e' & He' & ->).
  destruct (set_link_spec _ (port l) (Some r) e (go_slots _ G) He Hi) as (ns & -> & Hs & Hn & Hr).
  cbn [mbind outcome_bind].
  assert (exists e2, ns !! node (port r) = Some e2 /\ entry_node e2 = entry_node e') as (e2 & He2 & Hee).
  { specialize (Hn (node (port r))). rewrite He' in Hn. cbn in Hn. apply fmap_Some in Hn as (e2 & ? & ?). by exists e2. }
  destruct (set_link_spec ns (port r) (Some l) e2 Hs He2) as (ns' & -> & Hs' & Hn' & Hr'); [by rewrite Hee|].
  cbn [mbind outcome_bind with_nodes with_obligations active]. fold (both_principal l r).
  set (obl := if both_principal l r then delete _ _ else _). set (N1 := with_nodes (with_obligations N obl) ns').
  assert (exists st, (if both_principal l r
      then a ← activate (active N) (active_pair_key (node (port l)) (node (port r))) t; Ok (with_active N1 a)
      else Ok N1) = Ok (with_active N1 (if both_principal l r
                 then <[active_pair_key (node (port l)) (node (port r)) := st]> (active N)
                 else active N)) /\ ap_is_claimed st = false /\
    (~ obligated N (node (port l)) -> ~ obligated N (node (port r)) -> st = ApReady)) as (st & Hst & Hcl & Hrd).
  { destruct (both_principal l r) eqn:Eb; [|by exists ApReady].
    destruct (activate_spec (active N) (active_pair_key (node (port l)) (node (port r))) t) as (st & -> & ? & Hrd).
    - destruct (wb_pair _ _ _ W Eb) as [?|[? ?]]; [by left|right]. split; [done|]. apply Ht. by right.
    - done.
    - exists st. split; [by destruct (both_principal l r)|]. split; [done|]. intros ? ?. apply Hrd, Ht. by right. }
  exists (with_active N1 (if both_principal l r
                 then <[active_pair_key (node (port l)) (node (port r)) := st]> (active N)
                 else active N)), st. split; [exact Hst|].
  assert (Hrl : relinked N (with_active N1 (if both_principal l r
                 then <[active_pair_key (node (port l)) (node (port r)) := st]> (active N)
                 else active N))
            (fun x => if decide (x = port l) then Some r else
                      if decide (x = port r) then Some l else reference N x)).
  { split; [|split; [|split; [|split]; done]].
    - intros n. unfold node_at. cbn. by rewrite Hn', Hn.
    - intros x. change (ref_of ns' x = if decide (x = port l) then Some r else
                      if decide (x = port r) then Some l else ref_of (rt_nodes N) x).
      rewrite Hr', Hr. pose proof (wb_ne _ _ _ W). repeat case_decide; naive_solver. }
  split; [|done]. split.
  - done.
  - intros n. destruct Hrl as (-> & _). apply (go_fresh _ G).
  - intros x y s. destruct Hrl as (_ & Href & _). rewrite !Href.
    pose proof (wb_ne _ _ _ W) as Hne. pose proof (wb_sign _ _ _ W) as Hsg.
    destruct l as [lp ls], r as [rp rs]. cbn [port sign] in *. subst ls.
    destruct (decide (x = lp)) as [->|Hxl].
    { intros [= <- <-]. by rewrite decide_False, decide_True by done. }
    destruct (decide (x = rp)) as [->|Hxr].
    { intros [= <- <-]. by rewrite decide_True, opposite_opposite by done. }
    intros Hx. pose proof (go_sym _ G _ _ _ Hx) as Hy.
    pose proof (wb_left_free _ _ _ W). pose proof (wb_right_free _ _ _ W). cbn in *.
    by rewrite !decide_False by congruence.
  - intros c o. cbn [with_active N1 with_nodes with_obligations cursor_obligations]. intros Ho.
    assert (Ho' : cursor_obligations N !! c = Some o /\
      (node (port l) <> c \/ both_principal l r = false) /\ (node (port r) <> c \/ both_principal l r = false)).
    { unfold obl in Ho. destruct (both_principal l r); [|naive_solver].
      apply lookup_delete_Some in Ho as [? Ho]. apply lookup_delete_Some in Ho as [? Ho]. naive_solver. }
    destruct Ho' as (Ho' & ? & ?). destruct (go_obligations _ G c o Ho') as (? & ? & ?).
    split; [done|]. split; [destruct Hrl as (-> & _); done|]. by eapply pair_key_relinked.
Qed.

(** ** The active map follows the wires *)
Lemma pwire_wire N N' l r k :
  wirable N l r ->
  relinked N N' (fun x => if decide (x = port l) then Some r else
                          if decide (x = port r) then Some l else reference N x) ->
  pwire N' k <-> pwire N k \/
    both_principal l r = true /\ k = active_pair_key (node (port l)) (node (port r)).
Proof.
  intros W (_ & Href & _). pose proof (wb_ne _ _ _ W) as Hne.
  pose proof (wb_left_free _ _ _ W) as Hfl. pose proof (wb_right_free _ _ _ W) as Hfr.
  destruct l as [l ls], r as [r rs]. unfold pwire, both_principal, active_pair_key in *. cbn [port sign] in *. split.
  - intros (m & s & Hk & Hlt). rewrite Href in Hk.
    destruct (decide (principal k = l)) as [<-|]; [|destruct (decide (principal k = r)) as [<-|]].
    + injection Hk as -> ->. right. cbn. split; [done|lia].
    + injection Hk as -> ->. right. cbn. split; [done|lia].
    + left. eauto.
  - intros [(m & s & Hk & Hlt)|[Hb ->]].
    + exists m, s. rewrite Href, !decide_False by congruence. done.
    + apply andb_true_iff in Hb as [Hl Hr]. apply is_principal_spec in Hl, Hr.
      destruct (decide (node l < node r)).
      * exists (node r), rs. rewrite Nat.min_l by lia. rewrite <- Hl, Href, decide_True by done. by rewrite <- Hr.
      * exists (node l), ls. rewrite Nat.min_r by lia. rewrite <- Hr, Href, decide_False, decide_True by done.
        rewrite <- Hl. split; [done|]. assert (node l <> node r) by congruence. lia.
Qed.

Lemma active_ok_wire N N' l r st pending :
  wirable N l r ->
  relinked N N' (fun x => if decide (x = port l) then Some r else
                          if decide (x = port r) then Some l else reference N x) ->
  active N' = (if both_principal l r
               then <[active_pair_key (node (port l)) (node (port r)) := st]> (active N)
               else active N) ->
  active_ok N pending -> active_ok N' pending.
Proof.
  intros W Hrl Ha Hok k. rewrite (pwire_wire N N' l r k W Hrl), Ha.
  destruct (both_principal l r).
  - rewrite lookup_insert_is_Some'. rewrite (Hok k). naive_solver.
  - rewrite (Hok k). naive_solver.
Qed.

(** Pairs keep their states; new pairs are ready. *)
Definition states_kept N N' : Prop :=
  forall k, active N' !! k = active N !! k \/ active N !! k = None /\ active N' !! k = Some ApReady.

Lemma states_kept_refl N N' : active N' = active N -> states_kept N N'.
Proof. intros H k. left. by rewrite H. Qed.

Lemma states_kept_trans N1 N2 N3 : states_kept N1 N2 -> states_kept N2 N3 -> states_kept N1 N3.
Proof. intros H1 H2 k. specialize (H1 k). specialize (H2 k). intuition congruence. Qed.

(** When a wire can be written between nodes outside the map's pending pair:
    neither end is an obligated cursor's principal. *)
Record connectable N (l r : SignedPort) (pending : option nat) : Prop := {
  cn_graph : graph_ok N;
  cn_active : active_ok N pending;
  cn_pending : forall k, pending = Some k -> node_at N k = None;
  cn_ne : port l <> port r;
  cn_left : valid N (port l);
  cn_right : valid N (port r);
  cn_left_free : reference N (port l) = None;
  cn_right_free : reference N (port r) = None;
  cn_sign : sign l = opposite (sign r);
  cn_left_quiet : is_principal (port l) = true -> ~ obligated N (node (port l));
  cn_right_quiet : is_principal (port r) = true -> ~ obligated N (node (port r));
}.

Lemma connectable_new_pair N l r pending :
  connectable N l r pending -> both_principal l r = true ->
  active N !! active_pair_key (node (port l)) (node (port r)) = None.
Proof.
  intros C [Hl Hr]%andb_true_iff. destruct (active N !! _) eqn:E; [exfalso|done].
  assert (Hsome : is_Some (active N !! active_pair_key (node (port l)) (node (port r)))) by done.
  apply (cn_active _ _ _ _ C) in Hsome. apply is_principal_spec in Hl, Hr.
  assert (Hcase : active_pair_key (node (port l)) (node (port r)) = node (port l) \/
                  active_pair_key (node (port l)) (node (port r)) = node (port r)).
  { unfold active_pair_key. lia. }
  destruct (cn_left _ _ _ _ C) as (? & ? & _), (cn_right _ _ _ _ C) as (? & ? & _).
  pose proof (cn_left_free _ _ _ _ C). pose proof (cn_right_free _ _ _ _ C).
  destruct Hsome as [Hp%(cn_pending _ _ _ _ C)|(m & s & Hm & _)].
  - destruct Hcase as [Hc|Hc]; rewrite Hc in *; congruence.
  - destruct Hcase as [Hc|Hc]; rewrite Hc in Hm; [rewrite <- Hl in Hm|rewrite <- Hr in Hm]; congruence.
Qed.

Lemma connectable_wirable N l r pending : connectable N l r pending -> wirable N l r.
Proof.
  intros C. split; try apply C; [|intros Hb; left; by eapply connectable_new_pair].
  intros [Hl Hr]%andb_true_iff. pose proof (cn_left_quiet _ _ _ _ C Hl). pose proof (cn_right_quiet _ _ _ _ C Hr).
  unfold unclaimed, obligated in *. split; [|split; [|tauto]]; intros o Ho; exfalso; rewrite Ho in *; eauto.
Qed.

Lemma wire_ok N l r pending :
  connectable N l r pending ->
  exists N', rt_wire N l r = Ok N' /\ graph_ok N' /\ active_ok N' pending /\
    relinked N N' (fun x => if decide (x = port l) then Some r else
                            if decide (x = port r) then Some l else reference N x) /\
    cursor_obligations N' = cursor_obligations N /\ states_kept N N' /\
    (both_principal l r = false -> active N' = active N).
Proof.
  intros C. pose proof (connectable_wirable _ _ _ _ C) as W.
  destruct (rt_wire_spec N l r (cn_graph _ _ _ _ C) W) as (N' & st & Hw & G' & Hrl & Ha & Ho & _ & Hst).
  exists N'. split; [done|]. split; [done|]. split; [eapply active_ok_wire; [done..|apply C]|]. split; [done|]. split; [|split].
  2:{ intros k. rewrite Ha. destruct (both_principal l r) eqn:Eb; [|by left].
      destruct (decide (k = active_pair_key (node (port l)) (node (port r)))) as [->|]; [|left; by rewrite lookup_insert_ne].
      pose proof (connectable_new_pair _ _ _ _ C Eb). apply andb_true_iff in Eb as [Hl Hr].
      rewrite lookup_insert_eq, Hst by (by apply C). right. auto. }
  2:{ intros Hb. by rewrite Ha, Hb. }
  rewrite Ho. destruct (both_principal l r) eqn:Eb; [|done]. apply andb_true_iff in Eb as [Hl Hr].
  assert (cursor_obligations N !! node (port r) = None) by (apply eq_None_not_Some; by apply C).
  assert (cursor_obligations N !! node (port l) = None) by (apply eq_None_not_Some; by apply C).
  by rewrite (delete_id _ (node (port r))), delete_id by done.
Qed.

Lemma pwire_cut N N' p (q : SignedPort) k :
  graph_ok N -> reference N p = Some q ->
  relinked N N' (fun x => if decide (x = p \/ x = port q) then None else reference N x) ->
  pwire N' k <-> pwire N k /\
    ~ (is_principal p = true /\ is_principal (port q) = true /\ k = active_pair_key (node p) (node (port q))).
Proof.
  intros G Hp (_ & Href & _). destruct q as [q s]. cbn [port] in *. pose proof (go_sym _ G _ _ _ Hp) as Hq.
  unfold pwire, active_pair_key. split.
  - intros (m & s' & Hk & Hlt). rewrite Href in Hk. case_decide as Hd; [done|]. split; [by exists m, s'|].
    intros (Hpp & Hqp & ->). apply is_principal_spec in Hpp, Hqp. apply Hd.
    destruct (Nat.min_spec (node p) (node q)) as [[_ ->]|[_ ->]]; auto.
  - intros [(m & s' & Hk & Hlt) Hn]. exists m, s'. rewrite Href, decide_False; [done|].
    intros [Hx|Hx]; apply Hn.
    + rewrite <- Hx in *. rewrite Hk in Hp. injection Hp as <- <-. cbn. split; [done|]. split; [done|]. lia.
    + rewrite <- Hx in *. rewrite Hk in Hq. injection Hq as <- ?. cbn. split; [done|]. split; [done|]. lia.
Qed.

(** ** Wiring is symmetric *)
Lemma set_link_comm ns p q v w e e' :
  slots_ok ns -> ns !! node p = Some e -> index p < runtime_port_count (entry_node e) ->
  ns !! node q = Some e' -> index q < runtime_port_count (entry_node e') -> p <> q ->
  (ns' ← set_link ns p v; set_link ns' q w) = (ns' ← set_link ns q w; set_link ns' p v).
Proof.
  intros Hok He Hi He' Hi' Hne.
  assert (Hb : forall e : RuntimeEntry, runtime_port_count (entry_node e) <= 3) by (intros []; destruct entry_node0; cbn; lia).
  pose proof (Hb e). pose proof (Hb e'). destruct (Hok _ _ He) as [Hlen _]. destruct (Hok _ _ He') as [Hlen' _].
  unfold set_link. rewrite He, He'. cbn [expect mbind outcome_bind]. rewrite !vec_set_lt by lia.
  cbn [mbind outcome_bind]. destruct (decide (node p = node q)) as [Heq|Hnq].
  - rewrite <- Heq in *. rewrite He in He'. injection He' as <-. rewrite !lookup_insert_eq. cbn [expect mbind outcome_bind links entry_node].
    rewrite !vec_set_lt by (rewrite length_insert; lia). cbn [mbind outcome_bind].
    rewrite !insert_insert_eq. rewrite list_insert_insert_ne; [done|].
    intros Hx. apply Hne. destruct p, q. cbn in *. congruence.
  - rewrite !lookup_insert_ne by done. rewrite He, He'. cbn [expect mbind outcome_bind]. rewrite !vec_set_lt by lia.
    cbn [mbind outcome_bind]. by rewrite insert_insert_ne by done.
Qed.

Lemma wirable_sym N l r : wirable N l r -> wirable N r l.
Proof.
  intros [W1 W2 W3 W4 W5 W6 W7 W8].
  assert (Hb : both_principal r l = both_principal l r) by (unfold both_principal; apply andb_comm).
  assert (Hk : active_pair_key (node (port r)) (node (port l)) = active_pair_key (node (port l)) (node (port r)))
    by (unfold active_pair_key; lia).
  split; try done; rewrite ?Hb, ?Hk.
  - rewrite W6. by rewrite opposite_opposite.
  - intros B. specialize (W7 B). tauto.
  - intros B. specialize (W8 B). cbn in *. tauto.
Qed.

Lemma rt_wire_comm N l r : graph_ok N -> wirable N l r -> rt_wire N l r = rt_wire N r l.
Proof.
  intros G W. pose proof (wb_ne _ _ _ W) as Hne.
  destruct (wb_left _ _ _ W) as (k & Hk & Hi). destruct (wb_right _ _ _ W) as (k' & Hk' & Hi').
  unfold node_at in Hk, Hk'. apply fmap_Some in Hk as (e & He & ->). apply fmap_Some in Hk' as (e' & He' & ->).
  pose proof (set_link_comm _ _ _ (Some r) (Some l) _ _ (go_slots _ G) He Hi He' Hi' Hne) as Hset.
  assert (Ht : transfer_cursor N (port l) (port r) = transfer_cursor N (port r) (port l)).
  { unfold transfer_cursor. rewrite (andb_comm (is_principal (port r))).
    destruct (is_principal (port l) && is_principal (port r)) eqn:Eb; [|done].
    destruct (wb_cursor _ _ _ W Eb) as (_ & _ & Hnb). unfold obligated in Hnb.
    destruct (decide (is_Some (cursor_obligations N !! node (port l)))) as [Hl|Hl];
    destruct (decide (is_Some (cursor_obligations N !! node (port r)))) as [Hr|Hr]; [by destruct Hnb|..].
    - by rewrite (bool_decide_true _ Hl), (bool_decide_false _ Hr).
    - by rewrite (bool_decide_false _ Hl), (bool_decide_true _ Hr).
    - by rewrite (bool_decide_false _ Hl), (bool_decide_false _ Hr). }
  unfold rt_wire. rewrite Ht. rewrite (bool_decide_true (port l <> port r)) by done.
  rewrite (bool_decide_true (port r <> port l)) by done.
  rewrite (andb_comm (rt_valid_port N (port r))), (andb_comm (bool_decide (neighbor N (port r) = None))),
    (andb_comm (is_principal (port r))).
  replace (active_pair_key (node (port r)) (node (port l))) with (active_pair_key (node (port l)) (node (port r)))
    by (unfold active_pair_key; lia).
  destruct (rust_assert true) as [[]| | |]; try done. cbn [mbind outcome_bind].
  destruct (rust_assert _) as [[]| | |]; try done. cbn [mbind outcome_bind].
  destruct (rust_assert _) as [[]| | |]; try done. cbn [mbind outcome_bind].
  destruct (transfer_cursor N (port r) (port l)) as [[tr obl]| | |]; try done. cbn [mbind outcome_bind].
  destruct (set_link (rt_nodes N) (port l) (Some r)) as [ns1| | |] eqn:E1; cbn [mbind outcome_bind] in *;
    destruct (set_link (rt_nodes N) (port r) (Some l)) as [ns2| | |] eqn:E2; cbn [mbind outcome_bind] in *;
    rewrite ?Hset; try done; by rewrite <- Hset.
Qed.

(** ** Nets are determined by what can be read of them *)
Lemma links_ext (c : nat) (x y : list (option SignedPort)) :
  length x = 3 -> length y = 3 ->
  (forall i sp, x !! i = Some (Some sp) -> i < c) -> (forall i sp, y !! i = Some (Some sp) -> i < c) ->
  (forall i, i < c -> mjoin (x !! i) = mjoin (y !! i)) -> x = y.
Proof.
  intros Hx Hy Cx Cy H. apply list_eq. intros i. destruct (decide (i < 3)) as [Hi|Hi].
  - destruct (lookup_lt_is_Some_2 x i) as [vx Ex]; [lia|]. destruct (lookup_lt_is_Some_2 y i) as [vy Ey]; [lia|].
    rewrite Ex, Ey. f_equal. specialize (H i). rewrite Ex, Ey in H. cbn in H.
    destruct vx as [sx|]; [apply H; by eapply Cx|]. destruct vy as [sy|]; [apply H; by eapply Cy|done].
  - by rewrite !lookup_ge_None_2 by lia.
Qed.

Lemma net_ext N N' :
  graph_ok N -> graph_ok N' -> relinked N N' (reference N) -> active N' = active N ->
  cursor_obligations N' = cursor_obligations N -> N' = N.
Proof.
  intros G G' (Hn & Hr & Hx & []) Ha Ho.
  assert (Hns : rt_nodes N' = rt_nodes N).
  { apply map_eq. intros n. specialize (Hn n). unfold node_at in Hn.
    destruct (rt_nodes N' !! n) as [e'|] eqn:E', (rt_nodes N !! n) as [e|] eqn:E; try done.
    injection Hn as Hk. destruct (go_slots _ G _ _ E) as [L B], (go_slots _ G' _ _ E') as [L' B'].
    f_equal. destruct e as [k x], e' as [k' y]. cbn in *. subst k'. f_equal.
    apply (links_ext (runtime_port_count k)); try done. intros i Hi. specialize (Hr (MkPort n i)).
    unfold reference in Hr. cbn in Hr. rewrite E, E' in Hr. cbn in Hr. by rewrite !decide_False in Hr by lia. }
  destruct N, N'. cbn in *. by subst.
Qed.

(** Two wires can be written in either order, if one is not a pair. *)
Lemma wire_swap N N1 N2 a c l r :
  graph_ok N -> wirable N a c -> both_principal a c = false -> rt_wire N a c = Ok N1 ->
  wirable N1 l r -> ~ obligated N (node (port l)) -> ~ obligated N (node (port r)) -> rt_wire N1 l r = Ok N2 ->
  exists N', rt_wire N l r = Ok N' /\ rt_wire N' a c = Ok N2 /\ wirable N l r /\ wirable N' a c.
Proof.
  intros G Wa Hb H1 W1 Hol Hor H2.
  destruct (rt_wire_spec N a c G Wa) as (? & ? & E1 & G1 & (Hn1 & Hr1 & Hx1 & Hs1) & Ha1 & Ho1 & _).
  rewrite H1 in E1. injection E1 as <-. rewrite Hb in Ha1, Ho1.
  destruct (rt_wire_spec N1 l r G1 W1) as (? & st2 & E2 & G2 & (Hn2 & Hr2 & Hx2 & Hs2) & Ha2 & Ho2 & _ & Hst2).
  rewrite H2 in E2. injection E2 as <-.
  assert (Hv : forall p, valid N1 p <-> valid N p) by (intros p; unfold valid; by setoid_rewrite Hn1).
  assert (Hfree : forall p, reference N1 p = None -> p <> port a /\ p <> port c /\ reference N p = None).
  { intros p. rewrite Hr1. repeat case_decide; naive_solver. }
  destruct W1 as [Wne Wl Wr Wlf Wrf Wsg Wc Wp].
  destruct (Hfree _ Wlf) as (Hla & Hlc & Hlf). destruct (Hfree _ Wrf) as (Hra & Hrc & Hrf).
  assert (Wl' : wirable N l r).
  { split; try done; try (by apply Hv); unfold unclaimed, obligated in *; by rewrite <- ?Ho1, <- ?Ha1. }
  destruct (rt_wire_spec N l r G Wl') as (N' & st & E' & G' & (Hn' & Hr' & Hx' & Hs') & Ha' & Ho' & _ & Hst).
  assert (Wa' : wirable N' a c).
  { split; try (by apply Wa); try (unfold valid; rewrite Hn'; by apply Wa); try (by rewrite Hb);
      rewrite Hr', !decide_False by congruence; by apply Wa. }
  destruct (rt_wire_spec N' a c G' Wa') as (N3 & ? & E3 & G3 & (Hn3 & Hr3 & Hx3 & Hs3) & Ha3 & Ho3 & _).
  rewrite Hb in Ha3, Ho3. exists N'. split; [done|]. split; [|done]. rewrite E3. f_equal.
  apply net_ext; try done.
  - split; [intros n; by rewrite Hn3, Hn', Hn2, Hn1|]. split; [|split; [congruence|destruct Hs1, Hs2, Hs', Hs3; split; congruence]].
    intros p. rewrite Hr3, Hr', Hr2, Hr1. repeat case_decide; congruence.
  - rewrite Ha3, Ha', Ha2, Ha1, Hst, Hst2; unfold obligated in *; rewrite ?Ho1; done.
  - by rewrite Ho3, Ho', Ho2, Ho1.
Qed.

(** What any written wire does to the links. *)
Lemma rt_wire_links N N' l r :
  slots_ok (rt_nodes N) -> rt_wire N l r = Ok N' ->
  slots_ok (rt_nodes N') /\ (forall n, node_at N' n = node_at N n) /\
  (forall x, reference N' x = if decide (x = port r) then Some l else
                              if decide (x = port l) then Some r else reference N x).
Proof.
  intros Hs H. unfold rt_wire in H.
  destruct (rt_valid_port N (port l)) eqn:Vl; [|cbn in H; destruct (rust_assert (bool_decide _)); discriminate H].
  destruct (rt_valid_port N (port r)) eqn:Vr; [|cbn in H; destruct (rust_assert (bool_decide _)); discriminate H].
  apply rt_valid_port_spec in Vl as (k & Hk & Hi), Vr as (k' & Hk' & Hi').
  unfold node_at in Hk, Hk'. apply fmap_Some in Hk as (e & He & ->). apply fmap_Some in Hk' as (e' & He' & ->).
  destruct (set_link_spec _ (port l) (Some r) e Hs He Hi) as (ns & E1 & Hs1 & Hn1 & Hr1).
  assert (exists e2, ns !! node (port r) = Some e2 /\ entry_node e2 = entry_node e') as (e2 & He2 & Hee).
  { specialize (Hn1 (node (port r))). rewrite He' in Hn1. cbn in Hn1. apply fmap_Some in Hn1 as (e2 & ? & ?). by exists e2. }
  destruct (set_link_spec ns (port r) (Some l) e2 Hs1 He2) as (ns' & E2 & Hs2 & Hn2 & Hr2); [by rewrite Hee|].
  rewrite E1 in H. cbn [mbind outcome_bind] in H. rewrite E2 in H. cbn [mbind outcome_bind] in H.
  assert (Hns : rt_nodes N' = ns').
  { cbn [andb rust_assert mbind outcome_bind] in H. apply bind_Ok in H as (? & _ & H). apply bind_Ok in H as (? & _ & H).
    apply bind_Ok in H as ([t o] & _ & H). destruct (is_principal _ && _); inv_ok; done. }
  rewrite Hns. split; [done|]. split.
  - intros n. unfold node_at. by rewrite Hns, Hn2, Hn1.
  - intros x. change (ref_of (rt_nodes N') x = if decide (x = port r) then Some l else
                              if decide (x = port l) then Some r else ref_of (rt_nodes N) x).
    by rewrite Hns, Hr2, Hr1.
Qed.

End invariant.
