(* ===== verification/Boundary.v ===== *)
(** * Reattaching a rewrite boundary ([attach_boundary] of [graph.rs])

    A rewrite detaches the auxiliary ports of its pair as sockets and names a
    replacement for each. Recorded links and replacements alternate along
    paths through the sockets; [attach_boundary] follows each path to its two
    ends and joins them. [attach_spec] states what that does for every
    boundary: each end is wired, with the sign it had, and nothing else
    changes. *)
From stdpp Require Import base option list numbers gmap.
From Stdlib Require Import ZArith Lia.
From S2P Require Import Prelude NetModel RuntimeGraph.

Section paths.
Context {S : NetSpecialization}.
Context (b : list BoundaryLink) (rs : list BoundaryReplacement).

(** The sign a socket's own port had. *)
Definition sgn (i : nat) : Sign := default Provides (link_socket_sign <$> b !! i).

(** The sign of the end reached from a socket by one side. *)
Definition esign (i : nat) (by_replacement : bool) : Sign :=
  if by_replacement then sgn i else opposite (sgn i).

(** Links between sockets, and replacements between sockets, come in
    symmetric pairs of opposite sign. *)
Record boundary_ok : Prop := {
  bo_length : length b = length rs;
  bo_link : forall i j s, b !! i = Some (BLSocket j s) -> b !! j = Some (BLSocket i (opposite s));
  bo_replace : forall i j, rs !! i = Some (RSocket j) ->
    rs !! j = Some (RSocket i) /\ sgn j = opposite (sgn i);
}.

Hypothesis B : boundary_ok.

Lemma side_lt i e x : side b rs e i = Ok x -> i < length b.
Proof.
  pose proof (bo_length B). destruct e; cbn; unfold replaced, recorded; intros H'; inv_ok.
  - apply lookup_lt_Some in Hok. lia.
  - by eapply lookup_lt_Some.
Qed.

Lemma side_total i e : i < length b -> exists x, side b rs e i = Ok x.
Proof.
  intros Hi. destruct (vec_get_lt (E:=Empty_set) b i Hi) as (l & Hl & Hg).
  destruct (vec_get_lt (E:=Empty_set) rs i) as (r & Hr & Hg'); [rewrite <- (bo_length B); done|].
  destruct e; cbn; unfold replaced, recorded, socket_sign; rewrite ?Hg', ?Hg; cbn;
    [destruct r; rewrite ?Hg; cbn|]; by eexists.
Qed.

Lemma side_sym i e j : side b rs e i = Ok (inr j) ->
  side b rs e j = Ok (inr i) /\ sgn j = opposite (sgn i).
Proof.
  destruct e; cbn; unfold replaced, recorded; intros H; inv_ok.
  - destruct x; inv_ok. destruct (bo_replace B _ _ Hok) as [Hj Hs].
    assert (vec_get (E:=Empty_set) rs j = Ok (RSocket i)) as -> by (by apply vec_get_Ok). done.
  - destruct x; try discriminate. simplify_eq. pose proof (bo_link B _ _ _ Hok) as Hj.
    assert (vec_get (E:=Empty_set) b j = Ok (BLSocket i (opposite s))) as -> by (by apply vec_get_Ok).
    unfold sgn. by rewrite Hok, Hj.
Qed.

Lemma side_port_sign i e sp : side b rs e i = Ok (inl (EPort sp)) -> sign sp = esign i e.
Proof.
  destruct e; cbn; unfold replaced, recorded, socket_sign, sgn; intros H; inv_ok.
  - destruct x; inv_ok; try done. match goal with Hb : b !! i = _ |- _ => by rewrite Hb end.
  - destruct x; try discriminate. simplify_eq. rewrite Hok. cbn. by rewrite opposite_opposite.
Qed.

(** Sockets already passed, closed under both sides. *)
Definition marked (visited : list bool) (i : nat) : Prop := visited !! i = Some true.

Definition closed (visited : list bool) : Prop :=
  forall i e j, marked visited i -> side b rs e i = Ok (inr j) -> marked visited j.

(** The side by which a path that starts at an end of sign [s0] leaves a
    socket. *)
Definition leave (s0 : Sign) (i : nat) : bool := bool_decide (sgn i = opposite s0).

Lemma leave_sign s0 i : esign i (leave s0 i) = opposite s0 /\ esign i (negb (leave s0 i)) = s0.
Proof. unfold leave, esign. destruct s0, (sgn i); done. Qed.

Lemma leave_start i e : leave (esign i e) i = negb e.
Proof. unfold leave, esign. destruct e, (sgn i); done. Qed.

Lemma leave_next s0 i j : sgn j = opposite (sgn i) -> leave s0 j = negb (leave s0 i).
Proof. unfold leave. intros ->. destruct s0, (sgn i); done. Qed.

(** A path from [start] that has passed [P] and stands at [cur]. *)
Record passing (s0 : Sign) (start : nat) (old visited : list bool) (P : list nat) (cur : nat) : Prop := {
  pg_marks : forall i, marked visited i <-> marked old i \/ i ∈ P;
  pg_new : forall i, i ∈ cur :: P -> ~ marked old i;
  pg_cur : cur ∉ P;
  pg_nodup : NoDup P;
  pg_len : length visited = length b;
  pg_lt : forall i, i ∈ cur :: P -> i < length b;
  pg_next : forall i, i ∈ P -> exists j, side b rs (leave s0 i) i = Ok (inr j) /\ j ∈ cur :: P;
  pg_prev : forall i, i ∈ cur :: P -> i <> start ->
    exists j, side b rs (negb (leave s0 i)) i = Ok (inr j) /\ j ∈ P;
}.

Lemma boundary_path_spec s0 start e0 old fuel visited P cur :
  side b rs (negb (leave s0 start)) start = Ok (inl e0) -> closed old ->
  passing s0 start old visited P cur -> length b <= length P + fuel ->
  exists last sl visited' (P' : list nat), boundary_path fuel b rs visited cur (leave s0 cur) = Ok (last, visited') /\
    side b rs (leave s0 sl) sl = Ok (inl last) /\ sl ∈ P' /\ cur ∈ P' /\ length visited' = length b /\
    (forall i, marked visited' i <-> marked old i \/ i ∈ P') /\ (forall i, i ∈ P' -> ~ marked old i) /\
    (forall i e j, i ∈ P' -> side b rs e i = Ok (inr j) -> j ∈ P') /\
    (forall i e x, i ∈ P' -> side b rs e i = Ok (inl x) ->
       i = start /\ e = negb (leave s0 start) \/ i = sl /\ e = leave s0 sl).
Proof.
  intros He0 Hold. revert visited P cur. induction fuel as [|fuel IH]; intros visited P cur Hp Hfuel.
  { exfalso. assert (NoDup (cur :: P)) as Hnd by (constructor; apply Hp).
    assert (Hlt : cur :: P ⊆ seq 0 (length b)).
    { intros i Hi. apply elem_of_seq. pose proof (pg_lt _ _ _ _ _ _ Hp i Hi). lia. }
    apply NoDup_submseteq in Hlt; [|done]. apply submseteq_length in Hlt.
    rewrite length_seq in Hlt. cbn in Hlt. lia. }
  cbn [boundary_path]. assert (Hcur : cur < length b) by (apply (pg_lt _ _ _ _ _ _ Hp); left).
  rewrite vec_set_lt by (rewrite (pg_len _ _ _ _ _ _ Hp); done). cbn [mbind outcome_bind].
  assert (Hmarks : forall i, marked (<[cur := true]> visited) i <-> marked old i \/ i ∈ cur :: P).
  { intros i. unfold marked. destruct (decide (i = cur)) as [->|].
    - rewrite list_lookup_insert_eq by (rewrite (pg_len _ _ _ _ _ _ Hp); done).
      split; [intros _; right; left|done].
    - rewrite list_lookup_insert_ne by done. fold (marked visited i). rewrite (pg_marks _ _ _ _ _ _ Hp).
      rewrite elem_of_cons. naive_solver. }
  destruct (side_total cur (leave s0 cur) Hcur) as ([last|j] & Hs); rewrite Hs; cbn [mbind outcome_bind].
  - exists last, cur, (<[cur := true]> visited), (cur :: P). split; [done|]. split; [done|]. split; [left|]. split; [left|].
    split; [rewrite length_insert; apply Hp|]. split; [done|]. split; [apply Hp|]. split.
    + intros i e j Hi Hij. destruct (decide (e = leave s0 i)) as [->|Hne].
      * apply elem_of_cons in Hi as [->|Hi]; [congruence|].
        destruct (pg_next _ _ _ _ _ _ Hp i Hi) as (j' & Hj' & ?). by assert (j = j') as -> by congruence.
      * assert (e = negb (leave s0 i)) as -> by (destruct e, (leave s0 i); done).
        destruct (decide (i = start)) as [->|Hst]; [congruence|].
        destruct (pg_prev _ _ _ _ _ _ Hp i Hi Hst) as (j' & Hj' & ?). right. by assert (j = j') as -> by congruence.
    + intros i e x Hi Hix. destruct (decide (e = leave s0 i)) as [->|Hne].
      * right. apply elem_of_cons in Hi as [->|Hi]; [done|].
        destruct (pg_next _ _ _ _ _ _ Hp i Hi) as (j' & Hj' & ?). congruence.
      * assert (e = negb (leave s0 i)) as -> by (destruct e, (leave s0 i); done). left.
        destruct (decide (i = start)) as [->|Hst]; [done|].
        destruct (pg_prev _ _ _ _ _ _ Hp i Hi Hst) as (j' & Hj' & ?). congruence.
  - destruct (side_sym _ _ _ Hs) as [Hback Hsg]. pose proof (leave_next s0 cur j Hsg) as Hlj.
    replace (negb (leave s0 cur)) with (leave s0 j).
    assert (Hback' : side b rs (negb (leave s0 j)) j = Ok (inr cur)) by (by rewrite Hlj, negb_involutive).
    assert (Hj : ~ marked old j).
    { intros Hm. apply (pg_new _ _ _ _ _ _ Hp cur); [left|]. by eapply Hold. }
    assert (Hst : j <> start) by (intros ->; congruence).
    assert (HjP : j ∉ cur :: P).
    { intros Hin. destruct (pg_prev _ _ _ _ _ _ Hp j Hin Hst) as (y & Hy & HyP).
      assert (y = cur) as -> by congruence. by apply (pg_cur _ _ _ _ _ _ Hp). }
    destruct (IH (<[cur := true]> visited) (cur :: P) j) as (last & sl & v' & P' & Hrun & ? & ? & HjP' & ? & Hm' & ? & Hcl & ?).
    + split.
      * done.
      * intros i [->|Hi]%elem_of_cons; [done|]. by apply (pg_new _ _ _ _ _ _ Hp).
      * done.
      * constructor; apply Hp.
      * rewrite length_insert. apply Hp.
      * intros i [->|Hi]%elem_of_cons; [|by apply (pg_lt _ _ _ _ _ _ Hp)]. by apply side_lt in Hback.
      * intros i [->|Hi]%elem_of_cons; [exists j; split; [done|left]|].
        destruct (pg_next _ _ _ _ _ _ Hp i Hi) as (j' & ? & ?). exists j'. split; [done|]. by right.
      * intros i [->|Hi]%elem_of_cons Hi'; [exists cur; split; [done|left]|].
        destruct (pg_prev _ _ _ _ _ _ Hp i Hi Hi') as (j' & ? & ?). exists j'. split; [done|]. by right.
    + cbn. lia.
    + exists last, sl, v', P'. split; [done|]. split; [done|]. split; [done|]. split; [|done].
      by apply (Hcl j (negb (leave s0 j))).
Qed.

(** ** Attaching *)

(** The ports that the ends name: distinct, valid, unwired, and not the
    principal of an obligated cursor. *)
Definition is_end (i : nat) (e : bool) (sp : SignedPort) : Prop := side b rs e i = Ok (inl (EPort sp)).

Record attachable (N0 : RuntimeNet) (pending : option nat) : Prop := {
  at_graph : graph_ok N0;
  at_active : active_ok N0 pending;
  at_pending : forall k, pending = Some k -> k < next_node_id N0 /\ node_at N0 k = None;
  at_room : (Z.of_nat (next_node_id N0 + length b) <= u64_max)%Z;
  at_valid : forall i e sp, is_end i e sp -> valid N0 (port sp);
  at_free : forall i e sp, is_end i e sp -> reference N0 (port sp) = None;
  at_quiet : forall i e sp, is_end i e sp -> is_principal (port sp) = true -> ~ obligated N0 (node (port sp));
  at_inj : forall i e sp i' e' sp', is_end i e sp -> is_end i' e' sp' -> port sp = port sp' -> i = i' /\ e = e';
}.

(** What holds when the sockets marked in [visited] have been attached. *)
Record attached (N0 : RuntimeNet) (pending : option nat) (count : nat) (N : RuntimeNet) (visited : list bool) : Prop := {
  ad_graph : graph_ok N;
  ad_active : active_ok N pending;
  ad_next : next_node_id N0 <= next_node_id N <= next_node_id N0 + count;
  ad_rest : same_rest N0 N;
  ad_obligations : cursor_obligations N = cursor_obligations N0;
  ad_states : states_kept N0 N;
  ad_old : forall m, m < next_node_id N0 -> node_at N m = node_at N0 m;
  ad_erasers : forall m k, next_node_id N0 <= m -> node_at N m = Some k ->
    k = RErase /\ is_Some (reference N (principal m));
  ad_frame : forall p, node p < next_node_id N0 ->
    (forall i e sp, marked visited i -> is_end i e sp -> port sp <> p) -> reference N p = reference N0 p;
  ad_ends : forall i e sp, marked visited i -> is_end i e sp ->
    exists q, reference N (port sp) = Some q /\ sign q = opposite (sign sp);
  ad_closed : closed visited;
  ad_length : length visited = length b;
}.

Context (N0 : RuntimeNet) (pending : option nat).
Hypothesis A : attachable N0 pending.

(** The facts about an end whose socket is not attached yet. *)
Lemma pending_end N visited count i e sp :
  attached N0 pending count N visited -> ~ marked visited i -> is_end i e sp ->
  node (port sp) < next_node_id N0 /\ valid N (port sp) /\ reference N (port sp) = None /\
  (is_principal (port sp) = true -> ~ obligated N (node (port sp))).
Proof.
  intros D Hm He. destruct (at_valid _ _ A _ _ _ He) as (k & Hk & Hi).
  assert (Hlt : node (port sp) < next_node_id N0) by (apply (go_fresh _ (at_graph _ _ A)); by rewrite Hk).
  split; [done|]. split; [exists k; by rewrite (ad_old _ _ _ _ _ D)|]. split.
  - rewrite (ad_frame _ _ _ _ _ D); [by apply (at_free _ _ A i e)|done|].
    intros i' e' sp' Hm' He' Heq. destruct (at_inj _ _ A _ _ _ _ _ _ He' He Heq) as [-> _]. done.
  - unfold obligated. rewrite (ad_obligations _ _ _ _ _ D). by apply (at_quiet _ _ A i e).
Qed.

Lemma pending_gone N visited count k :
  attached N0 pending count N visited -> pending = Some k -> k < next_node_id N /\ node_at N k = None.
Proof.
  intros D Hp. destruct (at_pending _ _ A _ Hp). rewrite (ad_old _ _ _ _ _ D) by done.
  pose proof (ad_next _ _ _ _ _ D). split; [lia|done].
Qed.

(** Joining two ends changes the links of their ports only, and adds at most
    one eraser. *)
Record joined (N N' : RuntimeNet) (first last : BoundaryEndpoint) : Prop := {
  jn_graph : graph_ok N';
  jn_active : active_ok N' pending;
  jn_next : next_node_id N <= next_node_id N' <= next_node_id N + 1;
  jn_rest : same_rest N N';
  jn_obligations : cursor_obligations N' = cursor_obligations N;
  jn_states : states_kept N N';
  jn_old : forall m, m < next_node_id N -> node_at N' m = node_at N m;
  jn_new : forall m k, next_node_id N <= m -> node_at N' m = Some k ->
    k = RErase /\ is_Some (reference N' (principal m));
  jn_keep : forall p, node p < next_node_id N ->
    (forall sp, first = EPort sp -> port sp <> p) -> (forall sp, last = EPort sp -> port sp <> p) ->
    reference N' p = reference N p;
  jn_ends : forall sp, first = EPort sp \/ last = EPort sp ->
    exists q, reference N' (port sp) = Some q /\ sign q = opposite (sign sp);
}.

(** A port that an end names, ready to be wired. *)
Record ready (N : RuntimeNet) (sp : SignedPort) : Prop := {
  rd_valid : valid N (port sp);
  rd_free : reference N (port sp) = None;
  rd_quiet : is_principal (port sp) = true -> ~ obligated N (node (port sp));
}.

Lemma join_ports N sp sp' :
  graph_ok N -> active_ok N pending -> (forall k, pending = Some k -> node_at N k = None) ->
  ready N sp -> ready N sp' -> port sp <> port sp' -> sign sp = opposite (sign sp') ->
  exists N', join_boundary_endpoints N (EPort sp) (EPort sp') = Ok N' /\ joined N N' (EPort sp) (EPort sp').
Proof.
  intros G Ha Hpend R R' Hne Hs. cbn [join_boundary_endpoints].
  assert (C : connectable N sp sp' pending) by (split; try done; try apply R; try apply R').
  destruct (wire_ok N sp sp' pending C) as (N' & -> & G' & A' & (Hn & Hr & Hx & Hre) & Ho & Hst & _).
  exists N'. split; [done|]. split; try done.
  - lia.
  - intros m k Hm Hk. rewrite Hn in Hk. pose proof (go_fresh _ G m ltac:(by rewrite Hk)). lia.
  - intros p _ H1 H2. specialize (H1 sp eq_refl). specialize (H2 sp' eq_refl).
    rewrite Hr, !decide_False by congruence. done.
  - intros s [[= <-]|[= <-]]; rewrite Hr.
    + exists sp'. rewrite decide_True by done. split; [done|]. by rewrite Hs, opposite_opposite.
    + exists sp. by rewrite decide_False, decide_True by congruence.
Qed.

Lemma erase_port N sp :
  graph_ok N -> active_ok N pending ->
  (forall k, pending = Some k -> k < next_node_id N /\ node_at N k = None) ->
  (Z.of_nat (next_node_id N) < u64_max)%Z -> ready N sp ->
  exists N', ('(N1, erase) ← add_node N RErase; bind_reference N1 (principal erase) sp) = Ok N' /\
    forall first last, first = EPort sp /\ last = EErase \/ first = EErase /\ last = EPort sp -> joined N N' first last.
Proof.
  intros G Ha Hpend Hroom R.
  destruct (add_node_spec N RErase G Hroom) as (N1 & -> & G1 & Hn1 & Hr1 & Hx1 & Hre1 & Ha1 & Ho1).
  cbn [mbind outcome_bind]. unfold bind_reference.
  assert (Hlt : node (port sp) < next_node_id N).
  { destruct (rd_valid _ _ R) as (k & Hk & _). apply (go_fresh _ G). by rewrite Hk. }
  assert (Hunw : forall i, reference N (MkPort (next_node_id N) i) = None).
  { intros i. apply reference_invalid. intros (k & Hk & _). cbn in Hk.
    pose proof (go_fresh _ G (next_node_id N) ltac:(by rewrite Hk)). lia. }
  assert (C : connectable N1 (MkSignedPort (principal (next_node_id N)) (opposite (sign sp))) sp pending).
  { split; cbn [port sign]; try done.
    - intros k. rewrite Ha1. rewrite (Ha k). unfold pwire. setoid_rewrite Hr1. done.
    - intros k Hk. destruct (Hpend k Hk). rewrite Hn1, decide_False by lia. done.
    - intros Heq. rewrite <- Heq in Hlt. cbn in Hlt. lia.
    - exists RErase. cbn. rewrite Hn1, decide_True by done. split; [done|lia].
    - destruct (rd_valid _ _ R) as (k & Hk & Hi). exists k. rewrite Hn1, decide_False by lia. done.
    - rewrite Hr1. apply Hunw.
    - rewrite Hr1. apply R.
    - intros _. unfold obligated. rewrite Ho1. intros [o Hob]. cbn in Hob.
      destruct (go_obligations _ G _ _ Hob) as (_ & (c & r & Hc) & _).
      pose proof (go_fresh _ G (next_node_id N) ltac:(by rewrite Hc)). lia.
    - unfold obligated. rewrite Ho1. apply R. }
  destruct (wire_ok _ _ _ _ C) as (N' & -> & G' & A' & (Hn & Hr & Hx & Hre) & Ho & Hst & _).
  exists N'. split; [done|]. cbn [port sign] in *. intros first last Hfl.
    assert (Hend : exists q, reference N' (port sp) = Some q /\ sign q = opposite (sign sp)).
    { rewrite Hr. rewrite decide_False, decide_True by (try done; intros Heq; rewrite Heq in Hlt; cbn in Hlt; lia).
      eexists. split; [done|]. done. }
    split; try done.
    + lia.
    + by eapply same_rest_trans.
    + congruence.
    + eapply states_kept_trans; [by apply states_kept_refl|done].
    + intros m Hm. rewrite Hn, Hn1, decide_False by lia. done.
    + intros m k Hm Hk. rewrite Hn, Hn1 in Hk. case_decide as Hc.
      * subst m. injection Hk as <-. split; [done|]. rewrite Hr, decide_True by done. done.
      * pose proof (go_fresh _ G m ltac:(by rewrite Hk)). lia.
    + intros p Hp H1 H2. assert (Hpsp : port sp <> p) by naive_solver.
      rewrite Hr, decide_False, decide_False, Hr1; [done|congruence|].
      intros ->. cbn in Hp. lia.
    + intros s Hs. assert (s = sp) as -> by naive_solver. done.
Qed.

(** Attaching a whole path keeps [attached]. *)
Lemma attached_path N N' visited visited' count start e first sl last (P : list nat) s0 :
  attached N0 pending count N visited -> joined N N' first last ->
  s0 = esign start e -> e = negb (leave s0 start) ->
  side b rs e start = Ok (inl first) -> side b rs (leave s0 sl) sl = Ok (inl last) ->
  start ∈ P -> sl ∈ P -> length visited' = length b ->
  (forall i, marked visited' i <-> marked visited i \/ i ∈ P) -> (forall i, i ∈ P -> ~ marked visited i) ->
  (forall i e j, i ∈ P -> side b rs e i = Ok (inr j) -> j ∈ P) ->
  (forall i e x, i ∈ P -> side b rs e i = Ok (inl x) ->
     i = start /\ e = negb (leave s0 start) \/ i = sl /\ e = leave s0 sl) ->
  attached N0 pending (count + 1) N' visited'.
Proof.
  intros D J Hs0 He Hfirst Hlast HstP HslP Hlen Hmarks Hnew Hcl Hends.
  pose proof (ad_next _ _ _ _ _ D) as Hnx. pose proof (jn_next _ _ _ _ J) as Hnx'.
  assert (Hnode : forall i e sp, is_end i e sp -> node (port sp) < next_node_id N).
  { intros i e' sp Hsp. destruct (at_valid _ _ A _ _ _ Hsp) as (k & Hk & _).
    pose proof (go_fresh _ (at_graph _ _ A) _ ltac:(by rewrite Hk)). lia. }
  assert (Hother : forall i e' sp, marked visited i -> is_end i e' sp ->
            (forall s, first = EPort s -> port s <> port sp) /\ (forall s, last = EPort s -> port s <> port sp)).
  { intros i e' sp Hm Hsp. split; intros s -> Heq; (apply (Hnew i); [|done]).
    - by destruct (at_inj _ _ A _ _ _ _ _ _ Hfirst Hsp Heq) as [<- _].
    - by destruct (at_inj _ _ A _ _ _ _ _ _ Hlast Hsp Heq) as [<- _]. }
  split; try apply J.
  - lia.
  - eapply same_rest_trans; [apply D|apply J].
  - rewrite (jn_obligations _ _ _ _ J). apply D.
  - eapply states_kept_trans; [apply D|apply J].
  - intros m Hm. rewrite (jn_old _ _ _ _ J) by lia. by apply D.
  - intros m k Hm Hk. destruct (decide (m < next_node_id N)) as [Hlt|].
    + rewrite (jn_old _ _ _ _ J) in Hk by done. destruct (ad_erasers _ _ _ _ _ D m k Hm Hk) as [-> Href].
      split; [done|]. rewrite (jn_keep _ _ _ _ J); [done|done|..]; intros s -> Heq.
      * pose proof (at_valid _ _ A _ _ _ Hfirst) as (k & Hk' & _). rewrite Heq in Hk'.
        pose proof (go_fresh _ (at_graph _ _ A) _ ltac:(by rewrite Hk')) as Hfr. cbn in Hfr. lia.
      * pose proof (at_valid _ _ A _ _ _ Hlast) as (k & Hk' & _). rewrite Heq in Hk'.
        pose proof (go_fresh _ (at_graph _ _ A) _ ltac:(by rewrite Hk')) as Hfr. cbn in Hfr. lia.
    + apply (jn_new _ _ _ _ J); [lia|done].
  - intros p Hp Hno. rewrite (jn_keep _ _ _ _ J).
    + apply (ad_frame _ _ _ _ _ D); [done|]. intros i e' sp Hm. apply Hno. rewrite Hmarks. by left.
    + lia.
    + intros s ->. apply (Hno start e); [rewrite Hmarks; by right|done].
    + intros s ->. apply (Hno sl (leave s0 sl)); [rewrite Hmarks; by right|done].
  - intros i e' sp Hm Hsp. apply Hmarks in Hm as [Hm|HiP].
    + destruct (Hother i e' sp Hm Hsp) as [H1 H2]. rewrite (jn_keep _ _ _ _ J); [by eapply (ad_ends _ _ _ _ _ D)|by eapply Hnode|done|done].
    + apply (jn_ends _ _ _ _ J). destruct (Hends _ _ _ HiP Hsp) as [[-> ->]|[-> ->]].
      * left. unfold is_end in Hsp. rewrite <- He in Hsp. congruence.
      * right. unfold is_end in Hsp. congruence.
  - intros i e' j. rewrite !Hmarks. intros [Hm|HiP] Hij; [left|right].
    + by eapply (ad_closed _ _ _ _ _ D).
    + by eapply Hcl.
  - done.
Qed.

(** The two ends of a path can be joined. *)
Lemma join_ends N visited count start e first sl last :
  attached N0 pending count N visited -> (Z.of_nat (next_node_id N) < u64_max)%Z ->
  ~ marked visited start -> ~ marked visited sl ->
  side b rs e start = Ok (inl first) -> side b rs (leave (esign start e) sl) sl = Ok (inl last) ->
  exists N', join_boundary_endpoints N first last = Ok N' /\ joined N N' first last.
Proof.
  intros D Hroom Hst Hsl Hf Hl.
  assert (Hpend : forall k, pending = Some k -> k < next_node_id N /\ node_at N k = None).
  { intros k Hk. by eapply pending_gone. }
  assert (Hready : forall i e sp, ~ marked visited i -> side b rs e i = Ok (inl (EPort sp)) -> ready N sp).
  { intros i e' sp Hm Hsp. destruct (pending_end _ _ _ _ _ _ D Hm Hsp) as (_ & ? & ? & ?). done. }
  destruct first as [sp|], last as [sp'|].
  - apply join_ports; try apply D; [|by apply (Hready start e)|by apply (Hready sl _ sp' Hsl Hl)| |].
    + intros k Hk. by apply Hpend.
    + intros Heq. destruct (at_inj _ _ A _ _ _ _ _ _ Hf Hl Heq) as [-> He].
      rewrite leave_start in He. by destruct e.
    + rewrite (side_port_sign _ _ _ Hf), (side_port_sign _ _ _ Hl).
      destruct (leave_sign (esign start e) sl) as [-> _]. by rewrite opposite_opposite.
  - destruct (erase_port N sp) as (N' & HN' & HJ); try apply D; try done; [by apply (Hready start e)|].
    exists N'. split; [done|]. apply HJ. by left.
  - destruct (erase_port N sp') as (N' & HN' & HJ); try apply D; try done; [by apply (Hready sl _ sp' Hsl Hl)|].
    exists N'. split; [done|]. apply HJ. by right.
  - exists N. split; [done|]. split; try apply D; try done.
    + lia.
    + by apply states_kept_refl.
    + intros m k Hm Hk. pose proof (go_fresh _ (ad_graph _ _ _ _ _ D) m ltac:(by rewrite Hk)). lia.
    + by intros s [?|?].
Qed.

Lemma attach_from_spec N visited count start e :
  attached N0 pending count N visited -> count < length b -> start < length b ->
  exists N' visited', attach_from b rs start (N, visited) e = Ok (N', visited') /\
    (N' = N /\ visited' = visited /\ (marked visited start \/ exists j, side b rs e start = Ok (inr j)) \/
     attached N0 pending (count + 1) N' visited' /\ ~ marked visited start /\ marked visited' start /\
     forall i, marked visited i -> marked visited' i).
Proof.
  intros D Hcount Hst. unfold attach_from.
  destruct (vec_get_lt (E:=Empty_set) visited start) as (v & Hv & ->); [rewrite (ad_length _ _ _ _ _ D); done|].
  cbn [mbind outcome_bind]. destruct v; [exists N, visited; split; [done|]; left; naive_solver|].
  assert (Hnm : ~ marked visited start) by (unfold marked; congruence).
  destruct (side_total start e Hst) as ([first|j] & Hf); rewrite Hf; cbn [mbind outcome_bind];
    [|exists N, visited; split; [done|]; left; naive_solver].
  set (s0 := esign start e). assert (He : negb e = leave s0 start) by (unfold s0; by rewrite leave_start).
  rewrite He.
  destruct (boundary_path_spec s0 start first visited (length b) visited [] start)
    as (last & sl & visited' & P & -> & Hl & HslP & HstP & Hlen & Hmarks & Hnew & Hcl & Hends).
  { rewrite <- He, negb_involutive. done. }
  { apply D. }
  { split; try done; try apply D.
    - intros i. set_solver.
    - intros i [->|Hi]%elem_of_cons; [done|by apply not_elem_of_nil in Hi].
    - by apply not_elem_of_nil.
    - constructor.
    - intros i [->|Hi]%elem_of_cons; [done|by apply not_elem_of_nil in Hi].
    - intros i Hi. by apply not_elem_of_nil in Hi.
    - intros i [->|Hi]%elem_of_cons; [done|by apply not_elem_of_nil in Hi]. }
  { lia. }
  cbn [mbind outcome_bind].
  destruct (join_ends N visited count start e first sl last) as (N' & -> & J); try done.
  { pose proof (at_room _ _ A). pose proof (ad_next _ _ _ _ _ D). lia. }
  { by apply Hnew. }
  cbn [mbind outcome_bind]. exists N', visited'. split; [done|]. right. split; [|split; [done|]].
  - eapply (attached_path N N' visited visited' count start e first sl last P s0); try done.
    by rewrite <- He, negb_involutive.
  - split; [apply Hmarks; by right|]. intros i Hi. apply Hmarks. by left.
Qed.

Lemma attached_weaken N visited count count' :
  attached N0 pending count N visited -> count <= count' -> attached N0 pending count' N visited.
Proof. intros D Hle. split; try apply D. pose proof (ad_next _ _ _ _ _ D). lia. Qed.

Lemma attach_start N visited count start :
  attached N0 pending count N visited -> count < length b -> start < length b ->
  exists N' visited', foldM (attach_from b rs start) (N, visited) [false; true] = Ok (N', visited') /\
    attached N0 pending (count + 1) N' visited' /\ (forall i, marked visited i -> marked visited' i) /\
    (forall e sp, is_end start e sp -> marked visited' start).
Proof.
  intros D Hc Hst. cbn [foldM].
  destruct (attach_from_spec N visited count start false D Hc Hst) as (N1 & v1 & -> & H1).
  cbn [mbind outcome_bind]. destruct H1 as [(-> & -> & H1)|(D1 & Hnm & Hm1 & Hmono1)].
  - destruct (attach_from_spec N visited count start true D Hc Hst) as (N2 & v2 & -> & H2).
    cbn [mbind outcome_bind]. exists N2, v2. split; [done|]. destruct H2 as [(-> & -> & H2)|(D2 & Hnm & Hm2 & Hmono2)].
    + split; [apply (attached_weaken _ _ count); [done|lia]|]. split; [done|]. intros e sp Hsp. unfold is_end in Hsp.
      destruct H1 as [?|[j Hj]]; [done|]. destruct H2 as [?|[j' Hj']]; [done|]. destruct e; congruence.
    + done.
  - assert (Hseen : vec_get (E:=Empty_set) v1 start = Ok true) by (by apply vec_get_Ok).
    unfold attach_from. rewrite Hseen. cbn [mbind outcome_bind]. exists N1, v1. done.
Qed.

Lemma attach_spec :
  exists N visited, attach_boundary N0 b rs = Ok N /\ attached N0 pending (length b) N visited /\
    forall i e sp, is_end i e sp -> marked visited i.
Proof.
  unfold attach_boundary. rewrite bool_decide_true by apply B. cbn [rust_assert mbind outcome_bind].
  destruct (foldM_inv (fun st start => foldM (attach_from b rs start) st [false; true])
    (fun seen '(N, visited) => attached N0 pending (length seen) N visited /\
       forall i e sp, i ∈ seen -> is_end i e sp -> marked visited i)
    (seq 0 (length b)) (N0, replicate (length b) false)) as ([N visited] & Hrun & D & Hall).
  - split.
    + split; try apply A; try done.
      * cbn. lia.
      * by apply states_kept_refl.
      * intros m k Hm Hk. pose proof (go_fresh _ (at_graph _ _ A) m ltac:(by rewrite Hk)). lia.
      * intros i e sp Hm _. exfalso. unfold marked in Hm. by apply lookup_replicate in Hm as [? _].
      * intros i e j Hm _. exfalso. unfold marked in Hm. by apply lookup_replicate in Hm as [? _].
      * apply length_replicate.
    + intros i e sp Hi. by apply not_elem_of_nil in Hi.
  - intros seen start rest [N visited] Hseq [D Hall].
    assert (Hst : start < length b /\ length seen < length b).
    { assert (seq 0 (length b) !! length seen = Some start) as Hl by (rewrite Hseq; by rewrite list_lookup_middle).
      apply lookup_seq in Hl as [-> ?]. lia. }
    destruct (attach_start N visited (length seen) start D) as (N' & v' & Hrun & D' & Hmono & Hst'); [lia..|].
    exists (N', v'). split; [done|]. rewrite length_app. split; [done|].
    intros i e sp [Hi|Hi%list_elem_of_singleton]%elem_of_app Hsp; [by eapply Hmono, Hall|subst i; by eapply Hst'].
  - rewrite Hrun. cbn [mbind outcome_bind]. exists N, visited. split; [done|]. rewrite length_seq in D.
    split; [done|]. intros i e sp Hsp. eapply Hall; [|done]. apply elem_of_seq. apply side_lt in Hsp. lia.
Qed.

End paths.
