(* ===== verification/Rewrite.v ===== *)
(** * Rewriting active pairs ([src/interaction_net/runtime/rewrite.rs], [reduce_pair] of [runtime.rs])

    The rules that rewrite an active pair of ordinary agents, and the
    dispatch that claims a ready pair and applies its rule. [net_wf] is the
    invariant of a runtime net: symmetric links of opposite signs, every port
    wired, every node's polarity rule, an active map that holds exactly the
    principal-to-principal wires, and copies and cursors that name each
    other. Every rule keeps it, removes only its pair, and leaves the wires
    between surviving nodes alone. *)
From stdpp Require Import base option list numbers gmap tactics.
From Stdlib Require Import ZArith Lia.
From S2P Require Import Prelude NetModel RuntimeGraph Boundary.

Inductive AuxiliaryPairing := Positional | Crossed.

Inductive CursorProgress :=
  | CpClaimed
  | CpMaterialized (n : nat)
  | CpJoined
  | CpBlocked.

#[export] Instance CursorProgress_eq_dec : EqDecision CursorProgress.
Proof. solve_decision. Defined.

Inductive ReductionKind :=
  | BindJoin
  | FanJoin (identity : FanIdentity)
  | FanCommute (l r : FanIdentity)
  | FanData (identity : FanIdentity)
  | FanBind (identity : FanIdentity)
  | FanOperator (identity : FanIdentity)
  | KErase
  | KCall (bind data : nat)
  | KCallableCheckpoint (bind checkpoint : nat)
  | KOperatorCall (operator data : nat)
  | KRemoteCursor (cursor : nat) (progress : CursorProgress)
  | KStuck.

Record Reduction := MkReduction { red_pair : nat; red_kind : ReductionKind }.

Inductive CursorClaimOwner := OwnActivePair (key : nat) | OwnObligation.

#[export] Instance CursorClaimOwner_eq_dec : EqDecision CursorClaimOwner.
Proof. solve_decision. Defined.

Section rules.
Context {S : NetSpecialization}.

(** ** The rules *)
Definition join_replacements (pairing : AuxiliaryPairing) (sockets : nat) : list BoundaryReplacement :=
  (fun socket => RSocket (match pairing with
                          | Positional => (socket + sockets / 2) mod sockets
                          | Crossed => sockets - 1 - socket
                          end)) <$> seq 0 sockets.

Definition rt_join (N : RuntimeNet) (left right auxiliaries : nat) (pairing : AuxiliaryPairing) : M RuntimeNet :=
  '(N, _) ← disconnect N (principal left);
  ls ← auxiliary_ports left auxiliaries;
  rs ← auxiliary_ports right auxiliaries;
  '(N, boundary) ← detach_boundary N (ls ++ rs);
  '(N, _) ← remove_node N left;
  '(N, _) ← remove_node N right;
  attach_boundary N boundary (join_replacements pairing (length boundary)).

Fixpoint add_nodes (N : RuntimeNet) (ks : list (RuntimeNode Data Operator Checkpoint)) : M (RuntimeNet * list nat) :=
  match ks with
  | [] => Ok (N, [])
  | k :: ks => '(N, n) ← add_node N k; '(N, ns) ← add_nodes N ks; Ok (N, n :: ns)
  end.

Definition duplicate_data_rule {P : PayloadDuplicator S} (N : RuntimeNet) (fan data : nat) : M RuntimeNet :=
  '(N, _) ← disconnect N (principal fan);
  ports ← auxiliary_ports fan 2;
  '(N, boundary) ← detach_boundary N ports;
  '(N, removed) ← remove_node N data;
  match removed with
  | RData payload =>
      '(N, _) ← remove_node N fan;
      '(N, clones) ← add_nodes N (replicate (length boundary) (RData (duplicate_data payload)));
      attach_boundary N boundary ((fun clone => RPort (principal clone)) <$> clones)
  | _ => Panic
  end.

(** Wires auxiliary [aux] of each copy to the residual's branches in order;
    each copy keeps the sign [s] of the original's auxiliary. *)
Definition wire_copies (N : RuntimeNet) (copied : list nat) (aux residual : nat) (s : Sign) : M RuntimeNet :=
  foldM (fun N '(branch, copy) =>
           l ← auxiliary copy aux;
           r ← auxiliary residual (branch + 1);
           rt_wire N (MkSignedPort l s) (MkSignedPort r (opposite s)))
    N (imap pair copied).

Definition duplicate_bind (N : RuntimeNet) (fan : nat) (identity : FanIdentity) (bind : nat) : M RuntimeNet :=
  '(N, _) ← disconnect N (principal fan);
  fs ← auxiliary_ports fan 2;
  bs ← auxiliary_ports bind 2;
  '(N, boundary) ← detach_boundary N (fs ++ bs);
  '(N, _) ← remove_node N fan;
  '(N, _) ← remove_node N bind;
  '(N, binds) ← add_nodes N [RBind; RBind];
  '(N, residuals) ← foldM (fun '(N, residuals) aux =>
      '(N, residual) ← add_node N (RFan identity);
      s ← socket_sign boundary (2 + aux);
      N ← wire_copies N binds (aux + 1) residual s;
      Ok (N, residuals ++ [residual])) (N, []) (seq 0 2);
  attach_boundary N boundary ((fun n => RPort (principal n)) <$> binds ++ residuals).

Definition duplicate_operator_rule {P : PayloadDuplicator S} (N : RuntimeNet) (fan : nat)
    (identity : FanIdentity) (operator : nat) : M RuntimeNet :=
  '(N, _) ← disconnect N (principal fan);
  fs ← auxiliary_ports fan 2;
  os ← auxiliary_ports operator 1;
  '(N, boundary) ← detach_boundary N (fs ++ os);
  '(N, removed) ← remove_node N operator;
  match removed with
  | ROperator o =>
      '(N, _) ← remove_node N fan;
      '(N, operators) ← add_nodes N (replicate 2 (ROperator (duplicate_operator o)));
      '(N, residual) ← add_node N (RFan identity);
      s ← socket_sign boundary 2;
      N ← wire_copies N operators 1 residual s;
      attach_boundary N boundary ((fun n => RPort (principal n)) <$> operators ++ [residual])
  | _ => Panic
  end.

Definition commute_fans (N : RuntimeNet) (left : nat) (left_identity : FanIdentity) (right : nat)
    (right_identity : FanIdentity) : M RuntimeNet :=
  '(N, _) ← disconnect N (principal left);
  ls ← auxiliary_ports left 2;
  rs ← auxiliary_ports right 2;
  '(N, boundary) ← detach_boundary N (ls ++ rs);
  '(N, _) ← remove_node N left;
  '(N, _) ← remove_node N right;
  '(N, right_fans) ← add_nodes N ((fun branch => RFan (residual right_identity left_identity branch)) <$> [0%Z; 1%Z]);
  '(N, left_fans) ← add_nodes N ((fun branch => RFan (residual left_identity right_identity branch)) <$> [0%Z; 1%Z]);
  right_branch_sign ← socket_sign boundary 2;
  N ← foldM (fun N '(left_branch, right_fan) =>
        foldM (fun N '(right_branch, left_fan) =>
            l ← auxiliary right_fan (right_branch + 1);
            r ← auxiliary left_fan (left_branch + 1);
            rt_wire N (MkSignedPort l right_branch_sign) (MkSignedPort r (opposite right_branch_sign)))
          N (imap pair left_fans))
      N (imap pair right_fans);
  attach_boundary N boundary ((fun n => RPort (principal n)) <$> right_fans ++ left_fans).

Definition erase (N : RuntimeNet) (eraser other : nat) : M RuntimeNet :=
  '(N, _) ← disconnect N (principal eraser);
  k ← expect (node_at N other);
  auxiliaries ← match k with
                | RBind | RFan _ => Ok 2
                | ROperator _ => Ok 1
                | RErase | RData _ => Ok 0
                | RInterface | RCallableCheckpoint _ | RRemoteCursor _ _ => Panic
                end;
  ports ← auxiliary_ports other auxiliaries;
  '(N, boundary) ← detach_boundary N ports;
  '(N, _) ← remove_node N eraser;
  '(N, _) ← remove_node N other;
  attach_boundary N boundary (replicate (length boundary) REraser).

(** ** Claiming a cursor's pair *)
Definition cursor_claim_owner (N : RuntimeNet) (cursor : nat) : M (option CursorClaimOwner) :=
  let pair_owner := OwnActivePair <$> rt_active_pair_key N cursor in
  obligation_owner ← match cursor_obligations N !! cursor with
                     | None => Ok None
                     | Some obligation =>
                         _ ← rust_assert (bool_decide (ob_cursor obligation = cursor));
                         Ok (Some OwnObligation)
                     end;
  _ ← rust_assert (bool_decide (pair_owner = None) || bool_decide (obligation_owner = None));
  Ok (match pair_owner with Some o => Some o | None => obligation_owner end).

Definition cursor_claim_is_in_flight (N : RuntimeNet) (cursor : nat) : M bool :=
  owner ← cursor_claim_owner N cursor;
  Ok (match owner with
      | Some (OwnActivePair key) =>
          match active N !! key with Some state => ap_is_claimed state | None => false end
      | Some OwnObligation =>
          match cursor_obligations N !! cursor with
          | Some obligation => pc_is_claimed (ob_state obligation)
          | None => false
          end
      | None => false
      end).

Definition ensure_pairless_cursor_obligation (N : RuntimeNet) (cursor : nat) : M (RuntimeNet * bool) :=
  _ ← rust_assert (match node_at N cursor with Some (RRemoteCursor _ _) => true | _ => false end);
  _ ← rust_assert (bool_decide (rt_active_pair_key N cursor = None));
  match cursor_obligations N !! cursor with
  | Some _ => Ok (N, false)
  | None =>
      Ok (with_obligations N (<[cursor := MkObligation cursor PcReady]> (cursor_obligations N)), true)
  end.

Definition claim_pairless_cursor_obligation (N : RuntimeNet) (cursor : nat) : RuntimeNet * bool :=
  match cursor_obligations N !! cursor with
  | Some (MkObligation c (PcReady | PcBlocked _)) =>
      (with_obligations N (<[cursor := MkObligation c PcClaimed]> (cursor_obligations N)), true)
  | _ => (N, false)
  end.

Definition begin_cursor_claim (N : RuntimeNet) (cursor : nat) (expected_pair : option nat)
    : M (RuntimeNet * option CursorProgress) :=
  let found := match expected_pair with Some key => Some key | None => rt_active_pair_key N cursor end in
  _ ← match expected_pair with
      | Some expected => rust_assert (bool_decide (found = Some expected))
      | None => Ok tt
      end;
  '(N, claimed) ← match found with
      | Some key =>
          match active N !! key with
          | Some ApReady | Some (ApBlockedCursor _ _) =>
              Ok (with_active N (<[key := ApClaimed]> (active N)), Some (OwnActivePair key))
          | Some ApClaimed =>
              Ok (N, if bool_decide (expected_pair = Some key) then Some (OwnActivePair key) else None)
          | _ => Ok (N, None)
          end
      | None =>
          '(N, _) ← ensure_pairless_cursor_obligation N cursor;
          let '(N, ok) := claim_pairless_cursor_obligation N cursor in
          Ok (N, if (ok : bool) then Some OwnObligation else None)
      end;
  match claimed with
  | None => Ok (N, None)
  | Some owner =>
      actual ← cursor_claim_owner N cursor;
      _ ← rust_assert (bool_decide (actual = Some owner));
      in_flight ← cursor_claim_is_in_flight N cursor;
      _ ← rust_assert in_flight;
      Ok (N, Some CpClaimed)
  end.

(** ** Dispatch *)
Definition is_cursor (k : RuntimeNode Data Operator Checkpoint) : bool :=
  match k with RRemoteCursor _ _ => true | _ => false end.
Definition is_checkpoint (k : RuntimeNode Data Operator Checkpoint) : bool :=
  match k with RCallableCheckpoint _ => true | _ => false end.

(** Whether a reduction ends its pair rather than leaving it claimed or
    stuck. *)
Definition consumes_pair (kind : ReductionKind) : bool :=
  match kind with
  | KCall _ _ | KCallableCheckpoint _ _ | KOperatorCall _ _ | KRemoteCursor _ _ | KStuck => false
  | _ => true
  end.

(** The rule of a pair of ordinary agents. *)
Definition apply_rule {P : PayloadDuplicator S} (N : RuntimeNet) (key left_id right_id : nat)
    (left right : RuntimeNode Data Operator Checkpoint) : M (RuntimeNet * ReductionKind) :=
  let stuck := Ok (with_active N (<[key := ApStuck NoRule]> (active N)), KStuck) in
  match left, right with
  | RBind, RBind => N ← rt_join N left_id right_id 2 Crossed; Ok (N, BindJoin)
  | RFan l, RFan r =>
      if decide (l = r) then N ← rt_join N left_id right_id 2 Positional; Ok (N, FanJoin l)
      else N ← commute_fans N left_id l right_id r; Ok (N, FanCommute l r)
  | RFan identity, RData _ => N ← duplicate_data_rule N left_id right_id; Ok (N, FanData identity)
  | RData _, RFan identity => N ← duplicate_data_rule N right_id left_id; Ok (N, FanData identity)
  | RFan identity, RBind => N ← duplicate_bind N left_id identity right_id; Ok (N, FanBind identity)
  | RBind, RFan identity => N ← duplicate_bind N right_id identity left_id; Ok (N, FanBind identity)
  | RFan identity, ROperator _ =>
      N ← duplicate_operator_rule N left_id identity right_id; Ok (N, FanOperator identity)
  | ROperator _, RFan identity =>
      N ← duplicate_operator_rule N right_id identity left_id; Ok (N, FanOperator identity)
  | RErase, _ => N ← erase N left_id right_id; Ok (N, KErase)
  | _, RErase => N ← erase N right_id left_id; Ok (N, KErase)
  | RBind, RData _ => Ok (N, KCall left_id right_id)
  | RData _, RBind => Ok (N, KCall right_id left_id)
  | ROperator _, RData _ => Ok (N, KOperatorCall left_id right_id)
  | RData _, ROperator _ => Ok (N, KOperatorCall right_id left_id)
  | RData _, RData _ => stuck
  | ROperator _, _ | _, ROperator _ => stuck
  | RInterface, _ | _, RInterface | RRemoteCursor _ _, _ | _, RRemoteCursor _ _
  | RCallableCheckpoint _, _ | _, RCallableCheckpoint _ => Panic
  end.

(** [reduce_pair_with_gateway]. *)
Definition reduce_pair {P : PayloadDuplicator S} (N : RuntimeNet) (key : nat) : M (RuntimeNet * option Reduction) :=
  if negb (match active N !! key with Some state => ap_is_ready state | None => false end) then Ok (N, None)
  else
    let N := with_active N (<[key := ApClaimed]> (active N)) in
    '(left_id, right_id) ← expect (pair_nodes N key);
    left ← expect (node_at N left_id);
    right ← expect (node_at N right_id);
    let cursor := if is_cursor left then Some left_id
                  else if is_cursor right then Some right_id else None in
    match cursor with
    | Some cursor =>
        '(N, claimed) ← begin_cursor_claim N cursor (Some key);
        progress ← expect claimed;
        Ok (N, Some (MkReduction key (KRemoteCursor cursor progress)))
    | None =>
        let checkpoint := match left, right with
                          | RBind, RCallableCheckpoint _ => Some (left_id, right_id)
                          | RCallableCheckpoint _, RBind => Some (right_id, left_id)
                          | _, _ => None
                          end in
        match checkpoint with
        | Some (bind, checkpoint) => Ok (N, Some (MkReduction key (KCallableCheckpoint bind checkpoint)))
        | None =>
            if is_checkpoint left || is_checkpoint right then
              Ok (with_active N (<[key := ApStuck NoRule]> (active N)), Some (MkReduction key KStuck))
            else
              left ← expect (duplicate_copyable duplicate_data duplicate_operator left);
              right ← expect (duplicate_copyable duplicate_data duplicate_operator right);
              '(N, kind) ← apply_rule N key left_id right_id left right;
              if consumes_pair kind then
                _ ← rust_assert (match active N !! key with Some state => ap_is_claimed state | None => false end);
                Ok (with_active N (delete key (active N)), Some (MkReduction key kind))
              else Ok (N, Some (MkReduction key kind))
        end
    end.

End rules.

(** ** Detaching a boundary *)
Section cutting.
Context {S : NetSpecialization}.
Implicit Types (N : RuntimeNet) (p q : Port) (n : nat).

(** The references left once [ports] are detached. *)
Definition cut_refs N (ports : list Port) (x : Port) : option SignedPort :=
  match reference N x with
  | Some q => if decide (x ∈ ports \/ port q ∈ ports) then None else Some q
  | None => None
  end.

Lemma disconnect_all N ports :
  graph_ok N -> (forall p, p ∈ ports -> is_Some (reference N p)) ->
  exists N', foldM (fun N p => '(N, _) ← disconnect N p; Ok N) N ports = Ok N' /\ graph_ok N' /\
    relinked N N' (cut_refs N ports) /\ active N' = active N /\ cursor_obligations N' = cursor_obligations N.
Proof.
  intros G Hw.
  destruct (foldM_inv (fun N p => '(N, _) ← disconnect N p; Ok N)
    (fun cut N' => graph_ok N' /\ relinked N N' (cut_refs N cut) /\ active N' = active N /\
                   cursor_obligations N' = cursor_obligations N) ports N) as (N' & Hrun & HN').
  - split; [done|]. split; [|done]. split; [done|]. split; [|done]. intros x. unfold cut_refs.
    destruct (reference N x); [|done]. rewrite decide_False; [done|]. intros [H|H]; by apply not_elem_of_nil in H.
  - intros cut p rest N1 -> (G1 & (Hn & Hr & Hx & Hre) & Ha & Ho).
    destruct (Hw p) as [q Hq]; [set_solver|].
    assert (Hsym : reference N (port q) = Some (MkSignedPort p (opposite (sign q)))).
    { destruct q as [q s]. by apply (go_sym _ G). }
    assert (Hsnoc : forall x, cut_refs N (cut ++ [p]) x =
              if decide (x = p \/ x = port q) then None else cut_refs N cut x).
    { intros x. unfold cut_refs. destruct (reference N x) as [y|] eqn:Ex; [|by case_decide].
      assert (Hxy : port y = p <-> x = port q).
      { split; [|intros ->; rewrite Hsym in Ex; by injection Ex as <-].
        intros Hy. destruct y as [y sy]. cbn in Hy. subst y. apply (go_sym _ G) in Ex. rewrite Hq in Ex.
        by injection Ex as ->. }
      destruct (decide (x ∈ cut ++ [p] \/ port y ∈ cut ++ [p])) as [H|H];
      destruct (decide (x = p \/ x = port q)) as [H1|H1]; try done;
      destruct (decide (x ∈ cut \/ port y ∈ cut)) as [H2|H2]; set_solver. }
    assert (Hmid : cut_refs N cut p = None \/ reference N1 p = Some q).
    { rewrite Hr. unfold cut_refs. rewrite Hq. case_decide; auto. }
    destruct (reference N1 p) as [q'|] eqn:E1.
    + destruct Hmid as [Hmid|[= ->]]; [rewrite Hr in E1; congruence|].
      destruct (disconnect_spec N1 p q G1 E1) as (N2 & -> & G2 & (Hn2 & Hr2 & Hx2 & Hre2) & Ha2 & Ho2).
      cbn [mbind outcome_bind]. exists N2. split; [done|]. split; [done|]. split; [|split; congruence].
      split; [intros n; by rewrite Hn2|]. split; [|split; [congruence|by eapply same_rest_trans]].
      intros x. rewrite Hr2, Hsnoc, Hr. done.
    + unfold disconnect, neighbor. rewrite E1. cbn [fmap option_fmap option_map mbind outcome_bind].
      exists N1. split; [done|]. split; [done|]. split; [|done]. split; [done|]. split; [|done].
      intros x. rewrite Hr, Hsnoc. case_decide as Hc; [|done]. destruct Hc as [-> | ->]; [by rewrite <- Hr|].
      unfold cut_refs. rewrite Hsym. cbn [port]. rewrite Hr in E1. unfold cut_refs in E1. rewrite Hq in E1.
      case_decide as Hd; [|done]. rewrite decide_True; [done|]. naive_solver.
  - by exists N'.
Qed.

(** What a socket of the boundary records. *)
Definition link_of (ports : list Port) (peer : SignedPort) : BoundaryLink :=
  match position ports (port peer) with
  | Some socket => BLSocket socket (sign peer)
  | None => BLPort peer
  end.

Lemma position_Some ports p i : position ports p = Some i -> ports !! i = Some p.
Proof.
  unfold position. intros H. apply fmap_Some in H as ([j y] & Hf & ->). apply list_find_Some in Hf as (? & -> & _). done.
Qed.

Lemma position_None ports p : position ports p = None <-> p ∉ ports.
Proof.
  unfold position. rewrite fmap_None, list_find_None, list.Forall_forall. split.
  - intros H Hin. by apply (H p Hin).
  - intros H x Hx ->. done.
Qed.

Lemma position_nodup ports p i : NoDup ports -> ports !! i = Some p -> position ports p = Some i.
Proof.
  intros Hnd Hi. destruct (position ports p) as [j|] eqn:E.
  - apply position_Some in E. f_equal. by eapply NoDup_lookup.
  - apply position_None in E. destruct E. by eapply list_elem_of_lookup_2.
Qed.

Lemma boundary_links N ports l :
  (forall p, p ∈ l -> is_Some (reference N p)) ->
  exists b, mapM (boundary_link N ports) l = Ok b /\
    Forall2 (fun p k => exists peer, reference N p = Some peer /\ k = link_of ports peer) l b.
Proof.
  induction l as [|p l IH]; intros Hw; [by exists []|].
  destruct (Hw p) as [q Hq]; [left|]. destruct IH as (b & Hb & HF); [intros; apply Hw; by right|].
  exists (link_of ports q :: b). split; [|constructor; eauto].
  cbn [mapM]. assert (boundary_link N ports p = Ok (link_of ports q)) as ->.
  { unfold boundary_link. by rewrite Hq. }
  cbn [mbind outcome_bind]. by rewrite Hb.
Qed.

Lemma detach_boundary_spec N ports :
  graph_ok N -> (forall p, p ∈ ports -> is_Some (reference N p)) ->
  exists N' b, detach_boundary N ports = Ok (N', b) /\ graph_ok N' /\
    relinked N N' (cut_refs N ports) /\ active N' = active N /\ cursor_obligations N' = cursor_obligations N /\
    Forall2 (fun p k => exists peer, reference N p = Some peer /\ k = link_of ports peer) ports b.
Proof.
  intros G Hw. destruct (boundary_links N ports ports Hw) as (b & Hb & HF).
  destruct (disconnect_all N ports G Hw) as (N' & HN & G' & Hrl & Ha & Ho).
  exists N', b. unfold detach_boundary. rewrite Hb. cbn [mbind outcome_bind]. rewrite HN. done.
Qed.

End cutting.

(** ** Well-formed nets *)
Section wf.
Context {S : NetSpecialization}.
Implicit Types (N : RuntimeNet) (p : Port) (n l r : nat).

(** A wired port's own sign. *)
Definition own N p : option Sign := sign <$> signed N p.

(** Every port of a node is wired, with the signs of the polarity table. An
    interface's principal stays unwired. *)
Definition node_wf (k : RuntimeNode Data Operator Checkpoint) (own : nat -> option Sign) : Prop :=
  match k with
  | RBind => is_Some (own 0) /\ own 1 = Some Consumes /\ own 2 = Some Provides
  | RFan _ => exists s, own 0 = Some s /\ own 1 = Some (opposite s) /\ own 2 = Some (opposite s)
  | RErase | RCallableCheckpoint _ | RRemoteCursor _ _ => is_Some (own 0)
  | RData _ => own 0 = Some Provides
  | ROperator _ => own 0 = Some Consumes /\ own 1 = Some Provides
  | RInterface => own 0 = None /\ own 1 = Some Consumes
  end.

(** It depends on the signs only. *)
#[export] Instance node_wf_proper k : Proper (pointwise_relation nat eq ==> iff) (node_wf k).
Proof. intros f g Hfg. unfold pointwise_relation in Hfg. destruct k; cbn; by setoid_rewrite Hfg. Qed.

(** Copy frontiers and remote cursors name each other. *)
Definition frontiers_ok N : Prop :=
  (forall c st remote cursor, copies N !! c = Some st -> frontiers st !! remote = Some cursor ->
     node_at N cursor = Some (RRemoteCursor c remote)) /\
  (forall cursor c remote, node_at N cursor = Some (RRemoteCursor c remote) ->
     exists st, copies N !! c = Some st /\ frontiers st !! remote = Some cursor).

(** The invariant apart from the active map. *)
Record net_core N : Prop := {
  nw_graph : graph_ok N;
  nw_nodes : forall n k, node_at N n = Some k -> node_wf k (fun i => own N (MkPort n i));
  nw_exposed : forall p, rt_exposed N = Some p -> index p = 1 /\ node_at N (node p) = Some RInterface;
  nw_frontiers : frontiers_ok N;
}.

Record net_wf N : Prop := {
  nw_core :> net_core N;
  nw_active : active_ok N None;
}.

Lemma own_reference N p s : own N p = Some s <-> exists q, reference N p = Some (MkSignedPort q (opposite s)).
Proof.
  unfold own, signed. destruct (reference N p) as [[q s']|]; cbn.
  - split; [intros [= <-]; exists q; by rewrite opposite_opposite|intros [? [= _ ->]]; by rewrite opposite_opposite].
  - split; [done|by intros [? ?]].
Qed.

Lemma own_None N p : own N p = None <-> reference N p = None.
Proof. unfold own, signed. by destruct (reference N p). Qed.

Lemma own_sign N p (q : SignedPort) : reference N p = Some q -> own N p = Some (opposite (sign q)).
Proof. unfold own, signed. by intros ->. Qed.

Lemma graph_ok_active N a : graph_ok N -> graph_ok (with_active N a).
Proof. intros []. by split. Qed.

Lemma net_core_active N a : net_core N -> net_core (with_active N a).
Proof. intros C. split; try apply C. apply graph_ok_active, C. Qed.

(** Changing the state of an existing pair, as claims do. *)
Lemma net_wf_state N k st :
  net_wf N -> is_Some (active N !! k) -> net_wf (with_active N (<[k := st]> (active N))).
Proof.
  intros W Hk. split.
  - apply net_core_active, W.
  - intros k'. change (is_Some (<[k:=st]> (active N) !! k') <-> None = Some k' \/ pwire N k').
    rewrite lookup_insert_is_Some'. rewrite <- (nw_active _ W k'). split; [intros [<-|?]; done|by right].
Qed.

(** ** Cutting a pair out *)
Definition on_pair (l r n : nat) : Prop := n = l \/ n = r.

Definition cut_view N (l r : nat) (p : Port) : option SignedPort :=
  match reference N p with
  | Some q => if decide (on_pair l r (node p) \/ on_pair l r (node (port q))) then None else Some q
  | None => None
  end.

(** The sockets of a pair: its wired auxiliary ports. *)
Record sockets N (l r : nat) (ports : list Port) : Prop := {
  so_nodup : NoDup ports;
  so_elem : forall p, p ∈ ports <-> on_pair l r (node p) /\ index p <> 0 /\ is_Some (reference N p);
}.

Record cut N (l r : nat) (ports : list Port) (N' : RuntimeNet) (b : list BoundaryLink) : Prop := {
  ct_graph : graph_ok N';
  ct_pwire : forall k, pwire N' k <-> pwire N k /\ k <> active_pair_key l r;
  ct_states : active N' = active N;
  ct_next : next_node_id N' = next_node_id N;
  ct_rest : same_rest N N';
  ct_obligations : cursor_obligations N' = cursor_obligations N;
  ct_node : forall m, node_at N' m = if decide (on_pair l r m) then None else node_at N m;
  ct_ref : forall p, reference N' p = cut_view N l r p;
  ct_links : Forall2 (fun p k => exists peer, reference N p = Some peer /\ k = link_of ports peer) ports b;
}.

Lemma detach_pair N l r s ports :
  graph_ok N -> reference N (principal l) = Some (MkSignedPort (principal r) s) ->
  sockets N l r ports ->
  exists N1 N2 b, disconnect N (principal l) = Ok (N1, Some (principal r)) /\
    detach_boundary N1 ports = Ok (N2, b) /\ (forall n, node_at N1 n = node_at N n) /\ graph_ok N2 /\
    (forall k, pwire N2 k <-> pwire N k /\ k <> active_pair_key l r) /\ active N2 = active N /\
    relinked N N2 (cut_view N l r) /\ cursor_obligations N2 = cursor_obligations N /\
    Forall2 (fun p k => exists peer, reference N p = Some peer /\ k = link_of ports peer) ports b.
Proof.
  intros G Hl SO. pose proof (go_sym _ G _ _ _ Hl) as Hr.
  destruct (disconnect_spec N _ _ G Hl) as (N1 & Hd & G1 & R1 & Ha1 & Ho1). cbn [port] in *.
  destruct R1 as (Hn1 & Hr1 & Hx1 & Hre1).
  assert (Haux : forall p, p ∈ ports -> reference N1 p = reference N p).
  { intros p (_ & Hi & _)%(so_elem _ _ _ _ SO). rewrite Hr1, decide_False; [done|].
    intros [-> | ->]; by apply Hi. }
  destruct (detach_boundary_spec N1 ports G1) as (N2 & b & Hb & G2 & (Hn2 & Hr2 & Hx2 & Hre2) & Ha2 & Ho2 & HF).
  { intros p Hp. rewrite Haux by done. by apply (so_elem _ _ _ _ SO) in Hp as (_ & _ & ?). }
  assert (Href : forall p, reference N2 p = cut_view N l r p).
  { intros p. rewrite Hr2. unfold cut_refs, cut_view. rewrite Hr1.
    destruct (decide (p = principal l \/ p = principal r)) as [Hp|Hp].
    - destruct (reference N p) as [q|]; [|done]. rewrite decide_True; [done|]. left.
      destruct Hp as [-> | ->]; [by left|by right].
    - destruct (reference N p) as [q|] eqn:E; [|done].
      assert (Hq : reference N (port q) = Some (MkSignedPort p (opposite (sign q)))).
      { destruct q as [q sq]. by apply (go_sym _ G). }
      assert (Hside : forall x y, reference N x = Some y -> x <> principal l -> x <> principal r ->
                (x ∈ ports <-> on_pair l r (node x))).
      { intros x y Hx Hxl Hxr. rewrite (so_elem _ _ _ _ SO). split; [by intros (? & _)|]. intros Hon.
        split; [done|]. split; [|by rewrite Hx]. intros Hi. destruct x as [xn xi]. cbn in *. subst xi.
        destruct Hon as [-> | ->]; done. }
      assert (Hpq : port q <> principal l /\ port q <> principal r).
      { split; intros Heq; rewrite Heq in Hq; [rewrite Hl in Hq|rewrite Hr in Hq]; injection Hq; intros; subst; tauto. }
      pose proof (Hside p q E) as H1. pose proof (Hside (port q) _ Hq) as H2.
      destruct (decide (p ∈ ports \/ port q ∈ ports)) as [Hd1|Hd1];
        destruct (decide (on_pair l r (node p) \/ on_pair l r (node (port q)))) as [Hd2|Hd2]; tauto. }
  exists N1, N2, b. split; [done|]. split; [done|]. split; [done|]. split; [done|]. split; [|split; [congruence|split; [|split; [congruence|]]]].
  - intros k. unfold pwire. setoid_rewrite Href. unfold cut_view, active_pair_key. split.
    + intros (m & s' & Hm & Hlt). destruct (reference N (principal k)) as [y|] eqn:E; [|done].
      case_decide as Hd'; [done|]. injection Hm as ->. cbn in Hd'. split; [by exists m, s'|].
      intros ->. apply Hd'. left. unfold on_pair. lia.
    + intros [(m & s' & Hm & Hlt) Hne]. exists m, s'. split; [|done]. rewrite Hm. rewrite decide_False; [done|].
      cbn. intros [[-> | ->]|[-> | ->]].
      * rewrite Hl in Hm. injection Hm as ? ?. lia.
      * rewrite Hr in Hm. injection Hm as ? ?. lia.
      * apply (go_sym _ G) in Hm. rewrite Hl in Hm. injection Hm as ? ?. lia.
      * apply (go_sym _ G) in Hm. rewrite Hr in Hm. injection Hm as ? ?. lia.
  - split; [intros n; by rewrite Hn2, Hn1|]. split; [done|]. split; [congruence|by eapply same_rest_trans].
  - apply Forall2_same_length_lookup in HF as [Hlen HF]. apply Forall2_same_length_lookup. split; [done|].
    intros i p k Hp Hk. destruct (HF i p k Hp Hk) as (peer & Hpeer & ->). exists peer.
    rewrite <- Haux; [done|]. by eapply list_elem_of_lookup_2.
Qed.

Lemma remove_pair N x y kx ky :
  graph_ok N -> x <> y -> node_at N x = Some kx -> node_at N y = Some ky ->
  (forall p, on_pair x y (node p) -> reference N p = None) -> ~ obligated N x -> ~ obligated N y ->
  exists N1 N2, remove_node N x = Ok (N1, kx) /\ remove_node N1 y = Ok (N2, ky) /\ graph_ok N2 /\
    (forall m, node_at N2 m = if decide (on_pair x y m) then None else node_at N m) /\
    (forall p, reference N2 p = reference N p) /\ next_node_id N2 = next_node_id N /\
    same_rest N N2 /\ active N2 = active N /\ cursor_obligations N2 = cursor_obligations N.
Proof.
  intros G Hne Hx Hy Hun Hox Hoy.
  destruct (remove_node_spec N x kx G Hx) as (N1 & H1 & G1 & Hn1 & Hr1 & Hx1 & Hre1 & Ha1 & Ho1).
  { intros i. apply Hun. by left. }
  destruct (remove_node_spec N1 y ky G1) as (N2 & H2 & G2 & Hn2 & Hr2 & Hx2 & Hre2 & Ha2 & Ho2).
  { rewrite Hn1, decide_False by done. done. }
  { intros i. rewrite Hr1. apply Hun. by right. }
  exists N1, N2. split; [done|]. split; [done|]. split; [done|]. split.
  { intros m. rewrite Hn2, Hn1. unfold on_pair. repeat case_decide; tauto. }
  split; [intros p; by rewrite Hr2|]. split; [congruence|]. split; [by eapply same_rest_trans|]. split; [congruence|].
  rewrite Ho2, Ho1. unfold obligated in *. rewrite <- eq_None_not_Some in *.
  by rewrite !delete_id by (rewrite ?lookup_delete_None; auto).
Qed.

(** Cutting a pair out: its principals are disconnected, its sockets
    detached and both nodes removed, in either order. *)
Lemma cut_pair N l r s ports kl kr :
  graph_ok N -> reference N (principal l) = Some (MkSignedPort (principal r) s) ->
  sockets N l r ports -> node_at N l = Some kl -> node_at N r = Some kr -> ~ obligated N l -> ~ obligated N r ->
  exists N1 N2 b, disconnect N (principal l) = Ok (N1, Some (principal r)) /\
    detach_boundary N1 ports = Ok (N2, b) /\ (forall n, node_at N1 n = node_at N n) /\
    (exists N3 N4, remove_node N2 l = Ok (N3, kl) /\ remove_node N3 r = Ok (N4, kr) /\ cut N l r ports N4 b) /\
    (exists N3 N4, remove_node N2 r = Ok (N3, kr) /\ remove_node N3 l = Ok (N4, kl) /\ cut N l r ports N4 b).
Proof.
  intros G Hl SO Hkl Hkr Hol Hor.
  destruct (detach_pair N l r s ports G Hl SO)
    as (N1 & N2 & b & Hd & Hb & Hn1 & G2 & A2 & Hst & (Hn2 & Hr2 & Hx2 & Hre2) & Ho2 & HF).
  exists N1, N2, b. split; [done|]. split; [done|]. split; [done|].
  assert (Hne : l <> r) by (intros ->; by apply (sym_not_self _ _ _ G) in Hl).
  assert (Hun : forall p, on_pair l r (node p) -> reference N2 p = None).
  { intros p Hp. rewrite Hr2. unfold cut_view. destruct (reference N p); [|done]. by rewrite decide_True by auto. }
  assert (Hcut : forall N4, graph_ok N4 ->
    (forall m, node_at N4 m = if decide (on_pair l r m) then None else node_at N2 m) ->
    (forall p, reference N4 p = reference N2 p) -> next_node_id N4 = next_node_id N2 ->
    same_rest N2 N4 -> active N4 = active N2 -> cursor_obligations N4 = cursor_obligations N2 ->
    cut N l r ports N4 b).
  { intros N4 G4 Hn4 Hr4 Hx4 Hre4 Ha4 Ho4. split; try done.
    - intros k. rewrite <- A2. unfold pwire. by setoid_rewrite Hr4.
    - congruence.
    - congruence.
    - by eapply same_rest_trans.
    - congruence.
    - intros m. by rewrite Hn4, Hn2.
    - intros p. by rewrite Hr4, Hr2. }
  assert (Hob : ~ obligated N2 l /\ ~ obligated N2 r) by (unfold obligated; by rewrite Ho2).
  split.
  - destruct (remove_pair N2 l r kl kr G2 Hne) as (N3 & N4 & H3 & H4 & ? & ? & ? & ? & ? & ? & ?);
      rewrite ?Hn2; [tauto..|].
    exists N3, N4. split; [done|]. split; [done|]. by apply Hcut.
  - destruct (remove_pair N2 r l kr kl G2 (not_eq_sym Hne)) as (N3 & N4 & H3 & H4 & ? & Hn4 & ? & ? & ? & ? & ?);
      rewrite ?Hn2; [try tauto..|].
    { intros p Hp. apply Hun. unfold on_pair in *. tauto. }
    exists N3, N4. split; [done|]. split; [done|]. apply Hcut; try done.
    intros m. rewrite Hn4. unfold on_pair. repeat case_decide; tauto.
Qed.

(** The same when the right node, which has no sockets, is removed first. *)
Lemma cut_pair_early N l r s ports kl kr :
  graph_ok N -> reference N (principal l) = Some (MkSignedPort (principal r) s) ->
  sockets N l r ports -> node_at N l = Some kl -> node_at N r = Some kr -> ~ obligated N l -> ~ obligated N r ->
  (forall p, p ∈ ports -> node p = l) ->
  exists N1 N2 N3 N4 b, disconnect N (principal l) = Ok (N1, Some (principal r)) /\
    remove_node N1 r = Ok (N2, kr) /\ detach_boundary N2 ports = Ok (N3, b) /\ remove_node N3 l = Ok (N4, kl) /\
    cut N l r ports N4 b.
Proof.
  intros G Hl SO Hkl Hkr Hol Hor Hports.
  destruct (detach_pair N l r s ports G Hl SO)
    as (N1 & Nd & bd & Hd & Hdb & Hn1 & _ & Hpw & _ & (_ & Hrd & _ & _) & _ & _).
  assert (Hne : l <> r) by (intros ->; by apply (sym_not_self _ _ _ G) in Hl).
  destruct (disconnect_spec N _ _ G Hl) as (? & Hd' & G1 & (_ & Hr1 & Hx1 & Hs1) & Ha1 & Ho1). cbn [port] in *.
  rewrite Hd in Hd'. injection Hd' as <-.
  assert (Haux : forall p, p ∈ ports -> reference N1 p = reference N p).
  { intros p (_ & Hi & _)%(so_elem _ _ _ _ SO). rewrite Hr1, decide_False; [done|]. intros [-> | ->]; by apply Hi. }
  assert (Hw : forall p, p ∈ ports -> is_Some (reference N1 p)).
  { intros p Hp. rewrite Haux by done. by apply (so_elem _ _ _ _ SO) in Hp as (_ & _ & ?). }
  assert (Hcut : forall p, cut_refs N1 ports p = cut_view N l r p).
  { intros p. destruct (detach_boundary_spec N1 ports G1 Hw) as (N' & b' & Hdb' & _ & (_ & Hr' & _) & _).
    rewrite Hdb in Hdb'. injection Hdb' as <- _. by rewrite <- Hr', Hrd. }
  assert (Hun : forall i, reference N1 (MkPort r i) = None).
  { intros i. rewrite Hr1. case_decide as Hc; [done|]. apply eq_None_not_Some. intros Hs.
    assert (Hin : MkPort r i ∈ ports).
    { apply (so_elem _ _ _ _ SO). split; [by right|]. split; [|done]. cbn. intros ->. apply Hc. by right. }
    apply Hports in Hin. cbn in Hin. congruence. }
  destruct (remove_node_spec N1 r kr G1) as (N2 & H2 & G2 & Hn2 & Hr2 & Hx2 & Hs2 & Ha2 & Ho2); [by rewrite Hn1|done|].
  destruct (detach_boundary_spec N2 ports G2) as (N3 & b' & H3 & G3 & (Hn3 & Hr3 & Hx3 & Hs3) & Ha3 & Ho3 & HF).
  { intros p Hp. rewrite Hr2. by apply Hw. }
  assert (Hr3' : forall p, reference N3 p = cut_view N l r p).
  { intros p. rewrite Hr3, <- Hcut. unfold cut_refs. by rewrite Hr2. }
  destruct (remove_node_spec N3 l kl G3) as (N4 & H4 & G4 & Hn4 & Hr4 & Hx4 & Hs4 & Ha4 & Ho4).
  { by rewrite Hn3, Hn2, decide_False, Hn1. }
  { intros i. rewrite Hr3'. unfold cut_view. destruct (reference N (MkPort l i)); [|done].
    rewrite decide_True; [done|]. left. by left. }
  exists N1, N2, N3, N4, b'. do 4 (split; [done|]). split; try done.
  - intros k. rewrite <- Hpw. unfold pwire. setoid_rewrite Hr4. setoid_rewrite Hr3'. by setoid_rewrite Hrd.
  - congruence.
  - congruence.
  - repeat (eapply same_rest_trans; [done|]). done.
  - rewrite Ho4, Ho3, Ho2, Ho1. unfold obligated in *. rewrite <- eq_None_not_Some in *.
    by rewrite !delete_id by (rewrite ?lookup_delete_None; auto).
  - intros m. rewrite Hn4, Hn3, Hn2, Hn1. unfold on_pair. repeat case_decide; tauto.
  - intros p. by rewrite Hr4, Hr3'.
  - apply Forall2_same_length_lookup in HF as [Hlen HF]. apply Forall2_same_length_lookup. split; [done|].
    intros i p k Hp Hk. destruct (HF i p k Hp Hk) as (peer & Hpeer & ->). exists peer.
    rewrite <- Haux by (by eapply list_elem_of_lookup_2). by rewrite <- Hr2.
Qed.

(** The active map once a pair is cut out: its state is pending. *)
Lemma cut_active N l r s ports N' b :
  active_ok N None -> graph_ok N -> reference N (principal l) = Some (MkSignedPort (principal r) s) ->
  cut N l r ports N' b -> active_ok N' (Some (active_pair_key l r)).
Proof.
  intros A G Hl CT k. rewrite (ct_states _ _ _ _ _ _ CT), (A k), (ct_pwire _ _ _ _ _ _ CT).
  assert (Hpk : pwire N (active_pair_key l r)).
  { pose proof (go_sym _ G _ _ _ Hl) as Hr. unfold active_pair_key.
    assert (l <> r) by (intros ->; by apply (sym_not_self _ _ _ G) in Hl).
    destruct (decide (l < r)); [rewrite Nat.min_l by lia; exists r, s|rewrite Nat.min_r by lia; eexists l, _]; split; try done; lia. }
  split; [intros [?|Hp]; [done|]|intros [[= <-]|[? _]]; by right].
  destruct (decide (k = active_pair_key l r)) as [->|]; [by left|by right].
Qed.

(** The active map once the pair's state is removed first. *)
Lemma cut_active_removed N l r ports N' b :
  active_ok N None -> cut (with_active N (delete (active_pair_key l r) (active N))) l r ports N' b ->
  active_ok N' None.
Proof.
  intros A CT k. rewrite (ct_states _ _ _ _ _ _ CT), (ct_pwire _ _ _ _ _ _ CT).
  change (is_Some (delete (active_pair_key l r) (active N) !! k) <-> None = Some k \/ pwire N k /\ k <> active_pair_key l r).
  rewrite lookup_delete_is_Some, (A k). intuition congruence.
Qed.

(** ** The new part of a rewrite *)

(** [N'] is [N] with new nodes of kinds [K], wired among themselves by [W]. *)
Definition wire_ports (W : list (SignedPort * SignedPort)) : list Port :=
  W ≫= (fun '(l, r) => [port l; port r]).

Record grown N pending (K : list (RuntimeNode Data Operator Checkpoint)) (W : list (SignedPort * SignedPort))
    (N' : RuntimeNet) : Prop := {
  gr_graph : graph_ok N';
  gr_active : active_ok N' pending;
  gr_next : next_node_id N' = next_node_id N + length K;
  gr_rest : same_rest N N';
  gr_obligations : cursor_obligations N' = cursor_obligations N;
  gr_states : states_kept N N';
  gr_old : forall m, m < next_node_id N -> node_at N' m = node_at N m;
  gr_new : forall j, node_at N' (next_node_id N + j) = K !! j;
  gr_wires : forall l r : SignedPort, (l, r) ∈ W -> reference N' (port l) = Some r /\ reference N' (port r) = Some l;
  gr_frame : forall p, p ∉ wire_ports W -> reference N' p = reference N p;
  gr_fresh : forall p, p ∈ wire_ports W -> next_node_id N <= node p;
}.

Lemma grown_refl N pending : graph_ok N -> active_ok N pending -> grown N pending [] [] N.
Proof.
  intros G A. split; try done.
  - by apply states_kept_refl.
  - intros j. rewrite lookup_nil. destruct (node_at N _) eqn:E; [|done].
    pose proof (go_fresh _ G _ ltac:(by rewrite E)). lia.
  - intros l r H. by apply not_elem_of_nil in H.
  - intros p H. by apply not_elem_of_nil in H.
Qed.

Lemma grown_add N pending K W N' k :
  grown N pending K W N' -> (Z.of_nat (next_node_id N + length K) < u64_max)%Z ->
  exists N2, add_node N' k = Ok (N2, next_node_id N + length K) /\ grown N pending (K ++ [k]) W N2.
Proof.
  intros GR Hroom. pose proof (gr_next _ _ _ _ _ GR) as Hnx.
  destruct (add_node_spec N' k (gr_graph _ _ _ _ _ GR)) as (N2 & H2 & G2 & Hn2 & Hr2 & Hx2 & Hre2 & Ha2 & Ho2).
  { by rewrite Hnx. }
  exists N2. rewrite <- Hnx. split; [done|]. split; try done.
  - intros j. rewrite Ha2, (gr_active _ _ _ _ _ GR j). unfold pwire. by setoid_rewrite Hr2.
  - rewrite length_app. cbn. lia.
  - eapply same_rest_trans; [apply GR|done].
  - rewrite Ho2. apply GR.
  - eapply states_kept_trans; [apply GR|by apply states_kept_refl].
  - intros m Hm. rewrite Hn2, decide_False by lia. by apply GR.
  - intros j. rewrite Hn2. case_decide as Hj.
    + assert (j = length K) as -> by lia. by rewrite list_lookup_middle.
    + rewrite (gr_new _ _ _ _ _ GR). destruct (decide (j < length K)).
      * by rewrite lookup_app_l.
      * rewrite !lookup_ge_None_2; [done|rewrite length_app; cbn; lia|lia].
  - intros a c. rewrite !Hr2. apply GR.
  - intros p. rewrite Hr2. apply GR.
  - apply GR.
Qed.

(** A port of a new node that is not wired yet. *)
Definition new_port N (K : list (RuntimeNode Data Operator Checkpoint)) (p : Port) : Prop :=
  exists j k, node p = next_node_id N + j /\ K !! j = Some k /\ index p < runtime_port_count k.

Lemma new_port_valid N pending K W N' p : grown N pending K W N' -> new_port N K p -> valid N' p.
Proof. intros GR (j & k & Hn & Hk & Hi). exists k. by rewrite Hn, (gr_new _ _ _ _ _ GR). Qed.

Lemma new_port_free N pending K W N' p :
  graph_ok N -> grown N pending K W N' -> new_port N K p -> p ∉ wire_ports W -> reference N' p = None.
Proof.
  intros G GR (j & k & Hn & Hk & Hi) Hp. rewrite (gr_frame _ _ _ _ _ GR) by done.
  apply reference_invalid. intros (k' & Hk' & _). pose proof (go_fresh _ G (node p) ltac:(by rewrite Hk')). lia.
Qed.

Lemma new_port_quiet N pending K W N' p :
  graph_ok N -> grown N pending K W N' -> new_port N K p -> ~ obligated N' (node p).
Proof.
  intros G GR (j & k & Hn & _) [o Ho]. rewrite (gr_obligations _ _ _ _ _ GR) in Ho.
  destruct (go_obligations _ G _ _ Ho) as (_ & (c & rm & Hc) & _).
  pose proof (go_fresh _ G (node p) ltac:(by rewrite Hc)). lia.
Qed.

Lemma grown_connectable N pending K W N' (l r : SignedPort) :
  graph_ok N -> (forall k, pending = Some k -> k < next_node_id N /\ node_at N k = None) ->
  grown N pending K W N' -> new_port N K (port l) -> new_port N K (port r) ->
  port l ∉ wire_ports W -> port r ∉ wire_ports W -> port l <> port r -> sign l = opposite (sign r) ->
  connectable N' l r pending.
Proof.
  intros G Hpend GR Hl Hr Hlw Hrw Hne Hs.
  split; try done; try apply GR; try (by eapply new_port_valid); try (by eapply new_port_free);
    try (intros _; by eapply new_port_quiet).
  intros k Hk. destruct (Hpend k Hk). by rewrite (gr_old _ _ _ _ _ GR).
Qed.

Lemma grown_wire N pending K W N' (l r : SignedPort) :
  graph_ok N -> (forall k, pending = Some k -> k < next_node_id N /\ node_at N k = None) ->
  grown N pending K W N' -> new_port N K (port l) -> new_port N K (port r) ->
  port l ∉ wire_ports W -> port r ∉ wire_ports W -> port l <> port r -> sign l = opposite (sign r) ->
  exists N2, rt_wire N' l r = Ok N2 /\ grown N pending K (W ++ [(l, r)]) N2.
Proof.
  intros G Hpend GR Hl Hr Hlw Hrw Hne Hs.
  pose proof (grown_connectable N pending K W N' l r G Hpend GR Hl Hr Hlw Hrw Hne Hs) as C.
  destruct (wire_ok N' l r pending C) as (N2 & H2 & G2 & A2 & (Hn2 & Hr2 & Hx2 & Hre2) & Ho2 & Hst2 & _).
  exists N2. split; [done|]. split; try done.
  - rewrite Hx2. apply GR.
  - eapply same_rest_trans; [apply GR|done].
  - rewrite Ho2. apply GR.
  - eapply states_kept_trans; [apply GR|done].
  - intros m Hm. rewrite Hn2. by apply GR.
  - intros j. rewrite Hn2. by apply GR.
  - intros a c Hac. rewrite !Hr2. apply elem_of_app in Hac as [Hac|[= -> ->]%list_elem_of_singleton].
    + assert (Hin : port a ∈ wire_ports W /\ port c ∈ wire_ports W).
      { unfold wire_ports. split; apply list_elem_of_bind; exists (a, c); split; set_solver. }
      rewrite !decide_False by (intros Heq; rewrite Heq in Hin; tauto). by apply GR.
    + rewrite (decide_True (P := port l = port l)) by done. rewrite decide_False by done. by rewrite decide_True by done.
  - intros p Hp. unfold wire_ports in Hp. rewrite bind_app in Hp. cbn in Hp.
    rewrite Hr2, !decide_False by set_solver. apply GR. set_solver.
  - intros p Hp. unfold wire_ports in Hp. rewrite bind_app in Hp. apply elem_of_app in Hp as [Hp|Hp]; [by apply GR|].
    destruct Hl as (jl & kl & Hjl & _), Hr as (jr & kr & Hjr & _).
    cbn in Hp. rewrite !elem_of_cons in Hp. destruct Hp as [-> |[-> |Hp]]; [lia|lia|by apply not_elem_of_nil in Hp].
Qed.

End wf.

(** ** What every rewrite does *)
Section finish.
Context {S : NetSpecialization}.

(** No obligated cursor faces the pair's auxiliary ports. *)
Definition quiet (N : RuntimeNet) (l r : nat) : Prop :=
  forall p q, on_pair l r (node p) -> reference N p = Some q -> is_principal (port q) = true ->
    ~ obligated N (node (port q)).

(** The effect of rewriting the pair of [l] and [r], whose state is left to
    be removed: the pair is gone, every other node stays with its kind and
    its signs, wires between them stay, other pairs keep their states, and
    the net is well formed again. *)
Record rewritten (N : RuntimeNet) (l r : nat) (N' : RuntimeNet) : Prop := {
  rw_wf : net_wf (with_active N' (delete (active_pair_key l r) (active N')));
  rw_states : states_kept N N';
  rw_gone : node_at N' l = None /\ node_at N' r = None;
  rw_next : next_node_id N <= next_node_id N';
  rw_nodes : forall m, m < next_node_id N -> ~ on_pair l r m -> node_at N' m = node_at N m;
  rw_signs : forall p, node p < next_node_id N -> ~ on_pair l r (node p) -> own N' p = own N p;
  rw_wires : forall p q, ~ on_pair l r (node p) -> ~ on_pair l r (node (port q)) ->
    reference N p = Some q -> reference N' p = Some q;
  rw_obligations : cursor_obligations N' = cursor_obligations N;
  rw_rest : same_rest N N';
}.

Context (N : RuntimeNet) (l r : nat) (s : Sign) (ports : list Port) (kl kr : RuntimeNode Data Operator Checkpoint).
Context (N1 : RuntimeNet) (b : list BoundaryLink) (K : list (RuntimeNode Data Operator Checkpoint)).
Context (W : list (SignedPort * SignedPort)) (N2 : RuntimeNet) (rs : list BoundaryReplacement) (pending : option nat).
Hypothesis WF : net_core N.
Hypothesis Hpending : pending = Some (active_pair_key l r) \/ pending = None.
Hypothesis Hpair : reference N (principal l) = Some (MkSignedPort (principal r) s).
Hypothesis SO : sockets N l r ports.
Hypothesis Q : quiet N l r.
Hypothesis Hl : node_at N l = Some kl.
Hypothesis Hr : node_at N r = Some kr.
Hypothesis CT : cut N l r ports N1 b.
Hypothesis GR : grown N1 pending K W N2.

Lemma socket_link i p : ports !! i = Some p ->
  exists peer, reference N p = Some peer /\ b !! i = Some (link_of ports peer).
Proof.
  intros Hp. destruct (Forall2_lookup_l _ _ _ _ _ (ct_links _ _ _ _ _ _ CT) Hp) as (k & Hk & peer & Hpeer & ->). eauto.
Qed.

Lemma link_socket i k : b !! i = Some k ->
  exists p peer, ports !! i = Some p /\ reference N p = Some peer /\ k = link_of ports peer.
Proof.
  intros Hk. destruct (Forall2_lookup_r _ _ _ _ _ (ct_links _ _ _ _ _ _ CT) Hk) as (p & Hp & peer & Hpeer & ->). eauto.
Qed.

(** A socket's recorded sign is its port's own sign. *)
Lemma sgn_own i p : ports !! i = Some p -> own N p = Some (sgn b i).
Proof.
  intros Hp. destruct (socket_link i p Hp) as (peer & Hpeer & Hb). rewrite (own_sign _ _ _ Hpeer). f_equal.
  unfold sgn. rewrite Hb. cbn. unfold link_of. by destruct (position _ _).
Qed.

Lemma pair_reverse : reference N (principal r) = Some (MkSignedPort (principal l) (opposite s)).
Proof. apply (go_sym _ (nw_graph _ WF)), Hpair. Qed.

(** The peers outside the pair are ports of surviving nodes. *)
Lemma peer_outside i sp : b !! i = Some (BLPort sp) ->
  exists p, ports !! i = Some p /\ reference N p = Some sp /\
    reference N (port sp) = Some (MkSignedPort p (opposite (sign sp))) /\ ~ on_pair l r (node (port sp)).
Proof.
  intros Hb. destruct (link_socket i _ Hb) as (p & peer & Hp & Hpeer & Hk). unfold link_of in Hk.
  destruct (position ports (port peer)) eqn:Epos; [done|]. injection Hk as <-. apply position_None in Epos.
  exists p. split; [done|]. split; [done|].
  assert (Hback : reference N (port sp) = Some (MkSignedPort p (opposite (sign sp)))).
  { destruct sp as [q sq]. by apply (go_sym _ (nw_graph _ WF)). }
  split; [done|]. intros Hon. apply Epos. apply (so_elem _ _ _ _ SO). split; [done|]. split; [|by rewrite Hback].
  intros Hi. apply list_elem_of_lookup_2 in Hp. apply (so_elem _ _ _ _ SO) in Hp as (_ & Hip & _).
  assert (Hps : port sp = principal (node (port sp))) by (destruct (port sp); cbn in *; by subst).
  destruct Hon as [Hon|Hon]; rewrite Hps, Hon in Hback; [rewrite Hpair in Hback|rewrite pair_reverse in Hback];
    injection Hback as <-; by apply Hip.
Qed.

Lemma pair_valid n : on_pair l r n -> n < next_node_id N.
Proof. intros [-> | ->]; apply (go_fresh _ (nw_graph _ WF)); [by rewrite Hl|by rewrite Hr]. Qed.

Lemma key_on_pair : on_pair l r (active_pair_key l r).
Proof. unfold on_pair, active_pair_key. lia. Qed.

(** What the rule must provide. *)
Record replacements_ok : Prop := {
  ro_length : length rs = length b;
  ro_sockets : forall i j, rs !! i = Some (RSocket j) -> rs !! j = Some (RSocket i) /\ sgn b j = opposite (sgn b i);
  ro_ports : forall i p, rs !! i = Some (RPort p) -> new_port N1 K p /\ p ∉ wire_ports W;
  ro_inj : forall i j p, rs !! i = Some (RPort p) -> rs !! j = Some (RPort p) -> i = j;
}.

Hypothesis RO : replacements_ok.

Lemma finish_boundary_ok : boundary_ok b rs.
Proof.
  split; [by rewrite (ro_length RO)| |apply RO]. intros i j sj Hb.
  destruct (link_socket i _ Hb) as (p & peer & Hp & Hpeer & Hk). unfold link_of in Hk.
  destruct (position ports (port peer)) as [j'|] eqn:Epos; [|done]. injection Hk as -> ->.
  apply position_Some in Epos. destruct (socket_link _ _ Epos) as (back & Hback & ->).
  destruct peer as [q sq]. apply (go_sym _ (nw_graph _ WF)) in Hpeer. cbn [port sign] in *. rewrite Hback in Hpeer.
  injection Hpeer as ->. unfold link_of. cbn [port sign].
  by rewrite (position_nodup _ _ _ (so_nodup _ _ _ _ SO) Hp).
Qed.

Lemma end_cases i e sp : is_end b rs i e sp ->
  if e then rs !! i = Some (RPort (port sp)) /\ sign sp = sgn b i else b !! i = Some (BLPort sp).
Proof.
  intros He. destruct e; unfold is_end in He; cbn in He; unfold replaced, recorded in He; inv_ok.
  - destruct x; inv_ok; try done. split; [done|]. unfold socket_sign in *. inv_ok. unfold sgn.
    match goal with Hb : b !! i = _ |- _ => by rewrite Hb end.
  - destruct x; simplify_eq. done.
Qed.

(** The port of a surviving node as the rewrite's new part sees it. *)
Lemma grown_survivor p : node p < next_node_id N -> reference N2 p = cut_view N l r p.
Proof.
  intros Hp. rewrite (gr_frame _ _ _ _ _ GR); [apply CT|].
  intros Hin%(gr_fresh _ _ _ _ _ GR). rewrite (ct_next _ _ _ _ _ _ CT) in Hin. lia.
Qed.

Lemma grown_node m : m < next_node_id N ->
  node_at N2 m = if decide (on_pair l r m) then None else node_at N m.
Proof. intros Hm. rewrite (gr_old _ _ _ _ _ GR) by (rewrite (ct_next _ _ _ _ _ _ CT); lia). apply CT. Qed.

Hypothesis Hroom : (Z.of_nat (next_node_id N + length K + length b) <= u64_max)%Z.

Lemma finish_attachable : attachable b rs N2 pending.
Proof.
  assert (Hnew : forall i p, rs !! i = Some (RPort p) -> next_node_id N <= node p).
  { intros i p Hi. destruct (ro_ports RO i p Hi) as ((j & k & Hj & _) & _).
    rewrite (ct_next _ _ _ _ _ _ CT) in Hj. lia. }
  assert (Hold : forall i sp, b !! i = Some (BLPort sp) -> node (port sp) < next_node_id N).
  { intros i sp Hb. destruct (peer_outside i sp Hb) as (p & _ & _ & Hback & _).
    apply reference_valid in Hback as (k & Hk & _). apply (go_fresh _ (nw_graph _ WF)). by rewrite Hk. }
  split.
  - apply GR.
  - apply GR.
  - intros k Hk. assert (k = active_pair_key l r) as -> by (destruct Hpending; congruence).
    pose proof (pair_valid _ key_on_pair) as Hlt. split.
    + rewrite (gr_next _ _ _ _ _ GR), (ct_next _ _ _ _ _ _ CT). lia.
    + by rewrite grown_node, decide_True by (try done; apply key_on_pair).
  - rewrite (gr_next _ _ _ _ _ GR), (ct_next _ _ _ _ _ _ CT). done.
  - intros i e sp He%end_cases. destruct e.
    + destruct He as [He _]. eapply new_port_valid; [done|]. by apply (ro_ports RO i).
    + destruct (peer_outside i sp He) as (p & _ & _ & Hback & Hon).
      apply reference_valid in Hback as (k & Hk & Hi). exists k. split; [|done].
      rewrite grown_node, decide_False by eauto. done.
  - intros i e sp He%end_cases. destruct e.
    + destruct He as [He _]. destruct (ro_ports RO i _ He). eapply new_port_free; [apply CT|done..].
    + rewrite grown_survivor by eauto. destruct (peer_outside i sp He) as (p & Hp & _ & Hback & Hon).
      unfold cut_view. rewrite Hback. apply list_elem_of_lookup_2 in Hp.
      apply (so_elem _ _ _ _ SO) in Hp as (Hp & _). by rewrite decide_True by auto.
  - intros i e sp He%end_cases Hprin. destruct e.
    + destruct He as [He _]. destruct (ro_ports RO i _ He). eapply new_port_quiet; [apply CT|done..].
    + destruct (peer_outside i sp He) as (p & Hp & Hpeer & _ & Hon).
      unfold obligated. rewrite (gr_obligations _ _ _ _ _ GR), (ct_obligations _ _ _ _ _ _ CT).
      apply (Q p sp); [|done..]. apply list_elem_of_lookup_2 in Hp. by apply (so_elem _ _ _ _ SO) in Hp as (Hp & _).
  - intros i e sp i' e' sp' He%end_cases He'%end_cases Heq. destruct e, e'.
    + destruct He as [He _], He' as [He' _]. rewrite <- Heq in He'. by rewrite (ro_inj RO i i' _ He He').
    + destruct He as [He%Hnew _]. apply Hold in He'. rewrite Heq in He. lia.
    + destruct He' as [He'%Hnew _]. apply Hold in He. rewrite Heq in He. lia.
    + destruct (peer_outside i sp He) as (p & Hp & Hpeer & Hback & _).
      destruct (peer_outside i' sp' He') as (p' & Hp' & Hpeer' & Hback' & _).
      rewrite Heq, Hback' in Hback. injection Hback as -> _. split; [|done].
      eapply NoDup_lookup; [apply SO|done|done].
Qed.

(** The new nodes obey the polarity table, given the signs their ports take
    from the sockets they replace and from the new wires. *)
Hypothesis Hkinds : forall j k, K !! j = Some k -> is_cursor k = false /\ forall own',
  (forall i p, rs !! i = Some (RPort p) -> own' p = Some (sgn b i)) ->
  (forall a c, (a, c) ∈ W -> own' (port a) = Some (sign a) /\ own' (port c) = Some (sign c)) ->
  node_wf k (fun i => own' (MkPort (next_node_id N + j) i)).
Hypothesis Hordinary : is_cursor kl = false /\ is_cursor kr = false.

Context (N3 : RuntimeNet) (visited : list bool).
Hypothesis AD : attached b rs N2 pending (length b) N3 visited.
Hypothesis Hall : forall i e sp, is_end b rs i e sp -> marked visited i.

Lemma next_grown : next_node_id N2 = next_node_id N + length K.
Proof. by rewrite (gr_next _ _ _ _ _ GR), (ct_next _ _ _ _ _ _ CT). Qed.

Lemma own_end i e sp : is_end b rs i e sp -> own N3 (port sp) = Some (sign sp).
Proof.
  intros He. destruct (ad_ends _ _ _ _ _ _ _ AD i e sp (Hall _ _ _ He) He) as (q & Hq & Hs).
  by rewrite (own_sign _ _ _ Hq), Hs, opposite_opposite.
Qed.

Lemma replaced_end i p : rs !! i = Some (RPort p) -> is_end b rs i true (MkSignedPort p (sgn b i)).
Proof.
  intros Hi. unfold is_end. cbn. unfold replaced, socket_sign, sgn.
  assert (Hg : vec_get (E:=Empty_set) rs i = Ok (RPort p)) by (by apply vec_get_Ok). rewrite Hg. cbn [mbind outcome_bind].
  destruct (vec_get_lt (E:=Empty_set) b i) as (lk & Hlk & ->).
  { rewrite <- (ro_length RO). by eapply lookup_lt_Some. }
  cbn. by rewrite Hlk.
Qed.

Lemma recorded_end i sp : b !! i = Some (BLPort sp) -> is_end b rs i false sp.
Proof.
  intros Hi. unfold is_end. cbn. unfold recorded.
  assert (Hg : vec_get (E:=Empty_set) b i = Ok (BLPort sp)) by (by apply vec_get_Ok). by rewrite Hg.
Qed.

(** A surviving port keeps its reference, or is a peer of a socket. *)
Lemma survivor_cases p : node p < next_node_id N -> ~ on_pair l r (node p) ->
  (reference N3 p = reference N p /\ forall q, reference N p = Some q -> ~ on_pair l r (node (port q))) \/
  exists i sp, is_end b rs i false sp /\ port sp = p /\ own N p = Some (sign sp) /\
    exists q, reference N p = Some q /\ on_pair l r (node (port q)).
Proof.
  intros Hp Hon. pose proof next_grown as Hng.
  destruct (reference N p) as [q|] eqn:E.
  - destruct (decide (on_pair l r (node (port q)))) as [Hq|Hq].
    + right. assert (Hback : reference N (port q) = Some (MkSignedPort p (opposite (sign q)))).
      { destruct q as [q sq]. by apply (go_sym _ (nw_graph _ WF)). }
      assert (Hin : port q ∈ ports).
      { apply (so_elem _ _ _ _ SO). split; [done|]. split; [|by rewrite Hback]. intros Hi.
        assert (Hps : port q = principal (node (port q))) by (destruct (port q); cbn in *; by subst).
        apply Hon. destruct Hq as [Hq|Hq]; rewrite Hps, Hq in Hback; [rewrite Hpair in Hback|rewrite pair_reverse in Hback];
          injection Hback as <- _; [by right|by left]. }
      apply list_elem_of_lookup_1 in Hin as [i Hi]. destruct (socket_link i _ Hi) as (peer & Hpeer & Hb).
      rewrite Hback in Hpeer. injection Hpeer as <-.
      exists i, (MkSignedPort p (opposite (sign q))). split; [|split; [done|]].
      * apply recorded_end. rewrite Hb. f_equal. unfold link_of. cbn.
        destruct (position ports p) eqn:Epos; [|done]. apply position_Some, list_elem_of_lookup_2 in Epos.
        by apply (so_elem _ _ _ _ SO) in Epos as (? & _).
      * split; [by rewrite (own_sign _ _ _ E)|by exists q].
    + left. split; [|intros q' [= <-]; done]. rewrite (ad_frame _ _ _ _ _ _ _ AD).
      * rewrite grown_survivor by done. unfold cut_view. rewrite E. by rewrite decide_False by tauto.
      * lia.
      * intros i e sp _ He%end_cases Heq. destruct e.
        -- destruct He as [He _]. destruct (ro_ports RO i _ He) as ((j & k & Hj & _) & _).
           rewrite (ct_next _ _ _ _ _ _ CT), Heq in Hj. lia.
        -- destruct (peer_outside i sp He) as (p' & Hp' & _ & Hback & _). rewrite Heq, E in Hback.
           injection Hback as ->. apply list_elem_of_lookup_2 in Hp'. apply (so_elem _ _ _ _ SO) in Hp' as (? & _). done.
  - left. split; [|done]. rewrite (ad_frame _ _ _ _ _ _ _ AD).
    + rewrite grown_survivor by done. unfold cut_view. by rewrite E.
    + lia.
    + intros i e sp _ He%end_cases Heq. destruct e.
      * destruct He as [He _]. destruct (ro_ports RO i _ He) as ((j & k & Hj & _) & _).
        rewrite (ct_next _ _ _ _ _ _ CT), Heq in Hj. lia.
      * destruct (peer_outside i sp He) as (p' & Hp' & _ & Hback & _). congruence.
Qed.

Lemma survivor_own p : node p < next_node_id N -> ~ on_pair l r (node p) -> own N3 p = own N p.
Proof.
  intros Hp Hon. destruct (survivor_cases p Hp Hon) as [[Href _]|(i & sp & He & <- & Hown & _)].
  - unfold own, signed. by rewrite Href.
  - by rewrite (own_end _ _ _ He).
Qed.

Lemma final_old m : m < next_node_id N ->
  node_at N3 m = if decide (on_pair l r m) then None else node_at N m.
Proof. intros Hm. pose proof next_grown. rewrite (ad_old _ _ _ _ _ _ _ AD) by lia. by apply grown_node. Qed.

Lemma final_new j : j < length K -> node_at N3 (next_node_id N + j) = K !! j.
Proof.
  intros Hj. pose proof next_grown. rewrite (ad_old _ _ _ _ _ _ _ AD) by lia.
  rewrite <- (ct_next _ _ _ _ _ _ CT). apply GR.
Qed.

(** The kinds of nodes left: survivors, the rule's new nodes, erasers. *)
Lemma final_node_cases m k : node_at N3 m = Some k ->
  m < next_node_id N /\ ~ on_pair l r m /\ node_at N m = Some k \/
  (exists j, m = next_node_id N + j /\ K !! j = Some k) \/
  k = RErase /\ is_Some (own N3 (principal m)).
Proof.
  intros Hk. destruct (decide (m < next_node_id N)) as [Hm|Hm].
  { left. rewrite final_old in Hk by done. case_decide; [done|tauto]. }
  right. destruct (decide (m < next_node_id N + length K)) as [Hm2|Hm2].
  { left. exists (m - next_node_id N). split; [lia|]. rewrite <- final_new by lia. rewrite <- Hk. f_equal. lia. }
  right. destruct (ad_erasers _ _ _ _ _ _ _ AD m k) as [-> Hs]; [rewrite next_grown; lia|done|].
  split; [done|]. destruct Hs as [q Hq]. by rewrite (own_sign _ _ _ Hq).
Qed.

Lemma wire_own a c : (a, c) ∈ W -> own N3 (port a) = Some (sign a) /\ own N3 (port c) = Some (sign c).
Proof.
  intros Hac. destruct (gr_wires _ _ _ _ _ GR a c Hac) as [Ha Hc].
  assert (Hs : sign a = opposite (sign c)).
  { destruct a as [pa sa], c as [pc sc]. cbn in *. apply (go_sym _ (gr_graph _ _ _ _ _ GR)) in Ha.
    rewrite Hc in Ha. by injection Ha as ->. }
  assert (Hkeep : forall p, p ∈ wire_ports W -> is_Some (reference N2 p) -> reference N3 p = reference N2 p).
  { intros p Hp [q Hq]. apply (ad_frame _ _ _ _ _ _ _ AD).
    - apply reference_valid in Hq as (k & Hk & _). apply (go_fresh _ (gr_graph _ _ _ _ _ GR)). by rewrite Hk.
    - intros i e sp _ He Heq. rewrite <- Heq in Hq.
      by rewrite (at_free _ _ _ _ finish_attachable _ _ _ He) in Hq. }
  assert (Hin : port a ∈ wire_ports W /\ port c ∈ wire_ports W).
  { unfold wire_ports. split; apply list_elem_of_bind; exists (a, c); split; set_solver. }
  split.
  - rewrite (own_sign N3 (port a) c); [by rewrite Hs|]. by rewrite Hkeep by (rewrite ?Ha; tauto || done).
  - rewrite (own_sign N3 (port c) a); [by rewrite Hs, opposite_opposite|]. by rewrite Hkeep by (rewrite ?Hc; tauto || done).
Qed.

Lemma final_nodes_wf m k : node_at N3 m = Some k -> node_wf k (fun i => own N3 (MkPort m i)).
Proof.
  intros Hk. destruct (final_node_cases m k Hk) as [(Hm & Hon & HkN)|[(j & -> & Hj)|[-> Hs]]].
  - pose proof (nw_nodes _ WF _ _ HkN) as Hwf. revert Hwf.
    assert (Hown : forall i, own N3 (MkPort m i) = own N (MkPort m i)) by (intros i; by apply survivor_own).
    destruct k; cbn; by rewrite ?Hown.
  - apply (proj2 (Hkinds j k Hj)).
    + intros i p Hi. apply (own_end i true (MkSignedPort p (sgn b i))). by apply replaced_end.
    + apply wire_own.
  - exact Hs.
Qed.

Lemma final_active : active_ok (with_active N3 (delete (active_pair_key l r) (active N3))) None.
Proof.
  intros k. change (is_Some (delete (active_pair_key l r) (active N3) !! k) <-> None = Some k \/ pwire N3 k).
  assert (Hgone : ~ pwire N3 (active_pair_key l r)).
  { intros (m & s' & Hm & _). apply reference_valid in Hm as (k' & Hk' & _). cbn in Hk'.
    pose proof key_on_pair as Hon. pose proof (pair_valid _ Hon) as Hlt.
    rewrite final_old in Hk' by done. by rewrite decide_True in Hk' by done. }
  pose proof (ad_active _ _ _ _ _ _ _ AD k) as Hk. rewrite lookup_delete_is_Some.
  split.
  - intros [Hne Hs]. apply Hk in Hs as [Heq|?]; [|by right]. destruct Hpending; congruence.
  - intros [?|Hp]; [done|]. split; [intros Heq; by rewrite Heq in Hgone|]. apply Hk. by right.
Qed.

Lemma final_frontiers : frontiers_ok N3.
Proof.
  destruct (nw_frontiers _ WF) as [H1 H2]. destruct Hordinary as [Hcl Hcr].
  assert (Hcop : copies N3 = copies N).
  { rewrite (sr_copies _ _ (ad_rest _ _ _ _ _ _ _ AD)), (sr_copies _ _ (gr_rest _ _ _ _ _ GR)).
    apply (sr_copies _ _ (ct_rest _ _ _ _ _ _ CT)). }
  assert (Hcur : forall cur c rm, node_at N cur = Some (RRemoteCursor c rm) -> ~ on_pair l r cur).
  { intros cur c rm Hcur [-> | ->]; [rewrite Hl in Hcur|rewrite Hr in Hcur]; by simplify_eq. }
  split.
  - intros c st rm cur Hc Hf. rewrite Hcop in Hc. specialize (H1 c st rm cur Hc Hf).
    assert (cur < next_node_id N) by (apply (go_fresh _ (nw_graph _ WF)); by rewrite H1).
    pose proof (Hcur _ _ _ H1). by rewrite final_old, decide_False by done.
  - intros cur c rm Hc. rewrite Hcop. destruct (final_node_cases _ _ Hc) as [(_ & _ & Hk)|[(j & -> & Hj)|[? _]]].
    + by apply H2.
    + by destruct (Hkinds j _ Hj) as [? _].
    + done.
Qed.

Lemma finish_rewritten : rewritten N l r N3.
Proof.
  assert (Hrest : same_rest N N3).
  { eapply same_rest_trans; [apply CT|]. eapply same_rest_trans; [apply GR|apply AD]. }
  split.
  - split; [split|].
    + apply graph_ok_active, AD.
    + apply final_nodes_wf.
    + intros p Hp. change (rt_exposed N3 = Some p) in Hp. rewrite (sr_exposed _ _ Hrest) in Hp.
      destruct (nw_exposed _ WF p Hp) as [Hi Hn]. split; [done|].
      assert (Hlt : node p < next_node_id N) by (apply (go_fresh _ (nw_graph _ WF)); by rewrite Hn).
      assert (Hon : ~ on_pair l r (node p)).
      { pose proof (nw_nodes _ WF _ _ Hn) as [H0 _]. apply own_None in H0.
        change (reference N (principal (node p)) = None) in H0.
        intros [He|He]; rewrite He in H0; [by rewrite Hpair in H0|by rewrite pair_reverse in H0]. }
      change (node_at N3 (node p) = Some RInterface). by rewrite final_old, decide_False by done.
    + exact final_frontiers.
    + apply final_active.
  - eapply states_kept_trans; [apply states_kept_refl; apply CT|]. eapply states_kept_trans; [apply GR|apply AD].
  - assert (Hboth : on_pair l r l /\ on_pair l r r) by (unfold on_pair; auto). destruct Hboth as [Hol Hor].
    by rewrite !final_old, !decide_True by (done || by apply pair_valid).
  - pose proof (ad_next _ _ _ _ _ _ _ AD). rewrite next_grown in *. lia.
  - intros m Hm Hon. by rewrite final_old, decide_False by done.
  - apply survivor_own.
  - intros p q Hp Hq Href. assert (Hlt : node p < next_node_id N).
    { apply reference_valid in Href as (k & Hk & _). apply (go_fresh _ (nw_graph _ WF)). by rewrite Hk. }
    destruct (survivor_cases p Hlt Hp) as [[-> _]|(i & sp & _ & _ & _ & q' & Hq' & Hon)]; [done|congruence].
  - rewrite (ad_obligations _ _ _ _ _ _ _ AD), (gr_obligations _ _ _ _ _ GR). apply CT.
  - done.
Qed.

End finish.

Lemma rewrite_finish_active {S : NetSpecialization} N l r s ports kl kr N1 b K W N2 rs pending :
  net_core N -> (pending = Some (active_pair_key l r) \/ pending = None) -> reference N (principal l) = Some (MkSignedPort (principal r) s) -> sockets N l r ports ->
  quiet N l r -> node_at N l = Some kl -> node_at N r = Some kr -> cut N l r ports N1 b ->
  grown N1 pending K W N2 -> replacements_ok N1 b K W rs ->
  (Z.of_nat (next_node_id N + length K + length b) <= u64_max)%Z ->
  (forall j k, K !! j = Some k -> is_cursor k = false /\ forall own',
    (forall i p, rs !! i = Some (RPort p) -> own' p = Some (sgn b i)) ->
    (forall a c, (a, c) ∈ W -> own' (port a) = Some (sign a) /\ own' (port c) = Some (sign c)) ->
    node_wf k (fun i => own' (MkPort (next_node_id N + j) i))) ->
  is_cursor kl = false /\ is_cursor kr = false ->
  attachable b rs N2 pending /\
  exists N3, attach_boundary N2 b rs = Ok N3 /\ rewritten N l r N3 /\ active_ok N3 pending /\
    forall m, m < next_node_id N2 -> node_at N3 m = node_at N2 m.
Proof.
  intros WF Hpend Hp SO Q Hl Hr CT GR RO Hroom HK Hord.
  pose proof (finish_attachable N l r s ports kl kr N1 b K W N2 rs pending WF Hpend Hp SO Q Hl Hr CT GR RO Hroom) as AT.
  destruct (attach_spec b rs (finish_boundary_ok N l r ports N1 b K W rs WF SO CT RO) N2 pending AT)
    as (N3 & v & Hat & AD & Hall).
  split; [done|]. exists N3. split; [done|]. split; [|split; apply AD].
  eapply (finish_rewritten N l r s ports kl kr N1 b K W N2 rs pending); done.
Qed.

Lemma rewrite_finish {S : NetSpecialization} N l r s ports kl kr N1 b K W N2 rs pending :
  net_core N -> (pending = Some (active_pair_key l r) \/ pending = None) -> reference N (principal l) = Some (MkSignedPort (principal r) s) -> sockets N l r ports ->
  quiet N l r -> node_at N l = Some kl -> node_at N r = Some kr -> cut N l r ports N1 b ->
  grown N1 pending K W N2 -> replacements_ok N1 b K W rs ->
  (Z.of_nat (next_node_id N + length K + length b) <= u64_max)%Z ->
  (forall j k, K !! j = Some k -> is_cursor k = false /\ forall own',
    (forall i p, rs !! i = Some (RPort p) -> own' p = Some (sgn b i)) ->
    (forall a c, (a, c) ∈ W -> own' (port a) = Some (sign a) /\ own' (port c) = Some (sign c)) ->
    node_wf k (fun i => own' (MkPort (next_node_id N + j) i))) ->
  is_cursor kl = false /\ is_cursor kr = false ->
  exists N3, attach_boundary N2 b rs = Ok N3 /\ rewritten N l r N3.
Proof.
  intros WF Hpend Hp SO Q Hl Hr CT GR RO Hroom HK Hord.
  destruct (rewrite_finish_active N l r s ports kl kr N1 b K W N2 rs pending) as (_ & N3 & Hat & RW & _); try done.
  by exists N3.
Qed.

(** ** The rules *)
Section rule_proofs.
Context {S : NetSpecialization}.
Implicit Types (N : RuntimeNet) (l r n : nat).

Definition aux_list (n c : nat) : list Port := MkPort n <$> seq 1 c.

Lemma auxiliary_ok n i : 1 <= i <= 2 -> auxiliary (E:=Empty_set) n i = Ok (MkPort n i).
Proof. intros Hi. unfold auxiliary. by rewrite decide_True. Qed.

Lemma auxiliary_ports_ok n c : c <= 2 -> auxiliary_ports n c = Ok (aux_list n c).
Proof. intros Hc. destruct c as [|[|[|c]]]; [done|done|done|lia]. Qed.

(** How many auxiliary ports an ordinary agent has. *)
Definition aux_count (k : RuntimeNode Data Operator Checkpoint) : nat := runtime_port_count k - 1.

Lemma wf_wired N n k i :
  net_core N -> node_at N n = Some k -> 1 <= i < runtime_port_count k -> is_Some (reference N (MkPort n i)).
Proof.
  intros W Hk Hi. pose proof (nw_nodes _ W _ _ Hk) as Hwf.
  assert (Hs : exists s, own N (MkPort n i) = Some s).
  { destruct k; cbn in *; destruct i as [|[|[|i]]]; try lia; naive_solver. }
  destruct Hs as [s Hs]. apply own_reference in Hs as [q ->]. done.
Qed.

Lemma aux_list_elem n c p : p ∈ aux_list n c <-> node p = n /\ 1 <= index p <= c.
Proof.
  unfold aux_list. rewrite list_elem_of_fmap. split.
  - intros (i & -> & Hi). apply elem_of_seq in Hi. cbn. lia.
  - intros [<- Hi]. exists (index p). split; [by destruct p|]. apply elem_of_seq. lia.
Qed.

Lemma pair_sockets N l r kl kr :
  net_core N -> node_at N l = Some kl -> node_at N r = Some kr -> l <> r ->
  sockets N l r (aux_list l (aux_count kl) ++ aux_list r (aux_count kr)).
Proof.
  intros W Hl Hr Hne. unfold aux_count. split.
  - apply list.NoDup_app. split; [|split].
    + apply (NoDup_fmap_2 _); apply list.NoDup_seq.
    + intros p [H1 _]%aux_list_elem [H2 _]%aux_list_elem. congruence.
    + apply (NoDup_fmap_2 _); apply list.NoDup_seq.
  - intros [pn pi]. rewrite elem_of_app, !aux_list_elem. unfold on_pair. cbn [node index].
    assert (Hpc : forall k : RuntimeNode Data Operator Checkpoint, 1 <= runtime_port_count k) by (intros []; cbn; lia).
    pose proof (Hpc kl). pose proof (Hpc kr). split.
    + intros [[-> Hi]|[-> Hi]]; (split; [tauto|]); (split; [lia|]); (eapply wf_wired; [done..|lia]).
    + intros (Hn & Hi & q & Hq). apply reference_valid in Hq as (k & Hk & Hik). cbn in *.
      destruct Hn as [-> | ->]; [left|right]; (split; [done|]); [rewrite Hl in Hk|rewrite Hr in Hk]; injection Hk as <-; lia.
Qed.

Lemma ordinary_not_obligated N n k : net_core N -> node_at N n = Some k -> is_cursor k = false -> ~ obligated N n.
Proof.
  intros W Hk Hc [o Ho]. destruct (go_obligations _ (nw_graph _ W) _ _ Ho) as (_ & (c & rm & Hcur) & _).
  rewrite Hk in Hcur. by injection Hcur as ->.
Qed.

(** The start of every rule: the pair is cut out, with one socket per
    auxiliary port. *)
Lemma rule_start N l r s kl kr :
  net_core N -> reference N (principal l) = Some (MkSignedPort (principal r) s) ->
  node_at N l = Some kl -> node_at N r = Some kr -> is_cursor kl = false -> is_cursor kr = false ->
  let ports := aux_list l (aux_count kl) ++ aux_list r (aux_count kr) in
  sockets N l r ports /\
  exists N1 N2 b, disconnect N (principal l) = Ok (N1, Some (principal r)) /\
    detach_boundary N1 ports = Ok (N2, b) /\ (forall n, node_at N1 n = node_at N n) /\
    length b = aux_count kl + aux_count kr /\
    (forall i p, ports !! i = Some p -> own N p = Some (sgn b i)) /\
    (exists N3 N4, remove_node N2 l = Ok (N3, kl) /\ remove_node N3 r = Ok (N4, kr) /\ cut N l r ports N4 b) /\
    (exists N3 N4, remove_node N2 r = Ok (N3, kr) /\ remove_node N3 l = Ok (N4, kl) /\ cut N l r ports N4 b).
Proof.
  intros W Hp Hl Hr Hcl Hcr ports.
  assert (Hne : l <> r) by (intros ->; by apply (sym_not_self _ _ _ (nw_graph _ W)) in Hp).
  pose proof (pair_sockets N l r kl kr W Hl Hr Hne) as SO. split; [done|].
  destruct (cut_pair N l r s ports kl kr (nw_graph _ W) Hp SO Hl Hr)
    as (N1 & N2 & b & Hd & Hb & Hn1 & (N3 & N4 & H3 & H4 & CT) & Hother);
    [by eapply ordinary_not_obligated..|].
  exists N1, N2, b. split; [done|]. split; [done|]. split; [done|]. split; [|split; [|split; [by eauto|done]]].
  - rewrite <- (list.Forall2_length _ _ _ (ct_links _ _ _ _ _ _ CT)). unfold ports, aux_list.
    by rewrite length_app, !length_fmap, !length_seq.
  - intros i p Hi. by eapply sgn_own.
Qed.

(** The signs of an active pair's principals are opposite. *)
Lemma pair_signs N l r s :
  net_core N -> reference N (principal l) = Some (MkSignedPort (principal r) s) ->
  own N (MkPort l 0) = Some (opposite s) /\ own N (MkPort r 0) = Some s.
Proof.
  intros W Hp. split.
  - apply (own_sign _ _ _ Hp).
  - apply (go_sym _ (nw_graph _ W)) in Hp. apply own_sign in Hp. cbn in Hp. by rewrite opposite_opposite in Hp.
Qed.

Definition room N : Prop := (Z.of_nat (next_node_id N) + 8 <= u64_max)%Z.

Lemma grown_start N l r s ports N1 b :
  net_wf N -> reference N (principal l) = Some (MkSignedPort (principal r) s) -> cut N l r ports N1 b ->
  grown N1 (Some (active_pair_key l r)) [] [] N1.
Proof. intros W Hp CT. apply grown_refl; [apply CT|]. eapply cut_active; [apply W|apply W|done..]. Qed.

Lemma rt_join_spec N l r s kl kr pairing :
  net_wf N -> reference N (principal l) = Some (MkSignedPort (principal r) s) ->
  node_at N l = Some kl -> node_at N r = Some kr -> quiet N l r -> room N ->
  (kl = RBind /\ kr = RBind /\ pairing = Crossed) \/
  (exists i j, kl = RFan i /\ kr = RFan j /\ pairing = Positional) ->
  exists N', rt_join N l r 2 pairing = Ok N' /\ rewritten N l r N'.
Proof.
  intros W Hp Hl Hr Q Hroom Hkind.
  assert (Hc : is_cursor kl = false /\ is_cursor kr = false /\ aux_count kl = 2 /\ aux_count kr = 2).
  { destruct Hkind as [(-> & -> & _)|(i & j & -> & -> & _)]; done. }
  destruct Hc as (Hcl & Hcr & Hal & Har).
  destruct (rule_start N l r s kl kr W Hp Hl Hr Hcl Hcr)
    as (SO & N1 & N2 & b & Hd & Hb & _ & Hlen & Hown & (N3 & N4 & H3 & H4 & CT) & _).
  rewrite Hal, Har in *. unfold rt_join. rewrite Hd. cbn [mbind outcome_bind].
  rewrite !auxiliary_ports_ok by lia. cbn [mbind outcome_bind]. rewrite Hb. cbn [mbind outcome_bind].
  rewrite H3. cbn [mbind outcome_bind]. rewrite H4. cbn [mbind outcome_bind].
  eapply (rewrite_finish N l r s _ kl kr N4 b [] [] N4); try done.
  - apply W.
  - by left.
  - by eapply grown_start.
  - assert (Hs : forall i j, join_replacements pairing (length b) !! i = Some (RSocket j) ->
              join_replacements pairing (length b) !! j = Some (RSocket i) /\ sgn b j = opposite (sgn b i)).
    { rewrite Hlen. pose proof (Hown 0 _ eq_refl) as O0. pose proof (Hown 1 _ eq_refl) as O1.
      pose proof (Hown 2 _ eq_refl) as O2. pose proof (Hown 3 _ eq_refl) as O3.
      pose proof (nw_nodes _ W _ _ Hl) as Wl. pose proof (nw_nodes _ W _ _ Hr) as Wr.
      destruct (pair_signs N l r s W Hp) as [Pl Pr].
      destruct Hkind as [(-> & -> & ->)|(i1 & i2 & -> & -> & ->)]; cbn in Wl, Wr.
      - destruct Wl as (_ & L1 & L2), Wr as (_ & R1 & R2). rewrite L1 in O0. rewrite L2 in O1. rewrite R1 in O2. rewrite R2 in O3.
        injection O0 as O0. injection O1 as O1. injection O2 as O2. injection O3 as O3.
        intros [|[|[|[|i]]]] j; cbn; intros [= <-]; (split; [done|]); by rewrite <- ?O0, <- ?O1, <- ?O2, <- ?O3.
      - destruct Wl as (sl & L0 & L1 & L2), Wr as (sr & R0 & R1 & R2).
        rewrite L0 in Pl. rewrite R0 in Pr. rewrite L1 in O0. rewrite L2 in O1. rewrite R1 in O2. rewrite R2 in O3.
        injection O0 as O0. injection O1 as O1. injection O2 as O2. injection O3 as O3.
        injection Pl as ->. injection Pr as ->.
        intros [|[|[|[|i]]]] j; cbn; intros [= <-]; (split; [done|]); rewrite <- ?O0, <- ?O1, <- ?O2, <- ?O3; by destruct s. }
    split; [unfold join_replacements; by rewrite length_fmap, length_seq|done| |].
    + intros i p Hi. unfold join_replacements in Hi. rewrite list_lookup_fmap in Hi. by destruct (seq _ _ !! i).
    + intros i j p Hi. unfold join_replacements in Hi. rewrite list_lookup_fmap in Hi. by destruct (seq _ _ !! i).
  - unfold room in Hroom. rewrite Hlen. cbn. lia.
Qed.

Lemma grown_adds N pending ks : forall K W N',
  grown N pending K W N' -> (Z.of_nat (next_node_id N + length K + length ks) <= u64_max)%Z ->
  exists N2, add_nodes N' ks = Ok (N2, seq (next_node_id N + length K) (length ks)) /\
    grown N pending (K ++ ks) W N2.
Proof.
  induction ks as [|k ks IH]; intros K W N' GR Hroom.
  { exists N'. cbn. by rewrite app_nil_r. }
  cbn [length] in *. destruct (grown_add N pending K W N' k GR) as (N2 & H2 & GR2); [lia|].
  destruct (IH _ _ _ GR2) as (N3 & H3 & GR3); [rewrite length_app; cbn; lia|].
  exists N3. cbn [add_nodes]. rewrite H2. cbn [mbind outcome_bind]. rewrite H3. cbn [mbind outcome_bind].
  rewrite length_app in *. cbn [length seq] in *. split; [|by rewrite <- app_assoc in GR3].
  do 4 f_equal. lia.
Qed.

Lemma new_port_intro N K j k m i :
  K !! j = Some k -> m = next_node_id N + j -> i < runtime_port_count k -> new_port N K (MkPort m i).
Proof. intros HK -> Hi. by exists j, k. Qed.

(** The duplicating rules replace each socket with the principal of the new
    node in the same position. *)
Definition principal_replacements (ns : list nat) : list BoundaryReplacement :=
  (fun n => RPort (principal n)) <$> ns.

Lemma principal_replacements_lookup n m i x :
  principal_replacements (seq n m) !! i = Some x <-> i < m /\ x = RPort (principal (n + i)).
Proof.
  unfold principal_replacements. rewrite list_lookup_fmap, fmap_Some. setoid_rewrite lookup_seq. naive_solver.
Qed.

Lemma principal_replacements_ok N1 b K W :
  length K = length b -> (forall p, p ∈ wire_ports W -> index p <> 0) ->
  replacements_ok N1 b K W (principal_replacements (seq (next_node_id N1) (length K))).
Proof.
  intros Hlen HW. split.
  - unfold principal_replacements. by rewrite length_fmap, length_seq.
  - intros i j [_ ?]%principal_replacements_lookup. done.
  - intros i p [Hi [= ->]]%principal_replacements_lookup. split.
    + destruct (lookup_lt_is_Some_2 K i Hi) as [k Hk]. apply (new_port_intro _ _ i k); [done..|]. destruct k; cbn; lia.
    + intros Hin%HW. done.
  - intros i j p [Hi [= ->]]%principal_replacements_lookup [Hj [= Heq]]%principal_replacements_lookup. lia.
Qed.

(** The signs that the new nodes' ports take. *)
Lemma principal_replacements_own n m b own' :
  (forall i p, principal_replacements (seq n m) !! i = Some (RPort p) -> own' p = Some (sgn b i)) ->
  forall i, i < m -> own' (MkPort (n + i) 0) = Some (sgn b i).
Proof. intros H i Hi. apply (H i). by apply principal_replacements_lookup. Qed.

Lemma duplicate_data_spec {P : PayloadDuplicator S} N fan data s identity d :
  net_wf N -> reference N (principal fan) = Some (MkSignedPort (principal data) s) ->
  node_at N fan = Some (RFan identity) -> node_at N data = Some (RData d) -> quiet N fan data -> room N ->
  exists N', duplicate_data_rule N fan data = Ok N' /\ rewritten N fan data N'.
Proof.
  intros W Hp Hl Hr Q Hroom.
  destruct (rule_start N fan data s _ _ W Hp Hl Hr eq_refl eq_refl)
    as (SO & N1 & N2 & b & Hd & Hb & _ & Hlen & Hown & _ & (N3 & N4 & H3 & H4 & CT)).
  unfold duplicate_data_rule. rewrite Hd. cbn [mbind outcome_bind].
  rewrite auxiliary_ports_ok by lia. cbn [mbind outcome_bind].
  change (aux_list data (aux_count (RData d))) with (@nil Port) in *. rewrite app_nil_r in *.
  change (aux_count (RFan identity)) with 2 in *. change (2 + aux_count (RData d)) with 2 in *.
  rewrite Hb. cbn [mbind outcome_bind].
  rewrite H3. cbn [mbind outcome_bind]. rewrite H4. cbn [mbind outcome_bind].
  unfold room in Hroom. pose proof (ct_next _ _ _ _ _ _ CT) as Hnx.
  destruct (grown_adds N4 _ (replicate (length b) (RData (duplicate_data d))) _ _ _ (grown_start _ _ _ _ _ _ _ W Hp CT))
    as (N5 & -> & GR); [rewrite length_replicate, Hlen; cbn; lia|].
  cbn [mbind outcome_bind]. rewrite app_nil_l in GR. rewrite Nat.add_0_r.
  eapply (rewrite_finish N fan data s _ _ _ N4 b _ _ N5); try done.
  - apply W.
  - by left.
  - apply principal_replacements_ok; [by rewrite length_replicate|]. intros p Hp'. by apply not_elem_of_nil in Hp'.
  - rewrite length_replicate, Hlen. lia.
  - intros j k Hj. apply lookup_replicate in Hj as [-> Hj]. split; [done|]. intros own' Hrs _. cbn.
    rewrite length_replicate, Hnx in Hrs. rewrite (principal_replacements_own _ _ _ _ Hrs j Hj). f_equal.
    destruct (pair_signs N fan data s W Hp) as [Pl Pr].
    pose proof (nw_nodes _ W _ _ Hl) as (sl & L0 & L1 & L2). pose proof (nw_nodes _ W _ _ Hr) as R0. cbn in R0.
    rewrite Hlen in Hj. destruct j as [|[|j]]; [| |lia].
    + specialize (Hown 0 _ eq_refl). rewrite L1 in Hown. injection Hown as <-.
      rewrite Pl in L0. rewrite Pr in R0. injection L0 as <-. injection R0 as ->. done.
    + specialize (Hown 1 _ eq_refl). rewrite L2 in Hown. injection Hown as <-.
      rewrite Pl in L0. rewrite Pr in R0. injection L0 as <-. injection R0 as ->. done.
Qed.

(** Decides membership in a concrete list of ports. *)
Local Ltac port_ne := let H := fresh in intros H; injection H; intros; lia.
Local Ltac not_in :=
  cbn; rewrite ?not_elem_of_cons; repeat split; try apply not_elem_of_nil; try port_ne.

Lemma grown_wire_copies N pending K W N' c0 c1 aux res s :
  graph_ok N -> (forall k, pending = Some k -> k < next_node_id N /\ node_at N k = None) ->
  grown N pending K W N' -> 1 <= aux <= 2 -> c0 <> c1 -> c0 <> res -> c1 <> res ->
  (forall p, p ∈ [MkPort c0 aux; MkPort c1 aux; MkPort res 1; MkPort res 2] ->
     new_port N K p /\ p ∉ wire_ports W) ->
  exists N2, wire_copies N' [c0; c1] aux res s = Ok N2 /\
    grown N pending K (W ++ [(MkSignedPort (MkPort c0 aux) s, MkSignedPort (MkPort res 1) (opposite s));
                             (MkSignedPort (MkPort c1 aux) s, MkSignedPort (MkPort res 2) (opposite s))]) N2.
Proof.
  intros G Hpend GR Haux H01 H0r H1r Hnew.
  assert (HA : forall c, auxiliary (E:=Empty_set) c aux = Ok (MkPort c aux)) by (intros; unfold auxiliary; by rewrite decide_True).
  unfold wire_copies. change (imap pair [c0; c1]) with [(0, c0); (1, c1)]. cbn [foldM].
  destruct (grown_wire N pending K W N' (MkSignedPort (MkPort c0 aux) s) (MkSignedPort (MkPort res 1) (opposite s)))
    as (N1 & H1 & GR1); cbn [port sign]; try done;
    [apply Hnew; set_solver..|port_ne|by rewrite opposite_opposite|].
  destruct (grown_wire N pending K _ N1 (MkSignedPort (MkPort c1 aux) s) (MkSignedPort (MkPort res 2) (opposite s)) G Hpend GR1)
    as (N2 & H2 & GR2); cbn [port sign]; try done; [apply Hnew; set_solver..| | |port_ne|by rewrite opposite_opposite|].
  1,2: unfold wire_ports; rewrite bind_app, not_elem_of_app; split; [apply Hnew; set_solver|not_in].
  exists N2. rewrite (HA c0), (HA c1). cbn [mbind outcome_bind Nat.add].
  change (auxiliary res 1) with (Ok (E:=Empty_set) (MkPort res 1)). change (auxiliary res 2) with (Ok (E:=Empty_set) (MkPort res 2)).
  cbn [mbind outcome_bind]. rewrite H1. cbn [mbind outcome_bind]. rewrite H2.
  split; [done|]. by rewrite <- app_assoc in GR2.
Qed.

Lemma cut_pending N l r ports N1 b kl kr :
  net_core N -> node_at N l = Some kl -> node_at N r = Some kr -> cut N l r ports N1 b ->
  forall k, Some (active_pair_key l r) = Some k -> k < next_node_id N1 /\ node_at N1 k = None.
Proof.
  intros W Hl Hr CT k [= <-]. pose proof (key_on_pair l r) as Hon.
  rewrite (ct_next _ _ _ _ _ _ CT), (ct_node _ _ _ _ _ _ CT), decide_True by done.
  split; [|done]. by apply (pair_valid N l r kl kr).
Qed.

Lemma duplicate_operator_spec {P : PayloadDuplicator S} N fan operator s identity o :
  net_wf N -> reference N (principal fan) = Some (MkSignedPort (principal operator) s) ->
  node_at N fan = Some (RFan identity) -> node_at N operator = Some (ROperator o) -> quiet N fan operator -> room N ->
  exists N', duplicate_operator_rule N fan identity operator = Ok N' /\ rewritten N fan operator N'.
Proof.
  intros W Hp Hl Hr Q Hroom.
  destruct (rule_start N fan operator s _ _ W Hp Hl Hr eq_refl eq_refl)
    as (SO & N1 & N2 & b & Hd & Hb & _ & Hlen & Hown & _ & (N3 & N4 & H3 & H4 & CT)).
  unfold duplicate_operator_rule. rewrite Hd. cbn [mbind outcome_bind].
  rewrite !auxiliary_ports_ok by lia. cbn [mbind outcome_bind].
  change (aux_count (RFan identity)) with 2 in *. change (aux_count (ROperator o)) with 1 in *.
  rewrite Hb. cbn [mbind outcome_bind]. rewrite H3. cbn [mbind outcome_bind]. rewrite H4. cbn [mbind outcome_bind].
  unfold room in Hroom. pose proof (ct_next _ _ _ _ _ _ CT) as Hnx. set (n := next_node_id N4) in *.
  pose proof (cut_pending _ _ _ _ _ _ _ _ W Hl Hr CT) as Hpend.
  destruct (grown_adds N4 _ (replicate 2 (ROperator (duplicate_operator o))) _ _ _ (grown_start _ _ _ _ _ _ _ W Hp CT))
    as (N5 & -> & GR5); [cbn; lia|]. cbn [mbind outcome_bind length replicate seq]. fold n.
  destruct (grown_add _ _ _ _ _ (RFan identity) GR5) as (N6 & -> & GR6); [cbn; lia|]. cbn [mbind outcome_bind app length replicate] in *. fold n.
  assert (Hs : socket_sign b 2 = Ok (sgn b 2)).
  { unfold socket_sign, sgn. destruct (vec_get_lt (E:=Empty_set) b 2) as (k & Hk & ->); [lia|]. cbn. by rewrite Hk. }
  rewrite Hs. cbn [mbind outcome_bind]. rewrite Nat.add_0_r.
  destruct (grown_wire_copies N4 _ _ _ _ n (Datatypes.S n) 1 (n + 2) (sgn b 2) (ct_graph _ _ _ _ _ _ CT) Hpend GR6)
    as (N7 & -> & GR7); [lia..| |].
  { intros p Hin. split; [|by apply not_elem_of_nil].
    rewrite !elem_of_cons in Hin. destruct Hin as [-> |[-> |[-> |[-> |Hin]]]]; [..|by apply not_elem_of_nil in Hin].
    - eapply (new_port_intro _ _ 0); [reflexivity|lia|cbn; lia].
    - eapply (new_port_intro _ _ 1); [reflexivity|lia|cbn; lia].
    - eapply (new_port_intro _ _ 2); [reflexivity|lia|cbn; lia].
    - eapply (new_port_intro _ _ 2); [reflexivity|lia|cbn; lia]. }
  cbn [mbind outcome_bind]. rewrite app_nil_l in GR7.
  replace [n; Datatypes.S n; n + 2] with (seq n 3) by (cbn; repeat f_equal; lia).
  pose proof (nw_nodes _ W _ _ Hl) as (sl & L0 & L1 & L2). pose proof (nw_nodes _ W _ _ Hr) as (R0 & R1).
  destruct (pair_signs N fan operator s W Hp) as [Pl Pr]. rewrite L0 in Pl. rewrite R0 in Pr. injection Pl as ->. injection Pr as <-.
  assert (Hsg : sgn b 0 = Consumes /\ sgn b 1 = Consumes /\ sgn b 2 = Provides).
  { pose proof (Hown 0 _ eq_refl) as O0. pose proof (Hown 1 _ eq_refl) as O1. pose proof (Hown 2 _ eq_refl) as O2.
    rewrite L1 in O0. rewrite L2 in O1. rewrite R1 in O2. injection O0 as <-. injection O1 as <-. injection O2 as <-. done. }
  destruct Hsg as (S0 & S1 & S2).
  eapply (rewrite_finish N fan operator _ _ _ _ N4 b _ _ N7); try done.
  - apply W.
  - by left.
  - apply (principal_replacements_ok N4 b [ROperator (duplicate_operator o); ROperator (duplicate_operator o); RFan identity]); [done|].
    intros p Hin. cbn in Hin. rewrite !elem_of_cons in Hin.
    destruct Hin as [-> |[-> |[-> |[-> |Hin]]]]; try done. by apply not_elem_of_nil in Hin.
  - cbn. rewrite Hlen. lia.
  - intros j k Hj. rewrite <- Hnx. split; [destruct j as [|[|[|j]]]; cbn in Hj; by simplify_eq|].
    intros own' Hrs HW. pose proof (principal_replacements_own _ _ _ _ Hrs) as Hp'.
    destruct (HW _ _ ltac:(left)) as [W1 W2]. destruct (HW _ _ ltac:(right; left)) as [W3 W4]. cbn in W1, W2, W3, W4.
    rewrite S2 in *. destruct j as [|[|[|j]]]; [..|done]; injection Hj as <-; cbn.
    + rewrite (Hp' 0) by lia. rewrite Nat.add_0_r, S0. done.
    + rewrite (Hp' 1) by lia. replace (n + 1) with (Datatypes.S n) by lia. by rewrite S1.
    + exists Provides. rewrite (Hp' 2) by lia. by rewrite S2.
Qed.

Lemma socket_sign_sgn b i : i < length b -> socket_sign b i = Ok (sgn b i).
Proof.
  intros Hi. unfold socket_sign, sgn. destruct (vec_get_lt (E:=Empty_set) b i Hi) as (k & Hk & ->). cbn. by rewrite Hk.
Qed.

(** The new wires of a duplicated bind: auxiliary [i] of each copy goes to
    the residual fan of the original's auxiliary [i]. *)
Definition bind_wires (n : nat) (s1 s2 : Sign) : list (SignedPort * SignedPort) :=
  [(MkSignedPort (MkPort n 1) s1, MkSignedPort (MkPort (n + 2) 1) (opposite s1));
   (MkSignedPort (MkPort (Datatypes.S n) 1) s1, MkSignedPort (MkPort (n + 2) 2) (opposite s1));
   (MkSignedPort (MkPort n 2) s2, MkSignedPort (MkPort (n + 3) 1) (opposite s2));
   (MkSignedPort (MkPort (Datatypes.S n) 2) s2, MkSignedPort (MkPort (n + 3) 2) (opposite s2))].

Lemma bind_copies N1 pending b identity :
  graph_ok N1 -> (forall k, pending = Some k -> k < next_node_id N1 /\ node_at N1 k = None) ->
  grown N1 pending [] [] N1 -> length b = 4 -> (Z.of_nat (next_node_id N1) + 4 <= u64_max)%Z ->
  let n := next_node_id N1 in
  exists N2 N3, add_nodes N1 [RBind; RBind] = Ok (N2, [n; Datatypes.S n]) /\
    foldM (fun '(N, residuals) aux =>
      '(N, residual) ← add_node N (RFan identity);
      s ← socket_sign b (2 + aux);
      N ← wire_copies N [n; Datatypes.S n] (aux + 1) residual s;
      Ok (N, residuals ++ [residual])) (N2, []) (seq 0 2) = Ok (N3, [n + 2; n + 3]) /\
    grown N1 pending [RBind; RBind; RFan identity; RFan identity] (bind_wires n (sgn b 2) (sgn b 3)) N3.
Proof.
  intros G Hpend GR0 Hlen Hroom n.
  destruct (grown_adds N1 _ [RBind; RBind] _ _ _ GR0) as (N2 & H2 & GR2); [cbn; lia|].
  cbn [length seq app] in *. fold n in H2. rewrite Nat.add_0_r in H2.
  destruct (grown_add _ _ _ _ _ (RFan identity) GR2) as (N3 & H3 & GR3); [cbn; lia|]. cbn [app length] in *.
  destruct (grown_wire_copies N1 _ _ _ _ n (Datatypes.S n) 1 (n + 2) (sgn b 2) G Hpend GR3) as (N4 & H4 & GR4); [lia..| |].
  { intros p Hin. split; [|by apply not_elem_of_nil]. rewrite !elem_of_cons in Hin.
    destruct Hin as [-> |[-> |[-> |[-> |Hin]]]]; [..|by apply not_elem_of_nil in Hin].
    - eapply (new_port_intro _ _ 0); [reflexivity|lia|cbn; lia].
    - eapply (new_port_intro _ _ 1); [reflexivity|lia|cbn; lia].
    - eapply (new_port_intro _ _ 2); [reflexivity|lia|cbn; lia].
    - eapply (new_port_intro _ _ 2); [reflexivity|lia|cbn; lia]. }
  destruct (grown_add _ _ _ _ _ (RFan identity) GR4) as (N5 & H5 & GR5); [cbn; lia|]. cbn [app length] in *.
  destruct (grown_wire_copies N1 _ _ _ _ n (Datatypes.S n) 2 (n + 3) (sgn b 3) G Hpend GR5) as (N6 & H6 & GR6); [lia..| |].
  { intros p Hin. rewrite !elem_of_cons in Hin.
    destruct Hin as [-> |[-> |[-> |[-> |Hin]]]]; [..|by apply not_elem_of_nil in Hin]; (split; [|not_in]).
    - eapply (new_port_intro _ _ 0); [reflexivity|lia|cbn; lia].
    - eapply (new_port_intro _ _ 1); [reflexivity|lia|cbn; lia].
    - eapply (new_port_intro _ _ 3); [reflexivity|lia|cbn; lia].
    - eapply (new_port_intro _ _ 3); [reflexivity|lia|cbn; lia]. }
  exists N2, N6. split; [done|]. split; [|done].
  cbn [seq foldM Nat.add]. fold n in H3, H5. rewrite H3. cbn [mbind outcome_bind].
  rewrite (socket_sign_sgn b 2) by lia. cbn [mbind outcome_bind]. rewrite H4. cbn [mbind outcome_bind].
  rewrite H5. cbn [mbind outcome_bind]. rewrite (socket_sign_sgn b 3) by lia. cbn [mbind outcome_bind].
  change (1 + 1) with 2. rewrite H6. done.
Qed.

Lemma duplicate_bind_spec N fan bind s identity :
  net_wf N -> reference N (principal fan) = Some (MkSignedPort (principal bind) s) ->
  node_at N fan = Some (RFan identity) -> node_at N bind = Some RBind -> quiet N fan bind -> room N ->
  exists N', duplicate_bind N fan identity bind = Ok N' /\ rewritten N fan bind N'.
Proof.
  intros W Hp Hl Hr Q Hroom.
  destruct (rule_start N fan bind s _ _ W Hp Hl Hr eq_refl eq_refl)
    as (SO & N1 & N2 & b & Hd & Hb & _ & Hlen & Hown & (N3 & N4 & H3 & H4 & CT) & _).
  unfold duplicate_bind. rewrite Hd. cbn [mbind outcome_bind].
  rewrite !auxiliary_ports_ok by lia. cbn [mbind outcome_bind].
  change (aux_count (RFan identity)) with 2 in *. change (aux_count RBind) with 2 in *.
  rewrite Hb. cbn [mbind outcome_bind]. rewrite H3. cbn [mbind outcome_bind]. rewrite H4. cbn [mbind outcome_bind].
  unfold room in Hroom. pose proof (ct_next _ _ _ _ _ _ CT) as Hnx.
  pose proof (cut_pending _ _ _ _ _ _ _ _ W Hl Hr CT) as Hpend.
  destruct (bind_copies N4 _ b identity (ct_graph _ _ _ _ _ _ CT) Hpend (grown_start _ _ _ _ _ _ _ W Hp CT) Hlen)
    as (N5 & N6 & -> & H6 & GR); [lia|]. set (n := next_node_id N4) in *.
  cbn [mbind outcome_bind]. rewrite H6. cbn [mbind outcome_bind app].
  replace [n; Datatypes.S n; n + 2; n + 3] with (seq n 4) by (cbn; repeat f_equal; lia).
  pose proof (nw_nodes _ W _ _ Hr) as (R0 & R1 & R2). cbn in R1, R2.
  assert (Hsg : sgn b 2 = Consumes /\ sgn b 3 = Provides).
  { pose proof (Hown 2 _ eq_refl) as O2. pose proof (Hown 3 _ eq_refl) as O3.
    rewrite R1 in O2. rewrite R2 in O3. injection O2 as <-. injection O3 as <-. done. }
  destruct Hsg as (S2 & S3).
  eapply (rewrite_finish N fan bind _ _ _ _ N4 b _ _ N6); try done.
  - apply W.
  - by left.
  - apply (principal_replacements_ok N4 b [RBind; RBind; RFan identity; RFan identity]); [done|].
    apply list.Forall_forall. cbn. repeat constructor; done.
  - cbn. rewrite Hlen. lia.
  - intros j k Hj. rewrite <- Hnx. split; [destruct j as [|[|[|[|j]]]]; cbn in Hj; by simplify_eq|].
    intros own' Hrs HW. pose proof (principal_replacements_own _ _ _ _ Hrs) as Hp'. unfold bind_wires in HW.
    destruct (HW _ _ ltac:(left)) as [W1 W2]. destruct (HW _ _ ltac:(right; left)) as [W3 W4].
    destruct (HW _ _ ltac:(right; right; left)) as [W5 W6]. destruct (HW _ _ ltac:(right; right; right; left)) as [W7 W8].
    cbn in W1, W2, W3, W4, W5, W6, W7, W8.
    rewrite S2, S3 in *. destruct j as [|[|[|[|j]]]]; [..|done]; injection Hj as <-; cbn.
    + rewrite (Hp' 0) by lia. by rewrite Nat.add_0_r.
    + rewrite (Hp' 1) by lia. by replace (n + 1) with (Datatypes.S n) by lia.
    + exists Consumes. rewrite (Hp' 2) by lia. by rewrite S2.
    + exists Provides. rewrite (Hp' 3) by lia. by rewrite S3.
Qed.

(** The new wires of commuting fans: a complete bipartite graph. *)
Definition fan_wires (n : nat) (s : Sign) : list (SignedPort * SignedPort) :=
  [(MkSignedPort (MkPort n 1) s, MkSignedPort (MkPort (n + 2) 1) (opposite s));
   (MkSignedPort (MkPort n 2) s, MkSignedPort (MkPort (n + 3) 1) (opposite s));
   (MkSignedPort (MkPort (n + 1) 1) s, MkSignedPort (MkPort (n + 2) 2) (opposite s));
   (MkSignedPort (MkPort (n + 1) 2) s, MkSignedPort (MkPort (n + 3) 2) (opposite s))].

(** Writing a list of wires among new ports. *)
Lemma grown_wires N pending K ws : forall W N',
  graph_ok N -> (forall k, pending = Some k -> k < next_node_id N /\ node_at N k = None) ->
  grown N pending K W N' -> NoDup (wire_ports (W ++ ws)) ->
  (forall p, p ∈ wire_ports ws -> new_port N K p) -> (forall x y, (x, y) ∈ ws -> sign x = opposite (sign y)) ->
  exists N2, foldM (fun N '(x, y) => rt_wire N x y) N' ws = Ok N2 /\ grown N pending K (W ++ ws) N2.
Proof.
  induction ws as [|[l r] ws IH]; intros W N' G Hpend GR Hnd Hnew Hs.
  { exists N'. by rewrite app_nil_r. }
  cbn [foldM].
  assert (Hnd' : NoDup (wire_ports W ++ port l :: port r :: wire_ports ws)).
  { unfold wire_ports in *. rewrite bind_app in Hnd. exact Hnd. }
  apply list.NoDup_app in Hnd' as (_ & Hdis & Hrest). rewrite !list.NoDup_cons, !not_elem_of_cons in Hrest.
  destruct (grown_wire N pending K W N' l r) as (N1 & -> & GR1); try done.
  - apply Hnew. left.
  - apply Hnew. right. left.
  - intros Hin. apply (Hdis _ Hin). left.
  - intros Hin. apply (Hdis _ Hin). right. left.
  - by destruct Hrest as [[? _] _].
  - apply Hs. left.
  - cbn [mbind outcome_bind]. destruct (IH (W ++ [(l, r)]) N1 G Hpend GR1) as (N2 & H2 & GR2).
    + by rewrite <- app_assoc.
    + intros p Hp. apply Hnew. right. by right.
    + intros x y Hxy. apply Hs. by right.
    + exists N2. split; [done|]. by rewrite <- app_assoc in GR2.
Qed.

Lemma commute_fans_spec N l r s i j :
  net_wf N -> reference N (principal l) = Some (MkSignedPort (principal r) s) ->
  node_at N l = Some (RFan i) -> node_at N r = Some (RFan j) -> quiet N l r -> room N ->
  exists N', commute_fans N l i r j = Ok N' /\ rewritten N l r N'.
Proof.
  intros W Hp Hl Hr Q Hroom.
  destruct (rule_start N l r s _ _ W Hp Hl Hr eq_refl eq_refl)
    as (SO & N1 & N2 & b & Hd & Hb & _ & Hlen & Hown & (N3 & N4 & H3 & H4 & CT) & _).
  unfold commute_fans. rewrite Hd. cbn [mbind outcome_bind].
  rewrite !auxiliary_ports_ok by lia. cbn [mbind outcome_bind].
  change (aux_count (RFan i)) with 2 in *. change (aux_count (RFan j)) with 2 in *.
  rewrite Hb. cbn [mbind outcome_bind]. rewrite H3. cbn [mbind outcome_bind]. rewrite H4. cbn [mbind outcome_bind].
  unfold room in Hroom. pose proof (ct_next _ _ _ _ _ _ CT) as Hnx. set (n := next_node_id N4) in *.
  pose proof (cut_pending _ _ _ _ _ _ _ _ W Hl Hr CT) as Hpend.
  match goal with |- context [add_nodes N4 ?ks] => set (K1 := ks) end.
  destruct (grown_adds N4 _ K1 _ _ _ (grown_start _ _ _ _ _ _ _ W Hp CT)) as (N5 & -> & GR5); [cbn; lia|].
  cbn [mbind outcome_bind]. match goal with |- context [add_nodes N5 ?ks] => set (K2 := ks) end.
  destruct (grown_adds N4 _ K2 _ _ _ GR5) as (N6 & -> & GR6); [cbn; lia|].
  cbn [mbind outcome_bind]. rewrite (socket_sign_sgn b 2) by lia. cbn [mbind outcome_bind].
  change (length ([] ++ K1)) with 2. change (length K1) with 2. change (length K2) with 2. fold n.
  replace (seq (n + length []) 2) with [n; n + 1] by (cbn; repeat f_equal; lia).
  replace (seq (n + 2) 2) with [n + 2; n + 3] by (cbn; repeat f_equal; lia).
  assert (Hnew : forall m x, m < 4 -> 1 <= x <= 2 -> new_port N4 (K1 ++ K2) (MkPort (n + m) x)).
  { intros m x Hm Hx. destruct m as [|[|[|[|m]]]]; [..|lia];
      (eapply (new_port_intro _ _ _); [| |]; [|reflexivity|]; [reflexivity|cbn; lia]). }
  destruct (grown_wires N4 _ (K1 ++ K2) (fan_wires n (sgn b 2)) [] N6 (ct_graph _ _ _ _ _ _ CT) Hpend GR6)
    as (N7 & H7 & GR7).
  { cbn. repeat (apply list.NoDup_cons; split; [not_in|]). constructor. }
  { apply list.Forall_forall. cbn. repeat constructor; try (apply Hnew; lia);
      rewrite <- (Nat.add_0_r n); apply Hnew; lia. }
  { assert (HF : Forall (fun w => sign w.1 = opposite (sign w.2)) (fan_wires n (sgn b 2))).
    { repeat constructor; cbn; by rewrite opposite_opposite. }
    rewrite list.Forall_forall in HF. intros x y Hxy. exact (HF (x, y) Hxy). }
  match goal with |- context [foldM ?f N6 ?xs ≫= _] => assert (foldM f N6 xs = Ok N7) as -> end.
  { change (imap pair [n; n + 1]) with [(0, n); (1, n + 1)]. change (imap pair [n + 2; n + 3]) with [(0, n + 2); (1, n + 3)].
    unfold fan_wires in H7. cbn [foldM] in *. apply bind_Ok in H7 as (Na & Ha & H7). apply bind_Ok in H7 as (Nb & Hb' & H7).
    apply bind_Ok in H7 as (Nc & Hc & H7). apply bind_Ok in H7 as (Nd & Hd' & H7).
    rewrite !auxiliary_ok by lia. cbn [mbind outcome_bind Nat.add]. rewrite Ha. cbn [mbind outcome_bind].
    rewrite Hb'. cbn [mbind outcome_bind]. rewrite Hc. cbn [mbind outcome_bind]. rewrite Hd'. done. }
  cbn [mbind outcome_bind app].
  replace [n; n + 1; n + 2; n + 3] with (seq n 4) by (cbn; repeat f_equal; lia).
  pose proof (nw_nodes _ W _ _ Hl) as (sl & L0 & L1 & L2). pose proof (nw_nodes _ W _ _ Hr) as (sr & R0 & R1 & R2).
  destruct (pair_signs N l r s W Hp) as [Pl Pr]. rewrite L0 in Pl. rewrite R0 in Pr. injection Pl as ->. injection Pr as ->.
  assert (Hsg : sgn b 0 = s /\ sgn b 1 = s /\ sgn b 2 = opposite s /\ sgn b 3 = opposite s).
  { pose proof (Hown 0 _ eq_refl) as O0. pose proof (Hown 1 _ eq_refl) as O1.
    pose proof (Hown 2 _ eq_refl) as O2. pose proof (Hown 3 _ eq_refl) as O3.
    rewrite L1 in O0. rewrite L2 in O1. rewrite R1 in O2. rewrite R2 in O3.
    injection O0 as <-. injection O1 as <-. injection O2 as <-. injection O3 as <-. by rewrite opposite_opposite. }
  destruct Hsg as (S0 & S1 & S2 & S3).
  eapply (rewrite_finish N l r _ _ _ _ N4 b _ _ N7); try done.
  - apply W.
  - by left.
  - apply (principal_replacements_ok N4 b (K1 ++ K2)); [done|]. apply list.Forall_forall. cbn. repeat constructor; done.
  - cbn. rewrite Hlen. lia.
  - intros m k Hm. rewrite <- Hnx. split; [destruct m as [|[|[|[|m]]]]; cbn in Hm; by simplify_eq|].
    intros own' Hrs HW. pose proof (principal_replacements_own _ _ _ _ Hrs) as Hp'. unfold fan_wires in HW. rewrite app_nil_l in HW.
    destruct (HW _ _ ltac:(left)) as [W1 W2]. destruct (HW _ _ ltac:(right; left)) as [W3 W4].
    destruct (HW _ _ ltac:(right; right; left)) as [W5 W6]. destruct (HW _ _ ltac:(right; right; right; left)) as [W7 W8].
    cbn in W1, W2, W3, W4, W5, W6, W7, W8. rewrite S2 in *. rewrite ?opposite_opposite in *.
    destruct m as [|[|[|[|m]]]]; [..|done]; injection Hm as <-; cbn.
    + exists s. rewrite (Hp' 0) by lia. by rewrite Nat.add_0_r, S0.
    + exists s. rewrite (Hp' 1) by lia. by rewrite S1.
    + exists (opposite s). rewrite (Hp' 2) by lia. by rewrite S2, opposite_opposite.
    + exists (opposite s). rewrite (Hp' 3) by lia. by rewrite S3, opposite_opposite.
Qed.

(** The kinds that interact by rewriting. *)
Definition ordinary (k : RuntimeNode Data Operator Checkpoint) : bool :=
  match k with RBind | RFan _ | RErase | RData _ | ROperator _ => true | _ => false end.

Lemma erase_spec N eraser other s k :
  net_wf N -> reference N (principal eraser) = Some (MkSignedPort (principal other) s) ->
  node_at N eraser = Some RErase -> node_at N other = Some k -> ordinary k = true -> quiet N eraser other -> room N ->
  exists N', erase N eraser other = Ok N' /\ rewritten N eraser other N'.
Proof.
  intros W Hp Hl Hr Hk Q Hroom. assert (Hc : is_cursor k = false) by (by destruct k).
  destruct (rule_start N eraser other s _ _ W Hp Hl Hr eq_refl Hc)
    as (SO & N1 & N2 & b & Hd & Hb & Hn1 & Hlen & Hown & (N3 & N4 & H3 & H4 & CT) & _).
  change (aux_list eraser (aux_count RErase)) with (@nil Port) in *. rewrite app_nil_l in *.
  change (aux_count RErase + aux_count k) with (aux_count k) in Hlen.
  unfold erase. rewrite Hd. cbn [mbind outcome_bind]. rewrite Hn1, Hr. cbn [expect mbind outcome_bind].
  assert (Haux : exists c, c <= 2 /\ aux_count k = c /\ (match k with
                | RBind | RFan _ => Ok 2
                | ROperator _ => Ok 1
                | RErase | RData _ => Ok 0
                | RInterface | RCallableCheckpoint _ | RRemoteCursor _ _ => Panic
                end) = Ok (E:=Empty_set) c).
  { destruct k; try done; eexists; (split; [|split; reflexivity]); cbn; lia. }
  destruct Haux as (c & Hc2 & Hck & ->). rewrite Hck in *. cbn [mbind outcome_bind].
  rewrite auxiliary_ports_ok by lia. cbn [mbind outcome_bind]. rewrite Hb. cbn [mbind outcome_bind].
  rewrite H3. cbn [mbind outcome_bind]. rewrite H4. cbn [mbind outcome_bind].
  eapply (rewrite_finish N eraser other s _ RErase k N4 b [] [] N4); try done.
  - apply W.
  - by left.
  - by eapply grown_start.
  - split; [by rewrite length_replicate|..]; intros i; intros *; intros [? ?]%lookup_replicate; done.
  - unfold room in Hroom. rewrite Hlen. cbn. lia.
Qed.

End rule_proofs.

(** ** Reducing a pair *)
Section reduce.
Context {S : NetSpecialization} {P : PayloadDuplicator S}.
Implicit Types (N : RuntimeNet) (l r n : nat).

Lemma rewritten_sym N l r N' : rewritten N l r N' -> rewritten N r l N'.
Proof.
  intros R. assert (Hon : forall m, on_pair r l m <-> on_pair l r m) by (unfold on_pair; tauto).
  assert (Hk : active_pair_key r l = active_pair_key l r) by (unfold active_pair_key; lia).
  split; try apply R.
  - rewrite Hk. apply R.
  - destruct R as [_ _ [? ?]]. done.
  - intros m Hm. rewrite Hon. by apply R.
  - intros p Hp. rewrite Hon. by apply R.
  - intros p q. rewrite !Hon. by apply R.
Qed.

Lemma quiet_sym N l r : quiet N l r -> quiet N r l.
Proof. intros Q p q [Hp|Hp]; apply (Q p q); [by right|by left]. Qed.

(** What the rule of a pair of ordinary agents leaves: the pair rewritten,
    or the pair claimed for a call, or stuck. *)
Lemma apply_rule_spec N key l r s kl kr :
  net_wf N -> active_pair_key l r = key -> reference N (principal l) = Some (MkSignedPort (principal r) s) ->
  node_at N l = Some kl -> node_at N r = Some kr -> ordinary kl = true -> ordinary kr = true ->
  quiet N l r -> room N ->
  exists N' kind, apply_rule N key l r kl kr = Ok (N', kind) /\
    (if consumes_pair kind then rewritten N l r N'
     else N' = N /\ kind <> KStuck \/ N' = with_active N (<[key := ApStuck NoRule]> (active N)) /\ kind = KStuck).
Proof.
  intros W Hkey Hp Hl Hr Ol Or Q Hroom.
  pose proof (go_sym _ (nw_graph _ W) _ _ _ Hp) as Hp'. pose proof (quiet_sym _ _ _ Q) as Q'.
  assert (Hfin : forall (m : M RuntimeNet) kind, consumes_pair kind = true -> (exists N', m = Ok N' /\ rewritten N l r N') ->
    exists N' kind', (N' ← m; Ok (N', kind)) = Ok (N', kind') /\
    (if consumes_pair kind' then rewritten N l r N'
     else N' = N /\ kind' <> KStuck \/ N' = with_active N (<[key := ApStuck NoRule]> (active N)) /\ kind' = KStuck)).
  { intros m kind Hk (N' & -> & HN'). exists N', kind. by rewrite Hk. }
  assert (Hfin' : forall (m : M RuntimeNet) kind, consumes_pair kind = true -> (exists N', m = Ok N' /\ rewritten N r l N') ->
    exists N' kind', (N' ← m; Ok (N', kind)) = Ok (N', kind') /\
    (if consumes_pair kind' then rewritten N l r N'
     else N' = N /\ kind' <> KStuck \/ N' = with_active N (<[key := ApStuck NoRule]> (active N)) /\ kind' = KStuck)).
  { intros m kind Hk (N' & Hm & HN'%rewritten_sym). apply Hfin; [done|]. eauto. }
  assert (Hleft : forall kind, consumes_pair kind = false -> kind <> KStuck ->
    if consumes_pair kind then rewritten N l r N
    else N = N /\ kind <> KStuck \/ N = with_active N (<[key := ApStuck NoRule]> (active N)) /\ kind = KStuck).
  { intros kind -> ?. by left. }
  destruct kl as [|i| |d|o| | |]; try done; destruct kr as [|i'| |d'|o'| | |]; try done; cbn [apply_rule];
    try (eexists _, _; split; [reflexivity|]; first [by apply Hleft | cbn; by right]).
  - apply Hfin; [done|]. apply (rt_join_spec N l r s RBind RBind Crossed W Hp Hl Hr Q Hroom). by left.
  - apply Hfin'; [done|]. exact (duplicate_bind_spec N r l _ _ W Hp' Hr Hl Q' Hroom).
  - apply Hfin'; [done|]. exact (erase_spec N r l _ _ W Hp' Hr Hl Ol Q' Hroom).
  - apply Hfin; [done|]. exact (duplicate_bind_spec N l r _ _ W Hp Hl Hr Q Hroom).
  - case_decide.
    + apply Hfin; [done|]. apply (rt_join_spec N l r s _ _ Positional W Hp Hl Hr Q Hroom). right. by exists i, i'.
    + apply Hfin; [done|]. exact (commute_fans_spec N l r s i i' W Hp Hl Hr Q Hroom).
  - apply Hfin'; [done|]. exact (erase_spec N r l _ _ W Hp' Hr Hl Ol Q' Hroom).
  - apply Hfin; [done|]. exact (duplicate_data_spec N l r _ _ _ W Hp Hl Hr Q Hroom).
  - apply Hfin; [done|]. exact (duplicate_operator_spec N l r _ _ _ W Hp Hl Hr Q Hroom).
  - apply Hfin; [done|]. exact (erase_spec N l r _ _ W Hp Hl Hr Or Q Hroom).
  - apply Hfin; [done|]. exact (erase_spec N l r _ _ W Hp Hl Hr Or Q Hroom).
  - apply Hfin; [done|]. exact (erase_spec N l r _ _ W Hp Hl Hr Or Q Hroom).
  - apply Hfin; [done|]. exact (erase_spec N l r _ _ W Hp Hl Hr Or Q Hroom).
  - apply Hfin; [done|]. exact (erase_spec N l r _ _ W Hp Hl Hr Or Q Hroom).
  - apply Hfin'; [done|]. exact (duplicate_data_spec N r l _ _ _ W Hp' Hr Hl Q' Hroom).
  - apply Hfin'; [done|]. exact (erase_spec N r l _ _ W Hp' Hr Hl Ol Q' Hroom).
  - apply Hfin'; [done|]. exact (duplicate_operator_spec N r l _ _ _ W Hp' Hr Hl Q' Hroom).
  - apply Hfin'; [done|]. exact (erase_spec N r l _ _ W Hp' Hr Hl Ol Q' Hroom).
Qed.

Lemma apply_rule_duplicated N key l r kl kr kl' kr' :
  duplicate_copyable duplicate_data duplicate_operator kl = Some kl' ->
  duplicate_copyable duplicate_data duplicate_operator kr = Some kr' ->
  apply_rule N key l r kl' kr' = apply_rule N key l r kl kr.
Proof. destruct kl; cbn; try done; intros [= <-]; destruct kr; cbn; try done; by intros [= <-]. Qed.

(** A pair in the active map is a principal-to-principal wire. *)
Lemma active_pair N key :
  net_wf N -> is_Some (active N !! key) ->
  exists m s kl kr, reference N (principal key) = Some (MkSignedPort (principal m) s) /\ key < m /\
    pair_nodes N key = Some (key, m) /\ node_at N key = Some kl /\ node_at N m = Some kr /\
    kl <> RInterface /\ kr <> RInterface.
Proof.
  intros W Hk. apply (nw_active _ W) in Hk as [?|(m & s & Hp & Hlt)]; [done|].
  pose proof (go_sym _ (nw_graph _ W) _ _ _ Hp) as Hp'.
  destruct (reference_valid _ _ _ Hp) as (kl & Hl & _). destruct (reference_valid _ _ _ Hp') as (kr & Hr & _).
  exists m, s, kl, kr. split; [done|]. split; [done|]. split.
  { unfold pair_nodes, neighbor. rewrite Hp. cbn. by rewrite bool_decide_false by lia. }
  split; [done|]. split; [done|]. cbn in Hl, Hr.
  split; intros ->; [pose proof (nw_nodes _ W _ _ Hl) as [H0 _]|pose proof (nw_nodes _ W _ _ Hr) as [H0 _]];
    apply own_None in H0; [change (reference N (principal key) = None) in H0|change (reference N (principal m) = None) in H0]; congruence.
Qed.

Lemma cursor_claim_owner_pair N cursor key :
  net_wf N -> rt_active_pair_key N cursor = Some key ->
  cursor_claim_owner N cursor = Ok (Some (OwnActivePair key)).
Proof.
  intros W Hk. unfold cursor_claim_owner. rewrite Hk.
  destruct (cursor_obligations N !! cursor) as [o|] eqn:E; [|done].
  destruct (go_obligations _ (nw_graph _ W) _ _ E) as (_ & _ & Hn). congruence.
Qed.

Lemma begin_cursor_claim_claimed N cursor key :
  net_wf N -> rt_active_pair_key N cursor = Some key -> active N !! key = Some ApClaimed ->
  begin_cursor_claim N cursor (Some key) = Ok (N, Some CpClaimed).
Proof.
  intros W Hk Ha. unfold begin_cursor_claim. rewrite bool_decide_true by done. cbn [rust_assert mbind outcome_bind].
  rewrite Ha. cbn [mbind outcome_bind].
  rewrite (cursor_claim_owner_pair _ _ _ W Hk). cbn [mbind outcome_bind]. rewrite bool_decide_true by done.
  cbn [rust_assert mbind outcome_bind]. unfold cursor_claim_is_in_flight.
  rewrite (cursor_claim_owner_pair _ _ _ W Hk). cbn [mbind outcome_bind]. rewrite Ha. done.
Qed.

Lemma rt_active_pair_key_spec N n m s :
  reference N (principal n) = Some (MkSignedPort (principal m) s) ->
  rt_active_pair_key N n = Some (active_pair_key n m).
Proof. intros H. unfold rt_active_pair_key, neighbor. rewrite H. done. Qed.

(** The outcome of reducing a ready pair. *)
Record reduced N (key : nat) N' (kind : ReductionKind) : Prop := {
  rd_wf : net_wf N';
  (** Other pairs keep their states; new pairs are ready. *)
  rd_states : forall k, k <> key ->
    active N' !! k = active N !! k \/ active N !! k = None /\ active N' !! k = Some ApReady;
  rd_obligations : cursor_obligations N' = cursor_obligations N;
  (** Rewriting removes exactly the pair. *)
  rd_rewrite : consumes_pair kind = true -> active N' !! key = None /\
    exists m, pair_nodes N key = Some (key, m) /\ node_at N' key = None /\ node_at N' m = None /\
      (forall n, n < next_node_id N -> ~ on_pair key m n -> node_at N' n = node_at N n) /\
      (forall p q, ~ on_pair key m (node p) -> ~ on_pair key m (node (port q)) ->
         reference N p = Some q -> reference N' p = Some q) /\
      (forall p, node p < next_node_id N -> ~ on_pair key m (node p) -> own N' p = own N p);
  rd_rest : same_rest N N';
  (** A call is left claimed and a dead end stuck; the graph is the same. *)
  rd_pending : consumes_pair kind = false -> rt_nodes N' = rt_nodes N /\
    active N' !! key = Some (match kind with KStuck => ApStuck NoRule | _ => ApClaimed end);
  rd_next : next_node_id N <= next_node_id N';
}.

(** Leaving the pair claimed or stuck. *)
Lemma reduced_pending N key st kind :
  net_wf N -> is_Some (active N !! key) -> consumes_pair kind = false ->
  st = match kind with KStuck => ApStuck NoRule | _ => ApClaimed end ->
  reduced N key (with_active N (<[key := st]> (active N))) kind.
Proof.
  intros W Hk Hc ->. split.
  - by apply net_wf_state.
  - intros k Hne. left. cbn. by rewrite lookup_insert_ne.
  - done.
  - congruence.
  - done.
  - intros _. split; [done|]. cbn. by rewrite lookup_insert_eq.
  - done.
Qed.

Lemma reduced_rewritten N key m N' kind :
  net_wf N -> is_Some (active N !! key) -> pair_nodes N key = Some (key, m) -> key < m ->
  rewritten (with_active N (<[key := ApClaimed]> (active N))) key m N' -> consumes_pair kind = true ->
  active N' !! key = Some ApClaimed /\ reduced N key (with_active N' (delete key (active N'))) kind.
Proof.
  intros W Hk Hpn Hlt R Hc. assert (Hkey : active_pair_key key m = key) by (unfold active_pair_key; lia).
  assert (Hst : active N' !! key = Some ApClaimed).
  { destruct (rw_states _ _ _ _ R key) as [->|[Hn _]]; cbn in *; [by rewrite lookup_insert_eq|].
    by rewrite lookup_insert_eq in Hn. }
  split; [done|]. split.
  - pose proof (rw_wf _ _ _ _ R) as Hw. by rewrite Hkey in Hw.
  - intros k Hne. cbn. rewrite lookup_delete_ne by done. pose proof (rw_states _ _ _ _ R k) as Hs.
    cbn in Hs. by rewrite lookup_insert_ne in Hs.
  - apply (rw_obligations _ _ _ _ R).
  - intros _. split; [cbn; apply lookup_delete_eq|]. exists m. split; [done|].
    destruct (rw_gone _ _ _ _ R) as [H1 H2]. split; [done|]. split; [done|]. split.
    + apply (rw_nodes _ _ _ _ R).
    + split; [apply (rw_wires _ _ _ _ R)|apply (rw_signs _ _ _ _ R)].
  - by destruct (rw_rest _ _ _ _ R).
  - congruence.
  - apply (rw_next _ _ _ _ R).
Qed.

Lemma reduce_pair_spec N key :
  net_wf N -> room N -> active N !! key = Some ApReady ->
  (forall l r, pair_nodes N key = Some (l, r) -> quiet N l r) ->
  exists N' kind, reduce_pair N key = Ok (N', Some (MkReduction key kind)) /\ reduced N key N' kind.
Proof.
  intros W Hroom Ha HQ. assert (Hsome : is_Some (active N !! key)) by by rewrite Ha.
  destruct (active_pair N key W Hsome) as (m & s & kl & kr & Hp & Hlt & Hpn & Hl & Hr & Hil & Hir).
  specialize (HQ _ _ Hpn). unfold reduce_pair. rewrite Ha. cbn [ap_is_ready negb].
  set (N1 := with_active N (<[key := ApClaimed]> (active N))).
  assert (W1 : net_wf N1) by by apply net_wf_state.
  change (pair_nodes N1 key) with (pair_nodes N key). rewrite Hpn. cbn [expect mbind outcome_bind].
  change (node_at N1 key) with (node_at N key). change (node_at N1 m) with (node_at N m).
  rewrite Hl, Hr. cbn [expect mbind outcome_bind].
  assert (Hkey : active_pair_key key m = key) by (unfold active_pair_key; lia).
  assert (Hkey' : active_pair_key m key = key) by (unfold active_pair_key; lia).
  assert (Hcl : active N1 !! key = Some ApClaimed) by (cbn; by rewrite lookup_insert_eq).
  assert (Hpend : forall kind, consumes_pair kind = false -> kind <> KStuck -> reduced N key N1 kind).
  { intros kind Hk Hns. apply reduced_pending; [done..|]. by destruct kind. }
  assert (Hstk : forall st, with_active N1 (<[key := st]> (active N1)) = with_active N (<[key := st]> (active N))).
  { intros st. unfold N1, with_active. cbn. by rewrite insert_insert_eq. }
  assert (Hcur : forall c, rt_active_pair_key N1 c = Some key -> exists N' kind,
    ('(N2, claimed) ← begin_cursor_claim N1 c (Some key);
     progress ← expect claimed;
     Ok (N2, Some (MkReduction key (KRemoteCursor c progress)))) = Ok (N', Some (MkReduction key kind)) /\
    reduced N key N' kind).
  { intros c Hc. rewrite (begin_cursor_claim_claimed _ _ _ W1 Hc Hcl). cbn. eexists _, _. split; [done|]. by apply Hpend. }
  destruct (is_cursor kl) eqn:Ecl.
  { apply Hcur. rewrite <- Hkey at 2. by apply (rt_active_pair_key_spec N1 key m s). }
  destruct (is_cursor kr) eqn:Ecr.
  { apply Hcur. rewrite <- Hkey'. apply (rt_active_pair_key_spec N1 m key (opposite s)).
    by apply (go_sym _ (nw_graph _ W1)). }
  match goal with |- context [match ?ck with Some _ => _ | None => _ end] => destruct ck as [[bind ck']|] eqn:Eck end.
  { eexists _, _. split; [done|]. by apply Hpend. }
  destruct (is_checkpoint kl || is_checkpoint kr) eqn:Ech.
  { eexists _, _. split; [done|]. rewrite Hstk. by apply reduced_pending. }
  apply orb_false_iff in Ech as [Ehl Ehr].
  assert (Ol : ordinary kl = true) by (by destruct kl). assert (Or : ordinary kr = true) by (by destruct kr).
  destruct (duplicate_copyable duplicate_data duplicate_operator kl) as [kl'|] eqn:Edl; [|by destruct kl].
  destruct (duplicate_copyable duplicate_data duplicate_operator kr) as [kr'|] eqn:Edr; [|by destruct kr].
  cbn [expect mbind outcome_bind]. rewrite (apply_rule_duplicated _ _ _ _ _ _ _ _ Edl Edr).
  destruct (apply_rule_spec N1 key key m s kl kr W1 Hkey Hp Hl Hr Ol Or HQ Hroom) as (N2 & kind & -> & Hres).
  cbn [mbind outcome_bind]. destruct (consumes_pair kind) eqn:Ec.
  - destruct (reduced_rewritten N key m N2 kind W Hsome Hpn Hlt Hres Ec) as [Hst Hred].
    rewrite Hst. cbn. by eexists _, _.
  - eexists _, _. split; [done|]. destruct Hres as [[-> Hns]|[-> ->]]; [by apply Hpend|].
    rewrite Hstk. by apply reduced_pending.
Qed.

End reduce.
