(* ===== verification/Instantiate.v ===== *)
(** * Instantiating a template ([RuntimeNet::new] of [runtime.rs])

    A finished template becomes a runtime net: its nodes with duplicated
    payloads, its wires, and an interface node anchoring the exposed port.
    [instantiate_ok] shows that every template that [NetBuilder] finishes
    becomes a well-formed runtime net, so the invariant that rewriting keeps
    holds from the start. *)
From stdpp Require Import base option list numbers gmap tactics.
From Stdlib Require Import ZArith Lia.
From S2P Require Import Prelude NetModel Polarity NetBuilder RuntimeGraph Boundary Rewrite.

Section instantiate.
Context {S : NetSpecialization} {P : PayloadDuplicator S}.

Definition runtime_of (n : Node Data Operator) : RuntimeNode Data Operator Checkpoint :=
  match n with
  | Bind => RBind
  | Fan site => RFan (root site)
  | Erase => RErase
  | DataNode d => RData (duplicate_data d)
  | OperatorNode o => ROperator (duplicate_operator o)
  end.

Definition fan_site_of (n : Node Data Operator) : option Z :=
  match n with Fan site => Some (site_raw site) | _ => None end.

(** The first fan site above the template's. *)
Definition first_free_site (ns : list (Node Data Operator)) : M Z :=
  match omap fan_site_of ns with
  | [] => Ok 0%Z
  | site :: sites => expect (checked_add (foldr Z.max site sites) 1)
  end.

Definition with_exposed (N : RuntimeNet) (p : option Port) : RuntimeNet :=
  MkRuntimeNet (next_node_id N) (next_fan_site N) p (rt_nodes N) (next_copy_id N) (copies N)
    (cursor_obligations N) (active N).

(** The template's nodes, unwired. *)
Definition installed (ns : list (Node Data Operator)) (site : Z) : RuntimeNet :=
  MkRuntimeNet (length ns) site None
    (list_to_map (imap (fun i n => (i, entry_new (runtime_of n))) ns)) 0 ∅ ∅ ∅.

Definition RuntimeNet_new (net : InteractionNet Data Operator) : M RuntimeNet :=
  site ← first_free_site (net_nodes net);
  N ← foldM (fun N w => connect_provider N (left w) (right w)) (installed (net_nodes net) site) (net_wires net);
  '(N, exposed) ← add_interface N (net_exposed net);
  Ok (with_exposed N (Some exposed)).

(** ** The installed nodes *)
Lemma installed_lookup (f : Node Data Operator -> RuntimeEntry) ns i :
  (list_to_map (imap (fun i n => (i, f n)) ns) : gmap nat RuntimeEntry) !! i = f <$> ns !! i.
Proof.
  assert (Hgen : forall k i, (list_to_map (imap (fun i n => (k + i, f n)) ns) : gmap nat RuntimeEntry) !! (k + i) = f <$> ns !! i).
  { induction ns as [|n ns IH]; intros k j; [by rewrite lookup_nil|]. cbn [imap]. rewrite list_to_map_cons. destruct j as [|j].
    - by rewrite lookup_insert_eq.
    - rewrite lookup_insert_ne by lia. specialize (IH (Datatypes.S k) j).
      change ((n :: ns) !! Datatypes.S j) with (ns !! j). rewrite <- IH. replace (k + Datatypes.S j) with (Datatypes.S k + j) by lia. f_equal. f_equal.
      apply imap_ext. intros x y _. cbn. f_equal. lia. }
  exact (Hgen 0 i).
Qed.

Lemma installed_node ns site i : node_at (installed ns site) i = runtime_of <$> ns !! i.
Proof. unfold node_at, installed. cbn [rt_nodes]. rewrite (installed_lookup (fun n => entry_new (runtime_of n))). by destruct (ns !! i). Qed.

Lemma installed_reference ns site p : reference (installed ns site) p = None.
Proof.
  unfold reference, installed. cbn [rt_nodes]. rewrite (installed_lookup (fun n => entry_new (runtime_of n))).
  destruct (ns !! node p); [|done]. cbn. case_decide; [done|]. by destruct (index p) as [|[|[|i]]].
Qed.

Lemma installed_graph_ok ns site : graph_ok (installed ns site).
Proof.
  split.
  - intros n e He. unfold installed in He. cbn [rt_nodes] in He.
    rewrite (installed_lookup (fun n => entry_new (runtime_of n))) in He. apply fmap_Some in He as (m & _ & ->).
    split; [done|]. by intros [|[|[|i]]] sp.
  - intros n. rewrite installed_node. intros [k (m & Hm & _)%fmap_Some]. by eapply lookup_lt_Some.
  - intros p q s. by rewrite installed_reference.
  - intros c o Ho. cbn in Ho. by rewrite lookup_empty in Ho.
Qed.

(** Relative to the empty net, all the template's nodes are new. *)
Lemma installed_grown ns site :
  grown (installed [] site) None (runtime_of <$> ns) [] (installed ns site).
Proof.
  split; try done.
  - apply installed_graph_ok.
  - intros k. cbn. rewrite lookup_empty. split; [by intros [? ?]|]. intros [?|(m & s & Hm & _)]; [done|].
    by rewrite installed_reference in Hm.
  - cbn. by rewrite length_fmap.
  - by apply states_kept_refl.
  - cbn. lia.
  - intros j. rewrite installed_node. cbn. by rewrite list_lookup_fmap.
  - intros l r H. by apply not_elem_of_nil in H.
  - intros p _. by rewrite !installed_reference.
  - intros p H. by apply not_elem_of_nil in H.
Qed.

(** ** The template's wires *)
Definition typed_wire (w : Wire) : SignedPort * SignedPort :=
  (MkSignedPort (left w) Provides, MkSignedPort (right w) Consumes).

Lemma wire_ports_typed ws : wire_ports (typed_wire <$> ws) = endpoints ws.
Proof. induction ws as [|w ws IH]; [done|]. cbn. unfold wire_ports, endpoints in *. cbn. by rewrite IH. Qed.

Lemma runtime_of_count n : runtime_port_count (runtime_of n) = port_count n.
Proof. by destruct n. Qed.

Lemma net_valid_new net site k p :
  net_valid_port net p -> new_port (installed [] site) ((runtime_of <$> net_nodes net) ++ k) p.
Proof.
  intros (n & Hn & Hi). exists (node p), (runtime_of n). cbn. split; [done|]. rewrite runtime_of_count.
  split; [|done]. rewrite lookup_app_l by (rewrite length_fmap; by eapply lookup_lt_Some).
  by rewrite list_lookup_fmap, Hn.
Qed.

Lemma node_constraint_elem t i s c :
  shapes t !! i = Some s -> c ∈ node_constraints i s -> c ∈ constraints t.
Proof.
  intros Hs Hc. unfold constraints. apply elem_of_app. left. apply list_elem_of_In, in_concat.
  exists (node_constraints i s). split; [|by apply list_elem_of_In].
  apply list_elem_of_In, list_elem_of_lookup. exists i. by rewrite list_lookup_imap, Hs.
Qed.

(** A node whose ports have the template's signs obeys the runtime rule. *)
Lemma node_rule_wf t sg i (n : Node Data Operator) own' :
  polarized_by t sg -> shapes t !! i = Some (shape_of n) ->
  (forall j, j < port_count n -> own' j = Some (sg (MkPort i j))) -> node_wf (runtime_of n) own'.
Proof.
  intros Hp Hs Hown. unfold polarized_by in Hp. rewrite list.Forall_forall in Hp.
  assert (Hc : forall c, c ∈ node_constraints i (shape_of n) -> holds sg c) by eauto using node_constraint_elem.
  rewrite <- list.Forall_forall in Hc.
  destruct n; cbn in *; rewrite ?list.Forall_cons in Hc; unfold holds in Hc; cbn in Hc.
  - destruct Hc as (H1 & H2 & _). rewrite !Hown by lia. rewrite H1, H2. done.
  - destruct Hc as (H1 & H2 & _). exists (sg (MkPort i 0)). rewrite !Hown by lia.
    rewrite H1, H2, opposite_opposite. done.
  - rewrite Hown by lia. done.
  - destruct Hc as (H1 & _). rewrite Hown by lia. by rewrite H1.
  - destruct Hc as (H1 & H2 & _). rewrite !Hown by lia. by rewrite H1, H2.
Qed.

(** ** The whole instantiation *)
Lemma foldr_max_spec (x : Z) l :
  (forall y, y ∈ x :: l -> y <= foldr Z.max x l)%Z /\ foldr Z.max x l ∈ x :: l.
Proof.
  induction l as [|a l [IH1 IH2]]; cbn.
  - split; [|left]. intros y [->|Hy]%elem_of_cons; [lia|by apply not_elem_of_nil in Hy].
  - split.
    + intros y Hy. rewrite !elem_of_cons in Hy. destruct Hy as [->|[->|Hy]].
      * specialize (IH1 x ltac:(left)). lia.
      * lia.
      * specialize (IH1 y ltac:(by right)). lia.
    + rewrite elem_of_cons in IH2. destruct (Z.max_spec a (foldr Z.max x l)) as [[_ ->]|[_ ->]]; [|right; left].
      destruct IH2 as [->|IH2]; [left|right; by right].
Qed.

(** The template's fan sites leave room for one more. *)
Definition sites_ok (ns : list (Node Data Operator)) : Prop :=
  forall site, Fan site ∈ ns -> (site_raw site < u64_max)%Z.

Lemma first_free_site_spec ns :
  sites_ok ns -> exists s, first_free_site ns = Ok s /\ forall site, Fan site ∈ ns -> (site_raw site < s)%Z.
Proof.
  intros Hs. unfold first_free_site.
  assert (Hin : forall z, z ∈ omap fan_site_of ns <-> exists site, Fan site ∈ ns /\ z = site_raw site).
  { intros z. rewrite list_elem_of_omap. split.
    - intros (n & Hn & Hz). destruct n; try done. injection Hz as <-. eauto.
    - intros (site & Hn & ->). eauto. }
  destruct (omap fan_site_of ns) as [|x l].
  - exists 0%Z. split; [done|]. intros site Hsite. exfalso. apply (not_elem_of_nil (site_raw site)). apply Hin. eauto.
  - destruct (foldr_max_spec x l) as [H1 H2]. exists (foldr Z.max x l + 1)%Z.
    apply Hin in H2 as (site & Hsite & Heq). specialize (Hs site Hsite).
    rewrite checked_add_fits by (unfold usize_max; lia). split; [done|].
    intros site' Hsite'. specialize (H1 (site_raw site')). rewrite Hin in H1. specialize (H1 ltac:(eauto)). lia.
Qed.

(** What instantiation leaves, before the exposed port is recorded. *)
Lemma wired_template net site :
  template_ok net -> (Z.of_nat (length (net_nodes net)) < u64_max)%Z ->
  exists N1 N2, foldM (fun N w => connect_provider N (left w) (right w)) (installed (net_nodes net) site) (net_wires net) = Ok N1 /\
    add_interface N1 (net_exposed net) = Ok (N2, MkPort (length (net_nodes net)) 1) /\
    grown (installed [] site) None ((runtime_of <$> net_nodes net) ++ [RInterface])
      ((typed_wire <$> net_wires net) ++
       [(MkSignedPort (net_exposed net) Provides, MkSignedPort (MkPort (length (net_nodes net)) 1) Consumes)]) N2.
Proof.
  intros (Hnd & Hval & sg & Hpol & Hw) Hlen. apply list.NoDup_cons in Hnd as [Hex Hnd].
  set (K := runtime_of <$> net_nodes net). set (n := length (net_nodes net)) in *.
  assert (HK : length K = n) by (unfold K; by rewrite length_fmap).
  destruct (grown_wires (installed [] site) None K (typed_wire <$> net_wires net) [] (installed (net_nodes net) site))
    as (N1 & H1 & GR1).
  { apply installed_graph_ok. } { done. } { apply installed_grown. }
  { rewrite app_nil_l, wire_ports_typed. done. }
  { intros p Hp. rewrite wire_ports_typed in Hp. rewrite <- (app_nil_r K). apply net_valid_new. apply Hval. by right. }
  { intros x y Hxy. apply list_elem_of_fmap in Hxy as (w & [= -> ->] & _). done. }
  rewrite app_nil_l in GR1. rewrite foldM_fmap in H1. exists N1.
  destruct (grown_add _ _ _ _ _ RInterface GR1) as (N2 & H2 & GR2); [cbn; lia|].
  cbn [installed next_node_id length Nat.add] in H2. rewrite HK in H2.
  destruct (grown_wire (installed [] site) None (K ++ [RInterface]) (typed_wire <$> net_wires net) N2
    (MkSignedPort (net_exposed net) Provides) (MkSignedPort (MkPort n 1) Consumes)) as (N3 & H3 & GR3); cbn [port sign].
  { apply installed_graph_ok. } { done. } { done. }
  { apply net_valid_new, Hval. left. }
  { apply (new_port_intro _ _ n RInterface); [|done|cbn; lia]. rewrite <- HK. by rewrite list_lookup_middle. }
  { rewrite wire_ports_typed. done. }
  { rewrite wire_ports_typed. intros Hin. destruct (proj2 (Hval (MkPort n 1)) ltac:(by right)) as (m & Hm & _).
    apply lookup_lt_Some in Hm. cbn in Hm. lia. }
  { intros Heq. destruct (proj2 (Hval (net_exposed net)) ltac:(left)) as (m & Hm & _).
    rewrite Heq in Hm. apply lookup_lt_Some in Hm. cbn in Hm. lia. }
  { done. }
  exists N3. split; [exact H1|]. split; [|done]. unfold add_interface. rewrite H2. cbn [mbind outcome_bind].
  rewrite auxiliary_ok by lia. cbn [mbind outcome_bind]. unfold connect_provider. by rewrite H3.
Qed.

Lemma grown_own N K W N' a c :
  grown N None K W N' -> (a, c) ∈ W -> own N' (port a) = Some (opposite (sign c)) /\ own N' (port c) = Some (opposite (sign a)).
Proof.
  intros GR Hac. destruct (gr_wires _ _ _ _ _ GR a c Hac) as [Ha Hc].
  by rewrite (own_sign _ _ _ Ha), (own_sign _ _ _ Hc).
Qed.

Lemma instantiated_wf net site N :
  template_ok net ->
  grown (installed [] site) None ((runtime_of <$> net_nodes net) ++ [RInterface])
    ((typed_wire <$> net_wires net) ++
     [(MkSignedPort (net_exposed net) Provides, MkSignedPort (MkPort (length (net_nodes net)) 1) Consumes)]) N ->
  net_wf (with_exposed N (Some (MkPort (length (net_nodes net)) 1))).
Proof.
  intros (Hnd & Hval & sg & Hpol & Hw) GR. set (n := length (net_nodes net)) in *. set (K := runtime_of <$> net_nodes net) in *.
  assert (HK : length K = n) by (unfold K; by rewrite length_fmap).
  assert (Hold : forall i, i < n -> node_at N i = K !! i).
  { intros i Hi. pose proof (gr_new _ _ _ _ _ GR i) as H. cbn in H. rewrite H. by rewrite lookup_app_l by lia. }
  assert (Hiface : node_at N n = Some RInterface).
  { pose proof (gr_new _ _ _ _ _ GR n) as H. cbn in H. rewrite H, <- HK. by rewrite list_lookup_middle. }
  assert (Hnodes : forall i k, node_at N i = Some k -> i < n /\ K !! i = Some k \/ i = n /\ k = RInterface).
  { intros i k Hk. destruct (decide (i < n)); [left; by rewrite <- Hold|].
    destruct (decide (i = n)) as [->|]; [right; split; congruence|].
    pose proof (gr_new _ _ _ _ _ GR i) as H. cbn in H. rewrite H in Hk. apply lookup_lt_Some in Hk.
    rewrite length_app in Hk. cbn in Hk. lia. }
  assert (Hown : forall p, net_valid_port net p -> own N p = Some (sg p)).
  { intros p Hp. apply Hval, elem_of_cons in Hp as [->|Hp].
    - destruct (grown_own _ _ _ _ _ _ GR (proj2 (elem_of_app _ _ _) (or_intror (list_elem_of_here _ _)))) as [H _]. cbn in H.
      rewrite H. unfold polarized_by, constraints in Hpol. rewrite !list.Forall_app in Hpol. destruct Hpol as (_ & _ & He).
      apply Forall_one in He. unfold holds in He. cbn in He. by rewrite He.
    - unfold endpoints in Hp. apply list_elem_of_In, in_concat in Hp as (x & Hx & Hp).
      apply in_map_iff in Hx as (w & <- & Hwin). apply list_elem_of_In in Hwin.
      destruct (grown_own _ _ _ _ (MkSignedPort (left w) Provides) (MkSignedPort (right w) Consumes) GR) as [H1 H2].
      { apply elem_of_app. left. apply list_elem_of_fmap. by exists w. }
      rewrite list.Forall_forall in Hw. destruct (Hw w Hwin) as [W1 W2]. cbn in H1, H2.
      destruct Hp as [<-|[<-|[]]]; congruence. }
  split; [split|exact (gr_active _ _ _ _ _ GR)].
  - destruct (gr_graph _ _ _ _ _ GR). by split.
  - intros i k Hk. apply Hnodes in Hk as [[Hi Hk]|[-> ->]].
    + unfold K in Hk. rewrite list_lookup_fmap in Hk. apply fmap_Some in Hk as (m & Hm & ->).
      apply (node_rule_wf (net_topology net) sg i); [done| |].
      * cbn. by rewrite map_lookup, Hm || (rewrite list_lookup_fmap, Hm).
      * intros j Hj. apply Hown. by exists m.
    + change (own N (MkPort n 0) = None /\ own N (MkPort n 1) = Some Consumes). split.
      * apply own_None. rewrite (gr_frame _ _ _ _ _ GR); [apply installed_reference|].
        intros Hin. apply list_elem_of_bind in Hin as ([a c] & Hp & Hac).
        destruct (gr_wires _ _ _ _ _ GR a c Hac) as [Ha Hc]. cbn in Hp. rewrite !elem_of_cons in Hp.
        apply elem_of_app in Hac as [Hac|[= -> ->]%list_elem_of_singleton].
        -- apply list_elem_of_fmap in Hac as (w & [= -> ->] & Hwin). cbn in Hp.
           assert (He : left w ∈ endpoints (net_wires net) /\ right w ∈ endpoints (net_wires net)).
           { unfold endpoints. split; apply list_elem_of_In, in_concat; exists [left w; right w];
               (split; [apply in_map_iff; exists w; split; [done|by apply list_elem_of_In]|cbn; auto]). }
           destruct He as [He1 He2].
           destruct Hp as [Hp|[Hp|Hp]]; [rewrite <- Hp in He1|rewrite <- Hp in He2|by apply not_elem_of_nil in Hp].
           ++ destruct (proj2 (Hval _) (list_elem_of_further _ _ _ He1)) as (m & Hm & _). apply lookup_lt_Some in Hm. cbn in Hm. lia.
           ++ destruct (proj2 (Hval _) (list_elem_of_further _ _ _ He2)) as (m & Hm & _). apply lookup_lt_Some in Hm. cbn in Hm. lia.
        -- cbn in Hp. destruct Hp as [Hp|[Hp|Hp]]; [|done|by apply not_elem_of_nil in Hp].
           destruct (proj2 (Hval (net_exposed net)) (list_elem_of_here _ _)) as (m & Hm & _). rewrite <- Hp in Hm.
           apply lookup_lt_Some in Hm. cbn in Hm. lia.
      * destruct (grown_own _ _ _ _ _ _ GR (proj2 (elem_of_app _ _ _) (or_intror (list_elem_of_here _ _)))) as [_ H]. exact H.
  - intros p [= <-]. done.
  - assert (Hcop : copies N = ∅) by (rewrite (sr_copies _ _ (gr_rest _ _ _ _ _ GR)); done).
    split.
    + intros c st rm cur Hc. change (copies N !! c = Some st) in Hc. rewrite Hcop in Hc. by rewrite lookup_empty in Hc.
    + intros cur c rm Hc. apply Hnodes in Hc as [[_ Hc]|[_ ?]]; [|done]. unfold K in Hc.
      rewrite list_lookup_fmap in Hc. apply fmap_Some in Hc as (m & _ & Hm). by destruct m.
Qed.

Lemma RuntimeNet_new_spec net :
  template_ok net -> sites_ok (net_nodes net) -> (Z.of_nat (length (net_nodes net)) < u64_max)%Z ->
  exists N, RuntimeNet_new net = Ok N /\ net_wf N /\ cursor_obligations N = ∅ /\
    rt_exposed N = Some (MkPort (length (net_nodes net)) 1) /\
    reference N (MkPort (length (net_nodes net)) 1) = Some (MkSignedPort (net_exposed net) Provides) /\
    (forall i m, net_nodes net !! i = Some m -> node_at N i = Some (runtime_of m)) /\
    (forall w, w ∈ net_wires net -> reference N (left w) = Some (MkSignedPort (right w) Consumes)) /\
    (forall site, Fan site ∈ net_nodes net -> (site_raw site < next_fan_site N)%Z).
Proof.
  intros T Hs Hlen. destruct (first_free_site_spec _ Hs) as (site & Hsite & Hfree).
  destruct (wired_template net site T Hlen) as (N1 & N2 & H1 & H2 & GR).
  exists (with_exposed N2 (Some (MkPort (length (net_nodes net)) 1))).
  unfold RuntimeNet_new. rewrite Hsite. cbn [mbind outcome_bind]. rewrite H1. cbn [mbind outcome_bind].
  rewrite H2. cbn [mbind outcome_bind]. split; [done|]. split; [by eapply instantiated_wf|].
  split; [exact (gr_obligations _ _ _ _ _ GR)|]. split; [done|]. split; [|split; [|split]].
  - refine (proj2 (gr_wires _ _ _ _ _ GR (MkSignedPort (net_exposed net) Provides)
      (MkSignedPort (MkPort (length (net_nodes net)) 1) Consumes) _)). apply elem_of_app. right. left.
  - intros i m Hm. pose proof (gr_new _ _ _ _ _ GR i) as H. cbn [installed next_node_id length Nat.add] in H.
    change (node_at N2 i = Some (runtime_of m)).
    rewrite H, lookup_app_l by (rewrite length_fmap; by eapply lookup_lt_Some). by rewrite list_lookup_fmap, Hm.
  - intros w Hw. refine (proj1 (gr_wires _ _ _ _ _ GR (MkSignedPort (left w) Provides)
      (MkSignedPort (right w) Consumes) _)). apply elem_of_app. left.
    apply list_elem_of_fmap. by exists w.
  - intros s Hin. change (site_raw s < next_fan_site N2)%Z. rewrite (sr_fan _ _ (gr_rest _ _ _ _ _ GR)). by apply Hfree.
Qed.

(** ** Reduction as a transition system *)

(** One reduction of a ready pair, while node IDs last. *)
Inductive step (N : RuntimeNet) : RuntimeNet -> Prop :=
  | step_reduce key N' kind :
      room N -> active N !! key = Some ApReady ->
      reduce_pair N key = Ok (N', Some (MkReduction key kind)) -> step N N'.

Lemma quiet_unobligated N l r : cursor_obligations N = ∅ -> quiet N l r.
Proof. intros Ho p q _ _ _ [o H]. by rewrite Ho, lookup_empty in H. Qed.

Lemma step_preserves N N' : net_wf N -> cursor_obligations N = ∅ -> step N N' -> net_wf N' /\ cursor_obligations N' = ∅.
Proof.
  intros W Ho [key N1 kind Hroom Ha Hred].
  destruct (reduce_pair_spec N key W Hroom Ha) as (N2 & kind' & H2 & R); [intros; by apply quiet_unobligated|].
  rewrite Hred in H2. injection H2 as <- <-. split; [apply R|]. by rewrite (rd_obligations _ _ _ _ R).
Qed.

Lemma steps_preserve N N' : rtc step N N' -> net_wf N -> cursor_obligations N = ∅ -> net_wf N' /\ cursor_obligations N' = ∅.
Proof. induction 1 as [|N1 N2 N3 Hs _ IH]; [done|]. intros W Ho. destruct (step_preserves _ _ W Ho Hs). auto. Qed.

End instantiate.

(** ** Properties *)

(** C3. Instantiating a finished template succeeds and gives a well-formed
    runtime net: the template's nodes and wires, an interface node that
    consumes the exposed port, symmetric links of opposite signs with every
    port wired and every polarity rule obeyed, an active map that holds
    exactly the principal-to-principal wires, and a fan-site counter above
    every site in use. *)
Theorem instantiate_well_formed {S : NetSpecialization} {P : PayloadDuplicator S} (b : NetBuilder Data Operator) exposed net :
  try_finish b exposed = Ok net -> sites_ok (net_nodes net) -> (Z.of_nat (length (net_nodes net)) < u64_max)%Z ->
  exists N, RuntimeNet_new net = Ok N /\ net_wf N /\
    rt_exposed N = Some (MkPort (length (net_nodes net)) 1) /\
    reference N (MkPort (length (net_nodes net)) 1) = Some (MkSignedPort (net_exposed net) Provides) /\
    (forall i m, net_nodes net !! i = Some m -> node_at N i = Some (runtime_of m)) /\
    (forall w, w ∈ net_wires net -> reference N (left w) = Some (MkSignedPort (right w) Consumes)) /\
    (forall site, Fan site ∈ net_nodes net -> (site_raw site < next_fan_site N)%Z).
Proof.
  intros Hf Hs Hl.
  assert (T : template_ok net).
  { destruct (try_finish_cases b exposed) as [(_ & net' & H' & _ & Ht)|[(_ & e & H' & _)|(_ & _ & v & H')]];
      rewrite Hf in H'; by simplify_eq. }
  destruct (RuntimeNet_new_spec net T Hs Hl) as (N & ? & ? & _ & ?). by exists N.
Qed.

(** C1. Reduction is safe: whatever sequence of ready pairs is reduced,
    starting from a template that the builder finished, the net stays well
    formed, and every ready pair can be reduced without a panic while node
    IDs last. *)
Theorem reduction_safe {S : NetSpecialization} {P : PayloadDuplicator S} (b : NetBuilder Data Operator) exposed net N0 N :
  try_finish b exposed = Ok net -> sites_ok (net_nodes net) -> (Z.of_nat (length (net_nodes net)) < u64_max)%Z ->
  RuntimeNet_new net = Ok N0 -> rtc step N0 N ->
  net_wf N /\ forall key, room N -> active N !! key = Some ApReady ->
    exists N' kind, reduce_pair N key = Ok (N', Some (MkReduction key kind)) /\ reduced N key N' kind.
Proof.
  intros Hf Hs Hl HN Hsteps.
  assert (T : template_ok net).
  { destruct (try_finish_cases b exposed) as [(_ & net' & H' & _ & Ht)|[(_ & e & H' & _)|(_ & _ & v & H')]];
      rewrite Hf in H'; by simplify_eq. }
  destruct (RuntimeNet_new_spec net T Hs Hl) as (N1 & H1 & W1 & O1 & _). rewrite HN in H1. injection H1 as <-.
  destruct (steps_preserve _ _ Hsteps W1 O1) as [W O]. split; [done|]. intros key Hroom Ha.
  apply reduce_pair_spec; [done..|]. intros; by apply quiet_unobligated.
Qed.

(** C2. Reducing a ready pair of a well-formed net, no obligated cursor
    facing it, succeeds and gives a well-formed net. A rewrite removes
    exactly the pair: every other node keeps its kind, wires between
    surviving nodes do not change, other pairs keep their states and new
    pairs are ready. A call, a cursor or a checkpoint pair is left claimed
    and a pair without a rule stuck, with the graph unchanged. *)
Theorem reduce_pair_correct {S : NetSpecialization} {P : PayloadDuplicator S} N key :
  net_wf N -> room N -> active N !! key = Some ApReady ->
  (forall l r, pair_nodes N key = Some (l, r) -> quiet N l r) ->
  exists N' kind, reduce_pair N key = Ok (N', Some (MkReduction key kind)) /\ reduced N key N' kind.
Proof. apply reduce_pair_spec. Qed.

(** A datum copied by a fan, one copy erased and the other exposed. *)
Module Sample.

#[global] Instance spec : NetSpecialization :=
  {| Data := Z; Operator := Z; RuntimeSource := Z; WaitToken := Z; SpecStuckReason := Z; Checkpoint := Z;
     WaitToken_eq_dec := Z.eq_dec |}.

#[global] Instance duplicator : PayloadDuplicator spec := {| duplicate_data := id; duplicate_operator := id |}.

Definition builder : NetBuilder Z Z :=
  MkBuilder [Runtime (DataNode 7%Z); Runtime (Fan (MkFanSite 0)); Runtime Erase]
    [MkWire (MkPort 0 0) (MkPort 1 0); MkWire (MkPort 1 1) (MkPort 2 0)]
    {[MkPort 0 0; MkPort 1 0; MkPort 1 1; MkPort 2 0]} 1.

Definition net : InteractionNet Z Z :=
  MkNet [DataNode 7%Z; Fan (MkFanSite 0); Erase]
    [MkWire (MkPort 0 0) (MkPort 1 0); MkWire (MkPort 1 1) (MkPort 2 0)] (MkPort 1 2).

Definition start : RuntimeNet :=
  match RuntimeNet_new (S:=spec) net with Ok N => N | _ => empty_net end.

Lemma finished : try_finish builder (MkPort 1 2) = Ok net.
Proof. vm_compute. reflexivity. Qed.

Lemma started : RuntimeNet_new (S:=spec) net = Ok start.
Proof. vm_compute. reflexivity. Qed.

Lemma sites : sites_ok (S:=spec) (net_nodes net).
Proof.
  intros site Hin. unfold net in Hin. cbn [net_nodes] in Hin. rewrite !elem_of_cons in Hin.
  destruct Hin as [?|[[= ->]|[?|Hin]]]; try done. by apply not_elem_of_nil in Hin.
Qed.

Lemma small : (Z.of_nat (length (net_nodes net)) < u64_max)%Z.
Proof. vm_compute. reflexivity. Qed.

Lemma built_wf (b : NetBuilder Z Z) exposed (T : InteractionNet Z Z) N :
  try_finish b exposed = Ok T -> RuntimeNet_new (S:=spec) T = Ok N ->
  sites_ok (S:=spec) (net_nodes T) -> (Z.of_nat (length (net_nodes T)) < u64_max)%Z ->
  net_wf N /\ cursor_obligations N = ∅.
Proof.
  intros HT HN Hs Hsmall. assert (TO : template_ok T).
  { destruct (try_finish_cases b exposed) as [(_ & net' & H' & _ & Ht)|[(_ & e & H' & _)|(_ & _ & v & H')]];
      rewrite HT in H'; by simplify_eq. }
  destruct (RuntimeNet_new_spec (S:=spec) T TO Hs Hsmall) as (N' & H & W & O & _).
  rewrite HN in H. injection H as <-. done.
Qed.

Lemma start_wf : net_wf start /\ cursor_obligations start = ∅.
Proof. exact (built_wf _ _ _ _ finished started sites small). Qed.

End Sample.

Lemma reduce_pair_witness :
  active Sample.start !! 0 = Some ApReady /\
  exists N' kind, reduce_pair Sample.start 0 = Ok (N', Some (MkReduction 0 kind)) /\ reduced Sample.start 0 N' kind.
Proof.
  assert (Ha : active Sample.start !! 0 = Some ApReady) by (vm_compute; reflexivity).
  split; [exact Ha|]. apply (reduce_pair_correct Sample.start 0).
  - exact (proj1 Sample.start_wf).
  - vm_compute. discriminate.
  - exact Ha.
  - intros l r _. apply quiet_unobligated. exact (proj2 Sample.start_wf).
Defined.

Lemma instantiate_witness :
  exists N, RuntimeNet_new (S:=Sample.spec) Sample.net = Ok N /\ net_wf N.
Proof.
  destruct (instantiate_well_formed (S:=Sample.spec) Sample.builder (MkPort 1 2) Sample.net Sample.finished Sample.sites Sample.small)
    as (N & H & W & _).
  exists N. split; [exact H|exact W].
Defined.

Lemma reduction_safe_witness :
  net_wf Sample.start /\ exists N' kind, reduce_pair Sample.start 0 = Ok (N', Some (MkReduction 0 kind)).
Proof.
  destruct (reduction_safe (S:=Sample.spec) Sample.builder (MkPort 1 2) Sample.net Sample.start Sample.start
    Sample.finished Sample.sites Sample.small Sample.started (rtc_refl _ _)) as [W H].
  split; [exact W|]. destruct (H 0) as (N' & kind & H1 & _).
  - vm_compute. discriminate.
  - vm_compute. reflexivity.
  - exists N', kind. exact H1.
Defined.
