(* ===== verification/Calls.v ===== *)
(** * Calls, checkpoints and operators ([runtime.rs] and [runtime/cursor.rs])

    A claimed pair of a bind or an operator with data is completed outside
    the net: the callable is lowered to an operator or a copied net, or its
    evaluation is suspended in a linear checkpoint; an operator yields data
    or another operator. This file models those completions and the
    checkpoint protocol, and shows that each keeps the net well formed, that
    a checkpoint's payload is handed out and back exactly once, and that a
    stale request is refused without changing the net. *)
From stdpp Require Import base option list numbers gmap tactics.
From Stdlib Require Import ZArith Lia.
From S2P Require Import Prelude NetModel Polarity NetBuilder RuntimeGraph Boundary Rewrite Instantiate.

Record Call := MkCall { call_pair : nat; call_bind : nat; call_data : nat }.

Record CallableCheckpointCall := MkCheckpointCall {
  cc_pair : nat;
  cc_bind : nat;
  cc_checkpoint : nat;
  cc_generation : Z;
}.

#[export] Instance CallableCheckpointCall_eq_dec : EqDecision CallableCheckpointCall.
Proof. solve_decision. Defined.

Record OperatorCall := MkOperatorCall { oc_pair : nat; oc_operator : nat; oc_data : nat }.

Inductive CheckpointBlockResult := CbBlocked | CbDisturbed.

Section calls.
Context {S : NetSpecialization} {P : PayloadDuplicator S}.

Record BlockedCallableCheckpoint := MkBlocked { bl_call : CallableCheckpointCall; bl_wait : WaitToken }.

Inductive OperatorYield := YData (d : Data) | YOperator (o : Operator).

Definition set_state (N : RuntimeNet) (key : nat) (st : ActivePairState) : RuntimeNet :=
  with_active N (<[key := st]> (active N)).

Definition is_claimed_pair (N : RuntimeNet) (key : nat) : bool :=
  match active N !! key with Some st => ap_is_claimed st | None => false end.

Definition is_ready_pair (N : RuntimeNet) (key : nat) : bool :=
  match active N !! key with Some ApReady => true | _ => false end.

Definition is_bind_node (N : RuntimeNet) (n : nat) : bool :=
  match node_at N n with Some RBind => true | _ => false end.

Definition is_data_node (N : RuntimeNet) (n : nat) : bool :=
  match node_at N n with Some (RData _) => true | _ => false end.

(** [nodes.get_mut(&n).map(|entry| entry.node = k)] for an existing node. *)
Definition set_kind (N : RuntimeNet) (n : nat) (k : RuntimeNode Data Operator Checkpoint) : RuntimeNet :=
  with_nodes N (alter (fun e => MkEntry k (links e)) n (rt_nodes N)).

Definition checkpoint_at (N : RuntimeNet) (n : nat) : option (CallableCheckpoint Checkpoint) :=
  match node_at N n with Some (RCallableCheckpoint c) => Some c | _ => None end.

Definition callable_checkpoint (N : RuntimeNet) (key : nat) : option CallableCheckpointCall :=
  '(l, r) ← pair_nodes N key;
  match node_at N l, node_at N r with
  | Some RBind, Some (RCallableCheckpoint c) => Some (MkCheckpointCall key l r (generation c))
  | Some (RCallableCheckpoint c), Some RBind => Some (MkCheckpointCall key r l (generation c))
  | _, _ => None
  end.

(** ** The checkpoint protocol *)
Definition install_claimed_call_checkpoint (N : RuntimeNet) (call : Call) (p : Checkpoint)
    : RuntimeNet * (CallableCheckpointCall + Checkpoint) :=
  if negb (is_claimed_pair N (call_pair call)) || negb (is_bind_node N (call_bind call)) ||
     negb (is_data_node N (call_data call))
  then (N, inr p)
  else
    let N := set_kind N (call_data call)
               (RCallableCheckpoint {| generation := 0; payload := Some p |}) in
    (set_state N (call_pair call) ApReady,
     inl (MkCheckpointCall (call_pair call) (call_bind call) (call_data call) 0)).

Definition take_claimed_callable_checkpoint (N : RuntimeNet) (call : CallableCheckpointCall)
    : M (RuntimeNet * option Checkpoint) :=
  if negb (is_claimed_pair N (cc_pair call)) || negb (is_bind_node N (cc_bind call)) then Ok (N, None)
  else
    k ← expect (node_at N (cc_checkpoint call));
    match k with
    | RCallableCheckpoint c =>
        if negb (generation c =? cc_generation call)%Z then Ok (N, None)
        else Ok (set_kind N (cc_checkpoint call)
                   (RCallableCheckpoint {| generation := generation c; payload := None |}), payload c)
    | _ => Ok (N, None)
    end.

Definition restore_claimed_callable_checkpoint (N : RuntimeNet) (call : CallableCheckpointCall) (p : Checkpoint)
    : RuntimeNet * (unit + Checkpoint) :=
  if negb (is_claimed_pair N (cc_pair call)) || negb (is_bind_node N (cc_bind call)) then (N, inr p)
  else match checkpoint_at N (cc_checkpoint call) with
       | None => (N, inr p)
       | Some c =>
           if negb (generation c =? cc_generation call)%Z || bool_decide (is_Some (payload c)) then (N, inr p)
           else (set_state (set_kind N (cc_checkpoint call)
                   (RCallableCheckpoint {| generation := generation c; payload := Some p |}))
                   (cc_pair call) ApReady, inl tt)
       end.

Definition replace_claimed_callable_checkpoint (N : RuntimeNet) (call : CallableCheckpointCall) (p : Checkpoint)
    : M (RuntimeNet * (CallableCheckpointCall + Checkpoint)) :=
  if negb (is_claimed_pair N (cc_pair call)) || negb (is_bind_node N (cc_bind call)) then Ok (N, inr p)
  else match checkpoint_at N (cc_checkpoint call) with
       | None => Ok (N, inr p)
       | Some c =>
           if negb (generation c =? cc_generation call)%Z || bool_decide (is_Some (payload c)) then Ok (N, inr p)
           else
             g ← expect (checked_add (generation c) 1);
             Ok (set_state (set_kind N (cc_checkpoint call)
                   (RCallableCheckpoint {| generation := g; payload := Some p |})) (cc_pair call) ApReady,
                 inl (MkCheckpointCall (cc_pair call) (cc_bind call) (cc_checkpoint call) g))
       end.

Definition block_callable_checkpoint (N : RuntimeNet) (call : CallableCheckpointCall) (wait : WaitToken)
    : RuntimeNet * CheckpointBlockResult :=
  if negb (is_ready_pair N (cc_pair call)) || negb (bool_decide (callable_checkpoint N (cc_pair call) = Some call))
  then (N, CbDisturbed)
  else (set_state N (cc_pair call) (ApBlockedCheckpoint (cc_generation call) wait), CbBlocked).

(** The pair is blocked exactly as the request says. *)
Definition blocked_as (N : RuntimeNet) (blocked : BlockedCallableCheckpoint) : bool :=
  match active N !! cc_pair (bl_call blocked) with
  | Some (ApBlockedCheckpoint g wait) =>
      (g =? cc_generation (bl_call blocked))%Z && bool_decide (wait = bl_wait blocked)
  | _ => false
  end.

Definition retry_blocked_callable_checkpoint (N : RuntimeNet) (blocked : BlockedCallableCheckpoint)
    : RuntimeNet * bool :=
  if negb (bool_decide (callable_checkpoint N (cc_pair (bl_call blocked)) = Some (bl_call blocked))) ||
     negb (blocked_as N blocked)
  then (N, false)
  else (set_state N (cc_pair (bl_call blocked)) ApReady, true).

Definition fail_blocked_callable_checkpoint (N : RuntimeNet) (blocked : BlockedCallableCheckpoint)
    (reason : SpecStuckReason) : RuntimeNet * (Checkpoint + SpecStuckReason) :=
  let call := bl_call blocked in
  if negb (is_bind_node N (cc_bind call)) || negb (blocked_as N blocked) then (N, inr reason)
  else match checkpoint_at N (cc_checkpoint call) with
       | None => (N, inr reason)
       | Some c =>
           if negb (generation c =? cc_generation call)%Z then (N, inr reason)
           else match payload c with
                | None => (N, inr reason)
                | Some p =>
                    (set_state (set_kind N (cc_checkpoint call)
                       (RCallableCheckpoint {| generation := generation c; payload := None |}))
                       (cc_pair call) (ApStuck (Specialization reason)), inl p)
                end
       end.

Definition fail_claimed_callable_checkpoint (N : RuntimeNet) (call : CallableCheckpointCall)
    (reason : SpecStuckReason) : RuntimeNet * (unit + SpecStuckReason) :=
  if negb (is_claimed_pair N (cc_pair call)) || negb (is_bind_node N (cc_bind call)) ||
     negb (match checkpoint_at N (cc_checkpoint call) with
           | Some c => (generation c =? cc_generation call)%Z && bool_decide (payload c = None)
           | None => false
           end)
  then (N, inr reason)
  else (set_state N (cc_pair call) (ApStuck (Specialization reason)), inl tt).

Definition fail_published_callable_checkpoint (N : RuntimeNet) (call : CallableCheckpointCall)
    (reason : SpecStuckReason) : RuntimeNet * (unit + SpecStuckReason) :=
  if negb (is_ready_pair N (cc_pair call)) || negb (is_bind_node N (cc_bind call)) then (N, inr reason)
  else match checkpoint_at N (cc_checkpoint call) with
       | None => (N, inr reason)
       | Some c =>
           if negb (generation c =? cc_generation call)%Z || bool_decide (payload c = None) then (N, inr reason)
           else (set_state (set_kind N (cc_checkpoint call)
                   (RCallableCheckpoint {| generation := generation c; payload := None |}))
                   (cc_pair call) (ApStuck (Specialization reason)), inl tt)
       end.

(** ** Calls *)
Definition claim_call (N : RuntimeNet) (call : Call) : M (option Data) :=
  if negb (is_claimed_pair N (call_pair call)) then Ok None
  else match node_at N (call_data call) with
       | Some (RData d) => Ok (Some (duplicate_data d))
       | _ => Panic
       end.

Definition fail_claimed_call (N : RuntimeNet) (call : Call) (reason : SpecStuckReason) : M RuntimeNet :=
  _ ← rust_assert (is_claimed_pair N (call_pair call));
  Ok (set_state N (call_pair call) (ApStuck (Specialization reason))).

Definition release_claimed_call (N : RuntimeNet) (call : Call) : RuntimeNet * bool :=
  if negb (is_claimed_pair N (call_pair call)) then (N, false)
  else (set_state N (call_pair call) ApReady, true).

(** ** Operator calls *)
Definition claim_operator_call (N : RuntimeNet) (call : OperatorCall) : M (option (Operator * Data)) :=
  if negb (is_claimed_pair N (oc_pair call)) then Ok None
  else
    o ← match node_at N (oc_operator call) with Some (ROperator o) => Ok (duplicate_operator o) | _ => Panic end;
    d ← match node_at N (oc_data call) with Some (RData d) => Ok (duplicate_data d) | _ => Panic end;
    Ok (Some (o, d)).

Definition release_claimed_operator_call (N : RuntimeNet) (call : OperatorCall) : RuntimeNet * bool :=
  if negb (is_claimed_pair N (oc_pair call)) then (N, false)
  else (set_state N (oc_pair call) ApReady, true).

(** Removing a claimed pair's state; anything else panics. *)
Definition remove_claimed (N : RuntimeNet) (key : nat) : M RuntimeNet :=
  _ ← rust_assert (is_claimed_pair N key);
  Ok (with_active N (delete key (active N))).

Definition remove_pending_operator_call (N : RuntimeNet) (call : OperatorCall) : M RuntimeNet :=
  remove_claimed N (oc_pair call).

Definition take_operator_call (N : RuntimeNet) (call : OperatorCall) : M (RuntimeNet * SignedPort) :=
  N ← remove_pending_operator_call N call;
  '(N, other) ← disconnect N (principal (oc_operator call));
  _ ← rust_assert (bool_decide (other = Some (principal (oc_data call))));
  result ← auxiliary (oc_operator call) 1;
  '(N, taken) ← take_reference N result;
  target ← expect taken;
  '(N, removed) ← remove_node N (oc_operator call);
  _ ← rust_assert (match removed with ROperator _ => true | _ => false end);
  '(N, removed) ← remove_node N (oc_data call);
  _ ← rust_assert (match removed with RData _ => true | _ => false end);
  Ok (N, target).

(** A returned operator becomes a function awaiting its next argument. *)
Definition complete_operator_call (N : RuntimeNet) (call : OperatorCall) (result : OperatorYield)
    : M (RuntimeNet * nat) :=
  '(N, target) ← take_operator_call N call;
  match result with
  | YData d =>
      '(N, n) ← add_node N (RData d);
      N ← bind_reference N (principal n) target;
      Ok (N, n)
  | YOperator o =>
      '(N, bind) ← add_node N RBind;
      '(N, operator) ← add_node N (ROperator o);
      N ← bind_reference N (principal bind) target;
      argument ← auxiliary bind 2;
      N ← connect_provider N argument (principal operator);
      answer ← auxiliary operator 1;
      body ← auxiliary bind 1;
      N ← connect_provider N answer body;
      Ok (N, bind)
  end.

Definition fail_operator_call (N : RuntimeNet) (call : OperatorCall) (reason : SpecStuckReason) : M RuntimeNet :=
  _ ← rust_assert (is_claimed_pair N (oc_pair call));
  Ok (set_state N (oc_pair call) (ApStuck (Specialization reason))).

(** ** Lowering a call to an operator *)
Definition attach_application_operator (N : RuntimeNet) (boundary : list BoundaryLink) (o : Operator)
    : M (RuntimeNet * nat) :=
  '(N, operator) ← add_node N (ROperator o);
  result ← auxiliary operator 1;
  N ← attach_boundary N boundary [RPort (principal operator); RPort result];
  Ok (N, operator).

Definition resume_claimed_call_with_operator (N : RuntimeNet) (call : Call) (o : Operator) : M (RuntimeNet * nat) :=
  N ← remove_claimed N (call_pair call);
  '(N, other) ← disconnect N (principal (call_bind call));
  _ ← rust_assert (bool_decide (other = Some (principal (call_data call))));
  ports ← auxiliary_ports (call_bind call) 2;
  '(N, boundary) ← detach_boundary N ports;
  '(N, removed) ← remove_node N (call_data call);
  _ ← rust_assert (match removed with RData _ => true | _ => false end);
  '(N, removed) ← remove_node N (call_bind call);
  _ ← rust_assert (match removed with RBind => true | _ => false end);
  attach_application_operator N boundary o.

Definition take_empty_claimed_checkpoint (N : RuntimeNet) (call : CallableCheckpointCall) : M (RuntimeNet * bool) :=
  if negb (is_claimed_pair N (cc_pair call)) || negb (is_bind_node N (cc_bind call)) ||
     negb (match checkpoint_at N (cc_checkpoint call) with
           | Some c => (generation c =? cc_generation call)%Z && bool_decide (payload c = None)
           | None => false
           end)
  then Ok (N, false)
  else
    let N := with_active N (delete (cc_pair call) (active N)) in
    '(N, other) ← disconnect N (principal (cc_bind call));
    _ ← rust_assert (bool_decide (other = Some (principal (cc_checkpoint call))));
    '(N, removed) ← remove_node N (cc_checkpoint call);
    _ ← rust_assert (match removed with RCallableCheckpoint _ => true | _ => false end);
    Ok (N, true).

Definition resume_claimed_checkpoint_with_operator (N : RuntimeNet) (call : CallableCheckpointCall) (o : Operator)
    : M (RuntimeNet * nat) :=
  '(N, taken) ← take_empty_claimed_checkpoint N call;
  _ ← rust_assert taken;
  ports ← auxiliary_ports (cc_bind call) 2;
  '(N, boundary) ← detach_boundary N ports;
  '(N, removed) ← remove_node N (cc_bind call);
  _ ← rust_assert (match removed with RBind => true | _ => false end);
  attach_application_operator N boundary o.

Definition interface_data (N : RuntimeNet) (interface : Port) : M (option Data) :=
  _ ← assert_interface N interface;
  Ok (q ← neighbor N interface;
      if negb (is_principal q) then None
      else match node_at N (node q) with Some (RData d) => Some d | _ => None end).

End calls.

(** ** The checkpoint protocol as one machine

    One request of the protocol and its answer: whether it was accepted, and
    the payload it hands back to its caller. *)
Section protocol.
Context {S : NetSpecialization} {P : PayloadDuplicator S}.
Implicit Types (N : RuntimeNet) (n : nat).

Inductive CheckpointRequest :=
  | RqInstall (call : Call) (p : Checkpoint)
  | RqTake (call : CallableCheckpointCall)
  | RqRestore (call : CallableCheckpointCall) (p : Checkpoint)
  | RqReplace (call : CallableCheckpointCall) (p : Checkpoint)
  | RqBlock (call : CallableCheckpointCall) (wait : WaitToken)
  | RqRetry (blocked : BlockedCallableCheckpoint)
  | RqFailBlocked (blocked : BlockedCallableCheckpoint) (reason : SpecStuckReason)
  | RqFailClaimed (call : CallableCheckpointCall) (reason : SpecStuckReason)
  | RqFailPublished (call : CallableCheckpointCall) (reason : SpecStuckReason).

Definition checkpoint_request N (rq : CheckpointRequest) : M (RuntimeNet * (bool * option Checkpoint)) :=
  match rq with
  | RqInstall call p =>
      let '(N, res) := install_claimed_call_checkpoint N call p in
      Ok (N, match res with inl _ => (true, None) | inr p => (false, Some p) end)
  | RqTake call =>
      '(N, res) ← take_claimed_callable_checkpoint N call;
      Ok (N, (bool_decide (is_Some res), res))
  | RqRestore call p =>
      let '(N, res) := restore_claimed_callable_checkpoint N call p in
      Ok (N, match res with inl _ => (true, None) | inr p => (false, Some p) end)
  | RqReplace call p =>
      '(N, res) ← replace_claimed_callable_checkpoint N call p;
      Ok (N, match res with inl _ => (true, None) | inr p => (false, Some p) end)
  | RqBlock call wait =>
      let '(N, res) := block_callable_checkpoint N call wait in
      Ok (N, (match res with CbBlocked => true | CbDisturbed => false end, None))
  | RqRetry blocked =>
      let '(N, res) := retry_blocked_callable_checkpoint N blocked in Ok (N, (res, None))
  | RqFailBlocked blocked reason =>
      let '(N, res) := fail_blocked_callable_checkpoint N blocked reason in
      Ok (N, match res with inl p => (true, Some p) | inr _ => (false, None) end)
  | RqFailClaimed call reason =>
      let '(N, res) := fail_claimed_callable_checkpoint N call reason in
      Ok (N, (match res with inl _ => true | inr _ => false end, None))
  | RqFailPublished call reason =>
      let '(N, res) := fail_published_callable_checkpoint N call reason in
      Ok (N, (match res with inl _ => true | inr _ => false end, None))
  end.

(** The payload a request hands in. *)
Definition given (rq : CheckpointRequest) : option Checkpoint :=
  match rq with RqInstall _ p | RqRestore _ p | RqReplace _ p => Some p | _ => None end.

(** The checkpoint call a request is for. *)
Definition request_call (rq : CheckpointRequest) : option CallableCheckpointCall :=
  match rq with
  | RqInstall _ _ => None
  | RqTake call | RqRestore call _ | RqReplace call _ | RqBlock call _
  | RqFailClaimed call _ | RqFailPublished call _ => Some call
  | RqRetry blocked | RqFailBlocked blocked _ => Some (bl_call blocked)
  end.

(** The payload a node holds, and all payloads of a net. *)
Definition payload_of (k : RuntimeNode Data Operator Checkpoint) : option Checkpoint :=
  match k with RCallableCheckpoint c => payload c | _ => None end.

Definition payloads N : list Checkpoint :=
  omap (fun x : nat * RuntimeEntry => payload_of (entry_node (snd x))) (map_to_list (rt_nodes N)).

(** *** Replacing a node's kind *)
Lemma set_kind_node N n k k0 m :
  node_at N n = Some k0 -> node_at (set_kind N n k) m = if decide (m = n) then Some k else node_at N m.
Proof.
  intros Hn. unfold set_kind, node_at in *. cbn [with_nodes rt_nodes]. apply fmap_Some in Hn as (e & He & ->).
  case_decide as Hm; [subst m; by rewrite lookup_alter_eq, He|by rewrite lookup_alter_ne].
Qed.

Lemma set_kind_reference N n k k0 p :
  node_at N n = Some k0 -> runtime_port_count k = runtime_port_count k0 ->
  reference (set_kind N n k) p = reference N p.
Proof.
  intros Hn Hc. unfold set_kind, node_at, reference in *. cbn [with_nodes rt_nodes].
  apply fmap_Some in Hn as (e & He & ->). destruct (decide (node p = n)) as [->|Hm].
  - rewrite lookup_alter_eq, He. cbn. by rewrite Hc.
  - by rewrite lookup_alter_ne.
Qed.

Definition one_port (k : RuntimeNode Data Operator Checkpoint) : Prop :=
  (exists d, k = RData d) \/ (exists c, k = RCallableCheckpoint c).

(** A data or checkpoint node may become a checkpoint. *)
Lemma set_kind_wf N n k0 c :
  net_wf N -> node_at N n = Some k0 -> one_port k0 -> net_wf (set_kind N n (RCallableCheckpoint c)).
Proof.
  intros W Hn Hk. set (k := RCallableCheckpoint c).
  assert (Hc : runtime_port_count k = runtime_port_count k0 /\ is_cursor k0 = false /\ k0 <> RInterface).
  { by destruct Hk as [[d ->]|[c' ->]]. }
  destruct Hc as (Hc & Hcur & Hint).
  assert (Hnode : forall m, node_at (set_kind N n k) m = if decide (m = n) then Some k else node_at N m)
    by (intros; by eapply set_kind_node).
  assert (Href : forall p, reference (set_kind N n k) p = reference N p) by (intros; by eapply set_kind_reference).
  assert (Hown : forall p, own (set_kind N n k) p = own N p) by (intros; unfold own, signed; by rewrite Href).
  assert (Hnc : forall m x y, node_at N m = Some (RRemoteCursor x y) -> m <> n).
  { intros m x y Hm ->. rewrite Hn in Hm. by injection Hm as ->. }
  split; [split; [split|..]|].
  - intros m e He. unfold set_kind in He. cbn [with_nodes rt_nodes] in He.
    destruct (decide (m = n)) as [->|Hm]; [|rewrite lookup_alter_ne in He by done; by apply (go_slots _ (nw_graph _ W)) in He].
    rewrite lookup_alter_eq in He. apply fmap_Some in He as (e0 & He0 & ->).
    destruct (go_slots _ (nw_graph _ W) _ _ He0) as [Hl Hb]. cbn [links entry_node]. split; [done|].
    intros i sp Hi. rewrite Hc. unfold node_at in Hn. rewrite He0 in Hn. injection Hn as <-. by eapply Hb.
  - intros m. rewrite Hnode. case_decide as Hm; [subst m; intros _; apply (go_fresh _ (nw_graph _ W)); by rewrite Hn|].
    apply (go_fresh _ (nw_graph _ W)).
  - intros p q s. rewrite !Href. apply (go_sym _ (nw_graph _ W)).
  - intros m o Ho. destruct (go_obligations _ (nw_graph _ W) m o Ho) as (H1 & (x & y & H2) & H3).
    split; [done|]. split.
    + exists x, y. rewrite Hnode, decide_False; [done|]. by eapply Hnc.
    + unfold rt_active_pair_key, neighbor in *. by rewrite Href.
  - intros m k'. rewrite Hnode. case_decide as Hm.
    + intros [= <-]. subst m. cbn. rewrite Hown. pose proof (nw_nodes _ W _ _ Hn) as Hwf.
      destruct Hk as [[d ->]|[c' ->]]; cbn in Hwf; [by rewrite Hwf|done].
    + intros Hm'%(nw_nodes _ W). eapply node_wf_proper; [intros i; apply Hown|done].
  - intros p Hp. destruct (nw_exposed _ W p Hp) as [Hi Hp']. split; [done|]. rewrite Hnode, decide_False; [done|].
    intros Heq. rewrite Heq, Hn in Hp'. congruence.
  - destruct (nw_frontiers _ W) as [F1 F2]. split.
    + intros x st rm cur Hx Hf. pose proof (F1 _ _ _ _ Hx Hf) as Hcu. rewrite Hnode, decide_False; [done|]. by eapply Hnc.
    + intros cur x rm. rewrite Hnode. case_decide; [done|]. apply F2.
  - intros j. unfold pwire. setoid_rewrite Href. apply (nw_active _ W j).
Qed.

(** *** The effect of an accepted request

    At most one node's kind and at most one pair's state change, and no
    generation goes back. [taken] and [put] are the payloads the node held
    before and holds after. *)
Inductive kind_edit N : RuntimeNet -> option Checkpoint -> option Checkpoint -> Prop :=
  | ke_same : kind_edit N N None None
  | ke_set n k0 c : node_at N n = Some k0 -> one_port k0 ->
      (forall c0, k0 = RCallableCheckpoint c0 -> (generation c0 <= generation c)%Z) ->
      kind_edit N (set_kind N n (RCallableCheckpoint c)) (payload_of k0) (payload c).

Inductive state_edit N : RuntimeNet -> Prop :=
  | se_same : state_edit N N
  | se_set key st : is_Some (active N !! key) -> state_edit N (set_state N key st).

Lemma edit_wf N N1 N2 taken put : net_wf N -> kind_edit N N1 taken put -> state_edit N1 N2 -> net_wf N2.
Proof.
  intros W HK HS. assert (net_wf N1) by (destruct HK; [done|by eapply set_kind_wf]).
  destruct HS; [done|by apply net_wf_state].
Qed.

Lemma edit_payloads N N1 N2 taken put :
  kind_edit N N1 taken put -> state_edit N1 N2 ->
  payloads N ++ option_list put ≡ₚ payloads N2 ++ option_list taken.
Proof.
  intros HK HS. assert (payloads N2 = payloads N1) as -> by by destruct HS.
  destruct HK as [|n k0 c Hn Hk _]; [done|]. unfold node_at in Hn. apply fmap_Some in Hn as (e & He & ->).
  unfold payloads, set_kind. cbn [with_nodes rt_nodes].
  assert (alter (fun e : RuntimeEntry => MkEntry (RCallableCheckpoint c) (links e)) n (rt_nodes N) =
          <[n := MkEntry (RCallableCheckpoint c) (links e)]> (delete n (rt_nodes N))) as ->.
  { rewrite insert_delete_eq. apply map_eq. intros i. destruct (decide (i = n)) as [->|].
    - by rewrite lookup_alter_eq, lookup_insert_eq, He.
    - by rewrite lookup_alter_ne, lookup_insert_ne. }
  rewrite map_to_list_insert by apply lookup_delete_eq.
  assert (map_to_list (rt_nodes N) ≡ₚ (n, e) :: map_to_list (delete n (rt_nodes N))) as ->.
  { by rewrite map_to_list_delete. }
  cbn. destruct (payload_of (entry_node e)), (payload c); cbn; rewrite ?app_nil_r; try done.
  - rewrite (Permutation_app_comm _ [c1]), (Permutation_app_comm _ [c0]). cbn. apply Permutation_swap.
  - symmetry. by rewrite (Permutation_app_comm _ [c0]).
  - by rewrite (Permutation_app_comm _ [c0]).
Qed.

Lemma claimed_active N key : is_claimed_pair N key = true -> is_Some (active N !! key).
Proof. unfold is_claimed_pair. by destruct (active N !! key). Qed.

Lemma ready_active N key : is_ready_pair N key = true -> is_Some (active N !! key).
Proof. unfold is_ready_pair. by destruct (active N !! key). Qed.

Lemma blocked_active N blocked : blocked_as N blocked = true -> is_Some (active N !! cc_pair (bl_call blocked)).
Proof. unfold blocked_as. by destruct (active N !! _). Qed.

Lemma checkpoint_at_node N n c : checkpoint_at N n = Some c <-> node_at N n = Some (RCallableCheckpoint c).
Proof. unfold checkpoint_at. destruct (node_at N n) as [[]|]; naive_solver. Qed.

Lemma set_kind_id N n k : node_at N n = Some k -> set_kind N n k = N.
Proof.
  intros Hn. unfold node_at in Hn. apply fmap_Some in Hn as (e & He & ->). unfold set_kind.
  rewrite alter_id; [by destruct N|]. intros e'. rewrite He. intros [= <-]. by destruct e.
Qed.

(** The payload that an accepted request destroys. *)
Definition dropped N (rq : CheckpointRequest) : option Checkpoint :=
  match rq with
  | RqFailPublished call _ => checkpoint_at N (cc_checkpoint call) ≫= payload
  | _ => None
  end.

Ltac guards :=
  repeat match goal with
  | H : context [if ?b then _ else _] |- _ => destruct b eqn:?
  | H : (?x, ?y) = (_, _) |- _ => injection H; clear H; intros; subst
  | H : (_ || _) = false |- _ => apply orb_false_iff in H as [? ?]
  | H : negb _ = false |- _ => apply negb_false_iff in H
  | H : bool_decide _ = false |- _ => apply bool_decide_eq_false in H
  | H : bool_decide _ = true |- _ => apply bool_decide_eq_true in H
  | H : is_claimed_pair _ _ = true |- _ => apply claimed_active in H
  | H : is_ready_pair _ _ = true |- _ => apply ready_active in H
  | H : blocked_as _ _ = true |- _ => apply blocked_active in H
  end.

Record effect N (rq : CheckpointRequest) N' (ret : option Checkpoint) : Prop := {
  ef_edit : exists N1 taken put, kind_edit N N1 taken put /\ state_edit N1 N' /\
    option_list taken ++ option_list (given rq) ≡ₚ
    option_list put ++ option_list ret ++ option_list (dropped N rq);
}.

Lemma effect_set N rq N' ret n k0 c :
  node_at N n = Some k0 -> one_port k0 -> state_edit (set_kind N n (RCallableCheckpoint c)) N' ->
  (forall c0, k0 = RCallableCheckpoint c0 -> (generation c0 <= generation c)%Z) ->
  option_list (payload_of k0) ++ option_list (given rq) ≡ₚ
    option_list (payload c) ++ option_list ret ++ option_list (dropped N rq) -> effect N rq N' ret.
Proof. intros Hn Hk HS Hg HP. split. do 3 eexists. split; [by econstructor|done]. Qed.

Lemma effect_state N rq key st :
  is_Some (active N !! key) -> given rq = None -> dropped N rq = None -> effect N rq (set_state N key st) None.
Proof. intros Hk Hg Hd. split. do 3 eexists. split; [constructor|]. split; [by constructor|]. by rewrite Hg, Hd. Qed.

Lemma request_effect N rq N' ok ret :
  checkpoint_request N rq = Ok (N', (ok, ret)) ->
  ok = false /\ N' = N /\ ret = given rq \/ ok = true /\ effect N rq N' ret.
Proof.
  destruct rq as [call p|call|call p|call p|call wait|blocked|blocked reason|call reason|call reason]; cbn; intros H.
  - unfold install_claimed_call_checkpoint in H. guards; inv_ok; [by left|right; split; [done|]].
    unfold is_data_node in *. destruct (node_at N (call_data call)) as [k|] eqn:E; [|done]. destruct k; try done.
    eapply effect_set; [done|left; eauto|by constructor|done|done].
  - unfold take_claimed_callable_checkpoint in H. guards; inv_ok; [by left|].
    destruct (node_at N (cc_checkpoint call)) as [k|] eqn:E; [|done]. cbn in *. inv_ok.
    match goal with Hm : context [match ?k with RBind => _ | _ => _ end] |- _ => destruct k as [| | | | |c| |] end;
      inv_ok; try (by left). guards; inv_ok; [by left|].
    destruct (payload c) as [p|] eqn:Ep; cbn.
    + right. split; [done|]. eapply effect_set; [done|right; eauto|constructor|intros ? [= <-]; cbn; lia|]. cbn. by rewrite Ep.
    + left. split; [done|]. split; [|done]. apply set_kind_id. rewrite E. by destruct c; cbn in *; subst.
  - unfold restore_claimed_callable_checkpoint in H. guards; inv_ok; [by left|].
    destruct (checkpoint_at N (cc_checkpoint call)) as [c|] eqn:E; inv_ok; [|by left]. guards; inv_ok; [by left|].
    right. split; [done|]. apply checkpoint_at_node in E. eapply effect_set; [done|right; eauto|by constructor|intros ? [= <-]; cbn; lia|].
    cbn. by rewrite (proj2 (eq_None_not_Some (payload c))).
  - unfold replace_claimed_callable_checkpoint in H. guards; inv_ok; [by left|].
    destruct (checkpoint_at N (cc_checkpoint call)) as [c|] eqn:E; inv_ok; [|by left]. guards; inv_ok; [by left|].
    match goal with Ha : expect _ = Ok _ |- _ => apply expect_Ok in Ha; apply checked_add_Some in Ha as [_ ->] end.
    right. split; [done|]. apply checkpoint_at_node in E. eapply effect_set; [done|right; eauto|by constructor|intros ? [= <-]; cbn; lia|].
    cbn. by rewrite (proj2 (eq_None_not_Some (payload c))).
  - unfold block_callable_checkpoint in H. guards; inv_ok; [by left|right; split; [done|by apply effect_state]].
  - unfold retry_blocked_callable_checkpoint in H. guards; inv_ok; [by left|right; split; [done|by apply effect_state]].
  - unfold fail_blocked_callable_checkpoint in H. guards; inv_ok; [by left|].
    destruct (checkpoint_at N _) as [c|] eqn:E; inv_ok; [|by left]. guards; inv_ok; [by left|].
    destruct (payload c) as [p|] eqn:Ep; inv_ok; [|by left]. right. split; [done|]. apply checkpoint_at_node in E.
    eapply effect_set; [done|right; eauto|by constructor|intros ? [= <-]; cbn; lia|]. cbn. by rewrite Ep.
  - unfold fail_claimed_callable_checkpoint in H. guards; inv_ok; [by left|right; split; [done|by apply effect_state]].
  - unfold fail_published_callable_checkpoint in H. guards; inv_ok; [by left|].
    destruct (checkpoint_at N _) as [c|] eqn:E; inv_ok; [|by left]. guards; inv_ok; [by left|].
    right. split; [done|]. pose proof E as E'. apply checkpoint_at_node in E.
    eapply effect_set; [done|right; eauto|by constructor|intros ? [= <-]; cbn; lia|]. cbn. rewrite E'. cbn. by rewrite app_nil_r.
Qed.

Lemma callable_checkpoint_node N key call :
  callable_checkpoint N key = Some call ->
  exists c, checkpoint_at N (cc_checkpoint call) = Some c /\ generation c = cc_generation call.
Proof.
  unfold callable_checkpoint. destruct (pair_nodes N key) as [[l r]|]; cbn; [|done].
  destruct (node_at N l) as [kl|] eqn:El; [|done]. destruct (node_at N r) as [kr|] eqn:Er; [|by destruct kl].
  destruct kl, kr; try done; intros [= <-]; cbn; eexists; split; by rewrite ?checkpoint_at_node.
Qed.

(** A request whose generation is not the checkpoint's is refused. *)
Lemma stale_refused N rq call c :
  request_call rq = Some call -> checkpoint_at N (cc_checkpoint call) = Some c ->
  generation c <> cc_generation call -> checkpoint_request N rq = Ok (N, (false, given rq)).
Proof.
  intros Hcall Hc Hg.
  assert (Hcc : forall key, callable_checkpoint N key <> Some call).
  { intros key Hk. apply callable_checkpoint_node in Hk as (c' & Hc' & ?). rewrite Hc in Hc'. congruence. }
  assert (Hgb : (generation c =? cc_generation call)%Z = false) by by apply Z.eqb_neq.
  pose proof (proj1 (checkpoint_at_node _ _ _) Hc) as Hn.
  destruct rq as [cl p|cl|cl p|cl p|cl wait|blocked|blocked reason|cl reason|cl reason]; cbn in Hcall; try done;
    injection Hcall as Hcall; subst call; cbn.
  - unfold take_claimed_callable_checkpoint. destruct (_ || _); [done|]. rewrite Hn. cbn. by rewrite Hgb.
  - unfold restore_claimed_callable_checkpoint. destruct (_ || _); [done|]. by rewrite Hc, Hgb.
  - unfold replace_claimed_callable_checkpoint. destruct (_ || _); [done|]. by rewrite Hc, Hgb.
  - unfold block_callable_checkpoint. by rewrite (bool_decide_false _ (Hcc _)), orb_true_r.
  - unfold retry_blocked_callable_checkpoint. by rewrite (bool_decide_false _ (Hcc _)).
  - unfold fail_blocked_callable_checkpoint. destruct (_ || _); [done|]. by rewrite Hc, Hgb.
  - unfold fail_claimed_callable_checkpoint. by rewrite Hc, Hgb, orb_true_r.
  - unfold fail_published_callable_checkpoint. destruct (_ || _); [done|]. by rewrite Hc, Hgb.
Qed.

Definition generation_above N n (g : Z) : Prop := exists c, checkpoint_at N n = Some c /\ (g < generation c)%Z.

(** A replaced checkpoint is of a later generation than the call that replaced it. *)
Lemma replaced_generation N call p N1 call' :
  replace_claimed_callable_checkpoint N call p = Ok (N1, inl call') -> generation_above N1 (cc_checkpoint call) (cc_generation call).
Proof.
  intros Hrep. unfold replace_claimed_callable_checkpoint in Hrep. guards; inv_ok.
  destruct (checkpoint_at N (cc_checkpoint call)) as [c|] eqn:E; inv_ok. guards; inv_ok.
  match goal with Ha : expect _ = Ok _ |- _ => apply expect_Ok in Ha; apply checked_add_Some in Ha as [_ ->] end.
  match goal with Hb : (_ =? _)%Z = true |- _ => apply Z.eqb_eq in Hb; rewrite <- Hb end.
  apply checkpoint_at_node in E. exists {| generation := generation c + 1; payload := Some p |}. split.
  - apply checkpoint_at_node. etransitivity; [exact (set_kind_node N _ _ _ (cc_checkpoint call) E)|].
    by rewrite decide_True.
  - cbn. lia.
Qed.

(** A take of a claimed pair whose bind is there expects the checkpoint to exist. *)
Definition take_sees N (rq : CheckpointRequest) : Prop :=
  match rq with
  | RqTake call => is_claimed_pair N (cc_pair call) = true -> is_bind_node N (cc_bind call) = true -> is_Some (node_at N (cc_checkpoint call))
  | _ => True
  end.

(** A request for a checkpoint that is gone is refused. *)
Lemma gone_refused N rq call :
  request_call rq = Some call -> node_at N (cc_checkpoint call) = None -> take_sees N rq ->
  checkpoint_request N rq = Ok (N, (false, given rq)).
Proof.
  intros Hcall Hn Hsees. assert (Hc : checkpoint_at N (cc_checkpoint call) = None) by (unfold checkpoint_at; by rewrite Hn).
  assert (Hcc : forall key, callable_checkpoint N key <> Some call).
  { intros key Hk. apply callable_checkpoint_node in Hk as (c' & Hc' & ?). congruence. }
  destruct rq as [cl p|cl|cl p|cl p|cl wait|blocked|blocked reason|cl reason|cl reason]; cbn in Hcall; try done;
    injection Hcall as Hcall; subst call; cbn.
  - cbn in Hsees. unfold take_claimed_callable_checkpoint. destruct (is_claimed_pair N (cc_pair cl)) eqn:E; [|done].
    destruct (is_bind_node N (cc_bind cl)) eqn:Eb; [|done]. destruct (Hsees eq_refl eq_refl). congruence.
  - unfold restore_claimed_callable_checkpoint. destruct (_ || _); [done|]. by rewrite Hc.
  - unfold replace_claimed_callable_checkpoint. destruct (_ || _); [done|]. by rewrite Hc.
  - unfold block_callable_checkpoint. by rewrite (bool_decide_false _ (Hcc _)), orb_true_r.
  - unfold retry_blocked_callable_checkpoint. by rewrite (bool_decide_false _ (Hcc _)).
  - unfold fail_blocked_callable_checkpoint. destruct (_ || _); [done|]. by rewrite Hc.
  - unfold fail_claimed_callable_checkpoint. by rewrite Hc, orb_true_r.
  - unfold fail_published_callable_checkpoint. destruct (_ || _); [done|]. by rewrite Hc.
Qed.

Lemma request_wf N rq N' a : net_wf N -> checkpoint_request N rq = Ok (N', a) -> net_wf N'.
Proof.
  intros W H. destruct a as [ok ret]. apply request_effect in H as [(_ & -> & _)|(_ & [(N1 & tk & pt & HK & HE & _)])];
    [done|by eapply edit_wf].
Qed.

(** What a request needs not to panic: a taken checkpoint's node exists, and
    the generations are not used up. *)
Definition servable N (rq : CheckpointRequest) : Prop :=
  match rq with
  | RqTake call => is_Some (node_at N (cc_checkpoint call))
  | RqReplace call _ => forall c, checkpoint_at N (cc_checkpoint call) = Some c -> (generation c < usize_max)%Z
  | _ => True
  end.

Lemma request_total N rq : servable N rq -> exists N' ok ret, checkpoint_request N rq = Ok (N', (ok, ret)).
Proof.
  assert (Hdone : forall x : RuntimeNet * (bool * option Checkpoint),
    exists N' ok ret, Ok (E:=Empty_set) x = Ok (N', (ok, ret))) by (intros [? [? ?]]; eauto).
  destruct rq; cbn; intros H; repeat case_match; try (apply Hdone); clear Hdone.
  - unfold take_claimed_callable_checkpoint. destruct (_ || _); [cbn; eauto|]. destruct H as [k ->]. cbn.
    destruct k; cbn; eauto. destruct (negb _); cbn; eauto.
  - unfold replace_claimed_callable_checkpoint. destruct (_ || _); [cbn; eauto|].
    destruct (checkpoint_at N (cc_checkpoint call)) as [c|]; [|cbn; eauto]. destruct (_ || _); [cbn; eauto|].
    specialize (H c eq_refl). rewrite checked_add_fits by lia. cbn. eauto.
Qed.

(** C4. A servable checkpoint request is answered. A refused request leaves
    the net as it was and hands back the payload it was given; an accepted
    one keeps the net well formed and conserves payloads: those of the net
    and the one given are those of the new net, the one handed back and, when
    a published checkpoint fails, the one destroyed. No payload is lost or
    duplicated on any other branch. *)
Theorem checkpoint_linear N rq :
  net_wf N -> servable N rq ->
  exists N' ok ret, checkpoint_request N rq = Ok (N', (ok, ret)) /\ net_wf N' /\
    if (ok : bool)
    then payloads N ++ option_list (given rq) ≡ₚ
           payloads N' ++ option_list ret ++ option_list (dropped N rq)
    else N' = N /\ ret = given rq.
Proof.
  intros W HS. destruct (request_total N rq HS) as (N' & ok & ret & H). exists N', ok, ret. split; [done|].
  apply request_effect in H as [(-> & -> & ->)|(-> & [(N1 & tk & pt & HK & HE & HP)])]; [done|].
  split; [by eapply edit_wf|]. pose proof (edit_payloads _ _ _ _ _ HK HE) as HPay.
  apply (Permutation_app_inv_r (option_list pt)). rewrite <- !app_assoc.
  rewrite (Permutation_app_comm (option_list (given rq))), app_assoc, HPay, <- app_assoc, HP.
  apply Permutation_app_head. rewrite (Permutation_app_comm (option_list pt)). by rewrite <- !app_assoc.
Qed.

End protocol.

(** ** Completing a claimed pair *)
Section completion.
Context {S : NetSpecialization}.
Implicit Types (N : RuntimeNet) (l r n : nat).

(** A pair that reduction claimed and left to its caller. *)
Record claimed N (key l r : nat) (kl kr : RuntimeNode Data Operator Checkpoint) : Prop := {
  cl_wf : net_wf N;
  cl_room : room N;
  cl_quiet : quiet N l r;
  cl_key : key = active_pair_key l r;
  cl_state : active N !! key = Some ApClaimed;
  cl_pair : exists s, reference N (principal l) = Some (MkSignedPort (principal r) s);
  cl_left : node_at N l = Some kl;
  cl_right : node_at N r = Some kr;
}.

(** The pair is gone, nothing else has changed, and the net is well formed. *)
Record completed N (l r : nat) N' : Prop := {
  cp_wf : net_wf N';
  cp_pair : active N' !! active_pair_key l r = None;
  cp_states : forall k, k <> active_pair_key l r ->
    active N' !! k = active N !! k \/ active N !! k = None /\ active N' !! k = Some ApReady;
  cp_gone : node_at N' l = None /\ node_at N' r = None;
  cp_nodes : forall m, m < next_node_id N -> ~ on_pair l r m -> node_at N' m = node_at N m;
  cp_wires : forall p q, ~ on_pair l r (node p) -> ~ on_pair l r (node (port q)) ->
    reference N p = Some q -> reference N' p = Some q;
  cp_obligations : cursor_obligations N' = cursor_obligations N;
  cp_rest : same_rest N N';
  cp_next : next_node_id N <= next_node_id N';
}.

Definition unpaired N (l r : nat) : RuntimeNet := with_active N (delete (active_pair_key l r) (active N)).

Lemma net_core_inactive N a : net_core (with_active N a) -> net_core N.
Proof. intros C. apply (net_core_active _ (active N)) in C. by destruct N. Qed.

Lemma rewritten_completed N l r N' : rewritten (unpaired N l r) l r N' -> active_ok N' None -> completed N l r N'.
Proof.
  intros R A. destruct R as [Hwf Hst Hg Hnx Hn Hs Hw Ho Hre]. split; try done.
  - split; [|done]. by eapply net_core_inactive, Hwf.
  - apply eq_None_not_Some. intros [|(m & s & Hm & _)]%A; [done|]. apply reference_valid in Hm as (k & Hk & _).
    cbn in Hk. destruct Hg. unfold active_pair_key in Hk. destruct (Nat.min_spec l r) as [[_ Hx]|[_ Hx]]; rewrite Hx in Hk; congruence.
  - intros k Hk. destruct (Hst k) as [Heq|[Hnone Hready]]; unfold unpaired in *; cbn in *.
    + left. by rewrite Heq, lookup_delete_ne.
    + right. by rewrite lookup_delete_ne in Hnone.
  - by destruct Hre.
Qed.

Lemma claimed_ready N key l r kl kr :
  claimed N key l r kl kr ->
  is_claimed_pair N key = true /\ net_core (unpaired N l r) /\ active_ok N None /\ quiet (unpaired N l r) l r.
Proof.
  intros C. split; [unfold is_claimed_pair; by rewrite (cl_state _ _ _ _ _ _ C)|].
  split; [apply net_core_active, C|]. split; [apply C|apply (cl_quiet _ _ _ _ _ _ C)].
Qed.

(** Detaching one port is taking its reference. *)
Lemma detach_one N p N2 b :
  graph_ok N -> detach_boundary N [p] = Ok (N2, b) ->
  exists target, reference N p = Some target /\ b = [BLPort target] /\ take_reference N p = Ok (N2, Some target).
Proof.
  intros G H. unfold detach_boundary, boundary_link, take_reference in *. cbn in H.
  destruct (reference N p) as [q|] eqn:Hq; [|done]. exists q. split; [done|].
  destruct (disconnect_spec N p q G Hq) as (N' & Hd & _). rewrite Hd in *.
  assert (position [p] (port q) = None) as Hpos.
  { apply position_None. intros Hin%list_elem_of_singleton. destruct q as [q s]. cbn in Hin. subst q.
    by apply (sym_not_self _ _ _ G) in Hq. }
  unfold position in Hpos. cbn in *. rewrite Hpos in H. inv_ok. done.
Qed.

Lemma attach_one N (t : SignedPort) p :
  attach_boundary N [BLPort t] [RPort p] = rt_wire N t (MkSignedPort p (opposite (sign t))).
Proof.
  unfold attach_boundary. rewrite bool_decide_true by done. cbn -[rt_wire vec_set].
  change (vec_set (E:=Empty_set) [false] 0 true) with (Ok (E:=Empty_set) [true]). cbn -[rt_wire].
  by destruct (rt_wire N t _).
Qed.

Lemma attach_two N (t u : SignedPort) p q :
  attach_boundary N [BLPort t; BLPort u] [RPort p; RPort q] =
  (N ← rt_wire N t (MkSignedPort p (opposite (sign t))); rt_wire N u (MkSignedPort q (opposite (sign u)))).
Proof.
  unfold attach_boundary. rewrite bool_decide_true by done. cbn -[rt_wire vec_set].
  change (vec_set (E:=Empty_set) [false; false] 0 true) with (Ok (E:=Empty_set) [true; false]). cbn -[rt_wire vec_set].
  destruct (rt_wire N t _) as [N1| | |]; cbn -[rt_wire vec_set]; try done.
  change (vec_set (E:=Empty_set) [true; false] 1 true) with (Ok (E:=Empty_set) [true; true]). cbn -[rt_wire vec_set].
  by destruct (rt_wire N1 u _).
Qed.

(** A single socket's ends can be wired. *)
Lemma attachable_one N (t : SignedPort) p pending :
  attachable [BLPort t] [RPort p] N pending -> connectable N t (MkSignedPort p (opposite (sign t))) pending.
Proof.
  intros A.
  assert (E0 : is_end [BLPort t] [RPort p] 0 false t) by done.
  assert (E1 : is_end [BLPort t] [RPort p] 0 true (MkSignedPort p (opposite (sign t)))) by done.
  split; try (apply A; done).
  - intros Heq. by destruct (at_inj _ _ _ _ A _ _ _ _ _ _ E0 E1 Heq).
  - by eapply at_valid in E0.
  - by eapply at_valid in E1.
  - by eapply at_free in E0.
  - by eapply at_free in E1.
  - cbn. by rewrite opposite_opposite.
  - intros Hp. by eapply at_quiet in E0.
  - intros Hp. by eapply at_quiet in E1.
Qed.

(** Cutting out a claimed operator call: the operator's answer socket is
    left. *)
Lemma take_operator_call_spec N call o d :
  claimed N (oc_pair call) (oc_operator call) (oc_data call) (ROperator o) (RData d) ->
  exists N1 target, take_operator_call N call = Ok (N1, target) /\
    reference N (MkPort (oc_operator call) 1) = Some target /\ sign target = Consumes /\
    sockets (unpaired N (oc_operator call) (oc_data call)) (oc_operator call) (oc_data call) [MkPort (oc_operator call) 1] /\
    cut (unpaired N (oc_operator call) (oc_data call)) (oc_operator call) (oc_data call)
      [MkPort (oc_operator call) 1] N1 [BLPort target].
Proof.
  intros C. destruct (claimed_ready _ _ _ _ _ _ C) as (Hcl & W & _ & _). destruct C as [_ _ _ Hkey _ [s Hp] Hl Hr].
  set (l := oc_operator call) in *. set (r := oc_data call) in *. set (N0 := unpaired N l r) in *.
  destruct (rule_start N0 l r s _ _ W Hp Hl Hr eq_refl eq_refl)
    as (SO & N1 & N2 & b & Hd & Hb & _ & Hlen & Hown & (N3 & N4 & H3 & H4 & CT) & _).
  change (aux_list l (aux_count (ROperator o)) ++ aux_list r (aux_count (RData d))) with [MkPort l 1] in *.
  destruct (disconnect_spec N0 _ _ (nw_graph _ W) Hp) as (? & Hd' & G1 & _). rewrite Hd in Hd'. injection Hd' as <-.
  destruct (detach_one _ _ _ _ G1 Hb) as (target & Ht & -> & Htake).
  destruct (Forall2_cons_1 _ _ _ _ _ (ct_links _ _ _ _ _ _ CT)) as [(peer & Hpeer & Hk) _].
  assert (peer = target) as ->.
  { unfold link_of in Hk. destruct (position [MkPort l 1] (port peer)); [done|]. by injection Hk. }
  exists N4, target. split; [|split; [done|split; [|done]]].
  - unfold take_operator_call, remove_pending_operator_call, remove_claimed. rewrite Hcl. cbn [rust_assert mbind outcome_bind].
    rewrite Hkey. fold l r. change (with_active N _) with N0. rewrite Hd. cbn [mbind outcome_bind].
    rewrite bool_decide_true by done. cbn [rust_assert mbind outcome_bind]. rewrite auxiliary_ok by lia.
    cbn [mbind outcome_bind]. rewrite Htake. cbn [expect mbind outcome_bind]. rewrite H3. cbn [rust_assert mbind outcome_bind].
    rewrite H4. done.
  - pose proof (nw_nodes _ W _ _ Hl) as [_ Ho]. apply own_sign in Hpeer. rewrite Hpeer in Ho.
    by destruct (sign target).
Qed.

(** A cursor has no auxiliary port, so an end of a wire is obligated only at
    its principal. *)
Lemma connectable_quiet N (x y : SignedPort) pending :
  connectable N x y pending -> ~ obligated N (node (port x)) /\ ~ obligated N (node (port y)).
Proof.
  intros C.
  assert (H : forall z : SignedPort, valid N (port z) ->
    (is_principal (port z) = true -> ~ obligated N (node (port z))) -> ~ obligated N (node (port z))).
  { intros z (k & Hk & Hi) Hq [o Ho]. apply Hq; [|by exists o].
    destruct (go_obligations _ (cn_graph _ _ _ _ C) _ _ Ho) as (_ & (c & rm & Hc) & _).
    rewrite Hk in Hc. injection Hc as ->. cbn in Hi. unfold is_principal. apply bool_decide_eq_true. lia. }
  split; apply H; apply C.
Qed.

(** Putting one new port in the place of the only socket. *)
Lemma finish_single N l r key kl kr N1 target K W N2 p :
  claimed N key l r kl kr -> is_cursor kl = false /\ is_cursor kr = false ->
  sockets (unpaired N l r) l r [MkPort l 1] ->
  cut (unpaired N l r) l r [MkPort l 1] N1 [BLPort target] -> grown N1 None K W N2 ->
  new_port N1 K p -> p ∉ wire_ports W -> length K <= 4 ->
  (forall j k, K !! j = Some k -> is_cursor k = false /\ forall own',
    own' p = Some (opposite (sign target)) ->
    (forall a c, (a, c) ∈ W -> own' (port a) = Some (sign a) /\ own' (port c) = Some (sign c)) ->
    node_wf k (fun i => own' (MkPort (next_node_id N + j) i))) ->
  exists N3, bind_reference N2 p target = Ok N3 /\ completed N l r N3 /\
    wirable N2 (MkSignedPort p (opposite (sign target))) target /\
    ~ obligated N2 (node p) /\ ~ obligated N2 (node (port target)) /\
    relinked N2 N3 (fun x => if decide (x = p) then Some target else
      if decide (x = port target) then Some (MkSignedPort p (opposite (sign target))) else reference N2 x).
Proof.
  intros C Hord SO CT GR Hnew Hfree HK Hkinds. destruct (claimed_ready _ _ _ _ _ _ C) as (_ & WF & _ & Q).
  destruct C as [_ Hroom _ Hkey _ [s Hp] Hl Hr]. unfold room in Hroom.
  destruct (rewrite_finish_active (unpaired N l r) l r s [MkPort l 1] kl kr N1 [BLPort target] K W N2 [RPort p] None)
    as (AT & N3 & Hat & RW & A3 & _); try done.
  - by right.
  - split; [done| | |].
    + intros [|i] j; cbn; intros [=].
    + intros [|i] q; cbn; intros [= <-]. done.
    + intros [|i] [|j] q; cbn; intros [=] [=]. done.
  - cbn. change (next_node_id (unpaired N l r)) with (next_node_id N). lia.
  - intros j k Hj. destruct (Hkinds j k Hj) as [? Hwf]. split; [done|]. intros own' Ho HW. apply Hwf; [|done].
    apply (Ho 0 p eq_refl).
  - apply attachable_one in AT. pose proof (connectable_wirable _ _ _ _ AT) as Wb. rewrite attach_one in Hat.
    destruct (rt_wire_spec N2 target _ (cn_graph _ _ _ _ AT) Wb) as (N3' & st & Hw & _ & (Hn & Hre & Hx & Hs) & _).
    rewrite Hat in Hw. injection Hw as <-.
    exists N3. split; [|split; [by apply rewritten_completed|]].
    + unfold bind_reference. rewrite <- Hat. symmetry. apply rt_wire_comm; [apply AT|done].
    + destruct (connectable_quiet _ _ _ _ AT) as [Q1 Q2]. split; [|split; [done|split; [done|]]].
      * by apply wirable_sym.
      * split; [done|]. split; [|done]. intros x. rewrite Hre. cbn [port].
        pose proof (wb_ne _ _ _ Wb) as Hne. cbn in Hne. repeat case_decide; congruence.
Qed.

(** The function that stands for a returned operator: a bind whose argument
    feeds the operator and whose result is the operator's answer. *)
Definition function_wires (n : nat) : list (SignedPort * SignedPort) :=
  [(MkSignedPort (MkPort n 2) Provides, MkSignedPort (principal (n + 1)) Consumes);
   (MkSignedPort (MkPort (n + 1) 1) Provides, MkSignedPort (MkPort n 1) Consumes)].

Lemma function_grown N N2 o :
  graph_ok N -> grown N None [RBind; ROperator o] [] N2 -> let n := next_node_id N in
  exists N3 N4,
    connect_provider N2 (MkPort n 2) (principal (n + 1)) = Ok N3 /\
    connect_provider N3 (MkPort (n + 1) 1) (MkPort n 1) = Ok N4 /\
    wirable N2 (MkSignedPort (MkPort n 2) Provides) (MkSignedPort (principal (n + 1)) Consumes) /\
    wirable N3 (MkSignedPort (MkPort (n + 1) 1) Provides) (MkSignedPort (MkPort n 1) Consumes) /\
    graph_ok N3 /\ cursor_obligations N3 = cursor_obligations N2 /\ cursor_obligations N4 = cursor_obligations N2 /\
    grown N None [RBind; ROperator o] (function_wires n) N4.
Proof.
  intros G GR n.
  assert (Hnew : forall j i k, [RBind; ROperator o] !! j = Some k -> i < runtime_port_count k ->
    new_port N [RBind; ROperator o] (MkPort (n + j) i)) by (intros j i k Hk Hi; by exists j, k).
  pose proof (Hnew 0 1 _ eq_refl ltac:(cbn; lia)) as P1. pose proof (Hnew 0 2 _ eq_refl ltac:(cbn; lia)) as P2.
  pose proof (Hnew 1 0 _ eq_refl ltac:(cbn; lia)) as P3. pose proof (Hnew 1 1 _ eq_refl ltac:(cbn; lia)) as P4.
  rewrite Nat.add_0_r in P1, P2.
  assert (Hpend : forall k, None = Some k -> k < next_node_id N /\ node_at N k = None) by done.
  set (a1 := MkSignedPort (MkPort n 2) Provides). set (c1 := MkSignedPort (principal (n + 1)) Consumes).
  set (a2 := MkSignedPort (MkPort (n + 1) 1) Provides). set (c2 := MkSignedPort (MkPort n 1) Consumes).
  assert (Hne : port a2 ∉ wire_ports [(a1, c1)] /\ port c2 ∉ wire_ports [(a1, c1)]).
  { cbn. rewrite !not_elem_of_cons. unfold principal. split; (split; [intros [=]; lia|]);
      (split; [intros [=]; lia|]); apply not_elem_of_nil. }
  assert (C1 : connectable N2 a1 c1 None).
  { eapply (grown_connectable N None); try done; try apply not_elem_of_nil. }
  destruct (grown_wire N None _ _ N2 a1 c1 G Hpend GR) as (N3 & H3 & GR3); try done; try apply C1;
    try apply not_elem_of_nil.
  assert (C2 : connectable N3 a2 c2 None).
  { eapply (grown_connectable N None); try done; try apply Hne. unfold a2, c2. cbn. intros [=]; lia. }
  destruct (grown_wire N None _ _ N3 a2 c2 G Hpend GR3) as (N4 & H4 & GR4); try done; try apply Hne; try apply C2.
  exists N3, N4. split; [done|]. split; [done|]. split; [by eapply connectable_wirable|].
  split; [by eapply connectable_wirable|]. split; [apply GR3|].
  by rewrite (gr_obligations _ _ _ _ _ GR), (gr_obligations _ _ _ _ _ GR3), (gr_obligations _ _ _ _ _ GR4).
Qed.

(** What the completed call's answer becomes. *)
Definition answered N' (n : nat) (result : OperatorYield) : Prop :=
  match result with
  | YData d => node_at N' n = Some (RData d)
  | YOperator o => node_at N' n = Some RBind /\ exists m, node_at N' m = Some (ROperator o) /\
      reference N' (MkPort n 2) = Some (MkSignedPort (principal m) Consumes) /\
      reference N' (MkPort m 1) = Some (MkSignedPort (MkPort n 1) Consumes)
  end.

Lemma complete_data N call o d d' :
  claimed N (oc_pair call) (oc_operator call) (oc_data call) (ROperator o) (RData d) ->
  exists N' n target, complete_operator_call N call (YData d') = Ok (N', n) /\
    completed N (oc_operator call) (oc_data call) N' /\
    reference N (MkPort (oc_operator call) 1) = Some target /\ reference N' (principal n) = Some target /\
    answered N' n (YData d').
Proof.
  intros C. destruct (take_operator_call_spec N call o d C) as (N1 & target & Ht & Href & Hs & SO & CT).
  pose proof (ct_next _ _ _ _ _ _ CT) as Hnx. cbn in Hnx. pose proof (cl_room _ _ _ _ _ _ C) as Hroom. unfold room in Hroom.
  pose proof (cut_active_removed _ _ _ _ _ _ (nw_active _ (cl_wf _ _ _ _ _ _ C)) CT) as A1.
  destruct (grown_add N1 None [] [] N1 (RData d') (grown_refl _ _ (ct_graph _ _ _ _ _ _ CT) A1)) as (N2 & H2 & GR);
    [cbn; lia|].
  cbn [length app] in *. rewrite Nat.add_0_r in *. set (n := next_node_id N1) in *.
  destruct (finish_single N _ _ _ _ _ N1 target _ _ N2 (principal n) C (conj eq_refl eq_refl) SO CT GR)
    as (N3 & H3 & HC & _ & _ & _ & (Hn & Hr & _)).
  - exists 0, (RData d'). cbn. rewrite Nat.add_0_r. split; [done|]. split; [done|lia].
  - apply not_elem_of_nil.
  - cbn. lia.
  - intros [|j] k; cbn; [|done]. intros [= <-]. split; [done|]. intros own' Ho _. cbn.
    rewrite Nat.add_0_r, <- Hnx. fold n. unfold principal in Ho. by rewrite Ho, Hs.
  - exists N3, n, target. split; [|split; [done|split; [done|split]]].
    + unfold complete_operator_call. rewrite Ht. cbn [mbind outcome_bind]. rewrite H2. cbn [mbind outcome_bind].
      by rewrite H3.
    + by rewrite Hr, decide_True.
    + cbn. rewrite Hn. pose proof (gr_new _ _ _ _ _ GR 0) as HK. by rewrite Nat.add_0_r in HK.
Qed.

Lemma complete_function N call o d o' :
  claimed N (oc_pair call) (oc_operator call) (oc_data call) (ROperator o) (RData d) ->
  exists N' n target, complete_operator_call N call (YOperator o') = Ok (N', n) /\
    completed N (oc_operator call) (oc_data call) N' /\
    reference N (MkPort (oc_operator call) 1) = Some target /\ reference N' (principal n) = Some target /\
    answered N' n (YOperator o').
Proof.
  intros C. destruct (take_operator_call_spec N call o d C) as (N1 & target & Ht & Href & Hs & SO & CT).
  pose proof (ct_next _ _ _ _ _ _ CT) as Hnx. cbn in Hnx. pose proof (cl_room _ _ _ _ _ _ C) as Hroom. unfold room in Hroom.
  pose proof (cut_active_removed _ _ _ _ _ _ (nw_active _ (cl_wf _ _ _ _ _ _ C)) CT) as A1.
  destruct (grown_add N1 None [] [] N1 RBind (grown_refl _ _ (ct_graph _ _ _ _ _ _ CT) A1)) as (N2 & H2 & GR2);
    [cbn; lia|].
  destruct (grown_add N1 None _ [] N2 (ROperator o') GR2) as (N3 & H3 & GR3); [cbn; lia|].
  cbn [length app] in *. rewrite Nat.add_0_r in *. set (n := next_node_id N1) in *.
  destruct (function_grown N1 N3 o' (ct_graph _ _ _ _ _ _ CT) GR3)
    as (N4 & N5 & H4 & H5 & W4 & W5 & G4 & O4 & O5 & GR5). fold n in H4, H5, W4, W5, GR5.
  assert (Hfree : principal n ∉ wire_ports (function_wires n)).
  { cbn. rewrite !not_elem_of_cons. unfold principal. repeat split; try (intros [=]; lia). apply not_elem_of_nil. }
  destruct (finish_single N _ _ _ _ _ N1 target _ _ N5 (principal n) C (conj eq_refl eq_refl) SO CT GR5)
    as (N6 & H6 & HC & Wt & Q1 & Q2 & (Hn & Hr & _)).
  - exists 0, RBind. cbn. rewrite Nat.add_0_r. split; [done|]. split; [done|lia].
  - done.
  - cbn. lia.
  - intros [|[|j]] k; cbn; [..|done]; intros [= <-]; (split; [done|]); intros own' Ho HW; rewrite <- Hnx; fold n.
    + destruct (HW _ _ ltac:(left)) as [O1 _]. destruct (HW _ _ ltac:(right; left)) as [_ O2]. cbn in *.
      rewrite Nat.add_0_r. split; [|done]. unfold principal in Ho. by rewrite Ho.
    + destruct (HW _ _ ltac:(left)) as [_ O1]. destruct (HW _ _ ltac:(right; left)) as [O2 _]. done.
  - assert (Hob : forall m, obligated N5 m <-> obligated N3 m /\ obligated N4 m).
    { intros m. unfold obligated. rewrite O4, O5. tauto. }
    destruct (wire_swap N4 N5 N6 _ _ _ _ G4 W5 eq_refl H5 Wt) as (N4t & T4 & T5 & Wt4 & _);
      [rewrite Hob in *; unfold obligated in *; rewrite O4 in *; tauto..|exact H6|].
    destruct (wire_swap N3 N4 N4t _ _ _ _ (gr_graph _ _ _ _ _ GR3) W4 eq_refl H4 Wt4) as (N3t & T3 & T3' & _);
      [rewrite Hob in *; unfold obligated in *; rewrite O4 in *; tauto..|exact T4|].
    exists N6, n, target. split; [|split; [done|split; [done|split]]].
    + unfold complete_operator_call. rewrite Ht. cbn [mbind outcome_bind]. rewrite H2. cbn [mbind outcome_bind].
      rewrite H3. cbn [mbind outcome_bind]. unfold bind_reference, connect_provider. rewrite T3. cbn [mbind outcome_bind].
      rewrite !auxiliary_ok by lia. cbn [mbind outcome_bind]. rewrite T3'. cbn [mbind outcome_bind]. by rewrite T5.
    + by rewrite Hr, decide_True.
    + assert (Hold : forall p q, reference N5 p = Some q -> reference N6 p = Some q).
      { intros p q Hp. rewrite Hr, !decide_False; [done|..]; intros ->.
        - by rewrite (wb_right_free _ _ _ Wt) in Hp.
        - pose proof (wb_left_free _ _ _ Wt) as Hf. cbn in Hf. by rewrite Hf in Hp. }
      pose proof (gr_new _ _ _ _ _ GR5 0) as K0. pose proof (gr_new _ _ _ _ _ GR5 1) as K1. rewrite Nat.add_0_r in K0.
      destruct (gr_wires _ _ _ _ _ GR5 _ _ ltac:(left)) as [R1 _].
      destruct (gr_wires _ _ _ _ _ GR5 _ _ ltac:(right; left)) as [R2 _].
      cbn. rewrite Hn. split; [done|]. exists (n + 1). rewrite Hn. split; [done|]. split; by apply Hold.
Qed.

(** C6. Completing a claimed operator call never panics: the operator and
    its data are removed and nothing else changes, the net is well formed
    again, and the operator's consumer is wired to the answer: the data, or a
    function that feeds its argument to the returned operator and answers
    with that operator's result. *)
Theorem operator_call_completed N call o d result :
  claimed N (oc_pair call) (oc_operator call) (oc_data call) (ROperator o) (RData d) ->
  exists N' n target, complete_operator_call N call result = Ok (N', n) /\
    completed N (oc_operator call) (oc_data call) N' /\
    reference N (MkPort (oc_operator call) 1) = Some target /\ reference N' (principal n) = Some target /\
    answered N' n result.
Proof. destruct result; [apply complete_data|apply complete_function]. Qed.

(** The operator stands where the bind's sockets were: it consumes the
    argument's provider and provides the result's consumer. *)
Definition applied_operator N (bind : nat) N' (n : nat) (o : Operator) : Prop :=
  node_at N' n = Some (ROperator o) /\
  forall i sp, reference N (MkPort bind (1 + i)) = Some sp -> i < 2 -> node (port sp) <> bind ->
    reference N' (MkPort n i) = Some sp.

Lemma link_of_outside N l r (sp1 sp2 : SignedPort) s :
  graph_ok N -> reference N (principal l) = Some (MkSignedPort (principal r) s) -> l <> r ->
  reference N (MkPort l 1) = Some sp1 -> reference N (MkPort l 2) = Some sp2 ->
  node (port sp1) <> l \/ node (port sp2) <> l ->
  link_of (aux_list l 2) sp1 = BLPort sp1 /\ link_of (aux_list l 2) sp2 = BLPort sp2.
Proof.
  intros G Hp Hne H1 H2 Hout. change (aux_list l 2) with [MkPort l 1; MkPort l 2].
  destruct sp1 as [p1 s1], sp2 as [p2 s2]. pose proof (go_sym _ G _ _ _ H1) as B1. pose proof (go_sym _ G _ _ _ H2) as B2.
  assert (Hnot : forall q t i, reference N (MkPort l i) = Some (MkSignedPort q t) -> 1 <= i <= 2 ->
    node p1 <> l \/ node p2 <> l -> q ∉ [MkPort l 1; MkPort l 2]).
  { intros q t i Hq Hi Ho Hin. rewrite !elem_of_cons in Hin. cbn in *.
    destruct Hin as [-> |[-> |Hin]]; [..|by apply not_elem_of_nil in Hin].
    - apply (go_sym _ G) in Hq. rewrite H1 in Hq. injection Hq as -> _. cbn in Ho.
      destruct i as [|[|[|i]]]; try lia; [by apply (sym_not_self _ _ _ G) in H1|].
      rewrite H2 in B1. injection B1 as -> _. cbn in Ho. tauto.
    - apply (go_sym _ G) in Hq. rewrite H2 in Hq. injection Hq as -> _. cbn in Ho.
      destruct i as [|[|[|i]]]; try lia; [|by apply (sym_not_self _ _ _ G) in H2].
      rewrite H1 in B2. injection B2 as -> _. cbn in Ho. tauto. }
  unfold link_of. cbn [port sign] in *.
  rewrite (proj2 (position_None _ p1)) by (eapply (Hnot p1 s1 1); [done|lia|done]).
  by rewrite (proj2 (position_None _ p2)) by (eapply (Hnot p2 s2 2); [done|lia|done]).
Qed.

Lemma application_attached N key l r kr N1 b o :
  claimed N key l r RBind kr -> is_cursor kr = false ->
  sockets (unpaired N l r) l r (aux_list l 2) -> cut (unpaired N l r) l r (aux_list l 2) N1 b ->
  exists N' n, attach_application_operator N1 b o = Ok (N', n) /\ completed N l r N' /\ applied_operator N l N' n o.
Proof.
  intros C Hcr SO CT. destruct (claimed_ready _ _ _ _ _ _ C) as (_ & WF & A & Q).
  pose proof (cut_active_removed _ _ _ _ _ _ A CT) as A1.
  destruct C as [W Hroom _ Hkey _ [s Hp] Hl Hr]. unfold room in Hroom.
  pose proof (ct_next _ _ _ _ _ _ CT) as Hnx. cbn in Hnx.
  destruct (grown_add N1 None [] [] N1 (ROperator o) (grown_refl _ _ (ct_graph _ _ _ _ _ _ CT) A1)) as (N2 & H2 & GR);
    [cbn; lia|].
  cbn [length app] in *. rewrite Nat.add_0_r in *. set (n := next_node_id N1) in *.
  assert (Hlen : length b = 2) by (rewrite <- (list.Forall2_length _ _ _ (ct_links _ _ _ _ _ _ CT)); done).
  assert (Hsg : sgn b 0 = Consumes /\ sgn b 1 = Provides).
  { pose proof (sgn_own _ _ _ _ _ _ CT 0 _ eq_refl) as S0. pose proof (sgn_own _ _ _ _ _ _ CT 1 _ eq_refl) as S1.
    pose proof (nw_nodes _ WF _ _ Hl) as (_ & O1 & O2). change (Nat.add 1 0) with 1 in *. cbn in S0, S1.
    rewrite O1 in S0. rewrite O2 in S1. split; congruence. }
  assert (Hnew : forall i, i < 2 -> new_port N1 [ROperator o] (MkPort n i)).
  { intros i Hi. exists 0, (ROperator o). cbn. rewrite Nat.add_0_r. split; [done|]. split; [done|lia]. }
  destruct (rewrite_finish_active (unpaired N l r) l r s (aux_list l 2) RBind kr N1 b [ROperator o] [] N2
    [RPort (principal n); RPort (MkPort n 1)] None) as (_ & N3 & Hat & RW & A3 & Hold); try done.
  - by right.
  - split; [done| | |].
    + intros [|[|i]] j; cbn; intros [=].
    + intros [|[|i]] q; cbn; intros [= <-]; (split; [apply Hnew; lia|apply not_elem_of_nil]).
    + intros [|[|i]] [|[|j]] q; cbn; intros [= <-] [=]; done.
  - cbn. lia.
  - intros [|j] k; cbn; [|done]. intros [= <-]. split; [done|]. intros own' Ho _.
    pose proof (Ho 0 _ eq_refl) as O0. pose proof (Ho 1 _ eq_refl) as O1. destruct Hsg as [E0 E1]. rewrite E0 in O0. rewrite E1 in O1.
    rewrite Nat.add_0_r, <- Hnx. fold n. done.
  - exists N3, n. split; [|split; [by apply rewritten_completed|]].
    + unfold attach_application_operator. rewrite H2. cbn [mbind outcome_bind]. rewrite auxiliary_ok by lia.
      cbn [mbind outcome_bind]. by rewrite Hat.
    + split.
      { rewrite Hold by (rewrite (gr_next _ _ _ _ _ GR); cbn; lia).
        pose proof (gr_new _ _ _ _ _ GR 0) as HK. by rewrite Nat.add_0_r in HK. }
      assert (Hne : l <> r) by (intros ->; by apply (sym_not_self _ _ _ (nw_graph _ WF)) in Hp).
      pose proof (ct_links _ _ _ _ _ _ CT) as HF. change (aux_list l 2) with [MkPort l 1; MkPort l 2] in HF.
      destruct b as [|b1 [|b2 [|]]]; try done.
      apply Forall2_cons_1 in HF as [(sp1 & R1 & ->) HF]. apply Forall2_cons_1 in HF as [(sp2 & R2 & ->) _].
      assert (Hboth : node (port sp1) <> l \/ node (port sp2) <> l ->
                reference N3 (MkPort n 0) = Some sp1 /\ reference N3 (MkPort n 1) = Some sp2).
      { intros Hout. destruct (link_of_outside N l r sp1 sp2 s (nw_graph _ W) Hp Hne R1 R2 Hout) as [L1 L2].
        change [MkPort l 1; MkPort l 2] with (aux_list l 2) in Hat. rewrite L1, L2, attach_two in Hat.
        apply bind_Ok in Hat as (N2' & Hw1 & Hw2).
        destruct (rt_wire_links _ _ _ _ (go_slots _ (gr_graph _ _ _ _ _ GR)) Hw1) as (Hs1 & _ & F1).
        destruct (rt_wire_links _ _ _ _ Hs1 Hw2) as (_ & _ & F2). cbn [port] in *.
        assert (Hold2 : node (port sp2) < n).
        { destruct sp2 as [q t2]. pose proof (go_sym _ (nw_graph _ W) _ _ _ R2) as B2. apply reference_valid in B2 as (k & Hk & _).
          rewrite Hnx. apply (go_fresh _ (nw_graph _ W)). by exists k. }
        split.
        - rewrite F2, !decide_False; [|intros Heq; rewrite <- Heq in Hold2; cbn in Hold2; lia|intros [=]].
          rewrite F1. by rewrite decide_True.
        - rewrite F2. by rewrite decide_True. }
      change (reference (unpaired N l r)) with (reference N) in R1, R2.
      intros i sp Hi Hlt Hsp. destruct i as [|[|i]]; [..|lia]; cbn in Hi.
      * rewrite R1 in Hi. injection Hi as ->. apply Hboth. by left.
      * rewrite R2 in Hi. injection Hi as ->. apply Hboth. by right.
Qed.

Lemma resume_operator_spec N call d o :
  claimed N (call_pair call) (call_bind call) (call_data call) RBind (RData d) ->
  exists N' n, resume_claimed_call_with_operator N call o = Ok (N', n) /\
    completed N (call_bind call) (call_data call) N' /\ applied_operator N (call_bind call) N' n o.
Proof.
  intros C. destruct (claimed_ready _ _ _ _ _ _ C) as (Hcl & W & _ & _).
  pose proof (cl_key _ _ _ _ _ _ C) as Hkey. destruct (cl_pair _ _ _ _ _ _ C) as [s Hp].
  set (l := call_bind call) in *. set (r := call_data call) in *.
  destruct (rule_start (unpaired N l r) l r s _ _ W Hp (cl_left _ _ _ _ _ _ C) (cl_right _ _ _ _ _ _ C) eq_refl eq_refl)
    as (SO & N1 & N2 & b & Hd & Hb & _ & _ & _ & _ & (N3 & N4 & H3 & H4 & CT)).
  change (aux_list l (aux_count RBind) ++ aux_list r (aux_count (RData d))) with (aux_list l 2) in *.
  destruct (application_attached N _ l r _ N4 b o C eq_refl SO CT) as (N' & n & Hat & HC & HA).
  exists N', n. split; [|done]. unfold resume_claimed_call_with_operator, remove_claimed. rewrite Hcl.
  cbn [rust_assert mbind outcome_bind]. rewrite Hkey. fold l r. change (with_active N _) with (unpaired N l r).
  rewrite Hd. cbn [mbind outcome_bind]. rewrite bool_decide_true by done. cbn [rust_assert mbind outcome_bind].
  rewrite auxiliary_ports_ok by lia. cbn [mbind outcome_bind]. rewrite Hb. cbn [mbind outcome_bind].
  rewrite H3. cbn [rust_assert mbind outcome_bind]. rewrite H4. exact Hat.
Qed.

(** Lowering a claimed call to an operator never panics: the bind and the
    callable are removed, the net is well formed again, and the operator
    receives the application's argument and result neighbours directly. *)
Theorem call_resumed_with_operator N call d o :
  claimed N (call_pair call) (call_bind call) (call_data call) RBind (RData d) ->
  exists N' n, resume_claimed_call_with_operator N call o = Ok (N', n) /\
    completed N (call_bind call) (call_data call) N' /\ applied_operator N (call_bind call) N' n o.
Proof. apply resume_operator_spec. Qed.

Lemma checkpoint_operator_spec N call c o :
  claimed N (cc_pair call) (cc_bind call) (cc_checkpoint call) RBind (RCallableCheckpoint c) ->
  if (generation c =? cc_generation call)%Z && bool_decide (payload c = None)
  then exists N' n, resume_claimed_checkpoint_with_operator N call o = Ok (N', n) /\
    completed N (cc_bind call) (cc_checkpoint call) N' /\ applied_operator N (cc_bind call) N' n o
  else resume_claimed_checkpoint_with_operator N call o = Panic.
Proof.
  intros C. destruct (claimed_ready _ _ _ _ _ _ C) as (Hcl & W & _ & _).
  pose proof (cl_key _ _ _ _ _ _ C) as Hkey. destruct (cl_pair _ _ _ _ _ _ C) as [s Hp].
  set (l := cc_bind call) in *. set (r := cc_checkpoint call) in *.
  pose proof (cl_left _ _ _ _ _ _ C) as Hl. pose proof (cl_right _ _ _ _ _ _ C) as Hr.
  assert (Hb : is_bind_node N l = true) by (unfold is_bind_node; by rewrite Hl).
  assert (Hc : checkpoint_at N r = Some c) by by apply checkpoint_at_node.
  unfold resume_claimed_checkpoint_with_operator, take_empty_claimed_checkpoint. rewrite Hcl. fold l r. rewrite Hb, Hc.
  destruct (_ && _) eqn:Eg; cbn [negb orb]; [|done].
  assert (Hne : l <> r) by (intros Heq; rewrite Heq in Hl; congruence).
  pose proof (pair_sockets (unpaired N l r) l r _ _ W Hl Hr Hne) as SO.
  change (aux_list l (aux_count RBind) ++ aux_list r (aux_count (RCallableCheckpoint c))) with (aux_list l 2) in SO.
  destruct (cut_pair_early (unpaired N l r) l r s (aux_list l 2) _ _ (nw_graph _ W) Hp SO Hl Hr)
    as (N1 & N2 & N3 & N4 & b & Hd & H2 & H3 & H4 & CT).
  { by eapply ordinary_not_obligated. } { by eapply ordinary_not_obligated. }
  { by intros p [? _]%aux_list_elem. }
  destruct (application_attached N _ l r _ N4 b o C eq_refl SO CT) as (N' & n & Hat & HC & HA).
  exists N', n. split; [|done]. rewrite Hkey. change (with_active N _) with (unpaired N l r).
  rewrite Hd. cbn [mbind outcome_bind]. rewrite bool_decide_true by done. cbn [rust_assert mbind outcome_bind].
  rewrite H2. cbn [rust_assert mbind outcome_bind]. rewrite auxiliary_ports_ok by lia. cbn [mbind outcome_bind].
  rewrite H3. cbn [mbind outcome_bind]. rewrite H4. exact Hat.
Qed.

(** Lowering a claimed call whose checkpoint has been taken has the same
    effect, the empty checkpoint standing for the callable; while the
    checkpoint still holds its payload, or for a stale generation, the
    lowering is refused by a panic. *)
Theorem checkpoint_resumed_with_operator N call c o :
  claimed N (cc_pair call) (cc_bind call) (cc_checkpoint call) RBind (RCallableCheckpoint c) ->
  if (generation c =? cc_generation call)%Z && bool_decide (payload c = None)
  then exists N' n, resume_claimed_checkpoint_with_operator N call o = Ok (N', n) /\
    completed N (cc_bind call) (cc_checkpoint call) N' /\ applied_operator N (cc_bind call) N' n o
  else resume_claimed_checkpoint_with_operator N call o = Panic.
Proof. apply checkpoint_operator_spec. Qed.

End completion.

(** ** Concrete nets *)
Module CallSample.

(** Operator 3 applied to data 7. *)
Definition op_net : InteractionNet Z Z :=
  MkNet [DataNode 7%Z; OperatorNode 3%Z] [MkWire (MkPort 0 0) (MkPort 1 0)] (MkPort 1 1).

(** Data 7 called with argument 5. *)
Definition call_net : InteractionNet Z Z :=
  MkNet [DataNode 7%Z; Bind; DataNode 5%Z] [MkWire (MkPort 0 0) (MkPort 1 0); MkWire (MkPort 2 0) (MkPort 1 1)] (MkPort 1 2).

Definition instance (T : InteractionNet Z Z) : RuntimeNet :=
  match RuntimeNet_new (S:=Sample.spec) T with Ok N => N | _ => empty_net end.

Definition claim (N : RuntimeNet (S:=Sample.spec)) : RuntimeNet := set_state N 0 ApClaimed.

Definition op_builder : NetBuilder Z Z :=
  MkBuilder [Runtime (DataNode 7%Z); Runtime (OperatorNode 3%Z)] [MkWire (MkPort 0 0) (MkPort 1 0)]
    {[MkPort 0 0; MkPort 1 0]} 0.

Definition call_builder : NetBuilder Z Z :=
  MkBuilder [Runtime (DataNode 7%Z); Runtime Bind; Runtime (DataNode 5%Z)]
    [MkWire (MkPort 0 0) (MkPort 1 0); MkWire (MkPort 2 0) (MkPort 1 1)]
    {[MkPort 0 0; MkPort 1 0; MkPort 2 0; MkPort 1 1]} 0.

Lemma op_wf : net_wf (instance op_net) /\ cursor_obligations (instance op_net) = ∅.
Proof.
  apply (Sample.built_wf op_builder (MkPort 1 1) op_net); [vm_compute; reflexivity..| |vm_compute; reflexivity].
  intros site. cbn. rewrite !elem_of_cons. intros [?|[?|?%not_elem_of_nil]]; done.
Qed.

Lemma call_wf : net_wf (instance call_net) /\ cursor_obligations (instance call_net) = ∅.
Proof.
  apply (Sample.built_wf call_builder (MkPort 1 2) call_net); [vm_compute; reflexivity..| |vm_compute; reflexivity].
  intros site. cbn. rewrite !elem_of_cons. intros [?|[?|[?|?%not_elem_of_nil]]]; done.
Qed.

Lemma claim_wf N : net_wf N /\ cursor_obligations N = ∅ -> is_Some (active N !! 0) ->
  net_wf (claim N) /\ cursor_obligations (claim N) = ∅.
Proof. intros [W O] Ha. split; [by apply net_wf_state|done]. Qed.

Lemma claimed_intro N l r kl kr s :
  net_wf (claim N) /\ cursor_obligations (claim N) = ∅ -> room N -> active_pair_key l r = 0 ->
  reference N (principal l) = Some (MkSignedPort (principal r) s) -> node_at N l = Some kl -> node_at N r = Some kr ->
  claimed (claim N) 0 l r kl kr.
Proof.
  intros [W O] Hr Hk Hp Hl Hrr. split; try done.
  - by apply quiet_unobligated.
  - unfold claim, set_state. cbn. apply lookup_insert_eq.
  - by exists s.
Qed.

Lemma op_claimed : claimed (claim (instance op_net)) 0 1 0 (ROperator 3%Z) (RData 7%Z).
Proof.
  assert (H0 : is_Some (active (instance op_net) !! 0)) by (exists ApReady; vm_compute; reflexivity).
  assert (H1 : room (instance op_net)) by (apply Z.leb_le; vm_compute; reflexivity).
  assert (H2 : reference (instance op_net) (principal 1) = Some (MkSignedPort (principal 0) Provides)) by (vm_compute; reflexivity).
  assert (H3 : node_at (instance op_net) 1 = Some (ROperator 3%Z)) by (vm_compute; reflexivity).
  assert (H4 : node_at (instance op_net) 0 = Some (RData 7%Z)) by (vm_compute; reflexivity).
  exact (claimed_intro _ _ _ _ _ _ (claim_wf _ op_wf H0) H1 (eq_refl : active_pair_key 1 0 = 0) H2 H3 H4).
Qed.

Lemma call_claimed : claimed (claim (instance call_net)) 0 1 0 RBind (RData 7%Z).
Proof.
  assert (H0 : is_Some (active (instance call_net) !! 0)) by (exists ApReady; vm_compute; reflexivity).
  assert (H1 : room (instance call_net)) by (apply Z.leb_le; vm_compute; reflexivity).
  assert (H2 : reference (instance call_net) (principal 1) = Some (MkSignedPort (principal 0) Provides)) by (vm_compute; reflexivity).
  assert (H3 : node_at (instance call_net) 1 = Some RBind) by (vm_compute; reflexivity).
  assert (H4 : node_at (instance call_net) 0 = Some (RData 7%Z)) by (vm_compute; reflexivity).
  exact (claimed_intro _ _ _ _ _ _ (claim_wf _ call_wf H0) H1 (eq_refl : active_pair_key 1 0 = 0) H2 H3 H4).
Qed.

(** The call suspended in checkpoint 42, claimed again, and its payload taken. *)
Definition after (N : RuntimeNet) (rq : CheckpointRequest) : RuntimeNet :=
  match checkpoint_request N rq with Ok (N, _) => N | _ => N end.

Definition suspended : RuntimeNet :=
  claim (after (claim (instance call_net)) (RqInstall (MkCall 0 1 0) (42%Z : Checkpoint))).

Definition taken : RuntimeNet := after suspended (RqTake (MkCheckpointCall 0 1 0 0)).

Lemma after_wf N rq : net_wf N -> net_wf (after N rq).
Proof.
  intros W. unfold after. destruct (checkpoint_request N rq) as [[N' a]| | |] eqn:E; try done. by eapply request_wf.
Qed.

Lemma suspended_wf : net_wf suspended.
Proof.
  apply net_wf_state; [apply after_wf, claim_wf; [exact call_wf|]|]; exists ApReady; vm_compute; reflexivity.
Qed.

Lemma taken_claimed : claimed taken 0 1 0 RBind (RCallableCheckpoint {| generation := 0; payload := None |}).
Proof.
  split; try (vm_compute; reflexivity).
  - apply after_wf, suspended_wf.
  - apply Z.leb_le. vm_compute. reflexivity.
  - apply quiet_unobligated. vm_compute. reflexivity.
  - exists Provides. vm_compute. reflexivity.
Qed.

End CallSample.

Lemma operator_call_completed_witness :
  exists N' n target,
    complete_operator_call (CallSample.claim (CallSample.instance CallSample.op_net)) (MkOperatorCall 0 1 0) (YOperator (9%Z : @Operator Sample.spec))
      = Ok (N', n) /\ reference N' (principal n) = Some target /\ net_wf N'.
Proof.
  destruct (operator_call_completed _ (MkOperatorCall 0 1 0) _ _ (YOperator (9%Z : @Operator Sample.spec)) CallSample.op_claimed)
    as (N' & n & target & H & HC & _ & Ht & _).
  exists N', n, target. split; [exact H|]. split; [exact Ht|apply HC].
Defined.

Lemma call_resumed_witness :
  exists N' n, resume_claimed_call_with_operator (CallSample.claim (CallSample.instance CallSample.call_net)) (MkCall 0 1 0) (9%Z : @Operator Sample.spec)
      = Ok (N', n) /\ net_wf N'.
Proof.
  destruct (call_resumed_with_operator _ (MkCall 0 1 0) _ (9%Z : @Operator Sample.spec) CallSample.call_claimed) as (N' & n & H & HC & _).
  exists N', n. split; [exact H|apply HC].
Defined.

Lemma checkpoint_resumed_witness :
  exists N' n, resume_claimed_checkpoint_with_operator CallSample.taken (MkCheckpointCall 0 1 0 0) (9%Z : @Operator Sample.spec)
      = Ok (N', n) /\ net_wf N'.
Proof.
  destruct (checkpoint_resumed_with_operator _ (MkCheckpointCall 0 1 0 0) _ (9%Z : @Operator Sample.spec) CallSample.taken_claimed)
    as (N' & n & H & HC & _).
  exists N', n. split; [exact H|apply HC].
Defined.

Lemma checkpoint_linear_witness :
  exists N' ok ret,
    checkpoint_request CallSample.suspended (RqTake (MkCheckpointCall 0 1 0 0)) = Ok (N', (ok, ret)) /\ net_wf N' /\
    payloads CallSample.suspended = [42%Z].
Proof.
  destruct (checkpoint_linear CallSample.suspended (RqTake (MkCheckpointCall 0 1 0 0)))
    as (N' & ok & ret & H & W & _); [exact CallSample.suspended_wf| |].
  { exists (RCallableCheckpoint {| generation := 0; payload := Some (42%Z : @Checkpoint Sample.spec) |}). vm_compute. reflexivity. }
  exists N', ok, ret. split; [exact H|]. split; [exact W|vm_compute; reflexivity].
Defined.

