(* ===== verification/Evolution.v ===== *)
(** * What every change of a net leaves alone

    Between two looks at a net, its evaluation rewrites pairs, completes
    calls, edits checkpoints and advances cursors. All of them share one
    frame, [evolves]: node IDs are never reused, a node that is still there is what it
    was or a later checkpoint, a node that waits through its principal port on another
    node's auxiliary port is not consumed, interface nodes stay, and a wire between two
    surviving nodes never changes. *)
From stdpp Require Import base option list numbers gmap tactics.
From Stdlib Require Import ZArith Lia.
From S2P Require Import Prelude NetModel RuntimeGraph Boundary Rewrite Calls.

Section evolution.
Context {S : NetSpecialization}.
Implicit Types (N : RuntimeNet) (n m : nat) (p : Port) (q : SignedPort).

Definition alive N n : Prop := is_Some (node_at N n).

(** A node with auxiliary ports that faces an auxiliary port. *)
Definition waiting N n : Prop :=
  exists k q, node_at N n = Some k /\ 1 < runtime_port_count k /\ reference N (principal n) = Some q /\ is_principal (port q) = false.

(** What a surviving node may have become: a checkpoint, of a generation no earlier. *)
Definition becomes (k k' : RuntimeNode Data Operator Checkpoint) : Prop :=
  k' = k \/ exists c', k' = RCallableCheckpoint c' /\ forall c, k = RCallableCheckpoint c -> (generation c <= generation c')%Z.

Record evolves N N' : Prop := {
  ev_next : next_node_id N <= next_node_id N';
  ev_kept : forall n k', n < next_node_id N -> node_at N' n = Some k' -> exists k, node_at N n = Some k /\ becomes k k';
  ev_waiting : forall n, waiting N n -> alive N' n;
  ev_interface : forall n, node_at N n = Some RInterface -> node_at N' n = Some RInterface;
  ev_wires : forall p q, alive N' (node p) -> alive N' (node (port q)) -> reference N p = Some q -> reference N' p = Some q;
}.

Lemma ev_old N N' n : evolves N N' -> n < next_node_id N -> alive N' n -> alive N n.
Proof. intros EV Hn [k' Hk']. destruct (ev_kept _ _ EV n k' Hn Hk') as (k & Hk & _). by exists k. Qed.

(** A node unchanged where it survives. *)
Lemma unchanged_kept N N' n k' : node_at N' n = node_at N n -> node_at N' n = Some k' -> exists k, node_at N n = Some k /\ becomes k k'.
Proof. intros -> H. exists k'. split; [done|by left]. Qed.

Lemma evolves_refl N N' : rt_nodes N' = rt_nodes N -> next_node_id N' = next_node_id N -> evolves N N'.
Proof.
  intros Hn Hx. split; unfold waiting, alive, node_at, reference; rewrite ?Hn; try done; [lia|..].
  - intros n k' _ Hk. exists k'. split; [done|by left].
  - intros n (k & q & Hk & _). eauto.
Qed.

(** It is about the graph only. *)
Lemma evolves_same N N1 N2 : evolves N N1 -> rt_nodes N2 = rt_nodes N1 -> next_node_id N2 = next_node_id N1 -> evolves N N2.
Proof.
  intros [A B C D E] Hn Hx. split; unfold alive, node_at, reference in *; rewrite ?Hn; [lia|done..].
Qed.

Lemma reference_alive N p q : graph_ok N -> reference N p = Some q -> alive N (node p) /\ alive N (node (port q)).
Proof.
  intros G H. pose proof (reference_valid _ _ _ H) as (k & Hk & _). split; [by exists k|]. destruct q as [q s].
  apply (go_sym _ G), reference_valid in H as (k' & Hk' & _). by exists k'.
Qed.

(** Consuming two nodes that face each other. *)
Lemma evolves_pair N l r s N' : net_wf N -> reference N (principal l) = Some (MkSignedPort (principal r) s) ->
  next_node_id N <= next_node_id N' -> node_at N' l = None /\ node_at N' r = None ->
  (forall m, m < next_node_id N -> ~ on_pair l r m -> node_at N' m = node_at N m) ->
  (forall p q, ~ on_pair l r (node p) -> ~ on_pair l r (node (port q)) -> reference N p = Some q -> reference N' p = Some q) ->
  evolves N N'.
Proof.
  intros W Hp Hx [Hl Hr] Hn Hw. pose proof (nw_graph _ W) as G. pose proof (go_sym _ G _ _ _ Hp) as Hp'.
  assert (Hout : forall n, alive N' n -> ~ on_pair l r n) by (intros n [k Hk] [-> | ->]; congruence).
  assert (Hkeep : forall n k, node_at N n = Some k -> ~ on_pair l r n -> node_at N' n = Some k).
  { intros n k Hk Ho. rewrite Hn; [done| |done]. apply (go_fresh _ G). by rewrite Hk. }
  split; [done|..].
  - intros n k' Hlt Hk'. apply (unchanged_kept N N' n k'); [|done]. apply Hn; [done|]. apply Hout. by exists k'.
  - intros n (k & q & Hk & _ & Hq & Hnp). exists k. apply Hkeep; [done|]. intros [-> | ->].
    + rewrite Hp in Hq. by injection Hq as <-.
    + rewrite Hp' in Hq. by injection Hq as <-.
  - intros n Hi. apply Hkeep; [done|]. intros Ho. destruct (nw_nodes _ W _ _ Hi) as [H0 _]. apply own_None in H0. unfold principal in *.
    destruct Ho as [-> | ->]; congruence.
  - intros p q Ha Hb Hr'. apply Hw; [by apply Hout..|done].
Qed.

Lemma evolves_reduced N key N' kind : net_wf N -> reduced N key N' kind -> evolves N N'.
Proof.
  intros W RD. pose proof (rd_next _ _ _ _ RD) as Hx. destruct (consumes_pair kind) eqn:Ek.
  - destruct (rd_rewrite _ _ _ _ RD Ek) as (_ & m & Hp & H1 & H2 & Hn & Hw & _).
    unfold pair_nodes, neighbor in Hp. destruct (reference N (principal key)) as [[q s]|] eqn:E; [|done]. cbn in Hp.
    destruct (is_principal q) eqn:Eq; [|done]. case_bool_decide; [done|]. cbn in Hp. injection Hp as <-.
    apply is_principal_spec in Eq. rewrite Eq in E. by eapply evolves_pair.
  - destruct (rd_pending _ _ _ _ RD Ek) as [Hn _]. split; unfold alive, waiting, node_at, reference; rewrite ?Hn; try done.
    + intros n k' _ Hk. exists k'. split; [done|by left].
    + intros n (k & q & Hk & _). eauto.
Qed.

Lemma evolves_completed N l r s N' : net_wf N -> reference N (principal l) = Some (MkSignedPort (principal r) s) ->
  completed N l r N' -> evolves N N'.
Proof. intros W Hp C. eapply evolves_pair; [done..|apply C|apply C|apply C|apply C]. Qed.

(** A claimed pair, completed. *)
Lemma evolves_claimed N key l r kl kr N' : claimed N key l r kl kr -> completed N l r N' -> evolves N N'.
Proof. intros C. destruct (cl_pair _ _ _ _ _ _ C) as [s Hp]. eapply evolves_completed; [apply C|done]. Qed.

Lemma evolves_request N rq N' ok ret : net_wf N -> checkpoint_request N rq = Ok (N', (ok, ret)) -> evolves N N'.
Proof.
  intros W H. apply request_effect in H as [(_ & -> & _)|(_ & [(N1 & taken & put & HK & HS & _)])]; [by apply evolves_refl|].
  assert (E1 : evolves N N1).
  { destruct HK as [|n k0 c Hn Hk Hg]; [by apply evolves_refl|].
    set (k := RCallableCheckpoint c : RuntimeNode Data Operator Checkpoint) in *.
    assert (Hc : runtime_port_count k = runtime_port_count k0 /\ k0 <> RInterface) by (by destruct Hk as [[d ->]|[c' ->]]).
    destruct Hc as [Hc Hi]. assert (Hnode : forall m, alive (set_kind N n k) m <-> alive N m).
    { intros m. unfold alive. rewrite (set_kind_node N n k k0 m Hn). case_decide as Hm; [subst; by rewrite Hn|done]. }
    split; [done|..].
    - intros m km _. rewrite (set_kind_node N n k k0 m Hn). case_decide; [subst m|intros Hm; exists km; split; [done|by left]].
      intros [= <-]. exists k0. split; [done|]. right. by exists c.
    - intros m (km & q & Hm & _). apply Hnode. by exists km.
    - intros m Hm. rewrite (set_kind_node N n k k0 m Hn). case_decide; [subst; congruence|done].
    - intros p q _ _ Hr. by rewrite (set_kind_reference N n k k0 p Hn Hc). }
  destruct HS; [done|]. destruct E1 as [A B C D E]. by split.
Qed.

(** Removing nodes without auxiliary ports, such as cursors and callables. *)
Lemma evolves_ends N N' (gone : nat -> Prop) : graph_ok N -> next_node_id N <= next_node_id N' ->
  (forall n, gone n -> exists k, node_at N n = Some k /\ runtime_port_count k = 1) ->
  (forall n, gone n -> node_at N' n = None) ->
  (forall m, m < next_node_id N -> ~ gone m -> node_at N' m = node_at N m) ->
  (forall p q, ~ gone (node p) -> ~ gone (node (port q)) -> reference N p = Some q -> reference N' p = Some q) -> evolves N N'.
Proof.
  intros G Hx Hk Hg Hn Hw.
  assert (Hout : forall n, alive N' n -> ~ gone n) by (intros n [k' Hk'] Hgn; rewrite (Hg n Hgn) in Hk'; done).
  assert (Hkeep : forall n k, node_at N n = Some k -> runtime_port_count k <> 1 -> node_at N' n = Some k).
  { intros n k Hk' Hc. rewrite Hn; [done|apply (go_fresh _ G); by rewrite Hk'|]. intros (k0 & Hk0 & Hc0)%Hk. rewrite Hk' in Hk0. congruence. }
  split; [done|..].
  - intros n k' Hlt Hk'. apply (unchanged_kept N N' n k'); [|done]. apply Hn; [done|]. apply Hout. by exists k'.
  - intros n (k & q & Hk' & Hc & _). exists k. apply Hkeep; [done|lia].
  - intros n Hi. by apply Hkeep.
  - intros p q Ha Hb Hr. apply Hw; [by apply Hout..|done].
Qed.

End evolution.
