(* ===== verification/WalkCycle.v ===== *)
(** * Cycle detection in constant space ([src/walk_cycle.rs])

    [WalkCycle] watches a walk with one successor per step and reports, by
    Brent's algorithm, that it has come back to an item it passed. The file
    shows that a report is right, that the walk is cut within the bound the
    source documents, and, for walks over finitely many items, how many steps
    are enough for a loop guarded by it. *)
From stdpp Require Import base option list numbers gmap fin_sets tactics.
From Stdlib Require Import ZArith Lia.
From S2P Require Import Prelude.

Record WalkCycle (T : Type) := MkWalk { saved : option T; power : Z; since_saved : Z }.
Arguments MkWalk {T} saved power since_saved.
Arguments saved {T}.
Arguments power {T}.
Arguments since_saved {T}.

Section walk.
Context {E T : Type} `{EqDecision T}.

Definition WalkCycle_new : WalkCycle T := MkWalk None 1 0.

(** The counters are machine words: leaving their range is a panic. *)
Definition advance (w : WalkCycle T) (item : T) : outcome E (WalkCycle T * bool) :=
  if bool_decide (saved w = Some item) then Ok (w, false)
  else
    since ← expect (checked_add (since_saved w) 1);
    if (since =? power w)%Z then
      p ← expect (checked_mul (power w) 2);
      Ok (MkWalk (Some item) p 0, true)
    else Ok (MkWalk (saved w) (power w) since, true).

(** Feeding the items of a walk until one is refused: the number accepted. *)
Fixpoint advances (w : WalkCycle T) (items : list T) : outcome E (WalkCycle T * bool) :=
  match items with
  | [] => Ok (w, true)
  | item :: rest =>
      '(w, ok) ← advance w item;
      if (ok : bool) then advances w rest else Ok (w, false)
  end.

(** ** The state after [k] accepted items *)
Context (x : nat -> T).

Record watching (k : nat) (w : WalkCycle T) : Prop := {
  wt_power : exists j, power w = (2 ^ Z.of_nat j)%Z;
  wt_count : Z.of_nat k = (power w - 1 + since_saved w)%Z;
  wt_since : (0 <= since_saved w < power w)%Z;
  wt_saved : saved w = if (2 <=? power w)%Z then Some (x (Z.to_nat (power w - 2))) else None;
}.

Lemma watching_new : watching 0 WalkCycle_new.
Proof. split; cbn; [by exists 0|lia|lia|done]. Qed.

Lemma advance_watching k w :
  watching k w -> (Z.of_nat k + 2 <= usize_max)%Z ->
  (advance w (x k) = Ok (w, false) /\ saved w = Some (x k)) \/
  (exists w', advance w (x k) = Ok (w', true) /\ watching (S k) w' /\ saved w <> Some (x k)).
Proof.
  intros [[j Hj] Hc Hs Hv] Hk. unfold advance. case_bool_decide as Hsv; [by left|right].
  assert (Hp : (1 <= power w)%Z) by lia.
  rewrite checked_add_fits by lia. cbn [expect mbind outcome_bind].
  destruct (Z.eqb_spec (since_saved w + 1) (power w)) as [He|He].
  - rewrite checked_mul_fits by lia. cbn [expect mbind outcome_bind]. eexists. split; [done|]. split; [|done].
    split; cbn.
    + exists (S j). rewrite Hj, Nat2Z.inj_succ, Z.pow_succ_r by lia. lia.
    + lia.
    + lia.
    + destruct (Z.leb_spec 2 (power w * 2)); [|lia]. do 2 f_equal. lia.
  - eexists. split; [done|]. split; [|done]. split; cbn; [by exists j|lia|lia|done].
Qed.

(** All of [x 0 .. x (k-1)] are accepted, unless an earlier one was refused. *)
Lemma advances_watching k : forall i w,
  watching i w -> (Z.of_nat (i + k) + 2 <= usize_max)%Z ->
  (exists w', advances w (x <$> seq i k) = Ok (w', true) /\ watching (i + k) w') \/
  (exists j w', i <= j < i + k /\ watching j w' /\ saved w' = Some (x j) /\
     advances w (x <$> seq i (j - i)) = Ok (w', true) /\ advances w (x <$> seq i k) = Ok (w', false)).
Proof.
  induction k as [|k IH]; intros i w W Hk.
  { left. exists w. by rewrite Nat.add_0_r. }
  cbn [seq fmap list_fmap advances].
  destruct (advance_watching i w W ltac:(lia)) as [[H Hsv]|(w1 & H & W1 & _)]; rewrite H; cbn [mbind outcome_bind].
  - right. exists i, w. rewrite Nat.sub_diag. split; [lia|]. done.
  - destruct (IH (S i) w1 W1 ltac:(lia)) as [(w' & Hw & HW)|(j & w' & Hj & HW & Hsv & Hpre & Hw)].
    + left. exists w'. split; [done|]. by replace (i + S k) with (S i + k) by lia.
    + right. exists j, w'. split; [lia|]. split; [done|]. split; [done|]. split; [|done].
      replace (j - i) with (S (j - S i)) by lia. cbn [seq fmap list_fmap advances]. by rewrite H.
Qed.

(** ** Detection *)

(** The power of two at which the saved item is on the cycle and a whole
    turn fits before it moves. *)
Lemma pow2_above (m : Z) : (2 <= m)%Z -> exists j : nat, (m <= 2 ^ Z.of_nat j <= 2 * m - 2)%Z.
Proof.
  intros Hm. exists (Z.to_nat (Z.log2_up m)). pose proof (Z.log2_up_nonneg m). rewrite Z2Nat.id by done.
  destruct (Z.log2_up_spec m ltac:(lia)) as [Hlo Hhi]. split; [done|].
  assert (0 < Z.log2_up m)%Z by (apply Z.log2_up_pos; lia).
  replace (Z.log2_up m) with (Z.succ (Z.pred (Z.log2_up m))) by lia. rewrite Z.pow_succ_r by lia. lia.
Qed.

Lemma watching_at k w p :
  watching k w -> (exists j : nat, p = 2 ^ Z.of_nat j)%Z -> (p - 1 <= Z.of_nat k <= 2 * p - 2)%Z -> power w = p.
Proof.
  intros [[j Hj] Hc Hs _] [j' ->] Hk. rewrite Hj in *.
  destruct (Z.lt_trichotomy (Z.of_nat j) (Z.of_nat j')) as [Hlt|[->|Hlt]]; [|done|]; exfalso.
  - assert (2 * 2 ^ Z.of_nat j <= 2 ^ Z.of_nat j')%Z; [|lia].
    rewrite <- Z.pow_succ_r by lia. apply Z.pow_le_mono_r; lia.
  - assert (2 * 2 ^ Z.of_nat j' <= 2 ^ Z.of_nat j)%Z; [|lia].
    rewrite <- Z.pow_succ_r by lia. apply Z.pow_le_mono_r; lia.
Qed.

(** With a lead-in of [mu] items before a cycle of [lambda], the walk is cut
    within [2 * max mu lambda + lambda] items. *)
Lemma cycle_detected mu lambda :
  1 <= lambda -> (forall i, mu <= i -> x (i + lambda) = x i) ->
  (Z.of_nat (2 * Nat.max mu lambda + lambda) + 2 <= usize_max)%Z ->
  exists k w, k <= 2 * Nat.max mu lambda + lambda /\
    advances WalkCycle_new (x <$> seq 0 k) = Ok (w, true) /\ advance w (x k) = Ok (w, false).
Proof.
  intros Hl Hper Hfit. set (m := Z.of_nat (Nat.max (mu + 2) lambda)).
  destruct (pow2_above m ltac:(lia)) as [j Hj]. set (p := (2 ^ Z.of_nat j)%Z) in *.
  set (k := Z.to_nat (p - 2) + lambda).
  destruct (advances_watching k 0 WalkCycle_new watching_new ltac:(lia)) as [(w & Hw & W)|(i & w & Hi & W & Hsv & Hw & _)].
  - exists k, w. split; [lia|]. split; [done|]. cbn [Nat.add] in W.
    pose proof (watching_at k w p W (ex_intro _ j eq_refl) ltac:(lia)) as Hp.
    assert (Hs : saved w = Some (x k)).
    { rewrite (wt_saved _ _ W), Hp. destruct (Z.leb_spec 2 p); [|lia]. unfold k. by rewrite Hper by lia. }
    unfold advance. by rewrite bool_decide_true.
  - exists i, w. split; [lia|]. rewrite Nat.sub_0_r in Hw. split; [done|]. unfold advance. by rewrite bool_decide_true.
Qed.

End walk.

(** Only an item passed before is refused. *)
Lemma advances_saved {E T} `{EqDecision T} items : forall (w : WalkCycle T) w' pre,
  advances (E:=E) w items = Ok (w', true) -> (forall s, saved w = Some s -> s ∈ pre) ->
  forall s, saved w' = Some s -> s ∈ pre ++ items.
Proof.
  induction items as [|item items IH]; intros w w' pre H Hpre s Hs; cbn in H.
  { injection H as <-. rewrite app_nil_r. by apply Hpre. }
  destruct (advance w item) as [[w1 ok]| | |] eqn:Ea; cbn in H; try done. destruct ok; [|done].
  replace (pre ++ item :: items) with ((pre ++ [item]) ++ items) by by rewrite <- app_assoc.
  eapply IH; [done| |done]. intros s' Hs'. unfold advance in Ea. case_bool_decide; [done|]. inv_ok.
  destruct (_ =? _)%Z; inv_ok; cbn in Hs'; [injection Hs' as <-; set_solver|].
  apply elem_of_app. left. by apply Hpre.
Qed.

(** C20. [WalkCycle] reports a cycle only at an item the walk has passed,
    and reports every cycle: a walk with a lead-in of [mu] items before a
    cycle of [lambda] is cut after at most [2 * max mu lambda + lambda]
    items, the bound the source documents, while the counters stay in range. *)
Theorem walk_cycle_correct {E T} `{EqDecision T} (x : nat -> T) mu lambda :
  1 <= lambda -> (forall i, mu <= i -> x (i + lambda) = x i) ->
  (Z.of_nat (2 * Nat.max mu lambda + lambda) + 2 <= usize_max)%Z ->
  (exists k w, k <= 2 * Nat.max mu lambda + lambda /\
    advances (E:=E) WalkCycle_new (x <$> seq 0 k) = Ok (w, true) /\ advance (E:=E) w (x k) = Ok (w, false)) /\
  (forall (items : list T) item w w', advances (E:=E) WalkCycle_new items = Ok (w, true) ->
    advance (E:=E) w item = Ok (w', false) -> item ∈ items).
Proof.
  intros Hl Hper Hfit. split; [by apply cycle_detected|]. intros items item w w' Hw Ha.
  unfold advance in Ha. case_bool_decide as Hs; [|inv_ok; destruct (_ =? _)%Z; inv_ok].
  by eapply (advances_saved items WalkCycle_new w []) in Hw.
Qed.

(** A walk that goes round three items after a lead-in of two. *)
Lemma walk_cycle_witness :
  exists k w, k <= 9 /\
    advances (E:=Empty_set) WalkCycle_new ((fun i => if i <? 2 then i else 2 + (i - 2) mod 3) <$> seq 0 k) = Ok (w, true) /\
    advance (E:=Empty_set) w ((fun i => if i <? 2 then i else 2 + (i - 2) mod 3) k) = Ok (w, false).
Proof.
  apply (walk_cycle_correct (fun i => if i <? 2 then i else 2 + (i - 2) mod 3) 2 3).
  - lia.
  - intros i Hi. destruct (Nat.ltb_spec (i + 3) 2); [lia|]. destruct (Nat.ltb_spec i 2); [lia|].
    f_equal. replace (i + 3 - 2) with (i - 2 + 1 * 3) by lia. by rewrite Nat.Div0.mod_add.
  - vm_compute. discriminate.
Defined.

Lemma not_NoDup_lookup {T} `{EqDecision T} (l : list T) :
  ~ NoDup l -> exists i j a, i < j /\ l !! i = Some a /\ l !! j = Some a.
Proof.
  induction l as [|a l IH]; intros H; [destruct H; constructor|].
  destruct (decide (a ∈ l)) as [Ha|Ha].
  - apply list_elem_of_lookup in Ha as [j Hj]. exists 0, (S j), a. split; [lia|done].
  - destruct IH as (i & j & b & ? & ? & ?); [intros Hl; apply H; by constructor|].
    exists (S i), (S j), b. split; [lia|done].
Qed.

(** ** Loops guarded by a [WalkCycle]

    [while cycle.advance(item) { .. }], whose body either leaves the loop
    with a result or goes on to the item's successor. *)
Section loops.
Context {E T A R : Type} `{EqDecision T}.
Context (body : T -> A -> R + T * A) (cut : A -> R).

Fixpoint walk_while (fuel : nat) (w : WalkCycle T) (item : T) (acc : A) : outcome E R :=
  match fuel with
  | 0 => OutOfFuel
  | S fuel =>
      '(w, ok) ← advance w item;
      if negb ok then Ok (cut acc)
      else match body item acc with
           | inl r => Ok r
           | inr (next, acc) => walk_while fuel w next acc
           end
  end.

Context (next : T -> option T) (X : list T).
Hypothesis Hnext : forall a acc b acc', body a acc = inr (b, acc') -> next a = Some b.
Hypothesis Hfinite : forall a b, next a = Some b -> b ∈ X.

(** The walk, standing still once it has no successor. *)
Definition walk_item (start : T) (i : nat) : T := Nat.iter i (fun a => default a (next a)) start.

Lemma walk_item_S start i : walk_item start (S i) = default (walk_item start i) (next (walk_item start i)).
Proof. done. Qed.

Lemma walk_item_in start i : walk_item start i ∈ start :: X.
Proof.
  induction i as [|i IH]; [left|]. rewrite walk_item_S.
  destruct (next (walk_item start i)) as [b|] eqn:En; cbn; [right; exact (Hfinite _ _ En)|done].
Qed.

Lemma walk_item_add start i j : walk_item start (i + j) = Nat.iter i (fun a => default a (next a)) (walk_item start j).
Proof. apply Nat.iter_add. Qed.

(** It repeats an item within [length X + 1] steps, and from there on. *)
Lemma walk_item_periodic start : exists mu lambda,
  1 <= lambda /\ mu + lambda <= length X + 1 /\ forall i, mu <= i -> walk_item start (i + lambda) = walk_item start i.
Proof.
  assert (Hrep : exists i j, i < j <= length X + 1 /\ walk_item start i = walk_item start j).
  { destruct (decide (NoDup (walk_item start <$> seq 0 (length X + 2)))) as [Hnd|Hnd].
    - exfalso. assert (Hsub : walk_item start <$> seq 0 (length X + 2) ⊆+ start :: X).
      { apply NoDup_submseteq; [done|]. intros a Ha. apply list_elem_of_fmap in Ha as (i & -> & _). apply walk_item_in. }
      apply submseteq_length in Hsub. rewrite length_fmap, length_seq in Hsub. cbn in Hsub. lia.
    - destruct (not_NoDup_lookup _ Hnd) as (i & j & a & Hlt & Hi & Hj).
      rewrite list_lookup_fmap in Hi, Hj. apply fmap_Some in Hi as (i' & Hi & ->), Hj as (j' & Hj & Heq).
      apply lookup_seq in Hi as [-> Hi], Hj as [-> Hj]. exists i, j. split; [lia|done]. }
  destruct Hrep as (i & j & Hij & Heq). exists i, (j - i). split; [lia|]. split; [lia|]. intros n Hn.
  replace (n + (j - i)) with ((n - i) + j) by lia. rewrite walk_item_add, <- Heq, <- walk_item_add. f_equal. lia.
Qed.

Lemma advances_split (w w' : WalkCycle T) l1 l2 :
  advances (E:=E) w (l1 ++ l2) = Ok (w', true) ->
  exists w1, advances (E:=E) w l1 = Ok (w1, true) /\ advances (E:=E) w1 l2 = Ok (w', true).
Proof.
  revert w. induction l1 as [|a l1 IH]; intros w H; [by exists w|]. cbn in *.
  destruct (advance w a) as [[w1 ok]| | |]; cbn in *; try done. destruct ok; [by apply IH|done].
Qed.

(** The loop ends: [3 * (length X + 1)] turns and the last test are enough. *)
Lemma walk_while_total start acc fuel :
  3 * (length X + 1) < fuel -> (Z.of_nat fuel + 2 <= usize_max)%Z ->
  exists r, walk_while fuel WalkCycle_new start acc = Ok r.
Proof.
  intros Hfuel Hfit. destruct (walk_item_periodic start) as (mu & lambda & Hl & Hb & Hper).
  destruct (cycle_detected (E:=E) (walk_item start) mu lambda Hl Hper ltac:(lia)) as (k & w & Hk & Hacc & Hcut).
  assert (Hrun : forall n i w1 acc fuel, i + n = k -> advances (E:=E) w1 (walk_item start <$> seq i n) = Ok (w, true) ->
            n < fuel -> exists r, walk_while fuel w1 (walk_item start i) acc = Ok r).
  { clear acc fuel Hfuel Hfit. intros n. induction n as [|n IH]; intros i w1 acc fuel Hi Hw Hf;
      (destruct fuel as [|fuel]; [lia|]); cbn.
    - rewrite Nat.add_0_r in Hi. subst i. cbn in Hw. injection Hw as ->. rewrite Hcut. cbn. eauto.
    - cbn in Hw. destruct (advance w1 (walk_item start i)) as [[w2 ok]| | |]; cbn in *; try done. destruct ok; [|done]. cbn.
      destruct (body (walk_item start i) acc) as [r|[b acc']] eqn:Eb; [eauto|].
      assert (b = walk_item start (S i)) as ->.
      { apply Hnext in Eb. by rewrite walk_item_S, Eb. }
      apply IH; [lia|done|lia]. }
  by apply (Hrun k 0); [|..|lia].
Qed.

End loops.
