(* ===== verification/FanSites.v ===== *)
(** * Fresh fan sites for a copy ([translate_fan_identity] of
    [runtime/cursor.rs])

    A copied fan keeps its duplication history, but with the copy's own
    sites: each source site gets one fresh site of the target net, the same
    one throughout the copy. The file shows that translation is total while
    sites are left, renames by one injective map into fresh sites, and so
    relates the fans of a copy exactly as their sources were related and to no
    fan the target already had. *)
From stdpp Require Import base option list numbers gmap tactics.
From Stdlib Require Import ZArith Lia.
From S2P Require Import Prelude NetModel RuntimeGraph.

(** The state threaded through a translation: the net's next fan site and
    the copy's site map. *)
Notation SiteState := (Z * gmap FanSite FanSite)%type.

(** [fan_sites.entry(site).or_insert_with(..)]. *)
Definition translate_site (st : SiteState) (site : FanSite) : M (SiteState * FanSite) :=
  let '(next, sites) := st in
  match sites !! site with
  | Some fresh => Ok (st, fresh)
  | None =>
      let fresh := MkFanSite next in
      next ← expect (checked_add next 1);
      Ok ((next, <[site := fresh]> sites), fresh)
  end.

Fixpoint translate_fan_identity (st : SiteState) (identity : FanIdentity) {struct identity} : M (SiteState * FanIdentity) :=
  match identity with
  | MkFan site context =>
      '(st, site) ← translate_site st site;
      '(st, context) ←
        (fix steps (st : SiteState) (context : list (FanIdentity * Z)) {struct context} : M (SiteState * list (FanIdentity * Z)) :=
           match context with
           | [] => Ok (st, [])
           | (through, branch) :: rest =>
               '(st, through) ← translate_fan_identity st through;
               '(st, rest) ← steps st rest;
               Ok (st, (through, branch) :: rest)
           end) st context;
      Ok (st, MkFan site context)
  end.

(** ** Renaming, the specification *)
Fixpoint rename (f : FanSite -> FanSite) (identity : FanIdentity) : FanIdentity :=
  match identity with
  | MkFan site context => MkFan (f site) ((fun '(through, branch) => (rename f through, branch)) <$> context)
  end.

Fixpoint sites_of (identity : FanIdentity) : list FanSite :=
  match identity with
  | MkFan site context => site :: (context ≫= (fun step => sites_of (fst step)))
  end.

(** Induction over the steps of a history. *)
Lemma fan_identity_ind (P : FanIdentity -> Prop) :
  (forall site context, Forall (fun step => P (fst step)) context -> P (MkFan site context)) -> forall f, P f.
Proof.
  intros H. fix IH 1. intros [site context]. apply H. induction context as [|[t b] context IHc]; constructor; [apply IH|done].
Qed.

Lemma rename_ext f g identity :
  (forall s, s ∈ sites_of identity -> f s = g s) -> rename f identity = rename g identity.
Proof.
  induction identity as [site context IH] using fan_identity_ind. intros H. cbn. f_equal; [apply H; left|].
  apply list_fmap_ext. intros i [t b] Hi. f_equal. rewrite list.Forall_forall in IH.
  apply (IH (t, b)); [by eapply list_elem_of_lookup_2|]. intros s Hs. apply H. right.
  apply list_elem_of_bind. exists (t, b). split; [done|by eapply list_elem_of_lookup_2].
Qed.

Lemma rename_sites f identity : sites_of (rename f identity) = f <$> sites_of identity.
Proof.
  induction identity as [site context IH] using fan_identity_ind. cbn. f_equal.
  induction IH as [|[t b] context Ht _ IHc]; [done|]. cbn in *. rewrite fmap_app, Ht. f_equal. exact IHc.
Qed.

(** An injective renaming is injective on identities. *)
Lemma rename_inj f x : forall y,
  (forall s s', s ∈ sites_of x -> s' ∈ sites_of y -> f s = f s' -> s = s') -> rename f x = rename f y -> x = y.
Proof.
  induction x as [site context IH] using fan_identity_ind. intros [site' context'] Hf Heq. cbn in Heq.
  injection Heq as Hs Hc. f_equal; [apply Hf; [left|left|done]|].
  assert (Hf' : forall s s', s ∈ (context ≫= fun step => sites_of (fst step)) ->
    s' ∈ (context' ≫= fun step => sites_of (fst step)) -> f s = f s' -> s = s').
  { intros s s' H1 H2. apply Hf; by right. }
  clear Hf Hs. revert context' Hc Hf'. induction IH as [|[t b] context Ht _ IHc]; intros [|[t' b'] context'] Hc Hf';
    try done. cbn in Hc. injection Hc as Ht' -> Hc. f_equal.
  - f_equal. apply Ht; [|done]. intros s s' H1 H2. apply Hf'; cbn; apply elem_of_app; by left.
  - apply IHc; [done|]. intros s s' H1 H2. apply Hf'; cbn; apply elem_of_app; by right.
Qed.

(** ** Translation *)

(** A copy's site map: injective, into the sites handed out since the
    target's counter stood at [base]. *)
Record site_map_ok (base next : Z) (sites : gmap FanSite FanSite) : Prop := {
  sm_base : (base <= next)%Z;
  sm_range : forall s v, sites !! s = Some v -> (base <= site_raw v < next)%Z;
  sm_inj : forall s s' v, sites !! s = Some v -> sites !! s' = Some v -> s = s';
}.

Definition site_fn (sites : gmap FanSite FanSite) (s : FanSite) : FanSite := default s (sites !! s).

(** What a translation does to the site state. *)
Record extended (base : Z) (st : SiteState) (used : list FanSite) (st' : SiteState) : Prop := {
  ex_ok : site_map_ok base (fst st') (snd st');
  ex_sub : snd st ⊆ snd st';
  ex_next : (fst st <= fst st' <= fst st + Z.of_nat (length used))%Z;
  ex_used : forall s, s ∈ used -> is_Some (snd st' !! s);
}.

Lemma extended_trans base st1 st2 st3 u v :
  extended base st1 u st2 -> extended base st2 v st3 -> extended base st1 (u ++ v) st3.
Proof.
  intros [O1 S1 N1 U1] [O2 S2 N2 U2]. split; [done|by etrans| |].
  - rewrite length_app. lia.
  - intros s [Hs|Hs]%elem_of_app; [|by apply U2]. destruct (U1 s Hs) as [v' Hv]. exists v'. by eapply lookup_weaken.
Qed.

Lemma site_fn_sub sites sites' s : sites ⊆ sites' -> is_Some (sites !! s) -> site_fn sites' s = site_fn sites s.
Proof. intros Hsub [v Hv]. unfold site_fn. by rewrite Hv, (lookup_weaken _ _ _ _ Hv Hsub). Qed.

Lemma translate_site_spec base st site :
  site_map_ok base (fst st) (snd st) -> (fst st + 1 <= usize_max)%Z ->
  exists st', translate_site st site = Ok (st', site_fn (snd st') site) /\ extended base st [site] st'.
Proof.
  destruct st as [next sites]. intros [Hb Hr Hi] Hroom. cbn in *. destruct (sites !! site) as [v|] eqn:E.
  - exists (next, sites). unfold site_fn. cbn. rewrite E. split; [done|]. split; cbn; try done; [lia|].
    intros s ->%list_elem_of_singleton. by rewrite E.
  - rewrite checked_add_fits by done. cbn. exists ((next + 1)%Z, <[site := MkFanSite next]> sites).
    unfold site_fn. cbn. rewrite lookup_insert_eq. split; [done|]. split; cbn.
    + split; [lia| |].
      * intros s v [[<- <-]|[_ Hs]]%lookup_insert_Some; cbn; [lia|]. specialize (Hr _ _ Hs). lia.
      * intros s s' v [[<- <-]|[Hn Hs]]%lookup_insert_Some [[<- Hv]|[Hn' Hs']]%lookup_insert_Some; try done.
        -- apply Hr in Hs'. cbn in Hs'. lia.
        -- subst v. apply Hr in Hs. cbn in Hs. lia.
        -- by eapply Hi.
    + by apply insert_subseteq.
    + lia.
    + intros s ->%list_elem_of_singleton. rewrite lookup_insert_eq. done.
Qed.

Lemma rename_sub sites sites' identity :
  sites ⊆ sites' -> (forall s, s ∈ sites_of identity -> is_Some (sites !! s)) ->
  rename (site_fn sites') identity = rename (site_fn sites) identity.
Proof. intros Hsub Hd. apply rename_ext. intros s Hs. apply site_fn_sub; auto. Qed.

Lemma translate_spec base identity : forall st,
  site_map_ok base (fst st) (snd st) -> (fst st + Z.of_nat (length (sites_of identity)) <= usize_max)%Z ->
  exists st', translate_fan_identity st identity = Ok (st', rename (site_fn (snd st')) identity) /\
    extended base st (sites_of identity) st'.
Proof.
  induction identity as [site context IH] using fan_identity_ind. intros st Hok Hroom. cbn [sites_of length] in Hroom.
  destruct (translate_site_spec base st site Hok ltac:(lia)) as (st1 & H1 & E1). cbn [translate_fan_identity rename sites_of].
  rewrite H1. cbn [mbind outcome_bind].
  match goal with |- context [?steps st1 context] => set (go := steps) end.
  assert (Hgo : forall st1, site_map_ok base (fst st1) (snd st1) ->
    (fst st1 + Z.of_nat (length (context ≫= fun step => sites_of (fst step))) <= usize_max)%Z ->
    exists st2, go st1 context = Ok (st2, (fun '(through, branch) => (rename (site_fn (snd st2)) through, branch)) <$> context) /\
      extended base st1 (context ≫= fun step => sites_of (fst step)) st2).
  { clear H1 E1 st1 Hroom Hok st. induction IH as [|[t b] context Ht _ IHc]; intros st1 Hok Hroom.
    - exists st1. split; [done|]. split; try done; [cbn; lia|]. intros s Hs. by apply not_elem_of_nil in Hs.
    - cbn in Hroom. rewrite length_app in Hroom. destruct (Ht st1 Hok ltac:(cbn in *; lia)) as (st2 & H2 & E2).
      destruct (IHc st2) as (st3 & H3 & E3); [apply E2|pose proof (ex_next _ _ _ _ E2); cbn in *; lia|].
      exists st3. split; [|cbn; by eapply extended_trans].
      cbn. cbn in H2. rewrite H2. cbn [mbind outcome_bind]. fold go. rewrite H3. cbn [mbind outcome_bind].
      rewrite (rename_sub (snd st2) (snd st3)); [done|apply E3|apply E2]. }
  destruct (Hgo st1) as (st2 & H2 & E2); [apply E1|pose proof (ex_next _ _ _ _ E1); cbn in *; lia|].
  exists st2. rewrite H2. cbn [mbind outcome_bind]. split.
  - rewrite (site_fn_sub (snd st1) (snd st2)); [done|apply E2|]. apply E1. left.
  - apply (extended_trans _ _ st1 _ [site]); done.
Qed.

Lemma site_fn_inj base next sites s s' :
  site_map_ok base next sites -> is_Some (sites !! s) -> is_Some (sites !! s') -> site_fn sites s = site_fn sites s' -> s = s'.
Proof.
  intros O [v Hv] [v' Hv'] H. unfold site_fn in H. rewrite Hv, Hv' in H. cbn in H. subst v'. by eapply sm_inj.
Qed.

(** Translating two fans of one copy succeeds while sites are left, and
    relates them as their sources were: they get equal identities exactly when
    they had equal identities, so a copied pair annihilates exactly when the
    source pair would. Every site they use is fresh, so neither is equal to a
    fan that the target net had before the copy began. *)
Theorem fan_copy_faithful base st f g :
  site_map_ok base (fst st) (snd st) ->
  (fst st + Z.of_nat (length (sites_of f) + length (sites_of g)) <= usize_max)%Z ->
  exists st1 st2 f' g',
    translate_fan_identity st f = Ok (st1, f') /\ translate_fan_identity st1 g = Ok (st2, g') /\
    site_map_ok base (fst st2) (snd st2) /\
    (f' = g' <-> f = g) /\
    (forall h, (site_raw (fan_site h) < base)%Z -> h <> f' /\ h <> g').
Proof.
  intros Hok Hroom. destruct (translate_spec base f st Hok ltac:(lia)) as (st1 & H1 & E1).
  pose proof (ex_next _ _ _ _ E1) as Hn1.
  destruct (translate_spec base g st1 (ex_ok _ _ _ _ E1) ltac:(lia)) as (st2 & H2 & E2).
  exists st1, st2, (rename (site_fn (snd st1)) f), (rename (site_fn (snd st2)) g).
  split; [done|]. split; [done|]. split; [apply E2|].
  pose proof (rename_sub (snd st1) (snd st2) f (ex_sub _ _ _ _ E2) (ex_used _ _ _ _ E1)) as Hf.
  assert (Hdef : forall s, s ∈ sites_of f \/ s ∈ sites_of g -> is_Some (snd st2 !! s)).
  { intros s [Hs|Hs]; [|by apply E2]. destruct (ex_used _ _ _ _ E1 s Hs) as [v Hv]. exists v.
    by eapply lookup_weaken, E2. }
  split; [rewrite <- Hf; split; [|by intros ->]|].
  - apply rename_inj. intros s s' Hs Hs'. eapply site_fn_inj; [apply E2|apply Hdef..]; auto.
  - assert (Hfresh : forall x, (forall s, s ∈ sites_of x -> is_Some (snd st2 !! s)) ->
      (base <= site_raw (fan_site (rename (site_fn (snd st2)) x)))%Z).
    { intros [site context] Hx. cbn. destruct (Hx site) as [v Hv]; [left|]. unfold site_fn. rewrite Hv. cbn.
      by apply (sm_range _ _ _ (ex_ok _ _ _ _ E2) site). }
    intros h Hh. rewrite <- Hf. split; intros ->.
    + pose proof (Hfresh f ltac:(auto)). lia.
    + pose proof (Hfresh g ltac:(auto)). lia.
Qed.

(** Two duplications of one fan, copied into a net that has used three
    sites. *)
Lemma fan_copy_witness :
  exists st1 st2 f' g',
    translate_fan_identity (3%Z, ∅) (MkFan (MkFanSite 0) [(MkFan (MkFanSite 1) [], 0%Z)]) = Ok (st1, f') /\
    translate_fan_identity st1 (MkFan (MkFanSite 0) [(MkFan (MkFanSite 1) [], 1%Z)]) = Ok (st2, g') /\ f' <> g'.
Proof.
  destruct (fan_copy_faithful 3 (3%Z, ∅) (MkFan (MkFanSite 0) [(MkFan (MkFanSite 1) [], 0%Z)])
    (MkFan (MkFanSite 0) [(MkFan (MkFanSite 1) [], 1%Z)])) as (st1 & st2 & f' & g' & H1 & H2 & _ & Heq & _).
  - split; cbn; [lia|intros s v; by rewrite lookup_empty|intros s s' v; by rewrite lookup_empty].
  - vm_compute. discriminate.
  - exists st1, st2, f', g'. split; [exact H1|]. split; [exact H2|]. intros H. apply Heq in H. discriminate H.
Defined.
