(* ===== verification/WholeCopy.v ===== *)
(** * Whole copies ([src/interaction_net/runtime/whole_copy.rs])

    A source net with no evaluation left is copied in one step: the part
    reachable from its interface is captured as nodes with links given by
    position, and installed with fresh node IDs and fan sites where a typed
    reference awaits it. *)
From stdpp Require Import base option list numbers gmap tactics.
From Stdlib Require Import ZArith Lia.
From S2P Require Import Prelude NetModel RuntimeGraph Boundary Rewrite FanSites.

Definition WHOLE_COPY_MAX_NODES : nat := 64.

Record WholeCopyLink := MkCopyLink { wl_node : nat; wl_port : nat; wl_sign : Sign }.

Section whole.
Context {S : NetSpecialization} {P : PayloadDuplicator S}.

Record WholeCopyNode := MkCopyNode {
  wn_node : RuntimeNode Data Operator Checkpoint;
  wn_links : list (option WholeCopyLink);
}.

Record WholeCopy := MkWholeCopy {
  wc_nodes : list WholeCopyNode;
  wc_root : nat;
  wc_root_sign : Sign;
}.

Definition whole_len (c : WholeCopy) : nat := length (wc_nodes c).

Definition with_copies (N : RuntimeNet) cs : RuntimeNet :=
  MkRuntimeNet (next_node_id N) (next_fan_site N) (rt_exposed N) (rt_nodes N) (next_copy_id N) cs
    (cursor_obligations N) (active N).
Definition with_fan_site (N : RuntimeNet) site : RuntimeNet :=
  MkRuntimeNet (next_node_id N) site (rt_exposed N) (rt_nodes N) (next_copy_id N) (copies N)
    (cursor_obligations N) (active N).

(** ** Capturing *)
Definition uncopyable (k : RuntimeNode Data Operator Checkpoint) : bool :=
  match k with RInterface | RRemoteCursor _ _ | RCallableCheckpoint _ => true | _ => false end.

(** The nodes found so far, in order, with their positions. *)
Notation Reached := (list nat * gmap nat nat)%type.

(** One port of a reached node: its peer is appended unless it is known or is
    the interface; [None] when there are too many nodes. *)
Definition reach_port (N : RuntimeNet) (interface : Port) (n : nat) (acc : option Reached) (i : nat) : option Reached :=
  '(order, positions) ← acc;
  match neighbor N (MkPort n i) with
  | None => Some (order, positions)
  | Some peer =>
      if bool_decide (peer = interface) || bool_decide (is_Some (positions !! node peer)) then Some (order, positions)
      else if bool_decide (length order = WHOLE_COPY_MAX_NODES) then None
      else Some (order ++ [node peer], <[node peer := length order]> positions)
  end.

(** [while let Some(&node) = order.get(next)]. *)
Fixpoint reach (fuel : nat) (N : RuntimeNet) (interface : Port) (st : Reached) (next : nat) : M (option Reached) :=
  match fst st !! next with
  | None => Ok (Some st)
  | Some n =>
      match fuel with
      | 0 => OutOfFuel
      | Datatypes.S fuel =>
          match node_at N n with
          | None => Ok None
          | Some k =>
              if uncopyable k then Ok None
              else match foldl (reach_port N interface n) (Some st) (seq 0 (runtime_port_count k)) with
                   | None => Ok None
                   | Some st => reach fuel N interface st (next + 1)
                   end
          end
      end
  end.

(** One link of a captured node. *)
Definition capture_link (N : RuntimeNet) (interface : Port) (positions : gmap nat nat) (n count i : nat)
    : M (option WholeCopyLink) :=
  if bool_decide (i < count) then
    match reference N (MkPort n i) with
    | None => Ok None
    | Some peer =>
        if bool_decide (port peer = interface) then Ok None
        else
          position ← expect (positions !! node (port peer));
          Ok (Some (MkCopyLink position (index (port peer)) (sign peer)))
    end
  else Ok None.

Definition capture_node (N : RuntimeNet) (interface : Port) (positions : gmap nat nat) (n : nat) : M WholeCopyNode :=
  source ← expect (node_at N n);
  links ← mapM (capture_link N interface positions n (runtime_port_count source)) (seq 0 3);
  copied ← expect (duplicate_copyable duplicate_data duplicate_operator source);
  Ok (MkCopyNode copied links).

Definition whole_copy (N : RuntimeNet) : M (option WholeCopy) :=
  if negb (bool_decide (active N = ∅)) || negb (bool_decide (copies N = ∅)) ||
     negb (bool_decide (cursor_obligations N = ∅))
  then Ok None
  else
    match rt_exposed N with
    | None => Ok None
    | Some interface =>
        match q ← neighbor N interface; signed N q with
        | None => Ok None
        | Some root =>
            reached ← reach WHOLE_COPY_MAX_NODES N interface
                        ([node (port root)], {[node (port root) := 0]}) 0;
            match reached with
            | None => Ok None
            | Some (order, positions) =>
                nodes ← mapM (capture_node N interface positions) order;
                Ok (Some (MkWholeCopy nodes (index (port root)) (sign root)))
            end
        end
    end.

Definition whole_copy_for (N : RuntimeNet) (remote : Port) : M (option WholeCopy) :=
  if negb (bool_decide (rt_exposed N = Some remote)) then Ok None else whole_copy N.

(** ** Installing *)

(** The first loop: one node, with the copy's fan sites. *)
Definition install_node (acc : RuntimeNet * gmap FanSite FanSite * list nat) (c : WholeCopyNode)
    : M (RuntimeNet * gmap FanSite FanSite * list nat) :=
  let '(N, sites, ids) := acc in
  '(N, sites, k) ← match wn_node c with
                   | RFan identity =>
                       '(st, identity) ← translate_fan_identity (next_fan_site N, sites) identity;
                       Ok (with_fan_site N (fst st), snd st, RFan identity)
                   | k => Ok (N, sites, k)
                   end;
  '(N, id) ← add_node N k;
  Ok (N, sites, ids ++ [id]).

(** Both ends record each wire; the earlier one writes it. *)
Definition earlier (position i : nat) (link : WholeCopyLink) : bool :=
  (position <? wl_node link) || ((position =? wl_node link) && (i <? wl_port link)).

Definition install_link (ids : list nat) (position : nat) (N : RuntimeNet) (x : nat * option WholeCopyLink) : M RuntimeNet :=
  let '(i, link) := x in
  match link with
  | Some link =>
      if earlier position i link then
        a ← vec_get ids position;
        b ← vec_get ids (wl_node link);
        rt_wire N (MkSignedPort (MkPort a i) (opposite (wl_sign link)))
                  (MkSignedPort (MkPort b (wl_port link)) (wl_sign link))
      else Ok N
  | None => Ok N
  end.

Definition install_whole_copy (N : RuntimeNet) (copy : WholeCopy) (ref : SignedPort) : M (RuntimeNet * nat) :=
  '(N, _, ids) ← foldM install_node (N, ∅, []) (wc_nodes copy);
  N ← foldM (fun N '(position, c) => foldM (install_link ids position) N (imap pair (wn_links c)))
        N (imap pair (wc_nodes copy));
  root ← vec_get ids 0;
  N ← bind_reference N (MkPort root (wc_root copy)) ref;
  Ok (N, root).

(** ** Making a copy whole that has not advanced *)
Definition unadvanced_cursor (N : RuntimeNet) (copy : Z) (remote : Port) : M (option nat) :=
  match copies N !! copy with
  | None => Ok None
  | Some state =>
      if negb (bool_decide (size (frontiers state) = 1)) then Ok None
      else match frontiers state !! remote with
           | None => Ok None
           | Some cursor =>
               in_flight ← cursor_claim_is_in_flight N cursor;
               Ok (if (in_flight : bool) then None else Some cursor)
           end
  end.

Definition make_copy_whole (N : RuntimeNet) (copy : Z) (remote : Port) (whole : WholeCopy) : M (RuntimeNet * bool) :=
  found ← unadvanced_cursor N copy remote;
  match found with
  | None => Ok (N, false)
  | Some cursor =>
      let N := unschedule_node N cursor in
      '(N, taken) ← take_reference N (principal cursor);
      ref ← expect taken;
      '(N, _) ← remove_node N cursor;
      let N := with_copies N (delete copy (copies N)) in
      '(N, _) ← install_whole_copy N whole ref;
      Ok (N, true)
  end.

End whole.
