(* ===== verification/Copies.v ===== *)
(** * Copies through remote cursors ([src/interaction_net/runtime/cursor.rs])

    A copy of a source net is begun by one remote cursor and materialized
    node by node: a claimed cursor looks across its source anchor and is
    replaced by a copy of the node it finds, with one new cursor per auxiliary
    port; two cursors of one copy that stand for the two ends of one source
    wire are joined; otherwise the cursor is blocked on what it waits for.

    The file shows that each transition keeps the target net well formed, and
    an invariant between a copy and its source ([copy_ok]): the part of the
    source already copied is frozen, the cursors stand for distinct source
    ports and have their signs. The invariant is what keeps the transitions
    from panicking, and it survives reductions of the source. *)
From stdpp Require Import base option list numbers gmap tactics.
From Stdlib Require Import ZArith Lia.
From S2P Require Import Prelude NetModel RuntimeGraph Boundary Rewrite Calls WalkCycle FanSites WholeCopy.

Section copying.
Context {S : NetSpecialization} {P : PayloadDuplicator S}.

Definition with_copy_id (N : RuntimeNet) id : RuntimeNet :=
  MkRuntimeNet (next_node_id N) (next_fan_site N) (rt_exposed N) (rt_nodes N) id (copies N)
    (cursor_obligations N) (active N).

(** ** Data *)
Inductive SourcePrincipalNode :=
  | SpCopyable (n : RuntimeNode Data Operator Checkpoint)
  | SpCallableCheckpoint.

Inductive SourceFrontierShape :=
  | ShPrincipal (p : Port) (n : SourcePrincipalNode)
  | ShStableAuxiliary (p : Port) (principal_anchors : list Port) (terminal_pair : option nat)
  | ShActiveAuxiliary (entered partner : Port).

Definition endpoint (shape : SourceFrontierShape) : option DemandEndpoint :=
  match shape with
  | ShPrincipal p (SpCopyable (RRemoteCursor _ _)) => Some (EpCursor (node p))
  | ShPrincipal _ _ => None
  | ShStableAuxiliary _ _ terminal_pair => EpActivePair <$> terminal_pair
  | ShActiveAuxiliary entered partner => Some (EpActivePair (active_pair_key (node entered) (node partner)))
  end.

Record SourceFrontier := MkFrontier {
  sf_anchor : Port;
  sf_shape : SourceFrontierShape;
  sf_observation : option FrontierObservation;
}.

Record CursorClaim := MkClaim {
  claim_cursor : nat;
  claim_owner : CursorClaimOwner;
  claim_copy : Z;
  claim_remote : Port;
  claim_source : RuntimeSource;
}.

(** A copy prepared from its source. *)
Inductive PreparedCopySource :=
  | PcsCursor (source : RuntimeSource) (remote : Port)
  | PcsWhole (copy : WholeCopy).

(** ** Starting a copy *)
Definition begin_cursor_copy (N : RuntimeNet) (source : RuntimeSource) (remote : Port) : M (RuntimeNet * nat) :=
  let copy := next_copy_id N in
  id ← expect (checked_add copy 1);
  let N := with_copy_id N id in
  _ ← rust_assert (bool_decide (copies N !! copy = None));
  let N := with_copies N (<[copy := MkCopyState source ∅ ∅]> (copies N)) in
  '(N, cursor) ← add_node N (RRemoteCursor copy remote);
  state ← expect (copies N !! copy);
  Ok (with_copies N (<[copy := MkCopyState (copy_source state) (<[remote := cursor]> (frontiers state)) (fan_sites state)]> (copies N)),
      cursor).

Definition install_copy (N : RuntimeNet) (prepared : PreparedCopySource) (ref : SignedPort) : M (RuntimeNet * nat) :=
  match prepared with
  | PcsCursor source remote =>
      '(N, cursor) ← begin_cursor_copy N source remote;
      N ← bind_reference N (principal cursor) ref;
      Ok (N, cursor)
  | PcsWhole copy => install_whole_copy N copy ref
  end.

Definition attach_call_to_copy (N : RuntimeNet) (call : Call) (source : PreparedCopySource) : M (RuntimeNet * nat) :=
  N ← remove_claimed N (call_pair call);
  bind ← expect (signed N (principal (call_bind call)));
  '(N, other) ← disconnect N (principal (call_bind call));
  _ ← rust_assert (bool_decide (other = Some (principal (call_data call))));
  '(N, removed) ← remove_node N (call_data call);
  _ ← rust_assert (match removed with RData _ => true | _ => false end);
  install_copy N source bind.

Definition resume_claimed_call_with_copy (N : RuntimeNet) (call : Call) (source : PreparedCopySource)
    : M (RuntimeNet * nat) := attach_call_to_copy N call source.

Definition resume_claimed_checkpoint_with_copy (N : RuntimeNet) (call : CallableCheckpointCall)
    (source : PreparedCopySource) : M (RuntimeNet * nat) :=
  bind ← expect (signed N (principal (cc_bind call)));
  '(N, taken) ← take_empty_claimed_checkpoint N call;
  _ ← rust_assert taken;
  install_copy N source bind.

(** One turn of the loop of [applied]: a bind and its argument; the first
    bind faces the function, each other the previous bind's result. *)
Definition apply_argument (acc : RuntimeNet * option PreparedCopySource * option Port) (argument : Data)
    : M (RuntimeNet * option PreparedCopySource * option Port) :=
  let '(N, function, result) := acc in
  '(N, bind) ← add_node N RBind;
  '(N, data) ← add_node N (RData argument);
  p ← auxiliary bind 1;
  N ← rt_wire N (MkSignedPort (principal data) Provides) (MkSignedPort p Consumes);
  '(N, function) ← match result with
      | Some previous =>
          N ← rt_wire N (MkSignedPort previous Provides) (MkSignedPort (principal bind) Consumes);
          Ok (N, function)
      | None =>
          f ← expect function;
          '(N, _) ← install_copy N f (MkSignedPort (principal bind) Consumes);
          Ok (N, None)
      end;
  r ← auxiliary bind 2;
  Ok (N, function, Some r).

Definition applied (function : PreparedCopySource) (arguments : list Data) : M RuntimeNet :=
  '(N, _, result) ← foldM apply_argument (empty_net, Some function, None) arguments;
  result ← expect result;
  '(N, interface) ← add_interface N result;
  Ok (MkRuntimeNet (next_node_id N) (next_fan_site N) (Some interface) (rt_nodes N) (next_copy_id N) (copies N)
        (cursor_obligations N) (active N)).

(** ** Cursor claims *)
Definition is_remote (N : RuntimeNet) (cursor : nat) (copy : Z) (remote : Port) : bool :=
  match node_at N cursor with
  | Some (RRemoteCursor c r) => (c =? copy)%Z && bool_decide (r = remote)
  | _ => false
  end.

Definition cursor_claim (duplicate_runtime_source : RuntimeSource -> RuntimeSource) (N : RuntimeNet) (cursor : nat)
    : M (option CursorClaim) :=
  owner ← cursor_claim_owner N cursor;
  match owner with
  | None => Ok None
  | Some owner =>
      in_flight ← cursor_claim_is_in_flight N cursor;
      if negb in_flight then Ok None
      else Ok (match node_at N cursor with
               | Some (RRemoteCursor copy remote) =>
                   state ← copies N !! copy;
                   Some (MkClaim cursor owner copy remote (duplicate_runtime_source (copy_source state)))
               | _ => None
               end)
  end.

Definition release_cursor_claim (N : RuntimeNet) (claim : CursorClaim) : RuntimeNet * bool :=
  if negb (is_remote N (claim_cursor claim) (claim_copy claim) (claim_remote claim)) then (N, false)
  else match claim_owner claim with
       | OwnActivePair key =>
           if negb (is_claimed_pair N key) then (N, false) else (set_state N key ApReady, true)
       | OwnObligation =>
           match cursor_obligations N !! claim_cursor claim with
           | None => (N, false)
           | Some obligation =>
               if negb (pc_is_claimed (ob_state obligation)) then (N, false)
               else (with_obligations N (<[claim_cursor claim := MkObligation (ob_cursor obligation) PcReady]>
                       (cursor_obligations N)), true)
           end
       end.

(** ** Looking at the source *)

(** One turn of the loop over the demand spine. *)
Definition spine_step (N : RuntimeNet) (n : nat) (anchors : list Port) : (list Port * option nat) + nat * list Port :=
  match neighbor N (principal n) with
  | None => inl (anchors, None)
  | Some q => if is_principal q then inl (anchors, Some (active_pair_key n (node q)))
              else inr (node q, anchors ++ [q])
  end.

Definition spine_fuel (N : RuntimeNet) : nat := 3 * (size (rt_nodes N) + 1) + 1.

Definition inspect_source_frontier_shape (N : RuntimeNet) (remote : Port) : M SourceFrontierShape :=
  p ← expect (neighbor N remote);
  if is_principal p then
    n ← expect (node_at N (node p));
    Ok (ShPrincipal p (match duplicate_copyable duplicate_data duplicate_operator n with
                       | Some n => SpCopyable n
                       | None => SpCallableCheckpoint
                       end))
  else
    match neighbor N (principal (node p)) with
    | Some partner => if is_principal partner then Ok (ShActiveAuxiliary p partner) else
        '(anchors, terminal) ← walk_while (spine_step N) (fun anchors => (anchors, None)) (spine_fuel N)
                                 WalkCycle_new (node p) [];
        Ok (ShStableAuxiliary p anchors terminal)
    | None =>
        '(anchors, terminal) ← walk_while (spine_step N) (fun anchors => (anchors, None)) (spine_fuel N)
                                 WalkCycle_new (node p) [];
        Ok (ShStableAuxiliary p anchors terminal)
    end.

Definition inspect_source_frontier (N : RuntimeNet) (source : RuntimeSource) (topology : Z) (anchor : Port)
    : M SourceFrontier :=
  shape ← inspect_source_frontier_shape N anchor;
  Ok (MkFrontier anchor shape (MkObservation source topology <$> endpoint shape)).

(** ** Materializing and joining *)
Definition update_frontiers (st : CopyState) (f : gmap Port nat) : CopyState :=
  MkCopyState (copy_source st) f (fan_sites st).

(** The node a copy gets, with the copy's fan sites; [None] for a node that
    is not copied. *)
Definition translate_node (N : RuntimeNet) (state : CopyState) (n : RuntimeNode Data Operator Checkpoint)
    : M (RuntimeNet * CopyState * option (RuntimeNode Data Operator Checkpoint)) :=
  match n with
  | RFan identity =>
      '(sites, identity) ← translate_fan_identity (next_fan_site N, fan_sites state) identity;
      Ok (with_fan_site N (fst sites), MkCopyState (copy_source state) (frontiers state) (snd sites),
          Some (RFan identity))
  | RBind | RErase | RData _ | ROperator _ => Ok (N, state, Some n)
  | RCallableCheckpoint _ | RInterface | RRemoteCursor _ _ => Ok (N, state, None)
  end.

Definition auxiliaries (n : RuntimeNode Data Operator Checkpoint) : M nat :=
  match n with
  | RBind | RFan _ => Ok 2
  | ROperator _ => Ok 1
  | RErase | RData _ => Ok 0
  | RInterface | RCallableCheckpoint _ | RRemoteCursor _ _ => Panic
  end.

(** One turn of the loop over the auxiliary ports: a new cursor for the
    source port across the link. *)
Definition sprout (copy : Z) (source_node target : nat) (principal_sign : Sign)
    (acc : RuntimeNet * gmap Port nat) (i : nat) : M (RuntimeNet * gmap Port nat) :=
  let '(N, fr) := acc in
  source_anchor ← auxiliary source_node i;
  '(N, next) ← add_node N (RRemoteCursor copy source_anchor);
  _ ← rust_assert (bool_decide (fr !! source_anchor = None));
  let fr := <[source_anchor := next]> fr in
  k ← expect (node_at N target);
  sign ← auxiliary_sign k principal_sign i;
  p ← auxiliary target i;
  N ← rt_wire N (MkSignedPort p sign) (MkSignedPort (principal next) (opposite sign));
  Ok (N, fr).

Definition materialize_remote_node (N : RuntimeNet) (copy : Z) (cursor : nat) (remote : Port) (source_node : nat)
    (n : RuntimeNode Data Operator Checkpoint) : M (RuntimeNet * CursorProgress) :=
  state ← expect (copies N !! copy);
  let N := with_copies N (delete copy (copies N)) in
  '(N, state, translated) ← translate_node N state n;
  match translated with
  | None => Ok (with_copies N (<[copy := state]> (copies N)), CpBlocked)
  | Some n =>
      count ← auxiliaries n;
      '(N, taken) ← take_reference N (principal cursor);
      local ← expect taken;
      '(N, _) ← remove_node N cursor;
      _ ← rust_assert (bool_decide (frontiers state !! remote = Some cursor));
      let fr := delete remote (frontiers state) in
      '(N, target) ← add_node N n;
      N ← bind_reference N (principal target) local;
      '(N, fr) ← foldM (sprout copy source_node target (opposite (sign local))) (N, fr) (seq 1 count);
      Ok (with_copies N (<[copy := update_frontiers state fr]> (copies N)), CpMaterialized target)
  end.

Definition join_remote_frontiers (N : RuntimeNet) (copy : Z) (cursor : nat) (remote neighbor : Port)
    : M (RuntimeNet * CursorProgress) :=
  state ← expect (copies N !! copy);
  match frontiers state !! neighbor with
  | None => Ok (N, CpBlocked)
  | Some peer =>
      in_flight ← cursor_claim_is_in_flight N peer;
      if (in_flight : bool) then Ok (N, CpBlocked)
      else
        let fr := delete neighbor (frontiers state) in
        _ ← rust_assert (bool_decide (fr !! remote = Some cursor));
        let fr := delete remote fr in
        let N := with_copies N (<[copy := update_frontiers state fr]> (copies N)) in
        _ ← rust_assert (bool_decide (cursor <> peer));
        '(N, taken) ← take_reference N (principal cursor);
        left ← expect taken;
        let N := unschedule_node N peer in
        '(N, taken) ← take_reference N (principal peer);
        right ← expect taken;
        '(N, _) ← remove_node N cursor;
        '(N, _) ← remove_node N peer;
        N ← rt_wire N left right;
        Ok (if bool_decide (fr = ∅) then with_copies N (delete copy (copies N)) else N, CpJoined)
  end.

(** ** Finishing a claim *)
Definition set_obligation (N : RuntimeNet) (cursor : nat) (st : PairlessCursorState) : RuntimeNet * bool :=
  match cursor_obligations N !! cursor with
  | Some (MkObligation c PcClaimed) =>
      (with_obligations N (<[cursor := MkObligation c st]> (cursor_obligations N)), true)
  | _ => (N, false)
  end.

Definition block_pairless_cursor_obligation (N : RuntimeNet) (cursor : nat) (dependency : CursorDependency) :=
  set_obligation N cursor (PcBlocked dependency).

Definition stabilize_pairless_cursor_obligation (N : RuntimeNet) (cursor : nat) :=
  set_obligation N cursor PcStable.

Definition frontier_port (shape : SourceFrontierShape) : Port :=
  match shape with
  | ShPrincipal p _ | ShStableAuxiliary p _ _ => p
  | ShActiveAuxiliary entered _ => entered
  end.

(** The observation an endpoint must carry. *)
Definition observed (observation : option FrontierObservation) (e : DemandEndpoint) : M FrontierObservation :=
  o ← expect observation;
  _ ← rust_assert (bool_decide (obs_endpoint o = e));
  Ok o.

(** Progress by the shape alone, when no cursor of the copy stands at the
    other end. *)
Definition advance_shape (N : RuntimeNet) (claim : CursorClaim) (shape : SourceFrontierShape)
    (observation : option FrontierObservation) : M (RuntimeNet * CursorProgress * option CursorBlockage) :=
  match shape with
  | ShPrincipal p (SpCopyable (RRemoteCursor _ _)) =>
      o ← observed observation (EpCursor (node p));
      Ok (N, CpBlocked, Some (BlDependency (SourceCursor o)))
  | ShPrincipal p (SpCopyable n) =>
      _ ← rust_assert (bool_decide (observation = None));
      '(N, progress) ← materialize_remote_node N (claim_copy claim) (claim_cursor claim) (claim_remote claim) (node p) n;
      Ok (N, progress, None)
  | ShPrincipal _ SpCallableCheckpoint =>
      _ ← rust_assert (bool_decide (observation = None));
      Ok (N, CpBlocked, Some BlStable)
  | ShStableAuxiliary _ anchors terminal_pair =>
      let peer := state ← copies N !! claim_copy claim;
                  head (omap (fun anchor => frontiers state !! anchor) anchors) in
      match peer, terminal_pair with
      | Some peer, _ =>
          _ ← rust_assert (bool_decide (peer <> claim_cursor claim));
          Ok (N, CpBlocked, Some (BlDependency (LocalCursor peer)))
      | None, Some key =>
          o ← observed observation (EpActivePair key);
          Ok (N, CpBlocked, Some (BlDependency (SourceFrontierDep o)))
      | None, None =>
          _ ← rust_assert (bool_decide (observation = None));
          Ok (N, CpBlocked, Some BlStable)
      end
  | ShActiveAuxiliary entered partner =>
      o ← observed observation (EpActivePair (active_pair_key (node entered) (node partner)));
      Ok (N, CpBlocked, Some (BlDependency (SourceFrontierDep o)))
  end.

(** Recording what a blocked claim waits for. *)
Definition record_blockage (N : RuntimeNet) (claim : CursorClaim) (blockage : CursorBlockage) : M RuntimeNet :=
  match claim_owner claim with
  | OwnActivePair key =>
      _ ← expect (active N !! key);
      Ok (set_state N key (ApBlockedCursor (claim_cursor claim) blockage))
  | OwnObligation =>
      let '(N, ok) := match blockage with
                      | BlDependency dependency => block_pairless_cursor_obligation N (claim_cursor claim) dependency
                      | BlStable => stabilize_pairless_cursor_obligation N (claim_cursor claim)
                      end in
      _ ← rust_assert ok;
      Ok N
  end.

(** Dropping the claim of a cursor that is gone. *)
Definition drop_claim (N : RuntimeNet) (claim : CursorClaim) : M RuntimeNet :=
  match claim_owner claim with
  | OwnActivePair key =>
      Ok (if is_claimed_pair N key then with_active N (delete key (active N)) else N)
  | OwnObligation =>
      _ ← rust_assert (bool_decide (cursor_obligations N !! claim_cursor claim = None));
      Ok N
  end.

Definition finish_cursor_claim (N : RuntimeNet) (claim : CursorClaim) (frontier : SourceFrontier)
    : M (RuntimeNet * CursorProgress) :=
  _ ← rust_assert (match claim_owner claim with
                   | OwnActivePair key => is_claimed_pair N key
                   | OwnObligation => match cursor_obligations N !! claim_cursor claim with
                                      | Some obligation => pc_is_claimed (ob_state obligation)
                                      | None => false
                                      end
                   end);
  _ ← rust_assert (is_remote N (claim_cursor claim) (claim_copy claim) (claim_remote claim));
  _ ← rust_assert (bool_decide (sf_anchor frontier = claim_remote claim));
  state ← expect (copies N !! claim_copy claim);
  let fp := frontier_port (sf_shape frontier) in
  '(N, progress, blockage) ←
    match frontiers state !! fp with
    | Some peer =>
        _ ← rust_assert (bool_decide (peer <> claim_cursor claim));
        _ ← rust_assert (is_remote N peer (claim_copy claim) fp);
        '(N, progress) ← join_remote_frontiers N (claim_copy claim) (claim_cursor claim) (claim_remote claim) fp;
        Ok (N, progress,
            if bool_decide (progress = CpBlocked) then Some (BlDependency (LocalCursor peer)) else None)
    | None => advance_shape N claim (sf_shape frontier) (sf_observation frontier)
    end;
  if bool_decide (progress = CpBlocked) then
    blockage ← expect blockage;
    N ← record_blockage N claim blockage;
    Ok (N, progress)
  else
    N ← drop_claim N claim;
    Ok (N, progress).

End copying.
