(* ===== verification/CopyInvariant.v ===== *)
(** * Copies and their sources

    The proofs about [Copies]: looking at a source always ends; a claimed
    cursor's step keeps the target net well formed; and the invariant between
    a copy and its source. *)
From stdpp Require Import base option list numbers gmap fin_maps tactics.
From Stdlib Require Import ZArith Lia.
From S2P Require Import Prelude NetModel RuntimeGraph Boundary Rewrite Calls WalkCycle FanSites WholeCopy Copies.

(** ** Looking at the source *)
Section inspecting.
Context {S : NetSpecialization} {P : PayloadDuplicator S}.
Implicit Types (N : RuntimeNet) (n : nat).

(** What an inspected frontier says of the source. *)
Definition shape_ok N (shape : SourceFrontierShape) : Prop :=
  match shape with
  | ShPrincipal p n => is_principal p = true /\ exists k, node_at N (node p) = Some k /\
      n = match duplicate_copyable duplicate_data duplicate_operator k with
          | Some k => SpCopyable k
          | None => SpCallableCheckpoint
          end
  | ShActiveAuxiliary entered partner => is_principal entered = false /\ is_principal partner = true /\
      neighbor N (principal (node entered)) = Some partner
  | ShStableAuxiliary p anchors terminal => is_principal p = false /\
      (forall a, a ∈ anchors -> exists m s, reference N a = Some (MkSignedPort (principal m) s)) /\
      (forall key, terminal = Some key -> pwire N key)
  end.

Definition spine_next N n : option nat :=
  q ← neighbor N (principal n); if is_principal q then None else Some (node q).

Lemma spine_total N n :
  graph_ok N -> (Z.of_nat (spine_fuel N) + 2 <= usize_max)%Z ->
  exists r, walk_while (E:=Empty_set) (spine_step N) (fun anchors => (anchors, None)) (spine_fuel N)
              WalkCycle_new n [] = Ok r.
Proof.
  intros G Hfit. apply (walk_while_total _ _ (spine_next N) (elements (dom (rt_nodes N)))).
  - intros a acc b acc'. unfold spine_step, spine_next. destruct (neighbor N (principal a)) as [q|]; [|done].
    cbn. destruct (is_principal q); [done|]. by intros [= <- _].
  - intros a b. unfold spine_next, neighbor. destruct (reference N (principal a)) as [[q s]|] eqn:E; [|done]. cbn.
    destruct (is_principal q); [done|]. intros [= <-]. apply (go_sym _ G), reference_valid in E as (k & Hk & _).
    apply elem_of_elements, elem_of_dom. unfold node_at in Hk. by destruct (rt_nodes N !! node q).
  - unfold spine_fuel. rewrite <- size_dom. unfold size at 1, set_size. cbn. lia.
  - done.
Qed.

(** What the loop collects. *)
Lemma spine_result N fuel : forall w n acc anchors terminal, graph_ok N ->
  (forall a, a ∈ acc -> exists m s, reference N a = Some (MkSignedPort (principal m) s)) ->
  walk_while (E:=Empty_set) (spine_step N) (fun anchors => (anchors, None)) fuel w n acc = Ok (anchors, terminal) ->
  (forall a, a ∈ anchors -> exists m s, reference N a = Some (MkSignedPort (principal m) s)) /\
  (forall key, terminal = Some key -> pwire N key).
Proof.
  induction fuel as [|fuel IH]; intros w n acc anchors terminal G Hacc H; cbn in H; [done|].
  destruct (advance w n) as [[w' ok]| | |]; cbn in H; try done.
  destruct ok; cbn in H; [|injection H as <- <-; done].
  unfold spine_step in H. destruct (neighbor N (principal n)) as [q|] eqn:En; [|injection H as <- <-; done].
  unfold neighbor in En. apply fmap_Some in En as ([q' s] & Hr & Hq). cbn in Hq. subst q'.
  pose proof (go_sym _ G _ _ _ Hr) as Hback. destruct (is_principal q) eqn:Eq.
  - injection H as <- <-. split; [done|]. intros key [= <-]. apply is_principal_spec in Eq.
    rewrite Eq in Hr, Hback. unfold active_pair_key.
    assert (n <> node q) by (intros Hx; rewrite <- Hx in Hr; by apply (sym_not_self _ _ _ G) in Hr).
    destruct (decide (n < node q)).
    + rewrite Nat.min_l by lia. by exists (node q), s.
    + rewrite Nat.min_r by lia. exists n, (opposite s). split; [done|lia].
  - eapply IH; [done| |exact H]. intros a [Ha|Ha%list_elem_of_singleton]%elem_of_app; [by apply Hacc|].
    subst a. by exists n, (opposite s).
Qed.

(** The inspected shape. *)
Lemma inspect_shape_spec N remote q :
  graph_ok N -> reference N remote = Some q -> (Z.of_nat (spine_fuel N) + 2 <= usize_max)%Z ->
  exists shape, inspect_source_frontier_shape N remote = Ok shape /\ frontier_port shape = port q /\ shape_ok N shape.
Proof.
  intros G Hq Hfit. unfold inspect_source_frontier_shape.
  assert (neighbor N remote = Some (port q)) as -> by (unfold neighbor; by rewrite Hq). cbn [expect mbind outcome_bind].
  destruct q as [p s]. cbn [port]. pose proof (go_sym _ G _ _ _ Hq) as Hback.
  destruct (is_principal p) eqn:Ep.
  - apply reference_valid in Hback as (k & Hk & _). rewrite Hk. cbn. eexists. split; [done|]. split; [done|].
    split; [done|]. by exists k.
  - destruct (spine_total N (node p) G Hfit) as ([anchors terminal] & Hw).
    pose proof (spine_result N _ _ _ _ _ _ G ltac:(by intros a ?%not_elem_of_nil) Hw) as [Ha Ht].
    assert (Hstable : exists shape, ('(anchors, terminal) ← walk_while (E:=Empty_set) (spine_step N)
        (fun anchors => (anchors, None)) (spine_fuel N) WalkCycle_new (node p) []; Ok (ShStableAuxiliary p anchors terminal)) = Ok shape /\
        frontier_port shape = p /\ shape_ok N shape).
    { exists (ShStableAuxiliary p anchors terminal). rewrite Hw. done. }
    destruct (neighbor N (principal (node p))) as [partner|] eqn:Epart; [|done].
    destruct (is_principal partner) eqn:Epp; [|done].
    eexists. split; [done|]. split; [done|]. by split.
Qed.

End inspecting.

(** ** Wiring while a claim is held *)
Section claims.
Context {S : NetSpecialization} {P : PayloadDuplicator S}.
Implicit Types (N : RuntimeNet) (n c : nat) (owner : CursorClaimOwner).

Definition claim_held N c owner : Prop :=
  match owner with
  | OwnActivePair key => rt_active_pair_key N c = Some key /\ active N !! key = Some ApClaimed
  | OwnObligation => cursor_obligations N !! c = Some (MkObligation c PcClaimed)
  end.

Definition pending_key owner : option nat :=
  match owner with OwnActivePair key => Some key | OwnObligation => None end.

(** The claimed pair's entry outlives its wire until the claim is dropped, or
    is taken over by a new pair with the same key. *)
Record pending_ok N owner : Prop := {
  po_active : active_ok N (pending_key owner);
  po_state : forall key, owner = OwnActivePair key ->
    active N !! key = Some ApClaimed /\ ~ pwire N key \/ active N !! key = Some ApReady /\ pwire N key;
}.

(** Two unwired ports of opposite signs, neither an obligated principal. *)
Record free_ends N (l r : SignedPort) : Prop := {
  fe_ne : port l <> port r;
  fe_left : valid N (port l);
  fe_right : valid N (port r);
  fe_left_free : reference N (port l) = None;
  fe_right_free : reference N (port r) = None;
  fe_sign : sign l = opposite (sign r);
  fe_quiet : both_principal l r = true -> ~ obligated N (node (port l)) /\ ~ obligated N (node (port r));
}.

Lemma free_not_pwire N (l r : SignedPort) :
  reference N (port l) = None -> reference N (port r) = None -> both_principal l r = true ->
  ~ pwire N (active_pair_key (node (port l)) (node (port r))).
Proof.
  intros Hl Hr [Bl Br]%andb_true_iff (m & s & Hm & _). apply is_principal_spec in Bl, Br. unfold active_pair_key in Hm.
  destruct (Nat.min_spec (node (port l)) (node (port r))) as [[_ E]|[_ E]]; rewrite E in Hm;
    [rewrite <- Bl in Hm|rewrite <- Br in Hm]; congruence.
Qed.

Lemma wire_claimed N owner l r :
  graph_ok N -> pending_ok N owner -> free_ends N l r ->
  exists N', rt_wire N l r = Ok N' /\ graph_ok N' /\ pending_ok N' owner /\
    relinked N N' (fun x => if decide (x = port l) then Some r else
                            if decide (x = port r) then Some l else reference N x) /\
    cursor_obligations N' = cursor_obligations N /\
    (both_principal l r = false -> active N' = active N) /\
    (forall k, pending_key owner <> Some k ->
      active N' !! k = active N !! k \/ active N !! k = None /\ active N' !! k = Some ApReady).
Proof.
  intros G [PA PS] [Hne Hl Hr Hlf Hrf Hs Hq].
  set (key' := active_pair_key (node (port l)) (node (port r))).
  assert (Hold : both_principal l r = true -> active N !! key' = None \/
    (active N !! key' = Some ApClaimed /\ owner = OwnActivePair key')).
  { intros Hb. pose proof (free_not_pwire N l r Hlf Hrf Hb) as Hnp. fold key' in Hnp.
    destruct (active N !! key') as [st|] eqn:E; [|by left]. right.
    destruct (proj1 (PA key') ltac:(by rewrite E)) as [Hk|Hk]; [|done]. destruct owner as [key|]; [|done].
    injection Hk as ->. destruct (PS _ eq_refl) as [[Hc _]|[_ ?]]; [|done]. split; [congruence|done]. }
  assert (W : wirable N l r).
  { split; try done.
    - intros Hb. destruct (Hq Hb). unfold unclaimed, obligated in *. split; [|split; [|tauto]]; intros o Ho; exfalso; rewrite Ho in *; eauto.
    - intros Hb. destruct (Hold Hb) as [?|[? _]]; [by left|right]. by destruct (Hq Hb). }
  destruct (rt_wire_spec N l r G W) as (N' & st & Hw & G' & Hrl & Ha & Ho & _ & Hst).
  assert (Hst' : both_principal l r = true -> st = ApReady) by (intros Hb; destruct (Hq Hb); by apply Hst).
  exists N'. split; [done|]. split; [done|]. split; [split|split; [done|split; [|split]]].
  - by eapply active_ok_wire.
  - intros key ->. pose proof (pwire_wire N N' l r key W Hrl) as Hpw. fold key' in Hpw, Ha. rewrite Ha.
    destruct (both_principal l r) eqn:Eb.
    + rewrite Hst' by done. destruct (decide (key = key')) as [->|Hk].
      * right. rewrite lookup_insert_eq. split; [done|]. apply Hpw. by right.
      * rewrite lookup_insert_ne by done. destruct (PS _ eq_refl) as [[? Hn]|[? Hy]]; [left|right]; (split; [done|]).
        -- rewrite Hpw. intros [?|[_ ?]]; done.
        -- apply Hpw. by left.
    + destruct (PS _ eq_refl) as [[? Hn]|[? Hy]]; [left|right]; (split; [done|]).
      * rewrite Hpw. intros [?|[? _]]; done.
      * apply Hpw. by left.
  - rewrite Ho. destruct (both_principal l r) eqn:Eb; [|done]. destruct (Hq eq_refl) as [Q1 Q2].
    unfold obligated in *. rewrite <- eq_None_not_Some in Q1, Q2. by rewrite !delete_id by (rewrite ?lookup_delete_None; auto).
  - intros Hb. by rewrite Ha, Hb.
  - intros k Hk. rewrite Ha. fold key'. destruct (both_principal l r) eqn:Eb; [|by left].
    destruct (decide (k = key')) as [->|]; [|left; by rewrite lookup_insert_ne].
    rewrite lookup_insert_eq, Hst' by done. destruct (Hold eq_refl) as [?|[_ ->]]; [by right|done].
Qed.

(** Dropping the claim at the end. *)
Lemma drop_claim_ok N claim :
  pending_ok N (claim_owner claim) ->
  (claim_owner claim = OwnObligation -> cursor_obligations N !! claim_cursor claim = None) ->
  exists a, drop_claim N claim = Ok (with_active N a) /\ active_ok (with_active N a) None /\
    forall k, pending_key (claim_owner claim) <> Some k -> a !! k = active N !! k.
Proof.
  intros [PA PS] Ho. unfold drop_claim, is_claimed_pair. destruct (claim_owner claim) as [key|].
  - destruct (PS _ eq_refl) as [[-> Hn]|[-> Hy]]; cbn.
    + exists (delete key (active N)). split; [done|]. split.
      * intros k. change (is_Some (delete key (active N) !! k) <-> None = Some k \/ pwire N k).
        rewrite lookup_delete_is_Some, (PA k). cbn. split.
        -- intros [Hk [?|?]]; [congruence|by right].
        -- intros [|Hk]; [done|]. split; [|by right]. intros ->. done.
      * intros k Hk. rewrite lookup_delete_ne; [done|]. cbn in Hk. congruence.
    + exists (active N). split; [by destruct N|]. split; [|done]. intros k.
      change (is_Some (active N !! k) <-> None = Some k \/ pwire N k). rewrite (PA k). cbn.
      split; [intros [[= <-]|?]; by right|intros [|?]; [done|by right]].
  - rewrite bool_decide_true by auto. cbn. exists (active N). split; [by destruct N|]. done.
Qed.

(** Cutting a claimed cursor off: the pair's entry is left pending. *)
Lemma cut_claimed N c owner (q : SignedPort) :
  graph_ok N -> active_ok N None -> claim_held N c owner -> reference N (principal c) = Some q ->
  exists N', take_reference N (principal c) = Ok (N', Some q) /\ graph_ok N' /\ pending_ok N' owner /\
    relinked N N' (fun x => if decide (x = principal c \/ x = port q) then None else reference N x) /\
    active N' = active N /\ cursor_obligations N' = cursor_obligations N.
Proof.
  intros G A H Hq. destruct (disconnect_spec N _ _ G Hq) as (N' & Hd & G' & Hrl & Ha & Ho).
  exists N'. unfold take_reference. rewrite Hq, Hd. split; [done|]. split; [done|]. split; [|done].
  assert (Hpw : forall k, pwire N' k <-> pwire N k /\
    ~ (is_principal (port q) = true /\ k = active_pair_key c (node (port q)))).
  { intros k. rewrite (pwire_cut N N' _ q k G Hq Hrl). cbn. tauto. }
  assert (Hkey : rt_active_pair_key N c = if is_principal (port q) then Some (active_pair_key c (node (port q))) else None).
  { unfold rt_active_pair_key, neighbor. rewrite Hq. done. }
  destruct owner as [key|]; cbn in H.
  - destruct H as [Hk Hcl]. rewrite Hkey in Hk. destruct (is_principal (port q)) eqn:Ep; [|done]. injection Hk as Hk.
    split.
    + intros k. rewrite Ha, (A k), Hpw, Hk. cbn.
      split; [intros [|?]; [done|]; destruct (decide (k = key)) as [->|]; [by left|right; naive_solver]|].
      intros [[= <-]|[? _]]; [|by right]. apply A. by rewrite Hcl.
    + intros key' [= <-]. left. rewrite Ha. split; [done|]. rewrite Hpw. naive_solver.
  - assert (is_principal (port q) = false) as Ep.
    { destruct (go_obligations _ G _ _ H) as (_ & _ & Hn). rewrite Hkey in Hn. by destruct (is_principal (port q)). }
    split; [|done]. intros k. rewrite Ha, (A k), Hpw, Ep. cbn. naive_solver.
Qed.

End claims.

(** ** Materializing a node *)
Section materialize.
Context {S : NetSpecialization} {P : PayloadDuplicator S}.
Implicit Types (N : RuntimeNet) (n c : nat) (owner : CursorClaimOwner).

(** The net after the first [j] auxiliary ports have their cursors. *)
Record sprouted N owner (fr : gmap Port nat) (cp : Z) (src target : nat) (k : RuntimeNode Data Operator Checkpoint)
    (s : Sign) (j : nat) N' (fr' : gmap Port nat) : Prop := {
  sp_graph : graph_ok N';
  sp_pending : pending_ok N' owner;
  sp_next : next_node_id N' = next_node_id N + j;
  sp_rest : same_rest N N';
  sp_obligations : cursor_obligations N' = cursor_obligations N;
  sp_states : active N' = active N;
  sp_old : forall m, m < next_node_id N -> node_at N' m = node_at N m;
  sp_new : forall i, i < j -> node_at N' (next_node_id N + i) = Some (RRemoteCursor cp (MkPort src (1 + i)));
  sp_wires : forall i, i < j -> exists sg, auxiliary_sign (E:=Empty_set) k s (1 + i) = Ok sg /\
    reference N' (MkPort target (1 + i)) = Some (MkSignedPort (principal (next_node_id N + i)) (opposite sg)) /\
    reference N' (principal (next_node_id N + i)) = Some (MkSignedPort (MkPort target (1 + i)) sg);
  sp_frame : forall p, (forall i, i < j -> p <> MkPort target (1 + i) /\ p <> principal (next_node_id N + i)) ->
    reference N' p = reference N p;
  sp_front_new : forall i, i < j -> fr' !! MkPort src (1 + i) = Some (next_node_id N + i);
  sp_front_old : forall r, (forall i, i < j -> r <> MkPort src (1 + i)) -> fr' !! r = fr !! r;
}.

Lemma auxiliary_sign_ok (k : RuntimeNode Data Operator Checkpoint) s i :
  ordinary k = true -> 1 <= i <= aux_count k -> exists sg, auxiliary_sign (E:=Empty_set) k s i = Ok sg.
Proof. intros Hk Hi. unfold aux_count in Hi. destruct k; cbn in *; try done; destruct i as [|[|[|i]]]; try lia; eauto. Qed.

Lemma unwired_fresh N n i : graph_ok N -> next_node_id N <= n -> reference N (MkPort n i) = None.
Proof.
  intros G Hn. apply reference_invalid. intros (k & Hk & _). pose proof (go_fresh _ G n ltac:(cbn in Hk; by rewrite Hk)). lia.
Qed.

Lemma sprout_spec N owner fr cp src target k s j N1 fr1 :
  target < next_node_id N -> node_at N target = Some k -> ordinary k = true -> Datatypes.S j <= aux_count k ->
  reference N (MkPort target (1 + j)) = None -> fr !! MkPort src (1 + j) = None ->
  (Z.of_nat (next_node_id N + j) < u64_max)%Z ->
  sprouted N owner fr cp src target k s j N1 fr1 ->
  exists N2 fr2, sprout cp src target s (N1, fr1) (1 + j) = Ok (N2, fr2) /\
    sprouted N owner fr cp src target k s (Datatypes.S j) N2 fr2.
Proof.
  intros Htl Hk Hord Hj Hfree Hfr Hroom SP.
  assert (Hj2 : 1 <= 1 + j <= 2) by (unfold aux_count in Hj; destruct k; cbn in *; try done; lia).
  destruct (auxiliary_sign_ok k s (1 + j) Hord ltac:(lia)) as [sg Hsg].
  destruct (add_node_spec N1 (RRemoteCursor cp (MkPort src (1 + j))) (sp_graph _ _ _ _ _ _ _ _ _ _ _ SP))
    as (N2 & H2 & G2 & Hn2 & Hr2 & Hx2 & Hs2 & Ha2 & Ho2); [by rewrite (sp_next _ _ _ _ _ _ _ _ _ _ _ SP)|].
  rewrite (sp_next _ _ _ _ _ _ _ _ _ _ _ SP) in *. set (next := next_node_id N + j) in *.
  assert (Hfr1 : fr1 !! MkPort src (1 + j) = None).
  { rewrite (sp_front_old _ _ _ _ _ _ _ _ _ _ _ SP); [done|]. intros i Hi [=]. lia. }
  assert (Ht2 : node_at N2 target = Some k).
  { rewrite Hn2, decide_False by lia. rewrite (sp_old _ _ _ _ _ _ _ _ _ _ _ SP) by lia. done. }
  assert (P2 : pending_ok N2 owner).
  { destruct (sp_pending _ _ _ _ _ _ _ _ _ _ _ SP) as [PA PS].
    assert (Hpw : forall q, pwire N2 q <-> pwire N1 q) by (intros q; unfold pwire; by setoid_rewrite Hr2).
    split; [intros q; rewrite Ha2, (PA q), Hpw; done|]. intros q Hq. rewrite Ha2, Hpw. by apply PS. }
  assert (Hf1 : reference N2 (MkPort target (1 + j)) = None).
  { rewrite Hr2, (sp_frame _ _ _ _ _ _ _ _ _ _ _ SP); [done|]. intros i Hi. unfold principal. split; intros [=]; lia. }
  assert (Hf2 : reference N2 (principal next) = None).
  { rewrite Hr2. apply unwired_fresh; [apply SP|]. rewrite (sp_next _ _ _ _ _ _ _ _ _ _ _ SP). done. }
  destruct (wire_claimed N2 owner (MkSignedPort (MkPort target (1 + j)) sg) (MkSignedPort (principal next) (opposite sg)) G2 P2)
    as (N3 & H3 & G3 & P3 & (Hn3 & Hr3 & Hx3 & Hs3) & Ho3 & Ha3 & _).
  { split; cbn [port sign]; try done.
    - exists k. split; [done|]. cbn. unfold aux_count in Hj. lia.
    - exists (RRemoteCursor cp (MkPort src (1 + j))). cbn. rewrite Hn2, decide_True by done. split; [done|lia].
    - by rewrite opposite_opposite. }
  cbn [port] in Hr3. specialize (Ha3 eq_refl).
  exists N3, (<[MkPort src (1 + j) := next]> fr1). split.
  { unfold sprout. rewrite !auxiliary_ok by lia. cbn [mbind outcome_bind]. rewrite H2. cbn [mbind outcome_bind].
    rewrite bool_decide_true by done. cbn [rust_assert mbind outcome_bind]. rewrite Ht2. cbn [expect mbind outcome_bind].
    rewrite Hsg. cbn [mbind outcome_bind]. by rewrite H3. }
  split; try done.
  - rewrite Hx3, Hx2. lia.
  - eapply same_rest_trans; [apply SP|]. by eapply same_rest_trans.
  - rewrite Ho3, Ho2. apply SP.
  - rewrite Ha3, Ha2. apply SP.
  - intros m Hm. rewrite Hn3, Hn2, decide_False by lia. by apply SP.
  - intros i Hi. rewrite Hn3, Hn2. case_decide as Hd; [assert (i = j) as -> by lia; done|]. apply SP. lia.
  - intros i Hi. destruct (decide (i = j)) as [->|Hij].
    + exists sg. split; [done|]. rewrite !Hr3. rewrite (decide_True (P := MkPort target (1 + j) = MkPort target (1 + j))) by done.
      split; [done|]. rewrite decide_False by (unfold principal; intros [=]). by rewrite decide_True by done.
    + destruct (sp_wires _ _ _ _ _ _ _ _ _ _ _ SP i ltac:(lia)) as (sg' & Hsg' & R1 & R2). exists sg'. split; [done|].
      rewrite !Hr3, !decide_False by (unfold principal; intros [=]; lia). by rewrite !Hr2.
  - intros p Hp. rewrite Hr3, !decide_False by (apply (Hp j); lia). rewrite Hr2. apply SP. intros i Hi. apply Hp. lia.
  - intros i Hi. destruct (decide (i = j)) as [->|Hij]; [by rewrite lookup_insert_eq|].
    rewrite lookup_insert_ne by (intros [=]; lia). apply SP. lia.
  - intros r Hr. rewrite lookup_insert_ne by (apply not_eq_sym, Hr; lia). apply SP. intros i Hi. apply Hr. lia.
Qed.

Lemma sprouts_spec N owner fr cp src target k s j :
  graph_ok N -> pending_ok N owner -> target < next_node_id N -> node_at N target = Some k -> ordinary k = true ->
  j <= aux_count k -> (forall i, i < j -> reference N (MkPort target (1 + i)) = None) ->
  (forall i, i < j -> fr !! MkPort src (1 + i) = None) -> (Z.of_nat (next_node_id N + j) <= u64_max)%Z ->
  exists N' fr', foldM (sprout cp src target s) (N, fr) (seq 1 j) = Ok (N', fr') /\
    sprouted N owner fr cp src target k s j N' fr'.
Proof.
  intros G PO Htl Hk Hord Hj Hfree Hfr Hroom. induction j as [|j IH].
  - exists N, fr. split; [done|]. split; try done; intros; lia.
  - destruct IH as (N1 & fr1 & H1 & SP); [lia|intros; apply Hfree; lia|intros; apply Hfr; lia|lia|].
    destruct (sprout_spec N owner fr cp src target k s j N1 fr1) as (N2 & fr2 & H2 & SP2); try done; [apply Hfree; lia|apply Hfr; lia|lia|].
    exists N2, fr2. split; [|done]. rewrite seq_S, foldM_app, H1. cbn [mbind outcome_bind foldM]. by rewrite H2.
Qed.

(** The graph invariant reads the nodes and the obligations only. *)
Lemma graph_ok_same N N' :
  rt_nodes N' = rt_nodes N -> next_node_id N' = next_node_id N -> cursor_obligations N' = cursor_obligations N ->
  graph_ok N -> graph_ok N'.
Proof. destruct N, N'. cbn. intros -> -> -> []. by split. Qed.

(** A copied kind: a fan's sites are renamed. *)
Definition copy_kind (sites : gmap FanSite FanSite) (k k' : RuntimeNode Data Operator Checkpoint) : Prop :=
  match k with RFan f => k' = RFan (rename (site_fn sites) f) | _ => k' = k end.

Definition kind_sites (k : RuntimeNode Data Operator Checkpoint) : list FanSite :=
  match k with RFan f => sites_of f | _ => [] end.

Lemma translate_node_spec N st k base :
  ordinary k = true -> site_map_ok base (next_fan_site N) (fan_sites st) ->
  (next_fan_site N + Z.of_nat (length (kind_sites k)) <= usize_max)%Z ->
  exists next sites k', translate_node N st k =
      Ok (with_fan_site N next, MkCopyState (copy_source st) (frontiers st) sites, Some k') /\
    site_map_ok base next sites /\ fan_sites st ⊆ sites /\ (next_fan_site N <= next)%Z /\ copy_kind sites k k'.
Proof.
  intros Hk Hok Hroom.
  assert (Hsame : translate_node N st k = Ok (N, st, Some k) -> copy_kind (fan_sites st) k k ->
    exists next sites k', translate_node N st k =
      Ok (with_fan_site N next, MkCopyState (copy_source st) (frontiers st) sites, Some k') /\
    site_map_ok base next sites /\ fan_sites st ⊆ sites /\ (next_fan_site N <= next)%Z /\ copy_kind sites k k').
  { intros H HK. exists (next_fan_site N), (fan_sites st), k. rewrite H. split; [by destruct N, st|]. done. }
  destruct k; try done; try (by apply Hsame).
  destruct (translate_spec base identity (next_fan_site N, fan_sites st) Hok Hroom) as ([next sites] & H & E).
  exists next, sites, (RFan (rename (site_fn sites) identity)). cbn. rewrite H. cbn. split; [done|].
  destruct E as [E1 E2 E3 _]. cbn in *. split; [done|]. split; [done|]. split; [lia|done].
Qed.

Lemma copy_kind_ordinary sites k k' :
  copy_kind sites k k' -> ordinary k = true -> ordinary k' = true /\ aux_count k' = aux_count k /\
    forall s i, auxiliary_sign (E:=Empty_set) k' s i = auxiliary_sign k s i.
Proof. destruct k; cbn; intros ->; try done. Qed.

Lemma auxiliaries_ok k : ordinary k = true -> auxiliaries k = Ok (aux_count k).
Proof. by destruct k. Qed.

(** The copy of source node [n], of kind [k], stands where cursor [c] stood. *)
Record materialized N owner (base : Z) (c : nat) (cp : Z) (st : CopyState) (r : Port) (n : nat)
    (k : RuntimeNode Data Operator Checkpoint) (local : SignedPort) N' k' (st' : CopyState) : Prop := {
  mt_graph : graph_ok N';
  mt_pending : pending_ok N' owner;
  mt_next : next_node_id N' = next_node_id N + 1 + aux_count k;
  mt_nodes : forall m, m < next_node_id N -> node_at N' m = if decide (m = c) then None else node_at N m;
  mt_target : node_at N' (next_node_id N) = Some k';
  mt_cursors : forall i, i < aux_count k ->
    node_at N' (next_node_id N + 1 + i) = Some (RRemoteCursor cp (MkPort n (1 + i)));
  mt_principal : reference N' (principal (next_node_id N)) = Some local;
  mt_aux : forall i, i < aux_count k -> exists sg,
    auxiliary_sign (E:=Empty_set) k (opposite (sign local)) (1 + i) = Ok sg /\
    reference N' (MkPort (next_node_id N) (1 + i)) = Some (MkSignedPort (principal (next_node_id N + 1 + i)) (opposite sg)) /\
    reference N' (principal (next_node_id N + 1 + i)) = Some (MkSignedPort (MkPort (next_node_id N) (1 + i)) sg);
  mt_refs : forall p, node p < next_node_id N -> reference N' p =
    if decide (p = principal c) then None else
    if decide (p = port local) then Some (MkSignedPort (principal (next_node_id N)) (opposite (sign local)))
    else reference N p;
  mt_obligations : cursor_obligations N' = delete c (cursor_obligations N);
  mt_states : forall q, pending_key owner <> Some q ->
    active N' !! q = active N !! q \/ active N !! q = None /\ active N' !! q = Some ApReady;
  mt_exposed : rt_exposed N' = rt_exposed N;
  mt_copy_id : next_copy_id N' = next_copy_id N;
  mt_copies : copies N' = <[cp := st']> (copies N);
  mt_source : copy_source st' = copy_source st;
  mt_front_new : forall i, i < aux_count k -> frontiers st' !! MkPort n (1 + i) = Some (next_node_id N + 1 + i);
  mt_front_old : forall q, (forall i, i < aux_count k -> q <> MkPort n (1 + i)) ->
    frontiers st' !! q = delete r (frontiers st) !! q;
  mt_kind : copy_kind (fan_sites st') k k';
  mt_sites : fan_sites st ⊆ fan_sites st' /\ (next_fan_site N <= next_fan_site N')%Z /\
    site_map_ok base (next_fan_site N') (fan_sites st');
}.

(** The peer of a cursor is not on the cursor. *)
Lemma cursor_peer N c cp r (local : SignedPort) :
  graph_ok N -> node_at N c = Some (RRemoteCursor cp r) -> reference N (principal c) = Some local ->
  node (port local) <> c /\ port local <> principal c /\ valid N (port local) /\
  reference N (port local) = Some (MkSignedPort (principal c) (opposite (sign local))).
Proof.
  intros G Hc Hl. destruct local as [q s]. pose proof (go_sym _ G _ _ _ Hl) as Hb. cbn.
  pose proof (reference_valid _ _ _ Hb) as (k & Hk & Hi).
  assert (Hne : q <> principal c) by (intros ->; by apply (sym_not_self _ _ _ G) in Hl).
  split; [|split; [done|split; [by exists k|done]]]. intros Hqc. apply Hne. rewrite Hqc, Hc in Hk. injection Hk as <-.
  cbn in Hi. destruct q as [qn qi]. cbn in *. unfold principal. f_equal; [done|lia].
Qed.

(** A principal that faces a principal is not obligated. *)
Lemma paired_quiet N (q : SignedPort) m :
  graph_ok N -> reference N (principal m) = Some q -> is_principal (port q) = true -> ~ obligated N m.
Proof.
  intros G Hm Hq [o Ho]. destruct (go_obligations _ G _ _ Ho) as (_ & _ & Hk).
  unfold rt_active_pair_key, neighbor in Hk. rewrite Hm in Hk. cbn in Hk. by rewrite Hq in Hk.
Qed.

(** Cutting a claimed cursor out of its net. *)
Lemma uproot N owner c cp r local :
  graph_ok N -> active_ok N None -> claim_held N c owner -> node_at N c = Some (RRemoteCursor cp r) ->
  reference N (principal c) = Some local ->
  exists N1 N2, take_reference N (principal c) = Ok (N1, Some local) /\
    remove_node N1 c = Ok (N2, RRemoteCursor cp r) /\ graph_ok N2 /\ pending_ok N2 owner /\
    (forall m, node_at N2 m = if decide (m = c) then None else node_at N m) /\
    (forall p, reference N2 p = if decide (p = principal c \/ p = port local) then None else reference N p) /\
    next_node_id N2 = next_node_id N /\ same_rest N N2 /\ active N2 = active N /\
    cursor_obligations N2 = delete c (cursor_obligations N).
Proof.
  intros G A H Hc Hl. destruct (cut_claimed N c owner local G A H Hl) as (N1 & H1 & G1 & [PA PS] & (Hn1 & Hr1 & Hx1 & Hs1) & Ha1 & Ho1).
  destruct (remove_node_spec N1 c (RRemoteCursor cp r) G1) as (N2 & H2 & G2 & Hn2 & Hr2 & Hx2 & Hs2 & Ha2 & Ho2).
  { by rewrite Hn1. }
  { intros i. rewrite Hr1. case_decide as Hd; [done|]. apply reference_invalid. intros (k & Hk & Hi). cbn in *.
    rewrite Hc in Hk. injection Hk as <-. cbn in Hi. apply Hd. left. unfold principal. f_equal. lia. }
  assert (Hpw : forall q, pwire N2 q <-> pwire N1 q) by (intros q; unfold pwire; by setoid_rewrite Hr2).
  exists N1, N2. split; [done|]. split; [done|]. split; [done|]. split.
  { split; [intros q; by rewrite Ha2, (PA q), Hpw|intros q Hq; rewrite Ha2, Hpw; by apply PS]. }
  split; [intros m; by rewrite Hn2, Hn1|]. split; [intros p; by rewrite Hr2, Hr1|]. split; [congruence|].
  split; [by eapply same_rest_trans|]. split; congruence.
Qed.

Lemma pending_ok_add N N2 owner :
  (forall p, reference N2 p = reference N p) -> active N2 = active N -> pending_ok N owner -> pending_ok N2 owner.
Proof.
  intros Hr Ha [PA PS]. assert (Hpw : forall q, pwire N2 q <-> pwire N q) by (intros q; unfold pwire; by setoid_rewrite Hr).
  split; [intros q; by rewrite Ha, (PA q), Hpw|intros q Hq; rewrite Ha, Hpw; by apply PS].
Qed.

(** Planting a node where the cursor was. *)
Lemma plant N owner c cp r local N2 k :
  graph_ok N -> node_at N c = Some (RRemoteCursor cp r) -> reference N (principal c) = Some local ->
  graph_ok N2 -> pending_ok N2 owner ->
  (forall m, node_at N2 m = if decide (m = c) then None else node_at N m) ->
  (forall p, reference N2 p = if decide (p = principal c \/ p = port local) then None else reference N p) ->
  next_node_id N2 = next_node_id N -> cursor_obligations N2 = delete c (cursor_obligations N) ->
  (Z.of_nat (next_node_id N) < u64_max)%Z ->
  exists N3 N4, add_node N2 k = Ok (N3, next_node_id N) /\ bind_reference N3 (principal (next_node_id N)) local = Ok N4 /\
    graph_ok N4 /\ pending_ok N4 owner /\ next_node_id N4 = next_node_id N + 1 /\ same_rest N2 N4 /\
    cursor_obligations N4 = delete c (cursor_obligations N) /\
    (forall m, node_at N4 m = if decide (m = next_node_id N) then Some k else if decide (m = c) then None else node_at N m) /\
    (forall p, reference N4 p = if decide (p = principal (next_node_id N)) then Some local else
      if decide (p = port local) then Some (MkSignedPort (principal (next_node_id N)) (opposite (sign local))) else
      if decide (p = principal c) then None else reference N p) /\
    (forall q, pending_key owner <> Some q ->
      active N4 !! q = active N2 !! q \/ active N2 !! q = None /\ active N4 !! q = Some ApReady).
Proof.
  intros G Hc Hl G2 P2 Hn2 Hr2 Hx2 Ho2 Hroom. set (t := next_node_id N) in *.
  destruct (cursor_peer N c cp r local G Hc Hl) as (Hlc & Hlp & (kl & Hkl & Hil) & Hback).
  assert (Hlt : node (port local) < t) by (apply (go_fresh _ G); by rewrite Hkl).
  assert (Hct : c < t) by (apply (go_fresh _ G); by rewrite Hc).
  destruct (add_node_spec N2 k G2) as (N3 & H3 & G3 & Hn3 & Hr3 & Hx3 & Hs3 & Ha3 & Ho3); [by rewrite Hx2|].
  rewrite Hx2 in *. fold t in Hn3, Hx3, H3.
  destruct (wire_claimed N3 owner (MkSignedPort (principal t) (opposite (sign local))) local G3)
    as (N4 & H4 & G4 & P4 & (Hn4 & Hr4 & Hx4 & Hs4) & Ho4 & _ & Hst).
  { by eapply pending_ok_add. }
  { split; cbn [port sign]; try done.
    - intros Heq. rewrite <- Heq in Hlt. cbn in Hlt. lia.
    - exists k. cbn. rewrite Hn3, decide_True by done. split; [done|]. destruct k; cbn; lia.
    - exists kl. rewrite Hn3, Hn2, !decide_False by lia. done.
    - rewrite Hr3. apply unwired_fresh; [done|]. by rewrite Hx2.
    - rewrite Hr3, Hr2, decide_True by auto. done.
    - intros [_ Hpl]%andb_true_iff. cbn in Hpl. unfold obligated. rewrite Ho3, Ho2. split.
      + intros [o [_ Ho]%lookup_delete_Some]. destruct (go_obligations _ G _ _ Ho) as (_ & (x & y & Hx) & _).
        pose proof (go_fresh _ G t ltac:(by eexists)). unfold t in *. lia.
      + intros [o [_ Ho]%lookup_delete_Some]. apply is_principal_spec in Hpl. rewrite Hpl in Hback.
        eapply (paired_quiet N _ (node (port local)) G Hback eq_refl). by exists o. }
  exists N3, N4. split; [done|]. split; [done|]. split; [done|]. split; [done|]. split; [lia|].
  split; [by eapply same_rest_trans|]. split; [congruence|]. split; [intros m; by rewrite Hn4, Hn3, Hn2|]. split.
  - intros p. rewrite Hr4. cbn [port]. case_decide; [done|]. case_decide; [done|]. rewrite Hr3, Hr2.
    destruct (decide (p = principal c)) as [->|]; [by rewrite decide_True by auto|].
    rewrite decide_False; [done|]. tauto.
  - intros q Hq. specialize (Hst q Hq). by rewrite Ha3 in Hst.
Qed.

Lemma materialize_spec N owner base c cp st r n k :
  graph_ok N -> active_ok N None -> claim_held N c owner -> node_at N c = Some (RRemoteCursor cp r) ->
  is_Some (reference N (principal c)) -> copies N !! cp = Some st -> frontiers st !! r = Some c ->
  ordinary k = true -> (forall i, i < aux_count k -> delete r (frontiers st) !! MkPort n (1 + i) = None) ->
  site_map_ok base (next_fan_site N) (fan_sites st) ->
  (next_fan_site N + Z.of_nat (length (kind_sites k)) <= usize_max)%Z -> room N ->
  exists N' k' st' local, reference N (principal c) = Some local /\
    materialize_remote_node N cp c r n k = Ok (N', CpMaterialized (next_node_id N)) /\
    materialized N owner base c cp st r n k local N' k' st'.
Proof.
  intros G A H Hc [local Hl] Hst Hf Hord Hfr Hsm Hsr Hroom. unfold room in Hroom.
  set (N0 := with_copies N (delete cp (copies N))).
  destruct (translate_node_spec N0 st k base Hord Hsm Hsr) as (next & sites & k' & Htr & Hsm' & Hsub & Hnx & Hck).
  destruct (copy_kind_ordinary _ _ _ Hck Hord) as (Hord' & Hac & Has).
  set (Nf := with_fan_site N0 next) in *.
  assert (Gf : graph_ok Nf) by (by eapply (graph_ok_same N)).
  destruct (uproot Nf owner c cp r local Gf A H Hc Hl) as (N1 & N2 & H1 & H2 & G2 & P2 & Hn2 & Hr2 & Hx2 & Hs2 & Ha2 & Ho2).
  destruct (plant Nf owner c cp r local N2 k' Gf Hc Hl G2 P2 Hn2 Hr2 Hx2 Ho2)
    as (N3 & N4 & H3 & H4 & G4 & P4 & Hx4 & Hs4 & Ho4 & Hn4 & Hr4 & Ha4); [cbn; lia|].
  change (next_node_id Nf) with (next_node_id N) in *. set (t := next_node_id N) in *.
  assert (Hct : c < t) by (apply (go_fresh _ G); by rewrite Hc).
  destruct (cursor_peer N c cp r local G Hc Hl) as (Hlc & Hlp & (kl & Hkl & _) & _).
  assert (Hlt : node (port local) < t) by (apply (go_fresh _ G); by rewrite Hkl).
  assert (Haux2 : aux_count k <= 2) by (unfold aux_count; destruct k; cbn; lia).
  destruct (sprouts_spec N4 owner (delete r (frontiers st)) cp n t k' (opposite (sign local)) (aux_count k))
    as (N5 & fr & H5 & SP); try done; try lia.
  { rewrite Hn4, decide_True by done. done. }
  { intros i Hi. rewrite Hr4, !decide_False.
    - apply unwired_fresh; [done|]. done.
    - unfold principal. intros [=].
    - intros Heq. rewrite <- Heq in Hlt. cbn in Hlt. lia.
    - unfold principal. intros [=]. }
  set (st' := MkCopyState (copy_source st) fr sites).
  exists (with_copies N5 (<[cp := st']> (copies N5))), k', st', local. split; [done|]. split.
  { unfold materialize_remote_node. rewrite Hst. cbn [expect mbind outcome_bind]. fold N0. rewrite Htr. cbn [mbind outcome_bind].
    rewrite (auxiliaries_ok _ Hord'). cbn [mbind outcome_bind]. fold Nf. rewrite H1. cbn [expect mbind outcome_bind].
    rewrite H2. cbn [mbind outcome_bind frontiers]. rewrite bool_decide_true by done. cbn [rust_assert mbind outcome_bind].
    rewrite H3. cbn [mbind outcome_bind]. rewrite H4. cbn [mbind outcome_bind]. rewrite Hac, H5. done. }
  assert (Hcop : copies N5 = delete cp (copies N)).
  { rewrite (sr_copies _ _ (sp_rest _ _ _ _ _ _ _ _ _ _ _ SP)), (sr_copies _ _ Hs4). apply (sr_copies _ _ Hs2). }
  assert (Hr5 : forall p, node p < t -> reference N5 p = reference N4 p).
  { intros p Hp. apply SP. intros i Hi. rewrite Hx4. split; intros ->; cbn in Hp; lia. }
  split; try done.
  - eapply (graph_ok_same N5); try done. apply SP.
  - eapply pending_ok_add; [| |apply SP]; done.
  - cbn. rewrite (sp_next _ _ _ _ _ _ _ _ _ _ _ SP). lia.
  - intros m Hm. transitivity (node_at N5 m); [done|].
    rewrite (sp_old _ _ _ _ _ _ _ _ _ _ _ SP) by lia. rewrite Hn4, decide_False by (unfold t in *; lia). done.
  - transitivity (node_at N5 t); [done|]. rewrite (sp_old _ _ _ _ _ _ _ _ _ _ _ SP) by lia.
    by rewrite Hn4, decide_True.
  - intros i Hi. pose proof (sp_new _ _ _ _ _ _ _ _ _ _ _ SP i Hi) as Hnw. by rewrite Hx4 in Hnw.
  - transitivity (reference N5 (principal t)); [done|]. rewrite (sp_frame _ _ _ _ _ _ _ _ _ _ _ SP).
    + by rewrite Hr4, decide_True.
    + intros i Hi. rewrite Hx4. unfold principal. split; intros [=]. unfold t in *. lia.
  - intros i Hi. destruct (sp_wires _ _ _ _ _ _ _ _ _ _ _ SP i Hi) as (sg & Hsg & R1 & R2). rewrite Hx4 in R1, R2.
    exists sg. split; [by rewrite <- Has|]. done.
  - intros p Hp. transitivity (reference N5 p); [done|]. rewrite Hr5 by done.
    rewrite Hr4, decide_False by (intros ->; cbn in Hp; unfold t in *; lia).
    destruct (decide (p = principal c)) as [->|]; [by rewrite decide_False by done|done].
  - cbn. rewrite (sp_obligations _ _ _ _ _ _ _ _ _ _ _ SP). done.
  - intros q Hq. cbn. rewrite (sp_states _ _ _ _ _ _ _ _ _ _ _ SP). specialize (Ha4 q Hq). by rewrite Ha2 in Ha4.
  - cbn. rewrite (sr_exposed _ _ (sp_rest _ _ _ _ _ _ _ _ _ _ _ SP)), (sr_exposed _ _ Hs4). apply (sr_exposed _ _ Hs2).
  - cbn. rewrite (sr_copy _ _ (sp_rest _ _ _ _ _ _ _ _ _ _ _ SP)), (sr_copy _ _ Hs4). apply (sr_copy _ _ Hs2).
  - cbn. rewrite Hcop. by rewrite insert_delete_eq.
  - intros i Hi. pose proof (sp_front_new _ _ _ _ _ _ _ _ _ _ _ SP i Hi) as Hnw. by rewrite Hx4 in Hnw.
  - apply SP.
  - cbn. assert (next_fan_site N5 = next) as Hfs.
    { rewrite (sr_fan _ _ (sp_rest _ _ _ _ _ _ _ _ _ _ _ SP)), (sr_fan _ _ Hs4). apply (sr_fan _ _ Hs2). }
    by rewrite Hfs.
Qed.

End materialize.

(** ** The invariant between a copy and its source *)
Section invariant.
Context {S : NetSpecialization} {P : PayloadDuplicator S}.
Implicit Types (N Src : RuntimeNet) (n c : nat) (owner : CursorClaimOwner) (r : Port).

(** The sign a kind needs at its principal. *)
Definition sign_fits (k : RuntimeNode Data Operator Checkpoint) (s : Sign) : Prop :=
  match k with RData _ => s = Provides | ROperator _ => s = Consumes | _ => True end.

(** Where a copy may have a cursor: at the source's exposed port, or at an
    auxiliary port of a copied node. *)
Definition anchored (ex : Port) (copied : gset nat) r : Prop := r = ex \/ node r ∈ copied /\ index r <> 0.

(** A copy with state [st] in [N], of the source [Src] exposed at [ex], which
    has copied the source nodes [copied]. *)
Record copy_ok N (st : CopyState) Src (ex : Port) (copied : gset nat) : Prop := {
  co_exposed : rt_exposed Src = Some ex;
  (** The copied part is frozen: each copied node's principal faces the
      copied part. *)
  co_copied : forall n, n ∈ copied -> exists k r s, node_at Src n = Some k /\ ordinary k = true /\
    reference Src (principal n) = Some (MkSignedPort r s) /\ anchored ex copied r;
  co_anchor : forall r c, frontiers st !! r = Some c -> anchored ex copied r;
  (** A cursor has the sign of the source port it stands for. *)
  co_sign : forall r c, frontiers st !! r = Some c ->
    exists s, own Src r = Some s /\ own N (principal c) = Some (opposite s);
  (** No node is copied twice. *)
  co_consumed : forall n r s, n ∈ copied -> reference Src (principal n) = Some (MkSignedPort r s) -> frontiers st !! r = None;
  co_sites : exists base, site_map_ok base (next_fan_site N) (fan_sites st);
}.

(** A cursor that faces a new principal in the source: the node is not copied
    yet and fits the cursor's sign. *)
Lemma frontier_fresh N st Src ex copied r c n s k :
  net_wf Src -> copy_ok N st Src ex copied -> frontiers st !! r = Some c ->
  reference Src r = Some (MkSignedPort (principal n) s) -> node_at Src n = Some k -> ordinary k = true ->
  n ∉ copied /\ own N (principal c) = Some s /\ sign_fits k s /\
  forall i, frontiers st !! MkPort n (1 + i) = None.
Proof.
  intros W CO Hf Hr Hk Hord. pose proof (go_sym _ (nw_graph _ W) _ _ _ Hr) as Hback.
  assert (Hn : n ∉ copied).
  { intros Hin. by rewrite (co_consumed _ _ _ _ _ CO _ _ _ Hin Hback) in Hf. }
  split; [done|]. destruct (co_sign _ _ _ _ _ CO _ _ Hf) as (s' & Hown & Hc).
  rewrite (own_sign _ _ _ Hr) in Hown. cbn in Hown. injection Hown as <-. rewrite opposite_opposite in Hc. split; [done|].
  split.
  - pose proof (nw_nodes _ W _ _ Hk) as Hwf. pose proof (own_sign _ _ _ Hback) as Ho. cbn in Ho. rewrite opposite_opposite in Ho.
    unfold principal in Ho. destruct k; cbn in *; try done; [by rewrite Hwf in Ho; injection Ho|].
    destruct Hwf as [Hwf _]. rewrite Hwf in Ho. by injection Ho.
  - intros i. destruct (frontiers st !! MkPort n (1 + i)) eqn:E; [|done]. exfalso.
    destruct (co_anchor _ _ _ _ _ CO _ _ E) as [Hex|[? _]]; [|done].
    destruct (nw_exposed _ W ex (co_exposed _ _ _ _ _ CO)) as [_ Hi]. rewrite <- Hex in Hi. cbn in Hi.
    rewrite Hk in Hi. by injection Hi as ->.
Qed.

Lemma site_map_mono base next next' sites :
  site_map_ok base next sites -> (next <= next')%Z -> site_map_ok base next' sites.
Proof. intros [H1 H2 H3] Hle. split; [lia| |done]. intros s v Hs. specialize (H2 _ _ Hs). lia. Qed.

(** What the target may do to a copy it does not advance. *)
Lemma copy_ok_frame N N' st Src ex copied :
  copy_ok N st Src ex copied ->
  (forall r c, frontiers st !! r = Some c -> own N' (principal c) = own N (principal c)) ->
  (next_fan_site N <= next_fan_site N')%Z -> copy_ok N' st Src ex copied.
Proof.
  intros [H1 H2 H3 H4 H5 [base H6]] Ho Hn. split; try done.
  - intros r c Hf. destruct (H4 r c Hf) as (s & ? & ?). exists s. by rewrite (Ho r c Hf).
  - exists base. by eapply site_map_mono.
Qed.

Lemma anchored_mono ex copied n r : anchored ex copied r -> anchored ex ({[n]} ∪ copied) r.
Proof. intros [->|[? ?]]; [by left|right]. split; [set_solver|done]. Qed.

(** A well-formed node's auxiliary signs follow from its principal's. *)
Lemma wf_aux_sign (k : RuntimeNode Data Operator Checkpoint) own' s i sg :
  node_wf k own' -> own' 0 = Some s -> auxiliary_sign (E:=Empty_set) k s i = Ok sg -> own' i = Some sg.
Proof.
  destruct k; cbn; destruct i as [|[|[|i]]]; try done; intros Hwf H0 [= <-].
  - by destruct Hwf as (_ & ? & _).
  - by destruct Hwf as (_ & _ & ?).
  - destruct Hwf as (s' & H1 & H2 & _). rewrite H0 in H1. by injection H1 as <-.
  - destruct Hwf as (s' & H1 & _ & H2). rewrite H0 in H1. by injection H1 as <-.
  - by destruct Hwf.
Qed.

Lemma new_anchor n (k : RuntimeNode Data Operator Checkpoint) (q : Port) :
  (exists i, i < aux_count k /\ q = MkPort n (1 + i)) \/ (forall i, i < aux_count k -> q <> MkPort n (1 + i)).
Proof.
  destruct q as [m j]. destruct (decide (m = n /\ 1 <= j <= aux_count k)) as [[-> Hj]|Hno].
  - left. exists (j - 1). split; [lia|]. f_equal. lia.
  - right. intros i Hi [= -> ->]. apply Hno. lia.
Qed.

Section materialized.
Context (N : RuntimeNet) (owner : CursorClaimOwner) (base : Z) (c : nat) (cp : Z) (st : CopyState) (r : Port) (n : nat).
Context (k : RuntimeNode Data Operator Checkpoint) (local : SignedPort) (N' : RuntimeNet).
Context (k' : RuntimeNode Data Operator Checkpoint) (st' : CopyState).
Hypothesis W : net_wf N.
Hypothesis Hc : node_at N c = Some (RRemoteCursor cp r).
Hypothesis Hl : reference N (principal c) = Some local.
Hypothesis Hst : copies N !! cp = Some st.
Hypothesis Hf : frontiers st !! r = Some c.
Hypothesis Hord : ordinary k = true.
Hypothesis Hfresh : forall i, i < aux_count k -> frontiers st !! MkPort n (1 + i) = None.
Hypothesis Hfit : sign_fits k (opposite (sign local)).
Hypothesis MT : materialized N owner base c cp st r n k local N' k' st'.

Lemma mt_old m : m < next_node_id N -> m <> c -> node_at N' m = node_at N m.
Proof. intros Hm Hne. rewrite (mt_nodes _ _ _ _ _ _ _ _ _ _ _ _ _ MT) by done. by rewrite decide_False. Qed.

(** Survivors keep their signs. *)
Lemma mt_own p : node p < next_node_id N -> node p <> c -> own N' p = own N p.
Proof.
  intros Hp Hpc. unfold own, signed. rewrite (mt_refs _ _ _ _ _ _ _ _ _ _ _ _ _ MT) by done.
  rewrite decide_False by (intros ->; done). case_decide as Hd; [|done]. subst p.
  destruct (cursor_peer N c cp r local (nw_graph _ W) Hc Hl) as (_ & _ & _ & Hback). by rewrite Hback.
Qed.

Lemma mt_node_cases m q : node_at N' m = Some q ->
  (m < next_node_id N /\ m <> c /\ node_at N m = Some q) \/ (m = next_node_id N /\ q = k') \/
  (exists i, i < aux_count k /\ m = next_node_id N + 1 + i /\ q = RRemoteCursor cp (MkPort n (1 + i))).
Proof.
  intros Hm. pose proof (go_fresh _ (mt_graph _ _ _ _ _ _ _ _ _ _ _ _ _ MT) m ltac:(by rewrite Hm)) as Hlt.
  rewrite (mt_next _ _ _ _ _ _ _ _ _ _ _ _ _ MT) in Hlt.
  destruct (Nat.lt_trichotomy m (next_node_id N)) as [H|[->|H]].
  - left. rewrite (mt_nodes _ _ _ _ _ _ _ _ _ _ _ _ _ MT) in Hm by done. case_decide; done.
  - right. left. rewrite (mt_target _ _ _ _ _ _ _ _ _ _ _ _ _ MT) in Hm. by injection Hm.
  - right. right. exists (m - next_node_id N - 1). split; [lia|]. split; [lia|].
    replace m with (next_node_id N + 1 + (m - next_node_id N - 1)) in Hm at 1 by lia.
    rewrite (mt_cursors _ _ _ _ _ _ _ _ _ _ _ _ _ MT) in Hm by lia. by injection Hm.
Qed.

Lemma mt_target_wf : node_wf k' (fun i => own N' (MkPort (next_node_id N) i)).
Proof.
  assert (H0 : own N' (MkPort (next_node_id N) 0) = Some (opposite (sign local))).
  { apply (own_sign N' (principal (next_node_id N)) local), MT. }
  assert (Hi : forall i sg, i < aux_count k -> auxiliary_sign (E:=Empty_set) k (opposite (sign local)) (1 + i) = Ok sg ->
    own N' (MkPort (next_node_id N) (1 + i)) = Some sg).
  { intros i sg Hi Hsg. destruct (mt_aux _ _ _ _ _ _ _ _ _ _ _ _ _ MT i Hi) as (sg' & Hsg' & R1 & _).
    rewrite Hsg in Hsg'. injection Hsg' as <-. apply own_sign in R1. cbn in R1. by rewrite opposite_opposite in R1. }
  pose proof (mt_kind _ _ _ _ _ _ _ _ _ _ _ _ _ MT) as Hk. unfold aux_count in Hi.
  destruct k; try done; cbn in Hk; subst k'; cbn; cbn in Hfit, Hi.
  - split; [by rewrite H0|]. split; [by apply (Hi 0); [lia|]|by apply (Hi 1); [lia|]].
  - exists (opposite (sign local)). split; [done|]. split; [by apply (Hi 0); [lia|]|by apply (Hi 1); [lia|]].
  - by rewrite H0.
  - by rewrite H0, Hfit.
  - rewrite H0, Hfit. split; [done|]. by apply (Hi 0); [lia|].
Qed.

Lemma mt_core : net_core N'.
Proof.
  split.
  - apply MT.
  - intros m q Hm. destruct (mt_node_cases m q Hm) as [(H1 & H2 & H3)|[[-> ->]|(i & Hi & -> & ->)]].
    + eapply node_wf_proper; [intros i; by apply mt_own|]. by apply (nw_nodes _ W).
    + apply mt_target_wf.
    + cbn. destruct (mt_aux _ _ _ _ _ _ _ _ _ _ _ _ _ MT i Hi) as (sg & _ & _ & R2).
      unfold principal in R2. rewrite (own_sign _ _ _ R2). done.
  - intros p Hp. rewrite (mt_exposed _ _ _ _ _ _ _ _ _ _ _ _ _ MT) in Hp. destruct (nw_exposed _ W p Hp) as [Hi Hn].
    split; [done|]. rewrite mt_old; [done| |].
    + apply (go_fresh _ (nw_graph _ W)). by rewrite Hn.
    + intros Heq. rewrite Heq, Hc in Hn. done.
  - destruct (nw_frontiers _ W) as [F1 F2]. split.
    + intros cp' sx rm cur Hcp Hfr. rewrite (mt_copies _ _ _ _ _ _ _ _ _ _ _ _ _ MT) in Hcp.
      assert (Hkeep : forall st0, copies N !! cp' = Some st0 -> frontiers st0 !! rm = Some cur -> (cp', rm) <> (cp, r) ->
                node_at N' cur = Some (RRemoteCursor cp' rm)).
      { intros st0 H0 H1 Hne. pose proof (F1 _ _ _ _ H0 H1) as Hcur. rewrite mt_old; [done| |].
        - apply (go_fresh _ (nw_graph _ W)). by rewrite Hcur.
        - intros ->. rewrite Hc in Hcur. congruence. }
      apply lookup_insert_Some in Hcp as [[<- <-]|[Hne Hcp]]; [|apply (Hkeep sx); congruence].
      destruct (new_anchor n k rm) as [(i & Hi & ->)|Hno].
      * rewrite (mt_front_new _ _ _ _ _ _ _ _ _ _ _ _ _ MT) in Hfr by done. injection Hfr as <-.
        by apply (mt_cursors _ _ _ _ _ _ _ _ _ _ _ _ _ MT).
      * rewrite (mt_front_old _ _ _ _ _ _ _ _ _ _ _ _ _ MT) in Hfr by done.
        apply lookup_delete_Some in Hfr as [Hne Hfr]. apply (Hkeep st); congruence.
    + intros cur cp' rm Hcur. rewrite (mt_copies _ _ _ _ _ _ _ _ _ _ _ _ _ MT).
      destruct (mt_node_cases _ _ Hcur) as [(H1 & H2 & H3)|[[-> Hk]|(i & Hi & -> & [= -> ->])]].
      * destruct (F2 _ _ _ H3) as (st0 & H4 & H5). destruct (decide (cp' = cp)) as [->|Hne].
        -- rewrite Hst in H4. injection H4 as <-. exists st'. rewrite lookup_insert_eq. split; [done|].
           assert (Hrm : rm <> r) by (intros ->; congruence).
           rewrite (mt_front_old _ _ _ _ _ _ _ _ _ _ _ _ _ MT); [by rewrite lookup_delete_ne|].
           intros i Hi ->. by rewrite Hfresh in H5.
        -- exists st0. by rewrite lookup_insert_ne.
      * destruct (copy_kind_ordinary _ _ _ (mt_kind _ _ _ _ _ _ _ _ _ _ _ _ _ MT) Hord) as [Ho _]. by rewrite <- Hk in Ho.
      * exists st'. rewrite lookup_insert_eq. split; [done|]. by apply (mt_front_new _ _ _ _ _ _ _ _ _ _ _ _ _ MT).
Qed.

(** The copy has advanced past [n]. *)
Lemma mt_copy_ok Src ex copied k0 s :
  net_wf Src -> copy_ok N st Src ex copied -> reference Src r = Some (MkSignedPort (principal n) s) ->
  node_at Src n = Some k0 -> ordinary k0 = true -> aux_count k0 = aux_count k ->
  (forall s i, auxiliary_sign (E:=Empty_set) k0 s i = auxiliary_sign k s i) ->
  copy_ok N' st' Src ex ({[n]} ∪ copied).
Proof.
  intros WS CO Hr Hk0 Hord0 Hac Has. pose proof (go_sym _ (nw_graph _ WS) _ _ _ Hr) as Hback.
  destruct (frontier_fresh _ _ _ _ _ _ _ _ _ _ WS CO Hf Hr Hk0 Hord0) as (Hn & Hcs & _ & Hfr).
  pose proof (own_sign _ _ _ Hl) as Hcl. rewrite Hcs in Hcl. injection Hcl as Hs.
  destruct (nw_exposed _ WS ex (co_exposed _ _ _ _ _ CO)) as [_ Hex].
  assert (Hexn : node ex <> n) by (intros Heq; rewrite Heq, Hk0 in Hex; by injection Hex as ->).
  split.
  - apply CO.
  - intros m [->%elem_of_singleton|Hm]%elem_of_union.
    + exists k0, r, (opposite s). split; [done|]. split; [done|]. split; [done|]. apply anchored_mono.
      by apply (co_anchor _ _ _ _ _ CO r c).
    + destruct (co_copied _ _ _ _ _ CO m Hm) as (km & rm & sm & ? & ? & ? & ?). exists km, rm, sm.
      split; [done|]. split; [done|]. split; [done|]. by apply anchored_mono.
  - intros q cur Hq. destruct (new_anchor n k q) as [(i & Hi & ->)|Hno].
    + right. split; [set_solver|done].
    + rewrite (mt_front_old _ _ _ _ _ _ _ _ _ _ _ _ _ MT) in Hq by done. apply lookup_delete_Some in Hq as [_ Hq].
      apply anchored_mono. by eapply (co_anchor _ _ _ _ _ CO).
  - intros q cur Hq. destruct (new_anchor n k q) as [(i & Hi & ->)|Hno].
    + rewrite (mt_front_new _ _ _ _ _ _ _ _ _ _ _ _ _ MT) in Hq by done. injection Hq as <-.
      destruct (mt_aux _ _ _ _ _ _ _ _ _ _ _ _ _ MT i Hi) as (sg & Hsg & _ & R2). exists sg. split.
      * apply (wf_aux_sign k0 (fun i => own Src (MkPort n i)) s (1 + i)); [by apply (nw_nodes _ WS)| |].
        -- pose proof (own_sign _ _ _ Hback) as Ho. cbn in Ho. by rewrite opposite_opposite in Ho.
        -- by rewrite Has, Hs.
      * rewrite (own_sign _ _ _ R2). done.
    + rewrite (mt_front_old _ _ _ _ _ _ _ _ _ _ _ _ _ MT) in Hq by done. apply lookup_delete_Some in Hq as [Hne Hq].
      destruct (co_sign _ _ _ _ _ CO q cur Hq) as (s' & ? & ?). exists s'. split; [done|].
      pose proof (proj1 (nw_frontiers _ W) _ _ _ _ Hst Hq) as Hcur.
      rewrite mt_own; [done| |]; cbn.
      * apply (go_fresh _ (nw_graph _ W)). by rewrite Hcur.
      * intros ->. rewrite Hc in Hcur. congruence.
  - intros m rm sm Hm Hrm.
    assert (Hrn : forall i, i < aux_count k -> rm <> MkPort n (1 + i)).
    { intros i Hi ->. apply elem_of_union in Hm as [->%elem_of_singleton|Hm].
      - rewrite Hback in Hrm. injection Hrm as Hx _. pose proof Hf as Hf'. rewrite Hx in Hf'. by rewrite Hfr in Hf'.
      - destruct (co_copied _ _ _ _ _ CO m Hm) as (? & r' & ? & _ & _ & Hr' & Hanc). rewrite Hrm in Hr'.
        injection Hr' as <- _. destruct Hanc as [Hx|[? _]]; [by rewrite <- Hx in Hexn|done]. }
    rewrite (mt_front_old _ _ _ _ _ _ _ _ _ _ _ _ _ MT) by done.
    apply elem_of_union in Hm as [->%elem_of_singleton|Hm].
    + rewrite Hback in Hrm. injection Hrm as <- _. apply lookup_delete_eq.
    + apply lookup_delete_None. right. by eapply (co_consumed _ _ _ _ _ CO).
  - exists base. apply (mt_sites _ _ _ _ _ _ _ _ _ _ _ _ _ MT).
Qed.

(** Other copies are left alone. *)
Lemma mt_copy_other cp2 st2 Src2 ex2 copied2 :
  cp2 <> cp -> copies N !! cp2 = Some st2 -> copy_ok N st2 Src2 ex2 copied2 ->
  copies N' !! cp2 = Some st2 /\ copy_ok N' st2 Src2 ex2 copied2.
Proof.
  intros Hne H2 CO. rewrite (mt_copies _ _ _ _ _ _ _ _ _ _ _ _ _ MT), lookup_insert_ne by done. split; [done|].
  eapply copy_ok_frame; [done| |apply (mt_sites _ _ _ _ _ _ _ _ _ _ _ _ _ MT)].
  intros q cur Hq. pose proof (proj1 (nw_frontiers _ W) _ _ _ _ H2 Hq) as Hcur. apply mt_own; cbn.
  - apply (go_fresh _ (nw_graph _ W)). by rewrite Hcur.
  - intros ->. rewrite Hc in Hcur. congruence.
Qed.

End materialized.

End invariant.

(** ** Joining two cursors *)
Section joining.
Context {S : NetSpecialization} {P : PayloadDuplicator S}.
Implicit Types (N Src : RuntimeNet) (n c peer : nat) (owner : CursorClaimOwner) (r fp : Port).

Definition in_flight N c : bool :=
  match rt_active_pair_key N c with
  | Some key => is_claimed_pair N key
  | None => match cursor_obligations N !! c with Some o => pc_is_claimed (ob_state o) | None => false end
  end.

Lemma in_flight_spec N c : graph_ok N -> cursor_claim_is_in_flight N c = Ok (in_flight N c).
Proof.
  intros G. unfold cursor_claim_is_in_flight, cursor_claim_owner, in_flight, is_claimed_pair.
  destruct (cursor_obligations N !! c) as [o|] eqn:Eo.
  - destruct (go_obligations _ G _ _ Eo) as (Ho & _ & Hk). by rewrite Hk, (bool_decide_true (ob_cursor o = c)) by done.
  - cbn. by destruct (rt_active_pair_key N c).
Qed.

Lemma claim_in_flight N c owner : graph_ok N -> claim_held N c owner -> in_flight N c = true.
Proof.
  intros G H. unfold in_flight, is_claimed_pair. destruct owner as [key|]; cbn in H.
  - destruct H as [-> ->]. done.
  - destruct (go_obligations _ G _ _ H) as (_ & _ & ->). by rewrite H.
Qed.

(** Cutting off the other cursor: its pair is unscheduled with its wire. *)
Lemma cut_peer N owner peer (right : SignedPort) :
  graph_ok N -> pending_ok N owner ->
  (forall key, owner = OwnActivePair key -> active N !! key = Some ApClaimed) ->
  (is_principal (port right) = true -> active N !! active_pair_key peer (node (port right)) <> Some ApClaimed) ->
  reference N (principal peer) = Some right ->
  exists N', take_reference (unschedule_node N peer) (principal peer) = Ok (N', Some right) /\ graph_ok N' /\
    pending_ok N' owner /\
    relinked N N' (fun x => if decide (x = principal peer \/ x = port right) then None else reference N x) /\
    cursor_obligations N' = cursor_obligations N /\
    (forall q, ~ (is_principal (port right) = true /\ q = active_pair_key peer (node (port right))) ->
      active N' !! q = active N !! q).
Proof.
  intros G [PA PS] Hcl Hnc Hr. set (key2 := active_pair_key peer (node (port right))) in *.
  set (Nu := unschedule_node N peer).
  assert (Hu : exists a, Nu = with_active N a /\ forall q, a !! q =
    if decide (is_principal (port right) = true /\ q = key2) then None else active N !! q).
  { unfold Nu, unschedule_node, rt_active_pair_key, neighbor. rewrite Hr. cbn. destruct (is_principal (port right)).
    - eexists. split; [done|]. intros q. fold key2. case_decide as Hd; [destruct Hd as [_ ->]; apply lookup_delete_eq|].
      apply lookup_delete_ne. naive_solver.
    - exists (active N). split; [by destruct N|]. intros q. rewrite decide_False by naive_solver. done. }
  destruct Hu as (a & Hu & Ha).
  assert (Gu : graph_ok Nu) by (rewrite Hu; by apply graph_ok_active).
  assert (Hru : reference Nu (principal peer) = Some right) by (rewrite Hu; done).
  destruct (disconnect_spec Nu _ _ Gu Hru) as (N' & Hd & G' & Hrl & Ha' & Ho').
  assert (Hpw : forall q, pwire N' q <-> pwire N q /\ ~ (is_principal (port right) = true /\ q = key2)).
  { intros q. rewrite (pwire_cut Nu N' _ right q Gu Hru Hrl), Hu. cbn. fold key2. unfold pwire. tauto. }
  assert (Hact : forall q, active N' !! q = if decide (is_principal (port right) = true /\ q = key2) then None else active N !! q).
  { intros q. rewrite Ha', Hu. cbn. apply Ha. }
  exists N'. split; [unfold take_reference; by rewrite Hru, Hd|]. split; [done|]. split.
  - split.
    + intros q. rewrite Hact, Hpw. destruct (decide (is_principal (port right) = true /\ q = key2)) as [Hq|Hq].
      * split; [by intros [? ?]|]. intros [Hk|[_ ?]]; [|done]. destruct owner as [key|]; [|done]. injection Hk as ->.
        destruct Hq as [Hp Hq2]. exfalso. apply (Hnc Hp). rewrite <- Hq2. by apply Hcl.
      * rewrite (PA q). tauto.
    + intros key ->. pose proof (Hcl _ eq_refl) as Hk. left. rewrite Hact, Hpw.
      destruct (PS _ eq_refl) as [[_ Hn]|[? _]]; [|congruence]. split; [|tauto].
      rewrite decide_False; [done|]. intros [Hp ->]. by apply Hnc in Hp.
  - rewrite Hu in Hrl, Ho'. destruct Hrl as (H1 & H2 & H3 & H4). split; [|split; [done|]].
    + split; [done|]. split; [done|]. split; [done|]. by destruct H4.
    + intros q Hq. by rewrite Hact, decide_False.
Qed.

(** The local ports the two cursors faced are wired to each other. *)
Record joined_at N owner c peer (left right : SignedPort) N' : Prop := {
  ja_graph : graph_ok N';
  ja_pending : pending_ok N' owner;
  ja_next : next_node_id N' = next_node_id N;
  ja_nodes : forall m, node_at N' m = if decide (m = c \/ m = peer) then None else node_at N m;
  ja_refs : forall p, reference N' p =
    if decide (p = principal c \/ p = principal peer) then None else
    if decide (p = port left) then Some right else if decide (p = port right) then Some left else reference N p;
  ja_obligations : cursor_obligations N' = delete peer (delete c (cursor_obligations N));
  ja_rest : same_rest N N';
  ja_states : forall q, pending_key owner <> Some q -> q <> active_pair_key peer (node (port right)) ->
    active N' !! q = active N !! q \/ active N !! q = None /\ active N' !! q = Some ApReady;
}.

(** A claimed cursor does not face a cursor that is not in flight. *)
Lemma claim_apart N owner c cp r peer (left : SignedPort) :
  graph_ok N -> claim_held N c owner -> node_at N c = Some (RRemoteCursor cp r) ->
  reference N (principal c) = Some left -> in_flight N peer = false -> port left <> principal peer.
Proof.
  intros G H Hc Hl Hfl Heq. destruct (cursor_peer N c cp r left G Hc Hl) as (_ & _ & _ & Hlb). rewrite Heq in Hlb.
  assert (Hkp : rt_active_pair_key N peer = Some (active_pair_key peer c)) by (unfold rt_active_pair_key, neighbor; by rewrite Hlb).
  assert (Hkc : rt_active_pair_key N c = Some (active_pair_key c peer)).
  { unfold rt_active_pair_key, neighbor. rewrite Hl. cbn. by rewrite Heq. }
  unfold in_flight, is_claimed_pair in Hfl. rewrite Hkp in Hfl. destruct owner as [key|]; cbn in H.
  - destruct H as [H1 H2]. rewrite Hkc in H1. injection H1 as <-.
    replace (active_pair_key peer c) with (active_pair_key c peer) in Hfl by (unfold active_pair_key; lia).
    by rewrite H2 in Hfl.
  - destruct (go_obligations _ G _ _ H) as (_ & _ & Hn). congruence.
Qed.

Lemma join_cursors N owner c cp r peer fp left right :
  graph_ok N -> active_ok N None -> claim_held N c owner ->
  node_at N c = Some (RRemoteCursor cp r) -> node_at N peer = Some (RRemoteCursor cp fp) -> c <> peer ->
  reference N (principal c) = Some left -> reference N (principal peer) = Some right ->
  in_flight N peer = false -> sign left = opposite (sign right) ->
  exists N1 N2 N3 N4 N5, take_reference N (principal c) = Ok (N1, Some left) /\
    take_reference (unschedule_node N1 peer) (principal peer) = Ok (N2, Some right) /\
    remove_node N2 c = Ok (N3, RRemoteCursor cp r) /\ remove_node N3 peer = Ok (N4, RRemoteCursor cp fp) /\
    rt_wire N4 left right = Ok N5 /\ joined_at N owner c peer left right N5.
Proof.
  intros G A H Hc Hp Hne Hl Hr Hfl Hsg.
  destruct (cursor_peer N c cp r left G Hc Hl) as (Hlc & Hlp & (kl & Hkl & Hil) & Hlb).
  destruct (cursor_peer N peer cp fp right G Hp Hr) as (Hrc & Hrp & (kr & Hkr & Hir) & Hrb).
  pose proof (claim_apart N owner c cp r peer left G H Hc Hl Hfl) as Hlpeer.
  assert (Hnlp : node (port left) <> peer).
  { intros Heq. apply Hlpeer. rewrite Heq, Hp in Hkl. injection Hkl as <-. destruct (port left) as [a i]. cbn in *.
    unfold principal. f_equal; [done|lia]. }
  assert (Hnrc : node (port right) <> c).
  { intros Heq. rewrite Heq, Hc in Hkr. injection Hkr as <-. assert (Hpr : port right = principal c).
    { destruct (port right) as [a i]. cbn in *. unfold principal. f_equal; [done|lia]. }
    rewrite Hpr, Hl in Hrb. injection Hrb as ->. cbn in *. by apply Hlpeer. }
  assert (Hlr : port left <> port right).
  { intros Heq. rewrite Heq, Hrb in Hlb. injection Hlb as Hx _. congruence. }
  destruct (cut_claimed N c owner left G A H Hl) as (N1 & H1 & G1 & P1 & (Hn1 & Hr1 & Hx1 & Hs1) & Ha1 & Ho1).
  assert (Hrp1 : reference N1 (principal peer) = Some right).
  { rewrite Hr1, decide_False; [done|]. intros [Hx|Hx]; [|congruence]. unfold principal in Hx. congruence. }
  destruct (cut_peer N1 owner peer right G1 P1) as (N2 & H2 & G2 & P2 & (Hn2 & Hr2 & Hx2 & Hs2) & Ho2 & Ha2); [| |done|].
  { intros key ->. rewrite Ha1. by destruct H. }
  { intros Hpr. rewrite Ha1. intros Hcl. unfold in_flight, rt_active_pair_key, neighbor, is_claimed_pair in Hfl.
    rewrite Hr in Hfl. cbn in Hfl. rewrite Hpr in Hfl. by rewrite Hcl in Hfl. }
  assert (Hun : forall i, reference N2 (MkPort c i) = None /\ reference N2 (MkPort peer i) = None).
  { assert (Hz : forall m i k, node_at N m = Some k -> runtime_port_count k = 1 ->
      MkPort m i = principal m \/ reference N (MkPort m i) = None).
    { intros m i k Hk Hcount. destruct (decide (i = 0)) as [->|Hi]; [by left|right]. apply reference_invalid.
      intros (k' & Hk' & Hlt). cbn in *. rewrite Hk in Hk'. injection Hk' as <-. lia. }
    intros i. rewrite !Hr2, !Hr1. split; repeat case_decide; try done.
    - destruct (Hz c i _ Hc eq_refl); tauto.
    - destruct (Hz peer i _ Hp eq_refl); tauto. }
  destruct (remove_node_spec N2 c _ G2 ltac:(by rewrite Hn2, Hn1) ltac:(intros; apply Hun))
    as (N3 & H3 & G3 & Hn3 & Hr3 & Hx3 & Hs3 & Ha3 & Ho3).
  destruct (remove_node_spec N3 peer (RRemoteCursor cp fp) G3) as (N4 & H4 & G4 & Hn4 & Hr4 & Hx4 & Hs4 & Ha4 & Ho4).
  { by rewrite Hn3, decide_False, Hn2, Hn1 by congruence. }
  { intros i. rewrite Hr3. apply Hun. }
  assert (Hr24 : forall p, reference N4 p = reference N2 p) by (intros p; by rewrite Hr4, Hr3).
  destruct (wire_claimed N4 owner left right G4) as (N5 & H5 & G5 & P5 & (Hn5 & Hr5 & Hx5 & Hs5) & Ho5 & _ & Hst).
  { eapply (pending_ok_add N2); [done|congruence|done]. }
  { split; try done.
    - exists kl. rewrite Hn4, Hn3, Hn2, Hn1, !decide_False by done. done.
    - exists kr. rewrite Hn4, Hn3, Hn2, Hn1, !decide_False by done. done.
    - rewrite Hr24, Hr2, Hr1. repeat case_decide; try done. tauto.
    - rewrite Hr24, Hr2, decide_True by auto. done.
    - intros [Bl Br]%andb_true_iff. apply is_principal_spec in Bl, Br. rewrite Bl in Hlb. rewrite Br in Hrb.
      unfold obligated. rewrite Ho4, Ho3, Ho2, Ho1. split; intros [o [_ [_ Ho]%lookup_delete_Some]%lookup_delete_Some].
      + eapply (paired_quiet N _ _ G Hlb eq_refl). by exists o.
      + eapply (paired_quiet N _ _ G Hrb eq_refl). by exists o. }
  exists N1, N2, N3, N4, N5. do 5 (split; [done|]). split; try done.
  - congruence.
  - intros m. rewrite Hn5, Hn4, Hn3, Hn2, Hn1. repeat case_decide; naive_solver.
  - assert (Hrpc : port right <> principal c) by (intros Hx; apply Hnrc; by rewrite Hx).
    intros p. rewrite Hr5. destruct (decide (p = port left)) as [->|Hp1]; [by rewrite decide_False by tauto|].
    destruct (decide (p = port right)) as [->|Hp2]; [by rewrite decide_False by tauto|].
    rewrite Hr24, Hr2, Hr1. destruct (decide (p = principal c)) as [->|Hp3].
    + rewrite (decide_True (P := principal c = principal c \/ principal c = principal peer)) by auto. case_decide; [done|].
      by rewrite decide_True by auto.
    + destruct (decide (p = principal peer)) as [->|Hp4]; [by rewrite !decide_True by auto|].
      by rewrite !decide_False by tauto.
  - rewrite Ho5, Ho4, Ho3, Ho2, Ho1. done.
  - repeat (eapply same_rest_trans; [done|]). done.
  - intros q Hq Hq2. specialize (Hst q Hq). rewrite Ha4, Ha3, Ha2, Ha1 in Hst by tauto. done.
Qed.

Section joined.
Context (N : RuntimeNet) (owner : CursorClaimOwner) (c : nat) (cp : Z) (st : CopyState) (r : Port) (peer : nat) (fp : Port).
Context (left right : SignedPort) (N' : RuntimeNet).
Hypothesis W : net_wf N.
Hypothesis Hc : node_at N c = Some (RRemoteCursor cp r).
Hypothesis Hp : node_at N peer = Some (RRemoteCursor cp fp).
Hypothesis Hl : reference N (principal c) = Some left.
Hypothesis Hr : reference N (principal peer) = Some right.
Hypothesis Hsg : sign left = opposite (sign right).
Hypothesis Hst : copies N !! cp = Some st.
Hypothesis Hf : frontiers st !! r = Some c.
Hypothesis Hfp : frontiers st !! fp = Some peer.
Hypothesis JA : joined_at N owner c peer left right N'.

Definition joined_frontiers : gmap Port nat := delete r (delete fp (frontiers st)).

(** The copies afterwards: the copy is dropped with its last cursor. *)
Definition joined_copies : gmap Z CopyState :=
  if decide (joined_frontiers = ∅) then delete cp (copies N)
  else <[cp := update_frontiers st joined_frontiers]> (copies N).

Lemma ja_own p : node p <> c -> node p <> peer -> own N' p = own N p.
Proof.
  intros H1 H2. unfold own, signed. rewrite (ja_refs _ _ _ _ _ _ _ JA).
  rewrite decide_False by (intros [-> | ->]; done).
  destruct (cursor_peer N c cp r left (nw_graph _ W) Hc Hl) as (_ & _ & _ & Hlb).
  destruct (cursor_peer N peer cp fp right (nw_graph _ W) Hp Hr) as (_ & _ & _ & Hrb).
  case_decide as Hd; [subst p; rewrite Hlb; cbn; by rewrite Hsg, opposite_opposite|].
  case_decide as Hd2; [subst p; rewrite Hrb; cbn; by rewrite Hsg|done].
Qed.

Lemma joined_survivor cp' st0 rm cur :
  copies N !! cp' = Some st0 -> frontiers st0 !! rm = Some cur -> (cp', rm) <> (cp, r) -> (cp', rm) <> (cp, fp) ->
  cur <> c /\ cur <> peer /\ node_at N cur = Some (RRemoteCursor cp' rm).
Proof.
  intros H0 H1 N1 N2. pose proof (proj1 (nw_frontiers _ W) _ _ _ _ H0 H1) as Hcur.
  split; [|split; [|done]]; intros ->; [rewrite Hc in Hcur|rewrite Hp in Hcur]; congruence.
Qed.

Lemma joined_core : net_core (with_copies N' joined_copies).
Proof.
  assert (Hnode : forall m, m <> c -> m <> peer -> node_at N' m = node_at N m).
  { intros m H1 H2. rewrite (ja_nodes _ _ _ _ _ _ _ JA), decide_False by tauto. done. }
  assert (Hinv : forall m k, node_at N' m = Some k -> m <> c /\ m <> peer /\ node_at N m = Some k).
  { intros m k. rewrite (ja_nodes _ _ _ _ _ _ _ JA). case_decide as Hd; [done|]. intros H. split; [tauto|]. split; [tauto|done]. }
  split.
  - eapply (graph_ok_same N'); try done. apply JA.
  - intros m k Hm. destruct (Hinv m k Hm) as (H1 & H2 & H3). eapply node_wf_proper; [intros i; by apply (ja_own (MkPort m i))|].
    by apply (nw_nodes _ W).
  - intros p Hpx. change (rt_exposed N' = Some p) in Hpx. rewrite (sr_exposed _ _ (ja_rest _ _ _ _ _ _ _ JA)) in Hpx.
    destruct (nw_exposed _ W p Hpx) as [Hi Hn]. split; [done|].
    etransitivity; [apply Hnode|exact Hn]; intros Heq; rewrite Heq in Hn; congruence.
  - destruct (nw_frontiers _ W) as [F1 F2]. split; cbn [with_copies copies].
    + intros cp' st0 rm cur Hcp Hfr.
      assert (Hkeep : forall st0, copies N !! cp' = Some st0 -> frontiers st0 !! rm = Some cur -> (cp', rm) <> (cp, r) ->
        (cp', rm) <> (cp, fp) -> node_at N' cur = Some (RRemoteCursor cp' rm)).
      { intros st1 H0 H1 H2 H3. destruct (joined_survivor _ _ _ _ H0 H1 H2 H3) as (? & ? & ?). by rewrite Hnode. }
      unfold joined_copies in Hcp. case_decide.
      * apply lookup_delete_Some in Hcp as [Hne Hcp]. apply (Hkeep st0); congruence.
      * apply lookup_insert_Some in Hcp as [[<- <-]|[Hne Hcp]]; [|apply (Hkeep st0); congruence].
        cbn in Hfr. unfold joined_frontiers in Hfr. apply lookup_delete_Some in Hfr as [? Hfr].
        apply lookup_delete_Some in Hfr as [? Hfr]. apply (Hkeep st); congruence.
    + intros cur cp' rm Hcur. destruct (Hinv _ _ Hcur) as (H1 & H2 & H3). destruct (F2 _ _ _ H3) as (st0 & H4 & H5).
      unfold joined_copies. destruct (decide (cp' = cp)) as [->|Hne].
      * rewrite Hst in H4. injection H4 as <-.
        assert (Hj : joined_frontiers !! rm = Some cur).
        { unfold joined_frontiers. rewrite !lookup_delete_ne by (intros <-; congruence). done. }
        rewrite decide_False by (intros Hx; by rewrite Hx in Hj). exists (update_frontiers st joined_frontiers).
        by rewrite lookup_insert_eq.
      * exists st0. case_decide; [by rewrite lookup_delete_ne|by rewrite lookup_insert_ne].
Qed.

(** The copy goes on with the frontiers left. *)
Lemma joined_copy_ok Src ex copied : copy_ok N st Src ex copied ->
  copy_ok (with_copies N' joined_copies) (update_frontiers st joined_frontiers) Src ex copied.
Proof.
  intros CO.
  assert (Hsub : forall q cur, joined_frontiers !! q = Some cur -> q <> r /\ q <> fp /\ frontiers st !! q = Some cur).
  { intros q cur Hq. unfold joined_frontiers in Hq. apply lookup_delete_Some in Hq as [? [? ?]%lookup_delete_Some]. done. }
  split; cbn [update_frontiers frontiers fan_sites].
  - apply CO.
  - apply CO.
  - intros q cur (_ & _ & Hq)%Hsub. by eapply (co_anchor _ _ _ _ _ CO).
  - intros q cur (H1 & H2 & Hq)%Hsub. destruct (co_sign _ _ _ _ _ CO q cur Hq) as (s & ? & ?). exists s. split; [done|].
    destruct (joined_survivor _ _ _ _ Hst Hq ltac:(congruence) ltac:(congruence)) as (? & ? & _).
    etransitivity; [by apply (ja_own (principal cur))|done].
  - intros n q s Hn Hq. unfold joined_frontiers. apply lookup_delete_None. right. apply lookup_delete_None. right.
    by eapply (co_consumed _ _ _ _ _ CO).
  - cbn. rewrite (sr_fan _ _ (ja_rest _ _ _ _ _ _ _ JA)). apply CO.
Qed.

Lemma joined_copy_other cp2 st2 Src2 ex2 copied2 :
  cp2 <> cp -> copies N !! cp2 = Some st2 -> copy_ok N st2 Src2 ex2 copied2 ->
  joined_copies !! cp2 = Some st2 /\ copy_ok (with_copies N' joined_copies) st2 Src2 ex2 copied2.
Proof.
  intros Hne H2 CO. split.
  - unfold joined_copies. case_decide; [by rewrite lookup_delete_ne|by rewrite lookup_insert_ne].
  - eapply copy_ok_frame; [done| |cbn; rewrite (sr_fan _ _ (ja_rest _ _ _ _ _ _ _ JA)); lia].
    intros q cur Hq. destruct (joined_survivor _ _ _ _ H2 Hq ltac:(congruence) ltac:(congruence)) as (? & ? & _).
    by apply (ja_own (principal cur)).
Qed.

End joined.

End joining.
