(* ===== verification/CopySteps.v ===== *)
(** * Steps of claimed cursors

    One step of a cursor of a copy: look across its source anchor, then
    materialize the node there, join the cursor that stands at the other end,
    or record what the cursor waits for. The step never panics, keeps the
    target well formed and the copy in step with its source. *)
From stdpp Require Import base option list numbers gmap fin_maps tactics.
From Stdlib Require Import ZArith Lia.
From S2P Require Import Prelude NetModel RuntimeGraph Boundary Rewrite Calls Evolution WalkCycle FanSites WholeCopy Copies CopyInvariant.

(** ** One step of a claimed cursor *)
Section finishing.
Context {S : NetSpecialization} {P : PayloadDuplicator S}.
Implicit Types (N Src : RuntimeNet) (n c peer : nat) (owner : CursorClaimOwner) (r fp : Port).

Lemma net_wf_obligation N c o st :
  net_wf N -> cursor_obligations N !! c = Some o ->
  net_wf (with_obligations N (<[c := MkObligation c st]> (cursor_obligations N))).
Proof.
  intros W Ho. destruct (go_obligations _ (nw_graph _ W) _ _ Ho) as (_ & Hc & Hk).
  split; [split; [split|..]|]; try apply W; try (apply (nw_graph _ W)).
  intros c' o' H. cbn [with_obligations cursor_obligations] in H.
  apply lookup_insert_Some in H as [[<- <-]|[_ H]]; [done|]. by apply (go_obligations _ (nw_graph _ W)).
Qed.

(** Blocking a claimed cursor changes nothing but its state. *)
Lemma record_blockage_spec N claim blockage :
  net_wf N -> claim_held N (claim_cursor claim) (claim_owner claim) ->
  exists N', record_blockage N claim blockage = Ok N' /\ net_wf N' /\ rt_nodes N' = rt_nodes N /\ copies N' = copies N /\
    next_fan_site N' = next_fan_site N /\ next_node_id N' = next_node_id N.
Proof.
  intros W H. unfold record_blockage. destruct (claim_owner claim) as [key|]; cbn in H.
  - destruct H as [_ Hk]. rewrite Hk. cbn. eexists. split; [done|]. split; [by apply net_wf_state|done].
  - assert (Hset : forall st, set_obligation N (claim_cursor claim) st =
      (with_obligations N (<[claim_cursor claim := MkObligation (claim_cursor claim) st]> (cursor_obligations N)), true)).
    { intros st. unfold set_obligation. by rewrite H. }
    unfold block_pairless_cursor_obligation, stabilize_pairless_cursor_obligation.
    destruct blockage; rewrite Hset; cbn; (eexists; split; [done|]; split; [by eapply net_wf_obligation|done]).
Qed.

(** A claim on a cursor of a copy that follows its source. *)
Record claim_ok N (claim : CursorClaim) (st : CopyState) Src (ex : Port) (copied : gset nat) : Prop := {
  ck_wf : net_wf N;
  ck_source : net_wf Src;
  ck_held : claim_held N (claim_cursor claim) (claim_owner claim);
  ck_cursor : node_at N (claim_cursor claim) = Some (RRemoteCursor (claim_copy claim) (claim_remote claim));
  ck_copy : copies N !! claim_copy claim = Some st;
  ck_ok : copy_ok N st Src ex copied;
  (** Node, site and step counters have room. *)
  ck_room : room N;
  ck_sites : forall n k, node_at Src n = Some k ->
    (next_fan_site N + Z.of_nat (length (kind_sites k)) <= usize_max)%Z;
  ck_spine : (Z.of_nat (spine_fuel Src) + 2 <= usize_max)%Z;
}.

Lemma claim_frontier N claim st Src ex copied :
  claim_ok N claim st Src ex copied -> frontiers st !! claim_remote claim = Some (claim_cursor claim) /\
  exists q, reference Src (claim_remote claim) = Some q.
Proof.
  intros [W WS H Hc Hst CO _ _ _]. destruct (proj2 (nw_frontiers _ W) _ _ _ Hc) as (st0 & H0 & Hf).
  rewrite Hst in H0. injection H0 as <-. split; [done|].
  destruct (co_sign _ _ _ _ _ CO _ _ Hf) as (s & Ho & _). apply own_reference in Ho as [q ->]. eauto.
Qed.

(** What one step did; the rest of the target is as before. *)
Definition progressed N (claim : CursorClaim) (st : CopyState) Src (ex : Port) (copied : gset nat) N'
    (progress : CursorProgress) : Prop :=
  let cp := claim_copy claim in
  evolves N N' /\
  match progress with
  | CpMaterialized t => exists n s k k' st' local,
      reference Src (claim_remote claim) = Some (MkSignedPort (principal n) s) /\ n ∉ copied /\
      node_at Src n = Some k /\ node_at N' t = Some k' /\
      reference N (principal (claim_cursor claim)) = Some local /\ reference N' (principal t) = Some local /\
      (exists d, duplicate_copyable duplicate_data duplicate_operator k = Some d /\ copy_kind (fan_sites st') d k') /\
      copies N' !! cp = Some st' /\ copy_ok N' st' Src ex ({[n]} ∪ copied)
  | CpJoined => exists peer q left right,
      reference Src (claim_remote claim) = Some q /\ frontiers st !! port q = Some peer /\
      reference N (principal (claim_cursor claim)) = Some left /\ reference N (principal peer) = Some right /\
      reference N' (port left) = Some right /\
      forall st', copies N' !! cp = Some st' -> copy_ok N' st' Src ex copied
  | CpBlocked => rt_nodes N' = rt_nodes N /\ copies N' = copies N /\ copy_ok N' st Src ex copied
  | CpClaimed => False
  end.

(** Every other copy of the target follows its own source as before. *)
Definition others_kept N (cp : Z) N' : Prop :=
  forall cp2 st2 Src2 ex2 copied2, cp2 <> cp -> copies N !! cp2 = Some st2 -> copy_ok N st2 Src2 ex2 copied2 ->
    copies N' !! cp2 = Some st2 /\ copy_ok N' st2 Src2 ex2 copied2.

Lemma own_nodes N N' p : rt_nodes N' = rt_nodes N -> own N' p = own N p.
Proof. intros H. unfold own, signed, reference. by rewrite H. Qed.

(** The end of a blocked step. *)
Lemma finish_blocked N claim st Src ex copied blockage :
  claim_ok N claim st Src ex copied ->
  exists N', record_blockage N claim blockage = Ok N' /\ net_wf N' /\
    progressed N claim st Src ex copied N' CpBlocked /\ others_kept N (claim_copy claim) N'.
Proof.
  intros [W WS H Hc Hst CO _ _ _]. destruct (record_blockage_spec N claim blockage W H) as (N' & HN & W' & Hn & Hcp & Hfs & Hnx).
  exists N'. split; [done|]. split; [done|].
  assert (Hframe : forall st0 Src0 ex0 copied0, copy_ok N st0 Src0 ex0 copied0 -> copy_ok N' st0 Src0 ex0 copied0).
  { intros st0 Src0 ex0 copied0 CO0. eapply copy_ok_frame; [done|intros; by apply own_nodes|lia]. }
  split; [split; [by apply evolves_refl|split; [done|split; [done|by apply Hframe]]]|].
  intros cp2 st2 Src2 ex2 copied2 _ H2 CO2. rewrite Hcp. split; [done|by apply Hframe].
Qed.

(** The wire of the cursor. *)
Lemma claim_wire N claim st Src ex copied :
  claim_ok N claim st Src ex copied -> exists local, reference N (principal (claim_cursor claim)) = Some local.
Proof.
  intros CK. pose proof (nw_nodes _ (ck_wf _ _ _ _ _ _ CK) _ _ (ck_cursor _ _ _ _ _ _ CK)) as [s Hs].
  apply own_reference in Hs as [q Hq]. eauto.
Qed.

Lemma joined_at_copies N m owner c peer left right N5 :
  joined_at (with_copies N m) owner c peer left right N5 ->
  joined_at N owner c peer left right (with_copies N5 (copies N)).
Proof.
  intros [G PO Hn Hm Hr Ho Hs Ha]. split; try done.
  - by apply (graph_ok_same N5).
  - by apply (pending_ok_add N5).
  - destruct Hs. by split.
Qed.

(** The joined cursors are gone; other wires stay. *)
Lemma joined_evolves N owner c cp r peer r' left right N' : net_wf N ->
  node_at N c = Some (RRemoteCursor cp r) -> node_at N peer = Some (RRemoteCursor cp r') ->
  reference N (principal c) = Some left -> reference N (principal peer) = Some right ->
  joined_at N owner c peer left right N' -> evolves N N'.
Proof.
  intros W Hc Hp Hl Hr JA. apply (evolves_ends _ _ (fun n => n = c \/ n = peer)).
  - apply W.
  - by rewrite (ja_next _ _ _ _ _ _ _ JA).
  - intros n [-> | ->]; eauto.
  - intros n Hn. by rewrite (ja_nodes _ _ _ _ _ _ _ JA), decide_True.
  - intros m _ Hm. by rewrite (ja_nodes _ _ _ _ _ _ _ JA), decide_False.
  - intros p q H1 H2 Hq. rewrite (ja_refs _ _ _ _ _ _ _ JA), !decide_False; [done|..].
    + intros ->. destruct right as [rp rs]. apply (go_sym _ (nw_graph _ W)) in Hr. cbn in Hq. rewrite Hr in Hq. injection Hq as <-. cbn in H2. tauto.
    + intros ->. destruct left as [lp ls]. apply (go_sym _ (nw_graph _ W)) in Hl. cbn in Hq. rewrite Hl in Hq. injection Hq as <-. cbn in H2. tauto.
    + intros [-> | ->]; cbn in H1; tauto.
Qed.

Lemma materialized_evolves N owner base c cp st r n k local N' k' st' : net_wf N -> node_at N c = Some (RRemoteCursor cp r) ->
  reference N (principal c) = Some local -> materialized N owner base c cp st r n k local N' k' st' -> evolves N N'.
Proof.
  intros W Hc Hl MT. pose proof (mt_next _ _ _ _ _ _ _ _ _ _ _ _ _ MT) as Hx. pose proof (mt_nodes _ _ _ _ _ _ _ _ _ _ _ _ _ MT) as Hn.
  pose proof (go_fresh _ (nw_graph _ W) c ltac:(by rewrite Hc)) as Hcf. apply (evolves_ends _ _ (fun m => m = c)).
  - apply W.
  - lia.
  - intros m ->. eauto.
  - intros m ->. by rewrite Hn, decide_True.
  - intros m Hm Hmc. by rewrite Hn, decide_False.
  - intros p q H1 H2 Hq. rewrite (mt_refs _ _ _ _ _ _ _ _ _ _ _ _ _ MT), !decide_False; [done|..].
    + intros ->. destruct local as [lp ls]. apply (go_sym _ (nw_graph _ W)) in Hl. cbn in Hq. rewrite Hl in Hq. injection Hq as <-. by cbn in H2.
    + by intros ->.
    + apply (go_fresh _ (nw_graph _ W)). by apply (reference_alive _ _ _ (nw_graph _ W)) in Hq as [? _].
Qed.

(** Two cursors of the copy that stand for the ends of one source wire. *)
Lemma step_join N claim st Src ex copied q peer :
  claim_ok N claim st Src ex copied -> reference Src (claim_remote claim) = Some q ->
  frontiers st !! port q = Some peer -> in_flight N peer = false ->
  exists N1 N', join_remote_frontiers N (claim_copy claim) (claim_cursor claim) (claim_remote claim) (port q) = Ok (N1, CpJoined) /\
    drop_claim N1 claim = Ok N' /\ net_wf N' /\ progressed N claim st Src ex copied N' CpJoined /\
    others_kept N (claim_copy claim) N'.
Proof.
  intros CK Hq Hpeer Hfl. destruct (claim_frontier _ _ _ _ _ _ CK) as [Hf _]. destruct (claim_wire _ _ _ _ _ _ CK) as [left Hl].
  destruct CK as [W WS H Hc Hst CO _ _ _]. destruct claim as [c owner cp r source]. cbn in *.
  pose proof (proj1 (nw_frontiers _ W) _ _ _ _ Hst Hpeer) as Hp.
  destruct (nw_nodes _ W _ _ Hp) as [sp [right Hr]%own_reference]. set (rt := MkSignedPort right (opposite sp)) in Hr.
  change (reference N (principal peer) = Some rt) in Hr.
  assert (Hne : port q <> r).
  { intros Heq. destruct q as [q s]. cbn in Heq. subst q. by apply (sym_not_self _ _ _ (nw_graph _ WS)) in Hq. }
  assert (Hcp : c <> peer) by (intros <-; rewrite Hc in Hp; congruence).
  assert (Hsg : sign left = opposite (sign rt)).
  { destruct (co_sign _ _ _ _ _ CO _ _ Hf) as (s1 & A1 & B1). destruct (co_sign _ _ _ _ _ CO _ _ Hpeer) as (s2 & A2 & B2).
    apply own_sign in Hl, Hr. rewrite Hl in B1. rewrite Hr in B2. injection B1 as B1. injection B2 as B2.
    destruct q as [q s]. pose proof (go_sym _ (nw_graph _ WS) _ _ _ Hq) as Hb. apply own_sign in Hq, Hb. cbn in *.
    rewrite Hq in A1. rewrite Hb in A2. injection A1 as A1. injection A2 as A2. subst s1 s2.
    destruct left as [lp ls], s, ls, sp; cbn in *; congruence. }
  set (fr := delete r (delete (port q) (frontiers st))).
  set (Nc := with_copies N (<[cp := update_frontiers st fr]> (copies N))).
  destruct (join_cursors Nc owner c cp r peer (port q) left rt) as (N1 & N2 & N3 & N4 & N5 & H1 & H2 & H3 & H4 & H5 & JA); try done.
  { by eapply graph_ok_same, W. }
  { apply W. }
  pose proof (joined_at_copies N _ _ _ _ _ _ _ JA) as JA'.
  set (final := with_copies N5 (joined_copies N cp st r (port q))).
  assert (Hfinal : (if bool_decide (fr = ∅) then with_copies N5 (delete cp (copies N5)) else N5) = final).
  { pose proof (sr_copies _ _ (ja_rest _ _ _ _ _ _ _ JA)) as Hcs. unfold final, joined_copies, joined_frontiers. fold fr.
    destruct (decide (fr = ∅)) as [He|He]; [rewrite bool_decide_true by done|rewrite bool_decide_false by done].
    - f_equal. rewrite Hcs. cbn. apply delete_insert_eq.
    - destruct N5. cbn in *. by rewrite Hcs. }
  destruct (drop_claim_ok final (MkClaim c owner cp r source)) as (a & Hd & Ha & _).
  { eapply (pending_ok_add N5); [done..|apply JA]. }
  { intros _. cbn. rewrite (ja_obligations _ _ _ _ _ _ _ JA). cbn. apply lookup_delete_None. right. apply lookup_delete_eq. }
  exists final, (with_active final a). split.
  { unfold join_remote_frontiers. rewrite Hst. cbn [expect mbind outcome_bind]. rewrite Hpeer, (in_flight_spec N peer (nw_graph _ W)), Hfl.
    cbn [mbind outcome_bind].
    rewrite (bool_decide_true (delete (port q) (frontiers st) !! r = Some c)) by (by rewrite lookup_delete_ne). cbn [rust_assert mbind outcome_bind].
    fold fr. fold Nc. rewrite (bool_decide_true (c <> peer)) by done. cbn [rust_assert mbind outcome_bind].
    rewrite H1. cbn [expect mbind outcome_bind]. rewrite H2. cbn [expect mbind outcome_bind].
    rewrite H3. cbn [expect mbind outcome_bind]. rewrite H4. cbn [expect mbind outcome_bind]. rewrite H5.
    cbn [expect mbind outcome_bind]. by rewrite Hfinal. }
  split; [done|]. split; [split; [|done]; apply net_core_active; by apply (joined_core N owner c cp st r peer (port q) left rt (with_copies N5 (copies N)))|].
  split.
  - split; [by eapply evolves_same; [apply (joined_evolves N owner c cp r peer (port q) left rt (with_copies N5 (copies N)))|..]|].
    exists peer, q, left, rt. do 4 (split; [done|]). split.
    + assert (Hpl : port left <> principal c /\ port left <> principal peer).
      { split; [apply (cursor_peer N c cp r left (nw_graph _ W) Hc Hl)|].
        exact (claim_apart N owner c cp r peer left (nw_graph _ W) H Hc Hl Hfl). }
      transitivity (reference (with_copies N5 (copies N)) (port left)); [done|].
      rewrite (ja_refs _ _ _ _ _ _ _ JA'), decide_False, decide_True by tauto. done.
    + intros st' Hst'. change (joined_copies N cp st r (port q) !! cp = Some st') in Hst'.
      assert (st' = update_frontiers st (joined_frontiers st r (port q))) as ->.
      { unfold joined_copies in Hst'. case_decide; [by rewrite lookup_delete_eq in Hst'|].
        rewrite lookup_insert_eq in Hst'. by injection Hst'. }
      eapply (copy_ok_frame final); [|done|done].
      by apply (joined_copy_ok N owner c cp st r peer (port q) left rt (with_copies N5 (copies N))).
  - intros cp2 st2 Src2 ex2 copied2 Hn2 H2' CO2.
    destruct (joined_copy_other N owner c cp st r peer (port q) left rt _ W Hc Hp Hl Hr Hsg JA' _ _ _ _ _ Hn2 H2' CO2) as [E1 E2].
    split; [done|]. by eapply (copy_ok_frame final).
Qed.

(** A duplicate differs in its payload only. *)
Lemma duplicate_like (k d : RuntimeNode Data Operator Checkpoint) s :
  duplicate_copyable duplicate_data duplicate_operator k = Some d -> ordinary k = true ->
  ordinary d = true /\ aux_count k = aux_count d /\ kind_sites d = kind_sites k /\ (sign_fits k s -> sign_fits d s) /\
  forall s i, auxiliary_sign (E:=Empty_set) k s i = auxiliary_sign d s i.
Proof. intros H Hk. destruct k; try done; injection H as <-; done. Qed.

(** A cursor in front of a node that can be copied. *)
Lemma step_materialize N claim st Src ex copied n s k d :
  claim_ok N claim st Src ex copied -> reference Src (claim_remote claim) = Some (MkSignedPort (principal n) s) ->
  node_at Src n = Some k -> ordinary k = true -> duplicate_copyable duplicate_data duplicate_operator k = Some d ->
  exists N1 N', materialize_remote_node N (claim_copy claim) (claim_cursor claim) (claim_remote claim) n d =
      Ok (N1, CpMaterialized (next_node_id N)) /\
    drop_claim N1 claim = Ok N' /\ net_wf N' /\ progressed N claim st Src ex copied N' (CpMaterialized (next_node_id N)) /\
    others_kept N (claim_copy claim) N'.
Proof.
  intros CK Hq Hk Hord Hd. destruct (claim_frontier _ _ _ _ _ _ CK) as [Hf _]. destruct (claim_wire _ _ _ _ _ _ CK) as [local Hl].
  destruct CK as [W WS H Hc Hst CO Hroom Hsites _]. destruct claim as [c owner cp r source]. cbn in *.
  destruct (frontier_fresh _ _ _ _ _ _ _ _ _ _ WS CO Hf Hq Hk Hord) as (Hn & Hown & Hfit & Hfresh).
  pose proof (own_sign _ _ _ Hl) as Hs. rewrite Hown in Hs. injection Hs as Hs.
  destruct (duplicate_like _ _ s Hd Hord) as (Hord' & Hcount & Hks & Hfit' & Hsgn). specialize (Hfit' Hfit). rewrite Hs in Hfit'.
  destruct (co_sites _ _ _ _ _ CO) as [base Hbase].
  destruct (materialize_spec N owner base c cp st r n d) as (N1 & k' & st' & local' & Hl' & Hm & MT); try done; try (by apply W).
  { intros i _. apply lookup_delete_None. right. apply Hfresh. }
  { rewrite Hks. by eapply Hsites. }
  rewrite Hl in Hl'. injection Hl' as <-.
  destruct (drop_claim_ok N1 (MkClaim c owner cp r source)) as (a & Hdr & Ha & _).
  { apply MT. }
  { intros _. cbn. rewrite (mt_obligations _ _ _ _ _ _ _ _ _ _ _ _ _ MT). apply lookup_delete_eq. }
  exists N1, (with_active N1 a). split; [done|]. split; [done|].
  split; [split; [apply net_core_active; by apply (mt_core N owner base c cp st r n d local N1 k' st')|done]|]. split.
  - split; [by eapply evolves_same; [apply (materialized_evolves N owner base c cp st r n d local N1 k' st')|..]|].
    exists n, s, k, k', st', local. do 3 (split; [done|]). split; [apply MT|]. split; [done|]. split; [apply MT|].
    split; [exists d; split; [done|apply MT]|]. split.
    + cbn. rewrite (mt_copies _ _ _ _ _ _ _ _ _ _ _ _ _ MT). apply lookup_insert_eq.
    + eapply (copy_ok_frame N1); [|done..]. by apply (mt_copy_ok N owner base c cp st r n d local N1 k' st') with k s.
  - intros cp2 st2 Src2 ex2 copied2 Hn2 H2 CO2.
    destruct (mt_copy_other N owner base c cp st r n d local N1 k' st' W Hc Hl MT cp2 st2 Src2 ex2 copied2 Hn2 H2 CO2) as [E1 E2].
    split; [done|]. by eapply (copy_ok_frame N1).
Qed.

(** No spine anchor is the claimed cursor's own: an anchor faces a principal. *)
Lemma spine_peer N claim st Src ex copied q anchors peer :
  claim_ok N claim st Src ex copied -> reference Src (claim_remote claim) = Some q -> is_principal (port q) = false ->
  (forall a, a ∈ anchors -> exists m s, reference Src a = Some (MkSignedPort (principal m) s)) ->
  head (omap (fun anchor => frontiers st !! anchor) anchors) = Some peer -> peer <> claim_cursor claim.
Proof.
  intros CK Hq Hnp Ha Hh Heq. assert (Hin : peer ∈ omap (fun anchor => frontiers st !! anchor) anchors).
  { destruct (omap _ anchors); [done|]. injection Hh as <-. left. }
  apply list_elem_of_omap in Hin as (a & Hin & Hfa). subst peer. destruct (Ha a Hin) as (m & s & Hm).
  pose proof (proj1 (nw_frontiers _ (ck_wf _ _ _ _ _ _ CK)) _ _ _ _ (ck_copy _ _ _ _ _ _ CK) Hfa) as Hc.
  rewrite (ck_cursor _ _ _ _ _ _ CK) in Hc. injection Hc as <-. rewrite Hm in Hq. injection Hq as <-. done.
Qed.

(** What a cursor does that no other cursor of its copy faces. *)
Lemma advance_shape_spec N claim st Src ex copied q shape source topology :
  claim_ok N claim st Src ex copied -> reference Src (claim_remote claim) = Some q ->
  shape_ok Src shape -> frontier_port shape = port q ->
  (exists blockage, advance_shape N claim shape (MkObservation source topology <$> endpoint shape) =
     Ok (N, CpBlocked, Some blockage)) \/
  (exists n s k d, q = MkSignedPort (principal n) s /\ node_at Src n = Some k /\ ordinary k = true /\
     duplicate_copyable duplicate_data duplicate_operator k = Some d /\
     shape = ShPrincipal (principal n) (SpCopyable d) /\
     forall N1 progress, materialize_remote_node N (claim_copy claim) (claim_cursor claim) (claim_remote claim) n d = Ok (N1, progress) ->
     advance_shape N claim shape (MkObservation source topology <$> endpoint shape) = Ok (N1, progress, None)).
Proof.
  intros CK Hq HS Hp. destruct shape as [p sn|p anchors terminal|entered partner]; cbn in HS, Hp; subst.
  - destruct HS as [Hpr (k & Hk & ->)]. pose proof (go_sym _ (nw_graph _ (ck_source _ _ _ _ _ _ CK)) (claim_remote claim) (port q) (sign q)) as Hb.
    destruct q as [[n i] s]. apply is_principal_spec in Hpr. cbn in *. injection Hpr as ->. specialize (Hb Hq).
    assert (Hdone : forall d, ordinary k = true -> duplicate_copyable duplicate_data duplicate_operator k = Some d ->
      exists n' s' k0 d', MkSignedPort (MkPort n 0) s = MkSignedPort (principal n') s' /\ node_at Src n' = Some k0 /\
        ordinary k0 = true /\ duplicate_copyable duplicate_data duplicate_operator k0 = Some d' /\
        ShPrincipal (MkPort n 0) (SpCopyable d) = ShPrincipal (principal n') (SpCopyable d') /\
        forall N1 progress, materialize_remote_node N (claim_copy claim) (claim_cursor claim) (claim_remote claim) n' d' = Ok (N1, progress) ->
        advance_shape N claim (ShPrincipal (MkPort n 0) (SpCopyable d))
          (MkObservation source topology <$> endpoint (ShPrincipal (MkPort n 0) (SpCopyable d))) = Ok (N1, progress, None)).
    { intros d Ho Hd. exists n, s, k, d. do 5 (split; [done|]). intros N1 progress HM.
      destruct k; try done; injection Hd as <-; cbn in *; by rewrite HM. }
    destruct k; cbn [duplicate_copyable]; try (right; by apply Hdone); try (left; eexists; reflexivity).
    + exfalso. destruct (nw_nodes _ (ck_source _ _ _ _ _ _ CK) _ _ Hk) as [Hw _]. apply own_sign in Hb. cbn in Hw. congruence.
    + left. eexists. cbn. by rewrite bool_decide_true.
  - destruct HS as (Hnp & Ha & Ht). left. cbn [advance_shape]. rewrite (ck_copy _ _ _ _ _ _ CK). cbn [mbind option_bind].
    destruct (head _) as [peer|] eqn:Eh.
    + rewrite bool_decide_true; [by eexists|]. by eapply spine_peer.
    + destruct terminal as [key|]; cbn; [|by eexists]. rewrite bool_decide_true by done. by eexists.
  - left. cbn. rewrite bool_decide_true by done. by eexists.
Qed.

Lemma inspect_spec Src source topology r q :
  graph_ok Src -> reference Src r = Some q -> (Z.of_nat (spine_fuel Src) + 2 <= usize_max)%Z ->
  exists shape, inspect_source_frontier Src source topology r =
      Ok (MkFrontier r shape (MkObservation source topology <$> endpoint shape)) /\
    frontier_port shape = port q /\ shape_ok Src shape.
Proof.
  intros G Hq Hfit. destruct (inspect_shape_spec Src r q G Hq Hfit) as (shape & H & Hp & HS). exists shape.
  unfold inspect_source_frontier. by rewrite H.
Qed.

(** Looking across a wired source anchor never panics and always ends:
    the walk along the demand spine is cut by its cycle detector within three
    times the source's nodes. The shape it returns describes the anchor's
    neighbour: a principal with the node behind it, an auxiliary of an active
    pair, or an auxiliary whose spine ends in an active pair of the source or
    in none; the observation carries the endpoint the shape waits for. *)
Theorem inspect_source_frontier_total Src source topology r q :
  graph_ok Src -> reference Src r = Some q -> (Z.of_nat (spine_fuel Src) + 2 <= usize_max)%Z ->
  exists frontier, inspect_source_frontier Src source topology r = Ok frontier /\ sf_anchor frontier = r /\
    frontier_port (sf_shape frontier) = port q /\ shape_ok Src (sf_shape frontier) /\
    sf_observation frontier = MkObservation source topology <$> endpoint (sf_shape frontier).
Proof.
  intros G Hq Hfit. destruct (inspect_spec Src source topology r q G Hq Hfit) as (shape & H & Hp & HS).
  by eexists.
Qed.

Lemma claim_guards N claim st Src ex copied :
  claim_ok N claim st Src ex copied ->
  match claim_owner claim with
  | OwnActivePair key => is_claimed_pair N key
  | OwnObligation => match cursor_obligations N !! claim_cursor claim with
                     | Some obligation => pc_is_claimed (ob_state obligation)
                     | None => false
                     end
  end = true /\ is_remote N (claim_cursor claim) (claim_copy claim) (claim_remote claim) = true.
Proof.
  intros [W WS H Hc Hst CO _ _ _]. split.
  - destruct (claim_owner claim); cbn in H; [destruct H as [_ H]; unfold is_claimed_pair|]; by rewrite H.
  - unfold is_remote. by rewrite Hc, Z.eqb_refl, bool_decide_true.
Qed.

Lemma finish_spec N claim st Src ex copied q shape source topology :
  claim_ok N claim st Src ex copied -> reference Src (claim_remote claim) = Some q ->
  shape_ok Src shape -> frontier_port shape = port q ->
  exists N' progress, finish_cursor_claim N claim
      (MkFrontier (claim_remote claim) shape (MkObservation source topology <$> endpoint shape)) = Ok (N', progress) /\
    net_wf N' /\ progressed N claim st Src ex copied N' progress /\ others_kept N (claim_copy claim) N'.
Proof.
  intros CK Hq HS Hp. destruct (claim_guards _ _ _ _ _ _ CK) as [G1 G2]. pose proof (ck_copy _ _ _ _ _ _ CK) as Hst.
  unfold finish_cursor_claim. rewrite G1, G2, Hst. cbn [sf_anchor sf_shape sf_observation expect rust_assert mbind outcome_bind].
  rewrite bool_decide_true by done. cbn [rust_assert mbind outcome_bind]. rewrite Hp.
  destruct (frontiers st !! port q) as [peer|] eqn:Epeer.
  - pose proof (proj1 (nw_frontiers _ (ck_wf _ _ _ _ _ _ CK)) _ _ _ _ Hst Epeer) as Hpeer.
    assert (Hne : peer <> claim_cursor claim).
    { intros ->. rewrite (ck_cursor _ _ _ _ _ _ CK) in Hpeer. injection Hpeer as Heq. destruct q as [q s]. cbn in Heq. subst q.
      by apply (sym_not_self _ _ _ (nw_graph _ (ck_source _ _ _ _ _ _ CK))) in Hq. }
    rewrite (bool_decide_true (peer <> claim_cursor claim)) by done.
    assert (is_remote N peer (claim_copy claim) (port q) = true) as ->.
    { unfold is_remote. by rewrite Hpeer, Z.eqb_refl, bool_decide_true. }
    cbn [rust_assert mbind outcome_bind]. destruct (in_flight N peer) eqn:Efl.
    + destruct (finish_blocked N claim st Src ex copied (BlDependency (LocalCursor peer)) CK) as (N' & HN & R).
      exists N', CpBlocked. split; [|done]. unfold join_remote_frontiers. rewrite Hst. cbn [expect mbind outcome_bind].
      rewrite Epeer, (in_flight_spec _ _ (nw_graph _ (ck_wf _ _ _ _ _ _ CK))), Efl. cbn [mbind outcome_bind].
      rewrite (bool_decide_true (CpBlocked = CpBlocked)) by done. cbn. by rewrite HN.
    + destruct (step_join N claim st Src ex copied q peer CK Hq Epeer Efl) as (N1 & N' & HJ & HD & R).
      exists N', CpJoined. split; [|done]. rewrite HJ. cbn [mbind outcome_bind].
      rewrite (bool_decide_false (CpJoined = CpBlocked)) by done. by rewrite HD.
  - destruct (advance_shape_spec N claim st Src ex copied q shape source topology CK Hq HS Hp)
      as [[blockage HA]|(n & s & k & d & -> & Hk & Hord & Hd & _ & HA)].
    + destruct (finish_blocked N claim st Src ex copied blockage CK) as (N' & HN & R). exists N', CpBlocked. split; [|done].
      rewrite HA. cbn [mbind outcome_bind]. rewrite (bool_decide_true (CpBlocked = CpBlocked)) by done. cbn. by rewrite HN.
    + destruct (step_materialize N claim st Src ex copied n s k d CK Hq Hk Hord Hd) as (N1 & N' & HM & HD & R).
      exists N', (CpMaterialized (next_node_id N)). split; [|done]. rewrite (HA _ _ HM). cbn [mbind outcome_bind].
      rewrite bool_decide_false by done. by rewrite HD.
Qed.

(** C21. One step of a claimed cursor of a copy that follows its source. The
    source is inspected and the claim finished without a panic; the target
    stays well formed; and the step did one of three things. It copied the
    source node behind the anchor, which had not been copied before, in the
    place of the cursor, with a cursor for each auxiliary port and the fan's
    sites renamed; it joined the cursor that stands for the other end of the
    source wire, connecting what faced the two; or it changed nothing but the
    state of the claim. The copy then follows its source again, and so does
    every other copy in the target. *)
Theorem cursor_step_correct N claim st Src ex copied source topology :
  claim_ok N claim st Src ex copied ->
  exists frontier N' progress, inspect_source_frontier Src source topology (claim_remote claim) = Ok frontier /\
    finish_cursor_claim N claim frontier = Ok (N', progress) /\ net_wf N' /\
    progressed N claim st Src ex copied N' progress /\ others_kept N (claim_copy claim) N'.
Proof.
  intros CK. destruct (claim_frontier _ _ _ _ _ _ CK) as [Hf [q Hq]].
  destruct (inspect_spec Src source topology _ q (nw_graph _ (ck_source _ _ _ _ _ _ CK)) Hq (ck_spine _ _ _ _ _ _ CK))
    as (shape & HI & Hp & HS).
  destruct (finish_spec N claim st Src ex copied q shape source topology CK Hq HS Hp) as (N' & progress & R).
  by eexists _, N', progress.
Qed.

End finishing.

(** ** Copies and reductions *)
Section tracking.
Context {S : NetSpecialization} {P : PayloadDuplicator S}.
Implicit Types (N Src : RuntimeNet) (n c m key : nat) (r : Port).

(** A pair that may be reduced. *)
Record reducible N key : Prop := {
  re_ready : active N !! key = Some ApReady;
  re_quiet : forall l m, pair_nodes N key = Some (l, m) -> quiet N l m;
  re_room : room N;
}.

Lemma reducible_spec N key N' red :
  net_wf N -> reducible N key -> reduce_pair N key = Ok (N', red) -> exists kind, reduced N key N' kind.
Proof.
  intros W [H1 H2 H3] H. destruct (reduce_pair_spec N key W H3 H1 H2) as (N2 & kind & H4 & H5).
  rewrite H in H4. injection H4 as -> _. by exists kind.
Qed.

(** The nodes of a pair face each other. *)
Lemma pair_nodes_face N key l m :
  graph_ok N -> pair_nodes N key = Some (l, m) -> forall n, on_pair l m n -> exists j s, reference N (principal n) = Some (MkSignedPort (principal j) s).
Proof.
  intros G H n Hn. unfold pair_nodes, neighbor in H. destruct (reference N (principal key)) as [[q s]|] eqn:E; [|done]. cbn in H.
  destruct (is_principal q) eqn:Eq; [|done]. case_bool_decide; [done|]. cbn in H. injection H as <- <-.
  apply is_principal_spec in Eq. rewrite Eq in E. destruct Hn as [-> | ->]; [by eauto|].
  apply (go_sym _ G) in E. eauto.
Qed.

(** The copied part of the source and the exposed interface are on no pair. *)
Lemma copied_unpaired N st Src ex copied key l m :
  net_wf Src -> copy_ok N st Src ex copied -> pair_nodes Src key = Some (l, m) ->
  ~ on_pair l m (node ex) /\ (forall n, n ∈ copied -> ~ on_pair l m n) /\
  forall r, anchored ex copied r -> ~ on_pair l m (node r).
Proof.
  intros W CO Hp. pose proof (nw_exposed _ W _ (co_exposed _ _ _ _ _ CO)) as [Hi Hx].
  assert (Hex : ~ on_pair l m (node ex)).
  { intros Hon. destruct (pair_nodes_face _ _ _ _ (nw_graph _ W) Hp _ Hon) as (j & s & Hr).
    destruct (nw_nodes _ W _ _ Hx) as [H0 _]. apply own_sign in Hr. unfold principal in Hr. congruence. }
  assert (Hco : forall n, n ∈ copied -> ~ on_pair l m n).
  { intros n Hn Hon. destruct (pair_nodes_face _ _ _ _ (nw_graph _ W) Hp _ Hon) as (j & s & Hr).
    destruct (co_copied _ _ _ _ _ CO n Hn) as (k & r & s' & _ & _ & Hr' & Ha). rewrite Hr in Hr'. injection Hr' as <- _.
    destruct Ha as [<-|[_ Ha]]; done. }
  split; [done|]. split; [done|]. intros r [->|[Hr _]]; auto.
Qed.

(** A copy outlives a reduction of its source. *)
Lemma source_reduced N st Src ex copied key Src' kind :
  net_wf Src -> copy_ok N st Src ex copied -> reduced Src key Src' kind -> copy_ok N st Src' ex copied.
Proof.
  intros W CO RD.
  assert (Hex : rt_exposed Src' = Some ex) by (rewrite (sr_exposed _ _ (rd_rest _ _ _ _ RD)); apply CO).
  assert (Hkeep : (forall n k r s, n ∈ copied -> node_at Src n = Some k -> reference Src (principal n) = Some (MkSignedPort r s) ->
      anchored ex copied r -> node_at Src' n = Some k /\ reference Src' (principal n) = Some (MkSignedPort r s)) /\
    (forall r, anchored ex copied r -> own Src' r = own Src r)).
  { destruct (consumes_pair kind) eqn:Ek.
    - destruct (rd_rewrite _ _ _ _ RD Ek) as (_ & m & Hp & _ & _ & Hn & Hr & Ho).
      destruct (copied_unpaired _ _ _ _ _ _ _ _ W CO Hp) as (H1 & H2 & H3). split.
      + intros n k r s Hin Hk Hpr Ha. split; [|by apply Hr; [apply H2|apply H3|]].
        rewrite Hn; [done| |by apply H2]. apply (go_fresh _ (nw_graph _ W)). by rewrite Hk.
      + intros r Ha. apply Ho; [|by apply H3]. destruct Ha as [->|[Hin _]].
        * apply (go_fresh _ (nw_graph _ W)). destruct (nw_exposed _ W _ (co_exposed _ _ _ _ _ CO)) as [_ Hx]. by rewrite Hx.
        * destruct (co_copied _ _ _ _ _ CO _ Hin) as (k & _ & _ & Hk & _). apply (go_fresh _ (nw_graph _ W)). by rewrite Hk.
    - destruct (rd_pending _ _ _ _ RD Ek) as [Hn _]. split; [|intros; by apply own_nodes].
      intros n k r s _ H1 H2 _. unfold node_at, reference in *. by rewrite Hn. }
  destruct Hkeep as [Hk Ho]. split; [done|..].
  - intros n Hin. destruct (co_copied _ _ _ _ _ CO n Hin) as (k & r & s & H1 & H2 & H3 & H4). exists k, r, s.
    destruct (Hk n k r s Hin H1 H3 H4). done.
  - apply CO.
  - intros r c Hf. rewrite Ho by (by eapply (co_anchor _ _ _ _ _ CO)). by apply (co_sign _ _ _ _ _ CO).
  - intros n r s Hin Hr. destruct (co_copied _ _ _ _ _ CO n Hin) as (k & r' & s' & H1 & H2 & H3 & H4).
    destruct (Hk n k r' s' Hin H1 H3 H4) as [_ Hr']. rewrite Hr in Hr'. injection Hr' as -> ->.
    by eapply (co_consumed _ _ _ _ _ CO).
  - apply CO.
Qed.

(** A copy outlives a reduction of its target. *)
Lemma target_reduced N cp st Src ex copied key N' kind :
  net_wf N -> copies N !! cp = Some st -> copy_ok N st Src ex copied -> reduced N key N' kind ->
  copies N' !! cp = Some st /\ copy_ok N' st Src ex copied.
Proof.
  intros W Hst CO RD. pose proof (rd_rest _ _ _ _ RD) as [_ Hfan _ Hcp]. rewrite Hcp. split; [done|].
  eapply copy_ok_frame; [done| |lia]. intros r c Hf.
  destruct (consumes_pair kind) eqn:Ek; [|apply own_nodes, (rd_pending _ _ _ _ RD Ek)].
  destruct (rd_rewrite _ _ _ _ RD Ek) as (_ & m & Hp & H1 & H2 & Hn & Hr & Ho).
  assert (Hc : node_at N' c = Some (RRemoteCursor cp r)).
  { eapply (proj1 (nw_frontiers _ (rd_wf _ _ _ _ RD))); [|done]. by rewrite Hcp. }
  apply Ho.
  - apply (go_fresh _ (nw_graph _ W)). cbn. by rewrite (proj1 (nw_frontiers _ W) _ _ _ _ Hst Hf).
  - cbn. intros [-> | ->]; congruence.
Qed.

(** A copy in progress and the two nets it lies between: reducing any
    pair of the source, copied or not yet, or any pair of the target keeps
    the copy in step. The part of the source already copied never takes part
    in a reduction, so what was copied stays a copy. *)
Theorem copy_tracks_reductions N cp st Src ex copied :
  net_wf N -> net_wf Src -> copies N !! cp = Some st -> copy_ok N st Src ex copied ->
  (forall key Src' red, reducible Src key -> reduce_pair Src key = Ok (Src', red) ->
     net_wf Src' /\ copy_ok N st Src' ex copied) /\
  (forall key N' red, reducible N key -> reduce_pair N key = Ok (N', red) ->
     net_wf N' /\ copies N' !! cp = Some st /\ copy_ok N' st Src ex copied).
Proof.
  intros W WS Hst CO. split; intros key N' red HR H.
  - destruct (reducible_spec _ _ _ _ WS HR H) as [kind RD]. split; [apply RD|exact (source_reduced _ _ _ _ _ _ _ _ WS CO RD)].
  - destruct (reducible_spec _ _ _ _ W HR H) as [kind RD]. split; [apply RD|exact (target_reduced _ _ _ _ _ _ _ _ _ W Hst CO RD)].
Qed.

End tracking.
