(* ===== verification/CopyStart.v ===== *)
(** * Starting copies

    A claimed call on a net's function, or on an emptied checkpoint, is
    resumed by a cursor at the function's exposed port: the callable is
    removed and the bind faces the new cursor. The file shows that the start
    never panics, keeps the target well formed and gives a copy that follows
    its source. *)
From stdpp Require Import base option list numbers gmap fin_maps tactics.
From Stdlib Require Import ZArith Lia.
From S2P Require Import Prelude NetModel RuntimeGraph Boundary Rewrite Calls FanSites WholeCopy Copies CopyInvariant.

Section starting.
Context {S : NetSpecialization} {P : PayloadDuplicator S}.
Implicit Types (N Src : RuntimeNet) (key l m c : nat) (r : Port).

(** Copy IDs not yet handed out are not in use. *)
Definition copies_fresh N : Prop := forall cp, is_Some (copies N !! cp) -> (cp < next_copy_id N)%Z.

(** The net with the callable [m] gone and the bind's principal free. *)
Record severed N l m N' : Prop := {
  sv_graph : graph_ok N';
  sv_active : active_ok N' None;
  sv_nodes : forall n, node_at N' n = if decide (n = m) then None else node_at N n;
  sv_refs : forall p, reference N' p = if decide (p = principal l \/ p = principal m) then None else reference N p;
  sv_next : next_node_id N' = next_node_id N;
  sv_states : active N' = delete (active_pair_key l m) (active N);
  sv_obligations : cursor_obligations N' = cursor_obligations N;
  sv_rest : same_rest N N';
}.

Lemma sever N key l m kr :
  claimed N key l m RBind kr -> is_cursor kr = false -> aux_count kr = 0 ->
  exists N1 N2, disconnect (unpaired N l m) (principal l) = Ok (N1, Some (principal m)) /\
    remove_node N1 m = Ok (N2, kr) /\ severed N l m N2.
Proof.
  intros C Hcur Haux. destruct (claimed_ready _ _ _ _ _ _ C) as (_ & WU & _ & _).
  destruct C as [W Hroom _ Hkey _ [s Hp] Hl Hr].
  destruct (disconnect_spec (unpaired N l m) _ _ (nw_graph _ WU) Hp) as (N1 & H1 & G1 & Hrl & Ha1 & Ho1).
  pose proof Hrl as (Hn1 & Hr1 & Hx1 & Hs1). cbn [port] in *.
  destruct (remove_node_spec N1 m kr G1) as (N2 & H2 & G2 & Hn2 & Hr2 & Hx2 & Hs2 & Ha2 & Ho2).
  { by rewrite Hn1. }
  { intros i. rewrite Hr1. case_decide as Hd; [done|]. apply reference_invalid. intros (k & Hk & Hi). cbn in Hk, Hi.
    change (node_at N m = Some k) in Hk. rewrite Hr in Hk. injection Hk as <-. apply Hd. right. unfold principal. f_equal.
    unfold aux_count in Haux. lia. }
  exists N1, N2. do 2 (split; [done|]). split; try done.
  - intros k. assert (Hpw : pwire N2 k <-> pwire N1 k) by (unfold pwire; by setoid_rewrite Hr2).
    rewrite Hpw, (pwire_cut (unpaired N l m) N1 _ _ k (nw_graph _ WU) Hp Hrl), Ha2, Ha1. cbn.
    rewrite lookup_delete_is_Some, (nw_active _ W k). cbn.
    split; [intros [Hk [|Hk2]]; [done|]; right; split; [done|]; intros (_ & _ & ->); done|].
    intros [|[Hk Hk2]]; [done|]. split; [|by right]. intros <-. by apply Hk2.
  - intros n. rewrite Hn2. case_decide; [done|]. apply Hn1.
  - intros p. rewrite Hr2, Hr1. done.
  - rewrite Hx2. by rewrite Hx1.
  - rewrite Ha2, Ha1. done.
  - rewrite Ho2, Ho1. cbn. apply delete_id. pose proof (ordinary_not_obligated N m kr W Hr Hcur) as Hno.
    unfold obligated in Hno. by apply eq_None_not_Some.
  - eapply same_rest_trans; [|exact Hs2]. destruct Hs1. by split.
Qed.

(** The target after a copy was started for the bind [l]. *)
Record started N l m (source : RuntimeSource) r N' c : Prop := {
  st_wf : net_wf N';
  st_cursor : c = next_node_id N /\ node_at N' c = Some (RRemoteCursor (next_copy_id N) r);
  (** The bind faces the cursor, in a ready pair. *)
  st_pair : reference N' (principal l) = Some (MkSignedPort (principal c) Provides) /\
    active N' !! active_pair_key c l = Some ApReady;
  st_states : forall k, k <> active_pair_key l m ->
    active N' !! k = active N !! k \/ active N !! k = None /\ active N' !! k = Some ApReady;
  st_gone : node_at N' m = None;
  st_nodes : forall n, n <> c -> n <> m -> node_at N' n = node_at N n;
  st_refs : forall p, p <> principal l -> p <> principal m -> p <> principal c -> reference N' p = reference N p;
  st_copies : copies N' = <[next_copy_id N := MkCopyState source {[r := c]} ∅]> (copies N);
  st_ids : next_copy_id N' = (next_copy_id N + 1)%Z /\ copies_fresh N';
}.

Lemma begin_cursor_copy_spec N source r :
  graph_ok N -> copies_fresh N -> (next_copy_id N + 1 <= usize_max)%Z -> (Z.of_nat (next_node_id N) < u64_max)%Z ->
  exists N', begin_cursor_copy N source r = Ok (N', next_node_id N) /\ graph_ok N' /\
    (forall n, node_at N' n = if decide (n = next_node_id N) then Some (RRemoteCursor (next_copy_id N) r) else node_at N n) /\
    (forall p, reference N' p = reference N p) /\ next_node_id N' = next_node_id N + 1 /\
    next_copy_id N' = (next_copy_id N + 1)%Z /\ next_fan_site N' = next_fan_site N /\ rt_exposed N' = rt_exposed N /\
    copies N' = <[next_copy_id N := MkCopyState source {[r := next_node_id N]} ∅]> (copies N) /\
    active N' = active N /\ cursor_obligations N' = cursor_obligations N.
Proof.
  intros G HF Hid Hroom. unfold begin_cursor_copy. rewrite checked_add_fits by done. cbn [expect mbind outcome_bind].
  rewrite bool_decide_true.
  2: { cbn. destruct (copies N !! next_copy_id N) eqn:E; [|done]. specialize (HF _ ltac:(by rewrite E)). lia. }
  cbn [rust_assert mbind outcome_bind].
  set (N1 := with_copies _ _).
  destruct (add_node_spec N1 (RRemoteCursor (next_copy_id N) r)) as (N2 & H2 & G2 & Hn2 & Hr2 & Hx2 & [S1 S2 S3 S4] & Ha2 & Ho2).
  { by apply (graph_ok_same N). } { done. }
  rewrite H2. cbn [mbind outcome_bind]. rewrite S4. cbn [N1 with_copies copies]. rewrite lookup_insert_eq. cbn [expect mbind outcome_bind].
  eexists. split; [done|]. split; [by apply (graph_ok_same N2)|]. do 6 (split; [done|]). split; [|done].
  cbn [with_copies copies copy_source frontiers fan_sites with_copy_id]. by rewrite insert_insert_eq.
Qed.

Section installed.
Context (N : RuntimeNet) (l m : nat) (kr : RuntimeNode Data Operator Checkpoint) (key : nat) (source : RuntimeSource) (r : Port).
Context (N2 : RuntimeNet).
Hypothesis C : claimed N key l m RBind kr.
Hypothesis Hkr : is_cursor kr = false.
Hypothesis Hown : own N (principal l) = Some Consumes.
Hypothesis HF : copies_fresh N.
Hypothesis Hid : (next_copy_id N + 1 <= usize_max)%Z.
Hypothesis SV : severed N l m N2.

Local Notation c := (next_node_id N).

Lemma call_nodes : l < c /\ m < c /\ l <> m.
Proof.
  pose proof (nw_graph _ (cl_wf _ _ _ _ _ _ C)) as G. destruct C as [W _ _ _ _ [s Hp] Hl Hr].
  split; [apply (go_fresh _ G); by rewrite Hl|]. split; [apply (go_fresh _ G); by rewrite Hr|].
  intros Heq. rewrite Heq in Hp. by apply (sym_not_self _ _ _ G) in Hp.
Qed.

(** Adding the cursor and wiring it to the bind. *)
Lemma install_wired :
  exists N', install_copy N2 (PcsCursor source r) (MkSignedPort (principal l) Consumes) = Ok (N', c) /\
    graph_ok N' /\ active_ok N' None /\
    (forall n, node_at N' n = if decide (n = c) then Some (RRemoteCursor (next_copy_id N) r) else
       if decide (n = m) then None else node_at N n) /\
    (forall p, reference N' p = if decide (p = principal c) then Some (MkSignedPort (principal l) Consumes) else
       if decide (p = principal l) then Some (MkSignedPort (principal c) Provides) else
       if decide (p = principal m) then None else reference N p) /\
    next_copy_id N' = (next_copy_id N + 1)%Z /\ next_fan_site N' = next_fan_site N /\ rt_exposed N' = rt_exposed N /\
    copies N' = <[next_copy_id N := MkCopyState source {[r := c]} ∅]> (copies N) /\
    (forall k, k <> active_pair_key l m ->
       active N' !! k = active N !! k \/ active N !! k = None /\ active N' !! k = Some ApReady) /\
    active N' !! active_pair_key c l = Some ApReady.
Proof.
  destruct call_nodes as (Hlc & Hmc & Hlm). destruct C as [W Hroom _ _ _ _ Hl Hr]. destruct (sv_rest _ _ _ _ SV) as [R1 R2 R3 R4].
  unfold room in Hroom. pose proof (sv_next _ _ _ _ SV) as Hx.
  destruct (begin_cursor_copy_spec N2 source r (sv_graph _ _ _ _ SV)) as (N3 & H3 & G3 & Hn3 & Hr3 & Hx3 & Hc3 & Hf3 & He3 & Hcp3 & Ha3 & Ho3).
  { intros cp. rewrite R3, R4. apply HF. } { by rewrite R3. } { lia. }
  rewrite Hx, R3, ?R4 in *.
  assert (Hq : forall x, x = c \/ x = l -> ~ obligated N3 x).
  { intros x Hxx [o Ho]. destruct (go_obligations _ G3 _ _ Ho) as (_ & (cp & rm & Hcur) & _).
    rewrite Ho3, (sv_obligations _ _ _ _ SV) in Ho. destruct (go_obligations _ (nw_graph _ W) _ _ Ho) as (_ & (cp' & rm' & Hcur') & _).
    destruct Hxx as [-> | ->]; [|congruence]. pose proof (go_fresh _ (nw_graph _ W) c ltac:(by rewrite Hcur')). lia. }
  destruct (wire_claimed N3 OwnObligation (MkSignedPort (principal c) Provides) (MkSignedPort (principal l) Consumes) G3)
    as (N4 & H4 & G4 & P4 & (Hn4 & Hr4 & Hx4 & [Q1 Q2 Q3 Q4]) & Ho4 & _ & Hst4).
  { split; [|done]. intros k. assert (Hpw : pwire N3 k <-> pwire N2 k) by (unfold pwire; by setoid_rewrite Hr3).
    rewrite Hpw, Ha3. apply SV. }
  { split; cbn [port sign].
    - intros [=]. lia.
    - exists (RRemoteCursor (next_copy_id N) r). rewrite Hn3, decide_True by done. split; [done|cbn; lia].
    - exists RBind. rewrite Hn3, decide_False by (cbn; lia). rewrite (sv_nodes _ _ _ _ SV), decide_False by done. split; [done|cbn; lia].
    - rewrite Hr3, (sv_refs _ _ _ _ SV). case_decide; [done|]. apply (unwired_fresh N); [apply W|lia].
    - rewrite Hr3, (sv_refs _ _ _ _ SV), decide_True by auto. done.
    - done.
    - intros _. cbn. auto. }
  exists N4. split; [unfold install_copy; rewrite H3; cbn [mbind outcome_bind]; unfold bind_reference; cbn [sign opposite]; by rewrite H4|].
  split; [done|]. split; [apply P4|]. split; [intros n; by rewrite Hn4, Hn3, (sv_nodes _ _ _ _ SV)|]. split.
  { intros p. rewrite Hr4. cbn [port]. case_decide; [done|]. case_decide; [done|]. rewrite Hr3, (sv_refs _ _ _ _ SV).
    destruct (decide (p = principal m)); [by rewrite decide_True by auto|]. by rewrite decide_False by tauto. }
  split; [congruence|]. split; [congruence|]. split; [congruence|]. split; [congruence|].
  assert (Hold : forall k, active N3 !! k = if decide (k = active_pair_key l m) then None else active N !! k).
  { intros k. rewrite Ha3, (sv_states _ _ _ _ SV). case_decide; [subst; apply lookup_delete_eq|by rewrite lookup_delete_ne]. }
  split.
  - intros k Hk. specialize (Hst4 k ltac:(done)). by rewrite Hold, decide_False in Hst4.
  - assert (Hnone : active N3 !! active_pair_key c l = None).
    { apply eq_None_not_Some. intros Hs. rewrite Ha3 in Hs. apply (sv_active _ _ _ _ SV) in Hs as [|(x & s & Hx' & _)]; [done|].
      unfold active_pair_key in Hx'. rewrite Nat.min_r in Hx' by lia. by rewrite (sv_refs _ _ _ _ SV), decide_True in Hx' by auto. }
    assert (Hsome : is_Some (active N4 !! active_pair_key c l)).
    { apply (po_active _ _ P4). right. unfold active_pair_key. rewrite Nat.min_r by lia. exists c, Provides.
      rewrite Hr4. cbn. rewrite decide_False, decide_True by (done || (intros [=]; lia)). split; [done|lia]. }
    destruct (Hst4 (active_pair_key c l) ltac:(done)) as [He|[_ He]]; [|done]. rewrite Hnone in He. rewrite He in Hsome. by destruct Hsome.
Qed.

Lemma install_started :
  exists N', install_copy N2 (PcsCursor source r) (MkSignedPort (principal l) Consumes) = Ok (N', c) /\
    started N l m source r N' c /\
    (forall p, node p <> m -> node p <> c -> own N' p = own N p) /\ next_fan_site N' = next_fan_site N.
Proof.
  destruct install_wired as (N' & H & G & A & Hn & Hr & Hid' & Hfs & Hex & Hcp & Hst & Hnew). destruct call_nodes as (Hlc & Hmc & Hlm).
  pose proof (cl_wf _ _ _ _ _ _ C) as W. destruct C as [_ _ _ _ _ _ Hl Hm].
  assert (Hno : copies N !! next_copy_id N = None).
  { apply eq_None_not_Some. intros Hs. specialize (HF _ Hs). lia. }
  assert (Ho : forall p, node p <> m -> node p <> c -> own N' p = own N p).
  { intros p H1 H2. destruct (decide (p = principal l)) as [->|Hp].
    - rewrite Hown. unfold own, signed. rewrite Hr, decide_False, decide_True by (done || (intros [=]; lia)). done.
    - unfold own, signed. rewrite Hr, !decide_False; [done|intros ->; done|done|intros ->; done]. }
  exists N'. split; [done|]. split; [|done]. split.
  - split; [split; [done|..]|done].
    + intros n k Hk. rewrite Hn in Hk. case_decide as Hd; [|case_decide as Hd2; [done|]].
      * subst n. injection Hk as <-. cbn. unfold own, signed. rewrite Hr, decide_True by done. done.
      * eapply node_wf_proper; [intros i; by apply (Ho (MkPort n i))|]. by apply (nw_nodes _ W).
    + intros p Hp. rewrite Hex in Hp. destruct (nw_exposed _ W p Hp) as [Hi Hk]. split; [done|]. rewrite Hn, !decide_False; [done| |].
      * intros Heq. rewrite Heq, Hm in Hk. injection Hk as ->. pose proof (nw_nodes _ W _ _ Hm) as [H0 _].
        destruct (cl_pair _ _ _ _ _ _ C) as [s Hpair]. apply (go_sym _ (nw_graph _ W)), own_sign in Hpair. unfold principal in Hpair. congruence.
      * pose proof (go_fresh _ (nw_graph _ W) (node p) ltac:(by rewrite Hk)). lia.
    + destruct (nw_frontiers _ W) as [F1 F2]. split.
      * intros cp st rm cur Hc Hfr. rewrite Hcp in Hc. apply lookup_insert_Some in Hc as [[<- <-]|[Hne Hc]].
        -- cbn in Hfr. apply lookup_singleton_Some in Hfr as [<- <-]. by rewrite Hn, decide_True.
        -- pose proof (F1 _ _ _ _ Hc Hfr) as Hcur. rewrite Hn, !decide_False; [done| |].
           { intros ->. rewrite Hm in Hcur. injection Hcur as ->. done. }
           pose proof (go_fresh _ (nw_graph _ W) cur ltac:(by rewrite Hcur)). lia.
      * intros cur cp rm Hcur. rewrite Hcp. rewrite Hn in Hcur. case_decide as Hd; [|case_decide; [done|]].
        -- injection Hcur as <- <-. eexists. rewrite lookup_insert_eq. split; [done|]. cbn. subst cur. apply lookup_singleton_eq.
        -- destruct (F2 _ _ _ Hcur) as (st & H1 & H2). exists st. rewrite lookup_insert_ne by congruence. done.
  - split; [done|]. by rewrite Hn, decide_True.
  - split; [|done]. rewrite Hr, decide_False, decide_True by (done || (intros [=]; lia)). done.
  - done.
  - rewrite Hn, decide_False, decide_True by lia. done.
  - intros n H1 H2. by rewrite Hn, !decide_False.
  - intros p H1 H2 H3. by rewrite Hr, !decide_False.
  - done.
  - split; [done|]. intros cp Hc. rewrite Hid'. rewrite Hcp in Hc. destruct (decide (cp = next_copy_id N)) as [->|Hne]; [lia|].
    rewrite lookup_insert_ne in Hc by done. specialize (HF _ Hc). lia.
Qed.

End installed.

(** The copies of the target after a start: the new one stands at its source's
    exposed port, the others are where they were. *)
Definition copies_started N Src r N' c : Prop :=
  (exists st, copies N' !! next_copy_id N = Some st /\ frontiers st = {[r := c]} /\ copy_ok N' st Src r ∅) /\
  forall cp2 st2 Src2 ex2 copied2, copies N !! cp2 = Some st2 -> copy_ok N st2 Src2 ex2 copied2 ->
    copies N' !! cp2 = Some st2 /\ copy_ok N' st2 Src2 ex2 copied2.

Lemma started_copies N key l m kr source r N' c Src :
  claimed N key l m RBind kr -> is_cursor kr = false -> copies_fresh N -> started N l m source r N' c ->
  (forall p, node p <> m -> node p <> c -> own N' p = own N p) -> next_fan_site N' = next_fan_site N ->
  net_wf Src -> rt_exposed Src = Some r -> copies_started N Src r N' c.
Proof.
  intros C Hkr HF ST Ho Hfs WS Hex. pose proof (cl_wf _ _ _ _ _ _ C) as W. destruct (st_cursor _ _ _ _ _ _ _ ST) as [Hc Hcn]. split.
  - eexists. rewrite (st_copies _ _ _ _ _ _ _ ST), lookup_insert_eq. split; [done|]. split; [done|]. split; cbn.
    + done.
    + intros n Hn. by apply not_elem_of_empty in Hn.
    + intros q cur [<- <-]%lookup_singleton_Some. by left.
    + intros q cur [<- <-]%lookup_singleton_Some. exists Consumes. split.
      * destruct (nw_exposed _ WS _ Hex) as [Hi Hn]. destruct (nw_nodes _ WS _ _ Hn) as [_ H1]. destruct r as [rn ri]. cbn in *. by subst ri.
      * destruct (st_pair _ _ _ _ _ _ _ ST) as [Hp _]. apply (go_sym _ (nw_graph _ (st_wf _ _ _ _ _ _ _ ST))) in Hp. by apply own_sign in Hp.
    + intros n q s Hn. by apply not_elem_of_empty in Hn.
    + exists (next_fan_site N'). split; [lia|done..].
  - intros cp2 st2 Src2 ex2 copied2 H2 CO2. split.
    + rewrite (st_copies _ _ _ _ _ _ _ ST), lookup_insert_ne; [done|]. specialize (HF cp2 ltac:(by rewrite H2)). lia.
    + eapply copy_ok_frame; [done| |lia]. intros q cur Hf. pose proof (proj1 (nw_frontiers _ W) _ _ _ _ H2 Hf) as Hcur.
      apply Ho; cbn.
      * intros ->. rewrite (cl_right _ _ _ _ _ _ C) in Hcur. by injection Hcur as ->.
      * pose proof (go_fresh _ (nw_graph _ W) cur ltac:(by rewrite Hcur)). lia.
Qed.

Lemma signed_own N p s : own N p = Some s -> signed N p = Some (MkSignedPort p s).
Proof. unfold own, signed. destruct (reference N p); [|done]. cbn. by intros [= ->]. Qed.

(** A called bind consumes its function. *)
Lemma call_consumes N key l m d : claimed N key l m RBind (RData d) -> own N (principal l) = Some Consumes.
Proof.
  intros C. destruct (cl_pair _ _ _ _ _ _ C) as [s Hp]. pose proof (nw_nodes _ (cl_wf _ _ _ _ _ _ C) _ _ (cl_right _ _ _ _ _ _ C)) as Hd.
  pose proof (go_sym _ (nw_graph _ (cl_wf _ _ _ _ _ _ C)) _ _ _ Hp) as Hb. apply own_sign in Hp, Hb. cbn in *. unfold principal in *.
  rewrite Hp. rewrite Hd in Hb. injection Hb as Hb. destruct s; done.
Qed.

(** Attaching a copy to a call is installing it in the severed net. *)
Lemma attach_call_severed N call d source N1 N2 :
  claimed N (call_pair call) (call_bind call) (call_data call) RBind (RData d) ->
  disconnect (unpaired N (call_bind call) (call_data call)) (principal (call_bind call)) = Ok (N1, Some (principal (call_data call))) ->
  remove_node N1 (call_data call) = Ok (N2, RData d) -> own N (principal (call_bind call)) = Some Consumes ->
  resume_claimed_call_with_copy N call source = install_copy N2 source (MkSignedPort (principal (call_bind call)) Consumes).
Proof.
  intros C H1 H2 Hown. set (l := call_bind call) in *. set (m := call_data call) in *.
  destruct (claimed_ready _ _ _ _ _ _ C) as (Hcl & _). unfold resume_claimed_call_with_copy, attach_call_to_copy, remove_claimed. rewrite Hcl.
  cbn [rust_assert mbind outcome_bind]. rewrite (cl_key _ _ _ _ _ _ C). fold l m. change (with_active N _) with (unpaired N l m).
  change (signed (unpaired N l m)) with (signed N). rewrite (signed_own _ _ _ Hown).
  cbn [expect mbind outcome_bind]. rewrite H1. cbn [mbind outcome_bind]. rewrite bool_decide_true by done.
  cbn [rust_assert mbind outcome_bind]. rewrite H2. cbn [rust_assert mbind outcome_bind]. done.
Qed.

Lemma resume_call_spec N call d source r Src :
  claimed N (call_pair call) (call_bind call) (call_data call) RBind (RData d) ->
  copies_fresh N -> (next_copy_id N + 1 <= usize_max)%Z -> net_wf Src -> rt_exposed Src = Some r ->
  exists N' c, resume_claimed_call_with_copy N call (PcsCursor source r) = Ok (N', c) /\
    started N (call_bind call) (call_data call) source r N' c /\ copies_started N Src r N' c.
Proof.
  intros C HF Hid WS Hex. pose proof (call_consumes _ _ _ _ _ C) as Hown.
  destruct (sever N _ _ _ _ C eq_refl eq_refl) as (N1 & N2 & H1 & H2 & SV).
  destruct (install_started N _ _ _ _ source r N2 C eq_refl Hown HF Hid SV) as (N' & HI & ST & Ho & Hfs).
  exists N', (next_node_id N). split; [|split; [done|by eapply started_copies]].
  by rewrite (attach_call_severed N call d _ N1 N2 C H1 H2 Hown).
Qed.

(** Resuming a claimed call with a copy of its net never panics: the
    function datum is gone, the bind faces a fresh cursor in a ready pair, the
    target is well formed, every other node and wire is as before, and the new
    copy stands at its source's exposed port with nothing copied yet, while
    the copies in progress go on. *)
Theorem call_resumed_with_copy N call d source r Src :
  claimed N (call_pair call) (call_bind call) (call_data call) RBind (RData d) ->
  copies_fresh N -> (next_copy_id N + 1 <= usize_max)%Z -> net_wf Src -> rt_exposed Src = Some r ->
  exists N' c, resume_claimed_call_with_copy N call (PcsCursor source r) = Ok (N', c) /\
    started N (call_bind call) (call_data call) source r N' c /\ copies_started N Src r N' c.
Proof. apply resume_call_spec. Qed.

Lemma checkpoint_copy_spec N call ck source r Src :
  claimed N (cc_pair call) (cc_bind call) (cc_checkpoint call) RBind (RCallableCheckpoint ck) ->
  own N (principal (cc_bind call)) = Some Consumes ->
  copies_fresh N -> (next_copy_id N + 1 <= usize_max)%Z -> net_wf Src -> rt_exposed Src = Some r ->
  if (generation ck =? cc_generation call)%Z && bool_decide (payload ck = None)
  then exists N' c, resume_claimed_checkpoint_with_copy N call (PcsCursor source r) = Ok (N', c) /\
    started N (cc_bind call) (cc_checkpoint call) source r N' c /\ copies_started N Src r N' c
  else resume_claimed_checkpoint_with_copy N call (PcsCursor source r) = Panic.
Proof.
  intros C Hown HF Hid WS Hex. set (l := cc_bind call) in *. set (m := cc_checkpoint call) in *.
  destruct (claimed_ready _ _ _ _ _ _ C) as (Hcl & _).
  assert (Hb : is_bind_node N l = true) by (unfold is_bind_node; by rewrite (cl_left _ _ _ _ _ _ C)).
  assert (Hc : checkpoint_at N m = Some ck) by apply checkpoint_at_node, C.
  unfold resume_claimed_checkpoint_with_copy, take_empty_claimed_checkpoint. fold l m. rewrite (signed_own _ _ _ Hown), Hcl, Hb, Hc.
  destruct (_ && _) eqn:Eg; cbn [negb orb expect mbind outcome_bind]; [|done].
  destruct (sever N _ l m _ C eq_refl eq_refl) as (N1 & N2 & H1 & H2 & SV).
  destruct (install_started N l m _ _ source r N2 C eq_refl Hown HF Hid SV) as (N' & HI & ST & Ho & Hfs).
  exists N', (next_node_id N). split; [|split; [done|by eapply started_copies]].
  rewrite (cl_key _ _ _ _ _ _ C). change (with_active N _) with (unpaired N l m).
  rewrite H1. cbn [mbind outcome_bind]. rewrite bool_decide_true by done.
  cbn [rust_assert mbind outcome_bind]. rewrite H2. cbn [rust_assert mbind outcome_bind]. exact HI.
Qed.

(** Resuming a claimed call on a checkpoint with a copy, the bind
    consuming its callable: once the checkpoint's payload has been taken under
    the call's generation, the copy starts as for a call; before that, or for
    a stale generation, the resumption panics. *)
Theorem checkpoint_resumed_with_copy N call ck source r Src :
  claimed N (cc_pair call) (cc_bind call) (cc_checkpoint call) RBind (RCallableCheckpoint ck) ->
  own N (principal (cc_bind call)) = Some Consumes ->
  copies_fresh N -> (next_copy_id N + 1 <= usize_max)%Z -> net_wf Src -> rt_exposed Src = Some r ->
  if (generation ck =? cc_generation call)%Z && bool_decide (payload ck = None)
  then exists N' c, resume_claimed_checkpoint_with_copy N call (PcsCursor source r) = Ok (N', c) /\
    started N (cc_bind call) (cc_checkpoint call) source r N' c /\ copies_started N Src r N' c
  else resume_claimed_checkpoint_with_copy N call (PcsCursor source r) = Panic.
Proof. apply checkpoint_copy_spec. Qed.

End starting.
