(* ===== verification/WholeCapture.v ===== *)
(** * What a whole copy captures

    The nodes reachable from a net's interface are collected within 64 turns;
    the capture records exactly that part of the source, and every source
    small enough and without evaluation left is captured. *)
From stdpp Require Import base option list numbers gmap fin_maps tactics.
From Stdlib Require Import ZArith Lia.
From S2P Require Import Prelude NetModel RuntimeGraph Boundary Rewrite FanSites WholeCopy.

(** ** Reaching *)
Section reaching.
Context {S : NetSpecialization} {P : PayloadDuplicator S}.
Implicit Types (N Src : RuntimeNet) (n : nat) (order : list nat) (positions : gmap nat nat).

Record indexed order positions : Prop := {
  ix_nodup : NoDup order;
  ix_positions : forall n i, positions !! n = Some i <-> order !! i = Some n;
  ix_length : length order <= WHOLE_COPY_MAX_NODES;
}.

(** Everything next to [n] by its first [count] ports is listed. *)
Definition closed_ports Src (itf : Port) order n (count : nat) : Prop :=
  forall i q, i < count -> neighbor Src (MkPort n i) = Some q -> q = itf \/ node q ∈ order.

Definition closed_node Src (itf : Port) order n : Prop :=
  exists k, node_at Src n = Some k /\ uncopyable k = false /\ closed_ports Src itf order n (runtime_port_count k).

(** Where the nodes come from. *)
Definition wired_in Src (itf : Port) order : Prop := forall n, n ∈ order -> is_Some (node_at Src n) /\ n <> node itf.

Lemma indexed_push order positions n :
  indexed order positions -> n ∉ order -> length order <> WHOLE_COPY_MAX_NODES ->
  indexed (order ++ [n]) (<[n := length order]> positions).
Proof.
  intros [H1 H2 H3] Hn Hl. split.
  - apply list.NoDup_app. split; [done|]. split; [|apply NoDup_singleton]. intros x Hx ->%list_elem_of_singleton. done.
  - intros m i. rewrite lookup_snoc_Some. destruct (decide (m = n)) as [->|Hne].
    + rewrite lookup_insert_eq. split; [intros [= <-]; by right|].
      intros [[_ Hi]|[-> _]]; [|done]. apply list_elem_of_lookup_2 in Hi. done.
    + rewrite lookup_insert_ne by done. rewrite H2. split; [|by intros [[_ ?]|[_ ?]]].
      intros Hi. left. split; [|done]. by apply lookup_lt_Some in Hi.
  - rewrite length_app. cbn. unfold WHOLE_COPY_MAX_NODES in *. lia.
Qed.

Lemma closed_ports_mono Src itf order order' n count :
  closed_ports Src itf order n count -> order ⊆ order' -> closed_ports Src itf order' n count.
Proof. intros H Hs i q Hi Hq. destruct (H i q Hi Hq); auto. Qed.

Definition grows (st st' : list nat * gmap nat nat) : Prop := exists more, fst st' = fst st ++ more.

Lemma grows_trans st1 st2 st3 : grows st1 st2 -> grows st2 st3 -> grows st1 st3.
Proof. intros [a Ha] [b Hb]. exists (a ++ b). by rewrite Hb, Ha, app_assoc. Qed.

(** A bound on the nodes that can be reached. *)
Definition small_enough Src : Prop := size (rt_nodes Src) <= WHOLE_COPY_MAX_NODES + 1.

(** A wired port of the interface's node is the interface. *)
Lemma interface_port Src itf p q s :
  net_wf Src -> rt_exposed Src = Some itf -> reference Src p = Some (MkSignedPort q s) -> q <> itf -> node q <> node itf.
Proof.
  intros W He Hp Hne Heq. destruct (nw_exposed _ W _ He) as [Hi Hk]. apply (go_sym _ (nw_graph _ W)) in Hp.
  pose proof (reference_valid _ _ _ Hp) as (k & Hk' & Hx). rewrite Heq, Hk in Hk'. injection Hk' as <-. cbn in Hx.
  destruct (nw_nodes _ W _ _ Hk) as [H0 _]. destruct q as [qn qi], itf as [jn ji]. cbn in *. subst. apply own_sign in Hp.
  destruct qi as [|[|]]; [congruence|done|lia].
Qed.

(** One port. *)
Lemma reach_port_spec Src itf n order positions i :
  net_wf Src -> rt_exposed Src = Some itf -> indexed order positions -> wired_in Src itf order ->
  match reach_port Src itf n (Some (order, positions)) i with
  | Some (order', positions') => indexed order' positions' /\ wired_in Src itf order' /\
      grows (order, positions) (order', positions') /\
      (forall q, neighbor Src (MkPort n i) = Some q -> q = itf \/ node q ∈ order')
  | None => length order = WHOLE_COPY_MAX_NODES /\
      exists q, neighbor Src (MkPort n i) = Some q /\ node q <> node itf /\ node q ∉ order
  end.
Proof.
  intros W He IX WI. cbn. destruct (neighbor Src (MkPort n i)) as [q|] eqn:Eq.
  2: { split; [done|]. split; [done|]. split; [exists []; by rewrite app_nil_r|done]. }
  case_bool_decide as Hq; cbn [orb].
  { subst q. split; [done|]. split; [done|]. split; [exists []; by rewrite app_nil_r|]. intros q [= <-]. by left. }
  case_bool_decide as Hp; cbn.
  { split; [done|]. split; [done|]. split; [exists []; by rewrite app_nil_r|]. intros q' [= <-]. right.
    destruct Hp as [j Hj%(ix_positions _ _ IX)]. by apply list_elem_of_lookup_2 in Hj. }
  assert (Hn : node q ∉ order).
  { intros [j Hj]%list_elem_of_lookup. apply Hp. exists j. by apply (ix_positions _ _ IX). }
  case_bool_decide as Hl.
  { split; [done|]. exists q. split; [done|]. split; [|done]. unfold neighbor in Eq.
    destruct (reference Src (MkPort n i)) as [[q' s]|] eqn:Er; [|done]. cbn in Eq. injection Eq as ->. by eapply interface_port. }
  split; [by apply indexed_push|]. split.
  - intros m [Hm| ->%list_elem_of_singleton]%elem_of_app; [by apply WI|].
    unfold neighbor in Eq. destruct (reference Src (MkPort n i)) as [[q' s]|] eqn:Er; [|done]. cbn in Eq. injection Eq as ->.
    split; [|by eapply interface_port]. apply (go_sym _ (nw_graph _ W)), reference_valid in Er as (k & Hk & _). by rewrite Hk.
  - split; [by exists [node q]|]. intros q' [= <-]. right. apply elem_of_app. right. by left.
Qed.

(** More reachable nodes than a whole copy holds. *)
Definition overfull Src (itf : Port) : Prop :=
  exists order, NoDup order /\ wired_in Src itf order /\ WHOLE_COPY_MAX_NODES < length order.

Lemma reach_ports_spec Src itf n : net_wf Src -> rt_exposed Src = Some itf -> forall count order positions,
  indexed order positions -> wired_in Src itf order ->
  match foldl (reach_port Src itf n) (Some (order, positions)) (seq 0 count) with
  | Some st => indexed (fst st) (snd st) /\ wired_in Src itf (fst st) /\ grows (order, positions) st /\
      closed_ports Src itf (fst st) n count
  | None => overfull Src itf
  end.
Proof.
  intros W He. induction count as [|count IH]; intros order positions IX WI.
  { cbn. split; [done|]. split; [done|]. split; [exists []; by rewrite app_nil_r|]. intros i q Hi. lia. }
  rewrite seq_S, foldl_app. cbn [foldl]. specialize (IH order positions IX WI).
  destruct (foldl _ _ _) as [[order1 positions1]|]; [|done]. destruct IH as (IX1 & WI1 & GR1 & CL1). cbn [fst snd] in *.
  pose proof (reach_port_spec Src itf n order1 positions1 (0 + count) W He IX1 WI1) as H.
  destruct (reach_port _ _ _ _ _) as [[order2 positions2]|].
  - destruct H as (IX2 & WI2 & GR2 & CL2). split; [done|]. split; [done|]. split; [by eapply grows_trans|].
    intros i q Hi Hq. destruct (decide (i = count)) as [->|]; [by apply CL2|].
    assert (Hsub : order1 ⊆ order2).
    { destruct GR2 as [more Hm]. cbn in Hm. rewrite Hm. intros x Hx. apply elem_of_app. by left. }
    apply (closed_ports_mono Src itf order1 order2 n count CL1 Hsub i q); [lia|done].
  - destruct H as (Hl & q & Hq & Hqi & Hqn). exists (order1 ++ [node q]). split; [|split].
    + apply list.NoDup_app. split; [apply IX1|]. split; [|apply NoDup_singleton]. intros x Hx ->%list_elem_of_singleton. done.
    + intros m [Hm| ->%list_elem_of_singleton]%elem_of_app; [by apply WI1|]. split; [|done].
      unfold neighbor in Hq. destruct (reference Src _) as [[q' s]|] eqn:Er; [|done]. cbn in Hq. injection Hq as ->.
      apply (go_sym _ (nw_graph _ W)), reference_valid in Er as (k & Hk & _). by rewrite Hk.
    + rewrite length_app. cbn. lia.
Qed.

(** The search ends: it is done, or has met a node that is not copied, or too
    many nodes. *)
Lemma reach_spec Src itf : net_wf Src -> rt_exposed Src = Some itf -> forall fuel order positions next,
  indexed order positions -> wired_in Src itf order -> WHOLE_COPY_MAX_NODES <= fuel + next -> next <= length order ->
  (forall j n, j < next -> order !! j = Some n -> closed_node Src itf order n) ->
  exists res, reach fuel Src itf (order, positions) next = Ok res /\
  match res with
  | Some st => indexed (fst st) (snd st) /\ wired_in Src itf (fst st) /\ grows (order, positions) st /\
      forall n, n ∈ fst st -> closed_node Src itf (fst st) n
  | None => overfull Src itf \/ exists n k, node_at Src n = Some k /\ n <> node itf /\ uncopyable k = true
  end.
Proof.
  intros W He fuel. assert (Hstop : forall order positions next, indexed order positions -> wired_in Src itf order ->
    (forall j n, j < next -> order !! j = Some n -> closed_node Src itf order n) -> order !! next = None ->
    indexed order positions /\ wired_in Src itf order /\ grows (order, positions) (order, positions) /\
    forall n, n ∈ order -> closed_node Src itf order n).
  { intros order positions next IX WI HC E. split; [done|]. split; [done|]. split; [exists []; by rewrite app_nil_r|].
    intros n [j Hj]%list_elem_of_lookup. apply (HC j n); [|done]. apply lookup_ge_None in E. apply lookup_lt_Some in Hj. lia. }
  induction fuel as [|fuel IH]; intros order positions next IX WI Hfuel Hnext HC; cbn [reach fst].
  - destruct (order !! next) eqn:E.
    + apply lookup_lt_Some in E. pose proof (ix_length _ _ IX). lia.
    + exists (Some (order, positions)). split; [done|]. by eapply Hstop.
  - destruct (order !! next) as [n|] eqn:E; [|exists (Some (order, positions)); split; [done|by eapply Hstop]].
    destruct (WI n) as [[k Hk] Hni]; [by apply list_elem_of_lookup_2 in E|]. rewrite Hk.
    destruct (uncopyable k) eqn:Eu; [exists None; split; [done|]; right; by exists n, k|].
    pose proof (reach_ports_spec Src itf n W He (runtime_port_count k) order positions IX WI) as H.
    destruct (foldl _ _ _) as [[order' positions']|]; [|exists None; split; [done|by left]].
    destruct H as (IX' & WI' & [more Hm] & CL). cbn [fst snd] in *. subst order'.
    assert (Hsub : order ⊆ order ++ more) by (intros x Hx; apply elem_of_app; by left).
    assert (Hlt : next < length order) by by apply lookup_lt_Some in E.
    destruct (IH (order ++ more) positions' (next + 1) IX' WI') as (res & Hres & HR).
    + lia.
    + rewrite length_app. lia.
    + intros j m Hj Hjm. destruct (decide (j = next)) as [->|].
      * rewrite lookup_app_l, E in Hjm by done. injection Hjm as <-. by exists k.
      * rewrite lookup_app_l in Hjm by lia. destruct (HC j m ltac:(lia) Hjm) as (k' & H1 & H2 & H3). exists k'. split; [done|].
        split; [done|]. by eapply closed_ports_mono.
    + exists res. split; [done|]. destruct res as [st|]; [|done]. destruct HR as (? & ? & HG & ?). split; [done|]. split; [done|].
      split; [|done]. apply (grows_trans _ (order ++ more, positions')); [by exists more|done].
Qed.

End reaching.

(** ** Capturing *)
Section capturing.
Context {S : NetSpecialization} {P : PayloadDuplicator S}.
Implicit Types (N Src : RuntimeNet) (n : nat) (order : list nat) (positions : gmap nat nat) (itf : Port).

(** A captured link names the peer by its position. *)
Definition link_ok Src itf order n (i : nat) (l : option WholeCopyLink) : Prop :=
  match reference Src (MkPort n i) with
  | None => l = None
  | Some q => if decide (port q = itf) then l = None
              else exists pos, order !! pos = Some (node (port q)) /\ l = Some (MkCopyLink pos (index (port q)) (sign q))
  end.

Definition node_captured Src itf order n (c : WholeCopyNode) : Prop :=
  exists k, node_at Src n = Some k /\ ordinary k = true /\
    duplicate_copyable duplicate_data duplicate_operator k = Some (wn_node c) /\
    length (wn_links c) = 3 /\ forall i l, wn_links c !! i = Some l -> link_ok Src itf order n i l.

Record captured Src itf order (copy : WholeCopy) : Prop := {
  wh_nodup : NoDup order;
  wh_length : length order <= WHOLE_COPY_MAX_NODES;
  wh_apart : node itf ∉ order;
  (** The first node faces the interface. *)
  wh_root : exists rn, order !! 0 = Some rn /\
    reference Src itf = Some (MkSignedPort (MkPort rn (wc_root copy)) (wc_root_sign copy));
  wh_nodes : Forall2 (node_captured Src itf order) order (wc_nodes copy);
}.

Lemma capture_link_spec Src itf order positions n k i :
  net_wf Src -> indexed order positions -> node_at Src n = Some k ->
  closed_ports Src itf order n (runtime_port_count k) ->
  exists l, capture_link Src itf positions n (runtime_port_count k) i = Ok l /\ link_ok Src itf order n i l.
Proof.
  intros W IX Hk CL. unfold capture_link, link_ok. case_bool_decide as Hi.
  2: { exists None. split; [done|]. rewrite reference_invalid; [done|]. intros (k' & Hk' & Hx). cbn in *. rewrite Hk in Hk'.
       injection Hk' as <-. done. }
  destruct (reference Src (MkPort n i)) as [q|] eqn:Eq; [|by exists None]. destruct (decide (port q = itf)) as [Hq|Hq].
  - rewrite bool_decide_true by done. by exists None.
  - rewrite bool_decide_false by done. destruct (CL i (port q) Hi) as [?|Hin]; [unfold neighbor; by rewrite Eq|done|].
    apply list_elem_of_lookup in Hin as [pos Hpos]. pose proof Hpos as Hpos'. apply (ix_positions _ _ IX) in Hpos'.
    rewrite Hpos'. cbn. eexists. split; [done|]. by exists pos.
Qed.

Lemma ordinary_copyable (k : RuntimeNode Data Operator Checkpoint) : uncopyable k = false -> ordinary k = true /\
  is_Some (duplicate_copyable duplicate_data duplicate_operator k).
Proof. destruct k; cbn; done || eauto. Qed.

Lemma capture_node_spec Src itf order positions n :
  net_wf Src -> indexed order positions -> closed_node Src itf order n ->
  exists c, capture_node Src itf positions n = Ok c /\ node_captured Src itf order n c.
Proof.
  intros W IX (k & Hk & Hu & CL). unfold capture_node. rewrite Hk. cbn [expect mbind outcome_bind].
  destruct (mapM_total (E:=Empty_set) (capture_link Src itf positions n (runtime_port_count k)) (link_ok Src itf order n) (seq 0 3))
    as (links & Hl & HF).
  { intros i _. by apply capture_link_spec. }
  destruct (ordinary_copyable k Hu) as [Ho [d Hd]]. rewrite Hl, Hd. cbn [expect mbind outcome_bind]. eexists. split; [done|].
  exists k. do 3 (split; [done|]). cbn. split; [by rewrite <- (list.Forall2_length _ _ _ HF)|].
  intros i l Hi. eapply Forall2_lookup_r in HF as (x & Hx & HR); [|done]. apply lookup_seq in Hx as [-> _]. done.
Qed.

Definition no_evaluation Src : Prop := active Src = ∅ /\ copies Src = ∅ /\ cursor_obligations Src = ∅.

Lemma whole_copy_spec Src :
  net_wf Src ->
  exists res, whole_copy Src = Ok res /\
    match res with
    | Some copy => no_evaluation Src /\ exists itf order, rt_exposed Src = Some itf /\ captured Src itf order copy
    | None => ~ no_evaluation Src \/ forall itf, rt_exposed Src = Some itf ->
        overfull Src itf \/ exists n k, node_at Src n = Some k /\ n <> node itf /\ uncopyable k = true
    end.
Proof.
  intros W. unfold whole_copy, no_evaluation.
  destruct (decide (active Src = ∅)) as [H1|H1];
    [rewrite bool_decide_true by done|rewrite bool_decide_false by done; exists None; cbn; split; [done|left; tauto]].
  destruct (decide (copies Src = ∅)) as [H2|H2];
    [rewrite bool_decide_true by done|rewrite bool_decide_false by done; exists None; cbn; split; [done|left; tauto]].
  destruct (decide (cursor_obligations Src = ∅)) as [H3|H3];
    [rewrite bool_decide_true by done|rewrite bool_decide_false by done; exists None; cbn; split; [done|left; tauto]].
  cbn [negb orb]. destruct (rt_exposed Src) as [itf|] eqn:He; [|exists None; split; [done|by right]].
  destruct (nw_exposed _ W _ He) as [Hi Hn]. destruct (nw_nodes _ W _ _ Hn) as [_ Ho].
  assert (exists q, reference Src itf = Some (MkSignedPort q Provides)) as [q Hq].
  { destruct itf as [jn ji]. cbn in *. subst ji. apply own_reference in Ho as [q Hq]. by exists q. }
  pose proof (go_sym _ (nw_graph _ W) _ _ _ Hq) as Hb.
  assert ((q ← neighbor Src itf; signed Src q) = Some (MkSignedPort q Provides)) as ->.
  { unfold neighbor. rewrite Hq. cbn. unfold signed. by rewrite Hb. }
  cbn [port].
  destruct (reach_spec Src itf W He WHOLE_COPY_MAX_NODES [node q] {[node q := 0]} 0) as (res & Hres & HR).
  { split; [apply NoDup_singleton| |cbn; unfold WHOLE_COPY_MAX_NODES; lia].
    intros n i. rewrite lookup_singleton_Some, list_lookup_singleton_Some. naive_solver. }
  { intros n ->%list_elem_of_singleton. split.
    - apply reference_valid in Hb as (k & Hk & _). by rewrite Hk.
    - eapply (interface_port Src itf itf q Provides); try done. intros ->. by apply (sym_not_self _ _ _ (nw_graph _ W)) in Hq. }
  { lia. } { lia. } { intros j n Hj. lia. }
  rewrite Hres. cbn [mbind outcome_bind]. destruct res as [[order positions]|].
  2: { exists None. split; [done|]. right. intros itf' [= <-]. done. }
  destruct HR as (IX & WI & [more Hm] & HC). cbn [fst snd] in *.
  destruct (mapM_total (E:=Empty_set) (capture_node Src itf positions) (node_captured Src itf order) order) as (nodes & Hnodes & HF).
  { intros n Hin. apply capture_node_spec; [done|done|by apply HC]. }
  rewrite Hnodes. cbn [mbind outcome_bind]. eexists. split; [done|]. split; [done|]. exists itf, order. split; [done|].
  split; cbn [wc_nodes wc_root wc_root_sign]; try done; try apply IX.
  - intros Hin. by destruct (WI _ Hin).
  - exists (node q). rewrite Hm. split; [done|]. rewrite Hq. by destruct q.
Qed.

(** C22. Capturing a source for a whole copy always ends, without a panic.
    What it returns is a copy exactly of the part reachable from the
    interface: distinct nodes, at most 64, the first facing the interface,
    each with its payload duplicated and each wire recorded at both ends by
    position. It returns one unless the source has an evaluation left, no
    interface, more than 64 nodes besides the interface, or a node that is
    not copied. *)
Theorem whole_copy_captures Src :
  net_wf Src ->
  exists res, whole_copy Src = Ok res /\
    match res with
    | Some copy => no_evaluation Src /\ exists itf order, rt_exposed Src = Some itf /\ captured Src itf order copy
    | None => ~ no_evaluation Src \/ forall itf, rt_exposed Src = Some itf ->
        overfull Src itf \/ exists n k, node_at Src n = Some k /\ n <> node itf /\ uncopyable k = true
    end.
Proof. apply whole_copy_spec. Qed.

End capturing.
