(* ===== verification/WholeInstall.v ===== *)
(** * Installing whole copies

    A captured source is installed where a typed reference awaits it: its
    nodes get the next node IDs in order, with fresh fan sites, and are wired
    as their source was. The result is well formed and the new part is
    isomorphic to the captured part of the source. *)
From stdpp Require Import base option list numbers gmap fin_maps tactics.
From Stdlib Require Import ZArith Lia.
From S2P Require Import Prelude NetModel RuntimeGraph Boundary Rewrite Calls FanSites WholeCopy Copies CopyInvariant WholeCapture.

Lemma Forall2_impl_in {A B} (R Q : A -> B -> Prop) l k :
  Forall2 R l k -> (forall x y, x ∈ l -> R x y -> Q x y) -> Forall2 Q l k.
Proof.
  induction 1 as [|x y l k H _ IH]; intros HQ; constructor; [apply HQ; [left|done]|]. apply IH. intros a b Ha. apply HQ. by right.
Qed.

(** ** Adding the nodes *)
Section adding.
Context {S : NetSpecialization} {P : PayloadDuplicator S}.
Implicit Types (N Src : RuntimeNet) (n : nat).

Lemma copy_kind_sub sites sites' (k k' : RuntimeNode Data Operator Checkpoint) :
  sites ⊆ sites' -> (forall s, s ∈ kind_sites k -> is_Some (sites !! s)) -> copy_kind sites k k' -> copy_kind sites' k k'.
Proof.
  intros Hs Hd H. destruct k; try done. cbn in *. rewrite H. f_equal. symmetry. by apply rename_sub.
Qed.

Lemma add_node_site N k site :
  add_node (with_fan_site N site) k = ('(N', id) ← add_node N k; Ok (with_fan_site N' site, id)).
Proof.
  unfold add_node. cbn [with_fan_site next_node_id rt_nodes]. destruct (expect _); try done.
  cbn [mbind outcome_bind]. by destruct (rust_assert _).
Qed.

(** The sites the captured fans use. *)
Definition whole_sites (nodes : list WholeCopyNode) : list FanSite := nodes ≫= (fun c => kind_sites (wn_node c)).

Record installing N (nodes : list WholeCopyNode) N' (sites : gmap FanSite FanSite) (ids : list nat)
    (K : list (RuntimeNode Data Operator Checkpoint)) : Prop := {
  is_grown : exists M next, N' = with_fan_site M next /\ grown N None K [] M /\
    site_map_ok (next_fan_site N) next sites /\
    (next <= next_fan_site N + Z.of_nat (length (whole_sites nodes)))%Z;
  is_ids : ids = seq (next_node_id N) (length nodes);
  is_kinds : Forall2 (fun c k => copy_kind sites (wn_node c) k) nodes K;
  is_sites : forall s, s ∈ whole_sites nodes -> is_Some (sites !! s);
}.

Lemma install_node_spec N nodes c N' sites ids K :
  installing N nodes N' sites ids K ->
  (Z.of_nat (next_node_id N + length nodes) < u64_max)%Z ->
  (next_fan_site N + Z.of_nat (length (whole_sites (nodes ++ [c]))) <= usize_max)%Z ->
  exists N2 sites2 ids2 k, install_node (N', sites, ids) c = Ok (N2, sites2, ids2) /\
    installing N (nodes ++ [c]) N2 sites2 ids2 (K ++ [k]).
Proof.
  intros [(M & next & -> & GR & SM & Hnx) Hids HK Hsites] Hroom Hsr.
  unfold whole_sites in Hsr. rewrite bind_app, length_app in Hsr. cbn in Hsr. rewrite app_nil_r in Hsr.
  assert (HkL : length K = length nodes) by (symmetry; by eapply list.Forall2_length).
  assert (exists next2 sites2 k, match wn_node c with
            | RFan identity => '(st, identity) ← translate_fan_identity (next_fan_site (with_fan_site M next), sites) identity;
                 Ok (E:=Empty_set) (with_fan_site (with_fan_site M next) (fst st), snd st, RFan identity)
            | k => Ok (with_fan_site M next, sites, k) end = Ok (with_fan_site M next2, sites2, k) /\
          sites ⊆ sites2 /\ site_map_ok (next_fan_site N) next2 sites2 /\ copy_kind sites2 (wn_node c) k /\
          (next2 <= next + Z.of_nat (length (kind_sites (wn_node c))))%Z /\
          forall s, s ∈ kind_sites (wn_node c) -> is_Some (sites2 !! s)) as (next2 & sites2 & k & Hm & Hsub & SM2 & Hck & Hn2 & Hs2).
  { destruct (wn_node c) as [|f| | | | | |] eqn:Ec;
      try (exists next, sites; eexists; cbn; split; [done|]; split; [done|]; split; [done|]; split; [done|]; split; [lia|];
           intros s Hs; by apply not_elem_of_nil in Hs).
    cbn [kind_sites] in *. destruct (translate_spec (next_fan_site N) f (next, sites) SM) as ([next2 sites2] & Ht & EX).
    { cbn. fold (whole_sites nodes) in Hsr. lia. }
    exists next2, sites2, (RFan (rename (site_fn sites2) f)). cbn [with_fan_site next_fan_site]. rewrite Ht. cbn.
    destruct EX as [E1 E2 E3 E4]. cbn in *. split; [done|]. split; [done|]. split; [done|]. split; [done|]. split; [lia|done]. }
  destruct (grown_add N None K [] M k GR) as (M2 & HM2 & GR2); [by rewrite HkL|].
  exists (with_fan_site M2 next2), sites2, (ids ++ [next_node_id N + length nodes]), k. split.
  { unfold install_node. rewrite Hm. cbn [mbind outcome_bind]. rewrite add_node_site, HM2, HkL. done. }
  split.
  - exists M2, next2. split; [done|]. split; [done|]. split; [done|]. unfold whole_sites in *. rewrite bind_app, length_app. cbn.
    rewrite app_nil_r. lia.
  - rewrite Hids, length_app. cbn. rewrite seq_app. done.
  - apply Forall2_app; [|by constructor].
    eapply Forall2_impl_in; [exact HK|].
    intros x y Hx. apply copy_kind_sub; [done|]. intros s Hs. apply Hsites. unfold whole_sites. apply list_elem_of_bind. by exists x.
  - unfold whole_sites. rewrite bind_app. cbn. rewrite app_nil_r. intros s [Hs|Hs]%elem_of_app; [|by apply Hs2].
    destruct (Hsites s Hs) as [v Hv]. exists v. by eapply lookup_weaken.
Qed.

End adding.

(** ** Wiring the nodes *)
Section wiring.
Context {S : NetSpecialization} {P : PayloadDuplicator S}.
Implicit Types (N Src : RuntimeNet) (n : nat).

Definition cell_link (nodes : list WholeCopyNode) (cell : nat * nat) : option WholeCopyLink :=
  c ← nodes !! fst cell; l ← wn_links c !! snd cell; l.

(** The wire a cell writes, with node IDs from [base]. *)
Definition cell_wire (base : nat) (nodes : list WholeCopyNode) (cell : nat * nat) : option (SignedPort * SignedPort) :=
  link ← cell_link nodes cell;
  if earlier (fst cell) (snd cell) link
  then Some (MkSignedPort (MkPort (base + fst cell) (snd cell)) (opposite (wl_sign link)),
             MkSignedPort (MkPort (base + wl_node link) (wl_port link)) (wl_sign link))
  else None.

Definition cells (count : nat) : list (nat * nat) := seq 0 count ≫= (fun j => pair j <$> seq 0 3).

Definition cell_wires (base : nat) (nodes : list WholeCopyNode) : list (SignedPort * SignedPort) :=
  omap (cell_wire base nodes) (cells (length nodes)).

Lemma elem_of_cells count j i : (j, i) ∈ cells count <-> j < count /\ i < 3.
Proof.
  unfold cells. rewrite list_elem_of_bind. split.
  - intros (j' & (i' & [= -> ->] & Hi)%list_elem_of_fmap & Hj). apply elem_of_seq in Hi, Hj. lia.
  - intros [Hj Hi]. exists j. split; [apply list_elem_of_fmap; exists i; split; [done|]|]; apply elem_of_seq; lia.
Qed.

Lemma cells_nodup count : NoDup (cells count).
Proof.
  unfold cells. apply NoDup_bind.
  - intros j1 j2 c _ _ (i1 & -> & _)%list_elem_of_fmap (i2 & [= -> ->] & _)%list_elem_of_fmap. done.
  - intros j _. apply NoDup_fmap_2; [intros a b [=]; done|apply NoDup_seq].
  - apply NoDup_seq.
Qed.

(** Loops over a list with positions. *)
Lemma foldM_imap {E A T} (f : T -> nat * A -> outcome E T) (g : T -> nat -> outcome E T) (l : list A) : forall k s,
  (forall i a s, l !! i = Some a -> f s (k + i, a) = g s (k + i)) ->
  foldM f s (imap (fun i a => (k + i, a)) l) = foldM g s (seq k (length l)).
Proof.
  induction l as [|a l IH]; intros k s H; [done|]. cbn [imap length seq foldM].
  pose proof (H 0 a s eq_refl) as H0. rewrite Nat.add_0_r in *. rewrite H0.
  destruct (g s k) as [s'| | |]; [|done..]. cbn [mbind outcome_bind].
  rewrite <- (IH (Datatypes.S k) s').
  - f_equal. apply imap_ext. intros i x Hx. cbn. f_equal. lia.
  - intros i b s2 Hb. specialize (H (Datatypes.S i) b s2 Hb). by rewrite Nat.add_succ_r in H.
Qed.

Lemma foldM_omap {E A B T} (f : T -> B -> outcome E T) (g : A -> option B) (l : list A) : forall s,
  foldM f s (omap g l) = foldM (fun s a => match g a with Some b => f s b | None => Ok s end) s l.
Proof.
  induction l as [|a l IH]; intros s; [done|]. cbn. destruct (g a) as [b|]; cbn; [|apply IH].
  destruct (f s b); [|done..]. cbn. apply IH.
Qed.

(** The nested loops write the wires of the cells in order. *)
Lemma install_links N base nodes :
  (forall c, c ∈ nodes -> length (wn_links c) = 3) ->
  (forall cell link, cell_link nodes cell = Some link -> wl_node link < length nodes) ->
  foldM (fun N '(position, c) => foldM (install_link (seq base (length nodes)) position) N (imap pair (wn_links c)))
    N (imap pair nodes) =
  foldM (fun N '(x, y) => rt_wire N x y) N (cell_wires base nodes).
Proof.
  intros Hlen Hlt. unfold cell_wires. rewrite foldM_omap. unfold cells. rewrite foldM_bind.
  rewrite <- (foldM_imap (fun N '(position, c) => foldM (install_link (seq base (length nodes)) position) N (imap pair (wn_links c)))
    _ nodes 0 N); [done|].
  intros j c N' Hj. cbn [Nat.add]. rewrite foldM_fmap.
  rewrite <- (Hlen c) by (by eapply list_elem_of_lookup_2).
  rewrite <- (foldM_imap (install_link (seq base (length nodes)) j) _ (wn_links c) 0 N'); [done|].
  intros i l N2 Hi. cbn [Nat.add]. unfold cell_wire.
  assert (cell_link nodes (j, i) = l) as Hc by (unfold cell_link; cbn; rewrite Hj; cbn; by rewrite Hi).
  rewrite Hc. destruct l as [link|]; [|done]. cbn [install_link mbind option_bind fst snd].
  destruct (earlier j i link); [|done]. apply lookup_lt_Some in Hj.
  rewrite (proj2 (vec_get_Ok _ j (base + j))) by (apply lookup_seq; lia). cbn [mbind outcome_bind].
  rewrite (proj2 (vec_get_Ok _ (wl_node link) (base + wl_node link))) by (apply lookup_seq; specialize (Hlt _ _ Hc); lia).
  done.
Qed.

End wiring.

(** ** The links of a capture *)
Section links.
Context {S : NetSpecialization} {P : PayloadDuplicator S}.
Context (Src : RuntimeNet) (itf : Port) (order : list nat) (copy : WholeCopy).
Hypothesis W : net_wf Src.
Hypothesis CA : captured Src itf order copy.

Local Notation nodes := (wc_nodes copy).

Lemma captured_length : length nodes = length order.
Proof. symmetry. eapply list.Forall2_length, CA. Qed.

Lemma captured_node j n : order !! j = Some n -> exists c, nodes !! j = Some c /\ node_captured Src itf order n c.
Proof. intros Hj. by eapply Forall2_lookup_l; [apply CA|]. Qed.

Lemma captured_cell j n : order !! j = Some n -> forall i link, cell_link nodes (j, i) = Some link <->
  exists q, reference Src (MkPort n i) = Some q /\ port q <> itf /\ order !! wl_node link = Some (node (port q)) /\
    wl_port link = index (port q) /\ wl_sign link = sign q.
Proof.
  intros Hj i link. destruct (captured_node j n Hj) as (c & Hc & k & Hk & Ho & Hd & Hl & HL).
  unfold cell_link. cbn [fst snd]. rewrite Hc. cbn. split.
  - destruct (wn_links c !! i) as [l|] eqn:El; [|done]. cbn. intros ->. specialize (HL _ _ El). unfold link_ok in HL.
    destruct (reference Src (MkPort n i)) as [q|]; [|done]. case_decide as Hq; [done|]. destruct HL as (pos & Hp & [= ->]). by exists q.
  - intros (q & Hq & Hne & Hpos & Hp & Hs).
    assert (Hi : i < 3).
    { apply reference_valid in Hq as (k' & Hk' & Hx). cbn in *. rewrite Hk in Hk'. injection Hk' as <-. destruct k; cbn in *; try done; lia. }
    destruct (lookup_lt_is_Some_2 (wn_links c) i ltac:(lia)) as [l El]. rewrite El. cbn. specialize (HL _ _ El). unfold link_ok in HL.
    rewrite Hq in HL. rewrite decide_False in HL by done. destruct HL as (pos & Hp' & ->). f_equal.
    rewrite <- Hp, <- Hs. assert (pos = wl_node link) as -> by (eapply NoDup_lookup; [apply CA|done|done]). by destruct link.
Qed.

Lemma cell_bounds j i link : cell_link nodes (j, i) = Some link -> exists n, order !! j = Some n /\ i < 3 /\ wl_node link < length nodes.
Proof.
  intros H. assert (Hj : j < length order).
  { rewrite <- captured_length. unfold cell_link in H. cbn in H. destruct (nodes !! j) eqn:E; [|done]. by apply lookup_lt_Some in E. }
  destruct (lookup_lt_is_Some_2 order j Hj) as [n Hn]. exists n. split; [done|].
  pose proof H as (q & Hq & _ & Hpos & _)%(captured_cell j n Hn). split.
  - destruct (captured_node j n Hn) as (c & Hc & k & _ & _ & _ & Hl & _). unfold cell_link in H. cbn in H. rewrite Hc in H. cbn in H.
    destruct (wn_links c !! i) eqn:E; [|done]. apply lookup_lt_Some in E. lia.
  - rewrite captured_length. by apply lookup_lt_Some in Hpos.
Qed.

(** Each wire is recorded at both ends. *)
Lemma cell_sym j i link : cell_link nodes (j, i) = Some link ->
  cell_link nodes (wl_node link, wl_port link) = Some (MkCopyLink j i (opposite (wl_sign link))) /\ (wl_node link, wl_port link) <> (j, i).
Proof.
  intros H. destruct (cell_bounds _ _ _ H) as (n & Hn & Hi & _). pose proof H as ([q s] & Hq & Hne & Hpos & Hp & Hs)%(captured_cell j n Hn).
  cbn in *. pose proof (go_sym _ (nw_graph _ W) _ _ _ Hq) as Hb. split.
  - apply (captured_cell _ _ Hpos). exists (MkSignedPort (MkPort n i) (opposite s)). cbn. rewrite Hp, Hs.
    split; [by destruct q|]. split; [|done]. intros <-. apply (wh_apart _ _ _ _ CA). by eapply list_elem_of_lookup_2.
  - intros [= Hj Hx]. rewrite Hj, Hn in Hpos. injection Hpos as Hpos. apply (sym_not_self _ (MkPort n i) s (nw_graph _ W)).
    rewrite Hq. do 2 f_equal. destruct q as [qn qi]. cbn in *. congruence.
Qed.

Lemma earlier_total j i link : cell_link nodes (j, i) = Some link ->
  earlier j i link = negb (earlier (wl_node link) (wl_port link) (MkCopyLink j i (opposite (wl_sign link)))).
Proof.
  intros H. destruct (cell_sym _ _ _ H) as [_ Hne]. unfold earlier. cbn [wl_node wl_port].
  destruct (Nat.ltb_spec j (wl_node link)), (Nat.ltb_spec (wl_node link) j), (Nat.eqb_spec j (wl_node link)),
    (Nat.eqb_spec (wl_node link) j), (Nat.ltb_spec i (wl_port link)), (Nat.ltb_spec (wl_port link) i); cbn; try done; exfalso;
    first [lia|apply Hne; f_equal; lia].
Qed.

Lemma elem_of_wires base x y : (x, y) ∈ cell_wires base nodes <-> exists j i link, cell_link nodes (j, i) = Some link /\
  earlier j i link = true /\ x = MkSignedPort (MkPort (base + j) i) (opposite (wl_sign link)) /\
  y = MkSignedPort (MkPort (base + wl_node link) (wl_port link)) (wl_sign link).
Proof.
  unfold cell_wires. rewrite list_elem_of_omap. split.
  - intros ([j i] & Hin & Hw). unfold cell_wire in Hw. destruct (cell_link nodes (j, i)) as [link|] eqn:El; [|done]. cbn in Hw.
    destruct (earlier j i link) eqn:Ee; [|done]. injection Hw as <- <-. by exists j, i, link.
  - intros (j & i & link & Hl & Hel & -> & ->). exists (j, i). destruct (cell_bounds _ _ _ Hl) as (n & Hn & Hi & _). split.
    + apply elem_of_cells. rewrite captured_length. split; [by apply lookup_lt_Some in Hn|done].
    + unfold cell_wire. rewrite Hl. cbn. by rewrite Hel.
Qed.

Lemma wire_ports_perm (ws : list (SignedPort * SignedPort)) :
  wire_ports ws ≡ₚ ((fun w => port (fst w)) <$> ws) ++ ((fun w => port (snd w)) <$> ws).
Proof.
  induction ws as [|[l r] ws IH]; [done|]. cbn. fold (wire_ports ws). rewrite IH. by rewrite (Permutation_middle (_ <$> ws)).
Qed.

Lemma fmap_omap_fusion {A B C} (g : B -> C) (f : A -> option B) (l : list A) : g <$> omap f l = omap (fun a => g <$> f a) l.
Proof. induction l as [|a l IH]; [done|]. cbn. destruct (f a); cbn; by rewrite IH. Qed.

Lemma omap_nodup {A B} (f : A -> option B) (l : list A) :
  (forall a b y, f a = Some y -> f b = Some y -> a = b) -> NoDup l -> NoDup (omap f l).
Proof.
  intros Hf. induction 1 as [|a l Ha _ IH]; [constructor|]. cbn. destruct (f a) as [y|] eqn:E; [|done].
  constructor; [|done]. intros (b & Hb & Hy)%list_elem_of_omap. by rewrite (Hf a b y E Hy) in Ha.
Qed.

Lemma cell_wires_nodup base : NoDup (wire_ports (cell_wires base nodes)).
Proof.
  rewrite wire_ports_perm. unfold cell_wires at 1 2. rewrite !fmap_omap_fusion.
  assert (Hw : forall cell w, cell_wire base nodes cell = Some w -> exists link, cell_link nodes cell = Some link /\
    earlier (fst cell) (snd cell) link = true /\ port (fst w) = MkPort (base + fst cell) (snd cell) /\
    port (snd w) = MkPort (base + wl_node link) (wl_port link)).
  { intros [j i] w Hc. unfold cell_wire in Hc. destruct (cell_link nodes (j, i)) as [link|]; [|done]. cbn in Hc.
    destruct (earlier j i link) eqn:Ee; [|done]. injection Hc as <-. by exists link. }
  apply list.NoDup_app. split; [|split].
  - apply omap_nodup; [|apply cells_nodup]. intros [j i] [j' i'] y (w & H1 & ->)%fmap_Some (w' & H2 & Heq)%fmap_Some.
    apply Hw in H1 as (l1 & _ & _ & E1 & _). apply Hw in H2 as (l2 & _ & _ & E2 & _). cbn in *. rewrite E1, E2 in Heq.
    injection Heq as H3 H4. f_equal; [lia|done].
  - intros y ([j i] & _ & (w & H1 & ->)%fmap_Some)%list_elem_of_omap ([j' i'] & _ & (w' & H2 & Heq)%fmap_Some)%list_elem_of_omap.
    apply Hw in H1 as (l1 & C1 & Er1 & E1 & _). apply Hw in H2 as (l2 & C2 & Er2 & _ & E2). cbn in *. rewrite E1, E2 in Heq.
    injection Heq as H3 H4. assert (j = wl_node l2) as -> by lia. subst i. destruct (cell_sym _ _ _ C2) as [C3 _].
    rewrite C1 in C3. injection C3 as ->. rewrite (earlier_total _ _ _ C2), Er1 in Er2. done.
  - apply omap_nodup; [|apply cells_nodup]. intros [j i] [j' i'] y (w & H1 & ->)%fmap_Some (w' & H2 & Heq)%fmap_Some.
    apply Hw in H1 as (l1 & C1 & _ & _ & E1). apply Hw in H2 as (l2 & C2 & _ & _ & E2). cbn in *. rewrite E1, E2 in Heq.
    injection Heq as H3 H4. assert (H5 : wl_node l1 = wl_node l2) by lia.
    destruct (cell_sym _ _ _ C1) as [S1 _]. destruct (cell_sym _ _ _ C2) as [S2 _]. rewrite H5, H4, S2 in S1. by injection S1 as -> ->.
Qed.

End links.

(** ** The installed copy *)
Section installed.
Context {S : NetSpecialization} {P : PayloadDuplicator S}.

(** A net that is well formed but for one port, where a copy is awaited. *)
Record open_at (N : RuntimeNet) (ref : SignedPort) : Prop := {
  oa_graph : graph_ok N;
  oa_active : active_ok N None;
  oa_free : reference N (port ref) = None;
  oa_valid : valid N (port ref);
  oa_quiet : ~ obligated N (node (port ref));
  oa_nodes : forall n k, node_at N n = Some k ->
    node_wf k (fun i => if decide (MkPort n i = port ref) then Some (sign ref) else own N (MkPort n i));
  oa_exposed : forall p, rt_exposed N = Some p -> index p = 1 /\ node_at N (node p) = Some RInterface;
  oa_frontiers : frontiers_ok N;
}.

(** The copy of [Src] in [N'], node [order !! j] as node [base + j]. *)
Record installed_copy (N Src : RuntimeNet) (itf : Port) (order : list nat) (copy : WholeCopy) (ref : SignedPort)
    (N' : RuntimeNet) (sites : gmap FanSite FanSite) : Prop := {
  ic_wf : net_wf N';
  ic_next : next_node_id N' = next_node_id N + length order;
  ic_old : forall m, m < next_node_id N -> node_at N' m = node_at N m;
  ic_refs : forall p, node p < next_node_id N -> p <> port ref -> reference N' p = reference N p;
  ic_ref : reference N' (port ref) = Some (MkSignedPort (MkPort (next_node_id N) (wc_root copy)) (opposite (sign ref)));
  ic_kinds : forall j n, order !! j = Some n -> exists k d k', node_at Src n = Some k /\
    duplicate_copyable duplicate_data duplicate_operator k = Some d /\ copy_kind sites d k' /\
    node_at N' (next_node_id N + j) = Some k';
  ic_wires : forall j n i q, order !! j = Some n -> reference Src (MkPort n i) = Some q ->
    if decide (port q = itf) then reference N' (MkPort (next_node_id N + j) i) = Some ref
    else exists j', order !! j' = Some (node (port q)) /\
      reference N' (MkPort (next_node_id N + j) i) =
        Some (MkSignedPort (MkPort (next_node_id N + j') (index (port q))) (sign q));
  ic_sites : site_map_ok (next_fan_site N) (next_fan_site N') sites;
  ic_states : states_kept N N';
  ic_rest : rt_exposed N' = rt_exposed N /\ copies N' = copies N /\ next_copy_id N' = next_copy_id N /\
    cursor_obligations N' = cursor_obligations N;
}.

Context (N Src : RuntimeNet) (itf : Port) (order : list nat) (copy : WholeCopy) (ref : SignedPort).
Hypothesis OA : open_at N ref.
Hypothesis W : net_wf Src.
Hypothesis He : rt_exposed Src = Some itf.
Hypothesis CA : captured Src itf order copy.
Hypothesis Hsign : sign ref = opposite (wc_root_sign copy).
Hypothesis Hroom : (Z.of_nat (next_node_id N + length order) <= u64_max)%Z.
Hypothesis Hsites : (next_fan_site N + Z.of_nat (length (whole_sites (wc_nodes copy))) <= usize_max)%Z.

Local Notation nodes := (wc_nodes copy).
Local Notation base := (next_node_id N).

Lemma install_nodes : exists N1 sites K, foldM install_node (N, ∅, []) nodes = Ok (N1, sites, seq base (length nodes)) /\
  installing N nodes N1 sites (seq base (length nodes)) K.
Proof.
  destruct (foldM_inv install_node (fun don '(N', sites, ids) => exists K, installing N don N' sites ids K) nodes (N, ∅, []))
    as ([[N1 sites] ids] & H & K & HI).
  - exists []. split; try done.
    + exists N, (next_fan_site N). split; [by destruct N|]. split; [apply grown_refl; apply OA|]. split; [|cbn; lia].
      split; [lia|intros s v; by rewrite lookup_empty|intros s s' v; by rewrite lookup_empty].
    + intros s Hs. by apply not_elem_of_nil in Hs.
  - intros don c rest [[N' sites] ids] Hl (K & HI).
    assert (Hlen : length don + Datatypes.S (length rest) = length order).
    { rewrite <- (captured_length Src itf order copy CA), Hl, length_app. done. }
    destruct (install_node_spec N don c N' sites ids K HI) as (N2 & sites2 & ids2 & k & H2 & HI2).
    + lia.
    + rewrite Hl in Hsites. unfold whole_sites in *. rewrite cons_middle, app_assoc, bind_app, length_app in Hsites. lia.
    + exists (N2, sites2, ids2). split; [done|]. by exists (K ++ [k]).
  - pose proof (is_ids _ _ _ _ _ _ HI) as ->. exists N1, sites, K. done.
Qed.

Lemma grown_site M next K ws : grown N None K ws M -> grown (with_fan_site N next) None K ws (with_fan_site M next).
Proof.
  intros [G1 G2 G3 G4 G5 G6 G7 G8 G9 G10 G11]. split; try done.
  - by apply (graph_ok_same M).
  - destruct G4. by split.
Qed.

(** A new node is its source node but for the payload and the fan's sites. *)
Lemma new_kind sites K j n : Forall2 (fun c k => copy_kind sites (wn_node c) k) nodes K -> order !! j = Some n ->
  exists k d k', node_at Src n = Some k /\ duplicate_copyable duplicate_data duplicate_operator k = Some d /\
    copy_kind sites d k' /\ K !! j = Some k' /\ runtime_port_count k' = runtime_port_count k /\ is_cursor k' = false /\
    forall own', node_wf k own' -> node_wf k' own'.
Proof.
  intros HK Hj. destruct (captured_node Src itf order copy CA j n Hj) as (c & Hc & k & Hk & Ho & Hd & _).
  eapply Forall2_lookup_l in HK as (k' & Hk' & Hck); [|done]. exists k, (wn_node c), k'. do 4 (split; [done|]).
  destruct k; try done; injection Hd as Hd; rewrite <- Hd in Hck; cbn in Hck; rewrite Hck; done.
Qed.

Lemma elem_of_wire_ports p : p ∈ wire_ports (cell_wires base nodes) -> exists j i link, p = MkPort (base + j) i /\
  cell_link nodes (j, i) = Some link.
Proof.
  unfold wire_ports. intros ([x y] & Hp & Hin)%list_elem_of_bind.
  apply (elem_of_wires Src itf order copy CA) in Hin as (j & i & link & Hl & _ & -> & ->). rewrite !elem_of_cons in Hp.
  destruct Hp as [-> |[-> |?%not_elem_of_nil]]; [by exists j, i, link| |done]. cbn.
  destruct (cell_sym Src itf order copy W CA _ _ _ Hl) as [Hs _]. by exists (wl_node link), (wl_port link), (MkCopyLink j i (opposite (wl_sign link))).
Qed.

Lemma cell_valid sites K j i link : Forall2 (fun c k => copy_kind sites (wn_node c) k) nodes K ->
  cell_link nodes (j, i) = Some link -> exists k', K !! j = Some k' /\ i < runtime_port_count k'.
Proof.
  intros HK Hl. destruct (cell_bounds Src itf order copy CA _ _ _ Hl) as (n & Hn & _).
  destruct (new_kind sites K j n HK Hn) as (k & d & k' & Hk & _ & _ & HKj & Hcount & _). exists k'. split; [done|].
  pose proof (proj1 (captured_cell Src itf order copy CA j n Hn i link) Hl) as (q & Hq & _). apply reference_valid in Hq as (k2 & Hk2 & Hi).
  cbn in *. rewrite Hk in Hk2. injection Hk2 as <-. lia.
Qed.

Lemma root_cell : exists rn, order !! 0 = Some rn /\ reference Src (MkPort rn (wc_root copy)) = Some (MkSignedPort itf (sign ref)) /\
  forall link, cell_link nodes (0, wc_root copy) <> Some link.
Proof.
  destruct (wh_root _ _ _ _ CA) as (rn & Hrn & Hr). exists rn. split; [done|].
  pose proof (go_sym _ (nw_graph _ W) _ _ _ Hr) as Hb. rewrite <- Hsign in Hb. split; [done|].
  intros link (q & Hq & Hne & _)%(captured_cell Src itf order copy CA 0 rn Hrn). rewrite Hb in Hq. injection Hq as <-. by apply Hne.
Qed.

(** The nodes wired, before the root is bound. *)
Lemma install_wired_nodes N1 sites K next M :
  N1 = with_fan_site M next -> grown N None K [] M -> Forall2 (fun c k => copy_kind sites (wn_node c) k) nodes K ->
  exists N2, foldM (fun N '(x, y) => rt_wire N x y) N1 (cell_wires base nodes) = Ok N2 /\
    grown (with_fan_site N next) None K (cell_wires base nodes) N2 /\
    (forall j i link, cell_link nodes (j, i) = Some link -> reference N2 (MkPort (base + j) i) =
       Some (MkSignedPort (MkPort (base + wl_node link) (wl_port link)) (wl_sign link))) /\
    reference N2 (MkPort base (wc_root copy)) = None.
Proof.
  intros -> GR HK. apply (grown_site M next) in GR.
  destruct (grown_wires (with_fan_site N next) None K (cell_wires base nodes) [] (with_fan_site M next))
    as (N2 & H2 & GR2); try done.
  - by apply (graph_ok_same N); [..|apply OA].
  - cbn [app]. by eapply cell_wires_nodup.
  - intros p (j & i & link & -> & Hl)%elem_of_wire_ports. destruct (cell_valid sites K j i link HK Hl) as (k' & Hk' & Hi).
    by exists j, k'.
  - intros x y (j & i & link & _ & _ & -> & ->)%(elem_of_wires Src itf order copy CA). done.
  - exists N2. split; [done|]. split; [done|]. split.
    + intros j i link Hl. destruct (earlier j i link) eqn:Ee.
      * destruct (gr_wires _ _ _ _ _ GR2 (MkSignedPort (MkPort (base + j) i) (opposite (wl_sign link)))
          (MkSignedPort (MkPort (base + wl_node link) (wl_port link)) (wl_sign link))) as [H _]; [|done].
        apply (elem_of_wires Src itf order copy CA). by exists j, i, link.
      * destruct (cell_sym Src itf order copy W CA _ _ _ Hl) as [Hs _].
        pose proof (earlier_total Src itf order copy W CA _ _ _ Hl) as Ht. rewrite Ee in Ht. symmetry in Ht. apply negb_false_iff in Ht.
        destruct (gr_wires _ _ _ _ _ GR2 (MkSignedPort (MkPort (base + wl_node link) (wl_port link)) (wl_sign link))
          (MkSignedPort (MkPort (base + j) i) (opposite (wl_sign link)))) as [_ H]; [|done].
        apply (elem_of_wires Src itf order copy CA). exists (wl_node link), (wl_port link), (MkCopyLink j i (opposite (wl_sign link))).
        cbn. by rewrite opposite_opposite.
    + rewrite (gr_frame _ _ _ _ _ GR2).
      * change (reference N (MkPort base (wc_root copy)) = None). apply unwired_fresh; [apply OA|lia].
      * intros (j & i & link & [= Hj <-] & Hl)%elem_of_wire_ports. assert (j = 0) as -> by lia.
        destruct root_cell as (rn & _ & _ & Hno). by apply Hno in Hl.
Qed.

(** Everything but well-formedness. *)
Record bound (N' : RuntimeNet) (sites : gmap FanSite FanSite) (K : list (RuntimeNode Data Operator Checkpoint)) : Prop := {
  bd_graph : graph_ok N';
  bd_active : active_ok N' None;
  bd_next : next_node_id N' = base + length order;
  bd_kinds : Forall2 (fun c k => copy_kind sites (wn_node c) k) nodes K;
  bd_nodes : forall m, node_at N' m = if decide (m < base) then node_at N m else K !! (m - base);
  bd_links : forall j i link, cell_link nodes (j, i) = Some link -> reference N' (MkPort (base + j) i) =
    Some (MkSignedPort (MkPort (base + wl_node link) (wl_port link)) (wl_sign link));
  bd_root : reference N' (MkPort base (wc_root copy)) = Some ref;
  bd_ref : reference N' (port ref) = Some (MkSignedPort (MkPort base (wc_root copy)) (opposite (sign ref)));
  bd_old : forall p, node p < base -> p <> port ref -> reference N' p = reference N p;
  bd_sites : site_map_ok (next_fan_site N) (next_fan_site N') sites;
  bd_states : states_kept N N';
  bd_rest : rt_exposed N' = rt_exposed N /\ copies N' = copies N /\ next_copy_id N' = next_copy_id N /\
    cursor_obligations N' = cursor_obligations N;
}.

Lemma ref_old : node (port ref) < base.
Proof. apply (go_fresh _ (oa_graph _ _ OA)). destruct (oa_valid _ _ OA) as (k & Hk & _). by rewrite Hk. Qed.

Lemma install_bound : exists N' sites K, install_whole_copy N copy ref = Ok (N', base) /\ bound N' sites K.
Proof.
  destruct install_nodes as (N1 & sites & K & H1 & [(M & next & HM & GR & SM & _) _ HK _]).
  destruct (install_wired_nodes N1 sites K next M HM GR HK) as (N2 & H2 & GR2 & Hlinks & Hroot).
  set (B := with_fan_site N next) in *. assert (GB : graph_ok B) by (by apply (graph_ok_same N); [..|apply OA]).
  destruct root_cell as (rn & Hrn & Hrr & Hno).
  assert (HKl : length K = length order) by (rewrite <- (captured_length Src itf order copy CA); symmetry; by eapply list.Forall2_length).
  assert (Hnew : new_port B K (MkPort base (wc_root copy))).
  { destruct (new_kind sites K 0 rn HK Hrn) as (k & d & k' & Hk & _ & _ & HKj & Hcount & _). exists 0, k'. cbn.
    split; [lia|]. split; [done|]. apply reference_valid in Hrr as (k2 & Hk2 & Hi). cbn in *. rewrite Hk in Hk2. injection Hk2 as <-. lia. }
  pose proof ref_old as Hrold.
  assert (Hrw : port ref ∉ wire_ports (cell_wires base nodes)).
  { intros Hin%(gr_fresh _ _ _ _ _ GR2). change (next_node_id B) with base in Hin. lia. }
  destruct (wire_ok N2 (MkSignedPort (MkPort base (wc_root copy)) (opposite (sign ref))) ref None)
    as (N3 & H3 & G3 & A3 & (Hn3 & Hr3 & Hx3 & [R1 R2 R3 R4]) & Ho3 & Hst3 & _).
  { split; cbn [port sign]; try done; try apply GR2.
    - intros Heq. rewrite <- Heq in Hrold. cbn in Hrold. lia.
    - eapply new_port_valid; [exact GR2|exact Hnew].
    - destruct (oa_valid _ _ OA) as (k & Hk & Hi). exists k. rewrite (gr_old _ _ _ _ _ GR2) by done. done.
    - rewrite (gr_frame _ _ _ _ _ GR2) by done. apply OA.
    - intros _. exact (new_port_quiet _ _ _ _ _ _ GB GR2 Hnew).
    - intros _. unfold obligated. rewrite (gr_obligations _ _ _ _ _ GR2). apply OA. }
  destruct (gr_rest _ _ _ _ _ GR2) as [Q1 Q2 Q3 Q4].
  exists N3, sites, K. split.
  { unfold install_whole_copy. rewrite H1. cbn [mbind outcome_bind].
    rewrite (install_links N1 base nodes), H2.
    - cbn [mbind outcome_bind]. rewrite (proj2 (vec_get_Ok _ 0 base)).
      + cbn [mbind outcome_bind]. unfold bind_reference. by rewrite H3.
      + apply lookup_seq. rewrite (captured_length Src itf order copy CA). apply lookup_lt_Some in Hrn. lia.
    - intros c [j Hj]%list_elem_of_lookup. pose proof (wh_nodes _ _ _ _ CA) as HF. eapply Forall2_lookup_r in HF as (n & _ & Hc); [|done].
      by destruct Hc as (k & _ & _ & _ & ? & _).
    - intros [j i] link Hl. by destruct (cell_bounds Src itf order copy CA _ _ _ Hl) as (n & _ & _ & ?). }
  assert (Hkeep : forall p, p <> MkPort base (wc_root copy) -> p <> port ref -> reference N3 p = reference N2 p).
  { intros p E1 E2. rewrite Hr3. cbn [port]. by rewrite !decide_False. }
  split; try done.
  - by rewrite Hx3, (gr_next _ _ _ _ _ GR2), HKl.
  - intros m. rewrite Hn3. case_decide as Hm; [by rewrite (gr_old _ _ _ _ _ GR2)|].
    replace m with (next_node_id B + (m - base)) at 1 by (cbn; lia). apply GR2.
  - intros j i link Hl. rewrite Hkeep; [by apply Hlinks| |].
    + intros [= Hj ->]. assert (j = 0) as -> by lia. by apply Hno in Hl.
    + intros Heq. rewrite <- Heq in Hrold. cbn in Hrold. lia.
  - rewrite Hr3. cbn [port]. by rewrite decide_True.
  - rewrite Hr3. cbn [port]. rewrite decide_False, decide_True; [done..|]. intros Heq. rewrite Heq in Hrold. cbn in Hrold. lia.
  - intros p Hp Hne. rewrite Hkeep; [|intros ->; cbn in Hp; lia|done]. rewrite (gr_frame _ _ _ _ _ GR2); [done|].
    intros Hin%(gr_fresh _ _ _ _ _ GR2). change (next_node_id B) with base in Hin. lia.
  - by rewrite R2, Q2.
  - eapply states_kept_trans; [|exact Hst3]. exact (gr_states _ _ _ _ _ GR2).
  - rewrite R1, R4, R3, Ho3, Q1, Q4, Q3. do 3 (split; [done|]). apply GR2.
Qed.

(** A copied node has all its ports wired. *)
Lemma captured_wired j n k i : order !! j = Some n -> node_at Src n = Some k -> i < runtime_port_count k ->
  i < 3 /\ is_Some (reference Src (MkPort n i)).
Proof.
  intros Hj Hk Hi. destruct (captured_node Src itf order copy CA j n Hj) as (c & Hc & k0 & Hk0 & Ho & _).
  rewrite Hk in Hk0. injection Hk0 as <-. split; [destruct k; cbn in *; try done; lia|].
  destruct i as [|i]; [|eapply wf_wired; [apply W|exact Hk|lia]].
  pose proof (nw_nodes _ W _ _ Hk) as Hw. assert (Hs : exists s, own Src (MkPort n 0) = Some s).
  { destruct k; try done; cbn in Hw; unfold is_Some in Hw; naive_solver. }
  destruct Hs as [s Hs]. apply own_reference in Hs as [q ->]. done.
Qed.

Section bounded.
Context (N' : RuntimeNet) (sites : gmap FanSite FanSite) (K : list (RuntimeNode Data Operator Checkpoint)).
Hypothesis BD : bound N' sites K.

Lemma bound_wires j n i q : order !! j = Some n -> reference Src (MkPort n i) = Some q ->
  if decide (port q = itf) then reference N' (MkPort (base + j) i) = Some ref
  else exists j', order !! j' = Some (node (port q)) /\
    reference N' (MkPort (base + j) i) = Some (MkSignedPort (MkPort (base + j') (index (port q))) (sign q)).
Proof.
  intros Hj Hq. case_decide as Hd.
  - destruct (wh_root _ _ _ _ CA) as (rn & Hrn & Hroot). destruct q as [q s]. cbn in Hd. subst q.
    apply (go_sym _ (nw_graph _ W)) in Hq. rewrite Hroot in Hq. injection Hq as <- <- _.
    assert (j = 0) as -> by (eapply NoDup_lookup; [apply CA|done|done]). rewrite Nat.add_0_r. apply BD.
  - destruct (captured_node Src itf order copy CA j n Hj) as (c & Hc & k & Hk & Ho & Hd' & Hlen & HL).
    pose proof (reference_valid _ _ _ Hq) as (k' & Hk' & Hi). cbn in Hk', Hi. destruct (captured_wired j n k' i Hj Hk' Hi) as [Hi3 _].
    destruct (lookup_lt_is_Some_2 (wn_links c) i ltac:(lia)) as [l El]. specialize (HL _ _ El). unfold link_ok in HL. rewrite Hq in HL.
    rewrite decide_False in HL by done. destruct HL as (pos & Hpos & ->). exists pos. split; [done|].
    apply (bd_links _ _ _ BD j i (MkCopyLink pos (index (port q)) (sign q))). unfold cell_link. cbn. rewrite Hc. cbn. by rewrite El.
Qed.

Lemma bound_own_new j n k i : order !! j = Some n -> node_at Src n = Some k -> i < runtime_port_count k ->
  own N' (MkPort (base + j) i) = own Src (MkPort n i).
Proof.
  intros Hj Hk Hi. destruct (captured_wired j n k i Hj Hk Hi) as [_ [q Hq]]. pose proof (bound_wires j n i q Hj Hq) as HW.
  rewrite (own_sign _ _ _ Hq). case_decide as Hd.
  - rewrite (own_sign _ _ _ HW). do 2 f_equal. destruct root_cell as (rn & Hrn & Hrr & _). destruct q as [q s]. cbn in *. subst q.
    apply (go_sym _ (nw_graph _ W)) in Hq, Hrr. rewrite Hrr in Hq. injection Hq as _ _ Hs. destruct s, (sign ref); done.
  - destruct HW as (j' & _ & HW). by rewrite (own_sign _ _ _ HW).
Qed.

Lemma bound_own_old p : node p < base -> own N' p = if decide (p = port ref) then Some (sign ref) else own N p.
Proof.
  intros Hp. case_decide as Hd; [subst p; rewrite (own_sign _ _ _ (bd_ref _ _ _ BD)); cbn; by rewrite opposite_opposite|].
  unfold own, signed. by rewrite (bd_old _ _ _ BD).
Qed.

(** A node of the result is an old one or a copied one. *)
Lemma bound_node m k' : node_at N' m = Some k' ->
  (m < base /\ node_at N m = Some k') \/
  (exists j n k, m = base + j /\ order !! j = Some n /\ node_at Src n = Some k /\
     runtime_port_count k' = runtime_port_count k /\ is_cursor k' = false /\ forall own', node_wf k own' -> node_wf k' own').
Proof.
  intros Hm. rewrite (bd_nodes _ _ _ BD) in Hm. case_decide as Hlt; [by left|right]. pose proof (lookup_lt_Some _ _ _ Hm) as Hlt2.
  rewrite <- (list.Forall2_length _ _ _ (bd_kinds _ _ _ BD)), (captured_length Src itf order copy CA) in Hlt2.
  destruct (lookup_lt_is_Some_2 order _ Hlt2) as [n Hno]. exists (m - base), n.
  destruct (new_kind sites K _ n (bd_kinds _ _ _ BD) Hno) as (k & d & k2 & Hk & _ & _ & HKj2 & Hr). rewrite Hm in HKj2. injection HKj2 as <-.
  exists k. split; [lia|done].
Qed.

Lemma bound_wf : net_wf N'.
Proof.
  destruct (bd_rest _ _ _ BD) as (E1 & E2 & _). split; [split; [apply BD|..]|apply BD].
  - intros m k' Hm. destruct (bound_node m k' Hm) as [[Hlt Hm']|(j & n & k & -> & Hj & Hk & Hcount & _ & Hwf)].
    + eapply node_wf_proper; [intros i; by apply (bound_own_old (MkPort m i))|]. by apply OA.
    + apply Hwf. eapply node_wf_proper; [|by apply (nw_nodes _ W)]. intros i. cbn.
      destruct (decide (i < runtime_port_count k)) as [Hi|Hi]; [by eapply bound_own_new|].
      transitivity (None : option Sign); [|symmetry]; apply own_None, reference_invalid; intros (k0 & Hk0 & Hi0); cbn in *.
      * rewrite Hm in Hk0. injection Hk0 as <-. lia.
      * rewrite Hk in Hk0. injection Hk0 as <-. lia.
  - intros p Hp. rewrite E1 in Hp. destruct (oa_exposed _ _ OA p Hp) as [Hi Hk]. split; [done|]. rewrite (bd_nodes _ _ _ BD), decide_True; [done|].
    apply (go_fresh _ (oa_graph _ _ OA)). by rewrite Hk.
  - destruct (oa_frontiers _ _ OA) as [F1 F2]. split.
    + intros c st rm cur Hc Hf. rewrite E2 in Hc. pose proof (F1 _ _ _ _ Hc Hf) as Hcur. rewrite (bd_nodes _ _ _ BD), decide_True; [done|].
      apply (go_fresh _ (oa_graph _ _ OA)). by rewrite Hcur.
    + intros cur c rm Hcur. rewrite E2. destruct (bound_node _ _ Hcur) as [[_ Hcur']|(_ & _ & _ & _ & _ & _ & _ & Hnc & _)]; [by apply F2|done].
Qed.

Lemma bound_installed : installed_copy N Src itf order copy ref N' sites.
Proof.
  destruct BD as [_ _ B1 B2 B3 _ _ B4 B5 B6 B7 B8]. split; [exact bound_wf|done| |done|done| |exact bound_wires|done..].
  - intros m Hm. by rewrite (bd_nodes _ _ _ BD), decide_True.
  - intros j n Hj. destruct (new_kind sites K j n (bd_kinds _ _ _ BD) Hj) as (k & d & k' & H1 & H2 & H3 & H4 & _). exists k, d, k'.
    do 3 (split; [done|]). rewrite (bd_nodes _ _ _ BD), decide_False by lia. by replace (base + j - base) with j by lia.
Qed.

End bounded.

Lemma install_whole_spec : exists N' sites, install_whole_copy N copy ref = Ok (N', base) /\
  installed_copy N Src itf order copy ref N' sites.
Proof. destruct install_bound as (N' & sites & K & H & BD). exists N', sites. split; [done|]. by eapply bound_installed. Qed.

End installed.
