(* ===== verification/WholeSteps.v ===== *)
(** * Calls and copies made whole

    A call on a source with no evaluation left is resumed by a whole copy, and
    a copy that has not advanced is replaced by one. Both keep the target well
    formed and the copies in progress in step. *)
From stdpp Require Import base option list numbers gmap fin_maps tactics.
From Stdlib Require Import ZArith Lia.
From S2P Require Import Prelude NetModel RuntimeGraph Boundary Rewrite Calls FanSites WholeCopy Copies CopyInvariant CopyStart WholeCapture WholeInstall.

Section whole_steps.
Context {S : NetSpecialization} {P : PayloadDuplicator S}.
Implicit Types (N Src : RuntimeNet) (c l m : nat) (r : Port).

(** Node IDs and fan sites for the copy. *)
Record whole_room N (copy : WholeCopy) : Prop := {
  wr_nodes : (Z.of_nat (next_node_id N + WHOLE_COPY_MAX_NODES) <= u64_max)%Z;
  wr_sites : (next_fan_site N + Z.of_nat (length (whole_sites (wc_nodes copy))) <= usize_max)%Z;
}.

(** What faces the interface provides. *)
Lemma captured_sign Src itf order copy :
  net_wf Src -> rt_exposed Src = Some itf -> captured Src itf order copy -> wc_root_sign copy = Provides.
Proof.
  intros W He CA. destruct (wh_root _ _ _ _ CA) as (rn & _ & Hr). destruct (nw_exposed _ W _ He) as [Hi Hn].
  destruct (nw_nodes _ W _ _ Hn) as [_ Ho]. destruct itf as [jn ji]. cbn in *. subst ji. rewrite (own_sign _ _ _ Hr) in Ho.
  injection Ho as Ho. by destruct (wc_root_sign copy).
Qed.

Lemma whole_copy_Some Src copy :
  net_wf Src -> whole_copy Src = Ok (Some copy) -> exists itf order, rt_exposed Src = Some itf /\ captured Src itf order copy.
Proof.
  intros W H. destruct (whole_copy_spec Src W) as (res & Hres & HR). rewrite H in Hres. injection Hres as <-. apply HR.
Qed.

(** The installation, in a net with room. *)
Lemma install_captured N Src copy itf order ref :
  open_at N ref -> net_wf Src -> rt_exposed Src = Some itf -> captured Src itf order copy -> sign ref = Consumes ->
  whole_room N copy ->
  exists N' sites, install_whole_copy N copy ref = Ok (N', next_node_id N) /\ installed_copy N Src itf order copy ref N' sites.
Proof.
  intros OA W He CA Hs [R1 R2]. apply install_whole_spec; try done.
  - by rewrite (captured_sign _ _ _ _ W He CA).
  - pose proof (wh_length _ _ _ _ CA). lia.
Qed.

(** Old ports keep their signs. *)
Lemma installed_own N Src itf order copy ref N' sites p :
  installed_copy N Src itf order copy ref N' sites -> node p < next_node_id N ->
  own N' p = if decide (p = port ref) then Some (sign ref) else own N p.
Proof.
  intros IC Hp. case_decide as Hd.
  - subst p. rewrite (own_sign _ _ _ (ic_ref _ _ _ _ _ _ _ _ IC)). cbn. by rewrite opposite_opposite.
  - unfold own, signed. by rewrite (ic_refs _ _ _ _ _ _ _ _ IC).
Qed.

(** ** Calls *)
Lemma severed_open N key l m kr N2 :
  claimed N key l m RBind kr -> is_cursor kr = false -> own N (principal l) = Some Consumes -> severed N l m N2 ->
  open_at N2 (MkSignedPort (principal l) Consumes).
Proof.
  intros C Hkr Hown SV. pose proof (cl_wf _ _ _ _ _ _ C) as W. destruct (call_nodes N l m kr key C) as (Hl & Hm & Hne).
  destruct (sv_rest _ _ _ _ SV) as [R1 R2 R3 R4]. split; cbn [port sign]; try apply SV.
  - by rewrite (sv_refs _ _ _ _ SV), decide_True by auto.
  - exists RBind. rewrite (sv_nodes _ _ _ _ SV), decide_False by done. split; [apply C|cbn; lia].
  - unfold obligated. rewrite (sv_obligations _ _ _ _ SV).
    apply (ordinary_not_obligated N l RBind); [apply W|apply C|done].
  - intros n k Hk. rewrite (sv_nodes _ _ _ _ SV) in Hk. case_decide; [done|].
    eapply node_wf_proper; [|by apply (nw_nodes _ W)]. intros i. cbn. case_decide as Hd; [by rewrite Hd|].
    unfold own, signed. rewrite (sv_refs _ _ _ _ SV), decide_False; [done|]. intros [?|[= ->]]; done.
  - intros p Hp. rewrite R1 in Hp. destruct (nw_exposed _ W p Hp) as [Hi Hn]. split; [done|].
    rewrite (sv_nodes _ _ _ _ SV), decide_False; [done|]. intros Heq.
    rewrite Heq, (cl_right _ _ _ _ _ _ C) in Hn. injection Hn as ->. destruct (cl_pair _ _ _ _ _ _ C) as [s Hpair].
    destruct (nw_nodes _ W _ _ (cl_right _ _ _ _ _ _ C)) as [H0 _]. apply (go_sym _ (nw_graph _ W)), own_sign in Hpair.
    unfold principal in Hpair. cbn in H0. congruence.
  - destruct (nw_frontiers _ W) as [F1 F2]. split.
    + intros cp st rm cur Hc Hf. rewrite R4 in Hc. pose proof (F1 _ _ _ _ Hc Hf) as Hcur. rewrite (sv_nodes _ _ _ _ SV), decide_False; [done|].
      intros ->. rewrite (cl_right _ _ _ _ _ _ C) in Hcur. by injection Hcur as ->.
    + intros cur cp rm Hcur. rewrite (sv_nodes _ _ _ _ SV) in Hcur. case_decide; [done|]. rewrite R4. by apply F2.
Qed.

(** The copies in progress when the bind [l] got its function. *)
Definition copies_kept N N' : Prop := forall cp st Src ex copied, copies N !! cp = Some st -> copy_ok N st Src ex copied ->
  copies N' !! cp = Some st /\ copy_ok N' st Src ex copied.

Lemma severed_kept N key l m kr N2 Src itf order copy N' sites :
  claimed N key l m RBind kr -> is_cursor kr = false -> own N (principal l) = Some Consumes -> severed N l m N2 ->
  installed_copy N2 Src itf order copy (MkSignedPort (principal l) Consumes) N' sites -> copies_kept N N'.
Proof.
  intros C Hkr Hown SV IC cp st Src0 ex copied Hcp CO. pose proof (cl_wf _ _ _ _ _ _ C) as W.
  destruct (sv_rest _ _ _ _ SV) as [R1 R2 R3 R4]. destruct (ic_rest _ _ _ _ _ _ _ _ IC) as (E1 & E2 & _). split; [congruence|].
  eapply copy_ok_frame; [done| |].
  - intros q cur Hf. pose proof (proj1 (nw_frontiers _ W) _ _ _ _ Hcp Hf) as Hcur.
    rewrite (installed_own _ _ _ _ _ _ _ _ (principal cur) IC).
    + case_decide as Hd; [cbn in Hd; rewrite Hd; by rewrite Hown|]. unfold own, signed. rewrite (sv_refs _ _ _ _ SV), decide_False; [done|].
      intros [?|[= ->]]; [done|]. rewrite (cl_right _ _ _ _ _ _ C) in Hcur. by injection Hcur as ->.
    + rewrite (sv_next _ _ _ _ SV). apply (go_fresh _ (nw_graph _ W)). cbn. by rewrite Hcur.
  - rewrite <- R2. apply (sm_base _ _ _ (ic_sites _ _ _ _ _ _ _ _ IC)).
Qed.

Lemma whole_call_spec N call d Src copy :
  claimed N (call_pair call) (call_bind call) (call_data call) RBind (RData d) ->
  net_wf Src -> whole_copy Src = Ok (Some copy) -> whole_room N copy ->
  exists N2 N' itf order sites, rt_exposed Src = Some itf /\ captured Src itf order copy /\
    severed N (call_bind call) (call_data call) N2 /\
    resume_claimed_call_with_copy N call (PcsWhole copy) = Ok (N', next_node_id N) /\
    installed_copy N2 Src itf order copy (MkSignedPort (principal (call_bind call)) Consumes) N' sites /\
    copies_kept N N'.
Proof.
  intros C WS Hw [Hr1 Hr2]. destruct (whole_copy_Some _ _ WS Hw) as (itf & order & He & CA).
  set (l := call_bind call) in *. set (m := call_data call) in *. pose proof (call_consumes _ _ _ _ _ C) as Hown.
  destruct (sever N _ l m _ C eq_refl eq_refl) as (N1 & N2 & H1 & H2 & SV).
  pose proof (severed_open _ _ _ _ _ _ C eq_refl Hown SV) as OA. pose proof (sv_next _ _ _ _ SV) as Hnx.
  destruct (install_captured N2 Src copy itf order _ OA WS He CA eq_refl) as (N' & sites & HI & IC).
  { split; [by rewrite Hnx|]. by rewrite (sr_fan _ _ (sv_rest _ _ _ _ SV)). }
  exists N2, N', itf, order, sites. split; [done|]. split; [done|]. split; [done|].
  split; [|split; [done|exact (severed_kept _ _ _ _ _ _ _ _ _ _ _ _ C eq_refl Hown SV IC)]].
  rewrite <- Hnx, <- HI. exact (attach_call_severed N call _ (PcsWhole copy) N1 N2 C H1 H2 Hown).
Qed.

(** Resuming a claimed call with a whole copy of its source never
    panics: the function datum is gone and the bind faces the root of a new
    part that is isomorphic to the captured part of the source, node by node
    and wire by wire, fan sites renamed injectively to fresh ones; the result
    is well formed, and the copies in progress go on. *)
Theorem call_resumed_with_whole_copy N call d Src copy :
  claimed N (call_pair call) (call_bind call) (call_data call) RBind (RData d) ->
  net_wf Src -> whole_copy Src = Ok (Some copy) -> whole_room N copy ->
  exists N2 N' itf order sites, rt_exposed Src = Some itf /\ captured Src itf order copy /\
    severed N (call_bind call) (call_data call) N2 /\
    resume_claimed_call_with_copy N call (PcsWhole copy) = Ok (N', next_node_id N) /\
    installed_copy N2 Src itf order copy (MkSignedPort (principal (call_bind call)) Consumes) N' sites /\
    copies_kept N N'.
Proof. apply whole_call_spec. Qed.

(** ** Copies that have not advanced *)

(** The net without the cursor [c] of copy [cp], and without the copy. *)
Record uncopied N (cp : Z) c (ref : SignedPort) N' : Prop := {
  uc_graph : graph_ok N';
  uc_active : active_ok N' None;
  uc_nodes : forall n, node_at N' n = if decide (n = c) then None else node_at N n;
  uc_refs : forall p, reference N' p = if decide (p = principal c \/ p = port ref) then None else reference N p;
  uc_next : next_node_id N' = next_node_id N;
  uc_obligations : cursor_obligations N' = delete c (cursor_obligations N);
  uc_copies : copies N' = delete cp (copies N);
  uc_rest : rt_exposed N' = rt_exposed N /\ next_fan_site N' = next_fan_site N /\ next_copy_id N' = next_copy_id N;
}.

Lemma uncopy N cp c r ref :
  net_wf N -> node_at N c = Some (RRemoteCursor cp r) -> reference N (principal c) = Some ref -> in_flight N c = false ->
  exists N1 N2, take_reference (unschedule_node N c) (principal c) = Ok (N1, Some ref) /\
    remove_node N1 c = Ok (N2, RRemoteCursor cp r) /\ uncopied N cp c ref (with_copies N2 (delete cp (copies N2))).
Proof.
  intros W Hc Hr Hfl. destruct (cut_peer N OwnObligation c ref) as (N1 & H1 & G1 & P1 & (Hn1 & Hr1 & Hx1 & [S1 S2 S3 S4]) & Ho1 & _); try done.
  { apply W. } { split; [apply W|done]. }
  { intros Hp. unfold in_flight, rt_active_pair_key, neighbor, is_claimed_pair in Hfl. rewrite Hr in Hfl. cbn in Hfl. rewrite Hp in Hfl.
    intros Hcl. by rewrite Hcl in Hfl. }
  destruct (remove_node_spec N1 c (RRemoteCursor cp r) G1) as (N2 & H2 & G2 & Hn2 & Hr2 & Hx2 & [Q1 Q2 Q3 Q4] & Ha2 & Ho2).
  { by rewrite Hn1. }
  { intros i. rewrite Hr1. case_decide as Hd; [done|]. apply reference_invalid. intros (k & Hk & Hi). cbn in Hk, Hi.
    rewrite Hc in Hk. injection Hk as <-. cbn in Hi. apply Hd. left. unfold principal. f_equal. lia. }
  exists N1, N2. do 2 (split; [done|]). split.
  - by apply (graph_ok_same N2).
  - destruct (pending_ok_add N1 (with_copies N2 (delete cp (copies N2))) OwnObligation) as [A _]; [done|done|done|]. exact A.
  - intros n. change (node_at N2 n = if decide (n = c) then None else node_at N n). rewrite Hn2. case_decide; [done|]. apply Hn1.
  - intros p. change (reference N2 p = if decide (p = principal c \/ p = port ref) then None else reference N p). by rewrite Hr2, Hr1.
  - cbn. by rewrite Hx2, Hx1.
  - cbn. by rewrite Ho2, Ho1.
  - cbn. by rewrite Q4, S4.
  - cbn. by rewrite Q1, Q2, Q3, S1, S2, S3.
Qed.

Lemma uncopied_open N cp c r st ref N3 :
  net_wf N -> node_at N c = Some (RRemoteCursor cp r) -> reference N (principal c) = Some ref ->
  copies N !! cp = Some st -> frontiers st = {[r := c]} -> uncopied N cp c ref N3 -> open_at N3 ref.
Proof.
  intros W Hc Hr Hst Hf UC. destruct (uc_rest _ _ _ _ _ UC) as (R1 & R2 & R3).
  destruct (cursor_peer N c cp r ref (nw_graph _ W) Hc Hr) as (Hne & Hnp & (k0 & Hk0 & Hi0) & Hb).
  assert (Hrefs : forall n i, n <> c -> (if decide (MkPort n i = port ref) then Some (sign ref) else own N3 (MkPort n i)) = own N (MkPort n i)).
  { intros n i Hn. case_decide as Hd; [rewrite Hd, (own_sign _ _ _ Hb); cbn; by rewrite opposite_opposite|].
    unfold own, signed. rewrite (uc_refs _ _ _ _ _ UC), decide_False; [done|]. intros [[= ->]|?]; done. }
  split; try apply UC.
  - by rewrite (uc_refs _ _ _ _ _ UC), decide_True by auto.
  - exists k0. by rewrite (uc_nodes _ _ _ _ _ UC), decide_False.
  - unfold obligated. rewrite (uc_obligations _ _ _ _ _ UC), lookup_delete_ne by done. intros Ho.
    destruct (decide (is_principal (port ref) = true)) as [Hp|Hp].
    + apply is_principal_spec in Hp. rewrite Hp in Hb. eapply (paired_quiet N _ _ (nw_graph _ W) Hb eq_refl). exact Ho.
    + destruct Ho as [o Ho]. destruct (go_obligations _ (nw_graph _ W) _ _ Ho) as (_ & (cp' & rm & Hcur) & _).
      rewrite Hcur in Hk0. injection Hk0 as <-. cbn in Hi0. apply Hp, is_principal_spec. destruct (port ref) as [a b]. cbn in *. unfold principal. f_equal. lia.
  - intros n k Hk. rewrite (uc_nodes _ _ _ _ _ UC) in Hk. case_decide as Hn; [done|].
    eapply node_wf_proper; [intros i; by apply Hrefs|]. by apply (nw_nodes _ W).
  - intros p Hp. rewrite R1 in Hp. destruct (nw_exposed _ W p Hp) as [Hi Hk]. split; [done|].
    rewrite (uc_nodes _ _ _ _ _ UC), decide_False; [done|]. intros Heq. rewrite Heq, Hc in Hk. done.
  - destruct (nw_frontiers _ W) as [F1 F2]. split.
    + intros cp' st' rm cur Hcp Hfr. rewrite (uc_copies _ _ _ _ _ UC) in Hcp. apply lookup_delete_Some in Hcp as [Hcne Hcp].
      pose proof (F1 _ _ _ _ Hcp Hfr) as Hcur. rewrite (uc_nodes _ _ _ _ _ UC), decide_False; [done|]. intros ->. congruence.
    + intros cur cp' rm Hcur. rewrite (uc_nodes _ _ _ _ _ UC) in Hcur. case_decide as Hd; [done|].
      destruct (F2 _ _ _ Hcur) as (st' & H1 & H2). exists st'. split; [|done]. rewrite (uc_copies _ _ _ _ _ UC), lookup_delete_ne; [done|].
      intros <-. rewrite Hst in H1. injection H1 as <-. rewrite Hf in H2. apply lookup_singleton_Some in H2 as [_ ->]. done.
Qed.

Lemma single_frontier (f : gmap Port nat) r c : size f = 1 -> f !! r = Some c -> f = {[r := c]}.
Proof.
  intros Hs Hr. rewrite <- (insert_delete_id f r c Hr). assert (delete r f = ∅) as ->.
  { apply map_size_empty_inv. rewrite map_size_delete_Some by (by exists c). by rewrite Hs. }
  done.
Qed.

(** Which copies are made whole. *)
Definition unadvanced N (cp : Z) r c : Prop := exists st, copies N !! cp = Some st /\ frontiers st = {[r := c]} /\ in_flight N c = false.

Lemma unadvanced_cursor_spec N cp r : net_wf N ->
  exists found, unadvanced_cursor N cp r = Ok found /\ forall c, found = Some c <-> unadvanced N cp r c.
Proof.
  intros W. unfold unadvanced_cursor, unadvanced. destruct (copies N !! cp) as [st|] eqn:Ec.
  2: { exists None. split; [done|]. intros c. split; [done|]. intros (st & ? & _). done. }
  destruct (decide (size (frontiers st) = 1)) as [Hs|Hs].
  2: { rewrite bool_decide_false by done. exists None. split; [done|]. intros c. split; [done|]. intros (st' & [= <-] & Hf & _).
       rewrite Hf, map_size_singleton in Hs. done. }
  rewrite bool_decide_true by done. cbn [negb]. destruct (frontiers st !! r) as [c|] eqn:Ef.
  2: { exists None. split; [done|]. intros c. split; [done|]. intros (st' & [= <-] & Hf & _). by rewrite Hf, lookup_singleton_eq in Ef. }
  rewrite (in_flight_spec N c (nw_graph _ W)). cbn [mbind outcome_bind]. eexists. split; [done|]. intros c'. split.
  - destruct (in_flight N c) eqn:Efl; [done|]. intros [= <-]. exists st. split; [done|]. split; [by apply single_frontier|done].
  - intros (st' & [= <-] & Hf & Hfl). rewrite Hf, lookup_singleton_eq in Ef. injection Ef as <-. by rewrite Hfl.
Qed.

Lemma uncopied_kept N cp c r ref N3 Src itf order copy N' sites :
  net_wf N -> node_at N c = Some (RRemoteCursor cp r) -> reference N (principal c) = Some ref ->
  uncopied N cp c ref N3 -> installed_copy N3 Src itf order copy ref N' sites ->
  forall cp2 st2 Src2 ex2 copied2, cp2 <> cp -> copies N !! cp2 = Some st2 -> copy_ok N st2 Src2 ex2 copied2 ->
    copies N' !! cp2 = Some st2 /\ copy_ok N' st2 Src2 ex2 copied2.
Proof.
  intros W Hc Hr UC IC cp2 st2 Src2 ex2 copied2 Hne Hcp CO. destruct (uc_rest _ _ _ _ _ UC) as (R1 & R2 & R3).
  destruct (ic_rest _ _ _ _ _ _ _ _ IC) as (E1 & E2 & _). split.
  { rewrite E2, (uc_copies _ _ _ _ _ UC). by rewrite lookup_delete_ne. }
  destruct (cursor_peer N c cp r ref (nw_graph _ W) Hc Hr) as (_ & _ & _ & Hb).
  eapply copy_ok_frame; [done| |rewrite <- R2; apply (sm_base _ _ _ (ic_sites _ _ _ _ _ _ _ _ IC))].
  intros q cur Hf. pose proof (proj1 (nw_frontiers _ W) _ _ _ _ Hcp Hf) as Hcur.
  rewrite (installed_own _ _ _ _ _ _ _ _ (principal cur) IC).
  - case_decide as Hd; [rewrite Hd, (own_sign _ _ _ Hb); cbn; by rewrite opposite_opposite|].
    unfold own, signed. rewrite (uc_refs _ _ _ _ _ UC), decide_False; [done|]. intros [[= ->]|?]; [congruence|done].
  - rewrite (uc_next _ _ _ _ _ UC). apply (go_fresh _ (nw_graph _ W)). cbn. by rewrite Hcur.
Qed.

Lemma make_whole_spec N cp st r Src ex copied copy :
  net_wf N -> net_wf Src -> copies N !! cp = Some st -> copy_ok N st Src ex copied ->
  whole_copy_for Src r = Ok (Some copy) -> whole_room N copy ->
  exists N' ok, make_copy_whole N cp r copy = Ok (N', ok) /\
    (ok = true <-> exists c, unadvanced N cp r c) /\
    if ok then exists c ref N3 order sites, reference N (principal c) = Some ref /\ unadvanced N cp r c /\
      captured Src r order copy /\ uncopied N cp c ref N3 /\ installed_copy N3 Src r order copy ref N' sites /\
      forall cp2 st2 Src2 ex2 copied2, cp2 <> cp -> copies N !! cp2 = Some st2 -> copy_ok N st2 Src2 ex2 copied2 ->
        copies N' !! cp2 = Some st2 /\ copy_ok N' st2 Src2 ex2 copied2
    else N' = N.
Proof.
  intros W WS Hst CO Hw [Hr1 Hr2]. unfold make_copy_whole.
  destruct (unadvanced_cursor_spec N cp r W) as ([c|] & -> & Hfound); cbn [mbind outcome_bind].
  2: { exists N, false. split; [done|]. split; [|done]. split; [done|]. intros [c Hc%Hfound]. done. }
  pose proof (proj1 (Hfound c) eq_refl) as (st' & Hst' & Hf & Hfl). rewrite Hst in Hst'. injection Hst' as <-.
  unfold whole_copy_for in Hw. case_bool_decide as He; [cbn in Hw|done].
  destruct (whole_copy_Some _ _ WS Hw) as (itf & order & He' & CA). rewrite He in He'. injection He' as <-.
  assert (Hfr : frontiers st !! r = Some c) by (by rewrite Hf, lookup_singleton_eq).
  pose proof (proj1 (nw_frontiers _ W) _ _ _ _ Hst Hfr) as Hc.
  destruct (nw_nodes _ W _ _ Hc) as [s [q Hr]%own_reference]. set (ref := MkSignedPort q (opposite s)) in Hr.
  change (reference N (principal c) = Some ref) in Hr. clearbody ref.
  destruct (uncopy N cp c r ref W Hc Hr Hfl) as (N1 & N2 & H1 & H2 & UC). set (N3 := with_copies N2 _) in UC.
  assert (Hsg : sign ref = Consumes).
  { destruct (co_sign _ _ _ _ _ CO _ _ Hfr) as (s' & Hs' & Hc'). rewrite (own_sign _ _ _ Hr) in Hc'. injection Hc' as Hc'.
    destruct (nw_exposed _ WS _ He) as [Hi Hn]. destruct (nw_nodes _ WS _ _ Hn) as [_ Ho]. destruct r as [rn ri]. cbn in Hi, Ho. subst ri.
    rewrite Hs' in Ho. injection Ho as ->. revert Hc'. destruct (sign ref); done. }
  destruct (install_captured N3 Src copy r order ref) as (N' & sites & HI & IC); try done.
  { by eapply (uncopied_open N cp c r st ref N3). }
  { split; [by rewrite (uc_next _ _ _ _ _ UC)|]. destruct (uc_rest _ _ _ _ _ UC) as (_ & -> & _). done. }
  exists N', true. split.
  { rewrite H1. cbn [mbind outcome_bind expect]. rewrite H2. cbn [mbind outcome_bind]. fold N3. by rewrite HI. }
  split; [split; [intros _; exists c; by apply Hfound|done]|].
  exists c, ref, N3, order, sites. split; [done|]. split; [by apply Hfound|]. split; [done|]. split; [done|]. split; [done|].
  exact (uncopied_kept _ _ _ _ _ _ _ _ _ _ _ _ W Hc Hr UC IC).
Qed.

(** Making a copy whole, with a capture of its source from the port it
    began at: it happens exactly when the copy's only cursor is still there
    and not claimed, and otherwise changes nothing. Then the cursor and the
    copy are gone, what faced the cursor faces the root of a part isomorphic
    to the source, as if the copy had begun whole; the target is well formed
    and the other copies go on. *)
Theorem make_copy_whole_correct N cp st r Src ex copied copy :
  net_wf N -> net_wf Src -> copies N !! cp = Some st -> copy_ok N st Src ex copied ->
  whole_copy_for Src r = Ok (Some copy) -> whole_room N copy ->
  exists N' ok, make_copy_whole N cp r copy = Ok (N', ok) /\
    (ok = true <-> exists c, unadvanced N cp r c) /\
    if ok then exists c ref N3 order sites, reference N (principal c) = Some ref /\ unadvanced N cp r c /\
      captured Src r order copy /\ uncopied N cp c ref N3 /\ installed_copy N3 Src r order copy ref N' sites /\
      forall cp2 st2 Src2 ex2 copied2, cp2 <> cp -> copies N !! cp2 = Some st2 -> copy_ok N st2 Src2 ex2 copied2 ->
        copies N' !! cp2 = Some st2 /\ copy_ok N' st2 Src2 ex2 copied2
    else N' = N.
Proof. apply make_whole_spec. Qed.

End whole_steps.
