(* ===== verification/Changes.v ===== *)
(** * Every way a runtime net changes

    One relation collects the operations that evaluation performs on a net:
    reducing a pair, serving a call in each of its ways, editing a checkpoint,
    advancing or making whole a copy, and anything that only changes the
    states of pairs and cursors. Each keeps the net well formed and has the
    frame [evolves]. So a call that was superseded is refused ever after. *)
From stdpp Require Import base option list numbers gmap tactics.
From Stdlib Require Import ZArith Lia.
From S2P Require Import Prelude NetModel RuntimeGraph Boundary Rewrite Instantiate Calls Evolution WalkCycle FanSites WholeCopy Copies.
From S2P Require Import CopyInvariant CopySteps CopyStart WholeCapture WholeInstall WholeSteps.

Section changes.
Context {S : NetSpecialization} {P : PayloadDuplicator S}.
Implicit Types (N Src : RuntimeNet) (n m c l : nat) (r : Port).

Inductive net_change N : RuntimeNet -> Prop :=
  | ch_reduce key N' red : reducible N key -> reduce_pair N key = Ok (N', red) -> net_change N N'
  | ch_request rq N' ok ret : checkpoint_request N rq = Ok (N', (ok, ret)) -> net_change N N'
  | ch_complete call o d result N' n :
      claimed N (oc_pair call) (oc_operator call) (oc_data call) (ROperator o) (RData d) ->
      complete_operator_call N call result = Ok (N', n) -> net_change N N'
  | ch_operator call d o N' n :
      claimed N (call_pair call) (call_bind call) (call_data call) RBind (RData d) ->
      resume_claimed_call_with_operator N call o = Ok (N', n) -> net_change N N'
  | ch_checkpoint_operator call ck o N' n :
      claimed N (cc_pair call) (cc_bind call) (cc_checkpoint call) RBind (RCallableCheckpoint ck) ->
      resume_claimed_checkpoint_with_operator N call o = Ok (N', n) -> net_change N N'
  | ch_copy call d source r Src N' c :
      claimed N (call_pair call) (call_bind call) (call_data call) RBind (RData d) ->
      copies_fresh N -> (next_copy_id N + 1 <= usize_max)%Z -> net_wf Src -> rt_exposed Src = Some r ->
      resume_claimed_call_with_copy N call (PcsCursor source r) = Ok (N', c) -> net_change N N'
  | ch_checkpoint_copy call ck source r Src N' c :
      claimed N (cc_pair call) (cc_bind call) (cc_checkpoint call) RBind (RCallableCheckpoint ck) ->
      own N (principal (cc_bind call)) = Some Consumes ->
      copies_fresh N -> (next_copy_id N + 1 <= usize_max)%Z -> net_wf Src -> rt_exposed Src = Some r ->
      resume_claimed_checkpoint_with_copy N call (PcsCursor source r) = Ok (N', c) -> net_change N N'
  | ch_whole call d Src copy N' c :
      claimed N (call_pair call) (call_bind call) (call_data call) RBind (RData d) ->
      net_wf Src -> whole_copy Src = Ok (Some copy) -> whole_room N copy ->
      resume_claimed_call_with_copy N call (PcsWhole copy) = Ok (N', c) -> net_change N N'
  | ch_cursor claim st Src ex copied source topology frontier N' progress :
      claim_ok N claim st Src ex copied ->
      inspect_source_frontier Src source topology (claim_remote claim) = Ok frontier ->
      finish_cursor_claim N claim frontier = Ok (N', progress) -> net_change N N'
  | ch_make_whole cp st r Src ex copied copy N' ok :
      net_wf Src -> copies N !! cp = Some st -> copy_ok N st Src ex copied ->
      whole_copy_for Src r = Ok (Some copy) -> whole_room N copy ->
      make_copy_whole N cp r copy = Ok (N', ok) -> net_change N N'
  | ch_states N' : rt_nodes N' = rt_nodes N -> next_node_id N' = next_node_id N -> net_wf N' -> net_change N N'.

Lemma started_evolves N key l m kr source r N' c : claimed N key l m RBind kr -> aux_count kr = 0 -> is_cursor kr = false ->
  started N l m source r N' c -> evolves N N'.
Proof.
  intros C Haux Hcur ST. pose proof (cl_wf _ _ _ _ _ _ C) as W. pose proof (nw_graph _ W) as G. destruct (st_cursor _ _ _ _ _ _ _ ST) as [Hc Hcn].
  pose proof (go_fresh _ (nw_graph _ (st_wf _ _ _ _ _ _ _ ST)) c ltac:(by rewrite Hcn)) as Hx.
  destruct (cl_pair _ _ _ _ _ _ C) as [s Hp]. pose proof (go_sym _ G _ _ _ Hp) as Hp'.
  apply (evolves_ends _ _ (fun n => n = m)); [done|lia|..].
  - intros n ->. exists kr. split; [apply C|]. unfold aux_count in Haux. pose proof (nw_nodes _ W _ _ (cl_right _ _ _ _ _ _ C)) as Hk.
    destruct kr; cbn in *; try done.
  - intros n ->. apply ST.
  - intros n Hn Hnm. apply (st_nodes _ _ _ _ _ _ _ ST); [lia|done].
  - intros p q H1 H2 Hq. rewrite (st_refs _ _ _ _ _ _ _ ST); [done|..].
    + intros ->. rewrite Hp in Hq. by injection Hq as <-.
    + by intros ->.
    + intros ->. apply (reference_alive _ _ _ G) in Hq as [Ha _]. apply (go_fresh _ G) in Ha. cbn in Ha. lia.
Qed.

(** A part installed where one end [m] without auxiliaries was taken away,
    [port ref] left free. *)
Lemma installed_evolves N N2 m km ref Src itf order copy N' sites : net_wf N -> node_at N m = Some km -> runtime_port_count km = 1 ->
  reference N (principal m) = Some ref -> next_node_id N2 = next_node_id N ->
  (forall n, node_at N2 n = if decide (n = m) then None else node_at N n) ->
  (forall p, reference N2 p = if decide (p = principal m \/ p = port ref) then None else reference N p) ->
  installed_copy N2 Src itf order copy (MkSignedPort (port ref) (sign ref)) N' sites -> evolves N N'.
Proof.
  intros W Hm Hk Hr Hx Hn Hrefs IC. pose proof (nw_graph _ W) as G. pose proof (ic_next _ _ _ _ _ _ _ _ IC) as Hx'.
  apply (evolves_ends _ _ (fun n => n = m)); [done|lia|..].
  - intros n ->. eauto.
  - intros n ->. rewrite (ic_old _ _ _ _ _ _ _ _ IC), Hn, decide_True; [done..|]. rewrite Hx. apply (go_fresh _ G). by rewrite Hm.
  - intros n Hlt Hnm. rewrite (ic_old _ _ _ _ _ _ _ _ IC), Hn, decide_False; [done..|lia].
  - intros p q H1 H2 Hq. assert (Hne : p <> port ref).
    { intros ->. destruct ref as [rp rs]. apply (go_sym _ G) in Hr. cbn in Hq. rewrite Hr in Hq. injection Hq as <-. by cbn in H2. }
    rewrite (ic_refs _ _ _ _ _ _ _ _ IC); [|rewrite Hx; apply (go_fresh _ G); by apply (reference_alive _ _ _ G) in Hq as [? _]|done].
    rewrite Hrefs, decide_False; [done|]. intros [-> | ?]; done.
Qed.

Lemma same_result {E A} (m : outcome E A) a b : m = Ok a -> m = Ok b -> a = b.
Proof. intros -> [=]. done. Qed.

(** Use what is known of an operation's result. *)
Ltac same_net :=
  match goal with H1 : ?m = Ok ?a, H2 : ?m = Ok ?b |- _ => pose proof (same_result m a b H1 H2); simplify_eq; clear H2 end.

Lemma whole_call_change N call d Src copy N' c :
  claimed N (call_pair call) (call_bind call) (call_data call) RBind (RData d) ->
  net_wf Src -> whole_copy Src = Ok (Some copy) -> whole_room N copy ->
  resume_claimed_call_with_copy N call (PcsWhole copy) = Ok (N', c) -> net_wf N' /\ evolves N N'.
Proof.
  intros C WS Hw HR H. pose proof (call_consumes _ _ _ _ _ C) as Hown. apply own_reference in Hown as [q Hq].
  destruct (whole_call_spec N call d Src copy C WS Hw HR) as (N2 & N1 & itf & order & sites & _ & _ & SV & H1 & IC & _).
  same_net. split; [apply IC|]. destruct (cl_pair _ _ _ _ _ _ C) as [s Hp]. rewrite Hp in Hq. injection Hq as <- ->.
  eapply (installed_evolves N N2 (call_data call) (RData d) (MkSignedPort (principal (call_bind call)) Consumes)); [apply C|apply C|done|..|exact IC].
  - apply (go_sym _ (nw_graph _ (cl_wf _ _ _ _ _ _ C))) in Hp. exact Hp.
  - apply SV.
  - apply SV.
  - intros p. rewrite (sv_refs _ _ _ _ SV). cbn [port]. case_decide; case_decide; tauto.
Qed.

Lemma make_whole_change N cp st r Src ex copied copy N' ok : net_wf N ->
  net_wf Src -> copies N !! cp = Some st -> copy_ok N st Src ex copied ->
  whole_copy_for Src r = Ok (Some copy) -> whole_room N copy ->
  make_copy_whole N cp r copy = Ok (N', ok) -> net_wf N' /\ evolves N N'.
Proof.
  intros W WS Hst CO Hw HR H. destruct (make_whole_spec N cp st r Src ex copied copy W WS Hst CO Hw HR) as (N1 & ok1 & H1 & _ & Hok).
  same_net. destruct ok1; [|subst; split; [done|by apply evolves_refl]].
  destruct Hok as (c & ref & N3 & order & sites & Hr & (st' & Hst' & Hf & _) & _ & UC & IC & _). split; [apply IC|].
  assert (Hc : node_at N c = Some (RRemoteCursor cp r)).
  { eapply (proj1 (nw_frontiers _ W)); [done|]. by rewrite Hf, lookup_singleton_eq. }
  eapply (installed_evolves N N3 c _ ref); [done|exact Hc|done|exact Hr|apply UC|apply UC|apply UC|]. by destruct ref.
Qed.

(** Every change keeps the net well formed and the rest of it in place. *)
Lemma change_evolves N N' : net_wf N -> net_change N N' -> net_wf N' /\ evolves N N'.
Proof.
  intros W HC. destruct HC as [key N' red HR H|rq N' ok ret H|call o d result N' n C H|call d o N' n C H|call ck o N' n C H
    |call d source r Src N' c C HF Hid WS He H|call ck source r Src N' c C Ho HF Hid WS He H|call d Src copy N' c C WS Hw HR H
    |claim st Src ex copied source topology frontier N' progress CK HI H|cp st r Src ex copied copy N' ok WS Hst CO Hw HR H|N' Hn Hx W'].
  - destruct (reducible_spec _ _ _ _ W HR H) as [kind RD]. split; [apply RD|by eapply evolves_reduced].
  - split; [|by eapply evolves_request]. apply request_effect in H as [(_ & -> & _)|(_ & [(N1 & taken & put & HK & HS & _)])]; [done|by eapply edit_wf].
  - assert (HD : completed N (oc_operator call) (oc_data call) N').
    { destruct result; [destruct (complete_data N call o d d0 C) as (N1 & n1 & t & H1 & D & _)|
        destruct (complete_function N call o d o0 C) as (N1 & n1 & t & H1 & D & _)]; by same_net. }
    split; [apply HD|by eapply evolves_claimed].
  - destruct (resume_operator_spec N call d o C) as (N1 & n1 & H1 & D & _). same_net. split; [apply D|by eapply evolves_claimed].
  - pose proof (checkpoint_operator_spec N call ck o C) as HS. destruct (_ && _); [|congruence].
    destruct HS as (N1 & n1 & H1 & D & _). same_net. split; [apply D|by eapply evolves_claimed].
  - destruct (resume_call_spec N call d source r Src C HF Hid WS He) as (N1 & c1 & H1 & ST & _). same_net.
    split; [apply ST|by eapply started_evolves].
  - pose proof (checkpoint_copy_spec N call ck source r Src C Ho HF Hid WS He) as HS. destruct (_ && _); [|congruence].
    destruct HS as (N1 & c1 & H1 & ST & _). same_net. split; [apply ST|by eapply started_evolves].
  - by eapply whole_call_change.
  - destruct (claim_frontier _ _ _ _ _ _ CK) as [_ [q Hq]].
    destruct (inspect_spec Src source topology _ q (nw_graph _ (ck_source _ _ _ _ _ _ CK)) Hq (ck_spine _ _ _ _ _ _ CK)) as (shape & H1 & Hp & HS).
    same_net. destruct (finish_spec N claim st Src ex copied q shape source topology CK Hq HS Hp) as (N1 & pr & H1 & W1 & [EV _] & _).
    by same_net.
  - by eapply make_whole_change.
  - split; [done|by apply evolves_refl].
Qed.

(** ** Superseded calls

    Where the checkpoint of a call has moved on to a later generation, no change brings
    the generation back: its node becomes a later checkpoint or disappears, and its ID
    is not used again. *)
Definition superseded N (call : CallableCheckpointCall) : Prop :=
  cc_checkpoint call < next_node_id N /\
  forall k, node_at N (cc_checkpoint call) = Some k -> exists ck, k = RCallableCheckpoint ck /\ (cc_generation call < generation ck)%Z.

Lemma superseded_evolves N N' call : evolves N N' -> superseded N call -> superseded N' call.
Proof.
  intros EV [Hlt Hk]. split; [pose proof (ev_next _ _ EV); lia|]. intros k' Hk'.
  destruct (ev_kept _ _ EV _ _ Hlt Hk') as (k & (c & -> & Hc)%Hk & [->|(c' & -> & Hg)]); [by exists c|].
  exists c'. split; [done|]. specialize (Hg c eq_refl). lia.
Qed.

Lemma changes_wf N N' : rtc net_change N N' -> net_wf N -> net_wf N' /\ forall call, superseded N call -> superseded N' call.
Proof.
  induction 1 as [|N N1 N2 HC _ IH]; [done|]. intros [W1 EV]%(fun W => change_evolves _ _ W HC).
  destruct (IH W1) as [W2 HS]. split; [done|]. intros call Hs. by apply HS, (superseded_evolves N).
Qed.

Lemma superseded_refused N call rq : superseded N call -> request_call rq = Some call -> take_sees N rq ->
  checkpoint_request N rq = Ok (N, (false, given rq)).
Proof.
  intros [_ Hs] Hcall Hsees. destruct (node_at N (cc_checkpoint call)) as [k|] eqn:E; [|by eapply gone_refused].
  destruct (Hs k eq_refl) as (c & -> & Hg). eapply (stale_refused N rq call c); [done|by apply checkpoint_at_node|lia].
Qed.


End changes.

(** A checkpoint taken and replaced, whose replacement then fails: the old call can no
    longer restore its payload. *)
Definition new_call : CallableCheckpointCall := MkCheckpointCall 0 1 0 1.
Definition failed (N : RuntimeNet (S := Sample.spec)) : RuntimeNet :=
  CallSample.after N (RqFailPublished new_call (5%Z : @SpecStuckReason Sample.spec)).

