(* ===== verification/CopySamples.v ===== *)
(** * Copies on concrete nets

    A call on a function whose net is a fan over two data is started, claimed
    and advanced, or made whole; the witnesses of the theorems of
    [CopyStart], [CopySteps], [WholeCapture] and [WholeSteps]. *)
From stdpp Require Import base option list numbers gmap fin_maps tactics.
From Stdlib Require Import ZArith Lia.
From S2P Require Import Prelude NetModel NetBuilder RuntimeGraph Boundary Rewrite Instantiate Calls FanSites WholeCopy Copies CopyInvariant CopySteps CopyStart WholeCapture WholeInstall WholeSteps.

Module CopySample.

Definition fan_builder : NetBuilder Z Z :=
  MkBuilder [Runtime (DataNode 7%Z); Runtime (DataNode 8%Z); Runtime (Fan (MkFanSite 0))]
    [MkWire (MkPort 0 0) (MkPort 2 1); MkWire (MkPort 1 0) (MkPort 2 2)]
    {[MkPort 0 0; MkPort 1 0; MkPort 2 1; MkPort 2 2]} 1.

Definition fan_net : InteractionNet Z Z :=
  MkNet [DataNode 7%Z; DataNode 8%Z; Fan (MkFanSite 0)]
    [MkWire (MkPort 0 0) (MkPort 2 1); MkWire (MkPort 1 0) (MkPort 2 2)] (MkPort 2 0).

Definition source : RuntimeNet := CallSample.instance fan_net.

Lemma source_wf : net_wf source.
Proof.
  apply (Sample.built_wf fan_builder (MkPort 2 0) fan_net); [vm_compute; reflexivity..| |vm_compute; reflexivity].
  intros site. cbn. rewrite !elem_of_cons. intros [?|[?|[[= ->]|?%not_elem_of_nil]]]; done.
Qed.

Definition call : Call := MkCall 0 1 0.
Definition target : RuntimeNet := CallSample.claim (CallSample.instance CallSample.call_net).
Definition exposed_port : Port := MkPort 3 1.

Definition begun : RuntimeNet :=
  match resume_claimed_call_with_copy target call (PcsCursor (5%Z : @RuntimeSource Sample.spec) exposed_port) with
  | Ok (N, _) => N | _ => target end.

Lemma target_fresh : copies_fresh target.
Proof. intros cp Hc. change (is_Some ((∅ : gmap Z CopyState) !! cp)) in Hc. rewrite lookup_empty in Hc. by destruct Hc. Qed.

Lemma start_spec Src : net_wf Src -> rt_exposed Src = Some exposed_port ->
  exists c, resume_claimed_call_with_copy target call (PcsCursor (5%Z : @RuntimeSource Sample.spec) exposed_port) = Ok (begun, c) /\
    started target 1 0 (5%Z : @RuntimeSource Sample.spec) exposed_port begun c /\ copies_started target Src exposed_port begun c.
Proof.
  intros WS Hex. destruct (resume_call_spec target call _ (5%Z : @RuntimeSource Sample.spec) exposed_port Src CallSample.call_claimed target_fresh)
    as (N' & c & H & R).
  { apply Z.leb_le. vm_compute. reflexivity. } { done. } { done. }
  unfold begun. rewrite H. by exists c.
Qed.

(** The new pair of bind 1 and cursor 4, claimed. *)
Definition pending : RuntimeNet := set_state begun 1 ApClaimed.

Definition claim : CursorClaim := MkClaim 4 (OwnActivePair 1) (next_copy_id target) exposed_port (5%Z : @RuntimeSource Sample.spec).

Definition state : CopyState := MkCopyState (5%Z : @RuntimeSource Sample.spec) {[exposed_port := 4]} ∅.

Lemma begun_copy Src : net_wf Src -> rt_exposed Src = Some exposed_port -> copy_ok begun state Src exposed_port ∅.
Proof.
  intros WS Hex. destruct (start_spec Src WS Hex) as (c & _ & _ & (st & Hst & _ & CO) & _).
  assert (H : copies begun !! next_copy_id target = Some state) by (vm_compute; reflexivity). rewrite H in Hst. by injection Hst as <-.
Qed.

Lemma begun_ok : net_wf begun /\ copy_ok begun state source exposed_port ∅.
Proof.
  split; [|apply begun_copy; [exact source_wf|vm_compute; reflexivity]].
  destruct (start_spec source source_wf) as (c & _ & ST & _); [vm_compute; reflexivity|]. apply ST.
Qed.

Lemma pending_wf : net_wf pending.
Proof. apply net_wf_state; [apply begun_ok|]. exists ApReady. vm_compute. reflexivity. Qed.

Lemma pending_copy Src : net_wf Src -> rt_exposed Src = Some exposed_port -> copy_ok pending state Src exposed_port ∅.
Proof. intros WS Hex. eapply (copy_ok_frame begun); [by apply begun_copy|done|done]. Qed.

Lemma source_sites n k : node_at source n = Some k ->
  (next_fan_site pending + Z.of_nat (length (kind_sites k)) <= usize_max)%Z.
Proof.
  intros Hn. destruct n as [|[|[|[|n]]]]; [vm_compute in Hn; injection Hn as <-; apply Z.leb_le; vm_compute; reflexivity..|].
  pose proof (go_fresh _ (nw_graph _ source_wf) _ ltac:(by rewrite Hn)) as Hf.
  change (next_node_id source) with 4 in Hf. lia.
Qed.

Lemma claim_is_ok : claim_ok pending claim state source exposed_port ∅.
Proof.
  split.
  - exact pending_wf.
  - exact source_wf.
  - split; vm_compute; reflexivity.
  - vm_compute; reflexivity.
  - vm_compute; reflexivity.
  - apply pending_copy; [exact source_wf|vm_compute; reflexivity].
  - apply Z.leb_le. vm_compute. reflexivity.
  - exact source_sites.
  - apply Z.leb_le. vm_compute. reflexivity.
Qed.

(** A source with a ready pair. *)
Lemma start_reducible : reducible Sample.start 0.
Proof.
  split; [vm_compute; reflexivity| |apply Z.leb_le; vm_compute; reflexivity].
  intros l m _. apply quiet_unobligated. exact (proj2 Sample.start_wf).
Qed.

End CopySample.

Lemma inspect_source_frontier_witness :
  exists frontier, inspect_source_frontier CopySample.source (5%Z : @RuntimeSource Sample.spec) 0 CopySample.exposed_port = Ok frontier /\
    frontier_port (sf_shape frontier) = principal 2.
Proof.
  destruct (inspect_source_frontier_total CopySample.source (5%Z : @RuntimeSource Sample.spec) 0 CopySample.exposed_port
    (MkSignedPort (principal 2) Provides)) as (frontier & H & _ & Hp & _).
  - apply CopySample.source_wf.
  - vm_compute. reflexivity.
  - apply Z.leb_le. vm_compute. reflexivity.
  - exists frontier. split; [exact H|exact Hp].
Defined.

Lemma cursor_step_witness :
  exists frontier N' progress,
    inspect_source_frontier CopySample.source (5%Z : @RuntimeSource Sample.spec) 0 CopySample.exposed_port = Ok frontier /\
    finish_cursor_claim CopySample.pending CopySample.claim frontier = Ok (N', progress) /\ net_wf N'.
Proof.
  destruct (cursor_step_correct CopySample.pending CopySample.claim _ _ _ _ (5%Z : @RuntimeSource Sample.spec) 0 CopySample.claim_is_ok)
    as (frontier & N' & progress & H1 & H2 & W & _).
  exists frontier, N', progress. split; [exact H1|]. split; [exact H2|exact W].
Defined.

(** The step makes a copy of the fan. *)
Lemma step_materializes :
  match (frontier ← inspect_source_frontier CopySample.source (5%Z : @RuntimeSource Sample.spec) 0 CopySample.exposed_port;
         finish_cursor_claim CopySample.pending CopySample.claim frontier) with
  | Ok (_, progress) => progress
  | _ => CpBlocked
  end = CpMaterialized 5.
Proof. vm_compute. reflexivity. Qed.

Lemma copy_tracks_reductions_witness :
  exists Src' red, reduce_pair Sample.start 0 = Ok (Src', red) /\ net_wf Src' /\
    copy_ok CopySample.pending CopySample.state Src' CopySample.exposed_port ∅.
Proof.
  destruct (reduce_pair Sample.start 0) as [[Src' red]| | |] eqn:E; [|exfalso; vm_compute in E; discriminate E..].
  exists Src', red. split; [reflexivity|].
  apply (copy_tracks_reductions CopySample.pending (next_copy_id CopySample.target) CopySample.state Sample.start CopySample.exposed_port ∅) with 0 red.
  - exact CopySample.pending_wf.
  - exact (proj1 Sample.start_wf).
  - vm_compute. reflexivity.
  - apply CopySample.pending_copy; [exact (proj1 Sample.start_wf)|vm_compute; reflexivity].
  - exact CopySample.start_reducible.
  - exact E.
Defined.

Lemma call_resumed_with_copy_witness :
  exists N' c, resume_claimed_call_with_copy CopySample.target CopySample.call
      (PcsCursor (5%Z : @RuntimeSource Sample.spec) CopySample.exposed_port) = Ok (N', c) /\ net_wf N'.
Proof.
  destruct (call_resumed_with_copy CopySample.target CopySample.call _ (5%Z : @RuntimeSource Sample.spec) CopySample.exposed_port
    CopySample.source CallSample.call_claimed CopySample.target_fresh) as (N' & c & H & ST & _).
  - apply Z.leb_le. vm_compute. reflexivity.
  - exact CopySample.source_wf.
  - vm_compute. reflexivity.
  - exists N', c. split; [exact H|apply ST].
Defined.

Lemma checkpoint_resumed_with_copy_witness :
  exists N' c, resume_claimed_checkpoint_with_copy CallSample.taken (MkCheckpointCall 0 1 0 0)
      (PcsCursor (5%Z : @RuntimeSource Sample.spec) CopySample.exposed_port) = Ok (N', c) /\ net_wf N'.
Proof.
  destruct (checkpoint_resumed_with_copy CallSample.taken (MkCheckpointCall 0 1 0 0) _ (5%Z : @RuntimeSource Sample.spec) CopySample.exposed_port
    CopySample.source CallSample.taken_claimed) as (N' & c & H & ST & _).
  - vm_compute. reflexivity.
  - intros cp Hc. change (is_Some ((∅ : gmap Z CopyState) !! cp)) in Hc. rewrite lookup_empty in Hc. by destruct Hc.
  - apply Z.leb_le. vm_compute. reflexivity.
  - exact CopySample.source_wf.
  - vm_compute. reflexivity.
  - exists N', c. split; [exact H|apply ST].
Defined.

(** The capture of the source. *)
Definition captured_source : WholeCopy :=
  match whole_copy CopySample.source with Ok (Some copy) => copy | _ => MkWholeCopy [] 0 Provides end.

Lemma whole_copy_witness :
  exists copy itf order, whole_copy CopySample.source = Ok (Some copy) /\ captured CopySample.source itf order copy.
Proof.
  destruct (whole_copy_captures CopySample.source CopySample.source_wf) as ([copy|] & H & HR);
    [|exfalso; vm_compute in H; discriminate H].
  destruct HR as (_ & itf & order & _ & CA). exists copy, itf, order. split; [exact H|exact CA].
Defined.

Lemma whole_call_witness :
  exists N', resume_claimed_call_with_copy CopySample.target CopySample.call (PcsWhole captured_source) = Ok (N', 4) /\ net_wf N'.
Proof.
  destruct (call_resumed_with_whole_copy CopySample.target CopySample.call _ CopySample.source captured_source
    CallSample.call_claimed CopySample.source_wf) as (N2 & N' & itf & order & sites & _ & _ & _ & H & IC & _).
  - vm_compute. reflexivity.
  - split; apply Z.leb_le; vm_compute; reflexivity.
  - exists N'. split; [exact H|apply IC].
Defined.

Lemma make_whole_witness :
  exists N', make_copy_whole CopySample.begun (next_copy_id CopySample.target) CopySample.exposed_port captured_source = Ok (N', true) /\
    net_wf N'.
Proof.
  destruct (make_copy_whole_correct CopySample.begun (next_copy_id CopySample.target) CopySample.state CopySample.exposed_port
    CopySample.source CopySample.exposed_port ∅ captured_source) as (N' & ok & H & Hok & HR).
  - exact (proj1 CopySample.begun_ok).
  - exact CopySample.source_wf.
  - vm_compute. reflexivity.
  - exact (proj2 CopySample.begun_ok).
  - vm_compute. reflexivity.
  - split; apply Z.leb_le; vm_compute; reflexivity.
  - assert (ok = true) as ->.
    { apply Hok. exists 4, CopySample.state. split; [vm_compute; reflexivity|]. split; [reflexivity|vm_compute; reflexivity]. }
    destruct HR as (c & ref & N3 & order & sites & _ & _ & _ & _ & IC & _). exists N'. split; [exact H|apply IC].
Defined.
