(* ===== verification/Compiled.v ===== *)
(** * Compiled nets ([src/interaction_net/runtime/compiled.rs], [apply_compiled] of
    [src/eval/operator.rs])

    A net with no evaluation left whose interactions only build values is
    compiled to a list of steps: each applies an operator to inputs, constants and
    results of earlier steps. The compiler walks back from what the body provides;
    [depth] bounds a walk by the number of nodes, as in the code. A [None] aborts
    the compilation, so the compiler's state matters only on success. [Option]
    results of the code are options, and [Port::auxiliary] of a constant index is
    the port. *)
From stdpp Require Import base option list numbers gmap sets tactics sorting.
From Stdlib Require Import ZArith Lia.
From S2P Require Import Prelude NetModel RuntimeGraph Calls WholeCopy.

Section compiled.
Context {S : NetSpecialization} {P : PayloadDuplicator S}.

(** ** Data *)
Inductive CompiledOperand := OpInput (input : nat) | OpConstant (d : Data) | OpStep (step : nat).

Record CompiledStep := MkStep { step_operator : Operator; step_operands : list CompiledOperand }.

Record CompiledNet := MkCompiled { inputs : nat; steps : list CompiledStep; result : CompiledOperand }.

Inductive Uncompiled := Evaluating | Unsupported.

Inductive CompiledPayload := CpData (d : Data) | CpOperator (o : Operator).

(** [visit_payloads] *)
Definition visit_payloads (c : CompiledNet) : list CompiledPayload :=
  ((fun s => CpOperator (step_operator s)) <$> steps c) ++
  omap (fun x => match x with OpConstant d => Some (CpData d) | _ => None end) ((steps c ≫= step_operands) ++ [result c]).

(** ** Pairs that only build *)

(** What a rule does when it meets these nodes. *)
Definition constructive (left right : RuntimeNode Data Operator Checkpoint) : bool :=
  match left, right with
  | (RRemoteCursor _ _ | RCallableCheckpoint _ | RInterface), _ | _, (RRemoteCursor _ _ | RCallableCheckpoint _ | RInterface) => false
  | RErase, _ | _, RErase | RFan _, _ | _, RFan _ | RBind, RBind | ROperator _, RData _ | RData _, ROperator _ => true
  | _, _ => false
  end.

Definition constructive_pair (N : RuntimeNet) (e : nat * ActivePairState) : option nat :=
  if negb (ap_is_ready e.2) then None else
  lr ← pair_nodes N e.1;
  left ← node_at N lr.1;
  right ← node_at N lr.2;
  if constructive left right then Some e.1 else None.

(** The active pairs, least key first. *)
Definition key_le (x y : nat * ActivePairState) : Prop := x.1 <= y.1.

#[export] Instance key_le_dec : RelDecision key_le.
Proof. intros x y. apply le_dec. Defined.

Definition active_in_order (N : RuntimeNet) : list (nat * ActivePairState) := merge_sort key_le (map_to_list (active N)).

Definition next_constructive_pair (N : RuntimeNet) : option nat := head (omap (constructive_pair N) (active_in_order N)).

(** ** The compiler *)
Record Compiler := MkCompiler { cp_steps : list CompiledStep; ends : gmap Port nat; reached : gset nat }.

Definition reach_node (C : Compiler) (n : nat) : Compiler := MkCompiler (cp_steps C) (ends C) ({[n]} ∪ reached C).

Section compiler.
Context (N : RuntimeNet) (operands : Operator -> nat) (spine : list nat).

Definition operand_result : Type := option (Compiler * CompiledOperand).
Definition walk_result : Type := option (Compiler * Operator * list CompiledOperand).

(** [Compiler::step], its loop given. *)
Definition step_with (walk : Compiler -> Port -> list CompiledOperand -> walk_result) (C : Compiler) (end_ : Port) : option (Compiler * nat) :=
  match ends C !! end_ with
  | Some step => Some (C, step)
  | None =>
      r ← walk C end_ [];
      let '(C, operator, ops) := r in
      if decide (length (reverse ops) = operands operator)
      then Some (MkCompiler (cp_steps C ++ [MkStep (duplicate_operator operator) (reverse ops)]) (<[end_ := length (cp_steps C)]> (ends C)) (reached C),
                 length (cp_steps C))
      else None
  end.

(** [Compiler::operand], the loop of its steps and the operands of one node less
    given. *)
Definition operand_with (below : option (Compiler -> Port -> operand_result)) (walk : Compiler -> Port -> list CompiledOperand -> walk_result)
    (C : Compiler) (p : Port) : operand_result :=
  match node_at N (node p), index p with
  | Some RBind, 2 =>
      match fst <$> list_find (fun bind => bind = node p) spine with
      | Some input => Some (C, OpInput input)
      | None => r ← step_with walk C p; Some (r.1, OpStep r.2)
      end
  | Some (ROperator _), 1 => r ← step_with walk C p; Some (r.1, OpStep r.2)
  | Some (RFan _), (1 | 2) =>
      operand ← below;
      source ← neighbor N (principal (node p));
      operand (reach_node C (node p)) source
  | Some (RData d), 0 => Some (reach_node C (node p), OpConstant (duplicate_data d))
  | _, _ => None
  end.

(** A turn of the loop of [step], from a port back towards the operator. *)
Definition walk_with (operand : Compiler -> Port -> operand_result) (walk : Compiler -> Port -> list CompiledOperand -> walk_result)
    (C : Compiler) (p : Port) (ops : list CompiledOperand) : walk_result :=
  let C := reach_node C (node p) in
  match node_at N (node p), index p with
  | Some (ROperator operator), 1 =>
      source ← neighbor N (principal (node p));
      r ← operand C source;
      Some (r.1, operator, ops ++ [r.2])
  | Some RBind, 2 =>
      if bool_decide (node p ∈ spine) then None else
      source ← neighbor N (MkPort (node p) 1);
      r ← operand C source;
      next ← neighbor N (principal (node p));
      walk r.1 next (ops ++ [r.2])
  | _, _ => None
  end.

(** [operand] and the loop of [step] within [depth] more nodes. *)
Fixpoint compilers (depth : nat) : (Compiler -> Port -> operand_result) * (Compiler -> Port -> list CompiledOperand -> walk_result) :=
  match depth with
  | O => let walk := fun _ _ _ => None in (operand_with None walk, walk)
  | Datatypes.S depth =>
      let below := compilers depth in
      let walk := walk_with below.1 below.2 in
      (operand_with (Some below.1) walk, walk)
  end.

Definition operand (depth : nat) : Compiler -> Port -> operand_result := (compilers depth).1.
Definition walk (depth : nat) : Compiler -> Port -> list CompiledOperand -> walk_result := (compilers depth).2.
End compiler.

(** The function spine: one bind for each argument, and what follows. *)
Fixpoint spine_from (N : RuntimeNet) (k : nat) (next : option Port) : option (list nat * Port) :=
  match k with
  | O => body ← next; Some ([], body)
  | Datatypes.S k =>
      p ← next;
      if bool_decide (index p = 0) && match node_at N (node p) with Some RBind => true | _ => false end
      then r ← spine_from N k (neighbor N (MkPort (node p) 1)); Some (node p :: r.1, r.2)
      else None
  end.

(** No evaluation is left: the test whole copies make. *)
Definition settled (N : RuntimeNet) : bool := bool_decide (active N = ∅) && bool_decide (copies N = ∅) && bool_decide (cursor_obligations N = ∅).

Definition node_count (N : RuntimeNet) : nat := size (rt_nodes N).

(** A node that takes part in what the body computes, or an interface or eraser. *)
Definition accounted (spine : list nat) (reached : gset nat) (e : nat * RuntimeEntry) : bool :=
  match entry_node e.2 with RInterface | RErase => true | _ => bool_decide (e.1 ∈ spine) || bool_decide (e.1 ∈ reached) end.

Definition compile (N : RuntimeNet) (arguments : nat) (operands : Operator -> nat) : outcome Uncompiled CompiledNet :=
  if negb (settled N) then Err Evaluating else
  if (arguments =? 0) || (WHOLE_COPY_MAX_NODES <? node_count N) then Err Unsupported else
  match
    interface ← rt_exposed N;
    sb ← spine_from N arguments (neighbor N interface);
    r ← operand N operands sb.1 (node_count N) (MkCompiler [] ∅ ∅) sb.2;
    if forallb (accounted sb.1 (reached r.1)) (map_to_list (rt_nodes N)) then Some (MkCompiled arguments (cp_steps r.1) r.2) else None
  with
  | Some c => Ok c
  | None => Err Unsupported
  end.

(** ** Running compiled code ([apply_compiled]) *)
Section apply.
(** [apply_operator]: an operator takes an operand, or refuses it. *)
Context (apply_operator : Operator -> Data -> option OperatorYield).

(** [compiled_operand] *)
Definition compiled_operand (arguments results : list Data) (x : CompiledOperand) : M Data :=
  match x with
  | OpInput input => vec_get arguments input
  | OpConstant d => Ok d
  | OpStep step => vec_get results step
  end.

(** An operand of a step: the operator so far, and the result if there is one. *)
Definition apply_operand (arguments results : list Data) (st : Operator * option Data) (x : CompiledOperand) : M (Operator * option Data) :=
  d ← compiled_operand arguments results x;
  yield ← expect (apply_operator st.1 d);
  Ok (match yield with YOperator next => (next, st.2) | YData data => (st.1, Some data) end).

Definition apply_step (arguments : list Data) (results : list Data) (s : CompiledStep) : M (list Data) :=
  st ← foldM (apply_operand arguments results) (step_operator s, None) (step_operands s);
  d ← expect st.2;
  Ok (results ++ [d]).

Definition apply_compiled (c : CompiledNet) (arguments : list Data) : M Data :=
  _ ← rust_assert (bool_decide (length arguments = inputs c));
  results ← foldM (apply_step arguments) [] (steps c);
  d ← compiled_operand arguments results (result c);
  Ok (duplicate_data d).
End apply.
End compiled.
