(* ===== verification/CompiledFacts.v ===== *)
(** * Compiled code computes what its net builds

    [carries] is what the ports of a net without evaluation left provide, read off
    its wires: an operator applied to the datum it faces, an application bind
    passing an operator its next operand, a fan copying a datum. [builds] counts
    the operands a port's value still takes. Compilation succeeds exactly on nets
    whose body builds a datum and uses every node, and the code computes the datum
    the body carries. *)
From stdpp Require Import base option list numbers gmap sets tactics relations sorting.
From Stdlib Require Import ZArith Lia.
From S2P Require Import Prelude NetModel RuntimeGraph Calls WholeCopy Compiled.

Section net.
Context {S : NetSpecialization} {P : PayloadDuplicator S} (N : RuntimeNet) (operands : Operator -> nat) (spine : list nat).
Notation succ := Datatypes.S.

(** ** What a net computes *)
Definition position (n : nat) : option nat := fst <$> list_find (fun bind => bind = n) spine.

(** The datum or operator a port provides, given the arguments. *)
Inductive carries (apply_operator : Operator -> Data -> option OperatorYield) (arguments : list Data) : Port -> OperatorYield -> Prop :=
  | carries_input n i d : node_at N n = Some RBind -> position n = Some i -> arguments !! i = Some d ->
      carries apply_operator arguments (MkPort n 2) (YData d)
  | carries_constant n d : node_at N n = Some (RData d) -> carries apply_operator arguments (principal n) (YData d)
  | carries_copy n f i source d : node_at N n = Some (RFan f) -> i = 1 \/ i = 2 -> neighbor N (principal n) = Some source ->
      carries apply_operator arguments source (YData d) -> carries apply_operator arguments (MkPort n i) (YData d)
  | carries_operator n o source d y : node_at N n = Some (ROperator o) -> neighbor N (principal n) = Some source ->
      carries apply_operator arguments source (YData d) -> apply_operator o d = Some y -> carries apply_operator arguments (MkPort n 1) y
  | carries_apply n source f d o y : node_at N n = Some RBind -> n ∉ spine -> neighbor N (MkPort n 1) = Some source ->
      carries apply_operator arguments source (YData d) -> neighbor N (principal n) = Some f -> carries apply_operator arguments f (YOperator o) ->
      apply_operator o d = Some y -> carries apply_operator arguments (MkPort n 2) y.

(** How many operands the value of a port still takes; a datum takes none. *)
Inductive builds : Port -> nat -> Prop :=
  | builds_input n i : node_at N n = Some RBind -> position n = Some i -> builds (MkPort n 2) 0
  | builds_constant n d : node_at N n = Some (RData d) -> builds (principal n) 0
  | builds_copy n f i source : node_at N n = Some (RFan f) -> i = 1 \/ i = 2 -> neighbor N (principal n) = Some source -> builds source 0 -> builds (MkPort n i) 0
  | builds_operator n o source k : node_at N n = Some (ROperator o) -> neighbor N (principal n) = Some source -> builds source 0 ->
      operands o = succ k -> builds (MkPort n 1) k
  | builds_apply n source f k : node_at N n = Some RBind -> n ∉ spine -> neighbor N (MkPort n 1) = Some source -> builds source 0 ->
      neighbor N (principal n) = Some f -> builds f (succ k) -> builds (MkPort n 2) k.

(** The value of a port is computed from that of another. *)
Inductive feeds : Port -> Port -> Prop :=
  | feeds_copy n f i source : node_at N n = Some (RFan f) -> i = 1 \/ i = 2 -> neighbor N (principal n) = Some source -> feeds (MkPort n i) source
  | feeds_operator n o source : node_at N n = Some (ROperator o) -> neighbor N (principal n) = Some source -> feeds (MkPort n 1) source
  | feeds_argument n source : node_at N n = Some RBind -> n ∉ spine -> neighbor N (MkPort n 1) = Some source -> feeds (MkPort n 2) source
  | feeds_function n f : node_at N n = Some RBind -> n ∉ spine -> neighbor N (principal n) = Some f -> feeds (MkPort n 2) f.

(** The node takes part in what a port provides. *)
Definition used (p : Port) (n : nat) : Prop := exists q, rtc feeds p q /\ node q = n.

(** ** Successful runs of the compiler *)
Definition emit (C : Compiler) (p : Port) (o : Operator) (ops : list CompiledOperand) : Compiler :=
  MkCompiler (cp_steps C ++ [MkStep (duplicate_operator o) ops]) (<[p := length (cp_steps C)]> (ends C)) (reached C).

Inductive compiles : Compiler -> Port -> Compiler -> CompiledOperand -> Prop :=
  | compiles_input C n i : node_at N n = Some RBind -> position n = Some i -> compiles C (MkPort n 2) C (OpInput i)
  | compiles_constant C n d : node_at N n = Some (RData d) -> compiles C (principal n) (reach_node C n) (OpConstant (duplicate_data d))
  | compiles_copy C n f i source C' x : node_at N n = Some (RFan f) -> i = 1 \/ i = 2 -> neighbor N (principal n) = Some source ->
      compiles (reach_node C n) source C' x -> compiles C (MkPort n i) C' x
  | compiles_shared C p s : ends C !! p = Some s -> compiles C p C (OpStep s)
  | compiles_step C p C' o ops : walks C p C' o ops -> length ops = operands o -> compiles C p (emit C' p o ops) (OpStep (length (cp_steps C')))
with walks : Compiler -> Port -> Compiler -> Operator -> list CompiledOperand -> Prop :=
  | walks_operator C n o source C' x : node_at N n = Some (ROperator o) -> neighbor N (principal n) = Some source ->
      compiles (reach_node C n) source C' x -> walks C (MkPort n 1) C' o [x]
  | walks_apply C n source C1 x f C' o ops : node_at N n = Some RBind -> n ∉ spine -> neighbor N (MkPort n 1) = Some source ->
      compiles (reach_node C n) source C1 x -> neighbor N (principal n) = Some f -> walks C1 f C' o ops -> walks C (MkPort n 2) C' o (ops ++ [x]).

Scheme compiles_mut := Induction for compiles Sort Prop with walks_mut := Induction for walks Sort Prop.
Combined Scheme compiles_walks_ind from compiles_mut, walks_mut.

Lemma port_split p : p = MkPort (node p) (index p).
Proof. by destruct p. Qed.

Lemma step_with_Some wk C p C' s : step_with operands wk C p = Some (C', s) ->
  (ends C !! p = Some s /\ C' = C) \/ exists C1 o ops, wk C p [] = Some (C1, o, ops) /\ length ops = operands o /\ C' = emit C1 p o (reverse ops) /\ s = length (cp_steps C1).
Proof.
  unfold step_with. destruct (ends C !! p) as [s0|]; [intros [= <- <-]; by left|]. destruct (wk C p []) as [[[C1 o] ops]|] eqn:E; [|done]. cbn [mbind option_bind].
  rewrite length_reverse. destruct (decide _); [|done]. intros [= <- <-]. right. by exists C1, o, ops.
Qed.

Lemma not_position n : position n = None -> n ∉ spine.
Proof.
  unfold position. intros H Hn. destruct (list_find _ _) as [[i x]|] eqn:E; [done|]. apply list_find_None in E. rewrite list.Forall_forall in E. by apply (E n).
Qed.

Lemma position_spine n i : position n = Some i -> spine !! i = Some n.
Proof. unfold position. intros ([j x] & Hf & ->)%fmap_Some. by apply list_find_Some in Hf as (Hj & -> & _). Qed.

(** A step, when its loop is right. *)
Lemma step_compiles wk C p C' s : (forall C p C' o ops, wk C p [] = Some (C', o, ops) -> exists ops', ops = [] ++ reverse ops' /\ walks C p C' o ops') ->
  step_with operands wk C p = Some (C', s) -> compiles C p C' (OpStep s).
Proof.
  intros Hw [[He ->]|(C1 & o & ops & Hr & Hl & -> & ->)]%step_with_Some; [by apply compiles_shared|].
  destruct (Hw _ _ _ _ _ Hr) as (ops' & -> & Hws). cbn [app] in *. rewrite reverse_involutive. apply compiles_step; [done|]. by rewrite length_reverse in Hl.
Qed.

Lemma operand_with_compiles below wk C p C' x :
  (forall operand, below = Some operand -> forall C p C' x, operand C p = Some (C', x) -> compiles C p C' x) ->
  (forall C p C' o ops, wk C p [] = Some (C', o, ops) -> exists ops', ops = [] ++ reverse ops' /\ walks C p C' o ops') ->
  operand_with N operands spine below wk C p = Some (C', x) -> compiles C p C' x.
Proof.
  intros Hb Hw. destruct p as [n i]. unfold operand_with. cbn [node index]. destruct (node_at N n) as [k|] eqn:Hn; [|done]. destruct k; try done.
  - destruct i as [|[|[|i]]]; try done. destruct (fst <$> list_find _ _) as [j|] eqn:Hp; [intros [= <- <-]; by apply compiles_input|].
    intros ([C1 s] & Hs & [= <- <-])%bind_Some. by apply (step_compiles wk).
  - assert (Hf : forall j, j = 1 \/ j = 2 -> (operand ← below; source ← neighbor N (principal n); operand (reach_node C n) source) = Some (C', x) -> compiles C (MkPort n j) C' x).
    { intros j Hj (operand & -> & (source & Hs & Ho)%bind_Some)%bind_Some. eapply compiles_copy; [done|done|done|]. by apply (Hb operand). }
    destruct i as [|[|[|i]]]; try done; apply Hf; [by left|by right].
  - destruct i as [|i]; [|done]. intros [= <- <-]. by apply compiles_constant.
  - destruct i as [|[|i]]; try done. intros ([C1 s] & Hs & [= <- <-])%bind_Some. by apply (step_compiles wk).
Qed.

Lemma walk_with_walks operand wk C p acc C' o ops :
  (forall C p C' x, operand C p = Some (C', x) -> compiles C p C' x) ->
  (forall C p acc C' o ops, wk C p acc = Some (C', o, ops) -> exists ops', ops = acc ++ reverse ops' /\ walks C p C' o ops') ->
  walk_with N spine operand wk C p acc = Some (C', o, ops) -> exists ops', ops = acc ++ reverse ops' /\ walks C p C' o ops'.
Proof.
  intros Ho Hw. destruct p as [n i]. unfold walk_with. cbn [node index]. destruct (node_at N n) as [k|] eqn:Hn; [|done]. destruct k as [|f| |d|o1|c| |cp rm]; try done.
  - destruct i as [|[|[|i]]]; try done. case_bool_decide as Hsp; [done|].
    intros (source & Hs & ([C1 x] & Hx & (next & Hnx & Hr)%bind_Some)%bind_Some)%bind_Some. cbn [fst snd] in *.
    apply Hw in Hr as (ops' & -> & Hws). exists (ops' ++ [x]). rewrite reverse_snoc, <- app_assoc. split; [done|]. eapply walks_apply; eauto.
  - destruct i as [|[|i]]; try done. intros (source & Hs & ([C1 x] & Hx & [= <- <- <-])%bind_Some)%bind_Some. exists [x]. split; [done|]. eapply walks_operator; eauto.
Qed.

Lemma operand_compiles depth : (forall C p C' x, operand N operands spine depth C p = Some (C', x) -> compiles C p C' x) /\
  (forall C p acc C' o ops, walk N operands spine depth C p acc = Some (C', o, ops) -> exists ops', ops = acc ++ reverse ops' /\ walks C p C' o ops').
Proof.
  induction depth as [|depth [IHo IHw]]; (split; [intros C p C' x|intros C p acc C' o ops]).
  - apply operand_with_compiles; [done|done].
  - done.
  - apply operand_with_compiles; [by intros ? [= <-]|]. intros C1 p1 C2 o ops. apply walk_with_walks; [apply IHo|apply IHw].
  - apply walk_with_walks; [apply IHo|apply IHw].
Qed.

(** ** What a successful run leaves *)
Definition operand_below (i : nat) (x : CompiledOperand) : Prop :=
  match x with OpInput input => input < length spine | OpConstant _ => True | OpStep step => step < i end.

(** Steps use inputs, constants and earlier steps; a shared step is of a port that
    builds a datum, whose node was reached. *)
Record compiler_ok (C : Compiler) : Prop := {
  co_steps : forall i s, cp_steps C !! i = Some s -> Forall (operand_below i) (step_operands s);
  co_ends : forall p s, ends C !! p = Some s -> s < length (cp_steps C) /\ builds p 0 /\ node p ∈ reached C;
}.

(** From [C] to [C'] on the port [p]: the new nodes are those [p] is computed from,
    and with a node come the nodes it is computed from. *)
Record reaches (C C' : Compiler) (p : Port) : Prop := {
  re_steps : exists ss, cp_steps C' = cp_steps C ++ ss;
  re_nodes : reached C ⊆ reached C';
  re_used : forall n, n ∈ reached C' -> n ∈ reached C \/ used p n;
  re_closed : forall q r, node q ∈ reached C' -> feeds q r -> node q ∈ reached C \/ node r ∈ reached C' \/ node r ∈ spine;
  re_port : node p ∈ reached C' \/ node p ∈ spine;
}.

Lemma used_feeds p q n : feeds p q -> used q n -> used p n.
Proof. intros Hf (r & Hr & Hn). exists r. split; [by eapply rtc_l|done]. Qed.

Lemma used_self p : used p (node p).
Proof. by exists p. Qed.

Lemma operand_below_mono i j x : i <= j -> operand_below i x -> operand_below j x.
Proof. destruct x; cbn; [done|done|lia]. Qed.

(** The port's own node is new, then its sources are compiled. *)
Lemma reaches_node C p : (forall q r, node q = node p -> feeds q r -> False) -> reaches C (reach_node C (node p)) p.
Proof.
  intros Hno. split; cbn; [by exists []; rewrite app_nil_r|set_solver| | |left; set_solver].
  - intros n [->%elem_of_singleton|Hn]%elem_of_union; [right; apply used_self|by left].
  - intros q r [Hq%elem_of_singleton|Hn]%elem_of_union Hf; [exfalso; by eapply Hno|by left].
Qed.

Lemma reaches_source C C' p q : feeds p q -> (forall p' r, node p' = node p -> feeds p' r -> r = q) -> reaches (reach_node C (node p)) C' q -> reaches C C' p.
Proof.
  intros Hf Hone [R1 R2 R3 R4 R5]. cbn in *. split; [done|set_solver| | |left; set_solver].
  - intros n Hn. destruct (R3 n Hn) as [[->%elem_of_singleton|?]%elem_of_union|Hu]; [right; apply used_self|by left|right; by eapply used_feeds].
  - intros q' r Hq Hr. destruct (R4 q' r Hq Hr) as [[E%elem_of_singleton|?]%elem_of_union|?]; [|by left|by right]. right. by rewrite (Hone q' r E Hr).
Qed.

Lemma reaches_sources C C1 C' p q f : feeds p q -> feeds p f -> (forall p' r, node p' = node p -> feeds p' r -> r = q \/ r = f) ->
  reaches (reach_node C (node p)) C1 q -> reaches C1 C' f -> reaches C C' p.
Proof.
  intros Hq Hf Hboth [[s1 R1] R2 R3 R4 R5] [[s2 Q1] Q2 Q3 Q4 Q5]. cbn in *. split; [exists (s1 ++ s2); by rewrite Q1, R1, app_assoc|set_solver| | |left; set_solver].
  - intros n Hn. destruct (Q3 n Hn) as [Hn1|Hu]; [|right; by apply (used_feeds p f)].
    destruct (R3 n Hn1) as [[->%elem_of_singleton|?]%elem_of_union|Hu]; [right; apply used_self|by left|right; by apply (used_feeds p q)].
  - intros q' r Hq' Hr. destruct (Q4 q' r Hq' Hr) as [Hn1|?]; [|by right]. destruct (R4 q' r Hn1 Hr) as [[E%elem_of_singleton|?]%elem_of_union|[?|?]]; [|by left|right; left; by apply Q2|by right; right].
    right. destruct (Hboth q' r E Hr) as [-> | ->]; [|done]. destruct R5; [left; by apply Q2|by right].
Qed.

Lemma reaches_emit C C' p o ops : reaches C C' p -> reaches C (emit C' p o ops) p.
Proof. intros [[ss R1] R2 R3 R4 R5]. split; try done. cbn. exists (ss ++ [MkStep (duplicate_operator o) ops]). by rewrite R1, app_assoc. Qed.

Lemma reach_ok C n : compiler_ok C -> compiler_ok (reach_node C n).
Proof. intros [C1 C2]. split; [done|]. cbn. intros p s Hs. destruct (C2 p s Hs) as (? & ? & ?). set_solver. Qed.

Lemma emit_ok C p o ops : compiler_ok C -> Forall (operand_below (length (cp_steps C))) ops -> builds p 0 -> node p ∈ reached C -> compiler_ok (emit C p o ops).
Proof.
  intros [C1 C2] Hops Hb Hn. split; cbn.
  - intros i s [Hi|[Hi Hs]]%lookup_app_Some; [by apply C1|]. apply list_lookup_singleton_Some in Hs as [Hi0 <-]. assert (i = length (cp_steps C)) as -> by lia. done.
  - intros q s. rewrite length_app. cbn. intros [[<- <-]|[Hne Hs]]%lookup_insert_Some; [split; [lia|done]|]. destruct (C2 q s Hs) as (? & ? & ?). split; [lia|done].
Qed.

(** The nodes of each kind are fed by what their kind says. *)
Ltac feeds_inv := let H := fresh in intros p' r E H; inversion H; subst; cbn in E; subst; try congruence; first [left; congruence | right; congruence].

Lemma run_ok : (forall C p C' x, compiles C p C' x -> compiler_ok C -> compiler_ok C' /\ reaches C C' p /\ builds p 0 /\ operand_below (length (cp_steps C')) x) /\
  (forall C p C' o ops, walks C p C' o ops -> compiler_ok C -> compiler_ok C' /\ reaches C C' p /\ node p ∈ reached C' /\ Forall (operand_below (length (cp_steps C'))) ops /\
     forall k, length ops + k = operands o -> builds p k).
Proof.
  apply compiles_walks_ind.
  - intros C n i Hn Hp HC. pose proof (position_spine n i Hp) as Hs. split; [done|]. split; [|split; [by eapply builds_input|cbn; by eapply lookup_lt_Some]].
    split; [by exists []; rewrite app_nil_r|done|by left|by left|right; by eapply list_elem_of_lookup_2].
  - intros C n d Hn HC. split; [by apply reach_ok|]. split; [|split; [by eapply builds_constant|done]]. apply (reaches_node C (principal n)). feeds_inv.
  - intros C n f i source C' x Hn Hi Hs _ IH HC. destruct (IH (reach_ok _ _ HC)) as (HC' & HR & Hb & Hx). split; [done|]. split; [|split; [by eapply builds_copy|done]].
    eapply (reaches_source C C' (MkPort n i)); [by eapply feeds_copy| |done]. feeds_inv.
  - intros C p s Hs HC. destruct (co_ends _ HC p s Hs) as (Hlt & Hb & Hr). split; [done|]. split; [|done]. split; [by exists []; rewrite app_nil_r|done|by left|by left|by left].
  - intros C p C' o ops _ IH Hl HC. destruct (IH HC) as (HC' & HR & Hn & Hops & Hb). assert (builds p 0) by (apply Hb; lia). split; [by apply emit_ok|]. split; [by apply reaches_emit|].
    split; [done|]. cbn. rewrite length_app. cbn. lia.
  - intros C n o source C' x Hn Hs _ IH HC. destruct (IH (reach_ok _ _ HC)) as (HC' & HR & Hb & Hx). split; [done|]. split; [|split; [|split]].
    + eapply (reaches_source C C' (MkPort n 1)); [by eapply feeds_operator| |done]. feeds_inv.
    + apply (re_nodes _ _ _ HR). cbn. set_solver.
    + by constructor.
    + intros k Hk. eapply builds_operator; [done|done|done|]. cbn in Hk. lia.
  - intros C n source C1 x f C' o ops Hn Hsp Hs _ IH1 Hf _ IH2 HC. destruct (IH1 (reach_ok _ _ HC)) as (HC1 & HR1 & Hb1 & Hx). destruct (IH2 HC1) as (HC' & HR2 & Hnf & Hops & Hb2).
    split; [done|]. split; [|split; [|split]].
    + eapply (reaches_sources C C1 C' (MkPort n 2)); [by apply feeds_argument|by apply feeds_function| |done|done]. feeds_inv.
    + apply (re_nodes _ _ _ HR2), (re_nodes _ _ _ HR1). cbn. set_solver.
    + apply Forall_app. split; [done|]. constructor; [|done]. destruct (re_steps _ _ _ HR2) as [ss Hss]. eapply operand_below_mono; [|exact Hx]. rewrite Hss, length_app. lia.
    + intros k Hk. rewrite length_app in Hk. cbn in Hk. eapply builds_apply; [done|done|done|done|done|]. apply Hb2. lia.
Qed.

(** ** What compiled code computes *)

(** The operands a yield still takes. *)
Definition remaining (y : OperatorYield) : nat := match y with YData _ => 0 | YOperator o => operands o end.

(** An operator yielded is good and takes an operand. *)
Definition yields_good (good : Operator -> Prop) (y : OperatorYield) : Prop := match y with YData _ => True | YOperator o => good o /\ 0 < operands o end.

(** [operands] counts the operands a good operator takes before it yields data. *)
Definition operands_law (good : Operator -> Prop) (apply_operator : Operator -> Data -> option OperatorYield) : Prop := forall o d, good o -> 0 < operands o ->
  exists y, apply_operator o d = Some y /\ operands o = succ (remaining y) /\ yields_good good y.

Definition duplicates_exactly : Prop := (forall d : Data, duplicate_data d = d) /\ (forall o : Operator, duplicate_operator o = o).

Section code.
Context (apply_operator : Operator -> Data -> option OperatorYield) (arguments : list Data).
Context (good : Operator -> Prop) (HG : forall n o, node_at N n = Some (ROperator o) -> good o).
Context (HL : operands_law good apply_operator) (HD : duplicates_exactly) (Hargs : length arguments = length spine).
Notation carries := (carries apply_operator arguments).
Notation operand_value rs x d := (compiled_operand arguments rs x = Ok d).

(** The operator [o] passed operands one after another. *)
Inductive chain (o : Operator) : list Data -> OperatorYield -> Prop :=
  | chain_one d y : apply_operator o d = Some y -> chain o [d] y
  | chain_next ds d o' y : chain o ds (YOperator o') -> apply_operator o' d = Some y -> chain o (ds ++ [d]) y.

Lemma operand_value_app rs rs' x d : operand_value rs x d -> operand_value (rs ++ rs') x d.
Proof. destruct x as [i|c|i]; cbn; [done|done|]. rewrite !vec_get_Ok. intros H. by apply lookup_app_l_Some. Qed.

Lemma operand_values_app rs rs' xs ds : Forall2 (fun x d => operand_value rs x d) xs ds -> Forall2 (fun x d => operand_value (rs ++ rs') x d) xs ds.
Proof. intros H. eapply Forall2_impl; [exact H|]. intros x d. apply operand_value_app. Qed.

Lemma chain_runs o ds y rs : chain o ds y -> forall ops, Forall2 (fun x d => operand_value rs x d) ops ds ->
  exists st, foldM (apply_operand apply_operator arguments rs) (o, None) ops = Ok st /\ match y with YData d => st.2 = Some d | YOperator o' => st = (o', None) end.
Proof.
  induction 1 as [d y Hy|ds d o' y _ IH Hy]; intros ops.
  - intros (x & xs & Hx & ->%Forall2_nil_inv_r & ->)%Forall2_cons_inv_r. cbn. unfold apply_operand. rewrite Hx. cbn [mbind outcome_bind fst snd]. rewrite Hy. cbn. by destruct y; eexists.
  - intros (xs & zs & Hxs & (x & ? & Hx & ->%Forall2_nil_inv_r & ->)%Forall2_cons_inv_r & ->)%Forall2_app_inv_r. destruct (IH xs Hxs) as (st & Hst & ->).
    rewrite foldM_app, Hst. cbn. unfold apply_operand. rewrite Hx. cbn [mbind outcome_bind fst snd]. rewrite Hy. cbn. by destruct y; eexists.
Qed.

(** The results of the steps so far. *)
Record evaluates (C : Compiler) (rs : list Data) : Prop := {
  ev_run : foldM (apply_step apply_operator arguments) [] (cp_steps C) = Ok rs;
  ev_length : length rs = length (cp_steps C);
  ev_ends : forall p s, ends C !! p = Some s -> exists d, rs !! s = Some d /\ carries p (YData d);
}.

Lemma emit_evaluates C rs p o ops ds d : evaluates C rs -> chain o ds (YData d) -> Forall2 (fun x d => operand_value rs x d) ops ds -> carries p (YData d) ->
  evaluates (emit C p o ops) (rs ++ [d]).
Proof.
  intros [E1 E2 E3] Hc Hops Hp. split; cbn.
  - rewrite foldM_app, E1. cbn. unfold apply_step. cbn [step_operator step_operands]. rewrite (proj2 HD). destruct (chain_runs _ _ _ _ Hc ops Hops) as ([o' r] & Hst & Hr). cbn in Hr. subst r. by rewrite Hst.
  - rewrite !length_app. cbn. lia.
  - intros q s [[<- <-]|[Hne Hs]]%lookup_insert_Some.
    + exists d. split; [|done]. rewrite lookup_app_r by lia. by rewrite E2, Nat.sub_diag.
    + destruct (E3 q s Hs) as (d' & Hd & Hq). exists d'. split; [by apply lookup_app_l_Some|done].
Qed.

Lemma run_evaluates :
  (forall C p C' x, compiles C p C' x -> forall rs, evaluates C rs -> exists rs' d, evaluates C' (rs ++ rs') /\ operand_value (rs ++ rs') x d /\ carries p (YData d)) /\
  (forall C p C' o ops, walks C p C' o ops -> forall rs, evaluates C rs -> exists rs' ds, evaluates C' (rs ++ rs') /\
     Forall2 (fun x d => operand_value (rs ++ rs') x d) ops ds /\
     (length ops <= operands o -> exists y, chain o ds y /\ carries p y /\ operands o = length ops + remaining y /\ yields_good good y)).
Proof.
  assert (Hreach : forall C n rs, evaluates C rs -> evaluates (reach_node C n) rs) by (intros C n rs [? ? ?]; by split).
  apply compiles_walks_ind.
  - intros C n i Hn Hp rs HE. pose proof (lookup_lt_Some _ _ _ (position_spine n i Hp)) as Hi. rewrite <- Hargs in Hi. destruct (lookup_lt_is_Some_2 _ _ Hi) as [d Hd].
    exists [], d. rewrite app_nil_r. split; [done|]. split; [by apply vec_get_Ok|by eapply carries_input].
  - intros C n d Hn rs HE. exists [], d. rewrite app_nil_r. split; [by apply Hreach|]. split; [cbn; by rewrite (proj1 HD)|by apply carries_constant].
  - intros C n f i source C' x Hn Hi Hs _ IH rs HE. destruct (IH rs) as (rs' & d & HE' & Hx & Hc); [by apply Hreach|]. exists rs', d. split; [done|]. split; [done|by eapply carries_copy].
  - intros C p s Hs rs HE. destruct (ev_ends _ _ HE p s Hs) as (d & Hd & Hp). exists [], d. rewrite app_nil_r. split; [done|]. split; [by apply vec_get_Ok|done].
  - intros C p C' o ops _ IH Hl rs HE. destruct (IH rs HE) as (rs' & ds & HE' & Hops & Hy). destruct Hy as (y & Hc & Hp & Hr & Hz); [lia|]. destruct y as [d|o']; [|cbn in Hr, Hz; lia].
    exists (rs' ++ [d]), d. rewrite app_assoc. split; [by eapply emit_evaluates|]. split; [|done]. cbn. apply vec_get_Ok. rewrite lookup_app_r by (rewrite (ev_length _ _ HE'); lia).
    by rewrite (ev_length _ _ HE'), Nat.sub_diag.
  - intros C n o source C' x Hn Hs _ IH rs HE. destruct (IH rs) as (rs' & d & HE' & Hx & Hc); [by apply Hreach|]. exists rs', [d]. split; [done|]. split; [by constructor|].
    cbn. intros Ho. destruct (HL o d) as (y & Hy & Hr & Hz); [by eapply HG|lia|]. exists y. split; [by apply chain_one|]. split; [by eapply carries_operator|]. split; [lia|done].
  - intros C n source C1 x f C' o ops Hn Hsp Hs _ IH1 Hf _ IH2 rs HE. destruct (IH1 rs) as (rs1 & d & HE1 & Hx & Hc); [by apply Hreach|]. destruct (IH2 _ HE1) as (rs2 & ds & HE2 & Hops & Hy).
    exists (rs1 ++ rs2), (ds ++ [d]). rewrite app_assoc. split; [done|]. split; [apply Forall2_app; [done|]; constructor; [by apply operand_value_app|done]|].
    rewrite length_app. cbn. intros Hle. destruct Hy as (yf & Hcf & Hpf & Hr & Hgf); [lia|]. destruct yf as [df|o']; cbn in Hr; [lia|].
    destruct (HL o' d) as (y & Hy & Hr' & Hz); [apply Hgf|lia|]. exists y. split; [by eapply chain_next|]. split; [by eapply carries_apply|]. split; [lia|done].
Qed.

(** A port carries at most one value. *)
Lemma carries_unique p y : carries p y -> forall y', carries p y' -> y = y'.
Proof.
  induction 1 as [n i d Hn Hp Hd|n d Hn|n f i source d Hn Hi Hs _ IH|n o source d y Hn Hs _ IH Hy|n source f d o y Hn Hsp Hs _ IH Hf _ IHf Hy]; intros y' Hy'; inversion Hy'; subst; try congruence;
    try (exfalso; intuition congruence); try (match goal with H : position _ = Some _ |- _ => apply position_spine in H; apply list_elem_of_lookup_2 in H; done end).
  - simplify_eq. by apply IH.
  - simplify_eq. match goal with H : carries _ (YData _) |- _ => apply IH in H end. congruence.
  - simplify_eq. match goal with H : carries source (YData _) |- _ => apply IH in H end. match goal with H : carries f (YOperator _) |- _ => apply IHf in H end. congruence.
Qed.
End code.

(** ** Enough depth *)

(** [builds] with the number of nodes on the longest way to the value. *)
Inductive builds_in : nat -> Port -> nat -> Prop :=
  | in_input n i : node_at N n = Some RBind -> position n = Some i -> builds_in 0 (MkPort n 2) 0
  | in_constant n d : node_at N n = Some (RData d) -> builds_in 0 (principal n) 0
  | in_copy n f i source h : node_at N n = Some (RFan f) -> i = 1 \/ i = 2 -> neighbor N (principal n) = Some source -> builds_in h source 0 ->
      builds_in (succ h) (MkPort n i) 0
  | in_operator n o source k h : node_at N n = Some (ROperator o) -> neighbor N (principal n) = Some source -> builds_in h source 0 ->
      operands o = succ k -> builds_in (succ h) (MkPort n 1) k
  | in_apply n source f k h h' : node_at N n = Some RBind -> n ∉ spine -> neighbor N (MkPort n 1) = Some source -> builds_in h source 0 ->
      neighbor N (principal n) = Some f -> builds_in h' f (succ k) -> builds_in (succ (h `max` h')) (MkPort n 2) k.

Lemma builds_height p k : builds p k -> exists h, builds_in h p k.
Proof.
  induction 1 as [n i ? ?|n d ?|n f i source ? ? ? _ [h IH]|n o source k ? ? _ [h IH] ?|n source f k ? ? ? _ [h IH] ? _ [h' IH']]; eexists; by econstructor.
Qed.

Lemma builds_in_unique h p k : builds_in h p k -> forall h' p' k', builds_in h' p' k' -> node p' = node p -> h' = h /\ (p' = p -> k' = k).
Proof.
  induction 1 as [n i Hn Hp|n d Hn|n f i source h Hn Hi Hs _ IH|n o source k h Hn Hs _ IH Ho|n source f k h h' Hn Hsp Hs _ IH Hf _ IH'];
    intros h2 p2 k2 H2 Hnode; inversion H2; subst; cbn in Hnode; subst; simplify_eq; try done;
    try (match goal with H : position _ = Some _ |- _ => apply position_spine in H; apply list_elem_of_lookup_2 in H; done end).
  - match goal with H : builds_in _ source 0 |- _ => destruct (IH _ _ _ H eq_refl) as [-> _] end. done.
  - match goal with H : builds_in _ source 0 |- _ => destruct (IH _ _ _ H eq_refl) as [-> _] end. split; [done|]. intros _. lia.
  - match goal with H : builds_in _ source 0 |- _ => destruct (IH _ _ _ H eq_refl) as [-> _] end.
    match goal with H : builds_in _ f _ |- _ => destruct (IH' _ _ _ H eq_refl) as [-> Hk] end. split; [done|]. intros _. specialize (Hk eq_refl). lia.
Qed.

(** The nodes a walk has entered lie above [h]; [depth] more fit. *)
Record room (h depth : nat) (entered : gset nat) : Prop := {
  ro_above : forall m, m ∈ entered -> exists hm p k, node p = m /\ builds_in hm p k /\ h < hm;
  ro_nodes : entered ⊆ dom (rt_nodes N);
  ro_depth : size (dom (rt_nodes N)) <= depth + size entered;
}.

Lemma enter_room h depth entered p k : room h depth entered -> builds_in h p k -> is_Some (node_at N (node p)) ->
  exists depth', depth = succ depth' /\ forall h', h' < h -> room h' depth' ({[node p]} ∪ entered).
Proof.
  intros [R1 R2 R3] Hb [kind Hk]. assert (Hn : node p ∈ dom (rt_nodes N)).
  { apply elem_of_dom. unfold node_at in Hk. by apply fmap_Some in Hk as (e & He & _); exists e. }
  assert (Hnew : node p ∉ entered).
  { intros Hin. destruct (R1 _ Hin) as (hm & q & k' & Hq & Hbq & Hlt). destruct (builds_in_unique _ _ _ Hb _ _ _ Hbq Hq) as [-> _]. lia. }
  assert (Hsz : size ({[node p]} ∪ entered) = succ (size entered)) by (rewrite size_union, size_singleton by set_solver; done).
  assert (Hle : size ({[node p]} ∪ entered) <= size (dom (rt_nodes N))) by (apply subseteq_size; set_solver).
  destruct depth as [|depth]; [lia|]. exists depth. split; [done|]. intros h' Hh'. split; [|set_solver|lia].
  intros m [->%elem_of_singleton|Hm]%elem_of_union; [by exists h, p, k|]. destruct (R1 m Hm) as (hm & q & k' & ? & ? & ?). exists hm, q, k'. do 2 (split; [done|]). lia.
Qed.

Lemma position_notin n : n ∉ spine -> position n = None.
Proof. unfold position. intros Hn. destruct (list_find _ spine) as [[i x]|] eqn:E; [|done]. apply list_find_Some in E as (Hi & -> & _). exfalso. apply Hn. by eapply list_elem_of_lookup_2. Qed.

(** The port is the result of an operator or of an application. *)
Definition applies (p : Port) : Prop := (exists o, node_at N (node p) = Some (ROperator o)) \/ (node_at N (node p) = Some RBind /\ node p ∉ spine).

Lemma applies_operand below wk C p h k : applies p -> builds_in h p k -> operand_with N operands spine below wk C p = (r ← step_with operands wk C p; Some (r.1, OpStep r.2)).
Proof.
  intros Ha Hb. unfold operand_with. destruct Hb as [n i Hn Hp|n d Hn|n f i source h Hn Hi Hs Hb|n o source k h Hn Hs Hb Ho|n source f k h h' Hn Hsp Hs Hb Hf Hb']; cbn [node index principal] in *; rewrite Hn; try done.
  - destruct Ha as [[o Ho]|[_ Hsp]]; cbn [node] in *; [congruence|]. apply position_notin in Hsp. congruence.
  - destruct Ha as [[o Ho]|[Ho _]]; cbn [node principal] in *; congruence.
  - destruct Ha as [[o Ho]|[Ho _]]; cbn [node] in *; congruence.
  - pose proof (position_notin n Hsp) as E. unfold position in E. by rewrite E.
Qed.

(** A walk that ends at the right operand count makes a step. *)
Lemma step_succeeds wk C p : (ends C !! p = None -> exists C' o ops, wk C p [] = Some (C', o, ops) /\ length ops = operands o) -> exists r, step_with operands wk C p = Some r.
Proof.
  intros Hw. unfold step_with. destruct (ends C !! p) as [s|]; [by eexists|]. destruct Hw as (C' & o & ops & -> & Hl); [done|]. cbn [mbind option_bind].
  rewrite length_reverse, decide_True by done. by eexists.
Qed.

Lemma operand_eq depth C p : operand N operands spine depth C p =
  operand_with N operands spine (match depth with O => None | succ d => Some (operand N operands spine d) end) (walk N operands spine depth) C p.
Proof. by destruct depth. Qed.

(** What [enough_depth] says of one port. *)
Definition succeeds (p : Port) (k : nat) (C : Compiler) (depth : nat) : Prop :=
  (k = 0 -> exists r, operand N operands spine depth C p = Some r) /\
  (applies p -> forall acc, exists C' o ops, walk N operands spine depth C p acc = Some (C', o, acc ++ ops) /\ length ops + k = operands o).

(** A walk that succeeds makes its port's operand succeed. *)
Lemma walk_succeeds h p k C depth : builds_in h p k -> applies p ->
  (forall acc, exists C' o ops, walk N operands spine depth C p acc = Some (C', o, acc ++ ops) /\ length ops + k = operands o) -> succeeds p k C depth.
Proof.
  intros Hb Ha Hw. split; [|done]. intros ->. rewrite operand_eq, (applies_operand _ _ _ _ h 0 Ha Hb).
  destruct (step_succeeds (walk N operands spine depth) C p) as (r & ->); [|by eexists]. intros _. destruct (Hw []) as (C' & o & ops & -> & Hl). exists C', o, ops. split; [done|lia].
Qed.

Lemma not_applies p kind : node_at N (node p) = Some kind -> (match kind with ROperator _ => False | RBind => node p ∈ spine | _ => True end) -> ~ applies p.
Proof. intros Hk H [[o Ho]|[Ho Hsp]]; rewrite Hk in Ho; injection Ho as ->; done. Qed.

(** A value that takes operands is an operator's result or an application's. *)
Lemma operator_applies h p k : builds_in h p (succ k) -> applies p.
Proof. intros H. inversion H; subst; [left; by eexists|by right]. Qed.

Lemma enough_depth h p k : builds_in h p k -> forall C depth entered, room h depth entered -> succeeds p k C depth.
Proof.
  intros Hbuilds. pose proof Hbuilds as Hself. revert Hself.
  induction Hbuilds as [n i Hn Hp|n d Hn|n f i source h Hn Hi Hs Hb IH|n o source k h Hn Hs Hb IH Ho|n source f k h h' Hn Hsp Hs Hb IH Hf Hb' IH']; intros Hself C depth entered HR.
  - split; [intros _|intros Ha; exfalso; revert Ha; eapply not_applies; [done|]; by eapply list_elem_of_lookup_2, position_spine].
    rewrite operand_eq. unfold operand_with. cbn [node index]. rewrite Hn. unfold position in Hp. rewrite Hp. by eexists.
  - split; [intros _|intros Ha; exfalso; revert Ha; by eapply not_applies]. rewrite operand_eq. unfold operand_with. cbn [node index principal]. rewrite Hn. by eexists.
  - split; [intros _|intros Ha; exfalso; revert Ha; by eapply not_applies]. destruct (enter_room _ _ _ _ _ HR Hself) as (depth' & -> & HR'); [by eexists|].
    destruct (IH Hb (reach_node C n) depth' _ (HR' h ltac:(lia))) as [[r Hr] _]; [done|]. exists r. rewrite operand_eq. unfold operand_with. cbn [node index]. rewrite Hn.
    destruct Hi as [-> | ->]; cbn [mbind option_bind]; rewrite Hs; exact Hr.
  - eapply walk_succeeds; [exact Hself|left; by eexists|]. intros acc. destruct (enter_room _ _ _ _ _ HR Hself) as (depth' & -> & HR'); [by eexists|].
    destruct (IH Hb (reach_node C n) depth' _ (HR' h ltac:(lia))) as [[r Hr] _]; [done|]. exists r.1, o, [r.2].
    change (walk N operands spine (succ depth')) with (walk_with N spine (operand N operands spine depth') (walk N operands spine depth')).
    unfold walk_with. cbn [node index]. rewrite Hn. cbn [mbind option_bind]. rewrite Hs. cbn [mbind option_bind]. rewrite Hr. split; [done|]. cbn. lia.
  - eapply walk_succeeds; [exact Hself|by right|]. intros acc. destruct (enter_room _ _ _ _ _ HR Hself) as (depth' & -> & HR'); [by eexists|].
    destruct (IH Hb (reach_node C n) depth' _ (HR' h ltac:(lia))) as [[r Hr] _]; [done|].
    destruct (IH' Hb' r.1 depth' _ (HR' h' ltac:(lia))) as [_ Hw]. destruct (Hw (operator_applies _ _ _ Hb') (acc ++ [r.2])) as (C' & o & ops & Hwk & Hl).
    exists C', o, (r.2 :: ops). rewrite cons_middle, app_assoc.
    change (walk N operands spine (succ depth')) with (walk_with N spine (operand N operands spine depth') (walk N operands spine depth')).
    unfold walk_with. cbn [node index]. rewrite Hn. rewrite bool_decide_false by done. cbn [mbind option_bind]. rewrite Hs. cbn [mbind option_bind]. rewrite Hr. cbn [mbind option_bind]. rewrite Hf.
    cbn [mbind option_bind]. split; [exact Hwk|]. cbn. lia.
Qed.
End net.

(** ** The next pair to build *)
Section constructive.
Context {S : NetSpecialization}.

(** The pair is ready and its rule only builds. *)
Definition builds_only (N : RuntimeNet) (key : nat) : Prop := exists l r left right, active N !! key = Some ApReady /\ pair_nodes N key = Some (l, r) /\
  node_at N l = Some left /\ node_at N r = Some right /\ constructive left right = true.

Lemma constructive_pair_iff N key st b : active N !! key = Some st -> constructive_pair N (key, st) = Some b <-> b = key /\ builds_only N key.
Proof.
  intros Hk. unfold constructive_pair, builds_only. cbn [fst snd]. split.
  - destruct st; try done. cbn [ap_is_ready negb]. intros ([l r] & Hp & (left & Hl & (right & Hr & H)%bind_Some)%bind_Some)%bind_Some. cbn [fst snd] in *.
    destruct (constructive left right) eqn:Hc; [|done]. injection H as <-. split; [done|]. by exists l, r, left, right.
  - intros (-> & l & r & left & right & Hs & Hp & Hl & Hr & Hc). rewrite Hk in Hs. injection Hs as ->. cbn [ap_is_ready negb]. rewrite Hp. cbn [mbind option_bind fst snd].
    rewrite Hl. cbn [mbind option_bind]. rewrite Hr. cbn [mbind option_bind]. by rewrite Hc.
Qed.

Lemma elem_of_active_in_order N key st : (key, st) ∈ active_in_order N <-> active N !! key = Some st.
Proof. unfold active_in_order. by rewrite merge_sort_Permutation, elem_of_map_to_list. Qed.

#[local] Instance key_le_total : Total key_le.
Proof. intros x y. unfold key_le. lia. Qed.
#[local] Instance key_le_trans : Transitive key_le.
Proof. intros x y z. unfold key_le. lia. Qed.

Lemma head_omap_least {A B} (f : A -> option B) (R : A -> A -> Prop) (l : list A) : StronglySorted R l ->
  match head (omap f l) with Some b => exists a, a ∈ l /\ f a = Some b /\ forall x y, x ∈ l -> f x = Some y -> x = a \/ R a x | None => forall x, x ∈ l -> f x = None end.
Proof.
  induction 1 as [|a l Hl IH Ha]; cbn; [by intros x Hx%elem_of_nil|]. destruct (f a) as [b|] eqn:E; cbn.
  - exists a. split; [by left|]. split; [done|]. intros x y [->|Hx]%elem_of_cons _; [by left|right]. rewrite list.Forall_forall in Ha. by apply Ha.
  - destruct (head (omap f l)) as [b|].
    + destruct IH as (c & Hc & Hf & H). exists c. split; [by right|]. split; [done|]. intros x y [->|Hx]%elem_of_cons Hxy; [congruence|by eapply H].
    + intros x [->|Hx]%elem_of_cons; [done|by apply IH].
Qed.

(** The pair found is the least one that is ready and only builds. *)
Theorem next_constructive_pair_least N :
  match next_constructive_pair N with
  | Some key => builds_only N key /\ forall key', builds_only N key' -> key <= key'
  | None => forall key, ~ builds_only N key
  end.
Proof.
  pose proof (head_omap_least (constructive_pair N) key_le (active_in_order N) (StronglySorted_merge_sort _ _)) as H. unfold next_constructive_pair.
  assert (Hin : forall key, builds_only N key -> (key, ApReady) ∈ active_in_order N /\ constructive_pair N (key, ApReady) = Some key).
  { intros key Hb. pose proof Hb as (l & r & left & right & Ha & _). split; [by apply elem_of_active_in_order|]. by apply constructive_pair_iff. }
  destruct (head _) as [b|].
  - destruct H as ([key st] & Hk & Hc & Hle). apply elem_of_active_in_order in Hk. apply constructive_pair_iff in Hc as [-> Hb]; [|done]. split; [done|].
    intros key' [Hin' Hc']%Hin. destruct (Hle _ _ Hin' Hc') as [[= -> _]|Hlt]; [done|exact Hlt].
  - intros key [Hin' Hc]%Hin. rewrite (H _ Hin') in Hc. done.
Qed.
End constructive.

(** ** Compiling a net *)
Section compile.
Context {S : NetSpecialization} {P : PayloadDuplicator S} (N : RuntimeNet) (operands : Operator -> nat).

Lemma spine_from_ok k : forall next spine body, spine_from N k next = Some (spine, body) -> length spine = k /\ forall n, n ∈ spine -> node_at N n = Some RBind.
Proof.
  induction k as [|k IH]; intros next spine body; cbn.
  - intros (b & _ & [= <- <-])%bind_Some. split; [done|]. by intros n Hn%elem_of_nil.
  - intros (p & -> & H)%bind_Some. destruct (bool_decide (index p = 0)); [|done]. destruct (node_at N (node p)) as [[]|] eqn:Hn; try done.
    cbn in H. apply bind_Some in H as ([bs b] & Hr & [= <- <-]). destruct (IH _ _ _ Hr) as [Hl Hbs]. split; [cbn; lia|].
    intros n [->|Hin]%elem_of_cons; [done|by apply Hbs].
Qed.

(** Every node takes part in what the body computes, apart from interfaces and
    erasers. *)
Definition all_used (spine : list nat) (body : Port) : Prop := forall n e, rt_nodes N !! n = Some e ->
  entry_node e = RInterface \/ entry_node e = RErase \/ n ∈ spine \/ used N spine body n.

(** What the code compiles. *)
Definition compilable (k : nat) (spine : list nat) (body : Port) : Prop :=
  settled N = true /\ 0 < k /\ node_count N <= WHOLE_COPY_MAX_NODES /\
  (exists interface, rt_exposed N = Some interface /\ spine_from N k (neighbor N interface) = Some (spine, body)) /\
  builds N operands spine body 0 /\ all_used spine body.

Lemma new_compiler_ok spine : compiler_ok N operands spine (MkCompiler [] ∅ ∅).
Proof. split; [done|]. intros p s Hs. cbn in Hs. by apply lookup_empty_Some in Hs. Qed.

(** The nodes a run reaches are those its port uses. *)
Lemma reached_used spine body C : (forall n, n ∈ spine -> node_at N n = Some RBind) -> reaches N spine (MkCompiler [] ∅ ∅) C body ->
  forall n, n ∈ reached C \/ n ∈ spine <-> used N spine body n \/ n ∈ spine.
Proof.
  intros Hsp [_ _ R3 R4 R5] n. split.
  - intros [Hn|Hn]; [|by right]. destruct (R3 n Hn) as [Hn'|?]; [by apply not_elem_of_empty in Hn'|by left].
  - intros [(q & Hq & <-)|Hn]; [|by right]. clear R3. induction Hq as [p|p r q Hpr _ IH]; [done|]. rename R5 into Hp. apply IH. destruct Hp as [Hp|Hp]; [destruct (R4 p r Hp Hpr) as [Hn'|[?|?]]; [by apply not_elem_of_empty in Hn'|by left|by right]|].
    exfalso. pose proof (Hsp _ Hp) as Hb. inversion Hpr; subst; cbn [node] in *; congruence.
Qed.

Lemma accounted_used spine body C : (forall n, n ∈ spine -> node_at N n = Some RBind) -> reaches N spine (MkCompiler [] ∅ ∅) C body ->
  forallb (accounted spine (reached C)) (map_to_list (rt_nodes N)) = true <-> all_used spine body.
Proof.
  intros Hsp HR. pose proof (reached_used spine body C Hsp HR) as Hu. rewrite forallb_forall. split.
  - intros H n e He. specialize (H (n, e)). unfold accounted in H. cbn in H. rewrite <- list_elem_of_In, elem_of_map_to_list in H. specialize (H He).
    assert (Hin : bool_decide (n ∈ spine) || bool_decide (n ∈ reached C) = true -> n ∈ spine \/ used N spine body n).
    { intros [Hn%bool_decide_eq_true|Hn%bool_decide_eq_true]%orb_true_iff; [by left|]. destruct (proj1 (Hu n)) as [?|?]; [by left|by right|by left]. }
    destruct (entry_node e); auto.
  - intros H [n e] Hin%list_elem_of_In%elem_of_map_to_list. unfold accounted. cbn. assert (Hb : n ∈ spine \/ used N spine body n -> bool_decide (n ∈ spine) || bool_decide (n ∈ reached C) = true).
    { intros Hn. apply orb_true_iff. rewrite !bool_decide_eq_true. destruct (proj2 (Hu n)); [naive_solver|by right|by left]. }
    destruct (H n e Hin) as [-> |[-> |?]]; [done|done|]. destruct (entry_node e); auto.
Qed.

(** What a successful compilation did. *)
Lemma compile_run k c : compile N k operands = Ok c -> exists interface spine body C x, settled N = true /\ 0 < k /\ node_count N <= WHOLE_COPY_MAX_NODES /\
  rt_exposed N = Some interface /\ spine_from N k (neighbor N interface) = Some (spine, body) /\
  compiles N operands spine (MkCompiler [] ∅ ∅) body C x /\ c = MkCompiled k (cp_steps C) x /\ forallb (accounted spine (reached C)) (map_to_list (rt_nodes N)) = true.
Proof.
  unfold compile. destruct (settled N); [|done]. cbn [negb]. destruct (Nat.eqb_spec k 0) as [|Hk]; [done|]. destruct (Nat.ltb_spec WHOLE_COPY_MAX_NODES (node_count N)) as [|Hsz]; [done|]. cbn [orb].
  destruct (rt_exposed N) as [interface|]; [|done]. cbn [mbind option_bind]. destruct (spine_from N k (neighbor N interface)) as [[spine body]|] eqn:Hsp; [|done]. cbn [mbind option_bind fst snd].
  destruct (operand _ _ _ _ _ _) as [[C x]|] eqn:Hop; [|done]. cbn [mbind option_bind fst snd]. destruct (forallb _ _) eqn:Hacc; [|done]. intros [= <-].
  exists interface, spine, body, C, x. do 2 (split; [lia || done|]). split; [done|]. do 2 (split; [done|]). split; [|done]. by apply (operand_compiles N operands spine (node_count N)).
Qed.

Lemma compile_Ok_iff k : (exists c, compile N k operands = Ok c) <-> exists spine body, compilable k spine body.
Proof.
  split.
  - intros [c Hc]. destruct (compile_run k c Hc) as (interface & spine & body & C & x & Hs & Hk & Hsz & He & Hsp & Hrun & -> & Hacc). exists spine, body.
    destruct (spine_from_ok _ _ _ _ Hsp) as [_ Hb]. destruct (proj1 (run_ok N operands spine) _ _ _ _ Hrun (new_compiler_ok spine)) as (_ & HR & Hbuilds & _).
    split; [done|]. split; [done|]. split; [done|]. split; [by exists interface|]. split; [done|]. by apply (accounted_used spine body C).
  - intros (spine & body & Hs & Hk & Hsz & (interface & He & Hsp) & Hbuilds & Hused). destruct (spine_from_ok _ _ _ _ Hsp) as [_ Hb]. destruct (builds_height N operands spine _ _ Hbuilds) as [h Hh].
    assert (Hroom : room N operands spine h (node_count N) ∅) by (split; [by intros m Hm%not_elem_of_empty|set_solver|rewrite size_empty, size_dom; unfold node_count; lia]).
    destruct (enough_depth N operands spine h body 0 Hh (MkCompiler [] ∅ ∅) _ _ Hroom) as [[[C x] Hop] _]; [done|].
    pose proof (proj1 (operand_compiles N operands spine _) _ _ _ _ Hop) as Hrun. destruct (proj1 (run_ok N operands spine) _ _ _ _ Hrun (new_compiler_ok spine)) as (_ & HR & _).
    exists (MkCompiled k (cp_steps C) x). unfold compile. rewrite Hs. cbn [negb]. rewrite (proj2 (Nat.eqb_neq k 0)) by lia. rewrite (proj2 (Nat.ltb_ge _ _)) by lia. cbn [orb].
    rewrite He. cbn [mbind option_bind]. rewrite Hsp. cbn [mbind option_bind fst snd]. rewrite Hop. cbn [mbind option_bind fst snd].
    by rewrite (proj2 (accounted_used spine body C Hb HR) Hused).
Qed.
End compile.

(** C34. Compilation is decided by the shape of the net: it says that evaluation is left
    exactly when it is, never panics, and succeeds exactly on nets of at most
    [WHOLE_COPY_MAX_NODES] nodes with a spine of binds for the arguments whose body
    builds a datum from every node; the bound on the depth of a walk excludes none
    of them. *)
Theorem compile_decides {S : NetSpecialization} {P : PayloadDuplicator S} (N : RuntimeNet) (k : nat) (operands : Operator -> nat) :
  (compile N k operands = Err Evaluating <-> settled N = false) /\
  ((exists c, compile N k operands = Ok c) <-> exists spine body, compilable N operands k spine body) /\
  compile N k operands <> Panic /\ compile N k operands <> OutOfFuel.
Proof.
  split; [|split; [apply compile_Ok_iff|]]; unfold compile; destruct (settled N); cbn [negb]; try done.
  - destruct (_ || _); [done|]. by destruct (_ ≫= _).
  - destruct (_ || _); [done|]. by destruct (_ ≫= _).
Qed.

(** What compiled code computes, for operators that keep to their count. *)
Lemma compiled_code_correct {S : NetSpecialization} {P : PayloadDuplicator S} (N : RuntimeNet) (k : nat) (operands : Operator -> nat) (c : CompiledNet)
    (apply_operator : Operator -> Data -> option OperatorYield) (good : Operator -> Prop) :
  operands_law operands good apply_operator -> (forall n o, node_at N n = Some (ROperator o) -> good o) -> duplicates_exactly -> compile N k operands = Ok c ->
  inputs c = k /\
  (forall i s x, steps c !! i = Some s -> x ∈ step_operands s -> match x with OpInput j => j < k | OpConstant _ => True | OpStep j => j < i end) /\
  exists spine body, compilable N operands k spine body /\
    forall arguments, length arguments = k -> exists d, apply_compiled apply_operator c arguments = Ok d /\
      forall y, carries N spine apply_operator arguments body y <-> y = YData d.
Proof.
  intros HL HG HD Hc. destruct (compile_run N operands k c Hc) as (interface & spine & body & C & x & Hs & Hk & Hsz & He & Hsp & Hrun & -> & Hacc).
  destruct (spine_from_ok N _ _ _ _ Hsp) as [Hlen Hb]. destruct (proj1 (run_ok N operands spine) _ _ _ _ Hrun (new_compiler_ok N operands spine)) as (HC & HR & Hbuilds & _).
  split; [done|]. cbn [steps]. split.
  { intros i s y Hi Hy. pose proof (co_steps N operands spine C HC i s Hi) as HF. rewrite list.Forall_forall in HF. specialize (HF y Hy). destruct y; cbn in *; [lia|done|done]. }
  exists spine, body. split; [split; [done|]; split; [done|]; split; [done|]; split; [by exists interface|]; split; [done|]; by apply (accounted_used N spine body C)|].
  intros arguments Ha.
  destruct (proj1 (run_evaluates N operands spine apply_operator arguments good HG HL HD ltac:(lia)) _ _ _ _ Hrun []) as (rs & d & [E1 _ _] & Hx & Hcar).
  { split; [done|done|]. intros p s Hps. cbn in Hps. by apply lookup_empty_Some in Hps. }
  exists d. split.
  - unfold apply_compiled. cbn [inputs steps result]. rewrite bool_decide_true by done. cbn [rust_assert mbind outcome_bind]. cbn [app] in E1. rewrite E1. cbn [mbind outcome_bind].
    cbn [app] in Hx. rewrite Hx. cbn. by rewrite (proj1 HD).
  - intros y. split; [|by intros ->]. intros Hy. by eapply carries_unique.
Qed.
