(* ===== verification/CoreOperators.v ===== *)
(** * The operators of glam's nets ([CoreOperator] of [src/core_net.rs],
    [src/eval/operator.rs], [Builtin] of [src/core.rs])

    An operator takes operands one at a time and keeps those it was supplied; with
    the last one it yields a value. The values of the language, its keys and the
    handles of nets are opaque types here; a value is built by an operation of
    [ValueMaker], one for each way the code builds a value from an operator's
    operands. Whether a function is evaluated and has compiled code depends on the
    heap, and is an argument. Duplicating a handle gives the same value. *)
From stdpp Require Import base option list numbers gmap tactics.
From Stdlib Require Import ZArith Lia.
From S2P Require Import Prelude NetModel RuntimeGraph Calls Compiled CompiledFacts.

(** ** Builtins *)
Inductive Builtin :=
  | BAppend | BAdd | BSubtract | BMultiply | BDivide | BGreater | BGreaterEqual | BEqual | BNotEqual |
  BLessEqual | BLess | BFixpoint | BAnno | BAssertUnit | BSeq | BSpark | BInteractionNet |
  BInteractionNetFromNetlist | BInteractionNetBuilderReturn | BInteractionNetBuilderSeq |
  BInteractionNetBuilderContinue | BInteractionNetBuilderAlt | BInteractionNetBuilderFail |
  BInteractionNetBuilderCut | BInteractionNetBuilderGet | BInteractionNetBuilderSet |
  BInteractionNetBuilderReset | BInteractionNetBuilderShift | BInteractionNetBuilderBind |
  BInteractionNetBuilderCopy | BInteractionNetBuilderData | BInteractionNetBuilderWire |
  BInteractionNetBuilderRun | BInteractionNetBuilderResume | BInteractionNetBuilderResumeApply |
  BInteractionNetBuilderFix | BInteractionNetBuilderFixApply | BInteractionNetBuilderFixRun |
  BInteractionNetBuilderFixRestore | BNetArity | BInspectOrigin | BCompileSource | BMixinCompose |
  BFloor | BMod | BSlice | BMap | BListConcat | BListLen | BListSplit | BListSplitEnd | BListAt |
  BListHead | BListTail | BListReverse | BPatternIsList | BPatternListTryUncons |
  BPatternListTryUnsnoc | BPatternListIsEmpty | BPatternEqual | BPatternPathEqual | BPatternIsDict |
  BPatternDictTryTake | BPatternDictTryTakeOptional | BPatternDictIsEmpty | BTextLines |
  BJournalConflicts | BListEffect | BListEffectReturn | BListEffectSeq | BListEffectAlt |
  BListEffectCut | BListEffectFix | BHandler | BHandlerReturn | BHandlerSeq | BHandlerAlt |
  BHandlerFail | BHandlerCut | BHandlerGet | BHandlerSet | BHandlerFix | BHandlerReset | BHandlerShift
  | BHandlerContinuation | BHandlerResume | BHandlerFixApply | BHandlerFixRun | BHandlerScoped |
  BHandlerConst | BHandlerClose | BMacroOperation | BMacroOperationOn | BMacroScoped | BMacroLog |
  BTokenText | BTokenRegex | BTokenTextSpan | BTokenAny | BTokenEnd | BIfResult | BMatchResult |
  BDictSingleton | BDictPairs | BDictFromEntries | BDictFromPairs | BDictLookup | BDictDefines |
  BDictDefault | BDictInsert | BDictRemove | BDictUpdate | BDictUnion | BDictIntroduce |
  BDictIntroduceOptional | BDictBuild | BDictRequire | BObjectSpec | BObjectFromDict |
  BObjectLocalName | BObjectInstanceFromParts | BObjectInstance | BDiagnosticObject |
  BDiagnosticContextDefs | BEffectApply | BEffectCall | BEffectMap | BEffectMapRun |
  BEffectMapContinue | BObjectDefaultDefs | BObjectDictDefs | BObjectWithDefs | BObjectComposedDefs |
  BObjectOverrideDefs.

(** [Builtin::arity] *)
Definition builtin_arity (b : Builtin) : nat :=
  match b with
  | BFixpoint | BInteractionNet | BInteractionNetFromNetlist | BInteractionNetBuilderFail |
  BInteractionNetBuilderBind | BInspectOrigin | BFloor | BListConcat | BListLen | BListHead |
  BListTail | BListReverse | BPatternIsList | BPatternListTryUncons | BPatternListTryUnsnoc |
  BPatternListIsEmpty | BPatternIsDict | BPatternDictIsEmpty | BTextLines | BJournalConflicts |
  BListEffect | BListEffectReturn | BListEffectCut | BListEffectFix | BHandlerFail | BTokenTextSpan |
  BTokenAny | BTokenEnd | BIfResult | BMatchResult | BDictPairs | BDictFromPairs | BDictBuild |
  BObjectSpec | BObjectFromDict | BObjectInstance | BDiagnosticObject => 1
  | BAppend | BAdd | BSubtract | BMultiply | BDivide | BGreater | BGreaterEqual | BEqual | BNotEqual |
  BLessEqual | BLess | BAnno | BSeq | BSpark | BInteractionNetBuilderReturn |
  BInteractionNetBuilderContinue | BInteractionNetBuilderCut | BInteractionNetBuilderGet |
  BInteractionNetBuilderCopy | BInteractionNetBuilderData | BInteractionNetBuilderRun |
  BInteractionNetBuilderFix | BNetArity | BMod | BMap | BListSplit | BListSplitEnd | BListAt |
  BPatternEqual | BPatternPathEqual | BPatternDictTryTake | BPatternDictTryTakeOptional |
  BListEffectSeq | BListEffectAlt | BHandlerReturn | BHandlerCut | BHandlerGet | BHandlerFix |
  BHandlerConst | BHandlerClose | BMacroOperation | BMacroLog | BTokenText | BTokenRegex |
  BDictSingleton | BDictFromEntries | BDictLookup | BDictDefines | BDictRemove | BDictUnion |
  BObjectLocalName | BEffectMap | BObjectDefaultDefs | BObjectWithDefs => 2
  | BAssertUnit | BInteractionNetBuilderSeq | BInteractionNetBuilderAlt | BInteractionNetBuilderSet |
  BInteractionNetBuilderReset | BInteractionNetBuilderShift | BInteractionNetBuilderWire |
  BInteractionNetBuilderFixApply | BInteractionNetBuilderFixRestore | BSlice | BHandlerSeq |
  BHandlerAlt | BHandlerSet | BHandlerReset | BHandlerShift | BMacroOperationOn | BMacroScoped |
  BDictDefault | BDictInsert | BDictUpdate | BDictIntroduce | BDictIntroduceOptional | BDictRequire |
  BObjectInstanceFromParts | BDiagnosticContextDefs | BEffectApply | BEffectCall | BObjectDictDefs |
  BObjectOverrideDefs => 3
  | BInteractionNetBuilderResumeApply | BInteractionNetBuilderFixRun | BMixinCompose | BHandler |
  BHandlerScoped | BEffectMapRun | BEffectMapContinue | BObjectComposedDefs => 4
  | BCompileSource | BHandlerContinuation | BHandlerFixApply => 5
  | BInteractionNetBuilderResume | BHandlerFixRun => 6
  | BHandlerResume => 7
  end.

Definition LIST_OPERATOR_MAX_ARITY : nat := 8.

Inductive EvaluationHalt := CaptureArityMismatch | TooManyArguments.

Section operators.
Context (Value Key Net : Type) `{Countable Key}.

(** ** Data *)
Inductive CoreDataKey := DkKey (k : Key) | DkIndex | DkPathIndex.

Record FunctionCode := MkFunctionCode { code_net : Net; code_arity : nat; capture_count : nat }.

Record BuiltinCall := MkBuiltinCall { call_builtin : Builtin; call_arguments : list Value }.

Inductive CoreOperator :=
  | ApplyArity (arity : nat) (supplied : list Value)
  | FunctionCaptures (code : FunctionCode) (supplied : list Value)
  | DictOp (keys : list Key) (supplied : list Value)
  | BuiltinOp (call : BuiltinCall)
  | Applicable (function : Value)
  | ListOp (arity : nat) (supplied : list Value)
  | Access (path : list CoreDataKey) (supplied : list Value)
  | Request (tag : Key) (arity : nat) (supplied : list Value) (wrap_effect : bool).

(** [access_arity]: the base, then one operand for each index. *)
Definition access_arity (path : list CoreDataKey) : nat :=
  1 + length (filter (fun k => match k with DkKey _ => false | _ => true end = true) path).

(** [remaining_operands]; the subtractions of a well-formed operator do not
    underflow. *)
Definition remaining_operands (o : CoreOperator) : nat :=
  match o with
  | ApplyArity arity supplied => arity + 1 - length supplied
  | FunctionCaptures code supplied => capture_count code - length supplied
  | DictOp keys supplied => length keys - length supplied
  | BuiltinOp call => builtin_arity (call_builtin call) - length (call_arguments call)
  | Applicable _ => 1
  | ListOp arity supplied | Request _ arity supplied _ => arity - length supplied
  | Access path supplied => access_arity path - length supplied
  end.

(** [CoreOperator::duplicate_in], given how a value's handle is duplicated. *)
Definition duplicate_in (duplicate_value : Value -> Value) (o : CoreOperator) : CoreOperator :=
  match o with Applicable function => Applicable (duplicate_value function) | _ => o end.

(** ** Constructors, with their assertions *)
Definition apply_arity_operator {E} (arity : nat) (supplied : list Value) : outcome E CoreOperator :=
  _ ← rust_assert (length supplied <? arity + 1); Ok (ApplyArity arity supplied).

Definition function_capture_operator {E} (code : FunctionCode) (supplied : list Value) : outcome E CoreOperator :=
  _ ← rust_assert (0 <? capture_count code);
  _ ← rust_assert (length supplied <? capture_count code);
  Ok (FunctionCaptures code supplied).

Definition dict_operator {E} (keys : list Key) (supplied : list Value) : outcome E CoreOperator :=
  _ ← rust_assert (negb (length keys =? 0));
  _ ← rust_assert (length supplied <? length keys);
  Ok (DictOp keys supplied).

Definition builtin_operator (call : BuiltinCall) : CoreOperator := BuiltinOp call.

Definition applicable_operator (function : Value) : CoreOperator := Applicable function.

Definition list_operator {E} (arity : nat) (supplied : list Value) : outcome E CoreOperator :=
  _ ← rust_assert (length supplied <? arity);
  _ ← rust_assert (arity <=? LIST_OPERATOR_MAX_ARITY);
  Ok (ListOp arity supplied).

Definition access_operator {E} (path : list CoreDataKey) (supplied : list Value) : outcome E CoreOperator :=
  _ ← rust_assert (length supplied <? access_arity path); Ok (Access path supplied).

Definition request_operator {E} (tag : Key) (arity : nat) (supplied : list Value) (wrap_effect : bool) : outcome E CoreOperator :=
  _ ← rust_assert (0 <? arity);
  _ ← rust_assert (length supplied <? arity);
  Ok (Request tag arity supplied wrap_effect).

(** ** Applying an operator *)

(** How values are built from operands. *)
Record ValueMaker := MkValueMaker {
  from_application : Value -> list Value -> Value;
  from_thunk : Net -> list Value -> Value;
  from_builtin : BuiltinCall -> Value;
  from_dict : gmap Key Value -> Value;
  from_list : list Value -> Value;
  from_access : list CoreDataKey -> list Value -> Value;
  from_captures : Net -> list Value -> nat -> Value;
  constant_effect : Value -> Value;
}.

(** The types of the runtime that operators do not touch. *)
Context (Source Token Reason Suspended : Type) `{EqDecision Token}.

#[local] Instance CoreSpecialization : NetSpecialization :=
  {| Data := Value; Operator := CoreOperator; RuntimeSource := Source; WaitToken := Token; SpecStuckReason := Reason; Checkpoint := Suspended |}.

Section apply.
Context (make : ValueMaker) (compiled_function : Value -> nat -> option Net) (duplicate_value : Value -> Value).

(** [with_operand] *)
Definition with_operand (supplied : list Value) (operand : Value) : list Value := (duplicate_value <$> supplied) ++ [operand].

(** [FunctionValue::new] asserts that a stage takes an argument. *)
Definition function_value {E} (code : FunctionCode) (captures : list Value) : outcome E Value :=
  _ ← rust_assert (0 <? code_arity code); Ok (from_captures make (code_net code) captures (code_arity code)).

(** A saturated application: of compiled code, or of whatever the function is. *)
Definition apply_saturated (arity : nat) (supplied : list Value) (operand : Value) : Value :=
  match supplied with
  | [] => operand
  | function :: supplied =>
      let function := duplicate_value function in
      let operands := with_operand supplied operand in
      match compiled_function function arity with
      | Some stage => from_thunk make stage operands
      | None => from_application make function operands
      end
  end.

Definition apply_operator (o : CoreOperator) (data : Value) : outcome EvaluationHalt OperatorYield :=
  let operand := duplicate_value data in
  match o with
  | ApplyArity arity supplied =>
      if length supplied <? arity
      then next ← apply_arity_operator arity (with_operand supplied operand); Ok (YOperator next)
      else Ok (YData (apply_saturated arity supplied operand))
  | FunctionCaptures code supplied =>
      if length supplied + 1 <? capture_count code
      then next ← function_capture_operator code (with_operand supplied operand); Ok (YOperator next)
      else
        let captures := with_operand supplied operand in
        if negb (length captures =? capture_count code) then Err CaptureArityMismatch
        else v ← function_value code captures; Ok (YData v)
  | DictOp keys supplied =>
      let values := with_operand supplied operand in
      if length values <? length keys
      then next ← dict_operator keys values; Ok (YOperator next)
      else Ok (YData (from_dict make (foldl (fun d kv => <[kv.1 := kv.2]> d) ∅ (zip keys values))))
  | BuiltinOp call =>
      let arguments := with_operand (call_arguments call) operand in
      if length arguments <? builtin_arity (call_builtin call)
      then Ok (YOperator (builtin_operator (MkBuiltinCall (call_builtin call) arguments)))
      else if builtin_arity (call_builtin call) <? length arguments then Err TooManyArguments
      else Ok (YData (from_builtin make (MkBuiltinCall (call_builtin call) arguments)))
  | Applicable function => Ok (YData (from_application make (duplicate_value function) [operand]))
  | ListOp arity supplied =>
      let arguments := with_operand supplied operand in
      if length arguments <? arity
      then next ← list_operator arity arguments; Ok (YOperator next)
      else Ok (YData (from_list make arguments))
  | Access path supplied =>
      let arguments := with_operand supplied operand in
      if length arguments <? access_arity path
      then next ← access_operator path arguments; Ok (YOperator next)
      else Ok (YData (from_access make path arguments))
  | Request tag arity supplied wrap_effect =>
      let arguments := with_operand supplied operand in
      if length arguments <? arity
      then next ← request_operator tag arity arguments wrap_effect; Ok (YOperator next)
      else
        let request := from_dict make {[ tag := from_list make arguments ]} in
        Ok (YData (if wrap_effect then constant_effect make request else request))
  end.

(** *** Eager application ([apply_core_operator]) *)

(** The code of an evaluated function's net. *)
Context (stage_code : Net -> nat -> option CompiledNet).

#[local] Instance CoreDuplicator : PayloadDuplicator CoreSpecialization := {| duplicate_data := duplicate_value; duplicate_operator := duplicate_in duplicate_value |}.

(** Inside compiled code an operator must take its operand. *)
Definition step_operator_applied (o : CoreOperator) (d : Value) : option OperatorYield :=
  match apply_operator o d with Ok y => Some y | _ => None end.

(** Whether running the code builds closures. *)
Definition builds_closures (c : CompiledNet) : bool :=
  existsb (fun s => match step_operator s : CoreOperator with FunctionCaptures _ _ => true | _ => false end) (steps c).

Definition eagerly_completed_application (arity : nat) (supplied : list Value) (operand : Value) : M (option Value) :=
  if (arity =? 0) || negb (length supplied =? arity) then Ok None else
  match supplied with
  | [] => Ok None
  | function :: rest =>
      match stage ← compiled_function function arity; stage_code stage arity with
      | None => Ok None
      | Some compiled =>
          if builds_closures compiled then Ok None
          else v ← apply_compiled step_operator_applied compiled (duplicate_value <$> rest ++ [operand]); Ok (Some v)
      end
  end.

(** Code without error results, where there are. *)
Definition without_error {E A} (m : M A) : outcome E A :=
  match m with Ok a => Ok a | Err e => match e with end | Panic => Panic | OutOfFuel => OutOfFuel end.

Definition completed_application (o : CoreOperator) (data : Value) : M (option Value) :=
  match o with ApplyArity arity supplied => eagerly_completed_application arity supplied data | _ => Ok None end.

Definition apply_core_operator (o : CoreOperator) (data : Value) : outcome EvaluationHalt OperatorYield :=
  completed ← without_error (completed_application o data);
  match completed with Some value => Ok (YData value) | None => apply_operator o data end.

(** ** Operators keep count of their operands *)

(** What the constructors assert, and the builder of builtin calls and of function
    values keep. *)
Definition operator_wf (o : CoreOperator) : Prop :=
  match o with
  | ApplyArity arity supplied => length supplied <= arity
  | FunctionCaptures code supplied => length supplied < capture_count code /\ 0 < code_arity code
  | DictOp keys supplied => length supplied < length keys
  | BuiltinOp call => length (call_arguments call) < builtin_arity (call_builtin call)
  | Applicable _ => True
  | ListOp arity supplied => length supplied < arity <= LIST_OPERATOR_MAX_ARITY
  | Access path supplied => length supplied < access_arity path
  | Request _ arity supplied _ => length supplied < arity
  end.

(** The operands an operator has, and what it builds of all of them. *)
Definition operator_supplied (o : CoreOperator) : list Value :=
  match o with
  | ApplyArity _ supplied | FunctionCaptures _ supplied | DictOp _ supplied | ListOp _ supplied | Access _ supplied | Request _ _ supplied _ => supplied
  | BuiltinOp call => call_arguments call
  | Applicable _ => []
  end.

Definition built (o : CoreOperator) (all : list Value) : Value :=
  match o with
  | ApplyArity arity _ =>
      match all with
      | [] => from_list make []
      | [v] => v
      | function :: operands => match compiled_function function arity with Some stage => from_thunk make stage operands | None => from_application make function operands end
      end
  | FunctionCaptures code _ => from_captures make (code_net code) all (code_arity code)
  | DictOp keys _ => from_dict make (foldl (fun d kv => <[kv.1 := kv.2]> d) ∅ (zip keys all))
  | BuiltinOp call => from_builtin make (MkBuiltinCall (call_builtin call) all)
  | Applicable function => from_application make function all
  | ListOp _ _ => from_list make all
  | Access path _ => from_access make path all
  | Request tag _ _ wrap_effect => let request := from_dict make {[ tag := from_list make all ]} in if wrap_effect then constant_effect make request else request
  end.

(** The operator with other operands. *)
Definition resupplied (o : CoreOperator) (supplied : list Value) : CoreOperator :=
  match o with
  | ApplyArity arity _ => ApplyArity arity supplied
  | FunctionCaptures code _ => FunctionCaptures code supplied
  | DictOp keys _ => DictOp keys supplied
  | BuiltinOp call => BuiltinOp (MkBuiltinCall (call_builtin call) supplied)
  | Applicable function => Applicable function
  | ListOp arity _ => ListOp arity supplied
  | Access path _ => Access path supplied
  | Request tag arity _ wrap_effect => Request tag arity supplied wrap_effect
  end.

Lemma builtin_takes b : 0 < builtin_arity b.
Proof. destruct b; cbn; lia. Qed.

Lemma remaining_positive o : operator_wf o -> 0 < remaining_operands o.
Proof. destruct o; cbn -[access_arity]; lia. Qed.

Context (HV : forall v, duplicate_value v = v).

Lemma duplicate_list (vs : list Value) : duplicate_value <$> vs = vs.
Proof. rewrite <- (list_fmap_id vs) at 2. apply list_fmap_ext. intros i v _. apply HV. Qed.

Lemma with_operand_eq supplied d : with_operand supplied (duplicate_value d) = supplied ++ [d].
Proof. unfold with_operand. by rewrite HV, duplicate_list. Qed.

(** An operand is kept, or is the last one and the value is built. *)
Lemma apply_operator_eq o d : operator_wf o ->
  apply_operator o d = Ok (if remaining_operands o =? 1 then YData (built o (operator_supplied o ++ [d])) else YOperator (resupplied o (operator_supplied o ++ [d]))).
Proof.
  destruct o as [arity supplied|code supplied|keys supplied|call|function|arity supplied|path supplied|tag arity supplied wrap]; cbn -[access_arity Nat.sub Nat.eqb Nat.ltb]; intros Hwf;
    rewrite ?with_operand_eq, ?length_app; cbn [length].
  - destruct (Nat.ltb_spec (length supplied) arity).
    + rewrite (proj2 (Nat.eqb_neq _ _)) by lia. unfold apply_arity_operator. rewrite length_app. cbn [length]. rewrite (proj2 (Nat.ltb_lt _ _)) by lia. done.
    + rewrite (proj2 (Nat.eqb_eq _ _)) by lia. f_equal. f_equal. unfold apply_saturated. destruct supplied as [|f rest]; [by rewrite HV|]. rewrite with_operand_eq, HV. by destruct rest.
  - destruct Hwf as [Hl Ha]. destruct (Nat.ltb_spec (length supplied + 1) (capture_count code)).
    + rewrite (proj2 (Nat.eqb_neq _ _)) by lia. unfold function_capture_operator. rewrite length_app. cbn [length]. by rewrite !(proj2 (Nat.ltb_lt _ _)) by lia.
    + rewrite (proj2 (Nat.eqb_eq (capture_count code - _) 1)) by lia. rewrite (proj2 (Nat.eqb_eq (length supplied + 1) _)) by lia. cbn [negb]. unfold function_value. by rewrite (proj2 (Nat.ltb_lt _ _)) by lia.
  - destruct (Nat.ltb_spec (length supplied + 1) (length keys)).
    + rewrite (proj2 (Nat.eqb_neq _ _)) by lia. unfold dict_operator. rewrite length_app. cbn [length]. rewrite (proj2 (Nat.eqb_neq _ _)) by lia. by rewrite (proj2 (Nat.ltb_lt _ _)) by lia.
    + by rewrite (proj2 (Nat.eqb_eq _ 1)) by lia.
  - destruct (Nat.ltb_spec (length (call_arguments call) + 1) (builtin_arity (call_builtin call))).
    + by rewrite (proj2 (Nat.eqb_neq _ _)) by lia.
    + rewrite (proj2 (Nat.eqb_eq _ 1)) by lia. by rewrite (proj2 (Nat.ltb_ge _ _)) by lia.
  - by rewrite !HV.
  - destruct (Nat.ltb_spec (length supplied + 1) arity).
    + rewrite (proj2 (Nat.eqb_neq _ _)) by lia. unfold list_operator. rewrite length_app. cbn [length]. rewrite (proj2 (Nat.ltb_lt _ _)) by lia. by rewrite (proj2 (Nat.leb_le _ _)) by lia.
    + by rewrite (proj2 (Nat.eqb_eq _ 1)) by lia.
  - destruct (Nat.ltb_spec (length supplied + 1) (access_arity path)).
    + rewrite (proj2 (Nat.eqb_neq _ _)) by lia. unfold access_operator. rewrite length_app. cbn [length]. by rewrite (proj2 (Nat.ltb_lt _ _)) by lia.
    + by rewrite (proj2 (Nat.eqb_eq _ 1)) by lia.
  - destruct (Nat.ltb_spec (length supplied + 1) arity).
    + rewrite (proj2 (Nat.eqb_neq _ _)) by lia. unfold request_operator. rewrite length_app. cbn [length]. by rewrite !(proj2 (Nat.ltb_lt _ _)) by lia.
    + by rewrite (proj2 (Nat.eqb_eq _ 1)) by lia.
Qed.

Lemma resupplied_ok o d : operator_wf o -> remaining_operands o <> 1 -> let o' := resupplied o (operator_supplied o ++ [d]) in
  operator_wf o' /\ remaining_operands o = S (remaining_operands o') /\ operator_supplied o' = operator_supplied o ++ [d] /\ forall all, built o' all = built o all.
Proof.
  destruct o as [arity supplied|code supplied|keys supplied|call|function|arity supplied|path supplied|tag arity supplied wrap]; cbn -[access_arity Nat.sub]; intros Hwf Hr;
    rewrite ?length_app; cbn [length]; (split; [lia|]); (split; [lia|]); done.
Qed.

Lemma core_operands_law : operands_law (S:=CoreSpecialization) remaining_operands operator_wf step_operator_applied.
Proof.
  intros o d Hwf _. unfold step_operator_applied. rewrite apply_operator_eq by done. eexists. split; [done|]. destruct (Nat.eqb_spec (remaining_operands o) 1) as [->|Hr]; [done|].
  destruct (resupplied_ok o d Hwf Hr) as (Hwf' & Hrem & _). split; [done|]. split; [done|]. by apply remaining_positive.
Qed.

Lemma core_duplicates : duplicates_exactly (S:=CoreSpecialization).
Proof. split; cbn; [done|]. intros o. destruct o; cbn; by rewrite ?HV. Qed.

(** Operands one after another; none is left over. *)
Fixpoint apply_all (o : CoreOperator) (ds : list Value) : outcome EvaluationHalt OperatorYield :=
  match ds with
  | [] => Ok (YOperator o)
  | d :: ds =>
      yield ← apply_operator o d;
      match yield with YOperator o => apply_all o ds | YData v => match ds with [] => Ok (YData v) | _ => Panic end end
  end.

(** An operator builds its value from all its operands, in order. A well-formed
    operator takes [remaining_operands] of them, at least one; each is kept until
    the last, which yields the value of all those it was supplied; no assertion
    fails, and the arity errors do not happen. *)
Theorem operator_saturates o ds : operator_wf o -> length ds = remaining_operands o ->
  0 < remaining_operands o /\ apply_all o ds = Ok (YData (built o (operator_supplied o ++ ds))).
Proof.
  intros Hwf Hl. split; [by apply remaining_positive|]. revert o Hwf Hl. induction ds as [|d ds IH]; intros o Hwf Hl; cbn [apply_all].
  - pose proof (remaining_positive o Hwf). cbn in Hl. lia.
  - rewrite apply_operator_eq by done. cbn [mbind outcome_bind]. destruct (Nat.eqb_spec (remaining_operands o) 1) as [Hr|Hr].
    + destruct ds; [done|]. cbn in Hl. lia.
    + destruct (resupplied_ok o d Hwf Hr) as (Hwf' & Hrem & Hs & Hb). rewrite IH; [|done|cbn in Hl; lia]. by rewrite Hs, Hb, <- app_assoc.
Qed.

(** ** Compiled code of the language's nets *)

(** The codes stages have were compiled from nets with well-formed operators. *)
Definition codes_compiled : Prop := forall stage k c, stage_code stage k = Some c ->
  exists N, compile N k remaining_operands = Ok c /\ forall n o, node_at N n = Some (ROperator o) -> operator_wf o.

Lemma code_runs c k arguments : (exists N, compile N k remaining_operands = Ok c /\ forall n o, node_at N n = Some (ROperator o) -> operator_wf o) -> length arguments = k ->
  exists v, apply_compiled step_operator_applied c arguments = Ok v.
Proof.
  intros (N & Hc & HG) Hl. destruct (compiled_code_correct N k remaining_operands c step_operator_applied operator_wf core_operands_law HG core_duplicates Hc) as (_ & _ & spine & body & _ & Hrun).
  destruct (Hrun arguments Hl) as (v & Hv & _). by exists v.
Qed.

(** An application completed eagerly ran the code of its function. *)
Definition eagerly_run (o : CoreOperator) (d v : Value) : Prop := exists arity function rest stage c, o = ApplyArity arity (function :: rest) /\
  remaining_operands o = 1 /\ compiled_function function arity = Some stage /\ stage_code stage arity = Some c /\ builds_closures c = false /\
  apply_compiled step_operator_applied c (rest ++ [d]) = Ok v.

Lemma completed_application_ok o d : codes_compiled -> completed_application o d = Ok None \/ exists v, completed_application o d = Ok (Some v) /\ eagerly_run o d v.
Proof.
  intros HC. destruct o as [arity supplied| | | | | | |]; try (by left). cbn [completed_application]. unfold eagerly_completed_application.
  destruct (Nat.eqb_spec arity 0) as [|Ha]; [by left|]. cbn [orb]. destruct (Nat.eqb_spec (length supplied) arity) as [Hl|]; [|by left]. cbn [negb].
  destruct supplied as [|function rest]; [by left|]. destruct (compiled_function function arity) as [stage|] eqn:Hf; [|by left]. cbn [mbind option_bind].
  destruct (stage_code stage arity) as [c|] eqn:Hc; [|by left]. destruct (builds_closures c) eqn:Hb; [by left|]. right. rewrite duplicate_list.
  destruct (code_runs c arity (rest ++ [d])) as [v Hv]; [by apply (HC stage)|rewrite length_app; cbn in *; lia|]. exists v. rewrite Hv. split; [done|].
  exists arity, function, rest, stage, c. split; [done|]. split; [cbn -[Nat.sub] in *; lia|done].
Qed.

(** Eager application only changes how the value of a saturated application is
    built. With codes that were compiled, it never panics or fails; what it yields
    is what the operator alone yields, or, for the last operand of an application
    of an evaluated function with code, the value the code computes. *)
Theorem eager_application_total o d : codes_compiled -> operator_wf o -> exists y, apply_core_operator o d = Ok y /\
  (apply_operator o d = Ok y \/ exists v, y = YData v /\ eagerly_run o d v) /\
  match y with YData _ => remaining_operands o = 1 | YOperator o' => operator_wf o' /\ remaining_operands o = S (remaining_operands o') end.
Proof.
  intros HC Hwf. unfold apply_core_operator. destruct (completed_application_ok o d HC) as [-> |(v & -> & Hv)]; cbn [without_error mbind outcome_bind].
  - rewrite apply_operator_eq by done. eexists. split; [done|]. split; [by left|]. destruct (Nat.eqb_spec (remaining_operands o) 1) as [|Hr]; [done|].
    destruct (resupplied_ok o d Hwf Hr) as (H1 & H2 & _). done.
  - exists (YData (S:=CoreSpecialization) v). split; [done|]. split; [right; by exists v|]. by destruct Hv as (arity & function & rest & stage & c & _ & Hr & _).
Qed.

(** C10. Compiled code computes what its net builds. When a net of well-formed operators
    compiles, the code takes as many inputs, its steps use inputs, constants and
    earlier steps only, and on any arguments it runs without a panic and gives the
    one value that the body of the net carries. *)
Theorem core_code_correct (N : RuntimeNet) k c : (forall n o, node_at N n = Some (ROperator o) -> operator_wf o) -> compile N k remaining_operands = Ok c ->
  inputs c = k /\
  (forall i s x, steps c !! i = Some s -> x ∈ step_operands s -> match x with OpInput j => j < k | OpConstant _ => True | OpStep j => j < i end) /\
  exists spine body, compilable N remaining_operands k spine body /\
    forall arguments, length arguments = k -> exists v, apply_compiled step_operator_applied c arguments = Ok v /\
      forall y, carries N spine step_operator_applied arguments body y <-> y = YData v.
Proof. intros HG Hc. by apply (compiled_code_correct N k remaining_operands c step_operator_applied operator_wf core_operands_law HG core_duplicates). Qed.
End apply.
End operators.

Arguments DkKey {Key} k. Arguments DkIndex {Key}. Arguments DkPathIndex {Key}.
Arguments MkFunctionCode {Net}. Arguments MkBuiltinCall {Value}. Arguments MkValueMaker {Value Key Net _ _}.
Arguments ApplyArity {Value Key Net}. Arguments FunctionCaptures {Value Key Net}. Arguments DictOp {Value Key Net}.
Arguments BuiltinOp {Value Key Net}. Arguments Applicable {Value Key Net}. Arguments ListOp {Value Key Net}.
Arguments Access {Value Key Net}. Arguments Request {Value Key Net}.
