(* ===== verification/CompiledSamples.v ===== *)
(** * Compiling a concrete net

    The template of [fun x => x + x]: a bind takes the argument, a fan copies it,
    an addition takes one copy and, through an application bind, the other. Values
    are integers here; a saturated addition is their sum. *)
From stdpp Require Import base option list numbers gmap sets tactics.
From Stdlib Require Import ZArith Lia.
From S2P Require Import Prelude NetModel NetBuilder RuntimeGraph Instantiate Calls WholeCopy Compiled CompiledFacts CoreOperators.

Module CompiledSample.

Notation operator := (CoreOperator Z nat unit).

#[local] Instance spec : NetSpecialization := CoreSpecialization Z nat unit unit unit unit unit.
#[local] Instance duplicator : PayloadDuplicator spec := CoreDuplicator Z nat unit unit unit unit unit id.

Definition make : ValueMaker Z nat unit :=
  MkValueMaker (fun _ _ => 0%Z) (fun _ _ => 0%Z)
    (fun call => match call_builtin _ call with BAdd => foldr Z.add 0%Z (call_arguments _ call) | _ => 0%Z end)
    (fun _ => 0%Z) (fun _ => 0%Z) (fun _ _ => 0%Z) (fun _ _ _ => 0%Z) id.

Definition compiled_function (_ : Z) (_ : nat) : option unit := None.

Definition add : operator := BuiltinOp (MkBuiltinCall BAdd []).

Definition applied : operator -> Z -> option OperatorYield := step_operator_applied Z nat unit unit unit unit unit make compiled_function id.

Definition double_net : InteractionNet Z operator :=
  MkNet [Bind; Fan (MkFanSite 0); OperatorNode add; Bind]
    [MkWire (MkPort 0 2) (MkPort 1 0); MkWire (MkPort 1 1) (MkPort 2 0); MkWire (MkPort 1 2) (MkPort 3 1); MkWire (MkPort 2 1) (MkPort 3 0);
     MkWire (MkPort 3 2) (MkPort 0 1)] (MkPort 0 0).

Definition double_builder : NetBuilder Z operator :=
  MkBuilder (Runtime <$> net_nodes double_net) (net_wires double_net)
    {[MkPort 0 1; MkPort 0 2; MkPort 1 0; MkPort 1 1; MkPort 1 2; MkPort 2 0; MkPort 2 1; MkPort 3 0; MkPort 3 1; MkPort 3 2]} 1.

Example double_finishes : try_finish double_builder (MkPort 0 0) = Ok double_net.
Proof. vm_compute. reflexivity. Qed.

Definition double : RuntimeNet := match RuntimeNet_new double_net with Ok N => N | _ => empty_net end.

Definition no_code : CompiledNet := MkCompiled 0 [] (OpInput 0).

Definition code : CompiledNet := match compile double 1 (remaining_operands Z nat unit) with Ok c => c | _ => no_code end.

Lemma double_compiles : compile double 1 (remaining_operands Z nat unit) = Ok code.
Proof. vm_compute. reflexivity. Qed.

Example code_doubles : apply_compiled applied code [21%Z] = Ok 42%Z.
Proof. vm_compute. reflexivity. Qed.

(** A spine for two arguments is not there. *)
Example double_not_binary : compile double 2 (remaining_operands Z nat unit) = Err Unsupported.
Proof. vm_compute. reflexivity. Qed.

Lemma double_operators n o : node_at double n = Some (ROperator o) -> operator_wf Z nat unit o.
Proof.
  assert (Hall : map_Forall (fun _ (e : RuntimeEntry (S:=spec)) => match entry_node e with ROperator o => operator_wf Z nat unit o | _ => True end) (rt_nodes double)).
  { apply map_Forall_to_list. vm_compute. repeat constructor. }
  unfold node_at. intros (e & He & Ho)%fmap_Some. specialize (Hall n e He). cbn in Hall. by rewrite <- Ho in Hall.
Qed.

Lemma core_code_correct_witness : inputs code = 1 /\
  (forall i s x, steps code !! i = Some s -> x ∈ step_operands s -> match x with OpInput j => j < 1 | OpConstant _ => True | OpStep j => j < i end) /\
  exists spine body, compilable double (remaining_operands Z nat unit) 1 spine body /\
    forall arguments, length arguments = 1 -> exists v, apply_compiled applied code arguments = Ok v /\
      forall y, carries double spine applied arguments body y <-> y = YData v.
Proof.
  apply (core_code_correct Z nat unit unit unit unit unit make compiled_function id); [done|exact double_operators|exact double_compiles].
Defined.

Lemma operator_saturates_witness : 0 < remaining_operands Z nat unit add /\
  apply_all Z nat unit unit unit unit unit make compiled_function id add [1%Z; 2%Z] = Ok (YData (built Z nat unit make compiled_function add ([] ++ [1%Z; 2%Z]))).
Proof.
  apply (operator_saturates Z nat unit unit unit unit unit make compiled_function id).
  - done.
  - cbn. lia.
  - reflexivity.
Defined.
End CompiledSample.
