(* ===== verification/InterfaceRoute.v ===== *)
(** * Interface demand and its recorded routes ([src/interaction_net/runtime.rs])

    The evaluation that demands an interface polls it: [poll_interface_demand]
    walks from the interface along principal ports to the active pair it waits
    for. The walk's route is recorded ([InterfaceRoute]: a ring of the newest
    nodes and marks below them), so that the next poll resumes it. The file
    holds the data and the operations, with the resolution of cursor
    dependencies that polling leads to. *)
From stdpp Require Import base option list numbers gmap tactics.
From Stdlib Require Import ZArith Lia.
From S2P Require Import Prelude NetModel RuntimeGraph Rewrite WalkCycle Copies.

(** ** Routes *)
Definition ROUTE_UNRECORDED : nat := 4.
Definition ROUTE_RECENT : nat := 8.
Definition ROUTE_MARK_STRIDE : nat := 8.

Record RouteRecord := MkRecord {
  recent : list (option nat);
  recent_start : nat;
  recent_len : nat;
  tip_depth : nat;
  marks : list nat;
}.

Definition InterfaceRoute : Type := option RouteRecord.

Definition record_default : RouteRecord := MkRecord (replicate ROUTE_RECENT None) 0 0 0 [].

Definition record_clear (r : RouteRecord) : RouteRecord := MkRecord (recent r) (recent_start r) 0 (tip_depth r) [].

Definition route_clear (route : InterfaceRoute) : InterfaceRoute := record_clear <$> route.

Definition record_tip (r : RouteRecord) : M (option nat) :=
  match recent_len r with
  | 0 => Ok None
  | S last => vec_get (recent r) ((recent_start r + last) mod ROUTE_RECENT)
  end.

(** Depths count the steps of a walk and are natural numbers; subtracting
    past zero panics. The debug assertion is left out. *)
Definition record_push (r : RouteRecord) (n depth : nat) : M RouteRecord :=
  r ← (if bool_decide (recent_len r = ROUTE_RECENT) then
         slot ← vec_get (recent r) (recent_start r);
         oldest ← expect slot;
         _ ← rust_assert (bool_decide (ROUTE_RECENT <= depth));
         let marks := if bool_decide (depth - ROUTE_RECENT = (length (marks r) + 1) * ROUTE_MARK_STRIDE)
                      then marks r ++ [oldest] else marks r in
         Ok (MkRecord (recent r) ((recent_start r + 1) mod ROUTE_RECENT) (recent_len r - 1) (tip_depth r) marks)
       else Ok r);
  slots ← vec_set (recent r) ((recent_start r + recent_len r) mod ROUTE_RECENT) (Some n);
  Ok (MkRecord slots (recent_start r) (recent_len r + 1) depth (marks r)).

Definition record_pop (r : RouteRecord) : M (RouteRecord * option (nat * nat)) :=
  t ← record_tip r;
  match t with
  | None => Ok (r, None)
  | Some n =>
      let depth := tip_depth r in
      Ok (MkRecord (recent r) (recent_start r) (recent_len r - 1) (depth - 1) (marks r), Some (n, depth))
  end.

(** ** Polling *)
Section polling.
Context {S : NetSpecialization}.
Implicit Types (N : RuntimeNet) (n : nat).

Inductive InterfaceDemand :=
  | DData
  | DBind
  | DNormalForm
  | DStableCursor (cursor : nat)
  | DCursor (cursor : nat)
  | DActivePair (pair : nat).

(** [RuntimeNetMutation]: whether the net changed. *)
Inductive RuntimeNetMutation (R : Type) := Unchanged (r : R) | Changed (r : R).
Arguments Unchanged {R} r.
Arguments Changed {R} r.

Definition missing N n : bool := bool_decide (node_at N n = None).

(** [while record.tip().is_some_and(..missing..)]; the fuel is the ring's
    length. *)
Fixpoint drop_recent (fuel : nat) N (r : RouteRecord) : M RouteRecord :=
  t ← record_tip r;
  match t with
  | Some n =>
      if missing N n then
        match fuel with
        | 0 => OutOfFuel
        | Datatypes.S fuel => '(r, _) ← record_pop r; drop_recent fuel N r
        end
      else Ok r
  | None => Ok r
  end.

Fixpoint drop_marks (fuel : nat) N (ms : list nat) : M (list nat) :=
  match list.last ms with
  | Some n =>
      if missing N n then
        match fuel with
        | 0 => OutOfFuel
        | Datatypes.S fuel => drop_marks fuel N (removelast ms)
        end
      else Ok ms
  | None => Ok ms
  end.

(** The newest surviving node of a record, taken off it, with its depth. *)
Definition route_start N (r : RouteRecord) : M (RouteRecord * option (nat * nat)) :=
  r ← drop_recent (recent_len r) N r;
  '(r, popped) ← record_pop r;
  match popped with
  | Some found => Ok (r, Some found)
  | None =>
      ms ← drop_marks (length (marks r)) N (marks r);
      let ms' := removelast ms in
      Ok (MkRecord (recent r) (recent_start r) (recent_len r) (tip_depth r) ms',
          (fun mark => (mark, (length ms' + 1) * ROUTE_MARK_STRIDE)) <$> list.last ms)
  end.

Fixpoint route_loop (fuel : nat) N (cycle : WalkCycle nat) (n depth : nat) (route : InterfaceRoute)
    : M (InterfaceRoute * option nat) :=
  match fuel with
  | 0 => OutOfFuel
  | Datatypes.S fuel =>
      '(cycle, fresh) ← advance cycle n;
      if negb fresh then Ok (route_clear route, None)
      else match neighbor N (principal n) with
           | None => Ok (route_clear route, None)
           | Some q =>
               if is_principal q then Ok (route, Some (active_pair_key n (node q)))
               else
                 route ← (if bool_decide (ROUTE_UNRECORDED <= depth) then
                            r ← record_push (default record_default route) n depth; Ok (Some r)
                          else Ok route);
                 route_loop fuel N cycle (node q) (depth + 1) route
           end
  end.

Definition walk_interface_route N (neighbor : Port) (route : InterfaceRoute) : M (InterfaceRoute * option nat) :=
  '(route, start) ← match route with
                    | Some r => '(r, start) ← route_start N r; Ok (Some r, start)
                    | None => Ok (None, None)
                    end;
  match start with
  | Some (n, depth) => route_loop (spine_fuel N) N WalkCycle_new n depth route
  | None =>
      if is_principal neighbor then Ok (route, None)
      else route_loop (spine_fuel N) N WalkCycle_new (node neighbor) 0 route
  end.

Definition cursor_claim_is_stable N (cursor : nat) : M bool :=
  owner ← cursor_claim_owner N cursor;
  Ok (match owner with
      | Some (OwnActivePair key) =>
          match active N !! key with
          | Some (ApBlockedCursor blocked BlStable) => bool_decide (blocked = cursor)
          | _ => false
          end
      | Some OwnObligation =>
          match cursor_obligations N !! cursor with
          | Some (MkObligation _ PcStable) => true
          | _ => false
          end
      | None => false
      end).

Definition poll_interface_demand N (interface : Port) (route : InterfaceRoute)
    : M (RuntimeNet * InterfaceRoute * RuntimeNetMutation InterfaceDemand) :=
  _ ← assert_interface N interface;
  match neighbor N interface with
  | None => Ok (N, route_clear route, Unchanged DNormalForm)
  | Some nb =>
      if is_principal nb then
        let route := route_clear route in
        let n := node nb in
        match node_at N n with
        | Some (RData _) => Ok (N, route, Unchanged DData)
        | Some RBind => Ok (N, route, Unchanged DBind)
        | Some (RRemoteCursor _ _) =>
            owner ← cursor_claim_owner N n;
            '(N, inserted) ← match owner with
                             | None => ensure_pairless_cursor_obligation N n
                             | Some _ => Ok (N, false)
                             end;
            stable ← cursor_claim_is_stable N n;
            let demand := if (stable : bool) then DStableCursor n else DCursor n in
            Ok (N, route, if (inserted : bool) then Changed demand else Unchanged demand)
        | _ => Ok (N, route, Unchanged DNormalForm)
        end
      else
        '(route, found) ← walk_interface_route N nb route;
        Ok (N, route, Unchanged (match found with
                                 | None => DNormalForm
                                 | Some key =>
                                     match active N !! key with
                                     | Some (ApBlockedCursor cursor BlStable) => DStableCursor cursor
                                     | _ => DActivePair key
                                     end
                                 end))
  end.

(** ** Cursor dependencies *)
Inductive CursorDependencyDisposition := Progressed | Stable.
Inductive CursorDependencyResolution := Resolved | Disturbed | Gone.

Inductive CursorStepInspection :=
  | CiClaimable (pair : option nat)
  | CiDependency (dependency : CursorDependency)
  | CiStable
  | CiClaimed
  | CiGone.

(** [same_runtime_source]: the gateway's comparison. *)
Context (same_runtime_source : RuntimeSource -> RuntimeSource -> bool) (duplicate_runtime_source : RuntimeSource -> RuntimeSource).

Definition same_observation (a b : FrontierObservation) : bool :=
  (observed_topology a =? observed_topology b)%Z && bool_decide (obs_endpoint a = obs_endpoint b) &&
  same_runtime_source (obs_source a) (obs_source b).

Definition same_dependency (a b : CursorDependency) : bool :=
  match a, b with
  | LocalCursor x, LocalCursor y => bool_decide (x = y)
  | SourceCursor x, SourceCursor y | SourceFrontierDep x, SourceFrontierDep y => same_observation x y
  | _, _ => false
  end.

Definition duplicate_observation (o : FrontierObservation) : FrontierObservation :=
  MkObservation (duplicate_runtime_source (obs_source o)) (observed_topology o) (obs_endpoint o).

Definition duplicate_dependency (d : CursorDependency) : CursorDependency :=
  match d with
  | LocalCursor cursor => LocalCursor cursor
  | SourceCursor o => SourceCursor (duplicate_observation o)
  | SourceFrontierDep o => SourceFrontierDep (duplicate_observation o)
  end.

Definition inspect_cursor_step N (cursor : nat) : M CursorStepInspection :=
  owner ← cursor_claim_owner N cursor;
  match owner with
  | Some (OwnActivePair key) =>
      Ok (match active N !! key with
          | Some ApReady => CiClaimable (Some key)
          | Some ApClaimed => CiClaimed
          | Some (ApBlockedCursor blocked (BlDependency dependency)) =>
              if bool_decide (blocked = cursor) then CiDependency (duplicate_dependency dependency) else CiGone
          | Some (ApBlockedCursor blocked BlStable) => if bool_decide (blocked = cursor) then CiStable else CiGone
          | _ => CiGone
          end)
  | Some OwnObligation =>
      obligation ← expect (cursor_obligations N !! cursor);
      Ok (match ob_state obligation with
          | PcReady => CiClaimable None
          | PcClaimed => CiClaimed
          | PcBlocked dependency => CiDependency (duplicate_dependency dependency)
          | PcStable => CiStable
          end)
  | None =>
      Ok (match node_at N cursor with
          | Some (RRemoteCursor _ _) => CiClaimable None
          | _ => CiGone
          end)
  end.

Definition resolve_cursor_dependency N (cursor : nat) (expected : CursorDependency) (disposition : CursorDependencyDisposition)
    : M (RuntimeNet * CursorDependencyResolution) :=
  owner ← cursor_claim_owner N cursor;
  match owner with
  | None => Ok (N, Gone)
  | Some owner =>
      let matches_expected := match owner with
        | OwnActivePair key =>
            match active N !! key with
            | Some (ApBlockedCursor blocked (BlDependency actual)) =>
                bool_decide (blocked = cursor) && same_dependency actual expected
            | _ => false
            end
        | OwnObligation =>
            match cursor_obligations N !! cursor with
            | Some (MkObligation _ (PcBlocked actual)) => same_dependency actual expected
            | _ => false
            end
        end in
      if negb matches_expected then Ok (N, Disturbed)
      else
        N ← match owner with
            | OwnActivePair key =>
                Ok (with_active N (<[key := match disposition with
                                            | Progressed => ApReady
                                            | Stable => ApBlockedCursor cursor BlStable
                                            end]> (active N)))
            | OwnObligation =>
                obligation ← expect (cursor_obligations N !! cursor);
                Ok (with_obligations N (<[cursor := MkObligation (ob_cursor obligation) (match disposition with
                                                                                        | Progressed => PcReady
                                                                                        | Stable => PcStable
                                                                                        end)]> (cursor_obligations N)))
            end;
        Ok (N, Resolved)
  end.

End polling.

Arguments Unchanged {R} r.
Arguments Changed {R} r.
