(* ===== verification/RouteFacts.v ===== *)
(** * Recorded routes are sound

    A resumed walk finds the pair that a walk from the interface finds,
    whatever happened to the net since the route was recorded. The ring of a
    record stands for a list of nodes with their depths; the record claims of
    each node that, if it survives, the route reaches it at that depth; every
    change of the net keeps such claims true. *)
From stdpp Require Import base option list numbers gmap tactics.
From Stdlib Require Import ZArith Lia.
From S2P Require Import Prelude NetModel RuntimeGraph Boundary Rewrite Calls Evolution WalkCycle WholeCopy Copies CopyInvariant.
From S2P Require Import CopySteps Changes InterfaceRoute.

(** ** The ring *)
Section ring.
Implicit Types (r : RouteRecord) (ns : list nat) (n d i : nat).

Record ring_ok r ns : Prop := {
  rg_size : length (recent r) = ROUTE_RECENT;
  rg_start : recent_start r < ROUTE_RECENT;
  rg_len : recent_len r = length ns;
  rg_full : length ns <= ROUTE_RECENT;
  rg_slots : forall i n, ns !! i = Some n -> recent r !! ((recent_start r + i) mod ROUTE_RECENT) = Some (Some n);
}.

Lemma slot_bound i : i mod ROUTE_RECENT < ROUTE_RECENT.
Proof. apply Nat.mod_upper_bound. unfold ROUTE_RECENT. lia. Qed.

(** Distinct positions of the ring are distinct slots. *)
Lemma slots_apart s i j : i < ROUTE_RECENT -> j < ROUTE_RECENT -> (s + i) mod ROUTE_RECENT = (s + j) mod ROUTE_RECENT -> i = j.
Proof.
  unfold ROUTE_RECENT. intros Hi Hj He. pose proof (Nat.div_mod_eq (s + i) 8) as H1. pose proof (Nat.div_mod_eq (s + j) 8) as H2. lia.
Qed.

Lemma slot_shift s i : ((s + 1) mod ROUTE_RECENT + i) mod ROUTE_RECENT = (s + Datatypes.S i) mod ROUTE_RECENT.
Proof. rewrite Nat.Div0.add_mod_idemp_l. f_equal. lia. Qed.

Lemma default_ok : ring_ok record_default [].
Proof. split; cbn; [done|unfold ROUTE_RECENT; lia|done|unfold ROUTE_RECENT; lia|done]. Qed.

Lemma clear_ok r ns : ring_ok r ns -> ring_ok (record_clear r) [].
Proof. intros [H1 H2 _ _ _]. split; cbn; [done|done|done|unfold ROUTE_RECENT; lia|done]. Qed.

Lemma tip_ok r ns : ring_ok r ns -> record_tip r = Ok (list.last ns).
Proof.
  intros [H1 H2 H3 H4 H5]. unfold record_tip. rewrite H3, last_lookup. destruct ns as [|n ns]; [done|]. cbn [length Nat.pred].
  destruct (lookup_lt_is_Some_2 (n :: ns) (length ns) ltac:(cbn; lia)) as [m Hm]. rewrite Hm. apply vec_get_Ok. by apply H5.
Qed.

Definition pop_ring ns : list nat := take (length ns - 1) ns.

Lemma pop_ok r ns : ring_ok r ns -> exists r', record_pop r = Ok (r', (fun n => (n, tip_depth r)) <$> list.last ns) /\
  ring_ok r' (pop_ring ns) /\ marks r' = marks r /\ (ns <> [] -> tip_depth r' = tip_depth r - 1).
Proof.
  intros HR. unfold record_pop, pop_ring. rewrite (tip_ok r ns HR). destruct HR as [H1 H2 H3 H4 H5]. cbn [mbind outcome_bind].
  destruct (list.last ns) as [n|] eqn:El; cbn.
  - eexists. split; [done|]. split; [|done]. split; cbn; [done|done|rewrite length_take; lia|rewrite length_take; lia|].
    intros i m Hi. apply lookup_take_Some in Hi as [Hi _]. by apply H5.
  - apply last_None in El as ->. eexists. split; [done|]. split; [by split|done].
Qed.

Lemma push_ok r ns n d : ring_ok r ns -> (length ns = ROUTE_RECENT -> ROUTE_RECENT <= d) -> exists r' ms, record_push r n d = Ok r' /\ tip_depth r' = d /\ marks r' = ms /\
  if decide (length ns = ROUTE_RECENT)
  then exists oldest rest, ns = oldest :: rest /\ ring_ok r' (rest ++ [n]) /\
    (ms = marks r \/ ms = marks r ++ [oldest] /\
      d - ROUTE_RECENT = (length (marks r) + 1) * ROUTE_MARK_STRIDE)
  else ring_ok r' (ns ++ [n]) /\ ms = marks r.
Proof.
  intros [H1 H2 H3 H4 H5] Hd. unfold record_push. rewrite H3. destruct (decide (length ns = ROUTE_RECENT)) as [Hl|Hl].
  - rewrite bool_decide_true by done. destruct ns as [|oldest rest]; [done|].
    pose proof (H5 0 oldest eq_refl) as H0. rewrite Nat.add_0_r, Nat.mod_small in H0 by done.
    rewrite (proj2 (vec_get_Ok _ _ _) H0). cbn [mbind outcome_bind expect].
    rewrite (bool_decide_true (ROUTE_RECENT <= d)) by (by apply Hd). cbn [rust_assert mbind outcome_bind]. set (ms := if bool_decide _ then _ else _).
    cbn [recent recent_start recent_len marks]. cbn [length] in *. rewrite vec_set_lt by (rewrite H1; apply slot_bound).
    cbn [mbind outcome_bind]. eexists _, ms. split; [done|]. split; [done|]. split; [done|]. exists oldest, rest. split; [done|]. split.
    + split; cbn [recent recent_start recent_len].
      * by rewrite length_insert.
      * apply slot_bound.
      * rewrite length_app. cbn. lia.
      * rewrite length_app. cbn. lia.
      * intros i m Hi. rewrite slot_shift. replace (Datatypes.S (length rest) - 1) with (length rest) by lia. rewrite slot_shift.
        destruct (decide (i = length rest)) as [->|Hne].
        -- rewrite lookup_app_r, Nat.sub_diag in Hi by done. injection Hi as <-. rewrite list_lookup_insert_eq; [done|]. rewrite H1. apply slot_bound.
        -- assert (i < length rest) by (apply lookup_lt_Some in Hi; rewrite length_app in Hi; cbn in Hi; lia).
           rewrite lookup_app_l in Hi by done. rewrite list_lookup_insert_ne; [by apply H5|].
           intros He. replace (recent_start r + Datatypes.S (length rest)) with (recent_start r + 1 + length rest) in He by lia.
           replace (recent_start r + Datatypes.S i) with (recent_start r + 1 + i) in He by lia. apply slots_apart in He; lia.
    + unfold ms. case_bool_decide; [by right|by left].
  - rewrite bool_decide_false by done. cbn [mbind outcome_bind]. rewrite H3, vec_set_lt by (rewrite H1; apply slot_bound).
    cbn [mbind outcome_bind]. eexists _, (marks r). do 3 (split; [done|]). split; [|done].
    split; cbn [recent recent_start recent_len]; [by rewrite length_insert|done|rewrite length_app; cbn; lia|rewrite length_app; cbn; lia|].
    intros i m Hi. destruct (decide (i = length ns)) as [->|Hne].
    + rewrite lookup_app_r, Nat.sub_diag in Hi by done. injection Hi as <-. rewrite list_lookup_insert_eq; [done|]. rewrite H1. apply slot_bound.
    + assert (i < length ns) by (apply lookup_lt_Some in Hi; rewrite length_app in Hi; cbn in Hi; lia).
      rewrite lookup_app_l in Hi by done. rewrite list_lookup_insert_ne; [by apply H5|].
      intros He. apply slots_apart in He; lia.
Qed.

End ring.

(** ** What a record claims *)
Section claims.
Context (F : nat -> nat -> Prop).
Implicit Types (r : RouteRecord) (ns : list nat) (n d i : nat).

(** Every recorded node with its depth satisfies [F]; [next] is the depth of
    the node to be recorded next. *)
Record recorded_as r ns : Prop := {
  ra_ring : ring_ok r ns;
  ra_recent : forall i n, ns !! i = Some n -> exists d, d + length ns = tip_depth r + 1 + i /\ F n d;
  ra_marks : forall i n, marks r !! i = Some n -> F n ((i + 1) * ROUTE_MARK_STRIDE);
}.

Definition record_ok r : Prop := exists ns, recorded_as r ns.
Definition ready_for r d : Prop := exists ns, recorded_as r ns /\ (ns = [] \/ d = tip_depth r + 1).

Lemma record_default_ok d : ready_for record_default d.
Proof. exists []. split; [|by left]. split; [apply default_ok|done|done]. Qed.

Lemma record_clear_ok r : record_ok r -> record_ok (record_clear r).
Proof. intros (ns & [H1 _ _]). exists []. split; [by eapply clear_ok|done|done]. Qed.

Lemma push_record r n d : ready_for r d -> F n d ->
  exists r', record_push r n d = Ok r' /\ ready_for r' (d + 1).
Proof.
  intros (ns & [HR Hrec Hm] & Hd) HF. destruct (push_ok r ns n d HR) as (r' & ms & Hp & Ht & Hms & Hcase).
  { intros Hl. destruct Hd as [->|Hd]; [done|]. destruct ns as [|m ns]; [done|]. destruct (Hrec 0 m eq_refl) as (d' & Hd' & _). lia. }
  exists r'. split; [done|]. destruct (decide (length ns = ROUTE_RECENT)) as [Hl|Hl].
  - destruct Hcase as (oldest & rest & -> & HR' & Hmarks). destruct Hd as [?|Hd]; [done|]. cbn [length] in *.
    exists (rest ++ [n]). split; [|by right; rewrite Ht]. split; [done|..].
    + intros i m Hi. rewrite Ht, length_app. cbn. destruct (decide (i = length rest)) as [->|Hne].
      * rewrite lookup_app_r, Nat.sub_diag in Hi by done. injection Hi as <-. exists d. split; [lia|done].
      * assert (i < length rest) by (apply lookup_lt_Some in Hi; rewrite length_app in Hi; cbn in Hi; lia).
        rewrite lookup_app_l in Hi by done. destruct (Hrec (Datatypes.S i) m Hi) as (d' & Hd' & HF'). exists d'. split; [lia|done].
    + intros i m Hi. rewrite Hms in Hi. destruct Hmarks as [->|[-> Hw]]; [by apply Hm|].
      destruct (decide (i = length (marks r))) as [->|Hne].
      * rewrite lookup_app_r, Nat.sub_diag in Hi by done. injection Hi as <-.
        destruct (Hrec 0 oldest eq_refl) as (d' & Hd' & HF'). unfold ROUTE_RECENT in *.
        by replace ((length (marks r) + 1) * ROUTE_MARK_STRIDE) with d' by lia.
      * assert (i < length (marks r)) by (apply lookup_lt_Some in Hi; rewrite length_app in Hi; cbn in Hi; lia).
        rewrite lookup_app_l in Hi by done. by apply Hm.
  - destruct Hcase as [HR' ->]. exists (ns ++ [n]). split; [|by right; rewrite Ht]. split; [done| |rewrite Hms; exact Hm].
    intros i m Hi. rewrite Ht, length_app. cbn. destruct (decide (i = length ns)) as [->|Hne].
    + rewrite lookup_app_r, Nat.sub_diag in Hi by done. injection Hi as <-. exists d. split; [lia|done].
    + assert (i < length ns) by (apply lookup_lt_Some in Hi; rewrite length_app in Hi; cbn in Hi; lia).
      rewrite lookup_app_l in Hi by done. destruct Hd as [->|Hd]; [done|].
      destruct (Hrec i m Hi) as (d' & Hd' & HF'). exists d'. split; [lia|done].
Qed.

Lemma pop_record r ns : recorded_as r ns -> exists r', record_pop r = Ok (r', (fun n => (n, tip_depth r)) <$> list.last ns) /\
  recorded_as r' (pop_ring ns) /\ marks r' = marks r /\ (pop_ring ns = [] \/ tip_depth r = tip_depth r' + 1) /\
  forall n, list.last ns = Some n -> F n (tip_depth r).
Proof.
  intros [HR Hrec Hm]. destruct (pop_ok r ns HR) as (r' & Hp & HR' & Hms & Ht). exists r'. split; [done|].
  assert (Hdep : forall i n, pop_ring ns !! i = Some n -> exists d, d + length ns = tip_depth r + 1 + i /\ F n d /\ i + 1 < length ns).
  { intros i n Hi. unfold pop_ring in Hi. apply lookup_take_Some in Hi as [Hi Hlt]. destruct (Hrec i n Hi) as (d & Hd & HF). exists d. split; [done|]. split; [done|lia]. }
  assert (Hlen : length (pop_ring ns) = length ns - 1) by (unfold pop_ring; rewrite length_take; lia).
  split; [split; [done| |by rewrite Hms]|split; [done|split]].
  - intros i n Hi. destruct (Hdep i n Hi) as (d & Hd & HF & Hlt). exists d. split; [|done].
    rewrite Hlen, (Ht ltac:(by intros ->)). lia.
  - destruct (pop_ring ns) as [|m rest] eqn:E; [by left|right]. destruct (Hdep 0 m eq_refl) as (d & Hd & _ & Hlt).
    rewrite (Ht ltac:(by intros ->)). lia.
  - intros n Hl. rewrite last_lookup in Hl. destruct (Hrec _ _ Hl) as (d & Hd & HF). apply lookup_lt_Some in Hl.
    by replace (tip_depth r) with d by lia.
Qed.

End claims.

Lemma record_ok_mono (F F' : nat -> nat -> Prop) r : (forall n d, F n d -> F' n d) -> record_ok F r -> record_ok F' r.
Proof.
  intros HF (ns & [H1 H2 H3]). exists ns. split; [done| |by intros; apply HF, H3].
  intros i n Hi. destruct (H2 i n Hi) as (d & Hd & ?). exists d. auto.
Qed.

(** ** Routes of a net *)
Section routes.
Context {S : NetSpecialization} {P : PayloadDuplicator S}.
Implicit Types (N : RuntimeNet) (e : Port) (n d k : nat) (o : option nat).

Definition first_node N e : option nat := q ← neighbor N e; if is_principal q then None else Some (node q).

(** Following principal ports to auxiliary ports. *)
Definition follow N k o : option nat := Nat.iter k (fun o => o ≫= spine_next N) o.

(** The node at depth [d] of the route from interface port [e]. *)
Definition route_at N e d : option nat := follow N d (first_node N e).

Lemma follow_add N i j o : follow N (i + j) o = follow N i (follow N j o).
Proof. apply Nat.iter_add. Qed.

Lemma follow_None N k : follow N k None = None.
Proof. induction k as [|k IH]; [done|]. change (follow N k None ≫= spine_next N = None). by rewrite IH. Qed.

Lemma follow_next N k n : follow N (Datatypes.S k) (Some n) = follow N k (spine_next N n).
Proof. unfold follow. by rewrite Nat.iter_succ_r. Qed.

Lemma route_S N e d : route_at N e (Datatypes.S d) = route_at N e d ≫= spine_next N.
Proof. done. Qed.

Lemma spine_next_spec N n m : spine_next N n = Some m <->
  exists q, reference N (principal n) = Some q /\ is_principal (port q) = false /\ node (port q) = m.
Proof.
  unfold spine_next, neighbor. destruct (reference N (principal n)) as [q|]; cbn; [|split; [done|intros (? & ? & _); done]].
  destruct (is_principal (port q)) eqn:E; split; try done.
  - intros (q' & [= <-] & H & _). congruence.
  - intros [= <-]. eauto.
  - intros (q' & [= <-] & _ & <-). done.
Qed.

Lemma first_node_spec N e m : first_node N e = Some m <->
  exists q, reference N e = Some q /\ is_principal (port q) = false /\ node (port q) = m.
Proof.
  unfold first_node, neighbor. destruct (reference N e) as [q|]; cbn; [|split; [done|intros (? & ? & _); done]].
  destruct (is_principal (port q)) eqn:E; split; try done.
  - intros (q' & [= <-] & H & _). congruence.
  - intros [= <-]. eauto.
  - intros (q' & [= <-] & _ & <-). done.
Qed.

(** A node entered by an auxiliary port has one. *)
Lemma entered N p q : graph_ok N -> reference N p = Some q -> is_principal (port q) = false ->
  exists kind, node_at N (node (port q)) = Some kind /\ 1 < runtime_port_count kind.
Proof.
  intros G H Hp. destruct q as [q s]. apply (go_sym _ G), reference_valid in H as (kind & Hk & Hi). exists kind. split; [done|].
  cbn in *. unfold is_principal in Hp. apply Nat.eqb_neq in Hp || apply bool_decide_eq_false in Hp. lia.
Qed.

Lemma route_entered N e d n : graph_ok N -> route_at N e d = Some n -> exists kind, node_at N n = Some kind /\ 1 < runtime_port_count kind.
Proof.
  intros G H. destruct d as [|d].
  - apply first_node_spec in H as (q & Hq & Hp & <-). by eapply entered.
  - rewrite route_S in H. destruct (route_at N e d) as [m|]; [|done]. apply spine_next_spec in H as (q & Hq & Hp & <-). by eapply entered.
Qed.

(** A surviving node of the route stays at its depth. *)
Lemma route_evolves N N' e d n : net_wf N -> evolves N N' -> node_at N (node e) = Some RInterface ->
  route_at N e d = Some n -> alive N' n -> route_at N' e d = Some n.
Proof.
  intros W EV He. pose proof (nw_graph _ W) as G. revert n. induction d as [|d IH]; intros n H Ha.
  - apply first_node_spec in H as (q & Hq & Hp & <-). apply first_node_spec. exists q. split; [|done].
    apply (ev_wires _ _ EV); [|done|done]. unfold alive. by rewrite (ev_interface _ _ EV _ He).
  - rewrite route_S in H. destruct (route_at N e d) as [m|] eqn:Em; [|done]. cbn in H. apply spine_next_spec in H as (q & Hq & Hp & <-).
    destruct (route_entered N e d m G Em) as (k & Hk & Hc). assert (Hm : alive N' m) by (apply (ev_waiting _ _ EV); exists k, q; done).
    rewrite route_S, (IH m eq_refl Hm). cbn. apply spine_next_spec. exists q. split; [|done]. by apply (ev_wires _ _ EV).
Qed.

(** What a record may claim of a net. *)
Definition on_route N e n d : Prop := ROUTE_UNRECORDED <= d /\ n < next_node_id N /\ (alive N n -> route_at N e d = Some n).

Definition route_ok N e (route : InterfaceRoute) : Prop :=
  match route with None => True | Some r => record_ok (on_route N e) r end.

Lemma route_ok_evolves N N' e route : net_wf N -> evolves N N' -> node_at N (node e) = Some RInterface ->
  route_ok N e route -> route_ok N' e route.
Proof.
  intros W EV He. destruct route as [r|]; [|done]. apply record_ok_mono. intros n d (H4 & Hn & H). split; [done|].
  pose proof (ev_next _ _ EV). split; [lia|]. intros Ha. eapply route_evolves; [done..| |done]. by apply H, (ev_old _ _ _ EV).
Qed.

(** ** Where the route ends *)
Definition demanded N n key : Prop := exists k u q, follow N k (Some n) = Some u /\
  neighbor N (principal u) = Some q /\ is_principal q = true /\ key = active_pair_key u (node q).

Lemma no_next N u q : neighbor N (principal u) = Some q -> is_principal q = true -> spine_next N u = None.
Proof. intros H Hp. unfold spine_next. rewrite H. cbn. by rewrite Hp. Qed.

Lemma follow_end N n k u j : follow N k (Some n) = Some u -> spine_next N u = None -> is_Some (follow N j (Some n)) -> j <= k.
Proof.
  intros H Hn [m Hm]. destruct (decide (j <= k)) as [|Hlt]; [done|]. exfalso.
  replace j with ((j - k - 1) + (1 + k)) in Hm by lia. rewrite follow_add, follow_add, H in Hm. cbn in Hm. by rewrite Hn, follow_None in Hm.
Qed.

(** A route that comes back to a node has no end. *)
Lemma loop_endless N n j key : follow N (Datatypes.S j) (Some n) = Some n -> ~ demanded N n key.
Proof.
  intros Hl (k & u & q & Hk & Hq & Hp & ->). pose proof (no_next N u q Hq Hp) as Hn. revert Hk.
  induction (lt_wf k) as [k _ IH]. intros Hk. pose proof (follow_end N n k u (Datatypes.S j) Hk Hn ltac:(by eexists)) as Hle.
  apply (IH (k - Datatypes.S j)); [lia|]. replace k with ((k - Datatypes.S j) + Datatypes.S j) in Hk by lia. by rewrite follow_add, Hl in Hk.
Qed.

Lemma demanded_next N n m key : spine_next N n = Some m -> demanded N n key <-> demanded N m key.
Proof.
  intros Hn. split; intros (k & u & q & Hk & Hq & Hp & ->).
  - destruct k as [|k]; [cbn in Hk; injection Hk as ->; by rewrite (no_next N u q Hq Hp) in Hn|].
    rewrite follow_next, Hn in Hk. by exists k, u, q.
  - exists (Datatypes.S k), u, q. by rewrite follow_next, Hn.
Qed.

Lemma demanded_follow N k n m key : follow N k (Some n) = Some m -> demanded N n key <-> demanded N m key.
Proof.
  revert n. induction k as [|k IH]; intros n H; [by injection H as ->|]. rewrite follow_next in H.
  destruct (spine_next N n) as [n'|] eqn:E; [|by rewrite follow_None in H]. rewrite (demanded_next N n n' key E). by apply IH.
Qed.

End routes.

(** ** The walk *)
Section walking.
Context {S : NetSpecialization} {P : PayloadDuplicator S}.
Implicit Types (N : RuntimeNet) (e : Port) (n d k : nat).

Definition demand_step N n (_ : unit) : option nat + nat * unit :=
  match neighbor N (principal n) with
  | None => inl None
  | Some q => if is_principal q then inl (Some (active_pair_key n (node q))) else inr (node q, tt)
  end.

(** The walk without its record. *)
Definition bare_walk N (fuel : nat) (w : WalkCycle nat) n : M (option nat) :=
  walk_while (demand_step N) (fun _ => None) fuel w n tt.

Definition walk_room N : Prop := (Z.of_nat (spine_fuel N) + 2 <= usize_max)%Z.

Lemma bare_walk_total N n : graph_ok N -> walk_room N -> exists r, bare_walk N (spine_fuel N) WalkCycle_new n = Ok r.
Proof.
  intros G Hfit. apply (walk_while_total _ _ (spine_next N) (elements (dom (rt_nodes N)))).
  - intros a acc b acc'. unfold demand_step, spine_next. destruct (neighbor N (principal a)) as [q|]; [|done].
    cbn. destruct (is_principal q); [done|]. by intros [= <- _].
  - intros a b Hb. apply spine_next_spec in Hb as (q & Hq & _ & <-). apply (reference_alive _ _ _ G) in Hq as [_ [k Hk]].
    apply elem_of_elements, elem_of_dom. unfold node_at in Hk. by destruct (rt_nodes N !! node (port q)).
  - unfold spine_fuel. rewrite <- size_dom. unfold size at 1, set_size. cbn. lia.
  - done.
Qed.

Lemma advance_cases (w w' : WalkCycle nat) n b : advance (E:=Empty_set) w n = Ok (w', b) ->
  if b then saved w' = Some n \/ saved w' = saved w else saved w = Some n.
Proof.
  unfold advance. case_bool_decide as Hs; [by intros [= <- <-]|]. intros H. inv_ok. destruct (_ =? _)%Z; inv_ok; [by left|by right].
Qed.

(** The walk finds the end of the route, and only that. *)
Lemma bare_walk_demanded N fuel : forall w n r, bare_walk N fuel w n = Ok r ->
  (forall s, saved w = Some s -> exists j, follow N (Datatypes.S j) (Some s) = Some n) ->
  forall key, r = Some key <-> demanded N n key.
Proof.
  induction fuel as [|fuel IH]; intros w n r H Hs key; cbn in H; [done|].
  destruct (advance w n) as [[w' b]| | |] eqn:Ea; cbn in H; try done. pose proof (advance_cases _ _ _ _ Ea) as Hc. destruct b; cbn in H.
  - unfold demand_step in H. destruct (neighbor N (principal n)) as [q|] eqn:Eq.
    + destruct (is_principal q) eqn:Ep.
      * injection H as <-. split; [intros [= <-]; by exists 0, n, q|]. intros (k & u & q' & Hk & Hq & Hp & ->).
        pose proof (no_next N n q Eq Ep) as Hn. pose proof (follow_end N n 0 n k eq_refl Hn ltac:(by eexists)) as Hle.
        destruct k; [|lia]. injection Hk as <-. rewrite Eq in Hq. by injection Hq as ->.
      * assert (Hn : spine_next N n = Some (node q)) by (unfold spine_next; rewrite Eq; cbn; by rewrite Ep).
        rewrite (demanded_next N n (node q) key Hn). eapply IH; [exact H|]. intros s Hsv.
        destruct Hc as [Hc|Hc]; rewrite Hc in Hsv; [injection Hsv as <-; exists 0; by rewrite follow_next, Hn|].
        destruct (Hs s Hsv) as [j Hj]. exists (Datatypes.S j). change (Datatypes.S (Datatypes.S j)) with (1 + Datatypes.S j).
        rewrite follow_add, Hj. cbn. by rewrite Hn.
    + injection H as <-. split; [done|]. intros (k & u & q' & Hk & Hq & Hp & ->).
      assert (Hn : spine_next N n = None) by (unfold spine_next; by rewrite Eq).
      pose proof (follow_end N n 0 n k eq_refl Hn ltac:(by eexists)) as Hle. destruct k; [|lia]. injection Hk as <-. congruence.
  - injection H as <-. split; [done|]. destruct (Hs n Hc) as [j Hj]. intros Hd. by eapply loop_endless in Hd.
Qed.

Lemma walks_agree N n m r r' k : follow N k (Some n) = Some m ->
  bare_walk N (spine_fuel N) WalkCycle_new n = Ok r -> bare_walk N (spine_fuel N) WalkCycle_new m = Ok r' -> r = r'.
Proof.
  intros Hf H1 H2. pose proof (bare_walk_demanded N _ _ _ _ H1 ltac:(done)) as D1. pose proof (bare_walk_demanded N _ _ _ _ H2 ltac:(done)) as D2.
  setoid_rewrite (demanded_follow N k n m) in D1; [|done]. destruct r as [key|].
  - symmetry. apply D2, D1. done.
  - destruct r' as [key|]; [|done]. apply D1, D2. done.
Qed.

(** The record may take the node at depth [d] next. *)
Definition route_ready N e (route : InterfaceRoute) d : Prop :=
  match route with
  | None => True
  | Some r => recorded_as (on_route N e) r [] \/ ready_for (on_route N e) r d /\ ROUTE_UNRECORDED <= d
  end.

Lemma route_ready_ok N e route d : route_ready N e route d -> route_ok N e route.
Proof. destruct route as [r|]; [|done]. intros [H|[(ns & H & _) _]]; by eexists. Qed.

Lemma route_clear_ok N e route : route_ok N e route -> route_ok N e (route_clear route).
Proof. destruct route as [r|]; [|done]. apply record_clear_ok. Qed.

Lemma record_step N e route n d : graph_ok N -> route_ready N e route d -> route_at N e d = Some n ->
  exists route', (if bool_decide (ROUTE_UNRECORDED <= d) then r ← record_push (default record_default route) n d; Ok (Some r) else Ok route) =
    Ok (E:=Empty_set) route' /\ route_ready N e route' (d + 1).
Proof.
  intros G HR Hd. case_bool_decide as H4.
  - assert (Hready : ready_for (on_route N e) (default record_default route) d).
    { destruct route as [r|]; cbn; [|apply record_default_ok]. destruct HR as [H|[H _]]; [|done]. exists []. split; [done|by left]. }
    destruct (route_entered N e d n G Hd) as (k & Hk & _).
    destruct (push_record (on_route N e) _ n d Hready) as (r' & Hp & Hr').
    { split; [done|]. split; [|done]. apply (go_fresh _ G). by rewrite Hk. }
    exists (Some r'). rewrite Hp. split; [done|]. right. split; [done|lia].
  - exists route. split; [done|]. destruct route as [r|]; [|done]. destruct HR as [H|[_ H]]; [by left|done].
Qed.

(** The recording walk does what the bare walk does. *)
Lemma route_loop_ok N e fuel : graph_ok N -> forall w n d route r, bare_walk N fuel w n = Ok r ->
  route_at N e d = Some n -> route_ready N e route d ->
  exists route', route_loop fuel N w n d route = Ok (route', r) /\ route_ok N e route'.
Proof.
  intros G. induction fuel as [|fuel IH]; intros w n d route r H Hd HR; [done|]. cbn in H |- *.
  pose proof (route_ready_ok _ _ _ _ HR) as HO. pose proof (route_clear_ok _ _ _ HO) as HC.
  destruct (advance w n) as [[w' b]| | |]; cbn in H |- *; try done. destruct b; cbn in H |- *; [|injection H as <-; by eexists].
  unfold demand_step in H. destruct (neighbor N (principal n)) as [q|] eqn:Eq; [|injection H as <-; by eexists].
  destruct (is_principal q) eqn:Ep; [injection H as <-; by eexists|].
  destruct (record_step N e route n d G HR Hd) as (route' & Hp & HR'). rewrite Hp. cbn [mbind outcome_bind].
  apply (IH w' (node q) (d + 1) route' r H); [|done]. rewrite Nat.add_1_r, route_S, Hd. cbn. unfold spine_next. rewrite Eq. cbn. by rewrite Ep.
Qed.

End walking.

(** ** Resuming *)
Section resuming.
Context {S : NetSpecialization} {P : PayloadDuplicator S}.
Implicit Types (N : RuntimeNet) (e : Port) (n d : nat) (r : RouteRecord) (ns : list nat).

Lemma missing_alive N n : missing N n = false <-> alive N n.
Proof. unfold missing, alive. rewrite bool_decide_eq_false, not_eq_None_Some. done. Qed.

Lemma drop_recent_ok (F : nat -> nat -> Prop) N fuel : forall r ns, recorded_as F r ns -> length ns <= fuel ->
  exists r' ns', drop_recent fuel N r = Ok r' /\ recorded_as F r' ns' /\ marks r' = marks r /\
    forall n, list.last ns' = Some n -> alive N n.
Proof.
  induction fuel as [|fuel IH]; intros r ns HR Hf; cbn [drop_recent]; rewrite (tip_ok r ns (ra_ring _ _ _ HR)); cbn [mbind outcome_bind];
    destruct (list.last ns) as [n|] eqn:El; try (exists r, ns; split; [done|]; split; [done|]; split; [done|]; intros n' Hn'; congruence).
  - destruct ns; [done|]. cbn in Hf. lia.
  - destruct (missing N n) eqn:Em.
    2: { exists r, ns. split; [done|]. split; [done|]. split; [done|]. intros n' Hn'. rewrite El in Hn'. injection Hn' as <-. by apply missing_alive. }
    destruct (pop_record F r ns HR) as (r1 & Hp & HR1 & Hm & _). rewrite Hp. cbn [mbind outcome_bind].
    destruct (IH r1 (pop_ring ns) HR1) as (r' & ns' & Hd & HR' & Hm' & Ha); [unfold pop_ring; rewrite length_take; lia|].
    exists r', ns'. split; [done|]. split; [done|]. split; [congruence|done].
Qed.

Lemma removelast_take {A} (l : list A) : removelast l = take (length l - 1) l.
Proof. rewrite removelast_firstn_len. f_equal. lia. Qed.

Lemma drop_marks_ok N fuel : forall ms, length ms <= fuel ->
  exists j, drop_marks fuel N ms = Ok (take j ms) /\ forall n, list.last (take j ms) = Some n -> alive N n.
Proof.
  induction fuel as [|fuel IH]; intros ms Hf.
  - destruct ms; [|cbn in Hf; lia]. exists 0. done.
  - cbn [drop_marks]. destruct (list.last ms) as [n|] eqn:El.
    2: { exists (length ms). rewrite firstn_all. split; [done|]. intros n Hn. congruence. }
    destruct (missing N n) eqn:Em.
    2: { exists (length ms). rewrite firstn_all. split; [done|]. intros n' Hn'. rewrite El in Hn'. injection Hn' as <-. by apply missing_alive. }
    destruct (IH (removelast ms)) as (j & Hj & Ha); [rewrite removelast_take, length_take; lia|].
    rewrite removelast_take, take_take in *. by eexists.
Qed.

Lemma route_start_ok N e r : record_ok (on_route N e) r -> exists r' start, route_start N r = Ok (r', start) /\
  match start with
  | Some (n, d) => route_at N e d = Some n /\ route_ready N e (Some r') d
  | None => recorded_as (on_route N e) r' []
  end.
Proof.
  intros (ns & HR). unfold route_start. destruct (drop_recent_ok _ N (recent_len r) r ns HR) as (r1 & ns1 & -> & HR1 & _ & Ha).
  { by rewrite (rg_len _ _ (ra_ring _ _ _ HR)). }
  cbn [mbind outcome_bind]. destruct (pop_record _ r1 ns1 HR1) as (r2 & -> & HR2 & Hm & Ht & HF). cbn [mbind outcome_bind].
  destruct (list.last ns1) as [n|] eqn:El; cbn.
  - eexists _, _. split; [done|]. destruct (HF n eq_refl) as (H4 & _ & Hr). split; [by apply Hr, Ha|]. right. split; [|done].
    exists (pop_ring ns1). split; [done|]. destruct Ht as [Ht|Ht]; [by left|by right].
  - apply last_None in El as ->. cbn in HR2. destruct (drop_marks_ok N (length (marks r2)) (marks r2)) as (j & -> & Hal); [done|]. cbn [mbind outcome_bind].
    eexists _, _. split; [done|]. set (ms := take j (marks r2)) in *.
    assert (Hms : forall i n, ms !! i = Some n -> on_route N e n ((i + 1) * ROUTE_MARK_STRIDE)).
    { intros i n Hi. apply lookup_take_Some in Hi as [Hi _]. by apply (ra_marks _ _ _ HR2). }
    assert (HR3 : recorded_as (on_route N e) (MkRecord (recent r2) (recent_start r2) (recent_len r2) (tip_depth r2) (removelast ms)) []).
    { destruct HR2 as [[G1 G2 G3 G4 G5] _ _]. split; [by split|done|]. cbn. intros i n Hi. apply Hms. rewrite removelast_take in Hi. by apply lookup_take_Some in Hi as [? _]. }
    destruct (list.last ms) as [n|] eqn:Eml; cbn; [|done]. rewrite last_lookup in Eml. pose proof (Hms _ _ Eml) as (H4 & _ & Hr).
    assert (Hdep : (length (removelast ms) + 1) * ROUTE_MARK_STRIDE = (Nat.pred (length ms) + 1) * ROUTE_MARK_STRIDE).
    { rewrite removelast_take, length_take. f_equal. lia. }
    rewrite Hdep. split; [|by left]. by apply Hr, Hal.
Qed.

(** The resumed walk and the full walk find the same pair. *)
Lemma walk_route_ok N e nb : graph_ok N -> walk_room N -> neighbor N e = Some nb -> is_principal nb = false ->
  exists found, (forall key, found = Some key <-> demanded N (node nb) key) /\
    forall route, route_ok N e route -> exists route', walk_interface_route N nb route = Ok (route', found) /\ route_ok N e route'.
Proof.
  intros G Hw Hnb Hp. assert (H0 : route_at N e 0 = Some (node nb)) by (cbn; unfold first_node; rewrite Hnb; cbn; by rewrite Hp).
  destruct (bare_walk_total N (node nb) G Hw) as [found H1]. exists found. split; [exact (bare_walk_demanded N _ _ _ _ H1 ltac:(done))|].
  assert (Hfull : forall route, route_ready N e route 0 -> exists route', route_loop (spine_fuel N) N WalkCycle_new (node nb) 0 route = Ok (route', found) /\
    route_ok N e route') by (intros rt HR; exact (route_loop_ok N e _ G _ _ _ _ _ H1 H0 HR)).
  intros route HO. unfold walk_interface_route. destruct route as [r|]; cbn [mbind outcome_bind]; [|rewrite Hp; by apply Hfull].
  destruct (route_start_ok N e r HO) as (r1 & start & -> & HS). cbn [mbind outcome_bind]. destruct start as [[n d]|]; [|rewrite Hp; apply Hfull; by left].
  destruct HS as [Hd HR]. destruct (bare_walk_total N n G Hw) as [found' H2].
  assert (found = found') as <-.
  { eapply (walks_agree N (node nb) n); [|done..]. unfold route_at in Hd, H0. cbn in H0. by rewrite H0 in Hd. }
  exact (route_loop_ok N e _ G _ _ _ _ _ H2 Hd HR).
Qed.

End resuming.

(** ** Polling *)
Section polls.
Context {S : NetSpecialization} {P : PayloadDuplicator S}.
Implicit Types (N : RuntimeNet) (e : Port) (n : nat).

(** The end of a route is an active pair. *)
Lemma demanded_active N n key : net_wf N -> demanded N n key -> is_Some (active N !! key).
Proof.
  intros W (k & u & q & _ & Hq & Hp & ->). apply (nw_active _ W). right. unfold neighbor in Hq. apply fmap_Some in Hq as ([q' s] & Hr & ->).
  cbn in *. apply is_principal_spec in Hp. rewrite Hp in Hr. pose proof (go_sym _ (nw_graph _ W) _ _ _ Hr) as Hb. unfold active_pair_key.
  assert (u <> node q') by (intros Hx; rewrite <- Hx in Hr; by apply (sym_not_self _ _ _ (nw_graph _ W)) in Hr).
  destruct (Nat.lt_total u (node q')) as [Hlt|[?|Hlt]]; [|done|].
  - rewrite Nat.min_l by lia. by exists (node q'), s.
  - rewrite Nat.min_r by lia. exists u, (opposite s). split; [done|lia].
Qed.

Definition stable_obligation N n : bool :=
  match cursor_obligations N !! n with Some (MkObligation _ PcStable) => true | _ => false end.

Definition blocked_stable N key : option nat :=
  match active N !! key with Some (ApBlockedCursor cursor BlStable) => Some cursor | _ => None end.

(** What polling interface [e] of [N] says, and what it does to the net. *)
Definition poll_spec N e N' (m : RuntimeNetMutation InterfaceDemand) : Prop :=
  exists nb, neighbor N e = Some nb /\
  if is_principal nb then
    match node_at N (node nb) with
    | Some (RData _) => N' = N /\ m = Unchanged DData
    | Some RBind => N' = N /\ m = Unchanged DBind
    | Some (RRemoteCursor _ _) =>
        if decide (is_Some (cursor_obligations N !! node nb))
        then N' = N /\ m = Unchanged (if stable_obligation N (node nb) then DStableCursor (node nb) else DCursor (node nb))
        else N' = with_obligations N (<[node nb := MkObligation (node nb) PcReady]> (cursor_obligations N)) /\ m = Changed (DCursor (node nb))
    | _ => N' = N /\ m = Unchanged DNormalForm
    end
  else N' = N /\
    match m with
    | Unchanged (DActivePair key) => demanded N (node nb) key /\ is_Some (active N !! key) /\ blocked_stable N key = None
    | Unchanged (DStableCursor cursor) => exists key, demanded N (node nb) key /\ blocked_stable N key = Some cursor
    | Unchanged DNormalForm => forall key, ~ demanded N (node nb) key
    | _ => False
    end.

(** A cursor that faces an auxiliary port is owned by its obligation only. *)
Lemma pairless_owner N e n : graph_ok N -> neighbor N e = Some (principal n) -> index e = 1 -> rt_active_pair_key N n = None /\
  cursor_claim_owner N n = Ok (if decide (is_Some (cursor_obligations N !! n)) then Some OwnObligation else None).
Proof.
  intros G Hn He. unfold neighbor in Hn. apply fmap_Some in Hn as ([q s] & Hr & Hq). cbn in Hq. subst q. apply (go_sym _ G) in Hr.
  assert (Hk : rt_active_pair_key N n = None).
  { unfold rt_active_pair_key, neighbor. rewrite Hr. cbn. unfold is_principal. by rewrite He. }
  split; [done|]. unfold cursor_claim_owner. rewrite Hk. cbn [fmap option_fmap option_map].
  destruct (cursor_obligations N !! n) as [o|] eqn:Eo.
  - rewrite decide_True by eauto. rewrite (bool_decide_true (ob_cursor o = n)) by apply (go_obligations _ G _ _ Eo). done.
  - rewrite decide_False by (by intros [? ?]). done.
Qed.

Lemma poll_cursor N e n cp rm : net_wf N -> neighbor N e = Some (principal n) -> index e = 1 -> node_at N n = Some (RRemoteCursor cp rm) ->
  cursor_obligations N !! n = None -> net_wf (with_obligations N (<[n := MkObligation n PcReady]> (cursor_obligations N))).
Proof.
  intros W Hn He Hc Ho. destruct (pairless_owner N e n (nw_graph _ W) Hn He) as [Hk _]. destruct W as [[[G1 G2 G3 G4] W2 W3 W4] W5].
  split; [split; [split|done..]|done]; try done. intros c o Hco. cbn in Hco. apply lookup_insert_Some in Hco as [[<- <-]|[_ Hco]]; [|by apply G4].
  split; [done|]. split; [by eexists _, _|exact Hk].
Qed.

(** Polling answers the same whatever was recorded. *)
Lemma poll_ok N e : net_wf N -> walk_room N -> index e = 1 -> node_at N (node e) = Some RInterface ->
  exists N' m, net_wf N' /\ rt_nodes N' = rt_nodes N /\ next_node_id N' = next_node_id N /\ poll_spec N e N' m /\
    forall route, route_ok N e route -> exists route', poll_interface_demand N e route = Ok (N', route', m) /\ route_ok N e route'.
Proof.
  intros W Hw He Hi. pose proof (nw_graph _ W) as G. unfold poll_spec.
  assert (HA : assert_interface N e = Ok tt) by (unfold assert_interface; rewrite bool_decide_true by done; cbn; by rewrite Hi).
  destruct (nw_nodes _ W _ _ Hi) as [_ Ho]. destruct e as [en ei]. cbn in He, Hi, Ho. subst ei. apply own_reference in Ho as [nb Hr]. set (e := MkPort en 1) in *.
  assert (Hnb : neighbor N e = Some nb) by (unfold neighbor; by rewrite Hr).
  unfold poll_interface_demand. setoid_rewrite HA. cbn [mbind outcome_bind]. setoid_rewrite Hnb. destruct (is_principal nb) eqn:Ep.
  - assert (Hsame : forall m : RuntimeNetMutation InterfaceDemand, (forall route, route_ok N e route -> exists route', Ok (E:=Empty_set) (N, route_clear route, m) = Ok (N, route', m) /\ route_ok N e route')).
    { intros m route HO. eexists. split; [done|by apply route_clear_ok]. }
    pose proof (proj1 (is_principal_spec nb) Ep) as Hpr.
    destruct (node_at N (node nb)) as [[| | | | | | |cp rm]|] eqn:En; try (eexists N, _; split; [done|]; split; [done|]; split; [done|]; split; [exists nb; rewrite ?Ep, ?En; done|apply Hsame]).
    rewrite Hpr in Hnb. destruct (pairless_owner N e (node nb) G Hnb eq_refl) as [Hk ->]. cbn [mbind outcome_bind].
    destruct (decide (is_Some (cursor_obligations N !! node nb))) as [Hob|Hob]; cbn [mbind outcome_bind].
    + destruct (pairless_owner N e (node nb) G Hnb eq_refl) as [_ Hown]. rewrite decide_True in Hown by done.
      eexists N, _. split; [done|]. split; [done|]. split; [done|]. split; [exists nb; rewrite Ep, En, decide_True by done; done|].
      intros route HO. unfold cursor_claim_is_stable. rewrite Hown. cbn [mbind outcome_bind]. fold (stable_obligation N (node nb)).
      eexists. split; [done|by apply route_clear_ok].
    + assert (Hnone : cursor_obligations N !! node nb = None) by (by apply eq_None_not_Some).
      unfold ensure_pairless_cursor_obligation. rewrite En. cbn [rust_assert mbind outcome_bind]. rewrite (bool_decide_true _ Hk), Hnone. cbn [rust_assert mbind outcome_bind].
      pose proof (poll_cursor N e (node nb) cp rm W Hnb eq_refl En Hnone) as W'. set (N' := with_obligations N _) in *.
      exists N', (Changed (DCursor (node nb))). split; [done|]. split; [done|]. split; [done|]. split; [exists nb; rewrite Ep, En, decide_False by done; done|].
      intros route HO. unfold cursor_claim_is_stable. destruct (pairless_owner N' e (node nb) (nw_graph _ W') Hnb eq_refl) as [_ ->].
      rewrite decide_True by (cbn; rewrite lookup_insert_eq; eauto). cbn [mbind outcome_bind]. unfold N'. cbn. rewrite lookup_insert_eq.
      eexists. split; [done|by apply route_clear_ok].
  - destruct (walk_route_ok N e nb G Hw Hnb Ep) as (found & HD & Hwalk). eexists N, _. split; [done|]. split; [done|]. split; [done|]. split; cycle 1.
    + intros route HO. destruct (Hwalk route HO) as (route' & -> & HO'). cbn [mbind outcome_bind]. by exists route'.
    + exists nb. rewrite Ep. split; [done|]. split; [done|]. destruct found as [key|]; [|intros key Hd; by apply HD in Hd].
      pose proof (proj1 (HD key) eq_refl) as Hd. pose proof (demanded_active N _ key W Hd) as Hact. unfold blocked_stable.
      destruct (active N !! key) as [[| | |cursor [|]|]|] eqn:Ea; try (split; [done|]; split; [done|]; by rewrite Ea).
      exists key. by rewrite Ea.
Qed.

End polls.

(** ** Resolving cursor dependencies *)
Section resolving.
Context {S : NetSpecialization} {P : PayloadDuplicator S}.
Implicit Types (N : RuntimeNet) (cursor : nat).
Context (same : RuntimeSource -> RuntimeSource -> bool) (dup : RuntimeSource -> RuntimeSource).

(** The dependency a cursor is blocked on. *)
Definition blocked_on N cursor : option CursorDependency :=
  match rt_active_pair_key N cursor with
  | Some key => match active N !! key with
                | Some (ApBlockedCursor blocked (BlDependency d)) => if decide (blocked = cursor) then Some d else None
                | _ => None
                end
  | None => match cursor_obligations N !! cursor with Some (MkObligation _ (PcBlocked d)) => Some d | _ => None end
  end.

Definition owned N cursor : Prop := is_Some (rt_active_pair_key N cursor) \/ is_Some (cursor_obligations N !! cursor).

Lemma owner_ok N cursor : net_wf N -> cursor_claim_owner N cursor =
  Ok (match rt_active_pair_key N cursor with
      | Some key => Some (OwnActivePair key)
      | None => if decide (is_Some (cursor_obligations N !! cursor)) then Some OwnObligation else None
      end).
Proof.
  intros W. unfold cursor_claim_owner. destruct (cursor_obligations N !! cursor) as [o|] eqn:Eo.
  - destruct (go_obligations _ (nw_graph _ W) _ _ Eo) as (H1 & _ & Hk). rewrite Hk. cbn. rewrite bool_decide_true by done. cbn.
    by rewrite decide_True by eauto.
  - cbn. destruct (rt_active_pair_key N cursor); cbn; [done|]. by rewrite decide_False by (by intros [? ?]).
Qed.

Lemma pair_key_active N cursor key : net_wf N -> rt_active_pair_key N cursor = Some key -> is_Some (active N !! key).
Proof.
  intros W Hk. unfold rt_active_pair_key in Hk. destruct (neighbor N (principal cursor)) as [q|] eqn:E; [|done]. cbn in Hk.
  destruct (is_principal q) eqn:Ep; [|done]. injection Hk as <-. apply (demanded_active N cursor); [done|]. by exists 0, cursor, q.
Qed.

(** Resolving takes a cursor out of exactly the dependency it waits for. *)
Lemma resolve_ok N cursor expected disposition : net_wf N ->
  exists N' res, resolve_cursor_dependency same N cursor expected disposition = Ok (N', res) /\
    net_wf N' /\ rt_nodes N' = rt_nodes N /\ next_node_id N' = next_node_id N /\
    match res with
    | Gone => N' = N /\ ~ owned N cursor
    | Disturbed => N' = N /\ owned N cursor /\ forall d, blocked_on N cursor = Some d -> same_dependency same d expected = false
    | Resolved => exists d, blocked_on N cursor = Some d /\ same_dependency same d expected = true /\ blocked_on N' cursor = None /\
        inspect_cursor_step dup N' cursor = Ok (match disposition with Progressed => CiClaimable (rt_active_pair_key N cursor) | Stable => CiStable end)
    end.
Proof.
  intros W. unfold resolve_cursor_dependency, blocked_on, owned. rewrite (owner_ok N cursor W). cbn [mbind outcome_bind].
  destruct (rt_active_pair_key N cursor) as [key|] eqn:Ek.
  - pose proof (pair_key_active N cursor key W Ek) as Hact.
    assert (Hno : exists N' res, Ok (E:=Empty_set) (N, Disturbed) = Ok (N', res) /\ net_wf N' /\ rt_nodes N' = rt_nodes N /\ next_node_id N' = next_node_id N /\
      N' = N /\ res = Disturbed) by (by eexists _, _).
    destruct (active N !! key) as [[| | |blocked [d|]|]|] eqn:Ea; cbn [negb];
      try (eexists N, Disturbed; do 4 (split; [done|]); split; [done|]; split; [left; eauto|done]).
    case_bool_decide as Hb; [|rewrite decide_False by done; eexists N, Disturbed; do 4 (split; [done|]); split; [done|]; split; [left; eauto|done]].
    rewrite decide_True by done. cbn [andb]. destruct (same_dependency same d expected) eqn:Es; cbn [negb].
    2: { eexists N, Disturbed. do 4 (split; [done|]). split; [done|]. split; [left; eauto|]. by intros d' [= <-]. }
    set (st := match disposition with Progressed => ApReady | Stable => ApBlockedCursor cursor BlStable end).
    assert (W' : net_wf (with_active N (<[key := st]> (active N)))) by (apply net_wf_state; [done|by rewrite Ea]).
    cbn [mbind outcome_bind]. eexists _, Resolved. split; [done|]. split; [done|]. split; [done|]. split; [done|]. exists d. split; [done|]. split; [done|].
    set (N' := with_active N _) in *. change (rt_active_pair_key N' cursor) with (rt_active_pair_key N cursor). rewrite Ek. cbn. rewrite lookup_insert_eq.
    split; [by destruct disposition|]. unfold inspect_cursor_step. rewrite (owner_ok N' cursor W').
    change (rt_active_pair_key N' cursor) with (rt_active_pair_key N cursor). rewrite Ek. cbn. rewrite lookup_insert_eq. destruct disposition; [done|]. cbn.
    by rewrite bool_decide_true.
  - destruct (cursor_obligations N !! cursor) as [[oc st]|] eqn:Eo.
    2: { rewrite decide_False by (by intros [? ?]). eexists N, Gone. do 4 (split; [done|]). split; [done|]. by intros [[? ?]|[? ?]]. }
    rewrite decide_True by eauto.
    destruct st as [| |d|]; cbn [negb]; try (eexists N, Disturbed; do 4 (split; [done|]); split; [done|]; split; [right; eauto|done]).
    destruct (same_dependency same d expected) eqn:Es; cbn [negb].
    2: { eexists N, Disturbed. do 4 (split; [done|]). split; [done|]. split; [right; eauto|]. by intros d' [= <-]. }
    cbn [expect mbind outcome_bind ob_cursor]. destruct (go_obligations _ (nw_graph _ W) _ _ Eo) as (Hoc & _). cbn in Hoc. subst oc.
    set (st := match disposition with Progressed => PcReady | Stable => PcStable end).
    pose proof (net_wf_obligation N cursor _ st W Eo) as W'. eexists _, Resolved. split; [done|]. split; [done|]. split; [done|]. split; [done|].
    exists d. split; [done|]. split; [done|]. set (N' := with_obligations N _) in *. change (rt_active_pair_key N' cursor) with (rt_active_pair_key N cursor).
    rewrite Ek. cbn. rewrite lookup_insert_eq. split; [by destruct disposition|]. unfold inspect_cursor_step. rewrite (owner_ok N' cursor W').
    change (rt_active_pair_key N' cursor) with (rt_active_pair_key N cursor). rewrite Ek.
    assert (Hl : cursor_obligations N' !! cursor = Some (MkObligation cursor st)) by apply lookup_insert_eq.
    rewrite decide_True by (by rewrite Hl). cbn [mbind outcome_bind]. rewrite Hl. by destruct disposition.
Qed.

End resolving.

(** ** Properties *)
Section properties.
Context {S : NetSpecialization} {P : PayloadDuplicator S}.
Implicit Types (N : RuntimeNet) (e : Port).

Record interface_port N e : Prop := { ip_index : index e = 1; ip_node : node_at N (node e) = Some RInterface }.

(** An evaluation that polls [e] while the net changes: the net and the route
    it holds, from [N0] with no route. *)
Inductive polled N0 e : RuntimeNet -> InterfaceRoute -> Prop :=
  | polled_start : polled N0 e N0 None
  | polled_change N N' route : polled N0 e N route -> net_change N N' -> polled N0 e N' route
  | polled_poll N N' route route' m : polled N0 e N route -> walk_room N ->
      poll_interface_demand N e route = Ok (N', route', m) -> polled N0 e N' route'.

Lemma interface_port_evolves N N' e : evolves N N' -> interface_port N e -> interface_port N' e.
Proof. intros EV [H1 H2]. split; [done|by apply (ev_interface _ _ EV)]. Qed.

Lemma polled_ok N0 e N route : net_wf N0 -> interface_port N0 e -> polled N0 e N route -> net_wf N /\ interface_port N e /\ route_ok N e route.
Proof.
  intros W0 I0. induction 1 as [|N N' route _ (W & IP & HO) HC|N N' route route' m _ (W & IP & HO) Hw HP]; [done|..].
  - destruct (change_evolves N N' W HC) as [W' EV]. split; [done|]. split; [by eapply interface_port_evolves|].
    exact (route_ok_evolves N N' e route W EV (ip_node _ _ IP) HO).
  - destruct (poll_ok N e W Hw (ip_index _ _ IP) (ip_node _ _ IP)) as (N1 & m1 & W1 & Hn & Hx & _ & Hp).
    destruct (Hp route HO) as (r1 & H1 & HO1). rewrite HP in H1. injection H1 as -> -> ->.
    pose proof (evolves_refl N N1 Hn Hx) as EV. split; [done|]. split; [by eapply interface_port_evolves|].
    exact (route_ok_evolves N N1 e r1 W EV (ip_node _ _ IP) HO1).
Qed.


(** C13. What a poll says of a well-formed net: the data, the function or the
    normal form that faces the interface; the cursor there, which is obligated
    when nothing owned it; or the active pair at which the walk along principal
    ports ends, and no pair exactly when that walk has no end. The net stays
    well formed and only obligations change. *)
Theorem poll_interface_demand_correct N e :
  net_wf N -> walk_room N -> interface_port N e ->
  exists N' m fresh, poll_interface_demand N e None = Ok (N', fresh, m) /\ net_wf N' /\ rt_nodes N' = rt_nodes N /\ poll_spec N e N' m.
Proof.
  intros W Hw IP. destruct (poll_ok N e W Hw (ip_index _ _ IP) (ip_node _ _ IP)) as (N' & m & W' & Hn & _ & HS & Hp).
  destruct (Hp None I) as (fresh & H & _). by exists N', m, fresh.
Qed.

(** Resolving a cursor's dependency acts on exactly the dependency the
    cursor waits for: a cursor nothing owns is reported gone, any other
    dependency disturbed, both without a change; a matching one is cleared, and
    the cursor can then be claimed again or is stable, as asked. *)
Theorem resolve_cursor_dependency_correct (same : RuntimeSource -> RuntimeSource -> bool) (dup : RuntimeSource -> RuntimeSource)
    N cursor expected disposition :
  net_wf N ->
  exists N' res, resolve_cursor_dependency same N cursor expected disposition = Ok (N', res) /\
    net_wf N' /\ rt_nodes N' = rt_nodes N /\ next_node_id N' = next_node_id N /\
    match res with
    | Gone => N' = N /\ ~ owned N cursor
    | Disturbed => N' = N /\ owned N cursor /\ forall d, blocked_on N cursor = Some d -> same_dependency same d expected = false
    | Resolved => exists d, blocked_on N cursor = Some d /\ same_dependency same d expected = true /\ blocked_on N' cursor = None /\
        inspect_cursor_step dup N' cursor = Ok (match disposition with Progressed => CiClaimable (rt_active_pair_key N cursor) | Stable => CiStable end)
    end.
Proof. apply resolve_ok. Qed.

End properties.
