(* ===== verification/RouteSamples.v ===== *)
(** * Polling a concrete net

    Seven operators in a chain over a datum: the interface's route is recorded,
    the pair at its end is reduced and completed, and the next poll resumes the
    route. *)
From stdpp Require Import base option list numbers gmap fin_maps tactics.
From Stdlib Require Import ZArith Lia.
From S2P Require Import Prelude NetModel NetBuilder RuntimeGraph Boundary Rewrite Instantiate Calls Evolution WalkCycle WholeCopy Copies.
From S2P Require Import CopyInvariant CopySteps Changes InterfaceRoute RouteFacts CopySamples.

Module RouteSample.

Definition chain_nodes : list (Node Z Z) := DataNode 7%Z :: (OperatorNode <$> [1; 2; 3; 4; 5; 6; 7]%Z).
Definition chain_wires : list Wire :=
  MkWire (MkPort 0 0) (MkPort 1 0) :: ((fun i => MkWire (MkPort i 1) (MkPort (i + 1) 0)) <$> seq 1 6).

Definition chain_builder : NetBuilder Z Z :=
  MkBuilder (Runtime <$> chain_nodes) chain_wires
    (list_to_set (chain_wires ≫= fun w => [left w; right w])) 0.

Definition chain_net : InteractionNet Z Z := MkNet chain_nodes chain_wires (MkPort 7 1).

Definition chain : RuntimeNet := CallSample.instance chain_net.
Definition interface : Port := MkPort 8 1.

Lemma chain_wf : net_wf chain /\ cursor_obligations chain = ∅.
Proof.
  apply (Sample.built_wf chain_builder (MkPort 7 1) chain_net); [vm_compute; reflexivity..| |vm_compute; reflexivity].
  intros site H. unfold chain_net, chain_nodes in H. cbn [net_nodes fmap list_fmap] in H. rewrite !elem_of_cons in H. do 8 (destruct H as [?|H]; [done|]). by apply not_elem_of_nil in H.
Qed.

Lemma chain_interface : interface_port chain interface.
Proof. split; vm_compute; reflexivity. Qed.

(** The pair of operator 1 and the datum, claimed, and answered with data. *)
Definition called : RuntimeNet := set_state chain 0 ApClaimed.
Definition answered_net : RuntimeNet :=
  match complete_operator_call called (MkOperatorCall 0 1 0) (YData (9%Z : @Data Sample.spec)) with Ok (N, _) => N | _ => called end.

(** The route after the first poll: operators 3 and 2 at depths 4 and 5. *)
Definition route : RouteRecord := MkRecord ([Some 3; Some 2] ++ replicate 6 None) 0 2 5 [].

Lemma chain_reducible : reducible chain 0.
Proof. split; [vm_compute; reflexivity|intros l m _; apply quiet_unobligated, chain_wf|apply Z.leb_le; vm_compute; reflexivity]. Qed.

Lemma called_claimed : claimed called 0 1 0 (ROperator 1%Z) (RData 7%Z).
Proof.
  split; try (vm_compute; reflexivity).
  - apply net_wf_state; [apply chain_wf|]. exists ApReady. vm_compute. reflexivity.
  - apply Z.leb_le. vm_compute. reflexivity.
  - apply quiet_unobligated, chain_wf.
  - exists Provides. vm_compute. reflexivity.
Qed.

Lemma chain_polled : polled chain interface answered_net (Some route).
Proof.
  apply (polled_change _ _ called); [apply (polled_change _ _ chain); [apply (polled_poll _ _ chain chain None _ (Unchanged (DActivePair 0)))|]|].
  - apply polled_start.
  - apply Z.leb_le. vm_compute. reflexivity.
  - vm_compute. reflexivity.
  - apply (ch_reduce _ 0 _ (Some (MkReduction 0 (KOperatorCall 1 0)))); [exact chain_reducible|vm_compute; reflexivity].
  - apply (ch_complete _ (MkOperatorCall 0 1 0) _ _ (YData (9%Z : @Data Sample.spec)) _ 9 called_claimed). vm_compute. reflexivity.
Qed.

End RouteSample.


Lemma poll_interface_demand_witness :
  exists N' m fresh, poll_interface_demand RouteSample.chain RouteSample.interface None = Ok (N', fresh, m) /\ net_wf N' /\
    rt_nodes N' = rt_nodes RouteSample.chain /\ poll_spec RouteSample.chain RouteSample.interface N' m.
Proof.
  apply (poll_interface_demand_correct RouteSample.chain RouteSample.interface).
  - exact (proj1 RouteSample.chain_wf).
  - apply Z.leb_le. vm_compute. reflexivity.
  - exact RouteSample.chain_interface.
Defined.

(** Cursor 4 of a started copy, waiting for another cursor. *)
Definition waiting_net : RuntimeNet := set_state CopySample.begun 1 (ApBlockedCursor 4 (BlDependency (LocalCursor 9))).

Lemma resolve_cursor_dependency_witness :
  net_wf waiting_net /\ blocked_on waiting_net 4 = Some (LocalCursor 9) /\
  exists N' res, resolve_cursor_dependency Z.eqb waiting_net 4 (LocalCursor 9) Progressed = Ok (N', res) /\
    net_wf N' /\ rt_nodes N' = rt_nodes waiting_net /\ next_node_id N' = next_node_id waiting_net /\
    match res with
    | Gone => N' = waiting_net /\ ~ owned waiting_net 4
    | Disturbed => N' = waiting_net /\ owned waiting_net 4 /\
        forall d, blocked_on waiting_net 4 = Some d -> same_dependency Z.eqb d (LocalCursor 9) = false
    | Resolved => exists d, blocked_on waiting_net 4 = Some d /\ same_dependency Z.eqb d (LocalCursor 9) = true /\ blocked_on N' 4 = None /\
        inspect_cursor_step id N' 4 = Ok (CiClaimable (rt_active_pair_key waiting_net 4))
    end.
Proof.
  assert (W : net_wf waiting_net).
  { destruct (CopySample.start_spec CopySample.source CopySample.source_wf) as (c & _ & ST & _); [vm_compute; reflexivity|].
    apply net_wf_state; [apply ST|]. exists ApReady. vm_compute. reflexivity. }
  split; [exact W|]. split; [vm_compute; reflexivity|].
  exact (resolve_cursor_dependency_correct (S:=Sample.spec) Z.eqb id waiting_net 4 (LocalCursor 9) Progressed W).
Defined.
