(* ===== verification/GlamList.v ===== *)
(** * Persistent lists ([src/list.rs])

    A list is a tree of concatenations over strict leaves (byte slices, value
    slices, finger trees of such chunks) and deferred holes. The operations
    take a list apart from either end without forcing a hole, split and rejoin
    strict leaves, map one node, and compare lists whatever their shapes.

    Byte buffers (crate [bytes]) and finger trees (crate [fingertrees]) are
    parameters: a class of operations and a class with what their
    documentation promises. [Arc]s are shared immutable nodes, so a list is a
    value; where the code compares pointers, the answer is an argument. *)
From stdpp Require Import base option list numbers tactics.
From Stdlib Require Import ZArith Lia.
From S2P Require Import Prelude.

(** ** The libraries *)
Class BytesOps := {
  Bytes : Type;
  bytes_list : Bytes -> list Z;
  bytes_from : list Z -> Bytes;
  bytes_cut : Bytes -> nat -> nat -> Bytes;
}.

Class BytesLaws `{BytesOps} : Prop := {
  bytes_list_from : forall l, bytes_list (bytes_from l) = l;
  bytes_list_cut : forall b s e, s <= e -> e <= length (bytes_list b) ->
    bytes_list (bytes_cut b s e) = take (e - s) (drop s (bytes_list b));
}.

Class FingerOps := {
  FingerTree : forall A, (A -> nat) -> Type;
  ft_iter : forall {A m}, FingerTree A m -> list A;
  ft_new : forall {A m}, FingerTree A m;
  ft_push_left : forall {A m}, FingerTree A m -> A -> FingerTree A m;
  ft_push_right : forall {A m}, FingerTree A m -> A -> FingerTree A m;
  ft_concat : forall {A m}, FingerTree A m -> FingerTree A m -> FingerTree A m;
  ft_view_left : forall {A m}, FingerTree A m -> option (A * FingerTree A m);
  ft_view_right : forall {A m}, FingerTree A m -> option (FingerTree A m * A);
  ft_split : forall {A m}, FingerTree A m -> (nat -> bool) -> FingerTree A m * FingerTree A m;
  ft_measure : forall {A m}, FingerTree A m -> nat;
  ft_is_empty : forall {A m}, FingerTree A m -> bool;
}.

(** The sum of the elements' measures. *)
Definition total {A} (m : A -> nat) (l : list A) : nat := sum_list (m <$> l).

Class FingerLaws `{FingerOps} : Prop := {
  ft_iter_new : forall A (m : A -> nat), ft_iter (m:=m) ft_new = [];
  ft_iter_push_left : forall A (m : A -> nat) t a, ft_iter (m:=m) (ft_push_left t a) = a :: ft_iter t;
  ft_iter_push_right : forall A (m : A -> nat) t a, ft_iter (m:=m) (ft_push_right t a) = ft_iter t ++ [a];
  ft_iter_concat : forall A (m : A -> nat) t u, ft_iter (m:=m) (ft_concat t u) = ft_iter t ++ ft_iter u;
  ft_iter_view_left : forall A (m : A -> nat) t, match ft_view_left (m:=m) t with
    | None => ft_iter t = []
    | Some (a, u) => ft_iter t = a :: ft_iter u
    end;
  ft_iter_view_right : forall A (m : A -> nat) t, match ft_view_right (m:=m) t with
    | None => ft_iter t = []
    | Some (u, a) => ft_iter t = ft_iter u ++ [a]
    end;
  (** The measure is a [usize]: the sum, as long as it fits. *)
  ft_measure_total : forall A (m : A -> nat) t, (Z.of_nat (total m (ft_iter t)) <= usize_max)%Z ->
    ft_measure (m:=m) t = total m (ft_iter t);
  ft_is_empty_iter : forall A (m : A -> nat) t, ft_is_empty (m:=m) t = true <-> ft_iter t = [];
  (** Split before the first element at which a monotone predicate on the
      accumulated measure turns true. *)
  ft_split_iter : forall A (m : A -> nat) t p, (Z.of_nat (total m (ft_iter t)) <= usize_max)%Z ->
    (forall i j, i <= j -> p i = true -> p j = true) -> p 0 = false ->
    ft_iter (fst (ft_split (m:=m) t p)) ++ ft_iter (snd (ft_split t p)) = ft_iter t /\
    p (total m (ft_iter (fst (ft_split t p)))) = false /\
    forall a rest, ft_iter (snd (ft_split t p)) = a :: rest -> p (total m (ft_iter (fst (ft_split t p))) + m a) = true;
}.

(** ** Data *)
Inductive ListItem (V : Type) :=
  | IByte (b : Z)
  | IValue (v : V).
Arguments IByte {V} b.
Arguments IValue {V} v.

Record SharedSlice (T : Type) := MkSlice { sl_data : list T; sl_start : nat; sl_len : nat }.
Arguments MkSlice {T} _ _ _.
Arguments sl_data {T} _.
Arguments sl_start {T} _.
Arguments sl_len {T} _.

Definition ROPE_RUN_ITEMS : nat := 32.

Section data.
Context `{BytesOps} `{FingerOps}.

Inductive ListChunk (V : Type) :=
  | ChBytes (b : Bytes)
  | ChValues (s : SharedSlice V).
Arguments ChBytes {V} b.
Arguments ChValues {V} s.

(** [SharedSlice] *)
Definition slice_from_vec {T} (values : list T) : SharedSlice T := MkSlice values 0 (length values).

(** [&self.data[start..start + len]]: out of range panics. *)
Definition as_slice {T} (s : SharedSlice T) : M (list T) :=
  _ ← rust_assert (bool_decide (sl_start s + sl_len s <= length (sl_data s)));
  Ok (take (sl_len s) (drop (sl_start s) (sl_data s))).

Definition slice_slice {T} (s : SharedSlice T) (start stop : nat) : M (SharedSlice T) :=
  _ ← rust_assert (bool_decide (start <= stop));
  _ ← rust_assert (bool_decide (stop <= sl_len s));
  Ok (MkSlice (sl_data s) (sl_start s + start) (stop - start)).

(** [Bytes::slice(start..end)]: out of range panics. *)
Definition bytes_slice (b : Bytes) (start stop : nat) : M Bytes :=
  _ ← rust_assert (bool_decide (start <= stop));
  _ ← rust_assert (bool_decide (stop <= length (bytes_list b)));
  Ok (bytes_cut b start stop).

Definition bytes_len (b : Bytes) : nat := length (bytes_list b).

(** [ListChunk] *)
Definition chunk_len {V} (c : ListChunk V) : nat :=
  match c with ChBytes b => bytes_len b | ChValues s => sl_len s end.

Definition chunk_slice {V} (c : ListChunk V) (start stop : nat) : M (option (ListChunk V)) :=
  _ ← rust_assert (bool_decide (start <= stop));
  _ ← rust_assert (bool_decide (stop <= chunk_len c));
  if bool_decide (start = stop) then Ok None
  else match c with
       | ChBytes b => b ← bytes_slice b start stop; Ok (Some (ChBytes b))
       | ChValues s => s ← slice_slice s start stop; Ok (Some (ChValues s))
       end.

Definition item_at_by {V U} (c : ListChunk V) (index : nat) (duplicate_value : V -> U) : M (option (ListItem U)) :=
  match c with
  | ChBytes b => Ok (IByte <$> bytes_list b !! index)
  | ChValues s => v ← as_slice s; Ok ((fun v => IValue (duplicate_value v)) <$> v !! index)
  end.

Definition FingerList (V : Type) : Type := FingerTree (ListChunk V) chunk_len.

Inductive GList (V T : Type) :=
  | LEmpty
  | LBytes (b : Bytes)
  | LValues (s : SharedSlice V)
  | LConcat (l r : GList V T)
  | LFinger (f : FingerList V)
  | LThunk (t : T).
Arguments LEmpty {V T}.
Arguments LBytes {V T} b.
Arguments LValues {V T} s.
Arguments LConcat {V T} l r.
Arguments LFinger {V T} f.
Arguments LThunk {V T} t.

Inductive ListFrontStep (U D V T : Type) :=
  | FsEmpty
  | FsItem (item : ListItem U) (tail : GList V T)
  | FsDeferred (deferred : D) (suffix : GList V T).
Inductive ListBackStep (U D V T : Type) :=
  | BsEmpty
  | BsItem (init : GList V T) (item : ListItem U)
  | BsDeferred (prefix : GList V T) (deferred : D).
Inductive ListFrontLeafStep (D V T : Type) :=
  | FlEmpty
  | FlLeaf (leaf tail : GList V T)
  | FlDeferred (deferred : D) (suffix : GList V T).
Inductive ListBackLeafStep (D V T : Type) :=
  | BlEmpty
  | BlLeaf (init leaf : GList V T)
  | BlDeferred (prefix : GList V T) (deferred : D).

Inductive LogicalListPart (V T : Type) :=
  | PtBytes (b : list Z)
  | PtValues (v : list V)
  | PtThunk (t : T).

Inductive LogicalListItemRef (V T : Type) :=
  | RfByte (b : Z)
  | RfValue (v : V)
  | RfThunk (t : T).

Record LogicalListVisitStats := MkStats {
  node_visits : nat; chunk_visits : nat; byte_segments : nat;
  shared_value_slices : nat; value_items : nat; thunk_items : nat;
}.

End data.

Arguments ChBytes {_ V} b.
Arguments ChValues {_ V} s.
Arguments LEmpty {_ _ V T}.
Arguments LBytes {_ _ V T} b.
Arguments LValues {_ _ V T} s.
Arguments LConcat {_ _ V T} l r.
Arguments LFinger {_ _ V T} f.
Arguments LThunk {_ _ V T} t.
Arguments FsEmpty {_ _ U D V T}.
Arguments FsItem {_ _ U D V T} item tail.
Arguments FsDeferred {_ _ U D V T} deferred suffix.
Arguments BsEmpty {_ _ U D V T}.
Arguments BsItem {_ _ U D V T} init item.
Arguments BsDeferred {_ _ U D V T} prefix deferred.
Arguments FlEmpty {_ _ D V T}.
Arguments FlLeaf {_ _ D V T} leaf tail.
Arguments FlDeferred {_ _ D V T} deferred suffix.
Arguments BlEmpty {_ _ D V T}.
Arguments BlLeaf {_ _ D V T} init leaf.
Arguments BlDeferred {_ _ D V T} prefix deferred.
Arguments PtBytes {V T} b.
Arguments PtValues {V T} v.
Arguments PtThunk {V T} t.
Arguments RfByte {V T} b.
Arguments RfValue {V T} v.
Arguments RfThunk {V T} t.

Section operations.
Context `{BytesOps} `{FingerOps}.

(** ** Building *)
Section building.
Context {V T : Type}.

Definition is_empty (l : GList V T) : bool := match l with LEmpty => true | _ => false end.

Definition from_bytes (b : Bytes) : GList V T := if bool_decide (bytes_len b = 0) then LEmpty else LBytes b.

Definition from_values (values : list V) : GList V T :=
  match values with [] => LEmpty | _ => LValues (slice_from_vec values) end.

Definition from_finger (f : FingerList V) : GList V T := if ft_is_empty f then LEmpty else LFinger f.

Definition from_values_balanced (values : list V) : GList V T :=
  match values with [] => LEmpty | _ => from_finger (ft_push_right ft_new (ChValues (slice_from_vec values))) end.

Definition from_value_slice (s : SharedSlice V) : GList V T := if bool_decide (sl_len s = 0) then LEmpty else LValues s.

Definition from_thunk (t : T) : GList V T := LThunk t.

Definition concat (lhs rhs : GList V T) : GList V T :=
  if is_empty lhs then rhs else if is_empty rhs then lhs else LConcat lhs rhs.

Definition value_slice (l : GList V T) : M (option (list V)) :=
  match l with
  | LEmpty => Ok (Some [])
  | LValues s => v ← as_slice s; Ok (Some v)
  | _ => Ok None
  end.

(** [usize] additions, wrapping in a release build. *)
Fixpoint known_len (l : GList V T) : option Z :=
  match l with
  | LEmpty => Some 0%Z
  | LBytes b => Some (Z.of_nat (bytes_len b))
  | LValues s => Some (Z.of_nat (sl_len s))
  | LConcat lhs rhs => a ← known_len lhs; b ← known_len rhs; Some (wrap64 (a + b))
  | LFinger f => Some (Z.of_nat (ft_measure f))
  | LThunk _ => None
  end.

(** One round of [concat_balanced]: neighbours are joined in pairs. *)
Fixpoint pair_up (lists : list (GList V T)) : list (GList V T) :=
  match lists with
  | lhs :: rhs :: rest => concat lhs rhs :: pair_up rest
  | [lhs] => [lhs]
  | [] => []
  end.

(** [while lists.len() > 1]; the fuel is the length. *)
Fixpoint concat_rounds (fuel : nat) (lists : list (GList V T)) : M (GList V T) :=
  match lists with
  | [] => Panic
  | [l] => Ok l
  | _ => match fuel with
         | 0 => OutOfFuel
         | S fuel => concat_rounds fuel (pair_up lists)
         end
  end.

Definition concat_balanced (lists : list (GList V T)) : M (GList V T) :=
  match lists with [] => Ok LEmpty | _ => concat_rounds (length lists) lists end.

(** ** Taking apart *)
Definition join_logical_suffix (prefix : GList V T) (pending : list (GList V T)) : GList V T :=
  concat prefix (foldl (fun suffix sibling => concat sibling suffix) LEmpty pending).

Definition join_logical_prefix (suffix : GList V T) (pending : list (GList V T)) : GList V T :=
  concat (foldl (fun prefix sibling => concat prefix sibling) LEmpty pending) suffix.

(** The nodes of a list, which bound a worklist's turns. *)
Fixpoint nodes (l : GList V T) : nat :=
  match l with LConcat lhs rhs => 1 + nodes lhs + nodes rhs | _ => 1 end.

(** The worklist is a [Vec] used as a stack, here with its top first. *)
Fixpoint front_leaf_loop {D} (fuel : nat) (duplicate_deferred : T -> D) (worklist : list (GList V T))
    : M (ListFrontLeafStep D V T) :=
  match worklist with
  | [] => Ok FlEmpty
  | l :: worklist =>
      match fuel with
      | 0 => OutOfFuel
      | S fuel =>
          match l with
          | LEmpty => front_leaf_loop fuel duplicate_deferred worklist
          | LBytes _ | LValues _ | LFinger _ => Ok (FlLeaf l (join_logical_suffix LEmpty (rev worklist)))
          | LConcat lhs rhs => front_leaf_loop fuel duplicate_deferred (lhs :: rhs :: worklist)
          | LThunk t => Ok (FlDeferred (duplicate_deferred t) (join_logical_suffix LEmpty (rev worklist)))
          end
      end
  end.

Definition pop_front_leaf_step {D} (l : GList V T) (duplicate_deferred : T -> D) : M (ListFrontLeafStep D V T) :=
  front_leaf_loop (nodes l) duplicate_deferred [l].

Fixpoint back_leaf_loop {D} (fuel : nat) (duplicate_deferred : T -> D) (worklist : list (GList V T))
    : M (ListBackLeafStep D V T) :=
  match worklist with
  | [] => Ok BlEmpty
  | l :: worklist =>
      match fuel with
      | 0 => OutOfFuel
      | S fuel =>
          match l with
          | LEmpty => back_leaf_loop fuel duplicate_deferred worklist
          | LBytes _ | LValues _ | LFinger _ => Ok (BlLeaf (join_logical_prefix LEmpty (rev worklist)) l)
          | LConcat lhs rhs => back_leaf_loop fuel duplicate_deferred (rhs :: lhs :: worklist)
          | LThunk t => Ok (BlDeferred (join_logical_prefix LEmpty (rev worklist)) (duplicate_deferred t))
          end
      end
  end.

Definition pop_back_leaf_step {D} (l : GList V T) (duplicate_deferred : T -> D) : M (ListBackLeafStep D V T) :=
  back_leaf_loop (nodes l) duplicate_deferred [l].

Definition pop_leaf_front_by {U} (l : GList V T) (duplicate_value : V -> U) : M (ListItem U * GList V T) :=
  match l with
  | LBytes b =>
      x ← vec_get (bytes_list b) 0;
      rest ← bytes_slice b 1 (bytes_len b);
      Ok (IByte x, from_bytes rest)
  | LValues s =>
      v ← as_slice s;
      x ← vec_get v 0;
      rest ← slice_slice s 1 (sl_len s);
      Ok (IValue (duplicate_value x), from_value_slice rest)
  | LFinger f =>
      '(chunk, rest) ← expect (ft_view_left f);
      found ← item_at_by chunk 0 duplicate_value;
      item ← expect found;
      chunk_tail ← chunk_slice chunk 1 (chunk_len chunk);
      Ok (item, from_finger (match chunk_tail with Some c => ft_push_left rest c | None => rest end))
  | LEmpty | LConcat _ _ | LThunk _ => Panic
  end.

Definition pop_leaf_back_by {U} (l : GList V T) (duplicate_value : V -> U) : M (GList V T * ListItem U) :=
  match l with
  | LBytes b =>
      let index := bytes_len b - 1 in
      rest ← bytes_slice b 0 index;
      x ← vec_get (bytes_list b) index;
      Ok (from_bytes rest, IByte x)
  | LValues s =>
      let index := sl_len s - 1 in
      rest ← slice_slice s 0 index;
      v ← as_slice s;
      x ← vec_get v index;
      Ok (from_value_slice rest, IValue (duplicate_value x))
  | LFinger f =>
      '(rest, chunk) ← expect (ft_view_right f);
      let index := chunk_len chunk - 1 in
      found ← item_at_by chunk index duplicate_value;
      item ← expect found;
      chunk_init ← chunk_slice chunk 0 index;
      Ok (from_finger (match chunk_init with Some c => ft_push_right rest c | None => rest end), item)
  | LEmpty | LConcat _ _ | LThunk _ => Panic
  end.

Definition pop_front_step_by {U D} (l : GList V T) (duplicate_value : V -> U) (duplicate_deferred : T -> D)
    : M (ListFrontStep U D V T) :=
  step ← pop_front_leaf_step l duplicate_deferred;
  match step with
  | FlEmpty => Ok FsEmpty
  | FlLeaf leaf tail =>
      '(item, rest) ← pop_leaf_front_by leaf duplicate_value;
      Ok (FsItem item (concat rest tail))
  | FlDeferred deferred suffix => Ok (FsDeferred deferred suffix)
  end.

Definition pop_back_step_by {U D} (l : GList V T) (duplicate_value : V -> U) (duplicate_deferred : T -> D)
    : M (ListBackStep U D V T) :=
  step ← pop_back_leaf_step l duplicate_deferred;
  match step with
  | BlEmpty => Ok BsEmpty
  | BlLeaf init leaf =>
      '(rest, item) ← pop_leaf_back_by leaf duplicate_value;
      Ok (BsItem (concat init rest) item)
  | BlDeferred prefix deferred => Ok (BsDeferred prefix deferred)
  end.

(** ** Cutting and joining strict leaves *)
Definition split_finger_at (f : FingerList V) (index : nat) : M (FingerList V * FingerList V) :=
  let len := ft_measure f in
  _ ← rust_assert (bool_decide (index <= len));
  if bool_decide (index = 0) then Ok (ft_new, f)
  else if bool_decide (index = len) then Ok (f, ft_new)
  else
    let '(lhs, rhs) := ft_split f (fun measure => bool_decide (index < measure)) in
    let left_len := ft_measure lhs in
    if bool_decide (left_len = index) then Ok (lhs, rhs)
    else
      '(chunk, tail) ← expect (ft_view_left rhs);
      let chunk_offset := index - left_len in
      chunk_left ← chunk_slice chunk 0 chunk_offset;
      let lhs := match chunk_left with Some c => ft_push_right lhs c | None => lhs end in
      chunk_right ← chunk_slice chunk chunk_offset (chunk_len chunk);
      Ok (lhs, match chunk_right with Some c => ft_push_left tail c | None => tail end).

Definition split_leaf_at (l : GList V T) (index : nat) : M (GList V T * GList V T) :=
  match l with
  | LEmpty => _ ← rust_assert (bool_decide (index = 0)); Ok (LEmpty, LEmpty)
  | LBytes b =>
      lhs ← bytes_slice b 0 index;
      rhs ← bytes_slice b index (bytes_len b);
      Ok (from_bytes lhs, from_bytes rhs)
  | LValues s =>
      lhs ← slice_slice s 0 index;
      rhs ← slice_slice s index (sl_len s);
      Ok (from_value_slice lhs, from_value_slice rhs)
  | LFinger f =>
      '(lhs, rhs) ← split_finger_at f index;
      Ok (from_finger lhs, from_finger rhs)
  | LConcat _ _ | LThunk _ => Panic
  end.

Definition leaf_item_at_by {U} (l : GList V T) (index : nat) (duplicate_value : V -> U) : M (ListItem U) :=
  match l with
  | LBytes b => x ← vec_get (bytes_list b) index; Ok (IByte x)
  | LValues s => v ← as_slice s; x ← vec_get v index; Ok (IValue (duplicate_value x))
  | LFinger f =>
      '(_, rhs) ← split_finger_at f index;
      '(chunk, _) ← expect (ft_view_left rhs);
      found ← item_at_by chunk 0 duplicate_value;
      expect found
  | LEmpty | LConcat _ _ | LThunk _ => Panic
  end.

Definition flush_byte_run (rope : FingerList V) (run : list Z) : FingerList V :=
  match run with [] => rope | _ => ft_push_right rope (ChBytes (bytes_from run)) end.

Definition flush_value_run (rope : FingerList V) (run : list V) : FingerList V :=
  match run with [] => rope | _ => ft_push_right rope (ChValues (slice_from_vec run)) end.

(** One piece of [join_strict_pieces]: the rope and the two runs. *)
Definition join_piece (duplicate_value : V -> V) (acc : FingerList V * list Z * list V) (piece : GList V T)
    : M (FingerList V * list Z * list V) :=
  let '(rope, byte_run, value_run) := acc in
  match piece with
  | LBytes b =>
      if bool_decide (bytes_len b < ROPE_RUN_ITEMS) then
        let rope := flush_value_run rope value_run in
        let byte_run := byte_run ++ bytes_list b in
        if bool_decide (ROPE_RUN_ITEMS <= length byte_run) then Ok (flush_byte_run rope byte_run, [], [])
        else Ok (rope, byte_run, [])
      else Ok (ft_push_right (flush_value_run (flush_byte_run rope byte_run) value_run) (ChBytes b), [], [])
  | LValues s =>
      if bool_decide (sl_len s < ROPE_RUN_ITEMS) then
        let rope := flush_byte_run rope byte_run in
        v ← as_slice s;
        let value_run := value_run ++ (duplicate_value <$> v) in
        if bool_decide (ROPE_RUN_ITEMS <= length value_run) then Ok (flush_value_run rope value_run, [], [])
        else Ok (rope, [], value_run)
      else Ok (ft_push_right (flush_value_run (flush_byte_run rope byte_run) value_run) (ChValues s), [], [])
  | LFinger f => Ok (ft_concat (flush_value_run (flush_byte_run rope byte_run) value_run) f, [], [])
  | LEmpty | LConcat _ _ | LThunk _ => Panic
  end.

Definition join_strict_pieces (pieces : list (GList V T)) (duplicate_value : V -> V) : M (GList V T) :=
  let pieces := base.filter (fun piece => is_empty piece = false) pieces in
  match pieces with
  | [] => Ok LEmpty
  | [piece] => Ok piece
  | _ =>
      '(rope, byte_run, value_run) ← foldM (join_piece duplicate_value) (ft_new, [], []) pieces;
      let rope := flush_value_run (flush_byte_run rope byte_run) value_run in
      Ok (match ft_view_left rope with
          | Some (ChBytes b, rest) => if ft_is_empty rest then from_bytes b else from_finger rope
          | Some (ChValues s, rest) => if ft_is_empty rest then from_value_slice s else from_finger rope
          | None => from_finger rope
          end)
  end.

(** ** Visiting *)
Definition chunk_part (c : ListChunk V) : M (LogicalListPart V T) :=
  match c with
  | ChBytes b => Ok (PtBytes (bytes_list b))
  | ChValues s => v ← as_slice s; Ok (PtValues v)
  end.

(** The parts one node hands to the visitor. *)
Definition node_parts (l : GList V T) : M (list (LogicalListPart V T)) :=
  match l with
  | LEmpty | LConcat _ _ => Ok []
  | LBytes b => Ok [PtBytes (bytes_list b)]
  | LValues s => v ← as_slice s; Ok [PtValues v]
  | LFinger f => mapM chunk_part (ft_iter f)
  | LThunk t => Ok [PtThunk t]
  end.

(** The loop of [logical_cursor_parts]. *)
Fixpoint parts_loop (fuel : nat) (worklist : list (GList V T)) : M (list (LogicalListPart V T)) :=
  match worklist with
  | [] => Ok []
  | l :: worklist =>
      match fuel with
      | 0 => OutOfFuel
      | S fuel =>
          parts ← node_parts l;
          rest ← parts_loop fuel (match l with LConcat lhs rhs => lhs :: rhs :: worklist | _ => worklist end);
          Ok (parts ++ rest)
      end
  end.

Definition logical_cursor_parts (l : GList V T) : M (list (LogicalListPart V T)) := parts_loop (nodes l) [l].

(** [visit_logical_parts]: what one node adds to the counters, and the visitor
    called on its parts in order; the visitor threads a state. *)
Definition count_chunk (stats : LogicalListVisitStats) (c : ListChunk V) : LogicalListVisitStats :=
  match stats, c with
  | MkStats n k b s v t, ChBytes _ => MkStats n k (b + 1) s v t
  | MkStats n k b s v t, ChValues values => MkStats n k b (s + 1) (v + sl_len values) t
  end.

Definition visit_chunk {X} (visit : X -> LogicalListPart V T -> X) (acc : LogicalListVisitStats * X) (c : ListChunk V)
    : M (LogicalListVisitStats * X) :=
  let '(MkStats n k b s v t, x) := acc in
  part ← chunk_part c;
  Ok (count_chunk (MkStats n (k + 1) b s v t) c, visit x part).

Definition visit_node {X} (visit : X -> LogicalListPart V T -> X) (acc : LogicalListVisitStats * X) (l : GList V T)
    : M (LogicalListVisitStats * X) :=
  let '(MkStats n k b s v t, x) := acc in
  let stats := MkStats (n + 1) k b s v t in
  match l with
  | LEmpty | LConcat _ _ => Ok (stats, x)
  | LBytes bytes => Ok (count_chunk stats (ChBytes bytes), visit x (PtBytes (bytes_list bytes)))
  | LValues values => slice ← as_slice values; Ok (count_chunk stats (ChValues values), visit x (PtValues slice))
  | LFinger f => foldM (visit_chunk visit) (stats, x) (ft_iter f)
  | LThunk thunk => Ok (MkStats (n + 1) k b s v (t + 1), visit x (PtThunk thunk))
  end.

Fixpoint visit_loop {X} (visit : X -> LogicalListPart V T -> X) (fuel : nat) (acc : LogicalListVisitStats * X)
    (worklist : list (GList V T)) : M (LogicalListVisitStats * X) :=
  match worklist with
  | [] => Ok acc
  | l :: worklist =>
      match fuel with
      | 0 => OutOfFuel
      | S fuel =>
          acc ← visit_node visit acc l;
          visit_loop visit fuel acc (match l with LConcat lhs rhs => lhs :: rhs :: worklist | _ => worklist end)
      end
  end.

Definition visit_logical_parts {X} (l : GList V T) (visit : X -> LogicalListPart V T -> X) (x : X)
    : M (LogicalListVisitStats * X) :=
  visit_loop visit (nodes l) (MkStats 0 0 0 0 0 0, x) [l].

(** The cursor over the items of the parts. *)
Record LogicalListItemCursor := MkCursor { cu_parts : list (LogicalListPart V T); part_index : nat; offset : nat }.

Definition cursor_new (parts : list (LogicalListPart V T)) : LogicalListItemCursor := MkCursor parts 0 0.

Definition current (c : LogicalListItemCursor) : option (LogicalListItemRef V T) :=
  part ← cu_parts c !! part_index c;
  match part with
  | PtBytes b => RfByte <$> b !! offset c
  | PtValues v => RfValue <$> v !! offset c
  | PtThunk t => if bool_decide (offset c = 0) then Some (RfThunk t) else None
  end.

Definition advance (c : LogicalListItemCursor) : M LogicalListItemCursor :=
  let offset := offset c + 1 in
  part ← vec_get (cu_parts c) (part_index c);
  let exhausted := match part with
                   | PtBytes b => bool_decide (offset = length b)
                   | PtValues v => bool_decide (offset = length v)
                   | PtThunk _ => bool_decide (offset = 1)
                   end in
  Ok (if exhausted then MkCursor (cu_parts c) (part_index c + 1) 0 else MkCursor (cu_parts c) (part_index c) offset).

End building.

Arguments LogicalListItemCursor : clear implicits.

(** [loop] of [same_logical_items_by]; the fuel bounds the items. *)
Fixpoint same_items_loop {V T} (same_item : LogicalListItemRef V T -> LogicalListItemRef V T -> bool) (fuel : nat)
    (lhs rhs : LogicalListItemCursor V T) : M bool :=
  match fuel with
  | 0 => OutOfFuel
  | S fuel =>
      match current lhs, current rhs with
      | None, None => Ok true
      | Some x, Some y =>
          if negb (same_item x y) then Ok false
          else
            lhs ← advance lhs;
            rhs ← advance rhs;
            same_items_loop same_item fuel lhs rhs
      | _, _ => Ok false
      end
  end.

(** The items of the parts: one more turn than items. *)
Definition part_items {V T} (part : LogicalListPart V T) : list (LogicalListItemRef V T) :=
  match part with
  | PtBytes b => RfByte <$> b
  | PtValues v => RfValue <$> v
  | PtThunk t => [RfThunk t]
  end.

(** [ptr_eq]: whether the two lists are one node. *)
Definition same_logical_items_by {V T} (ptr_eq : bool) (same_item : LogicalListItemRef V T -> LogicalListItemRef V T -> bool)
    (l r : GList V T) : M bool :=
  if ptr_eq then Ok true
  else
    left_parts ← logical_cursor_parts l;
    right_parts ← logical_cursor_parts r;
    same_items_loop same_item (S (length (left_parts ≫= part_items))) (cursor_new left_parts) (cursor_new right_parts).

(** ** Mapping one node *)
Definition map_chunk {V U} (map_byte : Z -> U) (map_value : V -> U) (c : ListChunk V) : M (list U) :=
  match c with
  | ChBytes b => Ok (fmap (M:=list) map_byte (bytes_list b))
  | ChValues s => v ← as_slice s; Ok (fmap (M:=list) map_value v)
  end.

Definition map_root_step {V T U T'} (l : GList V T) (map_byte : Z -> U) (map_value : V -> U)
    (defer_list : GList V T -> T') (defer_thunk : T -> T') : M (GList U T') :=
  match l with
  | LEmpty => Ok LEmpty
  | LBytes b => Ok (from_values (map_byte <$> bytes_list b))
  | LValues s => v ← as_slice s; Ok (from_values (map_value <$> v))
  | LConcat lhs rhs => Ok (concat (from_thunk (defer_list lhs)) (from_thunk (defer_list rhs)))
  | LFinger f =>
      mapped ← foldM (fun mapped chunk =>
          values ← map_chunk map_byte map_value chunk;
          Ok (ft_push_right mapped (ChValues (slice_from_vec values)))) ft_new (ft_iter f);
      Ok (from_finger mapped)
  | LThunk t => Ok (from_thunk (defer_thunk t))
  end.

(** Any panic of a part without error results. *)
Definition lift {E A} (m : M A) : outcome E A :=
  match m with Ok a => Ok a | Err e => match e with end | Panic => Panic | OutOfFuel => OutOfFuel end.

Definition flat_chunk {V U T' E} (map_byte : Z -> outcome E (GList U T')) (map_value : V -> outcome E (GList U T'))
    (c : ListChunk V) : outcome E (list (GList U T')) :=
  match c with
  | ChBytes b => mapM map_byte (bytes_list b)
  | ChValues s => v ← lift (as_slice s); mapM map_value v
  end.

Definition flat_map_root_step {V T U T' E} (l : GList V T) (map_byte : Z -> outcome E (GList U T'))
    (map_value : V -> outcome E (GList U T')) (defer_list : GList V T -> T') (defer_thunk : T -> T')
    : outcome E (GList U T') :=
  match l with
  | LEmpty => Ok LEmpty
  | LBytes b => parts ← mapM map_byte (bytes_list b); lift (concat_balanced parts)
  | LValues s => v ← lift (as_slice s); parts ← mapM map_value v; lift (concat_balanced parts)
  | LConcat lhs rhs => Ok (concat (from_thunk (defer_list lhs)) (from_thunk (defer_list rhs)))
  | LFinger f =>
      parts ← foldM (fun parts chunk => more ← flat_chunk map_byte map_value chunk; Ok (parts ++ more)) [] (ft_iter f);
      lift (concat_balanced parts)
  | LThunk t => Ok (from_thunk (defer_thunk t))
  end.

(** ** Equality *)

(** The visitors thread a state; a hole panics. *)
Definition chunk_for_each_segment {V X E} (on_bytes : X -> list Z -> outcome E X) (on_values : X -> list V -> outcome E X)
    (x : X) (c : ListChunk V) : outcome E X :=
  match c with
  | ChBytes b => on_bytes x (bytes_list b)
  | ChValues s => v ← lift (as_slice s); on_values x v
  end.

Fixpoint for_each_segment {V T X E} (on_bytes : X -> list Z -> outcome E X) (on_values : X -> list V -> outcome E X)
    (x : X) (l : GList V T) : outcome E X :=
  match l with
  | LEmpty => Ok x
  | LBytes b => on_bytes x (bytes_list b)
  | LValues s => v ← lift (as_slice s); on_values x v
  | LConcat lhs rhs => x ← for_each_segment on_bytes on_values x lhs; for_each_segment on_bytes on_values x rhs
  | LFinger f => foldM (chunk_for_each_segment on_bytes on_values) x (ft_iter f)
  | LThunk _ => Panic
  end.

Definition items_for_eq {V T} (l : GList V T) : M (list (ListItem V)) :=
  for_each_segment (fun items bytes => Ok (items ++ fmap (M:=list) IByte bytes))
    (fun items values => Ok (items ++ fmap (M:=list) IValue values)) [] l.

#[export] Instance ListItem_eq_dec {V} `{EqDecision V} : EqDecision (ListItem V).
Proof. solve_decision. Defined.

Definition list_eq {V T} `{EqDecision V} (ptr_eq : bool) (l r : GList V T) : M bool :=
  if ptr_eq then Ok true
  else match known_len l, known_len r with
       | Some a, Some b =>
           if negb (a =? b)%Z then Ok false
           else x ← items_for_eq l; y ← items_for_eq r; Ok (bool_decide (x = y))
       | _, _ => Ok false
       end.

End operations.

Arguments LogicalListItemCursor : clear implicits.
