(* ===== verification/GlamListFacts.v ===== *)
(** * Persistent lists as sequences

    A list stands for a sequence of logical items: bytes, values and deferred
    holes ([denote]). Every operation keeps the representation canonical
    ([list_wf]) and is described on that sequence alone. *)
From stdpp Require Import base option list numbers tactics.
From Stdlib Require Import ZArith Lia.
From S2P Require Import Prelude GlamList.

Section denotation.
Context {BO : BytesOps} {FO : FingerOps} {V T : Type}.

Definition slice_items {A} (s : SharedSlice A) : list A := take (sl_len s) (drop (sl_start s) (sl_data s)).

Definition chunk_refs (c : ListChunk V) : list (LogicalListItemRef V T) :=
  match c with ChBytes b => RfByte <$> bytes_list b | ChValues s => RfValue <$> slice_items s end.

Fixpoint denote (l : GList V T) : list (LogicalListItemRef V T) :=
  match l with
  | LEmpty => []
  | LBytes b => RfByte <$> bytes_list b
  | LValues s => RfValue <$> slice_items s
  | LConcat lhs rhs => denote lhs ++ denote rhs
  | LFinger f => ft_iter f ≫= chunk_refs
  | LThunk t => [RfThunk t]
  end.

Definition slice_ok {A} (s : SharedSlice A) : Prop := sl_start s + sl_len s <= length (sl_data s) /\ 0 < sl_len s.

Definition chunk_ok (c : ListChunk V) : Prop :=
  match c with ChBytes b => 0 < bytes_len b | ChValues s => slice_ok s end.

Record finger_ok (f : FingerList V) : Prop := {
  fo_chunks : Forall chunk_ok (ft_iter f);
  fo_fits : (Z.of_nat (total chunk_len (ft_iter f)) <= usize_max)%Z;
}.

(** The canonical representation: no empty leaf, no empty side of a
    concatenation. *)
Fixpoint list_wf (l : GList V T) : Prop :=
  match l with
  | LEmpty => True
  | LBytes b => 0 < bytes_len b
  | LValues s => slice_ok s
  | LConcat lhs rhs => (list_wf lhs /\ is_empty lhs = false) /\ list_wf rhs /\ is_empty rhs = false
  | LFinger f => finger_ok f /\ ft_iter f <> []
  | LThunk _ => True
  end.

(** A list without holes or concatenations. *)
Definition strict_leaf (l : GList V T) : bool :=
  match l with LBytes _ | LValues _ | LFinger _ => true | _ => false end.

End denotation.

(** ** Slices and chunks *)
Section chunks.
Context {BO : BytesOps} {BL : BytesLaws} {FO : FingerOps} {FL : FingerLaws} {V T : Type}.
Implicit Types (l : GList V T) (c : ListChunk V) (f : FingerList V).

Lemma slice_items_length {A} (s : SharedSlice A) : sl_start s + sl_len s <= length (sl_data s) -> length (slice_items s) = sl_len s.
Proof. intros Hs. unfold slice_items. rewrite length_take, length_drop. lia. Qed.

Lemma as_slice_ok {A} (s : SharedSlice A) : sl_start s + sl_len s <= length (sl_data s) -> as_slice s = Ok (slice_items s).
Proof. intros Hs. unfold as_slice. by rewrite bool_decide_true. Qed.

Lemma from_vec_ok {A} (v : list A) : slice_items (slice_from_vec v) = v /\ sl_start (slice_from_vec v) + sl_len (slice_from_vec v) <= length (sl_data (slice_from_vec v)).
Proof. unfold slice_items, slice_from_vec. cbn. rewrite drop_0, firstn_all. split; [done|lia]. Qed.

(** Cutting a part out of a slice. *)
Lemma slice_slice_ok {A} (s : SharedSlice A) start stop :
  sl_start s + sl_len s <= length (sl_data s) -> start <= stop -> stop <= sl_len s ->
  exists s', slice_slice s start stop = Ok s' /\ sl_len s' = stop - start /\
    sl_start s' + sl_len s' <= length (sl_data s') /\ slice_items s' = take (stop - start) (drop start (slice_items s)).
Proof.
  intros Hs H1 H2. unfold slice_slice. rewrite !bool_decide_true by done. cbn. eexists. split; [done|]. cbn. split; [done|].
  split; [lia|]. unfold slice_items. cbn. rewrite skipn_firstn_comm, take_take, drop_drop. f_equal. lia.
Qed.

Lemma bytes_slice_ok b start stop : start <= stop -> stop <= bytes_len b ->
  exists b', bytes_slice b start stop = Ok b' /\ bytes_list b' = take (stop - start) (drop start (bytes_list b)).
Proof.
  intros H1 H2. unfold bytes_slice. unfold bytes_len in H2. rewrite !bool_decide_true by done. cbn. eexists. split; [done|].
  by apply bytes_list_cut.
Qed.

Lemma bytes_slice_out b stop : bytes_len b < stop -> bytes_slice b 0 stop = Panic.
Proof. intros Hs. unfold bytes_slice, bytes_len in *. rewrite (bool_decide_true (0 <= stop)), (bool_decide_false (stop <= _)) by lia. done. Qed.

Lemma slice_slice_out {A} (s : SharedSlice A) stop : sl_len s < stop -> slice_slice s 0 stop = Panic.
Proof. intros Hs. unfold slice_slice. rewrite (bool_decide_true (0 <= stop)), (bool_decide_false (stop <= _)) by lia. done. Qed.

Lemma chunk_refs_length c : chunk_ok c -> length (chunk_refs (T:=T) c) = chunk_len c.
Proof. destruct c; cbn; intros Hc; rewrite length_fmap; [done|]. apply slice_items_length, Hc. Qed.

Lemma chunk_refs_nonempty c : chunk_ok c -> chunk_refs (T:=T) c <> [].
Proof.
  intros Hc He. pose proof (chunk_refs_length c Hc) as Hl. rewrite He in Hl. cbn in Hl. destruct c; cbn in *; [lia|].
  destruct Hc. lia.
Qed.

Lemma chunk_len_pos c : chunk_ok c -> 0 < chunk_len c.
Proof. destruct c; cbn; [done|]. by intros [_ ?]. Qed.

(** Cutting a part out of a chunk: none when empty. *)
Lemma chunk_slice_ok c start stop : chunk_ok c -> start <= stop -> stop <= chunk_len c ->
  exists o, chunk_slice c start stop = Ok o /\
    match o with
    | None => start = stop
    | Some c' => chunk_ok c' /\ chunk_len c' = stop - start /\
        chunk_refs (T:=T) c' = take (stop - start) (drop start (chunk_refs c))
    end.
Proof.
  intros Hc H1 H2. unfold chunk_slice. rewrite (bool_decide_true (start <= stop)), (bool_decide_true (stop <= chunk_len c)) by done. cbn [rust_assert mbind outcome_bind].
  case_bool_decide as He; [by exists None|]. destruct c as [b|s]; cbn in *.
  - destruct (bytes_slice_ok b start stop H1 H2) as (b' & -> & Hb). cbn. eexists. split; [done|]. cbn. unfold bytes_len in *.
    assert (Hl : length (bytes_list b') = stop - start) by (rewrite Hb, length_take, length_drop; lia).
    split; [lia|]. split; [done|]. by rewrite Hb, fmap_take, fmap_drop.
  - destruct (slice_slice_ok s start stop (proj1 Hc) H1 H2) as (s' & -> & Hl & Hr & Hi). cbn. eexists. split; [done|]. cbn.
    split; [split; [done|lia]|]. split; [done|]. by rewrite Hi, fmap_take, fmap_drop.
Qed.

Lemma total_app {A} (m : A -> nat) (l1 l2 : list A) : total m (l1 ++ l2) = total m l1 + total m l2.
Proof. unfold total. rewrite fmap_app. induction (m <$> l1); cbn; lia. Qed.

Lemma total_cons {A} (m : A -> nat) a (l : list A) : total m (a :: l) = m a + total m l.
Proof. done. Qed.

Lemma total_refs (cs : list (ListChunk V)) : Forall chunk_ok cs -> length (cs ≫= chunk_refs (T:=T)) = total chunk_len cs.
Proof.
  induction 1 as [|c cs Hc _ IH]; [done|]. cbn [mbind list_bind]. rewrite length_app, total_cons.
  f_equal; [by apply chunk_refs_length|exact IH].
Qed.

End chunks.

(** ** Building *)
Section building.
Context {BO : BytesOps} {BL : BytesLaws} {FO : FingerOps} {FL : FingerLaws} {V T : Type}.
Implicit Types (l : GList V T) (c : ListChunk V) (f : FingerList V).

Lemma from_bytes_ok b : list_wf (V:=V) (T:=T) (from_bytes b) /\ denote (V:=V) (T:=T) (from_bytes b) = RfByte <$> bytes_list b.
Proof.
  unfold from_bytes, bytes_len. case_bool_decide as He; cbn.
  - apply nil_length_inv in He. by rewrite He.
  - split; [|done]. unfold bytes_len. lia.
Qed.

Lemma from_values_ok (v : list V) : list_wf (T:=T) (from_values v) /\ denote (T:=T) (from_values v) = RfValue <$> v.
Proof.
  destruct (from_vec_ok v) as [Hi Hr]. unfold from_values. destruct v as [|x v]; [done|]. cbn [list_wf denote].
  rewrite Hi. split; [split; [done|cbn; lia]|done].
Qed.

Lemma from_value_slice_ok (s : SharedSlice V) : sl_start s + sl_len s <= length (sl_data s) ->
  list_wf (T:=T) (from_value_slice s) /\ denote (T:=T) (from_value_slice s) = RfValue <$> slice_items s.
Proof.
  intros Hs. unfold from_value_slice. case_bool_decide as He; cbn.
  - split; [done|]. pose proof (slice_items_length s Hs) as Hl. rewrite He in Hl. apply nil_length_inv in Hl. by rewrite Hl.
  - split; [split; [done|lia]|done].
Qed.

Lemma from_finger_ok f : finger_ok f -> list_wf (T:=T) (from_finger f) /\ denote (T:=T) (from_finger f) = ft_iter f ≫= chunk_refs.
Proof.
  intros Hf. unfold from_finger. destruct (ft_is_empty f) eqn:E.
  - apply ft_is_empty_iter in E. rewrite E. done.
  - cbn. split; [|done]. split; [done|]. intros He%ft_is_empty_iter. congruence.
Qed.

Lemma from_values_balanced_ok (v : list V) : (Z.of_nat (length v) <= usize_max)%Z ->
  list_wf (T:=T) (from_values_balanced v) /\ denote (T:=T) (from_values_balanced v) = RfValue <$> v.
Proof.
  intros Hfit. destruct (from_vec_ok v) as [Hi Hr]. unfold from_values_balanced. destruct v as [|x v]; [done|].
  destruct (from_finger_ok (ft_push_right ft_new (ChValues (slice_from_vec (x :: v))))) as [H1 H2].
  - split; rewrite ft_iter_push_right, ft_iter_new; cbn [app].
    + apply Forall_singleton. split; [done|cbn; lia].
    + unfold total. cbn [fmap list_fmap sum_list sum_list_with chunk_len slice_from_vec sl_len]. cbn in *. lia.
  - split; [done|]. rewrite H2, ft_iter_push_right, ft_iter_new. cbn [app mbind list_bind chunk_refs]. by rewrite Hi, app_nil_r.
Qed.

Lemma is_empty_denote l : list_wf l -> is_empty l = true <-> denote l = [].
Proof.
  induction l as [|b|s|l1 IH1 l2 IH2|f|t]; cbn; intros Hw; split; try done.
  - intros He%fmap_nil_inv. unfold bytes_len in Hw. rewrite He in Hw. cbn in Hw. lia.
  - intros He%fmap_nil_inv. pose proof (slice_items_length s (proj1 Hw)) as Hl. rewrite He in Hl. destruct Hw. cbn in Hl. lia.
  - destruct Hw as [[W1 E1] [W2 E2]]. intros [D1 _]%app_nil. apply (IH1 W1) in D1. congruence.
  - destruct Hw as [[Hc _] Hne]. intros He. destruct (ft_iter f) as [|c cs]; [done|]. cbn in He. apply app_nil in He as [He _].
    apply list.Forall_cons in Hc as [Hc _]. by apply chunk_refs_nonempty in He.
Qed.

Lemma concat_ok l1 l2 : list_wf l1 -> list_wf l2 -> list_wf (concat l1 l2) /\ denote (concat l1 l2) = denote l1 ++ denote l2.
Proof.
  intros W1 W2. unfold concat. destruct (is_empty l1) eqn:E1; [apply (is_empty_denote l1 W1) in E1; by rewrite E1|].
  destruct (is_empty l2) eqn:E2; [apply (is_empty_denote l2 W2) in E2; by rewrite E2, app_nil_r|]. done.
Qed.

(** What a stack of pending siblings stands for, its top first. *)
Lemma join_suffix_ok (ls : list (GList V T)) : Forall list_wf ls -> list_wf (join_logical_suffix LEmpty (rev ls)) /\
  denote (join_logical_suffix LEmpty (rev ls)) = ls ≫= denote.
Proof.
  intros Hls. unfold join_logical_suffix. set (suffix := foldl _ LEmpty (rev ls)).
  assert (HS : list_wf suffix /\ denote suffix = ls ≫= denote).
  { subst suffix. induction Hls as [|l ls Hl _ [IH1 IH2]]; [done|]. cbn [rev]. rewrite foldl_app. cbn [foldl].
    destruct (concat_ok l _ Hl IH1) as [Hw Hd]. split; [done|]. by rewrite Hd, IH2. }
  destruct HS as [Hw Hd]. destruct (concat_ok LEmpty suffix I Hw) as [Hw' Hd']. split; [done|]. by rewrite Hd', Hd.
Qed.

Lemma join_prefix_ok (ls : list (GList V T)) : Forall list_wf ls -> list_wf (join_logical_prefix LEmpty (rev ls)) /\
  denote (join_logical_prefix LEmpty (rev ls)) = rev ls ≫= denote.
Proof.
  intros Hls. unfold join_logical_prefix. set (prefix := foldl _ LEmpty (rev ls)).
  assert (HS : list_wf prefix /\ denote prefix = rev ls ≫= denote).
  { subst prefix. induction Hls as [|l ls Hl _ [IH1 IH2]]; [done|]. cbn [rev]. rewrite foldl_app, bind_app. cbn [foldl].
    destruct (concat_ok _ l IH1 Hl) as [Hw Hd]. split; [done|]. rewrite Hd, IH2. cbn. by rewrite app_nil_r. }
  destruct HS as [Hw Hd]. destruct (concat_ok prefix LEmpty Hw I) as [Hw' Hd']. split; [done|]. rewrite Hd', Hd. by rewrite app_nil_r.
Qed.

End building.

(** ** Taking apart from either end *)
Section popping.
Context {BO : BytesOps} {BL : BytesLaws} {FO : FingerOps} {FL : FingerLaws} {V T : Type}.
Implicit Types (l : GList V T) (c : ListChunk V) (f : FingerList V).

(** An item as an observer gets it, its value duplicated. *)
Definition observed_item {U} (duplicate_value : V -> U) (x : LogicalListItemRef V T) : option (ListItem U) :=
  match x with RfByte b => Some (IByte b) | RfValue v => Some (IValue (duplicate_value v)) | RfThunk _ => None end.

Definition stack_nodes (ls : list (GList V T)) : nat := sum_list (nodes <$> ls).

Lemma nodes_pos l : 0 < nodes l.
Proof. destruct l; cbn; lia. Qed.

(** What a leaf step finds at the front of a stack. *)
Definition front_found {D} (dd : T -> D) (items : list (LogicalListItemRef V T)) (step : ListFrontLeafStep D V T) : Prop :=
  match step with
  | FlEmpty => items = []
  | FlLeaf leaf tail => strict_leaf leaf = true /\ list_wf leaf /\ list_wf tail /\ items = denote leaf ++ denote tail
  | FlDeferred d suffix => exists t, d = dd t /\ list_wf suffix /\ items = RfThunk t :: denote suffix
  end.

Lemma front_leaf_spec {D} (dd : T -> D) fuel : forall ls, Forall list_wf ls -> stack_nodes ls <= fuel ->
  exists step, front_leaf_loop fuel dd ls = Ok step /\ front_found dd (ls ≫= denote) step.
Proof.
  induction fuel as [|fuel IH]; intros [|l ls] Hls Hf; try (by exists FlEmpty).
  - unfold stack_nodes in Hf. cbn in Hf. pose proof (nodes_pos l). lia.
  - apply list.Forall_cons in Hls as [Hl Hls]. destruct (join_suffix_ok ls Hls) as [Jw Jd].
    unfold stack_nodes in Hf. cbn [fmap list_fmap sum_list sum_list_with] in Hf. fold (stack_nodes ls) in Hf.
    assert (Hleaf : strict_leaf l = true -> exists step, Ok (E:=Empty_set) (FlLeaf l (join_logical_suffix LEmpty (rev ls))) = Ok step /\
      front_found dd (denote l ++ (ls ≫= denote)) step).
    { intros Hst. eexists. split; [done|]. cbn [front_found]. by rewrite Jd. }
    destruct l as [|b|s|l1 l2|f|t]; cbn [front_leaf_loop mbind list_bind]; try (by apply Hleaf).
    + apply IH; [done|]. cbn in Hf. unfold stack_nodes, id in *. cbn in *. lia.
    + destruct Hl as [[W1 _] [W2 _]]. destruct (IH (l1 :: l2 :: ls)) as (step & Hs & HF).
      * by repeat constructor.
      * unfold stack_nodes in *. cbn in *. lia.
      * exists step. split; [done|]. cbn [mbind list_bind] in HF. cbn [denote]. by rewrite <- app_assoc.
    + eexists. split; [done|]. exists t. split; [done|]. split; [done|]. by rewrite Jd.
Qed.

Definition back_found {D} (dd : T -> D) (items : list (LogicalListItemRef V T)) (step : ListBackLeafStep D V T) : Prop :=
  match step with
  | BlEmpty => items = []
  | BlLeaf init leaf => strict_leaf leaf = true /\ list_wf leaf /\ list_wf init /\ items = denote init ++ denote leaf
  | BlDeferred prefix d => exists t, d = dd t /\ list_wf prefix /\ items = denote prefix ++ [RfThunk t]
  end.

Lemma back_leaf_spec {D} (dd : T -> D) fuel : forall ls, Forall list_wf ls -> stack_nodes ls <= fuel ->
  exists step, back_leaf_loop fuel dd ls = Ok step /\ back_found dd (rev ls ≫= denote) step.
Proof.
  induction fuel as [|fuel IH]; intros [|l ls] Hls Hf; try (by exists BlEmpty).
  - unfold stack_nodes in Hf. cbn in Hf. pose proof (nodes_pos l). lia.
  - apply list.Forall_cons in Hls as [Hl Hls]. destruct (join_prefix_ok ls Hls) as [Jw Jd].
    unfold stack_nodes in Hf. cbn [fmap list_fmap sum_list sum_list_with] in Hf. fold (stack_nodes ls) in Hf.
    cbn [rev]. rewrite bind_app. cbn [mbind list_bind]. rewrite app_nil_r.
    assert (Hleaf : strict_leaf l = true -> exists step, Ok (E:=Empty_set) (BlLeaf (join_logical_prefix LEmpty (rev ls)) l) = Ok step /\
      back_found dd ((rev ls ≫= denote) ++ denote l) step).
    { intros Hst. eexists. split; [done|]. cbn [back_found]. by rewrite Jd. }
    destruct l as [|b|s|l1 l2|f|t]; cbn [back_leaf_loop]; try (by apply Hleaf).
    + cbn [denote]. rewrite app_nil_r. apply IH; [done|]. unfold stack_nodes, id in *. cbn in *. lia.
    + destruct Hl as [[W1 _] [W2 _]]. destruct (IH (l2 :: l1 :: ls)) as (step & Hs & HF).
      * by repeat constructor.
      * unfold stack_nodes in *. cbn in *. lia.
      * exists step. split; [done|]. cbn [rev] in HF. rewrite !bind_app in HF. cbn [mbind list_bind] in HF.
        rewrite !app_nil_r, <- app_assoc in HF. exact HF.
    + eexists. split; [done|]. exists t. split; [done|]. split; [done|]. by rewrite Jd.
Qed.

Lemma item_at_spec {U} c i (dv : V -> U) : chunk_ok c -> item_at_by c i dv = Ok (chunk_refs (T:=T) c !! i ≫= observed_item dv).
Proof.
  intros Hc. destruct c as [b|s]; cbn.
  - rewrite list_lookup_fmap. by destruct (bytes_list b !! i).
  - rewrite (as_slice_ok s) by apply Hc. cbn. rewrite list_lookup_fmap. by destruct (slice_items s !! i).
Qed.

(** No hole in a chunk. *)
Lemma chunk_observed {U} c (dv : V -> U) x : x ∈ chunk_refs (T:=T) c -> exists item, observed_item dv x = Some item.
Proof. destruct c; cbn; intros (y & -> & _)%list_elem_of_fmap; cbn; eauto. Qed.

Lemma finger_ok_sub f f' (more : list (ListChunk V)) : finger_ok f -> Forall chunk_ok (ft_iter f') ->
  total chunk_len (ft_iter f') <= total chunk_len (ft_iter f) -> finger_ok f'.
Proof. intros [H1 H2] H3 H4. split; [done|lia]. Qed.

(** Putting a cut chunk back on a tree. *)
Lemma push_left_opt (rest f : FingerList V) (o : option (ListChunk V)) : Forall chunk_ok (ft_iter rest) ->
  (forall c, o = Some c -> chunk_ok c) ->
  f = match o with Some c => ft_push_left rest c | None => rest end ->
  ft_iter f = option_list o ++ ft_iter rest /\ Forall chunk_ok (ft_iter f).
Proof.
  intros Hr Ho ->. destruct o as [c|]; cbn; [|done]. rewrite ft_iter_push_left. split; [done|]. constructor; [by apply Ho|done].
Qed.

Lemma push_right_opt (rest f : FingerList V) (o : option (ListChunk V)) : Forall chunk_ok (ft_iter rest) ->
  (forall c, o = Some c -> chunk_ok c) ->
  f = match o with Some c => ft_push_right rest c | None => rest end ->
  ft_iter f = ft_iter rest ++ option_list o /\ Forall chunk_ok (ft_iter f).
Proof.
  intros Hr Ho ->. destruct o as [c|]; cbn; [|by rewrite app_nil_r]. rewrite ft_iter_push_right. split; [done|].
  apply Forall_app. split; [done|]. apply Forall_singleton. by apply Ho.
Qed.

Lemma bind_one {A B} (g : A -> list B) a : [a] ≫= g = g a.
Proof. cbn. by rewrite app_nil_r. Qed.

(** The two parts a chunk is cut in. *)
Lemma chunk_cut c i : chunk_ok c -> i <= chunk_len c ->
  exists a b, chunk_slice c 0 i = Ok a /\ chunk_slice c i (chunk_len c) = Ok b /\
    (forall d, a = Some d -> chunk_ok d) /\ (forall d, b = Some d -> chunk_ok d) /\
    total chunk_len (option_list a) = i /\ total chunk_len (option_list b) = chunk_len c - i /\
    (option_list a ≫= chunk_refs (T:=T)) = take i (chunk_refs c) /\ (option_list b ≫= chunk_refs (T:=T)) = drop i (chunk_refs c).
Proof.
  intros Hc Hi. destruct (chunk_slice_ok (T:=T) c 0 i Hc ltac:(lia) Hi) as (a & Ha & HA).
  destruct (chunk_slice_ok (T:=T) c i (chunk_len c) Hc Hi ltac:(lia)) as (b & Hb & HB). exists a, b.
  pose proof (chunk_refs_length (T:=T) c Hc) as Hl. split; [done|]. split; [done|].
  split; [intros d ->; by destruct HA|]. split; [intros d ->; by destruct HB|].
  assert (HA' : total chunk_len (option_list a) = i /\ (option_list a ≫= chunk_refs (T:=T)) = take i (chunk_refs c)).
  { destruct a as [d|]; cbn [option_list].
    - destruct HA as (_ & HA & HR). change (option_list (Some d)) with [d]. rewrite bind_one, HR, Nat.sub_0_r, drop_0, total_cons, HA. split; [cbn; lia|done].
    - subst i. done. }
  assert (HB' : total chunk_len (option_list b) = chunk_len c - i /\ (option_list b ≫= chunk_refs (T:=T)) = drop i (chunk_refs c)).
  { destruct b as [d|]; cbn [option_list].
    - destruct HB as (_ & HB & HR). change (option_list (Some d)) with [d]. rewrite bind_one, HR, total_cons, HB. split; [cbn; lia|]. apply take_ge. rewrite length_drop. lia.
    - subst i. split; [cbn; lia|]. by rewrite drop_ge by lia. }
  tauto.
Qed.

Lemma pop_leaf_front_spec {U} l (dv : V -> U) : list_wf l -> strict_leaf l = true ->
  exists x rest item tail, denote l = x :: rest /\ pop_leaf_front_by l dv = Ok (item, tail) /\
    observed_item dv x = Some item /\ list_wf tail /\ denote tail = rest.
Proof.
  intros Hw Hs. destruct l as [|b|s|l1 l2|f|t]; try done; cbn [list_wf] in Hw; cbn [denote].
  - destruct (bytes_slice_ok b 1 (bytes_len b) ltac:(lia) ltac:(lia)) as (b' & Hb & Hl).
    destruct (bytes_list b) as [|x xs] eqn:E; [unfold bytes_len in Hw; rewrite E in Hw; cbn in Hw; lia|].
    destruct (from_bytes_ok (V:=V) (T:=T) b') as [W' D'].
    exists (RfByte x), (RfByte <$> xs), (IByte x), (from_bytes b'). split; [done|]. split.
    { unfold pop_leaf_front_by. rewrite (proj2 (vec_get_Ok _ 0 x)) by (by rewrite E). cbn. by rewrite Hb. }
    split; [done|]. split; [done|]. rewrite D', Hl. unfold bytes_len. rewrite E. cbn. by rewrite Nat.sub_0_r, drop_0, firstn_all.
  - destruct (slice_slice_ok s 1 (sl_len s) (proj1 Hw) ltac:(destruct Hw; lia) ltac:(lia)) as (s' & Hsl & Hl & Hr & Hi).
    destruct (from_value_slice_ok (T:=T) s' Hr) as [W' D']. pose proof (slice_items_length s (proj1 Hw)) as Hlen.
    cbn. rewrite (as_slice_ok s) by apply Hw. cbn [mbind outcome_bind]. destruct (slice_items s) as [|x xs]; [destruct Hw; cbn in Hlen; lia|].
    exists (RfValue x), (RfValue <$> xs), (IValue (dv x)), (from_value_slice s'). split; [done|]. rewrite Hsl. split; [done|].
    split; [done|]. split; [done|]. rewrite D', Hi. cbn in *. rewrite drop_0, take_ge by lia. done.
  - destruct Hw as [[Hc Hfit] Hne]. cbn. pose proof (ft_iter_view_left _ _ f) as HV. destruct (ft_view_left f) as [[c rest]|]; [|done].
    rewrite HV in Hc, Hfit |- *. apply list.Forall_cons in Hc as [Hc Hrest]. pose proof (chunk_len_pos c Hc) as Hp.
    destruct (chunk_cut c 1 Hc ltac:(lia)) as (a & b & _ & Hb & _ & Hbo & _ & Htot & _ & Hrefs).
    pose proof (chunk_refs_nonempty (T:=T) c Hc) as Hnn. destruct (chunk_refs (T:=T) c) as [|x xs] eqn:E; [done|].
    destruct (chunk_observed c dv x) as [item Hit]; [rewrite E; left|].
    cbn [expect mbind outcome_bind list_bind]. rewrite E, (item_at_spec c 0 dv Hc), E. cbn [lookup list_lookup mbind option_bind]. rewrite Hit.
    cbn [expect mbind outcome_bind]. rewrite Hb. cbn [mbind outcome_bind].
    match goal with |- context [from_finger ?g] => remember g as f2 eqn:Ef2 end.
    destruct (push_left_opt rest f2 b Hrest Hbo Ef2) as [Hiter Hall].
    exists x, (xs ++ (ft_iter rest ≫= chunk_refs)), item, (from_finger f2). split; [done|]. split; [done|]. split; [done|].
    destruct (from_finger_ok (T:=T) f2) as [W' D'].
    + split; [done|]. rewrite Hiter, total_app, Htot. rewrite total_cons in Hfit. lia.
    + split; [done|]. rewrite D', Hiter, bind_app, Hrefs. done.
Qed.

(** The last element of a sequence and what is before it. *)
Lemma last_split {A} (l : list A) : 0 < length l -> exists x, l !! (length l - 1) = Some x /\ l = take (length l - 1) l ++ [x].
Proof.
  intros Hl. destruct (lookup_lt_is_Some_2 l (length l - 1) ltac:(lia)) as [x Hx]. exists x. split; [done|].
  rewrite <- (take_S_r l _ x Hx). replace (S (length l - 1)) with (length l) by lia. by rewrite firstn_all.
Qed.

Lemma pop_leaf_back_spec {U} l (dv : V -> U) : list_wf l -> strict_leaf l = true ->
  exists x rest item init, denote l = rest ++ [x] /\ pop_leaf_back_by l dv = Ok (init, item) /\
    observed_item dv x = Some item /\ list_wf init /\ denote init = rest.
Proof.
  intros Hw Hs. destruct l as [|b|s|l1 l2|f|t]; try done; cbn [list_wf] in Hw; cbn [denote].
  - destruct (bytes_slice_ok b 0 (bytes_len b - 1) ltac:(lia) ltac:(lia)) as (b' & Hb & Hl).
    destruct (last_split (bytes_list b) Hw) as (x & Hx & Hsp). destruct (from_bytes_ok (V:=V) (T:=T) b') as [W' D'].
    exists (RfByte x), (RfByte <$> take (length (bytes_list b) - 1) (bytes_list b)), (IByte x), (from_bytes b'). split.
    { rewrite Hsp at 1. by rewrite fmap_app. }
    split. { unfold pop_leaf_back_by. rewrite Hb. cbn [mbind outcome_bind]. by rewrite (proj2 (vec_get_Ok _ _ x)). }
    split; [done|]. split; [done|]. rewrite D', Hl, Nat.sub_0_r, drop_0. done.
  - destruct (slice_slice_ok s 0 (sl_len s - 1) (proj1 Hw) ltac:(lia) ltac:(lia)) as (s' & Hsl & Hl & Hr & Hi).
    destruct (from_value_slice_ok (T:=T) s' Hr) as [W' D']. pose proof (slice_items_length s (proj1 Hw)) as Hlen.
    destruct (last_split (slice_items s)) as (x & Hx & Hsp); [destruct Hw; lia|]. rewrite Hlen in Hx, Hsp.
    exists (RfValue x), (RfValue <$> take (sl_len s - 1) (slice_items s)), (IValue (dv x)), (from_value_slice s'). split.
    { rewrite Hsp at 1. by rewrite fmap_app. }
    split.
    { unfold pop_leaf_back_by. rewrite Hsl. cbn [mbind outcome_bind]. rewrite (as_slice_ok s) by apply Hw. cbn [mbind outcome_bind].
      by rewrite (proj2 (vec_get_Ok _ _ x)). }
    split; [done|]. split; [done|]. rewrite D', Hi, Nat.sub_0_r, drop_0. done.
  - destruct Hw as [[Hc Hfit] Hne]. cbn. pose proof (ft_iter_view_right _ _ f) as HV. destruct (ft_view_right f) as [[rest c]|]; [|done].
    rewrite HV in Hc, Hfit |- *. apply Forall_app in Hc as [Hrest Hc]. apply Forall_one in Hc. pose proof (chunk_len_pos c Hc) as Hp.
    destruct (chunk_cut c (chunk_len c - 1) Hc ltac:(lia)) as (a & b & Ha & _ & Hao & _ & Htot & _ & Hrefs & _).
    pose proof (chunk_refs_length (T:=T) c Hc) as Hl. destruct (last_split (chunk_refs (T:=T) c)) as (x & Hx & Hsp); [lia|]. rewrite Hl in Hx, Hsp.
    destruct (chunk_observed c dv x) as [item Hit]; [by eapply list_elem_of_lookup_2|].
    cbn [expect mbind outcome_bind]. rewrite (item_at_spec c _ dv Hc), Hx. cbn [mbind option_bind]. rewrite Hit.
    cbn [expect mbind outcome_bind]. rewrite Ha. cbn [mbind outcome_bind].
    match goal with |- context [from_finger ?g] => remember g as f2 eqn:Ef2 end.
    destruct (push_right_opt rest f2 a Hrest Hao Ef2) as [Hiter Hall].
    exists x, ((ft_iter rest ≫= chunk_refs) ++ take (chunk_len c - 1) (chunk_refs c)), item, (from_finger f2).
    split; [rewrite bind_app, bind_one, <- app_assoc; by f_equal|]. split; [done|]. split; [done|].
    destruct (from_finger_ok (T:=T) f2) as [W' D'].
    + split; [done|]. rewrite Hiter, total_app, Htot. rewrite total_app, total_cons in Hfit. lia.
    + split; [done|]. rewrite D', Hiter, bind_app, Hrefs. done.
Qed.

(** What a step from either end says of the sequence. *)
Definition front_step_ok {U D} (dv : V -> U) (dd : T -> D) (items : list (LogicalListItemRef V T)) (step : ListFrontStep U D V T) : Prop :=
  match step with
  | FsEmpty => items = []
  | FsItem item tail => list_wf tail /\ exists x, observed_item dv x = Some item /\ items = x :: denote tail
  | FsDeferred d suffix => list_wf suffix /\ exists t, d = dd t /\ items = RfThunk t :: denote suffix
  end.

Definition back_step_ok {U D} (dv : V -> U) (dd : T -> D) (items : list (LogicalListItemRef V T)) (step : ListBackStep U D V T) : Prop :=
  match step with
  | BsEmpty => items = []
  | BsItem init item => list_wf init /\ exists x, observed_item dv x = Some item /\ items = denote init ++ [x]
  | BsDeferred prefix d => list_wf prefix /\ exists t, d = dd t /\ items = denote prefix ++ [RfThunk t]
  end.

(** C23. Taking a list apart from either end never panics and always ends,
    within one turn per node of the list. A step returns exactly the first
    (the last) logical item with the rest of the sequence: an item, its value
    duplicated, or a deferred hole, which is not forced; and the rest is in
    canonical form. *)
Theorem pop_steps_correct {U D} l (dv : V -> U) (dd : T -> D) :
  list_wf l ->
  (exists step, pop_front_step_by l dv dd = Ok step /\ front_step_ok dv dd (denote l) step) /\
  (exists step, pop_back_step_by l dv dd = Ok step /\ back_step_ok dv dd (denote l) step).
Proof.
  intros Hw. split.
  - destruct (front_leaf_spec dd (nodes l) [l]) as (step & Hs & HF); [by repeat constructor|unfold stack_nodes; cbn; lia|].
    rewrite bind_one in HF. unfold pop_front_step_by, pop_front_leaf_step. rewrite Hs. cbn [mbind outcome_bind].
    destruct step as [|leaf tail|d suffix]; cbn [front_found] in HF.
    + by exists FsEmpty.
    + destruct HF as (Hst & Wl & Wt & Hd). destruct (pop_leaf_front_spec leaf dv Wl Hst) as (x & rest & item & r & Hx & -> & Hit & Wr & Hr).
      cbn [mbind outcome_bind]. destruct (concat_ok r tail Wr Wt) as [Wc Dc]. eexists. split; [done|]. split; [done|]. exists x.
      split; [done|]. by rewrite Hd, Hx, Dc, Hr.
    + destruct HF as (t & -> & Ws & Hd). eexists. split; [done|]. split; [done|]. by exists t.
  - destruct (back_leaf_spec dd (nodes l) [l]) as (step & Hs & HF); [by repeat constructor|unfold stack_nodes; cbn; lia|].
    cbn [rev app] in HF. rewrite bind_one in HF. unfold pop_back_step_by, pop_back_leaf_step. rewrite Hs. cbn [mbind outcome_bind].
    destruct step as [|init leaf|prefix d]; cbn [back_found] in HF.
    + by exists BsEmpty.
    + destruct HF as (Hst & Wl & Wt & Hd). destruct (pop_leaf_back_spec leaf dv Wl Hst) as (x & rest & item & r & Hx & -> & Hit & Wr & Hr).
      cbn [mbind outcome_bind]. destruct (concat_ok init r Wt Wr) as [Wc Dc]. eexists. split; [done|]. split; [done|]. exists x.
      split; [done|]. by rewrite Hd, Hx, Dc, Hr, app_assoc.
    + destruct HF as (t & -> & Ws & Hd). eexists. split; [done|]. split; [done|]. by exists t.
Qed.

End popping.

(** ** Cutting strict leaves *)
Section cutting.
Context {BO : BytesOps} {BL : BytesLaws} {FO : FingerOps} {FL : FingerLaws} {V T : Type}.
Implicit Types (l : GList V T) (c : ListChunk V) (f : FingerList V).

Definition finger_refs f : list (LogicalListItemRef V T) := ft_iter f ≫= chunk_refs.

Lemma finger_refs_length f : finger_ok f -> length (finger_refs f) = ft_measure f.
Proof. intros [Hc Hf]. unfold finger_refs. rewrite (total_refs _ Hc). symmetry. by apply ft_measure_total. Qed.

Lemma finger_new_ok : finger_ok (V:=V) ft_new /\ finger_refs ft_new = [].
Proof. unfold finger_refs. split; [split|]; rewrite ft_iter_new; [constructor|unfold total, usize_max, u64_max; cbn; lia|done]. Qed.

(** The library's split, for the predicate the code uses. *)
Lemma split_spec f index : finger_ok f -> 0 < index < ft_measure f ->
  exists l r : FingerList V, ft_split f (fun measure => bool_decide (index < measure)) = (l, r) /\ finger_ok l /\ finger_ok r /\
    ft_iter l ++ ft_iter r = ft_iter f /\ ft_measure l <= index /\
    exists c rest, ft_iter r = c :: rest /\ index < ft_measure l + chunk_len c.
Proof.
  intros [Hc Hf] Hi. destruct (ft_split f _) as [l r] eqn:E.
  pose proof (ft_split_iter _ chunk_len f (fun measure => bool_decide (index < measure)) Hf) as HS. rewrite E in HS. cbn [fst snd] in HS.
  destruct HS as (Happ & Hlt & Hge).
  { intros i j Hij Hp%bool_decide_eq_true. apply bool_decide_eq_true. lia. } { apply bool_decide_eq_false. lia. }
  apply bool_decide_eq_false in Hlt.
  assert (HL : finger_ok l /\ finger_ok r).
  { rewrite <- Happ in Hc, Hf. apply Forall_app in Hc as [H1 H2]. rewrite total_app in Hf. split; split; done || lia. }
  destruct HL as [Hl Hr]. exists l, r. rewrite (ft_measure_total _ _ l (fo_fits _ Hl)). do 4 (split; [done|]). split; [lia|].
  rewrite (ft_measure_total _ _ f Hf), <- Happ, total_app in Hi.
  destruct (ft_iter r) as [|c rest] eqn:Er; [cbn in Hi; lia|]. exists c, rest. split; [done|]. specialize (Hge c rest eq_refl).
  by apply bool_decide_eq_true in Hge.
Qed.

Lemma split_finger_at_spec f index : finger_ok f ->
  if decide (index <= ft_measure f)
  then exists l r : FingerList V, split_finger_at f index = Ok (l, r) /\ finger_ok l /\ finger_ok r /\
    finger_refs l = take index (finger_refs f) /\ finger_refs r = drop index (finger_refs f)
  else split_finger_at f index = Panic.
Proof.
  intros Hf. pose proof (finger_refs_length f Hf) as Hlen. destruct finger_new_ok as [Hn1 Hn2].
  unfold split_finger_at. case_decide as Hi; [rewrite (bool_decide_true (index <= ft_measure f)) by done|by rewrite (bool_decide_false (index <= ft_measure f))]. cbn [rust_assert mbind outcome_bind].
  case_bool_decide as H0; [subst index; exists ft_new, f; by rewrite Hn2|].
  case_bool_decide as H1; [exists f, ft_new; rewrite Hn2, take_ge, drop_ge by lia; done|].
  destruct (split_spec f index Hf ltac:(lia)) as (l & r & -> & Hl & Hr & Happ & Hle & c & rest & Hcr & Hlt).
  assert (Hsp : finger_refs f = finger_refs l ++ finger_refs r) by (unfold finger_refs; by rewrite <- Happ, bind_app).
  pose proof (finger_refs_length l Hl) as Hll. case_bool_decide as H2.
  { exists l, r. do 3 (split; [done|]). rewrite Hsp, <- H2, <- Hll. by rewrite take_app_length, drop_app_length. }
  pose proof (ft_iter_view_left _ _ r) as HV. destruct (ft_view_left r) as [[c' tail]|]; [|by rewrite Hcr in HV].
  rewrite Hcr in HV. injection HV as <- ->. destruct Hr as [Hc Hfit]. rewrite Hcr in Hc, Hfit. apply list.Forall_cons in Hc as [Hc Htail].
  set (o := index - ft_measure l) in *. assert (Ho : o <= chunk_len c) by (unfold o; lia).
  destruct (chunk_cut (T:=T) c o Hc Ho) as (a & b & Ha & Hb & Hao & Hbo & Hta & Htb & Hra & Hrb).
  cbn [expect mbind outcome_bind]. rewrite Ha. cbn [mbind outcome_bind]. rewrite Hb. cbn [mbind outcome_bind].
  match goal with |- context [Ok (?g, ?h)] => remember g as l2 eqn:El2; remember h as r2 eqn:Er2 end.
  destruct (push_right_opt l l2 a (fo_chunks _ Hl) Hao El2) as [Il2 Al2]. destruct (push_left_opt tail r2 b Htail Hbo Er2) as [Ir2 Ar2].
  pose proof (ft_measure_total _ _ l (fo_fits _ Hl)) as Hml. pose proof (ft_measure_total _ _ f (fo_fits _ Hf)) as Hmf.
  pose proof (fo_fits _ Hf) as Hff. rewrite <- Happ, Hcr, total_app, total_cons in Hff.
  exists l2, r2. split; [done|]. split; [split; [done|rewrite Il2, total_app, Hta; lia]|].
  split; [split; [done|rewrite Ir2, total_app, Htb; lia]|].
  assert (Hrr : finger_refs r = chunk_refs c ++ (ft_iter tail ≫= chunk_refs)) by (unfold finger_refs; by rewrite Hcr).
  pose proof (chunk_refs_length (T:=T) c Hc) as Hcl.
  split; unfold finger_refs at 1; [rewrite Il2|rewrite Ir2]; rewrite bind_app, ?Hra, ?Hrb, Hsp, Hrr.
  - rewrite take_app. fold (finger_refs l). rewrite (take_ge (finger_refs l)), Hll by lia. f_equal. rewrite take_app_le; [done|lia].
  - rewrite drop_app. rewrite (drop_ge (finger_refs l)), Hll by lia. cbn. rewrite drop_app_le; [done|lia].
Qed.

Definition splits_ok l index : Prop :=
  if decide ((strict_leaf l = true \/ is_empty l = true) /\ index <= length (denote l))
  then exists a b, split_leaf_at l index = Ok (a, b) /\ list_wf a /\ list_wf b /\
    denote a = take index (denote l) /\ denote b = drop index (denote l)
  else split_leaf_at l index = Panic.

Definition item_ok {U} (dv : V -> U) l index : Prop :=
  if decide (strict_leaf l = true /\ index < length (denote l))
  then exists x item, denote l !! index = Some x /\ observed_item dv x = Some item /\ leaf_item_at_by l index dv = Ok item
  else leaf_item_at_by l index dv = Panic.

Lemma splits_bytes b index : 0 < bytes_len b -> splits_ok (LBytes b) index.
Proof.
  intros Hw. unfold splits_ok, split_leaf_at. cbn [denote strict_leaf is_empty]. rewrite length_fmap. case_decide as Hd.
  - destruct (bytes_slice_ok b 0 index ltac:(lia) ltac:(apply Hd)) as (b1 & -> & Hb1).
    destruct (bytes_slice_ok b index (bytes_len b) ltac:(apply Hd) ltac:(lia)) as (b2 & H2 & Hb2). cbn [mbind outcome_bind]. rewrite H2.
    cbn [mbind outcome_bind]. exists (from_bytes b1), (from_bytes b2). split; [done|].
    destruct (from_bytes_ok (V:=V) (T:=T) b1) as [W1 D1]. destruct (from_bytes_ok (V:=V) (T:=T) b2) as [W2 D2].
    split; [done|]. split; [done|]. rewrite D1, D2, Hb1, Hb2, drop_0, Nat.sub_0_r, !fmap_take, fmap_drop. split; [done|].
    apply take_ge. unfold bytes_len. rewrite length_drop, length_fmap. lia.
  - rewrite bytes_slice_out; [done|]. destruct (decide (index <= bytes_len b)); [|lia]. destruct Hd. split; [by left|done].
Qed.

Lemma splits_values s index : slice_ok s -> splits_ok (LValues s) index.
Proof.
  intros Hw. pose proof (slice_items_length s (proj1 Hw)) as Hlen. unfold splits_ok, split_leaf_at. cbn [denote strict_leaf is_empty].
  rewrite length_fmap, Hlen. case_decide as Hd.
  - destruct (slice_slice_ok s 0 index (proj1 Hw) ltac:(lia) ltac:(apply Hd)) as (s1 & -> & _ & R1 & Hs1).
    destruct (slice_slice_ok s index (sl_len s) (proj1 Hw) ltac:(apply Hd) ltac:(lia)) as (s2 & H2 & _ & R2 & Hs2).
    cbn [mbind outcome_bind]. rewrite H2. cbn [mbind outcome_bind]. exists (from_value_slice s1), (from_value_slice s2). split; [done|].
    destruct (from_value_slice_ok (T:=T) s1 R1) as [W1 D1]. destruct (from_value_slice_ok (T:=T) s2 R2) as [W2 D2].
    split; [done|]. split; [done|]. rewrite D1, D2, Hs1, Hs2, drop_0, Nat.sub_0_r, !fmap_take, fmap_drop. split; [done|].
    apply take_ge. rewrite length_drop, length_fmap. lia.
  - rewrite slice_slice_out; [done|]. destruct (decide (index <= sl_len s)); [|lia]. destruct Hd. split; [by left|done].
Qed.

Lemma splits_finger f index : finger_ok f -> ft_iter f <> [] -> splits_ok (LFinger f) index.
Proof.
  intros Hf Hne. pose proof (finger_refs_length f Hf) as Hlen. pose proof (split_finger_at_spec f index Hf) as HS.
  unfold splits_ok, split_leaf_at. cbn [denote strict_leaf is_empty]. fold (finger_refs f). rewrite Hlen.
  destruct (decide ((true = true \/ false = true) /\ index <= ft_measure f)) as [Hd|Hd].
  - destruct Hd as [_ Hd]. rewrite decide_True in HS by done. destruct HS as (a & b & -> & Ha & Hb & Ra & Rb). cbn [mbind outcome_bind].
    destruct (from_finger_ok (T:=T) a Ha) as [W1 D1]. destruct (from_finger_ok (T:=T) b Hb) as [W2 D2].
    exists (from_finger a), (from_finger b). split; [done|]. split; [done|]. split; [done|]. by rewrite D1, D2, <- Ra, <- Rb.
  - rewrite decide_False in HS; [by rewrite HS|]. intros Hle. apply Hd. split; [by left|done].
Qed.

Lemma item_slice {U A} (dv : V -> U) l (v : list A) (g : A -> LogicalListItemRef V T) (h : A -> ListItem U) index :
  strict_leaf l = true -> denote l = g <$> v -> (forall a, observed_item dv (g a) = Some (h a)) ->
  leaf_item_at_by l index dv = (x ← vec_get v index; Ok (h x)) -> item_ok dv l index.
Proof.
  intros Hst Hd Hg Hl. unfold item_ok. rewrite Hst, Hl, Hd, length_fmap. unfold vec_get. case_decide as Hi.
  - destruct (lookup_lt_is_Some_2 v index ltac:(apply Hi)) as [x Hx]. exists (g x), (h x). rewrite list_lookup_fmap, Hx. done.
  - rewrite lookup_ge_None_2; [done|]. destruct (decide (index < length v)); [|lia]. by destruct Hi.
Qed.

Lemma item_finger {U} (dv : V -> U) f index : finger_ok f -> item_ok dv (LFinger f) index.
Proof.
  intros Hf. pose proof (finger_refs_length f Hf) as Hlen. pose proof (split_finger_at_spec f index Hf) as HS.
  unfold item_ok, leaf_item_at_by. cbn [denote strict_leaf]. fold (finger_refs f). rewrite Hlen.
  destruct (decide (true = true /\ index < ft_measure f)) as [Hd|Hd].
  - destruct Hd as [_ Hd]. rewrite decide_True in HS by lia. destruct HS as (a & b & -> & Ha & Hb & Ra & Rb). cbn [mbind outcome_bind].
    pose proof (ft_iter_view_left _ _ b) as HV. unfold finger_refs at 1 in Rb. destruct (ft_view_left b) as [[c rest]|].
    + rewrite HV in Rb. destruct Hb as [Hc _]. rewrite HV in Hc. apply list.Forall_cons in Hc as [Hc _]. cbn [expect mbind outcome_bind].
      pose proof (chunk_refs_nonempty (T:=T) c Hc) as Hnn. rewrite (item_at_spec (T:=T) c 0 dv Hc).
      destruct (chunk_refs (T:=T) c) as [|x xs] eqn:E; [done|]. destruct (chunk_observed (T:=T) c dv x) as [item Hit]; [rewrite E; left|].
      exists x, item. cbn [mbind option_bind lookup list_lookup]. rewrite Hit. split; [|done].
      cbn [mbind list_bind] in Rb. rewrite E in Rb. rewrite <- (Nat.add_0_r index), <- lookup_drop, <- Rb. done.
    + rewrite HV in Rb. assert (Hl0 : length (drop index (finger_refs f)) = 0) by (by rewrite <- Rb). rewrite length_drop in Hl0. lia.
  - destruct (decide (index <= ft_measure f)) as [Hle|Hle]; [|by rewrite HS].
    assert (index = ft_measure f) as -> by (destruct (decide (index < ft_measure f)); [by destruct Hd|lia]).
    destruct HS as (a & b & -> & Ha & Hb & Ra & Rb). cbn [mbind outcome_bind]. rewrite drop_ge in Rb by lia.
    pose proof (ft_iter_view_left _ _ b) as HV. destruct (ft_view_left b) as [[c rest]|]; [|done].
    unfold finger_refs in Rb. rewrite HV in Rb. destruct Hb as [Hc _]. rewrite HV in Hc. apply list.Forall_cons in Hc as [Hc _].
    cbn [mbind list_bind] in Rb. apply app_nil in Rb as [Rb _]. by apply (chunk_refs_nonempty (T:=T) c Hc) in Rb.
Qed.

(** A strict leaf is cut in place: at any index up to its length both
    parts are canonical and stand for the two parts of the sequence, and an
    item is found at every index below the length; out of range, or on a list
    that is not a leaf, the operations panic. *)
Theorem leaf_cut_correct {U} l index (dv : V -> U) : list_wf l -> splits_ok l index /\ item_ok dv l index.
Proof.
  intros Hw. destruct l as [|b|s|l1 l2|f|t]; cbn [list_wf] in Hw.
  - split; [|done]. unfold splits_ok, split_leaf_at. cbn [denote strict_leaf is_empty length]. case_decide as Hd.
    + destruct Hd as [_ Hd]. rewrite bool_decide_true by lia. exists LEmpty, LEmpty. cbn. by rewrite take_nil, drop_nil.
    + rewrite bool_decide_false; [done|]. intros ->. apply Hd. split; [by right|lia].
  - split; [by apply splits_bytes|]. by eapply (item_slice dv _ (bytes_list b) RfByte IByte).
  - split; [by apply splits_values|]. eapply (item_slice dv _ (slice_items s) RfValue (fun v => IValue (dv v))); try done.
    unfold leaf_item_at_by. by rewrite (as_slice_ok s) by apply Hw.
  - split; [|done]. unfold splits_ok. rewrite decide_False; [done|]. by intros [[?|?] _].
  - destruct Hw as [Hf Hne]. split; [by apply splits_finger|by apply item_finger].
  - split; [|done]. unfold splits_ok. rewrite decide_False; [done|]. by intros [[?|?] _].
Qed.

End cutting.
