(* ===== verification/GlamListJoin.v ===== *)
(** * Persistent lists: joining, mapping and comparing

    Rejoining strict pieces into runs, transforming one node, balanced
    concatenation, the traversals, and the two equalities of lists, against
    the sequence of items a list stands for. *)
From stdpp Require Import base option list numbers tactics.
From Stdlib Require Import ZArith Lia.
From S2P Require Import Prelude GlamList GlamListFacts.

(** ** Joining strict pieces *)
Section joining.
Context {BO : BytesOps} {BL : BytesLaws} {FO : FingerOps} {FL : FingerLaws} {V T : Type}.
Implicit Types (l piece : GList V T) (c : ListChunk V) (f rope : FingerList V) (dv : V -> V).

(** A short value slice is copied into a run, its values duplicated; any other
    piece is shared. *)
Definition moved dv piece : list (LogicalListItemRef V T) :=
  match piece with
  | LValues s => if bool_decide (sl_len s < ROPE_RUN_ITEMS) then RfValue <$> (dv <$> slice_items s) else denote piece
  | _ => denote piece
  end.

Lemma moved_length dv piece : length (moved dv piece) = length (denote piece).
Proof. destruct piece; cbn; [done..| |done|done|done]. case_bool_decide; by rewrite !length_fmap. Qed.

Lemma moved_total dv (pieces : list (GList V T)) : length (pieces ≫= moved dv) = length (pieces ≫= denote).
Proof. induction pieces as [|p ps IH]; [done|]. cbn [mbind list_bind]. rewrite !length_app, moved_length. f_equal. exact IH. Qed.

Lemma push_refs rope c : finger_refs (T:=T) (ft_push_right rope c) = finger_refs rope ++ chunk_refs c.
Proof. unfold finger_refs. rewrite ft_iter_push_right, bind_app. by rewrite bind_one. Qed.

Lemma flush_byte_ok rope run : Forall chunk_ok (ft_iter rope) ->
  Forall chunk_ok (ft_iter (flush_byte_run rope run)) /\ finger_refs (T:=T) (flush_byte_run rope run) = finger_refs rope ++ (RfByte <$> run).
Proof.
  intros Hr. unfold flush_byte_run. destruct run as [|x run]; [by rewrite app_nil_r|].
  rewrite push_refs, ft_iter_push_right. cbn [chunk_refs]. rewrite bytes_list_from. split; [|done].
  apply Forall_app_2; [done|]. apply Forall_singleton. cbn [chunk_ok]. unfold bytes_len. rewrite bytes_list_from. cbn. lia.
Qed.

Lemma flush_value_ok rope run : Forall chunk_ok (ft_iter rope) ->
  Forall chunk_ok (ft_iter (flush_value_run rope run)) /\ finger_refs (T:=T) (flush_value_run rope run) = finger_refs rope ++ (RfValue <$> run).
Proof.
  intros Hr. destruct (from_vec_ok run) as [Hi Hl]. unfold flush_value_run. destruct run as [|x run]; [by rewrite app_nil_r|].
  rewrite push_refs, ft_iter_push_right. cbn [chunk_refs]. rewrite Hi. split; [|done].
  apply Forall_app_2; [done|]. apply Forall_singleton. split; [done|cbn; lia].
Qed.

(** The state of the loop: the rope, and at most one open run. *)
Definition run_refs (acc : FingerList V * list Z * list V) : list (LogicalListItemRef V T) :=
  finger_refs acc.1.1 ++ (RfByte <$> acc.1.2) ++ (RfValue <$> acc.2).

Definition acc_ok (acc : FingerList V * list Z * list V) : Prop :=
  Forall chunk_ok (ft_iter acc.1.1) /\ (acc.1.2 = [] \/ acc.2 = []).

Lemma flush_both rope bs vs : acc_ok (rope, bs, vs) ->
  Forall chunk_ok (ft_iter (flush_value_run (flush_byte_run rope bs) vs)) /\
  finger_refs (flush_value_run (flush_byte_run rope bs) vs) = run_refs (rope, bs, vs).
Proof.
  intros [Hr _]. destruct (flush_byte_ok rope bs Hr) as [H1 R1]. destruct (flush_value_ok _ vs H1) as [H2 R2].
  split; [done|]. unfold run_refs. cbn. by rewrite R2, R1, <- app_assoc.
Qed.

Lemma closed_runs rope more : Forall chunk_ok (ft_iter rope) -> acc_ok (rope, [], []) /\
  (finger_refs rope = more -> run_refs (rope, [], []) = more).
Proof. intros Hr. split; [split; [done|by left]|]. intros <-. unfold run_refs. cbn. by rewrite !app_nil_r. Qed.

Lemma join_piece_ok dv acc piece : acc_ok acc -> list_wf piece -> strict_leaf piece = true ->
  exists acc', join_piece dv acc piece = Ok acc' /\ acc_ok acc' /\ run_refs acc' = run_refs acc ++ moved dv piece.
Proof.
  destruct acc as [[rope bs] vs]. intros Ha Hw Hst. destruct (flush_both rope bs vs Ha) as [Hf Rf].
  assert (Hclose : forall rope' more, Forall chunk_ok (ft_iter rope') -> finger_refs rope' = run_refs (rope, bs, vs) ++ more ->
    exists acc', Ok (E:=Empty_set) (rope', [], []) = Ok acc' /\ acc_ok acc' /\ run_refs acc' = run_refs (rope, bs, vs) ++ more).
  { intros rope' more Hr Hm. destruct (closed_runs rope' (run_refs (rope, bs, vs) ++ more) Hr) as [H1 H2]. eexists. split; [done|]. split; [done|]. by apply H2. }
  assert (Hpush : forall c more, chunk_ok c -> chunk_refs c = more -> exists acc',
    Ok (E:=Empty_set) (ft_push_right (flush_value_run (flush_byte_run rope bs) vs) c, [], []) = Ok acc' /\ acc_ok acc' /\
    run_refs acc' = run_refs (rope, bs, vs) ++ more).
  { intros c more Hc <-. apply Hclose; [|by rewrite push_refs, Rf]. rewrite ft_iter_push_right. apply Forall_app_2; [done|by apply Forall_singleton]. }
  destruct Ha as [Hr Hrun]. cbn in Hr, Hrun. destruct piece as [|b|s| |f|]; try done; cbn [join_piece moved].
  - case_bool_decide; [|by apply Hpush]. destruct (flush_value_ok rope vs Hr) as [H1 R1].
    assert (Hrr : finger_refs (flush_value_run rope vs) ++ (RfByte <$> (bs ++ bytes_list b)) = run_refs (rope, bs, vs) ++ denote (LBytes b)).
    { unfold run_refs. cbn. rewrite R1, fmap_app. destruct Hrun as [-> | ->]; cbn; by rewrite ?app_nil_r, <- !app_assoc. }
    case_bool_decide.
    + destruct (flush_byte_ok _ (bs ++ bytes_list b) H1) as [H2 R2]. apply Hclose; [done|]. by rewrite R2.
    + eexists. split; [done|]. split; [split; [done|by right]|]. rewrite <- Hrr. unfold run_refs at 1. cbn. by rewrite app_nil_r.
  - case_bool_decide; [|by apply Hpush]. destruct (flush_byte_ok rope bs Hr) as [H1 R1]. rewrite (as_slice_ok s (proj1 Hw)). cbn [mbind outcome_bind].
    assert (Hrr : finger_refs (flush_byte_run rope bs) ++ (RfValue <$> (vs ++ (dv <$> slice_items s))) =
      run_refs (rope, bs, vs) ++ (RfValue <$> (dv <$> slice_items s))).
    { unfold run_refs. cbn. by rewrite R1, fmap_app, <- !app_assoc. }
    case_bool_decide.
    + destruct (flush_value_ok _ (vs ++ (dv <$> slice_items s)) H1) as [H2 R2]. apply Hclose; [done|]. by rewrite R2.
    + eexists. split; [done|]. split; [split; [done|by left]|]. by rewrite <- Hrr.
  - destruct Hw as [[Hc _] _]. apply Hclose; [rewrite ft_iter_concat; by apply Forall_app_2|].
    unfold finger_refs at 1. rewrite ft_iter_concat, bind_app. by rewrite <- Rf.
Qed.

Lemma join_pieces_loop dv (pieces : list (GList V T)) : forall acc, acc_ok acc -> Forall list_wf pieces ->
  if decide (Forall (fun piece => strict_leaf piece = true) pieces)
  then exists acc', foldM (join_piece dv) acc pieces = Ok acc' /\ acc_ok acc' /\ run_refs acc' = run_refs acc ++ (pieces ≫= moved dv)
  else foldM (join_piece dv) acc pieces = Panic.
Proof.
  induction pieces as [|piece pieces IH]; intros acc Ha Hw.
  { rewrite decide_True by constructor. exists acc. split; [done|]. split; [done|]. by rewrite app_nil_r. }
  apply list.Forall_cons in Hw as [Hp Hw]. cbn [foldM]. destruct (strict_leaf piece) eqn:Hst.
  - destruct (join_piece_ok dv acc piece Ha Hp Hst) as (acc1 & -> & Ha1 & R1). cbn [mbind outcome_bind]. specialize (IH acc1 Ha1 Hw).
    destruct (decide (Forall _ pieces)) as [Hd|Hd]; [|by rewrite decide_False; [|rewrite list.Forall_cons; by intros [_ ?]]].
    rewrite decide_True by (by apply list.Forall_cons). destruct IH as (acc2 & -> & Ha2 & R2). exists acc2. split; [done|]. split; [done|]. cbn [mbind list_bind]. by rewrite R2, R1, <- app_assoc.
  - rewrite decide_False; [|rewrite list.Forall_cons; intros [? _]; congruence]. destruct acc as [[? ?] ?]. by destruct piece.
Qed.

(** A rope of one chunk is unwrapped. *)
Lemma unwrap_rope rope : finger_ok rope ->
  let r := match ft_view_left rope with
           | Some (ChBytes b, rest) => if ft_is_empty rest then from_bytes b else from_finger rope
           | Some (ChValues s, rest) => if ft_is_empty rest then from_value_slice s else from_finger rope
           | None => from_finger rope
           end in
  list_wf (T:=T) r /\ denote r = finger_refs rope.
Proof.
  intros Hf. pose proof (from_finger_ok (T:=T) rope Hf) as Hdef. pose proof (ft_iter_view_left _ _ rope) as HV.
  destruct (ft_view_left rope) as [[c rest]|]; [|exact Hdef].
  assert (Hone : ft_is_empty rest = true -> finger_refs (T:=T) rope = chunk_refs c).
  { intros He%ft_is_empty_iter. unfold finger_refs. by rewrite HV, He, bind_one. }
  destruct Hf as [Hc _]. rewrite HV in Hc. apply list.Forall_cons in Hc as [Hc _].
  destruct c as [b|s]; (destruct (ft_is_empty rest); [|exact Hdef]); rewrite Hone by done.
  - apply from_bytes_ok.
  - apply from_value_slice_ok, Hc.
Qed.

Definition kept (pieces : list (GList V T)) : list (GList V T) := base.filter (fun piece => is_empty piece = false) pieces.

Lemma kept_denote (pieces : list (GList V T)) : kept pieces ≫= denote = pieces ≫= denote.
Proof.
  induction pieces as [|p ps IH]; [done|]. unfold kept. rewrite filter_cons. case_decide as Hd; cbn [mbind list_bind].
  - f_equal. exact IH.
  - destruct p; try (by destruct Hd). exact IH.
Qed.

(** What joining gives, by how many pieces are not empty. *)
Definition joined_ok dv (pieces : list (GList V T)) (result : M (GList V T)) : Prop :=
  match kept pieces with
  | [] => result = Ok LEmpty
  | [piece] => result = Ok piece
  | several =>
      if decide (Forall (fun piece => strict_leaf piece = true) several)
      then exists r, result = Ok r /\ list_wf r /\ (is_empty r || strict_leaf r) /\ denote r = several ≫= moved dv
      else result = Panic
  end.

(** Joining pieces drops the empty ones, returns a single one as it is,
    and otherwise builds one strict leaf that stands for the concatenation,
    short value slices moved into runs with their values duplicated. The order
    of items survives the switches between byte and value runs. Only a piece
    that is a concatenation or a hole panics. *)
Theorem join_strict_pieces_correct dv (pieces : list (GList V T)) :
  Forall list_wf pieces -> (Z.of_nat (length (pieces ≫= denote)) <= usize_max)%Z ->
  joined_ok dv pieces (join_strict_pieces pieces dv).
Proof.
  intros Hw Hfit. unfold joined_ok, join_strict_pieces. fold (kept pieces).
  rewrite <- kept_denote in Hfit. assert (Hkw : Forall list_wf (kept pieces)).
  { apply list.Forall_forall. intros x [_ Hx]%list_elem_of_filter. by eapply list.Forall_forall in Hw. }
  destruct (kept pieces) as [|p1 [|p2 ps]]; [done..|]. set (several := p1 :: p2 :: ps) in *. clearbody several.
  assert (H0 : acc_ok (ft_new, [], [])) by (split; [cbn; rewrite ft_iter_new; constructor|by left]).
  pose proof (join_pieces_loop dv several _ H0 Hkw) as HL. case_decide as Hd; [|by rewrite HL].
  destruct HL as ([[rope bs] vs] & -> & Ha & HR). cbn [mbind outcome_bind].
  destruct (flush_both rope bs vs Ha) as [Hc Hrefs]. set (final := flush_value_run _ vs) in *. clearbody final.
  rewrite HR in Hrefs. unfold run_refs in Hrefs. cbn in Hrefs. rewrite (proj2 finger_new_ok) in Hrefs. cbn [app] in Hrefs.
  assert (Hf : finger_ok final).
  { split; [done|]. rewrite <- (total_refs (T:=T) _ Hc). fold (finger_refs (T:=T) final). by rewrite Hrefs, moved_total. }
  destruct (unwrap_rope final Hf) as [W D]. eexists. split; [done|]. split; [done|]. split; [|by rewrite <- Hrefs].
  destruct (ft_view_left final) as [[[b|s] rest]|]; unfold from_finger, from_bytes, from_value_slice;
    repeat (case_match || case_bool_decide); done.
Qed.

End joining.

(** ** Balanced concatenation *)
Section balancing.
Context {BO : BytesOps} {BL : BytesLaws} {FO : FingerOps} {FL : FingerLaws} {V T : Type}.
Implicit Types (l : GList V T) (ls : list (GList V T)).

(** The depth of the concatenations of a list. *)
Fixpoint depth l : nat := match l with LConcat lhs rhs => 1 + max (depth lhs) (depth rhs) | _ => 0 end.

Lemma concat_depth l1 l2 d : depth l1 <= d -> depth l2 <= d -> depth (concat l1 l2) <= d + 1.
Proof. intros H1 H2. unfold concat. destruct (is_empty l1); [lia|]. destruct (is_empty l2); [lia|]. cbn. lia. Qed.

Definition all_ok d ls : Prop := Forall (fun l => list_wf l /\ depth l <= d) ls.

Lemma pair_up_ok d ls : all_ok d ls ->
  all_ok (d + 1) (pair_up ls) /\ pair_up ls ≫= denote = ls ≫= denote /\ length (pair_up ls) = (length ls + 1) / 2.
Proof.
  revert ls. fix IH 1. intros [|l1 [|l2 ls]] Hls.
  - by repeat constructor.
  - cbn. split; [|done]. apply Forall_one in Hls as [? ?]. repeat constructor; [done|lia].
  - apply list.Forall_cons in Hls as [[W1 D1] Hls]. apply list.Forall_cons in Hls as [[W2 D2] Hls].
    destruct (IH ls Hls) as (H1 & H2 & H3). destruct (concat_ok l1 l2 W1 W2) as [W D]. cbn [pair_up]. split.
    + constructor; [split; [done|by apply concat_depth]|done].
    + cbn [mbind list_bind length]. rewrite D. split; [|rewrite H3; replace (S (S (length ls)) + 1) with (length ls + 1 + 1 * 2) by lia; rewrite Nat.div_add by lia; lia].
      rewrite <- app_assoc. do 2 f_equal. exact H2.
Qed.

Lemma concat_rounds_ok fuel : forall ls d k, all_ok d ls -> ls <> [] -> length ls <= S fuel -> length ls <= 2 ^ k ->
  exists r, concat_rounds fuel ls = Ok r /\ list_wf r /\ denote r = ls ≫= denote /\ depth r <= d + k.
Proof.
  induction fuel as [|fuel IH]; intros [|l1 [|l2 ls]] d k Hls Hne Hf Hk; try done; try (cbn in Hf; lia);
    try (apply Forall_one in Hls as [W D]; exists l1; rewrite bind_one; repeat split; [done|lia]).
  destruct (pair_up_ok d _ Hls) as (H1 & H2 & H3). destruct k as [|k]; [cbn in Hk; lia|].
  destruct (IH (pair_up (l1 :: l2 :: ls)) (d + 1) k H1) as (r & Hr & W & D & Hd).
  - done.
  - rewrite H3. apply Nat.lt_succ_r. apply Nat.Div0.div_lt_upper_bound. cbn in *. lia.
  - rewrite H3. apply Nat.lt_succ_r. apply Nat.Div0.div_lt_upper_bound. cbn [Nat.pow] in Hk. lia.
  - exists r. split; [exact Hr|]. split; [done|]. split; [by rewrite D, H2|lia].
Qed.

Lemma concat_balanced_ok ls d : all_ok d ls ->
  exists r, concat_balanced ls = Ok r /\ list_wf r /\ denote r = ls ≫= denote /\ depth r <= d + Nat.log2_up (length ls).
Proof.
  intros Hls. destruct ls as [|l ls]; [exists LEmpty; repeat split; cbn; lia|]. unfold concat_balanced. apply concat_rounds_ok; [done..|lia|].
  apply Nat.log2_log2_up_spec. cbn. lia.
Qed.

End balancing.

(** ** Transforming one node *)
Section mapping.
Context {BO : BytesOps} {BL : BytesLaws} {FO : FingerOps} {FL : FingerLaws} {V T U T' : Type}.
Implicit Types (l : GList V T).

Section map.
Variables (mb : Z -> U) (mv : V -> U) (dl : GList V T -> T') (dt : T -> T').

Definition map_ref (x : LogicalListItemRef V T) : LogicalListItemRef U T' :=
  match x with RfByte b => RfValue (mb b) | RfValue v => RfValue (mv v) | RfThunk t => RfThunk (dt t) end.

(** One node: a concatenation defers its sides, anything else is mapped. *)
Definition mapped_items l : list (LogicalListItemRef U T') :=
  match l with LConcat lhs rhs => [RfThunk (dl lhs); RfThunk (dl rhs)] | _ => map_ref <$> denote l end.

Definition leaf_chunks {A B} (l : GList A B) : list nat :=
  match l with
  | LBytes b => [bytes_len b]
  | LValues s => [sl_len s]
  | LFinger f => fmap (M:=list) chunk_len (ft_iter f)
  | _ => []
  end.

Lemma map_chunk_ok c : chunk_ok c -> exists values, map_chunk mb mv c = Ok values /\ length values = chunk_len c /\
  fmap (M:=list) RfValue values = map_ref <$> chunk_refs c.
Proof.
  destruct c as [b|s]; cbn [map_chunk chunk_ok chunk_len chunk_refs]; intros Hc.
  - eexists. split; [done|]. rewrite length_fmap. split; [done|]. by rewrite <- !list_fmap_compose.
  - rewrite (as_slice_ok s (proj1 Hc)). cbn [mbind outcome_bind]. eexists. split; [done|]. rewrite length_fmap.
    split; [apply slice_items_length, Hc|]. by rewrite <- !list_fmap_compose.
Qed.

Definition map_chunks := foldM (fun (mapped : FingerList U) chunk =>
  values ← map_chunk mb mv chunk; Ok (E:=Empty_set) (ft_push_right mapped (ChValues (slice_from_vec values)))).

Lemma map_chunks_ok (cs : list (ListChunk V)) : Forall chunk_ok cs -> forall mapped, Forall chunk_ok (ft_iter mapped) ->
  exists mapped', map_chunks mapped cs = Ok mapped' /\ Forall chunk_ok (ft_iter mapped') /\
    chunk_len <$> ft_iter mapped' = (chunk_len <$> ft_iter mapped) ++ (chunk_len <$> cs) /\
    finger_refs mapped' = finger_refs mapped ++ (map_ref <$> (cs ≫= chunk_refs)).
Proof.
  induction 1 as [|c cs Hc _ IH]; intros mapped Hm; [exists mapped; by rewrite !app_nil_r|].
  destruct (map_chunk_ok c Hc) as (values & Hv & Hl & Hr). destruct (from_vec_ok values) as [Hi Hs].
  destruct (IH (ft_push_right mapped (ChValues (slice_from_vec values)))) as (mapped' & HM & HF & HL & HR).
  { rewrite ft_iter_push_right. apply Forall_app_2; [done|]. apply Forall_singleton. split; [done|]. cbn. rewrite Hl. by apply chunk_len_pos. }
  exists mapped'. unfold map_chunks in *. cbn [foldM]. rewrite Hv. cbn [mbind outcome_bind]. split; [done|]. split; [done|].
  rewrite HL, HR, push_refs, ft_iter_push_right, fmap_app, <- !app_assoc. cbn [chunk_refs mbind list_bind]. rewrite Hi, Hr, fmap_app.
  split; [|done]. f_equal. cbn. by rewrite Hl.
Qed.

Lemma map_root_step_ok l : list_wf l -> exists r, map_root_step l mb mv dl dt = Ok r /\ list_wf r /\
  denote r = mapped_items l /\ leaf_chunks r = leaf_chunks l.
Proof.
  intros Hw. destruct l as [|b|s|l1 l2|f|t]; cbn [map_root_step list_wf mapped_items denote leaf_chunks] in *.
  - by exists LEmpty.
  - eexists. split; [done|]. destruct (from_values_ok (T:=T') (mb <$> bytes_list b)) as [W D]. rewrite D, <- !list_fmap_compose.
    split; [done|]. split; [done|]. unfold bytes_len in *. destruct (bytes_list b); [cbn in Hw; lia|]. cbn. by rewrite length_fmap.
  - rewrite (as_slice_ok s (proj1 Hw)). cbn [mbind outcome_bind]. eexists. split; [done|].
    destruct (from_values_ok (T:=T') (mv <$> slice_items s)) as [W D]. rewrite D, <- !list_fmap_compose. split; [done|]. split; [done|].
    pose proof (slice_items_length s (proj1 Hw)) as Hl. rewrite <- Hl. destruct (slice_items s); [destruct Hw; cbn in Hl; lia|]. cbn. by rewrite length_fmap.
  - by eexists.
  - destruct Hw as [Hf Hne]. destruct (map_chunks_ok (ft_iter f) (fo_chunks _ Hf) ft_new) as (m & HM & HF & HL & HR); [rewrite ft_iter_new; constructor|].
    change (foldM _ ft_new (ft_iter f)) with (map_chunks ft_new (ft_iter f)). rewrite HM. cbn [mbind outcome_bind]. rewrite ft_iter_new in HL. cbn [fmap list_fmap app] in HL.
    rewrite (proj2 finger_new_ok) in HR. cbn [app] in HR.
    assert (Hfm : finger_ok m) by (split; [done|]; unfold total; rewrite HL; apply Hf).
    destruct (from_finger_ok (T:=T') m Hfm) as [W D]. eexists. split; [done|]. split; [done|]. split; [by rewrite D|].
    unfold from_finger. destruct (ft_is_empty m) eqn:E; [|exact HL]. apply ft_is_empty_iter in E. rewrite E in HL. by destruct (ft_iter f).
  - by eexists.
Qed.

End map.

Section flat_map.
Context {E : Type}.
Variables (fb : Z -> outcome E (GList U T')) (fv : V -> outcome E (GList U T')) (dl : GList V T -> T') (dt : T -> T').

(** What the callbacks give for one item. *)
Definition flat_item (x : LogicalListItemRef V T) : outcome E (GList U T') :=
  match x with RfByte b => fb b | RfValue v => fv v | RfThunk t => Ok (LThunk (dt t)) end.

Lemma flat_chunk_ok c : chunk_ok c -> flat_chunk fb fv c = mapM flat_item (chunk_refs c).
Proof.
  destruct c as [b|s]; cbn [flat_chunk chunk_ok chunk_refs]; intros Hc; [by rewrite mapM_fmap|].
  rewrite (as_slice_ok s (proj1 Hc)). cbn [lift mbind outcome_bind]. by rewrite mapM_fmap.
Qed.

Lemma flat_chunks_ok (cs : list (ListChunk V)) : Forall chunk_ok cs -> forall parts,
  foldM (fun parts chunk => more ← flat_chunk fb fv chunk; Ok (parts ++ more)) parts cs =
  (more ← mapM flat_item (cs ≫= chunk_refs); Ok (parts ++ more)).
Proof.
  induction 1 as [|c cs Hc _ IH]; intros parts; [cbn; by rewrite app_nil_r|]. cbn [foldM]. rewrite (flat_chunk_ok c Hc).
  change ((c :: cs) ≫= chunk_refs) with (chunk_refs (T:=T) c ++ (cs ≫= chunk_refs)). rewrite mapM_app.
  destruct (mapM flat_item (chunk_refs c)) as [a|e| |]; [|done..]. cbn [mbind outcome_bind]. rewrite IH.
  destruct (mapM flat_item (cs ≫= chunk_refs)) as [b|e| |]; [|done..]. cbn. by rewrite app_assoc.
Qed.

(** A node other than a concatenation maps its items in order and balances. *)
Lemma flat_map_unfold l : list_wf l -> (forall lhs rhs, l <> LConcat lhs rhs) ->
  flat_map_root_step l fb fv dl dt = (parts ← mapM flat_item (denote l); lift (concat_balanced parts)).
Proof.
  intros Hw Hc. destruct l as [|b|s|l1 l2|f|t]; cbn [flat_map_root_step denote list_wf] in *.
  - done.
  - by rewrite mapM_fmap.
  - rewrite (as_slice_ok s (proj1 Hw)). cbn [lift mbind outcome_bind]. by rewrite mapM_fmap.
  - by destruct (Hc l1 l2).
  - rewrite (flat_chunks_ok _ (fo_chunks _ (proj1 Hw))). by destruct (mapM flat_item _).
  - done.
Qed.

Definition flat_map_result l (result : outcome E (GList U T')) : Prop :=
  match l with
  | LConcat lhs rhs => result = Ok (LConcat (LThunk (dl lhs)) (LThunk (dl rhs)))
  | _ =>
      match mapM flat_item (denote l) with
      | Ok parts => forall d, Forall (fun part => depth part <= d) parts ->
          exists r, result = Ok r /\ list_wf r /\ denote r = parts ≫= denote /\ depth r <= d + Nat.log2_up (length parts)
      | Err e => result = Err e
      | Panic => result = Panic
      | OutOfFuel => result = OutOfFuel
      end
  end.

Lemma flat_map_root_step_ok l :
  list_wf l -> (forall b r, fb b = Ok r -> list_wf r) -> (forall v r, fv v = Ok r -> list_wf r) ->
  flat_map_result l (flat_map_root_step l fb fv dl dt).
Proof.
  intros Hw Hb Hv. assert (Hwf : forall x r, flat_item x = Ok r -> list_wf r).
  { intros [b|v|t] r Hr; [by eapply Hb|by eapply Hv|]. cbn in Hr. by injection Hr as <-. }
  assert (HG : (forall lhs rhs, l <> LConcat lhs rhs) -> match mapM flat_item (denote l) with
      | Ok parts => forall d, Forall (fun part => depth part <= d) parts -> exists r, flat_map_root_step l fb fv dl dt = Ok r /\
          list_wf r /\ denote r = parts ≫= denote /\ depth r <= d + Nat.log2_up (length parts)
      | Err e => flat_map_root_step l fb fv dl dt = Err e
      | Panic => flat_map_root_step l fb fv dl dt = Panic
      | OutOfFuel => flat_map_root_step l fb fv dl dt = OutOfFuel
      end).
  { intros Hc. rewrite (flat_map_unfold l Hw Hc). pose proof (mapM_Ok_all flat_item list_wf (denote l) Hwf) as HA.
    destruct (mapM flat_item (denote l)) as [parts|e| |]; [|done..]. intros d Hd. cbn [mbind outcome_bind].
    destruct (concat_balanced_ok parts d) as (r & -> & HR); [apply list.Forall_and; by split|]. by exists r. }
  destruct l; try (apply HG; intros; discriminate). done.
Qed.

End flat_map.

(** C24. Transforming one node never looks past a concatenation or into a
    hole, which become deferred transformations. A mapped leaf has one value
    per item in the same chunks. A flat-mapped leaf concatenates in order what
    the callback gave for each item, adding at most a logarithm of the number
    of items to the depth; an error of the callback stops at the first item
    that gives one. *)
Theorem root_steps_correct {E} l (mb : Z -> U) (mv : V -> U) (fb : Z -> outcome E (GList U T')) (fv : V -> outcome E (GList U T'))
    (dl : GList V T -> T') (dt : T -> T') :
  list_wf l -> (forall b r, fb b = Ok r -> list_wf r) -> (forall v r, fv v = Ok r -> list_wf r) ->
  (exists r, map_root_step l mb mv dl dt = Ok r /\ list_wf r /\ denote r = mapped_items mb mv dl dt l /\ leaf_chunks r = leaf_chunks l) /\
  flat_map_result fb fv dl dt l (flat_map_root_step l fb fv dl dt).
Proof. intros Hw Hb Hv. split; [by apply map_root_step_ok|by apply flat_map_root_step_ok]. Qed.

End mapping.

(** ** Traversals *)
Section traversing.
Context {BO : BytesOps} {BL : BytesLaws} {FO : FingerOps} {FL : FingerLaws} {V T : Type}.
Implicit Types (l : GList V T) (p : LogicalListPart V T) (ps : list (LogicalListPart V T)).

Definition parts_ok ps : Prop := Forall (fun p => part_items p <> []) ps.

Lemma chunk_part_ok (c : ListChunk V) : chunk_ok c -> exists p, chunk_part (T:=T) c = Ok p /\ part_items p = chunk_refs c.
Proof.
  destruct c as [b|s]; cbn; intros Hc; [by eexists|]. rewrite (as_slice_ok s (proj1 Hc)). by eexists.
Qed.

Lemma chunk_parts_ok (cs : list (ListChunk V)) : Forall chunk_ok cs ->
  exists ps, mapM (chunk_part (T:=T)) cs = Ok ps /\ ps ≫= part_items = cs ≫= chunk_refs /\ parts_ok ps.
Proof.
  intros Hcs. destruct (mapM_total (chunk_part (T:=T)) (fun c p => chunk_ok c /\ part_items p = chunk_refs c) cs) as (ps & Hps & HF).
  { intros c Hc. eapply list.Forall_forall in Hcs; [|done]. destruct (chunk_part_ok c Hcs) as (p & ? & ?). by exists p. }
  exists ps. split; [done|]. clear Hps Hcs. induction HF as [|c p cs ps [Hc Hp] _ [IH1 IH2]]; [by split; [|constructor]|].
  split; [|constructor; [rewrite Hp; by apply chunk_refs_nonempty|done]]. cbn [mbind list_bind]. rewrite Hp. f_equal. exact IH1.
Qed.

(** The parts of one node, its concatenation aside. *)
Definition own_items l : list (LogicalListItemRef V T) := match l with LConcat _ _ => [] | _ => denote l end.

Lemma node_parts_ok l : list_wf l -> exists ps, node_parts l = Ok ps /\ ps ≫= part_items = own_items l /\ parts_ok ps.
Proof.
  intros Hw. destruct l as [|b|s|l1 l2|f|t]; cbn [node_parts list_wf own_items denote] in *.
  - exists []. by repeat constructor.
  - eexists. split; [done|]. rewrite bind_one. split; [done|]. constructor; [|constructor]. cbn. intros He%fmap_nil_inv. unfold bytes_len in Hw. rewrite He in Hw. cbn in Hw. lia.
  - rewrite (as_slice_ok s (proj1 Hw)). cbn [mbind outcome_bind]. eexists. split; [done|]. rewrite bind_one. split; [done|]. constructor; [|constructor].
    apply (chunk_refs_nonempty (T:=T) (ChValues s) Hw).
  - exists []. by repeat constructor.
  - by apply chunk_parts_ok, Hw.
  - eexists. split; [done|]. split; [done|]. by repeat constructor.
Qed.

(** A worklist after the node on its top. *)
Definition next_work l (ls : list (GList V T)) : list (GList V T) :=
  match l with LConcat lhs rhs => lhs :: rhs :: ls | _ => ls end.

Lemma next_work_ok l ls : Forall list_wf (l :: ls) -> Forall list_wf (next_work l ls) /\
  stack_nodes (l :: ls) = S (stack_nodes (next_work l ls)) /\
  (l :: ls) ≫= denote = own_items l ++ (next_work l ls ≫= denote).
Proof.
  intros [Hl Hls]%list.Forall_cons. destruct l; cbn [next_work own_items]; (split; [|split]); try done.
  - destruct Hl as [[? _] [? _]]. by repeat constructor.
  - unfold stack_nodes. cbn. lia.
  - cbn [mbind list_bind denote app]. by rewrite <- app_assoc.
Qed.

Lemma parts_loop_ok fuel : forall ls, Forall list_wf ls -> stack_nodes ls <= fuel ->
  exists ps, parts_loop fuel ls = Ok ps /\ ps ≫= part_items = ls ≫= denote /\ parts_ok ps.
Proof.
  induction fuel as [|fuel IH]; intros [|l ls] Hls Hf; try (by exists []; repeat constructor).
  - unfold stack_nodes in Hf. cbn in Hf. pose proof (nodes_pos l). lia.
  - destruct (next_work_ok l ls Hls) as (Hn & Hs & Hd). destruct (IH (next_work l ls) Hn ltac:(lia)) as (rest & Hr & Hri & Hrk).
    apply list.Forall_cons in Hls as [Hl _]. destruct (node_parts_ok l Hl) as (ps & Hp & Hpi & Hpk).
    assert (HQ : (ps ++ rest) ≫= part_items = (l :: ls) ≫= denote) by (by rewrite bind_app, Hpi, Hri, Hd).
    exists (ps ++ rest). cbn [parts_loop]. rewrite Hp. cbn [mbind outcome_bind]. fold (next_work l ls). rewrite Hr. cbn [mbind outcome_bind].
    split; [done|]. split; [exact HQ|by apply Forall_app_2].
Qed.

Lemma cursor_parts_ok l : list_wf l -> exists ps, logical_cursor_parts l = Ok ps /\ ps ≫= part_items = denote l /\ parts_ok ps.
Proof.
  intros Hw. destruct (parts_loop_ok (nodes l) [l]) as (ps & H1 & H2 & H3); [by repeat constructor|unfold stack_nodes; cbn; lia|].
  exists ps. by rewrite bind_one in H2.
Qed.

End traversing.

(** ** Visiting with counters *)
Section visiting.
Context {V T : Type}.
Implicit Types (xs : list (LogicalListItemRef V T)).

Definition value_count xs : nat := total (fun x => match x with RfValue _ => 1 | _ => 0 end) xs.
Definition thunk_count xs : nat := total (fun x => match x with RfThunk _ => 1 | _ => 0 end) xs.

(** What visiting some nodes adds to the counters: the nodes, one segment per
    part, and the items by kind. *)
Definition counted (stats stats' : LogicalListVisitStats) (visited : nat) (ps : list (LogicalListPart V T)) : Prop :=
  node_visits stats' = node_visits stats + visited /\
  byte_segments stats' + shared_value_slices stats' + thunk_items stats' =
    byte_segments stats + shared_value_slices stats + thunk_items stats + length ps /\
  value_items stats' = value_items stats + value_count (ps ≫= part_items) /\
  thunk_items stats' = thunk_items stats + thunk_count (ps ≫= part_items).

Lemma counts_app xs ys : value_count (xs ++ ys) = value_count xs + value_count ys /\ thunk_count (xs ++ ys) = thunk_count xs + thunk_count ys.
Proof. split; apply total_app. Qed.

Lemma counts_values (v : list V) : value_count (RfValue <$> v) = length v /\ thunk_count (RfValue <$> v) = 0.
Proof. split; induction v as [|a v IH]; [done| |done|exact IH]. unfold value_count in *. cbn [fmap list_fmap length]. by rewrite total_cons, IH. Qed.

Lemma counts_bytes (b : list Z) : value_count (RfByte <$> b) = 0 /\ thunk_count (RfByte <$> b) = 0.
Proof. split; induction b as [|a b IH]; [done|exact IH|done|exact IH]. Qed.

Lemma counted_app s1 s2 s3 n m ps qs : counted s1 s2 n ps -> counted s2 s3 m qs -> counted s1 s3 (n + m) (ps ++ qs).
Proof.
  intros (A1 & A2 & A3 & A4) (B1 & B2 & B3 & B4). unfold counted. rewrite bind_app, length_app.
  destruct (counts_app (ps ≫= part_items) (qs ≫= part_items)) as [-> ->]. repeat split; lia.
Qed.

Context {BO : BytesOps} {BL : BytesLaws} {FO : FingerOps} {FL : FingerLaws} {X : Type}.
Variable visit : X -> LogicalListPart V T -> X.

Lemma visit_chunk_ok (c : ListChunk V) stats x : chunk_ok c -> exists p stats', chunk_part (T:=T) c = Ok p /\
  visit_chunk visit (stats, x) c = Ok (stats', visit x p) /\ counted stats stats' 0 [p].
Proof.
  intros Hc. destruct stats as [n k b s v t], c as [bytes|values]; cbn [visit_chunk chunk_part].
  - do 2 eexists. split; [done|]. split; [done|]. unfold counted. rewrite bind_one. cbn [part_items]. destruct (counts_bytes (bytes_list bytes)) as [-> ->]. cbn. lia.
  - rewrite (as_slice_ok values (proj1 Hc)). cbn [mbind outcome_bind]. do 2 eexists. split; [done|]. split; [done|]. unfold counted. rewrite bind_one.
    cbn [part_items]. destruct (counts_values (slice_items values)) as [-> ->]. rewrite (slice_items_length values (proj1 Hc)). cbn. lia.
Qed.

Lemma visit_chunks_ok (cs : list (ListChunk V)) : Forall chunk_ok cs -> forall stats x, exists ps stats', mapM (chunk_part (T:=T)) cs = Ok ps /\
  foldM (visit_chunk visit) (stats, x) cs = Ok (stats', foldl visit x ps) /\ counted stats stats' 0 ps.
Proof.
  induction 1 as [|c cs Hc _ IH]; intros stats x; [exists [], stats; repeat split; cbn; lia|].
  destruct (visit_chunk_ok c stats x Hc) as (p & s1 & H1 & H2 & H3). destruct (IH s1 (visit x p)) as (ps & s2 & I1 & I2 & I3).
  exists (p :: ps), s2. split; [cbn; rewrite H1; cbn; by rewrite I1|]. cbn [foldM]. rewrite H2. split; [exact I2|]. apply (counted_app _ _ _ 0 0 [p] ps H3 I3).
Qed.

Lemma visit_node_ok l stats x : list_wf l -> exists ps stats', node_parts l = Ok ps /\
  visit_node visit (stats, x) l = Ok (stats', foldl visit x ps) /\ counted stats stats' 1 ps.
Proof.
  intros Hw. destruct stats as [n k b s v t].
  assert (Hstep : forall c, chunk_ok c -> counted (MkStats n k b s v t) (count_chunk (MkStats (n + 1) k b s v t) c) 1
    [match c with ChBytes bytes => PtBytes (bytes_list bytes) | ChValues values => PtValues (slice_items values) end]).
  { intros [bytes|values] Hc; unfold counted; rewrite bind_one; cbn [part_items].
    - destruct (counts_bytes (bytes_list bytes)) as [-> ->]. cbn. lia.
    - destruct (counts_values (slice_items values)) as [-> ->]. rewrite (slice_items_length values (proj1 Hc)). cbn. lia. }
  destruct l as [|bytes|values|l1 l2|f|th]; cbn [visit_node node_parts list_wf] in *.
  - exists []. eexists. split; [done|]. split; [done|]. repeat split; cbn; lia.
  - do 2 eexists. split; [done|]. split; [done|]. apply (Hstep (ChBytes bytes) Hw).
  - rewrite (as_slice_ok values (proj1 Hw)). do 2 eexists. split; [done|]. split; [done|]. apply (Hstep (ChValues values) Hw).
  - exists []. eexists. split; [done|]. split; [done|]. repeat split; cbn; lia.
  - destruct (visit_chunks_ok (ft_iter f) (fo_chunks _ (proj1 Hw)) (MkStats (n + 1) k b s v t) x) as (ps & s' & H1 & H2 & H3).
    exists ps, s'. split; [done|]. split; [done|]. destruct H3 as (A & B & C & D). cbn in *. repeat split; cbn; lia.
  - do 2 eexists. split; [done|]. split; [done|]. repeat split; cbn; lia.
Qed.

Lemma visit_loop_ok fuel : forall ls stats x, Forall list_wf ls -> stack_nodes ls <= fuel ->
  exists ps stats', parts_loop fuel ls = Ok ps /\ visit_loop visit fuel (stats, x) ls = Ok (stats', foldl visit x ps) /\
    counted stats stats' (stack_nodes ls) ps.
Proof.
  induction fuel as [|fuel IH]; intros [|l ls] stats x Hls Hf; try (exists [], stats; repeat split; cbn; lia).
  - unfold stack_nodes in Hf. cbn in Hf. pose proof (nodes_pos l). lia.
  - destruct (next_work_ok l ls Hls) as (Hn & Hs & _). apply list.Forall_cons in Hls as [Hl _].
    destruct (visit_node_ok l stats x Hl) as (ps & s1 & H1 & H2 & H3).
    destruct (IH (next_work l ls) s1 (foldl visit x ps) Hn ltac:(lia)) as (rest & s2 & I1 & I2 & I3).
    exists (ps ++ rest), s2. cbn [parts_loop visit_loop]. rewrite H1, H2. cbn [mbind outcome_bind]. fold (next_work l ls). rewrite I1, I2.
    split; [done|]. split; [by rewrite foldl_app|]. rewrite Hs. apply (counted_app _ _ _ 1 _ ps rest H3 I3).
Qed.

Lemma visit_logical_parts_ok l x : list_wf l -> exists ps stats, logical_cursor_parts l = Ok ps /\ ps ≫= part_items = denote l /\
  visit_logical_parts l visit x = Ok (stats, foldl visit x ps) /\ counted (MkStats 0 0 0 0 0 0) stats (nodes l) ps.
Proof.
  intros Hw. destruct (cursor_parts_ok l Hw) as (ps & H1 & H2 & _).
  destruct (visit_loop_ok (nodes l) [l] (MkStats 0 0 0 0 0 0) x) as (ps' & stats & I1 & I2 & I3); [by repeat constructor|unfold stack_nodes; cbn; lia|].
  unfold logical_cursor_parts in *. rewrite H1 in I1. injection I1 as <-. exists ps, stats. split; [done|]. split; [done|]. split; [done|].
  unfold stack_nodes in I3. cbn in I3. by rewrite Nat.add_0_r in I3.
Qed.

End visiting.

(** ** The cursor and the two equalities *)
Section comparing.
Context {BO : BytesOps} {BL : BytesLaws} {FO : FingerOps} {FL : FingerLaws} {V T : Type}.
Implicit Types (l : GList V T) (p : LogicalListPart V T) (ps : list (LogicalListPart V T)) (c : LogicalListItemCursor V T).

(** The items a cursor still has to give. *)
Definition remaining c : list (LogicalListItemRef V T) :=
  drop (offset c) (drop (part_index c) (cu_parts c) ≫= part_items).

Definition cursor_ok c : Prop :=
  parts_ok (cu_parts c) /\
  match cu_parts c !! part_index c with Some p => offset c < length (part_items p) | None => offset c = 0 end.

Lemma cursor_new_ok ps : parts_ok ps -> cursor_ok (cursor_new ps) /\ remaining (cursor_new ps) = ps ≫= part_items.
Proof.
  intros Hp. split; [|done]. split; [done|]. cbn. destruct ps as [|p ps]; [done|]. apply list.Forall_cons in Hp as [Hp _].
  cbn. destruct (part_items p); [done|cbn; lia].
Qed.

Lemma remaining_some c p : cu_parts c !! part_index c = Some p -> offset c <= length (part_items p) ->
  remaining c = drop (offset c) (part_items p) ++ (drop (S (part_index c)) (cu_parts c) ≫= part_items).
Proof.
  intros Hp Ho. unfold remaining. rewrite (drop_S _ _ _ Hp). cbn [mbind list_bind]. by rewrite drop_app_le.
Qed.

Lemma remaining_none c : cu_parts c !! part_index c = None -> remaining c = [].
Proof. intros Hn%lookup_ge_None_1. unfold remaining. rewrite (drop_ge (cu_parts c)) by done. apply drop_nil. Qed.

Lemma current_part c p : cu_parts c !! part_index c = Some p -> current c = part_items p !! offset c.
Proof.
  intros Hp. unfold current. rewrite Hp. cbn [mbind option_bind]. destruct p as [b|v|t]; cbn [part_items]; rewrite ?list_lookup_fmap; [done..|].
  case_bool_decide as Ho; [by rewrite Ho|]. by destruct (offset c).
Qed.

Lemma current_ok c : cursor_ok c -> current c = head (remaining c).
Proof.
  intros [_ Hc]. destruct (cu_parts c !! part_index c) as [p|] eqn:Hp.
  - rewrite (current_part c p Hp), (remaining_some c p Hp) by lia. destruct (lookup_lt_is_Some_2 _ _ Hc) as [x Hx]. by rewrite (drop_S _ _ _ Hx), Hx.
  - rewrite (remaining_none c Hp). unfold current. by rewrite Hp.
Qed.

Lemma advance_ok c x xs : cursor_ok c -> remaining c = x :: xs -> exists c', advance c = Ok c' /\ cursor_ok c' /\ remaining c' = xs.
Proof.
  intros [Hk Hc] Hr. destruct (cu_parts c !! part_index c) as [p|] eqn:Hp; [|by rewrite (remaining_none c Hp) in Hr].
  rewrite (remaining_some c p Hp) in Hr by lia. destruct (lookup_lt_is_Some_2 _ _ Hc) as [y Hy]. rewrite (drop_S _ _ _ Hy) in Hr.
  injection Hr as -> Hxs. unfold advance, vec_get. rewrite Hp. cbn [expect mbind outcome_bind].
  assert (Hex : match p with PtBytes b => bool_decide (offset c + 1 = length b) | PtValues v => bool_decide (offset c + 1 = length v)
    | PtThunk _ => bool_decide (offset c + 1 = 1) end = bool_decide (offset c + 1 = length (part_items p))).
  { destruct p; cbn [part_items]; by rewrite ?length_fmap. }
  rewrite Hex. clear Hex. case_bool_decide as He; eexists; (split; [done|]).
  - rewrite (drop_ge (part_items p)) in Hxs by lia. cbn [app] in Hxs. split.
    + split; [done|]. cbn. destruct (cu_parts c !! (part_index c + 1)) as [q|] eqn:Hq; [|done]. eapply list.Forall_lookup in Hk; [|done].
      cbn in Hk. destruct (part_items q); [done|cbn; lia].
    + unfold remaining. cbn [cu_parts part_index offset]. by rewrite drop_0, Nat.add_1_r.
  - split; [split; [done|]; cbn [cu_parts part_index offset]; rewrite Hp; lia|].
    erewrite remaining_some; cbn [cu_parts part_index offset]; [|done|lia]. by rewrite Nat.add_1_r.
Qed.

Definition agree (same : LogicalListItemRef V T -> LogicalListItemRef V T -> bool) xs ys : bool :=
  bool_decide (Forall2 (fun x y => same x y = true) xs ys).

Lemma same_items_loop_ok same fuel : forall c1 c2, cursor_ok c1 -> cursor_ok c2 -> length (remaining c1) < fuel ->
  same_items_loop same fuel c1 c2 = Ok (agree same (remaining c1) (remaining c2)).
Proof.
  unfold agree. induction fuel as [|fuel IH]; intros c1 c2 H1 H2 Hf; [lia|]. cbn [same_items_loop]. rewrite (current_ok c1 H1), (current_ok c2 H2).
  destruct (remaining c1) as [|x xs] eqn:E1, (remaining c2) as [|y ys] eqn:E2; cbn [head].
  - by rewrite bool_decide_true by constructor.
  - rewrite bool_decide_false; [done|]. by inversion 1.
  - rewrite bool_decide_false; [done|]. by inversion 1.
  - destruct (same x y) eqn:Hxy; cbn [negb].
    + destruct (advance_ok c1 x xs H1 E1) as (c1' & -> & K1 & R1). destruct (advance_ok c2 y ys H2 E2) as (c2' & -> & K2 & R2).
      cbn [mbind outcome_bind]. rewrite IH; [|done..|rewrite R1; cbn in Hf; lia]. f_equal. rewrite R1, R2. apply bool_decide_ext. split; [by constructor|]. by inversion 1.
    + rewrite bool_decide_false; [done|]. inversion 1. congruence.
Qed.

Lemma same_logical_ok ptr_eq same l r : list_wf l -> list_wf r ->
  same_logical_items_by ptr_eq same l r = Ok (ptr_eq || agree same (denote l) (denote r)).
Proof.
  intros Hl Hr. unfold same_logical_items_by. destruct ptr_eq; [done|]. destruct (cursor_parts_ok l Hl) as (p1 & -> & D1 & K1).
  destruct (cursor_parts_ok r Hr) as (p2 & E2 & D2 & K2). cbn [mbind outcome_bind]. rewrite E2. cbn [mbind outcome_bind].
  destruct (cursor_new_ok p1 K1) as [C1 R1]. destruct (cursor_new_ok p2 K2) as [C2 R2].
  rewrite same_items_loop_ok; [|done..|]; rewrite R1; [by rewrite R2, D1, D2|]. apply Nat.lt_succ_diag_r.
Qed.

(** The items of a list without holes. *)
Definition strict_items (xs : list (LogicalListItemRef V T)) : option (list (ListItem V)) := mapM (observed_item (fun v => v)) xs.

Lemma strict_items_app xs ys : strict_items (xs ++ ys) = (a ← strict_items xs; b ← strict_items ys; Some (a ++ b)).
Proof.
  unfold strict_items. induction xs as [|x xs IH]; cbn; [by destruct (mapM _ ys)|]. destruct (observed_item _ x); cbn; [|done].
  rewrite IH. destruct (mapM _ xs); cbn; [|done]. by destruct (mapM _ ys).
Qed.

Lemma strict_fmap {A} (g : A -> LogicalListItemRef V T) (h : A -> ListItem V) (v : list A) :
  (forall a, observed_item (fun v => v) (g a) = Some (h a)) -> strict_items (g <$> v) = Some (h <$> v).
Proof. intros Hg. unfold strict_items. induction v as [|a v IH]; [done|]. cbn. rewrite Hg. cbn. by rewrite IH. Qed.

Lemma strict_chunks (cs : list (ListChunk V)) : Forall chunk_ok cs ->
  exists items, strict_items (cs ≫= chunk_refs) = Some items /\ length items = total chunk_len cs.
Proof.
  induction 1 as [|c cs Hc _ (items & IH & IHl)]; [by exists []|].
  change ((c :: cs) ≫= chunk_refs) with (chunk_refs (T:=T) c ++ (cs ≫= chunk_refs)). rewrite strict_items_app, IH, total_cons, <- IHl.
  pose proof (chunk_refs_length (T:=T) c Hc) as Hl. destruct c as [b|s]; cbn [chunk_refs] in *.
  - rewrite (strict_fmap _ IByte) by done. eexists. split; [done|]. by rewrite length_app, !length_fmap in *; rewrite Hl.
  - rewrite (strict_fmap _ IValue) by done. eexists. split; [done|]. rewrite length_app, !length_fmap in *. by rewrite Hl.
Qed.

Lemma known_len_ok l : list_wf l -> (Z.of_nat (length (denote l)) <= usize_max)%Z ->
  known_len l = (fun items => Z.of_nat (length items)) <$> strict_items (denote l).
Proof.
  induction l as [|b|s|l1 IH1 l2 IH2|f|t]; cbn [known_len denote list_wf]; intros Hw Hf.
  - done.
  - rewrite (strict_fmap _ IByte) by done. cbn. by rewrite length_fmap.
  - rewrite (strict_fmap _ IValue) by done. cbn. by rewrite length_fmap, (slice_items_length s (proj1 Hw)).
  - destruct Hw as [[W1 _] [W2 _]]. rewrite length_app in Hf. rewrite IH1, IH2, strict_items_app by (done || lia).
    destruct (strict_items (denote l1)) as [a|] eqn:Ea; cbn; [|done]. destruct (strict_items (denote l2)) as [b|] eqn:Eb; cbn; [|done].
    apply length_mapM in Ea. apply length_mapM in Eb. f_equal. rewrite length_app, wrap64_small; [lia|]. unfold usize_max, u64_max in Hf. lia.
  - destruct Hw as [[Hc Hff] _]. destruct (strict_chunks _ Hc) as (items & -> & Hl). cbn. by rewrite (ft_measure_total _ _ f Hff), Hl.
  - done.
Qed.

Definition collect_bytes (items : list (ListItem V)) (bytes : list Z) : M (list (ListItem V)) := Ok (items ++ fmap (M:=list) IByte bytes).
Definition collect_values (items : list (ListItem V)) (values : list V) : M (list (ListItem V)) := Ok (items ++ fmap (M:=list) IValue values).

Lemma collect_chunks (cs : list (ListChunk V)) : Forall chunk_ok cs -> forall items,
  foldM (chunk_for_each_segment collect_bytes collect_values) items cs =
  match strict_items (cs ≫= chunk_refs) with Some more => Ok (items ++ more) | None => Panic end.
Proof.
  induction 1 as [|c cs Hc _ IH]; intros items; [cbn; by rewrite app_nil_r|].
  change ((c :: cs) ≫= chunk_refs) with (chunk_refs (T:=T) c ++ (cs ≫= chunk_refs)). rewrite strict_items_app. cbn [foldM].
  assert (Hmore : exists more, strict_items (chunk_refs c) = Some more /\ chunk_for_each_segment collect_bytes collect_values items c = Ok (items ++ more)).
  { destruct c as [b|s]; cbn [chunk_refs chunk_for_each_segment].
    - rewrite (strict_fmap _ IByte) by done. by eexists.
    - rewrite (strict_fmap _ IValue) by done. rewrite (as_slice_ok s (proj1 Hc)). by eexists. }
  destruct Hmore as (more & -> & ->). cbn [mbind outcome_bind option_bind]. rewrite IH.
  destruct (strict_items (cs ≫= chunk_refs)); [|done]. cbn. by rewrite <- app_assoc.
Qed.

Lemma collect_ok l : list_wf l -> forall items, for_each_segment collect_bytes collect_values items l =
  match strict_items (denote l) with Some more => Ok (items ++ more) | None => Panic end.
Proof.
  induction l as [|b|s|l1 IH1 l2 IH2|f|t]; cbn [for_each_segment denote list_wf]; intros Hw items.
  - cbn. by rewrite app_nil_r.
  - by rewrite (strict_fmap _ IByte).
  - rewrite (as_slice_ok s (proj1 Hw)). by rewrite (strict_fmap _ IValue).
  - destruct Hw as [[W1 _] [W2 _]]. rewrite IH1, strict_items_app by done. destruct (strict_items (denote l1)) as [a|]; [|done].
    cbn [mbind outcome_bind option_bind]. rewrite IH2 by done. destruct (strict_items (denote l2)) as [b|]; [|done]. cbn. by rewrite app_assoc.
  - by apply collect_chunks, Hw.
  - done.
Qed.

Lemma items_for_eq_ok l : list_wf l -> items_for_eq l = match strict_items (denote l) with Some items => Ok items | None => Panic end.
Proof. intros Hw. apply (collect_ok l Hw []). Qed.

Definition equal_strict `{EqDecision V} (xs ys : list (LogicalListItemRef V T)) : bool :=
  match strict_items xs, strict_items ys with Some a, Some b => bool_decide (a = b) | _, _ => false end.

Lemma list_eq_ok `{EqDecision V} ptr_eq l r : list_wf l -> list_wf r ->
  (Z.of_nat (length (denote l)) <= usize_max)%Z -> (Z.of_nat (length (denote r)) <= usize_max)%Z ->
  list_eq ptr_eq l r = Ok (ptr_eq || equal_strict (denote l) (denote r)).
Proof.
  intros Hl Hr Fl Fr. unfold list_eq, equal_strict. destruct ptr_eq; [done|]. rewrite !known_len_ok, !items_for_eq_ok by done.
  destruct (strict_items (denote l)) as [a|]; [|done]. destruct (strict_items (denote r)) as [b|]; [|done]. cbn [fmap option_fmap option_map].
  destruct (Z.eqb_spec (Z.of_nat (length a)) (Z.of_nat (length b))) as [He|He]; [done|]. cbn. rewrite bool_decide_false; [done|]. intros ->. by apply He.
Qed.

Lemma foldl_parts {X} (visit : X -> LogicalListPart V T -> X) on_item ps : forall x,
  (forall x part, visit x part = foldl on_item x (part_items part)) -> foldl visit x ps = foldl on_item x (ps ≫= part_items).
Proof. induction ps as [|p ps IH]; intros x Hon; [done|]. cbn. rewrite foldl_app, <- Hon. by apply IH. Qed.

(** C25. A traversal sees the items in order. A visitor is called on parts that
    together hold exactly the items, and the counters give the nodes, the values and
    the holes; how the items are cut into parts, and so a visitor that counts parts,
    follows the shape of the list, while a visitor that goes through a part item by
    item computes the fold over the items, whatever the shape. Structural equality
    holds of one shared node, and otherwise exactly of two lists without holes that
    have the same items, whatever their shapes; a hole does not make it panic. Logical
    equality holds of one shared node, and otherwise where the items and holes agree
    pairwise in the given relation; it takes one turn per item. *)
Theorem traversals_correct `{EqDecision V} {X} (visit : X -> LogicalListPart V T -> X) x ptr_eq same l r :
  list_wf l -> list_wf r -> (Z.of_nat (length (denote l)) <= usize_max)%Z -> (Z.of_nat (length (denote r)) <= usize_max)%Z ->
  (exists ps stats, visit_logical_parts l visit x = Ok (stats, foldl visit x ps) /\ ps ≫= part_items = denote l /\
     counted (MkStats 0 0 0 0 0 0) stats (nodes l) ps) /\
  (forall on_item, (forall x part, visit x part = foldl on_item x (part_items part)) ->
     exists stats, visit_logical_parts l visit x = Ok (stats, foldl on_item x (denote l))) /\
  list_eq ptr_eq l r = Ok (ptr_eq || equal_strict (denote l) (denote r)) /\
  same_logical_items_by ptr_eq same l r = Ok (ptr_eq || agree same (denote l) (denote r)).
Proof.
  intros Hl Hr Fl Fr. destruct (visit_logical_parts_ok visit l x Hl) as (ps & stats & _ & Hd & Hv & Hc).
  split; [by exists ps, stats|]. split; [|split; [by apply list_eq_ok|by apply same_logical_ok]].
  intros on_item Hon. exists stats. rewrite Hv, <- Hd. do 2 f_equal. by apply foldl_parts.
Qed.

End comparing.
