(* ===== verification/GlamListSamples.v ===== *)
(** * Persistent lists on concrete inputs

    Byte buffers and finger trees as plain lists satisfy the documented laws;
    with them the list theorems apply to concrete lists with bytes, values,
    ropes and holes. *)
From stdpp Require Import base option list numbers tactics.
From Stdlib Require Import ZArith Lia.
From S2P Require Import Prelude GlamList GlamListFacts GlamListJoin.

(** ** Reference implementations of the libraries *)
Definition plain_bytes : BytesOps := {|
  Bytes := list Z; bytes_list b := b; bytes_from b := b; bytes_cut b s e := take (e - s) (drop s b);
|}.

Fixpoint plain_split {A} (m : A -> nat) (p : nat -> bool) (acc : nat) (l : list A) : list A * list A :=
  match l with
  | [] => ([], [])
  | a :: rest => if p (acc + m a) then ([], l) else let '(x, y) := plain_split m p (acc + m a) rest in (a :: x, y)
  end.

Definition plain_finger : FingerOps := {|
  FingerTree A m := list A;
  ft_iter A m t := t;
  ft_new A m := [];
  ft_push_left A m t a := a :: t;
  ft_push_right A m t a := t ++ [a];
  ft_concat A m t u := t ++ u;
  ft_view_left A m t := match t with [] => None | a :: t => Some (a, t) end;
  ft_view_right A m t := match rev t with [] => None | a :: t => Some (rev t, a) end;
  ft_split A m t p := plain_split m p 0 t;
  ft_measure A m t := total m t;
  ft_is_empty A m t := match t with [] => true | _ => false end;
|}.

#[local] Existing Instances plain_bytes plain_finger.

#[local] Instance plain_bytes_laws : BytesLaws.
Proof. split; done. Qed.

Lemma plain_split_spec {A} (m : A -> nat) p l : forall acc, p acc = false ->
  fst (plain_split m p acc l) ++ snd (plain_split m p acc l) = l /\
  p (acc + total m (fst (plain_split m p acc l))) = false /\
  forall a rest, snd (plain_split m p acc l) = a :: rest -> p (acc + total m (fst (plain_split m p acc l)) + m a) = true.
Proof.
  induction l as [|b l IH]; intros acc Hp; cbn [plain_split].
  - cbn. rewrite Nat.add_0_r. done.
  - destruct (p (acc + m b)) eqn:E.
    + cbn [fst snd]. unfold total. cbn. rewrite Nat.add_0_r. split; [done|]. split; [done|]. by intros a rest [= <- <-].
    + destruct (IH _ E) as (H1 & H2 & H3). destruct (plain_split m p (acc + m b) l) as [x y]. cbn [fst snd] in *.
      rewrite total_cons, Nat.add_assoc. cbn. split; [by rewrite H1|]. by split.
Qed.

#[local] Instance plain_finger_laws : FingerLaws.
Proof.
  split; cbn; try done.
  - by intros A m [|a t].
  - intros A m t. by destruct (rev t) as [|a u] eqn:E; apply (f_equal (rev (A:=A))) in E; rewrite rev_involutive in E.
  - intros A m [|a t]; by split.
  - intros A m t p _ _ H0. apply (plain_split_spec m p t 0 H0).
Qed.

(** ** Samples *)
Definition three : SharedSlice nat := MkSlice [9; 4; 5; 6; 9] 1 3.
Definition rope : FingerList nat := [ChBytes [1%Z; 2%Z]; ChValues three].

(** Two bytes, a hole, then a rope of two bytes and three values. *)
Definition sample : GList nat nat := LConcat (LConcat (LBytes [7%Z; 8%Z]) (LThunk 3)) (LFinger rope).

Lemma rope_ok : finger_ok rope.
Proof.
  split; [|apply Z.leb_le; vm_compute; reflexivity].
  repeat constructor; vm_compute; lia.
Qed.

Lemma sample_wf : list_wf sample.
Proof. cbn. unfold bytes_len. cbn. repeat split; try done; try lia; apply rope_ok. Qed.

(** Taking the first item and the last one of the sample. *)
Lemma pop_steps_witness : list_wf sample /\
  (exists step, pop_front_step_by sample S id = Ok step /\ front_step_ok S id (denote sample) step) /\
  (exists step, pop_back_step_by sample S id = Ok step /\ back_step_ok S id (denote sample) step).
Proof. split; [exact sample_wf|]. exact (pop_steps_correct sample S id sample_wf). Defined.

(** Cutting the rope inside its second chunk. *)
Lemma leaf_cut_witness : list_wf (LFinger (T:=nat) rope) /\ splits_ok (LFinger (T:=nat) rope) 3 /\ item_ok S (LFinger (T:=nat) rope) 3.
Proof.
  assert (Hw : list_wf (LFinger (T:=nat) rope)) by (split; [exact rope_ok|done]).
  split; [exact Hw|]. exact (leaf_cut_correct (LFinger rope) 3 S Hw).
Defined.

Definition some_pieces : list (GList nat nat) := [LBytes [1%Z]; LEmpty; LBytes [2%Z]; LValues three; LFinger rope; LValues three].

(** Joining short pieces of both kinds and a rope. *)
Lemma join_strict_pieces_witness : Forall list_wf some_pieces /\ joined_ok S some_pieces (join_strict_pieces some_pieces S).
Proof.
  assert (Hw : Forall list_wf some_pieces).
  { repeat apply list.Forall_cons_2; try apply list.Forall_nil_2; cbn; unfold bytes_len, slice_ok; cbn; try lia.
    split; [exact rope_ok|done]. }
  split; [exact Hw|]. apply (join_strict_pieces_correct S some_pieces Hw). apply Z.leb_le. vm_compute. reflexivity.
Defined.

Definition repeat_byte (b : Z) : outcome unit (GList nat nat) := if (b =? 0)%Z then Err tt else Ok (from_values [Z.to_nat b; Z.to_nat b]).
Definition wrap_value (v : nat) : outcome unit (GList nat nat) := Ok (LThunk v).

(** Flat-mapping the rope. *)
Lemma root_steps_witness : list_wf (LFinger (T:=nat) rope) /\
  (exists r, map_root_step (LFinger rope) Z.to_nat S (fun _ => 0) S = Ok r /\ list_wf r /\
     denote r = mapped_items Z.to_nat S (fun _ => 0) S (LFinger rope) /\ leaf_chunks r = leaf_chunks (LFinger (T:=nat) rope)) /\
  flat_map_result repeat_byte wrap_value (fun _ => 0) S (LFinger rope) (flat_map_root_step (LFinger rope) repeat_byte wrap_value (fun _ => 0) S).
Proof.
  assert (Hw : list_wf (LFinger (T:=nat) rope)) by (split; [exact rope_ok|done]). split; [exact Hw|].
  apply (root_steps_correct (LFinger rope) Z.to_nat S repeat_byte wrap_value (fun _ => 0) S Hw).
  - intros b r. unfold repeat_byte. destruct (b =? 0)%Z; [done|]. intros [= <-]. split; cbn; lia.
  - intros v r [= <-]. exact I.
Defined.

(** The rope and its items in another shape. *)
Definition reshaped : GList nat nat := LConcat (LBytes [1%Z]) (LConcat (LBytes [2%Z]) (LValues three)).
Definition same_ref (x y : LogicalListItemRef nat nat) : bool :=
  match x, y with RfByte a, RfByte b => (a =? b)%Z | RfValue a, RfValue b => a =? b | RfThunk a, RfThunk b => a =? b | _, _ => false end.

(** Comparing the two: they are equal. *)
Lemma traversals_witness :
  list_wf (LFinger (T:=nat) rope) /\ list_wf reshaped /\ list_eq false (LFinger rope) reshaped = Ok true /\
  (exists stats, visit_logical_parts (LFinger (T:=nat) rope) (fun n part => foldl (fun n _ => S n) n (part_items part)) 0
     = Ok (stats, foldl (fun n _ => S n) 0 (denote (LFinger (T:=nat) rope)))) /\
  list_eq false (LFinger rope) reshaped = Ok (false || equal_strict (denote (LFinger rope)) (denote reshaped)) /\
  same_logical_items_by false same_ref (LFinger rope) reshaped = Ok (false || agree same_ref (denote (LFinger rope)) (denote reshaped)).
Proof.
  assert (Hw : list_wf (LFinger (T:=nat) rope)) by (split; [exact rope_ok|done]).
  assert (Hr : list_wf reshaped) by (cbn; unfold bytes_len, slice_ok; cbn; repeat split; lia).
  split; [exact Hw|]. split; [exact Hr|]. split; [vm_compute; reflexivity|].
  destruct (traversals_correct (fun n part => foldl (fun n _ => S n) n (part_items part)) 0 false same_ref (LFinger rope) reshaped Hw Hr)
    as (_ & Hfold & Heq); [apply Z.leb_le; vm_compute; reflexivity..|].
  split; [|exact Heq]. by apply Hfold.
Defined.
