(* ===== verification/Conflict.v ===== *)
(** * Dictionary keys and the keys a write reaches ([core.rs], [reflection/store.rs])

    A key names a member of a dictionary, and a path of keys a place within nested
    dictionaries. A write reaches its place through values: the path becomes a list
    of values ([value_from_key]), which the dictionary builtin converts back to keys
    ([RegionalKeyConversion]). An abstract path becomes an atom of itself on the
    way, so that the key a dictionary holds may not be the key of the request; a
    read has to look up what a write stored ([stored_key]).

    An interned atom is the key it stands for, a number its reduced fraction. *)
From stdpp Require Import base option list numbers strings countable gmap.
From Stdlib Require Import ZArith Lia.


Inductive Key :=
  | KAtom (key : Key)
  | KNumber (numerator denominator : Z)
  | KBinary (bytes : string)
  | KAbstractGlobalPath (parts : list string)
  | KList (items : list Key)
  | KDict (entries : list (Key * Key)).

(** ** Keys are countable, so that they index finite maps *)
Fixpoint key_tree (k : Key) : gen_tree (Z * Z + string + list string) :=
  match k with
  | KAtom key => GenNode 0 [key_tree key]
  | KNumber n d => GenLeaf (inl (inl (n, d)))
  | KBinary bytes => GenLeaf (inl (inr bytes))
  | KAbstractGlobalPath parts => GenLeaf (inr parts)
  | KList items => GenNode 1 (key_tree <$> items)
  | KDict entries => GenNode 2 ((fun '(key, value) => GenNode 3 [key_tree key; key_tree value]) <$> entries)
  end.

Fixpoint tree_key (t : gen_tree (Z * Z + string + list string)) : Key :=
  match t with
  | GenLeaf (inl (inl (n, d))) => KNumber n d
  | GenLeaf (inl (inr bytes)) => KBinary bytes
  | GenLeaf (inr parts) => KAbstractGlobalPath parts
  | GenNode 0 [key] => KAtom (tree_key key)
  | GenNode 1 items => KList (tree_key <$> items)
  | GenNode _ entries =>
      KDict ((fun e => match e with
                       | GenNode _ [key; value] => (tree_key key, tree_key value)
                       | _ => (KList [], KList [])
                       end) <$> entries)
  end.

Fixpoint tree_key_tree (k : Key) : tree_key (key_tree k) = k.
Proof.
  destruct k as [key|n d|bytes|parts|items|entries]; cbn; [by rewrite tree_key_tree|done|done|done| |].
  - f_equal. induction items as [|i items IH]; cbn; [done|]. by rewrite tree_key_tree; f_equal.
  - f_equal. induction entries as [|[key value] entries IH]; cbn; [done|].
    rewrite !tree_key_tree. by f_equal.
Qed.

#[export] Instance key_tree_inj : Inj (=) (=) key_tree.
Proof. intros k k' E. by rewrite <- (tree_key_tree k), E, tree_key_tree. Qed.

#[export] Instance Key_eq_dec : EqDecision Key.
Proof.
  refine (fun k k' => cast_if (decide (key_tree k = key_tree k'))); abstract (congruence || by apply (inj key_tree)).
Defined.

#[export] Instance Key_countable : Countable Key.
Proof. exact (inj_countable' key_tree tree_key tree_key_tree). Defined.

(** ** The keys of writes and of reads *)

(** [Key::atom_from_key], [Key::atom_from_text] *)
Definition atom_from_key (key : Key) : Key := KAtom key.
Definition atom_from_text (text : string) : Key := atom_from_key (KBinary text).

(** [value_from_key] followed by the conversion of the value back to a key: the key
    under which a write stores. Members of a dictionary keep their own keys. *)
Fixpoint value_from_key (key : Key) : Key :=
  match key with
  | KAtom _ | KNumber _ _ | KBinary _ => key
  | KAbstractGlobalPath parts => KAtom (KAbstractGlobalPath parts)
  | KList items => KList (value_from_key <$> items)
  | KDict entries => KDict ((fun '(name, value) => (name, value_from_key value)) <$> entries)
  end.

(** [stored_key] *)
Definition stored_key (key : Key) : Key :=
  match key with KAbstractGlobalPath _ => atom_from_key key | _ => key end.

(** A direct key is one that a read finds where a write put it, and that no other
    direct key shares: anything but a list or a dictionary that holds an abstract
    path, and the atom that stands for an abstract path. *)
Definition direct (key : Key) : bool :=
  match key with
  | KAbstractGlobalPath _ => true
  | KAtom (KAbstractGlobalPath _) => false
  | _ => bool_decide (value_from_key key = key)
  end.

Lemma direct_stored key : direct key -> value_from_key key = stored_key key.
Proof. destruct key as [[]| | | | |]; cbn; try done; intros ?%bool_decide_unpack; done. Qed.

Lemma direct_inj key key' : direct key -> direct key' -> stored_key key = stored_key key' -> key = key'.
Proof. destruct key as [[]| | | | |], key' as [[]| | | | |]; cbn; intros; simplify_eq; done. Qed.

(** A key kept within a list is stored as an atom but looked up as it is. *)
Example nested_abstract_path_is_not_direct :
  let key := KList [KAbstractGlobalPath ["glam"%string]] in
  value_from_key key <> stored_key key /\ direct key = false.
Proof. by vm_compute. Qed.

(** * Conflict addresses and read-observation strategies ([reflection/store/conflict.rs])

    A transaction summarizes what it read in an observation index, of which three
    kinds exist: exact path overlap, fingerprints of paths, and one bit. The store
    asks the index of a transaction whether a changed address may conflict.

    The trait of the indices is the class [ConflictAnalysis]; its contract, that no
    overlap is ever missed, is [SoundAnalysis], which the three instances meet and
    against which the store is verified. An index of the exact strategy answers
    exactly the overlaps. The hash function of the fingerprints is a parameter: no
    property of it is used. *)

Definition VolumeId := Z.
Definition ConflictPath := list Key.

(** [ConflictPath::is_prefix_of], [ConflictPath::overlaps] *)
Definition path_is_prefix_of (path other : ConflictPath) : bool := bool_decide (path `prefix_of` other).
Definition path_overlaps (path other : ConflictPath) : bool :=
  path_is_prefix_of path other || path_is_prefix_of other path.

(** [ConflictPath::prefixes], shortest first *)
Definition path_prefixes (path : ConflictPath) : list ConflictPath :=
  (fun length => take length path) <$> seq 0 (S (length path)).

(** [ConflictAddress::Reflection] *)
Record ConflictAddress := Reflection { volume : VolumeId; path : ConflictPath }.

#[export] Instance ConflictAddress_eq_dec : EqDecision ConflictAddress.
Proof. solve_decision. Defined.
#[export] Instance ConflictAddress_countable : Countable ConflictAddress.
Proof.
  refine (inj_countable' (fun a => (volume a, path a)) (fun '(v, p) => Reflection v p) _).
  abstract (by intros []).
Defined.

Definition reflection_root (volume : VolumeId) : ConflictAddress := Reflection volume [].
Definition is_prefix_of (self other : ConflictAddress) : bool :=
  bool_decide (volume self = volume other) && path_is_prefix_of (path self) (path other).
Definition overlaps (self other : ConflictAddress) : bool := is_prefix_of self other || is_prefix_of other self.
Definition prefixes (self : ConflictAddress) : list ConflictAddress :=
  Reflection (volume self) <$> path_prefixes (path self).

(** ** Strategies *)

(** [ConflictObservationIndex], with [ConflictAnalysisStrategy::begin] *)
Class ConflictAnalysis (Index : Type) := {
  begin : Index;
  observe : Index -> ConflictAddress -> Index;
  may_conflict : Index -> ConflictAddress -> bool;
}.

(** [ExactObservationIndex] *)
Record ExactIndex := MkExact { addresses : gset ConflictAddress }.
Definition exact_observe (index : ExactIndex) (address : ConflictAddress) : ExactIndex :=
  if existsb (fun seen => is_prefix_of seen address) (elements (addresses index)) then index
  else MkExact ({[ address ]} ∪ filter (fun seen => is_prefix_of address seen = false) (addresses index)).
Definition exact_may_conflict (index : ExactIndex) (changed : ConflictAddress) : bool :=
  existsb (fun read => overlaps read changed) (elements (addresses index)).
#[export] Instance exact_analysis : ConflictAnalysis ExactIndex :=
  { begin := MkExact ∅; observe := exact_observe; may_conflict := exact_may_conflict }.

(** [FingerprintObservationIndex], for the hash [fingerprint] of one transaction *)
Record FingerprintIndex (fingerprint : ConflictAddress -> Z) :=
  MkFingerprint { complete_reads : gset Z; read_prefixes : gset Z }.
Arguments MkFingerprint {fingerprint}.
Arguments complete_reads {fingerprint}.
Arguments read_prefixes {fingerprint}.
Definition fingerprint_observe {fingerprint} (index : FingerprintIndex fingerprint) (address : ConflictAddress)
  : FingerprintIndex fingerprint :=
  MkFingerprint ({[ fingerprint address ]} ∪ complete_reads index)
    (list_to_set (fingerprint <$> prefixes address) ∪ read_prefixes index).
Definition fingerprint_may_conflict {fingerprint} (index : FingerprintIndex fingerprint) (changed : ConflictAddress) : bool :=
  bool_decide (fingerprint changed ∈ read_prefixes index)
  || existsb (fun prefix => bool_decide (fingerprint prefix ∈ complete_reads index)) (prefixes changed).
#[export] Instance fingerprint_analysis fingerprint : ConflictAnalysis (FingerprintIndex fingerprint) :=
  { begin := MkFingerprint ∅ ∅; observe := fingerprint_observe; may_conflict := fingerprint_may_conflict }.

(** [CoarseObservationIndex] *)
Record CoarseIndex := MkCoarse { observed_any : bool }.
Definition coarse_observe (index : CoarseIndex) (_ : ConflictAddress) : CoarseIndex := MkCoarse true.
Definition coarse_may_conflict (index : CoarseIndex) (_ : ConflictAddress) : bool := observed_any index.
#[export] Instance coarse_analysis : ConflictAnalysis CoarseIndex :=
  { begin := MkCoarse false; observe := coarse_observe; may_conflict := coarse_may_conflict }.

(** The index after the reads of [reads], first to last. *)
Definition observes `{ConflictAnalysis Index} (index : Index) (reads : list ConflictAddress) : Index :=
  foldl observe index reads.

(** The contract: an observation is seen by every change that overlaps it, and no
    later observation hides an earlier one. *)
Class SoundAnalysis Index `{ConflictAnalysis Index} : Prop := {
  observe_sees (index : Index) (read changed : ConflictAddress) :
    overlaps read changed -> may_conflict (observe index read) changed;
  observe_keeps (index : Index) (read changed : ConflictAddress) :
    may_conflict index changed -> may_conflict (observe index read) changed;
}.

(** ** Prefixes and overlaps *)
Lemma is_prefix_of_spec a b : is_prefix_of a b <-> volume a = volume b /\ path a `prefix_of` path b.
Proof. unfold is_prefix_of, path_is_prefix_of. rewrite andb_True, !bool_decide_spec. done. Qed.

Lemma overlaps_spec a b :
  overlaps a b <-> volume a = volume b /\ (path a `prefix_of` path b \/ path b `prefix_of` path a).
Proof. unfold overlaps. rewrite orb_True, !is_prefix_of_spec. naive_solver. Qed.

Lemma overlaps_sym a b : overlaps a b -> overlaps b a.
Proof. rewrite !overlaps_spec. naive_solver. Qed.

Lemma is_prefix_of_refl a : is_prefix_of a a.
Proof. by apply is_prefix_of_spec. Qed.

(** Two prefixes of one path are comparable. *)
Lemma prefix_comparable {A} (p q r : list A) :
  p `prefix_of` r -> q `prefix_of` r -> p `prefix_of` q \/ q `prefix_of` p.
Proof. apply prefix_weak_total. Qed.

(** An address above another overlaps whatever the other overlaps. *)
Lemma overlaps_above a b c : is_prefix_of a b -> overlaps b c -> overlaps a c.
Proof.
  rewrite is_prefix_of_spec, !overlaps_spec. intros [Ev Hab] [Ev' Hbc]. split; [congruence|].
  destruct Hbc as [Hbc|Hcb]; [left; by etrans|by eapply prefix_comparable].
Qed.

Lemma elem_of_prefixes a b : a ∈ prefixes b <-> is_prefix_of a b.
Proof.
  unfold prefixes, path_prefixes. rewrite is_prefix_of_spec, <- list_fmap_compose, list_elem_of_fmap. split.
  - intros (n & -> & _). cbn. split; [done|apply prefix_take].
  - intros [Ev [k Ek]]. exists (length (path a)). destruct a as [v p], b as [v' q]; cbn in *; subst. split.
    + by rewrite take_app_length.
    + change (length p ∈ seq 0 (S (length (p ++ k)))). apply elem_of_seq. rewrite length_app. lia.
Qed.

Lemma existsb_True {A} (f : A -> bool) l : existsb f l <-> exists x, x ∈ l /\ f x.
Proof. rewrite Is_true_true, existsb_exists. setoid_rewrite list_elem_of_In. by setoid_rewrite Is_true_true. Qed.

(** ** The strategies keep the contract *)
#[export] Instance exact_sound : SoundAnalysis ExactIndex.
Proof.
  split; intros index read changed; cbn; unfold exact_observe, exact_may_conflict.
  all: destruct (existsb (fun seen => is_prefix_of seen read) (elements (addresses index))) eqn:E; [|clear E]; cbn.
  - apply Is_true_eq_left, existsb_True in E as (seen & Hin & Hp). intros Ho.
    apply existsb_True. exists seen. split; [done|by eapply overlaps_above].
  - intros Ho. apply existsb_True. exists read. split; [set_solver|done].
  - done.
  - rewrite !existsb_True. intros (seen & Hin & Ho). rewrite elem_of_elements in Hin.
    destruct (is_prefix_of read seen) eqn:Ep.
    + exists read. split; [set_solver|]. eapply overlaps_above; [|done]. by apply Is_true_true.
    + exists seen. split; [|done]. apply elem_of_elements, elem_of_union_r, elem_of_filter. done.
Qed.

Lemma fingerprint_conflict_spec {fingerprint} (index : FingerprintIndex fingerprint) changed :
  fingerprint_may_conflict index changed <->
  fingerprint changed ∈ read_prefixes index \/ exists prefix, is_prefix_of prefix changed /\ fingerprint prefix ∈ complete_reads index.
Proof.
  unfold fingerprint_may_conflict. rewrite orb_True, bool_decide_spec, existsb_True.
  setoid_rewrite elem_of_prefixes. by setoid_rewrite bool_decide_spec.
Qed.

#[export] Instance fingerprint_sound fingerprint : SoundAnalysis (FingerprintIndex fingerprint).
Proof.
  split; intros index read changed; change (@may_conflict _ _ ?i ?c) with (fingerprint_may_conflict i c);
    rewrite !fingerprint_conflict_spec; unfold observe, fingerprint_analysis, fingerprint_observe, complete_reads, read_prefixes.
  - rewrite overlaps_spec. intros [Ev [Hp|Hp]].
    + right. exists read. split; [by apply is_prefix_of_spec|set_solver].
    + left. apply elem_of_union_l, elem_of_list_to_set, list_elem_of_fmap. exists changed. split; [done|].
      by apply elem_of_prefixes, is_prefix_of_spec.
  - intros [Hl|(p & Hp & Hc)]; [left; set_solver|right; exists p; set_solver].
Qed.

#[export] Instance coarse_sound : SoundAnalysis CoarseIndex.
Proof. by split. Qed.

(** ** What an index has seen *)
Section observed.
Context `{SoundAnalysis Index}.

Lemma observes_keeps (reads : list ConflictAddress) : forall (index : Index) (changed : ConflictAddress),
  may_conflict index changed -> may_conflict (observes index reads) changed.
Proof. induction reads as [|r reads IH]; cbn; [done|]. intros index changed Hc. by apply IH, observe_keeps. Qed.

Lemma observes_sees (reads : list ConflictAddress) : forall (index : Index) (read changed : ConflictAddress),
  read ∈ reads -> overlaps read changed -> may_conflict (observes index reads) changed.
Proof.
  induction reads as [|r reads IH]; intros index read changed; [by intros ?%elem_of_nil|].
  intros [->|Hin]%elem_of_cons Ho; cbn; [|by eapply IH]. by apply observes_keeps, observe_sees.
Qed.
End observed.

(** The exact index reports nothing but overlaps. *)
Lemma exact_only (reads : list ConflictAddress) (changed : ConflictAddress) : forall (index : ExactIndex),
  may_conflict (observes index reads) changed ->
  may_conflict index changed \/ exists read, read ∈ reads /\ overlaps read changed.
Proof.
  induction reads as [|r reads IH]; intros index; [by left|]. cbn [observes foldl].
  intros [Hc|(read & Hin & Ho)]%IH; [|right; exists read; set_solver].
  revert Hc. cbn. unfold exact_observe, exact_may_conflict.
  destruct (existsb (fun seen => is_prefix_of seen r) (elements (addresses index))); [intros Hc; by left|].
  cbn. rewrite !existsb_True. setoid_rewrite elem_of_elements.
  intros (seen & [->%elem_of_singleton|[_ Hin]%elem_of_filter]%elem_of_union & Ho).
  - right. exists r. set_solver.
  - left. by exists seen.
Qed.

(** C36. [conflicts_never_missed]: for every strategy, a changed address that overlaps
    one of the addresses a transaction read is reported as a conflict, whatever was
    read before and since and whatever the hash of the fingerprints; and the exact
    strategy, the reference, reports a conflict exactly for the overlaps. *)
Theorem conflicts_never_missed (fingerprint : ConflictAddress -> Z) (reads : list ConflictAddress) (changed : ConflictAddress) :
  (may_conflict (observes (Index := ExactIndex) begin reads) changed <-> exists read, read ∈ reads /\ overlaps read changed) /\
  (may_conflict (observes (Index := ExactIndex) begin reads) changed ->
   may_conflict (observes (Index := FingerprintIndex fingerprint) begin reads) changed) /\
  (may_conflict (observes (Index := FingerprintIndex fingerprint) begin reads) changed ->
   may_conflict (observes (Index := CoarseIndex) begin reads) changed).
Proof.
  assert (Hexact : may_conflict (observes (Index := ExactIndex) begin reads) changed
    <-> exists read, read ∈ reads /\ overlaps read changed).
  { split; [by intros [?|]%exact_only|]. intros (read & Hin & Ho). exact (observes_sees reads _ read changed Hin Ho). }
  split; [done|split].
  - rewrite Hexact. intros (read & Hin & Ho). exact (observes_sees reads _ read changed Hin Ho).
  - destruct reads as [|r reads].
    + intros [?|(p & _ & ?)]%fingerprint_conflict_spec; set_solver.
    + intros _. eapply (observes_keeps reads). done.
Qed.
