(* ===== verification/DictPaths.v ===== *)
(** * Paths through nested dictionaries ([eval/dict_machine.rs], [eval/access_machine.rs])

    The values of the reflection store are lazy: an edit does not evaluate the
    volume it changes but suspends a call of a dictionary builtin on it. [Value] is
    the shape of the values the store builds, with one constructor per suspended
    computation it creates; [Data] is what values mean once evaluated everywhere, and
    [denote] gives the meaning. What a function gives is a parameter on meanings;
    which failure a failed evaluation reports is not modelled.

    The dictionary machines are modelled as the code runs them: the insertion loop
    with its stack of parents, its deferral through a lazy dictionary and its local
    error at a value that is no dictionary; the path walk that forces each dictionary
    on the way, and the removal that prunes what it empties. [insert_path],
    [lookup_path] and [remove_path] are the reference definitions they are shown to
    compute (see below). *)
From stdpp Require Import base option list numbers gmap.
From Stdlib Require Import ZArith Lia.
From S2P Require Import Conflict.

(** ** Values and their meaning *)

Inductive Data :=
  | DDict (members : gmap Key Data)
  | DOther (other : Z)
  | DFail.

(** [DictInsert], [DictRemove], [LazyValue::from_access_in] and
    [LazyValue::from_application_in] are the computations the store suspends; an
    [VError] is [LazyValue::error_in], and [VOther] any evaluated value that is no
    dictionary. *)
Inductive Value :=
  | VDict (members : gmap Key Value)
  | VOther (other : Z)
  | VError
  | VInsert (path : list Key) (new_value dict : Value)
  | VRemove (path : list Key) (dict : Value)
  | VAccess (path : list Key) (base : Value)
  | VApply (function argument : Value).

(** What reading a path finds. *)
Inductive PathRead :=
  | Defined (value : Data)
  | Undefined
  | FailedRead.

Fixpoint lookup_path (path : list Key) (data : Data) : PathRead :=
  match path with
  | [] => Defined data
  | key :: rest =>
      match data with
      | DDict members => match members !! key with Some member => lookup_path rest member | None => Undefined end
      | _ => FailedRead
      end
  end.

(** A path that is undefined reads as a failure. *)
Definition read_data (read : PathRead) : Data := match read with Defined value => value | _ => DFail end.

Fixpoint insert_path (path : list Key) (new_value data : Data) : Data :=
  match path with
  | [] => DFail
  | key :: rest =>
      match data with
      | DDict members =>
          DDict (<[ key := match rest with
                           | [] => new_value
                           | _ => insert_path rest new_value (default (DDict ∅) (members !! key))
                           end ]> members)
      | _ => DFail
      end
  end.

Inductive Removal :=
  | Unchanged
  | Removed (members : gmap Key Data)
  | FailedRemoval.

Definition is_empty {A} (members : gmap Key A) : bool := size members =? 0.

(** The parent of a pruned dictionary. *)
Definition prune_into {A} (wrap : gmap Key A -> A) (parent : gmap Key A) (key : Key) (result : gmap Key A) : gmap Key A :=
  if is_empty result then delete key parent else <[ key := wrap result ]> parent.

Fixpoint prune_path (path : list Key) (data : Data) : Removal :=
  match path with
  | [] => FailedRemoval
  | key :: rest =>
      match data with
      | DDict members =>
          match members !! key, rest with
          | None, _ => Unchanged
          | Some _, [] => Removed (delete key members)
          | Some member, _ =>
              match prune_path rest member with
              | Removed result => Removed (prune_into DDict members key result)
              | other => other
              end
          end
      | _ => FailedRemoval
      end
  end.

Definition remove_path (path : list Key) (data : Data) : Data :=
  match prune_path path data with Unchanged => data | Removed members => DDict members | FailedRemoval => DFail end.

(** Every value on the way down [path], its end excepted, is a dictionary. *)
Fixpoint passes (path : list Key) (data : Data) : bool :=
  match path with
  | [] => true
  | key :: rest =>
      match data with
      | DDict members =>
          match members !! key, rest with
          | Some member, _ :: _ => passes rest member
          | _, _ => true
          end
      | _ => false
      end
  end.

(** ** The dictionary machines *)
Section machines.
(** What applying a function gives. *)
Context (apply : Data -> Data -> Data).

Fixpoint denote (value : Value) : Data :=
  match value with
  | VDict members => DDict (denote <$> members)
  | VOther other => DOther other
  | VError => DFail
  | VInsert path new_value dict => insert_path path (denote new_value) (denote dict)
  | VRemove path dict => remove_path path (denote dict)
  | VAccess path base => read_data (lookup_path path (denote base))
  | VApply function argument => apply (denote function) (denote argument)
  end.

Fixpoint embed (data : Data) : Value :=
  match data with
  | DDict members => VDict (embed <$> members)
  | DOther other => VOther other
  | DFail => VError
  end.

Definition is_lazy (value : Value) : bool :=
  match value with VDict _ | VOther _ => false | _ => true end.

(** A demand leaves an evaluated value as it is, and evaluates a lazy one, to [None]
    where that fails. *)
Definition demand (value : Value) : option Value :=
  if is_lazy value then match denote value with DFail => None | data => Some (embed data) end else Some value.

(** The loop of [insert_dict_path_in] for [DictInsert]: down to the place, then up
    through the parents. *)
Fixpoint insert_loop (parents : list (gmap Key Value * Key)) (current : gmap Key Value) (head : Key) (rest : list Key)
    (new_value : Value) : gmap Key Value :=
  let place next := foldl (fun result '(parent, head) => <[ head := VDict result ]> parent) (<[ head := next ]> current) parents in
  match rest with
  | [] => place new_value
  | head' :: rest' =>
      match current !! head with
      | None => insert_loop ((current, head) :: parents) ∅ head' rest' new_value
      | Some (VDict nested) => insert_loop ((current, head) :: parents) nested head' rest' new_value
      | Some (VOther _) => place VError
      | Some prior => place (VInsert rest new_value prior)
      end
  end.

Definition insert_dict_path_in (dict : gmap Key Value) (path : list Key) (new_value : Value) : option (gmap Key Value) :=
  match path with [] => None | head :: rest => Some (insert_loop [] dict head rest new_value) end.

(** [RegionalDictBuiltinState::Update] and [finish_insert_in], for [DictInsert] *)
Definition poll_insert (path : list Key) (new_value dict : Value) : option Value :=
  match path with
  | [] => None
  | _ =>
      match demand dict with
      | Some (VDict dict) => VDict <$> insert_dict_path_in dict path new_value
      | _ => None
      end
  end.

(** *** Walks *)
Inductive WalkBuiltin := DictLookup | DictDefines | DictDefault (fallback : Value) | DictRequire (answer : Value) | DictRemove.

(** What a walk answers: a value, the effect of a predicate, a failure, or the
    failure that names an undefined path. *)
Inductive Answer :=
  | Ready (value : Value)
  | Predicate (holds : bool)
  | Failed
  | UndefinedFailure (keys : list Key).

(** The end of a walk: the dictionaries walked, the operand's first, and the member
    found at the end. *)
Inductive Walked :=
  | WalkDefined (walked : list (gmap Key Value)) (member : Value)
  | WalkUndefined (walked : list (gmap Key Value))
  | WalkFailed.

(** [RegionalDictPathWalk::poll_in], from the demand on a dictionary at [keys] *)
Fixpoint walk_path (keys : list Key) (value : Value) (walked : list (gmap Key Value)) : Walked :=
  match keys with
  | [] => WalkFailed
  | key :: rest =>
      match demand value with
      | Some (VDict dict) =>
          match dict !! key, rest with
          | None, _ => WalkUndefined (walked ++ [dict])
          | Some member, [] => WalkDefined (walked ++ [dict]) member
          | Some member, _ => walk_path rest member (walked ++ [dict])
          end
      | _ => WalkFailed
      end
  end.

(** [finish_empty] *)
Definition finish_empty (builtin : WalkBuiltin) (dict : Value) : Answer :=
  match builtin with
  | DictLookup | DictDefault _ => Ready dict
  | DictDefines => Predicate true
  | DictRequire answer => Ready answer
  | DictRemove => Failed
  end.

(** [finish_undefined] *)
Definition finish_undefined (builtin : WalkBuiltin) (keys : list Key) (walked : list (gmap Key Value)) : Answer :=
  match builtin with
  | DictLookup | DictRequire _ => UndefinedFailure keys
  | DictDefines => Predicate false
  | DictDefault fallback => Ready fallback
  | DictRemove => match walked with first :: _ => Ready (VDict first) | [] => Failed end
  end.

(** The removal loop of [finish_defined]: the leaf removed from the deepest
    dictionary, then each parent with its child replaced, or removed where the child
    is left empty. *)
Definition remove_walked (walked : list (gmap Key Value)) (keys : list Key) : option (gmap Key Value) :=
  deepest ← last walked;
  leaf ← last keys;
  Some (foldr (fun '(parent, key) result => prune_into VDict parent key result) (delete leaf deepest)
    (zip (removelast walked) (removelast keys))).

(** [finish_defined] *)
Definition finish_defined (builtin : WalkBuiltin) (keys : list Key) (walked : list (gmap Key Value)) (member : Value) : Answer :=
  match builtin with
  | DictLookup | DictDefault _ => Ready member
  | DictDefines => Predicate true
  | DictRequire answer => Ready answer
  | DictRemove => match remove_walked walked keys with Some result => Ready (VDict result) | None => Failed end
  end.

Definition poll_walk (builtin : WalkBuiltin) (keys : list Key) (dict : Value) : Answer :=
  match keys with
  | [] => finish_empty builtin dict
  | _ =>
      match walk_path keys dict [] with
      | WalkDefined walked member => finish_defined builtin keys walked member
      | WalkUndefined walked => finish_undefined builtin keys walked
      | WalkFailed => Failed
      end
  end.

(** [AccessMachine] on a path of keys, which selects a member at a time
    ([select_dict_member_in]); the last member is left unforced. *)
Fixpoint access_path (keys : list Key) (current : Value) : option Value :=
  match keys with
  | [] => Some current
  | key :: rest =>
      match demand current with
      | Some (VDict dict) => member ← dict !! key; access_path rest member
      | _ => None
      end
  end.
End machines.

(** * The dictionary machines compute their reference definitions

    The first part proves the laws of [insert_path], [remove_path] and [lookup_path]:
    what a path reads after a change at the path, above it, and apart from it. The
    second part proves that the machines of [DictPaths], lazy as they are, compute
    the reference definitions. *)

(** ** Emptiness and induction *)
Lemma is_empty_spec {A} (m : gmap Key A) : is_empty m = true <-> m = ∅.
Proof. unfold is_empty. rewrite Nat.eqb_eq. apply map_size_empty_iff. Qed.

Lemma is_empty_fmap {A B} (f : A -> B) (m : gmap Key A) : is_empty (f <$> m) = is_empty m.
Proof. unfold is_empty. by rewrite map_size_fmap. Qed.

Fixpoint data_size (data : Data) : nat :=
  match data with DDict members => S (map_fold (fun _ d => plus (data_size d)) 0 members) | _ => 1 end.

Lemma data_size_member (members : gmap Key Data) key member :
  members !! key = Some member -> data_size member < data_size (DDict members).
Proof.
  intros E. cbn. rewrite (map_fold_delete_L (fun _ d => plus (data_size d)) 0 key member members); [lia|intros; lia|done].
Qed.

Lemma Data_nested_ind (P : Data -> Prop) :
  (forall members, map_Forall (fun _ => P) members -> P (DDict members)) -> (forall other, P (DOther other)) -> P DFail ->
  forall data, P data.
Proof.
  intros Hd Ho Hf data. remember (data_size data) as n eqn:E. revert data E.
  induction (lt_wf n) as [n _ IH]. intros [members|other|] ->; [|done..].
  apply Hd. intros key member Em. eapply IH; [|done]. by eapply data_size_member.
Qed.

(** ** Reading along a path *)
Lemma lookup_path_app p q d :
  lookup_path (p ++ q) d = match lookup_path p d with Defined v => lookup_path q v | other => other end.
Proof.
  revert d. induction p as [|k p IH]; intros d; [done|]. destruct d as [m| |]; [|done..]. cbn.
  destruct (m !! k); [apply IH|done].
Qed.

(** Two paths neither of which extends the other part at some key. *)
Lemma disjoint_cons {A} `{EqDecision A} (k k' : A) p q :
  ~ (k :: p) `prefix_of` (k' :: q) -> ~ (k' :: q) `prefix_of` (k :: p) ->
  k <> k' \/ k = k' /\ ~ p `prefix_of` q /\ ~ q `prefix_of` p.
Proof.
  intros Hp Hq. destruct (decide (k = k')) as [->|]; [|by left]. right. split; [done|].
  split; intros ?; [apply Hp|apply Hq]; by apply prefix_cons.
Qed.

(** The equations of the definitions at a key that is not the last. *)
Lemma insert_path_cons k p new m :
  p <> [] -> insert_path (k :: p) new (DDict m) = DDict (<[ k := insert_path p new (default (DDict ∅) (m !! k)) ]> m).
Proof. by destruct p. Qed.

Lemma passes_cons k p m :
  p <> [] -> passes (k :: p) (DDict m) = match m !! k with Some v => passes p v | None => true end.
Proof. by destruct p. Qed.

Lemma prune_path_cons k p m :
  p <> [] -> prune_path (k :: p) (DDict m)
  = match m !! k with
    | None => Unchanged
    | Some v => match prune_path p v with Removed result => Removed (prune_into DDict m k result) | other => other end
    end.
Proof. destruct p; [done|]. cbn. by destruct (m !! k). Qed.

(** *** Insertion *)
Lemma lookup_insert_below q r new d :
  q <> [] -> passes q d -> lookup_path (q ++ r) (insert_path q new d) = lookup_path r new.
Proof.
  revert d. induction q as [|k [|k' q] IH]; intros d Hq Hp; [done| |].
  - destruct d as [m| |]; [|done..]. cbn. by rewrite lookup_insert_eq.
  - destruct d as [m| |]; [|done..]. change ((k :: k' :: q) ++ r) with (k :: (k' :: q) ++ r).
    cbn [insert_path lookup_path]. rewrite lookup_insert_eq. apply IH; [done|].
    cbn [passes] in Hp. by destruct (m !! k).
Qed.

Lemma lookup_insert_apart p q new d :
  ~ p `prefix_of` q -> ~ q `prefix_of` p -> lookup_path p (insert_path q new d) = lookup_path p d.
Proof.
  revert q d. induction p as [|k p IH]; intros [|k' q] d Hp Hq; try (by destruct Hp; apply prefix_nil); try (by destruct Hq; apply prefix_nil).
  destruct d as [m| |]; [|done..]. cbn [insert_path lookup_path].
  destruct (disjoint_cons _ _ _ _ Hp Hq) as [Hk|(-> & Hp' & Hq')]; [by rewrite lookup_insert_ne|].
  rewrite lookup_insert_eq. destruct q as [|k2 q]; [by destruct Hq'; apply prefix_nil|].
  rewrite (IH _ _ Hp' Hq'). destruct (m !! k') as [member|]; [done|].
  destruct p; [by destruct Hp'; apply prefix_nil|done].
Qed.

Lemma lookup_insert_above p s new d :
  s <> [] -> lookup_path p (insert_path (p ++ s) new d)
  = match lookup_path p d with
    | Defined v => Defined (insert_path s new v)
    | Undefined => Defined (insert_path s new (DDict ∅))
    | FailedRead => FailedRead
    end.
Proof.
  intros Hs. revert d. induction p as [|k p IH]; intros d; [done|]. destruct d as [m| |]; [|done..].
  assert (p ++ s <> []) by (by destruct p, s).
  cbn [app lookup_path]. rewrite insert_path_cons by done. rewrite lookup_insert_eq, IH.
  destruct (m !! k) as [member|]; [done|]. cbn. destruct p as [|k2 p]; [done|]. cbn [lookup_path]. rewrite lookup_empty. done.
Qed.

(** *** Removal *)
Lemma prune_path_passes p d : p <> [] -> passes p d -> prune_path p d <> FailedRemoval.
Proof.
  revert d. induction p as [|k [|k' p] IH]; intros d Hne Hp; [done| |]; destruct d as [m| |]; try done; cbn in Hp |- *.
  - by destruct (m !! k).
  - destruct (m !! k) as [v|]; [|done]. specialize (IH v ltac:(done) Hp). cbn in IH. by destruct (match v with DDict _ => _ | _ => _ end).
Qed.

Lemma prune_unchanged p d : prune_path p d = Unchanged -> lookup_path p d = Undefined.
Proof.
  revert d. induction p as [|k p IH]; intros d; [done|]. destruct d as [m| |]; [|done..]. cbn.
  destruct (m !! k) as [v|]; [|done]. destruct p as [|k' p]; [done|]. intros E. apply IH. by destruct (prune_path (k' :: p) v).
Qed.

Lemma prune_undefined p d : p <> [] -> lookup_path p d = Undefined -> prune_path p d = Unchanged.
Proof.
  revert d. induction p as [|k p IH]; intros d Hp; [done|]. destruct d as [m| |]; [|done..]. cbn [lookup_path].
  destruct p as [|k' p]; [cbn; by destruct (m !! k)|]. rewrite prune_path_cons by done.
  destruct (m !! k) as [v|]; [|done]. intros E. by rewrite (IH v).
Qed.

Lemma lookup_pruned k (parent result : gmap Key Data) p :
  p <> [] -> match prune_into DDict parent k result !! k with Some v => lookup_path p v | None => Undefined end
  = lookup_path p (DDict result).
Proof.
  intros Hp. unfold prune_into. destruct (is_empty result) eqn:E.
  - apply is_empty_spec in E as ->. rewrite lookup_delete_eq. destruct p; [done|]. cbn. by rewrite lookup_empty.
  - by rewrite lookup_insert_eq.
Qed.

Lemma lookup_removed_below q r d members :
  prune_path q d = Removed members -> lookup_path (q ++ r) (DDict members) = Undefined.
Proof.
  revert d members. induction q as [|k q IH]; intros d members; [done|]. destruct d as [m| |]; [|done..]. cbn [prune_path].
  destruct (m !! k) as [v|] eqn:Ek; [|done]. destruct q as [|k' q].
  - intros [= <-]. cbn. by rewrite lookup_delete_eq.
  - destruct (prune_path (k' :: q) v) as [|result|] eqn:E; [done| |done]. intros [= <-].
    change ((k :: k' :: q) ++ r) with (k :: (k' :: q) ++ r). cbn [lookup_path]. rewrite lookup_pruned; [by eapply IH|done].
Qed.

Lemma lookup_removed_apart p q d members :
  ~ p `prefix_of` q -> ~ q `prefix_of` p -> prune_path q d = Removed members ->
  lookup_path p (DDict members) = lookup_path p d.
Proof.
  revert q d members. induction p as [|k p IH]; intros [|k' q] d members Hp Hq; try (by destruct Hp; apply prefix_nil); try (by destruct Hq; apply prefix_nil).
  destruct d as [m| |]; [|done..]. cbn [prune_path]. destruct (m !! k') as [v|] eqn:Ek; [|done].
  destruct (disjoint_cons _ _ _ _ Hp Hq) as [Hk|(-> & Hp' & Hq')].
  - destruct q as [|k2 q].
    + intros [= <-]. cbn. by rewrite lookup_delete_ne.
    + destruct (prune_path (k2 :: q) v); [done| |done]. intros [= <-]. cbn [lookup_path]. unfold prune_into.
      destruct (is_empty _); [by rewrite lookup_delete_ne|by rewrite lookup_insert_ne].
  - destruct q as [|k2 q]; [by destruct Hq'; apply prefix_nil|].
    destruct (prune_path (k2 :: q) v) as [|result|] eqn:E; [done| |done]. intros [= <-]. cbn [lookup_path].
    rewrite Ek, lookup_pruned; [by eapply IH|]. intros ->. destruct Hp'. apply prefix_nil.
Qed.

(** What a strict prefix of a removed path reads. *)
Definition removed_above (top : bool) (s : list Key) (read : PathRead) : PathRead :=
  match read with
  | Defined v =>
      match prune_path s v with
      | Removed members => if negb top && is_empty members then Undefined else Defined (DDict members)
      | _ => Defined v
      end
  | other => other
  end.

Lemma lookup_removed_above p s d :
  s <> [] -> passes (p ++ s) d ->
  lookup_path p (remove_path (p ++ s) d) = removed_above (match p with [] => true | _ => false end) s (lookup_path p d).
Proof.
  intros Hs. unfold remove_path. revert d. induction p as [|k p IH]; intros d Hp.
  { cbn. pose proof (prune_path_passes s d Hs Hp) as Hf. by destruct (prune_path s d). }
  destruct d as [m| |]; [|done..]. assert (Hne : p ++ s <> []) by (by destruct p, s).
  cbn [app lookup_path] in Hp |- *. rewrite passes_cons in Hp by done. rewrite prune_path_cons by done.
  destruct (m !! k) as [v|] eqn:Ek; [|cbn; by rewrite Ek].
  specialize (IH v Hp). pose proof (prune_path_passes (p ++ s) v Hne Hp) as Hf.
  destruct (prune_path (p ++ s) v) as [|result|] eqn:E; [| |done].
  - cbn. rewrite Ek. apply prune_unchanged in E. rewrite lookup_path_app in E.
    destruct (lookup_path p v) as [w| |] eqn:Ew; [|done..]. cbn. by rewrite (prune_undefined s w).
  - destruct p as [|k2 p].
    + cbn in E |- *. cbn in IH. rewrite E in *. cbn. unfold prune_into. destruct (is_empty result) eqn:Ee.
      * by rewrite lookup_delete_eq.
      * by rewrite lookup_insert_eq.
    + etrans; [by apply lookup_pruned|]. rewrite IH. by destruct (lookup_path (k2 :: p) v).
Qed.

(** ** The machines *)
Section machines.
Context (apply : Data -> Data -> Data).
Notation denote := (denote apply).
Notation demand := (demand apply).

Lemma denote_embed d : denote (embed d) = d.
Proof.
  induction d as [m IH|other|] using Data_nested_ind; [|done..]. cbn. f_equal.
  rewrite <- map_fmap_compose. apply map_eq. intros key. rewrite lookup_fmap.
  destruct (m !! key) as [v|] eqn:E; [|done]. cbn. f_equal. by apply (IH key).
Qed.

(** A demand finds the meaning, and fails when that is a failure. *)
Lemma demand_correct v :
  match demand v with
  | Some w => denote w = denote v /\ is_lazy w = false /\ denote v <> DFail
  | None => denote v = DFail
  end.
Proof.
  unfold DictPaths.demand. destruct (is_lazy v) eqn:E.
  - destruct (denote v) as [m|other|] eqn:Ed; [..|done]; rewrite denote_embed; done.
  - repeat split; [done|]. by destruct v.
Qed.

(** A demand for a dictionary. *)
Lemma demand_dict v :
  match demand v with
  | Some (VDict m) => denote v = DDict (denote <$> m)
  | _ => match denote v with DDict _ => False | _ => True end
  end.
Proof.
  pose proof (demand_correct v) as Hd. destruct (demand v) as [w|]; [|by rewrite Hd].
  destruct Hd as (Ew & El & Hf). destruct w; try done; rewrite <- Ew; done.
Qed.

(** *** Insertion *)
Definition rebuild (d : Data) (parent : gmap Key Value * Key) : Data :=
  match d with DDict _ => DDict (<[ parent.2 := d ]> (denote <$> parent.1)) | _ => d end.

Lemma rebuild_place parents current head next :
  DDict (denote <$> foldl (fun result '(parent, head) => <[ head := VDict result ]> parent) (<[ head := next ]> current) parents)
  = foldl rebuild (DDict (<[ head := denote next ]> (denote <$> current))) parents.
Proof.
  rewrite <- fmap_insert. generalize (<[ head := next ]> current). clear.
  induction parents as [|[parent head] parents IH]; intros m; [done|]. cbn. rewrite IH. f_equal. cbn. by rewrite fmap_insert.
Qed.

Lemma insert_loop_correct rest new : forall parents current head,
  DDict (denote <$> insert_loop parents current head rest new)
  = foldl rebuild (insert_path (head :: rest) (denote new) (DDict (denote <$> current))) parents.
Proof.
  induction rest as [|k rest IH]; intros parents current head.
  - cbn [insert_loop insert_path]. apply rebuild_place.
  - cbn [insert_loop]. rewrite insert_path_cons by done. rewrite lookup_fmap.
    destruct (current !! head) as [[nested|other| |p n d|p d|p b|f a]|]; cbn [option_fmap option_map default];
      try (rewrite rebuild_place; done).
    + by rewrite IH.
    + rewrite IH, fmap_empty. done.
Qed.

Lemma poll_insert_correct path new dict :
  insert_path path (denote new) (denote dict) = match poll_insert apply path new dict with Some v => denote v | None => DFail end.
Proof.
  destruct path as [|head rest]; [done|]. cbn [poll_insert]. pose proof (demand_dict dict) as Hd.
  destruct (demand dict) as [[m|other| |p n d|p d|p b|f a]|].
  1: { rewrite Hd. cbn. by rewrite (insert_loop_correct rest new [] m head). }
  all: by destruct (denote dict).
Qed.

(** *** Walks *)
Lemma walk_path_correct keys : forall value walked,
  keys <> [] ->
  match walk_path apply keys value walked with
  | WalkDefined walked' member => exists ws,
      walked' = walked ++ ws /\ length ws = length keys /\ lookup_path keys (denote value) = Defined (denote member) /\
      exists result, remove_walked ws keys = Some result /\ prune_path keys (denote value) = Removed (denote <$> result)
  | WalkUndefined walked' => exists m ws,
      walked' = walked ++ m :: ws /\ denote value = DDict (denote <$> m) /\ lookup_path keys (denote value) = Undefined
  | WalkFailed => lookup_path keys (denote value) = FailedRead /\ prune_path keys (denote value) = FailedRemoval
  end.
Proof.
  induction keys as [|key rest IH]; intros value walked Hne; [done|]. clear Hne. cbn [walk_path].
  pose proof (demand_dict value) as Hd. destruct (demand value) as [[m|other| |p n d|p d|p b|f a]|].
  2-8: by destruct (denote value).
  rewrite Hd. cbn [lookup_path]. rewrite lookup_fmap. destruct (m !! key) as [member|] eqn:Em.
  2: { exists m, []. done. }
  cbn [fmap option_fmap option_map]. destruct rest as [|key' rest].
  - exists [m]. split; [done|]. split; [done|]. split; [done|]. exists (delete key m).
    split; [done|]. unfold prune_path. rewrite lookup_fmap, Em. cbn [fmap option_fmap option_map]. by rewrite fmap_delete.
  - rewrite prune_path_cons by done. rewrite lookup_fmap, Em. cbn [fmap option_fmap option_map].
    specialize (IH member (walked ++ [m]) ltac:(done)).
    destruct (walk_path apply (key' :: rest) member (walked ++ [m])) as [walked' end_|walked'|].
    + destruct IH as (ws & -> & El & Ek & result & Er & Ep). exists (m :: ws). rewrite <- app_assoc.
      split; [done|]. split; [cbn in *; lia|]. split; [done|]. rewrite Ep.
      exists (prune_into VDict m key result). destruct ws as [|w ws]; [done|]. split.
      * revert Er. unfold remove_walked. cbn [last]. destruct (last (w :: ws)) as [deepest|] eqn:Edeep; [|done]. cbn.
        destruct (last (key' :: rest)) as [leaf|]; [|done]. cbn. intros [= <-]. done.
      * f_equal. unfold prune_into. rewrite is_empty_fmap. destruct (is_empty result); [by rewrite fmap_delete|by rewrite fmap_insert].
    + destruct IH as (m' & ws & -> & Ed & Ek). exists m, (m' :: ws). rewrite <- app_assoc. done.
    + destruct IH as [Ek Ep]. by rewrite Ep.
Qed.

(** What a builtin answers for what its path reads. *)
Definition walk_answer (builtin : WalkBuiltin) (keys : list Key) (dict : Data) (answer : Answer) : Prop :=
  match builtin, lookup_path keys dict with
  | DictRemove, _ =>
      match answer with Ready v => denote v = remove_path keys dict | _ => answer = Failed /\ remove_path keys dict = DFail end
  | _, FailedRead => answer = Failed
  | (DictLookup | DictDefault _), Defined member => exists v, answer = Ready v /\ denote v = member
  | DictDefines, Defined _ => answer = Predicate true
  | DictRequire then_, Defined _ => answer = Ready then_
  | (DictLookup | DictRequire _), Undefined => answer = UndefinedFailure keys
  | DictDefines, Undefined => answer = Predicate false
  | DictDefault fallback, Undefined => answer = Ready fallback
  end.

Lemma poll_walk_correct builtin keys dict : walk_answer builtin keys (denote dict) (poll_walk apply builtin keys dict).
Proof.
  unfold poll_walk, walk_answer. destruct keys as [|key keys].
  { destruct builtin; cbn; try done; eexists; done. }
  pose proof (walk_path_correct (key :: keys) dict [] ltac:(done)) as Hw.
  destruct (walk_path apply (key :: keys) dict []) as [walked member|walked|].
  - destruct Hw as (ws & -> & _ & -> & result & Er & Ep). cbn [app].
    destruct builtin; cbn [finish_defined]; try done; [by exists member..|].
    rewrite Er. unfold remove_path. by rewrite Ep.
  - destruct Hw as (m & ws & -> & Ed & Ek). rewrite Ek. destruct builtin; cbn [finish_undefined app]; try done.
    unfold remove_path. by rewrite (prune_undefined (key :: keys) (denote dict) ltac:(done) Ek).
  - destruct Hw as [-> Ep]. destruct builtin; try done. unfold remove_path. by rewrite Ep.
Qed.

(** An access selects what the path reads. *)
Lemma access_path_correct keys : forall base,
  read_data (lookup_path keys (denote base)) = match access_path apply keys base with Some v => denote v | None => DFail end.
Proof.
  induction keys as [|key rest IH]; intros base; [done|]. cbn [access_path].
  pose proof (demand_dict base) as Hd. destruct (demand base) as [[m|other| |p n d|p d|p b|f a]|].
  2-8: by destruct (denote base).
  rewrite Hd. cbn [lookup_path]. rewrite lookup_fmap. destruct (m !! key) as [member|]; [apply IH|done].
Qed.

(** C37. [dictionary_machines_correct]: the machines that run a suspended dictionary
    computation compute its meaning. An insertion, which adds the dictionaries on its
    way, defers through a lazy one and puts a failure where a value is no dictionary;
    every walk (lookup, definedness, default, requirement, and the removal that prunes
    the dictionaries it empties, all answers included); and an access: each gives a
    value whose meaning is that of the reference definition, or fails where that is a
    failure. *)
Theorem dictionary_machines_correct (keys : list Key) (new dict : Value) (builtin : WalkBuiltin) :
  denote (VInsert keys new dict) = match poll_insert apply keys new dict with Some v => denote v | None => DFail end /\
  walk_answer builtin keys (denote dict) (poll_walk apply builtin keys dict) /\
  denote (VAccess keys dict) = match access_path apply keys dict with Some v => denote v | None => DFail end.
Proof. split; [apply poll_insert_correct|split; [apply poll_walk_correct|apply access_path_correct]]. Qed.
End machines.
