(* ===== verification/StoreJournal.v ===== *)
(** * Journals of the reflection store ([reflection/store.rs])

    A transaction works on a journal over a snapshot of the store: ordered edits,
    drafts of the volumes it has written ([views]), and holds on the cells of the
    volumes it touches. The observation index is shared by every clone of the journal,
    and the reads of a branch by the clones of the branch: both live in the
    [Attempt] of the transaction and not in the journal.

    A volume is named by its ID, which also stands for its managed cell: cells and IDs
    are allocated together. [Shared] holds what a store shares with its snapshots and
    with the collector: the next volume ID, the pending promises, the status each
    breaker keeps, the volumes whose cells a collection found unreachable (their
    committed versions are cleared), the count of completed collections, and the lost
    resolvers reported so far. *)
From stdpp Require Import base option list numbers gmap strings.
From Stdlib Require Import ZArith.
From S2P Require Import Prelude Conflict DictPaths.

Local Open Scope Z_scope.

Definition PromiseId := Z.

(** [Resolution], [PromiseStatus] *)
Inductive Resolution := Fulfill (value : Value) | Break (failure : Value).
Inductive PromiseStatus := Pending | Fulfilled | Broken.
#[export] Instance PromiseStatus_eq_dec : EqDecision PromiseStatus.
Proof. solve_decision. Defined.

Definition fulfilled (resolution : Resolution) : bool := match resolution with Fulfill _ => true | Break _ => false end.
Definition resolution_status (resolution : Resolution) : PromiseStatus :=
  if fulfilled resolution then Fulfilled else Broken.

(** [StoreEdit]: an edit without data writes a virtual resource. [resolver] says
    whether the edit of a resolution holds its resolver's breaker. *)
Inductive StoreEdit :=
  | SetEdit (address : ConflictAddress) (value : option Value)
  | RewriteEdit (address : ConflictAddress) (updater : option Value)
  | RemoveEdit (address : ConflictAddress)
  | CreateEdit (address : ConflictAddress) (initial : Value)
  | ResolveEdit (address : ConflictAddress) (promise : PromiseId) (resolver : bool) (resolution : Resolution).

(** [StoreEdit::address] *)
Definition edit_address (edit : StoreEdit) : ConflictAddress :=
  match edit with
  | SetEdit address _ | RewriteEdit address _ | RemoveEdit address | CreateEdit address _
  | ResolveEdit address _ _ _ => address
  end.
Definition edit_volume (edit : StoreEdit) : VolumeId := volume (edit_address edit).
Definition edit_path (edit : StoreEdit) : ConflictPath := path (edit_address edit).

(** ** Volumes *)
Definition heap_volume : VolumeId := 1.
Definition runtime_volume : VolumeId := 2.
Definition environment_volume : VolumeId := 3.

Record Shared := MkShared {
  next_volume : Z;
  pending : gset PromiseId;
  breakers : gmap PromiseId PromiseStatus;
  cleared : gset VolumeId;
  completed_epoch : Z;
  lost_resolvers : list PromiseId;
}.

(** [reserve_volume]; volume IDs are nonzero *)
Definition reserve_volume (shared : Shared) : option (VolumeId * Shared) :=
  let id := next_volume shared in
  next ← checked_add id 1;
  if id =? 0 then None
  else Some (id, MkShared next (pending shared) (breakers shared) (cleared shared) (completed_epoch shared) (lost_resolvers shared)).

(** [version_value_at_path] without its path: a version whose volume's cell was
    collected holds nothing. *)
Definition version_value (shared : Shared) (versions : gmap VolumeId Value) (volume : VolumeId) : option Value :=
  if bool_decide (volume ∈ cleared shared) then None else versions !! volume.

(** [StoreSnapshot] *)
Record StoreSnapshot := MkSnapshot {
  identity : Z;
  snapshot_revision : Z;
  snapshot_kept : gset VolumeId;
  snapshot_versions : gmap VolumeId Value;
}.
Definition has_volume (snapshot : StoreSnapshot) (volume : VolumeId) : bool :=
  bool_decide (is_Some (snapshot_versions snapshot !! volume)).

(** ** Values at paths *)
(** [stored_key] along a path, and the keys of [path_list_in] as the dictionary
    builtin reads them. *)
Definition stored_path (path : ConflictPath) : list Key := stored_key <$> path.
Definition written_path (path : ConflictPath) : list Key := value_from_key <$> path.

Definition lazy_core_value_path (value : Value) (path : ConflictPath) : Value :=
  match path with [] => value | _ => VAccess (stored_path path) value end.

Definition apply_value_at_path_in (root : Value) (path : ConflictPath) (value : Value) : Value :=
  match path with [] => value | _ => VInsert (written_path path) value root end.

Definition remove_path_in (root : Value) (path : ConflictPath) : Value := VRemove (written_path path) root.

(** [apply_edit_in] *)
Definition apply_edit_in (current : Value) (edit : StoreEdit) : Value :=
  match edit with
  | SetEdit _ None | RewriteEdit _ None | ResolveEdit _ _ _ _ => current
  | CreateEdit _ initial => initial
  | SetEdit address (Some value) => apply_value_at_path_in current (path address) value
  | RemoveEdit address => remove_path_in current (path address)
  | RewriteEdit address (Some updater) =>
      let prior := lazy_core_value_path current (path address) in
      apply_value_at_path_in current (path address) (VApply updater prior)
  end.

(** [dependency]: what a read of a path depends on, given the edits before it. The
    last edit is considered first. *)
Definition dependency_step (volume : VolumeId) (edit : StoreEdit) (path : ConflictPath) : option ConflictPath :=
  let here := bool_decide (edit_volume edit = volume) && path_is_prefix_of (edit_path edit) path in
  match edit with
  | SetEdit _ _ | RemoveEdit _ | ResolveEdit _ _ _ _ => if here then None else Some path
  | CreateEdit _ _ => if bool_decide (edit_volume edit = volume) then None else Some path
  | RewriteEdit _ _ => if here then Some (edit_path edit) else Some path
  end.
Fixpoint dependency_from (edits_last_first : list StoreEdit) (volume : VolumeId) (path : ConflictPath) : option ConflictPath :=
  match edits_last_first with
  | [] => Some path
  | edit :: earlier =>
      match dependency_step volume edit path with
      | None => None
      | Some path' => dependency_from earlier volume path'
      end
  end.
Definition dependency (edits : list StoreEdit) (volume : VolumeId) (path : ConflictPath) : option ConflictPath :=
  dependency_from (reverse edits) volume path.

(** [virtual_keys], [promise_path] *)
Definition virtual_keys (path : ConflictPath) : ConflictPath := atom_from_text "virtual" :: path.
Definition promise_path (promise : PromiseId) : ConflictPath := [atom_from_text "promises"; KNumber promise 1].

(** ** Journals *)
(** [Branch]: the edits at the fork, and which of the attempt's lists records the
    branch's reads. *)
Record Branch := MkBranch { base : nat; reads : nat }.

Record StoreJournal := MkJournal {
  snapshot : StoreSnapshot;
  views : gmap VolumeId Value;
  cells : gset VolumeId;
  edits : list StoreEdit;
  branch : option Branch;
}.

Definition set_edits (journal : StoreJournal) (edits' : list StoreEdit) : StoreJournal :=
  MkJournal (snapshot journal) (views journal) (cells journal) edits' (branch journal).
Definition set_view (journal : StoreJournal) (volume : VolumeId) (draft : Value) : StoreJournal :=
  MkJournal (snapshot journal) (<[ volume := draft ]> (views journal)) (cells journal) (edits journal) (branch journal).
Definition keep_cell (journal : StoreJournal) (volume : VolumeId) : StoreJournal :=
  MkJournal (snapshot journal) (views journal) ({[ volume ]} ∪ cells journal) (edits journal) (branch journal).
Definition record_edit (journal : StoreJournal) (edit : StoreEdit) : StoreJournal := set_edits journal (edits journal ++ [edit]).

(** [StoreJournal::new] *)
Definition new_journal (snapshot : StoreSnapshot) : StoreJournal := MkJournal snapshot ∅ ∅ [] None.

(** [StoreJournal::value_at_in] *)
Definition value_at_in (shared : Shared) (journal : StoreJournal) (volume : VolumeId) (path : ConflictPath) : option Value :=
  value ← match views journal !! volume with
          | Some draft => Some draft
          | None => version_value shared (snapshot_versions (snapshot journal)) volume
          end;
  Some (lazy_core_value_path value path).

(** [StoreJournal::volume_cell_in], as whether there is one *)
Definition volume_cell_in (shared : Shared) (journal : StoreJournal) (volume : VolumeId) : bool :=
  bool_decide (volume ∈ cells journal)
  || bool_decide (is_Some (version_value shared (snapshot_versions (snapshot journal)) volume)).

(** [StoreJournal::push_edit] *)
Definition push_edit (shared : Shared) (journal : StoreJournal) (volume : VolumeId) (edit : StoreEdit) : StoreJournal :=
  let journal :=
    match value_at_in shared journal volume [] with
    | Some current =>
        let journal := if volume_cell_in shared journal volume then keep_cell journal volume else journal in
        set_view journal volume (apply_edit_in current edit)
    | None => journal
    end in
  record_edit journal edit.

(** [StoreJournal::replay] *)
Definition replay (shared : Shared) (journal : StoreJournal) (edit : StoreEdit) : StoreJournal :=
  match edit with
  | SetEdit _ None | RewriteEdit _ None | ResolveEdit _ _ _ _ => record_edit journal edit
  | SetEdit _ _ | RewriteEdit _ _ | RemoveEdit _ => push_edit shared journal (edit_volume edit) edit
  | CreateEdit _ initial =>
      record_edit (keep_cell (set_view journal (edit_volume edit) initial) (edit_volume edit)) edit
  end.

(** [create_volume_in] *)
Definition journal_create_volume (shared : Shared) (journal : StoreJournal) (initial : Value)
  : option (VolumeId * Shared * StoreJournal) :=
  '(volume, shared) ← reserve_volume shared;
  Some (volume, shared, replay shared journal (CreateEdit (reflection_root volume) initial)).

(** [write_by_id_in], [rewrite_by_id_in], [remove_by_id_in] *)
Definition write_by_id (shared : Shared) (journal : StoreJournal) (volume : VolumeId) (path : ConflictPath) (value : Value) :=
  push_edit shared journal volume (SetEdit (Reflection volume path) (Some value)).
Definition rewrite_by_id (shared : Shared) (journal : StoreJournal) (volume : VolumeId) (path : ConflictPath) (updater : Value) :=
  push_edit shared journal volume (RewriteEdit (Reflection volume path) (Some updater)).
Definition remove_by_id (shared : Shared) (journal : StoreJournal) (volume : VolumeId) (path : ConflictPath) :=
  push_edit shared journal volume (RemoveEdit (Reflection volume path)).

(** [write_virtual], [rewrite_virtual] *)
Definition virtual_address (path : ConflictPath) : ConflictAddress := Reflection runtime_volume (virtual_keys path).
Definition write_virtual (journal : StoreJournal) (path : ConflictPath) : StoreJournal :=
  record_edit journal (SetEdit (virtual_address path) None).
Definition rewrite_virtual (journal : StoreJournal) (path : ConflictPath) : StoreJournal :=
  record_edit journal (RewriteEdit (virtual_address path) None).

(** *** Promises *)
Definition resolved_promise (edit : StoreEdit) : option PromiseId :=
  match edit with ResolveEdit _ promise _ _ => Some promise | _ => None end.
Definition resolved_promises (edits : list StoreEdit) : list PromiseId := omap resolved_promise edits.

(** [staged_status]: the status the first resolution staged gives *)
Definition staged_status (journal : StoreJournal) (promise : PromiseId) : option PromiseStatus :=
  head (omap (fun edit => match edit with
                          | ResolveEdit _ staged _ resolution =>
                              if staged =? promise then Some (resolution_status resolution) else None
                          | _ => None
                          end) (edits journal)).
Definition resolves_any (journal : StoreJournal) : bool :=
  existsb (fun edit => match edit with ResolveEdit _ _ _ _ => true | _ => false end) (edits journal).
Definition resolves_cell (journal : StoreJournal) (promise : PromiseId) : bool :=
  existsb (fun edit => match edit with ResolveEdit _ staged _ _ => staged =? promise | _ => false end) (edits journal).

Definition stage_resolution (journal : StoreJournal) (promise : PromiseId) (resolver : bool) (resolution : Resolution) : StoreJournal :=
  record_edit journal (ResolveEdit (Reflection runtime_volume (promise_path promise)) promise resolver resolution).

(** [resolve], through a resolver whose breaker keeps the status *)
Inductive ResolveError := AlreadyResolved | ResolvedByTransaction.
Definition breaker_status (shared : Shared) (promise : PromiseId) : PromiseStatus := default Pending (breakers shared !! promise).
Definition resolve (shared : Shared) (journal : StoreJournal) (promise : PromiseId) (resolution : Resolution)
  : outcome ResolveError StoreJournal :=
  if negb (bool_decide (breaker_status shared promise = Pending)) then Err AlreadyResolved
  else if bool_decide (is_Some (staged_status journal promise)) then Err ResolvedByTransaction
  else Ok (stage_resolution journal promise true resolution).

(** [break_lost] *)
Definition break_lost (shared : Shared) (journal : StoreJournal) (promise : PromiseId) (resolution : Resolution) : bool * StoreJournal :=
  if negb (bool_decide (promise ∈ pending shared)) || bool_decide (is_Some (staged_status journal promise)) then (false, journal)
  else (true, stage_resolution journal promise false resolution).

(** *** Reads *)
Section reads.
Context {Index : Type} `{ConflictAnalysis Index}.

Record Attempt := MkAttempt { observations : Index; branch_reads : list (list ConflictAddress) }.

Definition new_attempt : Attempt := MkAttempt begin [].
Definition record_observation (attempt : Attempt) (address : ConflictAddress) : Attempt :=
  MkAttempt (observe (observations attempt) address) (branch_reads attempt).
Definition record_branch_read (attempt : Attempt) (index : nat) (addresses : list ConflictAddress) : Attempt :=
  MkAttempt (observations attempt) (alter (fun reads => reads ++ addresses) index (branch_reads attempt)).

(** [StoreJournal::branch] *)
Definition fork (attempt : Attempt) (journal : StoreJournal) : Attempt * StoreJournal :=
  (MkAttempt (observations attempt) (branch_reads attempt ++ [[]]),
   MkJournal (snapshot journal) (views journal) (cells journal) (edits journal)
     (Some (MkBranch (length (edits journal)) (length (branch_reads attempt))))).

(** [observe_read_by_id], and whether the read observed the snapshot *)
Definition observe_read_by_id (attempt : Attempt) (journal : StoreJournal) (volume : VolumeId) (path : ConflictPath) : Attempt * bool :=
  let attempt :=
    match branch journal with
    | Some b =>
        match dependency (drop (base b) (edits journal)) volume path with
        | Some read => record_branch_read attempt (reads b) [Reflection volume read]
        | None => attempt
        end
    | None => attempt
    end in
  if negb (has_volume (snapshot journal) volume) then (record_observation attempt (Reflection volume path), true)
  else match dependency (edits journal) volume path with
       | None => (attempt, false)
       | Some path' => (record_observation attempt (Reflection volume path'), true)
       end.

(** [observe_virtual_read], [observe_promise_read] *)
Definition observe_virtual_read (attempt : Attempt) (journal : StoreJournal) (path : ConflictPath) :=
  observe_read_by_id attempt journal runtime_volume (virtual_keys path).
Definition observe_promise_read (attempt : Attempt) (journal : StoreJournal) (promise : PromiseId) :=
  observe_read_by_id attempt journal runtime_volume (promise_path promise).

(** [read_volume_in], of a live volume; [observe_volume_read] records the read *)
Definition read_volume_in (shared : Shared) (journal : StoreJournal) (volume : VolumeId) : option Value * StoreJournal :=
  let journal := keep_cell journal volume in (value_at_in shared journal volume [], journal).

(** [resolves_as_well] *)
Definition resolves_as_well (journal branched : StoreJournal) : option bool :=
  b ← branch branched;
  let ours := resolved_promises (drop (base b) (edits journal)) in
  Some (existsb (fun promise => bool_decide (promise ∈ ours)) (resolved_promises (drop (base b) (edits branched)))).

(** [merge_branch]: [None] where [branched] is no branch *)
Definition merge_branch (shared : Shared) (attempt : Attempt) (journal branched : StoreJournal)
  : option (bool * Attempt * StoreJournal) :=
  b ← branch branched;
  let read := default [] (branch_reads attempt !! reads b) in
  if (length (edits journal) <? base b)%nat then Some (false, attempt, journal)
  else
    let later := drop (base b) (edits journal) in
    if existsb (fun r => existsb (fun edit => overlaps (edit_address edit) r) later) read
    then Some (false, attempt, journal)
    else
      let attempt :=
        match branch journal with
        | Some own =>
            let edits_before := if (base own <=? base b)%nat then drop (base own) (take (base b) (edits journal)) else [] in
            let inherited := omap (fun r => Reflection (volume r) <$> dependency edits_before (volume r) (path r)) read in
            record_branch_read attempt (reads own) inherited
        | None => attempt
        end in
      let journal :=
        MkJournal (snapshot journal) (views journal) (cells branched ∪ cells journal) (edits journal) (branch journal) in
      Some (true, attempt, foldl (replay shared) journal (drop (base b) (edits branched))).
End reads.
Arguments Attempt Index : clear implicits.
