(* ===== verification/ReflectionStore.v ===== *)
(** * The reflection store and its commits ([reflection/store.rs])

    The store holds each volume's committed version, the last revision at which each
    address changed, and the volumes it keeps or has revoked. A commit validates a
    journal (no edit of a revoked volume, no change since the journal's snapshot that
    its observations may conflict with, no resolution of a promise that is no longer
    pending), then installs it: the journal's own drafts where the store has not
    changed since the snapshot, and its edits replayed on the current versions
    otherwise. *)
From stdpp Require Import base option list numbers gmap.
From Stdlib Require Import ZArith.
From S2P Require Import Prelude Conflict DictPaths StoreJournal.

Local Open Scope Z_scope.

(** [Settled] *)
Record Settled := MkSettled { settled_promise : PromiseId; settled_resolution : Resolution }.

Record ReflectionStore := MkStore {
  store_identity : Z;
  kept : gset VolumeId;
  revoked : gset VolumeId;
  settled : list Settled;
  versions : gmap VolumeId Value;
  pruned_at : Z;
  revision : Z;
  latest_changes : gmap ConflictAddress Z;
}.

Inductive StoreCommitResult := Committed | Conflict | MissingVolume (volume : VolumeId).
#[export] Instance StoreCommitResult_eq_dec : EqDecision StoreCommitResult.
Proof. solve_decision. Defined.

(** [ReflectionStore::new]: the store's own three volumes, each an empty dictionary *)
Definition new_store (identity : Z) : ReflectionStore :=
  MkStore identity {[ heap_volume; runtime_volume; environment_volume ]} ∅ []
    (list_to_map ((fun volume => (volume, VDict ∅)) <$> [heap_volume; runtime_volume; environment_volume])) 0 0 ∅.
Definition new_shared : Shared := MkShared 4 ∅ ∅ ∅ 0 [].

(** [ReflectionStore::snapshot] *)
Definition take_snapshot (store : ReflectionStore) : StoreSnapshot :=
  MkSnapshot (store_identity store) (revision store) (kept store) (versions store).

(** [normalized_edit_paths] *)
Definition normalize_step (addresses : gset ConflictAddress) (edit : StoreEdit) : gset ConflictAddress :=
  if existsb (fun address => is_prefix_of address (edit_address edit)) (elements addresses) then addresses
  else {[ edit_address edit ]} ∪ filter (fun address => is_prefix_of (edit_address edit) address = false) addresses.
Definition normalized_edit_paths (edits : list StoreEdit) : list ConflictAddress := elements (foldl normalize_step ∅ edits).

(** [written_volumes] *)
Definition writes_data (edit : StoreEdit) : bool :=
  match edit with
  | SetEdit _ (Some _) | RewriteEdit _ (Some _) | RemoveEdit _ | CreateEdit _ _ => true
  | _ => false
  end.
Definition written_volumes (edits : list StoreEdit) : gset VolumeId :=
  list_to_set (edit_volume <$> filter (fun edit => writes_data edit = true) edits).

(** [rebase_edits] *)
Definition rebase_edit (shared : Shared) (versions : gmap VolumeId Value) (written : gmap VolumeId Value) (edit : StoreEdit)
  : gmap VolumeId Value :=
  if negb (writes_data edit) then written
  else
    let volume := edit_volume edit in
    match written !! volume with
    | Some current => <[ volume := apply_edit_in current edit ]> written
    | None =>
        match version_value shared versions volume with
        | Some current => <[ volume := apply_edit_in current edit ]> written
        | None => match edit with CreateEdit _ initial => <[ volume := initial ]> written | _ => written end
        end
    end.
Definition rebase_edits (shared : Shared) (versions : gmap VolumeId Value) (edits : list StoreEdit) : gmap VolumeId Value :=
  foldl (rebase_edit shared versions) ∅ edits.

(** [prune_collected] *)
Definition prune_collected (shared : Shared) (store : ReflectionStore) : ReflectionStore :=
  if completed_epoch shared =? pruned_at store then store
  else MkStore (store_identity store) (kept store) (revoked store) (settled store)
         (filter (fun '(volume, _) => ~ volume ∈ cleared shared) (versions store))
         (completed_epoch shared) (revision store) (latest_changes store).

(** The changes of a revision are recorded after the revision is incremented. *)
Definition record_changes (store : ReflectionStore) (changed : list ConflictAddress) : ReflectionStore :=
  let revision := wrap64 (revision store + 1) in
  MkStore (store_identity store) (kept store) (revoked store) (settled store) (versions store) (pruned_at store) revision
    (foldl (fun changes address => <[ address := revision ]> changes) (latest_changes store) changed).
Definition set_versions (store : ReflectionStore) (versions' : gmap VolumeId Value) : ReflectionStore :=
  MkStore (store_identity store) (kept store) (revoked store) (settled store) versions' (pruned_at store)
    (revision store) (latest_changes store).
Definition set_volumes (store : ReflectionStore) (kept' revoked' : gset VolumeId) : ReflectionStore :=
  MkStore (store_identity store) kept' revoked' (settled store) (versions store) (pruned_at store)
    (revision store) (latest_changes store).
Definition set_settled (store : ReflectionStore) (settled' : list Settled) : ReflectionStore :=
  MkStore (store_identity store) (kept store) (revoked store) settled' (versions store) (pruned_at store)
    (revision store) (latest_changes store).

(** ** Changes by the host *)
(** [replace_root] *)
Definition replace_root (store : ReflectionStore) (root : Value) : ReflectionStore :=
  record_changes (set_versions store (<[ heap_volume := root ]> (versions store))) [reflection_root heap_volume].

(** [ReflectionStore::create_volume] *)
Definition create_volume (shared : Shared) (store : ReflectionStore) (initial : Value) : option (VolumeId * Shared * ReflectionStore) :=
  '(volume, shared) ← reserve_volume shared;
  let store := prune_collected shared store in
  let store := set_versions store (<[ volume := initial ]> (versions store)) in
  let store := set_volumes store ({[ volume ]} ∪ kept store) (revoked store) in
  Some (volume, shared, record_changes store [reflection_root volume]).

(** [revoke_volume]: the value the volume held, and the store without it *)
Definition revoke_volume (shared : Shared) (store : ReflectionStore) (volume : VolumeId) : option (Value * ReflectionStore) :=
  if bool_decide (volume ∈ [heap_volume; runtime_volume; environment_volume]) then None
  else
    root ← version_value shared (versions store) volume;
    let store := set_versions store (delete volume (versions store)) in
    let store := set_volumes store (kept store ∖ {[ volume ]}) (revoked store) in
    let store := record_changes store [reflection_root volume] in
    Some (root, set_volumes store (kept store) ({[ volume ]} ∪ revoked store)).

(** [take_settled] *)
Definition take_settled (store : ReflectionStore) : list Settled * ReflectionStore := (settled store, set_settled store []).

(** [take_lost_resolvers] *)
Definition take_lost_resolvers (shared : Shared) : list PromiseId * Shared :=
  (lost_resolvers shared,
   MkShared (next_volume shared) (pending shared) (breakers shared) (cleared shared) (completed_epoch shared) []).

(** [Promises::allocate], [Promises::forget], for the promise whose cell has the ID *)
Definition set_promises (shared : Shared) (pending' : gset PromiseId) (breakers' : gmap PromiseId PromiseStatus) : Shared :=
  MkShared (next_volume shared) pending' breakers' (cleared shared) (completed_epoch shared) (lost_resolvers shared).
Definition allocate_promise (shared : Shared) (promise : PromiseId) : Shared :=
  set_promises shared ({[ promise ]} ∪ pending shared) (<[ promise := Pending ]> (breakers shared)).
Definition forget_promise (shared : Shared) (promise : PromiseId) : Shared :=
  set_promises shared (pending shared ∖ {[ promise ]}) (breakers shared).

(** ** Commits *)
Section commits.
Context {Index : Type} `{ConflictAnalysis Index}.

(** [ReflectionStore::conflicts] *)
Definition conflicts (store : ReflectionStore) (journal : StoreJournal) (attempt : Attempt Index) : bool :=
  existsb (fun '(changed, at_revision) =>
             (snapshot_revision (snapshot journal) <? at_revision) && may_conflict (observations attempt) changed)
    (map_to_list (latest_changes store)).

(** [ReflectionStore::validate] *)
Definition is_create (edit : StoreEdit) : bool := match edit with CreateEdit _ _ => true | _ => false end.
Definition created_volumes (edits : list StoreEdit) : gset VolumeId :=
  list_to_set (edit_volume <$> filter (fun edit => is_create edit = true) edits).
Definition missing_volume (store : ReflectionStore) (edits : list StoreEdit) : option VolumeId :=
  snd <$> list_find (fun volume =>
    versions store !! volume = None /\ ~ volume ∈ created_volumes edits /\ volume ∈ revoked store) (edit_volume <$> edits).
Definition validate (shared : Shared) (store : ReflectionStore) (journal : StoreJournal) (attempt : Attempt Index) : StoreCommitResult :=
  match missing_volume store (edits journal) with
  | Some volume => MissingVolume volume
  | None =>
      if conflicts store journal attempt then Conflict
      else if existsb (fun edit => match resolved_promise edit with
                                   | Some promise => negb (bool_decide (promise ∈ pending shared))
                                   | None => false
                                   end) (edits journal)
      then Conflict
      else Committed
  end.

(** The versions of [commit_validated] for a journal that began from the current
    revision, and for any other. *)
Definition install_views (journal : StoreJournal) (versions : gmap VolumeId Value) : gmap VolumeId Value :=
  set_fold (fun volume versions =>
    match views journal !! volume with
    | Some draft => if bool_decide (volume ∈ cells journal) then <[ volume := draft ]> versions else versions
    | None => versions
    end) versions (written_volumes (edits journal)).
Definition install_rebased (shared : Shared) (journal : StoreJournal) (versions : gmap VolumeId Value) : gmap VolumeId Value :=
  map_fold (fun volume value versions => if bool_decide (volume ∈ cells journal) then <[ volume := value ]> versions else versions)
    versions (rebase_edits shared versions (edits journal)).

(** The loop that settles the promises a commit resolves. *)
Definition settle_edit (state : Shared * list Settled) (edit : StoreEdit) : Shared * list Settled :=
  let '(shared, settled) := state in
  match edit with
  | ResolveEdit _ promise resolver resolution =>
      if bool_decide (promise ∈ pending shared) then
        let breakers' :=
          if resolver && bool_decide (breaker_status shared promise = Pending)
          then <[ promise := resolution_status resolution ]> (breakers shared) else breakers shared in
        (set_promises shared (pending shared ∖ {[ promise ]}) breakers', settled ++ [MkSettled promise resolution])
      else state
  | _ => state
  end.

(** [ReflectionStore::commit_validated], and whether the store changed *)
Definition is_current (store : ReflectionStore) (journal : StoreJournal) : bool :=
  (store_identity store =? identity (snapshot journal)) && (revision store =? snapshot_revision (snapshot journal)).
Definition commit_validated (shared : Shared) (store : ReflectionStore) (journal : StoreJournal) : bool * Shared * ReflectionStore :=
  if bool_decide (edits journal = []) then (false, shared, store)
  else
    let current := is_current store journal in
    let store := if existsb is_create (edits journal) then prune_collected shared store else store in
    let store := set_versions store
      (if current then install_views journal (versions store) else install_rebased shared journal (versions store)) in
    let store := record_changes store (normalized_edit_paths (edits journal)) in
    let '(shared, settled') := foldl settle_edit (shared, settled store) (edits journal) in
    (true, shared, set_settled store settled').

(** [try_commit_with_change] *)
Definition try_commit (shared : Shared) (store : ReflectionStore) (journal : StoreJournal) (attempt : Attempt Index)
  : StoreCommitResult * bool * Shared * ReflectionStore :=
  match validate shared store journal attempt with
  | Committed => let '(changed, shared, store) := commit_validated shared store journal in (Committed, changed, shared, store)
  | result => (result, false, shared, store)
  end.
End commits.
