(* ===== verification/StoreFacts.v ===== *)
(** * Edits, reads and what reads depend on

    The meaning of an edit on the meaning of a volume, what it leaves alone, and the
    correctness of [dependency]: the value a transaction reads at a path is a function
    of the part of the volume that [dependency] names, whatever the volume holds
    elsewhere. Two conditions are needed. Paths are direct: reads look up what writes
    store. And writes are placed: what is on the way of an edit's path is a dictionary
    or absent. An edit whose path runs through another value reads that value without
    observing it ([misplaced_write_reads_unobserved]), and a removal there fails the
    whole volume ([misplaced_removal_fails_volume]). *)
From stdpp Require Import base option list numbers gmap relations.
From Stdlib Require Import ZArith Lia.
From S2P Require Import Prelude Conflict DictPaths StoreJournal ReflectionStore.

(** ** Direct paths *)
Definition direct_path (p : ConflictPath) : bool := forallb direct p.
Definition direct_edit (edit : StoreEdit) : bool := direct_path (edit_path edit).

Lemma direct_path_cons k p : direct_path (k :: p) <-> direct k /\ direct_path p.
Proof. unfold direct_path. cbn. by rewrite andb_True. Qed.

Lemma written_stored p : direct_path p -> written_path p = stored_path p.
Proof.
  induction p as [|k p IH]; [done|]. rewrite direct_path_cons. intros [Hk Hp]. cbn.
  unfold written_path, stored_path in IH. by rewrite (direct_stored k Hk), IH.
Qed.

Lemma stored_prefix p q : direct_path p -> direct_path q -> stored_path p `prefix_of` stored_path q <-> p `prefix_of` q.
Proof.
  revert q. induction p as [|k p IH]; intros q Hp Hq; [split; intros _; apply prefix_nil|].
  destruct q as [|k' q]; [split; by intros ?%prefix_nil_inv|].
  apply direct_path_cons in Hp as [Hk Hp], Hq as [Hk' Hq]. cbn. split.
  - intros Hpre. pose proof (prefix_cons_inv_1 _ _ _ _ Hpre) as E. apply prefix_cons_inv_2 in Hpre.
    rewrite (direct_inj k k' Hk Hk' E). by apply prefix_cons, IH.
  - intros Hpre. rewrite (prefix_cons_inv_1 _ _ _ _ Hpre). apply prefix_cons_inv_2 in Hpre. by apply prefix_cons, IH.
Qed.

Lemma stored_path_nil p : stored_path p = [] <-> p = [].
Proof. by destruct p. Qed.

Lemma stored_path_app p q : stored_path (p ++ q) = stored_path p ++ stored_path q.
Proof. apply fmap_app. Qed.

(** Data lives apart from the runtime's volume, whose edits carry none. *)
Definition edit_kept_apart (edit : StoreEdit) : bool :=
  if writes_data edit then negb (bool_decide (edit_volume edit = runtime_volume))
  else bool_decide (edit_volume edit = runtime_volume).

Section edits.
Context (apply : Data -> Data -> Data).
Notation denote := (denote apply).

#[local] Arguments lookup_path : simpl never.
#[local] Arguments insert_path : simpl never.
#[local] Arguments remove_path : simpl never.
#[local] Arguments passes : simpl never.
#[local] Arguments stored_path : simpl never.
#[local] Arguments written_path : simpl never.

(** ** The meaning of an edit *)
Definition edit_data (edit : StoreEdit) (data : Data) : Data :=
  let insert value := match edit_path edit with [] => value | _ => insert_path (written_path (edit_path edit)) value data end in
  match edit with
  | SetEdit _ None | RewriteEdit _ None | ResolveEdit _ _ _ _ => data
  | CreateEdit _ initial => denote initial
  | SetEdit _ (Some value) => insert (denote value)
  | RemoveEdit address => remove_path (written_path (path address)) data
  | RewriteEdit address (Some updater) =>
      let prior := match path address with [] => data | p => read_data (lookup_path (stored_path p) data) end in
      insert (apply (denote updater) prior)
  end.

Lemma denote_apply_edit edit current : denote (apply_edit_in current edit) = edit_data edit (denote current).
Proof. destruct edit as [[v p] [value|]|[v p] [updater|]|[v p]|[v p] initial|[v p] promise r res]; try done; by destruct p. Qed.

(** The dictionaries on the way of an edit's path. *)
Definition pass_edit (edit : StoreEdit) (data : Data) : bool :=
  match edit with
  | SetEdit address (Some _) | RewriteEdit address (Some _) => passes (stored_path (path address)) data
  | RemoveEdit address => match path address with [] => false | _ => passes (stored_path (path address)) data end
  | _ => true
  end.

(** An edit leaves the paths apart from its own as they read. *)
Lemma edit_data_apart edit p data :
  direct_path p -> direct_edit edit -> pass_edit edit data -> is_create edit = false -> path_overlaps (edit_path edit) p = false ->
  lookup_path (stored_path p) (edit_data edit data) = lookup_path (stored_path p) data.
Proof.
  unfold path_overlaps, path_is_prefix_of, direct_edit. intros Hp He Hpass Hc Ho.
  apply orb_false_iff in Ho as [Ho1%bool_decide_eq_false Ho2%bool_decide_eq_false].
  assert (Hne : edit_path edit <> []) by (intros E; rewrite E in Ho1; by destruct Ho1; apply prefix_nil).
  destruct edit as [[v q] [value|]|[v q] [updater|]|[v q]|[v q] initial|[v q] promise r res]; try done; cbn in *;
    rewrite <- (stored_prefix q p He Hp) in Ho1; rewrite <- (stored_prefix p q Hp He) in Ho2.
  - destruct q; [done|]. rewrite written_stored by done. by apply lookup_insert_apart.
  - destruct q; [done|]. rewrite written_stored by done. by apply lookup_insert_apart.
  - destruct q as [|k q]; [done|]. rewrite written_stored by done. unfold remove_path.
    pose proof (prune_path_passes (stored_path (k :: q)) data ltac:(done) Hpass) as Hf.
    destruct (prune_path (stored_path (k :: q)) data) eqn:E; [done| |done]. by eapply lookup_removed_apart.
Qed.

(** What a path reads after an edit follows from what the dependency of the path
    reads before. *)
Lemma edit_data_dependency edit p data data' :
  direct_path p -> direct_edit edit -> pass_edit edit data -> pass_edit edit data' -> writes_data edit = true ->
  (forall q, dependency_step (edit_volume edit) edit p = Some q ->
     lookup_path (stored_path q) data = lookup_path (stored_path q) data') ->
  lookup_path (stored_path p) (edit_data edit data) = lookup_path (stored_path p) (edit_data edit data').
Proof.
  intros Hp He Hpass Hpass' Hw Hdep.
  destruct (path_is_prefix_of (edit_path edit) p) eqn:Epre.
  - (* at or below the edit *)
    apply bool_decide_eq_true in Epre as [r Er].
    destruct edit as [[v q] [value|]|[v q] [updater|]|[v q]|[v q] initial|[v q] promise res]; try done; cbn in *; subst p.
    + destruct q as [|k q]; [done|]. rewrite !written_stored, stored_path_app by done. by rewrite !lookup_insert_below.
    + assert (Hq : dependency_step v (RewriteEdit (Reflection v q) (Some updater)) (q ++ r) = Some q).
      { unfold dependency_step, path_is_prefix_of. cbn. rewrite !bool_decide_eq_true_2; [done|by apply prefix_app_r|done]. }
      specialize (Hdep q Hq). destruct q as [|k q].
      * change (Defined data = Defined data') in Hdep. by injection Hdep as ->.
      * rewrite Hdep, !written_stored, stored_path_app by done. by rewrite !lookup_insert_below.
    + destruct q as [|k q]; [done|]. rewrite !written_stored, stored_path_app by done. unfold remove_path.
      assert (Hone : forall d, passes (stored_path (k :: q)) d ->
        lookup_path (stored_path (k :: q) ++ stored_path r)
          match prune_path (stored_path (k :: q)) d with Unchanged => d | Removed m => DDict m | FailedRemoval => DFail end = Undefined).
      { intros d Hd. pose proof (prune_path_passes (stored_path (k :: q)) d ltac:(done) Hd) as Hf.
        destruct (prune_path (stored_path (k :: q)) d) eqn:E; [| |done].
        - rewrite lookup_path_app. by rewrite (prune_unchanged _ _ E).
        - by eapply lookup_removed_below. }
      by rewrite !Hone.
  - (* above the edit, or apart from it *)
    assert (Hsame : lookup_path (stored_path p) data = lookup_path (stored_path p) data' \/ is_create edit = true).
    { destruct edit as [[v q] [value|]|[v q] [updater|]|[v q]|[v q] initial|[v q] promise res]; try done; [..|by right]; left;
        apply Hdep; cbn in *; by rewrite Epre, andb_false_r. }
    destruct Hsame as [Hsame|Hcreate]; [|by destruct edit].
    destruct (path_is_prefix_of p (edit_path edit)) eqn:Eabove.
    + apply bool_decide_eq_true in Eabove as [s Es].
      assert (s <> []). { intros ->. rewrite app_nil_r in Es. rewrite Es in Epre. by apply bool_decide_eq_false in Epre. }
      assert (Hprior : forall s', read_data (lookup_path (stored_path (p ++ s')) data) = read_data (lookup_path (stored_path (p ++ s')) data')).
      { intros s'. rewrite stored_path_app, !lookup_path_app. by rewrite Hsame. }
      assert (stored_path s <> []) by (by rewrite stored_path_nil).
      assert (p ++ s <> []) by (by destruct p).
      destruct edit as [[v q] [value|]|[v q] [updater|]|[v q]|[v q] initial|[v q] promise res]; try done; cbn in *; subst q.
      * destruct (p ++ s) eqn:E; [done|]. rewrite <- E in *. rewrite !written_stored, stored_path_app by done.
        rewrite !lookup_insert_above by done. by rewrite Hsame.
      * destruct (p ++ s) eqn:E; [done|]. rewrite <- E in *. rewrite Hprior, !written_stored, stored_path_app by done.
        rewrite !lookup_insert_above by done. by rewrite Hsame.
      * destruct (p ++ s) eqn:E; [done|]. rewrite <- E in *. rewrite !written_stored by done. rewrite stored_path_app in Hpass, Hpass' |- *.
        rewrite !lookup_removed_above by done. by rewrite Hsame.
    + assert (path_overlaps (edit_path edit) p = false) by (unfold path_overlaps; by rewrite Epre, Eabove).
      destruct (is_create edit) eqn:Ec; [by destruct edit|].
      by rewrite !edit_data_apart.
Qed.
End edits.

(** ** Replaying edits on one volume *)
Definition replay_edit (volume : VolumeId) (current : option Value) (edit : StoreEdit) : option Value :=
  if bool_decide (edit_volume edit = volume) && writes_data edit then
    match edit with
    | CreateEdit _ initial => Some initial
    | _ => (fun value => apply_edit_in value edit) <$> current
    end
  else current.

(** The value of a volume that held [base], after the edits. *)
Definition replayed (volume : VolumeId) (base : option Value) (edits : list StoreEdit) : option Value :=
  foldl (replay_edit volume) base edits.

Lemma replayed_app volume base l k : replayed volume base (l ++ k) = replayed volume (replayed volume base l) k.
Proof. apply foldl_app. Qed.

Lemma replayed_snoc volume base l edit : replayed volume base (l ++ [edit]) = replay_edit volume (replayed volume base l) edit.
Proof. by rewrite replayed_app. Qed.

Lemma replay_edit_is_Some volume current current' edit :
  (is_Some current <-> is_Some current') -> is_Some (replay_edit volume current edit) <-> is_Some (replay_edit volume current' edit).
Proof.
  unfold replay_edit. intros Hs. destruct (_ && _); [|done]. destruct edit; try done; by rewrite !fmap_is_Some.
Qed.

Lemma replayed_is_Some volume edits : forall base base',
  (is_Some base <-> is_Some base') -> is_Some (replayed volume base edits) <-> is_Some (replayed volume base' edits).
Proof. induction edits as [|e edits IH]; intros base base' Hs; [done|]. by apply IH, replay_edit_is_Some. Qed.

(** Edits of other volumes do nothing. *)
Lemma replayed_other volume base edits :
  Forall (fun e => edit_volume e = volume -> writes_data e = false) edits -> replayed volume base edits = base.
Proof.
  induction 1 as [|e edits He _ IH]; [done|]. cbn. unfold replay_edit at 2.
  destruct (bool_decide (edit_volume e = volume)) eqn:E; [|done]. apply bool_decide_eq_true in E. by rewrite (He E).
Qed.

Lemma dependency_snoc edits edit volume p :
  dependency (edits ++ [edit]) volume p =
  match dependency_step volume edit p with None => None | Some q => dependency edits volume q end.
Proof. unfold dependency. by rewrite reverse_snoc. Qed.

Lemma dependency_step_direct volume edit p q :
  direct_path p -> direct_edit edit -> dependency_step volume edit p = Some q -> direct_path q.
Proof.
  intros Hp He. unfold dependency_step. destruct edit; repeat case_match; intros; simplify_eq; done.
Qed.

Section replaying.
Context (apply : Data -> Data -> Data).

(** What a path reads, where the volume exists. *)
Definition read_at (p : ConflictPath) (value : option Value) : option PathRead :=
  (fun v => lookup_path (stored_path p) (denote apply v)) <$> value.

(** The edits of [volume] that write data are placed, each in the state the earlier
    ones leave. *)
Fixpoint placed (volume : VolumeId) (base : option Value) (edits : list StoreEdit) : bool :=
  match edits with
  | [] => true
  | edit :: rest =>
      (if bool_decide (edit_volume edit = volume)
       then match base with Some value => pass_edit edit (denote apply value) | None => true end else true)
      && placed volume (replay_edit volume base edit) rest
  end.

Lemma placed_app volume l k : forall base,
  placed volume base (l ++ k) <-> placed volume base l /\ placed volume (replayed volume base l) k.
Proof.
  induction l as [|e l IH]; intros base; cbn; [naive_solver|]. rewrite !andb_True, IH. naive_solver.
Qed.

(** Edits of other volumes are placed whatever the volume holds. *)
Lemma placed_other volume edits : forall base, Forall (fun e => edit_volume e <> volume) edits -> placed volume base edits.
Proof.
  induction edits as [|e edits IH]; intros base Hne; [done|]. apply Forall_cons in Hne as [He Hne]. cbn.
  rewrite bool_decide_eq_false_2 by done. by apply IH.
Qed.

(** Edits of one volume are placed if they are from what it holds. *)
Lemma placed_one volume edits (base : VolumeId -> option Value) :
  Forall (fun e => edit_volume e = volume) edits -> placed volume (base volume) edits ->
  forall v, placed v (base v) edits.
Proof.
  intros Hone Hp v. destruct (decide (v = volume)) as [->|Hne]; [done|]. apply placed_other.
  eapply Forall_impl; [exact Hone|]. by intros e ->.
Qed.

Lemma placed_snoc volume base l edit value :
  placed volume base (l ++ [edit]) -> edit_volume edit = volume -> replayed volume base l = Some value ->
  pass_edit edit (denote apply value).
Proof.
  rewrite placed_app. intros [_ Hp] Ev Er. revert Hp. cbn. rewrite Er, bool_decide_eq_true_2 by done.
  rewrite andb_true_r. done.
Qed.

(** The edits a journal makes: direct paths, data apart from the runtime's volume, and
    volumes created at their root. *)
Definition proper_edit (edit : StoreEdit) : bool :=
  direct_edit edit && edit_kept_apart edit && (negb (is_create edit) || bool_decide (edit_path edit = [])).

Lemma proper_edit_spec edit :
  proper_edit edit <-> direct_edit edit /\ edit_kept_apart edit /\ (is_create edit = true -> edit_path edit = []).
Proof.
  unfold proper_edit. rewrite !andb_True, orb_True, bool_decide_spec. destruct (is_create edit); cbn; naive_solver.
Qed.

Lemma read_at_fmap p edit value :
  read_at p ((fun v => apply_edit_in v edit) <$> value) =
  (fun v => lookup_path (stored_path p) (edit_data apply edit (denote apply v))) <$> value.
Proof. destruct value; [|done]. cbn. unfold read_at. cbn. by rewrite denote_apply_edit. Qed.

(** Edits apart from a path leave what it reads, where the volume exists before and
    is not created by them. *)
Lemma replayed_apart volume p edits : forall base,
  direct_path p -> Forall proper_edit edits -> placed volume base edits ->
  Forall (fun e => ~ overlaps (edit_address e) (Reflection volume p)) edits ->
  read_at p (replayed volume base edits) = read_at p base.
Proof.
  intros base Hp Hproper Hplaced Hapart. revert base Hplaced.
  induction Hproper as [|e edits He _ IH]; intros base Hplaced; [done|].
  apply Forall_cons in Hapart as [Ha Hapart]. cbn in Hplaced. apply andb_True in Hplaced as [Hpass Hplaced].
  change (replayed volume base (e :: edits)) with (replayed volume (replay_edit volume base e) edits).
  rewrite (IH Hapart) by done. unfold replay_edit.
  destruct (bool_decide (edit_volume e = volume)) eqn:Ev; [|done]. apply bool_decide_eq_true in Ev.
  destruct (writes_data e) eqn:Ew; [|done]. cbn [andb].
  assert (Hov : path_overlaps (edit_path e) p = false).
  { destruct (path_overlaps (edit_path e) p) eqn:E; [|done]. destruct Ha. unfold overlaps, is_prefix_of. cbn.
    unfold edit_volume in Ev. rewrite !bool_decide_eq_true_2 by done. cbn. apply Is_true_true. exact E. }
  apply proper_edit_spec in He as (Hd & _ & Hroot).
  destruct (is_create e) eqn:Hc.
  { specialize (Hroot eq_refl). unfold path_overlaps, path_is_prefix_of in Hov. rewrite Hroot in Hov.
    apply orb_false_iff in Hov as [Hov%bool_decide_eq_false _]. by destruct Hov; apply prefix_nil. }
  destruct base as [value|]; [|by destruct e].
  assert (Hm : match e with CreateEdit _ initial => Some initial | _ => (fun v => apply_edit_in v e) <$> Some value end
               = (fun v => apply_edit_in v e) <$> Some value) by (by destruct e).
  rewrite Hm, read_at_fmap. cbn. f_equal. by apply edit_data_apart.
Qed.

Lemma replay_edit_data volume current edit value :
  edit_volume edit = volume -> writes_data edit = true -> is_create edit = false -> current = Some value ->
  replay_edit volume current edit = Some (apply_edit_in value edit).
Proof. intros Ev Ew Ec ->. unfold replay_edit. rewrite Ew, bool_decide_eq_true_2 by done. by destruct edit. Qed.

(** What a transaction reads at a path of a volume it has edited is decided by what
    [dependency] names: two states of the volume that agree there, and in which the
    edits are placed, read alike. Where [dependency] names nothing, any two states
    do. *)
Lemma dependency_sound volume edits : forall p base base',
  volume <> runtime_volume -> direct_path p -> Forall proper_edit edits ->
  placed volume base edits -> placed volume base' edits -> (is_Some base <-> is_Some base') ->
  (forall q, dependency edits volume p = Some q -> read_at q base = read_at q base') ->
  read_at p (replayed volume base edits) = read_at p (replayed volume base' edits).
Proof.
  induction edits as [|e edits IH] using rev_ind; intros p base base' Hv Hp Hproper Hpl Hpl' Hsome Hdep; [by apply Hdep|].
  apply Forall_app in Hproper as [Hproper He%Forall_one]. apply proper_edit_spec in He as (Hd & Hk & Hroot).
  pose proof (proj1 (placed_app _ _ _ _) Hpl) as [Hl _]. pose proof (proj1 (placed_app _ _ _ _) Hpl') as [Hl' _].
  rewrite !replayed_snoc. rewrite dependency_snoc in Hdep.
  specialize (IH) with (base := base) (base' := base').
  pose proof (replayed_is_Some volume edits base base' Hsome) as Hs.
  destruct (decide (edit_volume e = volume)) as [Ev|Ev].
  2: { assert (Hstep : dependency_step volume e p = Some p).
       { unfold dependency_step. rewrite bool_decide_eq_false_2 by done. by destruct e. }
       rewrite Hstep in Hdep. unfold replay_edit. rewrite bool_decide_eq_false_2 by done. by apply IH. }
  assert (Hw : writes_data e = true).
  { unfold edit_kept_apart in Hk. destruct (writes_data e); [done|]. apply bool_decide_spec in Hk. congruence. }
  destruct (is_create e) eqn:Ec.
  { destruct e; try done. unfold replay_edit. rewrite Hw, bool_decide_eq_true_2; done. }
  destruct (replayed volume base edits) as [x|] eqn:Ex, (replayed volume base' edits) as [x'|] eqn:Ex'.
  2: { by destruct (proj1 Hs (ex_intro _ x eq_refl)). }
  2: { by destruct (proj2 Hs (ex_intro _ x' eq_refl)). }
  2: { unfold replay_edit. rewrite Hw, bool_decide_eq_true_2 by done. by destruct e. }
  rewrite !(replay_edit_data volume _ e _ Ev Hw Ec eq_refl). unfold read_at. cbn. rewrite !denote_apply_edit. f_equal.
  apply edit_data_dependency;
    [done|done|exact (placed_snoc volume base edits e x Hpl Ev Ex)|exact (placed_snoc volume base' edits e x' Hpl' Ev Ex')|done|].
  intros q Hq. rewrite Ev in Hq. rewrite Hq in Hdep.
  assert (Hqd : direct_path q) by (exact (dependency_step_direct _ _ _ _ Hp Hd Hq)).
  specialize (IH q Hv Hqd Hproper Hl Hl' Hsome Hdep). unfold read_at in IH. cbn in IH. by injection IH.
Qed.
End replaying.

(** * Journals, rebasing and commits: the shared facts

    [journal_ok] is the invariant of a journal: its drafts are what its edits make of
    the snapshot's versions, and it holds the cell of every volume it has a draft of.
    Rebasing computes the same for the current versions; so a commit installs the same
    versions through the drafts as through the edits when nothing has changed since
    the snapshot ([commit_paths_agree]). *)

(** ** Generic facts on folds of insertions *)
Lemma foldl_insert_lookup {A} `{Countable K} (value : A) (keys : list K) (k : K) : forall m : gmap K A,
  foldl (fun m k => <[ k := value ]> m) m keys !! k = if bool_decide (k ∈ keys) then Some value else m !! k.
Proof.
  induction keys as [|k' keys IH]; intros m; [done|]. cbn. rewrite IH.
  destruct (bool_decide (k ∈ keys)) eqn:E.
  - apply bool_decide_eq_true in E. rewrite bool_decide_eq_true_2; [done|set_solver].
  - apply bool_decide_eq_false in E. destruct (decide (k = k')) as [->|].
    + rewrite lookup_insert_eq, bool_decide_eq_true_2; [done|set_solver].
    + rewrite lookup_insert_ne, bool_decide_eq_false_2; [done|set_solver|done].
Qed.

Lemma map_fold_insert_lookup {A} `{Countable K} (P : K -> bool) (r m : gmap K A) (k : K) :
  map_fold (fun k x m => if P k then <[ k := x ]> m else m) m r !! k =
  match r !! k with Some x => if P k then Some x else m !! k | None => m !! k end.
Proof.
  apply (map_fold_weak_ind (fun (b : gmap K A) (r : gmap K A) =>
    b !! k = match r !! k with Some x => if P k then Some x else m !! k | None => m !! k end)).
  - by rewrite lookup_empty.
  - intros k' x r' b Hr Hb. destruct (decide (k = k')) as [->|].
    + rewrite lookup_insert_eq. rewrite Hr in Hb. destruct (P k'); [by rewrite lookup_insert_eq|done].
    + rewrite lookup_insert_ne by done. rewrite <- Hb. destruct (P k'); [by rewrite lookup_insert_ne|done].
Qed.

Lemma set_fold_insert_lookup {A} `{Countable K} (f : K -> option A) (g : K -> gmap K A -> gmap K A) (X : gset K) (m : gmap K A) (k : K) :
  (forall k m, g k m = match f k with Some x => <[ k := x ]> m | None => m end) ->
  set_fold g m X !! k = if bool_decide (k ∈ X) then match f k with Some x => Some x | None => m !! k end else m !! k.
Proof.
  intros Hg. refine (set_fold_ind_L (fun (b : gmap K A) (X : gset K) =>
    b !! k = if bool_decide (k ∈ X) then match f k with Some x => Some x | None => m !! k end else m !! k) _ m _ _ X).
  - by rewrite bool_decide_eq_false_2 by set_solver.
  - intros k' X' b Hn Hb. rewrite Hg. destruct (decide (k = k')) as [->|].
    + rewrite bool_decide_eq_false_2 in Hb by done. rewrite bool_decide_eq_true_2 by set_solver.
      destruct (f k'); [by rewrite lookup_insert_eq|done].
    + assert (Hs : bool_decide (k ∈ {[ k' ]} ∪ X') = bool_decide (k ∈ X')) by (apply bool_decide_ext; set_solver).
      rewrite Hs, <- Hb. destruct (f k'); [by rewrite lookup_insert_ne|done].
Qed.

(** ** Written volumes *)
Lemma elem_of_written v edits : v ∈ written_volumes edits <-> Exists (fun e => writes_data e = true /\ edit_volume e = v) edits.
Proof.
  unfold written_volumes. rewrite elem_of_list_to_set, list_elem_of_fmap, Exists_exists.
  setoid_rewrite list_elem_of_filter. naive_solver.
Qed.

Lemma written_snoc v edits e :
  v ∈ written_volumes (edits ++ [e]) <-> v ∈ written_volumes edits \/ writes_data e = true /\ edit_volume e = v.
Proof. rewrite !elem_of_written, Exists_app, Exists_cons, Exists_nil. naive_solver. Qed.

Lemma written_skip v edits e :
  (writes_data e = true -> edit_volume e <> v) ->
  bool_decide (v ∈ written_volumes (edits ++ [e])) = bool_decide (v ∈ written_volumes edits).
Proof. intros He. apply bool_decide_ext. rewrite written_snoc. naive_solver. Qed.

Lemma replayed_unwritten v base edits : v ∉ written_volumes edits -> replayed v base edits = base.
Proof.
  rewrite elem_of_written. intros Hn. apply replayed_other. apply Forall_forall. intros e He Ev.
  destruct (writes_data e) eqn:Ew; [|done]. destruct Hn. apply Exists_exists. by exists e.
Qed.

Lemma replay_edit_keeps v value e : is_Some (replay_edit v (Some value) e).
Proof. unfold replay_edit. destruct (_ && _); [|done]. destruct e; done. Qed.

Lemma replayed_keeps v edits : forall value, is_Some (replayed v (Some value) edits).
Proof.
  induction edits as [|e edits IH]; intros value; [done|]. cbn. destruct (replay_edit_keeps v value e) as [w ->]. apply IH.
Qed.

(** ** Journals *)
Definition base_value (shared : Shared) (journal : StoreJournal) (v : VolumeId) : option Value :=
  version_value shared (snapshot_versions (snapshot journal)) v.

Record journal_ok (shared : Shared) (journal : StoreJournal) : Prop := {
  views_replayed v :
    views journal !! v =
    if bool_decide (v ∈ written_volumes (edits journal)) then replayed v (base_value shared journal v) (edits journal) else None;
  views_kept v : is_Some (views journal !! v) -> v ∈ cells journal;
}.

Lemma new_journal_ok shared snapshot : journal_ok shared (new_journal snapshot).
Proof. split; intros v; cbn; [done|]. intros [? [=]]. Qed.

(** The value of a volume in a journal is what the journal's edits make of it. *)
Lemma journal_value shared journal v p :
  journal_ok shared journal ->
  value_at_in shared journal v p = (fun value => lazy_core_value_path value p) <$> replayed v (base_value shared journal v) (edits journal).
Proof.
  intros Hok. unfold value_at_in. rewrite (views_replayed _ _ Hok).
  destruct (bool_decide (v ∈ written_volumes (edits journal))) eqn:E.
  - destruct (replayed _ _ _) as [value|] eqn:Er; [done|]. cbn. fold (base_value shared journal v).
    destruct (base_value shared journal v) as [value|] eqn:Eb; [|done].
    by destruct (replayed_keeps v (edits journal) value) as [? Hr]; rewrite Er in Hr.
  - apply bool_decide_eq_false in E. rewrite replayed_unwritten by done. unfold base_value. by destruct (version_value _ _ _).
Qed.

Lemma journal_root shared journal v :
  journal_ok shared journal -> value_at_in shared journal v [] = replayed v (base_value shared journal v) (edits journal).
Proof. intros Hok. rewrite journal_value by done. apply option_fmap_id. Qed.

Lemma volume_cell_of_value shared journal v :
  journal_ok shared journal -> is_Some (value_at_in shared journal v []) -> volume_cell_in shared journal v = true.
Proof.
  intros Hok [x Hx]. unfold volume_cell_in. unfold value_at_in in Hx.
  destruct (views journal !! v) as [draft|] eqn:Ev.
  - rewrite bool_decide_eq_true_2; [done|]. by apply (views_kept _ _ Hok); rewrite Ev.
  - destruct (version_value _ _ _); [|done]. by rewrite orb_true_r.
Qed.

Lemma record_edit_ok shared journal e : writes_data e = false -> journal_ok shared journal -> journal_ok shared (record_edit journal e).
Proof.
  intros Hw Hok. split; intros v; [|apply (views_kept _ _ Hok)].
  unfold base_value, record_edit, set_edits. cbn [views edits snapshot]. fold (base_value shared journal v).
  rewrite (views_replayed _ _ Hok), replayed_snoc. unfold replay_edit. rewrite Hw, andb_false_r.
  rewrite written_skip; [done|]. by rewrite Hw.
Qed.

Lemma keep_cell_ok shared journal v : journal_ok shared journal -> journal_ok shared (keep_cell journal v).
Proof.
  intros Hok. split; intros w; cbn; [apply (views_replayed _ _ Hok)|]. intros Hs%(views_kept _ _ Hok). set_solver.
Qed.

Lemma push_edit_edits shared journal v e : edits (push_edit shared journal v e) = edits journal ++ [e].
Proof. unfold push_edit. destruct (value_at_in _ _ _ _); [|done]. by destruct (volume_cell_in _ _ _). Qed.

Lemma push_edit_snapshot shared journal v e : snapshot (push_edit shared journal v e) = snapshot journal.
Proof. unfold push_edit. destruct (value_at_in _ _ _ _); [|done]. by destruct (volume_cell_in _ _ _). Qed.

Lemma push_edit_branch shared journal v e : branch (push_edit shared journal v e) = branch journal.
Proof. unfold push_edit. destruct (value_at_in _ _ _ _); [|done]. by destruct (volume_cell_in _ _ _). Qed.

Lemma push_edit_views shared journal e w :
  journal_ok shared journal -> writes_data e = true -> is_create e = false ->
  views (push_edit shared journal (edit_volume e) e) !! w =
  if decide (w = edit_volume e) then replayed w (base_value shared journal w) (edits journal ++ [e]) else views journal !! w.
Proof.
  intros Hok Hw Hc. set (v := edit_volume e). unfold push_edit. rewrite journal_root by done. rewrite replayed_snoc.
  destruct (replayed v (base_value shared journal v) (edits journal)) as [value|] eqn:Er.
  - assert (Hv : views (if volume_cell_in shared journal v then keep_cell journal v else journal) = views journal)
      by (by destruct (volume_cell_in _ _ _)).
    cbn. rewrite Hv. destruct (decide (w = v)) as [->|]; [|by rewrite lookup_insert_ne].
    rewrite lookup_insert_eq, Er. symmetry. by apply replay_edit_data.
  - cbn. destruct (decide (w = v)) as [->|]; [|done]. rewrite Er, (views_replayed _ _ Hok), Er.
    unfold replay_edit. destruct (_ && _); [by destruct e, (bool_decide _)|by destruct (bool_decide _)].
Qed.

Lemma push_edit_ok shared journal e :
  writes_data e = true -> is_create e = false -> journal_ok shared journal ->
  journal_ok shared (push_edit shared journal (edit_volume e) e).
Proof.
  intros Hw Hc Hok. split; intros w.
  - rewrite push_edit_views by done. unfold base_value. rewrite push_edit_snapshot, push_edit_edits. fold (base_value shared journal w).
    destruct (decide (w = edit_volume e)) as [->|Hne].
    + rewrite bool_decide_eq_true_2; [done|]. apply written_snoc. by right.
    + rewrite (views_replayed _ _ Hok), replayed_snoc. unfold replay_edit. rewrite (bool_decide_eq_false_2 (edit_volume e = w)) by done.
      cbn. by rewrite written_skip.
  - unfold push_edit. destruct (value_at_in shared journal (edit_volume e) []) as [value|] eqn:Ev; [|apply (views_kept _ _ Hok)].
    rewrite volume_cell_of_value by done. cbn. rewrite lookup_insert_is_Some. intros [->|[_ Hs%(views_kept _ _ Hok)]]; set_solver.
Qed.

Lemma create_ok shared journal v initial :
  journal_ok shared journal -> journal_ok shared (replay shared journal (CreateEdit (reflection_root v) initial)).
Proof.
  intros Hok. split; intros w.
  - unfold base_value. cbn [replay record_edit set_edits keep_cell set_view views edits snapshot].
    fold (base_value shared journal w). rewrite replayed_snoc. unfold replay_edit.
    change (edit_volume (CreateEdit (reflection_root v) initial)) with v. cbn [writes_data].
    destruct (decide (w = v)) as [->|Hne].
    + rewrite lookup_insert_eq, !bool_decide_eq_true_2; [done|done|]. apply written_snoc. by right.
    + rewrite lookup_insert_ne, (bool_decide_eq_false_2 (v = w)) by done. cbn. rewrite (views_replayed _ _ Hok).
      by rewrite written_skip.
  - cbn. change (edit_volume (CreateEdit (reflection_root v) initial)) with v.
    rewrite lookup_insert_is_Some. intros [->|[_ Hs%(views_kept _ _ Hok)]]; set_solver.
Qed.

(** Replaying a proper edit keeps the invariant, whatever the edit. *)
Lemma replay_ok shared journal e : proper_edit e -> journal_ok shared journal -> journal_ok shared (replay shared journal e).
Proof.
  intros He Hok. apply proper_edit_spec in He as (_ & _ & Hroot).
  destruct e as [a [value|]|a [updater|]|a|[v p] initial|a promise r res].
  - by apply push_edit_ok.
  - by apply record_edit_ok.
  - by apply push_edit_ok.
  - by apply record_edit_ok.
  - by apply push_edit_ok.
  - specialize (Hroot eq_refl). cbn in Hroot. subst p. by apply create_ok.
  - by apply record_edit_ok.
Qed.

(** ** Rebasing *)
Lemma rebase_edits_snoc shared versions edits e :
  rebase_edits shared versions (edits ++ [e]) = rebase_edit shared versions (rebase_edits shared versions edits) e.
Proof. apply foldl_snoc. Qed.

Lemma rebase_edits_spec shared versions edits v :
  rebase_edits shared versions edits !! v =
  if bool_decide (v ∈ written_volumes edits) then replayed v (version_value shared versions v) edits else None.
Proof.
  induction edits as [|e edits IH] using rev_ind; [done|]. rewrite rebase_edits_snoc, replayed_snoc.
  unfold rebase_edit, replay_edit. destruct (writes_data e) eqn:Ew; cbn [negb andb].
  2: { rewrite IH, andb_false_r, written_skip; [done|]. by rewrite Ew. }
  rewrite andb_true_r. destruct (decide (v = edit_volume e)) as [->|Hne].
  - rewrite !bool_decide_eq_true_2 by (done || apply written_snoc; by right). rewrite IH.
    set (v := edit_volume e) in *. set (base := version_value shared versions v) in *.
    destruct (bool_decide (v ∈ written_volumes edits)) eqn:Eb.
    + apply bool_decide_eq_true in Eb. destruct (replayed v base edits) as [current|] eqn:Er.
      * rewrite lookup_insert_eq. by destruct e.
      * destruct base as [b|]; [by destruct (replayed_keeps v edits b) as [? Hr]; rewrite Er in Hr|].
        destruct e; try done; cbn; [..|by rewrite lookup_insert_eq]; by rewrite IH, Er.
    + apply bool_decide_eq_false in Eb. rewrite replayed_unwritten by done. destruct base as [b|].
      * rewrite lookup_insert_eq. by destruct e.
      * destruct e; try done; cbn; [..|by rewrite lookup_insert_eq]; by rewrite IH, bool_decide_eq_false_2.
  - rewrite (bool_decide_eq_false_2 (edit_volume e = v)) by done.
    assert (Hm : forall m x, (<[ edit_volume e := x ]> m : gmap VolumeId Value) !! v = m !! v) by (intros; by rewrite lookup_insert_ne).
    transitivity (rebase_edits shared versions edits !! v).
    + destruct (rebase_edits shared versions edits !! edit_volume e); [by rewrite Hm|].
      destruct (version_value shared versions (edit_volume e)); [by rewrite Hm|]. destruct e; try done; by rewrite Hm.
    + rewrite IH. by rewrite written_skip.
Qed.

(** What a commit installs for each volume, through the drafts and through the edits. *)
Lemma install_views_spec journal vs v :
  install_views journal vs !! v =
  if bool_decide (v ∈ written_volumes (edits journal)) && bool_decide (v ∈ cells journal)
  then match views journal !! v with Some draft => Some draft | None => vs !! v end else vs !! v.
Proof.
  unfold install_views.
  rewrite (set_fold_insert_lookup
    (fun v => draft ← views journal !! v; if bool_decide (v ∈ cells journal) then Some draft else None)).
  - destruct (bool_decide (v ∈ written_volumes _)); [|done]. by destruct (views journal !! v), (bool_decide (v ∈ cells journal)).
  - intros w m. by destruct (views journal !! w), (bool_decide (w ∈ cells journal)).
Qed.

Lemma install_rebased_spec shared journal vs v :
  install_rebased shared journal vs !! v =
  if bool_decide (v ∈ written_volumes (edits journal)) && bool_decide (v ∈ cells journal)
  then match replayed v (version_value shared vs v) (edits journal) with Some x => Some x | None => vs !! v end else vs !! v.
Proof.
  unfold install_rebased. rewrite (map_fold_insert_lookup (fun v => bool_decide (v ∈ cells journal))), rebase_edits_spec.
  destruct (bool_decide (v ∈ written_volumes _)); [|done]. cbn.
  destruct (replayed _ _ _); [done|by destruct (bool_decide _)].
Qed.

Lemma prune_collected_value shared store v : version_value shared (versions (prune_collected shared store)) v = version_value shared (versions store) v.
Proof.
  unfold version_value, prune_collected. destruct (bool_decide (v ∈ cleared shared)) eqn:E; [done|].
  apply bool_decide_eq_false in E. destruct (_ =? _)%Z; [done|]. cbn.
  destruct (versions store !! v) as [x|] eqn:Ex.
  - apply map_lookup_filter_Some. done.
  - apply map_lookup_filter_None. by left.
Qed.

(** * What a commit changes

    The addresses a commit records cover its edits; its new versions are what the
    edits make of the current ones, and every other part of the store is as it was. *)

Local Open Scope Z_scope.

(** ** Normalized addresses *)
Lemma normalize_step_covers (addresses : gset ConflictAddress) e :
  (exists a, a ∈ normalize_step addresses e /\ is_prefix_of a (edit_address e)) /\
  (forall b, (exists a, a ∈ addresses /\ is_prefix_of a b) -> exists a, a ∈ normalize_step addresses e /\ is_prefix_of a b).
Proof.
  unfold normalize_step. destruct (existsb _ _) eqn:E.
  - apply Is_true_eq_left, existsb_True in E as (a & Ha & Hp). split; [exists a; set_solver|done].
  - split; [exists (edit_address e); split; [set_solver|apply is_prefix_of_refl]|].
    intros b (a & Ha & Hp). destruct (is_prefix_of (edit_address e) a) eqn:Ep.
    + exists (edit_address e). split; [set_solver|]. apply Is_true_eq_left in Ep.
      apply is_prefix_of_spec in Ep as [E1 P1], Hp as [E2 P2]. apply is_prefix_of_spec. split; [congruence|by etrans].
    + exists a. split; [|done]. apply elem_of_union_r, elem_of_filter. done.
Qed.

Lemma normalized_covers edits e : e ∈ edits -> exists a, a ∈ normalized_edit_paths edits /\ is_prefix_of a (edit_address e).
Proof.
  unfold normalized_edit_paths. setoid_rewrite elem_of_elements. revert e.
  induction edits as [|e' edits IH] using rev_ind; intros e; [by intros ?%elem_of_nil|]. rewrite foldl_snoc.
  destruct (normalize_step_covers (foldl normalize_step ∅ edits) e') as [Hnew Hold].
  intros [Hin| ->%list_elem_of_singleton]%elem_of_app; [by apply Hold, IH|done].
Qed.

Lemma normalized_only edits a : a ∈ normalized_edit_paths edits -> exists e, e ∈ edits /\ a = edit_address e.
Proof.
  unfold normalized_edit_paths. rewrite elem_of_elements. revert a.
  induction edits as [|e' edits IH] using rev_ind; intros a; [by intros ?%elem_of_empty|]. rewrite foldl_snoc.
  unfold normalize_step at 1. destruct (existsb _ _).
  - intros (e & He & ->)%IH. exists e. set_solver.
  - intros [->%elem_of_singleton|[_ Ha]%elem_of_filter]%elem_of_union; [exists e'; set_solver|].
    apply IH in Ha as (e & He & ->). exists e. set_solver.
Qed.

(** Normalization loses no overlap, and the addresses it keeps are not above one
    another. *)
Lemma normalized_overlaps edits b :
  (exists a, a ∈ normalized_edit_paths edits /\ overlaps a b) <-> exists e, e ∈ edits /\ overlaps (edit_address e) b.
Proof.
  split.
  - intros (a & (e & He & ->)%normalized_only & Ho). by exists e.
  - intros (e & He & Ho). destruct (normalized_covers edits e He) as (a & Ha & Hp).
    exists a. split; [done|]. by eapply overlaps_above.
Qed.

Lemma normalized_minimal edits a b :
  a ∈ normalized_edit_paths edits -> b ∈ normalized_edit_paths edits -> is_prefix_of a b -> a = b.
Proof.
  unfold normalized_edit_paths. rewrite !elem_of_elements. revert a b.
  induction edits as [|e edits IH] using rev_ind; intros a b; [by intros ?%elem_of_empty|]. rewrite foldl_snoc.
  unfold normalize_step at 1 3. destruct (existsb _ _) eqn:E; [apply IH|].
  intros [->%elem_of_singleton|[Ha Ha']%elem_of_filter]%elem_of_union [->%elem_of_singleton|[Hb Hb']%elem_of_filter]%elem_of_union Hp.
  - done.
  - by rewrite Hb in Hp.
  - exfalso. apply Is_true_false in E. apply E. apply existsb_True. exists a. split; [set_solver|done].
  - by apply IH.
Qed.

(** ** Changes *)
Lemma record_changes_latest store changed c :
  latest_changes (record_changes store changed) !! c =
  if bool_decide (c ∈ changed) then Some (wrap64 (revision store + 1)) else latest_changes store !! c.
Proof. unfold record_changes. cbn. apply foldl_insert_lookup. Qed.

(** A commit in terms of what it installs. *)
Definition committed_versions (shared : Shared) (store : ReflectionStore) (journal : StoreJournal) : gmap VolumeId Value :=
  let store := if existsb is_create (edits journal) then prune_collected shared store else store in
  if is_current store journal then install_views journal (versions store) else install_rebased shared journal (versions store).

Lemma prune_collected_current shared store journal : is_current (prune_collected shared store) journal = is_current store journal.
Proof. unfold prune_collected. by destruct (completed_epoch shared =? pruned_at store). Qed.

Lemma commit_spec shared store journal changed shared' store' :
  commit_validated shared store journal = (changed, shared', store') -> edits journal <> [] ->
  changed = true /\
  versions store' = committed_versions shared store journal /\
  store_identity store' = store_identity store /\ kept store' = kept store /\ revoked store' = revoked store /\
  revision store' = wrap64 (revision store + 1) /\
  (forall c, latest_changes store' !! c =
     if bool_decide (c ∈ normalized_edit_paths (edits journal)) then Some (revision store') else latest_changes store !! c) /\
  cleared shared' = cleared shared /\ next_volume shared' = next_volume shared.
Proof.
  unfold commit_validated. intros E Hne. rewrite bool_decide_eq_false_2 in E by done.
  set (store1 := if existsb is_create (edits journal) then prune_collected shared store else store) in *.
  assert (Hcur : is_current store journal = is_current store1 journal) by (unfold store1; destruct (existsb _ _); [by rewrite prune_collected_current|done]).
  assert (H1 : store_identity store1 = store_identity store /\ kept store1 = kept store /\ revoked store1 = revoked store /\
    revision store1 = revision store /\ latest_changes store1 = latest_changes store)
    by (unfold store1, prune_collected; by destruct (existsb _ _), (completed_epoch shared =? pruned_at store)).
  destruct H1 as (Ei & Ek & Er & Erev & El).
  destruct (foldl settle_edit _ _) as [shared2 settled2] eqn:Es. injection E as <- <- <-.
  assert (Hsettle : forall l sh se sh' se', foldl settle_edit (sh, se) l = (sh', se') ->
    cleared sh' = cleared sh /\ next_volume sh' = next_volume sh).
  { clear. induction l as [|e l IH]; intros sh se sh' se'; [by intros [= <- <-]|]. cbn.
    destruct e; try apply IH. cbn. destruct (bool_decide _); [|apply IH]. intros E. apply IH in E. done. }
  destruct (Hsettle _ _ _ _ _ Es) as [Ecl Enx].
  split; [done|]. split; [|split; [done|split; [done|split; [done|split; [by cbn; rewrite Erev|split; [|done]]]]]].
  - unfold committed_versions. fold store1. cbn. by rewrite Hcur.
  - intros c. cbn. rewrite foldl_insert_lookup. cbn. by rewrite Erev, El.
Qed.

(** A commit keeps what it does not overlap, and leaves each written volume whose
    cell the journal holds with its edits replayed. *)
Lemma committed_versions_spec shared store journal v :
  journal_ok shared journal ->
  (is_current store journal = true -> snapshot_versions (snapshot journal) = versions store) ->
  v ∉ cleared shared ->
  version_value shared (committed_versions shared store journal) v =
  if bool_decide (v ∈ written_volumes (edits journal)) && bool_decide (v ∈ cells journal)
  then replayed v (version_value shared (versions store) v) (edits journal)
  else version_value shared (versions store) v.
Proof.
  intros Hok Hcur Hv. unfold committed_versions.
  set (store1 := if existsb is_create (edits journal) then prune_collected shared store else store).
  assert (Hval : version_value shared (versions store1) v = version_value shared (versions store) v)
    by (unfold store1; destruct (existsb _ _); [apply prune_collected_value|done]).
  assert (Hc1 : is_current store1 journal = is_current store journal)
    by (unfold store1; destruct (existsb _ _); [apply prune_collected_current|done]).
  assert (Hlive : forall vs : gmap VolumeId Value, version_value shared vs v = vs !! v)
    by (intros vs; unfold version_value; by rewrite bool_decide_eq_false_2).
  assert (Hst : versions store1 !! v = version_value shared (versions store) v) by (by rewrite <- Hval, Hlive).
  rewrite Hc1. rewrite Hlive. destruct (is_current store journal) eqn:Ec.
  - rewrite install_views_spec. destruct (bool_decide (v ∈ written_volumes _)) eqn:Ew; [|exact Hst].
    destruct (bool_decide (v ∈ cells journal)); [|exact Hst]. cbn [andb].
    rewrite (views_replayed _ _ Hok), Ew. unfold base_value. rewrite (Hcur eq_refl).
    destruct (replayed _ _ _) eqn:Er; [done|]. rewrite Hst.
    destruct (version_value shared (versions store) v) as [x|]; [|done].
    by destruct (replayed_keeps v (edits journal) x) as [? Hr]; rewrite Er in Hr.
  - rewrite install_rebased_spec. destruct (bool_decide (v ∈ written_volumes _)) eqn:Ew; [|exact Hst].
    destruct (bool_decide (v ∈ cells journal)); [|exact Hst]. cbn [andb]. rewrite Hval.
    destruct (replayed _ _ _) eqn:Er; [done|]. rewrite Hst.
    destruct (version_value shared (versions store) v) as [x|]; [|done].
    by destruct (replayed_keeps v (edits journal) x) as [? Hr]; rewrite Er in Hr.
Qed.
