(* ===== verification/StoreHistory.v ===== *)
(** * The bodies of transactions ([reflection/store.rs], [reflection/machine.rs])

    A transaction's body reads paths and edits volumes through its journal, and what
    it does next may depend on everything it has read: [Body] is the tree of its
    choices. [run_body] performs a body on a journal as the requests of a reflection
    machine do ([.heap.get], [.vol.get], [.heap.set], [.heap.rewrite], [.heap.del] and
    the writes of virtual resources), and logs what each read found.

    [run_same] is the heart of the proofs about concurrent transactions: a body that
    runs on two journals reads the same and makes the same edits, if the two agree on
    what the reads of one of the runs depend on. *)
From stdpp Require Import base option list numbers gmap relations.
From Stdlib Require Import ZArith Lia.
From S2P Require Import Prelude Conflict DictPaths StoreJournal ReflectionStore StoreFacts.

Inductive Body :=
  | Return
  | ReadPath (volume : VolumeId) (path : ConflictPath) (next : option PathRead -> Body)
  | ReadVolume (volume : VolumeId) (path : ConflictPath) (next : option PathRead -> Body)
  | WritePath (volume : VolumeId) (path : ConflictPath) (value : Value) (next : Body)
  | RewritePath (volume : VolumeId) (path : ConflictPath) (updater : Value) (next : Body)
  | RemovePath (volume : VolumeId) (path : ConflictPath) (next : Body)
  | WriteVirtual (path : ConflictPath) (next : Body)
  | RewriteVirtual (path : ConflictPath) (next : Body).

(** What a read found, and the edits before it. *)
Record ReadEvent := MkRead { read_address : ConflictAddress; edits_before : list StoreEdit; found : option PathRead }.

(** The reads as the body sees them. *)
Definition outcomes (log : list ReadEvent) : list (ConflictAddress * option PathRead) :=
  (fun event => (read_address event, found event)) <$> log.

Section run.
Context {Index : Type} `{ConflictAnalysis Index} (apply : Data -> Data -> Data).

(** A read at a path of a volume's contents. *)
Definition read_contents (path : ConflictPath) (contents : option Value) : option PathRead := read_at apply path contents.

Fixpoint run_body (shared : Shared) (attempt : Attempt Index) (journal : StoreJournal) (body : Body)
  : Attempt Index * StoreJournal * list ReadEvent :=
  match body with
  | Return => (attempt, journal, [])
  | ReadPath volume path next =>
      let '(attempt, _) := observe_read_by_id attempt journal volume path in
      let result := read_contents path (value_at_in shared journal volume []) in
      let '(attempt, journal', log) := run_body shared attempt journal (next result) in
      (attempt, journal', MkRead (Reflection volume path) (edits journal) result :: log)
  | ReadVolume volume path next =>
      let '(attempt, _) := observe_read_by_id attempt journal volume path in
      let '(contents, journal) := read_volume_in shared journal volume in
      let result := read_contents path contents in
      let '(attempt, journal', log) := run_body shared attempt journal (next result) in
      (attempt, journal', MkRead (Reflection volume path) (edits journal) result :: log)
  | WritePath volume path value next => run_body shared attempt (write_by_id shared journal volume path value) next
  | RewritePath volume path updater next => run_body shared attempt (rewrite_by_id shared journal volume path updater) next
  | RemovePath volume path next => run_body shared attempt (remove_by_id shared journal volume path) next
  | WriteVirtual path next => run_body shared attempt (write_virtual journal path) next
  | RewriteVirtual path next => run_body shared attempt (rewrite_virtual journal path) next
  end.

(** A transaction of its own on a snapshot. *)
Definition run_transaction (shared : Shared) (snapshot : StoreSnapshot) (body : Body) :=
  run_body shared new_attempt (new_journal snapshot) body.

(** Reads are of direct paths of volumes that hold data. *)
Definition proper_read (event : ReadEvent) : bool :=
  direct_path (path (read_address event)) && negb (bool_decide (volume (read_address event) = runtime_volume)).

Lemma proper_read_spec event :
  proper_read event <-> direct_path (path (read_address event)) /\ volume (read_address event) <> runtime_volume.
Proof. unfold proper_read. by rewrite andb_True, negb_True, bool_decide_spec. Qed.

(** ** One edit of a body *)
Inductive edit_step (shared : Shared) : StoreJournal -> StoreEdit -> StoreJournal -> Prop :=
  | data_step journal e : writes_data e = true -> is_create e = false ->
      edit_step shared journal e (push_edit shared journal (edit_volume e) e)
  | virtual_step journal e : writes_data e = false -> edit_step shared journal e (record_edit journal e).

Lemma edit_step_edits shared journal e journal' : edit_step shared journal e journal' -> edits journal' = edits journal ++ [e].
Proof. intros [? ? Hw Hc|? ? Hw]; [apply push_edit_edits|done]. Qed.

Lemma edit_step_snapshot shared journal e journal' : edit_step shared journal e journal' -> snapshot journal' = snapshot journal.
Proof. intros [? ? Hw Hc|? ? Hw]; [apply push_edit_snapshot|done]. Qed.

Lemma edit_step_branch shared journal e journal' : edit_step shared journal e journal' -> branch journal' = branch journal.
Proof. intros [? ? Hw Hc|? ? Hw]; [apply push_edit_branch|done]. Qed.

Lemma edit_step_ok shared journal e journal' : edit_step shared journal e journal' -> journal_ok shared journal -> journal_ok shared journal'.
Proof. intros [? ? Hw Hc|? ? Hw]; [by apply push_edit_ok|by apply record_edit_ok]. Qed.

(** The shape of a run: a read, an edit, or the end. *)
Lemma run_body_ind (P : StoreJournal -> Body -> Prop) shared :
  (forall journal, P journal Return) ->
  (forall journal volume path next, (forall result, P journal (next result)) -> P journal (ReadPath volume path next)) ->
  (forall journal volume path next, (forall result, P (keep_cell journal volume) (next result)) -> P journal (ReadVolume volume path next)) ->
  (forall journal journal' e body next, edit_step shared journal e journal' ->
     (forall attempt, run_body shared attempt journal body = run_body shared attempt journal' next) ->
     (forall shared' other attempt, exists other', edit_step shared' other e other' /\
        run_body shared' attempt other body = run_body shared' attempt other' next) ->
     P journal' next -> P journal body) ->
  forall body journal, P journal body.
Proof.
  intros Hret Hread Hvol Hedit. induction body as [|v p next IH|v p next IH|v p x next IH|v p x next IH|v p next IH|p next IH|p next IH];
    intros journal; [done|by apply Hread|by apply Hvol|..].
  - eapply (Hedit _ _ (SetEdit (Reflection v p) (Some x))); [by apply data_step|done| |done].
    intros shared' other attempt. eexists. split; [by apply data_step|done].
  - eapply (Hedit _ _ (RewriteEdit (Reflection v p) (Some x))); [by apply data_step|done| |done].
    intros shared' other attempt. eexists. split; [by apply data_step|done].
  - eapply (Hedit _ _ (RemoveEdit (Reflection v p))); [by apply data_step|done| |done].
    intros shared' other attempt. eexists. split; [by apply data_step|done].
  - eapply (Hedit _ _ (SetEdit (virtual_address p) None)); [by apply virtual_step|done| |done].
    intros shared' other attempt. eexists. split; [by apply virtual_step|done].
  - eapply (Hedit _ _ (RewriteEdit (virtual_address p) None)); [by apply virtual_step|done| |done].
    intros shared' other attempt. eexists. split; [by apply virtual_step|done].
Qed.

(** *** What a run keeps *)
Lemma run_body_ok shared body journal : forall attempt attempt' journal' log,
  run_body shared attempt journal body = (attempt', journal', log) -> journal_ok shared journal ->
  journal_ok shared journal' /\ snapshot journal' = snapshot journal /\ branch journal' = branch journal /\
  exists own, edits journal' = edits journal ++ own.
Proof.
  revert body journal. apply (run_body_ind (fun journal body => forall attempt attempt' journal' log,
    run_body shared attempt journal body = (attempt', journal', log) -> journal_ok shared journal ->
    journal_ok shared journal' /\ snapshot journal' = snapshot journal /\ branch journal' = branch journal /\
    exists own, edits journal' = edits journal ++ own) shared).
  - intros journal attempt ? ? ? [= <- <- <-] Hok. repeat split; try apply Hok. exists []. by rewrite app_nil_r.
  - intros journal v p next IH attempt ? ? ?. cbn. destruct (observe_read_by_id _ _ _ _) as [a1 b1].
    destruct (run_body _ _ _ _) as [[a2 j2] l2] eqn:E. intros [= <- <- <-] Hok. by eapply IH.
  - intros journal v p next IH attempt ? ? ?. cbn. destruct (observe_read_by_id _ _ _ _) as [a1 b1].
    destruct (run_body _ _ _ _) as [[a2 j2] l2] eqn:E. intros [= <- <- <-] Hok. eapply (IH _ _ _ _ _ E). by apply keep_cell_ok.
  - intros journal journal1 e body next Hstep Hrun _ IH attempt attempt' journal' log E Hok. rewrite Hrun in E.
    destruct (IH _ _ _ _ E (edit_step_ok _ _ _ _ Hstep Hok)) as (Hok' & Es & Eb & own & Eo). split; [done|].
    rewrite Es, Eb, Eo, (edit_step_edits _ _ _ _ Hstep), (edit_step_snapshot _ _ _ _ Hstep), (edit_step_branch _ _ _ _ Hstep).
    repeat split. exists (e :: own). by rewrite <- app_assoc.
Qed.

(** The edits before a read are among the edits of the run. *)
Lemma run_body_log shared body journal : forall attempt attempt' journal' log,
  run_body shared attempt journal body = (attempt', journal', log) -> journal_ok shared journal ->
  Forall (fun event => exists own rest, edits_before event = edits journal ++ own /\ edits journal' = edits_before event ++ rest) log.
Proof.
  revert body journal. apply (run_body_ind (fun journal body => forall attempt attempt' journal' log,
    run_body shared attempt journal body = (attempt', journal', log) -> journal_ok shared journal ->
    Forall (fun event => exists own rest, edits_before event = edits journal ++ own /\ edits journal' = edits_before event ++ rest) log) shared).
  - by intros journal attempt ? ? ? [= <- <- <-] _.
  - intros journal v p next IH attempt ? ? ?. cbn. destruct (observe_read_by_id _ _ _ _) as [a1 b1].
    destruct (run_body _ _ _ _) as [[a2 j2] l2] eqn:E. intros [= <- <- <-] Hok.
    pose proof (run_body_ok _ _ _ _ _ _ _ E Hok) as (_ & _ & _ & own & Eo).
    constructor; [|by eapply IH]. exists [], own. by rewrite app_nil_r.
  - intros journal v p next IH attempt ? ? ?. cbn. destruct (observe_read_by_id _ _ _ _) as [a1 b1].
    destruct (run_body _ _ _ _) as [[a2 j2] l2] eqn:E. intros [= <- <- <-] Hok.
    apply (keep_cell_ok _ _ v) in Hok. pose proof (run_body_ok _ _ _ _ _ _ _ E Hok) as (_ & _ & _ & own & Eo).
    constructor; [|exact (IH _ _ _ _ _ E Hok)]. exists [], own. by rewrite app_nil_r.
  - intros journal journal1 e body next Hstep Hrun _ IH attempt attempt' journal' log E Hok. rewrite Hrun in E.
    specialize (IH _ _ _ _ E (edit_step_ok _ _ _ _ Hstep Hok)). eapply Forall_impl; [exact IH|].
    intros event (own & rest & Eo & Er). rewrite (edit_step_edits _ _ _ _ Hstep), <- app_assoc in Eo. by exists ([e] ++ own), rest.
Qed.

(** *** Two runs of one body *)

(** What a direct path depends on is direct. *)
Lemma dependency_direct edits v : forall p q,
  Forall proper_edit edits -> direct_path p -> dependency edits v p = Some q -> direct_path q.
Proof.
  induction edits as [|e edits IH] using rev_ind; intros p q; [by intros _ ? [= <-]|].
  rewrite Forall_app, Forall_singleton, dependency_snoc. intros [Hl He] Hp.
  destruct (dependency_step v e p) as [q'|] eqn:E; [|done]. apply IH; [done|].
  apply proper_edit_spec in He as [Hd _]. exact (dependency_step_direct _ _ _ _ Hp Hd E).
Qed.

(** The state of a volume in a journal before the edits [own]. *)
Definition own_base (shared : Shared) (journal : StoreJournal) (pre : list StoreEdit) (v : VolumeId) : option Value :=
  replayed v (base_value shared journal v) pre.

(** An edit that covers a path is an edit of data. *)
Lemma dependency_None_written edits v p :
  Forall proper_edit edits -> v <> runtime_volume -> dependency edits v p = None -> v ∈ written_volumes edits.
Proof.
  intros Hproper Hv. revert p. induction edits as [|e edits IH] using rev_ind; intros p; [done|].
  apply Forall_app in Hproper as [Hproper He%Forall_one]. rewrite dependency_snoc, written_snoc.
  destruct (dependency_step v e p) as [q|] eqn:Es; [intros Hd; left; by eapply IH|]. intros _. right.
  assert (Ev : edit_volume e = v).
  { destruct (decide (edit_volume e = v)); [done|]. exfalso. revert Es. unfold dependency_step.
    rewrite bool_decide_eq_false_2 by done. by destruct e. }
  split; [|done]. apply proper_edit_spec in He as (_ & Hk & _). unfold edit_kept_apart in Hk.
  destruct (writes_data e); [done|]. apply bool_decide_spec in Hk. congruence.
Qed.

Lemma written_app_l v edits own : v ∈ written_volumes edits -> v ∈ written_volumes (edits ++ own).
Proof. rewrite !elem_of_written, Exists_app. by left. Qed.

Section same.
Context (shared shared' : Shared) (F G : VolumeId -> option Value) (own_final : list StoreEdit).

(** The two runs agree on what a read depends on. *)
Definition agreed_read (pre : list StoreEdit) (event : ReadEvent) : Prop :=
  let v := volume (read_address event) in
  forall own q, edits_before event = pre ++ own -> dependency own v (path (read_address event)) = Some q ->
    read_at apply q (F v) = read_at apply q (G v).

(** The edits are proper and placed from both states, and write volumes that exist
    in both or in neither. *)
Record agreeable : Prop := {
  agreeable_proper : Forall proper_edit own_final;
  agreeable_placed v : placed apply v (F v) own_final;
  agreeable_placed' v : placed apply v (G v) own_final;
  agreeable_exist v : v ∈ written_volumes own_final -> is_Some (F v) <-> is_Some (G v);
}.

Lemma read_same journal journal' pre pre' own rest v p :
  agreeable -> own_final = own ++ rest ->
  journal_ok shared journal -> journal_ok shared' journal' ->
  edits journal = pre ++ own -> edits journal' = pre' ++ own ->
  F v = own_base shared journal pre v -> G v = own_base shared' journal' pre' v ->
  v <> runtime_volume -> direct_path p ->
  (forall q, dependency own v p = Some q -> read_at apply q (F v) = read_at apply q (G v)) ->
  read_contents p (value_at_in shared journal v []) = read_contents p (value_at_in shared' journal' v []).
Proof.
  intros [Hproper Hpl Hpl' Hex] Eown Hok Hok' Ej Ej' EF EG Hv Hp Hdep.
  rewrite !journal_root, Ej, Ej' by done. rewrite !replayed_app.
  change (replayed v (base_value shared journal v) pre) with (own_base shared journal pre v).
  change (replayed v (base_value shared' journal' v) pre') with (own_base shared' journal' pre' v).
  rewrite <- EF, <- EG. subst own_final. apply Forall_app in Hproper as [Hproper _].
  specialize (Hpl v). specialize (Hpl' v). apply placed_app in Hpl as [Hpl _], Hpl' as [Hpl' _].
  apply dependency_sound; try done.
  destruct (dependency own v p) as [q|] eqn:Ed.
  - specialize (Hdep q eq_refl). unfold read_at in Hdep.
    rewrite <- (fmap_is_Some (fun v => lookup_path (stored_path q) (denote apply v)) (F v)), Hdep. apply fmap_is_Some.
  - apply Hex. eapply written_app_l, dependency_None_written; done.
Qed.

Lemma run_same body journal : forall journal' attempt attempt' pre pre' own a1 j1 log,
  agreeable ->
  run_body shared attempt journal body = (a1, j1, log) ->
  journal_ok shared journal -> journal_ok shared' journal' ->
  edits journal = pre ++ own -> edits journal' = pre' ++ own -> edits j1 = pre ++ own_final ->
  (forall v, F v = own_base shared journal pre v) -> (forall v, G v = own_base shared' journal' pre' v) ->
  Forall proper_read log -> Forall (agreed_read pre) log ->
  exists a1' j1' log', run_body shared' attempt' journal' body = (a1', j1', log') /\
    outcomes log' = outcomes log /\ edits j1' = pre' ++ own_final.
Proof.
  revert body journal. apply (run_body_ind (fun journal body => forall journal' attempt attempt' pre pre' own a1 j1 log,
    agreeable -> run_body shared attempt journal body = (a1, j1, log) ->
    journal_ok shared journal -> journal_ok shared' journal' ->
    edits journal = pre ++ own -> edits journal' = pre' ++ own -> edits j1 = pre ++ own_final ->
    (forall v, F v = own_base shared journal pre v) -> (forall v, G v = own_base shared' journal' pre' v) ->
    Forall proper_read log -> Forall (agreed_read pre) log ->
    exists a1' j1' log', run_body shared' attempt' journal' body = (a1', j1', log') /\
      outcomes log' = outcomes log /\ edits j1' = pre' ++ own_final) shared).
  - intros journal journal' attempt attempt' pre pre' own a1 j1 log Ha [= <- <- <-] Hok Hok' Ej Ej' Ef _ _ _ _.
    rewrite Ej in Ef. apply (inj (app pre)) in Ef as <-. by exists attempt', journal', [].
  - intros journal v p next IH journal' attempt attempt' pre pre' own a1 j1 log Ha E Hok Hok' Ej Ej' Ef EF EG Hpr Hag. cbn in E.
    destruct (observe_read_by_id attempt journal v p) as [a2 b2].
    destruct (run_body shared a2 journal _) as [[a3 j3] l3] eqn:Er. injection E as <- <- <-.
    apply Forall_cons in Hpr as [Hp1 Hpr], Hag as [Hag1 Hag]. apply proper_read_spec in Hp1 as [Hdp Hv]. cbn in Hdp, Hv.
    pose proof (run_body_ok _ _ _ _ _ _ _ Er Hok) as (_ & _ & _ & rest & Erest).
    assert (Eown : own_final = own ++ rest).
    { rewrite Ef, Ej, <- app_assoc in Erest. by apply (inj (app pre)) in Erest. }
    assert (Hsame : read_contents p (value_at_in shared journal v []) = read_contents p (value_at_in shared' journal' v [])).
    { eapply read_same; try done. intros q Hq. by eapply (Hag1 own q). }
    cbn. destruct (observe_read_by_id attempt' journal' v p) as [a4 b4]. rewrite <- Hsame.
    edestruct (IH (read_contents p (value_at_in shared journal v [])) journal' a2 a4) as (a5 & j5 & l5 & -> & El & Ee); try done.
    eexists _, _, _. split; [done|]. split; [|done]. cbn. by f_equal.
  - intros journal v p next IH journal' attempt attempt' pre pre' own a1 j1 log Ha E Hok Hok' Ej Ej' Ef EF EG Hpr Hag. cbn in E.
    destruct (observe_read_by_id attempt journal v p) as [a2 b2].
    destruct (run_body shared a2 (keep_cell journal v) _) as [[a3 j3] l3] eqn:Er. injection E as <- <- <-.
    apply Forall_cons in Hpr as [Hp1 Hpr], Hag as [Hag1 Hag]. apply proper_read_spec in Hp1 as [Hdp Hv]. cbn in Hdp, Hv.
    pose proof (keep_cell_ok _ _ v Hok) as Hkok. pose proof (keep_cell_ok _ _ v Hok') as Hkok'.
    pose proof (run_body_ok _ _ _ _ _ _ _ Er Hkok) as (_ & _ & _ & rest & Erest).
    assert (Eown : own_final = own ++ rest).
    { rewrite Ef in Erest. cbn in Erest. rewrite Ej, <- app_assoc in Erest. by apply (inj (app pre)) in Erest. }
    assert (Hsame : read_contents p (value_at_in shared (keep_cell journal v) v []) = read_contents p (value_at_in shared' (keep_cell journal' v) v [])).
    { eapply read_same; try done. intros q Hq. by eapply (Hag1 own q). }
    cbn. destruct (observe_read_by_id attempt' journal' v p) as [a4 b4]. rewrite <- Hsame.
    edestruct (IH (read_contents p (value_at_in shared (keep_cell journal v) v [])) (keep_cell journal' v) a2 a4)
      as (a5 & j5 & l5 & -> & El & Ee); try done.
    eexists _, _, _. split; [done|]. split; [|done]. cbn. by f_equal.
  - intros journal journal1 e body next Hstep Hrun Hrun' IH journal' attempt attempt' pre pre' own a1 j1 log Ha E Hok Hok' Ej Ej' Ef EF EG Hpr Hag.
    rewrite Hrun in E. destruct (Hrun' shared' journal' attempt') as (journal1' & Hstep' & ->).
    eapply (IH journal1' attempt attempt' pre pre' (own ++ [e])); try done.
    + by eapply edit_step_ok.
    + by eapply edit_step_ok.
    + by rewrite (edit_step_edits _ _ _ _ Hstep), Ej, app_assoc.
    + by rewrite (edit_step_edits _ _ _ _ Hstep'), Ej', app_assoc.
    + intros v. rewrite EF. unfold own_base, base_value. by rewrite (edit_step_snapshot _ _ _ _ Hstep).
    + intros v. rewrite EG. unfold own_base, base_value. by rewrite (edit_step_snapshot _ _ _ _ Hstep').
Qed.
End same.
End run.

(** * The history of a store

    A world is a store with the versions it held at each revision. Its steps are the
    store's operations, a collection of volumes that the store does not keep, and the
    operations on what the store shares. [world_inv] is proved for every step: what a
    past revision held at a path is what the store holds now, unless the store has
    recorded a later change of an overlapping address. The one use of wrap-around
    excluded here is the wrap of the revision counter after [2 ^ 64] changes. *)

Local Open Scope Z_scope.

Record World := MkWorld {
  world_shared : Shared;
  world_store : ReflectionStore;
  history : gmap Z (gmap VolumeId Value);
}.

(** The world of a new store. *)
Definition new_world (identity : Z) : World :=
  MkWorld new_shared (new_store identity) {[ 0 := versions (new_store identity) ]}.

(** A change of the store, which is a new revision. *)
Definition advance (world : World) (shared : Shared) (store : ReflectionStore) : World :=
  MkWorld shared store (<[ revision store := versions store ]> (history world)).

(** A collection finds the cells of [dead] unreachable. *)
Definition collect_volumes (shared : Shared) (dead : gset VolumeId) : Shared :=
  MkShared (next_volume shared) (pending shared) (breakers shared) (dead ∪ cleared shared) (completed_epoch shared + 1) (lost_resolvers shared).

(** The journal began from a snapshot of the world's store. *)
Definition began_in (world : World) (journal : StoreJournal) : Prop :=
  identity (snapshot journal) = store_identity (world_store world) /\
  history world !! snapshot_revision (snapshot journal) = Some (snapshot_versions (snapshot journal)).

Section worlds.
Context {Index : Type} `{ConflictAnalysis Index} (apply : Data -> Data -> Data).

Inductive world_step (world : World) : World -> Prop :=
  | commit_step (journal : StoreJournal) (attempt : Attempt Index) changed shared store :
      began_in world journal -> journal_ok (world_shared world) journal ->
      Forall proper_edit (edits journal) ->
      (forall v, placed apply v (version_value (world_shared world) (versions (world_store world)) v) (edits journal)) ->
      validate (world_shared world) (world_store world) journal attempt = Committed ->
      commit_validated (world_shared world) (world_store world) journal = (changed, shared, store) -> edits journal <> [] ->
      revision (world_store world) + 1 < 2 ^ 64 ->
      world_step world (advance world shared store)
  | create_step initial volume shared store :
      create_volume (world_shared world) (world_store world) initial = Some (volume, shared, store) ->
      revision (world_store world) + 1 < 2 ^ 64 ->
      world_step world (advance world shared store)
  | revoke_step volume root store :
      revoke_volume (world_shared world) (world_store world) volume = Some (root, store) ->
      revision (world_store world) + 1 < 2 ^ 64 ->
      world_step world (advance world (world_shared world) store)
  | replace_step root :
      revision (world_store world) + 1 < 2 ^ 64 ->
      world_step world (advance world (world_shared world) (replace_root (world_store world) root))
  | collect_step dead :
      dead ## kept (world_store world) ->
      world_step world (MkWorld (collect_volumes (world_shared world) dead) (world_store world) (history world))
  | reserve_step volume shared :
      reserve_volume (world_shared world) = Some (volume, shared) ->
      world_step world (MkWorld shared (world_store world) (history world))
  | allocate_step promise :
      world_step world (MkWorld (allocate_promise (world_shared world) promise) (world_store world) (history world))
  | forget_step promise :
      world_step world (MkWorld (forget_promise (world_shared world) promise) (world_store world) (history world))
  | settled_step :
      world_step world (MkWorld (world_shared world) (take_settled (world_store world)).2 (history world))
  | lost_step :
      world_step world (MkWorld (take_lost_resolvers (world_shared world)).2 (world_store world) (history world)).

(** No change of an overlapping address is recorded after revision [since]. *)
Definition unchanged_since (store : ReflectionStore) (since : Z) (address : ConflictAddress) : Prop :=
  forall c at_revision, latest_changes store !! c = Some at_revision -> since < at_revision -> ~ overlaps c address.

Record world_inv (world : World) : Prop := {
  inv_current : history world !! revision (world_store world) = Some (versions (world_store world));
  inv_revision : 0 <= revision (world_store world) < 2 ^ 64;
  inv_past r vs : history world !! r = Some vs -> r <= revision (world_store world);
  inv_latest c r : latest_changes (world_store world) !! c = Some r -> r <= revision (world_store world);
  inv_agree r vs v p :
    history world !! r = Some vs -> v ∉ cleared (world_shared world) -> direct_path p ->
    unchanged_since (world_store world) r (Reflection v p) ->
    read_at apply p (vs !! v) = read_at apply p (versions (world_store world) !! v);
  inv_exist r vs v :
    history world !! r = Some vs -> is_Some (vs !! v) -> v ∉ cleared (world_shared world) ->
    is_Some (versions (world_store world) !! v) \/ v ∈ revoked (world_store world);
}.

Lemma new_world_inv identity : world_inv (new_world identity).
Proof.
  split; cbn [new_world world_shared world_store history].
  - by rewrite lookup_singleton_eq.
  - cbn. lia.
  - intros r vs. rewrite lookup_singleton_Some. intros [<- _]. cbn. lia.
  - intros c r. cbn. by rewrite lookup_empty.
  - intros r vs v p. rewrite lookup_singleton_Some. intros [<- <-]. done.
  - intros r vs v. rewrite lookup_singleton_Some. intros [<- <-]. by left.
Qed.

(** A new revision that changes only what overlaps the addresses it records. *)
Lemma advance_inv world shared store (changed : list ConflictAddress) :
  world_inv world -> revision (world_store world) + 1 < 2 ^ 64 ->
  revision store = wrap64 (revision (world_store world) + 1) ->
  (forall c, latest_changes store !! c = if bool_decide (c ∈ changed) then Some (revision store) else latest_changes (world_store world) !! c) ->
  cleared shared = cleared (world_shared world) ->
  (forall v p, v ∉ cleared shared -> direct_path p -> (forall c, c ∈ changed -> ~ overlaps c (Reflection v p)) ->
     read_at apply p (versions (world_store world) !! v) = read_at apply p (versions store !! v)) ->
  (forall v, v ∉ cleared shared -> is_Some (versions (world_store world) !! v) -> is_Some (versions store !! v) \/ v ∈ revoked store) ->
  revoked (world_store world) ⊆ revoked store ->
  world_inv (advance world shared store).
Proof.
  intros Hinv Hb Erev Elat Ecl Hread Hex Hrevoked. pose proof (inv_revision _ Hinv) as Hr.
  rewrite wrap64_small in Erev by lia.
  split; cbn [advance world_shared world_store history].
  - by rewrite lookup_insert_eq.
  - lia.
  - intros r vs. rewrite lookup_insert_Some. intros [[<- _]|[_ Hpast%(inv_past _ Hinv)]]; lia.
  - intros c r. rewrite Elat. destruct (bool_decide _); [intros [= <-]; lia|]. intros Hl%(inv_latest _ Hinv). lia.
  - intros r vs v p. rewrite lookup_insert_Some. intros [[<- <-]|[Hne Hpast]] Hv Hp Hun; [done|].
    pose proof (inv_past _ Hinv _ _ Hpast) as Hle. etrans; [|apply Hread; try done].
    + eapply (inv_agree _ Hinv); try done; [by rewrite <- Ecl|]. intros c at_ Hc Hlt Ho.
      destruct (decide (c ∈ changed)) as [Hin|Hin].
      * apply (Hun c (revision store)); [by rewrite Elat, bool_decide_eq_true_2|lia|done].
      * apply (Hun c at_); [by rewrite Elat, bool_decide_eq_false_2|done|done].
    + intros c Hin Ho. apply (Hun c (revision store)); [by rewrite Elat, bool_decide_eq_true_2|lia|done].
  - intros r vs v. rewrite lookup_insert_Some. intros [[<- <-]|[_ Hpast]] Hs Hv; [by left|].
    destruct (inv_exist _ Hinv _ _ _ Hpast Hs) as [Hs'|Hrev]; [by rewrite <- Ecl|by apply Hex|right; set_solver].
Qed.

(** A step that changes neither the store's versions nor its changes, and clears no
    fewer volumes. *)
Lemma keep_inv world shared store :
  world_inv world -> versions store = versions (world_store world) -> revision store = revision (world_store world) ->
  latest_changes store = latest_changes (world_store world) -> revoked store = revoked (world_store world) ->
  cleared (world_shared world) ⊆ cleared shared ->
  world_inv (MkWorld shared store (history world)).
Proof.
  intros Hinv Ev Er El Erv Hc. split; cbn [world_shared world_store history]; unfold unchanged_since; rewrite ?Ev, ?Er, ?El, ?Erv; try apply Hinv.
  - intros r vs v p Hpast Hv. eapply (inv_agree _ Hinv); [done|set_solver].
  - intros r vs v Hpast Hs Hv. eapply (inv_exist _ Hinv); [done|done|set_solver].
Qed.

Lemma reserve_volume_cleared shared v shared' : reserve_volume shared = Some (v, shared') -> cleared shared' = cleared shared.
Proof.
  unfold reserve_volume. destruct (checked_add _ _); [|done]. cbn. destruct (_ =? 0); [done|]. by intros [= <- <-].
Qed.

Lemma prune_collected_live shared store v : v ∉ cleared shared -> versions (prune_collected shared store) !! v = versions store !! v.
Proof.
  intros Hv. pose proof (prune_collected_value shared store v) as Hp. unfold version_value in Hp.
  by rewrite !bool_decide_eq_false_2 in Hp.
Qed.

Lemma commit_inv world journal attempt changed shared store :
  world_inv world -> began_in world journal -> journal_ok (world_shared world) journal ->
  Forall proper_edit (edits journal) ->
  (forall v, placed apply v (version_value (world_shared world) (versions (world_store world)) v) (edits journal)) ->
  validate (Index := Index) (world_shared world) (world_store world) journal attempt = Committed ->
  commit_validated (world_shared world) (world_store world) journal = (changed, shared, store) -> edits journal <> [] ->
  revision (world_store world) + 1 < 2 ^ 64 ->
  world_inv (advance world shared store).
Proof.
  intros Hinv [Eid Hbegan] Hok Hproper Hplaced _ Hcommit Hne Hb.
  destruct (commit_spec _ _ _ _ _ _ Hcommit Hne) as (_ & Ev & _ & _ & Erv & Er & El & Ecl & _).
  assert (Hcur : is_current (world_store world) journal = true -> snapshot_versions (snapshot journal) = versions (world_store world)).
  { unfold is_current. rewrite andb_true_iff, !Z.eqb_eq. intros [_ E]. rewrite <- E in Hbegan.
    rewrite (inv_current _ Hinv) in Hbegan. by injection Hbegan. }
  assert (Hlive : forall vs v, v ∉ cleared (world_shared world) -> version_value (world_shared world) vs v = vs !! v)
    by (intros vs v Hv; unfold version_value; by rewrite bool_decide_eq_false_2).
  eapply (advance_inv world shared store (normalized_edit_paths (edits journal))); try done.
  - intros v p Hv Hp Hapart. rewrite Ecl in Hv. rewrite Ev, <- !(Hlive _ v Hv).
    rewrite committed_versions_spec by done. destruct (_ && _); [|done]. symmetry. apply replayed_apart; [done|done|done|].
    apply Forall_forall. intros e He Ho.
    destruct (proj2 (normalized_overlaps (edits journal) (Reflection v p))) as (a & Ha & Hoa); [by exists e|]. by eapply Hapart.
  - intros v Hv Hs. rewrite Ecl in Hv. left. rewrite Ev, <- (Hlive _ v Hv), committed_versions_spec by done.
    rewrite <- (Hlive _ v Hv) in Hs. destruct (_ && _); [|done]. destruct Hs as [x ->]. apply replayed_keeps.
  - by rewrite Erv.
Qed.

Lemma not_overlapping_root v w p : ~ overlaps (reflection_root v) (Reflection w p) -> w <> v.
Proof. intros Ho ->. apply Ho, overlaps_spec. split; [done|]. left. apply prefix_nil. Qed.

Lemma world_step_inv world world' : world_inv world -> world_step world world' -> world_inv world'.
Proof.
  intros Hinv Hstep. destruct Hstep as [journal attempt changed shared store Hbegan Hok Hproper Hplaced Hval Hcommit Hne Hb
    |initial volume shared store Hcreate Hb|volume root store Hrevoke Hb|root Hb|dead Hdead|volume shared Hres|promise|promise| |].
  - by eapply commit_inv.
  - unfold create_volume in Hcreate. destruct (reserve_volume _) as [[v sh]|] eqn:Er; [|done]. injection Hcreate as <- <- <-.
    apply reserve_volume_cleared in Er.
    assert (Hprune : forall w, w ∉ cleared sh -> w <> v ->
      <[ v := initial ]> (versions (prune_collected sh (world_store world))) !! w = versions (world_store world) !! w).
    { intros w Hw Hne. rewrite lookup_insert_ne by done. by apply prune_collected_live. }
    assert (Hsame : forall sh st, revision (prune_collected sh st) = revision st /\ latest_changes (prune_collected sh st) = latest_changes st /\
      revoked (prune_collected sh st) = revoked st) by (intros; unfold prune_collected; by destruct (_ =? _)).
    destruct (Hsame sh (world_store world)) as (Erev & Elat & Ervk).
    eapply (advance_inv world sh _ [reflection_root v]); try done.
    + cbn. by rewrite Erev.
    + intros c. rewrite record_changes_latest. cbn. by rewrite Erev, Elat.
    + intros w p Hw Hp Ho. cbn. rewrite Hprune; [done|done|]. eapply not_overlapping_root, Ho. set_solver.
    + intros w Hw Hs. left. cbn. destruct (decide (w = v)) as [->|Hne]; [by rewrite lookup_insert_eq|]. by rewrite Hprune.
    + cbn. by rewrite Ervk.
  - unfold revoke_volume in Hrevoke. destruct (bool_decide _); [done|]. destruct (version_value _ _ _); [|done]. injection Hrevoke as <- <-.
    eapply (advance_inv world _ _ [reflection_root volume]); try done.
    + intros c. exact (record_changes_latest (world_store world) [reflection_root volume] c).
    + intros w p Hw Hp Ho. cbn. rewrite lookup_delete_ne; [done|]. apply not_eq_sym. eapply not_overlapping_root, Ho. set_solver.
    + intros w Hw Hs. cbn. destruct (decide (w = volume)) as [->|Hne]; [right; set_solver|left; by rewrite lookup_delete_ne].
    + cbn. set_solver.
  - eapply (advance_inv world _ _ [reflection_root heap_volume]); try done.
    + intros c. exact (record_changes_latest (world_store world) [reflection_root heap_volume] c).
    + intros w p Hw Hp Ho. cbn. rewrite lookup_insert_ne; [done|]. apply not_eq_sym. eapply not_overlapping_root, Ho. set_solver.
    + intros w Hw Hs. left. cbn. destruct (decide (w = heap_volume)) as [->|Hne]; [by rewrite lookup_insert_eq|by rewrite lookup_insert_ne].
  - apply keep_inv; try done. cbn. set_solver.
  - apply keep_inv; try done. by rewrite (reserve_volume_cleared _ _ _ Hres).
  - by apply keep_inv.
  - by apply keep_inv.
  - by apply keep_inv.
  - by apply keep_inv.
Qed.

Lemma world_steps_inv world world' : rtc world_step world world' -> world_inv world -> world_inv world'.
Proof. induction 1 as [|w1 w2 w3 Hs _ IH]; [done|]. intros Hi. by eapply IH, world_step_inv. Qed.

(** What a past revision held, the past of every later world holds. *)
Lemma world_step_past world world' r vs :
  world_inv world -> world_step world world' -> history world !! r = Some vs -> history world' !! r = Some vs.
Proof.
  intros Hinv Hstep Hpast. pose proof (inv_past _ Hinv _ _ Hpast) as Hle. pose proof (inv_revision _ Hinv) as Hr.
  assert (Hadv : forall shared store, revision store = wrap64 (revision (world_store world) + 1) -> revision (world_store world) + 1 < 2 ^ 64 ->
    history (advance world shared store) !! r = Some vs).
  { intros shared store E Hb. rewrite wrap64_small in E by lia. cbn. rewrite lookup_insert_ne; [done|lia]. }
  destruct Hstep as [journal attempt changed shared store Hbegan Hok Hproper Hplaced Hval Hcommit Hne Hb
    |initial volume shared store Hcreate Hb|volume root store Hrevoke Hb|root Hb|dead Hdead|volume shared Hres|promise|promise| |]; try done.
  - apply Hadv; [|done]. by destruct (commit_spec _ _ _ _ _ _ Hcommit Hne) as (_ & _ & _ & _ & _ & Er & _).
  - unfold create_volume in Hcreate. destruct (reserve_volume _) as [[v sh]|] eqn:Er; [|done]. injection Hcreate as <- <- <-.
    apply Hadv; [|done]. cbn. unfold prune_collected. by destruct (_ =? _).
  - unfold revoke_volume in Hrevoke. destruct (bool_decide _); [done|]. destruct (version_value _ _ _); [|done]. injection Hrevoke as <- <-.
    by apply Hadv.
  - by apply Hadv.
Qed.

(** A world only clears volumes, and keeps its store's identity. *)
Lemma world_step_grows world world' :
  world_step world world' ->
  cleared (world_shared world) ⊆ cleared (world_shared world') /\
  store_identity (world_store world') = store_identity (world_store world).
Proof.
  intros Hstep. destruct Hstep as [journal attempt changed shared store Hbegan Hok Hproper Hplaced Hval Hcommit Hne Hb
    |initial volume shared store Hcreate Hb|volume root store Hrevoke Hb|root Hb|dead Hdead|volume shared Hres|promise|promise| |]; try done.
  - destruct (commit_spec _ _ _ _ _ _ Hcommit Hne) as (_ & _ & Ei & _ & _ & _ & _ & Ecl & _). cbn. by rewrite Ecl, Ei.
  - unfold create_volume in Hcreate. destruct (reserve_volume _) as [[v sh]|] eqn:Er; [|done]. injection Hcreate as <- <- <-.
    apply reserve_volume_cleared in Er. cbn. rewrite Er. split; [done|]. unfold prune_collected. by destruct (_ =? _).
  - unfold revoke_volume in Hrevoke. destruct (bool_decide _); [done|]. destruct (version_value _ _ _); [|done]. by injection Hrevoke as <- <-.
  - cbn. set_solver.
  - cbn. by rewrite (reserve_volume_cleared _ _ _ Hres).
Qed.

Lemma world_steps_past world world' r vs :
  rtc world_step world world' -> world_inv world -> history world !! r = Some vs -> history world' !! r = Some vs.
Proof.
  induction 1 as [|w1 w2 w3 Hs _ IH]; [done|]. intros Hi Hp. apply IH; [by eapply world_step_inv|by eapply world_step_past].
Qed.

Lemma world_steps_grow world world' :
  rtc world_step world world' ->
  cleared (world_shared world) ⊆ cleared (world_shared world') /\
  store_identity (world_store world') = store_identity (world_store world).
Proof.
  induction 1 as [|w1 w2 w3 Hs _ [IH1 IH2]]; [done|]. apply world_step_grows in Hs as [H1 H2]. split; [set_solver|congruence].
Qed.
End worlds.
