(* ===== verification/StoreSerial.v ===== *)
(** * Branches merge and transactions commit in a serial order

    A branch of a journal runs beside the rest of its transaction and merges back at
    its join, unless it read what the journal has written since the fork. A merge is
    shown to be the run of the branch's body at the join, and a commit the run of the
    transaction there; the two ways of installing a commit agree; and in any history of
    a store each promise is settled once. *)
From stdpp Require Import base option list numbers gmap relations.
From Stdlib Require Import ZArith Lia.
From S2P Require Import Prelude Conflict DictPaths StoreJournal ReflectionStore StoreFacts StoreHistory.

Section merge.
Context {Index : Type} `{ConflictAnalysis Index} (apply : Data -> Data -> Data).
Implicit Types attempt : Attempt Index.

(** ** What a branch has recorded *)
Definition recorded attempt (b : Branch) (address : ConflictAddress) : Prop :=
  exists addresses, branch_reads attempt !! reads b = Some addresses /\ address ∈ addresses.

Definition recorded_read attempt (b : Branch) (event : ReadEvent) : Prop :=
  let v := volume (read_address event) in
  forall q, dependency (drop (base b) (edits_before event)) v (path (read_address event)) = Some q -> recorded attempt b (Reflection v q).

Lemma observe_read_records attempt journal b v p attempt' observed :
  branch journal = Some b -> reads b < length (branch_reads attempt) ->
  observe_read_by_id attempt journal v p = (attempt', observed) ->
  length (branch_reads attempt') = length (branch_reads attempt) /\
  (forall a, recorded attempt b a -> recorded attempt' b a) /\
  recorded_read attempt' b (MkRead (Reflection v p) (edits journal) None).
Proof.
  intros Eb Hlt. unfold observe_read_by_id. rewrite Eb.
  set (a := match dependency (drop (base b) (edits journal)) v p with Some read => _ | None => attempt end).
  assert (Ha : length (branch_reads a) = length (branch_reads attempt) /\
    (forall x, recorded attempt b x -> recorded a b x) /\ recorded_read a b (MkRead (Reflection v p) (edits journal) None)).
  { destruct (lookup_lt_is_Some_2 _ _ Hlt) as [old Eold].
    unfold a, recorded_read, recorded. cbn [read_address edits_before volume path].
    destruct (dependency (drop (base b) (edits journal)) v p) as [q|] eqn:Ed; [|done]. cbn.
    rewrite length_alter. split; [done|]. rewrite list_lookup_alter_eq, Eold. cbn. split.
    - intros x (l & [= <-] & Hx). eexists. split; [done|]. set_solver.
    - intros q' [= <-]. eexists. split; [done|]. set_solver. }
  assert (Hobs : forall address a', record_observation a address = a' -> branch_reads a' = branch_reads a) by (by intros ? ? <-).
  unfold recorded_read, recorded in Ha |- *.
  destruct (negb (has_volume (snapshot journal) v)); [|destruct (dependency (edits journal) v p)]; by intros [= <- <-].
Qed.

Lemma run_records shared b body journal : forall attempt attempt' journal' log,
  run_body apply shared attempt journal body = (attempt', journal', log) ->
  branch journal = Some b -> reads b < length (branch_reads attempt) ->
  (forall a, recorded attempt b a -> recorded attempt' b a) /\ Forall (recorded_read attempt' b) log.
Proof.
  revert body journal. apply (run_body_ind (Index := Index) apply (fun journal body => forall attempt attempt' journal' log,
    run_body apply shared attempt journal body = (attempt', journal', log) ->
    branch journal = Some b -> reads b < length (branch_reads attempt) ->
    (forall a, recorded attempt b a -> recorded attempt' b a) /\ Forall (recorded_read attempt' b) log) shared).
  - by intros journal attempt ? ? ? [= <- <- <-].
  - intros journal v p next IH attempt ? ? ?. cbn. destruct (observe_read_by_id _ _ _ _) as [a1 b1] eqn:Eo.
    destruct (run_body _ _ _ _ _) as [[a2 j2] l2] eqn:E. intros [= <- <- <-] Eb Hlt.
    destruct (observe_read_records _ _ _ _ _ _ _ Eb Hlt Eo) as (El & Hk & Hr).
    destruct (IH _ _ _ _ _ E Eb) as [Hk' Hl]; [by rewrite El|]. split; [by auto|].
    constructor; [|done]. intros q Hq. by apply Hk', Hr.
  - intros journal v p next IH attempt ? ? ?. cbn. destruct (observe_read_by_id _ _ _ _) as [a1 b1] eqn:Eo.
    destruct (run_body _ _ _ _ _) as [[a2 j2] l2] eqn:E. intros [= <- <- <-] Eb Hlt.
    destruct (observe_read_records _ _ _ _ _ _ _ Eb Hlt Eo) as (El & Hk & Hr).
    destruct (IH _ _ _ _ _ E Eb) as [Hk' Hl]; [by rewrite El|]. split; [by auto|].
    constructor; [|done]. intros q Hq. by apply Hk', Hr.
  - intros journal journal1 e body next Hstep Hrun _ IH attempt attempt' journal' log E Eb Hlt. rewrite Hrun in E.
    apply (IH _ _ _ _ E); [|done]. by rewrite (edit_step_branch _ _ _ _ Hstep).
Qed.

(** ** Replaying the edits of a branch *)
Lemma replay_edits shared journal e : edits (replay shared journal e) = edits journal ++ [e].
Proof. destruct e as [a [value|]|a [updater|]|a|a initial|a promise r res]; try done; apply push_edit_edits. Qed.

Lemma replay_snapshot shared journal e : snapshot (replay shared journal e) = snapshot journal.
Proof. destruct e as [a [value|]|a [updater|]|a|a initial|a promise r res]; try done; apply push_edit_snapshot. Qed.

Lemma replays_ok shared own : forall journal,
  Forall proper_edit own -> journal_ok shared journal ->
  journal_ok shared (foldl (replay shared) journal own) /\
  edits (foldl (replay shared) journal own) = edits journal ++ own /\
  snapshot (foldl (replay shared) journal own) = snapshot journal.
Proof.
  induction own as [|e own IH]; intros journal Hp Hok; [by rewrite app_nil_r|].
  apply Forall_cons in Hp as [He Hp]. cbn. destruct (IH (replay shared journal e) Hp (replay_ok _ _ _ He Hok)) as (? & -> & ->).
  rewrite replay_edits, replay_snapshot, <- app_assoc. done.
Qed.

(** A journal's drafts follow from its snapshot and its edits. *)
Lemma views_determined shared journal journal' :
  journal_ok shared journal -> journal_ok shared journal' -> snapshot journal = snapshot journal' -> edits journal = edits journal' ->
  views journal = views journal'.
Proof.
  intros Hok Hok' Es Ee. apply map_eq. intros v. rewrite (views_replayed _ _ Hok), (views_replayed _ _ Hok').
  unfold base_value. by rewrite Es, Ee.
Qed.

Lemma existsb_false {A} (f : A -> bool) l x : existsb f l = false -> x ∈ l -> f x = false.
Proof.
  intros Hf Hx. destruct (f x) eqn:E; [|done]. exfalso. apply Is_true_false in Hf. apply Hf, existsb_True.
  exists x. split; [done|]. by apply Is_true_true.
Qed.

(** What a branch works on at its fork, and at its join. *)
Record branch_placed (shared : Shared) (at_fork at_join : StoreJournal) (later own : list StoreEdit) (log : list ReadEvent) : Prop := {
  branch_reads_proper : Forall proper_read log;
  branch_edits_proper : Forall proper_edit own;
  later_edits_proper : Forall proper_edit later;
  later_placed v : placed apply v (value_at_in shared at_fork v []) later;
  own_placed_fork v : placed apply v (value_at_in shared at_fork v []) own;
  own_placed_join v : placed apply v (value_at_in shared at_join v []) own;
  own_exist v : v ∈ written_volumes own -> is_Some (value_at_in shared at_fork v []);
}.

(** C12. [merge_is_serial]: a branch forks from a journal and runs a body beside it, while
    the journal makes the edits [later]; where its merge succeeds, the journal is as if
    the branch's body had run at the join: the body, run on the journal there, finds
    the same at every read, and leaves the same edits and the same drafts. The attempt
    at the join may have observed more, and have other branches, but holds the reads
    the branch recorded. The body is one of [Body]: it creates no volume, resolves no
    promise and reads no virtual resource. What it reads and what either side edits has
    a direct path; the branch's edits are placed both at the fork and at the join, and
    the later ones at the fork (so no edit descends through data that is no dictionary,
    whose reads go unobserved: [StoreSamples.misplaced_write_reads_unobserved]); and the
    volumes the branch writes exist at the fork. *)
Theorem merge_is_serial shared attempt0 at_fork forked attempt1 body attempt2 branched log attempt3 at_join later attempt4 merged :
  journal_ok shared at_fork -> fork attempt0 at_fork = (attempt1, forked) ->
  run_body apply shared attempt1 forked body = (attempt2, branched, log) ->
  journal_ok shared at_join -> snapshot at_join = snapshot at_fork -> edits at_join = edits at_fork ++ later ->
  branch_reads attempt3 !! length (branch_reads attempt0) = branch_reads attempt2 !! length (branch_reads attempt0) ->
  merge_branch shared attempt3 at_join branched = Some (true, attempt4, merged) ->
  branch_placed shared at_fork at_join later (drop (length (edits at_fork)) (edits branched)) log ->
  forall attempt, exists attempt' journal' log',
    run_body apply shared attempt at_join body = (attempt', journal', log') /\
    outcomes log' = outcomes log /\ edits journal' = edits merged /\ views journal' = views merged.
Proof.
  intros Hok Hfork Hrun Hokj Esj Eej Hreads Hmerge Hplaced attempt.
  unfold fork in Hfork. injection Hfork as <- <-.
  set (b := MkBranch (length (edits at_fork)) (length (branch_reads attempt0))) in *.
  set (forked := MkJournal (snapshot at_fork) (views at_fork) (cells at_fork) (edits at_fork) (Some b)) in *.
  assert (Hokf : journal_ok shared forked) by (destruct Hok as [Hv Hk]; split; [exact Hv|exact Hk]).
  destruct (run_body_ok (Index := Index) apply _ _ _ _ _ _ _ Hrun Hokf) as (Hokb & Esb & Ebb & own & Eown). cbn in Esb, Ebb, Eown.
  assert (Hlt : reads b < length (branch_reads (MkAttempt (observations attempt0) (branch_reads attempt0 ++ [[]])))).
  { cbn. rewrite length_app. cbn. lia. }
  destruct (run_records _ b _ _ _ _ _ _ Hrun eq_refl Hlt) as [_ Hrec].
  rewrite Eown, drop_app_length in Hplaced. destruct Hplaced as [Hreadsp Hownp Hlaterp Hlater Hpf Hpj Hex].
  unfold merge_branch in Hmerge. rewrite Ebb in Hmerge. cbn [mbind option_bind] in Hmerge.
  destruct (length (edits at_join) <? base b) eqn:Elen; [done|].
  destruct (existsb _ (default [] (branch_reads attempt3 !! reads b))) eqn:Eov; [done|].
  rewrite Eown in Hmerge. cbn [base b] in Hmerge. rewrite drop_app_length in Hmerge.
  set (F := fun v => value_at_in shared at_fork v []). set (G := fun v => value_at_in shared at_join v []).
  assert (EF : forall v, F v = own_base shared forked (edits at_fork) v) by (intros v; unfold F, own_base; by rewrite journal_root).
  assert (EG : forall v, G v = own_base shared at_join (edits at_fork ++ later) v) by (intros v; unfold G, own_base; by rewrite journal_root, Eej).
  assert (EGF : forall v, G v = replayed v (F v) later).
  { intros v. rewrite EG, EF. unfold own_base. rewrite replayed_app. unfold base_value. by rewrite Esj. }
  assert (Hag : agreeable apply F G own).
  { split; [done..|]. intros v Hw. destruct (Hex v Hw) as [x Ex]. rewrite EGF. unfold F. rewrite Ex.
    split; intros _; [apply replayed_keeps|done]. }
  assert (Hagree : Forall (agreed_read apply F G (edits at_fork)) log).
  { apply Forall_forall. intros event Hev own' q Eo Hq. rewrite Forall_forall in Hrec, Hreadsp.
    pose proof (Hrec _ Hev) as Hr. unfold recorded_read in Hr. rewrite Eo in Hr. cbn [base b] in Hr. rewrite drop_app_length in Hr.
    destruct (Hr q Hq) as (addresses & Ea & Hin). cbn [reads b] in Ea.
    rewrite EGF. symmetry. pose proof (Hreadsp _ Hev) as [Hp Hv]%proper_read_spec.
    pose proof (run_body_log (Index := Index) apply _ _ _ _ _ _ _ Hrun Hokf) as Hlog. rewrite Forall_forall in Hlog.
    destruct (Hlog _ Hev) as (own2 & rest & _ & Erest). rewrite Eo, Eown, <- app_assoc in Erest. apply (inj (app _)) in Erest.
    assert (Hq' : direct_path q). { eapply dependency_direct; [|exact Hp|exact Hq]. rewrite Erest in Hownp. by apply Forall_app in Hownp as [? _]. }
    apply replayed_apart; [done|done|done|]. apply Forall_forall. intros e He Ho.
    cbn [reads b] in Eov. rewrite Hreads, Ea in Eov. cbn [default] in Eov.
    pose proof (existsb_false _ _ _ Eov Hin) as Hf. cbn in Hf. cbn [base b] in Hf. rewrite Eej, drop_app_length in Hf.
    pose proof (existsb_false _ _ _ Hf He) as Hf'. by rewrite Hf' in Ho. }
  destruct (run_same (Index := Index) apply shared shared F G own body forked at_join _ attempt (edits at_fork) (edits at_fork ++ later) [] _ _ _
    Hag Hrun Hokf Hokj (eq_sym (app_nil_r _)) (eq_trans Eej (eq_sym (app_nil_r _))) Eown EF EG Hreadsp Hagree)
    as (attempt' & journal' & log' & Hrun' & Eout & Ee).
  exists attempt', journal', log'. split; [done|]. split; [done|].
  destruct (run_body_ok (Index := Index) apply _ _ _ _ _ _ _ Hrun' Hokj) as (Hok' & Es' & _ & _).
  injection Hmerge as _ <-.
  set (start := MkJournal (snapshot at_join) (views at_join) (cells branched ∪ cells at_join) (edits at_join) (branch at_join)).
  assert (Hoks : journal_ok shared start).
  { destruct Hokj as [Hv Hk]. split; [exact Hv|]. intros v Hs%Hk. cbn. set_solver. }
  destruct (replays_ok shared own start Hownp Hoks) as (Hokm & Eem & Esm).
  assert (Heq : edits journal' = edits (foldl (replay shared) start own)) by (rewrite Ee, Eem; cbn; by rewrite Eej).
  split; [done|]. by apply (views_determined shared); [..|rewrite Es', Esm|].
Qed.
End merge.

(** * Committed transactions are serializable

    A transaction that the store accepts behaves as if all of it ran at the commit:
    its body, run on a snapshot of the store as it then is, reads the same and makes
    the same edits, and the commit installs what that run would have installed. *)

Local Open Scope Z_scope.

Section serial.
Context {Index : Type} `{SoundAnalysis Index} (apply : Data -> Data -> Data).
Implicit Types attempt : Attempt Index.

(** ** What a run has observed *)

(** The reads of the log are in the observations, as the snapshot needs them. *)
Definition observed_read (snapshot : StoreSnapshot) attempt (event : ReadEvent) : Prop :=
  let v := volume (read_address event) in let p := path (read_address event) in
  if has_volume snapshot v
  then forall q, dependency (edits_before event) v p = Some q ->
         forall c, overlaps c (Reflection v q) -> may_conflict (observations attempt) c
  else forall c, overlaps c (Reflection v p) -> may_conflict (observations attempt) c.

Lemma observed_read_keeps snapshot attempt attempt' event :
  (forall c, may_conflict (observations attempt) c -> may_conflict (observations attempt') c) ->
  observed_read snapshot attempt event -> observed_read snapshot attempt' event.
Proof. unfold observed_read. destruct (has_volume _ _); naive_solver. Qed.

Lemma observe_read_observes attempt journal v p attempt' observed :
  observe_read_by_id attempt journal v p = (attempt', observed) ->
  (forall c, may_conflict (observations attempt) c -> may_conflict (observations attempt') c) /\
  observed_read (snapshot journal) attempt' (MkRead (Reflection v p) (edits journal) None).
Proof.
  unfold observe_read_by_id.
  set (a := match branch journal with Some b => _ | None => attempt end).
  assert (Ea : observations a = observations attempt) by (unfold a; by repeat case_match).
  unfold observed_read. cbn [read_address volume path edits_before].
  destruct (has_volume (snapshot journal) v); cbn [negb].
  - destruct (dependency (edits journal) v p) as [q|]; intros [= <- <-]; cbn; rewrite ?Ea; (split; [by intros c; try apply observe_keeps|]); [|done].
    intros q' [= <-] c Ho. by apply observe_sees, overlaps_sym.
  - intros [= <- <-]. cbn. rewrite Ea. split; [intros c; apply observe_keeps|]. intros c Ho. by apply observe_sees, overlaps_sym.
Qed.

Lemma run_observes shared body journal : forall attempt attempt' journal' log,
  run_body apply shared attempt journal body = (attempt', journal', log) ->
  (forall c, may_conflict (observations attempt) c -> may_conflict (observations attempt') c) /\
  Forall (observed_read (snapshot journal) attempt') log.
Proof.
  revert body journal. apply (run_body_ind (Index := Index) apply (fun journal body => forall attempt attempt' journal' log,
    run_body apply shared attempt journal body = (attempt', journal', log) ->
    (forall c, may_conflict (observations attempt) c -> may_conflict (observations attempt') c) /\
    Forall (observed_read (snapshot journal) attempt') log) shared).
  - intros journal attempt ? ? ? [= <- <- <-]. done.
  - intros journal v p next IH attempt ? ? ?. cbn. destruct (observe_read_by_id _ _ _ _) as [a1 b1] eqn:Eo.
    destruct (run_body _ _ _ _ _) as [[a2 j2] l2] eqn:E. intros [= <- <- <-].
    apply observe_read_observes in Eo as [Hk Ho]. apply IH in E as [Hk' Hl]. split; [by auto|].
    constructor; [|done]. exact (observed_read_keeps _ _ _ (MkRead _ _ None) Hk' Ho).
  - intros journal v p next IH attempt ? ? ?. cbn. destruct (observe_read_by_id _ _ _ _) as [a1 b1] eqn:Eo.
    destruct (run_body _ _ _ _ _) as [[a2 j2] l2] eqn:E. intros [= <- <- <-].
    apply observe_read_observes in Eo as [Hk Ho]. apply IH in E as [Hk' Hl]. split; [by auto|].
    constructor; [|done]. exact (observed_read_keeps _ _ _ (MkRead _ _ None) Hk' Ho).
  - intros journal journal1 e body next Hstep Hrun _ IH attempt attempt' journal' log E. rewrite Hrun in E.
    apply IH in E. by rewrite (edit_step_snapshot _ _ _ _ Hstep) in E.
Qed.

(** ** Validation *)
Lemma validate_committed shared store journal attempt :
  validate shared store journal attempt = Committed <->
  missing_volume store (edits journal) = None /\ conflicts store journal attempt = false /\
  existsb (fun edit => match resolved_promise edit with
                       | Some promise => negb (bool_decide (promise ∈ pending shared)) | None => false end) (edits journal) = false.
Proof.
  unfold validate. destruct (missing_volume _ _); [naive_solver|]. destruct (conflicts _ _ _); [naive_solver|].
  destruct (existsb _ _); naive_solver.
Qed.

Lemma conflicts_false store journal attempt c r :
  conflicts store journal attempt = false -> latest_changes store !! c = Some r -> snapshot_revision (snapshot journal) < r ->
  ~ may_conflict (observations attempt) c.
Proof.
  unfold conflicts. intros Hc Hl Hr Hm. apply Is_true_false in Hc. apply Hc, existsb_True. exists (c, r).
  split; [by apply elem_of_map_to_list|]. apply andb_True. split; [|done]. apply Is_true_true. lia.
Qed.

Lemma conflicts_current store snapshot attempt journal' :
  (forall c r, latest_changes store !! c = Some r -> r <= revision store) ->
  snapshot = take_snapshot store -> StoreJournal.snapshot journal' = snapshot -> conflicts store journal' attempt = false.
Proof.
  intros Hl -> Es. unfold conflicts. rewrite Es. apply Is_true_false. rewrite existsb_True.
  intros ([c r] & Hin%elem_of_map_to_list & Hc). apply andb_True in Hc as [Hr _]. apply Hl in Hin. cbn in Hr.
  apply Is_true_true in Hr. lia.
Qed.

Lemma missing_volume_None store edits v :
  missing_volume store edits = None -> v ∈ edit_volume <$> edits -> v ∉ created_volumes edits -> versions store !! v = None ->
  v ∉ revoked store.
Proof.
  unfold missing_volume. intros Hm Hv Hc Hn Hr. destruct (list_find _ _) as [|] eqn:E; [done|].
  apply list_find_None in E. rewrite Forall_forall in E. by eapply E.
Qed.

(** ** Commits through the drafts and through the edits *)
Lemma commit_validated_ext shared store journal journal' :
  edits journal = edits journal' -> committed_versions shared store journal = committed_versions shared store journal' ->
  commit_validated shared store journal = commit_validated shared store journal'.
Proof.
  unfold commit_validated, committed_versions. intros <- Ev. destruct (bool_decide (edits journal = [])); [done|].
  set (st := if existsb is_create (edits journal) then prune_collected shared store else store) in *.
  assert (Hc : forall j, is_current store j = is_current st j)
    by (intros j; unfold st; destruct (existsb _ _); [by rewrite prune_collected_current|done]).
  by rewrite !Hc, Ev.
Qed.

(** The invariant of a journal holds on while the volumes it writes live. *)
Lemma journal_ok_later shared shared' journal :
  journal_ok shared journal -> cleared shared ⊆ cleared shared' ->
  (forall v, v ∈ written_volumes (edits journal) -> v ∉ cleared shared') -> journal_ok shared' journal.
Proof.
  intros Hok Hc Hlive. split; [|apply (views_kept _ _ Hok)]. intros v. rewrite (views_replayed _ _ Hok).
  destruct (bool_decide (v ∈ written_volumes (edits journal))) eqn:E; [|done]. apply bool_decide_eq_true in E.
  unfold base_value, version_value. rewrite !bool_decide_eq_false_2; [done| |]; specialize (Hlive v E); set_solver.
Qed.

Lemma written_kept shared journal v :
  journal_ok shared journal -> v ∈ written_volumes (edits journal) -> is_Some (base_value shared journal v) -> v ∈ cells journal.
Proof.
  intros Hok Hw [x Hb]. apply (views_kept _ _ Hok). rewrite (views_replayed _ _ Hok), bool_decide_eq_true_2, Hb by done.
  apply replayed_keeps.
Qed.

(** Two journals with the same edits commit alike: one that began from the current
    versions through its drafts, the other through its edits. *)
Lemma committed_versions_same shared store journal journal' :
  journal_ok shared journal -> journal_ok shared journal' -> edits journal = edits journal' ->
  (is_current store journal = true -> snapshot_versions (snapshot journal) = versions store) ->
  (is_current store journal' = true -> snapshot_versions (snapshot journal') = versions store) ->
  (forall v, v ∈ written_volumes (edits journal) -> v ∉ cleared shared /\ v ∈ cells journal /\ v ∈ cells journal') ->
  committed_versions shared store journal = committed_versions shared store journal'.
Proof.
  intros Hok Hok' Ee Hcur Hcur' Hlive. apply map_eq. intros v.
  destruct (decide (v ∈ written_volumes (edits journal))) as [Hw|Hw].
  - destruct (Hlive v Hw) as (Hv & Hk & Hk').
    pose proof (committed_versions_spec shared store journal v Hok Hcur Hv) as E1.
    pose proof (committed_versions_spec shared store journal' v Hok' Hcur' Hv) as E2.
    unfold version_value in E1 at 1. unfold version_value in E2 at 1. rewrite bool_decide_eq_false_2 in E1, E2 by done.
    rewrite E1, E2, <- Ee. by rewrite !(bool_decide_eq_true_2 (v ∈ cells _)) by done.
  - assert (Hun : forall j, edits j = edits journal ->
      committed_versions shared store j !! v = versions (if existsb is_create (edits journal) then prune_collected shared store else store) !! v).
    { intros j Ej. unfold committed_versions. rewrite Ej. destruct (is_current _ j);
        [rewrite install_views_spec|rewrite install_rebased_spec]; rewrite Ej; by rewrite bool_decide_eq_false_2. }
    by rewrite (Hun journal), (Hun journal').
Qed.

(** [commit_paths_agree]: a commit that installs the journal's drafts, because nothing
    has changed since its snapshot, does exactly what replaying its edits on the
    current versions does; the journal that has to replay is the same journal, begun
    from another store. *)
Definition foreign (journal : StoreJournal) : StoreJournal :=
  MkJournal (MkSnapshot (identity (snapshot journal) + 1) (snapshot_revision (snapshot journal)) (snapshot_kept (snapshot journal))
    (snapshot_versions (snapshot journal))) (views journal) (cells journal) (edits journal) (branch journal).

Lemma commit_paths_same shared store journal :
  journal_ok shared journal -> store_identity store = identity (snapshot journal) ->
  revision store = snapshot_revision (snapshot journal) -> versions store = snapshot_versions (snapshot journal) ->
  (forall v, v ∈ written_volumes (edits journal) -> v ∉ cleared shared /\ is_Some (versions store !! v) \/ v ∈ created_volumes (edits journal)) ->
  (forall v, v ∈ created_volumes (edits journal) -> v ∉ cleared shared) ->
  is_current store journal = true /\ is_current store (foreign journal) = false /\
  commit_validated shared store journal = commit_validated shared store (foreign journal).
Proof.
  intros Hok Eid Er Ev Hlive Hfresh. split; [unfold is_current; rewrite Eid, Er, !Z.eqb_refl; done|].
  assert (Hf : is_current store (foreign journal) = false).
  { unfold is_current. cbn. rewrite Eid. replace (_ =? _ + 1) with false; [done|]. symmetry. apply Z.eqb_neq. lia. }
  split; [done|]. apply commit_validated_ext; [done|]. apply committed_versions_same; try done.
  - destruct Hok as [Hv Hk]. split; [exact Hv|exact Hk].
  - intros v Hw. assert (Hk : v ∉ cleared shared /\ v ∈ cells journal); [|naive_solver].
    assert (Hsome : v ∉ cleared shared -> is_Some (replayed v (base_value shared journal v) (edits journal)) -> v ∈ cells journal).
    { intros Hv Hs. apply (views_kept _ _ Hok). by rewrite (views_replayed _ _ Hok), bool_decide_eq_true_2. }
    destruct (Hlive v Hw) as [[Hv [x Hx]]|Hc].
    + split; [done|]. apply Hsome; [done|]. unfold base_value, version_value. rewrite bool_decide_eq_false_2, <- Ev, Hx by done. apply replayed_keeps.
    + split; [by apply Hfresh|]. apply Hsome; [by apply Hfresh|].
      revert Hc. clear. generalize (base_value shared journal v) as base. generalize (edits journal) as l. clear.
      induction l as [|e l IH]; intros base; [set_solver|]. unfold created_volumes. cbn. destruct (decide (is_create e = true)) as [Hc|Hc].
      * destruct e as [| | |a i|]; try done. cbn. destruct (decide (edit_volume (CreateEdit a i) = v)) as [E|E].
        -- intros _. unfold replay_edit at 2. rewrite bool_decide_eq_true_2 by done. apply replayed_keeps.
        -- intros [Hs%elem_of_singleton|Hs]%elem_of_union; [done|]. by apply IH.
      * intros Hs. by apply IH.
Qed.

(** ** Transactions *)

(** What a volume holds in a world. *)
Definition world_value (world : World) (v : VolumeId) : option Value :=
  version_value (world_shared world) (versions (world_store world)) v.

(** Of a transaction that began in [world0] and commits in [world]: the volumes it
    reads and writes are alive at the commit, and those it writes existed at its
    snapshot. *)
Record lives (world0 world : World) (journal : StoreJournal) (log : list ReadEvent) : Prop := {
  lives_read : Forall (fun event => volume (read_address event) ∉ cleared (world_shared world)) log;
  lives_written v : v ∈ written_volumes (edits journal) ->
    v ∉ cleared (world_shared world) /\ is_Some (versions (world_store world0) !! v);
}.

(** Its reads and edits are proper, and its edits are placed in the versions it began
    from and in those it commits to. *)
Record well_placed (world0 world : World) (journal : StoreJournal) (log : list ReadEvent) : Prop := {
  placed_reads : Forall proper_read log;
  placed_edits : Forall proper_edit (edits journal);
  placed_before v : placed apply v (world_value world0 v) (edits journal);
  placed_after v : placed apply v (world_value world v) (edits journal);
}.

Lemma body_creates_nothing shared body journal : forall attempt attempt' journal' log,
  run_body apply shared attempt journal body = (attempt', journal', log) ->
  created_volumes (edits journal) = ∅ -> created_volumes (edits journal') = ∅.
Proof.
  revert body journal. apply (run_body_ind (Index := Index) apply (fun journal body => forall attempt attempt' journal' log,
    run_body apply shared attempt journal body = (attempt', journal', log) ->
    created_volumes (edits journal) = ∅ -> created_volumes (edits journal') = ∅) shared).
  - by intros journal attempt ? ? ? [= <- <- <-].
  - intros journal v p next IH attempt ? ? ?. cbn. destruct (observe_read_by_id _ _ _ _) as [a1 b1].
    destruct (run_body _ _ _ _ _) as [[a2 j2] l2] eqn:E. intros [= <- <- <-]. by eapply IH.
  - intros journal v p next IH attempt ? ? ?. cbn. destruct (observe_read_by_id _ _ _ _) as [a1 b1].
    destruct (run_body _ _ _ _ _) as [[a2 j2] l2] eqn:E. intros [= <- <- <-] Hc. by eapply (IH _ _ _ _ _ E).
  - intros journal journal1 e body next Hstep Hrun _ IH attempt attempt' journal' log E Hc. rewrite Hrun in E.
    apply (IH _ _ _ _ E). rewrite (edit_step_edits _ _ _ _ Hstep). unfold created_volumes in *.
    rewrite filter_app, fmap_app, list_to_set_app_L, Hc. destruct Hstep as [? ? Hw Hcr|? ? Hw]; cbn.
    + rewrite decide_False by (by rewrite Hcr). set_solver.
    + rewrite decide_False by (by destruct e). set_solver.
Qed.

Lemma take_snapshot_began world world' body attempt journal log :
  rtc (world_step (Index := Index) apply) world world' -> world_inv apply world ->
  run_transaction apply (world_shared world) (take_snapshot (world_store world)) body = (attempt, journal, log) ->
  journal_ok (world_shared world) journal /\ snapshot journal = take_snapshot (world_store world) /\ began_in world' journal.
Proof.
  intros Hsteps Hinv Hrun.
  destruct (run_body_ok (Index := Index) apply _ _ _ _ _ _ _ Hrun (new_journal_ok _ _)) as (Hok & Es & _ & _).
  cbn in Es. split; [done|]. split; [done|]. unfold began_in. rewrite Es. cbn. split.
  - symmetry. apply (world_steps_grow (Index := Index) apply _ _ Hsteps).
  - apply (world_steps_past (Index := Index) apply _ _ _ _ Hsteps Hinv), (inv_current _ _ Hinv).
Qed.

Lemma current_snapshot world journal :
  world_inv apply world -> began_in world journal -> is_current (world_store world) journal = true ->
  snapshot_versions (snapshot journal) = versions (world_store world).
Proof.
  intros Hinv [_ Hb]. unfold is_current. rewrite andb_true_iff, !Z.eqb_eq. intros [_ E].
  rewrite <- E, (inv_current _ _ Hinv) in Hb. by injection Hb.
Qed.

(** What an accepted transaction read is unchanged in the store. *)
Lemma accepted_reads_agree world0 world body attempt journal log :
  world_inv apply world0 -> rtc (world_step (Index := Index) apply) world0 world ->
  run_transaction apply (world_shared world0) (take_snapshot (world_store world0)) body = (attempt, journal, log) ->
  conflicts (world_store world) journal attempt = false ->
  Forall proper_read log -> Forall proper_edit (edits journal) -> lives world0 world journal log ->
  Forall (agreed_read apply (world_value world0) (world_value world) []) log.
Proof.
  intros Hinv0 Hsteps Hrun Hc Hreads Hedits Hlive.
  pose proof (world_steps_inv _ _ _ Hsteps Hinv0) as Hinv.
  destruct (world_steps_grow _ _ _ Hsteps) as [Hgrow _].
  destruct (take_snapshot_began _ _ _ _ _ _ Hsteps Hinv0 Hrun) as (_ & Es & _ & Hpast).
  pose proof (run_observes _ _ _ _ _ _ _ Hrun) as [_ Hobs].
  rewrite Es in Hpast. cbn in Hpast.
  assert (Hun : forall a, (forall c, overlaps c a -> may_conflict (observations attempt) c) ->
    unchanged_since (world_store world) (revision (world_store world0)) a).
  { intros a Ha c r Hl Hr Ho. eapply conflicts_false; [done|done|by rewrite Es|by apply Ha]. }
  apply Forall_forall. intros event Hev own q Eown Hq.
  rewrite Forall_forall in Hobs, Hreads. specialize (Hobs _ Hev). specialize (Hreads _ Hev).
  apply proper_read_spec in Hreads as [Hp Hv].
  pose proof (proj1 (Forall_forall _ _) (lives_read _ _ _ _ Hlive) _ Hev) as Hl. cbn in Hl.
  unfold world_value, version_value. rewrite !bool_decide_eq_false_2 by (done || set_solver).
  unfold observed_read in Hobs. cbn in Hobs. set (v := volume (read_address event)) in *.
  destruct (has_volume (new_journal (take_snapshot (world_store world0))).(snapshot) v) eqn:Ehas; cbn in Ehas; rewrite Ehas in Hobs.
  - cbn in Eown. rewrite <- Eown in Hq. specialize (Hobs q Hq).
    eapply (inv_agree _ _ Hinv); [done|done| |by apply Hun].
    pose proof (run_body_log _ _ _ _ _ _ _ _ Hrun (new_journal_ok _ _)) as Hlog.
    rewrite Forall_forall in Hlog. destruct (Hlog _ Hev) as (own' & rest & _ & Er). rewrite Er in Hedits.
    apply Forall_app in Hedits as [Hedits _]. by eapply dependency_direct.
  - unfold has_volume in Ehas. apply bool_decide_eq_false in Ehas. cbn in Ehas.
    rewrite <- eq_None_not_Some in Ehas. rewrite Ehas.
    pose proof (inv_agree _ _ Hinv _ _ v (path (read_address event)) Hpast Hl Hp (Hun _ Hobs)) as Ha.
    rewrite Ehas in Ha. cbn in Ha. by destruct (versions (world_store world) !! v).
Qed.

(** C11. [transactions_serializable]: whatever the store went through between a
    transaction's snapshot and its commit (the steps of [world_step]), a transaction
    that validation accepts is one that could have run, whole, at the commit: its body,
    run on a snapshot of the store as it is there, finds the same at every read and
    makes the same edits, is accepted, and its commit is the same, to the last version,
    recorded change and settled promise. This holds for every sound conflict analysis.
    The body is one of [Body]: it creates no volume, resolves no promise and reads no
    virtual resource. The volumes the transaction touches are alive at the commit;
    those it writes existed in its snapshot; its paths are direct; and its writes are
    placed, at its snapshot and at its commit, as are those of the commits between. A
    transaction whose writes are not placed can validate and not be serializable:
    [StoreSamples.misplaced_write_reads_unobserved]. *)
Theorem transactions_serializable identity world0 world body attempt journal log :
  rtc (world_step (Index := Index) apply) (new_world identity) world0 ->
  rtc (world_step (Index := Index) apply) world0 world ->
  run_transaction apply (world_shared world0) (take_snapshot (world_store world0)) body = (attempt, journal, log) ->
  validate (world_shared world) (world_store world) journal attempt = Committed ->
  lives world0 world journal log -> well_placed world0 world journal log ->
  exists attempt' journal' log',
    run_transaction apply (world_shared world) (take_snapshot (world_store world)) body = (attempt', journal', log') /\
    outcomes log' = outcomes log /\ edits journal' = edits journal /\
    validate (world_shared world) (world_store world) journal' attempt' = Committed /\
    commit_validated (world_shared world) (world_store world) journal
    = commit_validated (world_shared world) (world_store world) journal'.
Proof.
  intros Hsteps0 Hsteps Hrun Hval Hlive Hplaced.
  pose proof (world_steps_inv _ _ _ Hsteps0 (new_world_inv apply identity)) as Hinv0.
  pose proof (world_steps_inv _ _ _ Hsteps Hinv0) as Hinv.
  destruct (world_steps_grow _ _ _ Hsteps) as [Hgrow _].
  destruct (take_snapshot_began _ _ _ _ _ _ Hsteps Hinv0 Hrun) as (Hok & Es & Hbegan).
  pose proof (body_creates_nothing _ _ _ _ _ _ _ Hrun eq_refl) as Hcreate.
  apply validate_committed in Hval as (Hmiss & Hconf & Hres).
  assert (Hcell : forall v, v ∈ written_volumes (edits journal) ->
    v ∉ cleared (world_shared world) /\ v ∉ cleared (world_shared world0) /\
    is_Some (versions (world_store world0) !! v) /\ is_Some (versions (world_store world) !! v)).
  { intros v Hw. destruct (lives_written _ _ _ _ Hlive v Hw) as [Hv Hs]. cbn in Hs. repeat split; [done|set_solver|done|].
    destruct (inv_exist _ _ Hinv _ _ v (world_steps_past _ _ _ _ _ Hsteps Hinv0 (inv_current _ _ Hinv0)) Hs Hv)
      as [?|Hrev]; [done|].
    destruct (versions (world_store world) !! v) eqn:En; [done|]. exfalso.
    eapply missing_volume_None; [exact Hmiss| |by rewrite Hcreate|exact En|exact Hrev].
    apply elem_of_written, Exists_exists in Hw as (e & He & _ & <-). by apply list_elem_of_fmap_2. }
  assert (Hag : agreeable apply (world_value world0) (world_value world) (edits journal)).
  { split; [apply Hplaced..|]. intros v Hw. destruct (Hcell v Hw) as (? & ? & ? & ?).
    unfold world_value, version_value. by rewrite !bool_decide_eq_false_2. }
  pose proof (accepted_reads_agree _ _ _ _ _ _ Hinv0 Hsteps Hrun Hconf (placed_reads _ _ _ _ Hplaced)
    (placed_edits _ _ _ _ Hplaced) Hlive) as Hagree.
  destruct (run_same (Index := Index) apply _ (world_shared world) _ _ _ _ _ (new_journal (take_snapshot (world_store world)))
    _ new_attempt [] [] [] _ _ _ Hag Hrun (new_journal_ok _ _) (new_journal_ok _ _) eq_refl eq_refl eq_refl
    (fun v => eq_refl) (fun v => eq_refl) (placed_reads _ _ _ _ Hplaced) Hagree) as (attempt' & journal' & log' & Hrun' & Eout & Ee).
  cbn in Ee. exists attempt', journal', log'. split; [exact Hrun'|]. split; [done|]. split; [done|].
  destruct (take_snapshot_began _ _ _ _ _ _ (rtc_refl _ _) Hinv Hrun') as (Hok' & Es' & Hbegan').
  split.
  - apply validate_committed. rewrite Ee. split; [done|]. split; [|done].
    eapply conflicts_current; [|done|done]. apply (inv_latest _ _ Hinv).
  - apply commit_validated_ext; [done|].
    assert (Hokl : journal_ok (world_shared world) journal) by (eapply journal_ok_later; [done|done|]; intros v Hw; by apply Hcell).
    apply committed_versions_same; [done|done|done|by apply current_snapshot|by apply current_snapshot|].
    intros v Hw. destruct (Hcell v Hw) as (Hv & Hv0 & Hs0 & Hs). split; [done|]. split.
    + apply (written_kept _ _ _ Hok Hw). unfold base_value. rewrite Es. unfold version_value. by rewrite bool_decide_eq_false_2.
    + apply (written_kept _ _ _ Hok'); [by rewrite Ee|]. unfold base_value. rewrite Es'. unfold version_value. by rewrite bool_decide_eq_false_2.
Qed.

(** C35. [commit_paths_agree]: a transaction that commits while the store is as its
    snapshot found it installs its drafts. That is what replaying its edits on the
    current versions, as a commit does when the store has changed, would have
    installed. *)
Theorem commit_paths_agree identity world body attempt journal log :
  rtc (world_step (Index := Index) apply) (new_world identity) world ->
  run_transaction apply (world_shared world) (take_snapshot (world_store world)) body = (attempt, journal, log) ->
  lives world world journal log ->
  is_current (world_store world) journal = true /\ is_current (world_store world) (foreign journal) = false /\
  commit_validated (world_shared world) (world_store world) journal
  = commit_validated (world_shared world) (world_store world) (foreign journal).
Proof.
  intros Hsteps Hrun Hlive. pose proof (world_steps_inv _ _ _ Hsteps (new_world_inv apply identity)) as Hinv.
  destruct (take_snapshot_began _ _ _ _ _ _ (rtc_refl _ _) Hinv Hrun) as (Hok & Es & _).
  pose proof (body_creates_nothing _ _ _ _ _ _ _ Hrun eq_refl) as Hcreate.
  apply commit_paths_same; rewrite ?Es; try done.
  - intros v Hw. left. by apply (lives_written _ _ _ _ Hlive).
  - intros v. by rewrite Hcreate.
Qed.
End serial.

(** * Promises resolve once ([reflection/store.rs], [reflection/promises.rs])

    A resolution is an edit that settles its promise with its commit. A history of a
    store's promises ([promise_step]) interleaves, in any order, promises allocated
    and forgotten, commits of any journals that validate, the publication of what
    commits settled, and every other change of the store. The identity of a promise is
    that of its cell and is never used again, so a history allocates each one once. *)

(** What a journal's commit settles: the first resolution of each promise it resolves,
    in order. *)
Fixpoint first_resolutions (seen : gset PromiseId) (edits : list StoreEdit) : list Settled :=
  match edits with
  | [] => []
  | ResolveEdit _ promise _ resolution :: edits =>
      if bool_decide (promise ∈ seen) then first_resolutions seen edits
      else MkSettled promise resolution :: first_resolutions ({[ promise ]} ∪ seen) edits
  | _ :: edits => first_resolutions seen edits
  end.

(** The changes of a store and of what it shares that touch no promise. *)
Inductive store_change (shared : Shared) (store : ReflectionStore) : Shared -> ReflectionStore -> Prop :=
  | volume_created initial volume shared' store' :
      create_volume shared store initial = Some (volume, shared', store') -> store_change shared store shared' store'
  | volume_revoked volume root store' : revoke_volume shared store volume = Some (root, store') -> store_change shared store shared store'
  | root_replaced root : store_change shared store shared (replace_root store root)
  | volumes_collected dead : store_change shared store (collect_volumes shared dead) store
  | volume_reserved volume shared' : reserve_volume shared = Some (volume, shared') -> store_change shared store shared' store
  | resolver_lost promise :
      store_change shared store
        (MkShared (next_volume shared) (pending shared) (breakers shared) (cleared shared) (completed_epoch shared)
           (lost_resolvers shared ++ [promise])) store
  | resolvers_taken : store_change shared store (take_lost_resolvers shared).2 store.

(** A store, what it has settled and handed out for publication, and the promises that
    were ever allocated. *)
Record PromiseState := MkPromises {
  promise_shared : Shared;
  promise_store : ReflectionStore;
  published : list Settled;
  allocated : gset PromiseId;
}.
Definition new_promises (identity : Z) : PromiseState := MkPromises new_shared (new_store identity) [] ∅.
Definition all_settled (w : PromiseState) : list Settled := published w ++ settled (promise_store w).

(** ** Staging *)
Lemma staged_status_None journal promise :
  staged_status journal promise = None <-> promise ∉ resolved_promises (edits journal).
Proof.
  unfold staged_status, resolved_promises. induction (edits journal) as [|e l IH]; [split; [set_solver|done]|].
  destruct e as [| | | |a p r res]; try done. cbn. destruct (p =? promise) eqn:E; cbn.
  - apply Z.eqb_eq in E as ->. split; [done|]. intros Hn. destruct Hn. by left.
  - apply Z.eqb_neq in E. rewrite IH, not_elem_of_cons. naive_solver.
Qed.

Lemma stage_resolved journal promise resolver resolution :
  resolved_promises (edits (stage_resolution journal promise resolver resolution)) = resolved_promises (edits journal) ++ [promise].
Proof. unfold stage_resolution, record_edit, set_edits, resolved_promises. cbn. by rewrite omap_app. Qed.

Lemma NoDup_stage journal promise resolver resolution :
  NoDup (resolved_promises (edits journal)) -> staged_status journal promise = None ->
  NoDup (resolved_promises (edits (stage_resolution journal promise resolver resolution))).
Proof.
  intros Hnd Hs%staged_status_None. rewrite stage_resolved. apply NoDup_app. split; [done|]. split; [|apply NoDup_singleton].
  intros x Hx ->%list_elem_of_singleton. done.
Qed.

(** Neither way of staging a resolution stages a second one. *)
Lemma resolve_once shared journal promise resolution journal' :
  NoDup (resolved_promises (edits journal)) -> resolve shared journal promise resolution = Ok journal' ->
  NoDup (resolved_promises (edits journal')) /\ breaker_status shared promise = Pending.
Proof.
  unfold resolve. intros Hnd. destruct (bool_decide (breaker_status shared promise = Pending)) eqn:Eb; [|done]. cbn.
  destruct (bool_decide (is_Some _)) eqn:Es; [done|]. intros [= <-]. apply bool_decide_eq_true in Eb.
  apply bool_decide_eq_false in Es. split; [|done]. apply NoDup_stage; [done|]. by apply eq_None_not_Some.
Qed.

Lemma break_lost_once shared journal promise resolution staged journal' :
  NoDup (resolved_promises (edits journal)) -> break_lost shared journal promise resolution = (staged, journal') ->
  NoDup (resolved_promises (edits journal')).
Proof.
  unfold break_lost. intros Hnd. destruct (negb _ || _) eqn:E; [by intros [= <- <-]|]. intros [= <- <-].
  apply orb_false_iff in E as [_ Es%bool_decide_eq_false]. apply NoDup_stage; [done|]. by apply eq_None_not_Some.
Qed.

(** ** Settling *)
Lemma first_resolutions_promises l : forall seen,
  NoDup (settled_promise <$> first_resolutions seen l) /\
  forall promise, promise ∈ settled_promise <$> first_resolutions seen l <-> promise ∈ resolved_promises l /\ promise ∉ seen.
Proof.
  induction l as [|e l IH]; intros seen; [split; [constructor|set_solver]|].
  destruct e as [| | | |a p r res]; try (cbn; apply IH).
  change (resolved_promises (ResolveEdit a p r res :: l)) with (p :: resolved_promises l). cbn [first_resolutions]. case_bool_decide as Hp.
  - destruct (IH seen) as [Hn Hi]. split; [done|]. intros x. rewrite Hi. set_solver.
  - destruct (IH ({[ p ]} ∪ seen)) as [Hn Hi]. cbn. split.
    + apply NoDup_cons. split; [|done]. rewrite Hi. set_solver.
    + intros x. rewrite elem_of_cons, Hi, elem_of_cons, elem_of_union, elem_of_singleton. destruct (decide (x = p)); naive_solver.
Qed.

(** What the loop does with the status of a promise's breaker: the resolution [res],
    made with its resolver if [resolver], settles one that is pending. *)
Definition settled_status (before : PromiseStatus) (resolver : bool) (resolution : Resolution) : PromiseStatus :=
  if resolver && bool_decide (before = Pending) then resolution_status resolution else before.

Lemma settle_edits l : forall shared settled seen shared' settled',
  (forall promise, promise ∈ resolved_promises l -> promise ∈ pending shared \/ promise ∈ seen) -> pending shared ## seen ->
  foldl settle_edit (shared, settled) l = (shared', settled') ->
  settled' = settled ++ first_resolutions seen l /\
  (forall promise, promise ∈ pending shared' <-> promise ∈ pending shared /\ promise ∉ resolved_promises l) /\
  (forall promise, promise ∈ seen \/ promise ∉ resolved_promises l -> breaker_status shared' promise = breaker_status shared promise) /\
  (forall l1 address promise resolver resolution l2, l = l1 ++ ResolveEdit address promise resolver resolution :: l2 ->
     promise ∉ seen -> promise ∉ resolved_promises l1 ->
     MkSettled promise resolution ∈ first_resolutions seen l /\
     breaker_status shared' promise = settled_status (breaker_status shared promise) resolver resolution).
Proof.
  induction l as [|e l IH]; intros shared settled seen shared' settled' Hpend Hseen.
  { cbn. intros [= <- <-]. rewrite app_nil_r. split; [done|]. split; [set_solver|]. split; [done|]. by intros [|]. }
  cbn [foldl]. destruct (resolved_promise e) as [promise|] eqn:Er.
  2: { assert (settle_edit (shared, settled) e = (shared, settled) /\ first_resolutions seen (e :: l) = first_resolutions seen l
      /\ resolved_promises (e :: l) = resolved_promises l) as (-> & -> & Erl) by (by destruct e).
    rewrite Erl in *. intros E. destruct (IH _ _ _ _ _ Hpend Hseen E) as (Hs & Hp & Hb & Hf). repeat (split; [done|]).
    intros [|e' l1] a p rv r l2 [= -> ->]; [done|]. intros Hn Hl. eapply Hf; [done..|]. contradict Hl.
    unfold resolved_promises. cbn. rewrite Er. exact Hl. }
  destruct e as [| | | |a p rv r]; try done. injection Er as ->.
  change (resolved_promises (ResolveEdit a promise rv r :: l)) with (promise :: resolved_promises l) in *. cbn [settle_edit first_resolutions].
  destruct (decide (promise ∈ seen)) as [Hin|Hnin].
  - rewrite (bool_decide_eq_true_2 (promise ∈ seen)), bool_decide_eq_false_2 by set_solver. intros E.
    destruct (IH _ _ _ _ _ (fun x Hx => Hpend x (list_elem_of_further _ _ _ Hx)) Hseen E) as (Hs & Hp & Hb & Hf).
    split; [done|]. split; [|split].
    + intros x. rewrite Hp. set_solver.
    + intros x Hx. apply Hb. set_solver.
    + intros [|e' l1] a' p' rv' r' l2; [by intros [= <- <- <- <- <-]|intros [= <- E2]]. subst l. intros Hn Hl. eapply Hf; [done..|].
      contradict Hl. unfold resolved_promises in *. cbn. by right.
  - assert (promise ∈ pending shared) as Hpr by (destruct (Hpend promise) as [|]; [by left|done|done]).
    rewrite (bool_decide_eq_false_2 (promise ∈ seen)), bool_decide_eq_true_2 by done.
    set (breakers' := if _ : bool then _ else _). intros E.
    destruct (fun H1 H2 => IH _ _ ({[ promise ]} ∪ seen) _ _ H1 H2 E) as (-> & Hp & Hb & Hf); cbn [pending set_promises] in *.
    { intros x Hx. destruct (decide (x = promise)); [set_solver|]. destruct (Hpend x); set_solver. }
    { set_solver. }
    assert (Hother : forall x, x <> promise -> breaker_status (set_promises shared (pending shared ∖ {[ promise ]}) breakers') x = breaker_status shared x).
    { intros x Hx. unfold breaker_status, breakers'. cbn. destruct (rv && _); [by rewrite lookup_insert_ne|done]. }
    split; [by rewrite <- app_assoc|]. split; [|split].
    + intros x. rewrite Hp. set_solver.
    + intros x Hx. rewrite Hb by set_solver. apply Hother. set_solver.
    + intros [|e' l1] a' p' rv' r' l2; [intros [= <- <- <- <- <-]|intros [= <- E2]].
      * intros _ _. split; [by left|]. rewrite Hb by set_solver. unfold breaker_status, breakers', settled_status. cbn.
        destruct (rv && _); [by rewrite lookup_insert_eq|done].
      * subst l. intros Hn Hl. change (p' ∉ promise :: resolved_promises l1) in Hl. apply not_elem_of_cons in Hl as [Hne Hl].
        rewrite <- (Hother p') by done. destruct (Hf l1 a' p' rv' r' l2) as [Hin Hst]; [done|set_solver|done|]. split; [by right|done].
Qed.

Lemma store_change_promises shared store shared' store' : store_change shared store shared' store' ->
  pending shared' = pending shared /\ breakers shared' = breakers shared /\ settled store' = settled store.
Proof.
  destruct 1 as [initial v sh' st' Hc|v root st' Hr|root|dead|v sh' Hv|promise|]; try done.
  - unfold create_volume, reserve_volume in Hc. destruct (checked_add _ _); [|done]. cbn in Hc. destruct (_ =? 0)%Z; [done|].
    injection Hc as <- <- <-. unfold prune_collected. by destruct (_ =? _).
  - unfold revoke_volume in Hr. destruct (bool_decide _); [done|]. destruct (version_value _ _ _); [|done]. by injection Hr as <- <-.
  - unfold reserve_volume in Hv. destruct (checked_add _ _); [|done]. cbn in Hv. destruct (_ =? 0)%Z; [done|]. by injection Hv as <- <-.
Qed.

Section settle.
Context {Index : Type} `{ConflictAnalysis Index}.

Inductive promise_step (w : PromiseState) : PromiseState -> Prop :=
  | commits_step (journal : StoreJournal) (attempt : Attempt Index) changed shared store :
      validate (promise_shared w) (promise_store w) journal attempt = Committed ->
      commit_validated (promise_shared w) (promise_store w) journal = (changed, shared, store) ->
      promise_step w (MkPromises shared store (published w) (allocated w))
  | publish_step :
      promise_step w (MkPromises (promise_shared w) (take_settled (promise_store w)).2
        (published w ++ (take_settled (promise_store w)).1) (allocated w))
  | allocates_step promise : promise ∉ allocated w ->
      promise_step w (MkPromises (allocate_promise (promise_shared w) promise) (promise_store w) (published w) ({[ promise ]} ∪ allocated w))
  | forgets_step promise :
      promise_step w (MkPromises (forget_promise (promise_shared w) promise) (promise_store w) (published w) (allocated w))
  | changes_step shared store : store_change (promise_shared w) (promise_store w) shared store ->
      promise_step w (MkPromises shared store (published w) (allocated w)).

(** The promises of a journal that validates are pending. *)
Lemma validated_pending shared store (journal : StoreJournal) (attempt : Attempt Index) promise :
  validate shared store journal attempt = Committed -> promise ∈ resolved_promises (edits journal) -> promise ∈ pending shared.
Proof.
  unfold validate. destruct (missing_volume _ _); [done|]. destruct (conflicts _ _ _); [done|].
  destruct (existsb _ _) eqn:E; [done|]. intros _ (e & He & Ep)%list_elem_of_omap.
  destruct (decide (promise ∈ pending shared)) as [|Hn]; [done|]. exfalso. apply Is_true_false in E. apply E, existsb_True.
  exists e. split; [done|]. rewrite Ep. by rewrite bool_decide_eq_false_2.
Qed.

(** What a commit settles. *)
Lemma commit_settles shared store (journal : StoreJournal) (attempt : Attempt Index) changed shared' store' :
  validate shared store journal attempt = Committed -> commit_validated shared store journal = (changed, shared', store') ->
  settled store' = settled store ++ first_resolutions ∅ (edits journal) /\
  (forall promise, promise ∈ pending shared' <-> promise ∈ pending shared /\ promise ∉ resolved_promises (edits journal)) /\
  (forall promise, promise ∉ resolved_promises (edits journal) -> breaker_status shared' promise = breaker_status shared promise) /\
  (forall l1 address promise resolver resolution l2, edits journal = l1 ++ ResolveEdit address promise resolver resolution :: l2 ->
     promise ∉ resolved_promises l1 ->
     MkSettled promise resolution ∈ first_resolutions ∅ (edits journal) /\
     breaker_status shared' promise = settled_status (breaker_status shared promise) resolver resolution).
Proof.
  intros Hval Hcommit. unfold commit_validated in Hcommit. destruct (decide (edits journal = [])) as [En|Hne].
  { rewrite bool_decide_eq_true_2 in Hcommit by done. injection Hcommit as <- <- <-. rewrite En. cbn. rewrite app_nil_r.
    split; [done|]. split; [set_solver|]. split; [done|]. by intros [|]. }
  rewrite bool_decide_eq_false_2 in Hcommit by done. destruct (foldl settle_edit _ _) as [sh se] eqn:Es. injection Hcommit as <- <- <-.
  destruct (settle_edits _ _ _ ∅ _ _ (fun promise Hp => or_introl (validated_pending _ _ _ _ _ Hval Hp)) (disjoint_empty_r _) Es)
    as (-> & Hp & Hb & Hf).
  split; [|split; [done|split]].
  - cbn. destruct (existsb is_create (edits journal)); [|done]. unfold prune_collected. by destruct (_ =? _).
  - intros x Hx. apply Hb. by right.
  - intros l1 a x rv r l2 E Hx. eapply Hf; [done|set_solver|done].
Qed.

(** A resolved promise has a first resolution. *)
Lemma first_resolution l promise : promise ∈ resolved_promises l ->
  exists l1 address resolver resolution l2, l = l1 ++ ResolveEdit address promise resolver resolution :: l2 /\ promise ∉ resolved_promises l1.
Proof.
  induction l as [|e l IH]; [set_solver|]. intros Hin. destruct (decide (resolved_promise e = Some promise)) as [He|He].
  - destruct e as [| | | |a p rv r]; try done. injection He as ->. exists [], a, rv, r, l. split; [done|]. set_solver.
  - assert (Hl : promise ∈ resolved_promises l).
    { unfold resolved_promises in *. cbn in Hin. destruct (resolved_promise e) as [x|]; [|done]. apply elem_of_cons in Hin as [->|]; done. }
    destruct (IH Hl) as (l1 & a & rv & r & l2 & -> & Hn). exists (e :: l1), a, rv, r, l2. split; [done|].
    unfold resolved_promises in *. cbn. destruct (resolved_promise e) as [x|]; [|done]. apply not_elem_of_cons. split; [congruence|done].
Qed.

(** *** The promises of a history *)
Record promises_inv (w : PromiseState) : Prop := {
  pi_once : NoDup (settled_promise <$> all_settled w);
  pi_settled : forall promise, promise ∈ settled_promise <$> all_settled w -> promise ∈ allocated w /\ promise ∉ pending (promise_shared w);
  pi_pending : pending (promise_shared w) ⊆ allocated w;
  pi_breakers : forall promise, breaker_status (promise_shared w) promise <> Pending ->
    exists resolution, MkSettled promise resolution ∈ all_settled w /\ breaker_status (promise_shared w) promise = resolution_status resolution;
}.

Lemma new_promises_inv identity : promises_inv (new_promises identity).
Proof. split; cbn; [constructor|set_solver|set_solver|]. intros promise []. unfold breaker_status, new_shared. cbn [breakers]. by rewrite lookup_empty. Qed.

Lemma commit_promises_inv w (journal : StoreJournal) (attempt : Attempt Index) changed shared store :
  promises_inv w -> validate (promise_shared w) (promise_store w) journal attempt = Committed ->
  commit_validated (promise_shared w) (promise_store w) journal = (changed, shared, store) ->
  promises_inv (MkPromises shared store (published w) (allocated w)) /\
  all_settled (MkPromises shared store (published w) (allocated w)) = all_settled w ++ first_resolutions ∅ (edits journal).
Proof.
  intros [Ho Hs Hp Hb] Hval Hcommit. destruct (commit_settles _ _ _ _ _ _ _ Hval Hcommit) as (Es & Hpend & Hother & Hfirst).
  assert (Eall : all_settled (MkPromises shared store (published w) (allocated w)) = all_settled w ++ first_resolutions ∅ (edits journal)).
  { unfold all_settled. cbn. by rewrite Es, app_assoc. }
  destruct (first_resolutions_promises (edits journal) ∅) as [Hnd Hin].
  assert (Hvp : forall x, x ∈ resolved_promises (edits journal) -> x ∈ pending (promise_shared w)) by (intros x; apply (validated_pending _ _ _ _ _ Hval)).
  split; [|done]. split; rewrite ?Eall, ?fmap_app; cbn [allocated promise_shared].
  - apply NoDup_app. split; [done|]. split; [|done]. intros x Hx Hx'. apply Hin in Hx' as [Hx' _]. apply Hs in Hx as [_ []]. auto.
  - intros x [Hx|Hx]%elem_of_app; rewrite Hpend.
    + apply Hs in Hx as [Ha Hn]. naive_solver.
    + apply Hin in Hx as [Hx _]. split; [by apply Hp, Hvp|naive_solver].
  - intros x [Hx _]%Hpend. by apply Hp.
  - intros x Hx. destruct (decide (x ∈ resolved_promises (edits journal))) as [Hr|Hr].
    + destruct (first_resolution _ _ Hr) as (l1 & a & rv & r & l2 & E & Hn). destruct (Hfirst _ _ _ _ _ _ E Hn) as [Hmem Est].
      rewrite Est in *. unfold settled_status in *. destruct (rv && _) eqn:Erv.
      * exists r. split; [apply elem_of_app; by right|done].
      * destruct (Hb x Hx) as (r' & Hr' & Er'). exists r'. split; [apply elem_of_app; by left|done].
    + rewrite (Hother x Hr) in *. destruct (Hb x Hx) as (r' & Hr' & Er'). exists r'. split; [apply elem_of_app; by left|done].
Qed.

Lemma promise_step_inv w w' : promise_step w w' -> promises_inv w ->
  promises_inv w' /\ all_settled w `prefix_of` all_settled w'.
Proof.
  intros Hstep Hinv. destruct Hstep as [journal attempt changed shared store Hval Hcommit| |promise Hnew|promise|shared store Hchange].
  - destruct (commit_promises_inv _ _ _ _ _ _ Hinv Hval Hcommit) as [Hinv' ->]. split; [done|by eexists].
  - assert (E : all_settled (MkPromises (promise_shared w) (take_settled (promise_store w)).2
      (published w ++ (take_settled (promise_store w)).1) (allocated w)) = all_settled w) by (unfold all_settled; cbn; by rewrite app_nil_r).
    rewrite E. split; [|done]. destruct Hinv as [Ho Hs Hp Hb]. split; rewrite ?E; done.
  - destruct Hinv as [Ho Hs Hp Hb]. split; [|done].
    split; cbn [promise_shared allocated pending set_promises allocate_promise]; change (all_settled _) with (all_settled w); [done| |set_solver|].
    + intros x Hx. apply Hs in Hx as [Ha Hn]. split; [set_solver|]. apply not_elem_of_union. split; [set_solver|done].
    + intros x. unfold breaker_status. cbn. destruct (decide (x = promise)) as [->|Hne]; [by rewrite lookup_insert_eq|].
      rewrite lookup_insert_ne by done. apply Hb.
  - destruct Hinv as [Ho Hs Hp Hb]. split; [|done].
    split; cbn [promise_shared allocated pending set_promises forget_promise]; change (all_settled _) with (all_settled w); [done| |set_solver|done].
    intros x Hx. apply Hs in Hx as [Ha Hn]. split; [done|set_solver].
  - destruct (store_change_promises _ _ _ _ Hchange) as (Ep & Eb & Es). destruct Hinv as [Ho Hs Hp Hb].
    assert (E : all_settled (MkPromises shared store (published w) (allocated w)) = all_settled w) by (unfold all_settled; cbn; by rewrite Es).
    rewrite E. split; [|done]. split; rewrite ?E; cbn [promise_shared allocated]; unfold breaker_status in *; rewrite ?Ep, ?Eb; done.
Qed.

Lemma promise_steps_inv w w' : rtc promise_step w w' -> promises_inv w -> promises_inv w' /\ all_settled w `prefix_of` all_settled w'.
Proof.
  induction 1 as [|w1 w2 w3 Hs _ IH]; [done|]. intros Hi. destruct (promise_step_inv _ _ Hs Hi) as [Hi2 Hpre].
  destruct (IH Hi2) as [Hi3 Hpre']. split; [done|by etransitivity].
Qed.

(** C38. [promises_settle_once]: in any history of a store's promises, each is settled
    at most once; no settled promise is pending; and a breaker that is not pending
    keeps the status of its promise's resolution. What is settled stays settled: from
    then on, at any later moment, a transaction that resolves one of these promises is
    refused. A commit settles exactly the promises its journal resolves, each by its
    first resolution, in order; none of them is pending afterwards, the other promises
    are as they were, and a resolver's breaker takes the status of the resolution.
    And staging never puts two resolutions of a promise in a journal. *)
Theorem promises_settle_once identity w : rtc promise_step (new_promises identity) w ->
  (NoDup (settled_promise <$> all_settled w) /\
   (forall promise, promise ∈ settled_promise <$> all_settled w -> promise ∉ pending (promise_shared w)) /\
   (forall promise, breaker_status (promise_shared w) promise <> Pending ->
      exists resolution, MkSettled promise resolution ∈ all_settled w /\ breaker_status (promise_shared w) promise = resolution_status resolution)) /\
  (forall later, rtc promise_step w later -> all_settled w `prefix_of` all_settled later /\
     forall (journal : StoreJournal) (attempt : Attempt Index) promise,
       promise ∈ settled_promise <$> all_settled w -> promise ∈ resolved_promises (edits journal) ->
       validate (promise_shared later) (promise_store later) journal attempt <> Committed) /\
  (forall (journal : StoreJournal) (attempt : Attempt Index) changed shared' store',
     validate (promise_shared w) (promise_store w) journal attempt = Committed ->
     commit_validated (promise_shared w) (promise_store w) journal = (changed, shared', store') ->
     settled store' = settled (promise_store w) ++ first_resolutions ∅ (edits journal) /\
     (forall promise, promise ∈ pending shared' <-> promise ∈ pending (promise_shared w) /\ promise ∉ resolved_promises (edits journal)) /\
     (forall promise, promise ∉ resolved_promises (edits journal) -> breaker_status shared' promise = breaker_status (promise_shared w) promise) /\
     (forall before address promise resolver resolution after,
        edits journal = before ++ ResolveEdit address promise resolver resolution :: after -> promise ∉ resolved_promises before ->
        MkSettled promise resolution ∈ settled store' /\
        breaker_status shared' promise = if resolver then resolution_status resolution else Pending)) /\
  (forall journal promise resolution, NoDup (resolved_promises (edits journal)) ->
     (forall journal', resolve (promise_shared w) journal promise resolution = Ok journal' -> NoDup (resolved_promises (edits journal'))) /\
     NoDup (resolved_promises (edits (break_lost (promise_shared w) journal promise resolution).2))).
Proof.
  intros Hsteps. destruct (promise_steps_inv _ _ Hsteps (new_promises_inv identity)) as [Hinv _]. pose proof Hinv as [Ho Hs Hp Hb].
  split; [|split; [|split]].
  - split; [done|]. split; [|done]. intros promise. apply Hs.
  - intros later Hlater. destruct (promise_steps_inv _ _ Hlater Hinv) as [[_ Hs' _ _] Hpre]. split; [done|].
    intros journal attempt promise Hin Hr Hval. apply (validated_pending _ _ _ _ _ Hval) in Hr. eapply (proj2 (Hs' promise _)), Hr.
    Unshelve. destruct Hpre as [more ->]. rewrite fmap_app. apply elem_of_app. by left.
  - intros journal attempt changed shared' store' Hval Hcommit. destruct (commit_settles _ _ _ _ _ _ _ Hval Hcommit) as (Es & Hpend & Hother & Hfirst).
    repeat (split; [done|]). intros before address promise resolver resolution after E Hn. destruct (Hfirst _ _ _ _ _ _ E Hn) as [Hm ->].
    split; [rewrite Es; apply elem_of_app; by right|]. assert (Hpr : promise ∈ resolved_promises (edits journal)).
    { rewrite E. unfold resolved_promises. rewrite omap_app. apply elem_of_app. right. cbn. by left. }
    unfold settled_status. destruct (decide (breaker_status (promise_shared w) promise = Pending)) as [E0|E0].
    + rewrite E0. by destruct resolver.
    + destruct (Hb _ E0) as (r & Hr & _). exfalso. eapply (proj2 (Hs promise _)), (validated_pending _ _ _ _ _ Hval Hpr).
      Unshelve. by apply (list_elem_of_fmap_2 settled_promise) in Hr.
  - intros journal promise resolution Hnd. split; [intros journal' Hr; by eapply resolve_once|].
    destruct (break_lost _ _ _ _) as [staged journal'] eqn:E. by eapply break_lost_once.
Qed.
End settle.
