(* ===== verification/StoreSamples.v ===== *)
(** * A store at work

    Concrete stores, transactions and branches: the witnesses of the theorems about
    the reflection store, and the two behaviours that the placement of writes
    excludes. Functions are additions. *)
From stdpp Require Import base option list numbers gmap relations strings.
From Stdlib Require Import ZArith Lia.
From S2P Require Import Prelude Conflict DictPaths StoreJournal ReflectionStore StoreFacts StoreHistory.
From S2P Require Import StoreSerial.

Local Open Scope Z_scope.

Definition sum (function argument : Data) : Data :=
  match function, argument with DOther n, DOther m => DOther (n + m) | _, _ => DFail end.
Definition at_ (names : list string) : ConflictPath := atom_from_text <$> names.
Notation commit shared store journal := (commit_validated shared store journal).

(** A first transaction: [heap.a = 1] and [heap.z = 7]. *)
Definition first_body : Body :=
  WritePath heap_volume (at_ ["a"]) (VOther 1) (WritePath heap_volume (at_ ["z"]) (VOther 7) Return).
(** A reader: [heap.b = heap.a + 4] where [heap.a] is defined, and then reads it back. *)
Definition reader_body : Body :=
  ReadPath heap_volume (at_ ["a"]) (fun read =>
    match read with
    | Some (Defined (DOther n)) =>
        WritePath heap_volume (at_ ["b"; "c"]) (VOther n)
          (RewritePath heap_volume (at_ ["b"; "c"]) (VOther 4)
             (ReadPath heap_volume (at_ ["b"; "c"]) (fun _ => Return)))
    | _ => Return
    end).
(** A concurrent writer: [heap.z += 2]. *)
Definition writer_body : Body := RewritePath heap_volume (at_ ["z"]) (VOther 2) Return.

Definition run world body : Attempt ExactIndex * StoreJournal * list ReadEvent :=
  run_transaction sum (world_shared world) (take_snapshot (world_store world)) body.
Definition run_attempt world body := (run world body).1.1.
Definition run_journal world body := (run world body).1.2.
Definition run_log world body := (run world body).2.

(** The world after a journal's commit. *)
Definition after_commit (world : World) (journal : StoreJournal) : World :=
  let '(_, shared, store) := commit (world_shared world) (world_store world) journal in advance world shared store.

Definition world0 : World := new_world 0.
Definition world1 : World := after_commit world0 (run_journal world0 first_body).
Definition world2 : World := after_commit world1 (run_journal world1 writer_body).

(** The steps, from what evaluation shows of them. *)
Lemma sample_step base world body :
  (exists vs, history world !! snapshot_revision (take_snapshot (world_store base)) = Some vs /\ vs = versions (world_store base)) ->
  cleared (world_shared base) = ∅ -> cleared (world_shared world) = ∅ ->
  store_identity (world_store base) = store_identity (world_store world) ->
  Forall proper_edit (edits (run_journal base body)) ->
  Forall (fun e => edit_volume e = heap_volume) (edits (run_journal base body)) ->
  placed sum heap_volume (version_value (world_shared world) (versions (world_store world)) heap_volume) (edits (run_journal base body)) ->
  validate (world_shared world) (world_store world) (run_journal base body) (run_attempt base body) = Committed ->
  edits (run_journal base body) <> [] -> revision (world_store world) + 1 < 2 ^ 64 ->
  world_step (Index := ExactIndex) sum world (after_commit world (run_journal base body)).
Proof.
  intros (vs & Hpast & ->) Hc Hc' Hid Hproper Hone Hplaced Hval Hne Hb. unfold after_commit.
  destruct (commit (world_shared world) (world_store world) (run_journal base body)) as [[changed shared] store] eqn:E.
  destruct (run base body) as [[attempt journal] log] eqn:Er.
  pose proof (run_body_ok (Index := ExactIndex) sum _ _ _ _ _ _ _ Er (new_journal_ok _ _)) as (Hok & Es & _).
  unfold run_journal, run_attempt in *. rewrite Er in *. cbn [fst snd] in *.
  eapply commit_step; try done.
  - unfold began_in. rewrite Es. done.
  - eapply journal_ok_later; [exact Hok|by rewrite Hc|]. intros v _. rewrite Hc'. set_solver.
  - by apply (placed_one sum heap_volume _ (fun v => version_value (world_shared world) (versions (world_store world)) v)).
Qed.

Lemma sample_world1 : world_step (Index := ExactIndex) sum world0 world1.
Proof.
  apply (sample_step world0 world0 first_body); try (vm_compute; done).
  - eexists. split; [|done]. by vm_compute.
  - repeat constructor.
  - repeat constructor.
Qed.

Lemma sample_world2 : world_step (Index := ExactIndex) sum world1 world2.
Proof.
  apply (sample_step world1 world1 writer_body); try (vm_compute; done).
  - eexists. split; [|done]. by vm_compute.
  - vm_compute. repeat constructor.
  - vm_compute. repeat constructor.
Qed.

(** The reader of [world1] commits in [world2], after the writer: it read [a = 1], its
    own [b.c = 5], and nothing that the writer changed. *)
Lemma transactions_serializable_witness :
  outcomes (run_log world1 reader_body)
  = [(Reflection heap_volume (at_ ["a"]), Some (Defined (DOther 1))); (Reflection heap_volume (at_ ["b"; "c"]), Some (Defined (DOther 5)))] /\
  exists attempt' journal' log',
    run_transaction (Index := ExactIndex) sum (world_shared world2) (take_snapshot (world_store world2)) reader_body = (attempt', journal', log') /\
    outcomes log' = outcomes (run_log world1 reader_body) /\ edits journal' = edits (run_journal world1 reader_body) /\
    validate (world_shared world2) (world_store world2) journal' attempt' = Committed /\
    commit (world_shared world2) (world_store world2) (run_journal world1 reader_body)
    = commit (world_shared world2) (world_store world2) journal'.
Proof.
  split; [by vm_compute|].
  apply (transactions_serializable (Index := ExactIndex) sum 0 world1 world2 reader_body (run_attempt world1 reader_body)).
  - eapply rtc_l; [exact sample_world1|apply rtc_refl].
  - eapply rtc_l; [exact sample_world2|apply rtc_refl].
  - unfold run_journal, run_attempt, run_log. fold (run world1 reader_body). by destruct (run world1 reader_body) as [[? ?] ?].
  - by vm_compute.
  - split; [vm_compute; repeat constructor; done|].
    intros v Hv. assert (Hh : v = heap_volume).
    { apply elem_of_written, Exists_exists in Hv as (e & He & _ & <-). revert e He. apply Forall_forall.
      vm_compute. repeat constructor. }
    subst v. split; [by vm_compute|]. vm_compute. by eexists.
  - split; [vm_compute; repeat constructor; done|vm_compute; repeat constructor; done|..];
      intros v; apply placed_one with (volume := heap_volume); (vm_compute; repeat constructor; done) || by vm_compute.
Defined.

(** The writer, which commits in the world it began in, through its drafts. *)
Lemma commit_paths_agree_witness :
  is_current (world_store world1) (run_journal world1 writer_body) = true /\
  is_current (world_store world1) (foreign (run_journal world1 writer_body)) = false /\
  commit (world_shared world1) (world_store world1) (run_journal world1 writer_body)
  = commit (world_shared world1) (world_store world1) (foreign (run_journal world1 writer_body)).
Proof.
  apply (commit_paths_agree (Index := ExactIndex) sum 0 world1 writer_body (run_attempt world1 writer_body) _ (run_log world1 writer_body)).
  - eapply rtc_l; [exact sample_world1|apply rtc_refl].
  - unfold run_journal, run_attempt, run_log. fold (run world1 writer_body). by destruct (run world1 writer_body) as [[? ?] ?].
  - split; [vm_compute; repeat constructor; done|].
    intros v Hv. assert (Hh : v = heap_volume).
    { apply elem_of_written, Exists_exists in Hv as (e & He & _ & <-). revert e He. apply Forall_forall.
      vm_compute. repeat constructor. }
    subst v. split; [by vm_compute|]. vm_compute. by eexists.
Defined.

(** ** A branch *)
Definition fork_point : StoreJournal := new_journal (take_snapshot (world_store world1)).
Definition fork_attempt : Attempt ExactIndex := new_attempt.
Definition branch_run := run_body sum (world_shared world1) (fork fork_attempt fork_point).1 (fork fork_attempt fork_point).2 reader_body.
Definition join_point (body : Body) : StoreJournal := (run_body (Index := ExactIndex) sum (world_shared world1) fork_attempt fork_point body).1.2.

(** The branch read [a], so that it merges beside a write of [z] and not beside one of
    [a]. *)
Example branch_conflict :
  (fun '(merged, _, _) => merged) <$> merge_branch (world_shared world1) branch_run.1.1 (join_point writer_body) branch_run.1.2 = Some true /\
  (fun '(merged, _, _) => merged) <$> merge_branch (world_shared world1) branch_run.1.1
    (join_point (WritePath heap_volume (at_ ["a"]) (VOther 3) Return)) branch_run.1.2 = Some false.
Proof. split; by vm_compute. Qed.

Lemma join_point_ok body : journal_ok (world_shared world1) (join_point body) /\ snapshot (join_point body) = snapshot fork_point.
Proof.
  unfold join_point. destruct (run_body _ _ _ _ _) as [[a j] l] eqn:E.
  by destruct (run_body_ok (Index := ExactIndex) sum _ _ _ _ _ _ _ E (new_journal_ok _ _)) as (? & ? & _).
Qed.

Lemma merge_is_serial_witness :
  exists attempt4 merged,
    merge_branch (world_shared world1) branch_run.1.1 (join_point writer_body) branch_run.1.2 = Some (true, attempt4, merged) /\
    forall attempt : Attempt ExactIndex, exists attempt' journal' log',
      run_body sum (world_shared world1) attempt (join_point writer_body) reader_body = (attempt', journal', log') /\
      outcomes log' = outcomes branch_run.2 /\ edits journal' = edits merged /\ views journal' = views merged.
Proof.
  destruct (merge_branch (world_shared world1) branch_run.1.1 (join_point writer_body) branch_run.1.2) as [[[ok a4] merged]|] eqn:Em;
    [|exfalso; revert Em; by vm_compute].
  assert (Eok : ok = true).
  { assert (Hok : (fun '(merged, _, _) => merged) <$> Some (ok, a4, merged) = Some true) by (rewrite <- Em; by vm_compute). by injection Hok. }
  subst ok. exists a4, merged. split; [done|].
  apply (merge_is_serial (Index := ExactIndex) sum (world_shared world1) fork_attempt fork_point (fork fork_attempt fork_point).2
    (fork fork_attempt fork_point).1 reader_body branch_run.1.1 branch_run.1.2 branch_run.2 branch_run.1.1 (join_point writer_body)
    (edits (join_point writer_body)) a4 merged).
  - apply new_journal_ok.
  - done.
  - unfold branch_run. by destruct (run_body _ _ _ _ _) as [[? ?] ?].
  - apply join_point_ok.
  - apply join_point_ok.
  - done.
  - done.
  - exact Em.
  - split; [vm_compute; repeat constructor; done|vm_compute; repeat constructor; done|vm_compute; repeat constructor; done|..].
    1-3: intros v; apply (placed_one sum heap_volume _ (fun v => value_at_in (world_shared world1) _ v []));
      (vm_compute; repeat constructor; done) || by vm_compute.
    intros v Hv. assert (Hh : v = heap_volume).
    { apply elem_of_written, Exists_exists in Hv as (e & He & _ & <-). revert e He. apply Forall_forall.
      vm_compute. repeat constructor. }
    subst v. vm_compute. by eexists.
Defined.

(** ** Promises *)
(** Promise 9 is allocated; a journal that resolves it commits, and the resolution is
    handed out for publication. *)
Definition sample_shared : Shared := allocate_promise new_shared 9.
Definition promise_journal : StoreJournal :=
  match resolve sample_shared (new_journal (take_snapshot (new_store 0))) 9 (Fulfill (VOther 3)) with Ok journal => journal | _ => fork_point end.
Definition resolved : bool * Shared * ReflectionStore := commit sample_shared (new_store 0) promise_journal.
Definition before_commit : PromiseState := MkPromises sample_shared (new_store 0) [] ({[ 9 ]} ∪ ∅).
Definition after_resolution : PromiseState := MkPromises resolved.1.2 resolved.2 (published before_commit) (allocated before_commit).
Definition after_publication : PromiseState :=
  MkPromises (promise_shared after_resolution) (take_settled (promise_store after_resolution)).2
    (published after_resolution ++ (take_settled (promise_store after_resolution)).1) (allocated after_resolution).

Lemma promises_settle_once_witness :
  all_settled after_publication = [MkSettled 9 (Fulfill (VOther 3))] /\
  breaker_status resolved.1.2 9 = Fulfilled /\
  validate (promise_shared after_publication) (promise_store after_publication) promise_journal fork_attempt <> Committed /\
  exists resolution, MkSettled 9 resolution ∈ all_settled after_publication /\
    breaker_status (promise_shared after_publication) 9 = resolution_status resolution.
Proof.
  assert (Hstart : rtc (promise_step (Index := ExactIndex)) (new_promises 0) before_commit).
  { apply rtc_once. apply (allocates_step (new_promises 0) 9). apply not_elem_of_empty. }
  assert (Hcommit : resolved = (resolved.1.1, resolved.1.2, resolved.2)) by (destruct resolved as [[] ?]; reflexivity).
  assert (Hafter : rtc (promise_step (Index := ExactIndex)) (new_promises 0) after_publication).
  { eapply rtc_r; [eapply rtc_r; [exact Hstart|]|].
    - exact (commits_step before_commit promise_journal fork_attempt _ _ _ ltac:(by vm_compute) Hcommit).
    - exact (publish_step after_resolution). }
  assert (Hstatus : breaker_status resolved.1.2 9 = Fulfilled).
  { destruct (promises_settle_once 0 before_commit Hstart) as (_ & _ & Hc & _).
    destruct (Hc promise_journal fork_attempt _ _ _ ltac:(by vm_compute) Hcommit) as (_ & _ & _ & Hf).
    apply (Hf [] (Reflection runtime_volume (promise_path 9)) 9 true (Fulfill (VOther 3)) []); [reflexivity|apply not_elem_of_nil]. }
  assert (Hall : all_settled after_publication = [MkSettled 9 (Fulfill (VOther 3))]) by reflexivity.
  destruct (promises_settle_once 0 after_publication Hafter) as ((_ & _ & Hb) & Hlater & _).
  split; [exact Hall|]. split; [exact Hstatus|]. split.
  - apply (proj2 (Hlater _ (rtc_refl _ _)) _ _ 9); [rewrite Hall; by left|by left].
  - apply Hb. change (promise_shared after_publication) with resolved.1.2. rewrite Hstatus. discriminate.
Defined.

(** ** What the placement of writes excludes *)

(** The heap holds [a = 5]. A transaction sets [a.b = 1] and reads it back: [a] is no
    dictionary, so the read fails. It has read what the snapshot holds at [a], but
    observed nothing: its own write covers the read. *)
Definition misplaced_world : World := after_commit world0 (run_journal world0 (WritePath heap_volume (at_ ["a"]) (VOther 5) Return)).
Definition misplaced_body : Body :=
  WritePath heap_volume (at_ ["a"; "b"]) (VOther 1) (ReadPath heap_volume (at_ ["a"; "b"]) (fun _ => Return)).
(** Another transaction makes [a] a dictionary. *)
Definition repaired_world : World :=
  after_commit misplaced_world (run_journal misplaced_world (WritePath heap_volume (at_ ["a"]) (VDict ∅) Return)).

(** The first transaction is accepted then, though the read it was decided by would
    succeed now. *)
Theorem misplaced_write_reads_unobserved :
  observations (run_attempt misplaced_world misplaced_body) = begin /\
  outcomes (run_log misplaced_world misplaced_body) = [(Reflection heap_volume (at_ ["a"; "b"]), Some FailedRead)] /\
  validate (world_shared repaired_world) (world_store repaired_world) (run_journal misplaced_world misplaced_body)
    (run_attempt misplaced_world misplaced_body) = Committed /\
  outcomes (run_log repaired_world misplaced_body) = [(Reflection heap_volume (at_ ["a"; "b"]), Some (Defined (DOther 1)))].
Proof. repeat split; by vm_compute. Qed.

(** The heap holds [a = 5] and [z = 7]. A removal of [a.b] runs through [a]: it fails
    the whole heap, where a write at [a.b] would fail at [a] alone, and every later
    read fails, [z] included. A transaction that read [z] before is accepted. *)
Definition poisoned_world : World :=
  let world := after_commit misplaced_world (run_journal misplaced_world (WritePath heap_volume (at_ ["z"]) (VOther 7) Return)) in
  after_commit world (run_journal world (RemovePath heap_volume (at_ ["a"; "b"]) Return)).
Definition before_poison : World :=
  after_commit misplaced_world (run_journal misplaced_world (WritePath heap_volume (at_ ["z"]) (VOther 7) Return)).
Definition read_z : Body := ReadPath heap_volume (at_ ["z"]) (fun _ => Return).

Theorem misplaced_removal_fails_volume :
  outcomes (run_log before_poison read_z) = [(Reflection heap_volume (at_ ["z"]), Some (Defined (DOther 7)))] /\
  outcomes (run_log poisoned_world read_z) = [(Reflection heap_volume (at_ ["z"]), Some FailedRead)] /\
  conflicts (world_store poisoned_world) (run_journal before_poison read_z) (run_attempt before_poison read_z) = false /\
  outcomes (run_log (after_commit before_poison (run_journal before_poison (WritePath heap_volume (at_ ["a"; "b"]) (VOther 1) Return))) read_z)
  = [(Reflection heap_volume (at_ ["z"]), Some (Defined (DOther 7)))].
Proof. repeat split; by vm_compute. Qed.
