(* ===== verification/Numbers.v ===== *)
(** * Exact numbers: literals, printing and arithmetic ([number.rs])

    A number is an exact rational. The arithmetic of rationals and of unbounded
    integers is third-party code ([num_rational], [num_bigint]): [BigRational] is the
    interface the source uses, and [RationalLaws] what it documents. An unbounded
    integer is a [Z]. Text is a list of Unicode code points.

    The literal parser, the fast path for literals that fit a machine word, the
    exponent bound, the display and the operations that may fail are modelled; the
    conversions from and to binary floating point are not. *)
From stdpp Require Import base option list numbers.
From Stdlib Require Import ZArith Lia.
From S2P Require Import Prelude.

Local Open Scope Z_scope.

Definition text := list Z.

(** The code points that literals are made of. *)
Definition ch_0 : Z := 48.
Definition ch_9 : Z := 57.
Definition ch_underscore : Z := 95.
Definition ch_minus : Z := 45.
Definition ch_slash : Z := 47.
Definition ch_dot : Z := 46.

(** Errors, by the message that reports them. *)
Inductive NumberError :=
  | MissingDigits
  | AmbiguousSlashChain (literal : text)
  | DivisionByZero
  | InvalidSeparator (literal : text)
  | InvalidDigit (ch : Z) (literal : text)
  | InvalidLiteral (literal : text)
  | TooManyFractionalDigits (literal : text)
  | InvalidExponent (literal : text)
  | ExponentTooLarge (literal : text).

Definition MAX_DECIMAL_EXPONENT : Z := 100000.

(** ** Characters and splitting *)
Definition is_decimal_digit (ch : Z) : bool := (ch_0 <=? ch) && (ch <=? ch_9).
Definition is_binary_digit (ch : Z) : bool := (ch =? 48) || (ch =? 49).
Definition is_hex_digit (ch : Z) : bool :=
  is_decimal_digit ch || ((65 <=? ch) && (ch <=? 70)) || ((97 <=? ch) && (ch <=? 102)).

(** [str::split] at a character: the parts between its occurrences. *)
Fixpoint split (needle : Z) (t : text) : list text :=
  match t with
  | [] => [[]]
  | ch :: rest =>
      if ch =? needle then [] :: split needle rest
      else match split needle rest with part :: parts => (ch :: part) :: parts | [] => [[ch]] end
  end.

(** [split_once]: the two parts, if there are exactly two *)
Definition split_once (t : text) (needle : Z) : option (text * text) :=
  match split needle t with [before; after] => Some (before, after) | _ => None end.

(** [str::find] for either of two characters, then [split_at] and [&suffix[1..]] *)
Fixpoint split_once_either (t : text) (one other : Z) : option (text * text) :=
  match t with
  | [] => None
  | ch :: rest =>
      if (ch =? one) || (ch =? other) then Some ([], rest)
      else '(prefix, suffix) ← split_once_either rest one other; Some (ch :: prefix, suffix)
  end.

(** [strip_prefix('_')] or [strip_prefix('-')] *)
Definition strip_sign (t : text) : bool * text :=
  match t with
  | ch :: rest => if (ch =? ch_underscore) || (ch =? ch_minus) then (true, rest) else (false, t)
  | [] => (false, t)
  end.

Definition strip_radix (letter capital : Z) (t : text) : option text :=
  match t with
  | zero :: ch :: rest => if (zero =? ch_0) && ((ch =? letter) || (ch =? capital)) then Some rest else None
  | _ => None
  end.

(** The loop of [clean_grouped_digits]: what has been cleaned, whether the last
    character was a separator, and whether any digit was seen. *)
Fixpoint clean_from (is_digit : Z -> bool) (literal t : text) (cleaned : text) (previous_was_underscore saw_digit : bool)
  : outcome NumberError text :=
  match t with
  | [] => if previous_was_underscore then Err (InvalidSeparator literal) else Ok cleaned
  | ch :: rest =>
      if is_digit ch then clean_from is_digit literal rest (cleaned ++ [ch]) false true
      else if ch =? ch_underscore then
        if negb saw_digit || previous_was_underscore then Err (InvalidSeparator literal)
        else clean_from is_digit literal rest cleaned true saw_digit
      else Err (InvalidDigit ch literal)
  end.
Definition clean_grouped_digits (t : text) (is_digit : Z -> bool) : outcome NumberError text :=
  match t with [] => Err MissingDigits | _ => clean_from is_digit t t [] false false end.

(** [machine_word_integer]: the fast path. Its arithmetic on [i64] panics on
    overflow. *)
Definition i64_of (z : Z) : outcome NumberError Z := if (i64_min <=? z) && (z <=? i64_max) then Ok z else Panic.
Fixpoint word_from (t : text) (value digits : Z) (after_digit : bool) : outcome NumberError (option Z) :=
  match t with
  | [] => Ok (if after_digit then Some value else None)
  | ch :: rest =>
      if is_decimal_digit ch then
        if 18 <? digits + 1 then Ok None
        else
          tens ← i64_of (value * 10);
          value ← i64_of (tens + (ch - ch_0));
          word_from rest value (digits + 1) true
      else if (ch =? ch_underscore) && after_digit then word_from rest value digits false
      else Ok None
  end.
Definition machine_word_integer (t : text) : outcome NumberError (option Z) := word_from t 0 0 false.

(** ** Third-party arithmetic *)

(** The value of a digit, and of digits in a radix. *)
Definition digit_value (ch : Z) : Z :=
  if is_decimal_digit ch then ch - 48 else if ch <=? 70 then ch - 55 else ch - 87.
Definition digits_value (radix : Z) (digits : text) : Z := foldl (fun value ch => value * radix + digit_value ch) 0 digits.

(** [BigRational] and the functions of [BigInt] that literals use. *)
Class BigRational (Q : Type) := {
  ratio_new : Z -> Z -> Q;
  from_integer : Z -> Q;
  numer : Q -> Z;
  denom : Q -> Z;
  ratio_neg : Q -> Q;
  ratio_add : Q -> Q -> Q;
  ratio_sub : Q -> Q -> Q;
  ratio_mul : Q -> Q -> Q;
  ratio_div : Q -> Q -> Q;
  parse_bytes : text -> Z -> option Z;
  display_int : Z -> text;
}.

(** A rational and the fraction [n / d] are one number. *)
Definition is_ratio `{BigRational Q} (q : Q) (n d : Z) : Prop := numer q * d = n * denom q.

(** Documented behaviour: a rational is kept in lowest terms with a positive
    denominator, and two with the same terms are equal; the operations are exact;
    [parse_bytes] reads the digits of a radix, and an integer displays as its decimal
    digits, after a minus sign if it is negative. *)
Class RationalLaws Q `{BigRational Q} : Prop := {
  denom_positive q : 0 < denom q;
  lowest_terms q : Z.gcd (numer q) (denom q) = 1;
  same_terms q q' : numer q = numer q' -> denom q = denom q' -> q = q';
  ratio_new_law n d : d <> 0 -> is_ratio (ratio_new n d) n d;
  from_integer_law n : numer (from_integer n) = n /\ denom (from_integer n) = 1;
  ratio_neg_law q : is_ratio (ratio_neg q) (- numer q) (denom q);
  ratio_add_law q r : is_ratio (ratio_add q r) (numer q * denom r + numer r * denom q) (denom q * denom r);
  ratio_sub_law q r : is_ratio (ratio_sub q r) (numer q * denom r - numer r * denom q) (denom q * denom r);
  ratio_mul_law q r : is_ratio (ratio_mul q r) (numer q * numer r) (denom q * denom r);
  ratio_div_law q r : numer r <> 0 -> is_ratio (ratio_div q r) (numer q * denom r) (denom q * numer r);
  parse_bytes_law digits radix is_digit :
    (radix = 10 /\ is_digit = is_decimal_digit \/ radix = 16 /\ is_digit = is_hex_digit \/ radix = 2 /\ is_digit = is_binary_digit) ->
    digits <> [] -> Forall (fun ch => is_digit ch = true) digits -> parse_bytes digits radix = Some (digits_value radix digits);
  display_int_law n : exists digits,
    display_int n = (if n <? 0 then ch_minus :: digits else digits) /\ digits <> [] /\
    Forall (fun ch => is_decimal_digit ch = true) digits /\ digits_value 10 digits = Z.abs n;
}.

(** ** Numbers *)
Section numbers.
Context {Q : Type} `{BigRational Q}.

(** [Number::integer], [from_ratio_i64] *)
Definition number_integer (value : Z) : Q := from_integer value.
Definition from_ratio_i64 (numerator denominator : Z) : option Q :=
  if denominator =? 0 then None else Some (ratio_new numerator denominator).

Definition is_zero (q : Q) : bool := numer q =? 0.
Definition is_integer (q : Q) : bool := denom q =? 1.

(** [to_u8_if_integer], [to_i64_if_integer], [to_u64_if_integer], [to_usize_if_integer],
    [to_ratio_i64] *)
Definition fits (low high z : Z) : option Z := if (low <=? z) && (z <=? high) then Some z else None.
Definition to_u8_if_integer (q : Q) : option Z := if negb (is_integer q) then None else fits 0 255 (numer q).
Definition to_i64_if_integer (q : Q) : option Z := if negb (is_integer q) then None else fits i64_min i64_max (numer q).
Definition to_u64_if_integer (q : Q) : option Z :=
  if negb (is_integer q) || (numer q <? 0) then None else fits 0 u64_max (numer q).
Definition to_usize_if_integer (q : Q) : option Z :=
  if negb (is_integer q) || (numer q <? 0) then None else fits 0 usize_max (numer q).
Definition to_ratio_i64 (q : Q) : option (Z * Z) :=
  n ← fits i64_min i64_max (numer q); d ← fits i64_min i64_max (denom q); Some (n, d).

(** [checked_div], [floor], [checked_mod] *)
Definition checked_div (q r : Q) : option Q := if is_zero r then None else Some (ratio_div q r).
Definition floor (q : Q) : Q := from_integer (numer q / denom q).
Definition checked_mod (q r : Q) : option Q :=
  quotient ← checked_div q r; Some (ratio_sub q (ratio_mul r (floor quotient))).

(** [fmt::Display] *)
Definition display (q : Q) : text :=
  if denom q =? 1 then display_int (numer q) else display_int (numer q) ++ ch_slash :: display_int (denom q).

(** *** Parsing *)
Definition pow10 (exponent : Z) : Z := 10 ^ exponent.

Definition parse_grouped_bigint (t : text) (radix : Z) (is_digit : Z -> bool) : outcome NumberError Z :=
  digits ← clean_grouped_digits t is_digit;
  ok_or (parse_bytes digits radix) (InvalidLiteral t).

(** [str::parse::<u32>] of decimal digits *)
Definition parse_u32 (digits : text) : option Z :=
  let value := digits_value 10 digits in if value <=? u32_max then Some value else None.
Definition parse_exponent (t : text) : outcome NumberError (bool * Z) :=
  let '(negative, rest) := strip_sign t in
  digits ← clean_grouped_digits rest is_decimal_digit;
  magnitude ← ok_or (parse_u32 digits) (InvalidExponent t);
  if MAX_DECIMAL_EXPONENT <? magnitude then Err (ExponentTooLarge t) else Ok (negative, magnitude).

(** [parse_decimal_or_scientific] past the fast path: the mantissa and the exponent,
    the digits and the scale, and the number *)
Definition parse_general (t : text) : outcome NumberError Q :=
  '(mantissa, negative_exponent, exponent) ←
    match split_once_either t 101 69 with
    | Some (mantissa, exponent) => '(negative, magnitude) ← parse_exponent exponent; Ok (mantissa, negative, magnitude)
    | None => Ok (t, false, 0)
    end;
  '(numerator, scale) ←
    match split_once mantissa ch_dot with
    | Some (whole, fractional) =>
        whole ← clean_grouped_digits whole is_decimal_digit;
        fractional ← clean_grouped_digits fractional is_decimal_digit;
        numerator ← ok_or (parse_bytes (whole ++ fractional) 10) (InvalidLiteral t);
        let scale := Z.of_nat (length fractional) in
        if scale <=? u32_max then Ok (numerator, scale) else Err (TooManyFractionalDigits t)
    | None =>
        digits ← clean_grouped_digits mantissa is_decimal_digit;
        numerator ← ok_or (parse_bytes digits 10) (InvalidLiteral t);
        Ok (numerator, 0)
    end;
  if (scale =? 0) && ((exponent =? 0) || negb negative_exponent) then
    Ok (from_integer (if exponent =? 0 then numerator else numerator * pow10 exponent))
  else
    let rational := ratio_new numerator (pow10 scale) in
    if exponent =? 0 then Ok rational
    else
      let factor := from_integer (pow10 exponent) in
      Ok (if negative_exponent then ratio_div rational factor else ratio_mul rational factor).

Definition parse_decimal_or_scientific (t : text) : outcome NumberError Q :=
  word ← machine_word_integer t;
  match word with Some value => Ok (number_integer value) | None => parse_general t end.

(** [Number::parse] *)
Definition count_slashes (t : text) : nat := length (filter (fun ch => ch = ch_slash) t).
Definition parse (t : text) : outcome NumberError Q :=
  let '(negative, rest) := strip_sign t in
  if bool_decide (rest = []) then Err MissingDigits
  else if (1 <? count_slashes rest)%nat then Err (AmbiguousSlashChain t)
  else
    number ←
      match split_once rest ch_slash with
      | Some (numerator, denominator) =>
          numerator ← parse_grouped_bigint numerator 10 is_decimal_digit;
          denominator ← parse_grouped_bigint denominator 10 is_decimal_digit;
          if denominator =? 0 then Err DivisionByZero else Ok (ratio_new numerator denominator)
      | None =>
          match strip_radix 120 88 rest with
          | Some hex => value ← parse_grouped_bigint hex 16 is_hex_digit; Ok (from_integer value)
          | None =>
              match strip_radix 98 66 rest with
              | Some binary => value ← parse_grouped_bigint binary 2 is_binary_digit; Ok (from_integer value)
              | None => parse_decimal_or_scientific rest
              end
          end
      end;
    Ok (if negative then ratio_neg number else number).
End numbers.
