(* ===== verification/NumberFacts.v ===== *)
(** * Literals and numbers

    Cleaning accepts exactly the digits in groups separated by single underscores; the
    fast path of the parser agrees with the general path and never overflows; the
    value of a decimal literal is what it says; and a printed number parses back to
    itself. *)
From Stdlib Require Import ZArith Lia.
From stdpp Require Import base option list numbers.
From S2P Require Import Prelude Numbers.

Local Open Scope Z_scope.

(** ** Digits *)
Definition all_digits (is_digit : Z -> bool) (t : text) : Prop := Forall (fun ch => is_digit ch = true) t.

Lemma decimal_digit_range ch : is_decimal_digit ch = true <-> 48 <= ch <= 57.
Proof. unfold is_decimal_digit, ch_0, ch_9. rewrite andb_true_iff, !Z.leb_le. done. Qed.

Lemma digit_value_decimal ch : is_decimal_digit ch = true -> digit_value ch = ch - 48 /\ 0 <= digit_value ch <= 9.
Proof. intros Hd. unfold digit_value. rewrite Hd. apply decimal_digit_range in Hd. lia. Qed.

Lemma digits_value_snoc radix digits ch : digits_value radix (digits ++ [ch]) = digits_value radix digits * radix + digit_value ch.
Proof. unfold digits_value. by rewrite foldl_snoc. Qed.

Lemma digits_value_bound digits : all_digits is_decimal_digit digits -> 0 <= digits_value 10 digits < 10 ^ Z.of_nat (length digits).
Proof.
  induction digits as [|ch digits IH] using rev_ind; [cbn; lia|]. intros [Hd Hch%Forall_one]%Forall_app.
  rewrite digits_value_snoc, length_app. cbn [length]. rewrite Nat.add_1_r, Nat2Z.inj_succ, Z.pow_succ_r by lia.
  apply digit_value_decimal in Hch as [_ Hch]. specialize (IH Hd). lia.
Qed.

(** ** Splitting *)
Lemma split_none needle t : Forall (fun ch => ch <> needle) t -> split needle t = [t].
Proof.
  induction 1 as [|ch t Hch _ IH]; [done|]. cbn. rewrite (proj2 (Z.eqb_neq _ _) Hch). by rewrite IH.
Qed.

Lemma split_ne needle t : split needle t <> [].
Proof. destruct t as [|ch t]; cbn; [done|]. destruct (ch =? needle); [done|]. by destruct (split needle t). Qed.

Lemma split_app needle t t' : Forall (fun ch => ch <> needle) t -> split needle (t ++ needle :: t') = t :: split needle t'.
Proof.
  induction 1 as [|ch t Hch _ IH]; cbn; [by rewrite Z.eqb_refl|]. rewrite (proj2 (Z.eqb_neq _ _) Hch). by rewrite IH.
Qed.

Lemma split_once_none needle t : Forall (fun ch => ch <> needle) t -> split_once t needle = None.
Proof. intros Hn. unfold split_once. by rewrite split_none. Qed.

Lemma split_once_app needle t t' :
  Forall (fun ch => ch <> needle) t -> Forall (fun ch => ch <> needle) t' -> split_once (t ++ needle :: t') needle = Some (t, t').
Proof. intros Ht Ht'. unfold split_once. by rewrite split_app, split_none. Qed.

Lemma split_either_none one other t :
  Forall (fun ch => ch <> one /\ ch <> other) t -> split_once_either t one other = None.
Proof.
  induction 1 as [|ch t [H1 H2] _ IH]; [done|]. cbn.
  rewrite (proj2 (Z.eqb_neq _ _) H1), (proj2 (Z.eqb_neq _ _) H2). cbn. by rewrite IH.
Qed.

Lemma split_either_app one other t ch t' :
  Forall (fun ch => ch <> one /\ ch <> other) t -> ch = one \/ ch = other ->
  split_once_either (t ++ ch :: t') one other = Some (t, t').
Proof.
  induction 1 as [|c t [H1 H2] _ IH]; intros Hch; cbn.
  - destruct Hch as [->| ->]; rewrite Z.eqb_refl; [done|by rewrite orb_true_r].
  - rewrite (proj2 (Z.eqb_neq _ _) H1), (proj2 (Z.eqb_neq _ _) H2). cbn. by rewrite IH.
Qed.

(** ** Cleaning *)
Section clean.
Context (is_digit : Z -> bool) (not_underscore : is_digit ch_underscore = false).

(** Groups of digits between single underscores. *)
Definition group (part : text) : Prop := part <> [] /\ all_digits is_digit part.
Definition grouped (t : text) : Prop := Forall group (split ch_underscore t).

Lemma group_cons ch part parts :
  Forall group ((ch :: part) :: parts) <-> is_digit ch = true /\ all_digits is_digit part /\ Forall group parts.
Proof. rewrite (list.Forall_cons group). unfold group at 1, all_digits. rewrite list.Forall_cons. naive_solver. Qed.

Lemma digit_not_underscore ch : is_digit ch = true -> ch <> ch_underscore.
Proof. intros Hd ->. by rewrite not_underscore in Hd. Qed.


Lemma split_cons ch t : ch <> ch_underscore -> exists part parts,
  split ch_underscore t = part :: parts /\ split ch_underscore (ch :: t) = (ch :: part) :: parts.
Proof.
  intros Hch. cbn. rewrite (proj2 (Z.eqb_neq _ _) Hch). pose proof (split_ne ch_underscore t).
  destruct (split ch_underscore t) as [|part parts]; [done|]. by exists part, parts.
Qed.

(** Within a group, the loop accepts the rest of the group and further groups; after
    a separator, groups. *)
Lemma clean_from_spec literal t : forall cleaned c,
  (clean_from is_digit literal t cleaned false true = Ok c <->
   (all_digits is_digit (hd [] (split ch_underscore t)) /\ Forall group (tail (split ch_underscore t))) /\
   c = cleaned ++ concat (split ch_underscore t)) /\
  (clean_from is_digit literal t cleaned true true = Ok c <-> grouped t /\ c = cleaned ++ concat (split ch_underscore t)).
Proof.
  induction t as [|ch t IH]; intros cleaned c.
  { cbn. rewrite app_nil_r. split.
    - split; [intros [= <-]; split; [split; constructor|done]|by intros [_ ->]].
    - split; [done|]. intros [Hg _]. inversion Hg as [|? ? [? _]]. done. }
  destruct (decide (ch = ch_underscore)) as [->|Hch].
  - cbn [clean_from split]. rewrite not_underscore, Z.eqb_refl. cbn. split.
    + rewrite (proj2 (IH cleaned c)). split; [intros [Hg ->]; split; [split; [constructor|done]|done]|by intros [[_ Hg] ->]].
    + split; [done|]. intros [Hg _]. unfold grouped in Hg. cbn in Hg. inversion Hg as [|? ? [? _]]. done.
  - destruct (split_cons ch t Hch) as (part & parts & Ep & Ec). unfold grouped. rewrite Ec. cbn [clean_from hd tail concat].
    destruct (is_digit ch) eqn:Ed.
    + destruct (IH (cleaned ++ [ch]) c) as [IHin _]. rewrite IHin, Ep, <- app_assoc. cbn [hd tail concat app]. unfold all_digits. split.
      * rewrite list.Forall_cons. naive_solver.
      * rewrite group_cons. naive_solver.
    + rewrite (proj2 (Z.eqb_neq _ _) Hch). unfold all_digits. split; (split; [done|]).
      * rewrite list.Forall_cons. intros [[[Hd _] _] _]. congruence.
      * rewrite group_cons. intros [[Hd _] _]. congruence.
Qed.

(** Cleaning accepts exactly the groups of digits, and keeps the digits. *)
Lemma clean_grouped_digits_spec t c :
  clean_grouped_digits t is_digit = Ok c <-> grouped t /\ c = concat (split ch_underscore t).
Proof.
  unfold clean_grouped_digits. destruct t as [|ch t].
  { split; [done|]. intros [Hg _]. inversion Hg as [|? ? [? _]]. done. }
  generalize (ch :: t) at 1 as literal. intros literal. cbn [clean_from].
  destruct (decide (ch = ch_underscore)) as [->|Hch].
  - rewrite not_underscore, Z.eqb_refl. cbn. split; [done|]. intros [Hg _]. inversion Hg as [|? ? [? _]]. done.
  - destruct (split_cons ch t Hch) as (part & parts & Ep & Ec). unfold grouped. rewrite Ec. cbn [concat].
    destruct (is_digit ch) eqn:Ed.
    + destruct (clean_from_spec literal t ([] ++ [ch]) c) as [IHin _]. rewrite IHin, Ep. cbn [hd tail concat app].
      rewrite group_cons. naive_solver.
    + rewrite (proj2 (Z.eqb_neq _ _) Hch). split; [done|]. rewrite group_cons. intros [[Hd _] _]. congruence.
Qed.

Lemma grouped_concat t : grouped t -> concat (split ch_underscore t) <> [] /\ all_digits is_digit (concat (split ch_underscore t)).
Proof.
  unfold grouped. intros Hg. split.
  - pose proof (split_ne ch_underscore t). destruct Hg as [|part parts [Hp _] _]; [done|]. cbn. by destruct part.
  - induction Hg as [|part parts [_ Hp] _ IH]; [constructor|]. cbn. by apply Forall_app.
Qed.

(** Plain digits are a group. *)
Lemma clean_digits t : t <> [] -> all_digits is_digit t -> clean_grouped_digits t is_digit = Ok t.
Proof.
  intros Hne Hd. apply clean_grouped_digits_spec. unfold grouped. rewrite split_none.
  - cbn. rewrite app_nil_r. split; [by repeat constructor|done].
  - eapply list.Forall_impl; [exact Hd|]. cbn. intros ch. apply digit_not_underscore.
Qed.

(** What is cleaned is made of digits and separators. *)
Lemma group_chars t :
  all_digits is_digit (hd [] (split ch_underscore t)) -> Forall group (tail (split ch_underscore t)) ->
  Forall (fun ch => is_digit ch = true \/ ch = ch_underscore) t.
Proof.
  induction t as [|ch t IH]; [constructor|]. destruct (decide (ch = ch_underscore)) as [->|Hch].
  - cbn. intros _ Hg. constructor; [by right|]. pose proof (split_ne ch_underscore t).
    destruct (split ch_underscore t) as [|part parts]; [done|]. inversion Hg as [|? ? [_ Hp] Hps]. by apply IH.
  - destruct (split_cons ch t Hch) as (part & parts & Ep & Ec). rewrite Ec. rewrite Ep in IH. cbn in *.
    intros Hd Hg. inversion Hd. constructor; [by left|by apply IH].
Qed.

Lemma grouped_chars t : grouped t -> Forall (fun ch => is_digit ch = true \/ ch = ch_underscore) t.
Proof.
  intros Hg. apply group_chars; unfold grouped in Hg; destruct Hg as [|part parts [_ Hp] Hps]; try done; constructor.
Qed.
End clean.

Lemma decimal_not_underscore : is_decimal_digit ch_underscore = false.
Proof. done. Qed.
Notation decimal_grouped := (grouped is_decimal_digit).

(** What a decimal part may hold separates it from every other character. *)
Lemma decimal_grouped_avoids t : decimal_grouped t ->
  Forall (fun ch => ch <> ch_dot) t /\ Forall (fun ch => ch <> 101 /\ ch <> 69) t /\ Forall (fun ch => ch <> ch_slash) t.
Proof.
  intros Hg%(grouped_chars is_decimal_digit). repeat split; (eapply list.Forall_impl; [exact Hg|]); cbn; intros ch;
    rewrite decimal_digit_range; unfold ch_dot, ch_slash, ch_underscore; lia.
Qed.

(** ** The fast path *)
Lemma i64_of_fits z : 0 <= z < 10 ^ 18 -> i64_of z = Ok z.
Proof.
  intros Hz. unfold i64_of, i64_min, i64_max. destruct ((- 2 ^ 63 <=? z) && (z <=? 2 ^ 63 - 1)) eqn:E; [done|].
  apply andb_false_iff in E as [E|E]; apply Z.leb_gt in E; lia.
Qed.

Lemma word_from_correct literal t : forall value digits after_digit saw cleaned,
  0 <= value < 10 ^ digits -> 0 <= digits <= 18 -> value = digits_value 10 cleaned -> (after_digit = true -> saw = true) ->
  exists word, word_from t value digits after_digit = Ok word /\
    forall w, word = Some w -> 0 <= w < 10 ^ 18 /\
      exists c, clean_from is_decimal_digit literal t cleaned (saw && negb after_digit) saw = Ok c /\ digits_value 10 c = w.
Proof.
  induction t as [|ch t IH]; intros value digits after_digit saw cleaned Hv Hd Ev Hs; cbn [word_from clean_from].
  - eexists. split; [done|]. destruct after_digit; [|done]. intros w [= <-].
    assert (10 ^ digits <= 10 ^ 18) by (apply Z.pow_le_mono_r; lia). split; [lia|].
    rewrite (Hs eq_refl). by exists cleaned.
  - destruct (is_decimal_digit ch) eqn:Ed.
    + destruct (18 <? digits + 1) eqn:E18; [by eexists|]. apply Z.ltb_ge in E18.
      pose proof (digit_value_decimal ch Ed) as [Edv Hdv]. unfold ch_0.
      assert (Hpow : 10 ^ (digits + 1) = 10 ^ digits * 10) by (rewrite Z.pow_add_r by lia; lia).
      assert (10 ^ (digits + 1) <= 10 ^ 18) by (apply Z.pow_le_mono_r; lia).
      rewrite i64_of_fits by lia. cbn [mbind outcome_bind]. rewrite i64_of_fits by lia. cbn [mbind outcome_bind].
      destruct (IH (value * 10 + (ch - 48)) (digits + 1) true true (cleaned ++ [ch])) as (word & Ew & Hw);
        [lia|lia|by rewrite digits_value_snoc, <- Ev, Edv|done|].
      exists word. split; [done|]. intros w Hsome. destruct (Hw w Hsome) as (Hb & c & Ec & Evc).
      split; [done|]. by exists c.
    + destruct ((ch =? ch_underscore) && after_digit) eqn:Eu; [|by eexists]. apply andb_true_iff in Eu as [Eu ->].
      rewrite Eu. rewrite (Hs eq_refl). cbn [negb andb orb].
      destruct (IH value digits false true cleaned) as (word & Ew & Hw); [done|done|done|done|].
      exists word. split; [done|]. intros w Hsome. destruct (Hw w Hsome) as (Hb & c & Ec & Evc).
      split; [done|]. by exists c.
Qed.

(** The word of a literal is the value of its digits. *)
Lemma machine_word_correct t :
  exists word, machine_word_integer t = Ok word /\
    forall w, word = Some w -> 0 <= w < 10 ^ 18 /\ decimal_grouped t /\
      exists c, clean_grouped_digits t is_decimal_digit = Ok c /\ digits_value 10 c = w.
Proof.
  destruct (word_from_correct t t 0 0 false false []) as (word & Ew & Hw); [cbn; lia|lia|done|done|].
  exists word. split; [done|]. intros w Hsome. destruct (Hw w Hsome) as (Hb & c & Ec & Evc). split; [done|].
  assert (Hc : clean_grouped_digits t is_decimal_digit = Ok c).
  { unfold clean_grouped_digits. destruct t as [|ch t]; [|done]. cbn in Ew. congruence. }
  split; [|by exists c]. by apply (clean_grouped_digits_spec is_decimal_digit decimal_not_underscore) in Hc as [Hg _].
Qed.

Section values.
Context {Q : Type} `{RationalLaws Q}.

Lemma from_integer_ratio n : is_ratio (from_integer (Q := Q) n) n 1.
Proof. destruct (from_integer_law n) as [En Ed]. unfold is_ratio. rewrite En, Ed. lia. Qed.

(** Two numbers that are one fraction are equal. *)
Lemma is_ratio_unique (q r : Q) n d : d <> 0 -> is_ratio q n d -> is_ratio r n d -> q = r.
Proof.
  unfold is_ratio. intros Hd Hq Hr.
  pose proof (denom_positive q) as Pq. pose proof (denom_positive r) as Pr.
  assert (Hcross : numer q * denom r = numer r * denom q).
  { apply (Z.mul_reg_r _ _ d Hd). nia. }
  assert (Hdiv : (denom q | denom r) /\ (denom r | denom q)).
  { split.
    - apply (Z.gauss _ (numer q)); [exists (numer r); lia|]. rewrite Z.gcd_comm. apply lowest_terms.
    - apply (Z.gauss _ (numer r)); [exists (numer q); lia|]. rewrite Z.gcd_comm. apply lowest_terms. }
  assert (Ed : denom q = denom r).
  { destruct Hdiv as [H1%Z.divide_pos_le H2%Z.divide_pos_le]; lia. }
  apply same_terms; [|done]. rewrite Ed in Hcross. nia.
Qed.

Lemma parse_bytes_decimal digits : digits <> [] -> all_digits is_decimal_digit digits -> parse_bytes digits 10 = Some (digits_value 10 digits).
Proof. intros Hne Hd. apply (parse_bytes_law digits 10 is_decimal_digit); [by left|done|done]. Qed.

Lemma parse_grouped_decimal t c :
  clean_grouped_digits t is_decimal_digit = Ok c -> parse_grouped_bigint t 10 is_decimal_digit = Ok (digits_value 10 c).
Proof.
  intros Hc. unfold parse_grouped_bigint. rewrite Hc. cbn.
  apply (clean_grouped_digits_spec is_decimal_digit decimal_not_underscore) in Hc as [Hg ->].
  apply grouped_concat in Hg as [Hne Hd]. by rewrite parse_bytes_decimal.
Qed.

(** Plain groups of digits parse to their value on the general path. *)
Lemma parse_general_integer t c :
  decimal_grouped t -> clean_grouped_digits t is_decimal_digit = Ok c -> parse_general (Q := Q) t = Ok (from_integer (digits_value 10 c)).
Proof.
  intros Hg Hc. destruct (decimal_grouped_avoids t Hg) as (Hdot & He & _). unfold parse_general.
  rewrite split_either_none by done. cbn [mbind outcome_bind]. rewrite split_once_none by done. rewrite Hc. cbn [mbind outcome_bind].
  apply (clean_grouped_digits_spec is_decimal_digit decimal_not_underscore) in Hc as [_ ->].
  apply grouped_concat in Hg as [Hne Hd]. by rewrite parse_bytes_decimal.
Qed.

(** The fast path never overflows, and changes nothing. *)
Lemma parse_decimal_general t : parse_decimal_or_scientific (Q := Q) t = parse_general t.
Proof.
  unfold parse_decimal_or_scientific. destruct (machine_word_correct t) as (word & -> & Hw). cbn.
  destruct word as [w|]; [|done]. destruct (Hw w eq_refl) as (_ & Hg & c & Hc & <-). by rewrite (parse_general_integer t c).
Qed.

(** ** The value of a decimal literal *)
Lemma ratio_scale q (n d k : Z) : k <> 0 -> is_ratio (Q := Q) q (n * k) (d * k) <-> is_ratio q n d.
Proof. unfold is_ratio. intros Hk. split; nia. Qed.

(** A literal of a whole part, perhaps a fraction after a point, and perhaps an
    exponent after either letter. *)
Definition fraction_text (fraction : option text) : text := match fraction with Some f => ch_dot :: f | None => [] end.
Definition exponent_text (exponent : option (bool * text)) : text :=
  match exponent with Some (capital, e) => (if capital : bool then 69 else 101) :: e | None => [] end.
Definition literal (whole : text) (fraction : option text) (exponent : option (bool * text)) : text :=
  (whole ++ fraction_text fraction) ++ exponent_text exponent.

(** The digits of the fraction, and the sign and magnitude of the exponent. *)
Definition fraction_digits (fraction : option text) : outcome NumberError text :=
  match fraction with Some f => clean_grouped_digits f is_decimal_digit | None => Ok [] end.
Definition exponent_parts (exponent : option (bool * text)) : outcome NumberError (bool * Z) :=
  match exponent with Some (_, e) => parse_exponent e | None => Ok (false, 0) end.

Lemma clean_decimal t c : clean_grouped_digits t is_decimal_digit = Ok c ->
  decimal_grouped t /\ c <> [] /\ all_digits is_decimal_digit c.
Proof.
  intros Hc. apply (clean_grouped_digits_spec is_decimal_digit decimal_not_underscore) in Hc as [Hg ->].
  split; [done|]. by apply grouped_concat.
Qed.

Lemma exponent_parsed e negative magnitude : parse_exponent e = Ok (negative, magnitude) ->
  0 <= magnitude /\ exists digits, clean_grouped_digits (strip_sign e).2 is_decimal_digit = Ok digits.
Proof.
  unfold parse_exponent. destruct (strip_sign e) as [neg rest]. intros (digits & Hd & Hexp)%bind_Ok.
  apply bind_Ok in Hexp as (m & Hm & Hexp). split; [|by exists digits]. destruct (MAX_DECIMAL_EXPONENT <? m); [done|].
  injection Hexp as _ <-. unfold parse_u32 in Hm. destruct (_ <=? u32_max); [|done]. injection Hm as <-.
  apply clean_decimal in Hd as (_ & _ & Hd). by apply digits_value_bound in Hd as [? _].
Qed.

Lemma exponent_nonneg exponent negative magnitude : exponent_parts exponent = Ok (negative, magnitude) -> 0 <= magnitude.
Proof. destruct exponent as [[capital e]|]; cbn; [intros H1; apply (exponent_parsed _ _ _ H1)|by intros [= _ <-]]. Qed.

(** The mantissa of a literal, as the general path splits and reads it. *)
Lemma mantissa_avoids whole fraction w f : clean_grouped_digits whole is_decimal_digit = Ok w -> fraction_digits fraction = Ok f ->
  Forall (fun ch => ch <> 101 /\ ch <> 69) (whole ++ fraction_text fraction).
Proof.
  intros (Hw & _)%clean_decimal Hf. apply Forall_app. split; [by apply decimal_grouped_avoids|].
  destruct fraction as [t|]; [|constructor]. constructor; [done|]. apply clean_decimal in Hf as (Hf & _). by apply decimal_grouped_avoids.
Qed.

Lemma mantissa_read whole fraction w f t : clean_grouped_digits whole is_decimal_digit = Ok w -> fraction_digits fraction = Ok f ->
  Z.of_nat (length f) <= u32_max ->
  match split_once (whole ++ fraction_text fraction) ch_dot with
  | Some (whole, fractional) =>
      whole ← clean_grouped_digits whole is_decimal_digit;
      fractional ← clean_grouped_digits fractional is_decimal_digit;
      numerator ← ok_or (parse_bytes (Q := Q) (whole ++ fractional) 10) (InvalidLiteral t);
      let scale := Z.of_nat (length fractional) in
      if scale <=? u32_max then Ok (numerator, scale) else Err (TooManyFractionalDigits t)
  | None =>
      digits ← clean_grouped_digits (whole ++ fraction_text fraction) is_decimal_digit;
      numerator ← ok_or (parse_bytes (Q := Q) digits 10) (InvalidLiteral t);
      Ok (numerator, 0)
  end = Ok (digits_value 10 (w ++ f), Z.of_nat (length f)).
Proof.
  intros Hw Hf Hlen. pose proof (clean_decimal _ _ Hw) as (Hgw & Hnew & Hdw). destruct (decimal_grouped_avoids whole Hgw) as (Hwd & _).
  destruct fraction as [t'|]; cbn [fraction_text fraction_digits] in *.
  - pose proof (clean_decimal _ _ Hf) as (Hgf & Hnef & Hdf). destruct (decimal_grouped_avoids t' Hgf) as (Hfd & _).
    rewrite split_once_app by done. rewrite Hw, Hf. cbn [mbind outcome_bind].
    rewrite parse_bytes_decimal; [|by destruct w|by apply Forall_app]. cbn [ok_or mbind outcome_bind].
    by rewrite (proj2 (Z.leb_le _ _) Hlen).
  - injection Hf as <-. rewrite !app_nil_r, split_once_none, Hw by done. cbn [mbind outcome_bind]. by rewrite parse_bytes_decimal.
Qed.

Lemma exponent_read (mantissa : text) exponent negative magnitude : Forall (fun ch => ch <> 101 /\ ch <> 69) mantissa ->
  exponent_parts exponent = Ok (negative, magnitude) ->
  (match split_once_either (mantissa ++ exponent_text exponent) 101 69 with
   | Some (mantissa, exponent) => '(negative, magnitude) ← parse_exponent exponent; Ok (mantissa, negative, magnitude)
   | None => Ok (mantissa ++ exponent_text exponent, false, 0)
   end : outcome NumberError (text * bool * Z)) = Ok (mantissa, negative, magnitude).
Proof.
  intros Hm He. destruct exponent as [[capital e]|]; cbn [exponent_text exponent_parts] in *.
  - rewrite split_either_app by (done || destruct capital; auto). by rewrite He.
  - injection He as <- <-. by rewrite app_nil_r, split_either_none.
Qed.

(** Scaling a number by a power of ten, either way. *)
Lemma scaled_ratio (a : Q) n d magnitude (negative : bool) : d <> 0 -> 0 <= magnitude -> is_ratio a n d ->
  is_ratio (if negative then ratio_div a (from_integer (pow10 magnitude)) else ratio_mul a (from_integer (pow10 magnitude)))
    (n * (if negative then 1 else 10 ^ magnitude)) (d * (if negative then 10 ^ magnitude else 1)).
Proof.
  unfold is_ratio, pow10. intros Hd Hm Ha. assert (HM : 10 ^ magnitude <> 0) by (apply Z.pow_nonzero; lia).
  destruct (from_integer_law (Q := Q) (10 ^ magnitude)) as [En Ed]. pose proof (denom_positive a). destruct negative.
  - pose proof (ratio_div_law a (from_integer (10 ^ magnitude)) ltac:(by rewrite En)) as Hr.
    unfold is_ratio in Hr. rewrite En, Ed in Hr. apply (Z.mul_reg_r _ _ (denom a)); [lia|]. rewrite !Z.mul_1_r in *.
    transitivity (numer (ratio_div a (from_integer (10 ^ magnitude))) * (denom a * 10 ^ magnitude) * d); [ring|]. rewrite Hr.
    transitivity (numer a * d * denom (ratio_div a (from_integer (10 ^ magnitude)))); [ring|]. rewrite Ha. ring.
  - pose proof (ratio_mul_law a (from_integer (10 ^ magnitude))) as Hr.
    unfold is_ratio in Hr. rewrite En, Ed in Hr. apply (Z.mul_reg_r _ _ (denom a)); [lia|]. rewrite !Z.mul_1_r in *.
    transitivity (numer (ratio_mul a (from_integer (10 ^ magnitude))) * denom a * d); [ring|]. rewrite Hr.
    transitivity (numer a * d * 10 ^ magnitude * denom (ratio_mul a (from_integer (10 ^ magnitude)))); [ring|]. rewrite Ha. ring.
Qed.

(** The first read of a bind succeeds. *)
Ltac read_with H :=
  lazymatch goal with
  | |- context [mbind _ ?m] => first [rewrite (H : m = _) | rewrite (H _ : m = _)]
  end; cbn [mbind outcome_bind].

Lemma parse_general_literal whole fraction exponent w f negative magnitude :
  clean_grouped_digits whole is_decimal_digit = Ok w -> fraction_digits fraction = Ok f -> Z.of_nat (length f) <= u32_max ->
  exponent_parts exponent = Ok (negative, magnitude) ->
  exists q : Q, parse_general (literal whole fraction exponent) = Ok q /\
    is_ratio q (digits_value 10 (w ++ f) * (if negative then 1 else 10 ^ magnitude))
      (10 ^ Z.of_nat (length f) * (if negative then 10 ^ magnitude else 1)).
Proof.
  intros Hw Hf Hlen Hexp. pose proof (exponent_nonneg _ _ _ Hexp) as Hmag. unfold parse_general, literal.
  read_with (exponent_read _ _ _ _ (mantissa_avoids _ _ _ _ Hw Hf) Hexp).
  read_with (fun t => mantissa_read _ _ _ _ t Hw Hf Hlen).
  set (n := digits_value 10 (w ++ f)). set (scale := Z.of_nat (length f)).
  destruct ((scale =? 0) && ((magnitude =? 0) || negb negative)) eqn:Eint.
  - apply andb_true_iff in Eint as [->%Z.eqb_eq Eint]. eexists. split; [done|].
    assert (Hsame : (if magnitude =? 0 then n else n * pow10 magnitude) = n * (if negative then 1 else 10 ^ magnitude)
      /\ (if negative then 10 ^ magnitude else 1) = 1).
    { destruct (Z.eqb_spec magnitude 0) as [->|]; [by destruct negative; cbn; lia|]. by destruct negative. }
    destruct Hsame as [-> ->]. apply from_integer_ratio.
  - assert (HS : 10 ^ scale <> 0) by (apply Z.pow_nonzero; lia). pose proof (ratio_new_law (Q := Q) n (10 ^ scale) HS) as Hnew.
    destruct (Z.eqb_spec magnitude 0) as [->|Hne].
    + eexists. split; [done|]. destruct negative; rewrite Z.pow_0_r, !Z.mul_1_r; exact Hnew.
    + eexists. split; [done|]. by apply scaled_ratio.
Qed.

(** *** Literals are not fractions or of another radix *)
Definition literal_char (ch : Z) : Prop := is_decimal_digit ch = true \/ ch ∈ [ch_underscore; ch_minus; ch_dot; 101; 69].

Lemma literal_char_avoids ch : literal_char ch -> ch <> ch_slash /\ ch <> 120 /\ ch <> 88 /\ ch <> 98 /\ ch <> 66.
Proof.
  unfold literal_char. rewrite decimal_digit_range, !elem_of_cons, elem_of_nil. unfold ch_underscore, ch_minus, ch_dot, ch_slash. lia.
Qed.

Lemma grouped_literal t : decimal_grouped t -> Forall literal_char t.
Proof.
  intros Hg%(grouped_chars is_decimal_digit). eapply list.Forall_impl; [exact Hg|]. cbn. intros ch [Hd| ->]; [by left|]. right. by left.
Qed.

Lemma literal_chars whole fraction exponent w f negative magnitude :
  clean_grouped_digits whole is_decimal_digit = Ok w -> fraction_digits fraction = Ok f ->
  exponent_parts exponent = Ok (negative, magnitude) -> Forall literal_char (literal whole fraction exponent).
Proof.
  intros (Hw & _)%clean_decimal Hf He. unfold literal. repeat (apply Forall_app; split).
  - by apply grouped_literal.
  - destruct fraction as [t|]; [|constructor]. apply clean_decimal in Hf as (Hf & _).
    constructor; [right; repeat constructor|by apply grouped_literal].
  - destruct exponent as [[capital e]|]; [|constructor]. constructor; [right; destruct capital; repeat constructor|].
    apply exponent_parsed in He as (_ & digits & Hd). apply clean_decimal in Hd as (Hd%grouped_literal & _).
    unfold strip_sign in Hd. destruct e as [|ch e]; [constructor|]. destruct ((ch =? ch_underscore) || (ch =? ch_minus)) eqn:Es; [|done].
    constructor; [|done]. right. apply orb_true_iff in Es as [->%Z.eqb_eq| ->%Z.eqb_eq]; repeat constructor.
Qed.

Lemma grouped_head t : decimal_grouped t -> exists ch rest, t = ch :: rest /\ is_decimal_digit ch = true.
Proof.
  unfold grouped. intros Hg. destruct t as [|ch t]; [by inversion Hg as [|? ? [? _]]|]. exists ch, t. split; [done|].
  destruct (decide (ch = ch_underscore)) as [->|Hch]; [by cbn in Hg; inversion Hg as [|? ? [? _]]|].
  destruct (split_cons ch t Hch) as (part & parts & _ & Ec). rewrite Ec in Hg. by apply group_cons in Hg as [Hd _].
Qed.

Lemma no_slashes t : Forall (fun ch => ch <> ch_slash) t -> count_slashes t = 0%nat.
Proof.
  unfold count_slashes. induction 1 as [|ch t Hch _ IH]; [done|]. unfold filter in *. cbn. by rewrite decide_False.
Qed.

(** The sign apart, text of these characters is read by the decimal parser. *)
Lemma parse_unsigned source negative t (q : Q) : strip_sign source = (negative, t) -> t <> [] -> Forall literal_char t ->
  parse_decimal_or_scientific t = Ok q -> parse source = Ok (if negative then ratio_neg q else q).
Proof.
  intros Hsign Hne Hc Hq. unfold parse. rewrite Hsign.
  assert (Havoid : forall bad, (forall ch, literal_char ch -> ch <> bad) -> Forall (fun ch => ch <> bad) t).
  { intros bad Hbad. by eapply list.Forall_impl; [exact Hc|]. }
  assert (Hslash : Forall (fun ch => ch <> ch_slash) t) by (apply Havoid; intros ch Hch; by apply literal_char_avoids).
  rewrite bool_decide_eq_false_2, no_slashes, split_once_none by done. cbn [Nat.ltb Nat.leb].
  assert (Hradix : forall letter capital, (forall ch, literal_char ch -> ch <> letter /\ ch <> capital) -> strip_radix letter capital t = None).
  { intros letter capital Hl. destruct Hc as [|zero t' _ Hc]; [done|]. destruct Hc as [|ch t' Hch _]; [done|].
    destruct (Hl ch Hch) as [H1 H2]. cbn. rewrite (proj2 (Z.eqb_neq _ _) H1), (proj2 (Z.eqb_neq _ _) H2). by rewrite andb_false_r. }
  rewrite !Hradix by (intros ch Hch; pose proof (literal_char_avoids ch Hch); tauto). by rewrite Hq.
Qed.

(** ** Printing and parsing *)
Lemma strip_sign_digits t rest : t <> [] -> all_digits is_decimal_digit t -> strip_sign (t ++ rest) = (false, t ++ rest).
Proof.
  intros Hne Hd. destruct Hd as [|ch t Hch _]; [done|]. cbn. apply decimal_digit_range in Hch.
  unfold ch_underscore, ch_minus. by rewrite !(proj2 (Z.eqb_neq _ _)) by lia.
Qed.

Lemma strip_radix_digits letter capital t : 57 < letter -> 57 < capital -> all_digits is_decimal_digit t -> strip_radix letter capital t = None.
Proof.
  intros Hl Hc Hd. destruct Hd as [|ch t Hch Hd]; [done|]. destruct Hd as [|ch' t Hch' _]; [done|]. cbn.
  apply decimal_digit_range in Hch'. rewrite !(proj2 (Z.eqb_neq ch' _)) by lia. by rewrite andb_false_r.
Qed.

Lemma count_slashes_cons ch t : count_slashes (ch :: t) = if decide (ch = ch_slash) then S (count_slashes t) else count_slashes t.
Proof. unfold count_slashes, filter. cbn. by destruct (decide _). Qed.

Lemma count_slashes_digits t : all_digits is_decimal_digit t -> count_slashes t = 0%nat.
Proof.
  induction 1 as [|ch t Hch _ IH]; [done|]. rewrite count_slashes_cons, decide_False; [done|].
  apply decimal_digit_range in Hch. unfold ch_slash. lia.
Qed.

Lemma count_slashes_app t t' : count_slashes (t ++ ch_slash :: t') = (count_slashes t + S (count_slashes t'))%nat.
Proof.
  induction t as [|ch t IH]; cbn [app]; rewrite !count_slashes_cons; [by rewrite decide_True|].
  rewrite IH. by destruct (decide _).
Qed.

Lemma digits_avoid_slash t : all_digits is_decimal_digit t -> Forall (fun ch => ch <> ch_slash) t.
Proof. intros Hd. eapply list.Forall_impl; [exact Hd|]. cbn. intros ch. rewrite decimal_digit_range. unfold ch_slash. lia. Qed.

(** C40. [decimal_literals_correct]: on any text the fast path for literals that fit a
    machine word never overflows its word and gives what the general path gives. And a
    decimal literal of a whole part, an optional fraction of at most [2 ^ 32 - 1]
    digits and an optional exponent within the bound, after either letter, parses to
    the number of its digits, read without the point, times ten to the exponent less
    the number of fractional digits; after a sign, to its negation. *)
Theorem decimal_literals_correct t whole fraction exponent w f (negative : bool) magnitude :
  ((exists word, machine_word_integer t = Ok word) /\ parse_decimal_or_scientific (Q := Q) t = parse_general t) /\
  (clean_grouped_digits whole is_decimal_digit = Ok w -> fraction_digits fraction = Ok f ->
   Z.of_nat (length f) <= u32_max -> exponent_parts exponent = Ok (negative, magnitude) ->
   exists q : Q, parse (literal whole fraction exponent) = Ok q /\
     is_ratio q (digits_value 10 (w ++ f) * (if negative then 1 else 10 ^ magnitude))
       (10 ^ Z.of_nat (length f) * (if negative then 10 ^ magnitude else 1)) /\
     forall sign, sign = ch_minus \/ sign = ch_underscore -> parse (sign :: literal whole fraction exponent) = Ok (ratio_neg q)).
Proof.
  split; [split; [|apply parse_decimal_general]|].
  { destruct (machine_word_correct t) as (word & Hword & _). by exists word. }
  intros Hw Hf Hlen Hexp. destruct (parse_general_literal whole fraction exponent w f negative magnitude Hw Hf Hlen Hexp) as (q & Hq & Hv).
  rewrite <- parse_decimal_general in Hq. pose proof (literal_chars _ _ _ _ _ _ _ Hw Hf Hexp) as Hchars.
  pose proof (clean_decimal _ _ Hw) as (Hg & _). apply grouped_head in Hg as (ch & rest & Ewhole & Hch).
  assert (Hlit : literal whole fraction exponent = ch :: ((rest ++ fraction_text fraction) ++ exponent_text exponent)) by (unfold literal; by rewrite Ewhole).
  assert (Hne : literal whole fraction exponent <> []) by (by rewrite Hlit).
  exists q. split; [|split; [done|]].
  - refine (parse_unsigned _ false _ q _ Hne Hchars Hq). rewrite Hlit. apply (strip_sign_digits [ch]); [done|by constructor].
  - intros sign Hs. refine (parse_unsigned _ true _ q _ Hne Hchars Hq). by destruct Hs as [->| ->].
Qed.

Lemma negated_ratio (q r : Q) n d : d <> 0 -> is_ratio r n d -> is_ratio q (- n) d -> ratio_neg r = q.
Proof.
  intros Hd Hr Hq. eapply (is_ratio_unique _ _ (- n) d Hd); [|done]. pose proof (ratio_neg_law r) as Hn.
  pose proof (denom_positive r). pose proof (denom_positive (ratio_neg r)). unfold is_ratio in *.
  apply (Z.mul_reg_r _ _ (denom r)); [lia|]. nia.
Qed.

Lemma integer_ratio (q : Q) : denom q = 1 -> is_ratio q (numer q) 1.
Proof. intros E. unfold is_ratio. rewrite E. lia. Qed.

(** The sign apart, a number prints as its absolute value. *)
Lemma parse_signed (q : Q) digits rest :
  display q = (if numer q <? 0 then ch_minus :: digits else digits) ++ rest ->
  digits <> [] -> all_digits is_decimal_digit digits -> strip_sign (display q) = (numer q <? 0, digits ++ rest).
Proof.
  intros -> Hne Hd. destruct (numer q <? 0); [done|]. by apply strip_sign_digits.
Qed.

(** C39. [number_roundtrip]: every number, however large, prints as text that parses back
    to it. *)
Theorem number_roundtrip (q : Q) : parse (display q) = Ok q.
Proof.
  destruct (display_int_law (Q := Q) (numer q)) as (digits & En & Hne & Hd & Hv).
  pose proof (denom_positive q) as Hpos.
  destruct (denom q =? 1) eqn:Ed.
  - apply Z.eqb_eq in Ed.
    assert (Edis : display q = (if numer q <? 0 then ch_minus :: digits else digits) ++ []).
    { unfold display. rewrite Ed, app_nil_r. exact En. }
    unfold parse. rewrite (parse_signed q digits [] Edis Hne Hd), app_nil_r.
    rewrite bool_decide_eq_false_2, count_slashes_digits by done. cbn [Nat.ltb Nat.leb].
    rewrite split_once_none by (by apply digits_avoid_slash). rewrite !strip_radix_digits by (done || lia).
    rewrite parse_decimal_general.
    pose proof (clean_digits is_decimal_digit decimal_not_underscore digits Hne Hd) as Hc.
    rewrite (parse_general_integer digits digits) by (done || exact (proj1 (proj1 (clean_grouped_digits_spec is_decimal_digit decimal_not_underscore _ _) Hc))).
    rewrite Hv. cbn [mbind outcome_bind]. f_equal. pose proof (integer_ratio q Ed) as Hq.
    pose proof (from_integer_ratio (Z.abs (numer q))) as Hi. destruct (Z.ltb_spec (numer q) 0) as [Hneg|Hneg].
    + eapply negated_ratio; [|exact Hi|]; [done|]. by rewrite Z.abs_neq, Z.opp_involutive by lia.
    + rewrite Z.abs_eq in * by lia. by apply (is_ratio_unique _ _ (numer q) 1).
  - apply Z.eqb_neq in Ed.
    destruct (display_int_law (Q := Q) (denom q)) as (digits' & En' & Hne' & Hd' & Hv').
    rewrite (proj2 (Z.ltb_ge _ _)) in En' by lia. rewrite Z.abs_eq in Hv' by lia.
    assert (Edis : display q = (if numer q <? 0 then ch_minus :: digits else digits) ++ ch_slash :: digits').
    { unfold display. rewrite (proj2 (Z.eqb_neq _ _) Ed). by rewrite En, En'. }
    unfold parse. rewrite (parse_signed q digits _ Edis Hne Hd).
    rewrite bool_decide_eq_false_2 by (by destruct digits).
    assert (Ec : count_slashes (digits ++ ch_slash :: digits') = 1%nat).
    { by rewrite count_slashes_app, !count_slashes_digits. }
    rewrite Ec. cbn [Nat.ltb Nat.leb]. rewrite split_once_app by (by apply digits_avoid_slash).
    rewrite (parse_grouped_decimal digits digits) by (by apply clean_digits).
    rewrite (parse_grouped_decimal digits' digits') by (by apply clean_digits). cbn [mbind outcome_bind].
    rewrite Hv, Hv'. rewrite (proj2 (Z.eqb_neq _ _)) by lia. cbn [mbind outcome_bind]. f_equal.
    assert (Hn0 : denom q <> 0) by lia. pose proof (ratio_new_law (Q := Q) (Z.abs (numer q)) (denom q) Hn0) as Hi.
    destruct (Z.ltb_spec (numer q) 0) as [Hneg|Hneg].
    + eapply negated_ratio; [exact Hn0|exact Hi|]. unfold is_ratio. rewrite Z.abs_neq by lia. lia.
    + eapply (is_ratio_unique _ _ _ _ Hn0 Hi). unfold is_ratio. rewrite Z.abs_eq by lia. lia.
Qed.

(** ** Division with remainder *)
(** [checked_mod_correct]: a remainder exists unless the divisor is zero; it differs
    from the dividend by a whole multiple of the divisor, has the divisor's sign, and
    is smaller than it. *)
Theorem checked_mod_correct (q r : Q) :
  (checked_mod q r = None <-> numer r = 0) /\
  forall m, checked_mod q r = Some m ->
    exists k, numer q * denom r * denom m = (k * numer r * denom m + numer m * denom r) * denom q /\
      0 <= numer m * numer r /\ Z.abs (numer m) * denom r < Z.abs (numer r) * denom m.
Proof.
  unfold checked_mod, checked_div, is_zero. destruct (Z.eqb_spec (numer r) 0) as [Ez|Hr]; [by cbn|]. cbn.
  split; [done|]. intros m [= <-].
  pose proof (ratio_div_law q r Hr) as Hdiv. set (x := ratio_div q r) in *. unfold floor. set (k := numer x / denom x).
  destruct (from_integer_law (Q := Q) k) as [Ek Ekd]. set (fk := from_integer k) in *.
  pose proof (ratio_mul_law r fk) as Hmul. set (y := ratio_mul r fk) in *. rewrite Ek, Ekd in Hmul.
  pose proof (ratio_sub_law q y) as Hsub. set (m := ratio_sub q y) in *. unfold is_ratio in *.
  pose proof (denom_positive q). pose proof (denom_positive r). pose proof (denom_positive x). pose proof (denom_positive y). pose proof (denom_positive m).
  assert (Hkey : numer m * denom q * denom r = (numer q * denom r - k * numer r * denom q) * denom m).
  { apply (Z.mul_reg_r _ _ (denom y)); [lia|].
    transitivity ((numer m * (denom q * denom y)) * denom r); [ring|]. rewrite Hsub.
    transitivity ((numer q * denom r * denom y - (numer y * (denom r * 1)) * denom q) * denom m); [ring|]. rewrite Hmul. ring. }
  (* the quotient lies between its floor and the next integer *)
  assert (Hmod : 0 <= numer x mod denom x < denom x) by (by apply Z.mod_pos_bound). rewrite Z.mod_eq in Hmod by lia. fold k in Hmod.
  clearbody m y fk k x.
  assert (Hx : (numer q * denom r - k * numer r * denom q) * denom x = (numer x - denom x * k) * (denom q * numer r)).
  { transitivity (numer q * denom r * denom x - k * numer r * denom q * denom x); [ring|]. rewrite <- Hdiv. ring. }
  set (delta := numer x - denom x * k) in *. set (s := numer q * denom r - k * numer r * denom q) in *.
  exists k. split; [|split].
  - unfold s in Hkey. lia.
  - assert (0 <= s * numer r). { apply (Z.mul_le_mono_pos_r _ _ (denom x)); [lia|].
      replace (s * numer r * denom x) with (s * denom x * numer r) by ring. rewrite Hx. nia. }
    apply (Z.mul_le_mono_pos_r _ _ (denom q * denom r)); [nia|].
    replace (numer m * numer r * (denom q * denom r)) with (numer m * denom q * denom r * numer r) by ring. rewrite Hkey. nia.
  - apply (Z.mul_lt_mono_pos_r (denom q)); [lia|].
    replace (Z.abs (numer m) * denom r * denom q) with (Z.abs (numer m * denom q * denom r)) by (rewrite !Z.abs_mul, !(Z.abs_eq (denom _)) by lia; ring).
    rewrite Hkey, Z.abs_mul, (Z.abs_eq (denom m)) by lia.
    assert (Z.abs s < Z.abs (numer r) * denom q).
    { apply (Z.mul_lt_mono_pos_r (denom x)); [lia|].
      replace (Z.abs s * denom x) with (Z.abs (s * denom x)) by (rewrite Z.abs_mul, (Z.abs_eq (denom x)) by lia; ring).
      rewrite Hx, !Z.abs_mul, (Z.abs_eq delta), (Z.abs_eq (denom q)) by lia.
      rewrite (Z.mul_comm delta), (Z.mul_comm (Z.abs (numer r)) (denom q)).
      apply Z.mul_lt_mono_pos_l; [apply Z.mul_pos_pos; lia|lia]. }
    replace (Z.abs (numer r) * denom m * (denom q)) with (Z.abs (numer r) * denom q * denom m) by ring.
    by apply Z.mul_lt_mono_pos_r.
Qed.
End values.

(** * Rationals that satisfy the interface, and the theorems at work

    The canonical rationals of the Standard Library ([Qc]) with decimal printing
    implement [BigRational] and its laws, so the theorems about numbers apply; samples
    evaluate the parser on them. *)

From Stdlib Require Import ZArith QArith Qcanon Ascii String Lia.
Local Open Scope Z_scope.
Local Open Scope list_scope.

(** ** Decimal digits of an integer *)
Fixpoint decimal_digits (fuel : nat) (n : Z) : text :=
  match fuel with
  | O => []
  | S fuel => if n <? 10 then [48 + n] else decimal_digits fuel (n / 10) ++ [48 + n mod 10]
  end.

Definition qc_display_int (n : Z) : text :=
  let digits := decimal_digits (S (Z.to_nat (Z.log2 (Z.abs n)))) (Z.abs n) in
  if n <? 0 then ch_minus :: digits else digits.

Definition radix_digit (radix ch : Z) : bool :=
  if radix =? 10 then is_decimal_digit ch else if radix =? 16 then is_hex_digit ch else is_binary_digit ch.
Definition qc_parse_bytes (digits : text) (radix : Z) : option Z :=
  if bool_decide (digits = []) || negb (forallb (radix_digit radix) digits) then None else Some (digits_value radix digits).

Lemma decimal_of_digit d : 0 <= d < 10 -> is_decimal_digit (48 + d) = true /\ digit_value (48 + d) = d.
Proof.
  intros Hd. assert (H : is_decimal_digit (48 + d) = true) by (apply decimal_digit_range; lia).
  split; [done|]. apply digit_value_decimal in H. lia.
Qed.

Lemma decimal_digits_spec fuel n : 0 <= n < 2 ^ Z.of_nat fuel ->
  (fuel <> 0%nat -> decimal_digits fuel n <> []) /\
  Forall (fun ch => is_decimal_digit ch = true) (decimal_digits fuel n) /\ digits_value 10 (decimal_digits fuel n) = n.
Proof.
  revert n. induction fuel as [|fuel IH]; intros n Hn; [cbn in *; repeat split; [done|constructor|lia]|].
  cbn [decimal_digits]. destruct (Z.ltb_spec n 10) as [Hlt|Hge].
  - destruct (decimal_of_digit n) as [Hd Hv]; [lia|]. repeat split; [done|by constructor|]. cbn. lia.
  - rewrite Nat2Z.inj_succ, Z.pow_succ_r in Hn by lia.
    pose proof (Z.mod_pos_bound n 10 ltac:(lia)). pose proof (Z.div_mod n 10 ltac:(lia)).
    destruct (IH (n / 10)) as (_ & Hd & Hv).
    { split; [apply Z.div_pos; lia|]. apply Z.div_lt_upper_bound; lia. }
    destruct (decimal_of_digit (n mod 10)) as [Hc Hcv]; [lia|]. repeat split.
    + intros _ [_ ?]%app_nil. done.
    + apply Forall_app. split; [done|by constructor].
    + rewrite digits_value_snoc, Hv, Hcv. lia.
Qed.

(** ** The canonical rationals *)
Definition qc_ratio (n d : Z) : Qc := Q2Qc (inject_Z n / inject_Z d).
#[export] Instance qc_rational : BigRational Qc := {
  ratio_new := qc_ratio;
  from_integer n := Q2Qc (inject_Z n);
  numer q := Qnum q;
  denom q := Zpos (Qden q);
  ratio_neg := Qcopp;
  ratio_add := Qcplus;
  ratio_sub := Qcminus;
  ratio_mul := Qcmult;
  ratio_div := Qcdiv;
  parse_bytes := qc_parse_bytes;
  display_int := qc_display_int;
}.

Lemma is_ratio_qc (q : Qc) n d : d <> 0 -> is_ratio q n d <-> (q == inject_Z n / inject_Z d)%Q.
Proof.
  intros Hd. unfold is_ratio. cbn [numer denom qc_rational]. destruct q as [[qn qd] Hq]. cbn [this Qnum Qden].
  unfold Qeq, Qdiv, Qinv, inject_Z, Qmult. cbn. destruct d as [|p|p]; [done| |]; cbn; rewrite ?Z.mul_1_r; [done|].
  rewrite <- !Pos2Z.opp_pos. split; lia.
Qed.

Lemma qc_value (q : Qc) : (q == inject_Z (numer q) / inject_Z (denom q))%Q.
Proof. apply (is_ratio_qc q (numer q) (denom q)); done. Qed.

Lemma inject_Z_nonzero n : n <> 0 -> ~ (inject_Z n == 0)%Q.
Proof. unfold Qeq, inject_Z. cbn. lia. Qed.

#[export] Instance qc_rational_laws : RationalLaws Qc.
Proof.
  split.
  - intros q. done.
  - intros q. cbn. destruct q as [q Hq]. exact (proj1 (Qred_iff q) Hq).
  - intros [[qn qd] Hq] [[rn rd] Hr]. cbn. intros -> [= ->]. by apply Qc_is_canon.
  - intros n d Hd. apply is_ratio_qc; [done|]. apply Qred_correct.
  - intros n. cbn [from_integer numer denom qc_rational Q2Qc this]. pose proof (Qred_identity (inject_Z n)) as E.
    rewrite E by (cbn; apply Z.gcd_1_r). done.
  - intros q. apply is_ratio_qc; [done|]. rewrite inject_Z_opp. etransitivity; [apply Qred_correct|].
    setoid_rewrite (qc_value q) at 1. field. by apply inject_Z_nonzero.
  - intros q r. apply is_ratio_qc; [done|]. rewrite inject_Z_plus, !inject_Z_mult. etransitivity; [apply Qred_correct|].
    setoid_rewrite (qc_value q) at 1. setoid_rewrite (qc_value r) at 1. field. by split; apply inject_Z_nonzero.
  - intros q r. apply is_ratio_qc; [done|]. unfold Z.sub. rewrite inject_Z_plus, inject_Z_opp, !inject_Z_mult.
    etransitivity; [apply Qred_correct|]. cbn [Qcopp this]. 
    setoid_rewrite (qc_value q) at 1. setoid_rewrite Qred_correct. setoid_rewrite (qc_value r) at 1. field. by split; apply inject_Z_nonzero.
  - intros q r. apply is_ratio_qc; [done|]. rewrite !inject_Z_mult. etransitivity; [apply Qred_correct|].
    setoid_rewrite (qc_value q) at 1. setoid_rewrite (qc_value r) at 1. field. by split; apply inject_Z_nonzero.
  - intros q r Hr. apply is_ratio_qc; [apply Z.neq_mul_0; done|]. rewrite !inject_Z_mult. etransitivity; [apply Qred_correct|].
    setoid_rewrite (qc_value q) at 1. setoid_rewrite Qred_correct. setoid_rewrite (qc_value r) at 1. field.
    repeat split; by apply inject_Z_nonzero.
  - intros digits radix is_digit Hr Hne Hd. cbn [parse_bytes qc_rational]. unfold qc_parse_bytes.
    rewrite bool_decide_eq_false_2 by done. cbn [orb]. replace (forallb (radix_digit radix) digits) with true; [done|].
    symmetry. apply forallb_forall. intros ch Hin. rewrite list.Forall_forall in Hd. unfold radix_digit.
    destruct Hr as [[-> ->]|[[-> ->]|[-> ->]]]; cbn; apply Hd; by apply list_elem_of_In.
  - intros n. cbn [display_int qc_rational]. unfold qc_display_int.
    set (digits := decimal_digits _ _). exists digits. split; [done|].
    destruct (decimal_digits_spec (S (Z.to_nat (Z.log2 (Z.abs n)))) (Z.abs n)) as (Hne & Hd & Hv).
    { split; [lia|]. rewrite Nat2Z.inj_succ, Z2Nat.id by apply Z.log2_nonneg.
      destruct (Z.eq_dec n 0) as [->|Hn]; [done|]. apply Z.log2_spec. lia. }
    by repeat split; [apply Hne|..].
Qed.

(** ** The parser on concrete literals *)
Fixpoint text_of (s : string) : text :=
  match s with EmptyString => [] | String ch rest => Z.of_N (Ascii.N_of_ascii ch) :: text_of rest end.
Definition terms (o : outcome NumberError Qc) : outcome NumberError (Z * Z) := q ← o; Ok (numer q, denom q).

Example parse_samples :
  terms (parse (text_of "_1_000/3_6")) = Ok (-250, 9) /\
  terms (parse (text_of "0x_ff")) = Err (InvalidSeparator (text_of "_ff")) /\
  terms (parse (text_of "0Xf_f")) = Ok (255, 1) /\
  terms (parse (text_of "0b101")) = Ok (5, 1) /\
  terms (parse (text_of "-1_2.50e_3")) = Ok (-1, 80) /\
  terms (parse (text_of "9999999999999999999999")) = Ok (9999999999999999999999, 1) /\
  terms (parse (text_of "1/0")) = Err DivisionByZero /\
  terms (parse (text_of "1/2/3")) = Err (AmbiguousSlashChain (text_of "1/2/3")) /\
  terms (parse (text_of "1e100001")) = Err (ExponentTooLarge (text_of "100001")) /\
  terms (parse (text_of "-")) = Err MissingDigits.
Proof. by vm_compute. Qed.

Example display_samples :
  display (qc_ratio (-6) 4) = text_of "-3/2" /\ display (qc_ratio 120 (-1)) = text_of "-120" /\ display (qc_ratio 0 7) = text_of "0".
Proof. by vm_compute. Qed.

(** ** Witnesses *)
Lemma number_roundtrip_witness :
  display (qc_ratio (-1000000000000000000000) 7) = text_of "-1000000000000000000000/7" /\
  parse (display (qc_ratio (-1000000000000000000000) 7)) = Ok (qc_ratio (-1000000000000000000000) 7).
Proof. split; [by vm_compute|]. apply (number_roundtrip (qc_ratio (-1000000000000000000000) 7)). Defined.

Lemma decimal_literals_correct_witness :
  text_of "12e3" = literal (text_of "12") None (Some (false, text_of "3")) /\
  (exists q : Qc, parse (text_of "12e3") = Ok q /\ is_ratio q 12000 1) /\
  (exists q : Qc, parse (text_of "1_2.50E_3") = Ok q /\ is_ratio q 1250 100000 /\
     parse (text_of "-1_2.50E_3") = Ok (ratio_neg q)).
Proof.
  split; [reflexivity|]. split.
  - destruct (proj2 (decimal_literals_correct (Q := Qc) [] (text_of "12") None (Some (false, text_of "3")) (text_of "12") [] false 3))
      as (q & Hq & Hv & _); [reflexivity|reflexivity|vm_compute; discriminate|reflexivity|]. exists q. split; [exact Hq|exact Hv].
  - destruct (proj2 (decimal_literals_correct (Q := Qc) [] (text_of "1_2") (Some (text_of "50")) (Some (true, text_of "_3"))
      (text_of "12") (text_of "50") true 3)) as (q & Hq & Hv & Hneg); [reflexivity|reflexivity|vm_compute; discriminate|reflexivity|].
    exists q. split; [exact Hq|]. split; [exact Hv|]. exact (Hneg ch_minus (or_introl eq_refl)).
Defined.

Lemma checked_mod_correct_witness : exists m : Qc, checked_mod (qc_ratio (-7) 2) (qc_ratio 2 3) = Some m /\
  exists k, numer (qc_ratio (-7) 2) * denom (qc_ratio 2 3) * denom m =
    (k * numer (qc_ratio 2 3) * denom m + numer m * denom (qc_ratio 2 3)) * denom (qc_ratio (-7) 2) /\
    0 <= numer m * numer (qc_ratio 2 3) /\ Z.abs (numer m) * denom (qc_ratio 2 3) < Z.abs (numer (qc_ratio 2 3)) * denom m.
Proof.
  eexists. split; [reflexivity|]. apply (proj2 (checked_mod_correct (qc_ratio (-7) 2) (qc_ratio 2 3))). reflexivity.
Defined.
